(* ===== verification/_CoqProject ===== *)
-Q . S2P
Prelude.v
Spsc.v
Ring.v
LatencyHistogram.v
IdleBackoff.v
MoneyTicks.v
FixedPoint.v
MarketTypes.v
StrategyTypes.v
MonotonicArb.v
MonotonicArbSound.v
FramePool.v
Book.v
Event.v
Router.v
ControlTypes.v
Universe.v
ShardTypes.v
MarketParser.v
WireTypes.v
Wire.v
WireSequence.v
WireStream.v
WireRecovery.v
Shard.v
ShardFrames.v
ShardStrategy.v
ShardRecovery.v
Recovery.v
RecoveryInv.v
RecoverySafety.v
OmsTypes.v
RestTypes.v
RestAdapter.v
RestOrders.v
ControlPlaneTypes.v
RestSession.v
RestSettled.v
RestDrained.v
OrderParser.v
OrderSession.v
OrderFeed.v
OrderReady.v
OrderTrade.v
Config.v
ControlPlane.v
ControlSafety.v
OperatorJson.v
Tape.v
Logger.v
LoggerTape.v
Operator.v
OperatorSocket.v
OperatorLine.v
UniverseInstall.v
Strategy.v
App.v
AppStart.v
Signing.v
Http2.v
Http2Account.v
WebSocketSession.v
WebSocketOrder.v
StrategySafety.v
OmsRisk.v
Oms.v
OmsDemo.v
OmsFrame.v
OmsReserve.v
OmsIncident.v
OmsAdmission.v
StrategyAdmission.v
ConfigSound.v
OmsCapital.v
OmsFills.v
OmsGroup.v
OmsPump.v
Threads.v
ThreadsStop.v
