(* ===== verification/Prelude.v ===== *)
(** * A verification library for PredEx

    PredEx is a trading system for the Kalshi prediction market: C++ threads that
    talk only through bounded single-producer single-consumer queues.  Paths below
    are relative to [src/].

    ** The program and its parts

    - The wire session ([cpp/src/ingest/kalshi/market_data]) receives market data over a
      websocket into slots of a frame pool, checks sequence numbers and hands frame handles,
      and barriers for what is missing, to the router ([cpp/src/router]).
    - The router forwards each handle to the shard that owns its market.  When a
      shard's queue is full it substitutes an invalidation barrier, so that a book
      with a lost delta is never trusted.
    - A shard ([cpp/src/shard]) parses frames, applies them to the order books of its
      events, publishes four-level observations to strategies, and tells control which
      markets need a recovery snapshot.
    - Strategies send order intents to the order management system, the OMS
      ([cpp/src/oms]).  The OMS alone decides on orders.  It gates trading, reserves
      capital, tracks orders, groups and positions, and repairs a group whose legs
      executed unequally.
    - The REST session ([cpp/src/exchange/kalshi]) carries the commands of the OMS to the
      venue over HTTP; the private feed ([cpp/src/ingest/kalshi/order_data]) brings back what
      happened to the orders.
    - The control plane ([cpp/src/control]), in the main thread, installs universes, allows
      and disables trading, coordinates recovery and answers the operator, who reaches it
      through a Unix socket ([cpp/src/operator], [cpp/src/socket], [cpp/apps/predexctl]).
    - The logger ([cpp/include/predex/logging]) writes every frame to a tape, which Python
      tools replay, and hands the frame back to the pool.
    - [cpp/src/config] reads and validates the configuration and builds the universe;
      [cpp/apps/predex/main.cpp] assembles, starts and stops everything.

    ** Which file models what

    A name below is a file, or the Module of the concrete instances and further theorems at
    the end of a file of theorems: [ControlDemo] is in [ControlSafety.v], [WireDemo] in
    [WireRecovery.v], [ShardDemo] in [ShardRecovery.v], [WireRetry] in [RecoverySafety.v],
    [RestBatch] in [RestOrders.v], [RestDemo] in [RestDrained.v], [OrderDemo] in [OrderTrade.v],
    [LoggerDemo] in [LoggerTape.v], [OperatorDemo] in [OperatorLine.v], [ConfigDemo] in
    [ConfigSound.v], [RestHttp] in [Http2Account.v], [WebSocketDemo] in [WebSocketOrder.v],
    [ThreadsDemo] in [ThreadsStop.v], [Footprint] in [OmsFrame.v], [GroupOrder] in
    [OmsCapital.v], [Repair] in [OmsFills.v] and [Scenarios] in [OmsPump.v].

    - [Prelude]: record update, machine integers, a state monad [M] with the two
      program logics used throughout ([wp], postconditions of a command, and [rel],
      relations between the states before and after), tactics and hints.
    - [Spsc]: [SPSCQueue] of [cpp/include/predex/utils/spsc.hpp], two threads
      interleaved at every access to shared data, and the interface [PushQueue] with
      its laws [PushQueueLaws].  The router and the OMS are verified against the
      interface; [ring_implements_push] connects it with the ring buffer.
    - [LatencyHistogram], [IdleBackoff]: the utilities of the same names.
    - [MoneyTicks]: [parse_money_ticks] of
      [cpp/include/predex/exchange/kalshi/money_ticks.hpp].
    - [FixedPoint]: the decimal readers of [cpp/src/shard/market_parser.cpp] and
      [cpp/src/exchange/kalshi/adapters/order_rest_adapter.cpp] and the latter's printer.
    - [MarketTypes], [StrategyTypes], [ControlTypes], [ShardTypes]: the messages of the
      market-data path, between shards and strategies, and with control.
    - [FramePool]: [FramePool] of
      [cpp/include/predex/ingest/kalshi/market_data/frame_pool.hpp].
    - [Book], [Event]: [KalshiBook] of [cpp/include/predex/shard/models.hpp], [Event]
      and [EventStore] of [cpp/src/shard].
    - [Router]: [cpp/src/router/router.cpp] and its header.
    - [MarketParser]: [cpp/src/shard/market_parser.cpp], over the interface [SimdJson] of
      the JSON library.
    - [Shard]: the class [Shard] of [cpp/src/shard/shard.cpp]; [ShardFrames],
      [ShardStrategy] and [ShardRecovery] hold its theorems on frame handles, on what
      strategies see and on recovery reports; [ShardDemo] is a concrete shard.
    - [Ring]: a ring buffer of waiting events as a list, shared by the REST session and the
      private feed.
    - [WireTypes], [Wire]: [wire_session.cpp] and its header, over the interfaces [WebSocket]
      and [SimdJson]; [WireSequence], [WireStream], [WireRecovery], [WireRetry] its theorems on
      sequence numbers, on the stream to the router and on recovery requests; [WireDemo] a
      concrete session.
    - [WebSocketSession]: [websocket_session.cpp], over the interface [Beast] of Asio and Beast,
      and an instance of the transport the wire session and the private feed rely on;
      [WebSocketOrder] its theorem, [WebSocketDemo] a network that follows a script.
    - [Signing]: [auth_signer.cpp] and the messages of [market_data_handler.cpp] and
      [order_data_handler.cpp], over the interface [Rsa].
    - [RestTypes], [RestAdapter]: [order_rest_adapter.cpp], over the interface [NlohmannJson];
      [RestOrders] and [RestBatch] its theorems on the text of orders and on batches.
    - [RestSession]: [order_rest_session.cpp], over the interface [HttpSession];
      [RestSettled] and [RestDrained] its theorems, [RestDemo] a concrete session.
    - [Http2]: [http2_session.cpp], over the interface [Libcurl]; [Http2Account] its theorem;
      [RestHttp] shows that it is the HTTP session that the REST session relies on.
    - [OrderParser], [OrderSession]: the private feed of [cpp/src/ingest/kalshi/order_data],
      over [SimdJson] and [OrderWebSocket]; [OrderFeed], [OrderReady] and [OrderTrade] its
      theorems on events, subscriptions and fills, [OrderDemo] a concrete feed.
    - [ControlPlaneTypes], [ControlPlane]: [control_plane.cpp] and the round of the main
      thread; [ControlSafety] its theorems, [ControlDemo] a concrete control plane.
    - [Universe]: [universe_builder.cpp]; [UniverseInstall] what the built universe installs.
    - [Config]: [app_config.cpp]; [App]: the assembly and start of [main.cpp]; [AppStart] the
      order of the start; [ConfigSound] what an accepted configuration guarantees; [ConfigDemo]
      a concrete configuration.
    - [Threads]: the thread functions, the main loop and the shutdown of [main.cpp];
      [ThreadsStop] its theorem, [ThreadsDemo] a logger that is stopped.
    - [OperatorJson], [Operator]: [operator_command_handler.cpp]; [OperatorSocket]:
      [unix_command_server.cpp] and the client [predexctl]; [OperatorLine] the round trip of a
      command, [OperatorDemo] a concrete one.
    - [Tape]: the format of the tape and the reader of
      [python/src/predex/replay/market_data_tape.py]; [Logger]: [market_data_logger.hpp];
      [LoggerTape] its theorem, [LoggerDemo] a tape of two records.
    - [Recovery]: [cpp/src/control/recovery_coordinator.cpp]; [RecoveryInv] its invariant,
      [RecoverySafety] its theorems.
    - [MonotonicArb]: [cpp/src/strategy/monotonic_arb.cpp]; [MonotonicArbSound] its theorems.
    - [Strategy]: [cpp/src/strategy/strategy.cpp] and its header; [StrategySafety] its
      invariant and theorems; [StrategyAdmission] its composition with the OMS.
    - [OmsTypes], [OmsRisk], [Oms]: the data, arithmetic and all handlers of
      [cpp/src/oms/oms.cpp], up to [pump_once].
    - [OmsDemo]: a concrete OMS on which theorems are instantiated.
    - [OmsFrame], [Footprint], [OmsReserve]: what each OMS method leaves unchanged.
    - [OmsIncident], [OmsAdmission], [OmsCapital], [GroupOrder], [OmsFills],
      [Repair], [OmsGroup], [OmsPump]: one group of theorems each.
    - [Scenarios]: two runs in which the OMS departs from its documentation.

    Each method is one definition with the source's name, and large methods are
    split where the source has a loop or an early return.  A struct is a record with
    a short prefix on its fields; an enum or variant is an inductive type.

    ** What the theorems show

    - Queues: every interleaving is linearizable to a bounded FIFO, slot accesses do
      not conflict, the destructor is exact.
    - Frame pool: slots partition, handles are exclusive, stale handles are dead.
    - Books: the books refine an abstract book that knows no indices and no unsigned
      arithmetic; revisions identify contents; reported transitions are exact;
      observations show the true best levels.
    - Router: per-shard order is preserved, a lost frame is replaced in place, facts
      reach control only after their barrier reached every shard, and a blocked
      router makes progress as soon as there is room.
    - Parsing: a document that says what the exchange documents is read exactly; any
      document yields typed, in-range messages or none; both decimal readers equal exact
      decimal arithmetic, and what the order path prints is read back unchanged.
    - Shard: what a strategy last heard of a pair of markets is the pair's current view;
      every frame taken is handed on exactly once, past the logger only when its queue is
      full; recovery reports are produced exactly when due and never lost, and while one
      waits no message is taken.  [desync_is_not_reported] shows the case no report is due.
    - Recovery coordinator: one incident owns a market at a time; an incident ends only
      with a snapshot or by supersession; only sendable requests are proposed; a failed
      allocation changes nothing; timeouts follow the policy.
    - Strategies: a candidate is executable on the observed books, its edge is exact, the
      best available, and locked in whatever the settlement; a strategy publishes only for
      checked observations, one group per event and within its capital, it keeps its account
      of pending groups exact, it falls silent after an unsafe group, and what it publishes
      an open OMS admits, for the same capital.
    - OMS: no trading during an execution incident, in any reachable state; admission
      is sound; capital is reserved exactly and before an order is sent; a group intent is
      submitted whole or not at all; fills move
      positions exactly once; repair orders exactly oppose the residual; a group
      closes honestly; the pump's drains are bounded and poll every queue in every round.
    - Wire session: what a round adds to the stream to the router is exactly what the message
      is due, with the barrier of a gap before it; a message is lost for stated reasons only,
      and counted; none is consumed while a barrier waits; every recovery request is answered
      for.
    - Order path: the text of every order means what the intent meant; every command is
      settled once and the drain is the last word; the REST session and the HTTP session agree
      on what is in flight, and every accepted request is answered once.
    - Private feed: every order event reaches the OMS in order or the feed is closed; a
      subscription counts only when acknowledged; a fill is read as the trade it reports.
    - Websocket session: messages are given to Beast in order and one at a time, closing ends
      with nothing outstanding; [late_write_after_close] shows the case an assertion fails.
    - Control plane: trading is allowed only on request, in session and with all components
      ready; the phase it reports is true; a fault is reported but not passed on to the OMS.
    - Universe, configuration and start: the universe is installed as routed; an accepted
      configuration can be assembled and its limits fit its strategy; components get the
      universe before the command to connect, and nothing more.
    - Operator: a command makes the round trip as the command its word stands for, and the
      answer is the response to it.
    - Logger and shutdown: the tape reads back as exactly the frames taken; stopping the
      process joins the producers before the logger, which then writes all that waits.
    - Utilities: the money parser equals exact decimal arithmetic rounded once;
      histograms equal their sample lists; the back-off equals its closed form.

    ** Choices and bounds

    - Integers are [Z].  Unsigned operations wrap through [u64], [u32], [u8]; signed
      operations are exact where the source tests for overflow first, and otherwise
      the theorems carry the range as a hypothesis ([is_i64]).
    - The lots of a position are added in [Z], where the source adds [int64_t] without a test,
      and the average price of a position, a [long double] there, is the exact quotient: a
      position of more than 2^63 lots and the rounding of the average are left out.
    - The tape is the sequence of bytes given to its stream, whose buffer is left out.
    - Clocks are sequences of readings, [clk], and the state counts the readings
      made: nothing is assumed of their values.
    - The iteration order of an [std::unordered_map] is a parameter, [hash_order];
      where a theorem needs it, it assumes only a permutation of the keys.
    - An incoming queue of the OMS, a shard or a strategy is the list of the results of its next
      [try_pop] calls, so every arrival pattern of the producer is some list.
    - Libraries are classes over a state of their own: [SimdJson], [NlohmannJson] with its
      getters and text, [Libcurl], [Beast], [Rsa].  Their laws, where a theorem needs them, are
      classes too ([LibcurlLaws], [BeastLaws], [NlohmannTyped], [NlohmannRoundTrip]), and the
      concrete sessions show that they can hold.
    - A shard reads the frame pool, which other threads change, and the outcome of
      allocations as functions of the number of clock readings made: nothing is assumed
      of either.
    - Loops over queues take fuel equal to their budget, because every round but the
      last handles a message ([drain_is_bounded_and_fair] shows that more fuel changes
      nothing); the destructor's fuel is the capacity; other loops are structural.
    - The fuel of other loops: 64 levels for reading JSON of orders back, which have three;
      the number of messages libcurl holds, and one ([messages_are_read]); the handlers that
      are left when a websocket is closed ([close_loop_settles]); eleven polls of the operator's
      handler, one more than fit in its 500 ms; the bytes of a tape for its reader; the handles
      that wait, and one, for the last pumps of the logger ([rest_written]).  A thread's loop
      takes the number of times that it is not yet asked to stop.

    ** Not modelled

    The libraries themselves (simdjson, nlohmann::json, libcurl, Asio and Beast, OpenSSL) and
    the system calls behind sockets, files and threads, which are parameters; sleeping and
    the handing of queue references to components, which have no state of their own; the Python
    tooling except the reader of tapes, which is offline and in another language. *)

From stdpp Require Export base tactics list gmap fin_maps strings numbers relations sorting.
From Stdlib Require Export ZArith Lia.

Create HintDb predex.

(** ** Functional record update

    The C++ code mutates single members of large structs.  Every record of the
    model registers its eta expansion once; [r ⟪ p := v ⟫] is then [r] with the
    member [p] replaced by [v], and [r ⟪ p ::= f ⟫] applies [f] to it. *)

Class Eta (R : Type) := eta : R → R.

Class Field {R A : Type} (p : R → A) := upd : (A → A) → R → R.

Ltac solve_field :=
  lazymatch goal with
  | |- @Field ?R ?A ?p =>
      let i := constr:(_ : Eta R) in
      let r := fresh "r" in
      let f := fresh "f" in
      refine (fun (f : A → A) (r : R) => _);
      let body := eval hnf in (i r) in
      let e := eval pattern (p r) in body in
      lazymatch e with
      | ?g (p r) => let t := eval cbv beta in (g (f (p r))) in exact t
      end
  end.

#[export] Hint Extern 0 (Field _) => solve_field : typeclass_instances.

Declare Scope predex_scope.
Delimit Scope predex_scope with predex.

Notation "r ⟪ p := v ⟫" := (upd (p := p) (fun _ => v) r)
  (at level 1, p at level 0, v at level 200, left associativity,
   format "r ⟪ p  :=  v ⟫") : predex_scope.
Notation "r ⟪ p ::= f ⟫" := (upd (p := p) f r)
  (at level 1, p at level 0, f at level 200, left associativity,
   format "r ⟪ p  ::=  f ⟫") : predex_scope.
#[export] Set Warnings "-notation-incompatible-prefix,-clear-no-such-hyp".
Open Scope predex_scope.
Open Scope Z_scope.

(** ** Machine integers

    A fixed-width integer is a [Z].  Unsigned arithmetic wraps, so every
    unsigned sum, difference or increment that can leave its range is written
    through [u64], [u32] or [u8].  A conversion to [int64_t] is [i64].  Signed
    overflow is undefined in C++: signed expressions are computed in [Z] and
    the theorems that rely on their range say so. *)

Abbreviation U8_MAX := 255.
Abbreviation U16_MAX := 65535.
Abbreviation U32_MAX := 4294967295.
Abbreviation U64_MAX := 18446744073709551615.
Abbreviation I64_MAX := 9223372036854775807.
Abbreviation I64_MIN := (-9223372036854775808).

Definition u8 (z : Z) : Z := z mod 256.
Definition u32 (z : Z) : Z := z mod 4294967296.
Definition u64 (z : Z) : Z := z mod 18446744073709551616.
Definition i64 (z : Z) : Z := (z + 9223372036854775808) mod 18446744073709551616 - 9223372036854775808.

Definition is_u8 (z : Z) : Prop := 0 ≤ z ≤ U8_MAX.
Definition is_u32 (z : Z) : Prop := 0 ≤ z ≤ U32_MAX.
Definition is_u64 (z : Z) : Prop := 0 ≤ z ≤ U64_MAX.
Definition is_i64 (z : Z) : Prop := I64_MIN ≤ z ≤ I64_MAX.

Lemma u64_range z : is_u64 (u64 z).
Proof. unfold is_u64, u64. pose proof (Z.mod_pos_bound z 18446744073709551616). lia. Qed.

Lemma u32_range z : is_u32 (u32 z).
Proof. unfold is_u32, u32. pose proof (Z.mod_pos_bound z 4294967296). lia. Qed.

Lemma u64_id z : is_u64 z → u64 z = z.
Proof. unfold is_u64, u64. intros. apply Z.mod_small. lia. Qed.

Lemma u32_id z : is_u32 z → u32 z = z.
Proof. unfold is_u32, u32. intros. apply Z.mod_small. lia. Qed.

Lemma u8_id z : is_u8 z → u8 z = z.
Proof. unfold is_u8, u8. intros. apply Z.mod_small. lia. Qed.

Lemma i64_id z : is_i64 z → i64 z = z.
Proof. unfold is_i64, i64. intros. rewrite Z.mod_small; lia. Qed.

(** Unsigned subtraction recovers a difference that fits, even after wrapping:
    the fact ring-buffer indices rely on. *)
Lemma u64_sub_wrap a b d : 0 ≤ d ≤ U64_MAX → a = b + d → u64 (u64 a - u64 b) = d.
Proof.
  intros Hd ->. unfold u64. rewrite <- Zminus_mod.
  replace (b + d - b) with d by lia. apply Z.mod_small. lia.
Qed.

Lemma u64_succ_wrap a : u64 (u64 a + 1) = u64 (a + 1).
Proof. unfold u64. by rewrite Zplus_mod_idemp_l. Qed.

(** Masking with [2^k - 1] is reduction modulo [2^k], also after wrapping. *)
Lemma land_mask_mod a k : 0 ≤ k → Z.land a (2 ^ k - 1) = a mod 2 ^ k.
Proof. intros Hk. rewrite <- Z.land_ones by done. by rewrite Z.ones_equiv, Z.sub_1_r. Qed.

Lemma u64_mod_pow2 a k : 0 ≤ k ≤ 64 → u64 a mod 2 ^ k = a mod 2 ^ k.
Proof.
  intros Hk. unfold u64.
  change 18446744073709551616 with (2 ^ 64).
  assert (2 ^ 64 = 2 ^ k * 2 ^ (64 - k)) as ->
    by (rewrite <- Z.pow_add_r by lia; f_equal; lia).
  rewrite Z.rem_mul_r by (pose proof (Z.pow_pos_nonneg 2 k); pose proof (Z.pow_pos_nonneg 2 (64 - k)); lia).
  rewrite Z.mul_comm, Z_mod_plus_full.
  apply Z.mod_mod. pose proof (Z.pow_pos_nonneg 2 k). lia.
Qed.

#[export] Hint Resolve u64_range u32_range : predex.

(** ** A state monad for the single-owner threads

    Each component of PredEx is owned by one thread and mutates its own state:
    a method is a function from the state to a result and the next state. *)

Definition M (S A : Type) : Type := S → A * S.

#[export] Instance M_ret {S : Type} : MRet (M S) := λ A a s, (a, s).
#[export] Instance M_bind {S : Type} : MBind (M S) :=
  λ A B k m s, match m s with (a, s') => k a s' end.

Definition gets {S A : Type} (f : S → A) : M S A := λ s, (f s, s).
Definition modify {S : Type} (f : S → S) : M S unit := λ s, (tt, f s).
Definition when {S : Type} (b : bool) (m : M S unit) : M S unit :=
  if b then m else mret tt.

Fixpoint forM_ {S A : Type} (l : list A) (f : A → M S unit) : M S unit :=
  match l with
  | [] => mret tt
  | x :: l' => f x ;; forM_ l' f
  end.

(** [rel R m]: running [m] relates the state before to the state after by [R].
    Invariants are the special case [keeps P]. *)
Definition rel {S A : Type} (R : S → S → Prop) (m : M S A) : Prop := ∀ s, R s (m s).2.

Definition keeps {S : Type} (P : S → Prop) : S → S → Prop := λ s s', P s → P s'.

#[export] Instance keeps_preorder {S} (P : S → Prop) : PreOrder (keeps P).
Proof. split; unfold keeps; repeat intro; auto. Qed.

(** A projection of the state that is left alone. *)
Definition same {S B : Type} (π : S → B) : S → S → Prop := λ s s', π s' = π s.

#[export] Instance same_preorder {S B} (π : S → B) : PreOrder (same π).
Proof. split; unfold same; repeat intro; congruence. Qed.

Section Rel.
Context {S : Type} (R : S → S → Prop) `{!PreOrder R}.

Lemma rel_ret {A} (a : A) : rel R (mret a : M S A).
Proof. intros s. reflexivity. Qed.

Lemma rel_gets {A} (f : S → A) : rel R (gets f).
Proof. intros s. reflexivity. Qed.

Lemma rel_modify (f : S → S) : (∀ s, R s (f s)) → rel R (modify f).
Proof. intros H s. apply H. Qed.

Lemma rel_bind {A B} (m : M S A) (k : A → M S B) :
  rel R m → (∀ a, rel R (k a)) → rel R (m ≫= k).
Proof.
  intros Hm Hk s. unfold mbind, M_bind. specialize (Hm s).
  destruct (m s) as [a s']. etrans; [exact Hm|apply Hk].
Qed.

Lemma rel_when b (m : M S unit) : rel R m → rel R (when b m).
Proof. destruct b; [done|intros; apply rel_ret]. Qed.

Lemma rel_forM {A} (l : list A) (f : A → M S unit) :
  (∀ x, rel R (f x)) → rel R (forM_ l f).
Proof.
  intros Hf. induction l as [|x l IH]; [apply rel_ret|].
  apply rel_bind; [apply Hf|intros; apply IH].
Qed.

Lemma rel_if {A} (b : bool) (m1 m2 : M S A) :
  rel R m1 → rel R m2 → rel R (if b then m1 else m2).
Proof. by destruct b. Qed.

Lemma rel_option {A B} (o : option A) (m1 : A → M S B) (m2 : M S B) :
  (∀ a, rel R (m1 a)) → rel R m2 → rel R (match o with Some a => m1 a | None => m2 end).
Proof. destruct o; auto. Qed.
End Rel.

#[export] Hint Resolve rel_ret rel_gets rel_modify rel_when rel_if : predex.

(** Symbolic execution of [rel]: monad laws, conditionals and matches; the hint
    database [frame] holds the lemmas about methods. *)
Create HintDb frame.

Ltac rel_step :=
  first
    [ solve [auto with frame nocore]
    | apply rel_ret; exact _ | apply rel_gets; exact _
    | apply rel_bind; [exact _| |intros ?]
    | apply rel_when; [exact _|]
    | apply rel_forM; [exact _|intros ?]
    | apply rel_if
    | apply rel_modify; intros ?; solve [reflexivity | auto with frame nocore]
    | match goal with
      | |- rel _ (let _ := _ in _) => cbv zeta
      | |- rel _ (match ?x with _ => _ end) => destruct x
      end
    | solve [intros ?; reflexivity] ].
Ltac rel_auto := repeat rel_step.

(** Weakest preconditions: [wp m Φ s] says what [m] returns and leaves when it
    starts in [s].  Methods always return, so partial and total correctness agree. *)
Definition wp {S A : Type} (m : M S A) (Φ : A → S → Prop) (s : S) : Prop := Φ (m s).1 (m s).2.

Section Wp.
Context {S : Type}.

Lemma wp_ret {A} (a : A) Φ (s : S) : Φ a s → wp (mret a) Φ s.
Proof. done. Qed.

Lemma wp_gets {A} (f : S → A) Φ s : Φ (f s) s → wp (gets f) Φ s.
Proof. done. Qed.

Lemma wp_modify (f : S → S) Φ s : Φ tt (f s) → wp (modify f) Φ s.
Proof. done. Qed.

Lemma wp_bind {A B} (m : M S A) (k : A → M S B) Φ s :
  wp m (λ a, wp (k a) Φ) s → wp (m ≫= k) Φ s.
Proof. unfold wp, mbind, M_bind. by destruct (m s). Qed.

Lemma wp_mono {A} (m : M S A) (Φ Ψ : A → S → Prop) s :
  wp m Φ s → (∀ a s', Φ a s' → Ψ a s') → wp m Ψ s.
Proof. unfold wp. auto. Qed.

Lemma wp_and {A} (m : M S A) (Φ Ψ : A → S → Prop) s :
  wp m Φ s → wp m Ψ s → wp m (λ a s', Φ a s' ∧ Ψ a s') s.
Proof. unfold wp. auto. Qed.

Lemma wp_rel {A} (R : S → S → Prop) (m : M S A) (Φ : A → S → Prop) s :
  rel R m → (∀ a s', R s s' → Φ a s') → wp m Φ s.
Proof. unfold wp, rel. auto. Qed.
End Wp.

(** One step of a method: commands whose effect is immediate. *)
Ltac wp_step :=
  lazymatch goal with
  | |- wp (_ ≫= _) _ _ => apply wp_bind
  | |- wp (mret _) _ _ => apply wp_ret
  | |- wp (gets _) _ _ => apply wp_gets
  | |- wp (modify _) _ _ => apply wp_modify
  end.
Ltac wp_steps := repeat wp_step.

(** Guards that were passed, as propositions. *)
Ltac guards :=
  repeat match goal with
  | H : _ || _ = false |- _ => apply orb_false_iff in H as [? ?]
  | H : negb _ = false |- _ => apply negb_false_iff in H
  | H : negb _ = true |- _ => apply negb_true_iff in H
  | H : (_ =? _) = true |- _ => apply Z.eqb_eq in H
  | H : (_ =? _) = false |- _ => apply Z.eqb_neq in H
  | H : (_ <=? _) = false |- _ => apply Z.leb_gt in H
  | H : (_ <? _) = false |- _ => apply Z.ltb_ge in H
  | H : (_ >=? _) = false |- _ => rewrite Z.geb_leb in H
  | H : (_ >? _) = false |- _ => rewrite Z.gtb_ltb in H
  | H : bool_decide _ = false |- _ => apply bool_decide_eq_false in H
  | H : bool_decide _ = true |- _ => apply bool_decide_eq_true in H
  end.
