(* ===== verification/Spsc.v ===== *)
(** * Spsc: the bounded single-producer single-consumer ring buffer

    Models [SPSCQueue<T>] of [cpp/include/predex/utils/spsc.hpp].  A producer
    and a consumer thread are interleaved at the granularity of their accesses
    to the shared [head_], [tail_] and buffer slots; [producer_step] and
    [consumer_step] are the straight-line segments of [try_emplace] and
    [try_pop] between two such accesses.  Indices are 64-bit and wrap.  The
    [release] store of an index followed by the [acquire] load that reads it is
    what makes the sequentially consistent interleaving used here adequate; the
    separation theorem below shows that the two threads never touch the same
    slot at the same time, so the plain slot accesses do not race.

    The file then states what the queue promises to the threads that push into
    it, the class [PushQueue], and discharges it for the bounded FIFO the ring
    buffer refines. *)

From S2P Require Import Prelude.

Module Spsc.

Section Ring.
Context {T : Type}.

(** Where the producer is inside [try_emplace], and the consumer inside
    [try_pop]. *)
Inductive producer_pc :=
  | PIdle
  | PReload (item : T)   (* cached head says full: about to load [head_] *)
  | PWrite (item : T)    (* room known: about to construct in the slot *)
  | PPublish (item : T). (* constructed: about to store [tail_] *)

Inductive consumer_pc :=
  | CIdle
  | CReload              (* cached tail says empty: about to load [tail_] *)
  | CRead                (* an item is there: about to move it out *)
  | CPublish (item : T). (* moved and destroyed: about to store [head_] *)

Record SPSCQueue := mkSPSCQueue {
  capacity_ : Z;
  mask_ : Z;
  tail_ : Z;
  head_ : Z;
  consumer_head_ : Z;
  consumer_cached_tail_ : Z;
  producer_tail_ : Z;
  producer_cached_head_ : Z;
  buffer_ : gmap Z T;    (* slot index to the live object constructed there *)
  ppc : producer_pc;
  cpc : consumer_pc;
}.

#[export] Instance eta_SPSCQueue : Eta SPSCQueue := λ q,
  mkSPSCQueue (capacity_ q) (mask_ q) (tail_ q) (head_ q) (consumer_head_ q)
    (consumer_cached_tail_ q) (producer_tail_ q) (producer_cached_head_ q)
    (buffer_ q) (ppc q) (cpc q).

(** The constructor rejects a capacity that is not a power of two. *)
Definition make_queue (capacity : Z) : option SPSCQueue :=
  if (capacity =? 0) || negb (Z.land capacity (u64 (capacity - 1)) =? 0)
  then None
  else Some (mkSPSCQueue capacity (u64 (capacity - 1)) 0 0 0 0 0 0 ∅ PIdle CIdle).

(** What a completed call reports to its caller. *)
Inductive event :=
  | Pushed (item : T)
  | PushFull (item : T)
  | Popped (item : T)
  | PopEmpty.

(** One segment of [try_emplace].  In [PIdle] the argument is the item of the
    next call. *)
Definition producer_step (request : option T) (q : SPSCQueue) : option (SPSCQueue * option event) :=
  match ppc q with
  | PIdle =>
      match request with
      | None => None
      | Some item =>
          if u64 (producer_tail_ q - producer_cached_head_ q) =? capacity_ q
          then Some (q ⟪ ppc := PReload item ⟫, None)
          else Some (q ⟪ ppc := PWrite item ⟫, None)
      end
  | PReload item =>
      let q' := q ⟪ producer_cached_head_ := head_ q ⟫ in
      if u64 (producer_tail_ q - head_ q) =? capacity_ q
      then Some (q' ⟪ ppc := PIdle ⟫, Some (PushFull item))
      else Some (q' ⟪ ppc := PWrite item ⟫, None)
  | PWrite item =>
      let slot := Z.land (producer_tail_ q) (mask_ q) in
      Some (q ⟪ buffer_ := <[slot := item]> (buffer_ q) ⟫ ⟪ ppc := PPublish item ⟫, None)
  | PPublish item =>
      let next_tail := u64 (producer_tail_ q + 1) in
      Some (q ⟪ producer_tail_ := next_tail ⟫ ⟪ tail_ := next_tail ⟫ ⟪ ppc := PIdle ⟫,
            Some (Pushed item))
  end.

(** One segment of [try_pop].  Moving from a slot without a live object is
    undefined behaviour, so that segment has no successor. *)
Definition consumer_step (q : SPSCQueue) : option (SPSCQueue * option event) :=
  match cpc q with
  | CIdle =>
      if consumer_head_ q =? consumer_cached_tail_ q
      then Some (q ⟪ cpc := CReload ⟫, None)
      else Some (q ⟪ cpc := CRead ⟫, None)
  | CReload =>
      let q' := q ⟪ consumer_cached_tail_ := tail_ q ⟫ in
      if consumer_head_ q =? tail_ q
      then Some (q' ⟪ cpc := CIdle ⟫, Some PopEmpty)
      else Some (q' ⟪ cpc := CRead ⟫, None)
  | CRead =>
      let slot := Z.land (consumer_head_ q) (mask_ q) in
      item ← buffer_ q !! slot;
      Some (q ⟪ buffer_ := delete slot (buffer_ q) ⟫ ⟪ cpc := CPublish item ⟫, None)
  | CPublish item =>
      let next_head := u64 (consumer_head_ q + 1) in
      Some (q ⟪ consumer_head_ := next_head ⟫ ⟪ head_ := next_head ⟫ ⟪ cpc := CIdle ⟫,
            Some (Popped item))
  end.

Definition capacity (q : SPSCQueue) : Z := capacity_ q.

Definition producer_size (q : SPSCQueue) : Z := u64 (producer_tail_ q - head_ q).

Inductive step (q : SPSCQueue) : option event → SPSCQueue → Prop :=
  | step_producer request q' e :
      producer_step request q = Some (q', e) → step q e q'
  | step_consumer q' e :
      consumer_step q = Some (q', e) → step q e q'.

(** Executions, with the events of completed calls in order. *)
Inductive run (q : SPSCQueue) : list event → SPSCQueue → Prop :=
  | run_refl : run q [] q
  | run_silent tr q1 q2 : run q tr q1 → step q1 None q2 → run q tr q2
  | run_event tr q1 e q2 : run q tr q1 → step q1 (Some e) q2 → run q (tr ++ [e]) q2.

(** [try_push] and [try_pop] run without interference from the other thread. *)
Definition try_push (item : T) (q : SPSCQueue) : option (bool * SPSCQueue) :=
  '(q1, _) ← producer_step (Some item) q;
  '(q2, e2) ← producer_step None q1;
  match e2 with
  | Some (PushFull _) => Some (false, q2)
  | _ =>
      '(q3, e3) ← producer_step None q2;
      match e3 with
      | Some (Pushed _) => Some (true, q3)
      | _ => '(q4, _) ← producer_step None q3; Some (true, q4)
      end
  end.

(** The destructor, run when both threads are done: it destroys the objects from
    [head_] to [tail_].  Destroying a slot without a live object is undefined
    behaviour; the result is the destroyed objects and the slots still live.  At
    most [capacity_] objects are live, which bounds the loop. *)
Fixpoint destroy_loop (fuel : nat) (mask curr_head curr_tail : Z) (buffer : gmap Z T)
    : option (list T * gmap Z T) :=
  if curr_head =? curr_tail then Some ([], buffer)
  else
    match fuel with
    | O => None
    | S fuel' =>
        let slot := Z.land curr_head mask in
        item ← buffer !! slot;
        '(rest, b) ← destroy_loop fuel' mask (u64 (curr_head + 1)) curr_tail (delete slot buffer);
        Some (item :: rest, b)
    end.

Definition destroy (q : SPSCQueue) : option (list T * gmap Z T) :=
  destroy_loop (Z.to_nat (capacity_ q)) (mask_ q) (head_ q) (tail_ q) (buffer_ q).

(** ** The abstract bounded FIFO and the simulation *)

(** The abstract queue: its contents, oldest first. *)
Definition fifo_step (cap : Z) (c : list T) (e : event) (c' : list T) : Prop :=
  match e with
  | Pushed x => Z.of_nat (length c) < cap ∧ c' = c ++ [x]
  | PushFull _ => Z.of_nat (length c) = cap ∧ c' = c
  | Popped x => c = x :: c'
  | PopEmpty => c = [] ∧ c' = c
  end.

Inductive fifo_run (cap : Z) (c : list T) : list event → list T → Prop :=
  | fifo_refl : fifo_run cap c [] c
  | fifo_snoc tr c1 e c2 : fifo_run cap c tr c1 → fifo_step cap c1 e c2 → fifo_run cap c (tr ++ [e]) c2.

(** The item constructed but not yet published, and whether the front item has
    been moved out but its slot not yet returned. *)
Definition publishing (pc : producer_pc) : option T :=
  match pc with PPublish x => Some x | _ => None end.
Definition consuming (pc : consumer_pc) : bool :=
  match pc with CPublish _ => true | _ => false end.

(** The simulation relation.  [h] and [t] are the unbounded counts of completed
    pops and pushes, of which the 64-bit indices are the low bits; the live
    slots are exactly those of the contents, of an item being published, minus
    one being consumed. *)
Record simulates (q : SPSCQueue) (k h t ch ct : Z) (c : list T) : Prop := {
  sim_cap : 0 ≤ k ≤ 63 ∧ capacity_ q = 2 ^ k ∧ mask_ q = 2 ^ k - 1;
  sim_counts : 0 ≤ h ∧ Z.of_nat (length c) = t - h;
  sim_bound : t - h ≤ 2 ^ k;
  sim_head : head_ q = u64 h ∧ consumer_head_ q = u64 h;
  sim_tail : tail_ q = u64 t ∧ producer_tail_ q = u64 t;
  sim_chead : producer_cached_head_ q = u64 ch ∧ ch ≤ h ∧ t - ch ≤ 2 ^ k;
  sim_ctail : consumer_cached_tail_ q = u64 ct ∧ h ≤ ct ≤ t;
  sim_ppc : match ppc q with
            | PIdle | PReload _ => True
            | PWrite _ | PPublish _ => t - ch < 2 ^ k
            end;
  sim_cpc : match cpc q with
            | CIdle | CReload => True
            | CRead => h < ct
            | CPublish x => h < ct ∧ head c = Some x
            end;
  sim_slots : ∀ n, h ≤ n < h + 2 ^ k →
      buffer_ q !! (n mod 2 ^ k) =
        if n <? t then
          if (n =? h) && consuming (cpc q) then None else c !! Z.to_nat (n - h)
        else if n =? t then publishing (ppc q) else None;
}.

Definition refines (q : SPSCQueue) (c : list T) : Prop := ∃ k h t ch ct, simulates q k h t ch ct c.

(** ** Preservation of the simulation *)

Lemma mod_window m h a b : h ≤ a < h + m → h ≤ b < h + m → a mod m = b mod m → a = b.
Proof.
  intros Ha Hb E. assert (m ≠ 0) as Hm by lia.
  pose proof (Z.div_mod a m Hm). pose proof (Z.div_mod b m Hm).
  assert (a / m = b / m); [|nia].
  assert (m * (a / m - b / m) < m * 1 ∧ m * (-1) < m * (a / m - b / m)) as [H1 H2] by lia.
  apply Z.mul_lt_mono_pos_l in H1, H2; lia.
Qed.

Lemma pow2_bounds k : 0 ≤ k ≤ 63 → 0 < 2 ^ k ≤ 9223372036854775808.
Proof.
  intros Hk. split; [apply Z.pow_pos_nonneg; lia|].
  change 9223372036854775808 with (2 ^ 63). apply Z.pow_le_mono_r; lia.
Qed.

Lemma slot_index q k h t ch ct c n :
  simulates q k h t ch ct c → Z.land (u64 n) (mask_ q) = n mod 2 ^ k.
Proof.
  intros [(Hk & _ & ->) _ _ _ _ _ _ _ _ _].
  rewrite land_mask_mod by lia. apply u64_mod_pow2. lia.
Qed.

(** The wrapped difference the producer compares with the capacity. *)
Lemma full_test k t ch : 0 ≤ k ≤ 63 → 0 ≤ t - ch ≤ 2 ^ k →
  (u64 (u64 t - u64 ch) =? 2 ^ k) = (t - ch =? 2 ^ k).
Proof.
  intros Hk Hd. pose proof (pow2_bounds k Hk).
  rewrite (u64_sub_wrap t ch (t - ch)) by lia. done.
Qed.

Lemma u64_eqb_window k a b : 0 ≤ k ≤ 63 → 0 ≤ b - a ≤ 2 ^ k → (u64 a =? u64 b) = (a =? b).
Proof.
  intros Hk Hd. pose proof (pow2_bounds k Hk).
  destruct (Z.eqb_spec a b) as [->|Hne]; [by rewrite Z.eqb_refl|].
  apply Z.eqb_neq. intros E. apply Hne.
  pose proof (u64_sub_wrap b a (b - a)) as Hw. rewrite E, Z.sub_diag in Hw.
  change (u64 0) with 0 in Hw. lia.
Qed.

Ltac sim_split Hsim :=
  pose proof Hsim as [(Hk & Hcap & Hmask) (Hh0 & Hlen) Hbound (Hhead & Hchead) (Htail & Hptail)
    (Hpch & Hchle & Hchb) (Hcct & Hct) Hppc Hcpc Hslots];
  pose proof (pow2_bounds _ Hk).

Definition step_ok (cap : Z) (c : list T) (e : option event) (c' : list T) : Prop :=
  match e with None => c' = c | Some e => fifo_step cap c e c' end.

Lemma simulates_ppc q k h t ch ct c pc' ch' :
  simulates q k h t ch ct c →
  ch' ≤ h → t - ch' ≤ 2 ^ k →
  publishing (ppc q) = None → publishing pc' = None →
  (∀ x, pc' = PWrite x → t - ch' < 2 ^ k) →
  simulates (q ⟪ producer_cached_head_ := u64 ch' ⟫ ⟪ ppc := pc' ⟫) k h t ch' ct c.
Proof.
  intros Hsim ?? Hp Hn Hw. sim_split Hsim.
  constructor; cbn; auto.
  - destruct pc'; auto; [by eapply Hw|done].
  - intros n Hn'. rewrite Hslots by done. by rewrite Hp, Hn.
Qed.

Lemma eta_cached_head (q : SPSCQueue) pc' x :
  producer_cached_head_ q = x →
  q ⟪ ppc := pc' ⟫ = q ⟪ producer_cached_head_ := x ⟫ ⟪ ppc := pc' ⟫.
Proof. destruct q; cbn; intros <-; done. Qed.

Lemma producer_preserves request q q' e k h t ch ct c :
  simulates q k h t ch ct c → producer_step request q = Some (q', e) →
  ∃ t' ch' c', simulates q' k h t' ch' ct c' ∧ step_ok (2 ^ k) c e c'.
Proof.
  intros Hsim Hstep. sim_split Hsim. unfold producer_step in Hstep.
  destruct (ppc q) as [|item|item|item] eqn:Epc.
  - destruct request as [item|]; [|done].
    rewrite Hptail, Hpch, Hcap, full_test in Hstep by lia.
    destruct (Z.eqb_spec (t - ch) (2 ^ k)); simplify_eq;
      exists t, ch, c; (split; [|done]); rewrite (eta_cached_head _ _ _ Hpch);
      eapply simulates_ppc; rewrite ?Epc; eauto with lia; discriminate.
  - rewrite Hptail, Hhead, Hcap, full_test in Hstep by lia.
    destruct (Z.eqb_spec (t - h) (2 ^ k)) as [E|E]; simplify_eq;
      exists t, h, c; (split; [eapply simulates_ppc; rewrite ?Epc; eauto with lia; discriminate|]);
      cbn; [split; [lia|done]|done].
  - simplify_eq. rewrite Hptail, (slot_index _ _ _ _ _ _ _ _ Hsim).
    exists t, ch, c; split; [|done].
    constructor; cbn; auto. intros n Hn. rewrite lookup_insert.
    case_decide as Ht.
    + apply (mod_window (2 ^ k) h) in Ht; [|lia..]. subst n.
      by rewrite Z.ltb_irrefl, Z.eqb_refl.
    + rewrite Hslots by done. destruct (Z.ltb_spec n t); [done|].
      destruct (Z.eqb_spec n t); [by subst|done].
  - simplify_eq. exists (t + 1), ch, (c ++ [item]). split; [|cbn; split; [lia|done]].
    constructor; cbn; auto; rewrite ?length_app; cbn; try lia.
    + rewrite Hptail, u64_succ_wrap. done.
    + destruct (cpc q); try lia. destruct Hcpc as [? Hc]. split; [lia|].
      destruct c; done.
    + intros n Hn. rewrite Hslots by done. destruct (Z.ltb_spec n t), (Z.ltb_spec n (t + 1)); try lia.
      * destruct (_ && _); [done|]. rewrite lookup_app_l; [done|]. lia.
      * assert (n = t) as -> by lia. rewrite Z.eqb_refl.
        assert ((t =? h) && consuming (cpc q) = false) as ->
          by (destruct (cpc q); rewrite ?andb_false_r; try done; lia).
        rewrite lookup_app_r by lia. replace (_ - _)%nat with 0%nat by lia. done.
      * destruct (Z.eqb_spec n t); [lia|]. destruct (n =? t + 1); done.
Qed.

Lemma simulates_cpc q k h t ch ct c pc' ct' :
  simulates q k h t ch ct c →
  h ≤ ct' ≤ t → consuming (cpc q) = false → consuming pc' = false →
  (pc' = CRead → h < ct') →
  simulates (q ⟪ consumer_cached_tail_ := u64 ct' ⟫ ⟪ cpc := pc' ⟫) k h t ch ct' c.
Proof.
  intros Hsim ? Hp Hn Hw. sim_split Hsim.
  constructor; cbn; auto.
  - destruct pc'; auto; done.
  - intros n Hn'. rewrite Hslots by done. by rewrite Hp, Hn.
Qed.

Lemma eta_cached_tail (q : SPSCQueue) pc' x :
  consumer_cached_tail_ q = x →
  q ⟪ cpc := pc' ⟫ = q ⟪ consumer_cached_tail_ := x ⟫ ⟪ cpc := pc' ⟫.
Proof. destruct q; cbn; intros <-; done. Qed.

Lemma simulates_front q k h t ch ct c :
  simulates q k h t ch ct c → h < t → consuming (cpc q) = false →
  ∃ x, head c = Some x ∧ buffer_ q !! (h mod 2 ^ k) = Some x.
Proof.
  intros Hsim Hlt Hc. sim_split Hsim. rewrite Hslots by lia.
  rewrite (proj2 (Z.ltb_lt h t)), Hc, andb_false_r, Z.sub_diag by done.
  destruct c as [|x c']; cbn in *; [lia|]. by exists x.
Qed.

Lemma simulates_move q k h t ch ct c x :
  simulates q k h t ch ct c → h < ct → head c = Some x →
  simulates (q ⟪ buffer_ := delete (h mod 2 ^ k) (buffer_ q) ⟫ ⟪ cpc := CPublish x ⟫) k h t ch ct c.
Proof.
  intros Hsim Hlt Hx. sim_split Hsim. constructor; cbn; auto.
  intros n Hn. rewrite lookup_delete. case_decide as E.
  - apply (mod_window (2 ^ k) h) in E; [|lia..]. subst n.
    by rewrite (proj2 (Z.ltb_lt h t)), Z.eqb_refl by lia.
  - rewrite Hslots by done. destruct (Z.eqb_spec n h) as [->|]; [done|]. done.
Qed.

(** Returning the slot shifts the window of live slots by one. *)
Lemma simulates_pop q k h t ch ct c x c' :
  simulates q k h t ch ct c → cpc q = CPublish x → c = x :: c' →
  simulates (q ⟪ consumer_head_ := u64 (h + 1) ⟫ ⟪ head_ := u64 (h + 1) ⟫ ⟪ cpc := CIdle ⟫)
    k (h + 1) t ch ct c'.
Proof.
  intros Hsim Epc ->. sim_split Hsim. rewrite Epc in *. cbn [length] in Hlen.
  constructor; cbn; auto; try lia.
  intros n Hn. rewrite andb_false_r.
  destruct (Z.eq_dec n (h + 2 ^ k)) as [->|Hne].
  - replace ((h + 2 ^ k) mod 2 ^ k) with (h mod 2 ^ k)
      by (rewrite <- (Z_mod_plus_full h 1), Z.mul_1_l; done).
    rewrite Hslots, Z.eqb_refl by lia. cbn.
    rewrite (proj2 (Z.ltb_lt h t)), (proj2 (Z.ltb_ge (h + 2 ^ k) t)) by lia.
    destruct (Z.eqb_spec (h + 2 ^ k) t); [|done].
    destruct (ppc q); cbn; try done; lia.
  - rewrite Hslots by lia. destruct (Z.ltb_spec n t); [|done].
    rewrite (proj2 (Z.eqb_neq n h)) by lia. cbn [andb].
    replace (Z.to_nat (n - h)) with (S (Z.to_nat (n - (h + 1)))) by lia. done.
Qed.

Lemma consumer_preserves q q' e k h t ch ct c :
  simulates q k h t ch ct c → consumer_step q = Some (q', e) →
  ∃ h' ct' c', simulates q' k h' t ch ct' c' ∧ step_ok (2 ^ k) c e c'.
Proof.
  intros Hsim Hstep. sim_split Hsim. unfold consumer_step in Hstep.
  destruct (cpc q) as [| | |item] eqn:Epc.
  - rewrite Hchead, Hcct, (u64_eqb_window k) in Hstep by lia.
    destruct (Z.eqb_spec h ct) as [E|E]; injection Hstep as <- <-;
      exists h, ct, c; (split; [|done]); rewrite (eta_cached_tail _ _ _ Hcct);
      eapply simulates_cpc; rewrite ?Epc; eauto with lia; discriminate.
  - rewrite Hchead, Htail, (u64_eqb_window k) in Hstep by lia.
    destruct (Z.eqb_spec h t) as [E|E]; injection Hstep as <- <-; exists h, t, c;
      (split; [eapply simulates_cpc; rewrite ?Epc; eauto with lia; discriminate|]); [|done].
    cbn. split; [|done]. destruct c; [done|cbn in *; lia].
  - destruct (simulates_front _ _ _ _ _ _ _ Hsim) as (x & Hx & Hbuf); [lia|by rewrite Epc|].
    rewrite Hchead, (slot_index _ _ _ _ _ _ _ _ Hsim), Hbuf in Hstep. simplify_eq/=.
    exists h, ct, c. split; [|done]. by apply simulates_move.
  - simplify_eq. destruct Hcpc as [Hlt Hx]. destruct c as [|y c']; [done|]. simplify_eq/=.
    rewrite Hchead, u64_succ_wrap.
    exists (h + 1), ct, c'. split; [|done]. by eapply simulates_pop.
Qed.


(** ** The queue as a whole *)

Lemma power_of_two cap : 0 < cap → Z.land cap (cap - 1) = 0 → cap = 2 ^ Z.log2 cap.
Proof.
  intros Hpos Hland. destruct (Z.log2_spec cap Hpos) as [Hlo Hhi].
  destruct (Z.eq_dec cap (2 ^ Z.log2 cap)) as [|Hne]; [done|exfalso].
  assert (Z.log2 (cap - 1) = Z.log2 cap) as Hlog
    by (apply Z.log2_unique; [apply Z.log2_nonneg|lia]).
  assert (0 < cap - 1) as Hpos' by (pose proof (Z.pow_pos_nonneg 2 (Z.log2 cap));
    pose proof (Z.log2_nonneg cap); lia).
  assert (Z.testbit (Z.land cap (cap - 1)) (Z.log2 cap) = true) as Hb.
  { rewrite Z.land_spec, Z.bit_log2 by lia. rewrite <- Hlog. by rewrite Z.bit_log2. }
  rewrite Hland, Z.bits_0 in Hb. done.
Qed.

Lemma make_queue_refines cap q : is_u64 cap →
  make_queue cap = Some q → refines q [] ∧ capacity_ q = cap.
Proof.
  unfold make_queue, is_u64. intros Hcap Hq.
  destruct (Z.eqb_spec cap 0) as [|Hnz]; [done|]. rewrite u64_id in Hq by (unfold is_u64; lia).
  destruct (Z.eqb_spec (Z.land cap (cap - 1)) 0) as [Hland|]; [|done]. cbn in Hq. simplify_eq.
  split; [|done]. pose proof (power_of_two cap ltac:(lia) Hland) as Hpow.
  pose proof (Z.log2_nonneg cap).
  assert (Z.log2 cap < 64) by (apply Z.log2_lt_pow2; [lia|change (2 ^ 64) with 18446744073709551616; lia]).
  exists (Z.log2 cap), 0, 0, 0, 0. constructor; cbn; try done; try lia.
  { change (u64 0) with 0. lia. }
  intros n Hn. rewrite lookup_empty. destruct (Z.ltb_spec n 0); [lia|].
  rewrite ?lookup_nil. by destruct (n =? 0).
Qed.

Lemma step_refines q c e q' : refines q c → step q e q' →
  ∃ c', refines q' c' ∧ step_ok (capacity_ q) c e c' ∧ capacity_ q' = capacity_ q.
Proof.
  intros (k & h & t & ch & ct & Hsim) Hstep.
  pose proof (sim_cap _ _ _ _ _ _ _ Hsim) as (_ & Hcap & _). rewrite Hcap.
  destruct Hstep as [r q' e Hp|q' e Hc].
  - destruct (producer_preserves _ _ _ _ _ _ _ _ _ _ Hsim Hp) as (t' & ch' & c' & Hs & Ho).
    exists c'. split; [by eexists _, _, _, _, _|split; [done|apply Hs]].
  - destruct (consumer_preserves _ _ _ _ _ _ _ _ _ Hsim Hc) as (h' & ct' & c' & Hs & Ho).
    exists c'. split; [by eexists _, _, _, _, _|split; [done|apply Hs]].
Qed.

Lemma run_refines q0 tr q c0 : refines q0 c0 → run q0 tr q →
  ∃ c, refines q c ∧ fifo_run (capacity_ q0) c0 tr c ∧ capacity_ q = capacity_ q0.
Proof.
  intros H0 Hrun. induction Hrun as [|tr q1 q2 Hr IH Hs|tr q1 e q2 Hr IH Hs].
  - exists c0. by repeat constructor.
  - destruct IH as (c & Hc & Hf & Hcap).
    destruct (step_refines _ _ _ _ Hc Hs) as (c' & Hc' & -> & Hcap'). exists c. by rewrite Hcap', Hcap.
  - destruct IH as (c & Hc & Hf & Hcap).
    destruct (step_refines _ _ _ _ Hc Hs) as (c' & Hc' & Ho & Hcap').
    exists c'. split; [done|]. rewrite Hcap', Hcap in *. split; [|done]. by econstructor.
Qed.

(** The items of the completed pushes and of the completed pops of a trace. *)
Definition pushes : list event → list T :=
  omap (λ e, match e with Pushed x => Some x | _ => None end).
Definition pops : list event → list T :=
  omap (λ e, match e with Popped x => Some x | _ => None end).

Lemma fifo_run_account cap c tr c' : fifo_run cap c tr c' →
  c ++ pushes tr = pops tr ++ c' ∧ (Z.of_nat (length c) ≤ cap → Z.of_nat (length c') ≤ cap).
Proof.
  unfold pushes, pops. induction 1 as [|tr c1 e c2 Hr [IH1 IH2] Hs]; [by rewrite app_nil_r|].
  rewrite !omap_app. destruct e; cbn in *; destruct_and?; subst; rewrite ?app_nil_r, ?length_app in *.
  - cbn. split; [by rewrite !app_assoc, IH1|lia].
  - done.
  - cbn in *. split; [by rewrite IH1, <- app_assoc|lia].
  - done.
Qed.

(** Executions from a schedule, to run the two threads on concrete inputs. *)
Inductive turn :=
  | Producer (request : option T)
  | Consumer.

Fixpoint execute (sched : list turn) (tr : list event) (q : SPSCQueue) : option (list event * SPSCQueue) :=
  match sched with
  | [] => Some (tr, q)
  | t :: sched' =>
      '(q', e) ← match t with Producer r => producer_step r q | Consumer => consumer_step q end;
      execute sched' (tr ++ from_option (λ x, [x]) [] e) q'
  end.

Lemma execute_run q0 sched tr q tr' q' :
  run q0 tr q → execute sched tr q = Some (tr', q') → run q0 tr' q'.
Proof.
  revert tr q. induction sched as [|t sched IH]; intros tr q Hr He; cbn in He; [by simplify_eq|].
  destruct (match t with Producer r => producer_step r q | Consumer => consumer_step q end)
    as [[q1 e]|] eqn:E; [|done]. cbn in He.
  assert (step q e q1) by (destruct t; eauto using step).
  apply (IH _ _) in He; [done|].
  destruct e; cbn; [by eapply run_event|rewrite app_nil_r; by eapply run_silent].
Qed.

(** C13: every interleaving of one producer and one consumer is linearizable to
    the bounded FIFO.  From a freshly constructed queue, the completed calls of
    any execution form a run of the abstract queue, a push is refused exactly
    when the queue is full and a pop exactly when it is empty; the popped items
    are the pushed ones in order with none lost or duplicated, and never more
    than [capacity] items are held. *)
Theorem spsc_linearizable cap q0 tr q :
  is_u64 cap → make_queue cap = Some q0 → run q0 tr q →
  ∃ c, fifo_run cap [] tr c ∧ pushes tr = pops tr ++ c ∧
       Z.of_nat (length c) ≤ cap ∧ producer_size q = Z.of_nat (length c).
Proof.
  intros H64 Hq Hrun. destruct (make_queue_refines _ _ H64 Hq) as [H0 Hc0].
  destruct (run_refines _ _ _ _ H0 Hrun) as (c & Hc & Hf & Hcq). rewrite Hc0 in Hf.
  destruct (fifo_run_account _ _ _ _ Hf) as [Hp Hb].
  exists c. split; [done|]. split; [done|]. split; [apply Hb; cbn; unfold is_u64 in *; lia|].
  destruct Hc as (k & h & t & ch & ct & Hsim). sim_split Hsim.
  unfold producer_size. rewrite Hptail, Hhead, (u64_sub_wrap t h (t - h)); lia.
Qed.

(** In every reachable state the consumer can take its next step (it never
    moves out of a slot without a live object), the producer never constructs
    over a live object, and while both threads are inside a slot access the two
    slots are different. *)
Theorem spsc_slot_safety cap q0 tr q :
  is_u64 cap → make_queue cap = Some q0 → run q0 tr q →
  is_Some (consumer_step q) ∧
  (∀ x, ppc q = PWrite x → buffer_ q !! Z.land (producer_tail_ q) (mask_ q) = None) ∧
  (∀ x, ppc q = PWrite x → cpc q = CRead →
     Z.land (producer_tail_ q) (mask_ q) ≠ Z.land (consumer_head_ q) (mask_ q)).
Proof.
  intros H64 Hq Hrun. destruct (make_queue_refines _ _ H64 Hq) as [H0 Hc0].
  destruct (run_refines _ _ _ _ H0 Hrun) as (c & (k & h & t & ch & ct & Hsim) & _ & _).
  sim_split Hsim. rewrite Hptail, Hchead, !(slot_index _ _ _ _ _ _ _ _ Hsim).
  split; [|split].
  - unfold consumer_step. destruct (cpc q) eqn:Ec; [by destruct (_ =? _); eexists|by destruct (_ =? _); eexists| |by eexists].
    destruct (simulates_front _ _ _ _ _ _ _ Hsim) as (x & _ & Hb);
      [lia|by rewrite Ec|].
    rewrite Hchead, (slot_index _ _ _ _ _ _ _ _ Hsim), Hb. by eexists.
  - intros x Ep. rewrite Ep in *. rewrite Hslots by lia. by rewrite Z.ltb_irrefl, Z.eqb_refl.
  - intros x Ep Ec E. rewrite Ep, Ec in *. apply (mod_window _ h) in E; lia.
Qed.

(** Once the producer knows there is room, its next two segments append. *)
Lemma publish_refines q c x : refines q c → ppc q = PWrite x →
  Z.of_nat (length c) < capacity_ q ∧
  ∃ q1 q2, producer_step None q = Some (q1, None) ∧
           producer_step None q1 = Some (q2, Some (Pushed x)) ∧
           ppc q2 = PIdle ∧ refines q2 (c ++ [x]).
Proof.
  intros Href Hpc.
  assert (∃ q1, producer_step None q = Some (q1, None) ∧ ppc q1 = PPublish x ∧
                capacity_ q1 = capacity_ q) as (q1 & E1 & Hpc1 & Hcap1)
    by (unfold producer_step; rewrite Hpc; by eexists).
  assert (∃ q2, producer_step None q1 = Some (q2, Some (Pushed x)) ∧ ppc q2 = PIdle)
    as (q2 & E2 & Hpc2) by (unfold producer_step; rewrite Hpc1; by eexists).
  destruct (step_refines _ _ _ _ Href (step_producer _ _ _ _ E1)) as (c1 & Hr1 & -> & _).
  destruct (step_refines _ _ _ _ Hr1 (step_producer _ _ _ _ E2)) as (c2 & Hr2 & [Hl ->] & _).
  split; [lia|]. by exists q1, q2.
Qed.

(** A push that runs without interference is the abstract push. *)
Lemma try_push_refines q c x : refines q c → ppc q = PIdle →
  ∃ q', try_push x q = Some (negb (Z.of_nat (length c) =? capacity_ q), q') ∧
    ppc q' = PIdle ∧
    refines q' (if Z.of_nat (length c) =? capacity_ q then c else c ++ [x]).
Proof.
  intros Href Hpc.
  assert (∃ q1, producer_step (Some x) q = Some (q1, None) ∧ (ppc q1 = PReload x ∨ ppc q1 = PWrite x))
    as (q1 & E1 & Hpc1) by (unfold producer_step; rewrite Hpc; destruct (_ =? _); eauto).
  destruct (step_refines _ _ _ _ Href (step_producer _ _ _ _ E1)) as (c1 & Hr1 & -> & Hcap1).
  unfold try_push. rewrite E1. cbn -[producer_step]. rewrite <- Hcap1. clear Href Hpc E1 Hcap1.
  destruct Hpc1 as [Hpc1|Hpc1].
  - assert (∃ q2 e2, producer_step None q1 = Some (q2, e2) ∧
      ((e2 = Some (PushFull x) ∧ ppc q2 = PIdle) ∨ (e2 = None ∧ ppc q2 = PWrite x)))
      as (q2 & e2 & E2 & Hpc2) by (unfold producer_step; rewrite Hpc1; destruct (_ =? _); eauto 10).
    destruct (step_refines _ _ _ _ Hr1 (step_producer _ _ _ _ E2)) as (c2 & Hr2 & Ho2 & Hcap2).
    rewrite E2. cbn -[producer_step]. destruct Hpc2 as [[-> Hpc2]|[-> Hpc2]].
    + destruct Ho2 as [Hlen ->]. rewrite (proj2 (Z.eqb_eq _ _) Hlen). eauto.
    + cbn in Ho2. subst c2.
      destruct (publish_refines _ _ _ Hr2 Hpc2) as (Hlt & q3 & q4 & E3 & E4 & Hp & Hr).
      rewrite E3. cbn -[producer_step]. rewrite E4. cbn.
      rewrite (proj2 (Z.eqb_neq _ _)) by lia. eauto.
  - destruct (publish_refines _ _ _ Hr1 Hpc1) as (Hlt & q3 & q4 & E3 & E4 & Hp & Hr).
    rewrite E3. cbn -[producer_step]. rewrite E4. cbn.
    rewrite (proj2 (Z.eqb_neq _ _)) by lia. eauto.
Qed.

(** ** The destructor *)

Lemma window_cover m h i : 0 < m → 0 ≤ i < m → ∃ n, h ≤ n < h + m ∧ n mod m = i.
Proof.
  intros Hm Hi. exists (h + (i - h) mod m). pose proof (Z.mod_pos_bound (i - h) m Hm).
  split; [lia|]. rewrite Zplus_mod_idemp_r. replace (h + (i - h)) with i by lia. by apply Z.mod_small.
Qed.

Lemma destroy_loop_spec k c : 0 ≤ k ≤ 63 → ∀ h fuel (buffer : gmap Z T),
  0 ≤ h → Z.of_nat (length c) ≤ 2 ^ k → (length c ≤ fuel)%nat →
  (∀ n, h ≤ n < h + 2 ^ k → buffer !! (n mod 2 ^ k) = c !! Z.to_nat (n - h)) →
  ∃ b, destroy_loop fuel (2 ^ k - 1) (u64 h) (u64 (h + Z.of_nat (length c))) buffer = Some (c, b) ∧
       ∀ slot, 0 ≤ slot < 2 ^ k → b !! slot = None.
Proof.
  intros Hk. pose proof (pow2_bounds k Hk) as Hp.
  induction c as [|x c IH]; intros h fuel buffer Hh Hlen Hfuel Hslots; cbn [length] in *.
  - exists buffer. rewrite Z.add_0_r. split; [destruct fuel; cbn; by rewrite Z.eqb_refl|].
    intros slot Hs. destruct (window_cover (2 ^ k) h slot) as (n & Hn & <-); [lia..|]. by rewrite Hslots.
  - destruct fuel as [|fuel]; [lia|]. cbn [destroy_loop].
    rewrite (u64_eqb_window k) by lia.
    destruct (Z.eqb_spec h (h + Z.of_nat (S (length c)))) as [|_]; [lia|].
    rewrite land_mask_mod, u64_mod_pow2 by lia. rewrite Hslots, Z.sub_diag by lia. cbn.
    destruct (IH (h + 1) fuel (delete (h mod 2 ^ k) buffer)) as (b & E & Hb); [lia..| |].
    + intros n Hn. destruct (decide (n = h + 2 ^ k)) as [->|Hne].
      * replace (h + 2 ^ k) with (h + 1 * 2 ^ k) by lia. rewrite Z_mod_plus_full, lookup_delete_eq.
        symmetry. apply lookup_ge_None_2. lia.
      * rewrite lookup_delete_ne by (intros E; apply (mod_window (2 ^ k) h) in E; lia).
        rewrite Hslots by lia. replace (Z.to_nat (n - h)) with (S (Z.to_nat (n - (h + 1)))) by lia. done.
    + rewrite u64_succ_wrap. replace (h + Z.of_nat (S (length c))) with (h + 1 + Z.of_nat (length c)) by lia.
      rewrite E. cbn. eauto.
Qed.

(** Destruction is exact: once both threads are done, the destructor destroys
    every object still in the queue, each once and in order, touches no slot without
    an object, and leaves no live object behind. *)
Theorem destroy_releases_contents cap q0 tr q :
  is_u64 cap → make_queue cap = Some q0 → run q0 tr q → ppc q = PIdle → cpc q = CIdle →
  ∃ c b, pushes tr = pops tr ++ c ∧ destroy q = Some (c, b) ∧
         ∀ slot, 0 ≤ slot < cap → b !! slot = None.
Proof.
  intros H64 Hq Hrun Hp Hc. destruct (make_queue_refines _ _ H64 Hq) as [H0 Hc0].
  destruct (run_refines _ _ _ _ H0 Hrun) as (c & (k & h & t & ch & ct & Hsim) & Hf & Hcq).
  rewrite Hc0 in Hf. destruct (fifo_run_account _ _ _ _ Hf) as [Hitems _].
  sim_split Hsim. assert (cap = 2 ^ k) as -> by congruence.
  destruct (destroy_loop_spec k c Hk h (Z.to_nat (2 ^ k)) (buffer_ q)) as (b & E & Hb); [lia..| |].
  { intros n Hn. rewrite Hslots, Hp, Hc, andb_false_r by done. cbn.
    destruct (Z.ltb_spec n t); [done|]. rewrite lookup_ge_None_2 by lia. by destruct (n =? t). }
  exists c, b. split; [|split; [|done]].
  - exact Hitems.
  - unfold destroy. rewrite Hcap, Hmask, Hhead, Htail, <- E. f_equal. f_equal. lia.
Qed.
End Ring.
Arguments SPSCQueue : clear implicits.
Arguments event : clear implicits.
Arguments make_queue {T}.

(** A queue of two slots filled, refused a third item and then drained: a
    concrete execution of the two threads. *)
Definition demo_queue : SPSCQueue Z := mkSPSCQueue 2 1 0 0 0 0 0 0 ∅ PIdle CIdle.
Definition demo_final : SPSCQueue Z :=
  mkSPSCQueue 2 1 2 1 1 1 2 0 {[1 := 8]} PIdle CIdle.

Lemma demo_run : run demo_queue [Pushed 7; Popped 7; Pushed 8] demo_final.
Proof.
  eapply (execute_run demo_queue
    [Producer (Some 7); Producer None; Consumer; Producer None; Producer (Some 8); Consumer;
     Producer None; Consumer; Consumer; Producer None] []); [constructor|].
  vm_compute. reflexivity.
Qed.

Lemma spsc_linearizable_witness :
  ∃ c, fifo_run 2 [] [Pushed 7; Popped 7; Pushed 8] c ∧ [7; 8] = [7] ++ c ∧
       Z.of_nat (length c) ≤ 2 ∧ producer_size demo_final = Z.of_nat (length c).
Proof.
  exact (spsc_linearizable 2 demo_queue _ demo_final ltac:(unfold is_u64; lia) eq_refl demo_run).
Defined.

Lemma spsc_slot_safety_witness : is_Some (consumer_step demo_final).
Proof.
  exact (proj1 (spsc_slot_safety 2 demo_queue _ demo_final ltac:(unfold is_u64; lia) eq_refl demo_run)).
Defined.

Lemma destroy_releases_contents_witness : ∃ c b, [7; 8] = [7] ++ c ∧ destroy demo_final = Some (c, b) ∧
  ∀ slot, 0 ≤ slot < 2 → b !! slot = None.
Proof.
  exact (destroy_releases_contents 2 demo_queue _ demo_final ltac:(unfold is_u64; lia) eq_refl demo_run
           eq_refl eq_refl).
Defined.

End Spsc.

(** ** What a queue promises to the thread that pushes into it

    [q_sent] is the ghost history of accepted messages.  The consumer may pop
    between any two operations of the producer, which can only make room: a
    size the producer has read is an upper bound from then on. *)

Class PushQueue (Q : Type → Type) := {
  q_push {T} : T → Q T → bool * Q T;
  q_size {T} : Q T → Z;
  q_capacity {T} : Q T → Z;
  q_sent {T} : Q T → list T;
}.

Class PushQueueLaws (Q : Type → Type) `{PushQueue Q} : Prop := {
  push_sent {T} (x : T) (q : Q T) :
    q_sent (q_push x q).2 = if (q_push x q).1 then q_sent q ++ [x] else q_sent q;
  push_room {T} (x : T) (q : Q T) : q_size q < q_capacity q → (q_push x q).1 = true;
  push_capacity {T} (x : T) (q : Q T) : q_capacity (q_push x q).2 = q_capacity q;
  push_size {T} (x : T) (q : Q T) : q_size (q_push x q).2 ≤ q_size q + 1;
}.

Section PushMany.
Context `{PushQueueLaws Q} {T : Type}.

Fixpoint push_all (l : list T) (q : Q T) : list bool * Q T :=
  match l with
  | [] => ([], q)
  | x :: l' =>
      let '(b, q1) := q_push x q in
      let '(bs, q2) := push_all l' q1 in (b :: bs, q2)
  end.

(** Room for [n] messages, once observed, is room for the next [n] pushes. *)
Lemma push_all_room l (q : Q T) :
  Z.of_nat (length l) ≤ q_capacity q - q_size q →
  (push_all l q).1 = replicate (length l) true ∧ q_sent (push_all l q).2 = q_sent q ++ l.
Proof.
  revert q. induction l as [|x l IH]; intros q Hroom; cbn; [by rewrite app_nil_r|].
  cbn in Hroom. pose proof (push_sent x q). pose proof (push_room x q).
  pose proof (push_capacity x q). pose proof (push_size x q).
  destruct (q_push x q) as [b q1]; cbn in *. rewrite H2 in * by lia.
  destruct (IH q1) as [IH1 IH2]; [lia|].
  destruct (push_all l q1) as [bs q2]; cbn in *.
  rewrite IH1, IH2, H1, <- app_assoc. done.
Qed.
End PushMany.

(** The bounded FIFO the ring buffer refines, seen by its producer.  [f_drain]
    schedules how many items the consumer takes before each push. *)
Record Fifo (T : Type) := mkFifo {
  f_capacity : Z;
  f_items : list T;
  f_sent : list T;
  f_drain : list nat;
}.
Arguments mkFifo {T}.
Arguments f_capacity {T}.
Arguments f_items {T}.
Arguments f_sent {T}.
Arguments f_drain {T}.

Definition fifo_push {T} (x : T) (q : Fifo T) : bool * Fifo T :=
  let items := drop (default 0%nat (head (f_drain q))) (f_items q) in
  if Z.of_nat (length items) =? f_capacity q
  then (false, mkFifo (f_capacity q) items (f_sent q) (tail (f_drain q)))
  else (true, mkFifo (f_capacity q) (items ++ [x]) (f_sent q ++ [x]) (tail (f_drain q))).

#[export] Instance fifo_queue : PushQueue Fifo := {
  q_push T := fifo_push;
  q_size T q := Z.of_nat (length (f_items q));
  q_capacity T := f_capacity;
  q_sent T := f_sent;
}.

#[export] Instance fifo_laws : PushQueueLaws Fifo.
Proof.
  split; intros T x q; cbn; unfold fifo_push;
    pose proof (length_drop (f_items q) (default 0%nat (head (f_drain q))));
    (destruct (Z.eqb_spec (Z.of_nat (length (drop (default 0%nat (head (f_drain q))) (f_items q)))) (f_capacity q)));
    cbn; rewrite ?length_app; cbn; try done; lia.
Qed.

(** The ring buffer implements the queue interface its clients are verified
    against: an uninterrupted [try_push] on a ring buffer holding [items]
    returns what the interface's push returns on the FIFO holding [items], and
    leaves a ring buffer holding the FIFO's new contents. *)
Theorem ring_implements_push {T} (x : T) (q : Spsc.SPSCQueue T) (items sent : list T) :
  Spsc.refines q items → Spsc.ppc q = Spsc.PIdle →
  let '(b, f') := q_push x (mkFifo (Spsc.capacity q) items sent []) in
  ∃ q', Spsc.try_push x q = Some (b, q') ∧ Spsc.ppc q' = Spsc.PIdle ∧
        Spsc.refines q' (f_items f') ∧
        q_sent f' = if b then sent ++ [x] else sent.
Proof.
  intros Href Hpc. destruct (Spsc.try_push_refines q items x Href Hpc) as (q' & E & Hp & Hr).
  cbn. unfold fifo_push, Spsc.capacity. cbn.
  destruct (_ =? _); cbn in *; by exists q'.
Qed.

Lemma ring_implements_push_witness :
  ∃ q', Spsc.try_push 9 Spsc.demo_queue = Some (true, q') ∧ Spsc.ppc q' = Spsc.PIdle ∧
        Spsc.refines q' [9] ∧ [9] = [] ++ [9].
Proof.
  destruct (Spsc.make_queue_refines 2 Spsc.demo_queue ltac:(unfold is_u64; lia) eq_refl) as [H _].
  exact (ring_implements_push 9 Spsc.demo_queue [] [] H eq_refl).
Defined.
