(* ===== verification/Ring.v ===== *)
(** * Ring: the contents of a ring buffer

    The two order sessions keep events that wait for the OMS in an array used as a ring.  Its
    contents are a window of the array: [count] slots from [start] on, around the end. *)

From S2P Require Import Prelude.

Module Ring.

Section Ring.
Context {A : Type} (d : A).
Implicit Types (l : list A) (start : Z) (count : nat).

Definition at_slot l (i : Z) : A := default d (l !! Z.to_nat (i mod Z.of_nat (length l))).
Fixpoint window l start count : list A :=
  match count with O => [] | S count => at_slot l start :: window l (start + 1) count end.

Lemma window_length l start count : length (window l start count) = count.
Proof. revert start. induction count; intros; cbn; auto. Qed.

Lemma window_snoc l start count : window l start (S count) = window l start count ++ [at_slot l (start + Z.of_nat count)].
Proof.
  revert start. induction count as [|count IH]; intros start.
  - cbn. by rewrite Z.add_0_r.
  - change (window l start (S (S count))) with (at_slot l start :: window l (start + 1) (S count)). rewrite IH. cbn [window app].
    by replace (start + 1 + Z.of_nat count) with (start + Z.of_nat (S count)) by lia.
Qed.

Lemma slot_lt l i : (0 < length l)%nat → (Z.to_nat (i mod Z.of_nat (length l)) < length l)%nat.
Proof. intros. pose proof (Z.mod_pos_bound i (Z.of_nat (length l))). lia. Qed.

(** Two indices less than a round apart have different slots. *)
Lemma slots_differ (n i k : Z) : 0 < k < n → (i + k) mod n ≠ i mod n.
Proof.
  intros Hk E. pose proof (Z.div_mod (i + k) n ltac:(lia)) as H1. pose proof (Z.div_mod i n ltac:(lia)) as H2. rewrite E in H1.
  assert (k = n * ((i + k) / n - i / n)) as Hm by lia. destruct (Z.lt_trichotomy ((i + k) / n - i / n) 0) as [?|[?|?]]; nia.
Qed.

Lemma at_slot_write l i x : (0 < length l)%nat → at_slot (<[Z.to_nat (i mod Z.of_nat (length l)) := x]> l) i = x.
Proof. intros. unfold at_slot. rewrite length_insert, list_lookup_insert_eq by (by apply slot_lt). done. Qed.
Lemma at_slot_other l i j x : i mod Z.of_nat (length l) ≠ j mod Z.of_nat (length l) → (0 < length l)%nat →
  at_slot (<[Z.to_nat (i mod Z.of_nat (length l)) := x]> l) j = at_slot l j.
Proof.
  intros Hij Hl. unfold at_slot. rewrite length_insert, list_lookup_insert_ne; [done|].
  pose proof (Z.mod_pos_bound i (Z.of_nat (length l))). pose proof (Z.mod_pos_bound j (Z.of_nat (length l))). lia.
Qed.

(** A write to a slot outside the window. *)
Lemma window_other l i x start count : (0 < length l)%nat → (∀ k, 0 ≤ k < Z.of_nat count → i mod Z.of_nat (length l) ≠ (start + k) mod Z.of_nat (length l)) →
  window (<[Z.to_nat (i mod Z.of_nat (length l)) := x]> l) start count = window l start count.
Proof.
  intros Hl. revert start. induction count as [|count IH]; intros start Hk; [done|]. cbn [window]. f_equal.
  - apply at_slot_other; [|done]. specialize (Hk 0). rewrite Z.add_0_r in Hk. apply Hk. lia.
  - apply IH. intros k ?. specialize (Hk (k + 1)). replace (start + 1 + k) with (start + (k + 1)) by lia. apply Hk. lia.
Qed.

(** Writing behind the last element appends. *)
Lemma window_push l start count x : (count < length l)%nat →
  window (<[Z.to_nat ((start + Z.of_nat count) mod Z.of_nat (length l)) := x]> l) start (S count) = window l start count ++ [x].
Proof.
  intros Hc. rewrite window_snoc, window_other; [|lia|].
  - by rewrite at_slot_write by lia.
  - intros k Hk. replace (start + Z.of_nat count) with (start + k + (Z.of_nat count - k)) by lia. apply slots_differ. lia.
Qed.

(** Clearing the first element removes it. *)
Lemma window_pop l start count x : (S count ≤ length l)%nat →
  window (<[Z.to_nat (start mod Z.of_nat (length l)) := x]> l) (start + 1) count = window l (start + 1) count.
Proof.
  intros Hc. apply window_other; [lia|]. intros k Hk E. symmetry in E. revert E. rewrite <- Z.add_assoc. apply slots_differ. lia.
Qed.

(** Positions that are congruent have the same window. *)
Lemma at_slot_congr l i j : i mod Z.of_nat (length l) = j mod Z.of_nat (length l) → at_slot l i = at_slot l j.
Proof. unfold at_slot. by intros ->. Qed.
Lemma window_congr l i j count : i mod Z.of_nat (length l) = j mod Z.of_nat (length l) → window l i count = window l j count.
Proof.
  revert i j. induction count as [|count IH]; intros i j E; cbn; [done|]. f_equal; [by apply at_slot_congr|]. apply IH.
  rewrite (Zplus_mod i 1), (Zplus_mod j 1). by rewrite E.
Qed.
End Ring.
End Ring.
