(* ===== verification/LatencyHistogram.v ===== *)
(** * LatencyHistogram: saturating latency histograms

    Models [cpp/include/predex/utils/latency_histogram.hpp]: 22 bucket upper
    bounds plus an overflow bucket, with saturating 64-bit counters.  The
    reference semantics of a histogram is the list of samples recorded in it;
    the theorems relate [record], [merge] and [percentile_upper_bound] to that
    list. *)

From S2P Require Import Prelude.

Module Histogram.

Definition kLatencyBucketUpperBoundsNs : list Z :=
  [100; 250; 500; 1000; 2500; 5000; 10000; 25000; 50000; 100000; 250000; 500000; 1000000;
   2500000; 5000000; 10000000; 25000000; 50000000; 100000000; 250000000; 500000000; 1000000000].

Definition kLatencyOverflowBucket : nat := length kLatencyBucketUpperBoundsNs.
Definition kLatencyBucketCount : nat := length kLatencyBucketUpperBoundsNs + 1.

Record LatencyHistogram := mkLatencyHistogram {
  count : Z;
  sum_ns : Z;
  max_ns : Z;
  buckets : list Z;
}.

#[export] Instance eta_LatencyHistogram : Eta LatencyHistogram := λ h,
  mkLatencyHistogram (count h) (sum_ns h) (max_ns h) (buckets h).

Definition empty_histogram : LatencyHistogram :=
  mkLatencyHistogram 0 0 0 (replicate kLatencyBucketCount 0).

Definition saturating_add (lhs rhs : Z) : Z :=
  if U64_MAX - lhs <? rhs then U64_MAX else lhs + rhs.

(** [std::lower_bound] on a sorted range: the first position whose element is
    not less than the value, or the end. *)
Fixpoint lower_bound (l : list Z) (x : Z) : nat :=
  match l with
  | [] => 0
  | b :: l' => if b <? x then S (lower_bound l' x) else 0
  end.

Definition bucket_index (latency_ns : Z) : nat :=
  let iterator := lower_bound kLatencyBucketUpperBoundsNs latency_ns in
  if (iterator =? length kLatencyBucketUpperBoundsNs)%nat then kLatencyOverflowBucket else iterator.

Definition saturating_increment (c : Z) : Z := if c =? U64_MAX then c else c + 1.

Definition record (h : LatencyHistogram) (latency_ns : Z) : LatencyHistogram :=
  mkLatencyHistogram
    (saturating_increment (count h))
    (saturating_add (sum_ns h) latency_ns)
    (Z.max (max_ns h) latency_ns)
    (alter saturating_increment (bucket_index latency_ns) (buckets h)).

Definition merge (h other : LatencyHistogram) : LatencyHistogram :=
  mkLatencyHistogram
    (saturating_add (count h) (count other))
    (saturating_add (sum_ns h) (sum_ns other))
    (Z.max (max_ns h) (max_ns other))
    (zip_with saturating_add (buckets h) (buckets other)).

Definition mean_ns (h : LatencyHistogram) : Z :=
  if count h =? 0 then 0 else sum_ns h / count h.

(** The loop of [percentile_upper_bound] over the bounds and their buckets. *)
Fixpoint percentile_scan (bounds bs : list Z) (cumulative target fallback : Z) : Z :=
  match bounds, bs with
  | bound :: bounds', b :: bs' =>
      let cumulative := saturating_add cumulative b in
      if target <=? cumulative then bound
      else percentile_scan bounds' bs' cumulative target fallback
  | _, _ => fallback
  end.

Definition percentile_target (count basis_points : Z) : Z :=
  let bounded_basis_points := Z.min basis_points 10000 in
  let quotient := count / 10000 in
  let remainder := count mod 10000 in
  u64 (u64 (quotient * bounded_basis_points)
       + u64 (u64 (remainder * bounded_basis_points) + 9999) / 10000).

Definition percentile_upper_bound (h : LatencyHistogram) (basis_points : Z) : Z :=
  if (count h =? 0) || (basis_points =? 0) then 0
  else percentile_scan kLatencyBucketUpperBoundsNs (buckets h) 0
         (percentile_target (count h) basis_points) (max_ns h).

Definition record_elapsed_ns (h : LatencyHistogram) (start_ns end_ns : Z) : LatencyHistogram :=
  if (start_ns =? 0) || (end_ns <? start_ns) then h else record h (end_ns - start_ns).

(** ** The reference semantics: a list of samples *)

Definition recorded (samples : list Z) : LatencyHistogram := foldl record empty_histogram samples.

Definition clamp (z : Z) : Z := Z.min z U64_MAX.

Definition in_bucket (i : nat) (samples : list Z) : Z :=
  Z.of_nat (length (filter (λ x, bucket_index x = i) samples)).

Definition total (samples : list Z) : Z := foldr Z.add 0 samples.

Definition spec (samples : list Z) : LatencyHistogram :=
  mkLatencyHistogram
    (clamp (Z.of_nat (length samples)))
    (clamp (total samples))
    (foldr Z.max 0 samples)
    ((λ i, clamp (in_bucket i samples)) <$> seq 0 kLatencyBucketCount).

Definition samples_ok (samples : list Z) : Prop := Forall is_u64 samples.

Lemma saturating_add_clamp a b : 0 ≤ a → 0 ≤ b →
  saturating_add (clamp a) (clamp b) = clamp (a + b).
Proof. unfold saturating_add, clamp. intros. destruct (Z.ltb_spec (U64_MAX - a `min` U64_MAX) (b `min` U64_MAX)); lia. Qed.

Lemma saturating_increment_clamp a : saturating_increment (clamp a) = clamp (a + 1).
Proof. unfold saturating_increment, clamp. destruct (Z.eqb_spec (a `min` U64_MAX) U64_MAX); lia. Qed.

Lemma clamp_id x : is_u64 x → clamp x = x.
Proof. unfold clamp, is_u64. lia. Qed.

Lemma total_app xs ys : total (xs ++ ys) = total xs + total ys.
Proof. unfold total. induction xs as [|x xs IH]; cbn; lia. Qed.

Lemma total_nonneg xs : samples_ok xs → 0 ≤ total xs.
Proof. unfold total, is_u64. induction 1 as [|x xs Hx _ IH]; cbn; unfold is_u64 in *; lia. Qed.

Lemma max_app xs ys : foldr Z.max 0 (xs ++ ys) = Z.max (foldr Z.max 0 xs) (foldr Z.max 0 ys).
Proof. induction xs as [|x xs IH]; cbn; [|lia]. induction ys; cbn in *; lia. Qed.

Lemma in_bucket_app i xs ys : in_bucket i (xs ++ ys) = in_bucket i xs + in_bucket i ys.
Proof. unfold in_bucket. rewrite filter_app, length_app. lia. Qed.

Lemma in_bucket_one i x : in_bucket i [x] = if decide (bucket_index x = i) then 1 else 0.
Proof. unfold in_bucket. rewrite filter_cons. by case_decide. Qed.

Lemma spec_app xs ys : samples_ok xs → samples_ok ys → merge (spec xs) (spec ys) = spec (xs ++ ys).
Proof.
  intros Hx Hy. unfold merge, spec. f_equal; cbn [count sum_ns max_ns buckets].
  - rewrite saturating_add_clamp, length_app by lia. f_equal. lia.
  - rewrite total_app. apply saturating_add_clamp; by apply total_nonneg.
  - symmetry. apply max_app.
  - rewrite zip_with_fmap_l, zip_with_fmap_r. rewrite zip_with_diag. apply list_fmap_ext.
    intros _ i _. cbn. rewrite in_bucket_app. apply saturating_add_clamp; unfold in_bucket; lia.
Qed.

Lemma bucket_index_bound x : (bucket_index x < kLatencyBucketCount)%nat.
Proof.
  unfold bucket_index, kLatencyBucketCount, kLatencyOverflowBucket.
  assert (∀ l, (lower_bound l x ≤ length l)%nat) as H
    by (induction l as [|b l IH]; cbn; [lia|destruct (b <? x); lia]).
  specialize (H kLatencyBucketUpperBoundsNs). destruct (_ =? _)%nat; lia.
Qed.

Lemma record_spec xs x : samples_ok xs → is_u64 x → record (spec xs) x = spec (xs ++ [x]).
Proof.
  intros Hxs Hx. unfold record, spec. f_equal; cbn [count sum_ns max_ns buckets].
  - rewrite saturating_increment_clamp, length_app. cbn. f_equal. lia.
  - rewrite total_app. cbn. rewrite <- (saturating_add_clamp (total xs) (x + 0))
      by (unfold is_u64 in Hx; try apply total_nonneg; auto; lia).
    by rewrite Z.add_0_r, (clamp_id x).
  - rewrite max_app. cbn. unfold is_u64 in Hx. lia.
  - apply list_eq. intros i. rewrite list_lookup_alter, !list_lookup_fmap.
    case_decide as E.
    + subst i. rewrite !lookup_seq_lt by apply bucket_index_bound. cbn.
      by rewrite saturating_increment_clamp, in_bucket_app, in_bucket_one, decide_True.
    + destruct (seq 0 kLatencyBucketCount !! i) as [j|] eqn:Ej; cbn; [|done].
      apply lookup_seq in Ej as [-> _].
      by rewrite in_bucket_app, in_bucket_one, decide_False, Z.add_0_r.
Qed.

Lemma recorded_spec xs : samples_ok xs → recorded xs = spec xs.
Proof.
  unfold recorded. induction xs as [|x xs IH] using rev_ind; intros Hxs; [reflexivity|].
  apply Forall_app in Hxs as [Hxs Hx]. rewrite Forall_singleton in Hx.
  rewrite foldl_snoc, IH by done. by apply record_spec.
Qed.

(** ** Percentiles *)

Definition covered (bound : Z) (samples : list Z) : Z :=
  Z.of_nat (length (filter (λ x, x ≤ bound) samples)).

Definition below_bucket (i : nat) (samples : list Z) : Z :=
  Z.of_nat (length (filter (λ x, (bucket_index x < i)%nat) samples)).

Lemma lower_bound_le l x i b :
  StronglySorted Z.lt l → l !! i = Some b → (lower_bound l x ≤ i)%nat ↔ x ≤ b.
Proof.
  intros Hs. revert i. induction Hs as [|a l Hs IH Ha]; intros i Hi; [done|]. cbn.
  destruct i as [|i]; cbn in Hi.
  - simplify_eq. destruct (Z.ltb_spec b x); split; lia.
  - destruct (Z.ltb_spec a x).
    + rewrite <- (IH i Hi). lia.
    + rewrite Forall_lookup in Ha. specialize (Ha _ _ Hi). split; lia.
Qed.

Lemma bounds_sorted : StronglySorted Z.lt kLatencyBucketUpperBoundsNs.
Proof. repeat constructor. Qed.

Lemma bucket_index_lt i b x : kLatencyBucketUpperBoundsNs !! i = Some b →
  (bucket_index x < S i)%nat ↔ x ≤ b.
Proof.
  intros Hi. rewrite <- (lower_bound_le _ x i b bounds_sorted Hi).
  apply lookup_lt_Some in Hi. unfold bucket_index, kLatencyOverflowBucket.
  destruct (Nat.eqb_spec (lower_bound kLatencyBucketUpperBoundsNs x)
    (length kLatencyBucketUpperBoundsNs)); lia.
Qed.

Lemma below_bucket_covered i b xs : kLatencyBucketUpperBoundsNs !! i = Some b →
  below_bucket (S i) xs = covered b xs.
Proof.
  intros Hi. unfold below_bucket, covered. do 2 f_equal. apply list_filter_iff.
  intros x. by apply bucket_index_lt.
Qed.

Lemma below_bucket_succ i xs : below_bucket (S i) xs = below_bucket i xs + in_bucket i xs.
Proof.
  unfold below_bucket, in_bucket. induction xs as [|x xs IH]; [done|].
  rewrite !filter_cons. repeat case_decide; cbn [length]; lia.
Qed.

Lemma below_bucket_0 xs : below_bucket 0 xs = 0.
Proof.
  unfold below_bucket. induction xs as [|x xs IH]; [done|].
  rewrite filter_cons. case_decide; [lia|done].
Qed.

Lemma covered_le_length v xs : covered v xs ≤ Z.of_nat (length xs).
Proof. unfold covered. pose proof (length_filter (λ x, x ≤ v) xs). lia. Qed.

Lemma covered_max xs : samples_ok xs → covered (foldr Z.max 0 xs) xs = Z.of_nat (length xs).
Proof.
  intros _. unfold covered. do 2 f_equal.
  assert (∀ ys m, foldr Z.max 0 ys ≤ m → filter (λ x, x ≤ m) ys = ys) as H.
  { induction ys as [|y ys IH]; intros m Hm; cbn in Hm; [done|].
    rewrite filter_cons_True by lia. f_equal. apply IH. lia. }
  by apply H.
Qed.

Lemma percentile_target_spec n bp : is_u64 n → 0 < bp →
  let t := percentile_target n bp in
  n * Z.min bp 10000 ≤ t * 10000 < n * Z.min bp 10000 + 10000 ∧ 0 ≤ t ≤ n.
Proof.
  unfold is_u64. intros Hn Hbp. cbn. unfold percentile_target.
  set (b := Z.min bp 10000). assert (0 < b ≤ 10000) as Hb by lia.
  pose proof (Z.div_mod n 10000) as Hd. pose proof (Z.mod_pos_bound n 10000) as Hm.
  set (q := n / 10000) in *. set (r := n mod 10000) in *.
  assert (0 ≤ q ≤ 1844674407370955) by lia.
  assert (0 ≤ q * b ≤ 10000 * q) by nia. assert (0 ≤ r * b ≤ 10000 * r) by nia.
  rewrite (u64_id (q * b)), (u64_id (r * b)), (u64_id (r * b + 9999)) by (unfold is_u64; lia).
  pose proof (Z.div_mod (r * b + 9999) 10000). pose proof (Z.mod_pos_bound (r * b + 9999) 10000).
  rewrite u64_id by (unfold is_u64; lia). nia.
Qed.

Lemma spec_bucket i xs : Z.of_nat (length xs) ≤ U64_MAX → (i < kLatencyBucketCount)%nat →
  buckets (spec xs) !! i = Some (in_bucket i xs).
Proof.
  intros Hlen Hi. cbn [spec buckets]. rewrite list_lookup_fmap, lookup_seq_lt by done. cbn.
  rewrite clamp_id; [done|]. unfold in_bucket, is_u64.
  pose proof (length_filter (λ x, bucket_index x = i) xs). lia.
Qed.

Lemma bounds_mono i j a b : (i ≤ j)%nat →
  kLatencyBucketUpperBoundsNs !! i = Some a → kLatencyBucketUpperBoundsNs !! j = Some b → a ≤ b.
Proof.
  intros Hij Hi Hj. rewrite <- (lower_bound_le _ a j b bounds_sorted Hj).
  pose proof (proj2 (lower_bound_le _ a i a bounds_sorted Hi)). lia.
Qed.

Lemma percentile_scan_spec xs target : samples_ok xs → Z.of_nat (length xs) ≤ U64_MAX →
  target ≤ Z.of_nat (length xs) →
  ∀ n i, (n + i = length kLatencyBucketUpperBoundsNs)%nat →
  let v := percentile_scan (drop i kLatencyBucketUpperBoundsNs) (drop i (buckets (spec xs)))
             (below_bucket i xs) target (foldr Z.max 0 xs) in
  target ≤ covered v xs ∧
  (∀ j b, (i ≤ j)%nat → kLatencyBucketUpperBoundsNs !! j = Some b → b < v → covered b xs < target).
Proof.
  intros Hok Hlen Ht. induction n as [|n IH]; intros i Hi.
  - cbn [Nat.add] in Hi. subst i. rewrite drop_all. cbn [percentile_scan].
    split; [by rewrite covered_max|]. intros j b Hj Hb. apply lookup_lt_Some in Hb. lia.
  - destruct (lookup_lt_is_Some_2 kLatencyBucketUpperBoundsNs i ltac:(lia)) as [b Hb].
    rewrite (drop_S _ _ _ Hb), (drop_S _ _ _ (spec_bucket i xs Hlen ltac:(unfold kLatencyBucketCount; lia))).
    cbn [percentile_scan]. pose proof (below_bucket_succ i xs) as Hs.
    rewrite (below_bucket_covered i b xs Hb) in Hs.
    pose proof (covered_le_length b xs).
    replace (saturating_add (below_bucket i xs) (in_bucket i xs)) with (covered b xs)
      by (unfold saturating_add; destruct (Z.ltb_spec (U64_MAX - below_bucket i xs) (in_bucket i xs)); lia).
    destruct (Z.leb_spec target (covered b xs)).
    + split; [done|]. intros j b' Hj Hb' Hlt. pose proof (bounds_mono i j b b' Hj Hb Hb'). lia.
    + specialize (IH (S i) ltac:(lia)). cbn zeta in IH.
      rewrite (below_bucket_covered i b xs Hb) in IH. destruct IH as [IH1 IH2].
      split; [done|]. intros j b' Hj Hb' Hlt.
      destruct (decide (j = i)) as [->|]; [by simplify_eq|]. apply (IH2 j b'); auto with lia.
Qed.

(** Recording is the reference semantics, also past saturation: after any
    sequence of samples the count, the sum and each bucket hold the exact
    number, total and per-bucket number of samples, clamped at the largest
    64-bit value, and [max_ns] is the largest sample. *)
Theorem histogram_records_samples samples :
  samples_ok samples → recorded samples = spec samples.
Proof. apply recorded_spec. Qed.

(** Merging two histograms gives the histogram of all the samples of both,
    whether or not any counter saturated. *)
Theorem histogram_merge_recorded xs ys :
  samples_ok xs → samples_ok ys → merge (recorded xs) (recorded ys) = recorded (xs ++ ys).
Proof.
  intros Hx Hy. rewrite !recorded_spec; [by apply spec_app|by apply Forall_app|done..].
Qed.

(** C30: [percentile_upper_bound bp] of a non-empty histogram that has not
    saturated is a sound and tight upper bound: at least [bp/10000] of the
    samples are not above it, and no smaller bucket bound has that property. *)
Theorem percentile_sound_and_tight samples bp :
  samples_ok samples → 0 < Z.of_nat (length samples) ≤ U64_MAX → 0 < bp ≤ 10000 →
  let v := percentile_upper_bound (recorded samples) bp in
  Z.of_nat (length samples) * bp ≤ covered v samples * 10000 ∧
  (∀ b, b ∈ kLatencyBucketUpperBoundsNs → b < v →
        covered b samples * 10000 < Z.of_nat (length samples) * bp).
Proof.
  intros Hok Hlen Hbp. cbn zeta. rewrite recorded_spec by done.
  unfold percentile_upper_bound. cbn [spec count max_ns].
  rewrite (clamp_id (Z.of_nat (length samples))) by (unfold is_u64; lia).
  destruct (Z.eqb_spec (Z.of_nat (length samples)) 0); [lia|].
  destruct (Z.eqb_spec bp 0); [lia|]. cbn [orb].
  destruct (percentile_target_spec (Z.of_nat (length samples)) bp) as [Ht Ht'];
    [unfold is_u64; lia|lia|]. rewrite Z.min_l in Ht by lia.
  set (t := percentile_target _ _) in *.
  destruct (percentile_scan_spec samples t Hok ltac:(lia) ltac:(lia) _ 0%nat (Nat.add_0_r _)) as [H1 H2].
  rewrite below_bucket_0 in *.
  rewrite !drop_0 in *. split; [lia|].
  intros b [j Hj]%list_elem_of_lookup Hlt. specialize (H2 j b ltac:(lia) Hj Hlt). lia.
Qed.

Definition demo_samples : list Z := [40; 100; 101; 900; 2000000000].

Lemma histogram_records_samples_witness : recorded demo_samples = spec demo_samples.
Proof. apply histogram_records_samples. unfold samples_ok, demo_samples, is_u64. repeat constructor; lia. Defined.

Lemma histogram_merge_recorded_witness :
  merge (recorded [7; 300]) (recorded demo_samples) = recorded ([7; 300] ++ demo_samples).
Proof.
  apply histogram_merge_recorded; unfold samples_ok, demo_samples, is_u64; repeat constructor; lia.
Defined.

Lemma percentile_sound_and_tight_witness :
  percentile_upper_bound (recorded demo_samples) 5000 = 250 ∧
  5 * 5000 ≤ covered 250 demo_samples * 10000.
Proof.
  split; [by vm_compute|].
  apply (percentile_sound_and_tight demo_samples 5000);
    [unfold samples_ok, demo_samples, is_u64; repeat constructor; lia|cbn; lia|lia].
Defined.

End Histogram.
