(* ===== verification/IdleBackoff.v ===== *)
(** * IdleBackoff: the idle policy of the worker threads

    Models [cpp/include/predex/utils/idle_backoff.hpp].  A [harvest] thread that
    finds no work spins, then yields, then sleeps with a doubling, bounded
    duration; a [low_latency] thread always yields.  Durations are microsecond
    counts. *)

From S2P Require Import Prelude.

Module Backoff.

Inductive ThreadPollingProfile := kLOW_LATENCY | kHARVEST.

Record IdleBackoffConfig := mkIdleBackoffConfig {
  profile : ThreadPollingProfile;
  spin_iterations : Z;
  yield_iterations : Z;
  min_sleep : Z;
  max_sleep : Z;
}.

Inductive IdleBackoffAction := kSPIN | kYIELD | kSLEEP.

Record IdleBackoffDecision := mkIdleBackoffDecision {
  action : IdleBackoffAction;
  sleep_duration : Z;
}.

Record IdleBackoff := mkIdleBackoff {
  config_ : IdleBackoffConfig;
  idle_iterations_ : Z;
  next_sleep_ : Z;
}.

#[export] Instance eta_IdleBackoff : Eta IdleBackoff := λ b,
  mkIdleBackoff (config_ b) (idle_iterations_ b) (next_sleep_ b).

(** The constructor throws on an invalid harvest configuration. *)
Definition make_backoff (config : IdleBackoffConfig) : option IdleBackoff :=
  match profile config with
  | kHARVEST =>
      if (min_sleep config <=? 0) || (max_sleep config <? min_sleep config) then None
      else Some (mkIdleBackoff config 0 (min_sleep config))
  | kLOW_LATENCY => Some (mkIdleBackoff config 0 (min_sleep config))
  end.

Definition reset (b : IdleBackoff) : IdleBackoff :=
  b ⟪ idle_iterations_ := 0 ⟫ ⟪ next_sleep_ := min_sleep (config_ b) ⟫.

Definition next_idle_decision : M IdleBackoff IdleBackoffDecision := λ b,
  let config := config_ b in
  match profile config with
  | kLOW_LATENCY => (mkIdleBackoffDecision kYIELD 0, b)
  | kHARVEST =>
      if idle_iterations_ b <? spin_iterations config then
        (mkIdleBackoffDecision kSPIN 0, b ⟪ idle_iterations_ := u64 (idle_iterations_ b + 1) ⟫)
      else
        let after_spin := u64 (idle_iterations_ b - spin_iterations config) in
        if after_spin <? yield_iterations config then
          (mkIdleBackoffDecision kYIELD 0, b ⟪ idle_iterations_ := u64 (idle_iterations_ b + 1) ⟫)
        else
          let sleep := next_sleep_ b in
          (mkIdleBackoffDecision kSLEEP sleep,
           if next_sleep_ b <? max_sleep config then
             let remaining := max_sleep config - next_sleep_ b in
             b ⟪ next_sleep_ :=
                   next_sleep_ b + (if remaining <? next_sleep_ b then remaining else next_sleep_ b) ⟫
           else b)
  end.

(** What the [k]-th consecutive idle poll does, counted from a reset. *)
Fixpoint idle_polls (k : nat) (b : IdleBackoff) : IdleBackoff :=
  match k with
  | O => b
  | S k' => (next_idle_decision (idle_polls k' b)).2
  end.

Definition kth_decision (k : nat) (b : IdleBackoff) : IdleBackoffDecision :=
  (next_idle_decision (idle_polls k b)).1.

(** The policy in closed form. *)
Definition backoff_policy (config : IdleBackoffConfig) (k : Z) : IdleBackoffDecision :=
  if k <? spin_iterations config then mkIdleBackoffDecision kSPIN 0
  else if k <? spin_iterations config + yield_iterations config then mkIdleBackoffDecision kYIELD 0
  else mkIdleBackoffDecision kSLEEP
         (Z.min (max_sleep config)
            (min_sleep config * 2 ^ (k - (spin_iterations config + yield_iterations config)))).

Definition valid_config (config : IdleBackoffConfig) : Prop :=
  profile config = kHARVEST ∧ is_u32 (spin_iterations config) ∧ is_u32 (yield_iterations config) ∧
  0 < min_sleep config ≤ max_sleep config.

(** The state reached after [k] consecutive idle polls. *)
Definition polled_state (config : IdleBackoffConfig) (k : Z) : IdleBackoff :=
  let awake := spin_iterations config + yield_iterations config in
  mkIdleBackoff config (Z.min k awake)
    (Z.min (max_sleep config) (min_sleep config * 2 ^ (Z.max 0 (k - awake)))).

Lemma next_sleep_doubles mn mx j : 0 < mn ≤ mx → 0 ≤ j →
  let s := Z.min mx (mn * 2 ^ j) in
  (if s <? mx then s + (if mx - s <? s then mx - s else s) else s) = Z.min mx (mn * 2 ^ (j + 1)).
Proof.
  intros Hm Hj. cbn zeta. rewrite Z.pow_add_r, Z.pow_1_r by lia.
  assert (0 < mn * 2 ^ j) by (apply Z.mul_pos_pos; [lia|apply Z.pow_pos_nonneg; lia]).
  set (x := mn * 2 ^ j) in *. replace (mn * (2 ^ j * 2)) with (x * 2) by (subst x; lia).
  destruct (Z.ltb_spec (Z.min mx x) mx); [|lia].
  destruct (Z.ltb_spec (mx - Z.min mx x) (Z.min mx x)); lia.
Qed.

Lemma polled_state_step config k : valid_config config → 0 ≤ k →
  next_idle_decision (polled_state config k) = (backoff_policy config k, polled_state config (k + 1)).
Proof.
  intros (Hp & Hs & Hy & Hm) Hk. unfold is_u32 in *.
  unfold next_idle_decision, polled_state, backoff_policy. cbn. rewrite Hp.
  set (sp := spin_iterations config) in *. set (y := yield_iterations config) in *.
  destruct (Z.ltb_spec k sp).
  - rewrite (proj2 (Z.ltb_lt (Z.min k (sp + y)) sp)) by lia.
    rewrite u64_id by (unfold is_u64; lia).
    replace (Z.min (k + 1) (sp + y)) with (Z.min k (sp + y) + 1) by lia.
    by rewrite !(Z.max_l 0) by lia.
  - destruct (Z.ltb_spec (Z.min k (sp + y)) sp); [lia|].
    rewrite u64_id by (unfold is_u64; lia).
    destruct (Z.ltb_spec k (sp + y)).
    + rewrite (proj2 (Z.ltb_lt (Z.min k (sp + y) - sp) y)) by lia.
      rewrite u64_id by (unfold is_u64; lia).
    replace (Z.min (k + 1) (sp + y)) with (Z.min k (sp + y) + 1) by lia.
    by rewrite !(Z.max_l 0) by lia.
    + destruct (Z.ltb_spec (Z.min k (sp + y) - sp) y); [lia|].
      rewrite !Z.max_r by lia. f_equal.
      pose proof (next_sleep_doubles (min_sleep config) (max_sleep config) (k - (sp + y)) Hm ltac:(lia)) as Hd.
      cbn zeta in Hd. replace (k + 1 - (sp + y)) with (k - (sp + y) + 1) by lia.
      rewrite <- Hd, (Z.min_r k), (Z.min_r (k + 1)) by lia. by destruct (_ <? max_sleep config).
Qed.

Lemma polled_state_0 config : valid_config config →
  polled_state config 0 = mkIdleBackoff config 0 (min_sleep config).
Proof.
  intros (_ & Hs & Hy & Hm). unfold polled_state, is_u32 in *.
  rewrite (Z.max_l 0 (0 - _)), Z.pow_0_r, (Z.min_l 0), (Z.min_r (max_sleep config)) by lia.
  f_equal. lia.
Qed.

(** A valid harvest back-off follows its closed-form policy for every
    number of consecutive idle polls: [spin_iterations] spins, then
    [yield_iterations] yields, then sleeps that double from [min_sleep] up to
    exactly [max_sleep] and stay there; [reset] starts the sequence over. *)
Theorem backoff_follows_policy config b k j :
  valid_config config → make_backoff config = Some b →
  kth_decision k b = backoff_policy config (Z.of_nat k) ∧
  kth_decision k (reset (idle_polls j b)) = backoff_policy config (Z.of_nat k).
Proof.
  intros Hv Hb. assert (b = polled_state config 0) as ->.
  { rewrite polled_state_0 by done. destruct Hv as (Hp & Hs & Hy & Hm).
    unfold make_backoff in Hb. rewrite Hp in Hb.
    destruct (Z.leb_spec (min_sleep config) 0), (Z.ltb_spec (max_sleep config) (min_sleep config));
      try lia. by simplify_eq/=. }
  assert (∀ n, idle_polls n (polled_state config 0) = polled_state config (Z.of_nat n)) as Hst.
  { induction n as [|n IH]; [done|]. cbn [idle_polls]. rewrite IH, polled_state_step by (done || lia).
    cbn [snd]. f_equal. lia. }
  assert (reset (polled_state config (Z.of_nat j)) = polled_state config 0) as Hr.
  { by rewrite polled_state_0. }
  unfold kth_decision. rewrite !Hst, Hr, Hst, polled_state_step by (done || lia). done.
Qed.

Definition demo_config : IdleBackoffConfig := mkIdleBackoffConfig kHARVEST 1 1 50 1000.

Lemma backoff_follows_policy_witness :
  kth_decision 7 (mkIdleBackoff demo_config 0 50) = mkIdleBackoffDecision kSLEEP 1000 ∧
  kth_decision 4 (reset (idle_polls 9 (mkIdleBackoff demo_config 0 50))) = mkIdleBackoffDecision kSLEEP 200.
Proof.
  assert (valid_config demo_config) as Hv by (unfold valid_config, is_u32, demo_config; cbn; repeat split; lia).
  split.
  - apply (proj1 (backoff_follows_policy demo_config _ 7 0 Hv eq_refl)).
  - apply (proj2 (backoff_follows_policy demo_config _ 4 9 Hv eq_refl)).
Defined.

End Backoff.
