(* ===== verification/MoneyTicks.v ===== *)
(** * MoneyTicks: decimal dollars to money ticks at the venue boundary

    Models [parse_money_ticks] of
    [cpp/include/predex/exchange/kalshi/money_ticks.hpp].  Kalshi sends dollar
    amounts with up to six fractional digits; PredEx stores ticks of $0.0001.
    The reference definition reads the text as an exact number of microdollars
    and rounds it once; the theorem shows the single-pass 64-bit parser computes
    the same thing on every input, including every rejection. *)

From S2P Require Import Prelude.
From Stdlib Require Import Ascii.

Module MoneyTicks.

Inductive MoneyTickRounding := kTOWARD_ZERO | kAWAY_FROM_ZERO | kFLOOR.

Definition kMONEY_TICKS_PER_DOLLAR : Z := 10000.
Definition kMONEY_TICK_DECIMAL_PLACES : nat := 4.
Definition kMAX_WIRE_DECIMAL_PLACES : nat := 6.

Definition char_code (c : ascii) : Z := Z.of_N (N_of_ascii c).

(** [ch < '0' || ch > '9'] rejects; otherwise [ch - '0']. *)
Definition digit_value (c : ascii) : option Z :=
  if (char_code c <? 48) || (57 <? char_code c) then None else Some (char_code c - 48).

Definition is_minus (c : ascii) : bool := char_code c =? 45.
Definition is_plus (c : ascii) : bool := char_code c =? 43.
Definition is_dot (c : ascii) : bool := char_code c =? 46.

(** [value.find('.')] and the two [substr] calls: the text before the first dot
    and the text after it. *)
Fixpoint split_dot (s : list ascii) : list ascii * option (list ascii) :=
  match s with
  | [] => ([], None)
  | c :: s' => if is_dot c then ([], Some s') else
      let '(whole, frac) := split_dot s' in (c :: whole, frac)
  end.

(** The loop over [whole_text], with its overflow test. *)
Fixpoint parse_whole (s : list ascii) (whole : Z) : option Z :=
  match s with
  | [] => Some whole
  | c :: s' =>
      digit ← digit_value c;
      if (U64_MAX - digit) / 10 <? whole then None
      else parse_whole s' (u64 (u64 (whole * 10) + digit))
  end.

(** The loop over [fractional_text]: four digits are kept, the rest only decide
    whether something non-zero was discarded. *)
Fixpoint parse_fraction (s : list ascii) (index : nat) (ticks : Z) (discarded : bool) : option (Z * bool) :=
  match s with
  | [] => Some (ticks, discarded)
  | c :: s' =>
      digit ← digit_value c;
      if (index <? kMONEY_TICK_DECIMAL_PLACES)%nat
      then parse_fraction s' (S index) (u64 (u64 (ticks * 10) + digit)) discarded
      else parse_fraction s' (S index) ticks (discarded || negb (digit =? 0))
  end.

(** The padding loop: one multiplication per missing tick digit. *)
Fixpoint pad_fraction (n : nat) (ticks : Z) : Z :=
  match n with
  | O => ticks
  | S n' => pad_fraction n' (u64 (ticks * 10))
  end.

Definition strip_sign (value : list ascii) : bool * list ascii :=
  match value with
  | c :: rest => if is_minus c || is_plus c then (is_minus c, rest) else (false, value)
  | [] => (false, [])
  end.

Definition increments (rounding : MoneyTickRounding) (negative discarded : bool) : bool :=
  discarded && match rounding with
               | kAWAY_FROM_ZERO => true
               | kFLOOR => negative
               | kTOWARD_ZERO => false
               end.

Definition parse_money_ticks (value : list ascii) (rounding : MoneyTickRounding) : option Z :=
  match value with
  | [] => None
  | _ =>
      let '(negative, value) := strip_sign value in
      match value with
      | [] => None
      | _ =>
          let '(whole_text, dot) := split_dot value in
          let fractional_text := default [] dot in
          if bool_decide (whole_text = []) || (kMAX_WIRE_DECIMAL_PLACES <? length fractional_text)%nat
          then None
          else
            whole ← parse_whole whole_text 0;
            '(kept, discarded_nonzero) ← parse_fraction fractional_text 0 0 false;
            let fractional_ticks :=
              pad_fraction (kMONEY_TICK_DECIMAL_PLACES - length fractional_text) kept in
            if (I64_MAX - fractional_ticks) / kMONEY_TICKS_PER_DOLLAR <? whole then None
            else
              let magnitude := u64 (u64 (whole * kMONEY_TICKS_PER_DOLLAR) + fractional_ticks) in
              if increments rounding negative discarded_nonzero then
                if magnitude =? I64_MAX then None
                else let signed_magnitude := i64 (u64 (magnitude + 1)) in
                     Some (if negative then - signed_magnitude else signed_magnitude)
              else let signed_magnitude := i64 magnitude in
                   Some (if negative then - signed_magnitude else signed_magnitude)
      end
  end.

(** ** The reference: exact microdollars, rounded once *)

(** The value of a digit string, most significant first. *)
Fixpoint digits_value (s : list ascii) (acc : Z) : option Z :=
  match s with
  | [] => Some acc
  | c :: s' => d ← digit_value c; digits_value s' (acc * 10 + d)
  end.

(** Sign and magnitude in microdollars of [[+-]digits[.digits]]. *)
Definition microdollars (value : list ascii) : option (bool * Z) :=
  let '(negative, body) := strip_sign value in
  let '(whole_text, dot) := split_dot body in
  let frac := default [] dot in
  if bool_decide (whole_text = []) || (kMAX_WIRE_DECIMAL_PLACES <? length frac)%nat then None
  else
    w ← digits_value whole_text 0;
    f ← digits_value frac 0;
    Some (negative, w * 1000000 + f * 10 ^ (6 - Z.of_nat (length frac))).

(** One tick is a hundred microdollars. *)
Definition round_ticks (rounding : MoneyTickRounding) (negative : bool) (micros : Z) : Z :=
  let exact := if negative then - micros else micros in
  match rounding with
  | kTOWARD_ZERO => Z.quot exact 100
  | kAWAY_FROM_ZERO => if negative then - ((micros + 99) / 100) else (micros + 99) / 100
  | kFLOOR => exact / 100
  end.

Definition reference_money_ticks (value : list ascii) (rounding : MoneyTickRounding) : option Z :=
  '(negative, micros) ← microdollars value;
  let ticks := round_ticks rounding negative micros in
  if Z.abs ticks <=? I64_MAX then Some ticks else None.

(** ** Digit strings *)

Lemma digit_value_range c d : digit_value c = Some d → 0 ≤ d ≤ 9.
Proof.
  unfold digit_value. destruct (Z.ltb_spec (char_code c) 48), (Z.ltb_spec 57 (char_code c));
    cbn; intros; simplify_eq; lia.
Qed.

Lemma digits_value_ge s acc v : 0 ≤ acc → digits_value s acc = Some v → acc ≤ v.
Proof.
  revert acc. induction s as [|c s IH]; intros acc Hacc Hv; cbn in Hv; [simplify_eq; lia|].
  destruct (digit_value c) as [d|] eqn:Ed; [|done]. apply digit_value_range in Ed.
  cbn in Hv. apply IH in Hv; lia.
Qed.

Lemma digits_value_cons c s acc :
  digits_value (c :: s) acc = d ← digit_value c; digits_value s (acc * 10 + d).
Proof. done. Qed.

Lemma digits_value_acc s acc :
  digits_value s acc = (λ r, acc * 10 ^ Z.of_nat (length s) + r) <$> digits_value s 0.
Proof.
  revert acc. induction s as [|c s IH]; intros acc; [cbn; f_equal; lia|].
  rewrite !digits_value_cons. destruct (digit_value c) as [d|]; [|done]. cbn [mbind option_bind].
  rewrite (IH (acc * 10 + d)), (IH (0 * 10 + d)).
  destruct (digits_value s 0) as [r|]; [|done]. cbn [fmap option_fmap option_map length].
  rewrite Nat2Z.inj_succ, Z.pow_succ_r by lia. f_equal. lia.
Qed.

Lemma digits_value_app a b acc :
  digits_value (a ++ b) acc = v ← digits_value a acc; digits_value b v.
Proof.
  revert acc. induction a as [|c a IH]; intros acc; cbn; [done|].
  destruct (digit_value c); cbn; [apply IH|done].
Qed.

Lemma digits_value_bound s v : digits_value s 0 = Some v → 0 ≤ v < 10 ^ Z.of_nat (length s).
Proof.
  revert v. induction s as [|c s IH] using rev_ind; intros v Hv; [cbn in Hv; simplify_eq; cbn; lia|].
  rewrite digits_value_app in Hv. destruct (digits_value s 0) as [w|]; [|done]. cbn in Hv.
  destruct (digit_value c) as [d|] eqn:Ed; [|done]. apply digit_value_range in Ed. simplify_eq/=.
  specialize (IH w eq_refl). rewrite length_app, Nat2Z.inj_add. cbn [length Z.of_nat Pos.of_succ_nat].
  rewrite Z.pow_add_r, Z.pow_1_r by lia. lia.
Qed.

Lemma parse_whole_spec s whole : 0 ≤ whole ≤ U64_MAX →
  parse_whole s whole = v ← digits_value s whole; if v <=? U64_MAX then Some v else None.
Proof.
  revert whole. induction s as [|c s IH]; intros whole Hw; cbn.
  - by rewrite (proj2 (Z.leb_le whole U64_MAX)) by lia.
  - destruct (digit_value c) as [d|] eqn:Ed; [|done]. apply digit_value_range in Ed. cbn.
    pose proof (Z.div_mod (U64_MAX - d) 10). pose proof (Z.mod_pos_bound (U64_MAX - d) 10).
    destruct (Z.ltb_spec ((U64_MAX - d) / 10) whole).
    + destruct (digits_value s (whole * 10 + d)) as [v|] eqn:Ev; [|done]. cbn.
      apply digits_value_ge in Ev; [|lia]. rewrite (proj2 (Z.leb_gt v U64_MAX)); [done|lia].
    + rewrite (u64_id (whole * 10)), u64_id by (unfold is_u64; lia). apply IH. lia.
Qed.

Lemma parse_fraction_tail s i t disc : (4 ≤ i)%nat →
  parse_fraction s i t disc = (λ r, (t, disc || negb (r =? 0))) <$> digits_value s 0.
Proof.
  revert i disc. induction s as [|c s IH]; intros i disc Hi; [cbn; by rewrite orb_false_r|].
  rewrite digits_value_cons. cbn [parse_fraction]. destruct (digit_value c) as [d|] eqn:Ed; [|done]. apply digit_value_range in Ed.
  cbn [mbind option_bind]. destruct (Nat.ltb_spec i kMONEY_TICK_DECIMAL_PLACES); [unfold kMONEY_TICK_DECIMAL_PLACES in *; lia|].
  rewrite IH by lia. rewrite (digits_value_acc s (0 * 10 + d)).
  destruct (digits_value s 0) as [r|] eqn:Er; [|done]. apply digits_value_bound in Er.
  cbn [fmap option_fmap option_map]. do 2 f_equal. rewrite <- orb_assoc. f_equal.
  destruct (Z.eqb_spec d 0), (Z.eqb_spec r 0), (Z.eqb_spec ((0 * 10 + d) * 10 ^ Z.of_nat (length s) + r) 0); try done; nia.
Qed.

Lemma parse_fraction_spec s i t : (i ≤ 4)%nat → 0 ≤ t < 10 ^ Z.of_nat i →
  parse_fraction s i t false =
    (k ← digits_value (take (4 - i) s) t;
     r ← digits_value (drop (4 - i) s) 0;
     Some (k, negb (r =? 0))).
Proof.
  revert i t. induction s as [|c s IH]; intros i t Hi Ht.
  - rewrite take_nil, drop_nil. done.
  - destruct (decide (i = 4%nat)) as [->|].
    { rewrite parse_fraction_tail by lia. cbn [Nat.sub take drop]. cbn.
      destruct (digit_value c); [cbn; by destruct (digits_value s _)|done]. }
    destruct (4 - i)%nat as [|m] eqn:Em; [lia|]. cbn -[Nat.ltb].
    destruct (digit_value c) as [d|] eqn:Ed; [|done]. apply digit_value_range in Ed. cbn -[Nat.ltb].
    destruct (Nat.ltb_spec i kMONEY_TICK_DECIMAL_PLACES); [|unfold kMONEY_TICK_DECIMAL_PLACES in *; lia].
    assert (10 ^ Z.of_nat i ≤ 10 ^ 3) by (apply Z.pow_le_mono_r; lia).
    rewrite (u64_id (t * 10)), u64_id by (unfold is_u64; lia).
    rewrite IH; [|lia|rewrite Nat2Z.inj_succ, Z.pow_succ_r by lia; lia].
    by replace (4 - S i)%nat with m by lia.
Qed.

Lemma pad_fraction_spec n t : 0 ≤ t → t * 10 ^ Z.of_nat n ≤ U64_MAX →
  pad_fraction n t = t * 10 ^ Z.of_nat n.
Proof.
  revert t. induction n as [|n IH]; intros t Ht Hb; [cbn; lia|].
  rewrite Nat2Z.inj_succ, Z.pow_succ_r in Hb by lia. cbn [pad_fraction].
  assert (0 < 10 ^ Z.of_nat n) by (apply Z.pow_pos_nonneg; lia).
  rewrite u64_id by (unfold is_u64; nia). rewrite IH by lia.
  rewrite Nat2Z.inj_succ, Z.pow_succ_r by lia. lia.
Qed.

(** The fraction of at most six digits, as ticks and a remainder in
    microdollars. *)
Lemma fraction_split s : (length s ≤ 6)%nat →
  (∃ kept disc f rem,
     parse_fraction s 0 0 false = Some (kept, disc) ∧ digits_value s 0 = Some f ∧
     let ft := pad_fraction (kMONEY_TICK_DECIMAL_PLACES - length s) kept in
     f * 10 ^ (6 - Z.of_nat (length s)) = ft * 100 + rem ∧
     0 ≤ ft ≤ 9999 ∧ 0 ≤ rem ≤ 99 ∧ disc = negb (rem =? 0)) ∨
  (parse_fraction s 0 0 false = None ∧ digits_value s 0 = None).
Proof.
  intros Hlen. rewrite (parse_fraction_spec s 0 0) by (cbn; lia). cbn [Nat.sub].
  assert (digits_value s 0 = v ← digits_value (take 4 s) 0; digits_value (drop 4 s) v) as ->
    by (by rewrite <- digits_value_app, take_drop).
  destruct (digits_value (take 4 s) 0) as [k|] eqn:Ek; [|by right]. cbn [mbind option_bind].
  rewrite (digits_value_acc (drop 4 s) k).
  destruct (digits_value (drop 4 s) 0) as [r|] eqn:Er; [|by right]. left.
  apply digits_value_bound in Ek, Er. rewrite length_drop, length_take in *.
  cbn [mbind option_bind fmap option_fmap option_map].
  exists k, (negb (r =? 0)), (k * 10 ^ Z.of_nat (length s - 4) + r), (r * 10 ^ (6 - Z.of_nat (4 `max` length s)%nat)).
  split; [done|]. split; [done|]. cbn zeta. unfold kMONEY_TICK_DECIMAL_PLACES.
  assert (length s = 0 ∨ length s = 1 ∨ length s = 2 ∨ length s = 3 ∨ length s = 4 ∨
          length s = 5 ∨ length s = 6)%nat as Hcase by lia.
  destruct Hcase as [E|[E|[E|[E|[E|[E|E]]]]]]; rewrite E in *; cbn in Ek, Er; simpl in Ek, Er;
    rewrite pad_fraction_spec by (cbn; lia); cbn;
    (split; [lia|split; [lia|split; [lia|]]]); f_equal;
    match goal with |- ?a = (?x =? 0) => destruct (Z.eqb_spec r 0), (Z.eqb_spec x 0) end; try done; lia.
Qed.

Lemma quot_neg_100 m : 0 ≤ m → Z.quot (- m) 100 = - (m / 100).
Proof. intros. by rewrite Z.quot_opp_l, Z.quot_div_nonneg by lia. Qed.

Lemma div_neg_100 x rem : 0 ≤ rem ≤ 99 → (- (x * 100 + rem)) / 100 = - (x + (if rem =? 0 then 0 else 1)).
Proof.
  intros Hr. symmetry. destruct (Z.eqb_spec rem 0).
  - apply (Z.div_unique _ 100 _ 0); lia.
  - apply (Z.div_unique _ 100 _ (100 - rem)); lia.
Qed.

(** Rounding a non-negative magnitude of [x] ticks and [rem] microdollars. *)
Lemma round_ticks_spec rounding negative x rem : 0 ≤ x → 0 ≤ rem ≤ 99 →
  round_ticks rounding negative (x * 100 + rem) =
    let m := x + (if increments rounding negative (negb (rem =? 0)) then 1 else 0) in
    if negative then - m else m.
Proof.
  intros Hx Hr. assert ((x * 100 + rem) / 100 = x) as Hdiv
    by (symmetry; apply (Z.div_unique _ 100 x rem); lia).
  assert ((x * 100 + rem + 99) / 100 = x + (if rem =? 0 then 0 else 1)) as Hup.
  { symmetry. destruct (Z.eqb_spec rem 0).
    - apply (Z.div_unique _ 100 _ 99); lia.
    - apply (Z.div_unique _ 100 _ (rem - 1)); lia. }
  unfold round_ticks, increments.
  destruct rounding, negative;
    rewrite ?quot_neg_100, ?Z.quot_div_nonneg, ?div_neg_100, ?Hup, ?Hdiv by lia;
    destruct (Z.eqb_spec rem 0); cbn; lia.
Qed.

(** The tail of the parser, from the parsed parts to the signed result. *)
Lemma assemble_spec rounding negative whole ft rem : 0 ≤ whole → 0 ≤ ft ≤ 9999 → 0 ≤ rem ≤ 99 →
  (if whole <=? U64_MAX then
     if (I64_MAX - ft) / kMONEY_TICKS_PER_DOLLAR <? whole then None
     else
       let magnitude := u64 (u64 (whole * kMONEY_TICKS_PER_DOLLAR) + ft) in
       if increments rounding negative (negb (rem =? 0)) then
         if magnitude =? I64_MAX then None
         else Some (if negative then - i64 (u64 (magnitude + 1)) else i64 (u64 (magnitude + 1)))
       else Some (if negative then - i64 magnitude else i64 magnitude)
   else None) =
  (let ticks := round_ticks rounding negative ((whole * 10000 + ft) * 100 + rem) in
   if Z.abs ticks <=? I64_MAX then Some ticks else None).
Proof.
  intros Hw Hft Hrem. rewrite round_ticks_spec by lia. cbn zeta. unfold kMONEY_TICKS_PER_DOLLAR.
  set (inc := increments _ _ _).
  pose proof (Z.div_mod (I64_MAX - ft) 10000). pose proof (Z.mod_pos_bound (I64_MAX - ft) 10000).
  destruct (Z.leb_spec whole U64_MAX); [|rewrite (proj2 (Z.leb_gt _ _)); [done|destruct inc, negative; lia]].
  destruct (Z.ltb_spec ((I64_MAX - ft) / 10000) whole);
    [rewrite (proj2 (Z.leb_gt _ _)); [done|destruct inc, negative; lia]|].
  rewrite (u64_id (whole * 10000)), (u64_id (whole * 10000 + ft)) by (unfold is_u64; lia).
  destruct inc.
  - destruct (Z.eqb_spec (whole * 10000 + ft) I64_MAX);
      [rewrite (proj2 (Z.leb_gt _ _)); [done|destruct negative; lia]|].
    rewrite u64_id, i64_id by (unfold is_u64, is_i64; lia).
    rewrite (proj2 (Z.leb_le _ _)) by (destruct negative; lia). done.
  - rewrite i64_id by (unfold is_i64; lia).
    rewrite (proj2 (Z.leb_le _ _)) by (destruct negative; lia). by rewrite Z.add_0_r.
Qed.

(** C24: on every text and every rounding policy the parser returns the exact
    decimal amount rounded once to ticks, and rejects exactly the texts that
    are not an optionally signed decimal with at most six fractional digits or
    whose rounded amount does not fit in 64 bits. *)
Theorem parse_money_ticks_correct value rounding :
  parse_money_ticks value rounding = reference_money_ticks value rounding.
Proof.
  unfold parse_money_ticks, reference_money_ticks, microdollars.
  destruct value as [|c0 value]; [done|].
  destruct (strip_sign (c0 :: value)) as [negative body].
  destruct body as [|c body]; [done|].
  destruct (split_dot (c :: body)) as [whole_text dot]. set (frac := default [] dot).
  destruct (bool_decide (whole_text = []) || _) eqn:Eguard; [done|].
  apply orb_false_iff in Eguard as [_ Hlen%Nat.ltb_ge]. unfold kMAX_WIRE_DECIMAL_PLACES in Hlen.
  rewrite parse_whole_spec by lia.
  destruct (digits_value whole_text 0) as [w|] eqn:Ew; [|done]. apply digits_value_bound in Ew.
  cbn [mbind option_bind].
  destruct (fraction_split frac Hlen) as [(kept & disc & f & rem & -> & -> & Hf & Hft & Hrem & ->)|[-> ->]];
    [|by destruct (w <=? U64_MAX)].
  cbn [mbind option_bind]. set (ft := pad_fraction _ kept) in *.
  rewrite Hf. replace (w * 1000000 + (ft * 100 + rem)) with ((w * 10000 + ft) * 100 + rem) by lia.
  rewrite <- assemble_spec by lia. by destruct (w <=? U64_MAX).
Qed.

End MoneyTicks.
