(* ===== verification/FixedPoint.v ===== *)
(** * FixedPoint: decimal text at the two venue interfaces

    The venue sends and receives prices and quantities as decimal text.  The market
    parser ([parse_scaled_fp] of [cpp/src/shard/market_parser.cpp]) and the REST adapter
    ([parse_fixed_point] of [cpp/src/exchange/kalshi/adapters/order_rest_adapter.cpp])
    read it into 64-bit integers of a fixed scale, and the adapter writes it
    ([scaled_integer_to_decimal]).  Both readers are shown to compute the exact decimal
    value, with the exact set of refused texts, and to invert the writer. *)

From S2P Require Import Prelude MoneyTicks.
From Stdlib Require Import Ascii.
From Stdlib Require String.

Module FixedPoint.
Import MoneyTicks.

Definition is_digit (c : ascii) : bool := negb ((char_code c <? 48) || (57 <? char_code c)).

(** [std::from_chars] of an unsigned 64-bit integer that has to use the whole text. *)
Definition from_chars_u64 (s : list ascii) : option Z :=
  v ← digits_value s 0; if v <=? U64_MAX then Some v else None.

(** The fraction loop of the market parser, after the digits were checked. *)
Definition accumulate_fraction (s : list ascii) : Z :=
  foldl (λ fractional c, u64 (u64 (fractional * 10) + (char_code c - 48))) 0 s.

Definition parse_scaled_fp (value : list ascii) (scale : Z) (decimal_places : nat) (allow_negative : bool)
    : option Z :=
  if bool_decide (value = []) || (scale =? 0) then None
  else
    let '(negative, value) := strip_sign value in
    if negative && negb allow_negative then None
    else if bool_decide (value = []) then None
    else
      let '(integer_part, dot) := split_dot value in
      let fractional_part := default [] dot in
      if bool_decide (integer_part = []) || (decimal_places <? length fractional_part)%nat then None
      else if negb (forallb is_digit integer_part) then None
      else if negb (forallb is_digit fractional_part) then None
      else
        whole ← from_chars_u64 integer_part;
        let fractional := pad_fraction (decimal_places - length fractional_part)
                            (accumulate_fraction fractional_part) in
        if (I64_MAX <? fractional) || ((I64_MAX - fractional) / scale <? whole) then None
        else
          let magnitude := u64 (u64 (whole * scale) + fractional) in
          Some (if negative then - i64 magnitude else i64 magnitude).

(** The fraction loop of the REST adapter checks and accumulates in one pass. *)
Fixpoint parse_fractional (s : list ascii) (fractional : Z) : option Z :=
  match s with
  | [] => Some fractional
  | c :: s' => digit ← digit_value c; parse_fractional s' (u64 (u64 (fractional * 10) + digit))
  end.

Definition parse_fixed_point (text : list ascii) (scale : Z) (fractional_digits : nat) (allow_negative : bool)
    : option Z :=
  if bool_decide (text = []) then None
  else
    let '(negative, magnitude_text) := strip_sign text in
    if negative && negb allow_negative then None
    else if bool_decide (magnitude_text = []) then None
    else
      let '(whole_text, dot) := split_dot magnitude_text in
      if match dot with Some rest => existsb is_dot rest | None => false end then None
      else
        let fractional_text := default [] dot in
        if bool_decide (whole_text = []) || (fractional_digits <? length fractional_text)%nat then None
        else
          whole ← parse_whole whole_text 0;
          fractional ← parse_fractional fractional_text 0;
          let fractional := pad_fraction (fractional_digits - length fractional_text) fractional in
          if u64 (I64_MAX - fractional) / scale <? whole then None
          else
            let magnitude := i64 (u64 (u64 (whole * scale) + fractional)) in
            Some (if negative then - magnitude else magnitude).

(** [std::to_string] of a 64-bit integer: at most nineteen digits. *)
Definition digit_char (d : Z) : ascii := ascii_of_N (Z.to_N (48 + d)).
Fixpoint print_digits (fuel : nat) (z : Z) (acc : list ascii) : list ascii :=
  match fuel with
  | O => acc
  | S fuel =>
      if z <? 10 then digit_char z :: acc
      else print_digits fuel (z / 10) (digit_char (z mod 10) :: acc)
  end.
Definition minus_char : ascii := ascii_of_N 45.
Definition dot_char : ascii := ascii_of_N 46.
Definition zero_char : ascii := ascii_of_N 48.
Definition to_string (z : Z) : list ascii :=
  if z <? 0 then minus_char :: print_digits 20 (- z) [] else print_digits 20 z [].

(** [append(count, '0')] throws [std::length_error] when the count has wrapped around:
    no text. *)
Definition scaled_integer_to_decimal (value scale : Z) (fractional_digits : nat) : option (list ascii) :=
  let whole := Z.quot value scale in
  let fractional := Z.rem value scale in
  let fractional_text := to_string fractional in
  if (fractional_digits <? length fractional_text)%nat then None
  else Some (to_string whole ++ [dot_char]
             ++ replicate (fractional_digits - length fractional_text) zero_char ++ fractional_text).

(** ** The reference: the exact decimal value *)

(** Sign and magnitude of [[+-]digits[.digits]] in units of [10 ^ - places]. *)
Definition scaled_value (value : list ascii) (places : nat) : option (bool * Z) :=
  let '(negative, body) := strip_sign value in
  let '(whole_text, dot) := split_dot body in
  let frac := default [] dot in
  if bool_decide (whole_text = []) || (places <? length frac)%nat then None
  else
    w ← digits_value whole_text 0;
    f ← digits_value frac 0;
    Some (negative, w * 10 ^ Z.of_nat places + f * 10 ^ (Z.of_nat places - Z.of_nat (length frac))).

Definition reference_fixed_point (value : list ascii) (places : nat) (allow_negative : bool) : option Z :=
  '(negative, v) ← scaled_value value places;
  if (negative && negb allow_negative) || (I64_MAX <? v) then None
  else Some (if negative then - v else v).

(** ** Lemmas *)

Lemma digit_value_is_digit c : digit_value c = if is_digit c then Some (char_code c - 48) else None.
Proof. unfold digit_value, is_digit. by destruct (_ || _). Qed.

Lemma digits_value_None s acc : forallb is_digit s = false → digits_value s acc = None.
Proof.
  revert acc. induction s as [|c s IH]; intros acc; cbn; [done|]. rewrite digit_value_is_digit.
  destruct (is_digit c); [apply IH|done].
Qed.

Lemma digits_value_Some s acc : forallb is_digit s = true → is_Some (digits_value s acc).
Proof.
  revert acc. induction s as [|c s IH]; intros acc; cbn; [by eexists|]. rewrite digit_value_is_digit.
  destruct (is_digit c); [apply IH|done].
Qed.

Lemma is_digit_range c : is_digit c = true → 0 ≤ char_code c - 48 ≤ 9.
Proof. unfold is_digit. intros [??]%negb_true_iff%orb_false_iff. guards. lia. Qed.

(** While the value fits, the wrapping loops compute it. *)
Lemma parse_fractional_spec s t : 0 ≤ t → (t + 1) * 10 ^ Z.of_nat (length s) ≤ U64_MAX →
  parse_fractional s t = digits_value s t.
Proof.
  revert t. induction s as [|c s IH]; intros t Ht Hb; [done|]. cbn [parse_fractional digits_value].
  destruct (digit_value c) as [d|] eqn:Ed; [|done]. apply digit_value_range in Ed. cbn [mbind option_bind].
  cbn [length] in Hb. rewrite Nat2Z.inj_succ, Z.pow_succ_r in Hb by lia.
  pose proof (Z.pow_pos_nonneg 10 (Z.of_nat (length s))).
  rewrite (u64_id (t * 10)), u64_id by (unfold is_u64; nia). apply IH; nia.
Qed.

Lemma accumulate_fraction_spec s : forallb is_digit s = true → 10 ^ Z.of_nat (length s) ≤ U64_MAX →
  digits_value s 0 = Some (accumulate_fraction s).
Proof.
  intros Hs Hb. unfold accumulate_fraction. rewrite <- (parse_fractional_spec s 0) by lia.
  clear Hb. generalize 0 as t. revert Hs. induction s as [|c s IH]; intros Hs t; cbn; [done|].
  cbn in Hs. apply andb_true_iff in Hs as [Hc Hs]. rewrite digit_value_is_digit, Hc. cbn. by apply IH.
Qed.

(** The tail both readers share: from the parsed parts to the signed result. *)
Lemma assemble_fixed_point places w f frac :
  (places ≤ 18)%nat → (length frac ≤ places)%nat → digits_value frac 0 = Some f → 0 ≤ w →
  let v := w * 10 ^ Z.of_nat places + f * 10 ^ (Z.of_nat places - Z.of_nat (length frac)) in
  let fractional := pad_fraction (places - length frac) f in
  0 ≤ fractional < 10 ^ Z.of_nat places ∧
  ((I64_MAX - fractional) / 10 ^ Z.of_nat places <? w) = (I64_MAX <? v) ∧
  ((I64_MAX <? v) = false → u64 (u64 (w * 10 ^ Z.of_nat places) + fractional) = v).
Proof.
  intros Hp Hl Hf Hw v fractional. apply digits_value_bound in Hf.
  assert (10 ^ Z.of_nat places ≤ 10 ^ 18) as Hpow by (apply Z.pow_le_mono_r; lia).
  assert (10 ^ Z.of_nat (length frac) * 10 ^ Z.of_nat (places - length frac) = 10 ^ Z.of_nat places) as Hmul
    by (rewrite <- Z.pow_add_r by lia; f_equal; lia).
  pose proof (Z.pow_pos_nonneg 10 (Z.of_nat (places - length frac))) as Hpos.
  assert (fractional = f * 10 ^ Z.of_nat (places - length frac)) as Ef.
  { apply pad_fraction_spec; [lia|]. nia. }
  assert (0 ≤ fractional < 10 ^ Z.of_nat places) as Hfr by (rewrite Ef; nia).
  split; [done|]. assert (v = w * 10 ^ Z.of_nat places + fractional) as Ev by (unfold v; rewrite Ef; repeat f_equal; lia).
  clearbody v fractional. set (S := 10 ^ Z.of_nat places) in *.
  pose proof (Z.div_mod (I64_MAX - fractional) S). pose proof (Z.mod_pos_bound (I64_MAX - fractional) S).
  split.
  - destruct (Z.ltb_spec I64_MAX v).
    + apply Z.ltb_lt. apply Z.nle_gt. intros Hle. nia.
    + apply Z.ltb_ge. apply Z.div_le_lower_bound; lia.
  - intros Hv%Z.ltb_ge. rewrite (u64_id (w * S)), u64_id by (unfold is_u64; nia). done.
Qed.

Lemma from_chars_None s : forallb is_digit s = false → from_chars_u64 s = None.
Proof. intros H. unfold from_chars_u64. by rewrite digits_value_None. Qed.

Lemma digits_value_nonneg s v : digits_value s 0 = Some v → 0 ≤ v.
Proof. intros H%digits_value_bound. lia. Qed.

Lemma existsb_dot_no_digits s : existsb is_dot s = true → digits_value s 0 = None.
Proof.
  intros H. apply digits_value_None. induction s as [|c s IH]; cbn in *; [done|].
  destruct (is_dot c) eqn:Hc; cbn in H.
  - apply andb_false_iff. left. unfold is_dot in Hc. apply Z.eqb_eq in Hc. unfold is_digit. by rewrite Hc.
  - by rewrite IH, andb_false_r.
Qed.

(** The readers agree once signs and parts are split off. *)
Lemma parse_scaled_parts whole_text frac places negative allow_negative :
  (places ≤ 18)%nat → (length frac ≤ places)%nat → negative && negb allow_negative = false →
  (if negb (forallb is_digit whole_text) then None
   else if negb (forallb is_digit frac) then None
   else
     whole ← from_chars_u64 whole_text;
     let fractional := pad_fraction (places - length frac) (accumulate_fraction frac) in
     if (I64_MAX <? fractional) || ((I64_MAX - fractional) / 10 ^ Z.of_nat places <? whole) then None
     else
       let magnitude := u64 (u64 (whole * 10 ^ Z.of_nat places) + fractional) in
       Some (if negative then - i64 magnitude else i64 magnitude)) =
  ('(negative, v) ← (w ← digits_value whole_text 0; f ← digits_value frac 0;
     Some (negative, w * 10 ^ Z.of_nat places + f * 10 ^ (Z.of_nat places - Z.of_nat (length frac))));
   if (negative && negb allow_negative) || (I64_MAX <? v) then None
   else Some (if negative then - v else v)).
Proof.
  intros Hp Hl Hs.
  destruct (forallb is_digit whole_text) eqn:Hw; cbn [negb]; [|by rewrite (digits_value_None whole_text) by done].
  destruct (digits_value_Some whole_text 0 Hw) as [w Ew].
  destruct (forallb is_digit frac) eqn:Hf; cbn [negb];
    [|by rewrite Ew, (digits_value_None frac) by done].
  assert (10 ^ Z.of_nat (length frac) ≤ 10 ^ 18) by (apply Z.pow_le_mono_r; lia).
  assert (10 ^ Z.of_nat places ≤ 10 ^ 18) by (apply Z.pow_le_mono_r; lia).
  pose proof (accumulate_fraction_spec frac Hf ltac:(lia)) as Ef. unfold from_chars_u64. rewrite Ew, Ef.
  cbn [mbind option_bind]. rewrite Hs. cbn [orb].
  pose proof (digits_value_nonneg _ _ Ew) as Hw0.
  destruct (assemble_fixed_point places w (accumulate_fraction frac) frac) as (Hb & Hcmp & Hval);
    try done. cbv zeta in *. set (v := w * _ + _) in *. set (fr := pad_fraction _ _) in *.
  assert ((I64_MAX <? fr) = false) as -> by (apply Z.ltb_ge; lia).
  pose proof (digits_value_bound _ _ Ef) as Hfb. pose proof (Z.pow_pos_nonneg 10 (Z.of_nat places)) as Hpp.
  assert (0 ≤ 10 ^ (Z.of_nat places - Z.of_nat (length frac))) as Hpn by (apply Z.pow_nonneg; lia).
  destruct (Z.leb_spec w U64_MAX) as [Hle|Hgt]; cbn [mbind option_bind orb].
  - rewrite Hcmp. destruct (Z.ltb_spec I64_MAX v) as [|Hv]; [done|].
    assert (0 ≤ v) by (subst v; nia).
    rewrite Hval by done. rewrite i64_id by (unfold is_i64; lia). done.
  - assert ((I64_MAX <? v) = true) as ->; [|done]. apply Z.ltb_lt. subst v. nia.
Qed.
Lemma parse_fixed_parts whole_text dot places negative allow_negative :
  let frac := default [] dot in
  (places ≤ 18)%nat → (length frac ≤ places)%nat → negative && negb allow_negative = false →
  (if match dot with Some rest => existsb is_dot rest | None => false end then None
   else
     whole ← parse_whole whole_text 0;
     fractional ← parse_fractional frac 0;
     let fractional := pad_fraction (places - length frac) fractional in
     if u64 (I64_MAX - fractional) / 10 ^ Z.of_nat places <? whole then None
     else
       let magnitude := i64 (u64 (u64 (whole * 10 ^ Z.of_nat places) + fractional)) in
       Some (if negative then - magnitude else magnitude)) =
  ('(negative, v) ← (w ← digits_value whole_text 0; f ← digits_value frac 0;
     Some (negative, w * 10 ^ Z.of_nat places + f * 10 ^ (Z.of_nat places - Z.of_nat (length frac))));
   if (negative && negb allow_negative) || (I64_MAX <? v) then None
   else Some (if negative then - v else v)).
Proof.
  intros frac Hp Hl Hs. rewrite <- parse_scaled_parts by done.
  assert (10 ^ Z.of_nat (length frac) ≤ 10 ^ 18) by (apply Z.pow_le_mono_r; lia).
  assert (10 ^ Z.of_nat places ≤ 10 ^ 18) by (apply Z.pow_le_mono_r; lia).
  rewrite parse_whole_spec, parse_fractional_spec by lia. fold (from_chars_u64 whole_text).
  destruct (forallb is_digit whole_text) eqn:Hw; cbn [negb];
    [|by rewrite from_chars_None by done; destruct dot; [destruct (existsb _ _)|]].
  destruct (forallb is_digit frac) eqn:Hf; cbn [negb].
  - pose proof (accumulate_fraction_spec frac Hf ltac:(lia)) as Ef. rewrite Ef.
    assert (match dot with Some rest => existsb is_dot rest | None => false end = false) as ->.
    { destruct dot as [rest|]; [|done]. apply not_true_is_false. intros Hd%existsb_dot_no_digits.
      cbn in frac. subst frac. congruence. }
    destruct (from_chars_u64 whole_text) as [w|]; [|done]. cbn [mbind option_bind]. cbv zeta.
    destruct (assemble_fixed_point places 0 (accumulate_fraction frac) frac) as (Hb & _); try done.
    cbv zeta in Hb. set (fr := pad_fraction _ _) in *.
    rewrite (u64_id (I64_MAX - fr)) by (unfold is_u64; lia).
    assert ((I64_MAX <? fr) = false) as -> by (apply Z.ltb_ge; lia). cbn [orb].
    destruct (_ <? _); [done|]. by destruct negative.
  - rewrite (digits_value_None frac) by done.
    destruct (match dot with Some rest => existsb is_dot rest | None => false end); [done|].
    by destruct (from_chars_u64 whole_text).
Qed.

Lemma readers_reference value places allow_negative : (places ≤ 18)%nat →
  parse_scaled_fp value (10 ^ Z.of_nat places) places allow_negative = reference_fixed_point value places allow_negative ∧
  parse_fixed_point value (10 ^ Z.of_nat places) places allow_negative = reference_fixed_point value places allow_negative.
Proof.
  intros Hp. unfold parse_scaled_fp, parse_fixed_point, reference_fixed_point, scaled_value.
  assert ((10 ^ Z.of_nat places =? 0) = false) as ->
    by (apply Z.eqb_neq; pose proof (Z.pow_pos_nonneg 10 (Z.of_nat places)); lia).
  rewrite orb_false_r. case_bool_decide as E; [by subst|]. clear E.
  destruct (strip_sign value) as [negative body].
  destruct (negative && negb allow_negative) eqn:Hs.
  { split; symmetry; destruct (split_dot body) as [whole_text dot]; destruct (_ || _); try done;
      destruct (digits_value whole_text 0); try done; cbn [mbind option_bind];
      destruct (digits_value (default [] dot) 0); try done; cbn [mbind option_bind]; by rewrite Hs. }
  case_bool_decide as E; [by subst|]. clear E. destruct (split_dot body) as [whole_text dot].
  destruct (bool_decide (whole_text = []) || _) eqn:Hg.
  { split; [done|]. by destruct (match dot with Some rest => existsb is_dot rest | None => false end). }
  apply orb_false_iff in Hg as [_ Hl%Nat.ltb_ge]. split.
  - by apply parse_scaled_parts.
  - by apply parse_fixed_parts.
Qed.

(** ** Printing *)

Lemma digit_char_value d : 0 ≤ d ≤ 9 → digit_value (digit_char d) = Some d.
Proof.
  intros Hd. assert (d = 0 ∨ d = 1 ∨ d = 2 ∨ d = 3 ∨ d = 4 ∨ d = 5 ∨ d = 6 ∨ d = 7 ∨ d = 8 ∨ d = 9) as H by lia.
  by repeat (destruct H as [->|H]; [done|]); subst.
Qed.

Lemma print_digits_value fuel z acc : 0 ≤ z < 10 ^ Z.of_nat fuel → (0 < fuel)%nat →
  digits_value (print_digits fuel z acc) 0 = digits_value acc z.
Proof.
  revert z acc. induction fuel as [|fuel IH]; intros z acc Hz Hf; [lia|]. cbn [print_digits].
  destruct (Z.ltb_spec z 10) as [Hlt|Hge].
  - rewrite digits_value_cons, digit_char_value by lia. done.
  - rewrite Nat2Z.inj_succ, Z.pow_succ_r in Hz by lia.
    pose proof (Z.div_mod z 10). pose proof (Z.mod_pos_bound z 10).
    assert (z / 10 < 10 ^ Z.of_nat fuel) by (apply Z.div_lt_upper_bound; lia).
    assert (0 < fuel)%nat by (destruct fuel; [cbn in *; lia|lia]).
    rewrite IH by lia. rewrite digits_value_cons, digit_char_value by lia. cbn [mbind option_bind].
    f_equal. lia.
Qed.

Lemma print_digits_length fuel k z acc : z < 10 ^ Z.of_nat k → (0 < k ≤ fuel)%nat →
  (length (print_digits fuel z acc) ≤ k + length acc)%nat.
Proof.
  revert k z acc. induction fuel as [|fuel IH]; intros k z acc Hz Hk; [lia|]. cbn [print_digits].
  destruct (Z.ltb_spec z 10) as [Hlt|Hge]; [cbn; lia|]. destruct k as [|k]; [lia|].
  rewrite Nat2Z.inj_succ, Z.pow_succ_r in Hz by lia.
  assert (0 < k)%nat by (destruct k; [cbn in Hz; lia|lia]).
  etrans; [apply (IH k)|cbn; lia]; [apply Z.div_lt_upper_bound; lia|lia].
Qed.

Lemma print_digits_nonempty fuel z acc : (0 < fuel)%nat → print_digits fuel z acc ≠ [].
Proof.
  revert z acc. induction fuel as [|fuel IH]; intros z acc Hf; [lia|]. cbn [print_digits].
  destruct (z <? 10); [done|]. destruct fuel; [done|]. apply IH. lia.
Qed.

Lemma to_string_value z : 0 ≤ z ≤ I64_MAX → digits_value (to_string z) 0 = Some z ∧ to_string z ≠ [].
Proof.
  intros Hz. unfold to_string. rewrite (proj2 (Z.ltb_ge z 0)) by lia. split.
  - by rewrite print_digits_value by (change (10 ^ Z.of_nat 20) with 100000000000000000000; lia).
  - apply print_digits_nonempty. lia.
Qed.

Lemma to_string_length z k : 0 ≤ z < 10 ^ Z.of_nat k → (0 < k ≤ 20)%nat → (length (to_string z) ≤ k)%nat.
Proof.
  intros Hz Hk. unfold to_string. rewrite (proj2 (Z.ltb_ge z 0)) by lia.
  etrans; [apply (print_digits_length 20 k); lia|cbn; lia].
Qed.

Lemma digits_value_zeros n s : digits_value (replicate n zero_char ++ s) 0 = digits_value s 0.
Proof. induction n as [|n IH]; [done|]. cbn [replicate app]. by rewrite digits_value_cons. Qed.

Lemma digits_forallb s v : digits_value s 0 = Some v → forallb is_digit s = true.
Proof. intros H. apply not_false_is_true. intros Hf. by rewrite digits_value_None in H. Qed.

Lemma split_dot_digits a b : forallb is_digit a = true → split_dot (a ++ dot_char :: b) = (a, Some b).
Proof.
  induction a as [|c a IH]; cbn [app split_dot forallb]; intros H; [done|]. apply andb_true_iff in H as [Hc Ha].
  assert (is_dot c = false) as ->.
  { unfold is_dot. apply is_digit_range in Hc. apply Z.eqb_neq. lia. }
  by rewrite IH.
Qed.

Lemma strip_sign_digits a b : a ≠ [] → forallb is_digit a = true → strip_sign (a ++ b) = (false, a ++ b).
Proof.
  destruct a as [|c a]; [done|]. cbn. intros _ [Hc _]%andb_true_iff. apply is_digit_range in Hc.
  unfold is_minus, is_plus. by rewrite (proj2 (Z.eqb_neq (char_code c) 45)), (proj2 (Z.eqb_neq (char_code c) 43)) by lia.
Qed.

(** Both readers of decimal text are exact.  On every text, and for every scale of up
    to eighteen decimal places, each returns the written decimal in units of that scale,
    and refuses exactly the texts that are not an optionally signed decimal of at most
    that many places, negative ones where they are not allowed, and values that do not fit
    in 64 bits. *)
Theorem fixed_point_readers_exact value places allow_negative : (places ≤ 18)%nat →
  parse_scaled_fp value (10 ^ Z.of_nat places) places allow_negative = reference_fixed_point value places allow_negative ∧
  parse_fixed_point value (10 ^ Z.of_nat places) places allow_negative = reference_fixed_point value places allow_negative.
Proof. apply readers_reference. Qed.

(** The writer on a non-negative amount: the exact decimal with all its places. *)
Lemma written_decimal value places : (0 < places ≤ 18)%nat → 0 ≤ value ≤ I64_MAX →
  ∃ text, scaled_integer_to_decimal value (10 ^ Z.of_nat places) places = Some text ∧
    scaled_value text places = Some (false, value).
Proof.
  intros Hp Hv. set (S := 10 ^ Z.of_nat places).
  assert (1 ≤ S ≤ 10 ^ 18) as HS
    by (split; [pose proof (Z.pow_pos_nonneg 10 (Z.of_nat places)); lia|apply Z.pow_le_mono_r; lia]).
  unfold scaled_integer_to_decimal. rewrite Z.quot_div_nonneg, Z.rem_mod_nonneg by lia.
  pose proof (Z.div_mod value S). pose proof (Z.mod_pos_bound value S).
  assert (0 ≤ value / S ≤ I64_MAX) by (split; [apply Z.div_pos; lia|nia]).
  destruct (to_string_value (value / S)) as [Hw Hwn]; [lia|].
  destruct (to_string_value (value mod S)) as [Hf _]; [lia|].
  pose proof (to_string_length (value mod S) places ltac:(lia) ltac:(lia)) as Hl.
  rewrite (proj2 (Nat.ltb_ge _ _)) by done. eexists. split; [done|].
  unfold scaled_value. pose proof (digits_forallb _ _ Hw) as Hwd.
  rewrite strip_sign_digits by done. cbn [app]. rewrite split_dot_digits by done. cbn [from_option]. unfold id.
  rewrite bool_decide_eq_false_2 by done. set (frac := replicate _ zero_char ++ _).
  assert (length frac = places) as El by (subst frac; rewrite length_app, length_replicate; lia).
  rewrite El, (proj2 (Nat.ltb_ge _ _)) by done. cbn [orb]. unfold frac. rewrite Hw, digits_value_zeros, Hf.
  cbn [mbind option_bind]. rewrite Z.sub_diag, Z.pow_0_r. do 2 f_equal. fold S. lia.
Qed.

Lemma written_reads value places allow_negative : (0 < places ≤ 18)%nat → 0 ≤ value ≤ I64_MAX →
  ∃ text, scaled_integer_to_decimal value (10 ^ Z.of_nat places) places = Some text ∧
    parse_scaled_fp text (10 ^ Z.of_nat places) places allow_negative = Some value ∧
    parse_fixed_point text (10 ^ Z.of_nat places) places allow_negative = Some value.
Proof.
  intros Hp Hv. destruct (written_decimal value places Hp Hv) as (text & Et & Ev). exists text. split; [done|].
  destruct (readers_reference text places allow_negative) as [-> ->]; [lia|]. unfold reference_fixed_point.
  rewrite Ev. cbn [mbind option_bind andb orb]. by rewrite (proj2 (Z.ltb_ge I64_MAX value)) by lia.
Qed.

(** Only digits, and a dot. *)
Lemma to_string_digits z : 0 ≤ z ≤ I64_MAX → Forall (λ c, 48 ≤ char_code c ≤ 57) (to_string z).
Proof.
  intros Hz. destruct (to_string_value z Hz) as [Hv _]. apply digits_forallb in Hv. apply List.Forall_forall. intros c Hc. rewrite forallb_forall in Hv. pose proof (is_digit_range c (Hv c Hc)). lia.
Qed.
Lemma written_characters value scale places text : 0 < scale → 0 ≤ value ≤ I64_MAX → scaled_integer_to_decimal value scale places = Some text →
  Forall (λ c, 46 ≤ char_code c ≤ 57) text.
Proof.
  intros Hs Hv. unfold scaled_integer_to_decimal. rewrite Z.quot_div_nonneg, Z.rem_mod_nonneg by lia. pose proof (Z.mod_pos_bound value scale). pose proof (Z.mod_le value scale).
  assert (0 ≤ value / scale ≤ I64_MAX) by (split; [apply Z.div_pos; lia|apply Z.div_le_upper_bound; nia]).
  destruct (_ <? _)%nat; [done|]. intros [= <-]. apply Forall_app. split; [|constructor; [vm_compute; split; discriminate|apply Forall_app; split]].
  - eapply Forall_impl; [by apply to_string_digits|]. cbn. lia.
  - apply Forall_replicate. vm_compute. split; discriminate.
  - eapply Forall_impl; [apply to_string_digits; lia|]. cbn. lia.
Qed.

(** What the REST adapter writes for a price or quantity, both readers read back as the
    same number. *)
Theorem decimal_round_trip value places allow_negative : (0 < places ≤ 18)%nat → 0 ≤ value ≤ I64_MAX →
  ∃ text, scaled_integer_to_decimal value (10 ^ Z.of_nat places) places = Some text ∧
    parse_scaled_fp text (10 ^ Z.of_nat places) places allow_negative = Some value ∧
    parse_fixed_point text (10 ^ Z.of_nat places) places allow_negative = Some value.
Proof. apply written_reads. Qed.

Lemma fixed_point_readers_exact_witness :
  let text := String.list_ascii_of_string "-12.5" in
  parse_scaled_fp text 100 2 true = Some (-1250) ∧ parse_fixed_point text 100 2 false = None.
Proof.
  cbv zeta. destruct (fixed_point_readers_exact (String.list_ascii_of_string "-12.5") 2 true) as [H _]; [lia|].
  destruct (fixed_point_readers_exact (String.list_ascii_of_string "-12.5") 2 false) as [_ H']; [lia|].
  change (10 ^ Z.of_nat 2) with 100 in *. rewrite H, H'. by vm_compute.
Defined.

Lemma decimal_round_trip_witness :
  ∃ text, scaled_integer_to_decimal 450 10000 4 = Some text ∧ parse_fixed_point text 10000 4 false = Some 450.
Proof.
  destruct (decimal_round_trip 450 4 false) as (text & H1 & _ & H2); [lia|lia|]. by exists text.
Defined.
End FixedPoint.
