(* ===== verification/MarketTypes.v ===== *)
(** * MarketTypes: the messages of the market-data path

    The value types shared by the frame pool, the router, the shards and the
    recovery coordinator, from
    [cpp/include/predex/ingest/kalshi/market_data/frame_pool.hpp],
    [integrity_messages.hpp] and [cpp/include/predex/control/control_types.hpp].
    Field names carry a short prefix per struct; identifiers, timestamps and
    sequence numbers are [Z]. *)

From S2P Require Import Prelude.

Inductive EventTopology := | kTOPOLOGY_UNKNOWN | kMONOTONIC_CHAIN | kMUTUALLY_EXCLUSIVE
  | kUNORDERED_GROUP | kSINGLE_MARKET.
#[export] Instance EventTopology_eq_dec : EqDecision EventTopology.
Proof. solve_decision. Defined.

Inductive FrameKind := | kFRAME_UNKNOWN | kORDERBOOK_SNAPSHOT | kORDERBOOK_DELTA | kTRADE
  | kSUBSCRIPTION_ACK | kUNSUBSCRIBED | kLIFECYCLE | kHEARTBEAT.
#[export] Instance FrameKind_eq_dec : EqDecision FrameKind.
Proof. solve_decision. Defined.

Definition kMarketDataChannelCount : nat := 3.

Definition market_data_channel_index (kind : FrameKind) : nat :=
  match kind with
  | kORDERBOOK_SNAPSHOT | kORDERBOOK_DELTA => 0
  | kTRADE => 1
  | kLIFECYCLE => 2
  | kFRAME_UNKNOWN | kSUBSCRIPTION_ACK | kUNSUBSCRIBED | kHEARTBEAT => kMarketDataChannelCount
  end.

Definition is_order_book (kind : FrameKind) : bool :=
  match kind with kORDERBOOK_DELTA | kORDERBOOK_SNAPSHOT => true | _ => false end.

Record FrameHandle := mkFrameHandle {
  fh_universe_version : Z;
  fh_sequence : Z;
  fh_recovery_id : Z;
  fh_ingress_ts_ns : Z;
  fh_wire_publish_ts_ns : Z;
  fh_router_publish_ts_ns : Z;
  fh_shard_dequeue_ts_ns : Z;
  fh_shard_publish_ts_ns : Z;
  fh_sid : Z;
  fh_pool_index : Z;
  fh_pool_generation : Z;
  fh_market_id : Z;
  fh_event_id : Z;
  fh_affinity_key : Z;
  fh_topology : EventTopology;
  fh_shard_index : Z;
  fh_shard_event_index : Z;
  fh_event_market_index : Z;
  fh_kind : FrameKind;
}.
#[export] Instance eta_FrameHandle : Eta FrameHandle := λ r,
  mkFrameHandle (fh_universe_version r) (fh_sequence r) (fh_recovery_id r) (fh_ingress_ts_ns r)
    (fh_wire_publish_ts_ns r) (fh_router_publish_ts_ns r) (fh_shard_dequeue_ts_ns r)
    (fh_shard_publish_ts_ns r) (fh_sid r) (fh_pool_index r) (fh_pool_generation r)
    (fh_market_id r) (fh_event_id r) (fh_affinity_key r) (fh_topology r) (fh_shard_index r)
    (fh_shard_event_index r) (fh_event_market_index r) (fh_kind r).
Definition default_FrameHandle : FrameHandle :=
  mkFrameHandle 0 0 0 0 0 0 0 0 0 0 0 0 0 0 kTOPOLOGY_UNKNOWN 0 0 0 kFRAME_UNKNOWN.
#[export] Instance FrameHandle_eq_dec : EqDecision FrameHandle.
Proof. solve_decision. Defined.

Inductive BookInvalidationReason := | kREASON_NONE | kEXCHANGE_SEQUENCE_GAP
  | kWIRE_POOL_EXHAUSTION | kWIRE_TO_ROUTER_DELIVERY_LOSS | kROUTER_TO_SHARD_DELIVERY_LOSS
  | kSHARD_FRAME_MISSING | kSHARD_PARSE_FAILURE.
#[export] Instance BookInvalidationReason_eq_dec : EqDecision BookInvalidationReason.
Proof. solve_decision. Defined.

Inductive IntegrityIncidentOrigin := | kORIGIN_UNKNOWN | kWIRE_SESSION | kROUTER | kSHARD.
#[export] Instance IntegrityIncidentOrigin_eq_dec : EqDecision IntegrityIncidentOrigin.
Proof. solve_decision. Defined.

Record IntegrityIncidentKey := mkIntegrityIncidentKey {
  ik_origin : IntegrityIncidentOrigin;
  ik_producer_index : Z;
  ik_incident_id : Z;
}.
#[export] Instance eta_IntegrityIncidentKey : Eta IntegrityIncidentKey := λ r,
  mkIntegrityIncidentKey (ik_origin r) (ik_producer_index r) (ik_incident_id r).
Definition default_IntegrityIncidentKey : IntegrityIncidentKey :=
  mkIntegrityIncidentKey kORIGIN_UNKNOWN 0 0.
#[export] Instance IntegrityIncidentKey_eq_dec : EqDecision IntegrityIncidentKey.
Proof. solve_decision. Defined.

Record MarketInvalidationBarrier := mkMarketInvalidationBarrier {
  mb_universe_version : Z;
  mb_incident : IntegrityIncidentKey;
  mb_sid : Z;
  mb_sequence : Z;
  mb_market_id : Z;
  mb_event_id : Z;
  mb_shard_index : Z;
  mb_shard_event_index : Z;
  mb_event_market_index : Z;
  mb_reason : BookInvalidationReason;
}.
#[export] Instance eta_MarketInvalidationBarrier : Eta MarketInvalidationBarrier := λ r,
  mkMarketInvalidationBarrier (mb_universe_version r) (mb_incident r) (mb_sid r) (mb_sequence r)
    (mb_market_id r) (mb_event_id r) (mb_shard_index r) (mb_shard_event_index r)
    (mb_event_market_index r) (mb_reason r).
Definition default_MarketInvalidationBarrier : MarketInvalidationBarrier :=
  mkMarketInvalidationBarrier 0 default_IntegrityIncidentKey 0 0 0 0 0 0 0 kREASON_NONE.
#[export] Instance MarketInvalidationBarrier_eq_dec : EqDecision MarketInvalidationBarrier.
Proof. solve_decision. Defined.

Record OrderBookSubscriptionInvalidationBarrier := mkOrderBookSubscriptionInvalidationBarrier {
  sb_universe_version : Z;
  sb_incident : IntegrityIncidentKey;
  sb_sid : Z;
  sb_expected_sequence : Z;
  sb_observed_sequence : Z;
  sb_reason : BookInvalidationReason;
}.
#[export] Instance eta_OrderBookSubscriptionInvalidationBarrier : Eta OrderBookSubscriptionInvalidationBarrier := λ r,
  mkOrderBookSubscriptionInvalidationBarrier (sb_universe_version r) (sb_incident r) (sb_sid r)
    (sb_expected_sequence r) (sb_observed_sequence r) (sb_reason r).
Definition default_OrderBookSubscriptionInvalidationBarrier : OrderBookSubscriptionInvalidationBarrier :=
  mkOrderBookSubscriptionInvalidationBarrier 0 default_IntegrityIncidentKey 0 0 0 kREASON_NONE.
#[export] Instance OrderBookSubscriptionInvalidationBarrier_eq_dec : EqDecision OrderBookSubscriptionInvalidationBarrier.
Proof. solve_decision. Defined.

Inductive MarketDataPathMessage :=
  | MsgFrame (handle : FrameHandle)
  | MsgMarketBarrier (barrier : MarketInvalidationBarrier)
  | MsgSubscriptionBarrier (barrier : OrderBookSubscriptionInvalidationBarrier).
#[export] Instance MarketDataPathMessage_eq_dec : EqDecision MarketDataPathMessage.
Proof. solve_decision. Defined.

Record MarketDataChannelTelemetrySnapshot := mkMarketDataChannelTelemetrySnapshot {
  ct_channel : Z;
  ct_frames_observed : Z;
  ct_sequence_gaps : Z;
  ct_duplicate_sequences : Z;
  ct_stale_sequences : Z;
  ct_intentionally_filtered : Z;
  ct_logger_only_frames : Z;
  ct_downstream_delivery_losses : Z;
}.
#[export] Instance eta_MarketDataChannelTelemetrySnapshot : Eta MarketDataChannelTelemetrySnapshot := λ r,
  mkMarketDataChannelTelemetrySnapshot (ct_channel r) (ct_frames_observed r) (ct_sequence_gaps r)
    (ct_duplicate_sequences r) (ct_stale_sequences r) (ct_intentionally_filtered r)
    (ct_logger_only_frames r) (ct_downstream_delivery_losses r).
Definition default_MarketDataChannelTelemetrySnapshot : MarketDataChannelTelemetrySnapshot :=
  mkMarketDataChannelTelemetrySnapshot 0 0 0 0 0 0 0 0.

Definition make_market_data_channel_telemetry : list MarketDataChannelTelemetrySnapshot :=
  [default_MarketDataChannelTelemetrySnapshot ⟪ ct_channel := 1 ⟫;
   default_MarketDataChannelTelemetrySnapshot ⟪ ct_channel := 2 ⟫;
   default_MarketDataChannelTelemetrySnapshot ⟪ ct_channel := 3 ⟫].
