(* ===== verification/StrategyTypes.v ===== *)
(** * StrategyTypes: the messages shards send to strategies

    The structs of [cpp/include/predex/strategy/strategy_types.hpp]. *)

From S2P Require Import Prelude.

Definition kPriceTicksPerDollar : Z := 10000.
Definition kPriceTicksPerCent : Z := 100.
Definition kQuantityLotsPerContract : Z := 100.
Definition kStrategyBookDepth : Z := 4.

Record StrategyObservationContext := mkStrategyObservationContext {
  oc_universe_version : Z;
  oc_shard_index : Z;
  oc_ingress_timestamp_ns : Z;
  oc_book_apply_timestamp_ns : Z;
  oc_publish_timestamp_ns : Z;
}.
#[export] Instance eta_StrategyObservationContext : Eta StrategyObservationContext := λ r,
  mkStrategyObservationContext (oc_universe_version r) (oc_shard_index r)
    (oc_ingress_timestamp_ns r) (oc_book_apply_timestamp_ns r) (oc_publish_timestamp_ns r).
Definition default_StrategyObservationContext : StrategyObservationContext :=
  mkStrategyObservationContext 0 0 0 0 0.

Record StrategyBookLevel := mkStrategyBookLevel {
  sl_price_ticks : Z;
  sl_quantity_lots : Z;
}.
#[export] Instance eta_StrategyBookLevel : Eta StrategyBookLevel := λ r,
  mkStrategyBookLevel (sl_price_ticks r) (sl_quantity_lots r).
Definition default_StrategyBookLevel : StrategyBookLevel :=
  mkStrategyBookLevel 0 0.
#[export] Instance StrategyBookLevel_eq_dec : EqDecision StrategyBookLevel.
Proof. solve_decision. Defined.

Record StrategyMarketView := mkStrategyMarketView {
  mv_market_id : Z;
  mv_event_market_index : Z;
  mv_strike_key : Z;
  mv_tradeable : bool;
  mv_market_time_s : Z;
  mv_market_close_time_s : Z;
  mv_market_expected_expiration_time_s : Z;
  mv_market_expiration_time_s : Z;
  mv_bids : list StrategyBookLevel;
  mv_asks : list StrategyBookLevel;
  mv_bid_count : Z;
  mv_ask_count : Z;
}.
#[export] Instance eta_StrategyMarketView : Eta StrategyMarketView := λ r,
  mkStrategyMarketView (mv_market_id r) (mv_event_market_index r) (mv_strike_key r)
    (mv_tradeable r) (mv_market_time_s r) (mv_market_close_time_s r)
    (mv_market_expected_expiration_time_s r) (mv_market_expiration_time_s r) (mv_bids r)
    (mv_asks r) (mv_bid_count r) (mv_ask_count r).
Definition default_StrategyMarketView : StrategyMarketView :=
  mkStrategyMarketView 0 0 0 false 0 0 0 0 (replicate 4 default_StrategyBookLevel)
    (replicate 4 default_StrategyBookLevel) 0 0.
#[export] Instance StrategyMarketView_eq_dec : EqDecision StrategyMarketView.
Proof. solve_decision. Defined.

Record MonotonicPairObservation := mkMonotonicPairObservation {
  po_universe_version : Z;
  po_shard_index : Z;
  po_event_id : Z;
  po_event_revision : Z;
  po_ingress_timestamp_ns : Z;
  po_book_apply_timestamp_ns : Z;
  po_publish_timestamp_ns : Z;
  po_easier : StrategyMarketView;
  po_harder : StrategyMarketView;
}.
#[export] Instance eta_MonotonicPairObservation : Eta MonotonicPairObservation := λ r,
  mkMonotonicPairObservation (po_universe_version r) (po_shard_index r) (po_event_id r)
    (po_event_revision r) (po_ingress_timestamp_ns r) (po_book_apply_timestamp_ns r)
    (po_publish_timestamp_ns r) (po_easier r) (po_harder r).
Definition default_MonotonicPairObservation : MonotonicPairObservation :=
  mkMonotonicPairObservation 0 0 0 0 0 0 0 default_StrategyMarketView default_StrategyMarketView.

Record StrategyEventUnavailable := mkStrategyEventUnavailable {
  eu_universe_version : Z;
  eu_shard_index : Z;
  eu_event_id : Z;
  eu_affected_market_id : Z;
  eu_event_revision : Z;
}.
#[export] Instance eta_StrategyEventUnavailable : Eta StrategyEventUnavailable := λ r,
  mkStrategyEventUnavailable (eu_universe_version r) (eu_shard_index r) (eu_event_id r)
    (eu_affected_market_id r) (eu_event_revision r).
Definition default_StrategyEventUnavailable : StrategyEventUnavailable :=
  mkStrategyEventUnavailable 0 0 0 0 0.

Record StrategyShardUnavailable := mkStrategyShardUnavailable {
  su_universe_version : Z;
  su_shard_index : Z;
}.
#[export] Instance eta_StrategyShardUnavailable : Eta StrategyShardUnavailable := λ r,
  mkStrategyShardUnavailable (su_universe_version r) (su_shard_index r).
Definition default_StrategyShardUnavailable : StrategyShardUnavailable :=
  mkStrategyShardUnavailable 0 0.

Inductive ShardToStrategyMessage :=
  | ObservedPair (m : MonotonicPairObservation)
  | EventUnavailable (m : StrategyEventUnavailable)
  | ShardUnavailable (m : StrategyShardUnavailable).
