(* ===== verification/MonotonicArb.v ===== *)
(** * MonotonicArb: the arbitrage evaluation of a pair of markets

    Models [cpp/src/strategy/monotonic_arb.cpp] and its header.  In a monotonic chain a
    harder market settles YES only if the easier one does.  When YES of the easier market
    can be bought below the price at which YES of the harder one can be sold, buying the one
    and selling the other earns the difference whatever happens.  The evaluation looks for
    limit prices at which this holds after fees. *)

From S2P Require Import Prelude StrategyTypes.

Module MonotonicArb.

Inductive MonotonicArbRejectReason := | kARB_NONE | kARB_MARKET_NOT_TRADEABLE | kMARKET_CLOSED
  | kINVALID_PAIR_ORDER | kMISSING_BID_DEPTH | kMISSING_ASK_DEPTH | kNO_GROSS_EDGE
  | kINSUFFICIENT_NET_EDGE | kDEPTH_DISCONTINUITY | kINSUFFICIENT_QUANTITY
  | kPRICE_AGGRESSION_EXCEEDED | kARITHMETIC_OVERFLOW | kINVALID_CONFIG | kINVALID_OBSERVATION
  | kFEES_ERASE_EDGE | kARB_COUNT.
#[export] Instance MonotonicArbRejectReason_eq_dec : EqDecision MonotonicArbRejectReason.
Proof. solve_decision. Defined.

Record MonotonicArbConfig := mkMonotonicArbConfig {
  ac_order_quantity_lots : Z;
  ac_minimum_net_edge_ticks : Z;
  ac_edge_cushion_ticks : Z;
  ac_require_top_gap_continuity : bool;
  ac_maximum_top_gap_ticks : Z;
  ac_require_near_top_multilevel_support : bool;
  ac_near_top_depth_window_ticks : Z;
  ac_minimum_near_top_levels : Z;
  ac_bounded_easier_aggression_enabled : bool;
  ac_bounded_harder_aggression_enabled : bool;
  ac_maximum_easier_aggression_ticks : Z;
  ac_maximum_harder_aggression_ticks : Z;
  ac_maximum_easier_book_levels : Z;
  ac_maximum_harder_book_levels : Z;
  ac_require_full_easier_depth_for_quantity : bool;
  ac_require_full_harder_depth_for_quantity : bool;
  ac_taker_fee_rate_numerator : Z;
  ac_taker_fee_rate_denominator : Z;
  ac_execution_rounding_reserve_ticks_per_leg : Z;
}.
Definition default_MonotonicArbConfig : MonotonicArbConfig :=
  mkMonotonicArbConfig 100 200 0 true 200 true 200 2 true true 300 300 3 3 true true 7 100 0.

Record FeeCalculation := mkFeeCalculation { fc_total_fee_ticks : Z; fc_overflow : bool }.

Inductive ArbAction := | kBUY_YES | kSELL_YES.
#[export] Instance ArbAction_eq_dec : EqDecision ArbAction.
Proof. solve_decision. Defined.

Record MonotonicArbLeg := mkMonotonicArbLeg {
  al_market_id : Z;
  al_action : ArbAction;
  al_limit_price_ticks : Z;
  al_quantity_lots : Z;
}.

Record MonotonicArbCandidate := mkMonotonicArbCandidate {
  cd_event_id : Z;
  cd_event_revision : Z;
  cd_easier_leg : MonotonicArbLeg;
  cd_harder_leg : MonotonicArbLeg;
  cd_gross_edge_ticks : Z;
  cd_estimated_fee_ticks : Z;
  cd_net_edge_ticks : Z;
  cd_universe_version : Z;
  cd_shard_index : Z;
  cd_ingress_timestamp_ns : Z;
  cd_book_apply_timestamp_ns : Z;
  cd_observation_publish_timestamp_ns : Z;
}.

Record MonotonicArbEvaluation := mkMonotonicArbEvaluation {
  ae_reason : MonotonicArbRejectReason;
  ae_candidate : option MonotonicArbCandidate;
}.

Definition reject (reason : MonotonicArbRejectReason) : MonotonicArbEvaluation :=
  mkMonotonicArbEvaluation reason None.

Record LegSelection := mkLegSelection {
  ls_observed_top_ticks : Z;
  ls_chosen_limit_ticks : Z;
  ls_scanned_levels : Z;
  ls_cumulative_quantity_lots : Z;
  ls_bounded_aggression_applied : bool;
}.

#[export] Instance LegSelection_eq_dec : EqDecision LegSelection.
Proof. solve_decision. Defined.

(** The array of selections up to its count. *)
Record LegCandidateSet := mkLegCandidateSet {
  lc_selections : list LegSelection;
  lc_failure : MonotonicArbRejectReason;
}.
Definition candidate_failure (reason : MonotonicArbRejectReason) : LegCandidateSet := mkLegCandidateSet [] reason.

Record PairedSelection := mkPairedSelection {
  ps_easier : LegSelection;
  ps_harder : LegSelection;
  ps_gross_edge_ticks : Z;
  ps_estimated_fee_ticks : Z;
  ps_net_edge_ticks : Z;
}.

(** ** The observation *)

Definition valid_pair_header (o : MonotonicPairObservation) : bool :=
  let easier := po_easier o in
  let harder := po_harder o in
  if (po_event_id o =? 0) || (mv_market_id easier =? 0) || (mv_market_id harder =? 0) then false
  else if mv_market_id easier =? mv_market_id harder then false
  else if mv_strike_key harder <=? mv_strike_key easier then false
  else if mv_event_market_index harder <=? mv_event_market_index easier then false
  else if negb (mv_event_market_index harder - mv_event_market_index easier =? 1) then false
  else if (kStrategyBookDepth <? mv_ask_count easier) || (kStrategyBookDepth <? mv_bid_count harder) then false
  else true.

(** ** Scanning a side of a book *)

Definition add_up_to_required (current additional required : Z) : Z :=
  if required <=? current then required
  else
    let remaining := u64 (required - current) in
    if remaining <=? additional then required else u64 (current + additional).

(** The two scans of the source differ in the direction of prices and in their limits. *)
Record ScanSide := mkScanSide {
  sd_out_of_order : Z → Z → bool;   (* previous price, next price *)
  sd_away : Z → Z → Z;              (* distance of a price from an earlier one *)
  sd_maximum_book_levels : Z;
  sd_bounded_aggression_enabled : bool;
  sd_maximum_aggression_ticks : Z;
  sd_require_full_depth : bool;
}.

Definition easier_side (config : MonotonicArbConfig) : ScanSide :=
  mkScanSide (λ previous price, price <=? previous) (λ from price, u64 (price - from))
    (ac_maximum_easier_book_levels config) (ac_bounded_easier_aggression_enabled config)
    (ac_maximum_easier_aggression_ticks config) (ac_require_full_easier_depth_for_quantity config).

Definition harder_side (config : MonotonicArbConfig) : ScanSide :=
  mkScanSide (λ previous price, previous <=? price) (λ from price, u64 (from - price))
    (ac_maximum_harder_book_levels config) (ac_bounded_harder_aggression_enabled config)
    (ac_maximum_harder_aggression_ticks config) (ac_require_full_harder_depth_for_quantity config).

(** The variables of the loop. *)
Record LevelScan := mkLevelScan {
  sc_selections : list LegSelection;
  sc_candidate_quantity : Z;
  sc_near_top_quantity : Z;
  sc_near_top_levels : Z;
  sc_inside_near_top_window : bool;
  sc_candidate_scan_active : bool;
  sc_candidate_stop_reason : MonotonicArbRejectReason;
  sc_observed_second_level : bool;
  sc_top_gap_valid : bool;
  sc_previous_price : Z;
}.
#[export] Instance eta_LevelScan : Eta LevelScan := λ r,
  mkLevelScan (sc_selections r) (sc_candidate_quantity r) (sc_near_top_quantity r) (sc_near_top_levels r)
    (sc_inside_near_top_window r) (sc_candidate_scan_active r) (sc_candidate_stop_reason r)
    (sc_observed_second_level r) (sc_top_gap_valid r) (sc_previous_price r).
Definition start_scan (top : StrategyBookLevel) : LevelScan :=
  mkLevelScan [] 0 0 0 true true kARB_NONE false false (sl_price_ticks top).

Definition invalid_level (level : StrategyBookLevel) : bool :=
  (sl_price_ticks level =? 0) || (kPriceTicksPerDollar <=? sl_price_ticks level) || (sl_quantity_lots level =? 0).

(** The part of an iteration that looks at the depth near the top. *)
Definition scan_near_top (config : MonotonicArbConfig) (distance_from_top quantity : Z) (sc : LevelScan) : LevelScan :=
  if sc_inside_near_top_window sc && (distance_from_top <=? ac_near_top_depth_window_ticks config) then
    sc ⟪ sc_near_top_quantity ::= λ n, u64 (n + quantity) ⟫ ⟪ sc_near_top_levels ::= λ n, u8 (n + 1) ⟫
  else sc ⟪ sc_inside_near_top_window := false ⟫.

(** The part that collects limit prices. *)
Definition scan_candidate (side : ScanSide) (config : MonotonicArbConfig) (top : StrategyBookLevel) (index : Z)
    (level : StrategyBookLevel) (adjacent_gap aggression : Z) (sc : LevelScan) : LevelScan :=
  if (index <? sd_maximum_book_levels side) && sc_candidate_scan_active sc then
    if (0 <? index) && ac_require_top_gap_continuity config && (ac_maximum_top_gap_ticks config <? adjacent_gap) then
      sc ⟪ sc_candidate_scan_active := false ⟫ ⟪ sc_candidate_stop_reason := kDEPTH_DISCONTINUITY ⟫
    else if (negb (sd_bounded_aggression_enabled side) && (0 <? aggression)) || (sd_maximum_aggression_ticks side <? aggression) then
      sc ⟪ sc_candidate_scan_active := false ⟫ ⟪ sc_candidate_stop_reason := kPRICE_AGGRESSION_EXCEEDED ⟫
    else
      let quantity := add_up_to_required (sc_candidate_quantity sc) (sl_quantity_lots level) (ac_order_quantity_lots config) in
      let sc := sc ⟪ sc_candidate_quantity := quantity ⟫ in
      if negb (sd_require_full_depth side) || (ac_order_quantity_lots config <=? quantity) then
        sc ⟪ sc_selections ::= λ l, l ++ [mkLegSelection (sl_price_ticks top) (sl_price_ticks level) (u8 (index + 1)) quantity
               (negb (sl_price_ticks level =? sl_price_ticks top))] ⟫
      else sc
  else sc.

(** One iteration; [None] is the return with an invalid observation. *)
Definition scan_level (side : ScanSide) (config : MonotonicArbConfig) (top : StrategyBookLevel) (index : Z)
    (level : StrategyBookLevel) (sc : LevelScan) : option LevelScan :=
  if invalid_level level then None
  else if (0 <? index) && sd_out_of_order side (sc_previous_price sc) (sl_price_ticks level) then None
  else
    let adjacent_gap := if 0 <? index then sd_away side (sc_previous_price sc) (sl_price_ticks level) else 0 in
    let sc := if index =? 1
              then sc ⟪ sc_observed_second_level := true ⟫
                      ⟪ sc_top_gap_valid := adjacent_gap <=? ac_maximum_top_gap_ticks config ⟫
              else sc in
    let distance := sd_away side (sl_price_ticks top) (sl_price_ticks level) in
    let sc := scan_near_top config distance (sl_quantity_lots level) sc in
    let sc := scan_candidate side config top index level adjacent_gap distance sc in
    Some (sc ⟪ sc_previous_price := sl_price_ticks level ⟫).

Fixpoint scan_levels (side : ScanSide) (config : MonotonicArbConfig) (top : StrategyBookLevel) (index : Z)
    (levels : list StrategyBookLevel) (sc : LevelScan) : option LevelScan :=
  match levels with
  | [] => Some sc
  | level :: levels' =>
      match scan_level side config top index level sc with
      | None => None
      | Some sc => scan_levels side config top (index + 1) levels' sc
      end
  end.

Definition collect_candidates (side : ScanSide) (config : MonotonicArbConfig) (levels : list StrategyBookLevel) (count : Z)
    : LegCandidateSet :=
  if (count =? 0) || (kStrategyBookDepth <? count) then candidate_failure kINVALID_OBSERVATION
  else
    match levels with
    | [] => candidate_failure kINVALID_OBSERVATION
    | top :: _ =>
        if invalid_level top then candidate_failure kINVALID_OBSERVATION
        else
          match scan_levels side config top 0 (take (Z.to_nat count) levels) (start_scan top) with
          | None => candidate_failure kINVALID_OBSERVATION
          | Some sc =>
              if ac_require_top_gap_continuity config && (negb (sc_observed_second_level sc) || negb (sc_top_gap_valid sc))
              then candidate_failure kDEPTH_DISCONTINUITY
              else if ac_require_near_top_multilevel_support config
                   && (sc_near_top_levels sc <? ac_minimum_near_top_levels config)
              then candidate_failure kDEPTH_DISCONTINUITY
              else if ac_require_near_top_multilevel_support config
                   && (sc_near_top_quantity sc <? ac_order_quantity_lots config)
              then candidate_failure kINSUFFICIENT_QUANTITY
              else
                match sc_selections sc with
                | [] => if negb (bool_decide (sc_candidate_stop_reason sc = kARB_NONE))
                        then candidate_failure (sc_candidate_stop_reason sc)
                        else candidate_failure kINSUFFICIENT_QUANTITY
                | selections => mkLegCandidateSet selections kARB_NONE
                end
          end
    end.

Definition collect_easier_candidates (market : StrategyMarketView) (config : MonotonicArbConfig) : LegCandidateSet :=
  collect_candidates (easier_side config) config (mv_asks market) (mv_ask_count market).

Definition collect_harder_candidates (market : StrategyMarketView) (config : MonotonicArbConfig) : LegCandidateSet :=
  collect_candidates (harder_side config) config (mv_bids market) (mv_bid_count market).

(** ** Edges and fees *)

Definition calculate_gross_edge_ticks (easier_limit harder_limit quantity_lots : Z) : Z :=
  if harder_limit <=? easier_limit then 0
  else
    let edge_per_contract := u64 (harder_limit - easier_limit) in
    u64 (edge_per_contract * quantity_lots) / kQuantityLotsPerContract.

Definition kMaximumSafeGrossQuantityLots : Z := U64_MAX / (kPriceTicksPerDollar - 1).

(** [unsigned __int128]. *)
Definition u128 (z : Z) : Z := z mod 2 ^ 128.

Definition calculate_fee (config : MonotonicArbConfig) (leg : MonotonicArbLeg) : FeeCalculation :=
  if al_quantity_lots leg =? 0 then mkFeeCalculation 0 false
  else if (ac_taker_fee_rate_denominator config =? 0) || (al_limit_price_ticks leg =? 0)
       || (kPriceTicksPerDollar <=? al_limit_price_ticks leg)
  then mkFeeCalculation 0 true
  else
    let price := al_limit_price_ticks leg in
    let complement := u128 (kPriceTicksPerDollar - price) in
    let numerator := u128 (u128 (u128 (ac_taker_fee_rate_numerator config * al_quantity_lots leg) * price) * complement) in
    let denominator := u128 (u128 (ac_taker_fee_rate_denominator config * kQuantityLotsPerContract) * kPriceTicksPerDollar) in
    let base_fee_ticks := u128 (numerator + denominator - 1) / denominator in
    let total_fee_ticks := u128 (base_fee_ticks + ac_execution_rounding_reserve_ticks_per_leg config) in
    if U64_MAX <? total_fee_ticks then mkFeeCalculation 0 true
    else mkFeeCalculation (u64 total_fee_ticks) false.

(** ** Choosing a pair of limits *)

(** The variables of the nested loops. *)
Record PairSearch := mkPairSearch {
  pc_selection : option PairedSelection;
  pc_saw_gross_edge : bool;
  pc_saw_fee_surviving_edge : bool;
  pc_best_depth_score : Z;
}.
#[export] Instance eta_PairSearch : Eta PairSearch := λ r,
  mkPairSearch (pc_selection r) (pc_saw_gross_edge r) (pc_saw_fee_surviving_edge r) (pc_best_depth_score r).
Definition start_search : PairSearch := mkPairSearch None false false 0.

Definition probe_leg (action : ArbAction) (selection : LegSelection) (config : MonotonicArbConfig) : MonotonicArbLeg :=
  mkMonotonicArbLeg 0 action (ls_chosen_limit_ticks selection) (ac_order_quantity_lots config).

Definition required_net_edge (config : MonotonicArbConfig) : Z :=
  u64 (ac_minimum_net_edge_ticks config + ac_edge_cushion_ticks config).

Definition is_better (depth_score net_edge : Z) (search : PairSearch) : bool :=
  match pc_selection search with
  | None => true
  | Some best => (pc_best_depth_score search <? depth_score)
                 || ((depth_score =? pc_best_depth_score search) && (ps_net_edge_ticks best <? net_edge))
  end.

(** The body of the inner loop; [None] is the return with an overflow. *)
Definition consider_pair (config : MonotonicArbConfig) (easier : LegSelection) (easier_fee : Z) (harder : LegSelection)
    (search : PairSearch) : option PairSearch :=
  let gross_edge := calculate_gross_edge_ticks (ls_chosen_limit_ticks easier) (ls_chosen_limit_ticks harder)
                      (ac_order_quantity_lots config) in
  if gross_edge =? 0 then Some search
  else
    let search := search ⟪ pc_saw_gross_edge := true ⟫ in
    let harder_fee := calculate_fee config (probe_leg kSELL_YES harder config) in
    if fc_overflow harder_fee then None
    else if U64_MAX - fc_total_fee_ticks harder_fee <? easier_fee then None
    else
      let total_fees := u64 (easier_fee + fc_total_fee_ticks harder_fee) in
      if gross_edge <=? total_fees then Some search
      else
        let search := search ⟪ pc_saw_fee_surviving_edge := true ⟫ in
        let net_edge := u64 (gross_edge - total_fees) in
        if net_edge <? required_net_edge config then Some search
        else
          let depth_score := ls_scanned_levels easier + ls_scanned_levels harder in
          if is_better depth_score net_edge search then
            Some (search ⟪ pc_selection := Some (mkPairedSelection easier harder gross_edge total_fees net_edge) ⟫
                         ⟪ pc_best_depth_score := depth_score ⟫)
          else Some search.

Fixpoint search_harder (config : MonotonicArbConfig) (easier : LegSelection) (easier_fee : Z)
    (harder_candidates : list LegSelection) (search : PairSearch) : option PairSearch :=
  match harder_candidates with
  | [] => Some search
  | harder :: rest =>
      match consider_pair config easier easier_fee harder search with
      | None => None
      | Some search => search_harder config easier easier_fee rest search
      end
  end.

Fixpoint search_pairs (config : MonotonicArbConfig) (easier_candidates harder_candidates : list LegSelection)
    (search : PairSearch) : option PairSearch :=
  match easier_candidates with
  | [] => Some search
  | easier :: rest =>
      let easier_fee := calculate_fee config (probe_leg kBUY_YES easier config) in
      if fc_overflow easier_fee then None
      else
        match search_harder config easier (fc_total_fee_ticks easier_fee) harder_candidates search with
        | None => None
        | Some search => search_pairs config rest harder_candidates search
        end
  end.

(** The failure, or the selection that was found. *)
Definition select_paired_limits (easier_candidates harder_candidates : list LegSelection) (config : MonotonicArbConfig)
    : MonotonicArbRejectReason + PairedSelection :=
  match search_pairs config easier_candidates harder_candidates start_search with
  | None => inl kARITHMETIC_OVERFLOW
  | Some search =>
      match pc_selection search with
      | Some selection => inr selection
      | None =>
          inl (if negb (pc_saw_gross_edge search) then kNO_GROSS_EDGE
               else if negb (pc_saw_fee_surviving_edge search) then kFEES_ERASE_EDGE
               else kINSUFFICIENT_NET_EDGE)
      end
  end.

(** ** The evaluation *)

Definition valid_monotonic_arb_config (config : MonotonicArbConfig) : bool :=
  if ac_order_quantity_lots config =? 0 then false
  else if (ac_maximum_easier_book_levels config =? 0) || (kStrategyBookDepth <? ac_maximum_easier_book_levels config) then false
  else if (ac_maximum_harder_book_levels config =? 0) || (kStrategyBookDepth <? ac_maximum_harder_book_levels config) then false
  else if ac_require_near_top_multilevel_support config
       && ((ac_minimum_near_top_levels config =? 0) || (kStrategyBookDepth <? ac_minimum_near_top_levels config)) then false
  else if ac_require_top_gap_continuity config && (ac_maximum_top_gap_ticks config =? 0) then false
  else if U64_MAX - ac_edge_cushion_ticks config <? ac_minimum_net_edge_ticks config then false
  else if kMaximumSafeGrossQuantityLots <? ac_order_quantity_lots config then false
  else if ac_taker_fee_rate_denominator config =? 0 then false
  else if ac_taker_fee_rate_denominator config <? ac_taker_fee_rate_numerator config then false
  else true.

Definition closed (market : StrategyMarketView) (wall_clock_now_s : Z) : bool :=
  negb (mv_market_close_time_s market =? 0) && (mv_market_close_time_s market <=? wall_clock_now_s).

Definition candidate_of (config : MonotonicArbConfig) (o : MonotonicPairObservation) (selection : PairedSelection)
    : MonotonicArbCandidate :=
  mkMonotonicArbCandidate (po_event_id o) (po_event_revision o)
    (mkMonotonicArbLeg (mv_market_id (po_easier o)) kBUY_YES (ls_chosen_limit_ticks (ps_easier selection))
       (ac_order_quantity_lots config))
    (mkMonotonicArbLeg (mv_market_id (po_harder o)) kSELL_YES (ls_chosen_limit_ticks (ps_harder selection))
       (ac_order_quantity_lots config))
    (ps_gross_edge_ticks selection) (ps_estimated_fee_ticks selection) (ps_net_edge_ticks selection)
    (po_universe_version o) (po_shard_index o) (po_ingress_timestamp_ns o) (po_book_apply_timestamp_ns o)
    (po_publish_timestamp_ns o).

Definition evaluate_monotonic_arb (config : MonotonicArbConfig) (o : MonotonicPairObservation) (wall_clock_now_s : Z)
    : MonotonicArbEvaluation :=
  if negb (valid_pair_header o) then reject kINVALID_OBSERVATION
  else if negb (mv_tradeable (po_easier o)) || negb (mv_tradeable (po_harder o)) then reject kARB_MARKET_NOT_TRADEABLE
  else if closed (po_easier o) wall_clock_now_s || closed (po_harder o) wall_clock_now_s then reject kMARKET_CLOSED
  else if mv_ask_count (po_easier o) =? 0 then reject kMISSING_ASK_DEPTH
  else if mv_bid_count (po_harder o) =? 0 then reject kMISSING_BID_DEPTH
  else
    let easier_candidates := collect_easier_candidates (po_easier o) config in
    if bool_decide (lc_selections easier_candidates = []) then reject (lc_failure easier_candidates)
    else
      let harder_candidates := collect_harder_candidates (po_harder o) config in
      if bool_decide (lc_selections harder_candidates = []) then reject (lc_failure harder_candidates)
      else
        match select_paired_limits (lc_selections easier_candidates) (lc_selections harder_candidates) config with
        | inl failure => reject failure
        | inr selection => mkMonotonicArbEvaluation kARB_NONE (Some (candidate_of config o selection))
        end.
End MonotonicArb.
