(* ===== verification/MonotonicArbSound.v ===== *)
(** * MonotonicArbSound: accepted candidates lock in their edge

    The arithmetic of the evaluation is exact on valid configurations, the chosen pair of
    limits is the best one, both legs can be executed from the depth that was observed, and
    the two trades together earn at least the stated net edge in every settlement. *)

From S2P Require Import Prelude StrategyTypes MonotonicArb.
Import MonotonicArb.

Module MonotonicArbSound.

(** The values the members of a configuration can have. *)
Record typed_config (c : MonotonicArbConfig) : Prop := {
  tc_quantity : is_u64 (ac_order_quantity_lots c);
  tc_minimum : is_u64 (ac_minimum_net_edge_ticks c);
  tc_cushion : is_u64 (ac_edge_cushion_ticks c);
  tc_numerator : 0 ≤ ac_taker_fee_rate_numerator c ≤ 4294967295;
  tc_denominator : 0 ≤ ac_taker_fee_rate_denominator c ≤ 4294967295;
  tc_reserve : is_u64 (ac_execution_rounding_reserve_ticks_per_leg c);
  tc_easier_levels : 0 ≤ ac_maximum_easier_book_levels c ≤ 255;
  tc_harder_levels : 0 ≤ ac_maximum_harder_book_levels c ≤ 255;
}.

(** ** Exact edges and fees *)

Definition tradable_price (p : Z) : Prop := 0 < p < 10000.

(** The fee per leg: rate times price times complement per contract, rounded up, plus the
    reserve for rounding at execution. *)
Definition exact_base_fee (c : MonotonicArbConfig) (price : Z) : Z :=
  let denominator := ac_taker_fee_rate_denominator c * 100 * 10000 in
  (ac_taker_fee_rate_numerator c * ac_order_quantity_lots c * price * (10000 - price) + denominator - 1) / denominator.
Definition exact_fee (c : MonotonicArbConfig) (price : Z) : Z :=
  exact_base_fee c price + ac_execution_rounding_reserve_ticks_per_leg c.
Definition exact_gross (c : MonotonicArbConfig) (easier harder : Z) : Z :=
  if harder <=? easier then 0 else (harder - easier) * ac_order_quantity_lots c / 100.
Definition exact_fees (c : MonotonicArbConfig) (easier harder : Z) : Z := exact_fee c easier + exact_fee c harder.
Definition exact_required (c : MonotonicArbConfig) : Z := ac_minimum_net_edge_ticks c + ac_edge_cushion_ticks c.

Section Config.
Context (c : MonotonicArbConfig) (Ht : typed_config c) (Hv : valid_monotonic_arb_config c = true).

Lemma valid_facts : 0 < ac_order_quantity_lots c ≤ U64_MAX / 9999 ∧ exact_required c ≤ U64_MAX ∧
  0 < ac_taker_fee_rate_denominator c ∧ ac_taker_fee_rate_numerator c ≤ ac_taker_fee_rate_denominator c ∧
  0 < ac_maximum_easier_book_levels c ≤ 4 ∧ 0 < ac_maximum_harder_book_levels c ≤ 4.
Proof.
  destruct Ht. unfold valid_monotonic_arb_config, kMaximumSafeGrossQuantityLots, kPriceTicksPerDollar, kStrategyBookDepth, exact_required, is_u64 in *.
  repeat match type of Hv with (if ?b then _ else _) = true => destruct b eqn:?; [done|] end. guards. change (10000 - 1) with 9999 in *. lia.
Qed.

Lemma required_exact : required_net_edge c = exact_required c.
Proof. destruct valid_facts as (_ & H & _), Ht. unfold required_net_edge, exact_required, is_u64 in *. apply u64_id. unfold is_u64. lia. Qed.

Lemma gross_exact e h : tradable_price e → tradable_price h →
  calculate_gross_edge_ticks e h (ac_order_quantity_lots c) = exact_gross c e h.
Proof.
  intros He Hh. unfold tradable_price in *. destruct valid_facts as ((? & Hq) & _). unfold calculate_gross_edge_ticks, exact_gross, kQuantityLotsPerContract.
  destruct (Z.leb_spec h e); [done|]. rewrite (u64_id (h - e)) by (unfold is_u64; lia).
  assert (ac_order_quantity_lots c * 9999 ≤ U64_MAX).
  { pose proof (Z.mul_div_le U64_MAX 9999). nia. }
  rewrite u64_id by (unfold is_u64; nia). done.
Qed.

Lemma u128_id z : 0 ≤ z < 2 ^ 128 → u128 z = z.
Proof. intros. by apply Z.mod_small. Qed.

Lemma base_fee_bounds p : tradable_price p → 0 ≤ exact_base_fee c p < 2 ^ 100.
Proof.
  intros Hp. unfold tradable_price in Hp. destruct valid_facts as ((? & Hq) & _ & Hd & Hn & _), Ht. unfold exact_base_fee, is_u64 in *.
  set (n := ac_taker_fee_rate_numerator c) in *. set (d := ac_taker_fee_rate_denominator c) in *. set (q := ac_order_quantity_lots c) in *.
  assert (0 ≤ n * q * p * (10000 - p)) by nia. split; [apply Z.div_pos; lia|].
  apply Z.div_lt_upper_bound; [lia|]. assert (p * (10000 - p) ≤ 10000 * 10000) by nia.
  assert (n * q * (p * (10000 - p)) ≤ d * q * (10000 * 10000)) by (apply Z.mul_le_mono_nonneg; nia).
  assert (q ≤ U64_MAX) by lia. assert (d * q ≤ d * U64_MAX) by nia. change (2 ^ 100) with 1267650600228229401496703205376. nia.
Qed.

Lemma fee_exact action sel : tradable_price (ls_chosen_limit_ticks sel) →
  calculate_fee c (probe_leg action sel c) =
    if U64_MAX <? exact_fee c (ls_chosen_limit_ticks sel) then mkFeeCalculation 0 true
    else mkFeeCalculation (exact_fee c (ls_chosen_limit_ticks sel)) false.
Proof.
  intros Hp. pose proof (base_fee_bounds _ Hp) as Hb. set (p := ls_chosen_limit_ticks sel) in *. pose proof Hp as Hp'. unfold tradable_price in Hp'.
  destruct valid_facts as ((Hq0 & Hq) & _ & Hd & Hn & _), Ht. unfold is_u64 in *.
  unfold calculate_fee, probe_leg, kPriceTicksPerDollar, kQuantityLotsPerContract. cbn [al_quantity_lots al_limit_price_ticks]. fold p.
  rewrite (proj2 (Z.eqb_neq (ac_order_quantity_lots c) 0)), (proj2 (Z.eqb_neq (ac_taker_fee_rate_denominator c) 0)),
    (proj2 (Z.eqb_neq p 0)), (proj2 (Z.leb_gt 10000 p)) by lia. cbn [orb].
  unfold exact_fee, exact_base_fee in *.
  set (n := ac_taker_fee_rate_numerator c) in *. set (d := ac_taker_fee_rate_denominator c) in *. set (q := ac_order_quantity_lots c) in *.
  assert (0 ≤ q ≤ 2 ^ 64) as Hq2 by lia. assert (0 ≤ n ≤ 2 ^ 32) as Hn2 by lia. assert (0 ≤ d ≤ 2 ^ 32) as Hd2 by lia.
  assert (0 ≤ n * q ≤ 2 ^ 96) as H1 by (change (2 ^ 96) with (2 ^ 32 * 2 ^ 64); split; [nia|apply Z.mul_le_mono_nonneg; lia]).
  assert (0 ≤ n * q * p ≤ 2 ^ 96 * 2 ^ 14) as H2 by (split; [nia|apply Z.mul_le_mono_nonneg; lia]).
  assert (0 ≤ n * q * p * (10000 - p) ≤ 2 ^ 96 * 2 ^ 14 * 2 ^ 14) as H3 by (split; [nia|apply Z.mul_le_mono_nonneg; lia]).
  rewrite (u128_id (10000 - p)), (u128_id (n * q)), (u128_id (n * q * p)), (u128_id (n * q * p * (10000 - p))), (u128_id (d * 100)),
    (u128_id (d * 100 * 10000)), (u128_id (n * q * p * (10000 - p) + d * 100 * 10000 - 1)) by lia.
  rewrite u128_id by lia. match goal with |- context [U64_MAX <? ?t] => destruct (Z.ltb_spec U64_MAX t) end; [done|]. by rewrite u64_id by (unfold is_u64; lia).
Qed.

(** ** The best pair *)

Definition limits : Type := LegSelection * LegSelection.
Definition gross_of (x : limits) : Z := exact_gross c (ls_chosen_limit_ticks x.1) (ls_chosen_limit_ticks x.2).
Definition fees_of (x : limits) : Z := exact_fees c (ls_chosen_limit_ticks x.1) (ls_chosen_limit_ticks x.2).
Definition net_of (x : limits) : Z := gross_of x - fees_of x.
Definition depth_of (x : limits) : Z := ls_scanned_levels x.1 + ls_scanned_levels x.2.
Definition paired (x : limits) : PairedSelection := mkPairedSelection x.1 x.2 (gross_of x) (fees_of x) (net_of x).

(** Pairs that earn at least the required net edge. *)
Definition eligible (x : limits) : Prop := 0 < net_of x ∧ exact_required c ≤ net_of x.
(** Deeper pairs are preferred, then pairs with more edge. *)
Definition no_better (y x : limits) : Prop := depth_of y < depth_of x ∨ (depth_of y = depth_of x ∧ net_of y ≤ net_of x).
(** A fee, or the fees of a pair with a gross edge, do not fit 64 bits. *)
Definition overflows (x : limits) : Prop :=
  U64_MAX < exact_fee c (ls_chosen_limit_ticks x.1) ∨ (0 < gross_of x ∧ U64_MAX < fees_of x).

Definition usable_selection (sel : LegSelection) : Prop := tradable_price (ls_chosen_limit_ticks sel).

(** What the search knows after considering the pairs [seen]. *)
Record search_inv (seen : list limits) (s : PairSearch) : Prop := {
  si_gross : pc_saw_gross_edge s = true ↔ ∃ x, x ∈ seen ∧ 0 < gross_of x;
  si_fees : pc_saw_fee_surviving_edge s = true ↔ ∃ x, x ∈ seen ∧ 0 < gross_of x ∧ 0 < net_of x;
  si_best : match pc_selection s with
            | None => ∀ x, x ∈ seen → ¬ eligible x
            | Some sel => ∃ x, x ∈ seen ∧ sel = paired x ∧ eligible x ∧ pc_best_depth_score s = depth_of x ∧
                            ∀ y, y ∈ seen → eligible y → no_better y x
            end;
}.

Lemma search_inv_snoc seen s s' x : search_inv seen s →
  (pc_saw_gross_edge s' = true ↔ pc_saw_gross_edge s = true ∨ 0 < gross_of x) →
  (pc_saw_fee_surviving_edge s' = true ↔ pc_saw_fee_surviving_edge s = true ∨ (0 < gross_of x ∧ 0 < net_of x)) →
  (pc_selection s' = pc_selection s ∧ pc_best_depth_score s' = pc_best_depth_score s ∧
     (eligible x → ∃ sel, pc_selection s = Some sel ∧
        (depth_of x < pc_best_depth_score s ∨ (depth_of x = pc_best_depth_score s ∧ net_of x ≤ ps_net_edge_ticks sel)))
   ∨ pc_selection s' = Some (paired x) ∧ pc_best_depth_score s' = depth_of x ∧ eligible x ∧
     ∀ sel, pc_selection s = Some sel →
        pc_best_depth_score s < depth_of x ∨ (depth_of x = pc_best_depth_score s ∧ ps_net_edge_ticks sel < net_of x)) →
  search_inv (seen ++ [x]) s'.
Proof.
  intros [I1 I2 I3] G1 G2 G3. assert (∀ P : limits → Prop, (∃ y, y ∈ seen ++ [x] ∧ P y) ↔ (∃ y, y ∈ seen ∧ P y) ∨ P x) as Hex.
  { intros P. setoid_rewrite elem_of_app. setoid_rewrite list_elem_of_singleton. naive_solver. }
  split; [by rewrite G1, I1, Hex|by rewrite G2, I2, Hex|]. destruct G3 as [(E1 & E2 & Hx)|(E1 & E2 & Hx & Hb)]; rewrite E1, ?E2.
  - destruct (pc_selection s) as [sel|].
    + destruct I3 as (y & Hy & -> & Hey & Hd & Hbest). exists y. split_and!; [by apply elem_of_app; left|done|done|done|].
      intros z [Hz| ->%list_elem_of_singleton]%elem_of_app Hez; [by apply Hbest|]. destruct (Hx Hez) as (? & [= <-] & H).
      unfold no_better. rewrite <- Hd. cbn in H. lia.
    + intros z [Hz| ->%list_elem_of_singleton]%elem_of_app Hez; [by eapply I3|]. by destruct (Hx Hez) as (? & ? & _).
  - exists x. split_and!; [apply elem_of_app; right; by apply list_elem_of_singleton|done|done|done|].
    intros z [Hz| ->%list_elem_of_singleton]%elem_of_app Hez; [|unfold no_better; lia]. destruct (pc_selection s) as [sel|].
    + destruct I3 as (y & Hy & -> & Hey & Hd & Hbest). specialize (Hbest z Hz Hez). specialize (Hb _ eq_refl). cbn in Hb.
      unfold no_better in *. lia.
    + by destruct (I3 z Hz).
Qed.

Lemma exact_fee_nonneg p : tradable_price p → 0 ≤ exact_fee c p.
Proof. intros Hp. pose proof (base_fee_bounds p Hp). destruct Ht. unfold exact_fee, is_u64 in *. lia. Qed.

Lemma gross_nonneg e h : tradable_price e → tradable_price h → 0 ≤ exact_gross c e h ≤ U64_MAX.
Proof.
  intros He Hh. unfold tradable_price in *. destruct valid_facts as ((? & Hq) & _). unfold exact_gross.
  destruct (Z.leb_spec h e); [lia|]. assert (ac_order_quantity_lots c * 9999 ≤ U64_MAX) by (pose proof (Z.mul_div_le U64_MAX 9999); nia).
  split; [apply Z.div_pos; nia|]. apply Z.div_le_upper_bound; [lia|]. nia.
Qed.

Lemma consider_pair_spec e h seen s : usable_selection e → usable_selection h → exact_fee c (ls_chosen_limit_ticks e) ≤ U64_MAX →
  search_inv seen s →
  match consider_pair c e (exact_fee c (ls_chosen_limit_ticks e)) h s with
  | None => overflows (e, h)
  | Some s' => search_inv (seen ++ [(e, h)]) s'
  end.
Proof.
  intros He Hh Hfe Hs. unfold consider_pair. rewrite gross_exact by done. rewrite fee_exact by done.
  pose proof (exact_fee_nonneg _ He) as He0. pose proof (exact_fee_nonneg _ Hh) as Hh0. pose proof (gross_nonneg _ _ He Hh) as Hg.
  change (exact_gross c (ls_chosen_limit_ticks e) (ls_chosen_limit_ticks h)) with (gross_of (e, h)) in *.
  assert (fees_of (e, h) = exact_fee c (ls_chosen_limit_ticks e) + exact_fee c (ls_chosen_limit_ticks h)) as Hfees by done.
  assert (net_of (e, h) = gross_of (e, h) - fees_of (e, h)) as Hnet by done. destruct (Z.eqb_spec (gross_of (e, h)) 0) as [E0|E0].
  { eapply search_inv_snoc; [exact Hs|split; [auto|intros [?|?]; [done|lia]]..|]. left. split_and!; [done|done|]. intros [? _]. lia. }
  destruct (Z.ltb_spec U64_MAX (exact_fee c (ls_chosen_limit_ticks h))); cbn [fc_overflow fc_total_fee_ticks]; [right; lia|].
  destruct (Z.ltb_spec (U64_MAX - exact_fee c (ls_chosen_limit_ticks h)) (exact_fee c (ls_chosen_limit_ticks e))); [right; lia|].
  rewrite (u64_id (_ + _)), <- Hfees by (unfold is_u64; lia). destruct (Z.leb_spec (gross_of (e, h)) (fees_of (e, h))).
  { eapply search_inv_snoc; [exact Hs|cbn; split; [auto; lia|done]|cbn; split; [auto|intros [?|?]; [done|lia]]|].
    left. split_and!; [done|done|]. intros [? _]. lia. }
  rewrite (u64_id (_ - _)), <- Hnet by (unfold is_u64; lia). rewrite required_exact.
  destruct (Z.ltb_spec (net_of (e, h)) (exact_required c)).
  { eapply search_inv_snoc; [exact Hs|cbn; split; [auto; lia|done]|cbn; split; [right; lia|done]|]. left. split_and!; [done|done|].
    intros [? ?]. lia. }
  assert (eligible (e, h)) as Hel by (split; lia). change (ls_scanned_levels e + ls_scanned_levels h) with (depth_of (e, h)). unfold is_better. cbn [pc_selection pc_best_depth_score upd].
  destruct Hs as [I1 I2 I3]. destruct (pc_selection s) as [sel|] eqn:Esel.
  - destruct (_ || _) eqn:Eb.
    + eapply search_inv_snoc; [by split; rewrite ?Esel|cbn; split; [right; lia|done]|cbn; split; [right; lia|done]|]. right. split_and!; [done|done|done|].
      rewrite Esel. intros ? [= <-]. lia.
    + eapply search_inv_snoc; [by split; rewrite ?Esel|cbn; split; [right; lia|done]|cbn; split; [right; lia|done]|]. left. split_and!; [done|done|].
      intros _. exists sel. split; [done|]. lia.
  - eapply search_inv_snoc; [by split; rewrite ?Esel|cbn; split; [right; lia|done]|cbn; split; [right; lia|done]|]. right. split_and!; [done|done|done|].
    by rewrite Esel.
Qed.

Lemma search_harder_spec e hs seen s : usable_selection e → Forall usable_selection hs → exact_fee c (ls_chosen_limit_ticks e) ≤ U64_MAX →
  search_inv seen s →
  match search_harder c e (exact_fee c (ls_chosen_limit_ticks e)) hs s with
  | None => ∃ h, h ∈ hs ∧ overflows (e, h)
  | Some s' => search_inv (seen ++ (pair e <$> hs)) s'
  end.
Proof.
  intros He Hhs Hfe. revert seen s. induction Hhs as [|h hs Hh Hhs IH]; intros seen s Hs; cbn [search_harder fmap list_fmap]; [by rewrite app_nil_r|].
  pose proof (consider_pair_spec e h seen s He Hh Hfe Hs) as H. destruct (consider_pair c e _ h s) as [s'|].
  - specialize (IH _ _ H). destruct (search_harder c e _ hs s') as [s2|]; [by rewrite <- app_assoc in IH|].
    destruct IH as (h' & Hh' & Ho). exists h'. split; [by right|done].
  - exists h. split; [by left|done].
Qed.

Lemma search_pairs_spec es hs seen s : Forall usable_selection es → Forall usable_selection hs → search_inv seen s →
  match search_pairs c es hs s with
  | None => ∃ e, e ∈ es ∧ (U64_MAX < exact_fee c (ls_chosen_limit_ticks e) ∨ ∃ h, h ∈ hs ∧ overflows (e, h))
  | Some s' => search_inv (seen ++ (e ← es; pair e <$> hs)) s'
  end.
Proof.
  intros Hes Hhs. revert seen s. induction Hes as [|e es He Hes IH]; intros seen s Hs; cbn [search_pairs mbind list_bind]; [by rewrite app_nil_r|].
  rewrite (fee_exact kBUY_YES e) by done.
  match goal with |- context [U64_MAX <? ?t] => destruct (Z.ltb_spec U64_MAX t) end; cbn [fc_overflow fc_total_fee_ticks];
    [exists e; split; [by left|by left]|].
  pose proof (search_harder_spec e hs seen s He Hhs ltac:(done) Hs) as H'. destruct (search_harder c e _ hs s) as [s'|].
  - specialize (IH _ _ H'). destruct (search_pairs c es hs s') as [s2|]; [by rewrite <- app_assoc in IH|].
    destruct IH as (e' & He' & Ho). exists e'. split; [by right|done].
  - exists e. split; [by left|by right].
Qed.

(** All pairs, in the order of the two loops. *)
Definition all_pairs (es hs : list LegSelection) : list limits := e ← es; pair e <$> hs.

(** What a result of the selection means. *)
Definition selection_says (es hs : list LegSelection) (r : MonotonicArbRejectReason + PairedSelection) : Prop :=
  match r with
  | inr sel => ∃ x, x ∈ all_pairs es hs ∧ sel = paired x ∧ eligible x ∧ ∀ y, y ∈ all_pairs es hs → eligible y → no_better y x
  | inl kARITHMETIC_OVERFLOW =>
      ∃ e, e ∈ es ∧ (U64_MAX < exact_fee c (ls_chosen_limit_ticks e) ∨ ∃ h, h ∈ hs ∧ overflows (e, h))
  | inl kNO_GROSS_EDGE => ∀ x, x ∈ all_pairs es hs → gross_of x ≤ 0
  | inl kFEES_ERASE_EDGE => (∃ x, x ∈ all_pairs es hs ∧ 0 < gross_of x) ∧ ∀ x, x ∈ all_pairs es hs → 0 < gross_of x → gross_of x ≤ fees_of x
  | inl kINSUFFICIENT_NET_EDGE => (∃ x, x ∈ all_pairs es hs ∧ fees_of x < gross_of x) ∧ ∀ x, x ∈ all_pairs es hs → 0 < net_of x → net_of x < exact_required c
  | inl _ => False
  end.

Lemma select_says es hs : Forall usable_selection es → Forall usable_selection hs →
  selection_says es hs (select_paired_limits es hs c).
Proof.
  intros Hes Hhs. unfold select_paired_limits.
  assert (search_inv [] start_search) as H0 by (split; cbn; [split; [done|by intros (? & []%elem_of_nil & _)]..|by intros ? []%elem_of_nil]).
  pose proof (search_pairs_spec es hs [] start_search Hes Hhs H0) as H. destruct (search_pairs c es hs start_search) as [s|]; [|exact H].
  cbn [app] in H. fold (all_pairs es hs) in H. destruct H as [I1 I2 I3]. destruct (pc_selection s) as [sel|].
  { destruct I3 as (x & Hx & -> & He & _ & Hb). by exists x. }
  destruct (pc_saw_gross_edge s); cbn [negb].
  2:{ cbn. intros x Hx. destruct (decide (gross_of x ≤ 0)); [done|]. exfalso. assert (false = true) by (apply I1; exists x; split; [done|lia]). done. }
  destruct (pc_saw_fee_surviving_edge s); cbn [negb]; cbn [selection_says].
  - split; [destruct (proj1 I2 eq_refl) as (x & Hx & _ & Hn); exists x; split; [done|unfold net_of in Hn; lia]|].
    intros x Hx Hn. specialize (I3 x Hx). unfold eligible in I3. lia.
  - split; [by apply I1|]. intros x Hx Hg. destruct (decide (gross_of x ≤ fees_of x)); [done|]. exfalso.
    assert (false = true) by (apply I2; exists x; unfold net_of; split; [done|lia]). done.
Qed.
End Config.

(** ** Executable depth *)

Definition quantity_of (levels : list StrategyBookLevel) : Z := foldr (λ l n, sl_quantity_lots l + n) 0 levels.

Lemma quantity_of_app l1 l2 : quantity_of (l1 ++ l2) = quantity_of l1 + quantity_of l2.
Proof. unfold quantity_of. induction l1 as [|x l1 IH]; cbn; lia. Qed.

Definition typed_level (l : StrategyBookLevel) : Prop := is_u64 (sl_price_ticks l) ∧ is_u64 (sl_quantity_lots l).

Section Scan.
(** [sign] is 1 for asks, whose prices rise away from the top, and -1 for bids. *)
Context (sign : Z) (Hsign : sign = 1 ∨ sign = -1) (side : ScanSide) (c : MonotonicArbConfig) (top : StrategyBookLevel).
Context (Hq : is_u64 (ac_order_quantity_lots c)) (Hmax : sd_maximum_book_levels side ≤ 255).

Definition beyond (from price : Z) : Z := sign * (price - from).

Context (Horder : ∀ a b, sd_out_of_order side a b = (beyond a b <=? 0)) (Haway : ∀ a b, sd_away side a b = u64 (beyond a b)).

(** The order can be filled at the limit or better from the observed levels, within the
    configured depth and aggression. *)
Definition executable (levels : list StrategyBookLevel) (sel : LegSelection) : Prop :=
  ∃ i level, levels !! i = Some level ∧ ls_chosen_limit_ticks sel = sl_price_ticks level ∧ ls_scanned_levels sel = Z.of_nat i + 1 ∧
    Z.of_nat i < sd_maximum_book_levels side ∧ tradable_price (sl_price_ticks level) ∧
    beyond (sl_price_ticks top) (sl_price_ticks level) ≤ sd_maximum_aggression_ticks side ∧
    (sd_bounded_aggression_enabled side = false → sl_price_ticks level = sl_price_ticks top) ∧
    Forall (λ l, 0 ≤ beyond (sl_price_ticks l) (sl_price_ticks level)) (take (S i) levels) ∧
    (sd_require_full_depth side = true → ac_order_quantity_lots c ≤ quantity_of (take (S i) levels)).

Definition near_top (levels : list StrategyBookLevel) : list StrategyBookLevel :=
  filter (λ l, beyond (sl_price_ticks top) (sl_price_ticks l) ≤ ac_near_top_depth_window_ticks c) levels.

(** The levels seen so far and the variables of the loop. *)
Record scanned (pre : list StrategyBookLevel) (sc : LevelScan) : Prop := {
  sn_valid : Forall (λ l, tradable_price (sl_price_ticks l) ∧ 0 < sl_quantity_lots l) pre;
  sn_first : match pre with [] => True | l :: _ => l = top end;
  sn_previous : sc_previous_price sc = default (sl_price_ticks top) (sl_price_ticks <$> last pre);
  sn_closer : Forall (λ l, 0 ≤ beyond (sl_price_ticks l) (sc_previous_price sc)) pre;
  sn_beyond : 0 ≤ beyond (sl_price_ticks top) (sc_previous_price sc);
  sn_quantity : sc_candidate_scan_active sc = true → Z.of_nat (length pre) ≤ sd_maximum_book_levels side →
    sc_candidate_quantity sc = Z.min (ac_order_quantity_lots c) (quantity_of pre);
  sn_selections : Forall (executable pre) (sc_selections sc);
  sn_near : 0 ≤ sc_near_top_levels sc ≤ Z.of_nat (length (near_top pre)) ∧ 0 ≤ sc_near_top_quantity sc ≤ quantity_of (near_top pre);
  sn_gap : sc_observed_second_level sc = true → sc_top_gap_valid sc = true → ∃ l, pre !! 1%nat = Some l ∧
    beyond (sl_price_ticks top) (sl_price_ticks l) ≤ ac_maximum_top_gap_ticks c;
  sn_second : sc_observed_second_level sc = true → (2 ≤ length pre)%nat;
}.

Lemma executable_app pre suf sel : executable pre sel → executable (pre ++ suf) sel.
Proof.
  intros (i & l & Hl & H). exists i, l. assert (i < length pre)%nat by by eapply lookup_lt_Some.
  rewrite lookup_app_l, take_app_le by lia. done.
Qed.

Lemma quantity_nonneg pre : Forall (λ l, tradable_price (sl_price_ticks l) ∧ 0 < sl_quantity_lots l) pre → 0 ≤ quantity_of pre.
Proof. unfold quantity_of. induction 1 as [|l pre [_ H] _ IH]; cbn; lia. Qed.

Lemma add_up_spec current additional : 0 ≤ current → is_u64 additional →
  add_up_to_required (Z.min (ac_order_quantity_lots c) current) additional (ac_order_quantity_lots c)
    = Z.min (ac_order_quantity_lots c) (current + additional).
Proof.
  unfold add_up_to_required, is_u64 in *. intros H1 H2. destruct (Z.leb_spec (ac_order_quantity_lots c) (Z.min (ac_order_quantity_lots c) current)); [lia|].
  rewrite (u64_id (_ - _)) by (unfold is_u64; lia). match goal with |- context [?a <=? ?b] => destruct (Z.leb_spec a b) end; [lia|].
  rewrite u64_id by (unfold is_u64; lia). lia.
Qed.

(** What is the same in every iteration: the next level lies beyond the previous one. *)
Definition next_level (pre : list StrategyBookLevel) (level : StrategyBookLevel) (sc : LevelScan) : Prop :=
  tradable_price (sl_price_ticks level) ∧ 0 < sl_quantity_lots level ∧ is_u64 (sl_quantity_lots level) ∧
  Forall (λ l, 0 ≤ beyond (sl_price_ticks l) (sl_price_ticks level)) (pre ++ [level]) ∧
  0 ≤ beyond (sl_price_ticks top) (sl_price_ticks level).

Lemma scan_near_spec d level pre sc : d = beyond (sl_price_ticks top) (sl_price_ticks level) → 0 < sl_quantity_lots level →
  0 ≤ sc_near_top_levels sc ≤ Z.of_nat (length (near_top pre)) ∧ 0 ≤ sc_near_top_quantity sc ≤ quantity_of (near_top pre) →
  let sc' := scan_near_top c d (sl_quantity_lots level) sc in
  0 ≤ sc_near_top_levels sc' ≤ Z.of_nat (length (near_top (pre ++ [level]))) ∧
  0 ≤ sc_near_top_quantity sc' ≤ quantity_of (near_top (pre ++ [level])).
Proof.
  intros -> Hpos [Hl Hqt]. unfold near_top, scan_near_top in *. rewrite filter_app, length_app, quantity_of_app.
  pose proof (Z.mod_le (sc_near_top_levels sc + 1) 256). pose proof (Z.mod_pos_bound (sc_near_top_levels sc + 1) 256).
  pose proof (Z.mod_le (sc_near_top_quantity sc + sl_quantity_lots level) 18446744073709551616).
  pose proof (u64_range (sc_near_top_quantity sc + sl_quantity_lots level)). unfold is_u64, u64, u8 in *.
  destruct (sc_inside_near_top_window sc && _) eqn:E; cbn.
  - apply andb_true_iff in E as [_ E]. apply Z.leb_le in E. rewrite decide_True by done. cbn. lia.
  - case_decide; cbn; lia.
Qed.

Lemma scan_candidate_spec pre level gap sc sc' : scanned pre sc → next_level pre level sc →
  sc_selections sc' = sc_selections sc → sc_candidate_quantity sc' = sc_candidate_quantity sc →
  sc_candidate_scan_active sc' = sc_candidate_scan_active sc →
  let r := scan_candidate side c top (Z.of_nat (length pre)) level gap (beyond (sl_price_ticks top) (sl_price_ticks level)) sc' in
  Forall (executable (pre ++ [level])) (sc_selections r) ∧
  (sc_candidate_scan_active r = true → Z.of_nat (length (pre ++ [level])) ≤ sd_maximum_book_levels side →
    sc_candidate_quantity r = Z.min (ac_order_quantity_lots c) (quantity_of (pre ++ [level]))).
Proof.
  intros Hs (Hp & Hpos & Hu & Hcl & Hb) E1 E2 E3. cbv zeta. unfold scan_candidate. rewrite length_app. cbn [length].
  assert (Forall (executable (pre ++ [level])) (sc_selections sc')) as Hold
    by (rewrite E1; eapply Forall_impl; [apply Hs|intros sel; apply executable_app]).
  destruct (_ && sc_candidate_scan_active sc') eqn:Ea.
  2:{ split; [done|]. intros Hact Hlen. exfalso. rewrite Hact, andb_true_r in Ea. lia. }
  apply andb_true_iff in Ea as [Elt Eact]. apply Z.ltb_lt in Elt. destruct (_ && _); [by split|].
  destruct (_ || _) eqn:Eag; [by split|]. apply orb_false_iff in Eag as [Een Emax]. apply Z.ltb_ge in Emax.
  rewrite E2, (sn_quantity _ _ Hs) by (rewrite ?E3 in *; done || lia).
  rewrite add_up_spec by (done || apply quantity_nonneg, Hs). replace (sl_quantity_lots level) with (quantity_of [level]) by (cbn; lia).
  rewrite <- quantity_of_app. destruct (negb _ || _) eqn:Efull; cbn; [|by split].
  split; [|done]. apply Forall_app. split; [done|]. apply Forall_singleton. exists (length pre), level.
  assert (take (S (length pre)) (pre ++ [level]) = pre ++ [level]) as -> by (apply take_ge; rewrite length_app; cbn; lia).
  cbn [ls_chosen_limit_ticks ls_scanned_levels].
  split_and!; [by rewrite list_lookup_middle|done| |done|apply Hp..|done| |done|].
  - unfold u8. apply Z.mod_small. lia.
  - intros E. rewrite E in Een. cbn in Een. apply Z.ltb_ge in Een. unfold beyond in *. lia.
  - intros E. rewrite E in Efull. cbn in Efull. apply Z.leb_le in Efull. lia.
Qed.

Lemma scan_near_other d q sc : let r := scan_near_top c d q sc in
  sc_selections r = sc_selections sc ∧ sc_candidate_quantity r = sc_candidate_quantity sc ∧
  sc_candidate_scan_active r = sc_candidate_scan_active sc ∧ sc_observed_second_level r = sc_observed_second_level sc ∧
  sc_top_gap_valid r = sc_top_gap_valid sc.
Proof. unfold scan_near_top. by destruct (_ && _). Qed.

Lemma scan_candidate_other i level gap d sc : let r := scan_candidate side c top i level gap d sc in
  sc_near_top_levels r = sc_near_top_levels sc ∧ sc_near_top_quantity r = sc_near_top_quantity sc ∧
  sc_observed_second_level r = sc_observed_second_level sc ∧ sc_top_gap_valid r = sc_top_gap_valid sc.
Proof. unfold scan_candidate. by repeat match goal with |- context [if ?b then _ else _] => destruct b end. Qed.

Lemma next_level_intro pre level sc : scanned pre sc → typed_level level → match pre with [] => level = top | _ => True end →
  invalid_level level = false → (0 <? Z.of_nat (length pre)) && (beyond (sc_previous_price sc) (sl_price_ticks level) <=? 0) = false →
  next_level pre level sc.
Proof.
  intros Hs [Ht1 Ht2] Hfirst Hv Hord. unfold invalid_level, kPriceTicksPerDollar, is_u64 in *. guards.
  unfold next_level, tradable_price, is_u64. split_and!; try lia.
  - destruct pre as [|l pre]; cbn in Hord; [by apply Forall_singleton; unfold beyond; lia|]. apply Z.leb_gt in Hord.
    apply Forall_app. split; [|apply Forall_singleton; unfold beyond; lia].
    eapply Forall_impl; [apply (sn_closer _ _ Hs)|]. cbv beta. intros x Hx. unfold beyond in *. lia.
  - destruct pre as [|l pre]; cbn in Hord; [subst; unfold beyond; lia|]. apply Z.leb_gt in Hord.
    pose proof (sn_beyond _ _ Hs). unfold beyond in *. lia.
Qed.

Lemma scan_level_spec pre level sc sc' : typed_level top → tradable_price (sl_price_ticks top) → typed_level level → scanned pre sc →
  match pre with [] => level = top | _ => True end →
  scan_level side c top (Z.of_nat (length pre)) level sc = Some sc' → scanned (pre ++ [level]) sc'.
Proof.
  intros Htop Htp Hty Hs Hfirst. unfold scan_level. destruct (invalid_level level) eqn:Ei; [done|]. rewrite Horder, !Haway.
  destruct (_ && _) eqn:Eo; [done|]. cbv zeta. pose proof (next_level_intro pre level sc Hs Hty Hfirst Ei Eo) as Hn.
  pose proof Hn as (Hp & Hpos & _ & Hcl & Hb). unfold tradable_price in Hp, Htp.
  assert (is_u64 (beyond (sl_price_ticks top) (sl_price_ticks level))) as Hdu by (unfold is_u64, beyond in *; lia).
  rewrite (u64_id (beyond (sl_price_ticks top) _)) by done.
  set (gap := if 0 <? Z.of_nat (length pre) then _ else 0).
  set (sc1 := if Z.of_nat (length pre) =? 1 then _ else sc).
  assert (sc_selections sc1 = sc_selections sc ∧ sc_candidate_quantity sc1 = sc_candidate_quantity sc ∧
    sc_candidate_scan_active sc1 = sc_candidate_scan_active sc ∧ sc_near_top_levels sc1 = sc_near_top_levels sc ∧
    sc_near_top_quantity sc1 = sc_near_top_quantity sc) as (A1 & A2 & A3 & A4 & A5) by (unfold sc1; by destruct (_ =? 1)).
  pose proof (scan_near_spec _ level pre sc1 eq_refl Hpos ltac:(rewrite A4, A5; apply Hs)) as Hnear.
  set (d := beyond (sl_price_ticks top) (sl_price_ticks level)) in *.
  destruct (scan_near_other d (sl_quantity_lots level) sc1) as (B1 & B2 & B3 & B4 & B5).
  set (sc2 := scan_near_top c d (sl_quantity_lots level) sc1) in *.
  destruct (scan_candidate_spec pre level gap sc sc2 Hs Hn) as [C1 C2]; [congruence..|].
  fold d in C1, C2. destruct (scan_candidate_other (Z.of_nat (length pre)) level gap d sc2) as (D1 & D2 & D3 & D4).
  set (sc3 := scan_candidate _ _ _ _ _ _ _ sc2) in *. intros [= <-].
  split; cbn; try done.
  - apply Forall_app. split; [apply Hs|]. by apply Forall_singleton.
  - pose proof (sn_first _ _ Hs). by destruct pre.
  - by rewrite last_snoc.
  - by rewrite D1, D2.
  - rewrite D3, D4, B4, B5. unfold sc1. destruct (Z.eqb_spec (Z.of_nat (length pre)) 1) as [E|E]; cbn.
    + intros _ Hg. exists level. destruct pre as [|l [|]]; [cbn in E; lia| |cbn in E; lia]. split; [done|].
      assert (sc_previous_price sc = sl_price_ticks top) as Hprev
        by (rewrite (sn_previous _ _ Hs); pose proof (sn_first _ _ Hs); cbn in *; by subst l).
      unfold gap in Hg. cbn in Hg. rewrite Hprev in Hg. fold d in Hg.
      rewrite u64_id in Hg by done. by apply Z.leb_le in Hg.
    + intros Ho Hg. destruct (sn_gap _ _ Hs Ho Hg) as (l & Hl & Hle). exists l. split; [|done]. by apply lookup_app_l_Some.
  - rewrite D3, B4. unfold sc1. rewrite length_app. cbn. destruct (Z.eqb_spec (Z.of_nat (length pre)) 1) as [E|E]; cbn; [lia|].
    intros Ho%(sn_second _ _ Hs). lia.
Qed.

Lemma scan_levels_spec levels pre sc sc' : typed_level top → tradable_price (sl_price_ticks top) → Forall typed_level levels → scanned pre sc →
  match pre with [] => match levels with [] => True | l :: _ => l = top end | _ => True end →
  scan_levels side c top (Z.of_nat (length pre)) levels sc = Some sc' → scanned (pre ++ levels) sc'.
Proof.
  intros Htop Htp Hty. revert pre sc. induction Hty as [|l levels Hl Hty IH]; intros pre sc Hs Hfirst; cbn [scan_levels].
  - intros [= <-]. by rewrite app_nil_r.
  - destruct (scan_level side c top _ l sc) as [sc1|] eqn:E; [|done]. intros Hsc.
    assert (scanned (pre ++ [l]) sc1) as Hs1 by (eapply scan_level_spec; [done..| |exact E]; by destruct pre).
    rewrite (cons_middle l pre levels), app_assoc. eapply IH; [exact Hs1|by destruct pre|].
    rewrite length_app. cbn [length]. by replace (Z.of_nat (length pre + 1)) with (Z.of_nat (length pre) + 1) by lia.
Qed.

Lemma start_scanned : scanned [] (start_scan top).
Proof. split; cbn; try done; unfold beyond, is_u64 in *; lia. Qed.
End Scan.

(** A leg that can be executed from the levels that were observed: its limit is the price of
    a level, the order fits into the levels up to it, and the book near the top is as deep
    and as continuous as configured. *)
Definition sound_leg (sign : Z) (side : ScanSide) (c : MonotonicArbConfig) (levels : list StrategyBookLevel) (sel : LegSelection) : Prop :=
  ∃ top rest, levels = top :: rest ∧ executable sign side c top levels sel ∧
    (ac_require_top_gap_continuity c = true → ∃ second, levels !! 1%nat = Some second ∧
       beyond sign (sl_price_ticks top) (sl_price_ticks second) ≤ ac_maximum_top_gap_ticks c) ∧
    (ac_require_near_top_multilevel_support c = true →
       ac_minimum_near_top_levels c ≤ Z.of_nat (length (near_top sign c top levels)) ∧
       ac_order_quantity_lots c ≤ quantity_of (near_top sign c top levels)).

Lemma sound_leg_usable sign side c levels sel : sound_leg sign side c levels sel → usable_selection sel.
Proof. intros (top & rest & _ & (i & l & _ & Hc & _ & _ & Hp & _) & _). unfold usable_selection. by rewrite Hc. Qed.

Lemma collect_sound sign side c levels count : sign = 1 ∨ sign = -1 → is_u64 (ac_order_quantity_lots c) → sd_maximum_book_levels side ≤ 255 →
  (∀ a b, sd_out_of_order side a b = (beyond sign a b <=? 0)) → (∀ a b, sd_away side a b = u64 (beyond sign a b)) →
  Forall typed_level levels → 0 ≤ count →
  Forall (sound_leg sign side c (take (Z.to_nat count) levels)) (lc_selections (collect_candidates side c levels count)).
Proof.
  intros Hsign Hq Hmax Ho Ha Hty Hcount. unfold collect_candidates. destruct (_ || _) eqn:Ec; [constructor|]. guards.
  destruct levels as [|top rest]; [constructor|]. destruct (invalid_level top) eqn:Et; [constructor|].
  destruct (scan_levels side c top 0 _ (start_scan top)) as [sc|] eqn:Es; [|constructor].
  pose proof (Forall_take _ (Z.to_nat count) _ Hty) as Hty'. apply Forall_cons in Hty as [Htop _].
  assert (tradable_price (sl_price_ticks top)) as Htp.
  { unfold invalid_level, kPriceTicksPerDollar in Et. guards. destruct Htop as [[] _]. split; lia. }
  apply (scan_levels_spec sign Hsign side c top Hq Hmax Ho Ha _ []) in Es; [|done|done|done|by apply start_scanned|by destruct (Z.to_nat count)].
  cbn [app] in Es. set (seen := take (Z.to_nat count) (top :: rest)) in *.
  destruct (ac_require_top_gap_continuity c && _) eqn:Eg; [constructor|].
  destruct (ac_require_near_top_multilevel_support c && (sc_near_top_levels sc <? _)) eqn:En; [constructor|].
  destruct (ac_require_near_top_multilevel_support c && (sc_near_top_quantity sc <? _)) eqn:Eq; [constructor|].
  destruct (sc_selections sc) as [|sel sels] eqn:Esel; [by destruct (negb (bool_decide (sc_candidate_stop_reason sc = kARB_NONE))); constructor|]. cbn [lc_selections]. rewrite <- Esel.
  eapply Forall_impl; [apply (sn_selections _ _ _ _ _ _ Es)|]. intros x Hx. exists top, (take (Z.to_nat count - 1) rest). split_and!.
  - unfold seen. replace (Z.to_nat count) with (S (Z.to_nat count - 1)) at 1 by lia. done.
  - done.
  - intros E. rewrite E in Eg. cbn in Eg. guards. by apply (sn_gap _ _ _ _ _ _ Es).
  - intros E. rewrite E in En, Eq. cbn in En, Eq. pose proof (sn_near _ _ _ _ _ _ Es). split; lia.
Qed.

(** ** The evaluation *)

Record typed_observation (o : MonotonicPairObservation) : Prop := {
  to_asks : Forall typed_level (mv_asks (po_easier o));
  to_bids : Forall typed_level (mv_bids (po_harder o));
  to_ask_count : 0 ≤ mv_ask_count (po_easier o);
  to_bid_count : 0 ≤ mv_bid_count (po_harder o);
}.

Definition observed_asks (o : MonotonicPairObservation) : list StrategyBookLevel :=
  take (Z.to_nat (mv_ask_count (po_easier o))) (mv_asks (po_easier o)).
Definition observed_bids (o : MonotonicPairObservation) : list StrategyBookLevel :=
  take (Z.to_nat (mv_bid_count (po_harder o))) (mv_bids (po_harder o)).

Lemma easier_sound c o : typed_config c → typed_observation o →
  Forall (sound_leg 1 (easier_side c) c (observed_asks o)) (lc_selections (collect_easier_candidates (po_easier o) c)).
Proof.
  intros [] []. apply collect_sound; [by left|done|cbn; lia|..|done|done]; intros a b; unfold easier_side, beyond; cbn.
  - apply eq_true_iff_eq. rewrite !Z.leb_le. lia.
  - f_equal. lia.
Qed.

Lemma harder_sound c o : typed_config c → typed_observation o →
  Forall (sound_leg (-1) (harder_side c) c (observed_bids o)) (lc_selections (collect_harder_candidates (po_harder o) c)).
Proof.
  intros [] []. apply collect_sound; [by right|done|cbn; lia|..|done|done]; intros a b; unfold harder_side, beyond; cbn.
  - apply eq_true_iff_eq. rewrite !Z.leb_le. lia.
  - f_equal. lia.
Qed.

Lemma eligible_ordered c x : typed_config c → valid_monotonic_arb_config c = true → usable_selection x.1 → usable_selection x.2 →
  eligible c x → ls_chosen_limit_ticks x.1 < ls_chosen_limit_ticks x.2.
Proof.
  intros Hc Hv H1 H2 [Hpos _]. pose proof (exact_fee_nonneg c Hc Hv _ H1) as F1. pose proof (exact_fee_nonneg c Hc Hv _ H2) as F2.
  unfold net_of, gross_of, fees_of, exact_gross, exact_fees in Hpos. destruct (Z.leb_spec (ls_chosen_limit_ticks x.2) (ls_chosen_limit_ticks x.1)); lia.
Qed.

(** An accepted evaluation is the best of all pairs of sound legs. *)
Lemma accepted_selection c o now candidate : typed_config c → valid_monotonic_arb_config c = true → typed_observation o →
  ae_candidate (evaluate_monotonic_arb c o now) = Some candidate →
  ∃ x, candidate = candidate_of c o (paired c x) ∧ sound_leg 1 (easier_side c) c (observed_asks o) x.1 ∧
    sound_leg (-1) (harder_side c) c (observed_bids o) x.2 ∧ eligible c x ∧
    (∀ y, y.1 ∈ lc_selections (collect_easier_candidates (po_easier o) c) →
       y.2 ∈ lc_selections (collect_harder_candidates (po_harder o) c) → eligible c y → no_better c y x) ∧
    valid_pair_header o = true ∧
    mv_tradeable (po_easier o) = true ∧ mv_tradeable (po_harder o) = true ∧
    closed (po_easier o) now = false ∧ closed (po_harder o) now = false ∧
    ae_reason (evaluate_monotonic_arb c o now) = kARB_NONE.
Proof.
  intros Hc Hv Ho. unfold evaluate_monotonic_arb. destruct (valid_pair_header o); [|done]. cbn [negb].
  destruct (mv_tradeable (po_easier o)), (mv_tradeable (po_harder o)); try done. cbn [negb orb].
  destruct (closed (po_easier o) now), (closed (po_harder o) now); try done. cbn [orb].
  destruct (mv_ask_count (po_easier o) =? 0); [done|]. destruct (mv_bid_count (po_harder o) =? 0); [done|]. cbv zeta.
  pose proof (easier_sound c o Hc Ho) as He. pose proof (harder_sound c o Hc Ho) as Hh.
  destruct (bool_decide _); [done|]. destruct (bool_decide _); [done|].
  set (es := lc_selections (collect_easier_candidates (po_easier o) c)) in *. set (hs := lc_selections (collect_harder_candidates (po_harder o) c)) in *.
  pose proof (select_says c Hc Hv es hs) as Hs. destruct (select_paired_limits es hs c) as [|sel]; [done|]. cbn. intros [= <-].
  destruct Hs as (x & Hx & -> & Hel & Hbest).
  - eapply Forall_impl; [exact He|]. intros y. apply sound_leg_usable.
  - eapply Forall_impl; [exact Hh|]. intros y. apply sound_leg_usable.
  - exists x. unfold all_pairs in Hx. apply list_elem_of_bind in Hx as (e & Hx & Hein). apply list_elem_of_fmap in Hx as (h & -> & Hhin).
    rewrite Forall_forall in He, Hh. split_and!; auto. intros y Hy1 Hy2. apply Hbest. unfold all_pairs. apply list_elem_of_bind.
    exists y.1. split; [|done]. apply list_elem_of_fmap. exists y.2. by destruct y.
Qed.

(** ** Execution and settlement *)

(** Costs and revenues of a leg, fee included, only improve with the price, up to rounding. *)
Lemma better_price_better_fee c p p' : typed_config c → valid_monotonic_arb_config c = true → tradable_price p → tradable_price p' →
  100 * (exact_base_fee c p' - exact_base_fee c p) ≤ ac_order_quantity_lots c * Z.abs (p - p') + 99.
Proof.
  intros Hc Hv Hp Hp'. destruct (valid_facts c Hc Hv) as ((Hq & _) & _ & Hd & Hn & _). pose proof (tc_numerator c Hc) as [Hn0 _].
  unfold tradable_price in *. unfold exact_base_fee. set (q := ac_order_quantity_lots c) in *. set (n := ac_taker_fee_rate_numerator c) in *.
  set (d := ac_taker_fee_rate_denominator c) in *. set (D := d * 100 * 10000). assert (0 < D) as HD by lia.
  set (A := n * q * p' * (10000 - p')). set (B := n * q * p * (10000 - p)).
  assert (100 * (A - B) ≤ D * (q * Z.abs (p - p'))) as Hab.
  { assert (A - B = n * q * ((p' - p) * (10000 - p - p'))) as -> by (unfold A, B; ring).
    assert ((p' - p) * (10000 - p - p') ≤ Z.abs (p - p') * 10000) by (destruct (Z.abs_spec (p - p')) as [[? ->]|[? ->]]; nia).
    assert (n * q * ((p' - p) * (10000 - p - p')) ≤ n * q * (Z.abs (p - p') * 10000)) by (apply Z.mul_le_mono_nonneg_l; nia).
    assert (n * (q * (Z.abs (p - p') * 10000)) ≤ d * (q * (Z.abs (p - p') * 10000))) by (apply Z.mul_le_mono_nonneg_r; nia).
    unfold D. nia. }
  pose proof (Z.mul_div_le (A + D - 1) D HD) as HA. pose proof (Z.mul_succ_div_gt (B + D - 1) D HD) as HB.
  set (a := (A + D - 1) / D) in *. set (b := (B + D - 1) / D) in *. nia.
Qed.

(** A candidate buys YES of the easier and sells YES of the harder market of an open,
    tradeable, well-formed pair, each for the configured quantity at the price of an observed
    level within the configured depth and aggression, with enough quantity at that price or
    better; its gross edge, fees and net edge are the exact values at these limits and the
    net edge is at least the required one.  Among all pairs of limits that earn the required
    edge none is deeper, and none as deep earns more. *)
Theorem arb_candidate_executable c o now candidate : typed_config c → valid_monotonic_arb_config c = true → typed_observation o →
  ae_candidate (evaluate_monotonic_arb c o now) = Some candidate →
  ∃ easier harder : LegSelection,
    let e := ls_chosen_limit_ticks easier in let h := ls_chosen_limit_ticks harder in
    cd_easier_leg candidate = mkMonotonicArbLeg (mv_market_id (po_easier o)) kBUY_YES e (ac_order_quantity_lots c) ∧
    cd_harder_leg candidate = mkMonotonicArbLeg (mv_market_id (po_harder o)) kSELL_YES h (ac_order_quantity_lots c) ∧
    sound_leg 1 (easier_side c) c (observed_asks o) easier ∧ sound_leg (-1) (harder_side c) c (observed_bids o) harder ∧
    valid_pair_header o = true ∧ mv_tradeable (po_easier o) = true ∧ mv_tradeable (po_harder o) = true ∧
    closed (po_easier o) now = false ∧ closed (po_harder o) now = false ∧
    cd_gross_edge_ticks candidate = (h - e) * ac_order_quantity_lots c / 100 ∧
    cd_estimated_fee_ticks candidate = exact_fee c e + exact_fee c h ∧
    cd_net_edge_ticks candidate = cd_gross_edge_ticks candidate - cd_estimated_fee_ticks candidate ∧
    exact_required c ≤ cd_net_edge_ticks candidate ∧
    ∀ y, y.1 ∈ lc_selections (collect_easier_candidates (po_easier o) c) →
      y.2 ∈ lc_selections (collect_harder_candidates (po_harder o) c) → eligible c y → no_better c y (easier, harder).
Proof.
  intros Hc Hv Ho Hev. destruct (accepted_selection c o now candidate Hc Hv Ho Hev) as ([e h] & -> & He & Hh & Hel & Hbest & H1 & H2 & H3 & H4 & H5 & _).
  exists e, h. cbv zeta. cbn [fst snd] in *. split_and!; try done; [|by destruct Hel]. cbn. unfold gross_of, exact_gross. cbn [fst snd].
  pose proof (eligible_ordered c (e, h) Hc Hv (sound_leg_usable _ _ _ _ _ He) (sound_leg_usable _ _ _ _ _ Hh) Hel) as Hlt. cbn [fst snd] in Hlt.
  by rewrite (proj2 (Z.leb_gt _ _) Hlt).
Qed.

(** C7: if both legs of a candidate are executed in full, each at its limit or any better
    price, then in every settlement in which the harder market pays only if the easier does,
    the trades earn, after the fees at the prices of execution, at least the stated net edge:
    the rounding reserve comes on top, and less than two ticks go to the rounding of fees.
    (In hundredths of a tick.)  So the edge does not depend on the outcome, and a better
    price never costs more in fees than it brings. *)
Theorem arb_edge_locked_in c o now candidate buy_price sell_price easier_pays harder_pays :
  typed_config c → valid_monotonic_arb_config c = true → typed_observation o →
  ae_candidate (evaluate_monotonic_arb c o now) = Some candidate →
  0 < buy_price ≤ al_limit_price_ticks (cd_easier_leg candidate) →
  al_limit_price_ticks (cd_harder_leg candidate) ≤ sell_price < 10000 →
  (harder_pays = true → easier_pays = true) →
  let q := al_quantity_lots (cd_easier_leg candidate) in
  let payout (pays : bool) := if pays then 10000 else 0 in
  100 * cd_net_edge_ticks candidate + 200 * ac_execution_rounding_reserve_ticks_per_leg c - 198
    ≤ q * (payout easier_pays - buy_price) + q * (sell_price - payout harder_pays)
      - 100 * (exact_base_fee c buy_price + exact_base_fee c sell_price).
Proof.
  intros Hc Hv Ho Hev Hb Hs Hpay q payout.
  destruct (accepted_selection c o now candidate Hc Hv Ho Hev) as ([e h] & -> & He & Hh & Hel & _).
  pose proof (sound_leg_usable _ _ _ _ _ He) as Ue. pose proof (sound_leg_usable _ _ _ _ _ Hh) as Uh.
  cbn [fst snd] in Ue, Uh. cbn in q, Hb, Hs |- *. subst q. unfold net_of, gross_of, fees_of, exact_fees, exact_fee. cbn [fst snd].
  unfold usable_selection, tradable_price in Ue, Uh. set (pe := ls_chosen_limit_ticks e) in *. set (ph := ls_chosen_limit_ticks h) in *.
  pose proof (better_price_better_fee c pe buy_price Hc Hv ltac:(unfold tradable_price; lia) ltac:(unfold tradable_price; lia)) as F1.
  pose proof (better_price_better_fee c ph sell_price Hc Hv ltac:(unfold tradable_price; lia) ltac:(unfold tradable_price; lia)) as F2.
  rewrite (Z.abs_eq (pe - buy_price)) in F1 by lia. rewrite (Z.abs_neq (ph - sell_price)) in F2 by lia.
  destruct (valid_facts c Hc Hv) as ((Hq & _) & _). set (q := ac_order_quantity_lots c) in *.
  pose proof (eligible_ordered c (e, h) Hc Hv Ue Uh Hel) as Hlt. cbn [fst snd] in Hlt. fold pe ph in Hlt.
  assert (100 * exact_gross c pe ph ≤ q * (ph - pe)) as Hg.
  { unfold exact_gross. fold q. rewrite (proj2 (Z.leb_gt _ _) Hlt). pose proof (Z.mul_div_le ((ph - pe) * q) 100). lia. }
  assert (0 ≤ q * (payout easier_pays - payout harder_pays)) by (unfold payout; destruct easier_pays, harder_pays; auto; lia).
  lia.
Qed.

(** ** Witnesses *)

(** Asks from 40 cents, bids from 50 cents, three contracts on each of two levels. *)
Definition sample_view (market index strike : Z) (prices : list Z) : StrategyMarketView :=
  let levels := (λ p, mkStrategyBookLevel p 300) <$> prices in
  default_StrategyMarketView ⟪ mv_market_id := market ⟫ ⟪ mv_event_market_index := index ⟫ ⟪ mv_strike_key := strike ⟫
    ⟪ mv_tradeable := true ⟫ ⟪ mv_asks := levels ++ replicate 2 default_StrategyBookLevel ⟫
    ⟪ mv_bids := levels ++ replicate 2 default_StrategyBookLevel ⟫ ⟪ mv_ask_count := 2 ⟫ ⟪ mv_bid_count := 2 ⟫.
Definition sample_observation : MonotonicPairObservation :=
  default_MonotonicPairObservation ⟪ po_universe_version := 5 ⟫ ⟪ po_event_id := 7 ⟫ ⟪ po_event_revision := 3 ⟫
    ⟪ po_ingress_timestamp_ns := 1 ⟫ ⟪ po_book_apply_timestamp_ns := 2 ⟫ ⟪ po_publish_timestamp_ns := 3 ⟫
    ⟪ po_easier := sample_view 70 0 100 [4000; 4100] ⟫ ⟪ po_harder := sample_view 71 1 200 [5000; 4900] ⟫.
Definition sample_candidate : MonotonicArbCandidate :=
  mkMonotonicArbCandidate 7 3 (mkMonotonicArbLeg 70 kBUY_YES 4100 100) (mkMonotonicArbLeg 71 kSELL_YES 4900 100)
    800 345 455 5 0 1 2 3.

Lemma sample_typed : typed_config default_MonotonicArbConfig ∧ typed_observation sample_observation.
Proof.
  split; [split; unfold is_u64; cbn; lia|].
  split; cbn; try lia; repeat (apply Forall_cons; split; [unfold typed_level, is_u64; cbn; lia|]); apply Forall_nil_2.
Qed.

Lemma arb_candidate_executable_witness :
  ae_candidate (evaluate_monotonic_arb default_MonotonicArbConfig sample_observation 0) = Some sample_candidate ∧
  exact_required default_MonotonicArbConfig ≤ cd_net_edge_ticks sample_candidate.
Proof.
  assert (ae_candidate (evaluate_monotonic_arb default_MonotonicArbConfig sample_observation 0) = Some sample_candidate) as Hev
    by (vm_compute; reflexivity). split; [exact Hev|].
  destruct (arb_candidate_executable default_MonotonicArbConfig sample_observation 0 sample_candidate) as (e & h & H);
    [apply sample_typed|vm_compute; reflexivity|apply sample_typed|exact Hev|]. cbv zeta in H. apply H.
Defined.

(** Both markets pay, executed one cent better on the buying side. *)
Lemma arb_edge_locked_in_witness : 100 * 455 + 200 * 0 - 198 ≤ 100 * (10000 - 4000) + 100 * (4900 - 10000)
    - 100 * (exact_base_fee default_MonotonicArbConfig 4000 + exact_base_fee default_MonotonicArbConfig 4900).
Proof.
  apply (arb_edge_locked_in default_MonotonicArbConfig sample_observation 0 sample_candidate 4000 4900 true true);
    [apply sample_typed|vm_compute; reflexivity|apply sample_typed|vm_compute; reflexivity|cbn; lia|cbn; lia|done].
Defined.
End MonotonicArbSound.
