(* ===== verification/FramePool.v ===== *)
(** * FramePool: generation-stamped frame slots

    Models [FramePool] of
    [cpp/include/predex/ingest/kalshi/market_data/frame_pool.hpp]: a fixed set
    of slots, a LIFO free list, and a 32-bit generation per slot that is
    advanced on every recycle and skips zero.  The pool is owned by the wire
    session; readers look frames up through the handle they were given.  The
    size of the JSON parser's padding is a parameter of the frame layout. *)

From S2P Require Import Prelude MarketTypes.

Module Pool.

Section Pool.
Variable kFrameParserPadding : nat.

Definition kMaxFrameBytes : nat := Z.to_nat 8192.

Record KalshiFrame := mkKalshiFrame {
  fr_recv_ts_ns : Z;
  fr_len : Z;
  fr_flags : Z;
  fr_payload : list Z;
}.

Definition empty_frame : KalshiFrame :=
  mkKalshiFrame 0 0 0 (replicate (kMaxFrameBytes + kFrameParserPadding) 0).

Record FramePool := mkFramePool {
  capacity_ : nat;
  frames_ : list KalshiFrame;
  free_slots_ : list nat;       (* the vector, its back first *)
  generations_ : list Z;
  in_use_ : list bool;
}.

#[export] Instance eta_FramePool : Eta FramePool := λ p,
  mkFramePool (capacity_ p) (frames_ p) (free_slots_ p) (generations_ p) (in_use_ p).

(** The constructor pushes the slots from the highest down, so slot 0 is at the
    back of the free list; it throws when a slot index would not fit a handle. *)
Definition make_pool (capacity : nat) : option FramePool :=
  if U32_MAX <? Z.of_nat capacity then None
  else Some (mkFramePool capacity (replicate capacity empty_frame) (seq 0 capacity)
               (replicate capacity 1) (replicate capacity false)).

Definition available (p : FramePool) : nat := length (free_slots_ p).

Definition is_live_handle (p : FramePool) (handle : FrameHandle) : bool :=
  if Z.of_nat (length (frames_ p)) <=? fh_pool_index handle then false
  else
    match in_use_ p !! Z.to_nat (fh_pool_index handle),
          generations_ p !! Z.to_nat (fh_pool_index handle) with
    | Some true, Some generation => generation =? fh_pool_generation handle
    | _, _ => false
    end.

(** [try_acquire] returns the stamped handle, or nothing when the pool is
    exhausted. *)
Definition try_acquire : M FramePool (option FrameHandle) := λ p,
  match free_slots_ p with
  | [] => (None, p)
  | slot :: rest =>
      let p' := p ⟪ free_slots_ := rest ⟫
                  ⟪ in_use_ := <[slot := true]> (in_use_ p) ⟫
                  ⟪ frames_ := <[slot := empty_frame]> (frames_ p) ⟫ in
      (Some (default_FrameHandle
               ⟪ fh_pool_index := Z.of_nat slot ⟫
               ⟪ fh_pool_generation := default 0 (generations_ p !! slot) ⟫), p')
  end.

Definition frame (p : FramePool) (handle : FrameHandle) : option KalshiFrame :=
  if is_live_handle p handle then frames_ p !! Z.to_nat (fh_pool_index handle) else None.

(** Writing through the pointer returned by [writable_frame]. *)
Definition write_frame (handle : FrameHandle) (f : KalshiFrame → KalshiFrame) : M FramePool bool := λ p,
  if is_live_handle p handle
  then (true, p ⟪ frames_ := alter f (Z.to_nat (fh_pool_index handle)) (frames_ p) ⟫)
  else (false, p).

Definition next_generation (generation : Z) : Z :=
  let g := u32 (generation + 1) in if g =? 0 then 1 else g.

Definition recycle (handle : FrameHandle) : M FramePool bool := λ p,
  if is_live_handle p handle then
    let slot := Z.to_nat (fh_pool_index handle) in
    (true, p ⟪ in_use_ := <[slot := false]> (in_use_ p) ⟫
             ⟪ generations_ := alter next_generation slot (generations_ p) ⟫
             ⟪ free_slots_ := slot :: free_slots_ p ⟫)
  else (false, p).

(** ** The pool invariant *)

(** Every slot is either free or in use, never both; the free list has no
    duplicates; generations are non-zero 32-bit values. *)
Record pool_wf (p : FramePool) : Prop := {
  wf_cap : Z.of_nat (capacity_ p) ≤ U32_MAX;
  wf_frames : length (frames_ p) = capacity_ p;
  wf_generations : length (generations_ p) = capacity_ p;
  wf_in_use : length (in_use_ p) = capacity_ p;
  wf_nodup : NoDup (free_slots_ p);
  wf_free : ∀ slot, slot ∈ free_slots_ p ↔ in_use_ p !! slot = Some false;
  wf_gen_range : Forall (λ g, 1 ≤ g ≤ U32_MAX) (generations_ p);
}.

Lemma next_generation_range g : 1 ≤ next_generation g ≤ U32_MAX.
Proof.
  unfold next_generation. pose proof (u32_range (g + 1)) as H. unfold is_u32 in H.
  destruct (Z.eqb_spec (u32 (g + 1)) 0); lia.
Qed.

Lemma make_pool_wf capacity p : make_pool capacity = Some p → pool_wf p.
Proof.
  unfold make_pool. destruct (Z.ltb_spec U32_MAX (Z.of_nat capacity)); [done|]. intros; simplify_eq.
  constructor; cbn; rewrite ?length_replicate; auto.
  - apply NoDup_seq.
  - intros slot. rewrite elem_of_seq, lookup_replicate. naive_solver lia.
  - apply Forall_replicate. lia.
Qed.

Lemma try_acquire_wf : rel (keeps pool_wf) try_acquire.
Proof.
  intros p Hwf. unfold try_acquire.
  destruct (free_slots_ p) as [|slot rest] eqn:Efree; [done|].
  destruct Hwf as [Hc Hf Hg Hu Hnd Hfree Hgr]. rewrite Efree in Hnd, Hfree.
  apply NoDup_cons in Hnd as [Hnin Hnd]. cbn [snd].
  constructor; cbn; rewrite ?length_insert; auto.
  intros s. specialize (Hfree s). rewrite elem_of_cons in Hfree.
  destruct (decide (s = slot)) as [->|Hne].
  - assert (in_use_ p !! slot = Some false) as Hl by naive_solver.
    rewrite list_lookup_insert_eq by (by eapply lookup_lt_Some). naive_solver.
  - rewrite list_lookup_insert_ne by done. naive_solver.
Qed.

Lemma is_live_spec p handle : pool_wf p → 0 ≤ fh_pool_index handle →
  is_live_handle p handle = true ↔
  in_use_ p !! Z.to_nat (fh_pool_index handle) = Some true ∧
  generations_ p !! Z.to_nat (fh_pool_index handle) = Some (fh_pool_generation handle).
Proof.
  intros [Hc Hf Hg Hu _ _ _] Hi. unfold is_live_handle. rewrite Hf.
  destruct (Z.leb_spec (Z.of_nat (capacity_ p)) (fh_pool_index handle)).
  - split; [done|]. intros [H1%lookup_lt_Some _]. lia.
  - destruct (in_use_ p !! _) as [[]|]; [|naive_solver..].
    destruct (generations_ p !! _) as [g|]; [|naive_solver].
    rewrite Z.eqb_eq. naive_solver.
Qed.

Lemma recycle_wf handle : 0 ≤ fh_pool_index handle → rel (keeps pool_wf) (recycle handle).
Proof.
  intros Hi p Hwf. unfold recycle. destruct (is_live_handle p handle) eqn:E; [|done].
  apply is_live_spec in E as [Huse Hgen]; [|done..].
  destruct Hwf as [Hc Hf Hg Hu Hnd Hfree Hgr]. cbn [snd].
  set (slot := Z.to_nat (fh_pool_index handle)) in *.
  constructor; cbn; rewrite ?length_insert, ?length_alter; auto.
  - apply NoDup_cons. split; [|done]. rewrite Hfree, Huse. done.
  - intros s. rewrite elem_of_cons, Hfree.
    destruct (decide (s = slot)) as [->|Hne].
    + rewrite list_lookup_insert_eq by (by eapply lookup_lt_Some). naive_solver.
    + rewrite list_lookup_insert_ne by done. naive_solver.
  - rewrite Forall_lookup in Hgr |- *. intros s g. rewrite list_lookup_alter. case_decide.
    + intros (g0 & _ & ->)%fmap_Some. apply next_generation_range.
    + apply Hgr.
Qed.

Lemma write_frame_wf handle f : rel (keeps pool_wf) (write_frame handle f).
Proof.
  intros p Hwf. unfold write_frame. destruct (is_live_handle p handle); [|done].
  destruct Hwf. constructor; cbn; rewrite ?length_alter; auto.
Qed.

(** The operations of the owning thread, in any order. *)
Inductive pool_op :=
  | OpAcquire
  | OpWrite (handle : FrameHandle) (f : KalshiFrame → KalshiFrame)
  | OpRecycle (handle : FrameHandle).

Definition run_op (op : pool_op) (p : FramePool) : FramePool :=
  match op with
  | OpAcquire => (try_acquire p).2
  | OpWrite handle f => (write_frame handle f p).2
  | OpRecycle handle => (recycle handle p).2
  end.

Definition op_ok (op : pool_op) : Prop :=
  match op with OpRecycle handle => 0 ≤ fh_pool_index handle | _ => True end.

Fixpoint run_ops (ops : list pool_op) (p : FramePool) : FramePool :=
  match ops with [] => p | op :: ops' => run_ops ops' (run_op op p) end.

Lemma run_op_wf op p : op_ok op → pool_wf p → pool_wf (run_op op p).
Proof.
  destruct op; cbn; intros ? ?; [by apply try_acquire_wf|by apply write_frame_wf|by apply recycle_wf].
Qed.

Lemma run_ops_wf ops p : Forall op_ok ops → pool_wf p → pool_wf (run_ops ops p).
Proof.
  intros Hops. revert p. induction Hops; intros p Hp; cbn; [done|]. by apply IHHops, run_op_wf.
Qed.

Lemma in_use_count l free : NoDup free → (∀ slot, slot ∈ free ↔ l !! slot = Some false) →
  (length free + length (filter (λ b, b = true) l) = length l)%nat.
Proof.
  revert free. induction l as [|b l IH] using rev_ind; intros free Hnd Hfree.
  - destruct free as [|s free]; [done|]. destruct (Hfree s) as [H _]. specialize (H ltac:(left)). done.
  - assert (∀ s, s ≠ length l → (l ++ [b]) !! s = Some false ↔ l !! s = Some false) as Hl.
    { intros s Hs. destruct (decide (s < length l)%nat); [by rewrite lookup_app_l|].
      rewrite lookup_app_r, (lookup_ge_None_2 l), (lookup_ge_None_2 [b]) by (cbn; lia). done. }
    assert ((l ++ [b]) !! length l = Some b) as Hb by (rewrite lookup_app_r, Nat.sub_diag by lia; done).
    rewrite filter_app, !length_app. destruct b.
    + change (filter (λ b, b = true) [true]) with [true]. cbn [length].
      rewrite (Nat.add_assoc (length free)), (IH free); [done|done|].
      intros s. rewrite Hfree. destruct (decide (s = length l)) as [->|]; [|by apply Hl].
      rewrite Hb, lookup_ge_None_2 by lia. naive_solver.
    + change (filter (λ b, b = true) [false]) with (@nil bool). cbn [length].
      assert (length l ∈ free) as Hin by (by apply Hfree).
      apply elem_of_Permutation in Hin as [free' Hp].
      pose proof (Permutation_length Hp) as Hlen. cbn in Hlen. rewrite Hp in Hnd.
      apply NoDup_cons in Hnd as [Hnin Hnd].
      rewrite Hlen, Nat.add_0_r. cbn. rewrite (IH free' Hnd); [lia|].
      intros s. specialize (Hfree s). rewrite Hp, elem_of_cons in Hfree.
      destruct (decide (s = length l)) as [->|]; [rewrite lookup_ge_None_2 by lia; naive_solver|].
      rewrite <- Hl by done. naive_solver.
Qed.

(** ** Generations *)

Lemma next_generation_cycle n g : 1 ≤ g ≤ U32_MAX →
  Nat.iter n next_generation g = (g - 1 + Z.of_nat n) mod U32_MAX + 1.
Proof.
  intros Hg. induction n as [|n IH]; [cbn; rewrite Z.add_0_r, Z.mod_small; lia|].
  rewrite Nat.iter_succ, IH. clear IH. rewrite Nat2Z.inj_succ.
  set (x := g - 1 + Z.of_nat n). replace (g - 1 + Z.succ (Z.of_nat n)) with (x + 1) by lia.
  pose proof (Z.mod_pos_bound x U32_MAX). rewrite <- (Zplus_mod_idemp_l x 1).
  set (r := x mod U32_MAX) in *. unfold next_generation, u32.
  destruct (Z.eq_dec r 4294967294) as [->|]; [done|].
  rewrite (Z.mod_small (r + 1 + 1)), (Z.mod_small (r + 1)) by lia.
  destruct (Z.eqb_spec (r + 1 + 1) 0); lia.
Qed.

(** A generation value returns only after all the others have been used. *)
Lemma next_generation_fresh n g : 1 ≤ g ≤ U32_MAX → (0 < n)%nat → Z.of_nat n < U32_MAX →
  Nat.iter n next_generation g ≠ g.
Proof.
  intros Hg Hn Hlt. rewrite next_generation_cycle by done. intros E.
  pose proof (Z.div_mod (g - 1 + Z.of_nat n) U32_MAX). nia.
Qed.

(** How often [slot] is recycled by a sequence of operations. *)
Definition recycles (slot : nat) (op : pool_op) (p : FramePool) : nat :=
  match op with
  | OpRecycle handle =>
      if is_live_handle p handle && bool_decide (Z.to_nat (fh_pool_index handle) = slot) then 1 else 0
  | _ => 0
  end.

Fixpoint recycle_count (slot : nat) (ops : list pool_op) (p : FramePool) : nat :=
  match ops with
  | [] => 0
  | op :: ops' => recycles slot op p + recycle_count slot ops' (run_op op p)
  end.

Lemma run_op_generation op p slot g : generations_ p !! slot = Some g →
  generations_ (run_op op p) !! slot = Some (Nat.iter (recycles slot op p) next_generation g).
Proof.
  intros Hg. destruct op as [|handle f|handle]; cbn.
  - unfold try_acquire. by destruct (free_slots_ p).
  - unfold write_frame. by destruct (is_live_handle p handle).
  - unfold recycle. destruct (is_live_handle p handle); cbn; [|done].
    rewrite list_lookup_alter. unfold recycles. cbn.
    case_bool_decide; [subst slot; by rewrite decide_True, Hg|by rewrite decide_False].
Qed.

Lemma run_ops_generation ops p slot g : generations_ p !! slot = Some g →
  generations_ (run_ops ops p) !! slot = Some (Nat.iter (recycle_count slot ops p) next_generation g).
Proof.
  revert p g. induction ops as [|op ops IH]; intros p g Hg; [done|]. cbn [run_ops recycle_count].
  rewrite (IH _ _ (run_op_generation op p slot g Hg)). by rewrite Nat.add_comm, Nat.iter_add.
Qed.

(** ** What a handle guarantees *)

(** The pool never loses, duplicates or shares a slot.  After any sequence
    of acquisitions, writes and recycles of the owner, free and live slots
    partition the capacity, so exactly [capacity - in use] acquisitions remain
    possible, and no slot is on the free list twice. *)
Theorem pool_slots_partition capacity p ops :
  make_pool capacity = Some p → Forall op_ok ops →
  pool_wf (run_ops ops p) ∧
  (available (run_ops ops p) + length (filter (λ b, b = true) (in_use_ (run_ops ops p))))%nat = capacity.
Proof.
  intros Hp Hops. pose proof (run_ops_wf ops p Hops (make_pool_wf _ _ Hp)) as Hwf.
  split; [done|]. unfold available.
  rewrite (in_use_count _ _ (wf_nodup _ Hwf) (wf_free _ Hwf)), (wf_in_use _ Hwf).
  assert (∀ ops p, capacity_ (run_ops ops p) = capacity_ p) as Hcap.
  { induction ops0 as [|op ops0 IH]; intros p0; cbn; [done|]. rewrite IH.
    destruct op; cbn; unfold try_acquire, write_frame, recycle;
      [by destruct (free_slots_ p0)|by destruct (is_live_handle p0 _)..]. }
  rewrite Hcap. unfold make_pool in Hp. destruct (_ <? _); by simplify_eq.
Qed.

(** An acquired handle is live and reads a cleared frame; it never aliases
    a handle that was live before, and every earlier live handle stays live and
    still reads the frame it read before. *)
Theorem acquire_is_exclusive p handle p' :
  pool_wf p → try_acquire p = (Some handle, p') →
  is_live_handle p' handle = true ∧ frame p' handle = Some empty_frame ∧
  (∀ h, 0 ≤ fh_pool_index h → is_live_handle p h = true →
     fh_pool_index h ≠ fh_pool_index handle ∧ is_live_handle p' h = true ∧ frame p' h = frame p h).
Proof.
  intros Hwf Hacq. pose proof (try_acquire_wf p Hwf) as Hwf'. rewrite Hacq in Hwf'. cbn in Hwf'.
  unfold try_acquire in Hacq. destruct (free_slots_ p) as [|slot rest] eqn:Efree; [done|].
  injection Hacq as Hh Hp'. pose proof Hwf as [Hc Hf Hg Hu Hnd Hfree Hgr].
  assert (in_use_ p !! slot = Some false) as Hslot by (apply Hfree; rewrite Efree; left).
  pose proof (lookup_lt_Some _ _ _ Hslot) as Hlt.
  assert (is_live_handle p' handle = true) as Hlive.
  { apply is_live_spec; [done|subst handle; cbn; lia|]. subst handle p'. cbn. rewrite Nat2Z.id.
    rewrite list_lookup_insert_eq by done. split; [done|].
    by destruct (lookup_lt_is_Some_2 (generations_ p) slot ltac:(lia)) as [g ->]. }
  split; [done|]. split.
  { unfold frame. rewrite Hlive. subst handle p'. cbn. rewrite Nat2Z.id.
    apply list_lookup_insert_eq. lia. }
  intros h Hh0 Hl. pose proof Hl as Hl0. apply is_live_spec in Hl as [Huse Hgen]; [|done..].
  assert (Z.to_nat (fh_pool_index h) ≠ slot) as Hne by (intros E; rewrite E in Huse; congruence).
  assert (is_live_handle p' h = true) as Hlive'.
  { apply is_live_spec; [done..|]. subst p'. cbn. by rewrite list_lookup_insert_ne. }
  split; [subst handle; cbn; lia|]. split; [done|].
  unfold frame. rewrite Hlive', Hl0. subst p'. cbn. by rewrite list_lookup_insert_ne.
Qed.

(** A recycled handle is dead: recycling it again is refused and changes
    nothing, and no later sequence of operations makes it readable again until
    its slot has been recycled a full generation cycle ([2^32 - 1] times). *)
Theorem recycled_handle_stays_dead p handle p1 ops :
  pool_wf p → 0 ≤ fh_pool_index handle → recycle handle p = (true, p1) →
  Forall op_ok ops →
  Z.of_nat (recycle_count (Z.to_nat (fh_pool_index handle)) ops p1) < U32_MAX - 1 →
  recycle handle p1 = (false, p1) ∧ frame (run_ops ops p1) handle = None.
Proof.
  intros Hwf Hi Hrec Hops Hcount.
  pose proof (recycle_wf handle Hi p Hwf) as Hwf1. rewrite Hrec in Hwf1. cbn in Hwf1.
  unfold recycle in Hrec. destruct (is_live_handle p handle) eqn:El; [|done].
  apply is_live_spec in El as [Huse Hgen]; [|done..]. injection Hrec as Hp1.
  set (slot := Z.to_nat (fh_pool_index handle)) in *.
  assert (1 ≤ fh_pool_generation handle ≤ U32_MAX) as Hrange.
  { pose proof (wf_gen_range _ Hwf) as Hr. rewrite Forall_lookup in Hr. by eapply Hr. }
  assert (generations_ p1 !! slot = Some (next_generation (fh_pool_generation handle))) as Hgen1
    by (subst p1; cbn; by rewrite list_lookup_alter_eq, Hgen).
  assert (∀ ops', Forall op_ok ops' → Z.of_nat (recycle_count slot ops' p1) < U32_MAX - 1 →
    is_live_handle (run_ops ops' p1) handle = false) as Hdead.
  { intros ops' Hok Hc. apply not_true_iff_false. intros Hl.
    apply is_live_spec in Hl as [_ Hg]; [|by apply run_ops_wf|done].
    fold slot in Hg. rewrite (run_ops_generation ops' p1 slot _ Hgen1) in Hg. injection Hg as Hg.
    rewrite <- Nat.iter_succ_r in Hg. by apply (next_generation_fresh (S (recycle_count slot ops' p1)) _) in Hg; [|lia..]. }
  split.
  - unfold recycle. pose proof (Hdead [] (Forall_nil_2 _)) as Hd. cbn in Hd. by rewrite Hd by lia.
  - unfold frame. by rewrite Hdead.
Qed.
End Pool.

Arguments make_pool : clear implicits.

(** A pool of two slots and a one-byte padding. *)
Definition demo_pool : FramePool :=
  mkFramePool 2 (replicate 2 (empty_frame 1)) (seq 0 2) (replicate 2 1) (replicate 2 false).
Definition demo_handle : FrameHandle :=
  default_FrameHandle ⟪ fh_pool_index := 0 ⟫ ⟪ fh_pool_generation := 1 ⟫.
Definition demo_acquired : FramePool := (try_acquire 1 demo_pool).2.
Definition demo_recycled : FramePool := (recycle demo_handle demo_acquired).2.

Lemma demo_pool_wf : pool_wf demo_pool.
Proof. apply (make_pool_wf 1 2). reflexivity. Qed.

Lemma pool_slots_partition_witness :
  (available (run_ops 1 [OpAcquire; OpAcquire; OpRecycle demo_handle] demo_pool) +
   length (filter (λ b, b = true)
             (in_use_ (run_ops 1 [OpAcquire; OpAcquire; OpRecycle demo_handle] demo_pool))))%nat = 2%nat.
Proof.
  apply (pool_slots_partition 1 2 demo_pool); [reflexivity|]. repeat constructor; cbn; lia.
Defined.

Lemma acquire_is_exclusive_witness :
  is_live_handle demo_acquired demo_handle = true ∧ frame demo_acquired demo_handle = Some (empty_frame 1).
Proof.
  destruct (acquire_is_exclusive 1 demo_pool demo_handle demo_acquired demo_pool_wf eq_refl) as (H1 & H2 & _).
  split; [exact H1|exact H2].
Defined.

Lemma recycled_handle_stays_dead_witness :
  recycle demo_handle demo_recycled = (false, demo_recycled) ∧
  frame (run_ops 1 [OpAcquire; OpAcquire] demo_recycled) demo_handle = None.
Proof.
  apply (recycled_handle_stays_dead 1 demo_acquired demo_handle demo_recycled [OpAcquire; OpAcquire]);
    [apply (try_acquire_wf 1), demo_pool_wf|cbn; lia|reflexivity|repeat constructor|cbn; lia].
Defined.
End Pool.
