(* ===== verification/Book.v ===== *)
(** * Book: price grids and order books

    Models [KalshiBook] and [KalshiMarket] of
    [cpp/include/predex/shard/models.hpp].  A book stores one quantity per price
    level; the vectors are sized to the market's price grid, and two lookup
    tables translate ticks to level indices and back.

    [std::vector::operator[]] past the end is undefined behaviour.  The model
    reads such an element as zero and drops such a write; [book_wf] and the
    theorems of [Event] show that no index the code computes is out of range.
    Allocation of the tables can fail ([std::bad_alloc]); whether it does is an
    argument, [alloc_ok]. *)

From S2P Require Import Prelude MarketTypes.

Module Book.

Definition kTICKSCALE : Z := 10000.
Definition kQTY_SCALE : Z := 100.
Definition kTICK_TO_LINEAR_CENTS_DIVISOR : Z := 100.
Definition kTICK_TO_TAPERED_DECI_CENTS_DIVISOR : Z := 10.
Definition kTICK_TO_DECI_CENTS_DIVISOR : Z := 10.
Definition kLEVEL_COUNT_LINEAR_CENTS : Z := 101.
Definition kLEVEL_COUNT_TAPERED_DECI_CENTS : Z := 1001.
Definition kLEVEL_COUNT_DECI_CENTS : Z := 1001.

Inductive Side := | kSIDE_UNKNOWN | kBID | kASK.
#[export] Instance Side_eq_dec : EqDecision Side.
Proof. solve_decision. Defined.

Inductive MarketScale := | kSCALE_UNKNOWN | kLINEAR_CENTS | kTAPERED_DECI_CENTS | kDECI_CENTS.
#[export] Instance MarketScale_eq_dec : EqDecision MarketScale.
Proof. solve_decision. Defined.

Inductive BookSyncState := | kAWAITING_INITIAL_SNAPSHOT | kSYNCHRONIZED
  | kAWAITING_RECOVERY_SNAPSHOT.
#[export] Instance BookSyncState_eq_dec : EqDecision BookSyncState.
Proof. solve_decision. Defined.

Definition kInvalidBookIndex : Z := U16_MAX.

Record KalshiBook := mkKalshiBook {
  bk_index_by_tick : list Z;
  bk_tick_by_index : list Z;
  bk_invalid_index : Z;
  bk_bids : list Z;
  bk_asks : list Z;
  bk_scale : MarketScale;
  bk_sync_state : BookSyncState;
}.
#[export] Instance eta_KalshiBook : Eta KalshiBook := λ r,
  mkKalshiBook (bk_index_by_tick r) (bk_tick_by_index r) (bk_invalid_index r) (bk_bids r)
    (bk_asks r) (bk_scale r) (bk_sync_state r).
Definition default_KalshiBook : KalshiBook :=
  mkKalshiBook [] [] kInvalidBookIndex [] [] kSCALE_UNKNOWN kAWAITING_INITIAL_SNAPSHOT.

Definition get_index (b : KalshiBook) (price_ticks : Z) : option Z :=
  if Z.of_nat (length (bk_index_by_tick b)) <=? price_ticks then None
  else
    index ← bk_index_by_tick b !! Z.to_nat price_ticks;
    if index =? bk_invalid_index b then None else Some index.

Definition price_ticks_at_index (b : KalshiBook) (index : Z) : option Z :=
  if Z.of_nat (length (bk_tick_by_index b)) <=? index then None
  else bk_tick_by_index b !! Z.to_nat index.

(** Divisor and level count of a price grid. *)
Definition grid_parameters (scale : MarketScale) : option (Z * Z) :=
  match scale with
  | kLINEAR_CENTS => Some (kTICK_TO_LINEAR_CENTS_DIVISOR, kLEVEL_COUNT_LINEAR_CENTS)
  | kTAPERED_DECI_CENTS => Some (kTICK_TO_TAPERED_DECI_CENTS_DIVISOR, kLEVEL_COUNT_TAPERED_DECI_CENTS)
  | kDECI_CENTS => Some (kTICK_TO_DECI_CENTS_DIVISOR, kLEVEL_COUNT_DECI_CENTS)
  | kSCALE_UNKNOWN => None
  end.

(** One iteration of the grid loop. *)
Definition grid_step (divisor level_count : Z) (tables : list Z * list Z) (tick : Z) : list Z * list Z :=
  let '(index_by_tick, tick_by_index) := tables in
  if tick mod divisor =? 0 then
    let idx := (tick / divisor) mod 65536 in
    (<[Z.to_nat tick := idx]> index_by_tick,
     if idx <? level_count then <[Z.to_nat idx := tick]> tick_by_index else tick_by_index)
  else tables.

Definition clear_vectors (b : KalshiBook) : KalshiBook :=
  b ⟪ bk_bids := [] ⟫ ⟪ bk_asks := [] ⟫ ⟪ bk_index_by_tick := [] ⟫ ⟪ bk_tick_by_index := [] ⟫.

Definition set_index_grid (alloc_ok : bool) (b : KalshiBook) : bool * KalshiBook :=
  match grid_parameters (bk_scale b) with
  | None => (false, clear_vectors b)
  | Some (divisor, level_count) =>
      if alloc_ok then
        let '(index_by_tick, tick_by_index) :=
          foldl (grid_step divisor level_count)
            (replicate (Z.to_nat (kTICKSCALE + 1)) (bk_invalid_index b),
             replicate (Z.to_nat level_count) 0)
            (seqZ 0 (kTICKSCALE + 1)) in
        (true, b ⟪ bk_index_by_tick := index_by_tick ⟫ ⟪ bk_tick_by_index := tick_by_index ⟫
                 ⟪ bk_bids := replicate (Z.to_nat level_count) 0 ⟫
                 ⟪ bk_asks := replicate (Z.to_nat level_count) 0 ⟫)
      else (false, clear_vectors b)
  end.

Definition usable (b : KalshiBook) : bool := bool_decide (bk_sync_state b = kSYNCHRONIZED).
Definition awaiting_snapshot (b : KalshiBook) : bool := negb (usable b).

Definition invalidate (b : KalshiBook) : KalshiBook :=
  b ⟪ bk_sync_state := kAWAITING_RECOVERY_SNAPSHOT ⟫
    ⟪ bk_bids ::= fmap (λ _, 0) ⟫ ⟪ bk_asks ::= fmap (λ _, 0) ⟫.

Record KalshiMarket := mkKalshiMarket {
  km_market_id : Z;
  km_event_market_index : Z;
  km_tradeable : bool;
  km_book : KalshiBook;
  km_strike_key : option Z;
  km_market_time_s : Z;
  km_market_close_time_s : Z;
  km_market_expected_expiration_time_s : Z;
  km_market_expiration_time_s : Z;
}.
#[export] Instance eta_KalshiMarket : Eta KalshiMarket := λ r,
  mkKalshiMarket (km_market_id r) (km_event_market_index r) (km_tradeable r) (km_book r)
    (km_strike_key r) (km_market_time_s r) (km_market_close_time_s r)
    (km_market_expected_expiration_time_s r) (km_market_expiration_time_s r).
Definition default_KalshiMarket : KalshiMarket :=
  mkKalshiMarket 0 0 false default_KalshiBook None 0 0 0 0.

Record Level := mkLevel {
  lv_price_ticks : Z;
  lv_qty_lots : Z;
}.
#[export] Instance eta_Level : Eta Level := λ r,
  mkLevel (lv_price_ticks r) (lv_qty_lots r).
Definition default_Level : Level :=
  mkLevel 0 0.

Record KalshiDeltaData := mkKalshiDeltaData {
  dd_side : Side;
  dd_price_ticks : Z;
  dd_delta_qty_lots : Z;
}.
#[export] Instance eta_KalshiDeltaData : Eta KalshiDeltaData := λ r,
  mkKalshiDeltaData (dd_side r) (dd_price_ticks r) (dd_delta_qty_lots r).
Definition default_KalshiDeltaData : KalshiDeltaData :=
  mkKalshiDeltaData kSIDE_UNKNOWN 0 0.

Record KalshiSnapshotEvent := mkKalshiSnapshotEvent {
  se_bids : list Level;
  se_asks : list Level;
}.
#[export] Instance eta_KalshiSnapshotEvent : Eta KalshiSnapshotEvent := λ r,
  mkKalshiSnapshotEvent (se_bids r) (se_asks r).
Definition default_KalshiSnapshotEvent : KalshiSnapshotEvent :=
  mkKalshiSnapshotEvent [] [].

Inductive AggressorSide := | kAGGRESSOR_UNKNOWN | kBUY_AGGRESSOR | kSELL_AGGRESSOR.
#[export] Instance AggressorSide_eq_dec : EqDecision AggressorSide.
Proof. solve_decision. Defined.

Record KalshiTradeData := mkKalshiTradeData {
  td_price_ticks : Z;
  td_qty_lots : Z;
  td_aggressor : AggressorSide;
  td_book_side : Side;
}.
#[export] Instance eta_KalshiTradeData : Eta KalshiTradeData := λ r,
  mkKalshiTradeData (td_price_ticks r) (td_qty_lots r) (td_aggressor r) (td_book_side r).
Definition default_KalshiTradeData : KalshiTradeData :=
  mkKalshiTradeData 0 0 kAGGRESSOR_UNKNOWN kSIDE_UNKNOWN.

Inductive KalshiParsedEvent :=
  | ParsedMonostate
  | ParsedSnapshot (e : KalshiSnapshotEvent)
  | ParsedDelta (e : KalshiDeltaData)
  | ParsedTrade (e : KalshiTradeData)
  | ParsedLifecycle.

(** ** The price grid *)

(** The tables of a grid: tick [t] has level [t / d] when the divisor divides
    it and no level otherwise, and level [i] has tick [i * d]. *)
Definition grid_ok (b : KalshiBook) (divisor level_count : Z) : Prop :=
  grid_parameters (bk_scale b) = Some (divisor, level_count) ∧
  bk_invalid_index b = kInvalidBookIndex ∧
  length (bk_index_by_tick b) = Z.to_nat (kTICKSCALE + 1) ∧
  length (bk_tick_by_index b) = Z.to_nat level_count ∧
  length (bk_bids b) = Z.to_nat level_count ∧
  length (bk_asks b) = Z.to_nat level_count ∧
  (∀ t, 0 ≤ t ≤ kTICKSCALE →
     bk_index_by_tick b !! Z.to_nat t =
       Some (if t mod divisor =? 0 then t / divisor else kInvalidBookIndex)) ∧
  (∀ i, 0 ≤ i < level_count → bk_tick_by_index b !! Z.to_nat i = Some (i * divisor)).

Lemma grid_parameters_shape scale d n : grid_parameters scale = Some (d, n) →
  (d = 100 ∧ n = 101) ∨ (d = 10 ∧ n = 1001).
Proof. destruct scale; cbn; intros; simplify_eq; auto. Qed.

(** The loop invariant after the ticks below [m]. *)
Definition grid_invariant (d n inv m : Z) (tables : list Z * list Z) : Prop :=
  length tables.1 = Z.to_nat 10001 ∧ length tables.2 = Z.to_nat n ∧
  (∀ t, 0 ≤ t ≤ 10000 → tables.1 !! Z.to_nat t =
     Some (if (t <? m) && (t mod d =? 0) then t / d else inv)) ∧
  (∀ i, 0 ≤ i < n → tables.2 !! Z.to_nat i = Some (if i * d <? m then i * d else 0)).

Lemma grid_step_invariant d n inv m tables :
  (d = 100 ∧ n = 101) ∨ (d = 10 ∧ n = 1001) → 0 ≤ m ≤ 10000 →
  grid_invariant d n inv m tables → grid_invariant d n inv (m + 1) (grid_step d n tables m).
Proof.
  intros Hdn Hm (Hl1 & Hl2 & Hi & Ht). destruct tables as [ibt tbi]; cbn in *.
  assert (0 < d) as Hd by lia. pose proof (Z.div_mod m d ltac:(lia)) as Hdm.
  pose proof (Z.mod_pos_bound m d Hd). unfold grid_step.
  destruct (Z.eqb_spec (m mod d) 0) as [E|E].
  - assert (m = d * (m / d)) as Em by lia.
    assert (0 ≤ m / d < n) as Hidx by nia.
    rewrite (Z.mod_small (m / d)), (proj2 (Z.ltb_lt _ _)) by lia.
    repeat split; cbn; rewrite ?length_insert; auto.
    + intros t Hr. destruct (Z.eq_dec t m) as [->|Hne].
      * rewrite list_lookup_insert_eq by lia.
        rewrite (proj2 (Z.ltb_lt m (m + 1))), E by lia. done.
      * rewrite list_lookup_insert_ne, Hi by lia.
        replace (t <? m + 1) with (t <? m) by lia. done.
    + intros i Hr. destruct (Z.eq_dec i (m / d)) as [->|Hne].
      * rewrite list_lookup_insert_eq by lia. rewrite (proj2 (Z.ltb_lt _ _)) by lia. f_equal. lia.
      * rewrite list_lookup_insert_ne, Ht by lia.
        replace (i * d <? m + 1) with (i * d <? m) by nia. done.
  - repeat split; cbn; auto.
    + intros t Hr. rewrite Hi by done. destruct (Z.eq_dec t m) as [->|].
      * rewrite (proj2 (Z.eqb_neq (m mod d) 0)), !andb_false_r by done. done.
      * replace (t <? m + 1) with (t <? m) by lia. done.
    + intros i Hr. rewrite Ht by done.
      assert (i * d ≠ m) by (intros <-; rewrite Z.mod_mul in E by lia; lia).
      replace (i * d <? m + 1) with (i * d <? m) by lia. done.
Qed.

Lemma grid_loop d n inv (k : nat) : (d = 100 ∧ n = 101) ∨ (d = 10 ∧ n = 1001) → Z.of_nat k ≤ 10001 →
  grid_invariant d n inv (Z.of_nat k)
    (foldl (grid_step d n) (replicate (Z.to_nat 10001) inv, replicate (Z.to_nat n) 0) (seqZ 0 (Z.of_nat k))).
Proof.
  intros Hdn. induction k as [|k IH]; intros Hk.
  - change (seqZ 0 (Z.of_nat 0)) with (@nil Z). change (Z.of_nat 0) with 0. cbn [foldl].
    split; [apply length_replicate|]. split; [apply length_replicate|]. cbn [fst snd]. split.
    + intros t Ht. rewrite lookup_replicate_2 by lia.
      destruct (Z.ltb_spec t 0); [lia|done].
    + intros i Hi. rewrite lookup_replicate_2 by lia. destruct (Z.ltb_spec (i * d) 0); [nia|done].
  - rewrite seqZ_S, foldl_snoc, Nat2Z.inj_succ, <- Z.add_1_r.
    apply grid_step_invariant; [done|lia|]. apply IH. lia.
Qed.

Lemma set_index_grid_ok b d n b' : bk_invalid_index b = kInvalidBookIndex →
  grid_parameters (bk_scale b) = Some (d, n) → set_index_grid true b = (true, b') →
  grid_ok b' d n ∧ bk_bids b' = replicate (Z.to_nat n) 0 ∧ bk_asks b' = replicate (Z.to_nat n) 0 ∧
  bk_sync_state b' = bk_sync_state b ∧ bk_scale b' = bk_scale b.
Proof.
  intros Hinv Hp Hset. unfold set_index_grid in Hset. rewrite Hp in Hset.
  pose proof (grid_loop d n (bk_invalid_index b) (Z.to_nat 10001) (grid_parameters_shape _ _ _ Hp)
    ltac:(lia)) as Hloop.
  rewrite Z2Nat.id in Hloop by lia. change (kTICKSCALE + 1) with 10001 in Hset.
  destruct (foldl _ _ _) as [ibt tbi]. destruct Hloop as (Hl1 & Hl2 & Hi & Ht). cbn in Hl1, Hl2, Hi, Ht.
  injection Hset as <-. cbn. rewrite Hinv in Hi. split; [|done].
  apply grid_parameters_shape in Hp as Hdn.
  repeat split; cbn; rewrite ?length_replicate; auto.
  - intros t Hr. unfold kTICKSCALE in Hr. rewrite Hi by lia.
    rewrite (proj2 (Z.ltb_lt t 10001)) by lia. done.
  - intros i Hr. rewrite Ht by done. rewrite (proj2 (Z.ltb_lt (i * d) 10001)) by nia. done.
Qed.

(** A price is on the grid when it is at most one dollar and a multiple of the
    divisor. *)
Definition on_grid (divisor price : Z) : bool := (price <=? kTICKSCALE) && (price mod divisor =? 0).

Lemma get_index_spec b d n price : grid_ok b d n → 0 ≤ price →
  get_index b price = if on_grid d price then Some (price / d) else None.
Proof.
  intros (Hp & Hinv & Hl & _ & _ & _ & Hi & _) Hpr. unfold get_index, on_grid. rewrite Hl, Hinv.
  apply grid_parameters_shape in Hp. unfold kTICKSCALE in *.
  destruct (Z.leb_spec (Z.of_nat (Z.to_nat (10000 + 1))) price), (Z.leb_spec price 10000); try lia; [done|].
  rewrite Hi by lia. cbn [mbind option_bind andb]. unfold kInvalidBookIndex.
  destruct (Z.eqb_spec (price mod d) 0); [|done].
  pose proof (Z.div_mod price d ltac:(lia)).
  destruct (Z.eqb_spec (price / d) U16_MAX); [nia|done].
Qed.

Lemma on_grid_index d n price : (d = 100 ∧ n = 101) ∨ (d = 10 ∧ n = 1001) → 0 ≤ price →
  on_grid d price = true → 0 ≤ price / d < n ∧ price = price / d * d.
Proof.
  unfold on_grid, kTICKSCALE. intros Hdn Hp [H1%Z.leb_le H2%Z.eqb_eq]%andb_prop.
  pose proof (Z.div_mod price d ltac:(lia)). nia.
Qed.

Lemma price_at_index_spec b d n i : grid_ok b d n → 0 ≤ i < n →
  price_ticks_at_index b i = Some (i * d) ∧ get_index b (i * d) = Some i.
Proof.
  intros Hg Hi. pose proof Hg as (Hp & _ & _ & Hl & _ & _ & _ & Ht).
  apply grid_parameters_shape in Hp. split.
  - unfold price_ticks_at_index. rewrite Hl.
    destruct (Z.leb_spec (Z.of_nat (Z.to_nat n)) i); [lia|]. by apply Ht.
  - rewrite (get_index_spec b d n) by (done || nia). unfold on_grid, kTICKSCALE.
    rewrite Z.mod_mul, Z.div_mul by lia. rewrite (proj2 (Z.leb_le _ _)) by nia. done.
Qed.

(** The levels of one side, and the quantity resting at a price. *)
Definition side_levels (b : KalshiBook) (side : Side) : list Z :=
  match side with kBID => bk_bids b | kASK => bk_asks b | kSIDE_UNKNOWN => [] end.

Definition level_at (b : KalshiBook) (side : Side) (price : Z) : Z :=
  match get_index b price with
  | Some index => default 0 (side_levels b side !! Z.to_nat index)
  | None => 0
  end.

(** A book the code may index into: when it is usable its tables are the grid of
    its scale and every level is a 64-bit quantity. *)
Definition book_wf (b : KalshiBook) : Prop :=
  bk_invalid_index b = kInvalidBookIndex ∧
  (usable b = true →
   (∃ d n, grid_ok b d n) ∧ Forall is_u64 (bk_bids b) ∧ Forall is_u64 (bk_asks b)).

Lemma usable_spec b : usable b = true ↔ bk_sync_state b = kSYNCHRONIZED.
Proof. unfold usable. by rewrite bool_decide_eq_true. Qed.

Lemma invalidate_unusable b : usable (invalidate b) = false.
Proof. done. Qed.

Lemma invalidate_wf b : book_wf b → book_wf (invalidate b).
Proof. intros [H _]. split; [done|]. rewrite invalidate_unusable. done. Qed.

(** An invalidated book shows no quantity anywhere. *)
Lemma invalidate_levels b side price : level_at (invalidate b) side price = 0.
Proof.
  unfold level_at. destruct (get_index _ price); [|done].
  destruct side; cbn; [done|rewrite list_lookup_fmap..]; by destruct (_ !! _).
Qed.
End Book.
