(* ===== verification/Event.v ===== *)
(** * Event: applying market data to the books of an event

    Models [cpp/src/shard/event.cpp] and [cpp/src/shard/event_store.cpp]: the
    snapshot and delta appliers, the invalidation path, the revision counter and
    the four-level observation that shards publish to strategies.

    The specification is an abstract book, [abook]: either nothing (the book is
    not usable) or a quantity for every side and price.  [abook_step] says what a
    parsed message does to it, without indices, tables or unsigned arithmetic, and
    [apply_refines] shows the code implements it. *)

From S2P Require Import Prelude MarketTypes StrategyTypes Book.

Module Event.
Import Book.

Inductive ApplyDisposition := | kAPPLIED | kIGNORED | kREJECTED.
#[export] Instance ApplyDisposition_eq_dec : EqDecision ApplyDisposition.
Proof. solve_decision. Defined.

Inductive BookSyncTransition := | kTRANSITION_NONE | kINITIAL_SNAPSHOT_INSTALLED
  | kBECAME_UNUSABLE | kRECOVERED | kRECOVERY_REQUIRED.
#[export] Instance BookSyncTransition_eq_dec : EqDecision BookSyncTransition.
Proof. solve_decision. Defined.

Inductive MarketApplyReason := | kAPPLY_NONE | kUNKNOWN_EVENT_TYPE | kINVALID_MARKET_INDEX
  | kINVALID_SIDE | kINVALID_PRICE | kMISSING_INITIAL_SNAPSHOT | kMISSING_RECOVERY_SNAPSHOT
  | kNEGATIVE_LEVEL | kINVALID_BOOK_SCALE | kOVERFLOW.
#[export] Instance MarketApplyReason_eq_dec : EqDecision MarketApplyReason.
Proof. solve_decision. Defined.

Record MarketApplyResult := mkMarketApplyResult {
  ar_disposition : ApplyDisposition;
  ar_book_sync_transition : BookSyncTransition;
  ar_reason : MarketApplyReason;
}.
#[export] Instance eta_MarketApplyResult : Eta MarketApplyResult := λ r,
  mkMarketApplyResult (ar_disposition r) (ar_book_sync_transition r) (ar_reason r).
Definition default_MarketApplyResult : MarketApplyResult :=
  mkMarketApplyResult kAPPLIED kTRANSITION_NONE kAPPLY_NONE.

Record EventApplyResult := mkEventApplyResult {
  er_disposition : ApplyDisposition;
  er_book_sync_transition : BookSyncTransition;
  er_reason : MarketApplyReason;
  er_book_changed : bool;
  er_event_became_usable : bool;
  er_event_revision : Z;
}.
#[export] Instance eta_EventApplyResult : Eta EventApplyResult := λ r,
  mkEventApplyResult (er_disposition r) (er_book_sync_transition r) (er_reason r)
    (er_book_changed r) (er_event_became_usable r) (er_event_revision r).
Definition default_EventApplyResult : EventApplyResult :=
  mkEventApplyResult kAPPLIED kTRANSITION_NONE kAPPLY_NONE false false 0.

Inductive InvalidationRejectReason := | kINVALIDATION_ACCEPTED | kREJECT_INVALID_EVENT_INDEX
  | kREJECT_INVALID_MARKET_INDEX | kREJECT_MARKET_ID_MISMATCH.
#[export] Instance InvalidationRejectReason_eq_dec : EqDecision InvalidationRejectReason.
Proof. solve_decision. Defined.

Record BookInvalidationResult := mkBookInvalidationResult {
  ir_target_found : bool;
  ir_book_sync_transition : BookSyncTransition;
  ir_reason : BookInvalidationReason;
  ir_reject_reason : InvalidationRejectReason;
  ir_event_revision : Z;
}.
#[export] Instance eta_BookInvalidationResult : Eta BookInvalidationResult := λ r,
  mkBookInvalidationResult (ir_target_found r) (ir_book_sync_transition r) (ir_reason r)
    (ir_reject_reason r) (ir_event_revision r).
Definition default_BookInvalidationResult : BookInvalidationResult :=
  mkBookInvalidationResult false kTRANSITION_NONE kREASON_NONE kINVALIDATION_ACCEPTED 0.

Record BookInvalidationSummary := mkBookInvalidationSummary {
  is_targets_found : Z;
  is_targets_became_unusable : Z;
  is_targets_recovery_required : Z;
  is_targets_already_awaiting_recovery : Z;
}.
#[export] Instance eta_BookInvalidationSummary : Eta BookInvalidationSummary := λ r,
  mkBookInvalidationSummary (is_targets_found r) (is_targets_became_unusable r)
    (is_targets_recovery_required r) (is_targets_already_awaiting_recovery r).
Definition default_BookInvalidationSummary : BookInvalidationSummary :=
  mkBookInvalidationSummary 0 0 0 0.

Record KalshiEvent := mkKalshiEvent {
  ke_event_id : Z;
  ke_topology : EventTopology;
  ke_shard_event_index : Z;
  ke_markets : list KalshiMarket;
}.
#[export] Instance eta_KalshiEvent : Eta KalshiEvent := λ r,
  mkKalshiEvent (ke_event_id r) (ke_topology r) (ke_shard_event_index r) (ke_markets r).
Definition default_KalshiEvent : KalshiEvent :=
  mkKalshiEvent 0 kTOPOLOGY_UNKNOWN 0 [].

Record EventState := mkEventState {
  ev_state : KalshiEvent;
  ev_revision : Z;
}.
#[export] Instance eta_EventState : Eta EventState := λ r,
  mkEventState (ev_state r) (ev_revision r).
Definition default_EventState : EventState :=
  mkEventState default_KalshiEvent 0.

Definition make_event (state : KalshiEvent) : EventState := mkEventState state 0.

Definition event_usable (e : EventState) : bool :=
  match ke_markets (ev_state e) with
  | [] => false
  | ms => forallb (λ m, usable (km_book m)) ms
  end.

(** ** Applying a message to one market *)

Definition install_level (book : KalshiBook) (levels : list Z) (level : Level) : option (list Z) :=
  match get_index book (lv_price_ticks level) with
  | None => None
  | Some index =>
      if Z.of_nat (length levels) <=? index then None
      else Some (<[Z.to_nat index := lv_qty_lots level]> levels)
  end.

Fixpoint install_levels (book : KalshiBook) (levels : list Z) (l : list Level) : option (list Z) :=
  match l with
  | [] => Some levels
  | level :: l' => levels' ← install_level book levels level; install_levels book levels' l'
  end.

Definition invalidation_transition (previous_state : BookSyncState) : BookSyncTransition :=
  match previous_state with
  | kSYNCHRONIZED => kBECAME_UNUSABLE
  | kAWAITING_INITIAL_SNAPSHOT => kRECOVERY_REQUIRED
  | kAWAITING_RECOVERY_SNAPSHOT => kTRANSITION_NONE
  end.

Definition reject_snapshot (market : KalshiMarket) (reason : MarketApplyReason) : MarketApplyResult * KalshiMarket :=
  let previous_state := bk_sync_state (km_book market) in
  if bool_decide (reason = kINVALID_BOOK_SCALE) then
    (mkMarketApplyResult kREJECTED kTRANSITION_NONE reason, market)
  else
    (mkMarketApplyResult kREJECTED (invalidation_transition previous_state) reason,
     market ⟪ km_book ::= invalidate ⟫).

Definition reject_delta (market : KalshiMarket) (reason : MarketApplyReason) : MarketApplyResult * KalshiMarket :=
  (mkMarketApplyResult kREJECTED
     (if usable (km_book market) then kBECAME_UNUSABLE else kTRANSITION_NONE) reason,
   market ⟪ km_book ::= invalidate ⟫).

Definition apply_snapshot (alloc_ok : bool) (market : KalshiMarket) (e : KalshiSnapshotEvent)
    : MarketApplyResult * KalshiMarket :=
  match set_index_grid alloc_ok (default_KalshiBook ⟪ bk_scale := bk_scale (km_book market) ⟫) with
  | (false, _) => reject_snapshot market kINVALID_BOOK_SCALE
  | (true, candidate) =>
      match install_levels candidate (bk_bids candidate) (se_bids e) with
      | None => reject_snapshot market kINVALID_PRICE
      | Some bids =>
          let candidate := candidate ⟪ bk_bids := bids ⟫ in
          match install_levels candidate (bk_asks candidate) (se_asks e) with
          | None => reject_snapshot market kINVALID_PRICE
          | Some asks =>
              let candidate := candidate ⟪ bk_asks := asks ⟫ ⟪ bk_sync_state := kSYNCHRONIZED ⟫ in
              let became_usable := negb (usable (km_book market)) in
              let prev_sync_state := bk_sync_state (km_book market) in
              (mkMarketApplyResult kAPPLIED
                 (if became_usable then
                    match prev_sync_state with
                    | kAWAITING_INITIAL_SNAPSHOT => kINITIAL_SNAPSHOT_INSTALLED
                    | _ => kRECOVERED
                    end
                  else kTRANSITION_NONE) kAPPLY_NONE,
               market ⟪ km_book := candidate ⟫)
          end
      end
  end.

(** The arithmetic on a level, the same for bids and asks.  The magnitude of a
    negative delta is computed without negating the smallest [int64_t]. *)
Definition adjust_level (level delta_qty_lots : Z) : MarketApplyReason + Z :=
  if delta_qty_lots <? 0 then
    let remove_qty := u64 (u64 (- (delta_qty_lots + 1)) + 1) in
    if level <? remove_qty then inl kNEGATIVE_LEVEL else inr (u64 (level - remove_qty))
  else
    let add_qty := u64 delta_qty_lots in
    if level >? U64_MAX - add_qty then inl kOVERFLOW else inr (u64 (level + add_qty)).

Definition apply_delta (market : KalshiMarket) (e : KalshiDeltaData) : MarketApplyResult * KalshiMarket :=
  let book := km_book market in
  match bk_sync_state book with
  | kAWAITING_INITIAL_SNAPSHOT =>
      (mkMarketApplyResult kIGNORED kTRANSITION_NONE kMISSING_INITIAL_SNAPSHOT, market)
  | kAWAITING_RECOVERY_SNAPSHOT =>
      (mkMarketApplyResult kIGNORED kTRANSITION_NONE kMISSING_RECOVERY_SNAPSHOT, market)
  | kSYNCHRONIZED =>
      match get_index book (dd_price_ticks e) with
      | None => reject_delta market kINVALID_PRICE
      | Some index =>
          let i := Z.to_nat index in
          match dd_side e with
          | kBID =>
              match adjust_level (default 0 (bk_bids book !! i)) (dd_delta_qty_lots e) with
              | inl reason => reject_delta market reason
              | inr q => (default_MarketApplyResult,
                          market ⟪ km_book := book ⟪ bk_bids ::= <[i := q]> ⟫ ⟫)
              end
          | kASK =>
              match adjust_level (default 0 (bk_asks book !! i)) (dd_delta_qty_lots e) with
              | inl reason => reject_delta market reason
              | inr q => (default_MarketApplyResult,
                          market ⟪ km_book := book ⟪ bk_asks ::= <[i := q]> ⟫ ⟫)
              end
          | kSIDE_UNKNOWN => reject_delta market kINVALID_SIDE
          end
      end
  end.

(** Trades and lifecycle messages do not touch the book. *)
Definition apply_trade (market : KalshiMarket) (e : KalshiTradeData) : MarketApplyResult * KalshiMarket :=
  (mkMarketApplyResult kAPPLIED kTRANSITION_NONE kAPPLY_NONE, market).
Definition apply_lifecycle (market : KalshiMarket) : MarketApplyResult * KalshiMarket :=
  (mkMarketApplyResult kAPPLIED kTRANSITION_NONE kAPPLY_NONE, market).

Definition apply_to_market (alloc_ok : bool) (market : KalshiMarket) (parsed : KalshiParsedEvent)
    : MarketApplyResult * KalshiMarket :=
  match parsed with
  | ParsedSnapshot e => apply_snapshot alloc_ok market e
  | ParsedDelta e => apply_delta market e
  | ParsedTrade e => apply_trade market e
  | ParsedLifecycle => apply_lifecycle market
  | ParsedMonostate => (mkMarketApplyResult kREJECTED kTRANSITION_NONE kUNKNOWN_EVENT_TYPE, market)
  end.

Definition is_book_message (parsed : KalshiParsedEvent) : bool :=
  match parsed with ParsedSnapshot _ | ParsedDelta _ => true | _ => false end.

(** ** The event: markets and revision *)

Definition update_market (e : EventState) (idx : Z) (m : KalshiMarket) : EventState :=
  e ⟪ ev_state ::= λ st, st ⟪ ke_markets ::= <[Z.to_nat idx := m]> ⟫ ⟫.

Definition apply (alloc_ok : bool) (idx : Z) (parsed : KalshiParsedEvent) (e : EventState)
    : EventApplyResult * EventState :=
  match ke_markets (ev_state e) !! Z.to_nat idx with
  | None =>
      (mkEventApplyResult kREJECTED kTRANSITION_NONE kINVALID_MARKET_INDEX false false (ev_revision e), e)
  | Some market =>
      let event_was_usable := event_usable e in
      let '(result, market') := apply_to_market alloc_ok market parsed in
      let e := update_market e idx market' in
      let book_changed := is_book_message parsed && bool_decide (ar_disposition result = kAPPLIED) in
      let sync_state_changed := negb (bool_decide (ar_book_sync_transition result = kTRANSITION_NONE)) in
      let e := if book_changed || sync_state_changed then e ⟪ ev_revision ::= λ r, u64 (r + 1) ⟫ else e in
      let event_is_usable := event_usable e in
      (mkEventApplyResult (ar_disposition result) (ar_book_sync_transition result) (ar_reason result)
         book_changed (negb event_was_usable && event_is_usable) (ev_revision e), e)
  end.

Definition get_market (e : EventState) (idx : Z) : option KalshiMarket :=
  ke_markets (ev_state e) !! Z.to_nat idx.

Definition invalidate_market (idx : Z) (reason : BookInvalidationReason) (e : EventState)
    : BookInvalidationResult * EventState :=
  match ke_markets (ev_state e) !! Z.to_nat idx with
  | None =>
      (mkBookInvalidationResult false kTRANSITION_NONE reason kREJECT_INVALID_MARKET_INDEX (ev_revision e), e)
  | Some market =>
      let previous_state := bk_sync_state (km_book market) in
      let e := if bool_decide (previous_state = kAWAITING_RECOVERY_SNAPSHOT) then e
               else update_market e idx (market ⟪ km_book ::= invalidate ⟫) in
      let transition := invalidation_transition previous_state in
      let e := if bool_decide (transition = kTRANSITION_NONE) then e
               else e ⟪ ev_revision ::= λ r, u64 (r + 1) ⟫ in
      (mkBookInvalidationResult true transition reason kINVALIDATION_ACCEPTED (ev_revision e), e)
  end.

Definition count_invalidation (r : BookInvalidationResult) (summary : BookInvalidationSummary)
    : BookInvalidationSummary :=
  if negb (ir_target_found r) then summary
  else
    let summary := summary ⟪ is_targets_found ::= λ n, u64 (n + 1) ⟫ in
    match ir_book_sync_transition r with
    | kBECAME_UNUSABLE => summary ⟪ is_targets_became_unusable ::= λ n, u64 (n + 1) ⟫
    | kRECOVERY_REQUIRED => summary ⟪ is_targets_recovery_required ::= λ n, u64 (n + 1) ⟫
    | kTRANSITION_NONE => summary ⟪ is_targets_already_awaiting_recovery ::= λ n, u64 (n + 1) ⟫
    | kINITIAL_SNAPSHOT_INSTALLED | kRECOVERED => summary
    end.

Fixpoint invalidate_markets (idxs : list Z) (reason : BookInvalidationReason)
    (acc : BookInvalidationSummary * EventState) : BookInvalidationSummary * EventState :=
  match idxs with
  | [] => acc
  | idx :: idxs' =>
      let '(r, e) := invalidate_market idx reason acc.2 in
      invalidate_markets idxs' reason (count_invalidation r acc.1, e)
  end.

Definition invalidate_all_markets (reason : BookInvalidationReason) (e : EventState)
    : BookInvalidationSummary * EventState :=
  invalidate_markets (seqZ 0 (Z.of_nat (length (ke_markets (ev_state e))))) reason
    (default_BookInvalidationSummary, e).

(** ** Observations for strategies *)

(** One depth loop: visit the level indices in [order] until four non-empty
    levels are collected; a level without a price aborts the observation. *)
Fixpoint collect_levels (book : KalshiBook) (levels : list Z) (order : list Z)
    (count : Z) (out : list StrategyBookLevel) : option (Z * list StrategyBookLevel) :=
  match order with
  | [] => Some (count, out)
  | index :: order' =>
      if kStrategyBookDepth <=? count then Some (count, out)
      else
        let quantity := default 0 (levels !! Z.to_nat index) in
        if quantity =? 0 then collect_levels book levels order' count out
        else
          match price_ticks_at_index book index with
          | None => None
          | Some price =>
              collect_levels book levels order' (u8 (count + 1))
                (<[Z.to_nat count := mkStrategyBookLevel price quantity]> out)
          end
  end.

(** Bids are visited from the highest index down, asks from the lowest up. *)
Definition collect_bids (book : KalshiBook) : option (Z * list StrategyBookLevel) :=
  collect_levels book (bk_bids book) (reverse (seqZ 0 (Z.of_nat (length (bk_bids book))))) 0
    (replicate 4 default_StrategyBookLevel).
Definition collect_asks (book : KalshiBook) : option (Z * list StrategyBookLevel) :=
  collect_levels book (bk_asks book) (seqZ 0 (Z.of_nat (length (bk_asks book)))) 0
    (replicate 4 default_StrategyBookLevel).

Definition market_view (m : KalshiMarket) (strike_key : Z) (bids asks : Z * list StrategyBookLevel)
    : StrategyMarketView :=
  mkStrategyMarketView (km_market_id m) (km_event_market_index m) strike_key (km_tradeable m)
    (km_market_time_s m) (km_market_close_time_s m) (km_market_expected_expiration_time_s m)
    (km_market_expiration_time_s m) bids.2 asks.2 bids.1 asks.1.

Definition build_monotonic_pair_observation (idx : Z) (context : StrategyObservationContext)
    (e : EventState) : option MonotonicPairObservation :=
  let markets := ke_markets (ev_state e) in
  if negb (bool_decide (ke_topology (ev_state e) = kMONOTONIC_CHAIN)) then None
  else if negb (event_usable e) then None
  else if (Z.of_nat (length markets) <? 2) || (Z.of_nat (length markets) - 1 <=? idx) then None
  else
    easier ← markets !! Z.to_nat idx;
    harder ← markets !! Z.to_nat (idx + 1);
    if negb (km_event_market_index easier =? idx) || negb (km_event_market_index harder =? idx + 1)
    then None
    else
      easier_key ← km_strike_key easier;
      harder_key ← km_strike_key harder;
      if harder_key <=? easier_key then None
      else
        easier_bids ← collect_bids (km_book easier);
        easier_asks ← collect_asks (km_book easier);
        harder_bids ← collect_bids (km_book harder);
        harder_asks ← collect_asks (km_book harder);
        Some (mkMonotonicPairObservation (oc_universe_version context) (oc_shard_index context)
          (ke_event_id (ev_state e)) (ev_revision e) (oc_ingress_timestamp_ns context)
          (oc_book_apply_timestamp_ns context) (oc_publish_timestamp_ns context)
          (market_view easier easier_key easier_bids easier_asks)
          (market_view harder harder_key harder_bids harder_asks)).

(** ** The event store of a shard *)

Abbreviation EventStore := (list EventState).

Definition initialize (events : list KalshiEvent) : EventStore := make_event <$> events.

Definition get_event (store : EventStore) (idx : Z) : option EventState := store !! Z.to_nat idx.

Definition store_apply (alloc_ok : bool) (handle : FrameHandle) (parsed : KalshiParsedEvent)
    (store : EventStore) : EventApplyResult * EventStore :=
  match store !! Z.to_nat (fh_shard_event_index handle) with
  | None =>
      (default_EventApplyResult ⟪ er_disposition := kREJECTED ⟫ ⟪ er_reason := kINVALID_MARKET_INDEX ⟫, store)
  | Some e =>
      let '(result, e') := apply alloc_ok (fh_event_market_index handle) parsed e in
      (result, <[Z.to_nat (fh_shard_event_index handle) := e']> store)
  end.

Definition store_invalidate_market (shard_event_index event_market_index expected_market_id : Z)
    (reason : BookInvalidationReason) (store : EventStore) : BookInvalidationResult * EventStore :=
  let refuse why := (mkBookInvalidationResult false kTRANSITION_NONE reason why 0, store) in
  match store !! Z.to_nat shard_event_index with
  | None => refuse kREJECT_INVALID_EVENT_INDEX
  | Some e =>
      match get_market e event_market_index with
      | None => refuse kREJECT_INVALID_MARKET_INDEX
      | Some market =>
          if negb (km_market_id market =? expected_market_id) then refuse kREJECT_MARKET_ID_MISMATCH
          else
            let '(result, e') := invalidate_market event_market_index reason e in
            (result, <[Z.to_nat shard_event_index := e']> store)
      end
  end.

Definition add_summary (a b : BookInvalidationSummary) : BookInvalidationSummary :=
  mkBookInvalidationSummary (u64 (is_targets_found a + is_targets_found b))
    (u64 (is_targets_became_unusable a + is_targets_became_unusable b))
    (u64 (is_targets_recovery_required a + is_targets_recovery_required b))
    (u64 (is_targets_already_awaiting_recovery a + is_targets_already_awaiting_recovery b)).

Fixpoint store_invalidate_loop (reason : BookInvalidationReason) (summary : BookInvalidationSummary)
    (store : EventStore) : BookInvalidationSummary * EventStore :=
  match store with
  | [] => (summary, [])
  | e :: store' =>
      let '(r, e') := invalidate_all_markets reason e in
      let '(s, rest) := store_invalidate_loop reason (add_summary summary r) store' in
      (s, e' :: rest)
  end.

Definition store_invalidate_all_markets (reason : BookInvalidationReason) (store : EventStore)
    : BookInvalidationSummary * EventStore :=
  store_invalidate_loop reason default_BookInvalidationSummary store.

(** ** The abstract book *)

(** What a book promises: nothing while it awaits a snapshot, otherwise the
    quantity resting on each side at each price. *)
Definition abook : Type := option (Side → Z → Z).

Definition represents (b : KalshiBook) (a : abook) : Prop :=
  match a with
  | None => usable b = false
  | Some f => usable b = true ∧ ∀ side price, 0 ≤ price → level_at b side price = f side price
  end.

Definition set_level (f : Side → Z → Z) (side : Side) (price q : Z) : Side → Z → Z :=
  λ s p, if bool_decide (s = side ∧ p = price) then q else f s p.

(** A delta must name a side and a price of the grid, and leave a quantity that
    fits; otherwise the book can no longer be trusted. *)
Definition abook_delta (d : Z) (f : Side → Z → Z) (e : KalshiDeltaData) : abook :=
  let q := f (dd_side e) (dd_price_ticks e) + dd_delta_qty_lots e in
  if negb (bool_decide (dd_side e = kSIDE_UNKNOWN)) && on_grid d (dd_price_ticks e)
     && (0 <=? q) && (q <=? U64_MAX)
  then Some (set_level f (dd_side e) (dd_price_ticks e) q) else None.

(** The last quantity a snapshot side gives for a price. *)
Definition last_qty (l : list Level) (price : Z) : Z :=
  foldl (λ q lv, if lv_price_ticks lv =? price then lv_qty_lots lv else q) 0 l.

Definition snapshot_contents (e : KalshiSnapshotEvent) (side : Side) (price : Z) : Z :=
  match side with
  | kBID => last_qty (se_bids e) price
  | kASK => last_qty (se_asks e) price
  | kSIDE_UNKNOWN => 0
  end.

Definition abook_snapshot (d : Z) (e : KalshiSnapshotEvent) : abook :=
  if forallb (λ lv, on_grid d (lv_price_ticks lv)) (se_bids e ++ se_asks e)
  then Some (snapshot_contents e) else None.

(** One message: [grid] is the divisor of the market's price grid, if the grid
    is known.  A snapshot that cannot be stored leaves the book as it was. *)
Definition abook_step (grid : option Z) (alloc_ok : bool) (a : abook) (parsed : KalshiParsedEvent) : abook :=
  match parsed, grid with
  | ParsedSnapshot e, Some d => if alloc_ok then abook_snapshot d e else a
  | ParsedDelta e, Some d => f ← a; abook_delta d f e
  | _, _ => a
  end.

Definition grid_of (scale : MarketScale) : option Z := fst <$> grid_parameters scale.

(** The fields of a parsed message have the ranges of their C++ types. *)
Definition level_wf (lv : Level) : Prop := is_u64 (lv_price_ticks lv) ∧ is_u64 (lv_qty_lots lv).
Definition parsed_wf (parsed : KalshiParsedEvent) : Prop :=
  match parsed with
  | ParsedSnapshot e => Forall level_wf (se_bids e) ∧ Forall level_wf (se_asks e)
  | ParsedDelta e => is_u64 (dd_price_ticks e) ∧ is_i64 (dd_delta_qty_lots e)
  | _ => True
  end.

(** ** Deltas *)

Lemma adjust_level_spec level delta : is_u64 level → is_i64 delta →
  adjust_level level delta =
    if level + delta <? 0 then inl kNEGATIVE_LEVEL
    else if U64_MAX <? level + delta then inl kOVERFLOW else inr (level + delta).
Proof.
  unfold is_u64, is_i64, adjust_level. intros Hl Hd. destruct (Z.ltb_spec delta 0).
  - rewrite (u64_id (- (delta + 1))) by (unfold is_u64; lia).
    rewrite u64_id by (unfold is_u64; lia).
    destruct (Z.ltb_spec level (- (delta + 1) + 1)), (Z.ltb_spec (level + delta) 0); try lia; [done|].
    rewrite u64_id by (unfold is_u64; lia).
    destruct (Z.ltb_spec U64_MAX (level + delta)); [lia|]. f_equal. lia.
  - rewrite (u64_id delta) by (unfold is_u64; lia). rewrite Z.gtb_ltb.
    destruct (Z.ltb_spec (U64_MAX - delta) level), (Z.ltb_spec (level + delta) 0),
      (Z.ltb_spec U64_MAX (level + delta)); try lia; [done|].
    f_equal. apply u64_id. unfold is_u64. lia.
Qed.

Definition with_side (b : KalshiBook) (side : Side) (f : list Z → list Z) : KalshiBook :=
  match side with
  | kBID => b ⟪ bk_bids ::= f ⟫ | kASK => b ⟪ bk_asks ::= f ⟫ | kSIDE_UNKNOWN => b
  end.

(** The two copies of the delta code are one function of the side. *)
Lemma apply_delta_sides market e : bk_sync_state (km_book market) = kSYNCHRONIZED →
  apply_delta market e =
    match get_index (km_book market) (dd_price_ticks e) with
    | None => reject_delta market kINVALID_PRICE
    | Some index =>
        if bool_decide (dd_side e = kSIDE_UNKNOWN) then reject_delta market kINVALID_SIDE
        else
          match adjust_level (default 0 (side_levels (km_book market) (dd_side e) !! Z.to_nat index))
                  (dd_delta_qty_lots e) with
          | inl reason => reject_delta market reason
          | inr q => (default_MarketApplyResult,
                      market ⟪ km_book := with_side (km_book market) (dd_side e) <[Z.to_nat index := q]> ⟫)
          end
    end.
Proof.
  intros Hs. unfold apply_delta. rewrite Hs. destruct (get_index _ _) as [i|]; [|done].
  destruct (dd_side e); [done|..]; rewrite bool_decide_eq_false_2 by done; done.
Qed.

Lemma side_levels_with b side side' f : side ≠ kSIDE_UNKNOWN →
  side_levels (with_side b side f) side' =
    if bool_decide (side' = side) then f (side_levels b side') else side_levels b side'.
Proof. by destruct side, side'. Qed.

Lemma grid_ok_side b side i q d n : grid_ok b d n → grid_ok (with_side b side <[i := q]>) d n.
Proof.
  intros (? & ? & ? & ? & ? & ? & ? & ?).
  destruct side; repeat split; cbn; rewrite ?length_insert; auto.
Qed.

Lemma get_index_side b side f price : get_index (with_side b side f) price = get_index b price.
Proof. by destruct side. Qed.

Lemma side_levels_length b d n side : grid_ok b d n → side ≠ kSIDE_UNKNOWN →
  length (side_levels b side) = Z.to_nat n.
Proof. intros (? & ? & ? & ? & ? & ? & ? & ?) ?. by destruct side. Qed.

(** Writing one level changes the quantity at its price and nothing else. *)
Lemma level_at_write b d n side price q s p : grid_ok b d n → 0 ≤ price → 0 ≤ p →
  side ≠ kSIDE_UNKNOWN → on_grid d price = true →
  level_at (with_side b side <[Z.to_nat (price / d) := q]>) s p = set_level (level_at b) side price q s p.
Proof.
  intros Hg Hpr Hp Hside Hon. pose proof Hg as (Hpar & _). apply grid_parameters_shape in Hpar.
  destruct (on_grid_index d n price Hpar Hpr Hon) as [Hidx Hmul].
  unfold level_at, set_level. rewrite get_index_side, side_levels_with by done.
  rewrite (get_index_spec b d n p) by done.
  destruct (on_grid d p) eqn:Hon'.
  - destruct (on_grid_index d n p Hpar Hp Hon') as [Hidx' Hmul'].
    case_bool_decide as E1; case_bool_decide as E2; [| |tauto|done].
    + destruct E2 as [_ ->]. subst. rewrite list_lookup_insert_eq; [done|].
      rewrite (side_levels_length b d n) by done. lia.
    + subst. rewrite list_lookup_insert_ne; [done|]. intros E. apply E2. split; [done|].
      apply Z2Nat.inj in E; [|lia..].
      rewrite Hmul, Hmul'. congruence.
  - rewrite bool_decide_eq_false_2; [done|]. intros [-> ->]. congruence.
Qed.

Lemma Forall_insert_u64 (l : list Z) i q : Forall is_u64 l → is_u64 q → Forall is_u64 (<[i := q]> l).
Proof. intros Hl Hq. apply Forall_insert; done. Qed.

Lemma level_at_u64 b side price : book_wf b → usable b = true → is_u64 (level_at b side price).
Proof.
  intros [_ H] Hu. destruct (H Hu) as (_ & Hb & Ha). unfold level_at.
  assert (Forall is_u64 (side_levels b side)) as Hs by (destruct side; cbn; auto).
  destruct (get_index b price) as [i|]; [|unfold is_u64; lia].
  destruct (side_levels b side !! Z.to_nat i) eqn:E; [|unfold is_u64; cbn; lia].
  apply (Forall_lookup_1 _ _ _ _ Hs E).
Qed.

Lemma grid_of_wf b : book_wf b → usable b = true →
  ∃ d n, grid_ok b d n ∧ grid_of (bk_scale b) = Some d.
Proof.
  intros [_ H] Hu. destruct (H Hu) as ((d & n & Hg) & _). exists d, n. split; [done|].
  unfold grid_of. destruct Hg as (-> & _). done.
Qed.

Lemma delta_accepted b d n f e q : grid_ok b d n → book_wf b → represents b (Some f) →
  dd_side e ≠ kSIDE_UNKNOWN → 0 ≤ dd_price_ticks e → on_grid d (dd_price_ticks e) = true → is_u64 q →
  let b' := with_side b (dd_side e) <[Z.to_nat (dd_price_ticks e / d) := q]> in
  book_wf b' ∧ represents b' (Some (set_level f (dd_side e) (dd_price_ticks e) q)).
Proof.
  intros Hg [Hinv Hwf] [Hu Hf] Hside Hp Hon Hq b'.
  assert (usable b' = true) as Hu' by (unfold b'; by destruct (dd_side e)).
  destruct (Hwf Hu) as (_ & Hb & Ha). split; split.
  - unfold b'. by destruct (dd_side e).
  - intros _. split; [exists d, n; by apply grid_ok_side|].
    unfold b'. destruct (dd_side e); cbn; auto using Forall_insert_u64.
  - done.
  - intros s p Hp'. unfold b'. rewrite (level_at_write b d n) by done.
    unfold set_level. case_bool_decide; [done|by apply Hf].
Qed.

Lemma reject_delta_refines m reason : book_wf (km_book m) →
  book_wf (km_book (reject_delta m reason).2) ∧ represents (km_book (reject_delta m reason).2) None.
Proof. intros Hwf. split; [by apply invalidate_wf|apply invalidate_unusable]. Qed.

Lemma apply_delta_refines alloc_ok m e a : book_wf (km_book m) → parsed_wf (ParsedDelta e) →
  represents (km_book m) a →
  book_wf (km_book (apply_delta m e).2) ∧
  represents (km_book (apply_delta m e).2)
    (abook_step (grid_of (bk_scale (km_book m))) alloc_ok a (ParsedDelta e)).
Proof.
  intros Hwf [Hp Hd] Hrep. destruct a as [f|]; cbn in Hrep.
  - destruct Hrep as [Hu Hf]. destruct (grid_of_wf _ Hwf Hu) as (d & n & Hg & Hgrid).
    pose proof (proj1 (usable_spec _) Hu) as Hs. rewrite apply_delta_sides by done. cbn. rewrite Hgrid. cbn.
    rewrite (get_index_spec _ d n) by (done || apply Hp). unfold abook_delta.
    rewrite <- Hf by apply Hp.
    destruct (on_grid d (dd_price_ticks e)) eqn:Hon;
      [|rewrite andb_false_r; by apply reject_delta_refines].
    case_bool_decide as Hside; [by apply reject_delta_refines|cbn [negb andb]].
    pose proof (level_at_u64 _ (dd_side e) (dd_price_ticks e) Hwf Hu) as Hq.
    unfold level_at in Hq |- *. rewrite (get_index_spec _ d n), Hon in Hq |- * by (done || apply Hp).
    rewrite adjust_level_spec by done.
    set (q := default 0 _ + _). destruct (Z.ltb_spec q 0), (Z.leb_spec 0 q); try lia;
      [by apply reject_delta_refines|].
    destruct (Z.ltb_spec U64_MAX q), (Z.leb_spec q U64_MAX); try lia; [by apply reject_delta_refines|].
    apply (delta_accepted _ d n f e q); try done; apply Hp.
  - assert (bk_sync_state (km_book m) ≠ kSYNCHRONIZED) as Hs
      by (intros E; apply usable_spec in E; congruence).
    unfold apply_delta. destruct (bk_sync_state (km_book m)) eqn:E; [|done|]; cbn;
      (split; [done|]); by destruct (grid_of _).
Qed.
(** ** Snapshots *)

Definition write_qty (price : Z) (q : Z) (lv : Level) : Z :=
  if lv_price_ticks lv =? price then lv_qty_lots lv else q.

Lemma install_level_spec b d n levels lv : grid_ok b d n → length levels = Z.to_nat n → 0 ≤ lv_price_ticks lv →
  install_level b levels lv =
    if on_grid d (lv_price_ticks lv)
    then Some (<[Z.to_nat (lv_price_ticks lv / d) := lv_qty_lots lv]> levels) else None.
Proof.
  intros Hg Hl Hp. unfold install_level. rewrite (get_index_spec b d n) by done.
  destruct (on_grid d _) eqn:E; [|done]. pose proof Hg as (Hpar & _).
  apply grid_parameters_shape in Hpar. destruct (on_grid_index d n _ Hpar Hp E).
  destruct (Z.leb_spec (Z.of_nat (length levels)) (lv_price_ticks lv / d)); [lia|done].
Qed.

Lemma install_levels_spec b d n l levels : grid_ok b d n → length levels = Z.to_nat n →
  Forall level_wf l → Forall is_u64 levels →
  match install_levels b levels l with
  | None => forallb (λ lv, on_grid d (lv_price_ticks lv)) l = false
  | Some levels' =>
      forallb (λ lv, on_grid d (lv_price_ticks lv)) l = true ∧
      length levels' = Z.to_nat n ∧ Forall is_u64 levels' ∧
      ∀ price, 0 ≤ price → on_grid d price = true →
        default 0 (levels' !! Z.to_nat (price / d)) =
        foldl (write_qty price) (default 0 (levels !! Z.to_nat (price / d))) l
  end.
Proof.
  intros Hg Hl Hwf. revert levels Hl. induction Hwf as [|lv l [Hlp Hlq] Hwf IH]; intros levels Hl Hu; cbn; [done|].
  rewrite (install_level_spec b d n) by (done || apply Hlp).
  destruct (on_grid d (lv_price_ticks lv)) eqn:Hon; cbn; [|done].
  pose proof Hg as (Hpar & _). apply grid_parameters_shape in Hpar.
  destruct (on_grid_index d n _ Hpar (proj1 Hlp) Hon) as [Hi Hm].
  specialize (IH (<[Z.to_nat (lv_price_ticks lv / d) := lv_qty_lots lv]> levels)).
  rewrite length_insert in IH. specialize (IH Hl (Forall_insert_u64 _ _ _ Hu Hlq)).
  destruct (install_levels b _ l) as [levels'|]; [|done].
  destruct IH as (H1 & H2 & H3 & H4). split; [done|]. split; [done|]. split; [done|].
  intros price Hp Hpon. rewrite H4 by done. f_equal. unfold write_qty.
  destruct (on_grid_index d n price Hpar Hp Hpon) as [Hi' Hm'].
  destruct (Z.eqb_spec (lv_price_ticks lv) price) as [E|E].
  - rewrite <- E, list_lookup_insert_eq by lia. done.
  - rewrite list_lookup_insert_ne; [done|]. intros Eq. apply E.
    apply Z2Nat.inj in Eq; [|lia..]. rewrite Hm, Hm'. congruence.
Qed.

Lemma last_qty_off_grid d l price : forallb (λ lv, on_grid d (lv_price_ticks lv)) l = true →
  on_grid d price = false → last_qty l price = 0.
Proof.
  intros Hl Hp. unfold last_qty. revert Hl.
  induction l as [|lv l IH]; cbn; intros Hl; [done|]. apply andb_prop in Hl as [H1 H2].
  destruct (Z.eqb_spec (lv_price_ticks lv) price); [congruence|by apply IH].
Qed.

Lemma level_at_side b d n l side price : grid_ok b d n → 0 ≤ price →
  forallb (λ lv, on_grid d (lv_price_ticks lv)) l = true →
  (∀ p, 0 ≤ p → on_grid d p = true →
     default 0 (side_levels b side !! Z.to_nat (p / d)) = last_qty l p) →
  level_at b side price = last_qty l price.
Proof.
  intros Hg Hp Hl Hside. unfold level_at. rewrite (get_index_spec b d n) by done.
  destruct (on_grid d price) eqn:E; [by apply Hside|].
  by rewrite (last_qty_off_grid d).
Qed.

Lemma set_index_grid_cases alloc_ok scale :
  let r := set_index_grid alloc_ok (default_KalshiBook ⟪ bk_scale := scale ⟫) in
  match (if alloc_ok then grid_parameters scale else None) with
  | None => r.1 = false
  | Some (d, n) => r.1 = true ∧ grid_ok r.2 d n ∧ bk_bids r.2 = replicate (Z.to_nat n) 0 ∧
      bk_asks r.2 = replicate (Z.to_nat n) 0 ∧ bk_scale r.2 = scale
  end.
Proof.
  intros r. destruct (grid_parameters scale) as [[d n]|] eqn:E, alloc_ok;
    try (unfold r, set_index_grid; cbn; rewrite E; done).
  assert (r.1 = true) as Hr.
  { unfold r, set_index_grid. cbn [bk_scale upd]. cbn. rewrite E. by destruct (foldl _ _ _). }
  split; [done|]. pose proof (surjective_pairing r) as Hpair. rewrite Hr in Hpair.
  pose proof (set_index_grid_ok (default_KalshiBook ⟪ bk_scale := scale ⟫) d n r.2 eq_refl E Hpair)
    as (? & ? & ? & ? & ?). done.
Qed.

Lemma forallb_app_andb {A} (f : A → bool) l1 l2 : forallb f (l1 ++ l2) = forallb f l1 && forallb f l2.
Proof. apply forallb_app. Qed.

Lemma lookup_zeros n i : default 0 (replicate n 0 !! i) = 0.
Proof. destruct (_ !! _) eqn:E; [|done]. by apply lookup_replicate in E as [-> _]. Qed.

Lemma zeros_u64 n : Forall is_u64 (replicate n 0).
Proof. apply Forall_replicate. unfold is_u64. lia. Qed.

Lemma reject_snapshot_refines m : book_wf (km_book m) →
  book_wf (km_book (reject_snapshot m kINVALID_PRICE).2) ∧
  represents (km_book (reject_snapshot m kINVALID_PRICE).2) None.
Proof. intros Hwf. split; [by apply invalidate_wf|apply invalidate_unusable]. Qed.

Lemma snapshot_candidate d n b bids asks e : grid_ok b d n → bk_invalid_index b = kInvalidBookIndex →
  length bids = Z.to_nat n → length asks = Z.to_nat n → Forall is_u64 bids → Forall is_u64 asks →
  forallb (λ lv, on_grid d (lv_price_ticks lv)) (se_bids e) = true →
  forallb (λ lv, on_grid d (lv_price_ticks lv)) (se_asks e) = true →
  (∀ p, 0 ≤ p → on_grid d p = true → default 0 (bids !! Z.to_nat (p / d)) = last_qty (se_bids e) p) →
  (∀ p, 0 ≤ p → on_grid d p = true → default 0 (asks !! Z.to_nat (p / d)) = last_qty (se_asks e) p) →
  let b' := b ⟪ bk_bids := bids ⟫ ⟪ bk_asks := asks ⟫ ⟪ bk_sync_state := kSYNCHRONIZED ⟫ in
  book_wf b' ∧ represents b' (Some (snapshot_contents e)).
Proof.
  intros Hg Hinv Hlb Hla Hub Hua Hfb Hfa Hb Ha b'.
  assert (grid_ok b' d n) as Hg'.
  { destruct Hg as (? & ? & ? & ? & ? & ? & ? & ?). repeat split; done. }
  split; split; [done|intros _; split; [by exists d, n|done]|done|].
  intros side price Hp. destruct side; cbn [snapshot_contents].
  - unfold level_at. by destruct (get_index b' price).
  - by apply (level_at_side b' d n).
  - by apply (level_at_side b' d n).
Qed.

Lemma apply_snapshot_refines alloc_ok m e a : book_wf (km_book m) → parsed_wf (ParsedSnapshot e) →
  represents (km_book m) a →
  book_wf (km_book (apply_snapshot alloc_ok m e).2) ∧
  represents (km_book (apply_snapshot alloc_ok m e).2)
    (abook_step (grid_of (bk_scale (km_book m))) alloc_ok a (ParsedSnapshot e)).
Proof.
  intros Hwf [Hwb Hwa] Hrep. unfold apply_snapshot.
  pose proof (set_index_grid_cases alloc_ok (bk_scale (km_book m))) as Hset.
  destruct (set_index_grid _ _) as [ok b0]. unfold grid_of.
  destruct alloc_ok, (grid_parameters (bk_scale (km_book m))) as [[d n]|]; cbn in Hset |- *;
    try (subst ok; done).
  destruct Hset as (-> & Hg & Hb0 & Ha0 & Hsc). unfold abook_snapshot. rewrite forallb_app_andb.
  pose proof Hg as (_ & Hinv & _ & _ & _ & _ & _).
  pose proof (install_levels_spec b0 d n (se_bids e) (bk_bids b0) Hg) as Hib.
  rewrite Hb0 in Hib |- *. specialize (Hib (length_replicate _ _) Hwb (zeros_u64 _)).
  destruct (install_levels b0 _ (se_bids e)) as [bids|].
  2: { rewrite Hib. by apply reject_snapshot_refines. }
  destruct Hib as (Hfb & Hlb & Hub & Hqb). rewrite Hfb.
  assert (grid_ok (b0 ⟪ bk_bids := bids ⟫) d n) as Hg1.
  { destruct Hg as (? & ? & ? & ? & ? & ? & ? & ?). repeat split; done. }
  pose proof (install_levels_spec (b0 ⟪ bk_bids := bids ⟫) d n (se_asks e) (bk_asks b0) Hg1) as Hia.
  cbn [bk_asks upd] in Hia |- *. cbn in Hia |- *.
  rewrite Ha0 in Hia |- *. specialize (Hia (length_replicate _ _) Hwa (zeros_u64 _)).
  destruct (install_levels _ _ (se_asks e)) as [asks|].
  2: { rewrite Hia. by apply reject_snapshot_refines. }
  destruct Hia as (Hfa & Hla & Hua & Hqa). rewrite Hfa.
  apply (snapshot_candidate d n b0 bids asks e); try done.
  - intros p Hp Hon. rewrite Hqb, lookup_zeros by done. done.
  - intros p Hp Hon. rewrite Hqa, lookup_zeros by done. done.
Qed.

Lemma apply_to_market_refines alloc_ok m parsed a : book_wf (km_book m) → parsed_wf parsed →
  represents (km_book m) a →
  let m' := (apply_to_market alloc_ok m parsed).2 in
  book_wf (km_book m') ∧
  represents (km_book m') (abook_step (grid_of (bk_scale (km_book m))) alloc_ok a parsed).
Proof.
  intros Hwf Hp Hrep. destruct parsed; [|by apply apply_snapshot_refines|by apply apply_delta_refines|..];
    by split; cbn; try destruct (grid_of (bk_scale (km_book m))).
Qed.

Lemma apply_to_market_scale alloc_ok m parsed :
  bk_scale (km_book (apply_to_market alloc_ok m parsed).2) = bk_scale (km_book m).
Proof.
  destruct parsed as [|e|e|e|]; cbn; [done|..|done|done].
  - unfold apply_snapshot.
    pose proof (set_index_grid_cases alloc_ok (bk_scale (km_book m))) as Hset.
    destruct (set_index_grid _ _) as [[] b0]; [|done]. cbn in Hset.
    destruct (if alloc_ok then _ else _) as [[d n]|]; [|done].
    destruct Hset as (_ & _ & _ & _ & Hsc).
    destruct (install_levels b0 _ _); [|done]. by destruct (install_levels _ _ _).
  - unfold apply_delta. destruct (bk_sync_state _); [done| |done].
    destruct (get_index _ _); [|done]. destruct (dd_side e); [done|..]; by destruct (adjust_level _ _).
Qed.
(** ** Synchronization transitions *)

(** The transition between two synchronization states; the code never goes back
    to awaiting the initial snapshot. *)
Definition transition_between (before after : BookSyncState) : BookSyncTransition :=
  match before, after with
  | kAWAITING_INITIAL_SNAPSHOT, kSYNCHRONIZED => kINITIAL_SNAPSHOT_INSTALLED
  | kAWAITING_RECOVERY_SNAPSHOT, kSYNCHRONIZED => kRECOVERED
  | kSYNCHRONIZED, kAWAITING_RECOVERY_SNAPSHOT => kBECAME_UNUSABLE
  | kAWAITING_INITIAL_SNAPSHOT, kAWAITING_RECOVERY_SNAPSHOT => kRECOVERY_REQUIRED
  | _, _ => kTRANSITION_NONE
  end.

Definition sync_of (m : KalshiMarket) : BookSyncState := bk_sync_state (km_book m).

(** Reported transitions are exactly the changes of the state. *)
Definition sync_step (before after : BookSyncState) (t : BookSyncTransition) : Prop :=
  t = transition_between before after ∧ (t = kTRANSITION_NONE → after = before).

Lemma sync_step_refl s : sync_step s s kTRANSITION_NONE.
Proof. by destruct s. Qed.

Lemma sync_step_invalidate s : sync_step s kAWAITING_RECOVERY_SNAPSHOT (invalidation_transition s).
Proof. by destruct s. Qed.

Lemma apply_snapshot_sync alloc_ok m e :
  let r := apply_snapshot alloc_ok m e in
  sync_step (sync_of m) (sync_of r.2) (ar_book_sync_transition r.1) ∧
  (ar_disposition r.1 = kAPPLIED ↔ ar_reason r.1 = kAPPLY_NONE) ∧
  (ar_disposition r.1 = kAPPLIED → sync_of r.2 = kSYNCHRONIZED) ∧ ar_disposition r.1 ≠ kIGNORED.
Proof.
  assert (∀ reason, reason ≠ kAPPLY_NONE →
    let r := reject_snapshot m reason in
    sync_step (sync_of m) (sync_of r.2) (ar_book_sync_transition r.1) ∧
    (ar_disposition r.1 = kAPPLIED ↔ ar_reason r.1 = kAPPLY_NONE) ∧
    (ar_disposition r.1 = kAPPLIED → sync_of r.2 = kSYNCHRONIZED) ∧ ar_disposition r.1 ≠ kIGNORED) as Hrej.
  { intros reason Hr. unfold reject_snapshot. case_bool_decide; cbn;
      (split; [apply sync_step_refl || apply sync_step_invalidate|done]). }
  cbn zeta. unfold apply_snapshot. destruct (set_index_grid _ _) as [[] b0]; [|by apply Hrej].
  destruct (install_levels b0 _ _); [|by apply Hrej]. destruct (install_levels _ _ _); [|by apply Hrej].
  cbn. split; [|done]. unfold sync_of, usable. by destruct (bk_sync_state (km_book m)).
Qed.

Lemma reject_delta_sync m reason : sync_of m = kSYNCHRONIZED →
  sync_step (sync_of m) (sync_of (reject_delta m reason).2)
    (ar_book_sync_transition (reject_delta m reason).1).
Proof. unfold sync_of, reject_delta, usable. intros ->. by cbn. Qed.

Lemma apply_delta_sync m e :
  sync_step (sync_of m) (sync_of (apply_delta m e).2) (ar_book_sync_transition (apply_delta m e).1).
Proof.
  pose proof (reject_delta_sync m) as Hrej. unfold apply_delta.
  change (bk_sync_state (km_book m)) with (sync_of m) in *.
  destruct (sync_of m) eqn:E; cbn; rewrite ?E; [apply sync_step_refl| |apply sync_step_refl].
  destruct (get_index _ _); [|by apply Hrej].
  destruct (dd_side e); [by apply Hrej|..]; (destruct (adjust_level _ _); [by apply Hrej|]);
    unfold sync_of in *; cbn; rewrite E; apply sync_step_refl.
Qed.

Lemma apply_to_market_sync alloc_ok m parsed :
  sync_step (sync_of m) (sync_of (apply_to_market alloc_ok m parsed).2)
    (ar_book_sync_transition (apply_to_market alloc_ok m parsed).1).
Proof.
  destruct parsed; [|apply apply_snapshot_sync|apply apply_delta_sync|..]; apply sync_step_refl.
Qed.

(** ** Runs of an event *)

Inductive event_op :=
  | OpApply (alloc_ok : bool) (idx : Z) (parsed : KalshiParsedEvent)
  | OpInvalidate (idx : Z) (reason : BookInvalidationReason).

Definition op_index (op : event_op) : Z :=
  match op with OpApply _ idx _ | OpInvalidate idx _ => idx end.

Definition op_wf (op : event_op) : Prop :=
  is_u32 (op_index op) ∧ match op with OpApply _ _ parsed => parsed_wf parsed | _ => True end.

Definition exec (op : event_op) (e : EventState) : BookSyncTransition * EventState :=
  match op with
  | OpApply ok idx parsed => let '(r, e') := apply ok idx parsed e in (er_book_sync_transition r, e')
  | OpInvalidate idx reason =>
      let '(r, e') := invalidate_market idx reason e in (ir_book_sync_transition r, e')
  end.

Fixpoint exec_all (ops : list event_op) (e : EventState) : EventState :=
  match ops with [] => e | op :: ops' => exec_all ops' (exec op e).2 end.

(** What an operation does to the market it addresses. *)
Definition market_step (op : event_op) (m : KalshiMarket) : KalshiMarket :=
  match op with
  | OpApply ok _ parsed => (apply_to_market ok m parsed).2
  | OpInvalidate _ _ =>
      if bool_decide (sync_of m = kAWAITING_RECOVERY_SNAPSHOT) then m else m ⟪ km_book ::= invalidate ⟫
  end.

(** Whether it announces a change: a book update or a transition. *)
Definition announces (op : event_op) (m : KalshiMarket) : bool :=
  match op with
  | OpApply ok _ parsed =>
      let r := (apply_to_market ok m parsed).1 in
      is_book_message parsed && bool_decide (ar_disposition r = kAPPLIED)
      || negb (bool_decide (ar_book_sync_transition r = kTRANSITION_NONE))
  | OpInvalidate _ _ => negb (bool_decide (sync_of m = kAWAITING_RECOVERY_SNAPSHOT))
  end.

Definition markets_of (e : EventState) : list KalshiMarket := ke_markets (ev_state e).

Lemma exec_spec op e :
  match markets_of e !! Z.to_nat (op_index op) with
  | None => exec op e = (kTRANSITION_NONE, e)
  | Some m =>
      markets_of (exec op e).2 = <[Z.to_nat (op_index op) := market_step op m]> (markets_of e) ∧
      ev_revision (exec op e).2 = (if announces op m then u64 (ev_revision e + 1) else ev_revision e) ∧
      sync_step (sync_of m) (sync_of (market_step op m)) (exec op e).1
  end.
Proof.
  destruct op as [ok idx parsed|idx reason]; cbn [op_index exec]; unfold markets_of.
  - unfold apply. destruct (ke_markets (ev_state e) !! Z.to_nat idx) as [m|]; [|done].
    pose proof (apply_to_market_sync ok m parsed) as Hs.
    cbn [market_step announces]. destruct (apply_to_market ok m parsed) as [r m']. cbn in Hs |- *.
    destruct (_ || _) eqn:E; cbn; done.
  - unfold invalidate_market. destruct (ke_markets (ev_state e) !! Z.to_nat idx) as [m|] eqn:Hm; [|done].
    cbn [market_step announces]. change (bk_sync_state (km_book m)) with (sync_of m).
    destruct (decide (sync_of m = kAWAITING_RECOVERY_SNAPSHOT)) as [E|E].
    + rewrite E. cbn. rewrite list_insert_id by done.
      split; [done|]. split; [done|].
      rewrite bool_decide_eq_true_2, E by done. apply sync_step_refl.
    + rewrite !(bool_decide_eq_false_2 _ E), bool_decide_eq_false_2 by (destruct (sync_of m); done). cbn.
      split; [done|split; [done|apply sync_step_invalidate]].
Qed.

(** The abstract counterpart of an operation, for market [i]. *)
Definition astep (scale : MarketScale) (i : Z) (a : abook) (op : event_op) : abook :=
  if op_index op =? i then
    match op with
    | OpApply ok _ parsed => abook_step (grid_of scale) ok a parsed
    | OpInvalidate _ _ => None
    end
  else a.

Definition tracks (e : EventState) (i : Z) (scale : MarketScale) (a : abook) : Prop :=
  ∃ m, markets_of e !! Z.to_nat i = Some m ∧ bk_scale (km_book m) = scale ∧
       book_wf (km_book m) ∧ represents (km_book m) a.

Lemma market_step_refines op m a : op_wf op → book_wf (km_book m) → represents (km_book m) a →
  book_wf (km_book (market_step op m)) ∧
  represents (km_book (market_step op m)) (astep (bk_scale (km_book m)) (op_index op) a op) ∧
  bk_scale (km_book (market_step op m)) = bk_scale (km_book m).
Proof.
  intros [_ Hop] Hwf Hrep. unfold astep. rewrite Z.eqb_refl. destruct op as [ok idx parsed|idx reason].
  - destruct (apply_to_market_refines ok m parsed a Hwf Hop Hrep).
    split; [done|]. split; [done|apply apply_to_market_scale].
  - unfold market_step. case_bool_decide as E.
    + split; [done|]. split; [|done]. cbn. unfold usable, sync_of in *. by rewrite E.
    + split; [by apply invalidate_wf|]. split; [apply invalidate_unusable|done].
Qed.

Lemma exec_tracks op e i scale a : op_wf op → 0 ≤ i → tracks e i scale a →
  tracks (exec op e).2 i scale (astep scale i a op).
Proof.
  intros Hop Hi (m & Hm & Hsc & Hwf & Hrep). pose proof (exec_spec op e) as Hx.
  destruct Hop as [Hidx Hop']. destruct (Z.eq_dec (op_index op) i) as [<-|Hne].
  - rewrite Hm in Hx. destruct Hx as (Hms & _). subst scale.
    destruct (market_step_refines op m a (conj Hidx Hop') Hwf Hrep) as (? & ? & ?).
    exists (market_step op m). rewrite Hms, list_lookup_insert_eq by by eapply lookup_lt_Some. done.
  - unfold astep. rewrite (proj2 (Z.eqb_neq _ _)) by done. exists m.
    split; [|done]. destruct (markets_of e !! Z.to_nat (op_index op)) as [m'|].
    + destruct Hx as (-> & _). rewrite list_lookup_insert_ne; [done|].
      intros E. apply Z2Nat.inj in E; unfold is_u32 in Hidx; lia.
    + by rewrite Hx.
Qed.

Lemma exec_all_tracks ops e i scale a : Forall op_wf ops → 0 ≤ i → tracks e i scale a →
  tracks (exec_all ops e) i scale (foldl (astep scale i) a ops).
Proof.
  intros Hops Hi. revert e a. induction Hops as [|op ops Hop Hops IH]; intros e a Ht; [done|].
  cbn. apply IH. by apply exec_tracks.
Qed.

(** C5: over any sequence of parsed messages and invalidations, each book of an
    event holds exactly what the feed says: no quantity at all from an
    invalidation (or a rejected message) until the next complete snapshot, and
    after it the snapshot's quantities adjusted by every later delta, with no
    index out of range, no wrap-around and no interference between markets. *)
Theorem books_follow_feed ops e i scale a : Forall op_wf ops → 0 ≤ i → tracks e i scale a →
  tracks (exec_all ops e) i scale (foldl (astep scale i) a ops).
Proof. apply exec_all_tracks. Qed.

(** ** Revisions *)

(** Two books no reader can tell apart. *)
Definition same_view (m m' : KalshiMarket) : Prop :=
  sync_of m = sync_of m' ∧
  (usable (km_book m) = true → ∀ side price, level_at (km_book m) side price = level_at (km_book m') side price).

#[export] Instance same_view_preorder : PreOrder same_view.
Proof.
  split; [done|]. intros m1 m2 m3 [H1 H2] [H3 H4]. split; [congruence|].
  intros Hu side price. rewrite H2 by done. apply H4.
  apply usable_spec. apply usable_spec in Hu. unfold sync_of in H1. congruence.
Qed.

Lemma silent_op_same_view op m : announces op m = false → same_view m (market_step op m).
Proof.
  destruct op as [ok idx parsed|idx reason]; cbn [announces market_step].
  - intros [H1 H2]%orb_false_elim. apply negb_false_iff, bool_decide_eq_true in H2.
    pose proof (apply_to_market_sync ok m parsed) as [_ Hs]. split; [by rewrite Hs|].
    intros Hu. destruct parsed as [|e|e|e|]; [done|..|done|done]; cbn in *;
      apply bool_decide_eq_false in H1.
    + unfold apply_snapshot in *. destruct (set_index_grid _ _) as [[] b0]; [|done].
      unfold reject_snapshot in *. apply usable_spec in Hu. rewrite Hu in *.
      destruct (install_levels b0 _ _); [|done]. by destruct (install_levels _ _ _).
    + unfold apply_delta in *. unfold reject_delta in *. rewrite Hu in *. apply usable_spec in Hu.
      rewrite Hu in *. destruct (get_index _ _); [|done].
      destruct (dd_side e); [done|..]; by destruct (adjust_level _ _).
  - intros H%negb_false_iff. by rewrite H.
Qed.

Definition same_views (e e' : EventState) : Prop := Forall2 same_view (markets_of e) (markets_of e').

#[export] Instance same_views_preorder : PreOrder same_views.
Proof. split; unfold same_views; repeat intro; [done|by etrans]. Qed.

(** [k] announced changes separate two states of an event. *)
Definition revised (k : Z) (e e' : EventState) : Prop :=
  ev_revision e' = u64 (ev_revision e + k) ∧ (k = 0 → same_views e e').

Lemma exec_revision op e : is_u64 (ev_revision e) →
  ∃ k, 0 ≤ k ≤ 1 ∧ revised k e (exec op e).2.
Proof.
  intros Hu. pose proof (exec_spec op e) as Hx. unfold revised.
  destruct (markets_of e !! _) as [m|] eqn:Hm.
  - destruct Hx as (Hms & Hr & _). destruct (announces op m) eqn:Ha.
    + exists 1. split; [lia|]. split; [done|lia].
    + exists 0. rewrite Z.add_0_r, u64_id by done. split; [lia|]. split; [done|]. intros _.
      unfold same_views. rewrite Hms.
      rewrite <- (list_insert_id (markets_of e) (Z.to_nat (op_index op)) m) at 1 by done.
      apply Forall2_insert; [done|by apply silent_op_same_view].
  - rewrite Hx. exists 0. rewrite Z.add_0_r, u64_id by done. split; [lia|]. split; done.
Qed.

Lemma exec_all_revision ops e : is_u64 (ev_revision e) →
  ∃ k, 0 ≤ k ≤ Z.of_nat (length ops) ∧ revised k e (exec_all ops e).
Proof.
  revert e. induction ops as [|op ops IH]; intros e Hu; cbn [exec_all length].
  - exists 0. unfold revised. rewrite Z.add_0_r, u64_id by done. split; [lia|]. split; done.
  - destruct (exec_revision op e Hu) as (k & Hk & Hr & Hv).
    destruct (IH (exec op e).2) as (k' & Hk' & Hr' & Hv'); [rewrite Hr; apply u64_range|].
    exists (k + k'). split; [lia|]. split.
    + rewrite Hr', Hr. unfold u64. rewrite Zplus_mod_idemp_l. f_equal. lia.
    + intros E. etrans; [apply Hv|apply Hv']; lia.
Qed.

(** The revision identifies the visible contents of an event: in any run of
    fewer than 2^64 operations, if the revision is the same at the end as at the
    start then no book changed its synchronization state or any visible level. *)
Theorem revision_identifies_contents ops e : is_u64 (ev_revision e) →
  Z.of_nat (length ops) ≤ U64_MAX → ev_revision (exec_all ops e) = ev_revision e →
  same_views e (exec_all ops e).
Proof.
  intros Hu Hlen Heq. destruct (exec_all_revision ops e Hu) as (k & Hk & Hr & Hv). apply Hv.
  rewrite Hr in Heq. unfold u64, is_u64 in *.
  destruct (Z.le_gt_cases (ev_revision e + k) U64_MAX).
  - rewrite Z.mod_small in Heq; lia.
  - replace (ev_revision e + k) with (ev_revision e + k - 18446744073709551616 + 1 * 18446744073709551616)
      in Heq by lia. rewrite Z_mod_plus_full, Z.mod_small in Heq; lia.
Qed.

(** The transition an operation reports is exactly the change of the
    addressed book's synchronization state, so a client that acts on transitions
    never misses one and never sees one that did not happen. *)
Theorem transitions_are_exact op e m : markets_of e !! Z.to_nat (op_index op) = Some m →
  ∃ m', markets_of (exec op e).2 !! Z.to_nat (op_index op) = Some m' ∧
        (exec op e).1 = transition_between (sync_of m) (sync_of m') ∧
        ((exec op e).1 = kTRANSITION_NONE ↔ sync_of m' = sync_of m).
Proof.
  intros Hm. pose proof (exec_spec op e) as Hx. rewrite Hm in Hx. destruct Hx as (Hms & _ & Ht & Hn).
  exists (market_step op m). rewrite Hms, list_lookup_insert_eq by by eapply lookup_lt_Some.
  split; [done|]. split; [done|]. split; [done|]. intros E. rewrite Ht, E. by destruct (sync_of m).
Qed.
(** ** Invalidating everything *)

Definition all_markets (store : EventStore) : list KalshiMarket := concat (markets_of <$> store).

Definition count_sync (s : BookSyncState) (ms : list KalshiMarket) : Z :=
  Z.of_nat (length (filter (λ m, sync_of m = s) ms)).

(** The summary of markets invalidated on top of a summary [acc]. *)
Definition summary_of (acc : BookInvalidationSummary) (ms : list KalshiMarket) : BookInvalidationSummary :=
  mkBookInvalidationSummary (is_targets_found acc + Z.of_nat (length ms))
    (is_targets_became_unusable acc + count_sync kSYNCHRONIZED ms)
    (is_targets_recovery_required acc + count_sync kAWAITING_INITIAL_SNAPSHOT ms)
    (is_targets_already_awaiting_recovery acc + count_sync kAWAITING_RECOVERY_SNAPSHOT ms).

Definition summary_bounded (k : Z) (s : BookInvalidationSummary) : Prop :=
  0 ≤ is_targets_found s ≤ k ∧ 0 ≤ is_targets_became_unusable s ≤ k ∧
  0 ≤ is_targets_recovery_required s ≤ k ∧ 0 ≤ is_targets_already_awaiting_recovery s ≤ k.

Lemma count_sync_cons s m ms :
  count_sync s (m :: ms) = (if bool_decide (sync_of m = s) then 1 else 0) + count_sync s ms.
Proof. unfold count_sync. rewrite filter_cons. case_decide; case_bool_decide; cbn [length]; [lia|done..]. Qed.

Lemma count_sync_bound s ms : 0 ≤ count_sync s ms ≤ Z.of_nat (length ms).
Proof. unfold count_sync. pose proof (length_filter (λ m, sync_of m = s) ms). lia. Qed.

Lemma count_sync_app s ms ms' : count_sync s (ms ++ ms') = count_sync s ms + count_sync s ms'.
Proof. unfold count_sync. rewrite filter_app, length_app. lia. Qed.

Lemma summary_of_nil acc : summary_of acc [] = acc.
Proof. unfold summary_of, count_sync. destruct acc. cbn. f_equal; lia. Qed.

Lemma summary_of_app acc ms ms' : summary_of (summary_of acc ms) ms' = summary_of acc (ms ++ ms').
Proof. unfold summary_of. rewrite !count_sync_app, length_app. cbn. f_equal; lia. Qed.

Lemma summary_of_bounded k acc ms : summary_bounded k acc →
  summary_bounded (k + Z.of_nat (length ms)) (summary_of acc ms).
Proof.
  intros (? & ? & ? & ?). unfold summary_bounded, summary_of. cbn.
  pose proof (count_sync_bound kSYNCHRONIZED ms). pose proof (count_sync_bound kAWAITING_INITIAL_SNAPSHOT ms).
  pose proof (count_sync_bound kAWAITING_RECOVERY_SNAPSHOT ms). lia.
Qed.

Lemma count_invalidation_step acc m r : summary_bounded (U64_MAX - 1) acc →
  ir_target_found r = true → ir_book_sync_transition r = invalidation_transition (sync_of m) →
  count_invalidation r acc = summary_of acc [m].
Proof.
  intros (? & ? & ? & ?) Hf Ht. unfold count_invalidation, summary_of.
  assert (∀ s, count_sync s [] = 0) as Hnil by done.
  rewrite Hf, Ht, !count_sync_cons, !Hnil.
  destruct (sync_of m); repeat case_bool_decide; try done; destruct acc; unfold upd; cbn in *;
    f_equal; try (apply u64_id; unfold is_u64; lia); try lia.
Qed.

Definition await_recovery (m : KalshiMarket) : KalshiMarket := market_step (OpInvalidate 0 kREASON_NONE) m.

Lemma await_recovery_sync m : sync_of (await_recovery m) = kAWAITING_RECOVERY_SNAPSHOT.
Proof. unfold await_recovery, market_step. by case_bool_decide. Qed.

Lemma invalidate_markets_spec reason post pre acc e k : markets_of e = pre ++ post →
  summary_bounded k acc → k + Z.of_nat (length post) ≤ U64_MAX →
  let r := invalidate_markets (seqZ (Z.of_nat (length pre)) (Z.of_nat (length post))) reason (acc, e) in
  r.1 = summary_of acc post ∧ markets_of r.2 = pre ++ (await_recovery <$> post).
Proof.
  revert pre acc e k. induction post as [|m post IH]; intros pre acc e k Hms Hacc Hk r.
  - unfold r. cbn [fmap list_fmap]. rewrite <- Hms. split; [|done]. by rewrite summary_of_nil.
  - unfold r. clear r. cbn [length] in *. rewrite seqZ_cons by lia. cbn [invalidate_markets].
    replace (Z.pred (Z.of_nat (S (length post)))) with (Z.of_nat (length post)) by lia.
    pose proof (exec_spec (OpInvalidate (Z.of_nat (length pre)) reason) e) as Hx. cbn [exec op_index] in Hx.
    assert (markets_of e !! Z.to_nat (Z.of_nat (length pre)) = Some m) as Hm.
    { rewrite Hms, Nat2Z.id. by apply list_lookup_middle. }
    rewrite Hm in Hx. cbn [snd fst].
    assert (ir_target_found (invalidate_market (Z.of_nat (length pre)) reason e).1 = true ∧
            ir_book_sync_transition (invalidate_market (Z.of_nat (length pre)) reason e).1
              = invalidation_transition (sync_of m)) as [Hf Ht].
    { unfold markets_of in Hm. unfold invalidate_market. rewrite Hm. done. }
    destruct (invalidate_market (Z.of_nat (length pre)) reason e) as [r e'] eqn:Er.
    cbn in Hx, Hf, Ht |- *. destruct Hx as (Hms' & _ & _).
    rewrite Nat2Z.id, Hms, insert_app_r_alt, Nat.sub_diag in Hms' by done. cbn in Hms'.
    destruct Hacc as (? & ? & ? & ?) eqn:Hacc'. clear Hacc'.
    rewrite (count_invalidation_step acc m) by (done || (repeat split; lia)).
    replace (Z.succ (Z.of_nat (length pre))) with (Z.of_nat (length (pre ++ [await_recovery m])))
      by (rewrite length_app; cbn; lia).
    destruct (IH (pre ++ [await_recovery m]) (summary_of acc [m]) e' (k + 1)) as [H1 H2].
    + rewrite Hms', <- app_assoc. done.
    + apply (summary_of_bounded k acc [m]). repeat split; lia.
    + lia.
    + rewrite H1, summary_of_app, H2, <- app_assoc. done.
Qed.

Lemma invalidate_all_spec reason e : Z.of_nat (length (markets_of e)) ≤ U64_MAX →
  (invalidate_all_markets reason e).1 = summary_of default_BookInvalidationSummary (markets_of e) ∧
  markets_of (invalidate_all_markets reason e).2 = await_recovery <$> markets_of e.
Proof.
  intros Hlen. apply (invalidate_markets_spec reason (markets_of e) [] _ e 0); [done| |lia].
  repeat split; cbn; lia.
Qed.

Lemma add_summary_spec acc ms k : summary_bounded k acc → k + Z.of_nat (length ms) ≤ U64_MAX →
  add_summary acc (summary_of default_BookInvalidationSummary ms) = summary_of acc ms.
Proof.
  intros Hacc Hk. destruct (summary_of_bounded k acc ms Hacc) as (? & ? & ? & ?).
  unfold add_summary, summary_of in *. cbn in *. f_equal; apply u64_id; unfold is_u64; lia.
Qed.

Lemma store_invalidate_loop_spec reason store acc k : summary_bounded k acc →
  k + Z.of_nat (length (all_markets store)) ≤ U64_MAX →
  let r := store_invalidate_loop reason acc store in
  r.1 = summary_of acc (all_markets store) ∧ all_markets r.2 = await_recovery <$> all_markets store.
Proof.
  revert acc k. induction store as [|e store IH]; intros acc k Hacc Hk r.
  - split; [|done]. by rewrite summary_of_nil.
  - unfold r, all_markets in *. cbn [fmap list_fmap concat] in *. rewrite length_app in Hk.
    cbn [store_invalidate_loop]. pose proof (count_sync_bound kSYNCHRONIZED (markets_of e)).
    destruct (invalidate_all_spec reason e ltac:(destruct Hacc; lia)) as [H1 H2].
    destruct (invalidate_all_markets reason e) as [s e']. cbn in H1, H2. subst s.
    rewrite (add_summary_spec acc _ k) by (done || lia).
    specialize (IH (summary_of acc (markets_of e)) (k + Z.of_nat (length (markets_of e)))).
    destruct IH as [H3 H4]; [by apply summary_of_bounded|lia|].
    destruct (store_invalidate_loop _ _ store) as [s' rest]. cbn in H3, H4 |- *.
    rewrite H3, summary_of_app, H2, H4, fmap_app. done.
Qed.

(** Invalidating a shard leaves every market of every event awaiting a
    recovery snapshot, and the summary counts each market once, under the
    transition it made. *)
Theorem store_invalidation_is_total reason store :
  Z.of_nat (length (all_markets store)) ≤ U64_MAX →
  let '(summary, store') := store_invalidate_all_markets reason store in
  length (all_markets store') = length (all_markets store) ∧
  Forall (λ m, sync_of m = kAWAITING_RECOVERY_SNAPSHOT) (all_markets store') ∧
  summary = mkBookInvalidationSummary (Z.of_nat (length (all_markets store)))
    (count_sync kSYNCHRONIZED (all_markets store))
    (count_sync kAWAITING_INITIAL_SNAPSHOT (all_markets store))
    (count_sync kAWAITING_RECOVERY_SNAPSHOT (all_markets store)).
Proof.
  intros Hlen. unfold store_invalidate_all_markets.
  destruct (store_invalidate_loop_spec reason store default_BookInvalidationSummary 0) as [H1 H2];
    [repeat split; cbn; lia|lia|].
  destruct (store_invalidate_loop _ _ store) as [s store']. cbn [fst snd] in H1, H2. rewrite H2.
  split; [apply length_fmap|]. split; [|by rewrite H1].
  apply Forall_fmap, Forall_true. intros m. apply await_recovery_sync.
Qed.

(** ** What strategies observe *)

(** The non-empty levels of a side among the given level indices, in order. *)
Definition nonempty_levels (d : Z) (f : Z → Z) (order : list Z) : list StrategyBookLevel :=
  (λ i, mkStrategyBookLevel (i * d) (f (i * d))) <$> filter (λ i, f (i * d) ≠ 0) order.

(** An array of four levels whose first entries are [l]. *)
Definition padded (l : list StrategyBookLevel) : list StrategyBookLevel :=
  l ++ replicate (4 - length l) default_StrategyBookLevel.

Lemma padded_write l x : (length l < 4)%nat → <[length l := x]> (padded l) = padded (l ++ [x]).
Proof.
  intros Hl. unfold padded. rewrite length_app. cbn [length].
  replace (4 - length l)%nat with (S (4 - (length l + 1))) by lia.
  rewrite insert_app_r_alt, Nat.sub_diag by done. cbn. by rewrite <- app_assoc.
Qed.

Lemma collect_levels_spec b d n side order l : grid_ok b d n → side ≠ kSIDE_UNKNOWN →
  Forall (λ i, 0 ≤ i < n) order → (length l ≤ 4)%nat →
  let all := l ++ take (4 - length l) (nonempty_levels d (level_at b side) order) in
  collect_levels b (side_levels b side) order (Z.of_nat (length l)) (padded l) =
    Some (Z.of_nat (length all), padded all).
Proof.
  intros Hg Hside Hord. revert l. induction Hord as [|i order Hi Hord IH]; intros l Hl all.
  - unfold all. change (nonempty_levels _ _ []) with (@nil StrategyBookLevel).
    by rewrite take_nil, app_nil_r.
  - unfold all; clear all. cbn [collect_levels]. unfold kStrategyBookDepth.
    destruct (Z.leb_spec 4 (Z.of_nat (length l))).
    { replace (4 - length l)%nat with 0%nat by lia. by rewrite take_0, app_nil_r. }
    destruct (price_at_index_spec b d n i Hg Hi) as [Hprice Hidx].
    assert (level_at b side (i * d) = default 0 (side_levels b side !! Z.to_nat i)) as Hlv
      by (unfold level_at; by rewrite Hidx).
    rewrite <- Hlv. unfold nonempty_levels in *. rewrite filter_cons.
    destruct (Z.eqb_spec (level_at b side (i * d)) 0) as [E|E].
    + rewrite decide_False by (intros H'; done). apply IH. lia.
    + rewrite decide_True by done. rewrite Hprice, u8_id by (unfold is_u8; lia).
      rewrite Nat2Z.id, padded_write by lia. cbn [fmap list_fmap].
      set (x := mkStrategyBookLevel (i * d) (level_at b side (i * d))).
      assert (length (l ++ [x]) = S (length l)) as Hlen by (rewrite length_app; cbn; lia).
      specialize (IH (l ++ [x])). rewrite Hlen in IH. cbn zeta in IH.
      replace (Z.of_nat (length l) + 1) with (Z.of_nat (S (length l))) by lia.
      rewrite IH by lia. replace (4 - length l)%nat with (S (4 - S (length l))) by lia.
      cbn [take]. by rewrite <- !app_assoc.
Qed.

(** The four best non-empty levels of a side: bids from the highest price of the
    grid down, asks from the lowest up. *)
Definition best_levels (b : KalshiBook) (d n : Z) (side : Side) : list StrategyBookLevel :=
  take 4 (nonempty_levels d (level_at b side)
            (match side with kBID => reverse (seqZ 0 n) | _ => seqZ 0 n end)).

Definition depth_view (b : KalshiBook) (d n : Z) (side : Side) : Z * list StrategyBookLevel :=
  (Z.of_nat (length (best_levels b d n side)), padded (best_levels b d n side)).

Lemma seqZ_bounds n : Forall (λ i, 0 ≤ i < n) (seqZ 0 n).
Proof. apply Forall_forall. intros i Hi%elem_of_seqZ. lia. Qed.

Lemma collect_bids_spec b d n : grid_ok b d n → collect_bids b = Some (depth_view b d n kBID).
Proof.
  intros Hg. unfold collect_bids. pose proof (side_levels_length b d n kBID Hg ltac:(done)) as Hlen.
  cbn in Hlen. pose proof Hg as (Hp & _). apply grid_parameters_shape in Hp.
  rewrite Hlen, Z2Nat.id by lia.
  apply (collect_levels_spec b d n kBID (reverse (seqZ 0 n)) []); [done|done| |cbn; lia].
  apply Forall_reverse, seqZ_bounds.
Qed.

Lemma collect_asks_spec b d n : grid_ok b d n → collect_asks b = Some (depth_view b d n kASK).
Proof.
  intros Hg. unfold collect_asks. pose proof (side_levels_length b d n kASK Hg ltac:(done)) as Hlen.
  cbn in Hlen. pose proof Hg as (Hp & _). apply grid_parameters_shape in Hp.
  rewrite Hlen, Z2Nat.id by lia.
  apply (collect_levels_spec b d n kASK (seqZ 0 n) []); [done|done|apply seqZ_bounds|cbn; lia].
Qed.

(** A market's prices strictly improve towards the front of the depth. *)
Lemma nonempty_levels_sorted (R : Z → Z → Prop) d f order : 0 < d → StronglySorted R order →
  (∀ i j, R i j → R (i * d) (j * d)) →
  StronglySorted (λ x y, R (sl_price_ticks x) (sl_price_ticks y)) (nonempty_levels d f order).
Proof.
  intros Hd Hs HR. unfold nonempty_levels. induction Hs as [|i l Hs IH Hall]; [constructor|].
  rewrite filter_cons. case_decide; [|done]. constructor; [done|].
  apply Forall_fmap, Forall_forall. intros j [_ Hj]%list_elem_of_filter. cbn.
  rewrite Forall_forall in Hall. by apply HR, Hall.
Qed.

(** The adjacent pair a strategy may look at: the chain is monotonic, all of its
    books are usable and the two markets are in strike order. *)
Definition observable (e : EventState) (idx : Z) (easier harder : KalshiMarket) (k1 k2 : Z) : Prop :=
  ke_topology (ev_state e) = kMONOTONIC_CHAIN ∧ event_usable e = true ∧
  markets_of e !! Z.to_nat idx = Some easier ∧ markets_of e !! Z.to_nat (idx + 1) = Some harder ∧
  km_event_market_index easier = idx ∧ km_event_market_index harder = idx + 1 ∧
  km_strike_key easier = Some k1 ∧ km_strike_key harder = Some k2 ∧ k1 < k2.

Definition grid_for (m : KalshiMarket) (d n : Z) : Prop := grid_ok (km_book m) d n.

Lemma event_usable_forall e : event_usable e = true →
  Forall (λ m, usable (km_book m) = true) (markets_of e).
Proof.
  unfold event_usable, markets_of. destruct (ke_markets (ev_state e)) as [|m ms]; [done|].
  intros H. apply Forall_forall. intros m' Hm'.
  rewrite forallb_forall in H. apply H. by apply list_elem_of_In.
Qed.

Lemma usable_grid e i m : Forall (λ m, book_wf (km_book m)) (markets_of e) → event_usable e = true →
  markets_of e !! i = Some m → ∃ d n, grid_for m d n.
Proof.
  intros Hwf Hu Hm. pose proof (Forall_lookup_1 _ _ _ _ Hwf Hm) as [_ H].
  pose proof (Forall_lookup_1 _ _ _ _ (event_usable_forall e Hu) Hm) as Hu'. by apply H.
Qed.

Lemma build_observation_some idx context e easier harder k1 k2 d1 n1 d2 n2 : 0 ≤ idx →
  observable e idx easier harder k1 k2 → grid_for easier d1 n1 → grid_for harder d2 n2 →
  build_monotonic_pair_observation idx context e =
    Some (mkMonotonicPairObservation (oc_universe_version context) (oc_shard_index context)
      (ke_event_id (ev_state e)) (ev_revision e) (oc_ingress_timestamp_ns context)
      (oc_book_apply_timestamp_ns context) (oc_publish_timestamp_ns context)
      (market_view easier k1 (depth_view (km_book easier) d1 n1 kBID) (depth_view (km_book easier) d1 n1 kASK))
      (market_view harder k2 (depth_view (km_book harder) d2 n2 kBID) (depth_view (km_book harder) d2 n2 kASK))).
Proof.
  intros Hi (Ht & Hu & H1 & H2 & Hx1 & Hx2 & Hk1 & Hk2 & Hk) Hg1 Hg2.
  unfold build_monotonic_pair_observation, markets_of, grid_for in *.
  rewrite bool_decide_eq_true_2, Hu by done. cbn [negb].
  pose proof (lookup_lt_Some _ _ _ H2).
  destruct (Z.ltb_spec (Z.of_nat (length (ke_markets (ev_state e)))) 2); [lia|].
  destruct (Z.leb_spec (Z.of_nat (length (ke_markets (ev_state e))) - 1) idx); [lia|]. cbn [orb].
  rewrite H1, H2. cbn [mbind option_bind]. rewrite Hx1, Hx2, !Z.eqb_refl. cbn [negb orb].
  rewrite Hk1, Hk2. cbn [mbind option_bind]. destruct (Z.leb_spec k2 k1); [lia|].
  rewrite (collect_bids_spec (km_book easier) d1 n1), (collect_asks_spec (km_book easier) d1 n1) by done.
  rewrite (collect_bids_spec (km_book harder) d2 n2), (collect_asks_spec (km_book harder) d2 n2) by done.
  done.
Qed.

Lemma build_observation_requires idx context e o : 0 ≤ idx →
  build_monotonic_pair_observation idx context e = Some o →
  ∃ easier harder k1 k2, observable e idx easier harder k1 k2.
Proof.
  intros Hi H. unfold build_monotonic_pair_observation in H.
  case_bool_decide as Ht; [|done]. cbn [negb] in H.
  destruct (event_usable e) eqn:Hu; [|done]. cbn [negb] in H.
  destruct (_ || _); [done|].
  destruct (_ !! Z.to_nat idx) as [easier|] eqn:H1; [|done]. cbn [mbind option_bind] in H.
  destruct (_ !! Z.to_nat (idx + 1)) as [harder|] eqn:H2; [|done]. cbn [mbind option_bind] in H.
  destruct (Z.eqb_spec (km_event_market_index easier) idx); [|done].
  destruct (Z.eqb_spec (km_event_market_index harder) (idx + 1)); [|done]. cbn [negb orb] in H.
  destruct (km_strike_key easier) as [k1|] eqn:Hk1; [|done].
  destruct (km_strike_key harder) as [k2|] eqn:Hk2; [|done]. cbn [mbind option_bind] in H.
  destruct (Z.leb_spec k2 k1); [done|]. exists easier, harder, k1, k2. repeat split; done.
Qed.

(** An observation is published for a pair exactly when the event is a
    monotonic chain whose books are all usable and the two neighbours are in
    strike order; it then carries the current revision and, for both markets and
    both sides, the four best non-empty levels of the book, best price first,
    with their true prices and quantities and the number of valid entries. *)
Theorem observation_shows_best_levels idx context e : 0 ≤ idx →
  Forall (λ m, book_wf (km_book m)) (markets_of e) →
  (∀ o, build_monotonic_pair_observation idx context e = Some o →
     ∃ easier harder k1 k2 d1 n1 d2 n2,
       observable e idx easier harder k1 k2 ∧ grid_for easier d1 n1 ∧ grid_for harder d2 n2 ∧
       po_event_revision o = ev_revision e ∧ po_event_id o = ke_event_id (ev_state e) ∧
       po_easier o = market_view easier k1 (depth_view (km_book easier) d1 n1 kBID)
                       (depth_view (km_book easier) d1 n1 kASK) ∧
       po_harder o = market_view harder k2 (depth_view (km_book harder) d2 n2 kBID)
                       (depth_view (km_book harder) d2 n2 kASK)) ∧
  (∀ easier harder k1 k2, observable e idx easier harder k1 k2 →
     is_Some (build_monotonic_pair_observation idx context e)).
Proof.
  intros Hi Hwf. split.
  - intros o Ho. destruct (build_observation_requires idx context e o Hi Ho) as (m1 & m2 & k1 & k2 & Hobs).
    pose proof Hobs as (_ & Hu & H1 & H2 & _).
    destruct (usable_grid e _ m1 Hwf Hu H1) as (d1 & n1 & Hg1).
    destruct (usable_grid e _ m2 Hwf Hu H2) as (d2 & n2 & Hg2).
    rewrite (build_observation_some idx context e m1 m2 k1 k2 d1 n1 d2 n2) in Ho by done.
    injection Ho as <-. exists m1, m2, k1, k2, d1, n1, d2, n2. done.
  - intros m1 m2 k1 k2 Hobs. pose proof Hobs as (_ & Hu & H1 & H2 & _).
    destruct (usable_grid e _ m1 Hwf Hu H1) as (d1 & n1 & Hg1).
    destruct (usable_grid e _ m2 Hwf Hu H2) as (d2 & n2 & Hg2).
    rewrite (build_observation_some idx context e m1 m2 k1 k2 d1 n1 d2 n2) by done. by eexists.
Qed.

(** An operation replaces at most the book of the addressed market: identities,
    strikes, topology and event identity never change. *)
Lemma market_step_static op m : ∃ b, market_step op m = m ⟪ km_book := b ⟫.
Proof.
  assert (∃ b, m = m ⟪ km_book := b ⟫) as Hid by (exists (km_book m); by destruct m).
  destruct op as [ok idx parsed|idx reason]; cbn [market_step].
  - destruct parsed as [|e|e|e|]; cbn [apply_to_market]; [done|..|done|done].
    + unfold apply_snapshot, reject_snapshot. destruct (set_index_grid _ _) as [[] b0]; [|done].
      repeat case_bool_decide; destruct (install_levels b0 _ _); try destruct (install_levels _ _ _); eauto.
    + unfold apply_delta, reject_delta. destruct (bk_sync_state _); [done| |done].
      destruct (get_index _ _); [|eauto].
      destruct (dd_side e); [eauto|..]; destruct (adjust_level _ _); eauto.
  - case_bool_decide; [done|eauto].
Qed.

Definition static_market (m m' : KalshiMarket) : Prop := ∃ b, m' = m ⟪ km_book := b ⟫.

#[export] Instance static_market_preorder : PreOrder static_market.
Proof.
  split; [intros m; exists (km_book m); by destruct m|].
  intros m1 m2 m3 [b ->] [b' ->]. by exists b'.
Qed.

Lemma exec_static op e :
  ke_topology (ev_state (exec op e).2) = ke_topology (ev_state e) ∧
  ke_event_id (ev_state (exec op e).2) = ke_event_id (ev_state e) ∧
  Forall2 static_market (markets_of e) (markets_of (exec op e).2).
Proof.
  assert (ke_topology (ev_state (exec op e).2) = ke_topology (ev_state e) ∧
          ke_event_id (ev_state (exec op e).2) = ke_event_id (ev_state e)) as [Ht Hid].
  { destruct op as [ok idx parsed|idx reason]; cbn [exec].
    - unfold apply. destruct (_ !! _); [|done]. destruct (apply_to_market _ _ _). by destruct (_ || _).
    - unfold invalidate_market. destruct (_ !! _); [|done]. by repeat case_bool_decide. }
  split; [done|]. split; [done|]. pose proof (exec_spec op e) as Hx.
  destruct (markets_of e !! Z.to_nat (op_index op)) as [m|] eqn:Hm; [|by rewrite Hx].
  destruct Hx as (-> & _). rewrite <- (list_insert_id (markets_of e) _ m Hm) at 1.
  apply Forall2_insert; [done|apply market_step_static].
Qed.

Lemma exec_all_static ops e :
  ke_topology (ev_state (exec_all ops e)) = ke_topology (ev_state e) ∧
  ke_event_id (ev_state (exec_all ops e)) = ke_event_id (ev_state e) ∧
  Forall2 static_market (markets_of e) (markets_of (exec_all ops e)).
Proof.
  revert e. induction ops as [|op ops IH]; intros e; [done|]. cbn [exec_all].
  destruct (IH (exec op e).2) as (H1 & H2 & H3), (exec_static op e) as (H4 & H5 & H6).
  split; [congruence|]. split; [congruence|]. by etrans.
Qed.

(** ** Witnesses *)

Definition sample_market (i : Z) : KalshiMarket :=
  default_KalshiMarket ⟪ km_market_id := 70 + i ⟫ ⟪ km_event_market_index := i ⟫
    ⟪ km_strike_key := Some (100 * i) ⟫ ⟪ km_book := default_KalshiBook ⟪ bk_scale := kLINEAR_CENTS ⟫ ⟫.

Definition sample_event : EventState :=
  make_event (mkKalshiEvent 7 kMONOTONIC_CHAIN 0 [sample_market 0; sample_market 1]).

Definition sample_ops : list event_op :=
  [OpApply true 0 (ParsedDelta (mkKalshiDeltaData kBID 4200 500));
   OpApply true 0 (ParsedSnapshot (mkKalshiSnapshotEvent [mkLevel 4200 300; mkLevel 4100 200] [mkLevel 4400 900]));
   OpApply true 1 (ParsedSnapshot (mkKalshiSnapshotEvent [mkLevel 3000 100] []));
   OpApply true 0 (ParsedDelta (mkKalshiDeltaData kBID 4200 (-100)))].

Lemma sample_ops_wf : Forall op_wf sample_ops.
Proof. repeat constructor; cbn; unfold is_u64; lia. Qed.

Lemma sample_tracks : tracks sample_event 0 kLINEAR_CENTS None.
Proof. exists (sample_market 0). by repeat split. Qed.

Lemma books_follow_feed_witness :
  tracks (exec_all sample_ops sample_event) 0 kLINEAR_CENTS
    (foldl (astep kLINEAR_CENTS 0) None sample_ops) ∧
  (∃ f, foldl (astep kLINEAR_CENTS 0) None sample_ops = Some f ∧ f kBID 4200 = 200 ∧ f kASK 4400 = 900).
Proof.
  split.
  - apply (books_follow_feed sample_ops sample_event 0 kLINEAR_CENTS None);
      [exact sample_ops_wf|lia|exact sample_tracks].
  - eexists. split; [vm_compute; reflexivity|]. split; vm_compute; reflexivity.
Defined.

Lemma revision_identifies_contents_witness :
  same_views sample_event
    (exec_all [OpApply true 0 (ParsedDelta (mkKalshiDeltaData kBID 4200 500)); OpApply true 1 ParsedLifecycle]
       sample_event).
Proof.
  apply revision_identifies_contents; [unfold is_u64; cbn; lia|cbn; lia|vm_compute; reflexivity].
Defined.

Lemma transitions_are_exact_witness :
  ∃ m', markets_of (exec (OpInvalidate 1 kREASON_NONE) sample_event).2 !! 1%nat = Some m' ∧
        sync_of m' = kAWAITING_RECOVERY_SNAPSHOT.
Proof.
  destruct (transitions_are_exact (OpInvalidate 1 kREASON_NONE) sample_event (sample_market 1) eq_refl)
    as (m' & Hm & _ & _).
  exists m'. split; [exact Hm|]. vm_compute in Hm. injection Hm as <-. reflexivity.
Defined.

Lemma store_invalidation_is_total_witness :
  let '(summary, store') := store_invalidate_all_markets kREASON_NONE [sample_event] in
  length (all_markets store') = 2%nat ∧ is_targets_recovery_required summary = 2.
Proof.
  pose proof (store_invalidation_is_total kREASON_NONE [sample_event] ltac:(vm_compute; discriminate)) as H.
  destruct (store_invalidate_all_markets _ _) as [s st]. destruct H as (H1 & _ & H2).
  split; [exact H1|rewrite H2; reflexivity].
Defined.

Lemma sample_observable e f0 f1 : tracks e 0 kLINEAR_CENTS (Some f0) → tracks e 1 kLINEAR_CENTS (Some f1) →
  ke_topology (ev_state e) = kMONOTONIC_CHAIN →
  Forall2 static_market [sample_market 0; sample_market 1] (markets_of e) →
  Forall (λ m, book_wf (km_book m)) (markets_of e) ∧ ∃ m0 m1, observable e 0 m0 m1 0 100.
Proof.
  intros (m0 & Hm0 & _ & Hw0 & Hu0 & _) (m1 & Hm1 & _ & Hw1 & Hu1 & _) Htop Hst.
  apply Forall2_cons_inv_l in Hst as (x0 & l0 & [b0 Hb0] & Hst & E0).
  apply Forall2_cons_inv_l in Hst as (x1 & l1 & [b1 Hb1] & Hst & E1).
  apply Forall2_nil_inv_l in Hst. subst l1 l0. rewrite E0 in Hm0, Hm1.
  change (Z.to_nat 0) with 0%nat in Hm0. change (Z.to_nat 1) with 1%nat in Hm1.
  cbn in Hm0, Hm1. injection Hm0 as <-. injection Hm1 as <-. rewrite E0.
  split; [apply Forall_cons_2; [done|by apply Forall_singleton]|]. exists x0, x1.
  unfold observable. rewrite E0. split; [done|]. split.
  { unfold event_usable, markets_of in *. rewrite E0. cbn. by rewrite Hu0, Hu1. }
  rewrite Hb0, Hb1. by repeat split.
Qed.

Lemma sample_final_tracks i f : i = 0 ∨ i = 1 → foldl (astep kLINEAR_CENTS i) None sample_ops = Some f →
  tracks (exec_all sample_ops sample_event) i kLINEAR_CENTS (Some f).
Proof.
  intros Hi <-. apply exec_all_tracks; [exact sample_ops_wf|lia|].
  exists (sample_market i). by destruct Hi as [-> | ->]; repeat split.
Qed.

Lemma sample_final : let e := exec_all sample_ops sample_event in
  Forall (λ m, book_wf (km_book m)) (markets_of e) ∧ ∃ m0 m1, observable e 0 m0 m1 0 100.
Proof.
  assert (∃ f, foldl (astep kLINEAR_CENTS 0) None sample_ops = Some f) as [f0 Hf0]
    by (eexists; vm_compute; reflexivity).
  assert (∃ f, foldl (astep kLINEAR_CENTS 1) None sample_ops = Some f) as [f1 Hf1]
    by (eexists; vm_compute; reflexivity).
  pose proof (exec_all_static sample_ops sample_event) as (Htop & _ & Hst).
  exact (sample_observable _ f0 f1 (sample_final_tracks 0 f0 ltac:(auto) Hf0)
           (sample_final_tracks 1 f1 ltac:(auto) Hf1) Htop Hst).
Qed.

Lemma observation_shows_best_levels_witness :
  is_Some (build_monotonic_pair_observation 0 default_StrategyObservationContext
             (exec_all sample_ops sample_event)).
Proof.
  destruct sample_final as (Hwf & m0 & m1 & Hobs).
  exact (proj2 (observation_shows_best_levels 0 default_StrategyObservationContext
                 (exec_all sample_ops sample_event) ltac:(lia) Hwf) m0 m1 0 100 Hobs).
Defined.
End Event.
