(* ===== verification/Router.v ===== *)
(** * Router: ordered delivery of frames and barriers to shards

    Models [cpp/src/router/router.cpp] and
    [cpp/include/predex/router/router.hpp].  The router forwards each frame handle
    to its shard.  A frame that does not fit is handed to the logger or recycled,
    and a lost order-book frame is replaced by an invalidation barrier; a barrier
    that does not fit blocks the router until it is flushed.

    The queues are used through the interface [PushQueue], so the theorems hold
    for any queue with its laws.  A queue pointer may be null: it is an [option].
    The clock is a sequence of readings [clk]; the state counts the readings made. *)

From S2P Require Import Prelude Spsc LatencyHistogram MarketTypes.

Inductive RouterRouteResult := | kROUTE_COMPLETED | kROUTE_BLOCKED | kROUTE_FAULTED.
#[export] Instance RouterRouteResult_eq_dec : EqDecision RouterRouteResult.
Proof. solve_decision. Defined.

Inductive ShardEnqueueResult := | kENQUEUED | kFULL | kENQUEUE_INVALID_TARGET.
#[export] Instance ShardEnqueueResult_eq_dec : EqDecision ShardEnqueueResult.
Proof. solve_decision. Defined.

Inductive BarrierDeliveryResult := | kDELIVERED | kDELIVERY_BLOCKED | kDELIVERY_INVALID_TARGET.
#[export] Instance BarrierDeliveryResult_eq_dec : EqDecision BarrierDeliveryResult.
Proof. solve_decision. Defined.

Record ShardBackpressure := mkShardBackpressure {
  bp_shard_index : Z;
  bp_affinity_key : Z;
  bp_market_id : Z;
  bp_event_id : Z;
}.
#[export] Instance eta_ShardBackpressure : Eta ShardBackpressure := λ r,
  mkShardBackpressure (bp_shard_index r) (bp_affinity_key r) (bp_market_id r) (bp_event_id r).
Definition default_ShardBackpressure : ShardBackpressure :=
  mkShardBackpressure 0 0 0 0.
#[export] Instance ShardBackpressure_eq_dec : EqDecision ShardBackpressure.
Proof. solve_decision. Defined.

Record RouterHandleLeak := mkRouterHandleLeak {
  hl_universe_version : Z;
  hl_sid : Z;
  hl_sequence : Z;
  hl_pool_index : Z;
  hl_pool_generation : Z;
  hl_shard_index : Z;
  hl_market_id : Z;
  hl_event_id : Z;
}.
#[export] Instance eta_RouterHandleLeak : Eta RouterHandleLeak := λ r,
  mkRouterHandleLeak (hl_universe_version r) (hl_sid r) (hl_sequence r) (hl_pool_index r)
    (hl_pool_generation r) (hl_shard_index r) (hl_market_id r) (hl_event_id r).
Definition default_RouterHandleLeak : RouterHandleLeak :=
  mkRouterHandleLeak 0 0 0 0 0 0 0 0.
#[export] Instance RouterHandleLeak_eq_dec : EqDecision RouterHandleLeak.
Proof. solve_decision. Defined.

Record OrderBookSubscriptionBarrierDelivered := mkOrderBookSubscriptionBarrierDelivered {
  bd_universe_version : Z;
  bd_incident : IntegrityIncidentKey;
  bd_sid : Z;
  bd_expected_sequence : Z;
  bd_observed_sequence : Z;
  bd_reason : BookInvalidationReason;
}.
#[export] Instance eta_OrderBookSubscriptionBarrierDelivered : Eta OrderBookSubscriptionBarrierDelivered := λ r,
  mkOrderBookSubscriptionBarrierDelivered (bd_universe_version r) (bd_incident r) (bd_sid r)
    (bd_expected_sequence r) (bd_observed_sequence r) (bd_reason r).
Definition default_OrderBookSubscriptionBarrierDelivered : OrderBookSubscriptionBarrierDelivered :=
  mkOrderBookSubscriptionBarrierDelivered 0 default_IntegrityIncidentKey 0 0 0 kREASON_NONE.
#[export] Instance OrderBookSubscriptionBarrierDelivered_eq_dec : EqDecision OrderBookSubscriptionBarrierDelivered.
Proof. solve_decision. Defined.

Record RouterTelemetry := mkRouterTelemetry {
  rm_total_frames_seen : Z;
  rm_frames_to_shards : Z;
  rm_frames_to_logger : Z;
  rm_frames_recycled : Z;
  rm_market_barriers_received : Z;
  rm_market_barriers_delivered : Z;
  rm_subscription_barriers_received : Z;
  rm_subscription_barriers_delivered : Z;
  rm_barriers_deferred : Z;
  rm_subscription_recovery_facts_deferred : Z;
  rm_shard_queue_depth_high_water : Z;
  rm_channel_stats : list MarketDataChannelTelemetrySnapshot;
  rm_wire_to_router_latency : list Histogram.LatencyHistogram;
  rm_router_service_latency : list Histogram.LatencyHistogram;
}.
#[export] Instance eta_RouterTelemetry : Eta RouterTelemetry := λ r,
  mkRouterTelemetry (rm_total_frames_seen r) (rm_frames_to_shards r) (rm_frames_to_logger r)
    (rm_frames_recycled r) (rm_market_barriers_received r) (rm_market_barriers_delivered r)
    (rm_subscription_barriers_received r) (rm_subscription_barriers_delivered r)
    (rm_barriers_deferred r) (rm_subscription_recovery_facts_deferred r)
    (rm_shard_queue_depth_high_water r) (rm_channel_stats r) (rm_wire_to_router_latency r)
    (rm_router_service_latency r).
Definition default_RouterTelemetry : RouterTelemetry :=
  mkRouterTelemetry 0 0 0 0 0 0 0 0 0 0 0 make_market_data_channel_telemetry
    (replicate 3 Histogram.empty_histogram) (replicate 3 Histogram.empty_histogram).

Inductive RouterToControl :=
  | RcShardBackpressure (m : ShardBackpressure)
  | RcTelemetry (m : RouterTelemetry)
  | RcHandleLeak (m : RouterHandleLeak)
  | RcSubscriptionBarrierDelivered (m : OrderBookSubscriptionBarrierDelivered).

Inductive PendingBarrier :=
  | PendingMarketBarrier (barrier : MarketInvalidationBarrier)
  | PendingSubscriptionBarrier (barrier : OrderBookSubscriptionInvalidationBarrier) (next_shard_idx : Z).

Definition kFRAMETHRESHOLD : Z := 1000.

Module Router.
Section Router.
Context {Q : Type → Type} `{!PushQueue Q}.

Record RouterState := mkRouterState {
  rt_router_to_shard_queues : list (option (Q MarketDataPathMessage));
  rt_router_to_logger_queue : option (Q FrameHandle);
  rt_router_to_control_queue : option (Q RouterToControl);
  rt_last_resort_recycle_queue : option (Q FrameHandle);
  rt_pending_barrier : option PendingBarrier;
  rt_pending_subscription_recovery_fact : option OrderBookSubscriptionBarrierDelivered;
  rt_next_router_incident_id : Z;
  rt_telemetry_send_threshold : Z;
  rt_current_frame_count : Z;
  rt_total_frames_seen : Z;
  rt_total_frames_to_shards : Z;
  rt_total_frames_to_logger : Z;
  rt_total_frames_recycled : Z;
  rt_market_barriers_received : Z;
  rt_market_barriers_delivered : Z;
  rt_subscription_barriers_received : Z;
  rt_subscription_barriers_delivered : Z;
  rt_barriers_deferred : Z;
  rt_subscription_recovery_facts_deferred : Z;
  rt_shard_queue_depth_high_water : Z;
  rt_channel_stats : list MarketDataChannelTelemetrySnapshot;
  rt_wire_to_router_latency : list Histogram.LatencyHistogram;
  rt_router_service_latency : list Histogram.LatencyHistogram;
  rt_clock_reads : nat;
}.
#[export] Instance eta_RouterState : Eta RouterState := λ r,
  mkRouterState (rt_router_to_shard_queues r) (rt_router_to_logger_queue r)
    (rt_router_to_control_queue r) (rt_last_resort_recycle_queue r) (rt_pending_barrier r)
    (rt_pending_subscription_recovery_fact r) (rt_next_router_incident_id r)
    (rt_telemetry_send_threshold r) (rt_current_frame_count r) (rt_total_frames_seen r)
    (rt_total_frames_to_shards r) (rt_total_frames_to_logger r) (rt_total_frames_recycled r)
    (rt_market_barriers_received r) (rt_market_barriers_delivered r)
    (rt_subscription_barriers_received r) (rt_subscription_barriers_delivered r)
    (rt_barriers_deferred r) (rt_subscription_recovery_facts_deferred r)
    (rt_shard_queue_depth_high_water r) (rt_channel_stats r) (rt_wire_to_router_latency r)
    (rt_router_service_latency r) (rt_clock_reads r).

Definition make_router (shards : list (option (Q MarketDataPathMessage))) (logger recycle : option (Q FrameHandle))
    (control : option (Q RouterToControl)) : RouterState :=
  mkRouterState shards logger control recycle None None 1 kFRAMETHRESHOLD 0 0 0 0 0 0 0 0 0 0 0 0
    make_market_data_channel_telemetry (replicate 3 Histogram.empty_histogram)
    (replicate 3 Histogram.empty_histogram) 0.

Variable clk : nat → Z.

Definition monotonic_now_ns : M RouterState Z := λ r,
  (clk (rt_clock_reads r), r ⟪ rt_clock_reads ::= S ⟫).

(** [++counter] on a 64-bit counter. *)
Definition incr (n : Z) : Z := u64 (n + 1).

(** The statistics entry of a channel, when the frame kind has one. *)
Definition with_channel_stats (kind : FrameKind)
    (f : MarketDataChannelTelemetrySnapshot → MarketDataChannelTelemetrySnapshot) : M RouterState unit :=
  modify (λ r, r ⟪ rt_channel_stats ::= alter f (market_data_channel_index kind) ⟫).

(** [try_push] through a queue pointer; a null pointer refuses. *)
Definition push_opt {T} (x : T) (q : option (Q T)) : bool * option (Q T) :=
  match q with
  | None => (false, None)
  | Some q => let '(b, q') := q_push x q in (b, Some q')
  end.

Definition send_telemetry (t : RouterToControl) : M RouterState bool := λ r,
  let '(b, q) := push_opt t (rt_router_to_control_queue r) in
  (b, r ⟪ rt_router_to_control_queue := q ⟫).

Definition try_route_to_logger (handle : FrameHandle) : M RouterState bool := λ r,
  let '(b, q) := push_opt handle (rt_router_to_logger_queue r) in
  (b, r ⟪ rt_router_to_logger_queue := q ⟫).

Definition try_recycle (handle : FrameHandle) : M RouterState bool := λ r,
  let '(b, q) := push_opt handle (rt_last_resort_recycle_queue r) in
  (b, r ⟪ rt_last_resort_recycle_queue := q ⟫).

(** Push to a shard and, on success, update the high-water mark; [None] for a
    shard that does not exist. *)
Definition push_shard (shard_index : Z) (message : MarketDataPathMessage) : M RouterState (option bool) := λ r,
  match rt_router_to_shard_queues r !! Z.to_nat shard_index with
  | Some (Some queue) =>
      let '(b, queue') := q_push message queue in
      let r := r ⟪ rt_router_to_shard_queues ::= <[Z.to_nat shard_index := Some queue']> ⟫ in
      (Some b,
       if b then r ⟪ rt_shard_queue_depth_high_water ::= λ n, Z.max n (q_size queue') ⟫ else r)
  | _ => (None, r)
  end.

Definition try_route_to_shard (handle : FrameHandle) : M RouterState ShardEnqueueResult :=
  pushed ← push_shard (fh_shard_index handle) (MsgFrame handle);
  mret (match pushed with
        | None => kENQUEUE_INVALID_TARGET
        | Some false => kFULL
        | Some true => kENQUEUED
        end).

Definition report_handle_leak (handle : FrameHandle) : M RouterState unit :=
  _ ← send_telemetry (RcHandleLeak (mkRouterHandleLeak (fh_universe_version handle) (fh_sid handle)
        (fh_sequence handle) (fh_pool_index handle) (fh_pool_generation handle)
        (fh_shard_index handle) (fh_market_id handle) (fh_event_id handle)));
  mret tt.

Definition terminal_handoff (handle : FrameHandle) : M RouterState bool :=
  logged ← try_route_to_logger handle;
  if logged : bool then
    modify (λ r, r ⟪ rt_total_frames_to_logger ::= incr ⟫);;
    with_channel_stats (fh_kind handle) (λ s, s ⟪ ct_logger_only_frames ::= incr ⟫);;
    mret true
  else
    recycled ← try_recycle handle;
    if recycled : bool then
      modify (λ r, r ⟪ rt_total_frames_recycled ::= incr ⟫);;
      mret true
    else
      report_handle_leak handle;;
      mret false.

Definition maybe_send_periodic_telemetry : M RouterState unit := λ r,
  if (rt_telemetry_send_threshold r =? 0) || (rt_current_frame_count r <? rt_telemetry_send_threshold r)
  then (tt, r)
  else
    let telemetry := mkRouterTelemetry (rt_total_frames_seen r) (rt_total_frames_to_shards r)
      (rt_total_frames_to_logger r) (rt_total_frames_recycled r) (rt_market_barriers_received r)
      (rt_market_barriers_delivered r) (rt_subscription_barriers_received r)
      (rt_subscription_barriers_delivered r) (rt_barriers_deferred r)
      (rt_subscription_recovery_facts_deferred r) (rt_shard_queue_depth_high_water r)
      (rt_channel_stats r) (rt_wire_to_router_latency r) (rt_router_service_latency r) in
    let '(_, r) := send_telemetry (RcTelemetry telemetry) r in
    (tt, r ⟪ rt_current_frame_count := 0 ⟫).

Definition barrier_delivered_fact (b : OrderBookSubscriptionInvalidationBarrier)
    : OrderBookSubscriptionBarrierDelivered :=
  mkOrderBookSubscriptionBarrierDelivered (sb_universe_version b) (sb_incident b) (sb_sid b)
    (sb_expected_sequence b) (sb_observed_sequence b) (sb_reason b).

Definition send_subscription_recovery_fact (b : OrderBookSubscriptionInvalidationBarrier) : M RouterState bool :=
  send_telemetry (RcSubscriptionBarrierDelivered (barrier_delivered_fact b)).

Definition finish_subscription_barrier (b : OrderBookSubscriptionInvalidationBarrier)
    : M RouterState RouterRouteResult :=
  modify (λ r, r ⟪ rt_subscription_barriers_delivered ::= incr ⟫);;
  control ← gets rt_router_to_control_queue;
  match control with
  | None => mret kROUTE_FAULTED
  | Some _ =>
      sent ← send_subscription_recovery_fact b;
      if sent : bool then mret kROUTE_COMPLETED
      else
        modify (λ r, r ⟪ rt_pending_subscription_recovery_fact := Some (barrier_delivered_fact b) ⟫
                       ⟪ rt_subscription_recovery_facts_deferred ::= incr ⟫);;
        mret kROUTE_BLOCKED
  end.

(** [route_barrier], for a market and for a subscription.  The loop over the
    shards resumes at [next_shard_idx] and reports where it stopped. *)
Definition route_market_barrier (b : MarketInvalidationBarrier) : M RouterState BarrierDeliveryResult :=
  if bool_decide (mb_reason b = kREASON_NONE) then mret kDELIVERY_INVALID_TARGET
  else
    pushed ← push_shard (mb_shard_index b) (MsgMarketBarrier b);
    mret (match pushed with
          | None => kDELIVERY_INVALID_TARGET
          | Some false => kDELIVERY_BLOCKED
          | Some true => kDELIVERED
          end).

Fixpoint barrier_loop (fuel : nat) (b : OrderBookSubscriptionInvalidationBarrier) (next_shard_idx : Z)
    : M RouterState (BarrierDeliveryResult * Z) :=
  count ← gets (λ r, Z.of_nat (length (rt_router_to_shard_queues r)));
  if next_shard_idx <? count then
    match fuel with
    | O => mret (kDELIVERY_INVALID_TARGET, next_shard_idx)
    | S fuel =>
        pushed ← push_shard next_shard_idx (MsgSubscriptionBarrier b);
        match pushed with
        | None => mret (kDELIVERY_INVALID_TARGET, next_shard_idx)
        | Some false => mret (kDELIVERY_BLOCKED, next_shard_idx)
        | Some true => barrier_loop fuel b (next_shard_idx + 1)
        end
    end
  else mret (kDELIVERED, next_shard_idx).

Definition route_subscription_barrier (b : OrderBookSubscriptionInvalidationBarrier) (next_shard_idx : Z)
    : M RouterState (BarrierDeliveryResult * Z) :=
  count ← gets (λ r, length (rt_router_to_shard_queues r));
  if bool_decide (sb_reason b = kREASON_NONE) || (count =? 0)%nat || (next_shard_idx >? Z.of_nat count)
  then mret (kDELIVERY_INVALID_TARGET, next_shard_idx)
  else barrier_loop count b next_shard_idx.

Definition begin_market_barrier (b : MarketInvalidationBarrier) : M RouterState RouterRouteResult :=
  result ← route_market_barrier b;
  match result with
  | kDELIVERED =>
      modify (λ r, r ⟪ rt_market_barriers_delivered ::= incr ⟫);;
      mret kROUTE_COMPLETED
  | kDELIVERY_BLOCKED =>
      modify (λ r, r ⟪ rt_pending_barrier := Some (PendingMarketBarrier b) ⟫ ⟪ rt_barriers_deferred ::= incr ⟫);;
      mret kROUTE_BLOCKED
  | kDELIVERY_INVALID_TARGET => mret kROUTE_FAULTED
  end.

Definition begin_subscription_barrier (b : OrderBookSubscriptionInvalidationBarrier)
    : M RouterState RouterRouteResult :=
  result ← route_subscription_barrier b 0;
  match result with
  | (kDELIVERED, _) => finish_subscription_barrier b
  | (kDELIVERY_BLOCKED, next_shard_idx) =>
      modify (λ r, r ⟪ rt_pending_barrier := Some (PendingSubscriptionBarrier b next_shard_idx) ⟫
                     ⟪ rt_barriers_deferred ::= incr ⟫);;
      mret kROUTE_BLOCKED
  | (kDELIVERY_INVALID_TARGET, _) => mret kROUTE_FAULTED
  end.

(** The barrier that replaces a lost order-book frame. *)
Definition loss_barrier (handle : FrameHandle) (incident_id : Z) : MarketInvalidationBarrier :=
  mkMarketInvalidationBarrier (fh_universe_version handle) (mkIntegrityIncidentKey kROUTER 0 incident_id)
    (fh_sid handle) (fh_sequence handle) (fh_market_id handle) (fh_event_id handle) (fh_shard_index handle)
    (fh_shard_event_index handle) (fh_event_market_index handle) kROUTER_TO_SHARD_DELIVERY_LOSS.

Definition record_channel_latency (field : FrameKind) (start_ns end_ns : Z)
    (l : list Histogram.LatencyHistogram) : list Histogram.LatencyHistogram :=
  alter (λ h, Histogram.record_elapsed_ns h start_ns end_ns) (market_data_channel_index field) l.

Definition route_frame (handle : FrameHandle) : M RouterState RouterRouteResult :=
  router_dequeue_ts_ns ← monotonic_now_ns;
  modify (λ r, r ⟪ rt_wire_to_router_latency ::=
    record_channel_latency (fh_kind handle) (fh_wire_publish_ts_ns handle) router_dequeue_ts_ns ⟫
    ⟪ rt_total_frames_seen ::= incr ⟫ ⟪ rt_current_frame_count ::= incr ⟫);;
  with_channel_stats (fh_kind handle) (λ s, s ⟪ ct_frames_observed ::= incr ⟫);;
  router_publish_ts_ns ← monotonic_now_ns;
  let routed_handle := handle ⟪ fh_router_publish_ts_ns := router_publish_ts_ns ⟫ in
  modify (λ r, r ⟪ rt_router_service_latency ::=
    record_channel_latency (fh_kind handle) router_dequeue_ts_ns router_publish_ts_ns ⟫);;
  enqueued ← try_route_to_shard routed_handle;
  match enqueued with
  | kENQUEUED =>
      modify (λ r, r ⟪ rt_total_frames_to_shards ::= incr ⟫);;
      maybe_send_periodic_telemetry;;
      mret kROUTE_COMPLETED
  | kFULL =>
      with_channel_stats (fh_kind handle) (λ s, s ⟪ ct_downstream_delivery_losses ::= incr ⟫);;
      _ ← send_telemetry (RcShardBackpressure (mkShardBackpressure (fh_shard_index handle)
            (fh_affinity_key handle) (fh_market_id handle) (fh_event_id handle)));
      handed ← terminal_handoff routed_handle;
      if negb handed then
        maybe_send_periodic_telemetry;;
        mret kROUTE_FAULTED
      else
        if is_order_book (fh_kind handle) then
          incident_id ← gets rt_next_router_incident_id;
          modify (λ r, r ⟪ rt_next_router_incident_id ::= incr ⟫);;
          result ← begin_market_barrier (loss_barrier handle incident_id);
          maybe_send_periodic_telemetry;;
          mret result
        else
          maybe_send_periodic_telemetry;;
          mret kROUTE_COMPLETED
  | kENQUEUE_INVALID_TARGET =>
      _ ← terminal_handoff routed_handle;
      maybe_send_periodic_telemetry;;
      mret kROUTE_FAULTED
  end.

Definition blocked (r : RouterState) : bool :=
  match rt_pending_barrier r, rt_pending_subscription_recovery_fact r with
  | None, None => false
  | _, _ => true
  end.

Definition route_message (message : MarketDataPathMessage) : M RouterState RouterRouteResult :=
  is_blocked ← gets blocked;
  if is_blocked : bool then mret kROUTE_BLOCKED
  else
    match message with
    | MsgFrame handle => route_frame handle
    | MsgMarketBarrier b =>
        modify (λ r, r ⟪ rt_market_barriers_received ::= incr ⟫);;
        begin_market_barrier b
    | MsgSubscriptionBarrier b =>
        modify (λ r, r ⟪ rt_subscription_barriers_received ::= incr ⟫);;
        begin_subscription_barrier b
    end.

Definition flush_pending_barrier : M RouterState RouterRouteResult :=
  fact ← gets rt_pending_subscription_recovery_fact;
  match fact with
  | Some f =>
      sent ← send_telemetry (RcSubscriptionBarrierDelivered f);
      if sent : bool then
        modify (λ r, r ⟪ rt_pending_subscription_recovery_fact := None ⟫);;
        mret kROUTE_COMPLETED
      else mret kROUTE_BLOCKED
  | None =>
      pending ← gets rt_pending_barrier;
      match pending with
      | None => mret kROUTE_COMPLETED
      | Some (PendingMarketBarrier b) =>
          result ← route_market_barrier b;
          match result with
          | kDELIVERED =>
              modify (λ r, r ⟪ rt_market_barriers_delivered ::= incr ⟫ ⟪ rt_pending_barrier := None ⟫);;
              mret kROUTE_COMPLETED
          | kDELIVERY_BLOCKED => mret kROUTE_BLOCKED
          | kDELIVERY_INVALID_TARGET => mret kROUTE_FAULTED
          end
      | Some (PendingSubscriptionBarrier b next) =>
          result ← route_subscription_barrier b next;
          modify (λ r, r ⟪ rt_pending_barrier := Some (PendingSubscriptionBarrier b result.2) ⟫);;
          match result.1 with
          | kDELIVERED =>
              modify (λ r, r ⟪ rt_pending_barrier := None ⟫);;
              finish_subscription_barrier b
          | kDELIVERY_BLOCKED => mret kROUTE_BLOCKED
          | kDELIVERY_INVALID_TARGET => mret kROUTE_FAULTED
          end
      end
  end.

(** ** What the router's peers can see *)

Definition facts_of (l : list RouterToControl) : list OrderBookSubscriptionBarrierDelivered :=
  omap (λ m, match m with RcSubscriptionBarrierDelivered f => Some f | _ => None end) l.

(** The messages each shard was sent, the frames handed to the logger and to the
    recycler, the recovery facts reported to control, and what is still owed. *)
Record View := mkView {
  v_shards : list (option (list MarketDataPathMessage));
  v_logger : option (list FrameHandle);
  v_recycle : option (list FrameHandle);
  v_facts : option (list OrderBookSubscriptionBarrierDelivered);
  v_pending : option PendingBarrier;
  v_pending_fact : option OrderBookSubscriptionBarrierDelivered;
}.

Definition sent_opt {T} (q : option (Q T)) : option (list T) :=
  match q with Some q => Some (q_sent q) | None => None end.

Definition view (r : RouterState) : View :=
  mkView (sent_opt <$> rt_router_to_shard_queues r) (sent_opt (rt_router_to_logger_queue r))
    (sent_opt (rt_last_resort_recycle_queue r)) (facts_of <$> sent_opt (rt_router_to_control_queue r))
    (rt_pending_barrier r) (rt_pending_subscription_recovery_fact r).

#[local] Instance eta_View : Eta View := λ v,
  mkView (v_shards v) (v_logger v) (v_recycle v) (v_facts v) (v_pending v) (v_pending_fact v).

(** The part of the view a shard [s] cares about: what it was sent, then what it
    is still owed, in order. *)
Definition owed (p : option PendingBarrier) (s : nat) : list MarketDataPathMessage :=
  match p with
  | None => []
  | Some (PendingMarketBarrier b) => if bool_decide (Z.to_nat (mb_shard_index b) = s) then [MsgMarketBarrier b] else []
  | Some (PendingSubscriptionBarrier b next) =>
      if bool_decide (Z.to_nat next ≤ s)%nat then [MsgSubscriptionBarrier b] else []
  end.

Definition sent_to (v : View) (s : nat) : list MarketDataPathMessage := default [] (mjoin (v_shards v !! s)).

Definition stream (r : RouterState) (s : nat) : list MarketDataPathMessage :=
  sent_to (view r) s ++ owed (rt_pending_barrier r) s.

Context `{!PushQueueLaws Q}.

(** [r] and [r'] look the same to every peer. *)
Definition same (r r' : RouterState) : Prop := view r' = view r.

#[local] Instance same_preorder : PreOrder same.
Proof. split; unfold same; repeat intro; congruence. Qed.

Lemma push_opt_sent {T} (x : T) (q : option (Q T)) :
  sent_opt (push_opt x q).2 = if (push_opt x q).1 then (λ l, l ++ [x]) <$> sent_opt q else sent_opt q.
Proof.
  destruct q as [q|]; [|done]. cbn. pose proof (push_sent x q) as H.
  destruct (q_push x q) as [[] q']; cbn in *; by rewrite H.
Qed.

Lemma push_opt_null {T} (x : T) (q : option (Q T)) : (push_opt x q).1 = true → is_Some q.
Proof. by destruct q. Qed.

Lemma facts_of_app l l' : facts_of (l ++ l') = facts_of l ++ facts_of l'.
Proof. apply omap_app. Qed.

Lemma send_telemetry_quiet t : (∀ f, t ≠ RcSubscriptionBarrierDelivered f) → rel same (send_telemetry t).
Proof.
  intros Ht r. unfold same, send_telemetry. pose proof (push_opt_sent t (rt_router_to_control_queue r)) as H.
  destruct (push_opt t _) as [b q]. cbn in *. unfold view. cbn. f_equal.
  rewrite H. destruct b; [|done]. destruct (rt_router_to_control_queue r) as [q0|]; [|done]. cbn.
  rewrite facts_of_app. destruct t; cbn; rewrite ?app_nil_r; try done. by destruct (Ht m).
Qed.

Lemma stats_quiet kind f : rel same (with_channel_stats kind f).
Proof. intros r. done. Qed.

Lemma clock_quiet : rel same monotonic_now_ns.
Proof. intros r. done. Qed.

Lemma periodic_quiet : rel same maybe_send_periodic_telemetry.
Proof.
  intros r. unfold maybe_send_periodic_telemetry. destruct (_ || _); [done|].
  set (t := RcTelemetry _). pose proof (send_telemetry_quiet t ltac:(done) r) as H.
  destruct (send_telemetry t r) as [b r']. exact H.
Qed.

(** After a quiet command, the rest runs in a state with the same view. *)
Lemma wp_quiet {A} (m : M RouterState A) Φ r : rel same m →
  (∀ a r', view r' = view r → Φ a r') → wp m Φ r.
Proof. intros Hm Hk. eapply wp_rel; [exact Hm|]. auto. Qed.

(** Appending a message to shard [s]. *)
Definition append_shard (s : nat) (m : MarketDataPathMessage) (v : View) : View :=
  v ⟪ v_shards ::= alter (fmap (λ l, l ++ [m])) s ⟫.

Lemma push_shard_spec s m r :
  wp (push_shard s m) (λ pushed r',
    match pushed with
    | None => r' = r ∧ mjoin (v_shards (view r) !! Z.to_nat s) = None
    | Some b => is_Some (mjoin (v_shards (view r) !! Z.to_nat s)) ∧
        view r' = (if b then append_shard (Z.to_nat s) m (view r) else view r)
    end) r.
Proof.
  unfold wp, push_shard, append_shard. cbn. rewrite list_lookup_fmap.
  destruct (rt_router_to_shard_queues r !! Z.to_nat s) as [[queue|]|] eqn:E; cbn; [|done..].
  pose proof (push_sent m queue) as Hp. destruct (q_push m queue) as [b queue']; cbn in *.
  split; [by eexists|]. destruct b; unfold view, upd; cbn; f_equal; rewrite list_fmap_insert; cbn; rewrite Hp.
  - apply list_eq. intros j. rewrite list_lookup_alter.
    destruct (decide (j = Z.to_nat s)) as [->|Hne].
    + rewrite decide_True by done.
      rewrite list_lookup_insert_eq by (rewrite length_fmap; by eapply lookup_lt_Some).
      by rewrite list_lookup_fmap, E.
    + rewrite decide_False by done. by rewrite list_lookup_insert_ne.
  - apply list_insert_id. by rewrite list_lookup_fmap, E.
Qed.

Definition log_frame (h : FrameHandle) (v : View) : View := v ⟪ v_logger ::= fmap (λ l, l ++ [h]) ⟫.
Definition recycle_frame (h : FrameHandle) (v : View) : View := v ⟪ v_recycle ::= fmap (λ l, l ++ [h]) ⟫.

Lemma try_route_to_logger_spec h r :
  wp (try_route_to_logger h) (λ b r', view r' = (if b then log_frame h (view r) else view r) ∧
    (b = true → is_Some (v_logger (view r)))) r.
Proof.
  unfold wp, try_route_to_logger. pose proof (push_opt_sent h (rt_router_to_logger_queue r)) as H.
  pose proof (push_opt_null h (rt_router_to_logger_queue r)) as Hn.
  destruct (push_opt h _) as [b q]. cbn in *. unfold log_frame, view, upd. cbn. rewrite H.
  split; [by destruct b|]. intros E. destruct (Hn E) as [q0 ->]. by eexists.
Qed.

Lemma try_recycle_spec h r :
  wp (try_recycle h) (λ b r', view r' = (if b then recycle_frame h (view r) else view r) ∧
    (b = true → is_Some (v_recycle (view r)))) r.
Proof.
  unfold wp, try_recycle. pose proof (push_opt_sent h (rt_last_resort_recycle_queue r)) as H.
  pose proof (push_opt_null h (rt_last_resort_recycle_queue r)) as Hn.
  destruct (push_opt h _) as [b q]. cbn in *. unfold recycle_frame, view, upd. cbn. rewrite H.
  split; [by destruct b|]. intros E. destruct (Hn E) as [q0 ->]. by eexists.
Qed.

(** A frame handed off ends in exactly one place, or is reported as leaked. *)
Lemma terminal_handoff_spec h r :
  wp (terminal_handoff h) (λ ok r',
    if ok : bool then
      (view r' = log_frame h (view r) ∧ is_Some (v_logger (view r))) ∨
      (view r' = recycle_frame h (view r) ∧ is_Some (v_recycle (view r)))
    else view r' = view r) r.
Proof.
  unfold terminal_handoff. apply wp_bind. eapply wp_mono; [apply try_route_to_logger_spec|].
  intros b r1 [Hv Hl]. destruct b.
  { wp_steps. eapply wp_quiet; [apply stats_quiet|]. intros _ r2 Hr2. wp_steps. left.
    split; [|by apply Hl]. by rewrite Hr2. }
  apply wp_bind. eapply wp_mono; [apply try_recycle_spec|]. intros b r2 [Hv2 Hl2]. destruct b.
  { wp_steps. right. rewrite <- Hv. split; [done|by apply Hl2]. }
  unfold report_handle_leak. wp_steps. eapply wp_quiet; [by apply send_telemetry_quiet|].
  intros _ r3 Hr3. wp_steps. congruence.
Qed.

(** ** Barriers *)

Definition set_pending (p : option PendingBarrier) (v : View) : View := v ⟪ v_pending := p ⟫.

Definition valid_shard (v : View) (s : nat) : Prop := is_Some (mjoin (v_shards v !! s)).

Lemma route_market_barrier_spec b r :
  wp (route_market_barrier b) (λ res r',
    match res with
    | kDELIVERED => valid_shard (view r) (Z.to_nat (mb_shard_index b)) ∧
        view r' = append_shard (Z.to_nat (mb_shard_index b)) (MsgMarketBarrier b) (view r)
    | kDELIVERY_BLOCKED => valid_shard (view r) (Z.to_nat (mb_shard_index b)) ∧ view r' = view r ∧
        mb_reason b ≠ kREASON_NONE
    | kDELIVERY_INVALID_TARGET => r' = r ∧
        (mb_reason b = kREASON_NONE ∨ ¬ valid_shard (view r) (Z.to_nat (mb_shard_index b)))
    end) r.
Proof.
  unfold route_market_barrier. case_bool_decide as Hr; [apply wp_ret; auto|].
  apply wp_bind. eapply wp_mono; [apply push_shard_spec|]. intros [[]|] r'; wp_steps; unfold valid_shard.
  - done.
  - intros [? ?]. done.
  - intros [-> Hn]. split; [done|]. right. rewrite Hn. by intros [].
Qed.

Definition barrier_outcome (b : MarketInvalidationBarrier) (r : RouterState) (res : RouterRouteResult)
    (r' : RouterState) : Prop :=
  let s := Z.to_nat (mb_shard_index b) in
  match res with
  | kROUTE_COMPLETED => valid_shard (view r) s ∧ view r' = append_shard s (MsgMarketBarrier b) (view r)
  | kROUTE_BLOCKED => valid_shard (view r) s ∧ mb_reason b ≠ kREASON_NONE ∧
      view r' = set_pending (Some (PendingMarketBarrier b)) (view r)
  | kROUTE_FAULTED => view r' = view r
  end.

Lemma begin_market_barrier_spec b r : wp (begin_market_barrier b) (barrier_outcome b r) r.
Proof.
  unfold begin_market_barrier. apply wp_bind. eapply wp_mono; [apply route_market_barrier_spec|].
  intros [] r'; intros H; wp_steps; unfold barrier_outcome.
  - done.
  - destruct H as (? & Hv & ?). split; [done|]. split; [done|]. by rewrite <- Hv.
  - by destruct H as [-> _].
Qed.

(** The view after a subscription barrier was pushed to the shards in
    [next, stop). *)
Definition append_range (m : MarketDataPathMessage) (next stop : nat) (v : View) : View :=
  v ⟪ v_shards ::= imap (λ i o, if bool_decide (next ≤ i < stop)%nat then (λ l, l ++ [m]) <$> o else o) ⟫.

Lemma append_range_empty m n v : append_range m n n v = v.
Proof.
  destruct v. unfold append_range, upd. cbn. f_equal. apply list_eq. intros i.
  rewrite list_lookup_imap. destruct (_ !! i); [|done]. cbn. by rewrite bool_decide_eq_false_2 by lia.
Qed.

Lemma append_range_step m n k v : (S n ≤ k)%nat →
  append_range m (S n) k (append_shard n m v) = append_range m n k v.
Proof.
  intros Hk. destruct v as [sh ? ? ? ? ?]. unfold append_range, append_shard, upd. cbn. f_equal.
  apply list_eq. intros i. rewrite !list_lookup_imap, list_lookup_alter.
  destruct (decide (i = n)) as [->|Hne].
  - rewrite decide_True by done. destruct (sh !! n); [|done]. cbn.
    rewrite bool_decide_eq_false_2, bool_decide_eq_true_2 by lia. done.
  - rewrite decide_False by done. destruct (sh !! i); [|done]. cbn.
    f_equal. rewrite (bool_decide_ext _ (n ≤ i < k)%nat) by lia. done.
Qed.

Lemma append_shard_length s m v : length (v_shards (append_shard s m v)) = length (v_shards v).
Proof. destruct v. unfold append_shard, upd. cbn. apply length_alter. Qed.

Lemma valid_append_shard s m v s' : valid_shard (append_shard s m v) s' ↔ valid_shard v s'.
Proof.
  destruct v as [sh ? ? ? ? ?]. unfold valid_shard, append_shard, upd. cbn. rewrite list_lookup_alter.
  case_decide as Hs; [subst s'|done]. destruct (sh !! s) as [[l|]|]; cbn; [|done..].
  split; intros _; by eexists.
Qed.

Lemma view_shards_length r : length (v_shards (view r)) = length (rt_router_to_shard_queues r).
Proof. unfold view. cbn. apply length_fmap. Qed.

Definition loop_outcome (b : OrderBookSubscriptionInvalidationBarrier) (next : Z) (v : View)
    (res : BarrierDeliveryResult * Z) (r' : RouterState) : Prop :=
  let '(result, stop) := res in
  next ≤ stop ≤ Z.of_nat (length (v_shards v)) ∧
  view r' = append_range (MsgSubscriptionBarrier b) (Z.to_nat next) (Z.to_nat stop) v ∧
  (∀ s, (Z.to_nat next ≤ s < Z.to_nat stop)%nat → valid_shard v s) ∧
  (result = kDELIVERED → stop = Z.of_nat (length (v_shards v))) ∧
  (result = kDELIVERY_INVALID_TARGET → ¬ valid_shard v (Z.to_nat stop)).

Lemma barrier_loop_spec fuel b next r : 0 ≤ next ≤ Z.of_nat (length (v_shards (view r))) →
  Z.of_nat (length (v_shards (view r))) ≤ next + Z.of_nat fuel →
  wp (barrier_loop fuel b next) (loop_outcome b next (view r)) r.
Proof.
  revert next r. induction fuel as [|fuel IH]; intros next r Hn Hfuel; cbn [barrier_loop];
    apply wp_bind, wp_gets; rewrite <- view_shards_length;
    (destruct (Z.ltb_spec next (Z.of_nat (length (v_shards (view r))))); [|apply wp_ret;
      unfold loop_outcome; rewrite append_range_empty; split; [lia|]; split; [done|]; split; [lia|]; split; [lia|done]]).
  - lia.
  - apply wp_bind. eapply wp_mono; [apply push_shard_spec|]. intros [[]|] r'.
    + intros [Hvn Hv]. eapply wp_mono; [apply IH|].
      * rewrite Hv, append_shard_length. lia.
      * rewrite Hv, append_shard_length. lia.
      * intros [result stop] r2. unfold loop_outcome. rewrite Hv, append_shard_length.
        intros (Hb & Hv2 & Hval & Hd & Hi). split; [lia|]. split.
        { rewrite Hv2. rewrite Z2Nat.inj_add, Nat.add_1_r by lia.
          rewrite append_range_step by lia. done. }
        split.
        { intros s Hs. destruct (Nat.eq_dec s (Z.to_nat next)) as [->|]; [done|].
          apply (valid_append_shard (Z.to_nat next) (MsgSubscriptionBarrier b)), Hval. lia. }
        split; [done|]. intros E. specialize (Hi E). contradict Hi. by apply valid_append_shard.
    + intros [_ Hv]. apply wp_ret. unfold loop_outcome. rewrite append_range_empty.
      split; [lia|]. split; [done|]. split; [lia|]. done.
    + intros [-> Hn']. apply wp_ret. unfold loop_outcome. rewrite append_range_empty.
      split; [lia|]. split; [done|]. split; [lia|]. split; [done|]. intros _. unfold valid_shard. rewrite Hn'. by intros [].
Qed.

Lemma route_subscription_barrier_spec b next r : 0 ≤ next ≤ Z.of_nat (length (v_shards (view r))) →
  wp (route_subscription_barrier b next) (λ res r',
    loop_outcome b next (view r) res r' ∨
    (res = (kDELIVERY_INVALID_TARGET, next) ∧ r' = r)) r.
Proof.
  intros Hn. unfold route_subscription_barrier. wp_steps.
  destruct (_ || _ || _); [apply wp_ret; by right|].
  eapply wp_mono; [apply barrier_loop_spec; [done|]|by left].
  rewrite <- view_shards_length. lia.
Qed.

Definition set_fact (f : option OrderBookSubscriptionBarrierDelivered) (v : View) : View :=
  v ⟪ v_pending_fact := f ⟫.
Definition report_fact (f : OrderBookSubscriptionBarrierDelivered) (v : View) : View :=
  v ⟪ v_facts ::= fmap (λ l, l ++ [f]) ⟫.

Lemma send_fact_spec f r :
  wp (send_telemetry (RcSubscriptionBarrierDelivered f)) (λ sent r',
    view r' = (if sent then report_fact f (view r) else view r) ∧
    (sent = true → is_Some (v_facts (view r)))) r.
Proof.
  unfold wp, send_telemetry.
  pose proof (push_opt_sent (RcSubscriptionBarrierDelivered f) (rt_router_to_control_queue r)) as H.
  pose proof (push_opt_null (RcSubscriptionBarrierDelivered f) (rt_router_to_control_queue r)) as Hn.
  destruct (push_opt _ _) as [b q]. cbn in *. unfold report_fact, view, upd. cbn. rewrite H. split.
  - destruct b; [|done]. f_equal. destruct (rt_router_to_control_queue r); [|done]. cbn.
    by rewrite facts_of_app.
  - intros E. destruct (Hn E) as [q0 ->]. by eexists.
Qed.

Lemma finish_subscription_barrier_spec b r :
  wp (finish_subscription_barrier b) (λ res r',
    match res with
    | kROUTE_COMPLETED => view r' = report_fact (barrier_delivered_fact b) (view r) ∧
        is_Some (v_facts (view r))
    | kROUTE_BLOCKED => view r' = set_fact (Some (barrier_delivered_fact b)) (view r) ∧
        is_Some (v_facts (view r))
    | kROUTE_FAULTED => view r' = view r
    end) r.
Proof.
  unfold finish_subscription_barrier. wp_steps.
  destruct (rt_router_to_control_queue _) as [q|] eqn:E; [|by apply wp_ret].
  wp_steps. unfold send_subscription_recovery_fact. eapply wp_mono; [apply send_fact_spec|].
  intros [] r' [Hv Hs]; wp_steps.
  - split; [done|]. by apply Hs.
  - split; [change (view r' = view r) in Hv; by rewrite <- Hv|]. unfold view. cbn in E |- *. rewrite E. by eexists.
Qed.

(** ** Streams *)

Lemma stream_append s m r r' s' : valid_shard (view r) s' → view r' = append_shard s m (view r) →
  rt_pending_barrier r = None →
  stream r' s' = stream r s' ++ (if bool_decide (s = s') then [m] else []).
Proof.
  intros Hv Hview Hp. unfold stream, sent_to.
  assert (rt_pending_barrier r' = None) as Hp' by (by apply (f_equal v_pending) in Hview; rewrite <- Hp).
  rewrite Hp, Hp', Hview. cbn [owed]. rewrite !app_nil_r. destruct Hv as [l Hl].
  destruct (view r) as [sh ? ? ? ? ?]. unfold append_shard, upd. cbn in *. rewrite list_lookup_alter.
  destruct (sh !! s') as [[l'|]|] eqn:E; try done. cbn in Hl. case_decide as Hs.
  - subst s'. rewrite E, bool_decide_eq_true_2 by done. done.
  - rewrite bool_decide_eq_false_2 by congruence. cbn. by rewrite app_nil_r.
Qed.



Lemma sent_to_range m next stop v s : valid_shard v s →
  sent_to (append_range m next stop v) s =
  sent_to v s ++ (if bool_decide (next ≤ s < stop)%nat then [m] else []).
Proof.
  intros [l Hl]. destruct v as [sh ? ? ? ? ?]. unfold sent_to, append_range, upd. cbn in *.
  rewrite list_lookup_imap. destruct (sh !! s) as [[l'|]|]; try done. cbn.
  case_bool_decide; cbn; by rewrite ?app_nil_r.
Qed.

Lemma valid_shard_lt v s : valid_shard v s → (s < length (v_shards v))%nat.
Proof. intros [l Hl]. destruct (v_shards v !! s) eqn:E; [|done]. by eapply lookup_lt_Some. Qed.

(** The remaining pushes of a subscription barrier move messages from "owed" to
    "sent" and never reorder them. *)
Lemma loop_outcome_stream b next v result stop r' s : loop_outcome b next v (result, stop) r' → 0 ≤ next →
  valid_shard v s →
  sent_to (view r') s ++ owed (if bool_decide (result = kDELIVERED) then None
                               else Some (PendingSubscriptionBarrier b stop)) s =
  sent_to v s ++ owed (Some (PendingSubscriptionBarrier b next)) s.
Proof.
  intros (Hb & Hv & _ & Hd & _) Hn Hs. pose proof (valid_shard_lt v s Hs) as Hlt.
  rewrite Hv, sent_to_range by done. rewrite <- app_assoc. f_equal. cbn [owed].
  destruct (decide (result = kDELIVERED)) as [E|E].
  - specialize (Hd E). subst stop. rewrite (bool_decide_eq_true_2 _ E). cbn [owed]. rewrite app_nil_r, Nat2Z.id.
    rewrite (bool_decide_ext _ (Z.to_nat next ≤ s)%nat) by lia. done.
  - rewrite (bool_decide_eq_false_2 _ E). cbn [owed]. do 2 case_bool_decide; case_bool_decide; try lia; done.
Qed.

(** ** One routed message *)


Definition routed (h : FrameHandle) (ts : Z) : FrameHandle := h ⟪ fh_router_publish_ts_ns := ts ⟫.











Lemma try_route_to_shard_spec h r :
  wp (try_route_to_shard h) (λ res r',
    match res with
    | kENQUEUED => valid_shard (view r) (Z.to_nat (fh_shard_index h)) ∧
        view r' = append_shard (Z.to_nat (fh_shard_index h)) (MsgFrame h) (view r)
    | _ => view r' = view r
    end) r.
Proof.
  unfold try_route_to_shard. apply wp_bind. eapply wp_mono; [apply push_shard_spec|].
  intros [[]|] r'; wp_steps; [done| |].
  - by intros [_ ?].
  - by intros [-> _].
Qed.


Lemma valid_append_range m n k v s : valid_shard (append_range m n k v) s ↔ valid_shard v s.
Proof.
  destruct v as [sh ? ? ? ? ?]. unfold valid_shard, append_range, upd. cbn. rewrite list_lookup_imap.
  destruct (sh !! s) as [[l|]|]; cbn; [|by case_bool_decide|done].
  case_bool_decide; split; intros _; by eexists.
Qed.

Lemma finish_stream b r : wp (finish_subscription_barrier b) (λ res r',
  v_shards (view r') = v_shards (view r) ∧ v_pending (view r') = v_pending (view r) ∧
  v_logger (view r') = v_logger (view r) ∧ v_recycle (view r') = v_recycle (view r)) r.
Proof.
  eapply wp_mono; [apply finish_subscription_barrier_spec|].
  intros [] r'; [intros [H _]|intros [H _]|intros H]; by rewrite H.
Qed.




(** Flushing never changes any stream. *)
Definition next_in_range (r : RouterState) : Prop :=
  match rt_pending_barrier r with
  | Some (PendingSubscriptionBarrier b next) => 0 ≤ next ≤ Z.of_nat (length (v_shards (view r)))
  | _ => True
  end.

Definition unmoved (r r' : RouterState) : Prop :=
  (∀ s, valid_shard (view r) s → stream r' s = stream r s) ∧
  (∀ s, valid_shard (view r') s ↔ valid_shard (view r) s) ∧
  v_logger (view r') = v_logger (view r) ∧ v_recycle (view r') = v_recycle (view r).

Lemma unmoved_by_view r r' : v_shards (view r') = v_shards (view r) → v_pending (view r') = v_pending (view r) →
  v_logger (view r') = v_logger (view r) → v_recycle (view r') = v_recycle (view r) → unmoved r r'.
Proof.
  intros H1 H2 H3 H4. split; [|split; [intros s; unfold valid_shard; by rewrite H1|done]]. intros s _.
  change (sent_to (view r') s ++ owed (v_pending (view r')) s = sent_to (view r) s ++ owed (v_pending (view r)) s).
  unfold sent_to. by rewrite H1, H2.
Qed.

Lemma flush_market_unmoved r r1 r2 b : rt_pending_barrier r = Some (PendingMarketBarrier b) →
  view r1 = append_shard (Z.to_nat (mb_shard_index b)) (MsgMarketBarrier b) (view r) →
  view r2 = set_pending None (view r1) → unmoved r r2.
Proof.
  intros Hp Hv1 Hv2. rewrite Hv1 in Hv2.
  split; [|split; [intros s; rewrite Hv2; apply valid_append_shard|by rewrite Hv2]].
  intros s Hs. set (r0 := r ⟪ rt_pending_barrier := None ⟫).
  assert (stream r2 s = stream r0 s ++ (if bool_decide (Z.to_nat (mb_shard_index b) = s) then [MsgMarketBarrier b] else [])) as ->.
  { apply stream_append; [done| |done]. by rewrite Hv2. }
  unfold stream. rewrite Hp. cbn [rt_pending_barrier]. unfold r0 at 2, upd. cbn [rt_pending_barrier owed].
  by rewrite app_nil_r.
Qed.

Lemma flush_subscription_unmoved r r1 r2 b next result stop :
  rt_pending_barrier r = Some (PendingSubscriptionBarrier b next) → 0 ≤ next →
  loop_outcome b next (view r) (result, stop) r1 →
  v_shards (view r2) = v_shards (view r1) →
  v_pending (view r2) = (if bool_decide (result = kDELIVERED) then None
                         else Some (PendingSubscriptionBarrier b stop)) →
  v_logger (view r2) = v_logger (view r1) → v_recycle (view r2) = v_recycle (view r1) → unmoved r r2.
Proof.
  intros Hp Hn Ho Hsh Hpe Hl Hr. pose proof Ho as (_ & Hv1 & _). split; [|split].
  - intros s Hs. pose proof (loop_outcome_stream b next _ _ _ _ s Ho Hn Hs) as Hst.
    change (stream r2 s) with (sent_to (view r2) s ++ owed (v_pending (view r2)) s).
    rewrite Hpe. unfold sent_to at 1. rewrite Hsh. fold (sent_to (view r1) s). rewrite Hst.
    unfold stream. by rewrite Hp.
  - intros s. unfold valid_shard. rewrite Hsh, Hv1. apply valid_append_range.
  - by rewrite Hl, Hr, Hv1.
Qed.

Lemma flush_unmoved r : next_in_range r → wp flush_pending_barrier (λ _ r', unmoved r r') r.
Proof.
  intros Hn. unfold flush_pending_barrier. wp_steps.
  destruct (rt_pending_subscription_recovery_fact r) as [f|] eqn:Hf.
  { wp_steps. eapply wp_mono; [apply send_fact_spec|].
    intros [] r' [Hv _]; wp_steps.
    - set (r2 := r' ⟪ rt_pending_subscription_recovery_fact := None ⟫).
      assert (view r2 = set_fact None (view r')) as Hv2 by done. rewrite Hv in Hv2. clearbody r2.
      apply unmoved_by_view; by rewrite Hv2.
    - apply unmoved_by_view; by rewrite Hv. }
  wp_steps. destruct (rt_pending_barrier r) as [[b|b next]|] eqn:Hp; [| |by apply wp_ret, unmoved_by_view].
  - wp_steps. eapply wp_mono; [apply route_market_barrier_spec|]. intros [] r1 H; wp_steps.
    + destruct H as [_ Hv]. by eapply flush_market_unmoved.
    + destruct H as (_ & Hv & _). apply unmoved_by_view; by rewrite Hv.
    + destruct H as [-> _]. by apply unmoved_by_view.
  - unfold next_in_range in Hn. rewrite Hp in Hn. wp_steps.
    eapply wp_mono; [by apply route_subscription_barrier_spec|].
    intros [result stop] r1 [Ho|[[= -> ->] ->]]; wp_steps; cbn [fst snd].
    + destruct result; wp_steps.
      * eapply wp_mono; [apply finish_stream|]. intros res r2 (Hsh & Hpe & Hl & Hr).
        apply (flush_subscription_unmoved r r1 r2 b next kDELIVERED stop);
          [done|lia|done|exact Hsh|exact Hpe|exact Hl|exact Hr].
      * by apply (flush_subscription_unmoved r r1 _ b next kDELIVERY_BLOCKED stop); try lia.
      * by apply (flush_subscription_unmoved r r1 _ b next kDELIVERY_INVALID_TARGET stop); try lia.
    + by apply unmoved_by_view; try done; cbn; rewrite ?Hp.
Qed.

(** ** Runs of the router thread *)

Inductive router_op := RRoute (m : MarketDataPathMessage) | RFlush.

Definition run_op (op : router_op) : M RouterState RouterRouteResult :=
  match op with RRoute m => route_message m | RFlush => flush_pending_barrier end.

(** The messages the router accepted (a message offered while it is blocked is
    refused and must be offered again), and whether a fault was reported. *)
Fixpoint run (ops : list router_op) (r : RouterState) : list MarketDataPathMessage * bool * RouterState :=
  match ops with
  | [] => ([], false, r)
  | op :: ops' =>
      let '(res, r1) := run_op op r in
      let '(accepted, faulted, r2) := run ops' r1 in
      (match op with RRoute m => if blocked r then accepted else m :: accepted | RFlush => accepted end,
       faulted || bool_decide (res = kROUTE_FAULTED), r2)
  end.

(** *** What the router owes is consistent *)

(** A reported fact was preceded by the barrier on every shard. *)
Definition backed (v : View) (f : OrderBookSubscriptionBarrierDelivered) : Prop :=
  ∃ b, f = barrier_delivered_fact b ∧
       ∀ s, (s < length (v_shards v))%nat → MsgSubscriptionBarrier b ∈ sent_to v s.

Definition owes_ok (v : View) : Prop :=
  match v_pending v with
  | None => True
  | Some (PendingMarketBarrier b) => mb_reason b ≠ kREASON_NONE ∧ valid_shard v (Z.to_nat (mb_shard_index b))
  | Some (PendingSubscriptionBarrier b next) =>
      sb_reason b ≠ kREASON_NONE ∧ 0 ≤ next ≤ Z.of_nat (length (v_shards v)) ∧
      (∀ s, (s < Z.to_nat next)%nat → MsgSubscriptionBarrier b ∈ sent_to v s)
  end.

Definition router_ok (v : View) : Prop :=
  owes_ok v ∧ Forall (backed v) (default [] (v_facts v)) ∧
  match v_pending_fact v with Some f => backed v f ∧ v_pending v = None | None => True end.

(** Shards keep what they were sent and never disappear. *)
Definition grows (v v' : View) : Prop :=
  length (v_shards v') = length (v_shards v) ∧
  (∀ s, valid_shard v s → valid_shard v' s) ∧
  (∀ s m, m ∈ sent_to v s → m ∈ sent_to v' s).

#[local] Instance grows_preorder : PreOrder grows.
Proof. split; unfold grows; [naive_solver|]. intros v1 v2 v3 (?&?&?) (?&?&?). split; [congruence|naive_solver]. Qed.

Lemma backed_grows v v' f : grows v v' → backed v f → backed v' f.
Proof. intros (Hl & _ & Hs) (b & -> & Hb). exists b. split; [done|]. intros s. rewrite Hl. auto. Qed.

Lemma grows_append_shard s m v : grows v (append_shard s m v).
Proof.
  split; [apply append_shard_length|]. split; [by intros s'; rewrite valid_append_shard|].
  intros s' m' Hm. destruct v as [sh ? ? ? ? ?]. unfold sent_to, append_shard, upd in *. cbn in *.
  rewrite list_lookup_alter. case_decide as Hs; [subst s'|done]. destruct (sh !! s) as [[l|]|]; cbn in *; [|done..].
  apply elem_of_app. by left.
Qed.

Lemma append_range_length m n k v : length (v_shards (append_range m n k v)) = length (v_shards v).
Proof. destruct v. unfold append_range, upd. cbn. apply length_imap. Qed.

Lemma append_range_elem m n k v s : valid_shard v s → (n ≤ s < k)%nat → m ∈ sent_to (append_range m n k v) s.
Proof.
  intros Hv Hs. rewrite sent_to_range by done. rewrite bool_decide_eq_true_2 by done.
  apply elem_of_app. right. by apply list_elem_of_singleton.
Qed.

Lemma grows_append_range m n k v : grows v (append_range m n k v).
Proof.
  split; [apply append_range_length|]. split; [by intros s; rewrite valid_append_range|].
  intros s m' Hm. destruct (decide (valid_shard v s)) as [Hv|Hv].
  - rewrite sent_to_range by done. apply elem_of_app. by left.
  - exfalso. unfold sent_to, valid_shard in *. destruct (mjoin _); [|by apply not_elem_of_nil in Hm].
    apply Hv. by eexists.
Qed.

Lemma owes_none v : v_pending v = None → owes_ok v.
Proof. unfold owes_ok. by intros ->. Qed.

(** A step that grows the shards, keeps the facts and leaves a consistent debt. *)
Lemma router_ok_grows v v' : router_ok v → grows v v' → v_facts v' = v_facts v →
  v_pending_fact v = None → v_pending_fact v' = None → owes_ok v' → router_ok v'.
Proof.
  intros (_ & Hf & _) Hg Hfe Hp Hp' Ho. split; [done|]. rewrite Hfe, Hp'. split; [|done].
  eapply Forall_impl; [exact Hf|]. intros f. by apply backed_grows.
Qed.

Lemma not_blocked r : blocked r = false → v_pending (view r) = None ∧ v_pending_fact (view r) = None.
Proof. unfold blocked. cbn. by destruct (rt_pending_barrier r), (rt_pending_subscription_recovery_fact r). Qed.

(** Every command of [route_frame] before the barrier only grows the view. *)
Definition calm (r r' : RouterState) : Prop :=
  grows (view r) (view r') ∧ v_facts (view r') = v_facts (view r) ∧
  v_pending (view r') = v_pending (view r) ∧ v_pending_fact (view r') = v_pending_fact (view r).

#[local] Instance calm_preorder : PreOrder calm.
Proof.
  split; unfold calm; [intros r; split; [reflexivity|done]|].
  intros r1 r2 r3 (?&?&?&?) (?&?&?&?). split; [by etrans|]. split; [congruence|]. split; congruence.
Qed.

Lemma same_calm r r' : view r' = view r → calm r r'.
Proof. intros H. unfold calm. rewrite H. by split; [reflexivity|]. Qed.

Lemma router_ok_calm r r' : router_ok (view r) → blocked r = false → calm r r' → router_ok (view r').
Proof.
  intros Hok Hb (Hg & Hf & Hp & Hpf). destruct (not_blocked r Hb) as [Hp0 Hpf0].
  apply (router_ok_grows (view r)); try done; [congruence|]. apply owes_none. congruence.
Qed.

Lemma barrier_outcome_ok b r res r' : router_ok (view r) → blocked r = false →
  barrier_outcome b r res r' → router_ok (view r').
Proof.
  intros Hok Hb. destruct (not_blocked r Hb) as [Hp Hpf]. unfold barrier_outcome. destruct res.
  - intros [_ Hv]. rewrite Hv. apply (router_ok_grows (view r)); try done; [apply grows_append_shard|by apply owes_none].
  - intros (Hval & Hr & Hv). rewrite Hv. apply (router_ok_grows (view r)); try done.
  - by intros ->.
Qed.

Lemma blocked_calm r r' : calm r r' → blocked r' = blocked r.
Proof.
  intros (_ & _ & Hp & Hpf). change (rt_pending_barrier r' = rt_pending_barrier r) in Hp.
  change (rt_pending_subscription_recovery_fact r' = rt_pending_subscription_recovery_fact r) in Hpf.
  unfold blocked. by rewrite Hp, Hpf.
Qed.

Lemma handoff_calm h r : wp (terminal_handoff h) (λ _ r', calm r r') r.
Proof.
  eapply wp_mono; [apply terminal_handoff_spec|]. intros [] r'.
  - intros [[H _]|[H _]]; unfold calm; rewrite H; (split; [|done]); by split.
  - apply same_calm.
Qed.

Lemma route_frame_ok h r : router_ok (view r) → blocked r = false →
  wp (route_frame h) (λ _ r', router_ok (view r')) r.
Proof.
  intros Hok Hb. unfold route_frame. wp_steps. eapply wp_quiet; [apply clock_quiet|]. intros ts0 r1 H1.
  wp_steps. eapply wp_quiet; [apply stats_quiet|]. intros _ r2 H2. wp_steps.
  eapply wp_quiet; [apply clock_quiet|]. intros ts r3 H3. wp_steps. fold (routed h ts).
  eapply wp_mono; [apply try_route_to_shard_spec|]. intros res r4 H4.
  assert (view r3 = view r) as Hr3 by (rewrite H3, H2; exact H1). clear H1 H2 H3 r1 r2.
  assert (∀ g, view r3 ⟪ rt_router_service_latency ::= g ⟫ = view r3) as Hlat by done.
  rewrite Hlat, Hr3 in H4. clear Hlat.
  assert (calm r r4) as Hc4.
  { destruct res; [|by apply same_calm..]. destruct H4 as [_ H4]. unfold calm. rewrite H4.
    split; [apply grows_append_shard|done]. }
  clear H4. destruct res.
  - wp_steps. eapply wp_quiet; [apply periodic_quiet|]. intros _ r5 H5. wp_steps.
    rewrite H5. by apply (router_ok_calm r r4).
  - wp_steps. eapply wp_quiet; [apply stats_quiet|]. intros _ r5 H5. wp_steps.
    eapply wp_quiet; [by apply send_telemetry_quiet|]. intros _ r6 H6. wp_steps.
    eapply wp_mono; [apply handoff_calm|]. intros ok r7 H7.
    assert (calm r r7) as Hc7.
    { etrans; [exact Hc4|]. etrans; [apply same_calm; exact H5|]. etrans; [by apply same_calm|done]. }
    pose proof (router_ok_calm r r7 Hok Hb Hc7) as Hok7. rewrite <- (blocked_calm r r7 Hc7) in Hb.
    destruct ok; cbn [negb].
    2: { wp_steps. eapply wp_quiet; [apply periodic_quiet|]. intros _ r8 H8. wp_steps. by rewrite H8. }
    destruct (is_order_book (fh_kind h)).
    + wp_steps. eapply wp_mono; [apply begin_market_barrier_spec|]. intros res r8 H8. wp_steps.
      eapply wp_quiet; [apply periodic_quiet|]. intros _ r9 H9. wp_steps. rewrite H9.
      by eapply barrier_outcome_ok.
    + wp_steps. eapply wp_quiet; [apply periodic_quiet|]. intros _ r8 H8. wp_steps. by rewrite H8.
  - wp_steps. eapply wp_mono; [apply handoff_calm|]. intros ok r5 H5. wp_steps.
    eapply wp_quiet; [apply periodic_quiet|]. intros _ r6 H6. wp_steps. rewrite H6.
    apply (router_ok_calm r r5); [done..|]. by etrans.
Qed.

(** The barrier is on every shard: the fact may be reported. *)
Lemma finish_ok b r : Forall (backed (view r)) (default [] (v_facts (view r))) →
  v_pending (view r) = None → v_pending_fact (view r) = None → backed (view r) (barrier_delivered_fact b) →
  wp (finish_subscription_barrier b) (λ _ r', router_ok (view r')) r.
Proof.
  intros Hf Hp Hpf Hb. eapply wp_mono; [apply finish_subscription_barrier_spec|].
  intros [] r'; [intros [Hv Hs]|intros [Hv Hs]|intros Hv]; rewrite Hv;
    (split; [by apply owes_none|]); cbn [v_facts v_pending_fact report_fact set_fact upd].
  - unfold report_fact, upd. cbn [v_facts v_pending_fact]. rewrite Hpf. destruct Hs as [l Hl].
    rewrite Hl in Hf |- *. cbn in *. split; [|done]. by apply Forall_app; split; [|apply Forall_singleton].
  - unfold set_fact, upd. cbn [v_facts v_pending_fact v_pending]. done.
  - by rewrite Hpf.
Qed.

Lemma loop_delivered b next v stop r' : loop_outcome b next v (kDELIVERED, stop) r' → 0 ≤ next →
  (∀ s, (s < Z.to_nat next)%nat → MsgSubscriptionBarrier b ∈ sent_to v s) →
  grows v (view r') ∧ backed (view r') (barrier_delivered_fact b).
Proof.
  intros (Hb & Hv & Hval & Hd & _) Hn Hpre. specialize (Hd eq_refl). subst stop. rewrite Nat2Z.id in *.
  rewrite Hv. split; [apply grows_append_range|]. exists b. split; [done|]. intros s Hs.
  rewrite append_range_length in Hs. destruct (decide (s < Z.to_nat next)%nat).
  - apply (grows_append_range (MsgSubscriptionBarrier b) (Z.to_nat next) (length (v_shards v)) v). by apply Hpre.
  - apply append_range_elem; [apply Hval|]; lia.
Qed.

Lemma loop_pending_ok b next v result stop r' : loop_outcome b next v (result, stop) r' → 0 ≤ next →
  sb_reason b ≠ kREASON_NONE →
  (∀ s, (s < Z.to_nat next)%nat → MsgSubscriptionBarrier b ∈ sent_to v s) →
  grows v (view r') ∧ owes_ok (set_pending (Some (PendingSubscriptionBarrier b stop)) (view r')).
Proof.
  intros (Hb & Hv & Hval & _) Hn Hr Hpre.
  assert (grows v (view r')) as Hg by (rewrite Hv; apply grows_append_range). split; [done|].
  cbn [owes_ok set_pending v_pending upd]. unfold owes_ok, set_pending, upd. cbn [v_pending].
  split; [done|]. destruct Hg as (Hlen & _ & Hs). change (v_shards (mkView _ _ _ _ _ _)) with (v_shards (view r')).
  split; [rewrite Hlen; lia|]. intros s Hlt. change (sent_to (mkView _ _ _ _ _ _) s) with (sent_to (view r') s).
  destruct (decide (s < Z.to_nat next)%nat); [by apply Hs, Hpre|].
  rewrite Hv. apply append_range_elem; [apply Hval|]; lia.
Qed.

Lemma range_facts b next v res r' : loop_outcome b next v res r' →
  v_facts (view r') = v_facts v ∧ v_pending (view r') = v_pending v ∧ v_pending_fact (view r') = v_pending_fact v ∧
  v_logger (view r') = v_logger v.
Proof. destruct res as [result stop]. intros (_ & -> & _). done. Qed.

Lemma route_subscription_reason b next r :
  wp (route_subscription_barrier b next) (λ res _, res.1 ≠ kDELIVERY_INVALID_TARGET → sb_reason b ≠ kREASON_NONE) r.
Proof.
  unfold route_subscription_barrier. wp_steps. case_bool_decide as E; [by apply wp_ret|].
  unfold wp. destruct (_ || _); cbn; done.
Qed.

(** The rest of a subscription barrier, from a first push or from a flush. *)
Lemma deliver_subscription_ok b next r (k : BarrierDeliveryResult * Z → M RouterState RouterRouteResult) Φ :
  router_ok (view r) → v_pending_fact (view r) = None → 0 ≤ next ≤ Z.of_nat (length (v_shards (view r))) →
  (∀ s, (s < Z.to_nat next)%nat → MsgSubscriptionBarrier b ∈ sent_to (view r) s) →
  (∀ stop r1, loop_outcome b next (view r) (kDELIVERED, stop) r1 →
     Forall (backed (view r1)) (default [] (v_facts (view r1))) →
     backed (view r1) (barrier_delivered_fact b) → wp (k (kDELIVERED, stop)) Φ r1) →
  (∀ result stop r1, loop_outcome b next (view r) (result, stop) r1 → result ≠ kDELIVERED →
     (result = kDELIVERY_BLOCKED → sb_reason b ≠ kREASON_NONE) →
     grows (view r) (view r1) → wp (k (result, stop)) Φ r1) →
  (wp (k (kDELIVERY_INVALID_TARGET, next)) Φ r) →
  wp (route_subscription_barrier b next ≫= k) Φ r.
Proof.
  intros (_ & Hf & _) Hpf Hn Hpre Hdel Hother Hinv. apply wp_bind.
  eapply wp_mono; [apply wp_and; [by apply route_subscription_barrier_spec|apply route_subscription_reason]|].
  intros [result stop] r1 [[Ho|[[= -> ->] ->]] Hr]; [|done]. cbn [fst] in Hr.
  assert (grows (view r) (view r1)) as Hg
    by (pose proof Ho as (_ & -> & _); apply grows_append_range).
  destruct (decide (result = kDELIVERED)) as [->|Hne].
  - apply Hdel; [done| |apply (loop_delivered b next (view r) stop r1 Ho); [lia|done]].
    rewrite (proj1 (range_facts _ _ _ _ _ Ho)). eapply Forall_impl; [exact Hf|].
    intros f. by apply backed_grows.
  - apply (Hother result); [done..| |done]. intros ->. by apply Hr.
Qed.

Lemma begin_subscription_ok b r : router_ok (view r) → blocked r = false →
  wp (begin_subscription_barrier b) (λ _ r', router_ok (view r')) r.
Proof.
  intros Hok Hb. destruct (not_blocked r Hb) as [Hp Hpf]. unfold begin_subscription_barrier.
  apply deliver_subscription_ok; try done; [lia|cbn; lia|..].
  - intros stop r1 Ho Hf Hbk. destruct (range_facts _ _ _ _ _ Ho) as (_ & Hp1 & Hpf1 & _).
    apply finish_ok; try done; congruence.
  - intros result stop r1 Ho Hne Hr Hg. destruct (range_facts _ _ _ _ _ Ho) as (Hf1 & Hp1 & Hpf1 & _).
    destruct result; [done| |].
    + wp_steps. destruct (loop_pending_ok b 0 (view r) kDELIVERY_BLOCKED stop r1 Ho) as [_ Ho'];
        [lia|by apply Hr|cbn; lia|].
      apply (router_ok_grows (view r)); [done|exact Hg|exact Hf1|done| |exact Ho'].
      change (v_pending_fact (view r1) = None). congruence.
    + wp_steps. apply (router_ok_grows (view r)); [done|done|done|done|congruence|apply owes_none; congruence].
Qed.

Lemma route_message_ok m r : router_ok (view r) → wp (route_message m) (λ _ r', router_ok (view r')) r.
Proof.
  intros Hok. unfold route_message. wp_steps. destruct (blocked r) eqn:Hb; [by apply wp_ret|].
  destruct m as [h|b|b].
  - by apply route_frame_ok.
  - wp_steps. eapply wp_mono; [apply begin_market_barrier_spec|]. intros res r' Ho.
    by eapply barrier_outcome_ok.
  - wp_steps. by apply begin_subscription_ok.
Qed.

Lemma flush_ok r : router_ok (view r) → wp flush_pending_barrier (λ _ r', router_ok (view r')) r.
Proof.
  intros Hok. pose proof Hok as (Ho & Hf & Hpf). unfold flush_pending_barrier. wp_steps.
  destruct (rt_pending_subscription_recovery_fact r) as [f|] eqn:Hfact.
  { cbn [view v_pending_fact] in Hpf. rewrite Hfact in Hpf. destruct Hpf as [Hbk Hp0].
    wp_steps. eapply wp_mono; [apply send_fact_spec|]. intros [] r' [Hv Hs]; wp_steps; [|by rewrite Hv].
    set (r2 := r' ⟪ rt_pending_subscription_recovery_fact := None ⟫).
    assert (view r2 = set_fact None (view r')) as Hv2 by done. rewrite Hv2, Hv. clear r2 Hv2.
    split; [by apply owes_none|]. destruct (Hs eq_refl) as [l Hl].
    unfold report_fact, set_fact, upd. cbn [v_facts v_pending_fact]. rewrite Hl in Hf |- *. cbn in Hf |- *.
    split; [|done]. by apply Forall_app; split; [|apply Forall_singleton]. }
  clear Hpf. assert (v_pending_fact (view r) = None) as Hpf by exact Hfact.
  wp_steps. destruct (rt_pending_barrier r) as [[b|b next]|] eqn:Hp; [| |by apply wp_ret].
  - wp_steps. eapply wp_mono; [apply route_market_barrier_spec|]. intros [] r1 H; wp_steps.
    + destruct H as [_ Hv]. set (r2 := _ ⟪ rt_pending_barrier := None ⟫).
      assert (view r2 = set_pending None (view r1)) as Hv2 by done. rewrite Hv2, Hv.
      apply (router_ok_grows (view r)); try done. apply grows_append_shard.
    + destruct H as (_ & -> & _). done.
    + by destruct H as [-> _].
  - unfold owes_ok in Ho. cbn [view v_pending] in Ho. rewrite Hp in Ho. destruct Ho as (Hr & Hn & Hpre).
    apply deliver_subscription_ok; try done.
    + intros stop r1 Hl Hfs Hbk. destruct (range_facts _ _ _ _ _ Hl) as (_ & _ & Hpf1 & _).
      wp_steps. cbn [fst snd]. wp_steps. apply finish_ok; try done. by rewrite <- Hpf.
    + intros result stop r1 Hl Hne _ Hg. destruct (range_facts _ _ _ _ _ Hl) as (Hf1 & Hp1 & Hpf1 & _).
      destruct (loop_pending_ok b next (view r) result stop r1 Hl) as [_ Ho']; [lia|done..|].
      wp_steps. cbn [fst snd]. destruct result; [done|..]; wp_steps;
        (apply (router_ok_grows (view r)); [done|exact Hg|exact Hf1|done| |exact Ho']);
        (change (v_pending_fact (view r1) = None); congruence).
    + wp_steps. cbn [fst snd]. wp_steps. set (r1 := r ⟪ rt_pending_barrier := _ ⟫).
      assert (view r1 = view r) as ->; [|done]. unfold r1, view, upd. cbn. by rewrite Hp.
Qed.

Lemma run_op_ok op r : router_ok (view r) → router_ok (view (run_op op r).2).
Proof. intros Hok. destruct op; [by apply route_message_ok|by apply flush_ok]. Qed.

Lemma run_ok ops r : router_ok (view r) → router_ok (view (run ops r).2).
Proof.
  revert r. induction ops as [|op ops IH]; intros r Hok; cbn; [done|].
  pose proof (run_op_ok op r Hok) as H1. destruct (run_op op r) as [res r1].
  specialize (IH r1 H1). by destruct (run ops r1) as [[acc ft] r2].
Qed.

Lemma router_ok_range r : router_ok (view r) → next_in_range r.
Proof. intros [Ho _]. unfold owes_ok in Ho. unfold next_in_range. cbn [view v_pending] in Ho. destruct (rt_pending_barrier r) as [[]|]; tauto. Qed.


(** Control learns that a subscription barrier was delivered only after
    every shard was sent it: in every reachable state each reported (or pending)
    recovery fact is the fact of a barrier that is in the queue history of every
    shard, and while a barrier or a fact is pending no other message is routed. *)
Theorem facts_follow_barriers ops r m :
  router_ok (view r) →
  let r' := (run ops r).2 in
  Forall (backed (view r')) (default [] (v_facts (view r'))) ∧
  (∀ f, v_pending_fact (view r') = Some f → backed (view r') f) ∧
  (blocked r' = true → route_message m r' = (kROUTE_BLOCKED, r')).
Proof.
  intros Hok r'. destruct (run_ok ops r Hok) as (_ & Hf & Hp). fold r' in Hf, Hp.
  split; [done|]. split.
  - intros f Hfe. rewrite Hfe in Hp. apply Hp.
  - intros Hb. unfold route_message, mbind, M_bind, gets. cbn. by rewrite Hb.
Qed.

(** ** Progress *)

Definition has_room {T} (q : option (Q T)) : Prop := ∃ q', q = Some q' ∧ q_size q' < q_capacity q'.

Definition rooms_from (next : nat) (r : RouterState) : Prop :=
  ∀ s, (next ≤ s < length (rt_router_to_shard_queues r))%nat →
    ∃ q, rt_router_to_shard_queues r !! s = Some q ∧ has_room q.

Lemma push_shard_room s m r : 0 ≤ s → (Z.to_nat s < length (rt_router_to_shard_queues r))%nat →
  rooms_from (Z.to_nat s) r →
  wp (push_shard s m) (λ pushed r', pushed = Some true ∧
    rt_router_to_control_queue r' = rt_router_to_control_queue r ∧ rooms_from (S (Z.to_nat s)) r' ∧
    length (rt_router_to_shard_queues r') = length (rt_router_to_shard_queues r)) r.
Proof.
  intros Hs Hlt Hroom. unfold wp, push_shard.
  destruct (Hroom (Z.to_nat s) ltac:(lia)) as (q & Hq & q' & -> & Hr). rewrite Hq.
  pose proof (push_room m q' Hr) as Hp. destruct (q_push m q') as [b q2]. cbn in Hp. subst b. cbn.
  split; [done|]. split; [done|]. rewrite length_insert. split; [|done].
  intros s' Hs'. cbn in Hs' |- *. rewrite length_insert in Hs'. rewrite list_lookup_insert_ne by lia.
  apply Hroom. lia.
Qed.

Lemma barrier_loop_room fuel b next r : 0 ≤ next →
  Z.of_nat (length (rt_router_to_shard_queues r)) ≤ next + Z.of_nat fuel → rooms_from (Z.to_nat next) r →
  wp (barrier_loop fuel b next) (λ res r', res.1 = kDELIVERED ∧
    rt_router_to_control_queue r' = rt_router_to_control_queue r) r.
Proof.
  revert next r. induction fuel as [|fuel IH]; intros next r Hn Hfuel Hroom; cbn [barrier_loop];
    apply wp_bind, wp_gets;
    (destruct (Z.ltb_spec next (Z.of_nat (length (rt_router_to_shard_queues r)))); [|by apply wp_ret]); [lia|].
  apply wp_bind. eapply wp_mono; [apply push_shard_room; [done|lia|done]|].
  intros pushed r1 (-> & Hc & Hr1 & Hl). eapply wp_mono; [apply (IH (next + 1) r1)|].
  - lia.
  - lia.
  - by rewrite Z2Nat.inj_add, Nat.add_1_r by lia.
  - intros res r2 [Hres Hc2]. split; [done|congruence].
Qed.

(** The facts that control has been sent. *)
Definition facts_sent (r : RouterState) : list OrderBookSubscriptionBarrierDelivered := default [] (v_facts (view r)).

(** The facts control is still to be told: the one that waits, or the one that the
    subscription barrier under way ends in. *)
Definition facts_owed (r : RouterState) : list OrderBookSubscriptionBarrierDelivered :=
  match rt_pending_subscription_recovery_fact r, rt_pending_barrier r with
  | Some f, _ => [f]
  | None, Some (PendingSubscriptionBarrier b _) =>
      [mkOrderBookSubscriptionBarrierDelivered (sb_universe_version b) (sb_incident b) (sb_sid b)
         (sb_expected_sequence b) (sb_observed_sequence b) (sb_reason b)]
  | None, _ => []
  end.

Lemma facts_sent_queue r r' : rt_router_to_control_queue r' = rt_router_to_control_queue r → facts_sent r' = facts_sent r.
Proof. unfold facts_sent. cbn [view v_facts]. by intros ->. Qed.

Lemma send_fact_room f r : has_room (rt_router_to_control_queue r) →
  wp (send_telemetry (RcSubscriptionBarrierDelivered f)) (λ sent r',
    sent = true ∧ rt_pending_barrier r' = rt_pending_barrier r ∧
    rt_pending_subscription_recovery_fact r' = rt_pending_subscription_recovery_fact r ∧
    facts_sent r' = facts_sent r ++ [f]) r.
Proof.
  intros (q & Hq & Hr). unfold wp, send_telemetry, facts_sent. cbn [view v_facts]. rewrite Hq. cbn.
  pose proof (push_room (RcSubscriptionBarrierDelivered f) q Hr) as Hp. pose proof (push_sent (RcSubscriptionBarrierDelivered f) q) as Hs.
  destruct (q_push _ q) as [[] q']; [|done]. cbn in Hs |- *. by rewrite Hs, facts_of_app.
Qed.

Lemma finish_room b r : has_room (rt_router_to_control_queue r) → blocked r = false →
  wp (finish_subscription_barrier b) (λ res r', res = kROUTE_COMPLETED ∧ blocked r' = false ∧
    facts_sent r' = facts_sent r ++ [barrier_delivered_fact b]) r.
Proof.
  intros Hroom Hb. unfold finish_subscription_barrier. wp_steps.
  destruct Hroom as (q & Hq & Hr).
  change (rt_router_to_control_queue r ⟪ rt_subscription_barriers_delivered ::= incr ⟫)
    with (rt_router_to_control_queue r). rewrite Hq.
  wp_steps. unfold send_subscription_recovery_fact. eapply wp_mono; [apply send_fact_room; by exists q|].
  intros sent r' (-> & Hp & Hf & Hs). wp_steps. split; [done|]. split; [|exact Hs]. unfold blocked in *. cbn in Hp, Hf.
  by rewrite Hp, Hf.
Qed.

(** With room everywhere a flush completes, unblocks the router and reports the facts owed. *)
Lemma flush_completes r : router_ok (view r) → rt_router_to_shard_queues r ≠ [] →
  rooms_from 0 r → has_room (rt_router_to_control_queue r) →
  wp flush_pending_barrier (λ res r', res = kROUTE_COMPLETED ∧ blocked r' = false ∧
    facts_sent r' = facts_sent r ++ facts_owed r) r.
Proof.
  intros (Ho & _ & Hpf) Hne Hroom Hctl. unfold facts_owed.
  unfold flush_pending_barrier. wp_steps.
  destruct (rt_pending_subscription_recovery_fact r) as [f|] eqn:Hfact.
  { cbn [view v_pending_fact] in Hpf. rewrite Hfact in Hpf. destruct Hpf as [_ Hp0].
    wp_steps. eapply wp_mono; [by apply send_fact_room|]. intros sent r' (-> & Hp & _ & Hs). wp_steps.
    split; [done|]. split; [|exact Hs]. unfold blocked. cbn. rewrite Hp. cbn [view v_pending] in Hp0. by rewrite Hp0. }
  wp_steps. unfold owes_ok in Ho. cbn [view v_pending] in Ho.
  destruct (rt_pending_barrier r) as [[b|b next]|] eqn:Hp.
  - destruct Ho as [Hr Hval]. wp_steps. unfold route_market_barrier.
    rewrite bool_decide_eq_false_2 by done. wp_steps.
    pose proof (valid_shard_lt _ _ Hval) as Hlt. rewrite view_shards_length in Hlt.
    eapply wp_mono; [apply wp_and; [apply push_shard_spec|]|].
    { replace (push_shard (mb_shard_index b)) with (push_shard (Z.of_nat (Z.to_nat (mb_shard_index b)))).
      - apply push_shard_room; [lia|lia|]. intros s Hs. apply Hroom. lia.
      - unfold push_shard. by rewrite Nat2Z.id. }
    intros pushed r1 [Hv (-> & Hc & _)]. wp_steps. destruct Hv as [_ Hv]. split; [done|].
    split; [|rewrite app_nil_r; by apply facts_sent_queue].
    assert (rt_pending_subscription_recovery_fact r1 = None) as Hf1
      by (etrans; [exact (f_equal v_pending_fact Hv)|exact Hfact]).
    unfold blocked, upd. cbn. by rewrite Hf1.
  - destruct Ho as (Hr & Hn & _). rewrite view_shards_length in Hn. wp_steps. unfold route_subscription_barrier.
    wp_steps. rewrite bool_decide_eq_false_2 by done.
    destruct (Nat.eqb_spec (length (rt_router_to_shard_queues r)) 0) as [E|_];
      [by apply length_zero_iff_nil in E|]. rewrite Z.gtb_ltb.
    destruct (Z.ltb_spec (Z.of_nat (length (rt_router_to_shard_queues r))) next); [lia|]. cbn [orb].
    eapply wp_mono; [apply wp_and; [apply barrier_loop_room|apply barrier_loop_spec]|]; rewrite ?view_shards_length;
      [lia|lia|intros s Hs; apply Hroom; lia|lia|lia|].
    intros [result stop] r1 [[Hres Hc] Hl]. cbn in Hres. subst result. wp_steps. cbn [fst snd]. wp_steps.
    destruct (range_facts _ _ _ _ _ Hl) as (_ & _ & Hpf1 & _).
    match goal with |- wp _ _ ?r2 => rewrite <- (facts_sent_queue r r2) by exact Hc end.
    apply finish_room; [by cbn; rewrite Hc|]. unfold blocked, upd. cbn.
    change (rt_pending_subscription_recovery_fact r1 = rt_pending_subscription_recovery_fact r) in Hpf1.
    by rewrite Hpf1, Hfact.
  - wp_steps. split; [done|]. rewrite app_nil_r. split; [|done]. unfold blocked. by rewrite Hp, Hfact.
Qed.

(** C23: a blocked router recovers: once every shard queue and the control queue have room
    for one message, a single flush reports completion, accepts messages again and has
    delivered everything that was owed: each shard has been sent exactly what it was owed
    after what it had been sent before, control exactly the fact it was owed, and the
    frames handed on are as they were. *)
Theorem flush_makes_progress r : router_ok (view r) → rt_router_to_shard_queues r ≠ [] →
  rooms_from 0 r → has_room (rt_router_to_control_queue r) →
  let r' := (flush_pending_barrier r).2 in
  (flush_pending_barrier r).1 = kROUTE_COMPLETED ∧ blocked r' = false ∧
  (∀ s, (s < length (rt_router_to_shard_queues r))%nat →
     sent_to (view r') s = sent_to (view r) s ++ owed (rt_pending_barrier r) s) ∧
  facts_sent r' = facts_sent r ++ facts_owed r ∧
  v_logger (view r') = v_logger (view r) ∧ v_recycle (view r') = v_recycle (view r).
Proof.
  intros Hok Hne Hroom Hctl r'.
  destruct (flush_completes r Hok Hne Hroom Hctl) as (Hres & Hb & Hf).
  destruct (flush_unmoved r (router_ok_range r Hok)) as (Hs & _ & Hl & Hr). fold r' in Hb, Hf, Hs, Hl, Hr.
  split; [exact Hres|]. split; [exact Hb|]. split; [|done]. intros s Hlt.
  destruct (Hroom s) as (q & Hq & q' & -> & _); [lia|].
  assert (valid_shard (view r) s) as Hv by (exists (q_sent q'); cbn [view v_shards]; by rewrite list_lookup_fmap, Hq).
  specialize (Hs s Hv). unfold stream in Hs. rewrite <- Hs. unfold blocked in Hb.
  by destruct (rt_pending_barrier r'); [|rewrite app_nil_r].
Qed.
End Router.

(** ** Witnesses *)

Definition demo_fifo {T} (capacity : Z) : option (Fifo T) := Some (mkFifo capacity [] [] []).

(** Two shards whose queues hold one message each. *)
Definition demo_router : RouterState (Q := Fifo) :=
  make_router [demo_fifo 1; demo_fifo 1] (demo_fifo 4) (demo_fifo 4) (demo_fifo 4).

Definition demo_frame (seq : Z) : FrameHandle :=
  default_FrameHandle ⟪ fh_sequence := seq ⟫ ⟪ fh_kind := kORDERBOOK_DELTA ⟫.

Definition demo_barrier : OrderBookSubscriptionInvalidationBarrier :=
  default_OrderBookSubscriptionInvalidationBarrier ⟪ sb_reason := kEXCHANGE_SEQUENCE_GAP ⟫.

Definition demo_clock (n : nat) : Z := Z.of_nat n.

Lemma demo_router_ok : router_ok (view demo_router).
Proof. by split; [|split; [apply Forall_nil_2|]]. Qed.



Lemma facts_follow_barriers_witness :
  let r' := (run demo_clock [RRoute (MsgSubscriptionBarrier demo_barrier)] demo_router).2 in
  Forall (backed (view r')) (default [] (v_facts (view r'))) ∧ default [] (v_facts (view r')) ≠ [].
Proof.
  split; [|discriminate].
  exact (proj1 (facts_follow_barriers demo_clock [RRoute (MsgSubscriptionBarrier demo_barrier)] demo_router
                  (MsgFrame (demo_frame 1)) demo_router_ok)).
Defined.

(** The same router, owing a subscription barrier from the second shard on. *)
Definition demo_owing : RouterState (Q := Fifo) :=
  (make_router [Some (mkFifo 1 [] [MsgSubscriptionBarrier demo_barrier] []); demo_fifo 1]
     (demo_fifo 4) (demo_fifo 4) (demo_fifo 4))
  ⟪ rt_pending_barrier := Some (PendingSubscriptionBarrier demo_barrier 1) ⟫.

Lemma flush_makes_progress_witness :
  blocked demo_owing = true ∧ (flush_pending_barrier demo_owing).1 = kROUTE_COMPLETED ∧
  blocked (flush_pending_barrier demo_owing).2 = false ∧
  sent_to (view (flush_pending_barrier demo_owing).2) 1 = [MsgSubscriptionBarrier demo_barrier] ∧
  length (facts_sent (flush_pending_barrier demo_owing).2) = 1%nat.
Proof.
  split; [reflexivity|].
  enough (let r' := (flush_pending_barrier demo_owing).2 in
    (flush_pending_barrier demo_owing).1 = kROUTE_COMPLETED ∧ blocked r' = false ∧
    (∀ s, (s < length (rt_router_to_shard_queues demo_owing))%nat →
       sent_to (view r') s = sent_to (view demo_owing) s ++ owed (rt_pending_barrier demo_owing) s) ∧
    facts_sent r' = facts_sent demo_owing ++ facts_owed demo_owing ∧
    v_logger (view r') = v_logger (view demo_owing) ∧ v_recycle (view r') = v_recycle (view demo_owing))
    as (H1 & H2 & H3 & H4 & _).
  { split; [exact H1|]. split; [exact H2|]. split; [exact (H3 1%nat ltac:(cbn; lia))|]. rewrite H4. reflexivity. }
  apply (flush_makes_progress demo_owing).
  - split; [|split; [apply Forall_nil_2|exact I]]. split; [discriminate|]. split; [cbn; lia|].
    intros [|s] Hs; [by apply list_elem_of_here|cbn in Hs; lia].
  - discriminate.
  - intros [|[|s]] Hs; [..|cbn in Hs; lia]; (eexists; split; [reflexivity|]; eexists; split; [reflexivity|cbn; lia]).
  - eexists; split; [reflexivity|cbn; lia].
Defined.
End Router.
