(* ===== verification/ControlTypes.v ===== *)
(** * ControlTypes: universes and recovery messages

    The part of [cpp/include/predex/control/control_types.hpp] that describes the
    universe of markets and the messages of market recovery. *)

From S2P Require Import Prelude MarketTypes.

Inductive PriceLevelStructure := | kPRICE_UNKNOWN | kLINEAR_CENT | kTAPERED_DECI_CENT |
  kDECI_CENT.
#[export] Instance PriceLevelStructure_eq_dec : EqDecision PriceLevelStructure.
Proof. solve_decision. Defined.

Record UniverseMarket := mkUniverseMarket {
  um_market_id : Z;
  um_kalshi_ticker : string;
  um_tradeable : bool;
  um_price_level_structure : PriceLevelStructure;
  um_strike_key : option Z;
  um_market_time_s : Z;
  um_market_close_time_s : Z;
  um_market_expected_expiration_time_s : Z;
  um_market_expiration_time_s : Z;
}.
#[export] Instance eta_UniverseMarket : Eta UniverseMarket := λ r,
  mkUniverseMarket (um_market_id r) (um_kalshi_ticker r) (um_tradeable r)
    (um_price_level_structure r) (um_strike_key r) (um_market_time_s r) (um_market_close_time_s
    r) (um_market_expected_expiration_time_s r) (um_market_expiration_time_s r).
Definition default_UniverseMarket : UniverseMarket :=
  mkUniverseMarket 0 "" false kLINEAR_CENT None 0 0 0 0.
#[export] Instance UniverseMarket_eq_dec : EqDecision UniverseMarket.
Proof. solve_decision. Defined.

Record UniverseEvent := mkUniverseEvent {
  ue_event_id : Z;
  ue_affinity_key : Z;
  ue_topology : EventTopology;
  ue_markets : list UniverseMarket;
}.
#[export] Instance eta_UniverseEvent : Eta UniverseEvent := λ r,
  mkUniverseEvent (ue_event_id r) (ue_affinity_key r) (ue_topology r) (ue_markets r).
Definition default_UniverseEvent : UniverseEvent :=
  mkUniverseEvent 0 0 kTOPOLOGY_UNKNOWN [].
#[export] Instance UniverseEvent_eq_dec : EqDecision UniverseEvent.
Proof. solve_decision. Defined.

Record UniverseMarketRoute := mkUniverseMarketRoute {
  ur_kalshi_ticker : string;
  ur_market_id : Z;
  ur_event_id : Z;
  ur_affinity_key : Z;
  ur_topology : EventTopology;
  ur_shard_index : Z;
  ur_shard_event_index : Z;
  ur_event_market_index : Z;
  ur_tradeable : bool;
  ur_price_level_structure : PriceLevelStructure;
  ur_strike_key : option Z;
  ur_market_time_s : Z;
  ur_market_close_time_s : Z;
  ur_market_expected_expiration_time_s : Z;
  ur_market_expiration_time_s : Z;
}.
#[export] Instance eta_UniverseMarketRoute : Eta UniverseMarketRoute := λ r,
  mkUniverseMarketRoute (ur_kalshi_ticker r) (ur_market_id r) (ur_event_id r) (ur_affinity_key
    r) (ur_topology r) (ur_shard_index r) (ur_shard_event_index r) (ur_event_market_index r)
    (ur_tradeable r) (ur_price_level_structure r) (ur_strike_key r) (ur_market_time_s r)
    (ur_market_close_time_s r) (ur_market_expected_expiration_time_s r)
    (ur_market_expiration_time_s r).
Definition default_UniverseMarketRoute : UniverseMarketRoute :=
  mkUniverseMarketRoute "" 0 0 0 kTOPOLOGY_UNKNOWN 0 0 0 false kLINEAR_CENT None 0 0 0 0.
#[export] Instance UniverseMarketRoute_eq_dec : EqDecision UniverseMarketRoute.
Proof. solve_decision. Defined.

Record UniverseSnapshot := mkUniverseSnapshot {
  us_version : Z;
  us_events : list UniverseEvent;
  us_market_routes : list UniverseMarketRoute;
}.
#[export] Instance eta_UniverseSnapshot : Eta UniverseSnapshot := λ r,
  mkUniverseSnapshot (us_version r) (us_events r) (us_market_routes r).
Definition default_UniverseSnapshot : UniverseSnapshot :=
  mkUniverseSnapshot 0 [] [].

Record RecoverMarketIo := mkRecoverMarketIo {
  rq_recovery_id : Z;
  rq_universe_version : Z;
  rq_market_id : Z;
  rq_request_attempt : Z;
}.
#[export] Instance eta_RecoverMarketIo : Eta RecoverMarketIo := λ r,
  mkRecoverMarketIo (rq_recovery_id r) (rq_universe_version r) (rq_market_id r)
    (rq_request_attempt r).
Definition default_RecoverMarketIo : RecoverMarketIo :=
  mkRecoverMarketIo 0 0 0 0.
#[export] Instance RecoverMarketIo_eq_dec : EqDecision RecoverMarketIo.
Proof. solve_decision. Defined.

Record IoRecoveryRequestAccepted := mkIoRecoveryRequestAccepted {
  ra_recovery_id : Z;
  ra_universe_version : Z;
  ra_market_id : Z;
  ra_request_attempt : Z;
}.
#[export] Instance eta_IoRecoveryRequestAccepted : Eta IoRecoveryRequestAccepted := λ r,
  mkIoRecoveryRequestAccepted (ra_recovery_id r) (ra_universe_version r) (ra_market_id r)
    (ra_request_attempt r).
Definition default_IoRecoveryRequestAccepted : IoRecoveryRequestAccepted :=
  mkIoRecoveryRequestAccepted 0 0 0 0.
#[export] Instance IoRecoveryRequestAccepted_eq_dec : EqDecision IoRecoveryRequestAccepted.
Proof. solve_decision. Defined.

Record IoRecoveryRequestFailed := mkIoRecoveryRequestFailed {
  rf_recovery_id : Z;
  rf_universe_version : Z;
  rf_market_id : Z;
  rf_request_attempt : Z;
  rf_reason : string;
}.
#[export] Instance eta_IoRecoveryRequestFailed : Eta IoRecoveryRequestFailed := λ r,
  mkIoRecoveryRequestFailed (rf_recovery_id r) (rf_universe_version r) (rf_market_id r)
    (rf_request_attempt r) (rf_reason r).
Definition default_IoRecoveryRequestFailed : IoRecoveryRequestFailed :=
  mkIoRecoveryRequestFailed 0 0 0 0 "".
#[export] Instance IoRecoveryRequestFailed_eq_dec : EqDecision IoRecoveryRequestFailed.
Proof. solve_decision. Defined.

(** The first element that satisfies a test ([std::find_if]). *)
Fixpoint find_if {A} (p : A → bool) (l : list A) : option A :=
  match l with
  | [] => None
  | x :: l' => if p x then Some x else find_if p l'
  end.

Lemma find_if_Some {A} (p : A → bool) l x : find_if p l = Some x → x ∈ l ∧ p x = true.
Proof.
  induction l as [|y l IH]; cbn; [done|]. destruct (p y) eqn:E; [intros [= ->]; split; [left|done]|].
  intros H. apply IH in H as [??]. split; [by right|done].
Qed.

Lemma find_if_None {A} (p : A → bool) l : find_if p l = None → ∀ x, x ∈ l → p x = false.
Proof.
  induction l as [|y l IH]; cbn; intros H x Hx; [by apply elem_of_nil in Hx|].
  destruct (p y) eqn:E; [done|]. apply elem_of_cons in Hx as [->|Hx]; [done|by apply IH].
Qed.
