(* ===== verification/Universe.v ===== *)
(** * Universe: from the configuration to the routes of the markets

    Models [build_universe_snapshot] of [cpp/src/config/universe_builder.cpp] with the parts of
    the configuration it reads ([cpp/include/predex/config/app_config.hpp]).  A thrown
    exception is the left alternative of the result.  [std::sort] leaves the order of markets
    with equal strikes open: it is the parameter [sort_by_strike]. *)

From S2P Require Import Prelude MarketTypes ControlTypes.
From Stdlib Require Import Ascii.

(** ** Configuration *)

Record MarketConfig := mkMarketConfig {
  mc_market_id : string;
  mc_kalshi_ticker : string;
  mc_tradeable : bool;
  mc_price_level_structure : string;
  mc_strike_key : option Z;
  mc_market_time_s : Z;
  mc_market_close_time_s : Z;
  mc_market_expected_expiration_time_s : Z;
  mc_market_expiration_time_s : Z;
}.

Record EventConfig := mkEventConfig {
  ec_event_id : string;
  ec_affinity_key : string;
  ec_topology : string;
  ec_markets : list MarketConfig;
}.

Module Universe.

(** ** Numbers *)

Definition digit_value (c : ascii) : option Z :=
  let n := Z.of_nat (nat_of_ascii c) in
  if (48 <=? n) && (n <=? 57) then Some (n - 48) else None.
Definition is_space (c : ascii) : bool :=
  let n := Z.of_nat (nat_of_ascii c) in (n =? 32) || ((9 <=? n) && (n <=? 13)).

Fixpoint drop_spaces (text : list ascii) : list ascii :=
  match text with
  | c :: rest => if is_space c then drop_spaces rest else text
  | [] => []
  end.

(** The digits read, and what is left. *)
Fixpoint read_digits (value : Z) (text : list ascii) : Z * list ascii :=
  match text with
  | c :: rest => match digit_value c with Some d => read_digits (10 * value + d) rest | None => (value, text) end
  | [] => (value, [])
  end.

(** [std::stoull] in base 10: white space, a sign and digits; a number that does not fit throws
    and a negative one is taken modulo [2^64].  The text left over is returned. *)
Definition stoull (text : list ascii) : string + Z * list ascii :=
  let text := drop_spaces text in
  let '(negative, digits) :=
    match text with
    | c :: rest => if bool_decide (c = "-"%char) then (true, rest) else if bool_decide (c = "+"%char) then (false, rest) else (false, text)
    | [] => (false, [])
    end in
  let '(value, rest) := read_digits 0 digits in
  if (length rest =? length digits)%nat then inl "stoull"%string
  else if U64_MAX <? value then inl "stoull"%string
  else inr (if negative : bool then u64 (- value) else value, rest).

Definition parse_uint64 (value field_name : string) : string + Z :=
  match String.list_ascii_of_string value with
  | [] => inl (field_name +:+ " must not be empty")%string
  | text =>
      match stoull text with
      | inl e => inl e
      | inr (parsed, []) => inr parsed
      | inr _ => inl (field_name +:+ " must be an unsigned integer")%string
      end
  end.

Definition parse_id (value field_name type_name : string) : string + Z :=
  match parse_uint64 value field_name with
  | inl e => inl e
  | inr parsed => if U32_MAX <? parsed then inl (field_name +:+ " exceeds " +:+ type_name +:+ " range")%string else inr parsed
  end.
Definition parse_market_id (value : string) : string + Z := parse_id value "market_id" "MarketId".
Definition parse_event_id (value : string) : string + Z := parse_id value "event_id" "EventId".
Definition parse_affinity_key (value : string) : string + Z := parse_uint64 value "affinity_key".

Definition parse_event_topology (value : string) : string + EventTopology :=
  if bool_decide (value = "monotonic_chain"%string) then inr kMONOTONIC_CHAIN
  else if bool_decide (value = "mutually_exclusive"%string) then inr kMUTUALLY_EXCLUSIVE
  else if bool_decide (value = "unordered_group"%string) then inr kUNORDERED_GROUP
  else if bool_decide (value = "single_market"%string) then inr kSINGLE_MARKET
  else inl ("Unknown event topology: " +:+ value)%string.

Definition parse_price_level_structure (value : string) : string + PriceLevelStructure :=
  if bool_decide (value = "linear_cent"%string) then inr kLINEAR_CENT
  else if bool_decide (value = "tapered_deci_cent"%string) then inr kTAPERED_DECI_CENT
  else if bool_decide (value = "deci_cent"%string) then inr kDECI_CENT
  else inl ("Unknown price_level_structure: " +:+ value)%string.

Definition checked_u32 (value : nat) (field_name : string) : string + Z :=
  if U32_MAX <? Z.of_nat value then inl (field_name +:+ " exceeds uint32_t range")%string else inr (Z.of_nat value).

(** ** The builder *)

Section Builder.
Variable sort_by_strike : list MarketConfig → list MarketConfig.

(** The event a market is built for. *)
Record EventContext := mkEventContext {
  ct_event_id : Z;
  ct_affinity_key : Z;
  ct_topology : EventTopology;
  ct_shard_index : Z;
  ct_shard_event_index : Z;
}.

Definition build_market (e : EventContext) (market_index : nat) (m : MarketConfig) : string + UniverseMarket * UniverseMarketRoute :=
  match parse_market_id (mc_market_id m) with
  | inl error => inl error
  | inr market_id =>
      match parse_price_level_structure (mc_price_level_structure m) with
      | inl error => inl error
      | inr structure =>
          match checked_u32 market_index "event_market_index" with
          | inl error => inl error
          | inr event_market_index =>
              inr (mkUniverseMarket market_id (mc_kalshi_ticker m) (mc_tradeable m) structure (mc_strike_key m) (mc_market_time_s m)
                     (mc_market_close_time_s m) (mc_market_expected_expiration_time_s m) (mc_market_expiration_time_s m),
                   mkUniverseMarketRoute (mc_kalshi_ticker m) market_id (ct_event_id e) (ct_affinity_key e) (ct_topology e) (ct_shard_index e)
                     (ct_shard_event_index e) event_market_index (mc_tradeable m) structure (mc_strike_key m) (mc_market_time_s m)
                     (mc_market_close_time_s m) (mc_market_expected_expiration_time_s m) (mc_market_expiration_time_s m))
          end
      end
  end.

Fixpoint build_markets (e : EventContext) (market_index : nat) (markets : list MarketConfig) : string + list UniverseMarket * list UniverseMarketRoute :=
  match markets with
  | [] => inr ([], [])
  | m :: rest =>
      match build_market e market_index m with
      | inl error => inl error
      | inr (market, route) =>
          match build_markets e (S market_index) rest with
          | inl error => inl error
          | inr (built, routes) => inr (market :: built, route :: routes)
          end
      end
  end.

Definition order_markets (topology : EventTopology) (markets : list MarketConfig) : string + list MarketConfig :=
  if bool_decide (topology = kMONOTONIC_CHAIN) then
    if (length markets <? 2)%nat then inl "Monotonic chain topology requires at least two markets"%string
    else if existsb (λ m, bool_decide (mc_strike_key m = None)) markets
    then inl "Monotonic chain topology requires all markets to have a strike_key"%string
    else inr (sort_by_strike markets)
  else inr markets.

(** One event; [next_shard_event_index] counts the events of every shard. *)
Definition build_event (shard_count : Z) (next_shard_event_index : list Z) (config : EventConfig)
    : string + (UniverseEvent * list UniverseMarketRoute) * list Z :=
  match parse_event_id (ec_event_id config) with
  | inl error => inl error
  | inr event_id =>
      match parse_affinity_key (ec_affinity_key config) with
      | inl error => inl error
      | inr affinity_key =>
          match parse_event_topology (ec_topology config) with
          | inl error => inl error
          | inr topology =>
              let shard_index := u32 (affinity_key mod shard_count) in
              let shard_event_index := default 0 (next_shard_event_index !! Z.to_nat shard_index) in
              let next := alter (λ n, u32 (n + 1)) (Z.to_nat shard_index) next_shard_event_index in
              match order_markets topology (ec_markets config) with
              | inl error => inl error
              | inr markets =>
                  match build_markets (mkEventContext event_id affinity_key topology shard_index shard_event_index) 0 markets with
                  | inl error => inl error
                  | inr (built, routes) => inr (mkUniverseEvent event_id affinity_key topology built, routes, next)
                  end
              end
          end
      end
  end.

Fixpoint build_events (shard_count : Z) (next : list Z) (configs : list EventConfig) : string + list UniverseEvent * list UniverseMarketRoute :=
  match configs with
  | [] => inr ([], [])
  | config :: rest =>
      match build_event shard_count next config with
      | inl error => inl error
      | inr ((event, routes), next) =>
          match build_events shard_count next rest with
          | inl error => inl error
          | inr (events, more) => inr (event :: events, routes ++ more)
          end
      end
  end.

Definition build_universe_snapshot (configs : list EventConfig) (shard_count : Z) : string + UniverseSnapshot :=
  if shard_count =? 0 then inl "Cannot build universe snapshot with zero shards"%string
  else
    match build_events shard_count (replicate (Z.to_nat shard_count) 0) configs with
    | inl error => inl error
    | inr (events, routes) => inr (mkUniverseSnapshot 0 events routes)
    end.
End Builder.
End Universe.
