(* ===== verification/ShardTypes.v ===== *)
(** * ShardTypes: the messages between shards and control

    The enums and structs of [cpp/include/predex/shard/shard_types.hpp] and the
    result types of [cpp/include/predex/shard/market_parser.hpp] and
    [cpp/include/predex/shard/shard.hpp]. *)

From S2P Require Import Prelude LatencyHistogram MarketTypes Book Event.
Import Event.

Inductive ShardRunState := | kUNINSTALLED | kLIVE | kPREPARING_STOP | kSAFE_TO_STOP | kDRAINING |
  kDRAINED | kFAULTED.
#[export] Instance ShardRunState_eq_dec : EqDecision ShardRunState.
Proof. solve_decision. Defined.

Inductive KalshiParseFailureReason := | kPARSE_OK | kUNSUPPORTED_FRAME_KIND | kINVALID_JSON |
  kMISSING_FIELD | kPARSE_INVALID_SIDE | kPARSE_INVALID_PRICE | kINVALID_QUANTITY.
#[export] Instance KalshiParseFailureReason_eq_dec : EqDecision KalshiParseFailureReason.
Proof. solve_decision. Defined.

Record ParseResult := mkParseResult {
  pr_success : bool;
  pr_reason : KalshiParseFailureReason;
}.
#[export] Instance eta_ParseResult : Eta ParseResult := λ r,
  mkParseResult (pr_success r) (pr_reason r).
Definition default_ParseResult : ParseResult :=
  mkParseResult false kPARSE_OK.
#[export] Instance ParseResult_eq_dec : EqDecision ParseResult.
Proof. solve_decision. Defined.

Record InstallShardUniverse := mkInstallShardUniverse {
  is_universe_version : Z;
  is_shard_index : Z;
  is_events : list Event.KalshiEvent;
}.
#[export] Instance eta_InstallShardUniverse : Eta InstallShardUniverse := λ r,
  mkInstallShardUniverse (is_universe_version r) (is_shard_index r) (is_events r).
Definition default_InstallShardUniverse : InstallShardUniverse :=
  mkInstallShardUniverse 0 0 [].

Record PrepareStopUniverse := mkPrepareStopUniverse {
  sp_universe_version : Z;
  sp_shard_index : Z;
}.
#[export] Instance eta_PrepareStopUniverse : Eta PrepareStopUniverse := λ r,
  mkPrepareStopUniverse (sp_universe_version r) (sp_shard_index r).
Definition default_PrepareStopUniverse : PrepareStopUniverse :=
  mkPrepareStopUniverse 0 0.

Record DrainShardUniverse := mkDrainShardUniverse {
  sd_universe_version : Z;
  sd_shard_index : Z;
}.
#[export] Instance eta_DrainShardUniverse : Eta DrainShardUniverse := λ r,
  mkDrainShardUniverse (sd_universe_version r) (sd_shard_index r).
Definition default_DrainShardUniverse : DrainShardUniverse :=
  mkDrainShardUniverse 0 0.

Record ResumeShardUniverse := mkResumeShardUniverse {
  sr_universe_version : Z;
  sr_shard_index : Z;
}.
#[export] Instance eta_ResumeShardUniverse : Eta ResumeShardUniverse := λ r,
  mkResumeShardUniverse (sr_universe_version r) (sr_shard_index r).
Definition default_ResumeShardUniverse : ResumeShardUniverse :=
  mkResumeShardUniverse 0 0.

Inductive ControlToShardCommand :=
  | CsInstall (c : InstallShardUniverse)
  | CsPrepareStop (c : PrepareStopUniverse)
  | CsDrain (c : DrainShardUniverse)
  | CsResume (c : ResumeShardUniverse).

Record ShardUniverseInstalled := mkShardUniverseInstalled {
  si_universe_version : Z;
  si_shard_index : Z;
  si_event_count : Z;
}.
#[export] Instance eta_ShardUniverseInstalled : Eta ShardUniverseInstalled := λ r,
  mkShardUniverseInstalled (si_universe_version r) (si_shard_index r) (si_event_count r).
Definition default_ShardUniverseInstalled : ShardUniverseInstalled :=
  mkShardUniverseInstalled 0 0 0.

Record ShardFaulted := mkShardFaulted {
  sf_shard_index : Z;
  sf_universe_version : Z;
  sf_reason : string;
}.
#[export] Instance eta_ShardFaulted : Eta ShardFaulted := λ r,
  mkShardFaulted (sf_shard_index r) (sf_universe_version r) (sf_reason r).
Definition default_ShardFaulted : ShardFaulted :=
  mkShardFaulted 0 0 "".

(** One histogram per market-data channel. *)
Definition channel_latency : list Histogram.LatencyHistogram :=
  replicate kMarketDataChannelCount Histogram.empty_histogram.

Record ShardStats := mkShardStats {
  ss_frames_seen : Z;
  ss_frames_applied : Z;
  ss_parse_rejects : Z;
  ss_event_rejects : Z;
  ss_event_desyncs : Z;
  ss_frames_to_logger : Z;
  ss_frames_recycled : Z;
  ss_leaked_handles : Z;
  ss_missed_frames_to_logger : Z;
  ss_event_ignored : Z;
  ss_market_barriers_seen : Z;
  ss_subscription_barriers_seen : Z;
  ss_barrier_rejects : Z;
  ss_markets_became_unusable : Z;
  ss_markets_recovery_required : Z;
  ss_markets_already_awaiting_recovery : Z;
  ss_router_to_shard_latency : list Histogram.LatencyHistogram;
  ss_shard_service_latency : list Histogram.LatencyHistogram;
  ss_ingress_to_shard_latency : list Histogram.LatencyHistogram;
  ss_ingress_to_book_apply_latency : list Histogram.LatencyHistogram;
  ss_strategy_observations_published : Z;
  ss_strategy_event_unavailable_published : Z;
  ss_strategy_shard_unavailable_published : Z;
  ss_strategy_projection_failures : Z;
  ss_strategy_enqueue_failures : Z;
  ss_strategy_messages_suppressed : Z;
}.
#[export] Instance eta_ShardStats : Eta ShardStats := λ r,
  mkShardStats (ss_frames_seen r) (ss_frames_applied r) (ss_parse_rejects r) (ss_event_rejects
    r) (ss_event_desyncs r) (ss_frames_to_logger r) (ss_frames_recycled r) (ss_leaked_handles r)
    (ss_missed_frames_to_logger r) (ss_event_ignored r) (ss_market_barriers_seen r)
    (ss_subscription_barriers_seen r) (ss_barrier_rejects r) (ss_markets_became_unusable r)
    (ss_markets_recovery_required r) (ss_markets_already_awaiting_recovery r)
    (ss_router_to_shard_latency r) (ss_shard_service_latency r) (ss_ingress_to_shard_latency r)
    (ss_ingress_to_book_apply_latency r) (ss_strategy_observations_published r)
    (ss_strategy_event_unavailable_published r) (ss_strategy_shard_unavailable_published r)
    (ss_strategy_projection_failures r) (ss_strategy_enqueue_failures r)
    (ss_strategy_messages_suppressed r).
Definition default_ShardStats : ShardStats :=
  mkShardStats 0 0 0 0 0 0 0 0 0 0 0 0 0 0 0 0 channel_latency channel_latency channel_latency
    channel_latency 0 0 0 0 0 0.

Record ShardSafeToStopUniverse := mkShardSafeToStopUniverse {
  st_universe_version : Z;
  st_shard_index : Z;
  st_reason : string;
}.
#[export] Instance eta_ShardSafeToStopUniverse : Eta ShardSafeToStopUniverse := λ r,
  mkShardSafeToStopUniverse (st_universe_version r) (st_shard_index r) (st_reason r).
Definition default_ShardSafeToStopUniverse : ShardSafeToStopUniverse :=
  mkShardSafeToStopUniverse 0 0 "".

Record ShardDrainComplete := mkShardDrainComplete {
  dc_universe_version : Z;
  dc_shard_index : Z;
  dc_stats : ShardStats;
}.
#[export] Instance eta_ShardDrainComplete : Eta ShardDrainComplete := λ r,
  mkShardDrainComplete (dc_universe_version r) (dc_shard_index r) (dc_stats r).
Definition default_ShardDrainComplete : ShardDrainComplete :=
  mkShardDrainComplete 0 0 default_ShardStats.

Record ShardParseRejected := mkShardParseRejected {
  pj_shard_index : Z;
  pj_universe_version : Z;
  pj_sequence : Z;
  pj_market_id : Z;
  pj_event_id : Z;
  pj_reason : KalshiParseFailureReason;
}.
#[export] Instance eta_ShardParseRejected : Eta ShardParseRejected := λ r,
  mkShardParseRejected (pj_shard_index r) (pj_universe_version r) (pj_sequence r) (pj_market_id
    r) (pj_event_id r) (pj_reason r).
Definition default_ShardParseRejected : ShardParseRejected :=
  mkShardParseRejected 0 0 0 0 0 kPARSE_OK.

Record ShardApplyRejected := mkShardApplyRejected {
  aj_shard_index : Z;
  aj_universe_version : Z;
  aj_sequence : Z;
  aj_market_id : Z;
  aj_event_id : Z;
  aj_result : Event.EventApplyResult;
}.
#[export] Instance eta_ShardApplyRejected : Eta ShardApplyRejected := λ r,
  mkShardApplyRejected (aj_shard_index r) (aj_universe_version r) (aj_sequence r) (aj_market_id
    r) (aj_event_id r) (aj_result r).
Definition default_ShardApplyRejected : ShardApplyRejected :=
  mkShardApplyRejected 0 0 0 0 0 Event.default_EventApplyResult.

Record ShardEventDesynced := mkShardEventDesynced {
  ed_shard_index : Z;
  ed_universe_version : Z;
  ed_sequence : Z;
  ed_market_id : Z;
  ed_event_id : Z;
  ed_result : Event.EventApplyResult;
}.
#[export] Instance eta_ShardEventDesynced : Eta ShardEventDesynced := λ r,
  mkShardEventDesynced (ed_shard_index r) (ed_universe_version r) (ed_sequence r) (ed_market_id
    r) (ed_event_id r) (ed_result r).
Definition default_ShardEventDesynced : ShardEventDesynced :=
  mkShardEventDesynced 0 0 0 0 0 Event.default_EventApplyResult.

Record ShardTelemetry := mkShardTelemetry {
  sy_shard_index : Z;
  sy_universe_version : Z;
  sy_stats : ShardStats;
}.
#[export] Instance eta_ShardTelemetry : Eta ShardTelemetry := λ r,
  mkShardTelemetry (sy_shard_index r) (sy_universe_version r) (sy_stats r).
Definition default_ShardTelemetry : ShardTelemetry :=
  mkShardTelemetry 0 0 default_ShardStats.

Record ShardMarketRecoveryRequired := mkShardMarketRecoveryRequired {
  mq_universe_version : Z;
  mq_shard_index : Z;
  mq_incident : IntegrityIncidentKey;
  mq_sid : Z;
  mq_sequence : Z;
  mq_market_id : Z;
  mq_event_id : Z;
  mq_reason : BookInvalidationReason;
}.
#[export] Instance eta_ShardMarketRecoveryRequired : Eta ShardMarketRecoveryRequired := λ r,
  mkShardMarketRecoveryRequired (mq_universe_version r) (mq_shard_index r) (mq_incident r)
    (mq_sid r) (mq_sequence r) (mq_market_id r) (mq_event_id r) (mq_reason r).
Definition default_ShardMarketRecoveryRequired : ShardMarketRecoveryRequired :=
  mkShardMarketRecoveryRequired 0 0 default_IntegrityIncidentKey 0 0 0 0 kREASON_NONE.
#[export] Instance ShardMarketRecoveryRequired_eq_dec : EqDecision ShardMarketRecoveryRequired.
Proof. solve_decision. Defined.

Record ShardRecoverySnapshotApplied := mkShardRecoverySnapshotApplied {
  rs_recovery_id : Z;
  rs_universe_version : Z;
  rs_shard_index : Z;
  rs_sid : Z;
  rs_sequence : Z;
  rs_market_id : Z;
  rs_transition : Event.BookSyncTransition;
}.
#[export] Instance eta_ShardRecoverySnapshotApplied : Eta ShardRecoverySnapshotApplied := λ r,
  mkShardRecoverySnapshotApplied (rs_recovery_id r) (rs_universe_version r) (rs_shard_index r)
    (rs_sid r) (rs_sequence r) (rs_market_id r) (rs_transition r).
Definition default_ShardRecoverySnapshotApplied : ShardRecoverySnapshotApplied :=
  mkShardRecoverySnapshotApplied 0 0 0 0 0 0 Event.kTRANSITION_NONE.
#[export] Instance ShardRecoverySnapshotApplied_eq_dec : EqDecision ShardRecoverySnapshotApplied.
Proof. solve_decision. Defined.

Inductive ShardToControlMessage :=
  | ScInstalled (m : ShardUniverseInstalled)
  | ScSafeToStop (m : ShardSafeToStopUniverse)
  | ScDrainComplete (m : ShardDrainComplete)
  | ScParseRejected (m : ShardParseRejected)
  | ScApplyRejected (m : ShardApplyRejected)
  | ScEventDesynced (m : ShardEventDesynced)
  | ScTelemetry (m : ShardTelemetry)
  | ScFaulted (m : ShardFaulted)
  | ScStats (m : ShardStats)
  | ScMarketRecoveryRequired (m : ShardMarketRecoveryRequired)
  | ScRecoverySnapshotApplied (m : ShardRecoverySnapshotApplied).

Inductive ShardPumpCode := | kPUMP_IDLE | kPUMP_APPLIED | kPARSE_REJECTED | kEVENT_REJECTED |
  kEVENT_DESYNCED | kMISSING_FRAME | kLOGGER_BACKPRESSURE | kHANDLE_LEAK | kDRAINED_FRAME |
  kDRAIN_COMPLETE | kEVENT_IGNORED | kMARKET_BARRIER_HANDLED | kSUBSCRIPTION_BARRIER_HANDLED |
  kINTEGRITY_BARRIER_REJECTED | kFRAME_ROUTE_REJECTED.
#[export] Instance ShardPumpCode_eq_dec : EqDecision ShardPumpCode.
Proof. solve_decision. Defined.

Record ShardPumpResult := mkShardPumpResult {
  pu_code : ShardPumpCode;
  pu_parse_result : ParseResult;
  pu_event_result : Event.EventApplyResult;
  pu_incident : IntegrityIncidentKey;
  pu_market_invalidation : Event.BookInvalidationResult;
  pu_subscription_invalidation : Event.BookInvalidationSummary;
}.
#[export] Instance eta_ShardPumpResult : Eta ShardPumpResult := λ r,
  mkShardPumpResult (pu_code r) (pu_parse_result r) (pu_event_result r) (pu_incident r)
    (pu_market_invalidation r) (pu_subscription_invalidation r).
Definition default_ShardPumpResult : ShardPumpResult :=
  mkShardPumpResult kPUMP_IDLE default_ParseResult Event.default_EventApplyResult
    default_IntegrityIncidentKey Event.default_BookInvalidationResult
    Event.default_BookInvalidationSummary.

Inductive MarketDataDispatchMode := | kDISPATCH_LIVE | kDISPATCH_DRAINING.
#[export] Instance MarketDataDispatchMode_eq_dec : EqDecision MarketDataDispatchMode.
Proof. solve_decision. Defined.
