(* ===== verification/MarketParser.v ===== *)
(** * MarketParser: from a frame to a typed market-data message

    Models [cpp/src/shard/market_parser.cpp].  The JSON itself is read by simdjson's
    on-demand API, which is a library: the class [SimdJson] names the calls the parser
    makes, without laws, so the theorems hold whatever a document contains.  An exception
    thrown by simdjson inside the [noexcept] parser, which would end the process, is not
    modelled. *)

From S2P Require Import Prelude MoneyTicks FixedPoint MarketTypes FramePool Book Event ShardTypes.
From Stdlib Require Import Ascii.
From Stdlib Require String.

Inductive JsonError := | kNO_SUCH_FIELD | kOTHER_JSON_ERROR.

(** What the parser uses of simdjson.  [array_count] is the number of elements a loop over
    the array visits; [array_iter_ok] and [array_at] are [iter.error()] and [*iter] of an
    iterator after a number of increments, also past the end. *)
Class SimdJson := {
  jdocument : Type;
  jobject : Type;
  jarray : Type;
  jvalue : Type;
  iterate : list Z → Z → option jdocument;
  document_get_object : jdocument → option jobject;
  find_field_unordered : jobject → string → JsonError + jvalue;
  value_get_string : jvalue → option (list ascii);
  value_get_object : jvalue → option jobject;
  value_get_array : jvalue → option jarray;
  array_count : jarray → nat;
  array_iter_ok : jarray → nat → bool;
  array_at : jarray → nat → jvalue;
}.

Module MarketParser.
Import Book FixedPoint.

(** A string literal, as text. *)
Definition str (s : string) : list ascii := String.list_ascii_of_string s.

(** [kTICKSCALE] is unsigned, so the subtraction is too. *)
Definition reciprocal_price (price : Z) : Z := i64 (u64 (kTICKSCALE - u64 price)).

Definition parse_fp_to_ticks (value : list ascii) : option Z :=
  out ← parse_scaled_fp value kTICKSCALE 4 false;
  if (0 <=? out) && (u64 out <=? kTICKSCALE) then Some out else None.

Definition parse_qty_fp_to_lots (value : list ascii) : option Z := parse_scaled_fp value kQTY_SCALE 2 false.
Definition parse_delta_fp_to_lots (value : list ascii) : option Z := parse_scaled_fp value kQTY_SCALE 2 true.

Definition parse_delta_side (value : list ascii) : option Side :=
  if bool_decide (value = str "yes") || bool_decide (value = str "bid") then Some kBID
  else if bool_decide (value = str "no") || bool_decide (value = str "ask") then Some kASK
  else None.

Definition parse_trade_aggressor (value : list ascii) : option AggressorSide :=
  if bool_decide (value = str "yes") || bool_decide (value = str "buy") then Some kBUY_AGGRESSOR
  else if bool_decide (value = str "no") || bool_decide (value = str "sell") then Some kSELL_AGGRESSOR
  else None.

Definition aggressor_to_book_side (aggressor : AggressorSide) : Side :=
  match aggressor with
  | kBUY_AGGRESSOR => kASK
  | kSELL_AGGRESSOR => kBID
  | kAGGRESSOR_UNKNOWN => kSIDE_UNKNOWN
  end.

Section Parser.
Context {SJ : SimdJson}.

Definition get_value (obj : jobject) (key : string) : option jvalue :=
  match find_field_unordered obj key with inl _ => None | inr v => Some v end.

Definition get_string (obj : jobject) (key : string) : option (list ascii) :=
  v ← get_value obj key; value_get_string v.

Definition read_object (obj : jobject) (key : string) : option jobject :=
  v ← get_value obj key; value_get_object v.

Definition get_array (obj : jobject) (key : string) : option jarray :=
  v ← get_value obj key; value_get_array v.

Fixpoint get_first_value (obj : jobject) (keys : list string) : option jvalue :=
  match keys with
  | [] => None
  | key :: keys' => match get_value obj key with Some v => Some v | None => get_first_value obj keys' end
  end.

(** The unsigned overload; the signed one differs only in the type of its result. *)
Definition parse_price_value (value : jvalue) : option Z :=
  s ← value_get_string value;
  temp ← parse_fp_to_ticks s;
  if temp <? 0 then None else Some (u64 temp).

Definition parse_qty_value (value : jvalue) : option Z :=
  s ← value_get_string value;
  temp ← parse_qty_fp_to_lots s;
  if temp <? 0 then None else Some (u64 temp).

Definition parse_delta_qty_value (value : jvalue) : option Z :=
  s ← value_get_string value; parse_delta_fp_to_lots s.

Definition parse_first_price_value (msg : jobject) (keys : list string) : option Z :=
  v ← get_first_value msg keys; parse_price_value v.
Definition parse_first_qty_value (msg : jobject) (keys : list string) : option Z :=
  v ← get_first_value msg keys; parse_qty_value v.
Definition parse_first_delta_qty_value (msg : jobject) (keys : list string) : option Z :=
  v ← get_first_value msg keys; parse_delta_qty_value v.

(** The body of the loop over the levels. *)
Definition parse_level (level_val : jvalue) (reciprocal_price_enabled : bool) : option Level :=
  arr ← value_get_array level_val;
  if negb (array_iter_ok arr 0) then None
  else
    price_ticks ← parse_price_value (array_at arr 0);
    if negb (array_iter_ok arr 1) then None
    else
      qty_lots ← parse_qty_value (array_at arr 1);
      if kTICKSCALE <? price_ticks then None
      else
        Some (mkLevel (if reciprocal_price_enabled then u64 (reciprocal_price (i64 price_ticks)) else price_ticks)
                qty_lots).

Fixpoint parse_level_list (values : list jvalue) (reciprocal_price_enabled : bool) (out : list Level)
    : option (list Level) :=
  match values with
  | [] => Some out
  | v :: values' =>
      level ← parse_level v reciprocal_price_enabled;
      parse_level_list values' reciprocal_price_enabled (out ++ [level])
  end.

Definition parse_levels (arr : jarray) (out : list Level) (reciprocal_price_enabled : bool) : option (list Level) :=
  parse_level_list (array_at arr <$> seq 0 (array_count arr)) reciprocal_price_enabled out.

Inductive OptionalLevelsParse :=
  | kMISSING
  | kPARSED (levels : list Level)
  | kINVALID.

Definition parse_optional_levels (msg : jobject) (key : string) (out : list Level)
    (reciprocal_price_enabled : bool) : OptionalLevelsParse :=
  match find_field_unordered msg key with
  | inl kNO_SUCH_FIELD => kMISSING
  | inl kOTHER_JSON_ERROR => kINVALID
  | inr v =>
      match value_get_array v with
      | None => kINVALID
      | Some levels =>
          match parse_levels levels out reciprocal_price_enabled with
          | None => kINVALID
          | Some out => kPARSED out
          end
      end
  end.

(** The legacy field is read when the current one is missing; one that is not an array is
    skipped. *)
Definition parse_legacy_levels (msg : jobject) (key : string) (reciprocal_price_enabled : bool)
    (parsed : OptionalLevelsParse) : option (list Level) :=
  match parsed with
  | kINVALID => None
  | kPARSED levels => Some levels
  | kMISSING =>
      match get_array msg key with
      | None => Some []
      | Some arr => parse_levels arr [] reciprocal_price_enabled
      end
  end.

Definition parse_snapshot (msg : jobject) : option KalshiSnapshotEvent :=
  match parse_optional_levels msg "yes_dollars_fp" [] false with
  | kINVALID => None
  | yes_levels =>
      match parse_optional_levels msg "no_dollars_fp" [] true with
      | kINVALID => None
      | no_levels =>
          bids ← parse_legacy_levels msg "yes" false yes_levels;
          asks ← parse_legacy_levels msg "no" true no_levels;
          Some (mkKalshiSnapshotEvent bids asks)
      end
  end.

Definition parse_delta (msg : jobject) : option KalshiDeltaData :=
  side_token ← get_string msg "side";
  side ← parse_delta_side side_token;
  price_ticks ← parse_first_price_value msg ["price_dollars"; "price"]%string;
  let price_ticks :=
    if bool_decide (side = kASK) then u64 (reciprocal_price (i64 price_ticks)) else price_ticks in
  delta_qty_lots ← parse_first_delta_qty_value msg ["delta_fp"; "delta"]%string;
  Some (mkKalshiDeltaData side price_ticks delta_qty_lots).

Definition parse_trade (msg : jobject) : option KalshiTradeData :=
  price_ticks ← parse_first_price_value msg ["price_dollars"; "yes_price_dollars"; "price"; "yes_price"]%string;
  qty_lots ← parse_first_qty_value msg ["count_fp"; "qty"; "count"]%string;
  match get_string msg "taker_side" with
  | Some aggressor_token =>
      aggressor ← parse_trade_aggressor aggressor_token;
      Some (mkKalshiTradeData price_ticks qty_lots aggressor (aggressor_to_book_side aggressor))
  | None => Some (mkKalshiTradeData price_ticks qty_lots kAGGRESSOR_UNKNOWN kSIDE_UNKNOWN)
  end.

Definition parse_lifecycle (msg : jobject) : bool := true.

Definition parse_failure (reason : KalshiParseFailureReason) : ParseResult * KalshiParsedEvent :=
  (mkParseResult false reason, ParsedMonostate).

Definition parsed_as {A} (o : option A) (f : A → KalshiParsedEvent) : ParseResult * KalshiParsedEvent :=
  match o with
  | None => parse_failure kMISSING_FIELD
  | Some a => (mkParseResult true kPARSE_OK, f a)
  end.

Definition parse (handle : FrameHandle) (frame : Pool.KalshiFrame) : ParseResult * KalshiParsedEvent :=
  if Pool.fr_len frame =? 0 then parse_failure kINVALID_JSON
  else
    match iterate (Pool.fr_payload frame) (Pool.fr_len frame) with
    | None => parse_failure kINVALID_JSON
    | Some document =>
        match document_get_object document with
        | None => parse_failure kINVALID_JSON
        | Some value =>
            match read_object value "msg" with
            | None => parse_failure kMISSING_FIELD
            | Some msg =>
                match fh_kind handle with
                | kORDERBOOK_SNAPSHOT => parsed_as (parse_snapshot msg) ParsedSnapshot
                | kORDERBOOK_DELTA => parsed_as (parse_delta msg) ParsedDelta
                | kTRADE => parsed_as (parse_trade msg) ParsedTrade
                | kLIFECYCLE =>
                    if parse_lifecycle msg then (mkParseResult true kPARSE_OK, ParsedLifecycle)
                    else parse_failure kMISSING_FIELD
                | kFRAME_UNKNOWN | kSUBSCRIPTION_ACK | kUNSUBSCRIBED | kHEARTBEAT =>
                    parse_failure kUNSUPPORTED_FRAME_KIND
                end
            end
        end
    end.

(** ** What a message says *)

(** A price is a non-negative decimal of at most four places, at most a dollar; a quantity
    is a decimal of at most two places. *)
Definition price_text (v : jvalue) (p : Z) : Prop :=
  ∃ s, value_get_string v = Some s ∧ reference_fixed_point s 4 false = Some p ∧ p ≤ kTICKSCALE.
Definition quantity_text (v : jvalue) (q : Z) : Prop :=
  ∃ s, value_get_string v = Some s ∧ reference_fixed_point s 2 false = Some q.
Definition change_text (v : jvalue) (q : Z) : Prop :=
  ∃ s, value_get_string v = Some s ∧ reference_fixed_point s 2 true = Some q.

(** The NO side of a market is the YES side at the complementary price. *)
Definition yes_price (no_side : bool) (p : Z) : Z := if no_side then kTICKSCALE - p else p.

Definition level_says (no_side : bool) (v : jvalue) (l : Level) : Prop :=
  ∃ arr p, value_get_array v = Some arr ∧ array_iter_ok arr 0 = true ∧ array_iter_ok arr 1 = true ∧
    price_text (array_at arr 0) p ∧ quantity_text (array_at arr 1) (lv_qty_lots l) ∧
    lv_price_ticks l = yes_price no_side p.

Definition array_says (no_side : bool) (arr : jarray) (levels : list Level) : Prop :=
  Forall2 (level_says no_side) (array_at arr <$> seq 0 (array_count arr)) levels.

Definition side_says (msg : jobject) (key legacy : string) (no_side : bool) (levels : list Level) : Prop :=
  match find_field_unordered msg key with
  | inr v => ∃ arr, value_get_array v = Some arr ∧ array_says no_side arr levels
  | inl kNO_SUCH_FIELD =>
      match get_array msg legacy with
      | None => levels = []
      | Some arr => array_says no_side arr levels
      end
  | inl kOTHER_JSON_ERROR => False
  end.

Definition snapshot_says (msg : jobject) (e : KalshiSnapshotEvent) : Prop :=
  side_says msg "yes_dollars_fp" "yes" false (se_bids e) ∧ side_says msg "no_dollars_fp" "no" true (se_asks e).

Definition delta_says (msg : jobject) (e : KalshiDeltaData) : Prop :=
  ∃ token pv p qv, get_string msg "side" = Some token ∧ parse_delta_side token = Some (dd_side e) ∧
    get_first_value msg ["price_dollars"; "price"]%string = Some pv ∧ price_text pv p ∧
    get_first_value msg ["delta_fp"; "delta"]%string = Some qv ∧ change_text qv (dd_delta_qty_lots e) ∧
    dd_price_ticks e = yes_price (bool_decide (dd_side e = kASK)) p.

(** The message object of a frame. *)
Definition message_of (frame : Pool.KalshiFrame) : option jobject :=
  if Pool.fr_len frame =? 0 then None
  else
    document ← iterate (Pool.fr_payload frame) (Pool.fr_len frame);
    value ← document_get_object document;
    read_object value "msg".

(** ** Lemmas *)

Lemma parse_scaled_reference s places scale allow_negative : (places ≤ 18)%nat → scale = 10 ^ Z.of_nat places →
  parse_scaled_fp s scale places allow_negative = reference_fixed_point s places allow_negative.
Proof. intros Hp ->. by destruct (readers_reference s places allow_negative Hp). Qed.

Lemma reference_range s places allow_negative z : reference_fixed_point s places allow_negative = Some z →
  - I64_MAX ≤ z ≤ I64_MAX ∧ (allow_negative = false → 0 ≤ z).
Proof.
  unfold reference_fixed_point, scaled_value. destruct (MoneyTicks.strip_sign s) as [negative body].
  destruct (MoneyTicks.split_dot body) as [whole_text dot]. destruct (bool_decide (whole_text = []) || _) eqn:Hl; [done|].
  apply orb_false_iff in Hl as [_ Hl%Nat.ltb_ge].
  destruct (MoneyTicks.digits_value whole_text 0) as [w|] eqn:Ew; [|done]. cbn [mbind option_bind].
  destruct (MoneyTicks.digits_value (default [] dot) 0) as [f|] eqn:Ef; [|done]. cbn [mbind option_bind].
  set (v := w * _ + _). destruct ((negative && negb allow_negative) || (I64_MAX <? v)) eqn:Hg; [done|].
  apply orb_false_iff in Hg as [Hn Hv%Z.ltb_ge]. intros [= <-].
  assert (0 ≤ v).
  { apply digits_value_nonneg in Ew, Ef. assert (0 ≤ 10 ^ Z.of_nat places) by (apply Z.pow_nonneg; lia).
    assert (0 ≤ 10 ^ (Z.of_nat places - Z.of_nat (length (default [] dot)))) by (apply Z.pow_nonneg; lia).
    subst v. nia. }
  destruct negative, allow_negative; cbn in Hn; try done; split; intros; lia.
Qed.

Lemma parse_price_spec v p : parse_price_value v = Some p ↔ price_text v p.
Proof.
  unfold parse_price_value, price_text, parse_fp_to_ticks.
  destruct (value_get_string v) as [s|]; cbn [mbind option_bind]; [|naive_solver].
  rewrite parse_scaled_reference by (lia || reflexivity).
  destruct (reference_fixed_point s 4 false) as [t|] eqn:Et; cbn [mbind option_bind]; [|naive_solver].
  pose proof Et as Et'. apply reference_range in Et' as [Hr Hn]. specialize (Hn eq_refl).
  rewrite (proj2 (Z.leb_le 0 t)) by lia. rewrite (u64_id t) by (unfold is_u64; lia). cbn [andb].
  destruct (Z.leb_spec t kTICKSCALE); cbn [mbind option_bind].
  - rewrite (proj2 (Z.ltb_ge t 0)), (u64_id t) by (unfold is_u64; lia). naive_solver.
  - naive_solver lia.
Qed.

Lemma price_text_range v p : price_text v p → 0 ≤ p ≤ kTICKSCALE.
Proof. intros (s & _ & H & Hp). apply reference_range in H as [_ H]. split; [by apply H|done]. Qed.

Lemma parse_qty_spec v q : parse_qty_value v = Some q ↔ quantity_text v q.
Proof.
  unfold parse_qty_value, quantity_text, parse_qty_fp_to_lots.
  destruct (value_get_string v) as [s|]; cbn [mbind option_bind]; [|naive_solver].
  rewrite parse_scaled_reference by (lia || reflexivity).
  destruct (reference_fixed_point s 2 false) as [t|] eqn:Et; cbn [mbind option_bind]; [|naive_solver].
  pose proof Et as Et'. apply reference_range in Et' as [Hr Hn]. specialize (Hn eq_refl).
  rewrite (proj2 (Z.ltb_ge t 0)), (u64_id t) by (unfold is_u64; lia). naive_solver.
Qed.

Lemma quantity_text_range v q : quantity_text v q → 0 ≤ q ≤ I64_MAX.
Proof. intros (s & _ & H). apply reference_range in H as [? H]. split; [by apply H|lia]. Qed.

Lemma parse_change_spec v q : parse_delta_qty_value v = Some q ↔ change_text v q.
Proof.
  unfold parse_delta_qty_value, change_text, parse_delta_fp_to_lots.
  destruct (value_get_string v) as [s|]; cbn [mbind option_bind]; [|naive_solver].
  rewrite parse_scaled_reference by (lia || reflexivity). naive_solver.
Qed.

Lemma reciprocal_price_spec p : 0 ≤ p ≤ kTICKSCALE → u64 (reciprocal_price (i64 p)) = kTICKSCALE - p.
Proof.
  unfold reciprocal_price, kTICKSCALE. intros Hp.
  rewrite (i64_id p), (u64_id p), (u64_id (10000 - p)), i64_id, u64_id by (unfold is_u64, is_i64; lia). done.
Qed.

Lemma parse_level_spec v no_side l : parse_level v no_side = Some l ↔ level_says no_side v l.
Proof.
  unfold parse_level, level_says. destruct (value_get_array v) as [arr|]; cbn [mbind option_bind]; [|naive_solver].
  destruct (array_iter_ok arr 0) eqn:E0; cbn [negb];
    [|split; [done|]; intros (? & ? & [= <-] & ? & _); congruence].
  destruct (parse_price_value (array_at arr 0)) as [p|] eqn:Ep; cbn [mbind option_bind].
  2:{ split; [done|]. intros (arr' & p & [= <-] & _ & _ & Hp%parse_price_spec & _). congruence. }
  destruct (array_iter_ok arr 1) eqn:E1; cbn [negb];
    [|split; [done|]; intros (? & ? & [= <-] & _ & ? & _); congruence].
  destruct (parse_qty_value (array_at arr 1)) as [q|] eqn:Eq; cbn [mbind option_bind].
  2:{ split; [done|]. intros (arr' & p' & [= <-] & _ & _ & _ & Hq%parse_qty_spec & _). congruence. }
  apply parse_price_spec in Ep. pose proof (price_text_range _ _ Ep) as Hr. pose proof Eq as Eq'%parse_qty_spec.
  rewrite (proj2 (Z.ltb_ge kTICKSCALE p)), reciprocal_price_spec by lia. split.
  - intros [= <-]. exists arr, p. by destruct no_side.
  - intros (arr' & p' & [= <-] & _ & _ & Hp & Hq & Hy). apply parse_price_spec in Hp, Ep. apply parse_qty_spec in Hq.
    destruct l as [lp lq]. cbn in *. rewrite Hp in Ep. rewrite Eq in Hq. simplify_eq. by destruct no_side.
Qed.

Lemma parse_level_list_spec values no_side out levels :
  parse_level_list values no_side out = Some levels ↔
  ∃ rest, levels = out ++ rest ∧ Forall2 (level_says no_side) values rest.
Proof.
  revert out. induction values as [|v values IH]; intros out; cbn [parse_level_list].
  - split; [intros [= <-]; exists []; by rewrite app_nil_r|]. intros (rest & -> & H). inversion H. by rewrite app_nil_r.
  - destruct (parse_level v no_side) as [l|] eqn:El; cbn [mbind option_bind].
    + apply parse_level_spec in El. rewrite IH. split.
      * intros (rest & -> & H). exists (l :: rest). rewrite <- app_assoc. split; [done|]. by constructor.
      * intros (rest & -> & H). inversion H as [|? l' ? rest' Hl Hrest]; subst. exists rest'. rewrite <- app_assoc. split; [|done].
        apply parse_level_spec in Hl, El. rewrite Hl in El. by simplify_eq.
    + split; [done|]. intros (rest & -> & H). inversion H as [|? l' ? rest' Hl Hrest]; subst.
      apply parse_level_spec in Hl. congruence.
Qed.

Lemma parse_levels_spec arr no_side levels : parse_levels arr [] no_side = Some levels ↔ array_says no_side arr levels.
Proof. unfold parse_levels. rewrite parse_level_list_spec. split; [by intros (? & -> & ?)|by exists levels]. Qed.

(** One side of a snapshot, from the current or the legacy field. *)
Lemma parse_side_spec msg key legacy no_side levels :
  parse_legacy_levels msg legacy no_side (parse_optional_levels msg key [] no_side) = Some levels
  ↔ side_says msg key legacy no_side levels.
Proof.
  unfold parse_optional_levels, side_says. destruct (find_field_unordered msg key) as [[]|v]; cbn [parse_legacy_levels].
  - destruct (get_array msg legacy); [apply parse_levels_spec|naive_solver].
  - done.
  - destruct (value_get_array v) as [arr|]; [|naive_solver]. pose proof (parse_levels_spec arr no_side levels) as H.
    destruct (parse_levels arr [] no_side) as [out|] eqn:E; cbn.
    + rewrite H. naive_solver.
    + split; [done|]. intros (? & [= <-] & Ha%H). done.
Qed.

Lemma parse_snapshot_spec msg e : parse_snapshot msg = Some e ↔ snapshot_says msg e.
Proof.
  unfold snapshot_says. rewrite <- !parse_side_spec. unfold parse_snapshot. destruct e as [bids asks]. cbn.
  destruct (parse_optional_levels msg "yes_dollars_fp" [] false) as [|ys|];
    destruct (parse_optional_levels msg "no_dollars_fp" [] true) as [|ns|]; cbn [parse_legacy_levels mbind option_bind];
    repeat match goal with |- context [match get_array msg ?k with _ => _ end] => destruct (get_array msg k) end;
    repeat match goal with |- context [parse_levels ?a ?o ?b] => destruct (parse_levels a o b) end; cbn; naive_solver.
Qed.

Lemma parse_delta_spec msg e : parse_delta msg = Some e ↔ delta_says msg e.
Proof.
  unfold parse_delta, delta_says, parse_first_price_value, parse_first_delta_qty_value.
  destruct (get_string msg "side") as [token|]; cbn [mbind option_bind]; [|naive_solver].
  destruct (parse_delta_side token) as [side|] eqn:Es; cbn [mbind option_bind]; [|naive_solver].
  destruct (get_first_value msg ["price_dollars"; "price"]%string) as [pv|]; cbn [mbind option_bind]; [|naive_solver].
  destruct (parse_price_value pv) as [p|] eqn:Ep; cbn [mbind option_bind].
  2:{ split; [done|]. intros (? & ? & p & ? & _ & _ & [= <-] & Hp%parse_price_spec & _). congruence. }
  destruct (get_first_value msg ["delta_fp"; "delta"]%string) as [qv|]; cbn [mbind option_bind]; [|naive_solver].
  destruct (parse_delta_qty_value qv) as [q|] eqn:Eq; cbn [mbind option_bind].
  2:{ split; [done|]. intros (? & ? & ? & ? & _ & _ & _ & _ & [= <-] & Hq%parse_change_spec & _). congruence. }
  pose proof Ep as Ep'%parse_price_spec. pose proof Eq as Eq'%parse_change_spec.
  rewrite reciprocal_price_spec by (by eapply price_text_range). split.
  - intros [= <-]. exists token, pv, p, qv. cbn. by split_and!; try case_bool_decide.
  - intros (? & ? & p' & ? & [= <-] & Hs & [= <-] & Hp%parse_price_spec & [= <-] & Hq%parse_change_spec & Hy).
    destruct e as [s' p2 q2]. cbn in *. rewrite Es in Hs. rewrite Ep in Hp. rewrite Eq in Hq. simplify_eq.
    done.
Qed.

(** ** The parser *)

Lemma parsed_as_spec {A} (o : option A) (f : A → KalshiParsedEvent) r ev : parsed_as o f = (r, ev) →
  (pr_success r = false ∧ ev = ParsedMonostate ∧ o = None) ∨ (pr_success r = true ∧ ∃ a, o = Some a ∧ ev = f a).
Proof. destruct o as [a|]; intros [= <- <-]; [right|by left]. split; [done|by exists a]. Qed.

(** Without a message object there is nothing to parse. *)
Lemma parse_no_message handle frame : message_of frame = None →
  pr_success (parse handle frame).1 = false ∧ (parse handle frame).2 = ParsedMonostate.
Proof.
  unfold message_of, parse. destruct (_ =? 0); [done|].
  destruct (iterate _ _) as [d|]; [|done]. cbn [mbind option_bind].
  destruct (document_get_object d) as [v|]; [|done]. cbn [mbind option_bind]. by intros ->.
Qed.

Lemma parse_message handle frame msg : message_of frame = Some msg →
  parse handle frame =
    match fh_kind handle with
    | kORDERBOOK_SNAPSHOT => parsed_as (parse_snapshot msg) ParsedSnapshot
    | kORDERBOOK_DELTA => parsed_as (parse_delta msg) ParsedDelta
    | kTRADE => parsed_as (parse_trade msg) ParsedTrade
    | kLIFECYCLE => (mkParseResult true kPARSE_OK, ParsedLifecycle)
    | _ => parse_failure kUNSUPPORTED_FRAME_KIND
    end.
Proof.
  unfold message_of, parse. destruct (_ =? 0); [done|].
  destruct (iterate _ _) as [d|]; [|done]. cbn [mbind option_bind].
  destruct (document_get_object d) as [v|]; [|done]. cbn [mbind option_bind]. intros ->. by destruct (fh_kind handle).
Qed.

(** The kind of frame a typed message comes from. *)
Definition kind_of (ev : KalshiParsedEvent) : option FrameKind :=
  match ev with
  | ParsedMonostate => None
  | ParsedSnapshot _ => Some kORDERBOOK_SNAPSHOT
  | ParsedDelta _ => Some kORDERBOOK_DELTA
  | ParsedTrade _ => Some kTRADE
  | ParsedLifecycle => Some kLIFECYCLE
  end.

(** Prices of at most a dollar and quantities that fit. *)
Definition level_ok (l : Level) : Prop := 0 ≤ lv_price_ticks l ≤ kTICKSCALE ∧ 0 ≤ lv_qty_lots l ≤ I64_MAX.
Definition typed (ev : KalshiParsedEvent) : Prop :=
  match ev with
  | ParsedSnapshot e => Forall level_ok (se_bids e) ∧ Forall level_ok (se_asks e)
  | ParsedDelta e =>
      dd_side e ≠ kSIDE_UNKNOWN ∧ 0 ≤ dd_price_ticks e ≤ kTICKSCALE ∧
      - I64_MAX ≤ dd_delta_qty_lots e ≤ I64_MAX
  | ParsedTrade e => 0 ≤ td_price_ticks e ≤ kTICKSCALE ∧ 0 ≤ td_qty_lots e ≤ I64_MAX
  | _ => True
  end.

Lemma yes_price_range b p : 0 ≤ p ≤ kTICKSCALE → 0 ≤ yes_price b p ≤ kTICKSCALE.
Proof. destruct b; cbn; lia. Qed.

Lemma level_says_ok no_side v l : level_says no_side v l → level_ok l.
Proof.
  intros (arr & p & _ & _ & _ & Hp%price_text_range & Hq%quantity_text_range & E). split; [|done].
  rewrite E. by apply yes_price_range.
Qed.

Lemma side_says_ok msg key legacy no_side levels : side_says msg key legacy no_side levels → Forall level_ok levels.
Proof.
  assert (∀ arr, array_says no_side arr levels → Forall level_ok levels) as H.
  { intros arr Ha. apply Forall_forall. intros l (i & Hi)%list_elem_of_lookup.
    destruct (Forall2_lookup_r _ _ _ _ _ Ha Hi) as (v & _ & Hv). by eapply level_says_ok. }
  unfold side_says. destruct (find_field_unordered msg key) as [[]|v]; [|done|by intros (arr & _ & ?%H)].
  destruct (get_array msg legacy) as [arr|]; [apply H|by intros ->].
Qed.

Lemma parse_trade_typed msg e : parse_trade msg = Some e → typed (ParsedTrade e).
Proof.
  unfold parse_trade, parse_first_price_value, parse_first_qty_value. intros H.
  destruct (get_first_value msg ["price_dollars"; "yes_price_dollars"; "price"; "yes_price"]%string) as [pv|] in H; cbn [mbind option_bind] in H; [|done].
  destruct (parse_price_value pv) as [p|] eqn:Ep; cbn [mbind option_bind] in H; [|done].
  destruct (get_first_value msg ["count_fp"; "qty"; "count"]%string) as [qv|] in H; cbn [mbind option_bind] in H; [|done].
  destruct (parse_qty_value qv) as [q|] eqn:Eq; cbn [mbind option_bind] in H; [|done].
  apply parse_price_spec, price_text_range in Ep. apply parse_qty_spec, quantity_text_range in Eq.
  destruct (get_string msg "taker_side"); cbn [mbind option_bind] in H; [|by simplify_eq].
  destruct (parse_trade_aggressor _); cbn [mbind option_bind] in H; by simplify_eq.
Qed.

Lemma parse_delta_side_known token side : parse_delta_side token = Some side → side ≠ kSIDE_UNKNOWN.
Proof. unfold parse_delta_side. repeat case_bool_decide; cbn; intros; by simplify_eq. Qed.

(** C25: a successful parse delivers a message of the frame's kind whose prices lie between
    zero and a dollar and whose quantities fit their types, so every order-book message
    satisfies what the books rely on; an unsuccessful parse delivers no message. *)
Theorem parser_delivers_typed_messages handle frame :
  let '(result, ev) := parse handle frame in
  if pr_success result then kind_of ev = Some (fh_kind handle) ∧ typed ev ∧ Event.parsed_wf ev
  else ev = ParsedMonostate.
Proof.
  assert (∀ ev, typed ev → Event.parsed_wf ev) as Hwf.
  { intros [|e|e| |]; cbn; try done.
    - intros [H1 H2]. split; eapply Forall_impl; try done; intros l [??]; unfold Event.level_wf, is_u64, kTICKSCALE in *; lia.
    - intros (_ & ? & ?). unfold is_u64, is_i64, kTICKSCALE in *. lia. }
  destruct (message_of frame) as [msg|] eqn:Em.
  - rewrite (parse_message handle frame msg Em).
    assert (∀ A (o : option A) f, (∀ a, o = Some a → kind_of (f a) = Some (fh_kind handle) ∧ typed (f a)) →
      let '(result, ev) := parsed_as o f in
      if pr_success result then kind_of ev = Some (fh_kind handle) ∧ typed ev ∧ Event.parsed_wf ev
      else ev = ParsedMonostate) as Hp.
    { intros A o f Hf. destruct o as [a|]; cbn; [|done]. destruct (Hf a eq_refl). by split_and!; try apply Hwf. }
    destruct (fh_kind handle) eqn:Ek; try done; apply Hp; intros e He; (split; [done|]).
    + apply parse_snapshot_spec in He as [Hb Ha]. split; by eapply side_says_ok.
    + apply parse_delta_spec in He as (token & pv & p & qv & _ & Hs & _ & Hp'%price_text_range & _ & (s & _ & Hq) & E).
      apply reference_range in Hq as [Hq _]. apply (yes_price_range (bool_decide (dd_side e = kASK))) in Hp'.
      cbn. rewrite E. split; [by eapply parse_delta_side_known|done].
    + by eapply parse_trade_typed.
  - destruct (parse_no_message handle frame Em) as [H1 H2]. destruct (parse handle frame) as [r ev]. cbn in *. by rewrite H1.
Qed.

(** The parser reads order-book messages exactly: it succeeds with a snapshot or delta
    if and only if the message says it, where each price and quantity is the exact decimal
    value of its text and NO prices are complemented into YES prices. *)
Theorem parser_reads_book_messages handle frame msg : message_of frame = Some msg →
  (fh_kind handle = kORDERBOOK_SNAPSHOT → ∀ e,
     parse handle frame = (mkParseResult true kPARSE_OK, ParsedSnapshot e) ↔ snapshot_says msg e) ∧
  (fh_kind handle = kORDERBOOK_DELTA → ∀ e,
     parse handle frame = (mkParseResult true kPARSE_OK, ParsedDelta e) ↔ delta_says msg e).
Proof.
  intros Em. rewrite (parse_message handle frame msg Em). split; intros -> e.
  - rewrite <- parse_snapshot_spec. destruct (parse_snapshot msg); cbn; naive_solver.
  - rewrite <- parse_delta_spec. destruct (parse_delta msg); cbn; naive_solver.
Qed.
End Parser.

(** ** A document library for the witness: JSON values as trees *)

Inductive json := | JString (s : string) | JArray (l : list json) | JObject (l : list (string * json)).

Definition json_fields (l : list (string * json)) (key : string) : JsonError + json :=
  match list_find (λ f, f.1 = key) l with Some (_, (_, v)) => inr v | None => inl kNO_SUCH_FIELD end.

(** The first byte of a frame chooses its document. *)
Definition demo_json (documents : list json) : SimdJson := {|
  jdocument := json; jobject := list (string * json); jarray := list json; jvalue := json;
  iterate := λ payload _, documents !! Z.to_nat (default 0 (head payload));
  document_get_object := λ d, match d with JObject l => Some l | _ => None end;
  find_field_unordered := json_fields;
  value_get_string := λ v, match v with JString s => Some (str s) | _ => None end;
  value_get_object := λ v, match v with JObject l => Some l | _ => None end;
  value_get_array := λ v, match v with JArray l => Some l | _ => None end;
  array_count := length;
  array_iter_ok := λ _ _, true;
  array_at := λ l n, default (JArray []) (l !! n);
|}.

Definition demo_delta : json :=
  JObject [("msg", JObject [("side", JString "no"); ("price_dollars", JString "0.3500"); ("delta_fp", JString "-2.00")])]%string.
Definition demo_frame : Pool.KalshiFrame := Pool.mkKalshiFrame 0 1 0 [].
Definition demo_delta_handle : FrameHandle := default_FrameHandle ⟪ fh_kind := kORDERBOOK_DELTA ⟫.

Lemma parser_reads_book_messages_witness :
  parse (SJ := demo_json [demo_delta]) demo_delta_handle demo_frame
    = (mkParseResult true kPARSE_OK, ParsedDelta (mkKalshiDeltaData kASK 6500 (-200))) ∧
  delta_says (SJ := demo_json [demo_delta])
    [("side", JString "no"); ("price_dollars", JString "0.3500"); ("delta_fp", JString "-2.00")]%string
    (mkKalshiDeltaData kASK 6500 (-200)).
Proof.
  assert (parse (SJ := demo_json [demo_delta]) demo_delta_handle demo_frame
    = (mkParseResult true kPARSE_OK, ParsedDelta (mkKalshiDeltaData kASK 6500 (-200)))) as H by (vm_compute; reflexivity).
  split; [exact H|].
  apply (parser_reads_book_messages (SJ := demo_json [demo_delta]) demo_delta_handle demo_frame _ eq_refl); [reflexivity|exact H].
Defined.
End MarketParser.
