(* ===== verification/WireTypes.v ===== *)
(** * WireTypes: the data of the market-data wire session

    The types of [cpp/include/predex/ingest/kalshi/market_data/wire_session.hpp], the channels
    of [kalshi_ws_protocol.hpp], and the messages between the wire session and control of
    [cpp/include/predex/control/control_types.hpp]. *)

From S2P Require Import Prelude LatencyHistogram MarketTypes ControlTypes.

(** ** Channels and transport *)

Inductive KalshiMarketDataChannel := | kCH_ORDERBOOK_DELTA | kCH_TRADE | kCH_MARKET_LIFECYCLE.
#[export] Instance KalshiMarketDataChannel_eq_dec : EqDecision KalshiMarketDataChannel.
Proof. solve_decision. Defined.

(** [static_cast<std::uint8_t>(channel)]. *)
Definition channel_code (c : KalshiMarketDataChannel) : Z :=
  match c with kCH_ORDERBOOK_DELTA => 1 | kCH_TRADE => 2 | kCH_MARKET_LIFECYCLE => 3 end.
Definition channel_of_code (z : Z) : option KalshiMarketDataChannel :=
  match z with 1 => Some kCH_ORDERBOOK_DELTA | 2 => Some kCH_TRADE | 3 => Some kCH_MARKET_LIFECYCLE | _ => None end.
#[export] Program Instance KalshiMarketDataChannel_countable : Countable KalshiMarketDataChannel :=
  inj_countable channel_code channel_of_code _.
Next Obligation. by intros []. Qed.

Inductive SendStatus := | kSEND_ACCEPTED | kSEND_CLOSED | kSEND_QUEUE_FULL | kSEND_ERROR.
#[export] Instance SendStatus_eq_dec : EqDecision SendStatus.
Proof. solve_decision. Defined.

Inductive ReadStatus := | kREAD_PENDING | kREAD_MESSAGE | kREAD_CLOSED | kREAD_ERROR.
#[export] Instance ReadStatus_eq_dec : EqDecision ReadStatus.
Proof. solve_decision. Defined.

Record ReadResult := mkReadResult { rr_status : ReadStatus; rr_payload : list Z }.

(** The requests of [KalshiMarketDataHandler], before their rendering as JSON text. *)
Inductive WsRequest :=
  | WsSubscribe (req_id : Z) (channel : KalshiMarketDataChannel) (tickers : list string)
  | WsUpdate (req_id session_id : Z) (tickers : list string) (action : string)
  | WsUnsubscribe (req_id : Z) (session_ids : list Z).
#[export] Instance WsRequest_eq_dec : EqDecision WsRequest.
Proof. solve_decision. Defined.

(** ** Messages with control *)

Inductive ControlToIoCommand :=
  | CiApplyUniverseSnapshot (snapshot : option UniverseSnapshot) | CiConnect | CiDisconnect
  | CiRecoverMarket (m : RecoverMarketIo).

Record UnknownMarketTickerStats := mkUnknownMarketTickerStats {
  uk_market_ticker : string;
  uk_frame_kind : FrameKind;
  uk_sid : Z;
  uk_channel : Z;
}.
#[export] Instance UnknownMarketTickerStats_eq_dec : EqDecision UnknownMarketTickerStats.
Proof. solve_decision. Defined.

Record IoTelemetrySnapshot := mkIoTelemetrySnapshot {
  io_frames_received : Z;
  io_frames_published : Z;
  io_frames_dropped : Z;
  io_oversized_frames : Z;
  io_pool_exhausted : Z;
  io_missing_frame_slot : Z;
  io_envelope_parse_failed : Z;
  io_envelope_missing_market_ticker : Z;
  io_envelope_unsupported_type : Z;
  io_inactive_sid : Z;
  io_unknown_market_ticker : Z;
  io_unknown_market_ticker_samples : list UnknownMarketTickerStats;
  io_stamp_failed : Z;
  io_router_enqueue_failed : Z;
  io_logger_fallback_enqueued : Z;
  io_logger_fallback_failed : Z;
  io_recycle_failures : Z;
  io_snapshot_requests_sent : Z;
  io_snapshot_requests_accepted : Z;
  io_snapshot_requests_failed : Z;
  io_frame_pool_in_use_high_water : Z;
  io_router_queue_depth_high_water : Z;
  io_channel_stats : list MarketDataChannelTelemetrySnapshot;
  io_wire_service_latency : list Histogram.LatencyHistogram;
}.
#[export] Instance eta_IoTelemetrySnapshot : Eta IoTelemetrySnapshot := λ r,
  mkIoTelemetrySnapshot (io_frames_received r) (io_frames_published r) (io_frames_dropped r) (io_oversized_frames r)
    (io_pool_exhausted r) (io_missing_frame_slot r) (io_envelope_parse_failed r) (io_envelope_missing_market_ticker r)
    (io_envelope_unsupported_type r) (io_inactive_sid r) (io_unknown_market_ticker r) (io_unknown_market_ticker_samples r)
    (io_stamp_failed r) (io_router_enqueue_failed r) (io_logger_fallback_enqueued r) (io_logger_fallback_failed r)
    (io_recycle_failures r) (io_snapshot_requests_sent r) (io_snapshot_requests_accepted r) (io_snapshot_requests_failed r)
    (io_frame_pool_in_use_high_water r) (io_router_queue_depth_high_water r) (io_channel_stats r) (io_wire_service_latency r).
Definition default_IoTelemetrySnapshot : IoTelemetrySnapshot :=
  mkIoTelemetrySnapshot 0 0 0 0 0 0 0 0 0 0 0 [] 0 0 0 0 0 0 0 0 0 0 make_market_data_channel_telemetry
    (replicate kMarketDataChannelCount Histogram.empty_histogram).

Inductive IoToControlStatus :=
  | IsConnected
  | IsDisconnected (reason : string)
  | IsUniverseSnapshotApplied (version : Z)
  | IsSubscriptionReady (version : Z)
  | IsFaulted (error_message : string)
  | IsTelemetry (telemetry : IoTelemetrySnapshot)
  | IsRecoveryRequestAccepted (m : IoRecoveryRequestAccepted)
  | IsRecoveryRequestFailed (m : IoRecoveryRequestFailed).

(** ** Subscriptions, commands and recovery tags *)

Inductive SubscriptionPhase := | kSUB_IDLE | kSUBSCRIBE_PENDING | kSUBSCRIBED | kUPDATE_PENDING | kUNSUBSCRIBE_PENDING
  | kSUB_FAULTED.
#[export] Instance SubscriptionPhase_eq_dec : EqDecision SubscriptionPhase.
Proof. solve_decision. Defined.

Inductive WsCommandKind := | kCMD_SUBSCRIBE | kCMD_ADD_MARKETS | kCMD_DELETE_MARKETS | kCMD_UNSUBSCRIBE | kCMD_GET_SNAPSHOT.
#[export] Instance WsCommandKind_eq_dec : EqDecision WsCommandKind.
Proof. solve_decision. Defined.

Inductive IncomingMessageKind := | kIN_CONTROL_RESPONSE | kIN_MARKET_DATA | kIN_IGNORE | kIN_MALFORMED.
#[export] Instance IncomingMessageKind_eq_dec : EqDecision IncomingMessageKind.
Proof. solve_decision. Defined.

Record ActiveSubscription := mkActiveSubscription {
  ab_channel : KalshiMarketDataChannel;
  ab_phase : SubscriptionPhase;
  ab_sid : option Z;
  ab_market_ids : gset Z;
  ab_last_error : string;
}.
#[export] Instance eta_ActiveSubscription : Eta ActiveSubscription := λ r,
  mkActiveSubscription (ab_channel r) (ab_phase r) (ab_sid r) (ab_market_ids r) (ab_last_error r).

Record PendingRecoveryTag := mkPendingRecoveryTag {
  tg_recovery_id : Z;
  tg_universe_version : Z;
  tg_request_attempt : Z;
}.
#[export] Instance PendingRecoveryTag_eq_dec : EqDecision PendingRecoveryTag.
Proof. solve_decision. Defined.

Record RecoveryCommandContext := mkRecoveryCommandContext {
  rx_recovery_id : Z;
  rx_universe_version : Z;
  rx_market_id : Z;
  rx_request_attempt : Z;
}.
#[export] Instance RecoveryCommandContext_eq_dec : EqDecision RecoveryCommandContext.
Proof. solve_decision. Defined.

Record PendingWsCommand := mkPendingWsCommand {
  wc_ws_command_id : Z;
  wc_kind : WsCommandKind;
  wc_channel : KalshiMarketDataChannel;
  wc_market_ids : list Z;
  wc_recovery_context : option RecoveryCommandContext;
}.

Record MarketDataEnvelope := mkMarketDataEnvelope {
  me_kind : FrameKind;
  me_sid : Z;
  me_sequence : Z;
  me_market_ticker : string;
}.
#[export] Instance eta_MarketDataEnvelope : Eta MarketDataEnvelope := λ r,
  mkMarketDataEnvelope (me_kind r) (me_sid r) (me_sequence r) (me_market_ticker r).
Definition default_MarketDataEnvelope : MarketDataEnvelope := mkMarketDataEnvelope kFRAME_UNKNOWN 0 0 "".

Inductive EnvelopeParseCode := | kENV_OK | kENV_INVALID_JSON | kENV_MISSING_SID | kENV_SID_OUT_OF_RANGE | kENV_MISSING_TYPE
  | kENV_UNSUPPORTED_TYPE | kENV_MISSING_SEQUENCE | kENV_MISSING_MSG | kENV_MISSING_MARKET_TICKER.
#[export] Instance EnvelopeParseCode_eq_dec : EqDecision EnvelopeParseCode.
Proof. solve_decision. Defined.

Inductive StampHandleCode := | kSTAMP_OK | kSTAMP_UNKNOWN_KIND | kSTAMP_EMPTY_MARKET_TICKER | kSTAMP_INACTIVE_SID
  | kSTAMP_UNKNOWN_MARKET_TICKER.
#[export] Instance StampHandleCode_eq_dec : EqDecision StampHandleCode.
Proof. solve_decision. Defined.
