(* ===== verification/Wire.v ===== *)
(** * Wire: the market-data wire session

    Models [cpp/src/ingest/kalshi/market_data/wire_session.cpp] and its header: the thread
    that owns the public websocket.  It subscribes to the channels of the installed universe,
    checks the sequence numbers of every subscription, copies each market-data message into a
    slot of the frame pool and hands its handle to the router; where a message of an order
    book is lost it sends an invalidation barrier instead, and it carries control's requests
    for recovery snapshots to the exchange.

    The websocket is the interface [WebSocket], the JSON library [SimdJson] with the readers
    of numbers of [SimdJsonNumbers].  Requests are values of [WsRequest], not their text.
    Queues that are read are lists of the results of the next pops. *)

From S2P Require Import Prelude Spsc LatencyHistogram MarketTypes FramePool ControlTypes MarketParser WireTypes.

(** ** Interfaces of the libraries *)

(** [simdjson::ondemand::value::get_uint64] and [get_int64]. *)
Class SimdJsonNumbers `{SJ : SimdJson} := {
  value_get_uint64 : jvalue → option Z;
  value_get_int64 : jvalue → option Z;
}.

(** [exchange::kalshi::WebSocketSession]. *)
Class WebSocket (W : Type) := {
  ws_connect : W → bool * W;
  ws_send_text : WsRequest → W → SendStatus * W;
  ws_poll : W → Z * W;
  ws_recv_text : W → ReadResult * W;
  ws_consume_message : W → W;
  ws_close : W → W;
  ws_last_error : W → string;
}.

(** ** Sequence numbers of subscriptions *)

Module SidSequenceObserver.

Record ActiveSidState := mkActiveSidState {
  as_channel : KalshiMarketDataChannel;
  as_last_sequence : option Z;
}.
#[export] Instance eta_ActiveSidState : Eta ActiveSidState := λ r, mkActiveSidState (as_channel r) (as_last_sequence r).

Inductive SequenceObservationCode := | kFIRST | kCONTIGUOUS | kGAP | kDUPLICATE | kSTALE | kOBS_INACTIVE_SID.
#[export] Instance SequenceObservationCode_eq_dec : EqDecision SequenceObservationCode.
Proof. solve_decision. Defined.

(** The channel of an inactive subscription is value-initialized, to no channel at all. *)
Record SequenceObservation := mkSequenceObservation {
  so_code : SequenceObservationCode;
  so_channel : option KalshiMarketDataChannel;
  so_expected_sequence : Z;
  so_observed_sequence : Z;
}.
Definition default_SequenceObservation : SequenceObservation := mkSequenceObservation kOBS_INACTIVE_SID None 0 0.

Abbreviation observer := (gmap Z ActiveSidState).

Definition activate (sid : Z) (channel : KalshiMarketDataChannel) (o : observer) : observer :=
  <[sid := mkActiveSidState channel None]> o.
Definition deactivate (sid : Z) (o : observer) : observer := delete sid o.
Definition active (sid : Z) (o : observer) : bool := bool_decide (is_Some (o !! sid)).
Definition channel_for_sid (sid : Z) (o : observer) : Z :=
  match o !! sid with Some state => channel_code (as_channel state) | None => 0 end.

Definition observe (sid sequence : Z) : M observer SequenceObservation := λ o,
  match o !! sid with
  | None => (mkSequenceObservation kOBS_INACTIVE_SID None 0 sequence, o)
  | Some state =>
      let remember := <[sid := state ⟪ as_last_sequence := Some sequence ⟫]> o in
      match as_last_sequence state with
      | None => (mkSequenceObservation kFIRST (Some (as_channel state)) sequence sequence, remember)
      | Some previous =>
          let next_expected := if previous =? U64_MAX then previous else u64 (previous + 1) in
          let seen code := mkSequenceObservation code (Some (as_channel state)) next_expected sequence in
          if sequence =? previous then (seen kDUPLICATE, o)
          else if negb (previous =? U64_MAX) && (sequence =? next_expected) then (seen kCONTIGUOUS, remember)
          else if previous <? sequence then (seen kGAP, remember)
          else (seen kSTALE, o)
      end
  end.
End SidSequenceObserver.

Module Wire.
Import SidSequenceObserver.

Definition kMAX_RECYCLE_BATCH_SIZE : Z := 64.
Definition kMAX_UNKNOWN_MARKET_TICKER_SAMPLES : nat := 8.
Definition kIO_TELEMETRY_INTERVAL : Z := 250000000.

Definition bump (n : Z) : Z := u64 (n + 1).

Section Wire.
Context {Q : Type → Type} `{!PushQueue Q} {W : Type} `{!WebSocket W} `{!SimdJson} `{!SimdJsonNumbers}.
Variable kFrameParserPadding : nat.

(** ** JSON *)

Definition read_uint64 (object : jobject) (key : string) : option Z :=
  match find_field_unordered object key with inl _ => None | inr v => value_get_uint64 v end.
Definition read_int64 (object : jobject) (key : string) : option Z :=
  match find_field_unordered object key with inl _ => None | inr v => value_get_int64 v end.
Definition read_string (object : jobject) (key : string) : option string :=
  match find_field_unordered object key with inl _ => None | inr v => String.string_of_list_ascii <$> value_get_string v end.
Definition read_object (object : jobject) (key : string) : option jobject :=
  match find_field_unordered object key with inl _ => None | inr v => value_get_object v end.

(** The root object of a message. *)
Definition iterate_object (payload : list Z) : option jobject :=
  document ← iterate payload (Z.of_nat (length payload));
  document_get_object document.

Definition frame_kind_from_type (type : string) : FrameKind :=
  if bool_decide (type = "orderbook_delta"%string) then kORDERBOOK_DELTA
  else if bool_decide (type = "orderbook_snapshot"%string) then kORDERBOOK_SNAPSHOT
  else if bool_decide (type = "trade"%string) then kTRADE
  else if bool_decide (type = "market_lifecycle"%string) || bool_decide (type = "market_lifecycle_v2"%string)
       || bool_decide (type = "event_fee_update"%string) then kLIFECYCLE
  else kFRAME_UNKNOWN.

Definition parse_market_data_envelope (payload : list Z) : EnvelopeParseCode * MarketDataEnvelope :=
  let envelope := default_MarketDataEnvelope in
  match iterate_object payload with
  | None => (kENV_INVALID_JSON, envelope)
  | Some root =>
      match read_uint64 root "sid" with
      | None => (kENV_MISSING_SID, envelope)
      | Some sid =>
          if U32_MAX <? sid then (kENV_SID_OUT_OF_RANGE, envelope)
          else
            let envelope := envelope ⟪ me_sid := u32 sid ⟫ in
            match read_uint64 root "seq" with
            | None => (kENV_MISSING_SEQUENCE, envelope)
            | Some sequence =>
                let envelope := envelope ⟪ me_sequence := sequence ⟫ in
                match read_string root "type" with
                | None => (kENV_MISSING_TYPE, envelope)
                | Some type =>
                    let envelope := envelope ⟪ me_kind := frame_kind_from_type type ⟫ in
                    if bool_decide (me_kind envelope = kFRAME_UNKNOWN) then (kENV_UNSUPPORTED_TYPE, envelope)
                    else
                      match read_object root "msg" with
                      | None => (kENV_MISSING_MSG, envelope)
                      | Some msg =>
                          match read_string msg "market_ticker" with
                          | None => (kENV_MISSING_MARKET_TICKER, envelope)
                          | Some ticker => (kENV_OK, envelope ⟪ me_market_ticker := ticker ⟫)
                          end
                      end
                end
            end
      end
  end.

(** ** The session *)

Record WireState := mkWireState {
  wi_frame_pool : Pool.FramePool;
  wi_router_queue : Q MarketDataPathMessage;
  wi_control_to_io_queue : list (option ControlToIoCommand);
  wi_io_to_control_status_queue : Q IoToControlStatus;
  wi_recycle_queues : list (option (list (option FrameHandle)));
  wi_logger_queue : Q FrameHandle;
  wi_ws_session : W;
  wi_connected : bool;
  wi_last_error : string;
  wi_desired_universe : option UniverseSnapshot;
  wi_market_route_by_ticker : gmap string UniverseMarketRoute;
  wi_market_route_by_id : gmap Z UniverseMarketRoute;
  wi_desired_channels : list KalshiMarketDataChannel;
  wi_active_subscriptions : gmap KalshiMarketDataChannel ActiveSubscription;
  wi_pending_ws_commands : gmap Z PendingWsCommand;
  wi_next_recycle_queue_idx : Z;
  wi_telemetry : IoTelemetrySnapshot;
  wi_next_telemetry_send : Z;
  wi_next_ws_command_id : Z;
  wi_pending_recovery_by_market : gmap Z PendingRecoveryTag;
  wi_sequence_observer : observer;
  wi_pending_integrity_barrier : option MarketDataPathMessage;
  wi_next_wire_incident_id : Z;
  wi_pending_recovery_statuses : list IoToControlStatus;
  wi_clock_reads : nat;
}.
#[export] Instance eta_WireState : Eta WireState := λ r,
  mkWireState (wi_frame_pool r) (wi_router_queue r) (wi_control_to_io_queue r) (wi_io_to_control_status_queue r)
    (wi_recycle_queues r) (wi_logger_queue r) (wi_ws_session r) (wi_connected r) (wi_last_error r) (wi_desired_universe r)
    (wi_market_route_by_ticker r) (wi_market_route_by_id r) (wi_desired_channels r) (wi_active_subscriptions r)
    (wi_pending_ws_commands r) (wi_next_recycle_queue_idx r) (wi_telemetry r) (wi_next_telemetry_send r)
    (wi_next_ws_command_id r) (wi_pending_recovery_by_market r) (wi_sequence_observer r) (wi_pending_integrity_barrier r)
    (wi_next_wire_incident_id r) (wi_pending_recovery_statuses r) (wi_clock_reads r).

Variable clk : nat → Z.
Variable hash_order : list Z → list Z.

Definition make_wire_session (pool : Pool.FramePool) (router : Q MarketDataPathMessage)
    (commands : list (option ControlToIoCommand)) (statuses : Q IoToControlStatus)
    (recycle : list (option (list (option FrameHandle)))) (logger : Q FrameHandle) (ws : W)
    (channels : list KalshiMarketDataChannel) : WireState :=
  mkWireState pool router commands statuses recycle logger ws false "" None ∅ ∅ channels ∅ ∅ 0 default_IoTelemetrySnapshot
    (clk 0 + kIO_TELEMETRY_INTERVAL) 1 ∅ ∅ None 1 [] 1.

Definition wire_now_ns : M WireState Z := λ s, (clk (wi_clock_reads s), s ⟪ wi_clock_reads ::= S ⟫).
Definition tally (f : IoTelemetrySnapshot → IoTelemetrySnapshot) : M WireState unit := modify (λ s, s ⟪ wi_telemetry ::= f ⟫).

(** Methods of the members that the session owns or borrows. *)
Definition on_pool {A} (m : M Pool.FramePool A) : M WireState A := λ s,
  let '(a, p) := m (wi_frame_pool s) in (a, s ⟪ wi_frame_pool := p ⟫).
Definition on_observer {A} (m : M observer A) : M WireState A := λ s,
  let '(a, o) := m (wi_sequence_observer s) in (a, s ⟪ wi_sequence_observer := o ⟫).
Definition on_ws {A} (m : M W A) : M WireState A := λ s,
  let '(a, w) := m (wi_ws_session s) in (a, s ⟪ wi_ws_session := w ⟫).
Definition push_router (m : MarketDataPathMessage) : M WireState bool := λ s,
  let '(b, q) := q_push m (wi_router_queue s) in (b, s ⟪ wi_router_queue := q ⟫).
Definition push_logger (h : FrameHandle) : M WireState bool := λ s,
  let '(b, q) := q_push h (wi_logger_queue s) in (b, s ⟪ wi_logger_queue := q ⟫).
Definition push_control_status (m : IoToControlStatus) : M WireState bool := λ s,
  let '(b, q) := q_push m (wi_io_to_control_status_queue s) in (b, s ⟪ wi_io_to_control_status_queue := q ⟫).

(** [channel_telemetry] and a change through the pointer it returns. *)
Definition tally_channel (channel : option KalshiMarketDataChannel)
    (f : MarketDataChannelTelemetrySnapshot → MarketDataChannelTelemetrySnapshot) : M WireState unit :=
  match channel with
  | Some c => tally (λ t, t ⟪ io_channel_stats ::= alter f (Z.to_nat (channel_code c - 1)) ⟫)
  | None => mret tt
  end.

Definition update_capacity_high_water : M WireState unit :=
  in_use ← gets (λ s, Z.of_nat (Pool.capacity_ (wi_frame_pool s) - Pool.available (wi_frame_pool s)));
  depth ← gets (λ s, q_size (wi_router_queue s));
  tally (λ t, t ⟪ io_frame_pool_in_use_high_water ::= Z.max in_use ⟫ ⟪ io_router_queue_depth_high_water ::= Z.max depth ⟫).

Definition resolve_market_route (envelope : MarketDataEnvelope) (s : WireState) : StampHandleCode * option UniverseMarketRoute :=
  if bool_decide (me_kind envelope = kFRAME_UNKNOWN) then (kSTAMP_UNKNOWN_KIND, None)
  else if bool_decide (me_market_ticker envelope = ""%string) then (kSTAMP_EMPTY_MARKET_TICKER, None)
  else if negb (active (me_sid envelope) (wi_sequence_observer s)) then (kSTAMP_INACTIVE_SID, None)
  else if bool_decide (wi_desired_universe s = None) then (kSTAMP_INACTIVE_SID, None)
  else
    match wi_market_route_by_ticker s !! me_market_ticker envelope with
    | None => (kSTAMP_UNKNOWN_MARKET_TICKER, None)
    | Some route => (kSTAMP_OK, Some route)
    end.

Definition universe_version (s : WireState) : Z := default 0 (us_version <$> wi_desired_universe s).

Definition stamp_handle (handle : FrameHandle) (envelope : MarketDataEnvelope) (route : UniverseMarketRoute) (version : Z) : FrameHandle :=
  handle ⟪ fh_universe_version := version ⟫ ⟪ fh_sequence := me_sequence envelope ⟫ ⟪ fh_sid := me_sid envelope ⟫
    ⟪ fh_market_id := ur_market_id route ⟫ ⟪ fh_event_id := ur_event_id route ⟫ ⟪ fh_affinity_key := ur_affinity_key route ⟫
    ⟪ fh_topology := ur_topology route ⟫ ⟪ fh_shard_index := ur_shard_index route ⟫
    ⟪ fh_shard_event_index := ur_shard_event_index route ⟫ ⟪ fh_event_market_index := ur_event_market_index route ⟫
    ⟪ fh_kind := me_kind envelope ⟫.

(** ** Barriers and recovery statuses *)

Definition flush_pending_integrity_barrier : M WireState bool :=
  pending ← gets wi_pending_integrity_barrier;
  match pending with
  | None => mret true
  | Some barrier =>
      pushed ← push_router barrier;
      if pushed : bool then
        update_capacity_high_water;;
        modify (λ s, s ⟪ wi_pending_integrity_barrier := None ⟫);;
        mret true
      else mret false
  end.

Definition send_or_defer_integrity_barrier (barrier : MarketDataPathMessage) : M WireState bool :=
  pending ← gets wi_pending_integrity_barrier;
  match pending with
  | Some _ => mret false
  | None =>
      pushed ← push_router barrier;
      if pushed : bool then update_capacity_high_water;; mret true
      else modify (λ s, s ⟪ wi_pending_integrity_barrier := Some barrier ⟫);; mret false
  end.

Definition count_status (status : IoToControlStatus) : M WireState unit :=
  match status with
  | IsRecoveryRequestAccepted _ => tally (λ t, t ⟪ io_snapshot_requests_accepted ::= bump ⟫)
  | IsRecoveryRequestFailed _ => tally (λ t, t ⟪ io_snapshot_requests_failed ::= bump ⟫)
  | _ => mret tt
  end.

Definition send_or_defer_recovery_status (status : IoToControlStatus) : M WireState unit :=
  count_status status;;
  pending ← gets wi_pending_recovery_statuses;
  match pending with
  | [] =>
      pushed ← push_control_status status;
      when (negb pushed) (modify (λ s, s ⟪ wi_pending_recovery_statuses ::= λ l, l ++ [status] ⟫))
  | _ => modify (λ s, s ⟪ wi_pending_recovery_statuses ::= λ l, l ++ [status] ⟫)
  end.

(** The loop over the deque [statuses], what is left of the member. *)
Fixpoint flush_statuses (statuses : list IoToControlStatus) : M WireState bool :=
  match statuses with
  | [] => mret true
  | status :: rest =>
      pushed ← push_control_status status;
      if pushed : bool then
        modify (λ s, s ⟪ wi_pending_recovery_statuses := rest ⟫);;
        flush_statuses rest
      else mret false
  end.
Definition flush_pending_recovery_statuses : M WireState bool :=
  statuses ← gets wi_pending_recovery_statuses;
  flush_statuses statuses.

Definition maybe_send_telemetry : M WireState unit :=
  now ← wire_now_ns;
  next ← gets wi_next_telemetry_send;
  pending ← gets wi_pending_recovery_statuses;
  if (now <? next) || negb (bool_decide (pending = [])) then mret tt
  else
    telemetry ← gets wi_telemetry;
    _ ← push_control_status (IsTelemetry telemetry);
    modify (λ s, s ⟪ wi_next_telemetry_send := now + kIO_TELEMETRY_INTERVAL ⟫).

Definition request_failed (market_id : Z) (tag : PendingRecoveryTag) (reason : string) : IoToControlStatus :=
  IsRecoveryRequestFailed (mkIoRecoveryRequestFailed (tg_recovery_id tag) (tg_universe_version tag) market_id (tg_request_attempt tag) reason).

(** *** The state of a connection *)

Fixpoint fail_tags (ids : list Z) : M WireState unit :=
  match ids with
  | [] => mret tt
  | id :: ids' =>
      tag ← gets (λ s, wi_pending_recovery_by_market s !! id);
      match tag with
      | Some tag => send_or_defer_recovery_status (request_failed id tag "Transport reset before recovery snapshot delivery")
      | None => mret tt
      end;;
      fail_tags ids'
  end.

Definition clear_transport_subscription_state : M WireState unit :=
  ids ← gets (λ s, hash_order (map_to_list (wi_pending_recovery_by_market s)).*1);
  fail_tags ids;;
  modify (λ s, s ⟪ wi_pending_recovery_by_market := ∅ ⟫ ⟪ wi_pending_ws_commands := ∅ ⟫ ⟪ wi_active_subscriptions := ∅ ⟫
                 ⟪ wi_sequence_observer := ∅ ⟫).

Definition report_fault (error_message : string) : M WireState unit :=
  modify (λ s, s ⟪ wi_connected := false ⟫ ⟪ wi_last_error := error_message ⟫);;
  clear_transport_subscription_state;;
  _ ← push_control_status (IsFaulted error_message);
  mret tt.

Definition disconnect (reason : string) : M WireState unit :=
  modify (λ s, s ⟪ wi_ws_session ::= ws_close ⟫ ⟪ wi_connected := false ⟫ ⟪ wi_last_error := reason ⟫);;
  clear_transport_subscription_state;;
  _ ← push_control_status (IsDisconnected reason);
  mret tt.

(** *** Subscriptions *)

(** [next_ws_command_id] and the entry in the map of pending commands. *)
Definition register_command (kind : WsCommandKind) (channel : KalshiMarketDataChannel) (market_ids : list Z)
    (context : option RecoveryCommandContext) : M WireState Z :=
  id ← gets wi_next_ws_command_id;
  modify (λ s, s ⟪ wi_next_ws_command_id ::= bump ⟫
                 ⟪ wi_pending_ws_commands ::= λ m, if decide (is_Some (m !! id)) then m
                     else <[id := mkPendingWsCommand id kind channel market_ids context]> m ⟫);;
  mret id.
Definition send_text (request : WsRequest) : M WireState SendStatus := on_ws (ws_send_text request).
Definition upd_subscription (channel : KalshiMarketDataChannel) (f : ActiveSubscription → ActiveSubscription) : M WireState unit :=
  modify (λ s, s ⟪ wi_active_subscriptions ::= alter f channel ⟫).

Definition subscribe_channel (channel : KalshiMarketDataChannel) (tickers : list string) : M WireState bool :=
  ws_command_id ← register_command kCMD_SUBSCRIBE channel [] None;
  old ← gets (λ s, wi_active_subscriptions s !! channel);
  match old ≫= ab_sid with
  | Some sid => modify (λ s, s ⟪ wi_sequence_observer ::= deactivate sid ⟫)
  | None => mret tt
  end;;
  modify (λ s, s ⟪ wi_active_subscriptions ::= <[channel := mkActiveSubscription channel kSUBSCRIBE_PENDING None ∅ ""]> ⟫);;
  status ← send_text (WsSubscribe ws_command_id channel tickers);
  mret (bool_decide (status = kSEND_ACCEPTED)).

Definition channel_text (c : KalshiMarketDataChannel) : string :=
  match c with kCH_ORDERBOOK_DELTA => "1" | kCH_TRADE => "2" | kCH_MARKET_LIFECYCLE => "3" end.

Fixpoint subscribe_channels (channels : list KalshiMarketDataChannel) (tickers : list string) : M WireState bool :=
  match channels with
  | [] => mret true
  | channel :: rest =>
      sent ← subscribe_channel channel tickers;
      when (negb sent) (report_fault ("Failed to subscribe to channel " +:+ channel_text channel));;
      all_sent ← subscribe_channels rest tickers;
      mret (sent && all_sent)
  end.

Definition subscribe_active_universe : M WireState bool :=
  universe ← gets wi_desired_universe;
  match universe with
  | None => report_fault "Cannot subscribe to universe - no snapshot applied";; mret false
  | Some u =>
      channels ← gets wi_desired_channels;
      subscribe_channels channels (ur_kalshi_ticker <$> us_market_routes u)
  end.

(** [add_markets] and [delete_markets] differ in the command and its texts. *)
Definition update_markets (kind : WsCommandKind) (action to_channel one_market : string) (channel : KalshiMarketDataChannel)
    (tickers : list string) : M WireState bool :=
  subscription ← gets (λ s, wi_active_subscriptions s !! channel);
  match subscription with
  | None => report_fault (to_channel +:+ " - subscription not found: " +:+ channel_text channel);; mret false
  | Some subscription =>
      match ab_sid subscription with
      | None => report_fault (to_channel +:+ " - subscription not active: " +:+ channel_text channel);; mret false
      | Some sid =>
          routes ← gets wi_market_route_by_ticker;
          match find_if (λ ticker, bool_decide (routes !! ticker = None)) tickers with
          | Some ticker => report_fault (one_market +:+ " - ticker not found in universe: " +:+ ticker);; mret false
          | None =>
              ws_command_id ← register_command kind channel (omap (λ ticker, ur_market_id <$> routes !! ticker) tickers) None;
              upd_subscription channel (λ b, b ⟪ ab_phase := kUPDATE_PENDING ⟫);;
              status ← send_text (WsUpdate ws_command_id sid tickers action);
              if bool_decide (status = kSEND_ACCEPTED) then mret true
              else
                error ← gets (λ s, ws_last_error (wi_ws_session s));
                modify (λ s, s ⟪ wi_pending_ws_commands ::= delete ws_command_id ⟫);;
                upd_subscription channel (λ b, b ⟪ ab_phase := kSUBSCRIBED ⟫ ⟪ ab_last_error := error ⟫);;
                mret false
          end
      end
  end.
Definition add_markets := update_markets kCMD_ADD_MARKETS "add_markets" "Cannot add markets to channel" "Cannot add market".
Definition delete_markets := update_markets kCMD_DELETE_MARKETS "delete_markets" "Cannot delete markets from channel" "Cannot delete market".

Definition unsubscribe_channel (channel : KalshiMarketDataChannel) : M WireState bool :=
  subscription ← gets (λ s, wi_active_subscriptions s !! channel);
  match subscription with
  | None => report_fault ("Cannot unsubscribe from channel - not currently subscribed: " +:+ channel_text channel);; mret false
  | Some subscription =>
      match ab_sid subscription with
      | None => report_fault ("Cannot unsubscribe from channel - subscription has no SID: " +:+ channel_text channel);; mret false
      | Some sid =>
          if negb (bool_decide (ab_phase subscription = kSUBSCRIBED)) then
            report_fault ("Cannot unsubscribe from channel - subscription is not active: " +:+ channel_text channel);; mret false
          else
            ws_command_id ← register_command kCMD_UNSUBSCRIBE channel [] None;
            upd_subscription channel (λ b, b ⟪ ab_phase := kUNSUBSCRIBE_PENDING ⟫);;
            status ← send_text (WsUnsubscribe ws_command_id [sid]);
            if bool_decide (status = kSEND_ACCEPTED) then mret true
            else
              error ← gets (λ s, ws_last_error (wi_ws_session s));
              modify (λ s, s ⟪ wi_pending_ws_commands ::= delete ws_command_id ⟫);;
              upd_subscription channel (λ b, b ⟪ ab_phase := kSUBSCRIBED ⟫ ⟪ ab_last_error := error ⟫);;
              mret false
      end
  end.

Definition connect : M WireState bool :=
  connected ← on_ws ws_connect;
  if connected : bool then
    modify (λ s, s ⟪ wi_connected := true ⟫ ⟪ wi_last_error := ""%string ⟫);;
    clear_transport_subscription_state;;
    _ ← push_control_status IsConnected;
    universe ← gets wi_desired_universe;
    match universe with
    | Some _ => _ ← subscribe_active_universe; mret true
    | None => mret true
    end
  else
    error ← gets (λ s, ws_last_error (wi_ws_session s));
    modify (λ s, s ⟪ wi_connected := false ⟫ ⟪ wi_last_error := error ⟫);;
    report_fault ("Failed to connect: " +:+ error);;
    mret false.

(** ** Commands of control *)

(** The loop over the routes; [emplace] keeps the first of equal keys. *)
Definition emplace_routes {K} `{Countable K} (key : UniverseMarketRoute → K) (routes : list UniverseMarketRoute)
    : gmap K UniverseMarketRoute :=
  foldl (λ m r, if decide (is_Some (m !! key r)) then m else <[key r := r]> m) ∅ routes.

Definition apply_universe_snapshot (snapshot : option UniverseSnapshot) : M WireState unit :=
  match snapshot with
  | None => report_fault "Received null universe snapshot"
  | Some u =>
      old ← gets wi_desired_universe;
      when (match old with Some o => negb (us_version o =? us_version u) | None => false end)
        (modify (λ s, s ⟪ wi_pending_recovery_by_market := ∅ ⟫
                        ⟪ wi_pending_ws_commands ::= filter (λ e, wc_kind e.2 ≠ kCMD_GET_SNAPSHOT) ⟫));;
      modify (λ s, s ⟪ wi_desired_universe := Some u ⟫
                     ⟪ wi_market_route_by_ticker := emplace_routes ur_kalshi_ticker (us_market_routes u) ⟫
                     ⟪ wi_market_route_by_id := emplace_routes ur_market_id (us_market_routes u) ⟫);;
      _ ← push_control_status (IsUniverseSnapshotApplied (us_version u));
      ready ← gets (λ s, wi_connected s && bool_decide (wi_active_subscriptions s = ∅));
      if ready : bool then _ ← subscribe_active_universe; mret tt else mret tt
  end.

Definition command_tag (c : RecoverMarketIo) : PendingRecoveryTag :=
  mkPendingRecoveryTag (rq_recovery_id c) (rq_universe_version c) (rq_request_attempt c).
Definition command_context (c : RecoverMarketIo) : RecoveryCommandContext :=
  mkRecoveryCommandContext (rq_recovery_id c) (rq_universe_version c) (rq_market_id c) (rq_request_attempt c).
Definition request_accepted (x : RecoveryCommandContext) : IoToControlStatus :=
  IsRecoveryRequestAccepted (mkIoRecoveryRequestAccepted (rx_recovery_id x) (rx_universe_version x) (rx_market_id x) (rx_request_attempt x)).

(** The subscription over which snapshots are requested, if it is active. *)
Definition book_subscription (s : WireState) : option Z :=
  subscription ← wi_active_subscriptions s !! kCH_ORDERBOOK_DELTA;
  if bool_decide (ab_phase subscription = kSUBSCRIBED) then ab_sid subscription else None.

(** Why a request cannot be carried out, if it cannot. *)
Definition recovery_refusal (command : RecoverMarketIo) (s : WireState) : option string :=
  if (rq_recovery_id command =? 0) || (rq_request_attempt command =? 0) then Some "Invalid recovery request identity"%string
  else if negb (wi_connected s) then Some "Cannot request recovery snapshot while disconnected"%string
  else if match wi_desired_universe s with Some u => negb (us_version u =? rq_universe_version command) | None => true end
  then Some "Recovery request universe does not match installed universe"%string
  else if bool_decide (wi_market_route_by_id s !! rq_market_id command = None)
  then Some "Recovery request market is not in the installed universe"%string
  else if bool_decide (book_subscription s = None) then Some "Order-book subscription is not active"%string
  else None.

(** A command for the request is still waiting for the exchange's response. *)
Definition command_still_pending (x : RecoveryCommandContext) (s : WireState) : bool :=
  existsb (λ e, bool_decide (wc_recovery_context e.2 = Some x)) (map_to_list (wi_pending_ws_commands s)).

(** Forget the tag of a request, if the market still has it; the universe version is
    compared where the source does. *)
Definition tag_matches (with_version : bool) (x : RecoveryCommandContext) (tag : PendingRecoveryTag) : bool :=
  (tg_recovery_id tag =? rx_recovery_id x) && (negb with_version || (tg_universe_version tag =? rx_universe_version x))
  && (tg_request_attempt tag =? rx_request_attempt x).
Definition erase_tag (with_version : bool) (x : RecoveryCommandContext) : M WireState unit :=
  modify (λ s, s ⟪ wi_pending_recovery_by_market ::= λ m,
    match m !! rx_market_id x with
    | Some tag => if tag_matches with_version x tag then delete (rx_market_id x) m else m
    | None => m
    end ⟫).

Definition request_snapshot (command : RecoverMarketIo) : M WireState unit :=
  let fail_request reason := send_or_defer_recovery_status (request_failed (rq_market_id command) (command_tag command) reason) in
  sid ← gets (λ s, default 0 (book_subscription s));
  ticker ← gets (λ s, default ""%string (ur_kalshi_ticker <$> wi_market_route_by_id s !! rq_market_id command));
  modify (λ s, s ⟪ wi_pending_recovery_by_market ::= <[rq_market_id command := command_tag command]> ⟫);;
  ws_command_id ← register_command kCMD_GET_SNAPSHOT kCH_ORDERBOOK_DELTA [rq_market_id command] (Some (command_context command));
  status ← send_text (WsUpdate ws_command_id sid [ticker] "get_snapshot");
  if bool_decide (status = kSEND_ACCEPTED) then tally (λ t, t ⟪ io_snapshot_requests_sent ::= bump ⟫)
  else
    modify (λ s, s ⟪ wi_pending_ws_commands ::= delete ws_command_id ⟫);;
    erase_tag false (command_context command);;
    error ← gets (λ s, ws_last_error (wi_ws_session s));
    fail_request ("Failed to send recovery snapshot request: " +:+ error).

Definition recover_market (command : RecoverMarketIo) : M WireState unit :=
  let fail_request reason := send_or_defer_recovery_status (request_failed (rq_market_id command) (command_tag command) reason) in
  refusal ← gets (recovery_refusal command);
  match refusal with
  | Some reason => fail_request reason
  | None =>
      existing ← gets (λ s, wi_pending_recovery_by_market s !! rq_market_id command);
      match existing with
      | Some tag =>
          if negb (bool_decide (tag = command_tag command)) then fail_request "Market already has a pending recovery snapshot"%string
          else
            waiting ← gets (command_still_pending (command_context command));
            when (negb waiting) (send_or_defer_recovery_status (request_accepted (command_context command)))
      | None => request_snapshot command
      end
  end.

Definition handle_control_command (cmd : ControlToIoCommand) : M WireState unit :=
  match cmd with
  | CiApplyUniverseSnapshot snapshot => apply_universe_snapshot snapshot
  | CiConnect => _ ← connect; mret tt
  | CiDisconnect => disconnect ""
  | CiRecoverMarket command => recover_market command
  end.

Definition pop_control_command : M WireState (option ControlToIoCommand) := λ s,
  match wi_control_to_io_queue s with
  | [] => (None, s)
  | x :: q => (x, s ⟪ wi_control_to_io_queue := q ⟫)
  end.

(** The loop ends at the latest when the queue is empty: [fuel] is its length. *)
Fixpoint drain_commands (fuel : nat) : M WireState unit :=
  match fuel with
  | O => mret tt
  | S fuel' =>
      pending ← gets wi_pending_recovery_statuses;
      match pending with
      | [] =>
          popped ← pop_control_command;
          match popped with
          | Some cmd => handle_control_command cmd;; drain_commands fuel'
          | None => mret tt
          end
      | _ => mret tt
      end
  end.
Definition drain_control_commands : M WireState unit :=
  fuel ← gets (λ s, length (wi_control_to_io_queue s));
  drain_commands fuel.

(** ** Responses of the exchange *)

Definition context_failed (x : RecoveryCommandContext) (reason : string) : IoToControlStatus :=
  IsRecoveryRequestFailed (mkIoRecoveryRequestFailed (rx_recovery_id x) (rx_universe_version x) (rx_market_id x) (rx_request_attempt x) reason).

Definition handle_snapshot_response (x : RecoveryCommandContext) (response_type : string) : M WireState unit :=
  if bool_decide (response_type = "error"%string) then
    erase_tag true x;;
    send_or_defer_recovery_status (context_failed x "Kalshi recovery snapshot request failed")
  else if negb (bool_decide (response_type = "ok"%string)) then
    erase_tag true x;;
    send_or_defer_recovery_status (context_failed x "Unexpected Kalshi recovery snapshot response type")
  else send_or_defer_recovery_status (request_accepted x).

(** A subscription has failed. *)
Definition fault_subscription (channel : KalshiMarketDataChannel) (error : string) : M WireState unit :=
  upd_subscription channel (λ b, b ⟪ ab_phase := kSUB_FAULTED ⟫ ⟪ ab_last_error := error ⟫);;
  report_fault error.

Definition all_channels_subscribed (s : WireState) : bool :=
  forallb (λ channel, match wi_active_subscriptions s !! channel with
    | Some b => bool_decide (ab_phase b = kSUBSCRIBED) && bool_decide (is_Some (ab_sid b))
    | None => false
    end) (wi_desired_channels s).

Definition handle_subscribed (channel : KalshiMarketDataChannel) (root : jobject) : M WireState unit :=
  match msg ← read_object root "msg"; read_int64 msg "sid" with
  | None => fault_subscription channel "Subscribed response missing sid"
  | Some sid =>
      if (sid <? 0) || (U32_MAX <? u64 sid) then fault_subscription channel "Subscribed response sid out of range"
      else
        let sid := u32 sid in
        reused ← gets (λ s, active sid (wi_sequence_observer s)
                            && negb (channel_for_sid sid (wi_sequence_observer s) =? channel_code channel));
        if reused : bool then fault_subscription channel "Subscribed response reused an active sid"
        else
          old ← gets (λ s, wi_active_subscriptions s !! channel);
          match old ≫= ab_sid with
          | Some previous => when (negb (previous =? sid)) (modify (λ s, s ⟪ wi_sequence_observer ::= deactivate previous ⟫))
          | None => mret tt
          end;;
          universe ← gets wi_desired_universe;
          let market_ids := match universe with Some u => list_to_set (ur_market_id <$> us_market_routes u) | None => ∅ end in
          upd_subscription channel (λ b, b ⟪ ab_sid := Some sid ⟫ ⟪ ab_phase := kSUBSCRIBED ⟫ ⟪ ab_market_ids := market_ids ⟫
                                           ⟪ ab_last_error := ""%string ⟫);;
          modify (λ s, s ⟪ wi_sequence_observer ::= activate sid channel ⟫);;
          ready ← gets all_channels_subscribed;
          match universe with
          | Some u => if ready : bool then _ ← push_control_status (IsSubscriptionReady (us_version u)); mret tt else mret tt
          | None => mret tt
          end
  end.

Definition handle_subscription_response (pending : PendingWsCommand) (response_type : string) (root : jobject) : M WireState unit :=
  let channel := wc_channel pending in
  subscription ← gets (λ s, wi_active_subscriptions s !! channel);
  match subscription with
  | None => report_fault "Websocket response targeted an unknown subscription"
  | Some subscription =>
      if bool_decide (response_type = "error"%string) then fault_subscription channel "Kalshi websocket command failed"
      else
        match wc_kind pending with
        | kCMD_SUBSCRIBE => handle_subscribed channel root
        | kCMD_ADD_MARKETS =>
            upd_subscription channel (λ b, b ⟪ ab_market_ids ::= λ m, m ∪ list_to_set (wc_market_ids pending) ⟫
              ⟪ ab_phase := kSUBSCRIBED ⟫ ⟪ ab_last_error := ""%string ⟫)
        | kCMD_DELETE_MARKETS =>
            upd_subscription channel (λ b, b ⟪ ab_market_ids ::= λ m, m ∖ list_to_set (wc_market_ids pending) ⟫
              ⟪ ab_phase := kSUBSCRIBED ⟫ ⟪ ab_last_error := ""%string ⟫)
        | kCMD_UNSUBSCRIBE =>
            match ab_sid subscription with
            | Some sid => modify (λ s, s ⟪ wi_sequence_observer ::= deactivate sid ⟫)
            | None => mret tt
            end;;
            upd_subscription channel (λ b, b ⟪ ab_sid := None ⟫ ⟪ ab_market_ids := ∅ ⟫ ⟪ ab_phase := kSUB_IDLE ⟫ ⟪ ab_last_error := ""%string ⟫)
        | kCMD_GET_SNAPSHOT => mret tt
        end
  end.

Definition handle_ws_control_response (payload : list Z) : M WireState unit :=
  match payload with
  | [] => mret tt
  | _ =>
      match iterate payload (Z.of_nat (length payload)) with
      | None => report_fault "Failed to parse websocket control response"
      | Some document =>
          match document_get_object document with
          | None => report_fault "Websocket control response was not a JSON object"
          | Some root =>
              match read_uint64 root "id" with
              | None => mret tt
              | Some ws_command_id =>
                  found ← gets (λ s, wi_pending_ws_commands s !! ws_command_id);
                  match found with
                  | None => mret tt
                  | Some pending =>
                      modify (λ s, s ⟪ wi_pending_ws_commands ::= delete ws_command_id ⟫);;
                      match read_string root "type" with
                      | None =>
                          match wc_recovery_context pending with
                          | Some x =>
                              erase_tag false x;;
                              send_or_defer_recovery_status (context_failed x "Recovery websocket response missing type")
                          | None => report_fault "Websocket control response missing type"
                          end
                      | Some response_type =>
                          if bool_decide (wc_kind pending = kCMD_GET_SNAPSHOT) then
                            match wc_recovery_context pending with
                            | Some x => handle_snapshot_response x response_type
                            | None => report_fault "Recovery websocket command missing recovery context"
                            end
                          else handle_subscription_response pending response_type root
                      end
                  end
              end
          end
      end
  end.

(** ** Market data *)

Definition recycle_handle (handle : FrameHandle) : M WireState unit :=
  recycled ← on_pool (Pool.recycle handle);
  when (negb recycled) (tally (λ t, t ⟪ io_recycle_failures ::= bump ⟫)).

Definition record_unknown_market_ticker (sample : UnknownMarketTickerStats) : M WireState unit :=
  tally (λ t, t ⟪ io_unknown_market_ticker_samples ::= λ samples,
    if bool_decide (sample ∈ samples) || (kMAX_UNKNOWN_MARKET_TICKER_SAMPLES <=? length samples)%nat then samples
    else samples ++ [sample] ⟫).

(** The recycle queues in turn, until a batch has been recycled or all were found empty.
    [fuel]: every round pops a handle or finds a queue empty. *)
Definition pop_recycled (index : nat) : M WireState (option FrameHandle) := λ s,
  match wi_recycle_queues s !! index with
  | Some (Some (x :: q)) => (x, s ⟪ wi_recycle_queues ::= <[index := Some q]> ⟫)
  | _ => (None, s)
  end.
Fixpoint recycle_loop (fuel : nat) (total_recycled empty_queues : Z) : M WireState unit :=
  match fuel with
  | O => mret tt
  | S fuel' =>
      size ← gets (λ s, Z.of_nat (length (wi_recycle_queues s)));
      if (total_recycled <? kMAX_RECYCLE_BATCH_SIZE) && (empty_queues <? size) then
        index ← gets wi_next_recycle_queue_idx;
        modify (λ s, s ⟪ wi_next_recycle_queue_idx := (index + 1) mod size ⟫);;
        popped ← pop_recycled (Z.to_nat index);
        match popped with
        | None => recycle_loop fuel' total_recycled (empty_queues + 1)
        | Some handle =>
            recycled ← on_pool (Pool.recycle handle);
            if recycled : bool then recycle_loop fuel' (total_recycled + 1) 0
            else tally (λ t, t ⟪ io_recycle_failures ::= bump ⟫);; recycle_loop fuel' total_recycled 0
        end
      else mret tt
  end.
Definition queued_handles (s : WireState) : nat := sum_list_with (λ q, length (default [] q)) (wi_recycle_queues s).
Definition drain_recycle_queues : M WireState unit :=
  empty ← gets (λ s, bool_decide (wi_recycle_queues s = []));
  if empty : bool then mret tt
  else
    fuel ← gets (λ s, (S (queued_handles s) * S (length (wi_recycle_queues s)))%nat);
    recycle_loop fuel 0 0.

(** An incident of the wire session. *)
Definition next_incident : M WireState IntegrityIncidentKey :=
  id ← gets wi_next_wire_incident_id;
  modify (λ s, s ⟪ wi_next_wire_incident_id ::= bump ⟫);;
  mret (mkIntegrityIncidentKey kWIRE_SESSION 0 id).

Definition emit_market_barrier (envelope : MarketDataEnvelope) (route : UniverseMarketRoute) (reason : BookInvalidationReason)
    : M WireState bool :=
  if negb (is_order_book (me_kind envelope)) then mret true
  else
    version ← gets universe_version;
    incident ← next_incident;
    send_or_defer_integrity_barrier (MsgMarketBarrier (mkMarketInvalidationBarrier version incident (me_sid envelope)
      (me_sequence envelope) (ur_market_id route) (ur_event_id route) (ur_shard_index route) (ur_shard_event_index route)
      (ur_event_market_index route) reason)).

Definition tag_context (market_id : Z) (tag : PendingRecoveryTag) : RecoveryCommandContext :=
  mkRecoveryCommandContext (tg_recovery_id tag) (tg_universe_version tag) market_id (tg_request_attempt tag).

Definition fail_correlated_recovery (envelope : MarketDataEnvelope) (route : UniverseMarketRoute) (reason : string) : M WireState unit :=
  if negb (bool_decide (me_kind envelope = kORDERBOOK_SNAPSHOT)) then mret tt
  else
    found ← gets (λ s, wi_pending_recovery_by_market s !! ur_market_id route);
    match found with
    | None => mret tt
    | Some tag =>
        modify (λ s, s ⟪ wi_pending_recovery_by_market ::= delete (ur_market_id route) ⟫
          ⟪ wi_pending_ws_commands ::= filter (λ e, wc_recovery_context e.2 ≠ Some (tag_context (ur_market_id route) tag)) ⟫);;
        send_or_defer_recovery_status (request_failed (ur_market_id route) tag reason)
    end.

(** A message of an order book is lost. *)
Definition lose_frame (envelope : MarketDataEnvelope) (route : UniverseMarketRoute) (reason : BookInvalidationReason) (text : string)
    : M WireState unit :=
  if is_order_book (me_kind envelope) then
    _ ← emit_market_barrier envelope route reason;
    fail_correlated_recovery envelope route text
  else mret tt.

(** The router refuses the handle: to the logger, or back to the pool. *)
Definition deliver_to_logger (channel : option KalshiMarketDataChannel) (handle : FrameHandle) : M WireState unit :=
  logged ← push_logger handle;
  if logged : bool then
    tally (λ t, t ⟪ io_logger_fallback_enqueued ::= bump ⟫ ⟪ io_frames_published ::= bump ⟫);;
    tally_channel channel (λ c, c ⟪ ct_logger_only_frames ::= bump ⟫)
  else
    tally (λ t, t ⟪ io_frames_dropped ::= bump ⟫ ⟪ io_logger_fallback_failed ::= bump ⟫);;
    recycle_handle handle.

Definition fill_frame (payload : list Z) (ingress_ts_ns : Z) (f : Pool.KalshiFrame) : Pool.KalshiFrame :=
  Pool.mkKalshiFrame ingress_ts_ns (u32 (Z.of_nat (length payload))) 0 (payload ++ drop (length payload) (Pool.fr_payload f)).

(** The recovery request that a snapshot answers. *)
Definition snapshot_tag (envelope : MarketDataEnvelope) (route : UniverseMarketRoute) (version : Z) (s : WireState)
    : option PendingRecoveryTag :=
  if bool_decide (me_kind envelope = kORDERBOOK_SNAPSHOT) then
    tag ← wi_pending_recovery_by_market s !! ur_market_id route;
    if tg_universe_version tag =? version then Some tag else None
  else None.

(** The frame has been written: stamp its handle and send it. *)
Definition send_frame (channel : option KalshiMarketDataChannel) (handle : FrameHandle) (envelope : MarketDataEnvelope)
    (route : UniverseMarketRoute) (ingress_ts_ns : Z) : M WireState unit :=
  version ← gets universe_version;
  let handle := (stamp_handle handle envelope route version) ⟪ fh_ingress_ts_ns := ingress_ts_ns ⟫ in
  recovery_tag ← gets (snapshot_tag envelope route version);
  let handle := match recovery_tag with Some tag => handle ⟪ fh_recovery_id := tg_recovery_id tag ⟫ | None => handle end in
  now ← wire_now_ns;
  let handle := handle ⟪ fh_wire_publish_ts_ns := now ⟫ in
  when (market_data_channel_index (fh_kind handle) <? kMarketDataChannelCount)%nat
    (tally (λ t, t ⟪ io_wire_service_latency ::= alter (λ h, Histogram.record_elapsed_ns h (fh_ingress_ts_ns handle) (fh_wire_publish_ts_ns handle))
                       (market_data_channel_index (fh_kind handle)) ⟫));;
  pushed ← push_router (MsgFrame handle);
  if negb pushed then
    tally (λ t, t ⟪ io_router_enqueue_failed ::= bump ⟫);;
    tally_channel channel (λ c, c ⟪ ct_downstream_delivery_losses ::= bump ⟫);;
    deliver_to_logger channel handle;;
    lose_frame envelope route kWIRE_TO_ROUTER_DELIVERY_LOSS "Recovery snapshot could not be delivered to the router"
  else
    update_capacity_high_water;;
    match recovery_tag with
    | Some tag => erase_tag true (tag_context (ur_market_id route) tag)
    | None => mret tt
    end;;
    tally (λ t, t ⟪ io_frames_published ::= bump ⟫).

(** A slot of the pool, if need be after draining the recycle queues. *)
Definition acquire_slot : M WireState (option FrameHandle) :=
  handle ← on_pool (Pool.try_acquire kFrameParserPadding);
  match handle with
  | Some handle => mret (Some handle)
  | None => drain_recycle_queues;; on_pool (Pool.try_acquire kFrameParserPadding)
  end.

Definition publish_routed (payload : list Z) (channel : option KalshiMarketDataChannel) (envelope : MarketDataEnvelope)
    (route : UniverseMarketRoute) (ingress_ts_ns : Z) : M WireState unit :=
  acquired ← acquire_slot;
  match acquired with
  | None =>
      tally (λ t, t ⟪ io_frames_dropped ::= bump ⟫ ⟪ io_pool_exhausted ::= bump ⟫);;
      lose_frame envelope route kWIRE_POOL_EXHAUSTION "Recovery snapshot dropped because the wire frame pool was exhausted"
  | Some handle =>
      update_capacity_high_water;;
      written ← on_pool (Pool.write_frame handle (fill_frame payload ingress_ts_ns));
      if written : bool then send_frame channel handle envelope route ingress_ts_ns
      else
        tally (λ t, t ⟪ io_frames_dropped ::= bump ⟫ ⟪ io_missing_frame_slot ::= bump ⟫);;
        recycle_handle handle;;
        lose_frame envelope route kWIRE_POOL_EXHAUSTION "Recovery snapshot dropped because its frame slot was unavailable"
  end.

Definition sequence_available (code : EnvelopeParseCode) : bool :=
  match code with
  | kENV_OK | kENV_MISSING_TYPE | kENV_UNSUPPORTED_TYPE | kENV_MISSING_MSG | kENV_MISSING_MARKET_TICKER => true
  | _ => false
  end.

Definition count_observation (o : SequenceObservation) : M WireState unit :=
  tally_channel (so_channel o) (λ c,
    let c := c ⟪ ct_frames_observed ::= bump ⟫ in
    match so_code o with
    | kGAP => c ⟪ ct_sequence_gaps ::= bump ⟫
    | kDUPLICATE => c ⟪ ct_duplicate_sequences ::= bump ⟫
    | kSTALE => c ⟪ ct_stale_sequences ::= bump ⟫
    | _ => c
    end).

(** A gap in the numbers of the order-book subscription: a barrier for all its books.  The
    message may go on unless the barrier has to wait. *)
Definition announce_gap (envelope : MarketDataEnvelope) (o : SequenceObservation) : M WireState bool :=
  if bool_decide (so_code o = kGAP) && bool_decide (so_channel o = Some kCH_ORDERBOOK_DELTA) then
    version ← gets universe_version;
    incident ← next_incident;
    send_or_defer_integrity_barrier (MsgSubscriptionBarrier (mkOrderBookSubscriptionInvalidationBarrier version incident
      (me_sid envelope) (so_expected_sequence o) (so_observed_sequence o) kEXCHANGE_SEQUENCE_GAP))
  else mret true.

Definition publish_observed (payload : list Z) (code : EnvelopeParseCode) (channel : option KalshiMarketDataChannel)
    (envelope : MarketDataEnvelope) (ingress_ts_ns : Z) : M WireState unit :=
  match code with
  | kENV_OK =>
      resolved ← gets (resolve_market_route envelope);
      match resolved with
      | (kSTAMP_OK, Some route) => publish_routed payload channel envelope route ingress_ts_ns
      | (kSTAMP_OK, None) => tally (λ t, t ⟪ io_frames_dropped ::= bump ⟫ ⟪ io_stamp_failed ::= bump ⟫)
      | (kSTAMP_UNKNOWN_KIND, _) =>
          tally (λ t, t ⟪ io_frames_dropped ::= bump ⟫ ⟪ io_stamp_failed ::= bump ⟫ ⟪ io_envelope_unsupported_type ::= bump ⟫)
      | (kSTAMP_EMPTY_MARKET_TICKER, _) =>
          tally (λ t, t ⟪ io_frames_dropped ::= bump ⟫ ⟪ io_stamp_failed ::= bump ⟫ ⟪ io_envelope_missing_market_ticker ::= bump ⟫)
      | (kSTAMP_INACTIVE_SID, _) =>
          tally (λ t, t ⟪ io_frames_dropped ::= bump ⟫ ⟪ io_stamp_failed ::= bump ⟫ ⟪ io_inactive_sid ::= bump ⟫)
      | (kSTAMP_UNKNOWN_MARKET_TICKER, _) =>
          tally (λ t, t ⟪ io_frames_dropped ::= bump ⟫ ⟪ io_stamp_failed ::= bump ⟫ ⟪ io_unknown_market_ticker ::= bump ⟫);;
          tally_channel channel (λ c, c ⟪ ct_intentionally_filtered ::= bump ⟫);;
          code ← gets (λ s, channel_for_sid (me_sid envelope) (wi_sequence_observer s));
          record_unknown_market_ticker (mkUnknownMarketTickerStats (me_market_ticker envelope) (me_kind envelope) (me_sid envelope) code)
      end
  | kENV_UNSUPPORTED_TYPE => tally (λ t, t ⟪ io_frames_dropped ::= bump ⟫ ⟪ io_envelope_unsupported_type ::= bump ⟫)
  | kENV_MISSING_MARKET_TICKER => tally (λ t, t ⟪ io_frames_dropped ::= bump ⟫ ⟪ io_envelope_missing_market_ticker ::= bump ⟫)
  | _ => tally (λ t, t ⟪ io_frames_dropped ::= bump ⟫ ⟪ io_envelope_parse_failed ::= bump ⟫)
  end.

Definition publish_market_data_frame (payload : list Z) (ingress : Z) : M WireState unit :=
  ingress_ts_ns ← (if ingress =? 0 then wire_now_ns else mret ingress);
  tally (λ t, t ⟪ io_frames_received ::= bump ⟫);;
  if (Pool.kMaxFrameBytes <? length payload)%nat then
    tally (λ t, t ⟪ io_frames_dropped ::= bump ⟫ ⟪ io_oversized_frames ::= bump ⟫)
  else
    let '(code, envelope) := parse_market_data_envelope payload in
    if sequence_available code then
      observation ← on_observer (observe (me_sid envelope) (me_sequence envelope));
      if bool_decide (so_code observation = kOBS_INACTIVE_SID) then
        tally (λ t, t ⟪ io_frames_dropped ::= bump ⟫ ⟪ io_stamp_failed ::= bump ⟫ ⟪ io_inactive_sid ::= bump ⟫)
      else
        count_observation observation;;
        proceed ← announce_gap envelope observation;
        if negb proceed || bool_decide (so_code observation = kDUPLICATE) || bool_decide (so_code observation = kSTALE)
        then tally (λ t, t ⟪ io_frames_dropped ::= bump ⟫)
        else publish_observed payload code (so_channel observation) envelope ingress_ts_ns
    else publish_observed payload code None envelope ingress_ts_ns.

(** ** The transport *)

Definition classify_incoming_message (payload : list Z) (s : WireState) : IncomingMessageKind :=
  match payload with
  | [] => kIN_IGNORE
  | _ =>
      match iterate_object payload with
      | None => kIN_MALFORMED
      | Some root =>
          if match read_uint64 root "id" with Some id => bool_decide (is_Some (wi_pending_ws_commands s !! id)) | None => false end
          then kIN_CONTROL_RESPONSE
          else
            match read_string root "type" with
            | None => kIN_IGNORE
            | Some type =>
                if negb (bool_decide (frame_kind_from_type type = kFRAME_UNKNOWN)) then kIN_MARKET_DATA
                else if bool_decide (type = "ok"%string) || bool_decide (type = "error"%string)
                     || bool_decide (type = "subscribed"%string) || bool_decide (type = "unsubscribed"%string) then kIN_IGNORE
                else if bool_decide (is_Some (read_uint64 root "sid")) && bool_decide (is_Some (read_uint64 root "seq"))
                then kIN_MARKET_DATA
                else kIN_IGNORE
            end
      end
  end.

Definition dispatch_incoming (payload : list Z) (ingress_ts_ns : Z) : M WireState unit :=
  kind ← gets (classify_incoming_message payload);
  match kind with
  | kIN_IGNORE => mret tt
  | kIN_CONTROL_RESPONSE => handle_ws_control_response payload
  | kIN_MARKET_DATA => publish_market_data_frame payload ingress_ts_ns
  | kIN_MALFORMED => report_fault "Malformed websocket message received"
  end.

Definition service_transport_once (may_consume : bool) : M WireState bool :=
  polled ← on_ws ws_poll;
  let made_progress := 0 <? polled in
  read_result ← on_ws ws_recv_text;
  match rr_status read_result with
  | kREAD_PENDING => mret made_progress
  | kREAD_CLOSED =>
      modify (λ s, s ⟪ wi_connected := false ⟫ ⟪ wi_last_error := "websocket closed"%string ⟫);;
      clear_transport_subscription_state;;
      _ ← push_control_status (IsDisconnected "websocket closed");
      mret true
  | kREAD_ERROR =>
      error ← gets (λ s, ws_last_error (wi_ws_session s));
      report_fault ("websocket receive failed: " +:+ error);;
      mret true
  | kREAD_MESSAGE =>
      if negb may_consume then mret made_progress
      else
        ingress_ts_ns ← wire_now_ns;
        dispatch_incoming (rr_payload read_result) ingress_ts_ns;;
        connected ← gets wi_connected;
        when connected (modify (λ s, s ⟪ wi_ws_session ::= ws_consume_message ⟫));;
        mret true
  end.

(** The first half of a round of [run]; whether a message may be consumed in the second. *)
Definition run_prepare : M WireState bool :=
  drain_recycle_queues;;
  flushed ← flush_pending_recovery_statuses;
  recovery_statuses_flushed ← (if flushed : bool then drain_control_commands;; flush_pending_recovery_statuses else mret false);
  integrity_barrier_flushed ← flush_pending_integrity_barrier;
  mret (recovery_statuses_flushed && integrity_barrier_flushed).

(** One round of [run]; the sleep of a round without progress is left out. *)
Definition run_once : M WireState unit :=
  may_consume_message ← run_prepare;
  connected ← gets wi_connected;
  (if connected : bool then _ ← service_transport_once may_consume_message; mret tt else mret tt);;
  maybe_send_telemetry.

(** What [run] does once a stop is requested. *)
Definition run_stopped : M WireState unit :=
  disconnect "wire session stopped";;
  drain_recycle_queues;;
  _ ← flush_pending_integrity_barrier;
  _ ← flush_pending_recovery_statuses;
  maybe_send_telemetry.
End Wire.
End Wire.
