(* ===== verification/WireSequence.v ===== *)
(** * WireSequence: the sequence numbers of a subscription are accounted for

    The observer sees the numbers of all subscriptions interleaved, in whatever order the
    transport delivers them.  For each subscription, the numbers it accepts and the numbers
    it reports as missing make up exactly the interval from the first to the last. *)

From S2P Require Import Prelude MarketTypes WireTypes Wire.

Module WireSequence.
Import SidSequenceObserver.

Definition observe_step (acc : list (Z * SequenceObservation) * observer) (x : Z * Z) : list (Z * SequenceObservation) * observer :=
  let '(seen, o) := acc in let '(r, o') := observe x.1 x.2 o in (seen ++ [(x.1, r)], o').

(** The observations of a list of subscription and sequence numbers, and the observer after. *)
Definition observe_all (l : list (Z * Z)) (o : observer) : list (Z * SequenceObservation) * observer := foldl observe_step ([], o) l.

Definition heard (sid : Z) (seen : list (Z * SequenceObservation)) : list SequenceObservation :=
  omap (λ x, if x.1 =? sid then Some x.2 else None) seen.

Definition is_new (r : SequenceObservation) : bool :=
  match so_code r with kFIRST | kCONTIGUOUS | kGAP => true | _ => false end.
Definition accepted (rs : list SequenceObservation) : list Z := omap (λ r, if is_new r then Some (so_observed_sequence r) else None) rs.

(** The numbers that a reported gap says were not delivered. *)
Definition gap_numbers (r : SequenceObservation) : list Z :=
  match so_code r with
  | kGAP => seqZ (so_expected_sequence r) (so_observed_sequence r - so_expected_sequence r)
  | _ => []
  end.
Definition missing (rs : list SequenceObservation) : list Z := rs ≫= gap_numbers.

Lemma observe_all_snoc l x o : observe_all (l ++ [x]) o = observe_step (observe_all l o) x.
Proof. unfold observe_all. by rewrite foldl_snoc. Qed.

Lemma heard_snoc sid seen x : heard sid (seen ++ [x]) = heard sid seen ++ (if x.1 =? sid then [x.2] else []).
Proof. unfold heard. rewrite omap_app. cbn. by destruct (x.1 =? sid). Qed.

Lemma accepted_snoc rs r : accepted (rs ++ [r]) = accepted rs ++ (if is_new r then [so_observed_sequence r] else []).
Proof. unfold accepted. rewrite omap_app. cbn. by destruct (is_new r). Qed.

Lemma missing_snoc rs r : missing (rs ++ [r]) = missing rs ++ gap_numbers r.
Proof. unfold missing. rewrite bind_app. cbn. by rewrite app_nil_r. Qed.

(** The account of one subscription, whose last accepted number is [last]. *)
Definition account (channel : KalshiMarketDataChannel) (rs : list SequenceObservation) (last : option Z) : Prop :=
  Forall (λ r, so_channel r = Some channel) rs ∧
  match last with
  | None => rs = []
  | Some last => ∃ first, head (accepted rs) = Some first ∧ is_u64 last ∧ StronglySorted Z.lt (accepted rs) ∧
      accepted rs ++ missing rs ≡ₚ seqZ first (last - first + 1) ∧ first ≤ last ∧
      Forall (λ r, is_new r = false → so_observed_sequence r ≤ last) rs
  end.

Lemma head_snoc {A} (l1 l2 : list A) x : head l1 = Some x → head (l1 ++ l2) = Some x.
Proof. by destruct l1. Qed.

Lemma sorted_snoc l x : StronglySorted Z.lt l → Forall (λ y, y < x) l → StronglySorted Z.lt (l ++ [x]).
Proof. induction 1; intros Hf; cbn; [by repeat constructor|]. apply Forall_cons in Hf as [? ?]. constructor; [auto|]. apply Forall_app. auto. Qed.

(** Accepting a number beyond the last one, with the numbers skipped reported. *)
Lemma account_extend channel rs last r : account channel rs (Some last) → so_channel r = Some channel → is_new r = true →
  last < so_observed_sequence r → is_u64 (so_observed_sequence r) →
  gap_numbers r = seqZ (last + 1) (so_observed_sequence r - last - 1) → account channel (rs ++ [r]) (Some (so_observed_sequence r)).
Proof.
  intros [Hch (first & Hh & Hu & Hs & Hp & Hf & Ho)] Hc Hn Hlt Hu' Hg. split; [by apply Forall_app; split; [|constructor]|].
  exists first. rewrite accepted_snoc, missing_snoc, Hn, Hg. split_and!; [by apply head_snoc|done| | |lia|].
  - apply sorted_snoc; [done|]. apply Forall_forall. intros y Hy.
    assert (y ∈ seqZ first (last - first + 1)) as Hy' by (rewrite <- Hp; apply elem_of_app; by left). apply elem_of_seqZ in Hy'. lia.
  - rewrite (Permutation_app_comm (accepted rs)). rewrite <- app_assoc, (app_assoc (accepted rs)), Hp.
    replace (so_observed_sequence r - first + 1) with ((last - first + 1) + ((so_observed_sequence r - last - 1) + 1)) by lia.
    rewrite (seqZ_app first (last - first + 1)), (seqZ_app (first + _)) by lia. replace (first + (last - first + 1)) with (last + 1) by lia.
    replace (last + 1 + (so_observed_sequence r - last - 1)) with (so_observed_sequence r) by lia.
    rewrite (seqZ_cons (so_observed_sequence r) 1), (seqZ_nil (Z.succ _)) by lia. by rewrite Permutation_app_comm, <- app_assoc.
  - apply Forall_app. split; [eapply Forall_impl; [exact Ho|]; cbn; intros y H Hy; specialize (H Hy); lia|constructor; [congruence|done]].
Qed.

Lemma account_reject channel rs last r : account channel rs (Some last) → so_channel r = Some channel → is_new r = false →
  so_observed_sequence r ≤ last → gap_numbers r = [] → account channel (rs ++ [r]) (Some last).
Proof.
  intros [Hch (first & Hh & Hu & Hs & Hp & Hf & Ho)] Hc Hn Hle Hg. split; [by apply Forall_app; split; [|constructor]|].
  exists first. rewrite accepted_snoc, missing_snoc, Hn, Hg, !app_nil_r. split_and!; try done. apply Forall_app. split; [done|by constructor].
Qed.

Lemma observe_other sid sid' sequence o : sid ≠ sid' → (observe sid' sequence o).2 !! sid = o !! sid.
Proof. intros Hne. unfold observe. destruct (o !! sid') as [st|]; [|done]. cbv zeta.
  destruct (as_last_sequence st) as [p|]; [|by apply lookup_insert_ne].
  destruct (sequence =? p); [done|]. destruct (negb _ && _); [by apply lookup_insert_ne|]. destruct (p <? sequence); [by apply lookup_insert_ne|done]. Qed.

(** One observation keeps the account of its subscription. *)
Lemma observe_account sid sequence o channel last rs : o !! sid = Some (mkActiveSidState channel last) → is_u64 sequence → account channel rs last →
  ∃ last', (observe sid sequence o).2 !! sid = Some (mkActiveSidState channel last') ∧ account channel (rs ++ [(observe sid sequence o).1]) last'.
Proof.
  intros Hs Hu Ha. unfold observe. rewrite Hs. cbn [as_last_sequence as_channel]. destruct last as [previous|].
  2: { destruct Ha as [_ ->]. exists (Some sequence). cbn [fst snd]. rewrite lookup_insert_eq. split; [done|]. split; [by repeat constructor|]. exists sequence.
       unfold accepted, missing. cbn. replace (sequence - sequence + 1) with 1 by lia. rewrite (seqZ_cons sequence 1), (seqZ_nil (Z.succ _)) by lia.
       split_and!; [done|done|by repeat constructor|done|lia|]. by repeat constructor. }
  assert (is_u64 previous) as Hp by (destruct Ha as [_ (? & _ & ? & _)]; done). unfold is_u64 in *. cbn [fst snd].
  destruct (Z.eqb_spec sequence previous) as [->|Hne]; [exists (Some previous); cbn; split; [done|by apply account_reject]|].
  destruct (Z.eqb_spec previous U64_MAX) as [E|Hm]; cbn [negb andb].
  - rewrite (proj2 (Z.ltb_ge _ _)) by lia. exists (Some previous). cbn. split; [done|]. apply account_reject; try done. cbn. lia.
  - rewrite u64_id by (unfold is_u64; lia). destruct (Z.eqb_spec sequence (previous + 1)) as [->|Hc]; cbn [fst snd].
    { exists (Some (previous + 1)). rewrite lookup_insert_eq. split; [done|]. apply (account_extend _ _ previous); try done; cbn; [lia|].
      by rewrite seqZ_nil by lia. }
    destruct (Z.ltb_spec previous sequence) as [Hlt|Hge]; cbn [fst snd].
    + exists (Some sequence). rewrite lookup_insert_eq. split; [done|]. apply (account_extend _ _ previous); try done. cbn. f_equal. lia.
    + exists (Some previous). split; [done|]. apply account_reject; try done.
Qed.

(** Whatever numbers of whatever subscriptions are observed, in whatever order: for a
    subscription the numbers accepted are strictly increasing, and together with the numbers
    reported missing by its gaps they are exactly the interval from the first number to the
    last, each once; every number refused as duplicate or stale lies at or below the last.
    So no number is skipped unreported, and none is reported that was accepted. *)
Theorem sequence_gaps_account sid channel l o : o !! sid = Some (mkActiveSidState channel None) → Forall (λ x, is_u64 x.2) l →
  ∃ last, (observe_all l o).2 !! sid = Some (mkActiveSidState channel last) ∧ account channel (heard sid (observe_all l o).1) last.
Proof.
  intros Ho. induction l as [|x l IH] using rev_ind; intros Hl; [by exists None|]. apply Forall_app in Hl as [Hl Hx].
  apply Forall_cons in Hx as [Hx _]. destruct (IH Hl) as (last & Hs & Ha). rewrite observe_all_snoc.
  unfold observe_step. destruct (observe_all l o) as [seen o1]. cbn [fst snd] in *. destruct (Z.eqb_spec x.1 sid) as [<-|Hne].
  - destruct (observe_account x.1 x.2 o1 channel last (heard x.1 seen) Hs Hx Ha) as (last' & H1 & H2).
    destruct (observe x.1 x.2 o1) as [r o']. exists last'. cbn [fst snd] in *. rewrite heard_snoc. cbn [fst snd]. by rewrite Z.eqb_refl.
  - pose proof (observe_other sid x.1 x.2 o1 ltac:(done)) as H1. destruct (observe x.1 x.2 o1) as [r o']. exists last. cbn [fst snd] in *.
    rewrite heard_snoc. cbn [fst snd]. rewrite (proj2 (Z.eqb_neq _ _)), app_nil_r by done. by rewrite H1.
Qed.

(** Two subscriptions; number 12 of the first is lost, 11 comes twice. *)
Definition demo_numbers : list (Z * Z) := [(1, 10); (2, 500); (1, 11); (1, 11); (1, 13); (2, 501); (1, 9)].
Definition demo_observer : observer := activate 1 kCH_ORDERBOOK_DELTA (activate 2 kCH_TRADE ∅).

Lemma sequence_gaps_account_witness : ∃ last, (observe_all demo_numbers demo_observer).2 !! 1 = Some (mkActiveSidState kCH_ORDERBOOK_DELTA last) ∧
  account kCH_ORDERBOOK_DELTA (heard 1 (observe_all demo_numbers demo_observer).1) last.
Proof.
  apply (sequence_gaps_account 1 kCH_ORDERBOOK_DELTA demo_numbers demo_observer); [vm_compute; reflexivity|].
  repeat (apply Forall_cons; split; [unfold is_u64; cbn; lia|]). apply Forall_nil_2.
Defined.

Lemma demo_account : accepted (heard 1 (observe_all demo_numbers demo_observer).1) = [10; 11; 13] ∧
  missing (heard 1 (observe_all demo_numbers demo_observer).1) = [12].
Proof. vm_compute. split; reflexivity. Qed.
End WireSequence.
