(* ===== verification/WireStream.v ===== *)
(** * WireStream: what the router receives from the wire session

    The stream to the router, sent or still owed, grows only by what each message of the
    exchange is due: the frame itself, or the barrier that stands for its loss. *)

From S2P Require Import Prelude Spsc LatencyHistogram MarketTypes FramePool ControlTypes MarketParser WireTypes Wire.

Module WireStream.
Import SidSequenceObserver Wire.

Section WireStream.
Context {Q : Type → Type} `{HQ : PushQueue Q} {HL : PushQueueLaws Q} {W : Type} `{HW : WebSocket W} `{SJ : SimdJson} {SN : SimdJsonNumbers}.
Variable kFrameParserPadding : nat.
Variable clk : nat → Z.
Variable hash_order : list Z → list Z.
Abbreviation WireState := (WireState (Q := Q) (W := W)).
Implicit Types s : WireState.

(** ** Methods that leave the path to the router alone *)

Definition path s := (wi_router_queue s, wi_pending_integrity_barrier s).

Lemma path_now : rel (same path) (wire_now_ns clk). Proof. done. Qed.
Lemma path_tally f : rel (same path) (tally f). Proof. done. Qed.
Lemma path_pool {A} (m : M Pool.FramePool A) : rel (same path) (on_pool m).
Proof. intros s. unfold on_pool. by destruct (m _). Qed.
Lemma path_observer {A} (m : M observer A) : rel (same path) (on_observer m).
Proof. intros s. unfold on_observer. by destruct (m _). Qed.
Lemma path_ws {A} (m : M W A) : rel (same path) (on_ws m).
Proof. intros s. unfold on_ws. by destruct (m _). Qed.
Lemma path_logger h : rel (same path) (push_logger h).
Proof. intros s. unfold push_logger. by destruct (q_push _ _). Qed.
Lemma path_status m : rel (same path) (push_control_status m).
Proof. intros s. unfold push_control_status. by destruct (q_push _ _). Qed.
Lemma path_pop_command : rel (same path) pop_control_command.
Proof. intros s. unfold pop_control_command. by destruct (wi_control_to_io_queue s). Qed.
Lemma path_pop_recycled i : rel (same path) (pop_recycled i).
Proof. intros s. unfold pop_recycled. by repeat case_match. Qed.
#[local] Hint Resolve path_now path_tally path_pool path_observer path_ws path_logger path_status path_pop_command path_pop_recycled : frame.

Lemma path_tally_channel c f : rel (same path) (tally_channel c f).
Proof. unfold tally_channel. rel_auto. Qed.
Lemma path_high_water : rel (same path) update_capacity_high_water.
Proof. unfold update_capacity_high_water. rel_auto. Qed.
Lemma path_count_status m : rel (same path) (count_status m).
Proof. unfold count_status. rel_auto. Qed.
#[local] Hint Resolve path_tally_channel path_high_water path_count_status : frame.
Lemma path_send_status m : rel (same path) (send_or_defer_recovery_status m).
Proof. unfold send_or_defer_recovery_status. rel_auto. Qed.
#[local] Hint Resolve path_send_status : frame.
Lemma path_flush_statuses l : rel (same path) (flush_statuses l).
Proof. induction l; cbn [flush_statuses]; rel_auto. Qed.
#[local] Hint Resolve path_flush_statuses : frame.
Lemma path_flush_recovery : rel (same path) flush_pending_recovery_statuses.
Proof. unfold flush_pending_recovery_statuses. rel_auto. Qed.
Lemma path_fail_tags ids : rel (same path) (fail_tags ids).
Proof. induction ids; cbn [fail_tags]; rel_auto. Qed.
#[local] Hint Resolve path_flush_recovery path_fail_tags : frame.
Lemma path_clear : rel (same path) (clear_transport_subscription_state hash_order).
Proof. unfold clear_transport_subscription_state. rel_auto. Qed.
#[local] Hint Resolve path_clear : frame.
Lemma path_fault e : rel (same path) (report_fault hash_order e).
Proof. unfold report_fault. rel_auto. Qed.
Lemma path_disconnect e : rel (same path) (disconnect hash_order e).
Proof. unfold disconnect. rel_auto. Qed.
Lemma path_telemetry : rel (same path) (maybe_send_telemetry clk).
Proof. unfold maybe_send_telemetry. rel_auto. Qed.
Lemma path_register k c l x : rel (same path) (register_command k c l x).
Proof. unfold register_command. rel_auto. Qed.
Lemma path_send_text r : rel (same path) (send_text r).
Proof. unfold send_text. rel_auto. Qed.
Lemma path_upd_subscription c f : rel (same path) (upd_subscription c f).
Proof. unfold upd_subscription. rel_auto. Qed.
Lemma path_erase_tag b x : rel (same path) (erase_tag b x).
Proof. unfold erase_tag. rel_auto. Qed.
#[local] Hint Resolve path_fault path_disconnect path_telemetry path_register path_send_text path_upd_subscription path_erase_tag : frame.
Lemma path_subscribe_channel c l : rel (same path) (subscribe_channel c l).
Proof. unfold subscribe_channel. rel_auto. Qed.
#[local] Hint Resolve path_subscribe_channel : frame.
Lemma path_subscribe_channels cs l : rel (same path) (subscribe_channels hash_order cs l).
Proof. induction cs; cbn [subscribe_channels]; rel_auto. Qed.
#[local] Hint Resolve path_subscribe_channels : frame.
Lemma path_subscribe : rel (same path) (subscribe_active_universe hash_order).
Proof. unfold subscribe_active_universe. rel_auto. Qed.
#[local] Hint Resolve path_subscribe : frame.
Lemma path_connect : rel (same path) (connect hash_order).
Proof. unfold connect. rel_auto. Qed.
Lemma path_apply u : rel (same path) (apply_universe_snapshot hash_order u).
Proof. unfold apply_universe_snapshot. rel_auto. Qed.
Lemma path_request c : rel (same path) (request_snapshot c).
Proof. unfold request_snapshot. rel_auto. Qed.
#[local] Hint Resolve path_connect path_apply path_request : frame.
Lemma path_recover c : rel (same path) (recover_market c).
Proof. unfold recover_market. rel_auto. Qed.
#[local] Hint Resolve path_recover : frame.
Lemma path_command c : rel (same path) (handle_control_command hash_order c).
Proof. unfold handle_control_command. rel_auto. Qed.
#[local] Hint Resolve path_command : frame.
Lemma path_drain_commands n : rel (same path) (drain_commands hash_order n).
Proof. induction n; cbn [drain_commands]; rel_auto. Qed.
#[local] Hint Resolve path_drain_commands : frame.
Lemma path_drain_control : rel (same path) (drain_control_commands hash_order).
Proof. unfold drain_control_commands. rel_auto. Qed.
Lemma path_recycle_loop n a b : rel (same path) (recycle_loop n a b).
Proof. revert a b. induction n; intros; cbn [recycle_loop]; rel_auto. Qed.
#[local] Hint Resolve path_drain_control path_recycle_loop : frame.
Lemma path_drain_recycle : rel (same path) drain_recycle_queues.
Proof. unfold drain_recycle_queues. rel_auto. Qed.
Lemma path_recycle_handle h : rel (same path) (recycle_handle h).
Proof. unfold recycle_handle. rel_auto. Qed.
Lemma path_fault_subscription c e : rel (same path) (fault_subscription hash_order c e).
Proof. unfold fault_subscription. rel_auto. Qed.
#[local] Hint Resolve path_drain_recycle path_recycle_handle path_fault_subscription : frame.
Lemma path_subscribed c r : rel (same path) (handle_subscribed hash_order c r).
Proof. unfold handle_subscribed. rel_auto. Qed.
#[local] Hint Resolve path_subscribed : frame.
Lemma path_response p : rel (same path) (handle_ws_control_response hash_order p).
Proof. unfold handle_ws_control_response, handle_snapshot_response, handle_subscription_response. rel_auto. Qed.
#[local] Hint Resolve path_response : frame.

(** ** The stream *)

(** Everything for the router, sent or waiting to be sent. *)
Definition stream s : list MarketDataPathMessage :=
  q_sent (wi_router_queue s) ++ match wi_pending_integrity_barrier s with Some b => [b] | None => [] end.

Lemma path_stream s s' : same path s s' → stream s' = stream s ∧ wi_pending_integrity_barrier s' = wi_pending_integrity_barrier s.
Proof. intros [= E1 E2]. unfold stream. by rewrite E1, E2. Qed.

Lemma wp_path {A} (m : M WireState A) s (Φ : A → WireState → Prop) : rel (same path) m →
  (∀ a s', stream s' = stream s → wi_pending_integrity_barrier s' = wi_pending_integrity_barrier s → Φ a s') → wp m Φ s.
Proof. intros Hm H. eapply wp_rel; [exact Hm|]. intros a s' [? ?]%path_stream. by apply H. Qed.

(** What the resolution of a market depends on. *)
Definition routing s := (wi_desired_universe s, wi_market_route_by_ticker s, wi_sequence_observer s).

Lemma routing_version s s' : routing s' = routing s → universe_version s' = universe_version s.
Proof. intros [= E _ _]. unfold universe_version. by rewrite E. Qed.

Lemma flush_barrier_spec s : wp flush_pending_integrity_barrier
  (λ ok s', stream s' = stream s ∧ (ok = true → wi_pending_integrity_barrier s' = None)) s.
Proof.
  unfold flush_pending_integrity_barrier. wp_steps. destruct (wi_pending_integrity_barrier s) as [b|] eqn:Hp; [|by wp_step].
  wp_step. unfold push_router, wp at 1. pose proof (push_sent b (wi_router_queue s)) as H. destruct (q_push _ _) as [[] q]; cbn in H |- *.
  - wp_step. eapply wp_path; [apply path_high_water|]. intros _ s' E1 E2. wp_steps. split; [|done]. unfold stream in *. cbn in *.
    rewrite Hp in *. rewrite E2 in E1. cbn in E1. rewrite H in E1. rewrite !app_nil_r. by apply app_inj_tail in E1 as [-> _].
  - wp_step. unfold stream. cbn. by rewrite Hp, H.
Qed.

(** ** What a message of the exchange is due *)

(** The frame of a message, or the barrier that stands for it. *)
Definition stands_for (envelope : MarketDataEnvelope) (route : UniverseMarketRoute) (version : Z) (m : MarketDataPathMessage) : Prop :=
  match m with
  | MsgFrame h =>
      fh_kind h = me_kind envelope ∧ fh_sid h = me_sid envelope ∧ fh_sequence h = me_sequence envelope ∧ fh_universe_version h = version ∧
      fh_market_id h = ur_market_id route ∧ fh_event_id h = ur_event_id route ∧ fh_shard_index h = ur_shard_index route ∧
      fh_shard_event_index h = ur_shard_event_index route ∧ fh_event_market_index h = ur_event_market_index route
  | MsgMarketBarrier b =>
      is_order_book (me_kind envelope) = true ∧ mb_sid b = me_sid envelope ∧ mb_sequence b = me_sequence envelope ∧ mb_universe_version b = version ∧
      mb_market_id b = ur_market_id route ∧ mb_event_id b = ur_event_id route ∧ mb_shard_index b = ur_shard_index route ∧
      mb_shard_event_index b = ur_shard_event_index route ∧ mb_event_market_index b = ur_event_market_index route
  | MsgSubscriptionBarrier _ => False
  end.

Definition announces_gap (envelope : MarketDataEnvelope) (r : SequenceObservation) (version : Z) (m : MarketDataPathMessage) : Prop :=
  match m with
  | MsgSubscriptionBarrier b => sb_sid b = me_sid envelope ∧ sb_expected_sequence b = so_expected_sequence r ∧
      sb_observed_sequence b = so_observed_sequence r ∧ sb_universe_version b = version
  | _ => False
  end.

Definition book_gap (r : SequenceObservation) : bool :=
  bool_decide (so_code r = kGAP) && bool_decide (so_channel r = Some kCH_ORDERBOOK_DELTA).

Definition is_fresh (r : SequenceObservation) : bool := match so_code r with kFIRST | kCONTIGUOUS | kGAP => true | _ => false end.

(** The counters of frames dropped and of frames that the router had no room for. *)
Definition dropped s : Z := io_frames_dropped (wi_telemetry s).
Definition refused s : Z := io_router_enqueue_failed (wi_telemetry s).

(** What stands for a frame that is lost: the barrier of its market if it is of an order
    book, and otherwise nothing. *)
Definition lost_rest (envelope : MarketDataEnvelope) (route : UniverseMarketRoute) (version : Z) (rest : list MarketDataPathMessage) : Prop :=
  if is_order_book (me_kind envelope) then ∃ b, rest = [MsgMarketBarrier b] ∧ stands_for envelope route version (MsgMarketBarrier b)
  else rest = [].

(** A message of a known market, published from [s] with the router's queue [q]: its frame is
    sent; or it is lost, because no slot of the pool is free or because the router has no room
    for it, and counted, and a barrier takes its place if it is of an order book. *)
Definition routed (envelope : MarketDataEnvelope) (route : UniverseMarketRoute) s (q : Q MarketDataPathMessage) s' (rest : list MarketDataPathMessage) : Prop :=
  (∃ h, rest = [MsgFrame h] ∧ stands_for envelope route (universe_version s) (MsgFrame h) ∧ (q_push (MsgFrame h) q).1 = true ∧
     dropped s' = dropped s ∧ refused s' = refused s) ∨
  lost_rest envelope route (universe_version s) rest ∧
  ((Pool.available (wi_frame_pool s) = 0%nat ∨ ¬ Pool.pool_wf (wi_frame_pool s)) ∧ dropped s' = bump (dropped s) ∨
   ∃ h, stands_for envelope route (universe_version s) (MsgFrame h) ∧ (q_push (MsgFrame h) q).1 = false ∧ refused s' = bump (refused s)).

(** A message that carries a new number of an active subscription: first the barrier of a gap
    before it.  If the router has no room for that barrier, it waits, and the message is
    dropped, which is counted.  Otherwise a message of a known market is published, and one
    whose market is not known or not readable is dropped, which is counted. *)
Definition fresh_due (code : EnvelopeParseCode) (envelope : MarketDataEnvelope) (r : SequenceObservation) s s' (msgs : list MarketDataPathMessage) : Prop :=
  ∃ gap rest, msgs = gap ++ rest ∧
    (if book_gap r then ∃ m, gap = [m] ∧ announces_gap envelope r (universe_version s) m else gap = []) ∧
    ((∃ m, gap = [m] ∧ (q_push m (wi_router_queue s)).1 = false ∧ wi_pending_integrity_barrier s' = Some m ∧
        rest = [] ∧ dropped s' = bump (dropped s)) ∨
     Forall (eq true) (push_all gap (wi_router_queue s)).1 ∧
     match code, (resolve_market_route envelope s).2 with
     | kENV_OK, Some route => routed envelope route s (push_all gap (wi_router_queue s)).2 s' rest
     | _, _ => rest = [] ∧ dropped s' = bump (dropped s)
     end).

(** Any other message is dropped, which is counted. *)
Definition due (payload : list Z) s s' (msgs : list MarketDataPathMessage) : Prop :=
  let '(code, envelope) := parse_market_data_envelope payload in
  let r := (observe (me_sid envelope) (me_sequence envelope) (wi_sequence_observer s)).1 in
  if (length payload <=? Pool.kMaxFrameBytes)%nat && sequence_available code && is_fresh r then fresh_due code envelope r s s' msgs
  else msgs = [] ∧ dropped s' = bump (dropped s).

(** ** Delivery *)

(** Methods on the way of a frame that leave the path, the universe and the two counters alone. *)
Definition route_view s := (path s, routing s, dropped s, refused s).

Lemma view_facts s s' : route_view s' = route_view s →
  wi_router_queue s' = wi_router_queue s ∧ wi_pending_integrity_barrier s' = wi_pending_integrity_barrier s ∧ stream s' = stream s ∧
  routing s' = routing s ∧ universe_version s' = universe_version s ∧ dropped s' = dropped s ∧ refused s' = refused s.
Proof.
  intros E. assert (stream s' = stream s ∧ routing s' = routing s) as [Hs Hr].
  { split; [apply (path_stream s s'); exact (f_equal (λ v, v.1.1.1) E)|exact (f_equal (λ v, v.1.1.2) E)]. }
  split_and!; [exact (f_equal (λ v, v.1.1.1.1) E)|exact (f_equal (λ v, v.1.1.1.2) E)|done|done|by apply routing_version|exact (f_equal (λ v, v.1.2) E)|exact (f_equal snd E)].
Qed.

Lemma view_now : rel (same route_view) (wire_now_ns clk). Proof. done. Qed.
Lemma view_pool {A} (m : M Pool.FramePool A) : rel (same route_view) (on_pool m).
Proof. intros s. unfold on_pool. by destruct (m _). Qed.
Lemma view_logger h : rel (same route_view) (push_logger h).
Proof. intros s. unfold push_logger. by destruct (q_push _ _). Qed.
Lemma view_status m : rel (same route_view) (push_control_status m).
Proof. intros s. unfold push_control_status. by destruct (q_push _ _). Qed.
Lemma view_pop_recycled i : rel (same route_view) (pop_recycled i).
Proof. intros s. unfold pop_recycled. by repeat case_match. Qed.
#[local] Hint Resolve view_now view_pool view_logger view_status view_pop_recycled : frame.
#[local] Hint Extern 3 (rel (same route_view) (tally _)) => (intros ?; reflexivity) : frame.
Lemma view_tally_channel c f : rel (same route_view) (tally_channel c f).
Proof. unfold tally_channel. rel_auto. Qed.
Lemma view_high_water : rel (same route_view) update_capacity_high_water.
Proof. unfold update_capacity_high_water. rel_auto. Qed.
Lemma view_recycle_loop n a b : rel (same route_view) (recycle_loop n a b).
Proof. revert a b. induction n; intros; cbn [recycle_loop]; rel_auto. Qed.
Lemma view_recycle_handle h : rel (same route_view) (recycle_handle h).
Proof. unfold recycle_handle. rel_auto. Qed.
Lemma view_count_status m : rel (same route_view) (count_status m).
Proof. unfold count_status. rel_auto. Qed.
#[local] Hint Resolve view_tally_channel view_high_water view_recycle_loop view_recycle_handle view_count_status : frame.
Lemma view_send_status m : rel (same route_view) (send_or_defer_recovery_status m).
Proof. unfold send_or_defer_recovery_status. rel_auto. Qed.
#[local] Hint Resolve view_send_status : frame.
Lemma view_fail_recovery envelope route text : rel (same route_view) (fail_correlated_recovery envelope route text).
Proof. unfold fail_correlated_recovery. rel_auto. Qed.
Lemma view_erase_tag b x : rel (same route_view) (erase_tag b x).
Proof. unfold erase_tag. rel_auto. Qed.
Lemma view_acquire : rel (same route_view) (acquire_slot kFrameParserPadding).
Proof. unfold acquire_slot, drain_recycle_queues. rel_auto. Qed.
Lemma view_count r : rel (same route_view) (count_observation r).
Proof. unfold count_observation. rel_auto. Qed.
Lemma view_telemetry : rel (same route_view) (maybe_send_telemetry clk).
Proof. unfold maybe_send_telemetry. rel_auto. Qed.
#[local] Hint Resolve view_fail_recovery view_erase_tag view_acquire view_count view_telemetry : frame.

Lemma wp_view {A} (m : M WireState A) s (Φ : A → WireState → Prop) : rel (same route_view) m →
  (∀ a s', route_view s' = route_view s → Φ a s') → wp m Φ s.
Proof. intros Hm H. eapply wp_rel; [exact Hm|]. intros a s' E. by apply H. Qed.

(** Skip a method that leaves the view alone. *)
Ltac skip_view := wp_step; eapply wp_view; [rel_auto|intros ? ? ?].

Lemma push_router_spec m s : wi_pending_integrity_barrier s = None →
  wp (push_router m) (λ ok s', ok = (q_push m (wi_router_queue s)).1 ∧ wi_router_queue s' = (q_push m (wi_router_queue s)).2 ∧
    wi_pending_integrity_barrier s' = None ∧ stream s' = stream s ++ (if ok then [m] else []) ∧
    routing s' = routing s ∧ wi_frame_pool s' = wi_frame_pool s ∧ dropped s' = dropped s ∧ refused s' = refused s) s.
Proof.
  intros Hp. unfold push_router, wp, stream. pose proof (push_sent m (wi_router_queue s)) as H. destruct (q_push _ _) as [b q]. cbn in *.
  rewrite Hp, !app_nil_r, H. split_and!; try done. destruct b; [done|by rewrite app_nil_r].
Qed.

(** A barrier is never lost: it is sent or it waits. *)
Lemma send_barrier_spec m s : wi_pending_integrity_barrier s = None →
  wp (send_or_defer_integrity_barrier m) (λ ok s', ok = (q_push m (wi_router_queue s)).1 ∧ stream s' = stream s ++ [m] ∧
    (if ok then wi_pending_integrity_barrier s' = None ∧ wi_router_queue s' = (q_push m (wi_router_queue s)).2
     else wi_pending_integrity_barrier s' = Some m) ∧
    routing s' = routing s ∧ wi_frame_pool s' = wi_frame_pool s ∧ dropped s' = dropped s ∧ refused s' = refused s) s.
Proof.
  intros Hp. unfold send_or_defer_integrity_barrier. wp_steps. rewrite Hp. wp_step. eapply wp_mono; [by apply push_router_spec|]. cbv beta.
  intros ok s1 (-> & Eq & E1 & E2 & E3 & E4 & E5 & E6). destruct (q_push m (wi_router_queue s)).1.
  - wp_step. eapply (wp_rel (same (λ s, (route_view s, wi_frame_pool s)))); [unfold update_capacity_high_water; rel_auto|].
    intros _ s2 [V Vp]%pair_eq. apply view_facts in V as (V1 & V2 & V3 & V4 & V5 & V6 & V7). cbn in Vp. wp_step. split_and!; congruence.
  - wp_steps. rewrite app_nil_r in E2. split_and!; try done. unfold stream in *. cbn. rewrite E1, Hp, !app_nil_r in *. by rewrite E2.
Qed.

Lemma lose_frame_spec envelope route reason text s : wi_pending_integrity_barrier s = None →
  wp (lose_frame envelope route reason text) (λ _ s', ∃ rest, stream s' = stream s ++ rest ∧
    lost_rest envelope route (universe_version s) rest ∧ dropped s' = dropped s ∧ refused s' = refused s) s.
Proof.
  intros Hp. unfold lose_frame, lost_rest. destruct (is_order_book (me_kind envelope)) eqn:Ek; [|wp_step; exists []; by rewrite app_nil_r].
  wp_step. unfold emit_market_barrier. rewrite Ek. cbn [negb]. unfold next_incident. wp_steps.
  eapply wp_mono; [by apply send_barrier_spec|]. cbv beta. intros ok s1 (_ & E & _ & _ & _ & Ed & Er).
  eapply wp_view; [rel_auto|]. intros _ s' (_ & _ & V3 & _ & _ & V6 & V7)%view_facts. eexists. rewrite V3, E. split; [done|].
  split; [eexists; split; [done|]; by split_and!|]. by rewrite V6, V7, Ed, Er.
Qed.

Lemma lost_view envelope route reason text s s1 : wi_pending_integrity_barrier s = None → route_view s1 = route_view s →
  wp (lose_frame envelope route reason text) (λ _ s', ∃ rest, stream s' = stream s ++ rest ∧
    lost_rest envelope route (universe_version s) rest ∧ dropped s' = dropped s ∧ refused s' = refused s) s1.
Proof.
  intros Hp (V1 & V2 & V3 & V4 & V5 & V6 & V7)%view_facts. eapply wp_mono; [apply lose_frame_spec; congruence|]. cbv beta. intros _ s'. by rewrite V3, V5, V6, V7.
Qed.

(** Handing a refused frame to the logger, or back to the pool. *)
Lemma deliver_spec c h s : wp (deliver_to_logger c h) (λ _ s', path s' = path s ∧ routing s' = routing s ∧ refused s' = refused s) s.
Proof.
  eapply (wp_rel (same (λ s, (path s, routing s, refused s)))); [|intros _ s' E; split_and!; [exact (f_equal (λ v, v.1.1) E)|exact (f_equal (λ v, v.1.2) E)|exact (f_equal snd E)]]. unfold deliver_to_logger, recycle_handle, tally_channel.
  assert (∀ h, rel (same (λ s, (path s, routing s, refused s))) (push_logger h)) as H1 by (intros h' s'; unfold push_logger; by destruct (q_push _ _)).
  assert (∀ A (m : M Pool.FramePool A), rel (same (λ s, (path s, routing s, refused s))) (on_pool m)) as H2 by (intros A m s'; unfold on_pool; by destruct (m _)).
  assert (∀ f, (∀ t, io_router_enqueue_failed (f t) = io_router_enqueue_failed t) → rel (same (λ s, (path s, routing s, refused s))) (tally f)) as H3.
  { intros f Hf s'. unfold same, refused. cbn. by rewrite Hf. }
  repeat first [by apply H3 | apply H1 | apply H2 | rel_step].
Qed.

Lemma send_frame_spec channel handle envelope route ingress s : wi_pending_integrity_barrier s = None →
  wp (send_frame clk channel handle envelope route ingress) (λ _ s', ∃ h, stands_for envelope route (universe_version s) (MsgFrame h) ∧
    if (q_push (MsgFrame h) (wi_router_queue s)).1
    then stream s' = stream s ++ [MsgFrame h] ∧ dropped s' = dropped s ∧ refused s' = refused s
    else ∃ rest, stream s' = stream s ++ rest ∧ lost_rest envelope route (universe_version s) rest ∧ refused s' = bump (refused s)) s.
Proof.
  intros Hp. unfold send_frame. wp_steps. unfold wire_now_ns, wp at 1. cbn [fst snd]. wp_step.
  match goal with |- wp _ _ ?s1 => assert (route_view s1 = route_view s) as E0 by done end.
  eapply wp_view; [rel_auto|]. intros _ s1 E1. rewrite E0 in E1. clear E0. apply view_facts in E1 as (V1 & V2 & V3 & V4 & V5 & V6 & V7).
  match goal with |- context [push_router (MsgFrame ?x)] => set (h := x) end.
  assert (stands_for envelope route (universe_version s) (MsgFrame h)) as Hh by (unfold h; by case_match). clearbody h.
  wp_step. eapply wp_mono; [apply push_router_spec; congruence|]. cbv beta. intros ok s2 (-> & E2 & E3 & E4 & E5 & E6 & E7 & E8). rewrite V1 in *.
  destruct (q_push (MsgFrame h) (wi_router_queue s)).1 eqn:Eok; cbn [negb].
  - skip_view. wp_step. eapply wp_view; [case_match; rel_auto|]. intros _ s4 E9. rewrite H in E9. apply view_facts in E9 as (W1 & W2 & W3 & W4 & W5 & W6 & W7).
    unfold tally. wp_step. exists h. split; [exact Hh|]. rewrite Eok. split_and!; [|transitivity (dropped s4); [done|congruence]|transitivity (refused s4); [done|congruence]].
    transitivity (stream s4); [done|]. by rewrite W3, E4, V3.
  - rewrite app_nil_r in E4. unfold tally at 1. wp_step. wp_step. wp_step. eapply wp_view; [rel_auto|]. intros _ s3 E9.
    wp_step. eapply wp_mono; [apply deliver_spec|]. cbv beta. intros _ s4 (F1 & F2 & F3).
    apply view_facts in E9 as (W1 & W2 & W3 & W4 & W5 & W6 & W7). apply path_stream in F1 as [G1 G2].
    assert (wi_pending_integrity_barrier s4 = None ∧ stream s4 = stream s ∧ universe_version s4 = universe_version s ∧ refused s4 = bump (refused s)) as (X1 & X2 & X3 & X4).
    { split_and!; [rewrite G2, W2; exact E3|rewrite G1, W3; by rewrite <- V3, <- E4|rewrite (routing_version _ _ F2), W5; transitivity (universe_version s2); [done|by rewrite (routing_version _ _ E5)]|].
      rewrite F3, W7. transitivity (bump (refused s2)); [done|congruence]. }
    eapply wp_mono; [by apply lose_frame_spec|]. cbv beta. intros _ s5 (rest & Y1 & Y2 & Y3 & Y4). exists h. split; [exact Hh|]. rewrite Eok.
    exists rest. rewrite Y1, Y4, X2, X4. rewrite X3 in Y2. done.
Qed.

(** *** Slots *)

(** Every free slot is a slot: enough for the handle of an acquired slot to be live. *)
Definition slots_ok (p : Pool.FramePool) : Prop :=
  length (Pool.frames_ p) = length (Pool.in_use_ p) ∧ length (Pool.generations_ p) = length (Pool.in_use_ p) ∧
  Forall (λ slot, (slot < length (Pool.in_use_ p))%nat) (Pool.free_slots_ p).

Lemma wf_slots p : Pool.pool_wf p → slots_ok p.
Proof.
  intros [Hc Hf Hg Hu Hnd Hfree Hgr]. split; [congruence|]. split; [congruence|]. apply Forall_forall. intros slot H%Hfree. by eapply lookup_lt_Some.
Qed.

Lemma recycle_slots h p : slots_ok p → slots_ok (Pool.recycle h p).2.
Proof.
  unfold Pool.recycle, Pool.is_live_handle. intros (H1 & H2 & H3). destruct (_ <=? _); [done|].
  destruct (Pool.in_use_ p !! _) as [[]|] eqn:E; try done. destruct (Pool.generations_ p !! _); [|done]. destruct (_ =? _); [|done].
  unfold slots_ok. cbn. rewrite length_alter, length_insert. split; [done|]. split; [done|]. constructor; [by eapply lookup_lt_Some|done].
Qed.

Lemma acquire_live p h p' : slots_ok p → Pool.try_acquire kFrameParserPadding p = (Some h, p') → Pool.is_live_handle p' h = true.
Proof.
  unfold Pool.try_acquire. intros (H1 & H2 & H3). destruct (Pool.free_slots_ p) as [|slot rest]; [done|]. apply Forall_cons in H3 as [Hs _]. intros [= <- <-].
  unfold Pool.is_live_handle. cbn. rewrite length_insert, (proj2 (Z.leb_gt _ _)), Nat2Z.id, list_lookup_insert_eq by lia.
  destruct (lookup_lt_is_Some_2 (Pool.generations_ p) slot ltac:(lia)) as [g ->]. cbn. apply Z.eqb_refl.
Qed.

Lemma slots_drain : rel (keeps (λ s, slots_ok (wi_frame_pool s))) drain_recycle_queues.
Proof.
  assert (∀ h, rel (keeps (λ s : WireState, slots_ok (wi_frame_pool s))) (on_pool (Pool.recycle h))) as Hr.
  { intros h s H. unfold on_pool. pose proof (recycle_slots h _ H). by destruct (Pool.recycle h _). }
  assert (∀ i, rel (keeps (λ s : WireState, slots_ok (wi_frame_pool s))) (pop_recycled i)) as Hp.
  { intros i s. unfold pop_recycled, keeps. by repeat case_match. }
  assert (∀ f, rel (keeps (λ s : WireState, slots_ok (wi_frame_pool s))) (tally f)) as Ht by (intros f s; exact id).
  assert (∀ n a b, rel (keeps (λ s : WireState, slots_ok (wi_frame_pool s))) (recycle_loop n a b)) as Hl.
  { intros n. induction n as [|n IH]; intros a b; cbn [recycle_loop]; repeat first [apply Hr | apply Hp | apply Ht | apply IH | rel_step | intros s; exact id]. }
  unfold drain_recycle_queues. repeat first [apply Hl | rel_step].
Qed.

(** A slot is not acquired only when none was free, and can be written unless the pool is broken. *)
Lemma acquire_spec s : wp (acquire_slot kFrameParserPadding) (λ acquired s',
  match acquired with
  | None => Pool.available (wi_frame_pool s) = 0%nat
  | Some h => Pool.pool_wf (wi_frame_pool s) → Pool.is_live_handle (wi_frame_pool s') h = true
  end) s.
Proof.
  unfold acquire_slot. wp_step. unfold on_pool at 1, wp at 1. destruct (Pool.try_acquire kFrameParserPadding (wi_frame_pool s)) as [[h|] p] eqn:E; cbn [fst snd].
  - wp_step. cbn. intros Hwf%wf_slots. by eapply acquire_live.
  - assert (Pool.available (wi_frame_pool s) = 0%nat ∧ p = wi_frame_pool s) as [Ha ->].
    { unfold Pool.try_acquire, Pool.available in *. destruct (Pool.free_slots_ (wi_frame_pool s)); [|done]. by injection E. }
    wp_step. eapply wp_rel; [apply slots_drain|]. intros _ s1 Hk. unfold on_pool, wp.
    destruct (Pool.try_acquire kFrameParserPadding (wi_frame_pool s1)) as [[h|] p1] eqn:E1; cbn [fst snd]; [|done].
    intros Hwf%wf_slots. eapply acquire_live; [|exact E1]. by apply Hk.
Qed.

Lemma publish_routed_spec payload channel envelope route ingress s : wi_pending_integrity_barrier s = None →
  wp (publish_routed kFrameParserPadding clk payload channel envelope route ingress) (λ _ s', ∃ rest, stream s' = stream s ++ rest ∧
    routed envelope route s (wi_router_queue s) s' rest) s.
Proof.
  intros Hp. unfold publish_routed, routed. wp_step.
  eapply (wp_mono _ (λ a s1, _ ∧ route_view s1 = route_view s)); [apply wp_and; [apply acquire_spec|apply wp_view; [rel_auto|done]]|]. cbv beta.
  intros [handle|] s1 [Ha E1].
  - wp_step. eapply (wp_rel (same (λ s, (route_view s, wi_frame_pool s)))); [unfold update_capacity_high_water; rel_auto|].
    intros _ s2 [E2 Ep]%pair_eq. cbn in Ep. rewrite E1 in E2. wp_step. unfold on_pool at 1, wp at 1. rewrite Ep.
    destruct (Pool.write_frame handle _ (wi_frame_pool s1)) as [written p] eqn:Ew. cbn [fst snd].
    set (s3 := s2 ⟪ wi_frame_pool := p ⟫). assert (route_view s3 = route_view s) as E3 by exact E2. clearbody s3.
    destruct written.
    + pose proof (view_facts _ _ E3) as (V1 & V2 & V3 & V4 & V5 & V6 & V7). eapply wp_mono; [apply send_frame_spec; congruence|]. cbv beta.
      intros _ s' (h & Hh & H). rewrite V1, V3, V5, V6, V7 in *. destruct (q_push (MsgFrame h) (wi_router_queue s)).1 eqn:Eq.
      * destruct H as (H1 & H2 & H3). exists [MsgFrame h]. split; [done|]. left. by exists h.
      * destruct H as (rest & H1 & H2 & H3). exists rest. split; [done|]. right. split; [done|]. right. by exists h.
    + assert (¬ Pool.pool_wf (wi_frame_pool s)) as Hbad. { intros Hwf%Ha. unfold Pool.write_frame in Ew. by rewrite Hwf in Ew. }
      unfold tally. wp_step. wp_step. wp_step. eapply wp_view; [rel_auto|]. intros _ s4 E4.
      set (s5 := s3 ⟪ wi_telemetry ::= _ ⟫) in E4. pose proof (view_facts _ _ E3) as (V1 & V2 & V3 & V4 & V5 & V6 & V7).
      eapply wp_mono; [apply (lost_view _ _ _ _ s5 s4); [by transitivity (wi_pending_integrity_barrier s3); [|congruence]|exact E4]|]. cbv beta.
      intros _ s' (rest & H1 & H2 & H3 & H4). exists rest. split; [rewrite H1; by transitivity (stream s3 ++ rest); [|by rewrite V3]|].
      right. split; [rewrite <- V5; exact H2|]. left. split; [by right|]. rewrite H3. transitivity (bump (dropped s3)); [done|by rewrite V6].
  - unfold tally. wp_step. wp_step. set (s5 := s1 ⟪ wi_telemetry ::= _ ⟫). pose proof (view_facts _ _ E1) as (V1 & V2 & V3 & V4 & V5 & V6 & V7).
    eapply wp_mono; [apply (lost_view _ _ _ _ s5 s5); [by transitivity (wi_pending_integrity_barrier s1); [|congruence]|done]|]. cbv beta.
    intros _ s' (rest & H1 & H2 & H3 & H4). exists rest. split; [rewrite H1; by transitivity (stream s1 ++ rest); [|by rewrite V3]|].
    right. split; [rewrite <- V5; exact H2|]. left. split; [by left|]. rewrite H3. transitivity (bump (dropped s1)); [done|by rewrite V6].
Qed.

Lemma announce_gap_spec envelope r s : wi_pending_integrity_barrier s = None →
  wp (announce_gap envelope r) (λ ok s', ∃ gap, stream s' = stream s ++ gap ∧
    (if book_gap r then ∃ m, gap = [m] ∧ announces_gap envelope r (universe_version s) m else gap = []) ∧
    (if ok : bool then wi_pending_integrity_barrier s' = None ∧ Forall (eq true) (push_all gap (wi_router_queue s)).1 ∧
                wi_router_queue s' = (push_all gap (wi_router_queue s)).2
     else ∃ m, gap = [m] ∧ (q_push m (wi_router_queue s)).1 = false ∧ wi_pending_integrity_barrier s' = Some m) ∧
    routing s' = routing s ∧ wi_frame_pool s' = wi_frame_pool s ∧ dropped s' = dropped s ∧ refused s' = refused s) s.
Proof.
  intros Hp. unfold announce_gap. fold (book_gap r). destruct (book_gap r).
  - unfold next_incident. wp_steps. eapply wp_mono; [by apply send_barrier_spec|]. cbv beta. intros ok s' (Eok & E1 & E2 & E3).
    eexists [_]. split; [exact E1|]. split; [eexists; split; [done|]; by split_and!|]. split; [|exact E3].
    cbn [push_all]. match type of Eok with _ = (q_push _ ?q).1 => change q with (wi_router_queue s) in * end.
    destruct (q_push _ (wi_router_queue s)) as [b q] eqn:Eq. cbn in Eok, E2. subst b. destruct ok; cbn.
    + destruct E2 as [E2 E4]. split; [exact E2|]. split; [by repeat constructor|exact E4].
    + eexists. split; [done|]. by rewrite Eq.
  - wp_step. exists []. rewrite app_nil_r. cbn. by split_and!.
Qed.

Lemma resolve_same envelope s s' : routing s' = routing s → resolve_market_route envelope s' = resolve_market_route envelope s.
Proof. intros [= E1 E2 E3]. unfold resolve_market_route. by rewrite E1, E2, E3. Qed.

Lemma observe_active sid sid' sequence o : active sid ((observe sid' sequence o).2) = active sid o.
Proof.
  unfold active. apply bool_decide_ext. unfold observe. destruct (o !! sid') as [st|] eqn:E; [|done]. cbv zeta.
  assert (∀ x, is_Some (<[sid' := x]> o !! sid) ↔ is_Some (o !! sid)) as H.
  { intros x. destruct (decide (sid = sid')) as [->|]; [|by rewrite lookup_insert_ne]. rewrite lookup_insert_eq, E. done. }
  destruct (as_last_sequence st) as [p|]; [|apply H]. destruct (sequence =? p); [done|].
  destruct (negb _ && _); [apply H|]. destruct (p <? sequence); [apply H|done].
Qed.

Lemma resolve_route envelope s : (resolve_market_route envelope s).1 = kSTAMP_OK ↔ is_Some (resolve_market_route envelope s).2.
Proof. unfold resolve_market_route. repeat case_match; cbn; split; try done; try (intros [? [=]]). Qed.

(** A message that is not published is dropped. *)
Lemma drop_spec f s : (∀ t, io_frames_dropped (f t) = bump (io_frames_dropped t)) →
  wp (tally f) (λ _ s', route_view s' = (path s, routing s, bump (dropped s), io_router_enqueue_failed (f (wi_telemetry s)))) s.
Proof. intros Hf. unfold tally. wp_step. unfold route_view, dropped, refused. cbn. by rewrite Hf. Qed.

Lemma dropped_facts s s' n : route_view s' = (path s, routing s, bump (dropped s), n) → stream s' = stream s ∧ dropped s' = bump (dropped s).
Proof. intros E. split; [apply (path_stream s s'); exact (f_equal (λ v, v.1.1.1) E)|exact (f_equal (λ v, v.1.2) E)]. Qed.

Lemma drop_wp f s : (∀ t, io_frames_dropped (f t) = bump (io_frames_dropped t)) →
  wp (tally f) (λ _ s', stream s' = stream s ∧ dropped s' = bump (dropped s)) s.
Proof. intros Hf. eapply wp_mono; [by apply drop_spec|]. cbv beta. intros _ s'. apply dropped_facts. Qed.

(** The second half, once the number has been accepted. *)
Lemma publish_observed_spec payload code channel envelope ingress s : wi_pending_integrity_barrier s = None →
  wp (publish_observed kFrameParserPadding clk payload code channel envelope ingress) (λ _ s', ∃ rest, stream s' = stream s ++ rest ∧
    match code, (resolve_market_route envelope s).2 with
    | kENV_OK, Some route => routed envelope route s (wi_router_queue s) s' rest
    | _, _ => rest = [] ∧ dropped s' = bump (dropped s)
    end) s.
Proof.
  intros Hp. unfold publish_observed.
  assert (∀ f, (∀ t, io_frames_dropped (f t) = bump (io_frames_dropped t)) →
    wp (tally f) (λ _ s', ∃ rest, stream s' = stream s ++ rest ∧ rest = [] ∧ dropped s' = bump (dropped s)) s) as Hd.
  { intros f Hf. eapply wp_mono; [by apply drop_wp|]. cbv beta. intros _ s' [E1 E2]. exists []. by rewrite app_nil_r. }
  destruct code; try by apply Hd. wp_steps.
  pose proof (resolve_route envelope s) as Hres. destruct (resolve_market_route envelope s) as [code [route|]]; cbn [fst snd] in *.
  - assert (code = kSTAMP_OK) as -> by by apply Hres. by apply publish_routed_spec.
  - destruct code; try by apply Hd. wp_step. eapply wp_mono; [by apply drop_wp|]. cbv beta. intros _ s1 [E1 E2]. unfold record_unknown_market_ticker.
    eapply wp_view; [rel_auto|]. intros _ s2 (V1 & V2 & V3 & V4 & V5 & V6 & V7)%view_facts. exists []. by rewrite app_nil_r, V3, V6.
Qed.

Lemma publish_spec_fresh payload code envelope r ingress s : wi_pending_integrity_barrier s = None →
  is_fresh r = true →
  wp (count_observation r;; proceed ← announce_gap envelope r;
      if negb proceed || bool_decide (so_code r = kDUPLICATE) || bool_decide (so_code r = kSTALE)
      then tally (λ t, t ⟪ io_frames_dropped ::= bump ⟫)
      else publish_observed kFrameParserPadding clk payload code (so_channel r) envelope ingress)
    (λ _ s', ∃ msgs, stream s' = stream s ++ msgs ∧ fresh_due code envelope r s s' msgs) s.
Proof.
  intros Hp Hf. wp_step. eapply (wp_rel (same (λ s, (route_view s, wi_frame_pool s)))); [unfold count_observation, tally_channel; rel_auto|].
  intros _ s1 [E1 Ep]%pair_eq. cbn in Ep. apply view_facts in E1 as (V1 & V2 & V3 & V4 & V5 & V6 & V7). wp_step.
  eapply wp_mono; [apply announce_gap_spec; congruence|]. cbv beta. intros ok s2 (gap & E4 & Hgap & Hok & E5 & E6 & E7 & E8).
  rewrite V1, V3, V4, V5, V6, V7, Ep in *. unfold fresh_due. rewrite <- (resolve_same envelope s s2) by congruence.
  rewrite !bool_decide_eq_false_2, !orb_false_r by (unfold is_fresh in Hf; by destruct (so_code r)). destruct ok; cbn [negb].
  - destruct Hok as (Hp2 & Hfit & Hq). eapply wp_mono; [by apply publish_observed_spec|]. cbv beta. intros _ s3 (rest & Hs & H). unfold routed in *.
    rewrite (routing_version s s2), Hq, E6, E7, E8 in H by done. exists (gap ++ rest). split; [by rewrite Hs, E4, app_assoc|].
    exists gap, rest. split; [done|]. split; [done|]. right. split; [done|]. exact H.
  - destruct Hok as (m & -> & Hfull & Hw). unfold tally. wp_step. exists [m]. split; [done|]. exists [m], []. split; [done|]. split; [done|]. left.
    exists m. split_and!; try done. transitivity (bump (dropped s2)); [done|by rewrite E7].
Qed.

(** Observing the number of a message does not change what the message is due. *)
Lemma fresh_due_observed code envelope r s s1 s' msgs : path s1 = path s → wi_desired_universe s1 = wi_desired_universe s →
  wi_market_route_by_ticker s1 = wi_market_route_by_ticker s →
  wi_sequence_observer s1 = (observe (me_sid envelope) (me_sequence envelope) (wi_sequence_observer s)).2 →
  wi_frame_pool s1 = wi_frame_pool s → dropped s1 = dropped s → refused s1 = refused s →
  fresh_due code envelope r s1 s' msgs → fresh_due code envelope r s s' msgs.
Proof.
  intros Hpath E1 E2 E3 E4 E5 E6. apply (f_equal fst) in Hpath as Hq. cbn in Hq.
  unfold fresh_due, routed, universe_version, resolve_market_route. by rewrite Hq, E1, E2, E3, E4, E5, E6, observe_active.
Qed.

Lemma publish_frame_spec payload ingress s : wi_pending_integrity_barrier s = None →
  wp (publish_market_data_frame kFrameParserPadding clk payload ingress) (λ _ s', ∃ msgs, stream s' = stream s ++ msgs ∧ due payload s s' msgs) s.
Proof.
  intros Hp. unfold publish_market_data_frame, due. wp_step.
  assert (∀ f s1, stream s1 = stream s → dropped s1 = dropped s → (∀ t, io_frames_dropped (f t) = bump (io_frames_dropped t)) →
    wp (tally f) (λ _ s', ∃ msgs, stream s' = stream s ++ msgs ∧ msgs = [] ∧ dropped s' = bump (dropped s)) s1) as Hq.
  { intros f s1 E Ed Hf. eapply wp_mono; [by apply drop_wp|]. cbv beta. intros _ s' [E1 E2]. exists []. by rewrite app_nil_r, E1, E2, E, Ed. }
  destruct (parse_market_data_envelope payload) as [code envelope].
  eapply (wp_mono _ (λ _ s1, (route_view s1, wi_frame_pool s1) = (route_view s, wi_frame_pool s))); [by case_match|]. cbv beta. intros ingress' s1 E1.
  wp_step. unfold tally at 1. wp_step. set (s2 := s1 ⟪ wi_telemetry ::= _ ⟫).
  assert (route_view s2 = route_view s ∧ wi_frame_pool s2 = wi_frame_pool s) as [E2 Ep] by (by apply pair_eq in E1). clearbody s2. clear E1 s1.
  pose proof (view_facts _ _ E2) as (V1 & V2 & V3 & V4 & V5 & V6 & V7).
  rewrite Nat.leb_antisym. destruct (Pool.kMaxFrameBytes <? length payload)%nat; cbn [negb andb]; [by apply Hq|].
  destruct (sequence_available code) eqn:Ea; cbn [andb].
  2: { unfold publish_observed. destruct code; try done; by apply Hq. }
  wp_step. unfold on_observer, wp at 1. injection V4 as R1 R2 R3. rewrite R3.
  destruct (observe (me_sid envelope) (me_sequence envelope) (wi_sequence_observer s)) as [r o] eqn:Eo. cbn [fst snd].
  set (s3 := s2 ⟪ wi_sequence_observer := o ⟫).
  assert (path s3 = path s ∧ stream s3 = stream s ∧ wi_pending_integrity_barrier s3 = None ∧ dropped s3 = dropped s ∧ refused s3 = refused s) as (P1 & P2 & P3 & P4 & P5).
  { split_and!; [exact (f_equal (λ v, v.1.1.1) E2)|exact V3|by transitivity (wi_pending_integrity_barrier s2); [|congruence]|exact V6|exact V7]. }
  destruct (bool_decide (so_code r = kOBS_INACTIVE_SID)) eqn:Ei; guards.
  { unfold is_fresh. rewrite Ei. by apply Hq. }
  destruct (is_fresh r) eqn:Ef.
  - eapply wp_mono; [by apply publish_spec_fresh|]. cbv beta. intros _ s' (msgs & E4 & Hd). exists msgs. split; [by rewrite E4, P2|].
    eapply fresh_due_observed; [..|exact Hd]; try done. by rewrite Eo.
  - wp_step. eapply wp_view; [rel_auto|]. intros _ s4 (W1 & W2 & W3 & W4 & W5 & W6 & W7)%view_facts. unfold announce_gap.
    rewrite (bool_decide_eq_false_2 (so_code r = kGAP)) by (intros E; unfold is_fresh in Ef; by rewrite E in Ef).
    cbn [andb]. wp_steps. replace (negb true || bool_decide (so_code r = kDUPLICATE) || bool_decide (so_code r = kSTALE)) with true.
    { apply Hq; [congruence|congruence|done]. }
    unfold is_fresh in Ef. destruct (so_code r); try done; by rewrite (bool_decide_eq_true_2 (_ = _)), ?orb_true_r.
Qed.

(** *** A round of the session *)

Lemma path_prepare : rel (same (λ s, stream s)) (run_prepare hash_order) ∧ ∀ s, (run_prepare hash_order s).1 = true → wi_pending_integrity_barrier (run_prepare hash_order s).2 = None.
Proof.
  assert (∀ s, wp (run_prepare hash_order) (λ ok s', stream s' = stream s ∧ (ok = true → wi_pending_integrity_barrier s' = None)) s) as H; [|by split; intros s; apply (H s)].
  intros s. unfold run_prepare. wp_step. eapply wp_path; [rel_auto|]. intros _ s1 E1 _. wp_step. eapply wp_path; [rel_auto|]. intros flushed s2 E2 _.
  wp_step. eapply wp_path; [rel_auto|]. intros b s3 E3 _. wp_step. eapply wp_mono; [apply flush_barrier_spec|]. cbv beta. intros ok s4 [E4 Hok].
  wp_step. split; [congruence|]. intros [_ ?]%andb_true_iff. by apply Hok.
Qed.

(** What the session reads in a round that starts in [s], and the session after reading. *)
Definition incoming s : ReadResult * W := ws_recv_text (ws_poll (wi_ws_session s)).2.

(** The market-data message that a round consumes, if any. *)
Definition received (may_consume : bool) s : option (list Z) :=
  let read_result := (incoming s).1 in
  if may_consume && wi_connected s && bool_decide (rr_status read_result = kREAD_MESSAGE) &&
     bool_decide (classify_incoming_message (rr_payload read_result) s = kIN_MARKET_DATA)
  then Some (rr_payload read_result) else None.

Definition grows s s' (message : option (list Z)) s1 : Prop :=
  match message with
  | Some payload => ∃ msgs, stream s' = stream s ++ msgs ∧ due payload s1 s' msgs
  | None => stream s' = stream s
  end.

(** What a message is due depends on the state after it only by the barrier that waits and
    the counters. *)
Lemma due_view payload s s' s2 msgs : route_view s2 = route_view s' → due payload s s' msgs → due payload s s2 msgs.
Proof.
  intros (V1 & V2 & V3 & V4 & V5 & V6 & V7)%view_facts. unfold due, fresh_due, routed. by rewrite V2, V6, V7.
Qed.

Lemma grows_view s s' s2 message s1 : route_view s2 = route_view s' → grows s s' message s1 → grows s s2 message s1.
Proof.
  intros E. pose proof (view_facts _ _ E) as (_ & _ & V3 & _). unfold grows. rewrite V3. destruct message; [|done].
  intros (msgs & H1 & H2). exists msgs. split; [done|]. by eapply due_view.
Qed.

Lemma due_before payload s s1 s' msgs : (route_view s, wi_frame_pool s) = (route_view s1, wi_frame_pool s1) → due payload s s' msgs → due payload s1 s' msgs.
Proof.
  intros [E Ep]%pair_eq. pose proof (view_facts _ _ E) as (V1 & V2 & V3 & V4 & V5 & V6 & V7). unfold due, fresh_due, routed.
  rewrite V1, V5, V6, V7, Ep. destruct (parse_market_data_envelope payload) as [code envelope].
  rewrite (resolve_same envelope s1 s) by exact V4. by injection V4 as _ _ ->.
Qed.

(** Publishing leaves the session with the exchange alone. *)
Definition session s : W * bool := (wi_ws_session s, wi_connected s).

Lemma session_pool {A} (m : M Pool.FramePool A) : rel (same session) (on_pool m).
Proof. intros s. unfold on_pool. by destruct (m _). Qed.
Lemma session_observer {A} (m : M observer A) : rel (same session) (on_observer m).
Proof. intros s. unfold on_observer. by destruct (m _). Qed.
Lemma session_router m : rel (same session) (push_router m).
Proof. intros s. unfold push_router. by destruct (q_push _ _). Qed.
Lemma session_logger h : rel (same session) (push_logger h).
Proof. intros s. unfold push_logger. by destruct (q_push _ _). Qed.
Lemma session_status m : rel (same session) (push_control_status m).
Proof. intros s. unfold push_control_status. by destruct (q_push _ _). Qed.
Lemma session_pop_recycled i : rel (same session) (pop_recycled i).
Proof. intros s. unfold pop_recycled. by repeat case_match. Qed.
Lemma session_tally f : rel (same session) (tally f). Proof. done. Qed.
Lemma session_now : rel (same session) (wire_now_ns clk). Proof. done. Qed.
#[local] Hint Resolve session_pool session_observer session_router session_logger session_status session_pop_recycled session_tally session_now : frame.
Lemma session_recycle_loop n a b : rel (same session) (recycle_loop n a b).
Proof. revert a b. induction n; intros; cbn [recycle_loop]; rel_auto. Qed.
#[local] Hint Resolve session_recycle_loop : frame.
Lemma session_lose e route reason text : rel (same session) (lose_frame e route reason text).
Proof.
  unfold lose_frame, emit_market_barrier, next_incident, fail_correlated_recovery, send_or_defer_integrity_barrier, send_or_defer_recovery_status, count_status,
    update_capacity_high_water. rel_auto.
Qed.
#[local] Hint Resolve session_lose : frame.
Lemma session_routed payload c e route i : rel (same session) (publish_routed kFrameParserPadding clk payload c e route i).
Proof.
  unfold publish_routed, acquire_slot, drain_recycle_queues, send_frame, deliver_to_logger, recycle_handle, update_capacity_high_water, erase_tag, tally_channel. rel_auto.
Qed.
#[local] Hint Resolve session_routed : frame.
Lemma session_publish payload i : rel (same session) (publish_market_data_frame kFrameParserPadding clk payload i).
Proof.
  unfold publish_market_data_frame, count_observation, announce_gap, next_incident, send_or_defer_integrity_barrier, publish_observed, update_capacity_high_water,
    record_unknown_market_ticker, tally_channel. rel_auto.
Qed.
Lemma session_telemetry : rel (same session) (maybe_send_telemetry clk).
Proof. unfold maybe_send_telemetry. rel_auto. Qed.

(** A market-data message is published, and the session is told that it has been consumed. *)
Lemma service_consumes s payload : wi_pending_integrity_barrier s = None → received true s = Some payload →
  wp (service_transport_once kFrameParserPadding clk hash_order true) (λ _ s', grows s s' (Some payload) s ∧
    wi_ws_session s' = ws_consume_message (incoming s).2) s.
Proof.
  intros Hp. unfold received, incoming. intros Hr. destruct (_ && _) eqn:E in Hr; [|done]. injection Hr as <-.
  apply andb_true_iff in E as [[[_ Hc]%andb_true_iff Hm]%andb_true_iff Hk]. guards.
  unfold service_transport_once. wp_step. unfold on_ws, wp at 1. destruct (ws_poll (wi_ws_session s)) as [n w] eqn:Ew. cbn [fst snd] in *.
  wp_step. unfold wp at 1. cbn [wi_ws_session upd].
  match goal with |- context [ws_recv_text ?x] => change x with w end. destruct (ws_recv_text w) as [r w'] eqn:Er. cbn [fst snd] in *.
  rewrite Hm. cbn [negb]. wp_step. unfold wire_now_ns, wp at 1. cbn [fst snd]. wp_step. unfold dispatch_incoming. wp_steps.
  match goal with |- context [classify_incoming_message (rr_payload r) ?x] => set (s2 := x) end.
  change (classify_incoming_message (rr_payload r) s2) with (classify_incoming_message (rr_payload r) s). rewrite Hk.
  assert (wi_ws_session s2 = w' ∧ wi_connected s2 = true ∧ (route_view s2, wi_frame_pool s2) = (route_view s, wi_frame_pool s)) as (F1 & F2 & F3) by done. clearbody s2.
  pose proof F3 as [F4 _]%pair_eq. pose proof (view_facts _ _ F4) as (V1 & V2 & V3 & V4 & V5 & V6 & V7).
  eapply wp_mono; [apply wp_and; [apply publish_frame_spec; congruence|apply (wp_rel (same session)); [apply session_publish|intros ? ? H; exact H]]|]. cbv beta.
  intros _ s3 [(msgs & E3 & Hd) [S1 S2]%pair_eq]. cbn in S1, S2. wp_steps. rewrite S2, F2. cbn [when]. wp_steps. split; [|cbn; by rewrite S1, F1].
  exists msgs. split; [by rewrite <- V3|]. eapply due_before; [exact F3|]. exact Hd.
Qed.

(** Without a market-data message nothing for the router is added, sent or taken away. *)
Lemma service_quiet may_consume s : received may_consume s = None → wi_connected s = true →
  wp (service_transport_once kFrameParserPadding clk hash_order may_consume) (λ _ s', path s' = path s) s.
Proof.
  unfold received, incoming. intros Hr Hc. rewrite Hc, andb_true_r in Hr.
  assert (∀ (m : M WireState bool) s1, path s1 = path s → rel (same path) m → wp m (λ _ s', path s' = path s) s1) as Hq.
  { intros m s1 E Hm. eapply wp_rel; [exact Hm|]. unfold same. intros _ s' ->. exact E. }
  unfold service_transport_once. wp_step. unfold on_ws, wp at 1. destruct (ws_poll (wi_ws_session s)) as [n w] eqn:Ew. cbn [fst snd] in *.
  wp_step. unfold wp at 1. cbn [wi_ws_session upd].
  match goal with |- context [ws_recv_text ?x] => change x with w end. destruct (ws_recv_text w) as [r w'] eqn:Er. cbn [fst snd] in *.
  destruct (rr_status r); [apply Hq; [done|rel_auto]| |apply Hq; [done|rel_auto]..]. rewrite (bool_decide_eq_true_2 (kREAD_MESSAGE = kREAD_MESSAGE)), andb_true_r in Hr by done.
  destruct may_consume; cbn [negb andb] in *; [|apply Hq; [done|rel_auto]]. unfold wire_now_ns. wp_step. unfold wp at 1. cbn [fst snd]. wp_step. unfold dispatch_incoming. wp_step. wp_step.
  match goal with |- context [classify_incoming_message (rr_payload r) ?x] => set (s2 := x) end. assert (path s2 = path s) as F by done.
  change (classify_incoming_message (rr_payload r) s2) with (classify_incoming_message (rr_payload r) s). clearbody s2.
  eapply (wp_mono _ (λ _ s', path s' = path s)).
  { destruct (classify_incoming_message (rr_payload r) s); [| done | |].
    all: apply (wp_rel (same path)); [rel_auto|]; unfold same; intros _ s' ->; exact F. }
  cbv beta. intros _ s3 E3. by apply Hq; [|rel_auto].
Qed.

(** A message that may not be consumed is left with the session, its number unseen. *)
Lemma service_holds s : rr_status (incoming s).1 = kREAD_MESSAGE →
  wp (service_transport_once kFrameParserPadding clk hash_order false) (λ _ s', wi_ws_session s' = (incoming s).2 ∧
    wi_sequence_observer s' = wi_sequence_observer s) s.
Proof.
  unfold incoming. intros Hm. unfold service_transport_once. wp_step. unfold on_ws, wp at 1. destruct (ws_poll (wi_ws_session s)) as [n w] eqn:Ew. cbn [fst snd] in *.
  wp_step. unfold wp at 1. cbn [wi_ws_session upd].
  match goal with |- context [ws_recv_text ?x] => change x with w end. destruct (ws_recv_text w) as [r w'] eqn:Er. cbn [fst snd] in *.
  rewrite Hm. cbn [negb]. by wp_step.
Qed.

(** C17: in a round of the wire session the stream to the router, with a barrier that still
    waits for room, grows by exactly what the market-data message consumed in the round is
    due, and not at all if none is consumed.  A message with a new number of an active
    subscription is due first the barrier of the whole subscription, if numbers of an order
    book are missing before it, and then its frame, stamped with its market.  It is lost only
    if that barrier finds no room in the router's queue (it then waits), if its market is not
    known or not readable, if no slot of the pool is free, or if the router has no room for the
    frame; in the last two cases a message of an order book is due the barrier of its market
    instead.  Each loss is counted, as is every message with another number.  The session is
    told of each message consumed; and while a barrier waits no message is consumed: the one
    that was read stays with the session, and its number is not looked at. *)
Theorem wire_round_outcome s :
  let may_consume := (run_prepare hash_order s).1 in
  let s1 := (run_prepare hash_order s).2 in
  let s' := (run_once kFrameParserPadding clk hash_order s).2 in
  grows s s' (received may_consume s1) s1 ∧
  (∀ payload, received may_consume s1 = Some payload → wi_ws_session s' = ws_consume_message (incoming s1).2) ∧
  (∀ barrier, wi_pending_integrity_barrier s1 = Some barrier →
     received may_consume s1 = None ∧ wi_pending_integrity_barrier s' = Some barrier ∧
     (wi_connected s1 = true → rr_status (incoming s1).1 = kREAD_MESSAGE →
        wi_ws_session s' = (incoming s1).2 ∧ wi_sequence_observer s' = wi_sequence_observer s1)).
Proof.
  destruct path_prepare as [Hs Hp]. specialize (Hs s). specialize (Hp s). unfold same in Hs.
  unfold run_once, mbind, M_bind, gets. destruct (run_prepare hash_order s) as [ok s1]. cbn [fst snd] in *.
  assert (∀ s2, route_view (maybe_send_telemetry clk s2).2 = route_view s2 ∧ session (maybe_send_telemetry clk s2).2 = session s2) as Ht
    by (intros s2; split; [apply view_telemetry|apply session_telemetry]).
  assert (∀ barrier, wi_pending_integrity_barrier s1 = Some barrier → ok = false) as Hw.
  { intros barrier E. destruct ok; [|done]. by rewrite Hp in E. }
  destruct (wi_connected s1) eqn:Ec.
  2: { unfold mret, M_ret. destruct (Ht s1) as [(V1 & V2 & V3 & V4 & V5 & V6 & V7)%view_facts _]. unfold received. rewrite Ec, andb_false_r. cbn [andb grows].
       split; [by rewrite V3|]. split; [done|]. intros barrier E. split; [done|]. by rewrite V2. }
  pose proof (service_quiet ok s1) as Hq. pose proof (service_holds s1) as Hh. pose proof (service_consumes s1) as Hc.
  destruct (received ok s1) as [payload|] eqn:Er.
  - assert (ok = true) as -> by (unfold received in Er; by destruct ok). specialize (Hc payload (Hp eq_refl) Er). unfold wp in Hc.
    destruct (service_transport_once _ _ _ true s1) as [b s2]. cbn [fst snd] in *. unfold mret, M_ret. destruct (Ht s2) as [T1 [T2 _]%pair_eq], Hc as [Hg Hses].
    split; [eapply grows_view; [exact T1|]; unfold grows in *; by rewrite <- Hs|]. split; [intros _ _; cbn in T2; by rewrite T2|]. intros barrier E%Hw. done.
  - specialize (Hq eq_refl Ec). unfold wp in Hq, Hh. split; [|split; [done|]].
    + destruct (service_transport_once _ _ _ ok s1) as [b s2]. cbn [fst snd] in *. unfold mret, M_ret. destruct (Ht s2) as [(_ & _ & V3 & _)%view_facts _].
      apply path_stream in Hq as [Hq _]. unfold grows. by rewrite V3, Hq.
    + intros barrier E. split; [done|]. pose proof (Hw _ E) as ->. destruct (service_transport_once _ _ _ false s1) as [b s2]. cbn [fst snd] in *. unfold mret, M_ret.
      destruct (Ht s2) as [(_ & V2 & _ & V4 & _)%view_facts [T2 _]%pair_eq]. cbn in T2. apply path_stream in Hq as [_ Hq]. split; [by rewrite V2, Hq|].
      intros _ Hm. destruct (Hh Hm) as [H1 H2]. injection V4 as _ _ V8. by rewrite T2, V8.
Qed.

(** An order-book message whose subscription and number are readable but whose market
    is not is dropped without a barrier: nothing is added to the stream to the router, its
    number counts as received, and the next message is contiguous, so that no gap reveals
    the loss either. *)
Theorem unreadable_book_message_leaves_no_trace payload ingress s code envelope previous :
  parse_market_data_envelope payload = (code, envelope) → code = kENV_MISSING_MSG ∨ code = kENV_MISSING_MARKET_TICKER →
  is_order_book (me_kind envelope) = true → (length payload ≤ Pool.kMaxFrameBytes)%nat →
  wi_sequence_observer s !! me_sid envelope = Some (mkActiveSidState kCH_ORDERBOOK_DELTA (Some previous)) →
  me_sequence envelope = previous + 1 → 0 ≤ previous → previous + 1 < U64_MAX →
  stream (publish_market_data_frame kFrameParserPadding clk payload ingress s).2 = stream s ∧
  so_code (observe (me_sid envelope) (previous + 2)
    (wi_sequence_observer (publish_market_data_frame kFrameParserPadding clk payload ingress s).2)).1 = kCONTIGUOUS.
Proof.
  intros Hparse Hcode _ Hlen Ho Hseq H0 Hmax.
  change (wp (publish_market_data_frame kFrameParserPadding clk payload ingress)
    (λ _ s', stream s' = stream s ∧ so_code (observe (me_sid envelope) (previous + 2) (wi_sequence_observer s')).1 = kCONTIGUOUS) s).
  assert (sequence_available code = true) as Ha by (by destruct Hcode as [-> | ->]).
  assert (observe (me_sid envelope) (me_sequence envelope) (wi_sequence_observer s) =
    (mkSequenceObservation kCONTIGUOUS (Some kCH_ORDERBOOK_DELTA) (previous + 1) (previous + 1),
     <[me_sid envelope := mkActiveSidState kCH_ORDERBOOK_DELTA (Some (previous + 1))]> (wi_sequence_observer s))) as Hobs.
  { unfold observe. rewrite Ho, Hseq. cbn [as_last_sequence]. rewrite (proj2 (Z.eqb_neq previous _)), (proj2 (Z.eqb_neq (previous + 1) previous)) by lia.
    cbn [negb andb]. by rewrite u64_id, Z.eqb_refl by (unfold is_u64; lia). }
  unfold publish_market_data_frame. wp_step.
  eapply (wp_mono _ (λ _ s1, route_view s1 = route_view s)); [by destruct (ingress =? 0)|]. cbv beta. intros t s1 E1.
  rewrite Hparse. wp_step. unfold tally at 1. wp_step. rewrite (proj2 (Nat.ltb_ge _ _)) by done. rewrite Ha. wp_step. unfold on_observer, wp at 1. cbn [wi_sequence_observer upd].
  injection E1 as A1 A2 A3 A4 A5. match goal with |- context [observe _ _ ?o] => change o with (wi_sequence_observer s1) end. rewrite A5, Hobs. cbn [fst snd so_code].
  rewrite bool_decide_eq_false_2 by done. wp_step.
  eapply (wp_mono _ (λ _ s2, path s2 = path s ∧ wi_sequence_observer s2 = <[me_sid envelope := mkActiveSidState kCH_ORDERBOOK_DELTA (Some (previous + 1))]> (wi_sequence_observer s))).
  { unfold count_observation, tally_channel, tally. cbn [so_channel so_code]. wp_step. split; [|done]. unfold path. cbn. by rewrite A1, A2. }
  cbv beta. intros _ s2 [B1 B2]. unfold announce_gap. cbn [so_code]. rewrite (bool_decide_eq_false_2 (kCONTIGUOUS = kGAP)) by done. cbn [andb]. wp_steps.
  rewrite !bool_decide_eq_false_2 by done. cbn [negb orb].
  apply path_stream in B1 as [B1 _]. unfold publish_observed.
  assert (∀ f, wp (tally f) (λ _ s', stream s' = stream s ∧ so_code (observe (me_sid envelope) (previous + 2) (wi_sequence_observer s')).1 = kCONTIGUOUS) s2) as Hend.
  { intros f. unfold tally. wp_step. split; [done|]. change (wi_sequence_observer (s2 ⟪ wi_telemetry ::= f ⟫)) with (wi_sequence_observer s2). rewrite B2. unfold observe. rewrite lookup_insert_eq.
    cbn [as_last_sequence]. rewrite (proj2 (Z.eqb_neq (previous + 1) _)), (proj2 (Z.eqb_neq (previous + 2) _)) by lia.
    rewrite u64_id by (unfold is_u64; lia). replace (previous + 1 + 1) with (previous + 2) by lia. by rewrite Z.eqb_refl. }
  destruct Hcode as [-> | ->]; apply Hend.
Qed.
End WireStream.
End WireStream.
