(* ===== verification/WireRecovery.v ===== *)
(** * WireRecovery: the wire session owes an answer to every recovery request

    The session keeps a tag for every market whose recovery snapshot it has requested.  A tag
    goes away only with the snapshot, with a failure told to the control plane or with the
    universe it belongs to, and what the control plane is told is never lost or reordered.

    At the end, Module [WireDemo]: a concrete wire session. *)

From S2P Require Import Prelude Spsc LatencyHistogram MarketTypes FramePool ControlTypes MarketParser WireTypes Wire WireStream.

Module WireRecovery.
Import SidSequenceObserver Wire.

Section WireRecovery.
Context {Q : Type → Type} `{HQ : PushQueue Q} {HL : PushQueueLaws Q} {W : Type} `{HW : WebSocket W} `{SJ : SimdJson} {SN : SimdJsonNumbers}.
Variable kFrameParserPadding : nat.
Variable clk : nat → Z.
Variable hash_order : list Z → list Z.
Hypothesis hash_order_perm : ∀ l, hash_order l ≡ₚ l.
Abbreviation WireState := (WireState (Q := Q) (W := W)).
Implicit Types s : WireState.

(** ** What is observed *)

Definition is_recovery_status (m : IoToControlStatus) : bool :=
  match m with IsRecoveryRequestAccepted _ | IsRecoveryRequestFailed _ => true | _ => false end.

(** The recovery statuses for the control plane, sent or waiting to be sent. *)
Definition told s : list IoToControlStatus :=
  filter is_recovery_status (q_sent (wi_io_to_control_status_queue s) ++ wi_pending_recovery_statuses s).
Definition sent s : list MarketDataPathMessage := q_sent (wi_router_queue s).
Abbreviation tags := wi_pending_recovery_by_market.

(** The failure of a request, as the control plane is told of it. *)
Definition reports_failure (m : Z) (tag : PendingRecoveryTag) (status : IoToControlStatus) : Prop :=
  match status with
  | IsRecoveryRequestFailed f => rf_market_id f = m ∧ rf_recovery_id f = tg_recovery_id tag ∧ rf_request_attempt f = tg_request_attempt tag
  | _ => False
  end.

(** The snapshot of a request, as it is sent to the router. *)
Definition carries_snapshot (m : Z) (tag : PendingRecoveryTag) (message : MarketDataPathMessage) : Prop :=
  match message with
  | MsgFrame h => fh_kind h = kORDERBOOK_SNAPSHOT ∧ fh_market_id h = m ∧ fh_recovery_id h = tg_recovery_id tag ∧
                  fh_universe_version h = tg_universe_version tag
  | _ => False
  end.

(** Why a request is no longer pending. *)
Definition settled (m : Z) (tag : PendingRecoveryTag) (used : list (option ControlToIoCommand)) (answers : list IoToControlStatus)
    (frames : list MarketDataPathMessage) : Prop :=
  (∃ status, status ∈ answers ∧ reports_failure m tag status) ∨ (∃ message, message ∈ frames ∧ carries_snapshot m tag message) ∨
  (∃ u, Some (CiApplyUniverseSnapshot u) ∈ used).

Lemma settled_mono m tag used used' answers answers' frames frames' : used ⊆ used' → answers ⊆ answers' → frames ⊆ frames' →
  settled m tag used answers frames → settled m tag used' answers' frames'.
Proof. unfold settled. intros Hu Ha Hf. naive_solver. Qed.

(** Tags of [s] that are no longer in [s'] are settled; [used] is the command in execution. *)
Definition accounts (used : list (option ControlToIoCommand)) s s' : Prop :=
  wi_control_to_io_queue s' = wi_control_to_io_queue s ∧
  ∃ answers frames, told s' = told s ++ answers ∧ sent s' = sent s ++ frames ∧
    ∀ m tag, tags s !! m = Some tag → tags s' !! m ≠ Some tag → settled m tag used answers frames.

#[local] Instance accounts_preorder used : PreOrder (accounts used).
Proof.
  split.
  - intros s. split; [done|]. exists [], []. rewrite !app_nil_r. naive_solver.
  - intros s1 s2 s3 (E1 & a1 & f1 & T1 & S1 & H1) (E2 & a2 & f2 & T2 & S2 & H2). split; [congruence|].
    exists (a1 ++ a2), (f1 ++ f2). rewrite T2, T1, S2, S1, !app_assoc. split_and!; [done..|]. intros m tag Ht Hn.
    destruct (decide (tags s2 !! m = Some tag)).
    + eapply settled_mono; [..|by apply (H2 m tag)]; set_solver.
    + eapply settled_mono; [..|by apply (H1 m tag)]; set_solver.
Qed.

(** ** Methods that neither tell nor settle anything *)

Definition quiet s := (wi_control_to_io_queue s, wi_io_to_control_status_queue s, wi_pending_recovery_statuses s, wi_router_queue s, tags s).

Lemma quiet_accounts used s s' : quiet s' = quiet s → accounts used s s'.
Proof.
  intros [= E1 E2 E3 E4 E5]. split; [done|]. exists [], []. unfold told, sent. rewrite E2, E3, E4, E5, !app_nil_r. naive_solver.
Qed.
#[local] Hint Extern 1 (accounts _ _ _) => apply quiet_accounts; reflexivity : frame.

Section Methods.
Variable used : list (option ControlToIoCommand).
Abbreviation R := (accounts used).

Lemma ac_now : rel R (wire_now_ns clk). Proof. intros s. by apply quiet_accounts. Qed.
Lemma ac_tally f : rel R (tally f). Proof. intros s. by apply quiet_accounts. Qed.
Lemma ac_pool {A} (m : M Pool.FramePool A) : rel R (on_pool m).
Proof. intros s. unfold on_pool. destruct (m _). by apply quiet_accounts. Qed.
Lemma ac_observer {A} (m : M observer A) : rel R (on_observer m).
Proof. intros s. unfold on_observer. destruct (m _). by apply quiet_accounts. Qed.
Lemma ac_ws {A} (m : M W A) : rel R (on_ws m).
Proof. intros s. unfold on_ws. destruct (m _). by apply quiet_accounts. Qed.
Lemma ac_logger h : rel R (push_logger h).
Proof. intros s. unfold push_logger. destruct (q_push _ _). by apply quiet_accounts. Qed.
Lemma ac_pop_recycled i : rel R (pop_recycled i).
Proof. intros s. unfold pop_recycled. repeat case_match; by apply quiet_accounts. Qed.
#[local] Hint Resolve ac_now ac_tally ac_pool ac_observer ac_ws ac_logger ac_pop_recycled : frame.

Lemma ac_tally_channel c f : rel R (tally_channel c f).
Proof. unfold tally_channel. rel_auto. Qed.
Lemma ac_high_water : rel R update_capacity_high_water.
Proof. unfold update_capacity_high_water. rel_auto. Qed.
Lemma ac_register k c l x : rel R (register_command k c l x).
Proof. unfold register_command. rel_auto. Qed.
Lemma ac_send_text r : rel R (send_text r).
Proof. unfold send_text. rel_auto. Qed.
Lemma ac_upd_subscription c f : rel R (upd_subscription c f).
Proof. unfold upd_subscription. rel_auto. Qed.
Lemma ac_recycle_loop n a b : rel R (recycle_loop n a b).
Proof. revert a b. induction n; intros; cbn [recycle_loop]; rel_auto. Qed.
Lemma ac_recycle_handle h : rel R (recycle_handle h).
Proof. unfold recycle_handle. rel_auto. Qed.
Lemma ac_next_incident : rel R next_incident.
Proof. unfold next_incident. rel_auto. Qed.
#[local] Hint Resolve ac_tally_channel ac_high_water ac_register ac_send_text ac_upd_subscription ac_recycle_loop ac_recycle_handle ac_next_incident : frame.
Lemma ac_subscribe_channel c l : rel R (subscribe_channel c l).
Proof. unfold subscribe_channel. rel_auto. Qed.
Lemma ac_drain_recycle : rel R drain_recycle_queues.
Proof. unfold drain_recycle_queues. rel_auto. Qed.
Lemma ac_deliver c h : rel R (deliver_to_logger c h).
Proof. unfold deliver_to_logger. rel_auto. Qed.
Lemma ac_count_observation r : rel R (count_observation r).
Proof. unfold count_observation. rel_auto. Qed.
#[local] Hint Resolve ac_subscribe_channel ac_drain_recycle ac_deliver ac_count_observation : frame.
Lemma ac_acquire : rel R (acquire_slot kFrameParserPadding).
Proof. unfold acquire_slot. rel_auto. Qed.
#[local] Hint Resolve ac_acquire : frame.

(** Messages to the router and other statuses settle no request. *)
Lemma ac_router m : rel R (push_router m).
Proof.
  intros s. unfold push_router. pose proof (push_sent m (wi_router_queue s)) as H. destruct (q_push _ _) as [b q]. cbn in *.
  split; [done|]. exists [], (if b then [m] else []). unfold told, sent. cbn. rewrite H, app_nil_r.
  split_and!; [done|by destruct b; rewrite ?app_nil_r|naive_solver].
Qed.
Lemma ac_status m : is_recovery_status m = false → rel R (push_control_status m).
Proof.
  intros Hm s. unfold push_control_status. pose proof (push_sent m (wi_io_to_control_status_queue s)) as H. destruct (q_push _ _) as [b q]. cbn in *.
  split; [done|]. exists [], []. unfold told, sent. cbn. rewrite H, !app_nil_r. split_and!; [|done|naive_solver].
  destruct b; [|done]. rewrite !filter_app, filter_cons_False, filter_nil, app_nil_r; [done|]. by rewrite Hm; intros [].
Qed.
#[local] Hint Resolve ac_router : frame.
#[local] Hint Extern 1 (rel _ (push_control_status _)) => apply ac_status; reflexivity : frame.
Lemma ac_flush_barrier : rel R flush_pending_integrity_barrier.
Proof. unfold flush_pending_integrity_barrier. rel_auto. Qed.
Lemma ac_send_barrier m : rel R (send_or_defer_integrity_barrier m).
Proof. unfold send_or_defer_integrity_barrier. rel_auto. Qed.
Lemma ac_telemetry : rel R (maybe_send_telemetry clk).
Proof. unfold maybe_send_telemetry. rel_auto. Qed.
#[local] Hint Resolve ac_flush_barrier ac_send_barrier ac_telemetry : frame.
Lemma ac_emit e r x : rel R (emit_market_barrier e r x).
Proof. unfold emit_market_barrier. rel_auto. Qed.
Lemma ac_announce e o : rel R (announce_gap e o).
Proof. unfold announce_gap. rel_auto. Qed.
#[local] Hint Resolve ac_emit ac_announce : frame.

(** ** Statuses of recovery requests *)

Definition tells (answers : list IoToControlStatus) s s' : Prop :=
  wi_control_to_io_queue s' = wi_control_to_io_queue s ∧ told s' = told s ++ answers ∧ sent s' = sent s ∧ tags s' = tags s.

(** A status is told now or it waits behind the ones that wait. *)
Lemma send_status_spec m s : is_recovery_status m = true → wp (send_or_defer_recovery_status m) (λ _ s', tells [m] s s') s.
Proof.
  intros Hm. unfold send_or_defer_recovery_status. wp_step.
  eapply (wp_mono _ (λ _ s1, quiet s1 = quiet s)); [unfold count_status; by destruct m|]. cbv beta. intros _ s1 [= E1 E2 E3 E4 E5]. wp_steps.
  assert (∀ l q, filter is_recovery_status (q_sent q ++ l ++ [m]) = filter is_recovery_status (q_sent q ++ l) ++ [m]) as Hf.
  { intros l q. rewrite app_assoc, filter_app. f_equal. rewrite filter_cons_True, filter_nil; [done|by rewrite Hm]. }
  unfold tells, told, sent. rewrite <- E1, <- E2, <- E4, <- E5, <- E3. destruct (wi_pending_recovery_statuses s1) as [|x l] eqn:El.
  - wp_step. unfold push_control_status, wp at 1. pose proof (push_sent m (wi_io_to_control_status_queue s1)) as H. destruct (q_push _ _) as [[] q]; cbn in H |- *.
    + wp_step. cbn. rewrite El, H. split_and!; try done. rewrite <- (Hf []). by rewrite app_nil_r.
    + wp_step. cbn. rewrite El, H. by split_and!.
  - wp_step. cbn. rewrite El. by split_and!.
Qed.

(** A tag may go if its failure is told. *)
Lemma fail_accounts s s' answers : wi_control_to_io_queue s' = wi_control_to_io_queue s → told s' = told s ++ answers → sent s' = sent s →
  (∀ m tag, tags s !! m = Some tag → tags s' !! m = Some tag ∨ ∃ status, status ∈ answers ∧ reports_failure m tag status) → accounts used s s'.
Proof.
  intros E1 E2 E3 H. split; [done|]. exists answers, []. rewrite app_nil_r. split_and!; [done..|]. intros m tag Ht Hn.
  destruct (H m tag Ht); [done|by left].
Qed.

Lemma tells_accounts answers s s' : tells answers s s' → accounts used s s'.
Proof. intros (E1 & E2 & E3 & E4). eapply fail_accounts; [done..|]. rewrite E4. auto. Qed.

Lemma ac_send_status m : is_recovery_status m = true → rel (accounts used) (send_or_defer_recovery_status m).
Proof. intros Hm s. eapply tells_accounts, (send_status_spec m s Hm). Qed.
#[local] Hint Extern 1 (rel _ (send_or_defer_recovery_status _)) => apply ac_send_status; reflexivity : frame.

Lemma flush_statuses_spec l s : wi_pending_recovery_statuses s = l → wp (flush_statuses l) (λ _ s', tells [] s s') s.
Proof.
  revert s. induction l as [|m l IH]; intros s Hl; cbn [flush_statuses]; [wp_step; by split_and!; rewrite ?app_nil_r|].
  wp_step. unfold push_control_status, wp at 1. pose proof (push_sent m (wi_io_to_control_status_queue s)) as H. destruct (q_push _ _) as [[] q]; cbn in H |- *.
  - wp_steps. eapply wp_mono; [by apply IH|]. cbv beta. intros _ s' (E1 & E2 & E3 & E4). split_and!; try done. rewrite E2. unfold told. cbn.
    by rewrite H, Hl, <- (app_assoc _ [m]).
  - wp_step. split_and!; try done. unfold told. cbn. by rewrite H, app_nil_r.
Qed.
Lemma ac_flush_recovery : rel (accounts used) flush_pending_recovery_statuses.
Proof. intros s. unfold flush_pending_recovery_statuses. eapply tells_accounts, (flush_statuses_spec _ s eq_refl). Qed.

(** *** Forgetting a tag *)

Lemma erase_lookup b x (t : gmap Z PendingRecoveryTag) m tag :
  t !! m = Some tag →
  match t !! rx_market_id x with
  | Some tag' => if tag_matches b x tag' then delete (rx_market_id x) t else t
  | None => t
  end !! m = Some tag ∨ (m = rx_market_id x ∧ tag_matches b x tag = true).
Proof.
  intros Ht. destruct (decide (m = rx_market_id x)) as [->|].
  - rewrite Ht. destruct (tag_matches b x tag); auto.
  - left. by repeat case_match; rewrite ?lookup_delete_ne.
Qed.

Lemma tag_matches_reports b x tag reason : tag_matches b x tag = true → reports_failure (rx_market_id x) tag (context_failed x reason).
Proof. unfold tag_matches. intros [[?%Z.eqb_eq _]%andb_true_iff ?%Z.eqb_eq]%andb_true_iff. by split_and!. Qed.

Lemma ac_erase_fail_gets {A} b x (g : WireState → A) (text : A → string) :
  rel (accounts used) (erase_tag b x ≫= λ _, gets g ≫= λ a, send_or_defer_recovery_status (context_failed x (text a))).
Proof.
  intros s. unfold erase_tag, mbind, M_bind, modify, gets. set (s1 := s ⟪ wi_pending_recovery_by_market ::= _ ⟫).
  pose proof (send_status_spec (context_failed x (text (g s1))) s1 eq_refl) as H. unfold wp in H. destruct H as (E1 & E2 & E3 & E4).
  eapply fail_accounts; [done|exact E2|done|]. intros m tag Ht. rewrite E4. destruct (erase_lookup b x _ m tag Ht) as [|[-> Hm]]; [by left|].
  right. eexists. split; [by apply list_elem_of_singleton|]. by eapply tag_matches_reports.
Qed.
Lemma ac_erase_fail b x reason : rel (accounts used) (erase_tag b x ≫= λ _, send_or_defer_recovery_status (context_failed x reason)).
Proof. apply (ac_erase_fail_gets b x (λ _, ()) (λ _, reason)). Qed.

Lemma ac_fail_correlated e r reason : rel (accounts used) (fail_correlated_recovery e r reason).
Proof.
  unfold fail_correlated_recovery. apply rel_if; [rel_auto|]. intros s. unfold mbind, M_bind, gets. destruct (tags s !! ur_market_id r) as [tag|] eqn:Et; [|reflexivity].
  unfold modify. cbv beta iota. set (s1 := _ ⟪ wi_pending_ws_commands ::= _ ⟫).
  pose proof (send_status_spec (request_failed (ur_market_id r) tag reason) s1 eq_refl) as H. unfold wp in H. destruct H as (E1 & E2 & E3 & E4).
  eapply fail_accounts; [done|exact E2|done|]. intros m tag' Ht. rewrite E4. destruct (decide (m = ur_market_id r)) as [->|].
  - right. eexists. split; [by apply list_elem_of_singleton|]. simplify_eq. by split_and!.
  - left. cbn. by rewrite lookup_delete_ne.
Qed.
#[local] Hint Resolve ac_flush_recovery ac_erase_fail_gets ac_erase_fail ac_fail_correlated : frame.

(** *** The state of a connection *)

Lemma fail_tags_spec ids s : wp (fail_tags ids) (λ _ s', ∃ answers, tells answers s s' ∧
  ∀ m tag, m ∈ ids → tags s !! m = Some tag → ∃ status, status ∈ answers ∧ reports_failure m tag status) s.
Proof.
  revert s. induction ids as [|id ids IH]; intros s; cbn [fail_tags].
  { wp_step. exists []. split; [by split_and!; rewrite ?app_nil_r|]. by intros m tag ?%not_elem_of_nil. }
  wp_steps. eapply (wp_mono _ (λ _ s1, ∃ a, tells a s s1 ∧ ∀ tag, tags s !! id = Some tag → ∃ status, status ∈ a ∧ reports_failure id tag status)).
  { destruct (tags s !! id) as [tag|].
    - eapply wp_mono; [by apply send_status_spec|]. cbv beta. intros _ s1 H. eexists. split; [exact H|]. intros tag' [= <-].
      eexists. split; [by apply list_elem_of_singleton|]. by split_and!.
    - wp_step. exists []. split; [by split_and!; rewrite ?app_nil_r|done]. }
  cbv beta. intros _ s1 (a1 & (E1 & E2 & E3 & E4) & H1). eapply wp_mono; [apply IH|]. cbv beta. intros _ s2 (a2 & (F1 & F2 & F3 & F4) & H2).
  exists (a1 ++ a2). split; [split_and!; [congruence| |congruence|congruence]; by rewrite F2, E2, app_assoc|].
  intros m tag [->|Hm]%elem_of_cons Ht; [destruct (H1 tag Ht) as (st & ? & ?)|rewrite <- E4 in Ht; destruct (H2 m tag Hm Ht) as (st & ? & ?)]; exists st; set_solver.
Qed.

Lemma ac_clear : rel R (clear_transport_subscription_state hash_order).
Proof.
  intros s. unfold clear_transport_subscription_state, mbind, M_bind, gets. set (ids := hash_order _).
  pose proof (fail_tags_spec ids s) as H. unfold wp in H. destruct (fail_tags ids s) as [u s1]. cbn in H. destruct H as (a & (E1 & E2 & E3 & E4) & H).
  unfold modify. cbn. apply (fail_accounts _ _ a); [done..|]. intros m tag Ht. right. apply H; [|done]. unfold ids. rewrite hash_order_perm.
  apply list_elem_of_fmap. exists (m, tag). split; [done|]. by apply elem_of_map_to_list.
Qed.
#[local] Hint Resolve ac_clear : frame.
Lemma ac_fault e : rel R (report_fault hash_order e).
Proof. unfold report_fault. rel_auto. Qed.
Lemma ac_disconnect e : rel R (disconnect hash_order e).
Proof. unfold disconnect. rel_auto. Qed.
#[local] Hint Resolve ac_fault ac_disconnect : frame.
Lemma ac_subscribe_channels cs l : rel R (subscribe_channels hash_order cs l).
Proof. induction cs; cbn [subscribe_channels]; rel_auto. Qed.
#[local] Hint Resolve ac_subscribe_channels : frame.
Lemma ac_subscribe : rel R (subscribe_active_universe hash_order).
Proof. unfold subscribe_active_universe. rel_auto. Qed.
#[local] Hint Resolve ac_subscribe : frame.
Lemma ac_connect : rel R (connect hash_order).
Proof. unfold connect. rel_auto. Qed.
#[local] Hint Resolve ac_connect : frame.

(** *** Responses of the exchange *)

Lemma ac_fault_subscription c e : rel R (fault_subscription hash_order c e).
Proof. unfold fault_subscription. rel_auto. Qed.
#[local] Hint Resolve ac_fault_subscription : frame.
Lemma ac_subscribed c r : rel R (handle_subscribed hash_order c r).
Proof. unfold handle_subscribed. rel_auto. Qed.
#[local] Hint Resolve ac_subscribed : frame.
Lemma ac_response p : rel R (handle_ws_control_response hash_order p).
Proof. unfold handle_ws_control_response, handle_snapshot_response, handle_subscription_response. rel_auto. Qed.
#[local] Hint Resolve ac_response : frame.

(** *** Market data *)

Lemma ac_lose e r x t : rel R (lose_frame e r x t).
Proof. unfold lose_frame. rel_auto. Qed.
#[local] Hint Resolve ac_lose : frame.

Lemma snapshot_tag_spec e r version s tag : snapshot_tag e r version s = Some tag →
  me_kind e = kORDERBOOK_SNAPSHOT ∧ tags s !! ur_market_id r = Some tag ∧ tg_universe_version tag = version.
Proof.
  unfold snapshot_tag. case_bool_decide; [|done]. destruct (tags s !! ur_market_id r) as [t|]; [|done]. cbn. destruct (Z.eqb_spec (tg_universe_version t) version); [|done].
  by intros [= <-].
Qed.

(** The snapshot is sent before its tag is forgotten. *)
Lemma ac_send_frame c h e r i : rel R (send_frame clk c h e r i).
Proof.
  unfold send_frame. intros s. change (wp (send_frame clk c h e r i) (λ _ s', R s s') s). unfold send_frame. do 4 wp_step.
  destruct (snapshot_tag e r (universe_version s) s) as [tag|] eqn:Et; [|eapply (wp_rel R); [rel_auto|done]].
  apply snapshot_tag_spec in Et as (Hk & Ht & Hv). wp_step. unfold wire_now_ns, wp at 1. cbn [fst snd]. wp_step.
  eapply (wp_mono _ (λ _ s1, quiet s1 = quiet s)); [unfold when; by destruct (_ <? _)%nat|]. cbv beta. intros _ s1 E1. wp_step.
  unfold push_router, wp at 1. match goal with |- context [q_push ?m] => pose proof (push_sent m (wi_router_queue s1)) as H; set (message := m) in * end.
  destruct (q_push _ _) as [[] q]; cbn [fst snd negb] in *.
  - wp_step. eapply (wp_mono _ (λ _ s2, quiet s2 = quiet (s1 ⟪ wi_router_queue := q ⟫))); [done|]. cbv beta. intros _ s2 E2. unfold erase_tag, tally. wp_steps.
    injection E1 as A1 A2 A3 A4 A5. injection E2 as B1 B2 B3 B4 B5. cbn in *. split; [cbn; congruence|]. exists [], [message]. unfold told, sent. cbn.
    rewrite B2, B3, B4, A2, A3, H, A4, app_nil_r. split_and!; [done..|]. rewrite B5, A5. intros m tag' Ht' Hn.
    destruct (erase_lookup true (tag_context (ur_market_id r) tag) _ m tag' Ht') as [|[-> _]]; [done|]. cbn in Ht'. simplify_eq. right. left.
    exists message. split; [by apply list_elem_of_singleton|]. by split_and!.
  - eapply (wp_rel R); [rel_auto|]. intros _ s' H'. etrans; [|exact H']. injection E1 as A1 A2 A3 A4 A5.
    split; [done|]. exists [], []. unfold told, sent. cbn. rewrite A2, A3, H, A4, A5, !app_nil_r. naive_solver.
Qed.
#[local] Hint Resolve ac_send_frame : frame.
Lemma ac_publish_routed p c e r i : rel R (publish_routed kFrameParserPadding clk p c e r i).
Proof. unfold publish_routed. rel_auto. Qed.
#[local] Hint Resolve ac_publish_routed : frame.
Lemma ac_publish_observed p k c e i : rel R (publish_observed kFrameParserPadding clk p k c e i).
Proof. unfold publish_observed, record_unknown_market_ticker. rel_auto. Qed.
#[local] Hint Resolve ac_publish_observed : frame.
Lemma ac_publish p i : rel R (publish_market_data_frame kFrameParserPadding clk p i).
Proof. unfold publish_market_data_frame. rel_auto. Qed.
#[local] Hint Resolve ac_publish : frame.
Lemma ac_service b : rel R (service_transport_once kFrameParserPadding clk hash_order b).
Proof. unfold service_transport_once, dispatch_incoming. rel_auto. Qed.

(** *** Commands of control *)

Lemma ac_apply u : Some (CiApplyUniverseSnapshot u) ∈ used → rel R (apply_universe_snapshot hash_order u).
Proof.
  intros Hu. unfold apply_universe_snapshot. destruct u as [u|]; [|rel_auto]. apply rel_bind; [exact _|rel_auto|]. intros old.
  apply rel_bind; [exact _| |intros _; rel_auto]. apply rel_when; [exact _|]. apply rel_modify. intros s. split; [done|]. exists [], [].
  unfold told, sent. rewrite !app_nil_r. split_and!; [done..|]. intros m tag _ _. right. right. by exists (Some u).
Qed.

(** A request has been recorded, or its failure is told. *)
Definition handled (c : RecoverMarketIo) s s' : Prop :=
  ∃ answers, told s' = told s ++ answers ∧
    (tags s' !! rq_market_id c = Some (command_tag c) ∨ ∃ status, status ∈ answers ∧ reports_failure (rq_market_id c) (command_tag c) status).

Lemma refuse_spec c reason s : wp (send_or_defer_recovery_status (request_failed (rq_market_id c) (command_tag c) reason))
  (λ _ s', R s s' ∧ handled c s s') s.
Proof.
  eapply wp_mono; [by apply send_status_spec|]. cbv beta. intros _ s' H. split; [by eapply tells_accounts|]. destruct H as (_ & E & _). eexists. split; [exact E|].
  right. eexists. split; [by apply list_elem_of_singleton|]. by split_and!.
Qed.

Lemma request_spec c s : tags s !! rq_market_id c = None → wp (request_snapshot c) (λ _ s', R s s' ∧ handled c s s') s.
Proof.
  intros Hn. unfold request_snapshot. wp_steps. set (s1 := s ⟪ wi_pending_recovery_by_market ::= _ ⟫).
  eapply (wp_mono _ (λ _ s2, quiet s2 = quiet s1)); [done|]. cbv beta. intros id s2 E2. wp_step.
  eapply (wp_mono _ (λ _ s3, quiet s3 = quiet s1)).
  { unfold send_text, on_ws, wp. by destruct (ws_send_text _ _). }
  cbv beta. intros status s3 E3. case_bool_decide.
  - unfold tally. wp_step. injection E3 as A1 A2 A3 A4 A5. cbn in *. split.
    + eapply (fail_accounts _ _ []); unfold told, sent; cbn; rewrite ?A2, ?A3, ?A4, ?A5, ?app_nil_r; try done. intros m tag Ht. left.
      rewrite lookup_insert_ne; [done|]. congruence.
    + exists []. unfold told. cbn. rewrite A2, A3, app_nil_r, A5, lookup_insert_eq. auto.
  - wp_steps. unfold erase_tag. wp_steps. eapply wp_mono; [by apply send_status_spec|]. cbv beta. intros _ s' (F1 & F2 & F3 & F4).
    injection E3 as A1 A2 A3 A4 A5. cbn in F1, F2, F3, F4. assert (told s3 = told s ∧ sent s3 = sent s) as [B1 B2] by (unfold told, sent; by rewrite A2, A3, A4).
    unfold told, sent in F2, F3; cbn in F2, F3; fold (told s3) (told s') in F2; fold (sent s3) (sent s') in F3. rewrite B1 in F2. rewrite B2 in F3. split.
    + eapply fail_accounts; [congruence|exact F2|done|]. intros m tag Ht. left. rewrite F4, A5. cbn.
      destruct (erase_lookup false (command_context c) (<[rq_market_id c := command_tag c]> (tags s)) m tag) as [|[Hm _]]; [|done|].
      * rewrite lookup_insert_ne; [done|]. congruence.
      * cbn in Hm. congruence.
    + eexists. split; [exact F2|]. right. eexists. split; [by apply list_elem_of_singleton|]. by split_and!.
Qed.

Lemma recover_spec c s : wp (recover_market c) (λ _ s', R s s' ∧ handled c s s') s.
Proof.
  unfold recover_market. wp_steps. destruct (recovery_refusal c s) as [reason|]; [apply refuse_spec|]. wp_steps.
  destruct (tags s !! rq_market_id c) as [tag|] eqn:Et; [|by apply request_spec]. case_bool_decide as Htag; cbn [negb]; [|apply refuse_spec]. subst tag.
  wp_steps. assert (R s s ∧ handled c s s) as H by (split; [done|]; exists []; rewrite app_nil_r; auto).
  destruct (command_still_pending _ s); cbn [negb when]; [by wp_step|].
  eapply wp_mono; [by apply send_status_spec|]. cbv beta. intros _ s' T. split; [by eapply tells_accounts|]. destruct T as (_ & E & _ & E').
  eexists. split; [exact E|]. left. by rewrite E'.
Qed.
End Methods.

Lemma accounts_mono used used' s s' : used ⊆ used' → accounts used s s' → accounts used' s s'.
Proof.
  intros Hu (E & a & f & T & S & H). split; [done|]. exists a, f. split_and!; [done..|]. intros m tag Ht Hn.
  eapply settled_mono; [exact Hu|done|done|by apply H].
Qed.

Lemma command_spec c s : wp (handle_control_command hash_order c) (λ _ s', accounts [Some c] s s' ∧
  match c with CiRecoverMarket command => handled command s s' | _ => True end) s.
Proof.
  unfold handle_control_command. destruct c as [u| | |command].
  - eapply wp_rel; [apply (ac_apply [Some (CiApplyUniverseSnapshot u)]); set_solver|]. auto.
  - wp_step. eapply wp_rel; [apply (ac_connect [Some CiConnect])|]. intros. by wp_step.
  - eapply wp_rel; [apply (ac_disconnect [Some CiDisconnect])|]. auto.
  - apply recover_spec.
Qed.

(** ** A round of the session *)

(** [used]: the commands consumed. *)
Definition answers_requests s s' : Prop :=
  ∃ used answers frames, wi_control_to_io_queue s = used ++ wi_control_to_io_queue s' ∧ told s' = told s ++ answers ∧ sent s' = sent s ++ frames ∧
    (∀ m tag, tags s !! m = Some tag → tags s' !! m ≠ Some tag → settled m tag used answers frames) ∧
    (∀ c, Some (CiRecoverMarket c) ∈ used → tags s' !! rq_market_id c ≠ Some (command_tag c) → settled (rq_market_id c) (command_tag c) used answers frames).

#[local] Instance answers_requests_preorder : PreOrder answers_requests.
Proof.
  split.
  - intros s. exists [], [], []. rewrite !app_nil_r. split_and!; [done..| |]; [naive_solver|]. by intros c ?%not_elem_of_nil.
  - intros s1 s2 s3 (u1 & a1 & f1 & U1 & T1 & S1 & H1 & G1) (u2 & a2 & f2 & U2 & T2 & S2 & H2 & G2). exists (u1 ++ u2), (a1 ++ a2), (f1 ++ f2).
    rewrite U1, U2, T2, T1, S2, S1, !app_assoc. split_and!; [done..| |].
    + intros m tag Ht Hn. destruct (decide (tags s2 !! m = Some tag)).
      * eapply settled_mono; [..|by apply (H2 m tag)]; set_solver.
      * eapply settled_mono; [..|by apply (H1 m tag)]; set_solver.
    + intros c [Hc|Hc]%elem_of_app Hn; [|eapply settled_mono; [..|by apply (G2 c)]; set_solver].
      destruct (decide (tags s2 !! rq_market_id c = Some (command_tag c))).
      * eapply settled_mono; [..|by apply (H2 _ _ e)]; set_solver.
      * eapply settled_mono; [..|by apply (G1 c)]; set_solver.
Qed.

Lemma accounts_answers {A} (m : M WireState A) : rel (accounts []) m → rel answers_requests m.
Proof.
  intros Hm s. destruct (Hm s) as (E & a & f & T & S & H). exists [], a, f. split_and!; [done..|]. by intros c ?%not_elem_of_nil.
Qed.

Lemma drain_commands_answers n : rel answers_requests (drain_commands hash_order n).
Proof.
  induction n as [|n IH]; [by intros s|]. intros s. change (wp (drain_commands hash_order (S n)) (λ _ s', answers_requests s s') s). cbn [drain_commands]. wp_steps.
  destruct (wi_pending_recovery_statuses s); [|by wp_step]. wp_step. unfold pop_control_command, wp at 1.
  destruct (wi_control_to_io_queue s) as [|[c|] q] eqn:Eq; cbn [fst snd]; [by wp_step| |].
  2: { wp_step. exists [None], [], []. rewrite Eq, !app_nil_r. split_and!; [done..| |]; [naive_solver|]. by intros c ?%list_elem_of_singleton. }
  wp_step. eapply wp_mono; [apply command_spec|]. cbv beta. intros _ s1 [(E & a & f & T & S & H) Hc]. eapply wp_rel; [exact IH|]. intros _ s2 H2. etrans; [|exact H2].
  exists [Some c], a, f. rewrite Eq, E. split_and!; [done..|]. intros c' [= <-]%list_elem_of_singleton Hn. cbn in Hc. destruct Hc as (a' & T' & [Hc|Hc]); [done|].
  left. assert (a' = a) as -> by (rewrite T in T'; by apply app_inv_head in T'). done.
Qed.

(** A round of the wire session answers for every recovery request.  The recovery
    statuses for the control plane grow at the end only, in order and without loss.  A
    request that was pending, or whose command the round takes from the control plane, is
    pending afterwards unless its failure is among the new statuses, the snapshot that carries
    its recovery id has been sent to the router, or the round took a new universe. *)
Theorem wire_answers_recoveries s : answers_requests s (run_once kFrameParserPadding clk hash_order s).2.
Proof.
  assert (rel answers_requests (run_once kFrameParserPadding clk hash_order)) as H; [|apply H]. unfold run_once, run_prepare.
  pose proof (accounts_answers _ (ac_drain_recycle [])). pose proof (accounts_answers _ (ac_flush_recovery [])). pose proof (accounts_answers _ (ac_flush_barrier [])).
  pose proof (accounts_answers _ (ac_telemetry [])). pose proof (λ b, accounts_answers _ (ac_service [] b)).
  assert (rel answers_requests (drain_control_commands hash_order)) by (unfold drain_control_commands; apply rel_bind; [exact _|apply rel_gets; exact _|intros; apply drain_commands_answers]).
  rel_auto.
Qed.
End WireRecovery.
End WireRecovery.

(** ** A concrete wire session

    One market, a websocket that delivers a script of messages and records the requests, and
    queues of the abstract FIFO: the session is constructed, connects, subscribes and receives
    order-book messages, one of them without a market and one after a gap. *)


Module WireDemo.
Import SidSequenceObserver Wire WireStream WireRecovery.

(** ** Libraries *)

Inductive tree := | TString (s : string) | TNumber (z : Z) | TObject (l : list (string * tree)).

Definition tree_field (l : list (string * tree)) (key : string) : JsonError + tree :=
  match list_find (λ f, f.1 = key) l with Some (_, (_, v)) => inr v | None => inl kNO_SUCH_FIELD end.

(** The first byte of a message chooses its document. *)
Definition tree_json (documents : list tree) : SimdJson := {|
  jdocument := tree; jobject := list (string * tree); jarray := list tree; jvalue := tree;
  iterate := λ payload _, documents !! Z.to_nat (default 0 (head payload));
  document_get_object := λ d, match d with TObject l => Some l | _ => None end;
  find_field_unordered := tree_field;
  value_get_string := λ v, match v with TString s => Some (String.list_ascii_of_string s) | _ => None end;
  value_get_object := λ v, match v with TObject l => Some l | _ => None end;
  value_get_array := λ _, None;
  array_count := length;
  array_iter_ok := λ _ _, true;
  array_at := λ l n, default (TNumber 0) (l !! n);
|}.
Definition tree_numbers documents : @SimdJsonNumbers (tree_json documents) := {|
  value_get_uint64 := λ v : @jvalue (tree_json documents), match v with TNumber z => if (0 <=? z) && (z <=? U64_MAX) then Some z else None | _ => None end;
  value_get_int64 := λ v : @jvalue (tree_json documents), match v with TNumber z => if (- 2 ^ 63 <=? z) && (z <? 2 ^ 63) then Some z else None | _ => None end;
|}.

Record Socket := mkSocket { so_inbox : list (list Z); so_requests : list WsRequest }.
#[local] Instance demo_socket : WebSocket Socket := {|
  ws_connect := λ w, (true, w);
  ws_send_text := λ r w, (kSEND_ACCEPTED, mkSocket (so_inbox w) (so_requests w ++ [r]));
  ws_poll := λ w, (1, w);
  ws_recv_text := λ w, (match so_inbox w with [] => mkReadResult kREAD_PENDING [] | m :: _ => mkReadResult kREAD_MESSAGE m end, w);
  ws_consume_message := λ w, mkSocket (tail (so_inbox w)) (so_requests w);
  ws_close := λ w, mkSocket [] (so_requests w);
  ws_last_error := λ _, ""%string;
|}.

(** ** Messages *)

Definition subscribed : tree := TObject [("id", TNumber 1); ("type", TString "subscribed"); ("msg", TObject [("sid", TNumber 9)])]%string.
Definition book_message (type : string) (seq : Z) (msg : list (string * tree)) : tree :=
  TObject [("type", TString type); ("sid", TNumber 9); ("seq", TNumber seq); ("msg", TObject msg)]%string.
Definition known : list (string * tree) := [("market_ticker", TString "KNOWN")]%string.

Definition documents : list tree :=
  [subscribed; book_message "orderbook_snapshot" 1 known; book_message "orderbook_delta" 2 []; book_message "orderbook_delta" 5 known;
   book_message "orderbook_snapshot" 6 known]%string.
#[local] Instance demo_simdjson : SimdJson := tree_json documents.
#[local] Instance demo_simdjson_numbers : SimdJsonNumbers := tree_numbers documents.

Definition demo_route : UniverseMarketRoute := default_UniverseMarketRoute ⟪ ur_kalshi_ticker := "KNOWN"%string ⟫ ⟪ ur_market_id := 101 ⟫ ⟪ ur_event_id := 7 ⟫.
Definition demo_universe : UniverseSnapshot := mkUniverseSnapshot 7 [] [demo_route].
Definition demo_pool : Pool.FramePool := Pool.mkFramePool 4 (replicate 4 (Pool.mkKalshiFrame 0 0 0 [])) [0; 1; 2; 3]%nat [1; 1; 1; 1] [false; false; false; false].
Definition fifo {T} (capacity : Z) : Fifo T := mkFifo capacity [] [] [].
Definition demo_clock (n : nat) : Z := 1 + Z.of_nat n.
Definition demo_request : RecoverMarketIo := mkRecoverMarketIo 44 7 101 1.

Definition demo_session : WireState (Q := Fifo) (W := Socket) :=
  make_wire_session demo_clock demo_pool (fifo 8) [Some (CiApplyUniverseSnapshot (Some demo_universe)); Some CiConnect] (fifo 8) [] (fifo 8)
    (mkSocket [[0]; [1]; [2]; [3]; [4]] []) [kCH_ORDERBOOK_DELTA].

Definition round (s : WireState (Q := Fifo) (W := Socket)) : WireState := (run_once 64 demo_clock id s).2.
Definition after (n : nat) : WireState (Q := Fifo) (W := Socket) := Nat.iter n round demo_session.
(** After the gap the control plane asks for a snapshot. *)
Definition recovering : WireState (Q := Fifo) (W := Socket) := (after 4) ⟪ wi_control_to_io_queue := [Some (CiRecoverMarket demo_request)] ⟫.

Example demo_rounds : so_requests (wi_ws_session (after 1)) = [WsSubscribe 1 kCH_ORDERBOOK_DELTA ["KNOWN"%string]] ∧
  length (stream (after 2)) = 1%nat ∧ length (stream (after 3)) = 1%nat ∧ length (stream (after 4)) = 3%nat ∧
  wi_pending_recovery_by_market (round recovering) = ∅ ∧ last (stream (round recovering)) ≫= (λ m, match m with MsgFrame h => Some (fh_recovery_id h) | _ => None end) = Some 44.
Proof. vm_compute. repeat split; reflexivity. Qed.

(** ** The theorems at work *)

(** Round 4 consumes the message after the gap. *)
Lemma grows_some (s s' s1 : WireState (Q := Fifo) (W := Socket)) message payload : message = Some payload → grows s s' message s1 →
  ∃ msgs, stream s' = stream s ++ msgs ∧ due payload s1 s' msgs.
Proof. by intros ->. Qed.

Lemma wire_round_outcome_witness : ∃ msgs, stream (run_once 64 demo_clock id (after 3)).2 = stream (after 3) ++ msgs ∧
  due [3] (run_prepare id (after 3)).2 (run_once 64 demo_clock id (after 3)).2 msgs.
Proof.
  assert (received (run_prepare id (after 3)).1 (run_prepare id (after 3)).2 = Some [3]) as E by (vm_compute; reflexivity).
  exact (grows_some _ _ _ _ _ E (proj1 (wire_round_outcome (Q := Fifo) (W := Socket) 64 demo_clock id (after 3)))).
Defined.

(** The message with number 2 has no market. *)
Lemma unreadable_book_message_leaves_no_trace_witness : stream (publish_market_data_frame 64 demo_clock [2] 5 (after 2)).2 = stream (after 2) ∧
  so_code (observe 9 3 (wi_sequence_observer (publish_market_data_frame 64 demo_clock [2] 5 (after 2)).2)).1 = kCONTIGUOUS.
Proof.
  apply (unreadable_book_message_leaves_no_trace (Q := Fifo) (W := Socket) 64 demo_clock [2] 5 (after 2) kENV_MISSING_MARKET_TICKER
    (mkMarketDataEnvelope kORDERBOOK_DELTA 9 2 "") 1); try (vm_compute; reflexivity); [right; reflexivity|apply Nat.leb_le; vm_compute; reflexivity|lia].
Defined.

(** The round after the gap takes the request, sends it to the exchange, and delivers the snapshot. *)
Lemma wire_answers_recoveries_witness : answers_requests recovering (round recovering).
Proof. apply (wire_answers_recoveries (Q := Fifo) (W := Socket) 64 demo_clock id). intros l. reflexivity. Defined.
End WireDemo.
