(* ===== verification/Shard.v ===== *)
(** * Shard: the thread that owns the books of its events

    Models [cpp/src/shard/shard.cpp] and [cpp/include/predex/shard/shard.hpp].  A shard
    takes frames and barriers from its router queue, parses frames and applies them to its
    event store, tells strategies what changed, tells control which markets need a recovery
    snapshot, and hands every frame on to the logger.

    The queues it writes are used through the interface [PushQueue].  Of the queues it
    reads, the state holds the results its next [try_pop] calls return: [None] where the
    queue is found empty.  Clock readings, the frame pool, which other threads change, and
    the outcome of allocations are indexed by the number of clock readings made so far. *)

From S2P Require Import Prelude Spsc LatencyHistogram MarketTypes StrategyTypes FramePool Book Event ShardTypes MarketParser.
Import Event Book.

Module Shard.
Section Shard.
Context {Q : Type → Type} `{!PushQueue Q} {SJ : SimdJson}.

Record ShardState := mkShardState {
  sh_shard_index : Z;
  sh_installed_universe_version : Z;
  sh_next_shard_incident_id : Z;
  sh_run_state : ShardRunState;
  sh_router_to_shard_queue : list (option MarketDataPathMessage);
  sh_shard_to_logger_queue : Q FrameHandle;
  sh_last_resort_recycle_queue : Q FrameHandle;
  sh_shard_to_control_queue : Q ShardToControlMessage;
  sh_control_to_shard_queue : list (option ControlToShardCommand);
  sh_shard_to_strategy_queue : Q ShardToStrategyMessage;
  sh_event_store : EventStore;
  sh_stats : ShardStats;
  sh_next_telemetry_send : Z;
  sh_pending_recovery_status : option ShardToControlMessage;
  sh_strategy_publication_faulted : bool;
  sh_clock_reads : nat;
}.
#[export] Instance eta_ShardState : Eta ShardState := λ s,
  mkShardState (sh_shard_index s) (sh_installed_universe_version s) (sh_next_shard_incident_id s)
    (sh_run_state s) (sh_router_to_shard_queue s) (sh_shard_to_logger_queue s)
    (sh_last_resort_recycle_queue s) (sh_shard_to_control_queue s) (sh_control_to_shard_queue s)
    (sh_shard_to_strategy_queue s) (sh_event_store s) (sh_stats s) (sh_next_telemetry_send s)
    (sh_pending_recovery_status s) (sh_strategy_publication_faulted s) (sh_clock_reads s).

Definition make_shard (shard_index : Z) (logger recycle : Q FrameHandle) (control : Q ShardToControlMessage)
    (strategy : Q ShardToStrategyMessage) : ShardState :=
  mkShardState shard_index 0 1 kUNINSTALLED [] logger recycle control [] strategy [] default_ShardStats 0
    None false 0.

Variable clk : nat → Z.
Variable pools : nat → Pool.FramePool.
Variable allocs : nat → bool.

Definition monotonic_now_ns : M ShardState Z := λ s,
  (clk (sh_clock_reads s), s ⟪ sh_clock_reads ::= S ⟫).

(** [++counter] on a 64-bit counter of the statistics. *)
Definition incr (n : Z) : Z := u64 (n + 1).
Definition stat (f : ShardStats → ShardStats) : M ShardState unit := modify (λ s, s ⟪ sh_stats ::= f ⟫).

(** The result of the next [try_pop]. *)
Definition pop_message : M ShardState (option MarketDataPathMessage) := λ s,
  match sh_router_to_shard_queue s with
  | [] => (None, s)
  | x :: q => (x, s ⟪ sh_router_to_shard_queue := q ⟫)
  end.
Definition pop_command : M ShardState (option ControlToShardCommand) := λ s,
  match sh_control_to_shard_queue s with
  | [] => (None, s)
  | x :: q => (x, s ⟪ sh_control_to_shard_queue := q ⟫)
  end.

(** ** Messages to control *)

Definition send_control_message (message : ShardToControlMessage) : M ShardState bool := λ s,
  let '(b, q) := q_push message (sh_shard_to_control_queue s) in
  (b, s ⟪ sh_shard_to_control_queue := q ⟫).

Definition send_or_defer_recovery_status (message : ShardToControlMessage) : M ShardState bool :=
  pending ← gets sh_pending_recovery_status;
  match pending with
  | Some _ => mret false
  | None =>
      sent ← send_control_message message;
      if sent : bool then mret true
      else
        modify (λ s, s ⟪ sh_pending_recovery_status := Some message ⟫);;
        mret true
  end.

Definition flush_pending_recovery_status : M ShardState bool :=
  pending ← gets sh_pending_recovery_status;
  match pending with
  | None => mret true
  | Some message =>
      sent ← send_control_message message;
      if sent : bool then
        modify (λ s, s ⟪ sh_pending_recovery_status := None ⟫);;
        mret true
      else mret false
  end.

Definition report_market_recovery_required (universe_version : Z) (incident : IntegrityIncidentKey)
    (sid sequence market_id event_id : Z) (reason : BookInvalidationReason) : M ShardState bool :=
  shard_index ← gets sh_shard_index;
  send_or_defer_recovery_status (ScMarketRecoveryRequired
    (mkShardMarketRecoveryRequired universe_version shard_index incident sid sequence market_id event_id reason)).

Definition fault_shard (universe_version : Z) (reason : string) : M ShardState unit :=
  modify (λ s, s ⟪ sh_run_state := kFAULTED ⟫);;
  shard_index ← gets sh_shard_index;
  _ ← send_control_message (ScFaulted (mkShardFaulted shard_index universe_version reason));
  mret tt.

Definition command_matches_shard (universe_version command_shard_index : Z) : M ShardState bool :=
  shard_index ← gets sh_shard_index;
  installed ← gets sh_installed_universe_version;
  if negb (command_shard_index =? shard_index) then
    fault_shard universe_version "Shard index mismatch";; mret false
  else if (installed =? 0) || negb (universe_version =? installed) then
    fault_shard universe_version "Universe version mismatch";; mret false
  else mret true.

Definition require_run_state (expected : ShardRunState) (universe_version : Z) (reason : string) : M ShardState bool :=
  run_state ← gets sh_run_state;
  if negb (bool_decide (run_state = expected)) then fault_shard universe_version reason;; mret false
  else mret true.

(** ** Handing a frame on *)

Definition push_logger (handle : FrameHandle) : M ShardState bool := λ s,
  let '(b, q) := q_push handle (sh_shard_to_logger_queue s) in (b, s ⟪ sh_shard_to_logger_queue := q ⟫).
Definition push_recycle (handle : FrameHandle) : M ShardState bool := λ s,
  let '(b, q) := q_push handle (sh_last_resort_recycle_queue s) in (b, s ⟪ sh_last_resort_recycle_queue := q ⟫).

Definition terminal_handoff (handle : FrameHandle) : M ShardState bool :=
  now ← monotonic_now_ns;
  let handle := handle ⟪ fh_shard_publish_ts_ns := now ⟫ in
  let channel_index := market_data_channel_index (fh_kind handle) in
  when (channel_index <? kMarketDataChannelCount)%nat
    (stat (λ t,
       t ⟪ ss_router_to_shard_latency ::= alter (λ h, Histogram.record_elapsed_ns h
             (fh_router_publish_ts_ns handle) (fh_shard_dequeue_ts_ns handle)) channel_index ⟫
         ⟪ ss_shard_service_latency ::= alter (λ h, Histogram.record_elapsed_ns h
             (fh_shard_dequeue_ts_ns handle) (fh_shard_publish_ts_ns handle)) channel_index ⟫
         ⟪ ss_ingress_to_shard_latency ::= alter (λ h, Histogram.record_elapsed_ns h
             (fh_ingress_ts_ns handle) (fh_shard_publish_ts_ns handle)) channel_index ⟫));;
  logged ← push_logger handle;
  if logged : bool then stat (λ t, t ⟪ ss_frames_to_logger ::= incr ⟫);; mret true
  else
    recycled ← push_recycle handle;
    if recycled : bool then
      stat (λ t, t ⟪ ss_missed_frames_to_logger ::= incr ⟫ ⟪ ss_frames_recycled ::= incr ⟫);; mret true
    else stat (λ t, t ⟪ ss_leaked_handles ::= incr ⟫);; mret false.

(** The end of every frame path: the result with its code, unless the handle leaked. *)
Definition finish_frame (handle : FrameHandle) (result : ShardPumpResult) : M ShardState ShardPumpResult :=
  handed ← terminal_handoff handle;
  mret (if handed : bool then result else result ⟪ pu_code := kHANDLE_LEAK ⟫).

(** ** Messages to strategies *)

Definition count_published (message : ShardToStrategyMessage) (t : ShardStats) : ShardStats :=
  match message with
  | ObservedPair _ => t ⟪ ss_strategy_observations_published ::= incr ⟫
  | EventUnavailable _ => t ⟪ ss_strategy_event_unavailable_published ::= incr ⟫
  | ShardUnavailable _ => t ⟪ ss_strategy_shard_unavailable_published ::= incr ⟫
  end.

Definition push_strategy (message : ShardToStrategyMessage) : M ShardState bool := λ s,
  let '(b, q) := q_push message (sh_shard_to_strategy_queue s) in (b, s ⟪ sh_shard_to_strategy_queue := q ⟫).

Definition publish_strategy_message (message : ShardToStrategyMessage) : M ShardState bool :=
  faulted ← gets sh_strategy_publication_faulted;
  if faulted : bool then stat (λ t, t ⟪ ss_strategy_messages_suppressed ::= incr ⟫);; mret false
  else
    pushed ← push_strategy message;
    if pushed : bool then stat (count_published message);; mret true
    else
      stat (λ t, t ⟪ ss_strategy_enqueue_failures ::= incr ⟫);;
      modify (λ s, s ⟪ sh_strategy_publication_faulted := true ⟫);;
      mret false.

Definition publish_event_unavailable (universe_version event_id affected_market_id event_revision : Z)
    : M ShardState unit :=
  shard_index ← gets sh_shard_index;
  _ ← publish_strategy_message (EventUnavailable
        (mkStrategyEventUnavailable universe_version shard_index event_id affected_market_id event_revision));
  mret tt.

Definition publish_shard_unavailable (universe_version : Z) : M ShardState unit :=
  shard_index ← gets sh_shard_index;
  _ ← publish_strategy_message (ShardUnavailable (mkStrategyShardUnavailable universe_version shard_index));
  mret tt.

Definition projection_failed : M ShardState unit :=
  stat (λ t, t ⟪ ss_strategy_projection_failures ::= incr ⟫);;
  modify (λ s, s ⟪ sh_strategy_publication_faulted := true ⟫).

Definition publish_pair (event : EventState) (handle : FrameHandle) (apply_complete_ts_ns easier_index : Z)
    : M ShardState bool :=
  shard_index ← gets sh_shard_index;
  now ← monotonic_now_ns;
  let ctx := mkStrategyObservationContext (fh_universe_version handle) shard_index (fh_ingress_ts_ns handle)
               apply_complete_ts_ns now in
  match build_monotonic_pair_observation easier_index ctx event with
  | None => projection_failed;; mret false
  | Some observation => publish_strategy_message (ObservedPair observation)
  end.

Fixpoint publish_pairs (event : EventState) (handle : FrameHandle) (apply_complete_ts_ns : Z) (idxs : list Z)
    : M ShardState unit :=
  match idxs with
  | [] => mret tt
  | idx :: idxs' =>
      published ← publish_pair event handle apply_complete_ts_ns idx;
      if published : bool then publish_pairs event handle apply_complete_ts_ns idxs' else mret tt
  end.

Definition publish_affected_pairs (handle : FrameHandle) (apply_result : EventApplyResult)
    (apply_complete_ts_ns : Z) : M ShardState unit :=
  faulted ← gets sh_strategy_publication_faulted;
  if (faulted : bool) || negb (er_book_changed apply_result) || negb (bool_decide (fh_topology handle = kMONOTONIC_CHAIN))
  then mret tt
  else
    store ← gets sh_event_store;
    match get_event store (fh_shard_event_index handle) with
    | None => projection_failed
    | Some event =>
        if negb (event_usable event) then mret tt
        else
          let market_count := Z.of_nat (length (ke_markets (ev_state event))) in
          if er_event_became_usable apply_result then
            publish_pairs event handle apply_complete_ts_ns (seqZ 0 (market_count - 1))
          else
            let changed_idx := fh_event_market_index handle in
            first ← (if 0 <? changed_idx
                     then publish_pair event handle apply_complete_ts_ns (changed_idx - 1)
                     else mret true);
            if first : bool then
              if changed_idx + 1 <? market_count then
                _ ← publish_pair event handle apply_complete_ts_ns changed_idx; mret tt
              else mret tt
            else mret tt
    end.

(** ** Invalidation and checks *)

Definition account_invalidation_result (invalidation : BookInvalidationResult) : M ShardState bool :=
  if negb (ir_target_found invalidation) then mret false
  else
    match ir_book_sync_transition invalidation with
    | kBECAME_UNUSABLE => stat (λ t, t ⟪ ss_markets_became_unusable ::= incr ⟫);; mret true
    | kRECOVERY_REQUIRED => stat (λ t, t ⟪ ss_markets_recovery_required ::= incr ⟫);; mret true
    | kTRANSITION_NONE => stat (λ t, t ⟪ ss_markets_already_awaiting_recovery ::= incr ⟫);; mret true
    | kINITIAL_SNAPSHOT_INSTALLED | kRECOVERED => mret false
    end.

Definition invalidate_in_store (shard_event_index event_market_index market_id : Z) (reason : BookInvalidationReason)
    : M ShardState BookInvalidationResult := λ s,
  let '(result, store) :=
    store_invalidate_market shard_event_index event_market_index market_id reason (sh_event_store s) in
  (result, s ⟪ sh_event_store := store ⟫).

(** The transitions after which a recovery snapshot has to be asked for. *)
Definition needs_recovery (t : BookSyncTransition) : bool :=
  match t with kBECAME_UNUSABLE | kRECOVERY_REQUIRED => true | _ => false end.

(** The first check of the handle's target that fails, if any. *)
Definition target_mismatch (handle : FrameHandle) (s : ShardState) : option string :=
  if negb (fh_shard_index handle =? sh_shard_index s) then Some "Frame handle shard index mismatch"%string
  else if negb (fh_universe_version handle =? sh_installed_universe_version s)
  then Some "Frame handle universe version mismatch"%string
  else
    match get_event (sh_event_store s) (fh_shard_event_index handle) with
    | None => Some "Frame handle event index mismatch"%string
    | Some event =>
        if negb (ke_event_id (ev_state event) =? fh_event_id handle) then Some "Frame handle event ID mismatch"%string
        else if negb (ke_shard_event_index (ev_state event) =? fh_shard_event_index handle)
        then Some "Frame handle event route index mismatch"%string
        else if negb (bool_decide (ke_topology (ev_state event) = fh_topology handle))
        then Some "Frame handle event topology mismatch"%string
        else
          match get_market event (fh_event_market_index handle) with
          | None => Some "Frame handle market index mismatch"%string
          | Some market =>
              if negb (km_market_id market =? fh_market_id handle) then Some "Frame handle market ID mismatch"%string
              else if negb (km_event_market_index market =? fh_event_market_index handle)
              then Some "Frame handle market route index mismatch"%string
              else None
          end
    end.

Definition validate_handle_target (handle : FrameHandle) : M ShardState bool :=
  mismatch ← gets (target_mismatch handle);
  match mismatch with
  | Some reason => fault_shard (fh_universe_version handle) reason;; mret false
  | None => mret true
  end.

Definition fresh_incident : M ShardState IntegrityIncidentKey :=
  shard_index ← gets sh_shard_index;
  incident_id ← gets sh_next_shard_incident_id;
  modify (λ s, s ⟪ sh_next_shard_incident_id ::= incr ⟫);;
  mret (mkIntegrityIncidentKey kSHARD shard_index incident_id).

(** The market of an order-book frame whose contents are lost: invalidate it, tell
    strategies, and ask for recovery under a new incident. *)
Definition report_lost_contents (handle : FrameHandle) (reason : BookInvalidationReason) (refused : string)
    (result : ShardPumpResult) : M ShardState ShardPumpResult :=
  incident ← fresh_incident;
  reported ← report_market_recovery_required (fh_universe_version handle) incident (fh_sid handle)
    (fh_sequence handle) (fh_market_id handle) (fh_event_id handle) reason;
  (if reported : bool then mret tt else fault_shard (fh_universe_version handle) refused);;
  mret (result ⟪ pu_incident := incident ⟫).

Definition announce_unusable (handle : FrameHandle) (invalidation : BookInvalidationResult) : M ShardState unit :=
  when (bool_decide (ir_book_sync_transition invalidation = kBECAME_UNUSABLE))
    (publish_event_unavailable (fh_universe_version handle) (fh_event_id handle) (fh_market_id handle)
       (ir_event_revision invalidation)).

Definition handle_missing_frame (handle : FrameHandle) : M ShardState ShardPumpResult :=
  let result := default_ShardPumpResult ⟪ pu_code := kMISSING_FRAME ⟫ in
  if is_order_book (fh_kind handle) then
    invalidation ← invalidate_in_store (fh_shard_event_index handle) (fh_event_market_index handle)
      (fh_market_id handle) kSHARD_FRAME_MISSING;
    let result := result ⟪ pu_market_invalidation := invalidation ⟫ in
    accounted ← account_invalidation_result invalidation;
    (if accounted : bool then announce_unusable handle invalidation
     else fault_shard (fh_universe_version handle)
            (if ir_target_found invalidation
             then "Invalid transition returned by missing-frame invalidation"
             else "Market invalidation target not found for missing frame")%string);;
    result ← (if needs_recovery (ir_book_sync_transition invalidation)
              then report_lost_contents handle kSHARD_FRAME_MISSING
                     "Could not retain missing-frame recovery status" result
              else mret result);
    finish_frame handle result
  else finish_frame handle result.

Definition handle_parse_failure (handle : FrameHandle) (parse_result : ParseResult) : M ShardState ShardPumpResult :=
  stat (λ t, t ⟪ ss_parse_rejects ::= incr ⟫);;
  let result := default_ShardPumpResult ⟪ pu_code := kPARSE_REJECTED ⟫ ⟪ pu_parse_result := parse_result ⟫ in
  if is_order_book (fh_kind handle) then
    invalidation ← invalidate_in_store (fh_shard_event_index handle) (fh_event_market_index handle)
      (fh_market_id handle) kSHARD_PARSE_FAILURE;
    let result := result ⟪ pu_market_invalidation := invalidation ⟫ in
    accounted ← account_invalidation_result invalidation;
    result ← (if accounted : bool then
                announce_unusable handle invalidation;;
                if needs_recovery (ir_book_sync_transition invalidation)
                then report_lost_contents handle kSHARD_PARSE_FAILURE
                       "Could not retain parse-failure recovery status" result
                else mret result
              else
                fault_shard (fh_universe_version handle)
                  (if ir_target_found invalidation
                   then "Invalid transition returned by parse-failure invalidation"
                   else "Market invalidation target not found for parse failure")%string;;
                mret result);
    finish_frame handle result
  else finish_frame handle result.

(** ** Applying a frame *)

Definition apply_in_store (handle : FrameHandle) (parsed : KalshiParsedEvent) : M ShardState EventApplyResult := λ s,
  let '(result, store) := store_apply (allocs (sh_clock_reads s)) handle parsed (sh_event_store s) in
  (result, s ⟪ sh_event_store := store ⟫).

Definition account_transition (t : BookSyncTransition) : M ShardState unit :=
  match t with
  | kBECAME_UNUSABLE =>
      stat (λ t, t ⟪ ss_markets_became_unusable ::= incr ⟫ ⟪ ss_event_desyncs ::= incr ⟫)
  | kRECOVERY_REQUIRED => stat (λ t, t ⟪ ss_markets_recovery_required ::= incr ⟫)
  | kTRANSITION_NONE | kINITIAL_SNAPSHOT_INSTALLED | kRECOVERED => mret tt
  end.

(** A recovery snapshot that was applied is reported to control. *)
Definition completes_recovery (handle : FrameHandle) (t : BookSyncTransition) : bool :=
  negb (fh_recovery_id handle =? 0) && bool_decide (fh_kind handle = kORDERBOOK_SNAPSHOT)
  && (bool_decide (t = kRECOVERED) || bool_decide (t = kTRANSITION_NONE)).

Definition report_recovery_snapshot (handle : FrameHandle) (t : BookSyncTransition) : M ShardState unit :=
  shard_index ← gets sh_shard_index;
  retained ← send_or_defer_recovery_status (ScRecoverySnapshotApplied
    (mkShardRecoverySnapshotApplied (fh_recovery_id handle) (fh_universe_version handle) shard_index
       (fh_sid handle) (fh_sequence handle) (fh_market_id handle) t));
  if retained : bool then mret tt
  else fault_shard (fh_universe_version handle) "Could not retain recovery-snapshot status".

Definition apply_frame (handle : FrameHandle) (parsed : KalshiParsedEvent) : M ShardState ShardPumpResult :=
  event_result ← apply_in_store handle parsed;
  apply_complete_ts_ns ← monotonic_now_ns;
  let channel_index := market_data_channel_index (fh_kind handle) in
  when (is_order_book (fh_kind handle) && bool_decide (er_disposition event_result = kAPPLIED)
        && (channel_index <? kMarketDataChannelCount)%nat)
    (stat (λ t, t ⟪ ss_ingress_to_book_apply_latency ::= alter (λ h, Histogram.record_elapsed_ns h
              (fh_ingress_ts_ns handle) apply_complete_ts_ns) channel_index ⟫));;
  let transition := er_book_sync_transition event_result in
  account_transition transition;;
  when (bool_decide (transition = kBECAME_UNUSABLE))
    (publish_event_unavailable (fh_universe_version handle) (fh_event_id handle) (fh_market_id handle)
       (er_event_revision event_result));;
  let result := default_ShardPumpResult ⟪ pu_event_result := event_result ⟫ in
  match er_disposition event_result with
  | kREJECTED =>
      stat (λ t, t ⟪ ss_event_rejects ::= incr ⟫);;
      finish_frame handle (result ⟪ pu_code := kEVENT_REJECTED ⟫)
  | kIGNORED =>
      stat (λ t, t ⟪ ss_event_ignored ::= incr ⟫);;
      finish_frame handle (result ⟪ pu_code := kEVENT_IGNORED ⟫)
  | kAPPLIED =>
      stat (λ t, t ⟪ ss_frames_applied ::= incr ⟫);;
      when (er_book_changed event_result) (publish_affected_pairs handle event_result apply_complete_ts_ns);;
      when (completes_recovery handle transition) (report_recovery_snapshot handle transition);;
      finish_frame handle (result ⟪ pu_code := kPUMP_APPLIED ⟫)
  end.

Definition handle_frame (incoming_handle : FrameHandle) (dispatch_mode : MarketDataDispatchMode)
    : M ShardState ShardPumpResult :=
  now ← monotonic_now_ns;
  let handle := incoming_handle ⟪ fh_shard_dequeue_ts_ns := now ⟫ in
  stat (λ t, t ⟪ ss_frames_seen ::= incr ⟫);;
  if bool_decide (dispatch_mode = kDISPATCH_DRAINING) then
    finish_frame handle (default_ShardPumpResult ⟪ pu_code := kDRAINED_FRAME ⟫)
  else
    valid ← validate_handle_target handle;
    if negb valid then finish_frame handle (default_ShardPumpResult ⟪ pu_code := kFRAME_ROUTE_REJECTED ⟫)
    else
      frame ← gets (λ s, Pool.frame (pools (sh_clock_reads s)) handle);
      match frame with
      | None => handle_missing_frame handle
      | Some frame =>
          let '(parse_result, parsed) := MarketParser.parse handle frame in
          if negb (pr_success parse_result) then handle_parse_failure handle parse_result
          else apply_frame handle parsed
      end.

(** ** Barriers *)

Definition reject_barrier (message : MarketInvalidationBarrier) (reason : string) : M ShardState ShardPumpResult :=
  stat (λ t, t ⟪ ss_barrier_rejects ::= incr ⟫);;
  fault_shard (mb_universe_version message) reason;;
  mret (default_ShardPumpResult ⟪ pu_code := kINTEGRITY_BARRIER_REJECTED ⟫ ⟪ pu_incident := mb_incident message ⟫).

(** The checks of a market barrier before anything is invalidated. *)
Definition barrier_mismatch (message : MarketInvalidationBarrier) (s : ShardState) : option string :=
  if bool_decide (mb_reason message = kREASON_NONE) then Some "Market invalidation barrier has no reason"%string
  else if negb (mb_universe_version message =? sh_installed_universe_version s)
  then Some "Market invalidation universe mismatch"%string
  else if negb (mb_shard_index message =? sh_shard_index s) then Some "Market invalidation shard mismatch"%string
  else
    match get_event (sh_event_store s) (mb_shard_event_index message) with
    | None => Some "Market invalidation event mismatch"%string
    | Some event =>
        if negb (ke_event_id (ev_state event) =? mb_event_id message)
        then Some "Market invalidation event mismatch"%string else None
    end.

Definition handle_market_barrier (message : MarketInvalidationBarrier) : M ShardState ShardPumpResult :=
  stat (λ t, t ⟪ ss_market_barriers_seen ::= incr ⟫);;
  mismatch ← gets (barrier_mismatch message);
  match mismatch with
  | Some reason => reject_barrier message reason
  | None =>
      invalidation ← invalidate_in_store (mb_shard_event_index message) (mb_event_market_index message)
        (mb_market_id message) (mb_reason message);
      if negb (ir_target_found invalidation) then
        result ← reject_barrier message "Market invalidation target not found";
        mret (result ⟪ pu_market_invalidation := invalidation ⟫)
      else
        accounted ← account_invalidation_result invalidation;
        if negb accounted then
          result ← reject_barrier message "Invalid transition returned by market invalidation";
          mret (result ⟪ pu_market_invalidation := invalidation ⟫)
        else
          when (bool_decide (ir_book_sync_transition invalidation = kBECAME_UNUSABLE))
            (publish_event_unavailable (mb_universe_version message) (mb_event_id message) (mb_market_id message)
               (ir_event_revision invalidation));;
          reported ← (if needs_recovery (ir_book_sync_transition invalidation)
                      then report_market_recovery_required (mb_universe_version message) (mb_incident message)
                             (mb_sid message) (mb_sequence message) (mb_market_id message) (mb_event_id message)
                             (mb_reason message)
                      else mret true);
          if negb reported then reject_barrier message "Could not retain market recovery status"
          else
            mret (default_ShardPumpResult ⟪ pu_code := kMARKET_BARRIER_HANDLED ⟫
                    ⟪ pu_incident := mb_incident message ⟫ ⟪ pu_market_invalidation := invalidation ⟫)
  end.

Definition invalidate_all_in_store (reason : BookInvalidationReason) : M ShardState BookInvalidationSummary := λ s,
  let '(summary, store) := store_invalidate_all_markets reason (sh_event_store s) in
  (summary, s ⟪ sh_event_store := store ⟫).

Definition handle_subscription_barrier (message : OrderBookSubscriptionInvalidationBarrier)
    : M ShardState ShardPumpResult :=
  stat (λ t, t ⟪ ss_subscription_barriers_seen ::= incr ⟫);;
  let result := default_ShardPumpResult ⟪ pu_incident := sb_incident message ⟫ in
  installed ← gets sh_installed_universe_version;
  if bool_decide (sb_reason message = kREASON_NONE) || negb (sb_universe_version message =? installed) then
    stat (λ t, t ⟪ ss_barrier_rejects ::= incr ⟫);;
    fault_shard (sb_universe_version message) "Invalid order-book subscription barrier";;
    mret (result ⟪ pu_code := kINTEGRITY_BARRIER_REJECTED ⟫)
  else
    summary ← invalidate_all_in_store (sb_reason message);
    when (0 <? is_targets_became_unusable summary) (publish_shard_unavailable (sb_universe_version message));;
    stat (λ t, t ⟪ ss_markets_became_unusable ::= λ n, u64 (n + is_targets_became_unusable summary) ⟫
                 ⟪ ss_markets_recovery_required ::= λ n, u64 (n + is_targets_recovery_required summary) ⟫
                 ⟪ ss_markets_already_awaiting_recovery ::= λ n, u64 (n + is_targets_already_awaiting_recovery summary) ⟫);;
    mret (result ⟪ pu_code := kSUBSCRIPTION_BARRIER_HANDLED ⟫ ⟪ pu_subscription_invalidation := summary ⟫).

(** ** The pump *)

(** Barriers are handled the same way in both modes. *)
Definition dispatch_message (message : MarketDataPathMessage) (dispatch_mode : MarketDataDispatchMode)
    : M ShardState ShardPumpResult :=
  match message with
  | MsgFrame handle => handle_frame handle dispatch_mode
  | MsgMarketBarrier barrier => handle_market_barrier barrier
  | MsgSubscriptionBarrier barrier => handle_subscription_barrier barrier
  end.

Definition drain_one_message : M ShardState ShardPumpResult :=
  popped ← pop_message;
  match popped with
  | Some message => dispatch_message message kDISPATCH_DRAINING
  | None =>
      modify (λ s, s ⟪ sh_run_state := kDRAINED ⟫);;
      drained ← gets (λ s, mkShardDrainComplete (sh_installed_universe_version s) (sh_shard_index s) (sh_stats s));
      _ ← send_control_message (ScDrainComplete drained);
      mret (default_ShardPumpResult ⟪ pu_code := kDRAIN_COMPLETE ⟫)
  end.

Definition pump_once : M ShardState ShardPumpResult :=
  flushed ← flush_pending_recovery_status;
  if negb flushed then mret default_ShardPumpResult
  else
    run_state ← gets sh_run_state;
    match run_state with
    | kDRAINING => drain_one_message
    | kUNINSTALLED | kDRAINED | kFAULTED => mret default_ShardPumpResult
    | kLIVE | kPREPARING_STOP | kSAFE_TO_STOP =>
        popped ← pop_message;
        match popped with
        | None => mret default_ShardPumpResult
        | Some message => dispatch_message message kDISPATCH_LIVE
        end
    end.

(** ** Commands *)

Definition install_universe (events : list KalshiEvent) : M ShardState bool :=
  modify (λ s, s ⟪ sh_event_store := initialize events ⟫);; mret true.

Definition handle_install (command : InstallShardUniverse) : M ShardState unit :=
  let version := is_universe_version command in
  shard_index ← gets sh_shard_index;
  run_state ← gets sh_run_state;
  installed_version ← gets sh_installed_universe_version;
  if negb (is_shard_index command =? shard_index) then fault_shard version "Install shard index mismatch"
  else if version =? 0 then fault_shard version "Cannot install universe version zero"
  else if negb (bool_decide (run_state = kUNINSTALLED) || bool_decide (run_state = kDRAINED))
  then fault_shard version "Universe install requested from invalid Shard state"
  else if bool_decide (run_state = kDRAINED) && (version <=? installed_version)
  then fault_shard version "Replacement universe version is not newer"
  else
    installed ← install_universe (is_events command);
    if negb installed then fault_shard version "Failed to install universe events"
    else
      modify (λ s, s ⟪ sh_installed_universe_version := version ⟫ ⟪ sh_stats := default_ShardStats ⟫
                     ⟪ sh_run_state := kLIVE ⟫);;
      count ← gets (λ s, Z.of_nat (length (sh_event_store s)));
      _ ← send_control_message (ScInstalled (mkShardUniverseInstalled version shard_index count));
      mret tt.

Definition handle_prepare_stop (command : PrepareStopUniverse) : M ShardState unit :=
  let version := sp_universe_version command in
  matches ← command_matches_shard version (sp_shard_index command);
  if negb matches then mret tt
  else
    live ← require_run_state kLIVE version "Prepare stop requested before Shard was live";
    if negb live then mret tt
    else
      modify (λ s, s ⟪ sh_run_state := kPREPARING_STOP ⟫);;
      modify (λ s, s ⟪ sh_run_state := kSAFE_TO_STOP ⟫);;
      shard_index ← gets sh_shard_index;
      _ ← send_control_message (ScSafeToStop
            (mkShardSafeToStopUniverse version shard_index "No OMS or strategy lifecycle attached"));
      mret tt.

Definition handle_drain (command : DrainShardUniverse) : M ShardState unit :=
  let version := sd_universe_version command in
  matches ← command_matches_shard version (sd_shard_index command);
  if negb matches then mret tt
  else
    safe ← require_run_state kSAFE_TO_STOP version "Drain requested before Shard was safe to stop";
    when safe (modify (λ s, s ⟪ sh_run_state := kDRAINING ⟫)).

Definition handle_resume (command : ResumeShardUniverse) : M ShardState unit :=
  let version := sr_universe_version command in
  matches ← command_matches_shard version (sr_shard_index command);
  if negb matches then mret tt
  else
    safe ← require_run_state kSAFE_TO_STOP version "Resume requested before Shard was safe to stop";
    when safe (modify (λ s, s ⟪ sh_run_state := kLIVE ⟫)).

Definition handle_operator_command (command : ControlToShardCommand) : M ShardState unit :=
  match command with
  | CsInstall c => handle_install c
  | CsPrepareStop c => handle_prepare_stop c
  | CsDrain c => handle_drain c
  | CsResume c => handle_resume c
  end.

Definition process_one_control_command : M ShardState bool :=
  command ← pop_command;
  match command with
  | None => mret false
  | Some c => handle_operator_command c;; mret true
  end.

Fixpoint drain_control_commands (max_commands : nat) (commands_processed : Z) : M ShardState Z :=
  match max_commands with
  | O => mret commands_processed
  | S max_commands =>
      processed ← process_one_control_command;
      if processed : bool then drain_control_commands max_commands (commands_processed + 1)
      else mret commands_processed
  end.

(** Five seconds, in the nanoseconds of the clock. *)
Definition kSHARD_TELEMETRY_INTERVAL : Z := 5000 * 1000000.

Definition maybe_send_telemetry : M ShardState unit :=
  pending ← gets sh_pending_recovery_status;
  match pending with
  | Some _ => mret tt
  | None =>
      now ← monotonic_now_ns;
      next ← gets sh_next_telemetry_send;
      if now <? next then mret tt
      else
        telemetry ← gets (λ s, mkShardTelemetry (sh_shard_index s) (sh_installed_universe_version s) (sh_stats s));
        _ ← send_control_message (ScTelemetry telemetry);
        modify (λ s, s ⟪ sh_next_telemetry_send := now + kSHARD_TELEMETRY_INTERVAL ⟫)
  end.
End Shard.
End Shard.
