(* ===== verification/ShardFrames.v ===== *)
(** * ShardFrames: every frame a shard takes is handed on exactly once

    A frame occupies a slot of the frame pool until its handle comes back through the
    logger's or the shard's own recycle queue.  Whatever happens to a frame in the shard, its
    handle ends in exactly one of the two queues; only when both are full is it lost, and
    then the pump says so. *)

From S2P Require Import Prelude Spsc LatencyHistogram MarketTypes StrategyTypes FramePool Book Event ShardTypes MarketParser Shard.
Import Event Book Shard.

Module ShardFrames.
Section Frames.
Context {Q : Type → Type} `{!PushQueue Q} `{!PushQueueLaws Q} {SJ : SimdJson}.
Variable clk : nat → Z.
Variable pools : nat → Pool.FramePool.
Variable allocs : nat → bool.
Implicit Types s : ShardState (Q := Q).

(** The pool slot a handle stands for. *)
Definition ticket (h : FrameHandle) : Z * Z := (fh_pool_index h, fh_pool_generation h).

Inductive Disposal := | Logged (h : FrameHandle) | Recycled (h : FrameHandle) | Leaked (h : FrameHandle).

Definition disposed_ticket (d : Disposal) : Z * Z :=
  match d with Logged h | Recycled h | Leaked h => ticket h end.
Definition logged (d : Disposal) : option FrameHandle := match d with Logged h => Some h | _ => None end.
Definition recycled (d : Disposal) : option FrameHandle := match d with Recycled h => Some h | _ => None end.
Definition leaked (d : Disposal) : bool := match d with Leaked _ => true | _ => false end.

(** The two queues handles leave through, and the two queues messages come in by. *)
Definition frames_out s : Q FrameHandle * Q FrameHandle := (sh_shard_to_logger_queue s, sh_last_resort_recycle_queue s).

Definition outflow s : list FrameHandle * list FrameHandle :=
  (q_sent (sh_shard_to_logger_queue s), q_sent (sh_last_resort_recycle_queue s)).

Definition boundary s : (Q FrameHandle * Q FrameHandle) * list (option MarketDataPathMessage) :=
  (frames_out s, sh_router_to_shard_queue s).

(** ** Everything but the hand-off leaves the boundary alone *)

Lemma push_quiet {T} (get : ShardState (Q := Q) → Q T) (put : Q T → ShardState → ShardState) (x : T) :
  (∀ q s, boundary (put q s) = boundary s) →
  rel (same boundary) (λ s, let '(b, q) := q_push x (get s) in (b, put q s)).
Proof. intros H s. unfold same. destruct (q_push x (get s)) as [b q]. apply H. Qed.

Lemma shard_send_control_quiet m : rel (same boundary) (send_control_message m).
Proof. by apply push_quiet. Qed.

Lemma push_strategy_quiet m : rel (same boundary) (push_strategy m).
Proof. by apply push_quiet. Qed.

Lemma shard_now_quiet : rel (same boundary) (monotonic_now_ns clk).
Proof. intros s. done. Qed.

Lemma stat_quiet f : rel (same boundary) (stat f).
Proof. intros s. done. Qed.

Lemma invalidate_quiet a b c r : rel (same boundary) (invalidate_in_store a b c r).
Proof. intros s. unfold same, invalidate_in_store. by destruct (store_invalidate_market _ _ _ _ _). Qed.

Lemma invalidate_all_quiet r : rel (same boundary) (invalidate_all_in_store r).
Proof. intros s. unfold same, invalidate_all_in_store. by destruct (store_invalidate_all_markets _ _). Qed.

Lemma apply_quiet h p : rel (same boundary) (apply_in_store allocs h p).
Proof. intros s. unfold same, apply_in_store. by destruct (store_apply _ _ _ _). Qed.

Lemma pop_command_quiet : rel (same boundary) pop_command.
Proof. intros s. unfold same, pop_command. by destruct (sh_control_to_shard_queue s) as [|[]]. Qed.

Hint Resolve shard_send_control_quiet push_strategy_quiet shard_now_quiet stat_quiet invalidate_quiet invalidate_all_quiet
  apply_quiet pop_command_quiet : frame.
Hint Extern 3 (rel (same boundary) (modify _)) => (intros ?; reflexivity) : frame.

Lemma fault_quiet v r : rel (same boundary) (fault_shard v r).
Proof. unfold fault_shard. rel_auto. Qed.
Hint Resolve fault_quiet : frame.

Lemma send_or_defer_quiet m : rel (same boundary) (send_or_defer_recovery_status m).
Proof. unfold send_or_defer_recovery_status. rel_auto. Qed.
Hint Resolve send_or_defer_quiet : frame.

Lemma report_quiet v i sid sq m e r : rel (same boundary) (report_market_recovery_required v i sid sq m e r).
Proof. unfold report_market_recovery_required. rel_auto. Qed.
Hint Resolve report_quiet : frame.

Lemma publish_quiet m : rel (same boundary) (publish_strategy_message m).
Proof. unfold publish_strategy_message. rel_auto. Qed.
Hint Resolve publish_quiet : frame.

Lemma event_unavailable_quiet v e m r : rel (same boundary) (publish_event_unavailable v e m r).
Proof. unfold publish_event_unavailable. rel_auto. Qed.
Lemma shard_unavailable_quiet v : rel (same boundary) (publish_shard_unavailable v).
Proof. unfold publish_shard_unavailable. rel_auto. Qed.
Lemma publish_pair_quiet e h t i : rel (same boundary) (publish_pair clk e h t i).
Proof. unfold publish_pair, projection_failed. rel_auto. Qed.
Hint Resolve event_unavailable_quiet shard_unavailable_quiet publish_pair_quiet : frame.

Lemma publish_pairs_quiet e h t l : rel (same boundary) (publish_pairs clk e h t l).
Proof. induction l as [|i l IH]; cbn [publish_pairs]; rel_auto. Qed.
Hint Resolve publish_pairs_quiet : frame.

Lemma affected_quiet h r t : rel (same boundary) (publish_affected_pairs clk h r t).
Proof. unfold publish_affected_pairs, projection_failed. rel_auto. Qed.
Lemma account_quiet r : rel (same boundary) (account_invalidation_result r).
Proof. unfold account_invalidation_result. rel_auto. Qed.
Lemma account_transition_quiet t : rel (same boundary) (account_transition t).
Proof. unfold account_transition. rel_auto. Qed.
Lemma validate_quiet h : rel (same boundary) (validate_handle_target h).
Proof. unfold validate_handle_target. rel_auto. Qed.
Lemma lost_quiet h r w res : rel (same boundary) (report_lost_contents h r w res).
Proof. unfold report_lost_contents, fresh_incident. rel_auto. Qed.
Lemma announce_quiet h i : rel (same boundary) (announce_unusable h i).
Proof. unfold announce_unusable. rel_auto. Qed.
Lemma recovery_snapshot_quiet h t : rel (same boundary) (report_recovery_snapshot h t).
Proof. unfold report_recovery_snapshot. rel_auto. Qed.
Hint Resolve affected_quiet account_quiet account_transition_quiet validate_quiet lost_quiet announce_quiet
  recovery_snapshot_quiet : frame.

Lemma reject_barrier_quiet m r : rel (same boundary) (reject_barrier m r).
Proof. unfold reject_barrier. rel_auto. Qed.
Hint Resolve reject_barrier_quiet : frame.

Lemma market_barrier_quiet b : rel (same boundary) (handle_market_barrier b).
Proof. unfold handle_market_barrier. rel_auto. Qed.
Lemma subscription_barrier_quiet b : rel (same boundary) (handle_subscription_barrier b).
Proof. unfold handle_subscription_barrier. rel_auto. Qed.
Lemma flush_quiet : rel (same boundary) flush_pending_recovery_status.
Proof. unfold flush_pending_recovery_status. rel_auto. Qed.
Lemma telemetry_quiet : rel (same boundary) (maybe_send_telemetry clk).
Proof. unfold maybe_send_telemetry. rel_auto. Qed.
Lemma command_quiet c : rel (same boundary) (handle_operator_command c).
Proof.
  destruct c; cbn [handle_operator_command];
    unfold handle_install, handle_prepare_stop, handle_drain, handle_resume, install_universe, command_matches_shard,
      require_run_state; rel_auto.
Qed.
Hint Resolve market_barrier_quiet subscription_barrier_quiet flush_quiet telemetry_quiet command_quiet : frame.

Lemma drain_commands_quiet n k : rel (same boundary) (drain_control_commands n k).
Proof.
  revert k. induction n as [|n IH]; intros k; cbn [drain_control_commands]; unfold process_one_control_command; rel_auto.
Qed.
Hint Resolve drain_commands_quiet : frame.

(** ** The hand-off *)

(** A queue the producer finds with no room left. *)
Definition full {T} (q : Q T) : Prop := q_capacity q ≤ q_size q.

(** The pushes that disposals stand for, on the logger's queue and the recycler's: the
    logger is always tried first; the recycler is tried, with the same handle, only when
    the logger was full and refused it; a handle is lost only when both were full and
    refused it. *)
Inductive handed : list Disposal → Q FrameHandle * Q FrameHandle → Q FrameHandle * Q FrameHandle → Prop :=
  | handed_nothing qs : handed [] qs qs
  | handed_logged h ds lq lq' rq qs :
      q_push h lq = (true, lq') →
      handed ds (lq', rq) qs → handed (Logged h :: ds) (lq, rq) qs
  | handed_recycled h ds lq lq' rq rq' qs :
      q_push h lq = (false, lq') → full lq →
      q_push h rq = (true, rq') →
      handed ds (lq', rq') qs → handed (Recycled h :: ds) (lq, rq) qs
  | handed_leaked h ds lq lq' rq rq' qs :
      q_push h lq = (false, lq') → full lq →
      q_push h rq = (false, rq') → full rq →
      handed ds (lq', rq') qs → handed (Leaked h :: ds) (lq, rq) qs.

Lemma handed_app ds ds' qs qs1 qs' : handed ds qs qs1 → handed ds' qs1 qs' → handed (ds ++ ds') qs qs'.
Proof. induction 1; intros; cbn; [done|econstructor; eauto..]. Qed.

(** A push that is refused met a full queue. *)
Lemma refused_full {T} (x : T) (q q' : Q T) : q_push x q = (false, q') → full q.
Proof.
  intros E. unfold full. destruct (Z.le_gt_cases (q_capacity q) (q_size q)) as [|H]; [done|].
  apply (push_room x) in H. by rewrite E in H.
Qed.

(** What became of a frame: [d] left through its queue, and the result says whether it
    leaked. *)
Definition disposed (d : Disposal) (r : ShardPumpResult) s s' : Prop :=
  handed [d] (frames_out s) (frames_out s') ∧
  outflow s' = ((outflow s).1 ++ option_list (logged d), (outflow s).2 ++ option_list (recycled d)) ∧
  (pu_code r = kHANDLE_LEAK ↔ leaked d = true).

Definition disposes (h : FrameHandle) (m : M ShardState ShardPumpResult) : Prop :=
  ∀ s, let '(r, s') := m s in
    sh_router_to_shard_queue s' = sh_router_to_shard_queue s ∧ ∃ d, disposed_ticket d = ticket h ∧ disposed d r s s'.

Lemma same_outflow s s' : same boundary s s' →
  frames_out s' = frames_out s ∧ outflow s' = outflow s ∧ sh_router_to_shard_queue s' = sh_router_to_shard_queue s.
Proof. unfold same, boundary, frames_out, outflow. intros [= -> -> ->]. done. Qed.

Lemma disposes_bind {A} h (m : M ShardState A) k : rel (same boundary) m → (∀ a, disposes h (k a)) → disposes h (m ≫= k).
Proof.
  intros Hm Hk s. unfold mbind, M_bind. specialize (Hm s). destruct (m s) as [a s1]. apply same_outflow in Hm as (Hf & Ho & Hq).
  cbn in Hf, Ho, Hq. specialize (Hk a s1). destruct (k a s1) as [r s2]. unfold disposed in *. by rewrite Hf, Ho, Hq in Hk.
Qed.

Lemma disposes_seq h (m : M ShardState unit) k : rel (same boundary) m → disposes h k → disposes h (m;; k).
Proof. intros Hm Hk. by apply disposes_bind. Qed.

Lemma push_out {T} (q : Q T) (x : T) : q_sent (q_push x q).2 = q_sent q ++ if (q_push x q).1 then [x] else [].
Proof. rewrite push_sent. destruct (q_push x q).1; [done|by rewrite app_nil_r]. Qed.

Lemma finish_disposes h result : pu_code result ≠ kHANDLE_LEAK → disposes h (finish_frame clk h result).
Proof.
  intros Hr. unfold finish_frame, terminal_handoff. intros s. unfold mbind, M_bind, monotonic_now_ns. cbv beta iota zeta.
  set (h' := h ⟪ fh_shard_publish_ts_ns := _ ⟫). set (s1 := s ⟪ sh_clock_reads ::= S ⟫).
  assert (ticket h' = ticket h) as Ht by done.
  match goal with |- context [when ?b ?m s1] => pose proof (rel_when (same boundary) b m ltac:(auto with frame)) as Hw end.
  specialize (Hw s1). destruct (when _ _ s1) as [u s2]. apply same_outflow in Hw as (Hf & Ho & Hq). cbn in Hf, Ho, Hq.
  assert (frames_out s2 = frames_out s ∧ outflow s2 = outflow s ∧ sh_router_to_shard_queue s2 = sh_router_to_shard_queue s) as (Hf2 & Ho2 & Hq2)
    by (split_and!; [rewrite Hf|rewrite Ho|rewrite Hq]; reflexivity). clear Hf Ho Hq s1. clearbody h'.
  unfold push_logger. pose proof (push_out (sh_shard_to_logger_queue s2) h') as Hl.
  destruct (q_push h' (sh_shard_to_logger_queue s2)) as [bl ql] eqn:El. cbn in Hl. destruct bl; cbn.
  - split; [done|]. exists (Logged h'). split; [done|]. unfold disposed. rewrite <- Hf2, <- Ho2. split; [solve [econstructor; eauto using refused_full, handed_nothing]|]. unfold outflow. cbn. rewrite Hl, app_nil_r. done.
  - unfold push_recycle. cbn. pose proof (push_out (sh_last_resort_recycle_queue s2) h') as Hrc.
    destruct (q_push h' (sh_last_resort_recycle_queue s2)) as [br qr] eqn:Er. cbn in Hrc. destruct br; cbn.
    + split; [done|]. exists (Recycled h'). split; [done|]. unfold disposed. rewrite <- Hf2, <- Ho2. split; [solve [econstructor; eauto using refused_full, handed_nothing]|]. unfold outflow. cbn. rewrite Hl, Hrc, app_nil_r. done.
    + split; [done|]. exists (Leaked h'). split; [done|]. unfold disposed. rewrite <- Hf2, <- Ho2. split; [solve [econstructor; eauto using refused_full, handed_nothing]|]. unfold outflow. cbn. rewrite Hl, Hrc, !app_nil_r. done.
Qed.

(** The same for a step whose result matters. *)
Lemma disposes_bind_with {A} (P : A → Prop) h (m : M ShardState A) k : rel (same boundary) m → (∀ s, P (m s).1) →
  (∀ a, P a → disposes h (k a)) → disposes h (m ≫= k).
Proof.
  intros Hm HP Hk s. unfold mbind, M_bind. specialize (Hm s). specialize (HP s). destruct (m s) as [a s1].
  apply same_outflow in Hm as (Hf & Ho & Hq). cbn in Hf, Ho, Hq, HP. specialize (Hk a HP s1). destruct (k a s1) as [r s2].
  unfold disposed in *. by rewrite Hf, Ho, Hq in Hk.
Qed.

Lemma lost_contents_code h r w res s : pu_code (report_lost_contents h r w res s).1 = pu_code res.
Proof.
  unfold report_lost_contents, mbind, M_bind. destruct (fresh_incident s) as [i s1].
  destruct (report_market_recovery_required _ _ _ _ _ _ _ s1) as [b s2]. destruct b; cbn; [done|].
  by destruct (fault_shard _ _ s2).
Qed.

Ltac disposes_step :=
  first
    [ apply finish_disposes; done
    | apply disposes_bind; [solve [rel_auto]|intros ?]
    | match goal with
      | |- disposes _ (let _ := _ in _) => cbv zeta
      | |- disposes _ (match ?x with _ => _ end) => destruct x
      end ].

Lemma missing_disposes h : disposes h (handle_missing_frame clk h).
Proof.
  unfold handle_missing_frame. cbv zeta. destruct (is_order_book (fh_kind h)); [|by disposes_step].
  apply disposes_bind; [rel_auto|intros inv]. cbv zeta. do 2 (apply disposes_bind; [solve [rel_auto]|intros ?]).
  apply (disposes_bind_with (λ r, pu_code r = kMISSING_FRAME)); [rel_auto| |].
  - intros s. destruct (needs_recovery _); [by rewrite lost_contents_code|done].
  - intros r Hr. apply finish_disposes. by rewrite Hr.
Qed.

Lemma parse_failure_disposes h r : disposes h (handle_parse_failure clk h r).
Proof.
  unfold handle_parse_failure. cbv zeta. apply disposes_seq; [rel_auto|].
  destruct (is_order_book (fh_kind h)); [|by disposes_step].
  apply disposes_bind; [rel_auto|intros inv]. cbv zeta. apply disposes_bind; [rel_auto|intros accounted].
  apply (disposes_bind_with (λ r, pu_code r = kPARSE_REJECTED)); [rel_auto| |].
  - intros s. unfold mbind, M_bind. destruct accounted.
    + destruct (announce_unusable h inv s) as [u s1]. destruct (needs_recovery _); [by rewrite lost_contents_code|done].
    + by destruct (fault_shard _ _ s).
  - intros r' Hr. apply finish_disposes. by rewrite Hr.
Qed.

Lemma apply_disposes h p : disposes h (apply_frame clk allocs h p).
Proof. unfold apply_frame. cbv zeta. repeat disposes_step. Qed.

Lemma frame_disposes h mode : disposes h (handle_frame clk pools allocs h mode).
Proof.
  unfold handle_frame. apply disposes_bind; [rel_auto|intros now]. cbv zeta. set (h' := h ⟪ fh_shard_dequeue_ts_ns := now ⟫).
  enough (∀ m, disposes h' m → disposes h m) as Hh; [|by intros m Hm].
  apply Hh. clearbody h'. apply disposes_seq; [rel_auto|]. destruct (bool_decide _); [by disposes_step|].
  apply disposes_bind; [rel_auto|intros []]; cbn [negb]; [|by disposes_step].
  apply disposes_bind; [rel_auto|intros [frame|]]; [|apply missing_disposes].
  destruct (MarketParser.parse h' frame) as [r ev]. destruct (negb _); [apply parse_failure_disposes|apply apply_disposes].
Qed.

(** ** Runs *)

(** What the shard's thread does in a loop. *)
Inductive ShardOp := | OpPump | OpCommands (max_commands : nat) | OpTelemetry.

Definition exec (op : ShardOp) s : list ShardPumpResult * ShardState :=
  match op with
  | OpPump => let '(r, s') := pump_once clk pools allocs s in ([r], s')
  | OpCommands n => ([], (drain_control_commands n 0 s).2)
  | OpTelemetry => ([], (maybe_send_telemetry clk s).2)
  end.

Fixpoint run (ops : list ShardOp) s : list ShardPumpResult * ShardState :=
  match ops with
  | [] => ([], s)
  | op :: ops' =>
      let '(r, s1) := exec op s in
      let '(rs, s2) := run ops' s1 in (r ++ rs, s2)
  end.

(** The frames among the messages taken. *)
Definition frames_of (l : list (option MarketDataPathMessage)) : list FrameHandle :=
  omap (λ m, match m with Some (MsgFrame h) => Some h | _ => None end) l.

Definition leaks (rs : list ShardPumpResult) : nat := length (filter (λ r, pu_code r = kHANDLE_LEAK) rs).

(** [consumed] was taken from the router queue, each frame of it disposed of as in [ds],
    by the pushes [handed] tells of and no others. *)
Definition accounted (consumed : list (option MarketDataPathMessage)) (ds : list Disposal)
    (rs : list ShardPumpResult) s s' : Prop :=
  sh_router_to_shard_queue s = consumed ++ sh_router_to_shard_queue s' ∧
  disposed_ticket <$> ds = ticket <$> frames_of consumed ∧
  handed ds (frames_out s) (frames_out s') ∧
  outflow s' = ((outflow s).1 ++ omap logged ds, (outflow s).2 ++ omap recycled ds) ∧
  leaks rs = length (filter (λ d, leaked d = true) ds).

Lemma accounted_nothing rs s s' : same boundary s s' → leaks rs = 0%nat → accounted [] [] rs s s'.
Proof.
  intros (Hf & Ho & Hq)%same_outflow Hl. unfold accounted. rewrite Hf, Ho, Hq, !app_nil_r.
  split_and!; [done|done|constructor|by destruct (outflow s)|done].
Qed.

Lemma frames_of_app l1 l2 : frames_of (l1 ++ l2) = frames_of l1 ++ frames_of l2.
Proof. apply omap_app. Qed.

Lemma leaks_app l1 l2 : leaks (l1 ++ l2) = (leaks l1 + leaks l2)%nat.
Proof. unfold leaks. by rewrite filter_app, length_app. Qed.

Lemma accounted_trans c1 d1 r1 c2 d2 r2 s s1 s2 : accounted c1 d1 r1 s s1 → accounted c2 d2 r2 s1 s2 →
  accounted (c1 ++ c2) (d1 ++ d2) (r1 ++ r2) s s2.
Proof.
  intros (Q1 & T1 & H1 & O1 & L1) (Q2 & T2 & H2 & O2 & L2). unfold accounted. split_and!.
  - by rewrite Q1, Q2, app_assoc.
  - by rewrite fmap_app, frames_of_app, fmap_app, T1, T2.
  - by eapply handed_app.
  - rewrite O2, O1. cbn. by rewrite !omap_app, !app_assoc.
  - by rewrite leaks_app, filter_app, length_app, L1, L2.
Qed.

(** Barriers never leak a handle. *)
Definition returns {A} (P : A → Prop) (m : M (ShardState (Q := Q)) A) : Prop := ∀ s, P (m s).1.

Lemma returns_bind {A B} (P : B → Prop) (m : M ShardState A) k : (∀ a, returns P (k a)) → returns P (m ≫= k).
Proof. intros Hk s. unfold mbind, M_bind. destruct (m s) as [a s1]. apply Hk. Qed.

Lemma returns_bind_with {A B} (P : A → Prop) (R : B → Prop) (m : M ShardState A) k :
  returns P m → (∀ a, P a → returns R (k a)) → returns R (m ≫= k).
Proof. intros Hm Hk s. unfold mbind, M_bind. specialize (Hm s). destruct (m s) as [a s1]. by apply Hk. Qed.

Definition tight (r : ShardPumpResult) : Prop := pu_code r ≠ kHANDLE_LEAK.

Lemma reject_tight m r : returns tight (reject_barrier m r).
Proof. unfold reject_barrier. by do 2 (apply returns_bind; intros ?). Qed.

Lemma market_barrier_tight b : returns tight (handle_market_barrier b).
Proof.
  unfold handle_market_barrier. apply returns_bind; intros _. apply returns_bind; intros [r|]; [apply reject_tight|].
  apply returns_bind; intros inv. destruct (negb (ir_target_found inv)).
  { apply (returns_bind_with tight); [apply reject_tight|intros a Ha ?; exact Ha]. }
  apply returns_bind; intros accounted. destruct (negb accounted).
  { apply (returns_bind_with tight); [apply reject_tight|intros a Ha ?; exact Ha]. }
  apply returns_bind; intros _. apply returns_bind; intros reported. by destruct (negb reported); [apply reject_tight|].
Qed.

Lemma subscription_barrier_tight b : returns tight (handle_subscription_barrier b).
Proof.
  unfold handle_subscription_barrier. apply returns_bind; intros _. cbv zeta. apply returns_bind; intros v.
  by destruct (_ || _); repeat (apply returns_bind; intros ?).
Qed.

Lemma leaks_tight r : tight r → leaks [r] = 0%nat.
Proof. unfold tight, leaks. intros H. by rewrite filter_cons_False. Qed.

Lemma dispatch_accounted message mode s : ∃ ds, let '(r, s') := dispatch_message clk pools allocs message mode s in
  accounted [Some message] ds [r] (s ⟪ sh_router_to_shard_queue ::= cons (Some message) ⟫) s'.
Proof.
  destruct message as [h|b|b]; cbn [dispatch_message].
  - pose proof (frame_disposes h mode s) as H. destruct (handle_frame _ _ _ h mode s) as [r s'].
    destruct H as (Hq & d & Ht & Hh & Ho & Hl). exists [d]. unfold accounted. split_and!; [cbn; by rewrite Hq|cbn; by rewrite Ht|exact Hh| |].
    + rewrite Ho. by destruct d.
    + unfold leaks. destruct (decide (leaked d = true)) as [E|E].
      * rewrite !filter_cons_True; [done|done|by apply Hl].
      * rewrite !filter_cons_False; [done|done|by intros ?%Hl].
  - exists []. pose proof (market_barrier_quiet b s) as H. pose proof (market_barrier_tight b s) as Ht.
    destruct (handle_market_barrier b s) as [r s']. apply same_outflow in H as (Hf & Ho & Hq). cbn in *.
    unfold accounted. cbn. rewrite Hq, !app_nil_r. split_and!; [done|done|rewrite Hf; constructor|by rewrite Ho|by apply leaks_tight].
  - exists []. pose proof (subscription_barrier_quiet b s) as H. pose proof (subscription_barrier_tight b s) as Ht.
    destruct (handle_subscription_barrier b s) as [r s']. apply same_outflow in H as (Hf & Ho & Hq). cbn in *.
    unfold accounted. cbn. rewrite Hq, !app_nil_r. split_and!; [done|done|rewrite Hf; constructor|by rewrite Ho|by apply leaks_tight].
Qed.

Lemma boundary_accounted c ds rs s s1 s2 : same boundary s s1 → accounted c ds rs s1 s2 → accounted c ds rs s s2.
Proof. intros (Hf & Ho & Hq)%same_outflow. unfold accounted. by rewrite Hf, Ho, Hq. Qed.

(** Taking the next message and handling it. *)
Lemma pop_accounted mode (none : M ShardState ShardPumpResult) s :
  rel (same boundary) none → returns tight none →
  ∃ c ds, let '(r, s') := (popped ← pop_message;
      match popped with Some message => dispatch_message clk pools allocs message mode | None => none end) s in
    accounted c ds [r] s s'.
Proof.
  intros Hq Ht. unfold mbind, M_bind, pop_message. destruct (sh_router_to_shard_queue s) as [|[m|] q] eqn:E.
  - exists [], []. specialize (Hq s). specialize (Ht s). destruct (none s) as [r s']. by apply accounted_nothing, leaks_tight.
  - destruct (dispatch_accounted m mode (s ⟪ sh_router_to_shard_queue := q ⟫)) as [ds H]. exists [Some m], ds.
    destruct (dispatch_message _ _ _ m mode _) as [r s']. eapply boundary_accounted; [|apply H].
    unfold same, boundary, frames_out. cbn. by rewrite E.
  - exists [None], []. set (s1 := s ⟪ sh_router_to_shard_queue := q ⟫). specialize (Hq s1). specialize (Ht s1).
    destruct (none s1) as [r s']. apply same_outflow in Hq as (Hf & Ho & Hq). cbn in *. unfold accounted. rewrite Hq, Ho, Hf. cbn.
    rewrite !app_nil_r, E. split_and!; [done|done|constructor|done|by apply leaks_tight].
Qed.

Lemma pump_accounted s : ∃ c ds, let '(r, s') := pump_once clk pools allocs s in accounted c ds [r] s s'.
Proof.
  assert (∀ s, accounted [] [] [default_ShardPumpResult] s s) as Hidle by (intros; by apply accounted_nothing).
  unfold pump_once, mbind at 1, M_bind at 1. pose proof (flush_quiet s) as Hf.
  destruct (flush_pending_recovery_status s) as [[] s1]; cbn [negb] in *; [|by exists [], []; apply accounted_nothing].
  cbn in Hf. set (rest := gets sh_run_state ≫= _).
  enough (∃ c ds, let '(r, s') := rest s1 in accounted c ds [r] s1 s') as (c & ds & H).
  { exists c, ds. destruct (rest s1) as [r s']. by eapply boundary_accounted. }
  unfold rest, mbind at 1, M_bind at 1, gets at 1. destruct (sh_run_state s1) eqn:E;
    try (exists [], []; apply Hidle).
  1-3: destruct (pop_accounted kDISPATCH_LIVE (mret default_ShardPumpResult) s1) as (c & ds & H); try done; exists c, ds; exact H.
  apply pop_accounted; [rel_auto|]. by do 3 (apply returns_bind; intros ?).
Qed.

Lemma exec_accounted op s : ∃ c ds, let '(rs, s') := exec op s in accounted c ds rs s s'.
Proof.
  destruct op as [|n|]; cbn [exec].
  - destruct (pump_accounted s) as (c & ds & H). exists c, ds. by destruct (pump_once clk pools allocs s).
  - exists [], []. apply accounted_nothing; [apply drain_commands_quiet|done].
  - exists [], []. apply accounted_nothing; [apply telemetry_quiet|done].
Qed.

(** C11: over any run of pumps, commands and telemetry, every frame the shard took from the
    router is disposed of exactly once, in order: its slot's handle was pushed to the
    logger; only when the logger's queue was full and refused it, to the recycler; only when
    both were full and refused it was it lost, and then the pump reported the leak.  The two
    queues are the result of these pushes: nothing else is ever pushed to them. *)
Theorem frames_handed_on_once ops s : let '(rs, s') := run ops s in
  ∃ consumed ds, accounted consumed ds rs s s'.
Proof.
  revert s. induction ops as [|op ops IH]; intros s; cbn [run]; [by exists [], []; apply accounted_nothing|].
  destruct (exec_accounted op s) as (c & ds & H). destruct (exec op s) as [r s1]. specialize (IH s1).
  destruct (run ops s1) as [rs s2]. destruct IH as (c2 & ds2 & H2). exists (c ++ c2), (ds ++ ds2).
  by eapply accounted_trans.
Qed.
End Frames.
End ShardFrames.
