(* ===== verification/ShardStrategy.v ===== *)
(** * ShardStrategy: strategies see the current books

    A strategy knows of a shard only what is pushed to its queue.  [last_view] is what a
    listener knows about a pair of neighbouring markets after reading a stream of messages:
    the last observation of the pair, unless its event or shard was reported unavailable
    since.  The invariant says that, as long as publication has not failed, this is always
    the pair's current view, and nothing while the event is unusable. *)

From S2P Require Import Prelude Spsc LatencyHistogram MarketTypes StrategyTypes FramePool Book Event ShardTypes MarketParser Shard ShardFrames.
Import Event Book Shard ShardFrames.

Module ShardStrategy.

Definition view : Type := StrategyMarketView * StrategyMarketView.

Definition hear (v id idx : Z) (acc : option view) (m : ShardToStrategyMessage) : option view :=
  match m with
  | ObservedPair o =>
      if (po_universe_version o =? v) && (po_event_id o =? id) && (mv_event_market_index (po_easier o) =? idx)
      then Some (po_easier o, po_harder o) else acc
  | EventUnavailable u => if (eu_universe_version u =? v) && (eu_event_id u =? id) then None else acc
  | ShardUnavailable u => if su_universe_version u =? v then None else acc
  end.

Definition last_view (v id idx : Z) (stream : list ShardToStrategyMessage) : option view :=
  foldl (hear v id idx) None stream.

(** What an observation of the pair would show now. *)
Definition pair_view (idx : Z) (e : EventState) : option view :=
  (λ o, (po_easier o, po_harder o)) <$> build_monotonic_pair_observation idx default_StrategyObservationContext e.

Definition event_id (e : EventState) : Z := ke_event_id (ev_state e).

(** ** Views of an event *)

(** Pairing up the two markets of an observation. *)
Ltac build_cases o1 o2 :=
  destruct o1 as [m1|]; cbn [mbind option_bind]; [|done]; destruct o2 as [m2|]; cbn [mbind option_bind]; [|done];
  destruct (_ || _) eqn:Hindex; [done|]; destruct (km_strike_key m1); cbn [mbind option_bind]; [|done];
  destruct (km_strike_key m2); cbn [mbind option_bind]; [|done]; destruct (_ <=? _); [done|];
  destruct (collect_bids (km_book m1)); cbn [mbind option_bind]; [|done];
  destruct (collect_asks (km_book m1)); cbn [mbind option_bind]; [|done];
  destruct (collect_bids (km_book m2)); cbn [mbind option_bind]; [|done];
  destruct (collect_asks (km_book m2)); cbn [mbind option_bind]; [|done].

Lemma build_view idx ctx e :
  (λ o, (po_easier o, po_harder o)) <$> build_monotonic_pair_observation idx ctx e = pair_view idx e.
Proof.
  unfold pair_view, build_monotonic_pair_observation. repeat (destruct (negb _); [done|]). destruct (_ || _); [done|].
  generalize (ke_markets (ev_state e) !! Z.to_nat idx) as o1, (ke_markets (ev_state e) !! Z.to_nat (idx + 1)) as o2.
  intros o1 o2. by build_cases o1 o2.
Qed.

Lemma build_identity idx ctx e o : build_monotonic_pair_observation idx ctx e = Some o →
  po_universe_version o = oc_universe_version ctx ∧ po_event_id o = event_id e ∧ mv_event_market_index (po_easier o) = idx.
Proof.
  unfold build_monotonic_pair_observation. repeat (destruct (negb _); [done|]). destruct (_ || _); [done|].
  generalize (ke_markets (ev_state e) !! Z.to_nat idx) as o1, (ke_markets (ev_state e) !! Z.to_nat (idx + 1)) as o2.
  intros o1 o2. build_cases o1 o2. apply orb_false_iff in Hindex as [Hindex _]. guards. intros [= <-]. done.
Qed.

Lemma pair_view_unusable idx e : event_usable e = false → pair_view idx e = None.
Proof. intros H. unfold pair_view, build_monotonic_pair_observation. destruct (negb _); [done|]. by rewrite H. Qed.

(** A pair's view depends only on its two markets while the event stays usable. *)
Lemma pair_view_ext idx e e' :
  ke_topology (ev_state e') = ke_topology (ev_state e) → event_usable e' = event_usable e →
  length (markets_of e') = length (markets_of e) →
  markets_of e' !! Z.to_nat idx = markets_of e !! Z.to_nat idx →
  markets_of e' !! Z.to_nat (idx + 1) = markets_of e !! Z.to_nat (idx + 1) → pair_view idx e' = pair_view idx e.
Proof.
  unfold pair_view, build_monotonic_pair_observation, markets_of. intros Ht Hu Hl H1 H2. rewrite Ht, Hu, Hl, H1, H2. clear.
  repeat (destruct (negb _); [done|]). destruct (_ || _); [done|].
  generalize (ke_markets (ev_state e) !! Z.to_nat idx) as o1, (ke_markets (ev_state e) !! Z.to_nat (idx + 1)) as o2.
  intros o1 o2. by build_cases o1 o2.
Qed.

(** Out of range there is nothing to see. *)
Lemma pair_view_range idx e : Z.of_nat (length (markets_of e)) - 1 ≤ idx → pair_view idx e = None.
Proof.
  intros H. unfold pair_view, build_monotonic_pair_observation, markets_of in *. repeat (destruct (negb _); [done|]).
  by rewrite (proj2 (Z.leb_le _ _) H), orb_true_r.
Qed.

(** ** Operations on one event *)

Lemma event_usable_spec e : event_usable e = true ↔
  markets_of e ≠ [] ∧ ∀ m, m ∈ markets_of e → sync_of m = kSYNCHRONIZED.
Proof.
  unfold event_usable, markets_of. destruct (ke_markets (ev_state e)) as [|m ms]; [naive_solver|].
  rewrite forallb_forall. unfold usable, sync_of. split.
  - intros H. split; [done|]. intros m' Hm%list_elem_of_In%H. by destruct (bk_sync_state (km_book m')).
  - intros [_ H] m' Hm%list_elem_of_In%H. by rewrite Hm.
Qed.

Lemma silent_market op m : announces op m = false →
  market_step op m = m ∨ (sync_of m ≠ kSYNCHRONIZED ∧ sync_of (market_step op m) ≠ kSYNCHRONIZED).
Proof.
  assert (∀ reason, negb (bool_decide (ar_book_sync_transition (reject_snapshot m reason).1 = kTRANSITION_NONE)) = false →
    (reject_snapshot m reason).2 = m ∨
    (sync_of m ≠ kSYNCHRONIZED ∧ sync_of (reject_snapshot m reason).2 ≠ kSYNCHRONIZED)) as Hrej.
  { intros reason. unfold reject_snapshot, sync_of. destruct (bool_decide (reason = _)); [intros _; by left|]. cbn. intros H. right.
    by destruct (bk_sync_state (km_book m)). }
  destruct op as [ok idx parsed|idx reason]; cbn [announces market_step].
  - destruct parsed as [|e|e|e|]; cbn [apply_to_market is_book_message andb]; try (intros _; by left).
    + unfold apply_snapshot. intros H.
      destruct (set_index_grid ok _) as [[] b]; [|apply Hrej; by apply orb_false_iff in H as [_ H]].
      destruct (install_levels b (bk_bids b) (se_bids e)) as [bids|]; [|apply Hrej; by apply orb_false_iff in H as [_ H]].
      destruct (install_levels _ _ (se_asks e)) as [asks|]; [|apply Hrej; by apply orb_false_iff in H as [_ H]]. done.
    + unfold apply_delta, reject_delta, usable. destruct (bk_sync_state (km_book m)) eqn:E; cbn; [intros _; by left| |intros _; by left].
      destruct (get_index _ _); [|done]. destruct (dd_side e); [done|..]; by destruct (adjust_level _ _).
  - intros H%negb_false_iff. rewrite H. by left.
Qed.

(** What an operation on market [op_index op] does to the views of its event. *)
Record event_change (op : event_op) (e e' : EventState) (t : BookSyncTransition) : Prop := {
  ch_id : event_id e' = event_id e;
  ch_topology : ke_topology (ev_state e') = ke_topology (ev_state e);
  ch_length : length (markets_of e') = length (markets_of e);
  ch_lost : event_usable e = true → event_usable e' = false → t = kBECAME_UNUSABLE;
  ch_unusable : t = kBECAME_UNUSABLE → event_usable e' = false;
  ch_others : event_usable e' = event_usable e → ∀ idx, 0 ≤ idx → idx ≠ op_index op → idx + 1 ≠ op_index op →
    pair_view idx e' = pair_view idx e;
  ch_silent : match markets_of e !! Z.to_nat (op_index op) with Some m => announces op m = false | None => True end →
    ∀ idx, pair_view idx e' = pair_view idx e;
}.

Lemma event_usable_insert e e' j m m' : markets_of e !! j = Some m → markets_of e' = <[j := m']> (markets_of e) →
  event_usable e' = true ↔ sync_of m' = kSYNCHRONIZED ∧ ∀ k x, k ≠ j → markets_of e !! k = Some x → sync_of x = kSYNCHRONIZED.
Proof.
  intros Hm He'. rewrite event_usable_spec, He'. assert (j < length (markets_of e))%nat as Hjl by by eapply lookup_lt_Some. split.
  - intros [_ H]. split; [apply H, list_elem_of_lookup; exists j; by apply list_lookup_insert_eq|].
    intros k x Hk Hx. apply H, list_elem_of_lookup. exists k. by rewrite list_lookup_insert_ne.
  - intros [H1 H2]. split; [by intros E%(f_equal length); rewrite length_insert in E; destruct (markets_of e)|].
    intros x (k & Hx)%list_elem_of_lookup. destruct (decide (k = j)) as [->|Hk].
    + rewrite list_lookup_insert_eq in Hx by done. by simplify_eq.
    + rewrite list_lookup_insert_ne in Hx by done. by eapply H2.
Qed.

Lemma exec_change op e : 0 ≤ op_index op → event_change op e (Event.exec op e).2 (Event.exec op e).1.
Proof.
  intros Hj. destruct (exec_static op e) as (Htop & Hid & _). pose proof (exec_spec op e) as Hx. fold (event_id e) in Hid.
  set (j := Z.to_nat (op_index op)) in *. destruct (markets_of e !! j) as [m|] eqn:Hm.
  2:{ rewrite Hx. by split; cbn; congruence. }
  destruct Hx as (Hms & _ & [Ht Hnone]). set (e' := (Event.exec op e).2) in *. set (t := (Event.exec op e).1) in *.
  assert (length (markets_of e') = length (markets_of e)) as Hlen by (rewrite Hms; apply length_insert).
  pose proof (event_usable_insert e e' j m (market_step op m) Hm Hms) as Hu'.
  assert (event_usable e = true ↔ sync_of m = kSYNCHRONIZED ∧ ∀ k x, k ≠ j → markets_of e !! k = Some x → sync_of x = kSYNCHRONIZED) as Hu.
  { apply (event_usable_insert e e j m m Hm). by rewrite list_insert_id. }
  split; try done.
  - intros H1 H2. apply Hu in H1 as [Hs Hoth]. rewrite Ht, Hs.
    destruct (sync_of (market_step op m)) eqn:E; [| |done].
    + rewrite Hs in Ht, Hnone. cbn in Ht. specialize (Hnone Ht). done.
    + exfalso. apply not_true_iff_false in H2. apply H2, Hu'. by split.
  - intros E. apply not_true_iff_false. intros [Hs _]%Hu'. rewrite E, Hs in Ht. by destruct (sync_of m).
  - intros Hsame idx Hi H1 H2. apply pair_view_ext; try done; rewrite Hms; apply list_lookup_insert_ne; lia.
  - intros Ha idx. fold j in Ha. rewrite Hm in Ha. destruct (silent_market op m Ha) as [Hsame|[H1 H2]].
    + rewrite Hsame in Hms, Hu'. rewrite list_insert_id in Hms by done. apply pair_view_ext; try done; try (by rewrite Hms).
      apply eq_true_iff_eq. by rewrite Hu, Hu'.
    + rewrite !pair_view_unusable; [done|..]; apply not_true_iff_false; [intros [? _]%Hu|intros [? _]%Hu']; done.
Qed.

(** The outcome of applying a message, in the terms of [exec]. *)
Lemma apply_outcome ok idx parsed e :
  let '(r, e') := apply ok idx parsed e in
  e' = (Event.exec (OpApply ok idx parsed) e).2 ∧
  er_book_sync_transition r = (Event.exec (OpApply ok idx parsed) e).1 ∧
  er_event_became_usable r = negb (event_usable e) && event_usable e' ∧
  match markets_of e !! Z.to_nat idx with
  | None => er_book_changed r = false
  | Some m => er_book_changed r = is_book_message parsed && bool_decide (ar_disposition (apply_to_market ok m parsed).1 = kAPPLIED)
  end.
Proof.
  cbn [Event.exec]. unfold apply, markets_of. destruct (ke_markets (ev_state e) !! Z.to_nat idx) as [m|]; cbn;
    [|split_and!; try done; by destruct (event_usable e)].
  by destruct (apply_to_market ok m parsed) as [r m'].
Qed.

Lemma changed_by_application ok idx parsed e : er_disposition (apply ok idx parsed e).1 ≠ kAPPLIED →
  er_book_changed (apply ok idx parsed e).1 = false.
Proof.
  unfold apply. destruct (ke_markets (ev_state e) !! Z.to_nat idx) as [m|]; [|done].
  destruct (apply_to_market ok m parsed) as [r m']. cbn. intros H. by rewrite (bool_decide_eq_false_2 _ H), andb_false_r.
Qed.

Lemma synchronized_by_application ok m parsed : sync_of m ≠ kSYNCHRONIZED →
  sync_of (apply_to_market ok m parsed).2 = kSYNCHRONIZED →
  is_book_message parsed && bool_decide (ar_disposition (apply_to_market ok m parsed).1 = kAPPLIED) = true.
Proof.
  intros Hm. destruct parsed as [|e|e|e|]; cbn [apply_to_market is_book_message andb]; try done.
  - unfold apply_snapshot, reject_snapshot. destruct (set_index_grid ok _) as [[] b]; [|by cbn].
    destruct (install_levels b (bk_bids b) (se_bids e)); [|by cbn]. by destruct (install_levels _ _ (se_asks e)).
  - unfold apply_delta. unfold sync_of in *. by destruct (bk_sync_state (km_book m)) eqn:E; cbn; rewrite ?E.
Qed.

(** Without a book update, only the loss of the event changes a view. *)
Lemma unchanged_views ok idx parsed e r e' : 0 ≤ idx → apply ok idx parsed e = (r, e') → er_book_changed r = false →
  er_book_sync_transition r ≠ kBECAME_UNUSABLE → ∀ j, pair_view j e' = pair_view j e.
Proof.
  intros Hi Ha Hc Ht j. pose proof (apply_outcome ok idx parsed e) as Ho. rewrite Ha in Ho. destruct Ho as (-> & Et & _ & Hb).
  pose proof (exec_change (OpApply ok idx parsed) e Hi) as Hch. pose proof (exec_spec (OpApply ok idx parsed) e) as Hx.
  cbn [op_index] in *. set (op := OpApply ok idx parsed) in *. destruct (markets_of e !! Z.to_nat idx) as [m|] eqn:Hm.
  2:{ apply (ch_silent _ _ _ _ Hch). cbn [op_index op]. by rewrite Hm. }
  destruct (announces op m) eqn:Han.
  2:{ apply (ch_silent _ _ _ _ Hch). cbn [op_index op]. by rewrite Hm. }
  destruct Hx as (Hms & _ & [Htr Hnone]). rewrite Et in Ht. rewrite Hc in Hb. cbn [announces op] in Han.
  rewrite <- Hb in Han. cbn [orb] in Han. guards.
  assert (sync_of m ≠ kSYNCHRONIZED ∧ sync_of (market_step op m) ≠ kSYNCHRONIZED) as [H1 H2].
  { assert (sync_of m ≠ kSYNCHRONIZED) as H1.
    { intros E. destruct (apply_to_market_sync ok m parsed) as [Htr2 _].
      change (apply_to_market ok m parsed).2 with (market_step op m) in Htr2. rewrite E in Htr, Htr2.
      destruct (sync_of (market_step op m)); cbn [transition_between] in Htr, Htr2; congruence. }
    split; [done|]. intros E. rewrite (synchronized_by_application ok m parsed) in Hb by done. done. }
  rewrite !pair_view_unusable; [done|..]; apply not_true_iff_false; intros [_ Hu]%event_usable_spec.
  - apply H1, Hu. by eapply list_elem_of_lookup_2.
  - apply H2, Hu. rewrite Hms. apply list_elem_of_lookup. exists (Z.to_nat idx). apply list_lookup_insert_eq.
    by eapply lookup_lt_Some.
Qed.

Section Strategy.
Context {Q : Type → Type} `{!PushQueue Q} `{!PushQueueLaws Q} {SJ : SimdJson}.
Variable clk : nat → Z.
Variable pools : nat → Pool.FramePool.
Variable allocs : nat → bool.
Implicit Types s : ShardState (Q := Q).

Definition told s : list ShardToStrategyMessage := q_sent (sh_shard_to_strategy_queue s).

(** Universes that can be installed: a new version, distinct events, no book in use yet. *)
Definition wf_install (c : InstallShardUniverse) : Prop :=
  0 ≤ is_universe_version c ∧ NoDup (ke_event_id <$> is_events c) ∧
  Forall (λ e, event_usable (make_event e) = false) (is_events c) ∧
  Z.of_nat (length (all_markets (initialize (is_events c)))) ≤ U64_MAX.
Definition wf_command (c : option ControlToShardCommand) : Prop :=
  match c with Some (CsInstall i) => wf_install i | _ => True end.
(** Market indices are unsigned. *)
Definition wf_message (m : option MarketDataPathMessage) : Prop :=
  match m with
  | Some (MsgFrame h) => 0 ≤ fh_event_market_index h
  | Some (MsgMarketBarrier b) => 0 ≤ mb_event_market_index b
  | _ => True
  end.

(** Strategies know the current views, except perhaps of the pairs in [X]. *)
Record Inv (X : Z → Z → Prop) s : Prop := {
  inv_view : sh_strategy_publication_faulted s = false → ∀ k e idx, sh_event_store s !! k = Some e → 0 ≤ idx →
    ¬ X (event_id e) idx → last_view (sh_installed_universe_version s) (event_id e) idx (told s) = pair_view idx e;
  inv_versions : ∀ o, ObservedPair o ∈ told s → po_universe_version o ≤ sh_installed_universe_version s;
  inv_ids : NoDup (event_id <$> sh_event_store s);
  inv_fresh : sh_run_state s = kUNINSTALLED → sh_installed_universe_version s = 0;
  inv_count : Z.of_nat (length (all_markets (sh_event_store s))) ≤ U64_MAX;
  inv_commands : Forall wf_command (sh_control_to_shard_queue s);
  inv_messages : Forall wf_message (sh_router_to_shard_queue s);
}.
Definition nowhere (id idx : Z) : Prop := False.

(** ** What does not concern strategies *)

Definition picture s : EventStore * list ShardToStrategyMessage * bool * Z :=
  (sh_event_store s, told s, sh_strategy_publication_faulted s, sh_installed_universe_version s).

Definition calm s s' : Prop :=
  picture s' = picture s ∧ (sh_run_state s' = kUNINSTALLED → sh_run_state s = kUNINSTALLED) ∧
  sh_control_to_shard_queue s' `suffix_of` sh_control_to_shard_queue s ∧
  sh_router_to_shard_queue s' `suffix_of` sh_router_to_shard_queue s.

#[local] Instance calm_preorder : PreOrder calm.
Proof.
  split; [intros s; by split_and!|]. intros s1 s2 s3 (H1 & H2 & H3 & H4) (H1' & H2' & H3' & H4').
  split_and!; [congruence|auto|by etrans|by etrans].
Qed.

Lemma Inv_calm X s s' : calm s s' → Inv X s → Inv X s'.
Proof.
  intros (Hp & Hr & [l1 H1] & [l2 H2]) [V1 V2 V3 V4 V5 V6 V7]. unfold picture in Hp. injection Hp as E1 E2 E3 E4.
  split; rewrite ?E1, ?E2, ?E3, ?E4; try done.
  - intros ?%Hr. by apply V4.
  - rewrite H1 in V6. by apply Forall_app in V6 as [_ V6].
  - rewrite H2 in V7. by apply Forall_app in V7 as [_ V7].
Qed.

Lemma Inv_mono (X Y : Z → Z → Prop) s : (∀ id idx, 0 ≤ idx → X id idx → Y id idx) → Inv X s → Inv Y s.
Proof. intros H [V1 V2 V3 V4 V5 V6 V7]. split; try done. intros Hf k e idx He Hi Hn. eapply V1; eauto. Qed.

Lemma Inv_faulted X s : sh_strategy_publication_faulted s = true → Inv X s → Inv nowhere s.
Proof. intros H [V1 V2 V3 V4 V5 V6 V7]. split; try done. congruence. Qed.

Lemma wp_shard_calm {A} (m : M ShardState A) X s : rel calm m → Inv X s → wp m (λ _ s', Inv X s') s.
Proof. intros Hm Hs. eapply wp_rel; [exact Hm|]. intros _ s' Hc. by eapply Inv_calm. Qed.

Lemma Inv_stat X f s : Inv X s → Inv X (s ⟪ sh_stats ::= f ⟫).
Proof. apply Inv_calm. by split_and!. Qed.

Lemma calm_facts s s' : calm s s' → sh_event_store s' = sh_event_store s ∧
  sh_installed_universe_version s' = sh_installed_universe_version s ∧
  sh_strategy_publication_faulted s' = sh_strategy_publication_faulted s.
Proof. intros (Hp & _). unfold picture in Hp. by simplify_eq. Qed.

Lemma push_calm {T} (get : ShardState (Q := Q) → Q T) (put : Q T → ShardState → ShardState) (x : T) :
  (∀ q s, calm s (put q s)) → rel calm (λ s, let '(b, q) := q_push x (get s) in (b, put q s)).
Proof. intros H s. destruct (q_push x (get s)) as [b q]. apply H. Qed.

Lemma modify_calm (f : ShardState (Q := Q) → ShardState) :
  (∀ s, picture (f s) = picture s ∧ (sh_run_state (f s) = kUNINSTALLED → sh_run_state s = kUNINSTALLED) ∧
    sh_control_to_shard_queue (f s) = sh_control_to_shard_queue s ∧ sh_router_to_shard_queue (f s) = sh_router_to_shard_queue s) →
  rel calm (modify f).
Proof. intros H s. cbn. destruct (H s) as (H1 & H2 & H3 & H4). split_and!; [done|done|by rewrite H3|by rewrite H4]. Qed.
Hint Extern 3 (rel calm (modify _)) => (apply modify_calm; intros ?; split_and!; done) : frame.

Lemma send_control_calm m : rel calm (send_control_message m).
Proof. apply push_calm. by intros; split_and!. Qed.
Lemma push_logger_calm m : rel calm (push_logger m).
Proof. apply push_calm. by intros; split_and!. Qed.
Lemma push_recycle_calm m : rel calm (push_recycle m).
Proof. apply push_calm. by intros; split_and!. Qed.
Lemma now_calm : rel calm (monotonic_now_ns clk).
Proof. intros s. by split_and!. Qed.
Lemma stat_calm f : rel calm (stat f).
Proof. intros s. by split_and!. Qed.
Lemma pop_message_calm : rel calm pop_message.
Proof.
  intros s. unfold pop_message. destruct (sh_router_to_shard_queue s) as [|x q] eqn:E; [by split_and!|].
  split_and!; try done. cbn. rewrite E. by exists [x].
Qed.
Lemma pop_command_calm : rel calm pop_command.
Proof.
  intros s. unfold pop_command. destruct (sh_control_to_shard_queue s) as [|x q] eqn:E; [by split_and!|].
  split_and!; try done. cbn. rewrite E. by exists [x].
Qed.
Hint Resolve send_control_calm push_logger_calm push_recycle_calm now_calm stat_calm pop_message_calm pop_command_calm : frame.

Lemma fault_calm v r : rel calm (fault_shard v r).
Proof. unfold fault_shard. rel_auto. Qed.
Lemma send_or_defer_calm m : rel calm (send_or_defer_recovery_status m).
Proof. unfold send_or_defer_recovery_status. rel_auto. Qed.
Hint Resolve fault_calm send_or_defer_calm : frame.
Lemma report_calm v i sid sq m e r : rel calm (report_market_recovery_required v i sid sq m e r).
Proof. unfold report_market_recovery_required. rel_auto. Qed.
Lemma shard_handoff_calm h : rel calm (terminal_handoff clk h).
Proof. unfold terminal_handoff. rel_auto. Qed.
Hint Resolve report_calm shard_handoff_calm : frame.
Lemma finish_calm h r : rel calm (finish_frame clk h r).
Proof. unfold finish_frame. rel_auto. Qed.
Lemma account_calm r : rel calm (account_invalidation_result r).
Proof. unfold account_invalidation_result. rel_auto. Qed.
Lemma account_transition_calm t : rel calm (account_transition t).
Proof. unfold account_transition. rel_auto. Qed.
Lemma lost_calm h r w res : rel calm (report_lost_contents h r w res).
Proof. unfold report_lost_contents, fresh_incident. rel_auto. Qed.
Lemma recovery_snapshot_calm h t : rel calm (report_recovery_snapshot h t).
Proof. unfold report_recovery_snapshot. rel_auto. Qed.
Lemma reject_barrier_calm m r : rel calm (reject_barrier m r).
Proof. unfold reject_barrier. rel_auto. Qed.
Lemma flush_calm : rel calm flush_pending_recovery_status.
Proof. unfold flush_pending_recovery_status. rel_auto. Qed.
Lemma telemetry_calm : rel calm (maybe_send_telemetry clk).
Proof. unfold maybe_send_telemetry. rel_auto. Qed.
Lemma matches_calm v i : rel calm (command_matches_shard v i).
Proof. unfold command_matches_shard. rel_auto. Qed.
Lemma require_calm st v r : rel calm (require_run_state st v r).
Proof. unfold require_run_state. rel_auto. Qed.
Hint Resolve finish_calm account_calm account_transition_calm lost_calm recovery_snapshot_calm reject_barrier_calm
  flush_calm telemetry_calm matches_calm require_calm : frame.
Lemma lifecycle_calm c : match c with CsInstall _ => True | _ => rel calm (handle_operator_command c) end.
Proof. destruct c; [done|..]; cbn; unfold handle_prepare_stop, handle_drain, handle_resume; rel_auto. Qed.

(** ** Publication *)

Lemma last_view_snoc v id idx l m : last_view v id idx (l ++ [m]) = hear v id idx (last_view v id idx l) m.
Proof. unfold last_view. by rewrite foldl_snoc. Qed.

(** All that publishing a message changes. *)
Definition published (m : ShardToStrategyMessage) (b : bool) s s' : Prop :=
  sh_event_store s' = sh_event_store s ∧ sh_installed_universe_version s' = sh_installed_universe_version s ∧
  sh_run_state s' = sh_run_state s ∧ sh_control_to_shard_queue s' = sh_control_to_shard_queue s ∧
  sh_router_to_shard_queue s' = sh_router_to_shard_queue s ∧
  if b then told s' = told s ++ [m] ∧ sh_strategy_publication_faulted s = false
  else told s' = told s ∧ sh_strategy_publication_faulted s' = true.

Lemma publish_spec m s : wp (publish_strategy_message m) (λ b s', published m b s s') s.
Proof.
  unfold publish_strategy_message. wp_step. wp_step. destruct (sh_strategy_publication_faulted s) eqn:Ef.
  { wp_step. unfold wp, published. cbn. by rewrite Ef. }
  wp_step. unfold push_strategy, wp at 1. pose proof (push_out (sh_shard_to_strategy_queue s) m) as Hp.
  destruct (q_push m (sh_shard_to_strategy_queue s)) as [[] q]; cbn in Hp |- *;
    rewrite ?app_nil_r in Hp; unfold wp, published, told, mbind, M_bind; by cbn.
Qed.

Lemma not_published X m s s' : published m false s s' → Inv X s → Inv nowhere s'.
Proof.
  intros (E1 & E2 & E3 & E4 & E5 & E6 & E7) [V1 V2 V3 V4 V5 V6 V7].
  apply (Inv_faulted X); [done|]. split; rewrite ?E1, ?E2, ?E3, ?E4, ?E5, ?E6; try done. congruence.
Qed.

(** Publishing [m] makes the views it concerns current. *)
Lemma published_Inv X Y m s s' : published m true s s' → Inv X s →
  (∀ o, m = ObservedPair o → po_universe_version o ≤ sh_installed_universe_version s) →
  (∀ k e idx, sh_event_store s !! k = Some e → 0 ≤ idx → ¬ Y (event_id e) idx →
     let before := last_view (sh_installed_universe_version s) (event_id e) idx (told s) in
     let after := hear (sh_installed_universe_version s) (event_id e) idx before m in
     (¬ X (event_id e) idx ∧ after = before) ∨ after = pair_view idx e) →
  Inv Y s'.
Proof.
  intros (E1 & E2 & E3 & E4 & E5 & E6 & E7) [V1 V2 V3 V4 V5 V6 V7] Hv HY.
  split; rewrite ?E1, ?E2, ?E3, ?E4, ?E5, ?E6; try done.
  - intros _ k e idx Hk Hi Hn. rewrite last_view_snoc. destruct (HY k e idx Hk Hi Hn) as [[HX ->]| ->]; [|done]. by apply V1 with k.
  - intros o [Ho|Ho%list_elem_of_singleton]%elem_of_app; [by apply V2|by apply Hv].
Qed.

Lemma same_event s k k' e e' : NoDup (event_id <$> sh_event_store s) → sh_event_store s !! k = Some e →
  sh_event_store s !! k' = Some e' → event_id e = event_id e' → e = e'.
Proof.
  intros Hnd H H' E. assert (k = k') as ->; [|congruence].
  eapply (NoDup_lookup _ _ _ (event_id e)); [exact Hnd| |]; rewrite list_lookup_fmap;
    [exact (f_equal (fmap event_id) H)|rewrite E; exact (f_equal (fmap event_id) H')].
Qed.

Definition kept s s' : Prop :=
  sh_event_store s' = sh_event_store s ∧ sh_installed_universe_version s' = sh_installed_universe_version s.

Lemma event_unavailable_Inv X v id mid rev s : Inv X s → v = sh_installed_universe_version s →
  (∀ k e, sh_event_store s !! k = Some e → event_id e = id → event_usable e = false) →
  wp (publish_event_unavailable v id mid rev) (λ _ s', Inv (λ i j, X i j ∧ i ≠ id) s' ∧ kept s s') s.
Proof.
  intros Hs -> Hu. unfold publish_event_unavailable. wp_steps. eapply wp_mono; [apply publish_spec|]. cbv beta. intros [] s' Hp; wp_steps.
  - split; [|by destruct Hp as (? & ? & _)]. eapply published_Inv; [exact Hp|exact Hs|done|]. intros k e idx Hk Hi Hn. cbn.
    rewrite Z.eqb_refl. cbn. destruct (Z.eqb_spec id (event_id e)) as [E|E].
    + right. symmetry. apply pair_view_unusable. by eapply Hu.
    + left. split; [|done]. intros HX. by apply Hn.
  - split; [|by destruct Hp as (? & ? & _)]. eapply Inv_mono; [|by eapply not_published]. by intros ? ? _ [].
Qed.

Lemma shard_unavailable_Inv X v s : Inv X s → v = sh_installed_universe_version s →
  (∀ k e, sh_event_store s !! k = Some e → event_usable e = false) →
  wp (publish_shard_unavailable v) (λ _ s', Inv nowhere s') s.
Proof.
  intros Hs -> Hu. unfold publish_shard_unavailable. wp_steps. eapply wp_mono; [apply publish_spec|]. cbv beta. intros [] s' Hp; wp_steps.
  - eapply published_Inv; [exact Hp|exact Hs|done|]. intros k e idx Hk Hi Hn. cbn. rewrite Z.eqb_refl. right. symmetry.
    apply pair_view_unusable. by eapply Hu.
  - by eapply not_published.
Qed.

Lemma projection_failed_Inv X s : Inv X s → wp projection_failed (λ _ s', Inv nowhere s') s.
Proof.
  intros Hs. unfold projection_failed. wp_step. eapply wp_mono; [apply (wp_shard_calm _ X); [rel_auto|done]|].
  cbv beta. intros _ s' Hs'. wp_steps. apply (Inv_faulted X); [done|]. destruct Hs' as [V1 V2 V3 V4 V5 V6 V7]. by split.
Qed.

Lemma publish_pair_Inv X event handle t idx k s : Inv X s → sh_event_store s !! k = Some event →
  fh_universe_version handle = sh_installed_universe_version s →
  wp (publish_pair clk event handle t idx)
    (λ b s', kept s s' ∧ Inv (if b then λ i j, X i j ∧ ¬ (i = event_id event ∧ j = idx) else nowhere) s') s.
Proof.
  intros Hs Hk Hv. unfold publish_pair. wp_steps. unfold monotonic_now_ns at 1, wp at 1. cbn [fst snd].
  set (s1 := s ⟪ sh_clock_reads ::= S ⟫). assert (Inv X s1) as Hs1 by (eapply Inv_calm; [apply (now_calm s)|done]).
  match goal with |- context [build_monotonic_pair_observation idx ?c event] => set (ctx := c) end.
  pose proof (build_view idx ctx event) as Hb. destruct (build_monotonic_pair_observation idx ctx event) as [o|] eqn:Eo.
  - apply build_identity in Eo as (Ev & Eid & Eidx). cbn in Ev. eapply wp_mono; [apply publish_spec|]. cbv beta. intros b s' Hp.
    split; [destruct Hp as (E1 & E2 & _); by split|]. destruct b; [|by eapply not_published].
    eapply published_Inv; [exact Hp|exact Hs1|intros ? [= <-]; rewrite Ev, Hv; done|]. intros k' e j Hk' Hj Hn. cbn.
    rewrite Ev, Hv, Z.eqb_refl, Eid, Eidx. cbn [andb].
    destruct (Z.eqb_spec (event_id event) (event_id e)) as [E|E]; cbn [andb].
    + destruct (Z.eqb_spec idx j) as [<-|Ej].
      * right. assert (event = e) as <- by (eapply (same_event s1); [apply Hs1|exact Hk|exact Hk'|done]). by rewrite <- Hb.
      * left. split; [|done]. intros HX. apply Hn. split; [done|]. by intros [_ ->].
    + left. split; [|done]. intros HX. apply Hn. split; [done|]. intros [? _]. congruence.
  - wp_step. eapply wp_mono; [apply wp_and; [apply (projection_failed_Inv X); exact Hs1|apply (wp_rel (same (λ s, (sh_event_store s, sh_installed_universe_version s)))); [|exact (λ a s' H, H)]]|].
    { unfold projection_failed. intros ?. done. }
    cbv beta. intros _ s' [Hs' Hsame]. wp_step. unfold same in Hsame. injection Hsame as H1 H2. split; [|done]. by split.
Qed.

Lemma publish_pairs_Inv X event handle t idxs k s : Inv X s → sh_event_store s !! k = Some event →
  fh_universe_version handle = sh_installed_universe_version s →
  wp (publish_pairs clk event handle t idxs) (λ _ s', Inv (λ i j, X i j ∧ ¬ (i = event_id event ∧ j ∈ idxs)) s') s.
Proof.
  revert X s. induction idxs as [|idx idxs IH]; intros X s Hs Hk Hv; cbn [publish_pairs].
  - wp_step. eapply Inv_mono; [|exact Hs]. intros i j _ HX. split; [done|]. intros [_ H]. by apply elem_of_nil in H.
  - wp_step. eapply wp_mono; [by apply (publish_pair_Inv X event handle t idx k)|]. cbv beta. intros [] s' [[E1 E2] Hs'].
    + eapply wp_mono; [apply (IH _ s' Hs'); by rewrite ?E1, ?E2|]. cbv beta. intros _ s2. apply Inv_mono.
      intros i j _ [[HX H1] H2]. split; [done|]. intros [-> [->|Hj]%elem_of_cons]; [by apply H1|by apply H2].
    + wp_step. eapply Inv_mono; [|exact Hs']. by intros ? ? _ [].
Qed.

(** The pairs an update of market [c] of a usable chain makes the shard publish. *)
Definition covered (event : EventState) (became_usable : bool) (c j : Z) : Prop :=
  event_usable event = true ∧ ke_topology (ev_state event) = kMONOTONIC_CHAIN ∧
  j + 1 < Z.of_nat (length (markets_of event)) ∧ (became_usable = true ∨ j + 1 = c ∨ j = c).

Lemma publish_affected_Inv X event handle r t s : Inv X s →
  get_event (sh_event_store s) (fh_shard_event_index handle) = Some event →
  fh_universe_version handle = sh_installed_universe_version s → fh_topology handle = ke_topology (ev_state event) →
  er_book_changed r = true →
  (∀ i j, 0 ≤ j → X i j → i = event_id event ∧ covered event (er_event_became_usable r) (fh_event_market_index handle) j) →
  wp (publish_affected_pairs clk handle r t) (λ _ s', Inv nowhere s') s.
Proof.
  intros Hs Hk Hv Ht Hc HX. unfold publish_affected_pairs. wp_steps. rewrite Hc, Ht. cbn [negb]. rewrite orb_false_r.
  destruct (sh_strategy_publication_faulted s) eqn:Ef; cbn [orb]; [wp_step; by apply (Inv_faulted X)|].
  destruct (bool_decide (ke_topology (ev_state event) = kMONOTONIC_CHAIN)) eqn:Etop; cbn [negb]; guards.
  2:{ wp_step. eapply Inv_mono; [|exact Hs]. intros i j Hj [_ (_ & ? & _)]%HX; done. }
  wp_steps. rewrite Hk. destruct (event_usable event) eqn:Eu; cbn [negb].
  2:{ wp_step. eapply Inv_mono; [|exact Hs]. intros i j Hj [_ (? & _)]%HX; congruence. }
  cbv zeta. fold (markets_of event). unfold get_event in Hk. set (n := Z.of_nat (length (markets_of event))) in *.
  destruct (er_event_became_usable r).
  - eapply wp_mono; [by eapply (publish_pairs_Inv X)|]. cbv beta. intros _ s'. apply Inv_mono. intros i j Hj [HXj Hn].
    apply HX in HXj as [-> (_ & _ & Hlt & _)]; [|done]. apply Hn. split; [done|]. apply elem_of_seqZ. fold n in Hlt. lia.
  - set (c := fh_event_market_index handle) in *. wp_step.
    set (Φ := λ (b : bool) s', kept s s' ∧ Inv (if b then λ i j, X i j ∧ ¬ (i = event_id event ∧ j = c - 1) else nowhere) s').
    assert (wp (if 0 <? c then publish_pair clk event handle t (c - 1) else mret true) Φ s) as Hfirst.
    { destruct (Z.ltb_spec 0 c); [by eapply publish_pair_Inv|]. wp_step. split; [done|]. eapply Inv_mono; [|exact Hs].
      intros i j Hj HXj. split; [done|]. lia. }
    eapply wp_mono; [exact Hfirst|]. cbv beta. intros [] s' [[E1 E2] Hs']; [|by wp_step].
    destruct (Z.ltb_spec (c + 1) n).
    + wp_step. eapply wp_mono; [eapply publish_pair_Inv; [exact Hs'|by rewrite E1|by rewrite E2]|]. cbv beta.
      intros [] s2 [_ Hs2]; wp_step; [|done]. eapply Inv_mono; [|exact Hs2]. intros i j Hj [[HXj H1] H2].
      apply HX in HXj as [-> (_ & _ & _ & [?|[?|?]])]; [done|apply H1; split; [done|lia]|apply H2; done|done].
    + wp_step. eapply Inv_mono; [|exact Hs']. intros i j Hj [HXj H1].
      apply HX in HXj as [-> (_ & _ & Hlt & [?|[?|?]])]; [done|apply H1; split; [done|lia]|fold n in Hlt; lia|done].
Qed.

(** ** Changing an event *)

Definition changed (e e' : EventState) (i j : Z) : Prop := i = event_id e ∧ pair_view j e' ≠ pair_view j e.

Lemma all_markets_insert (store : list EventState) k e e' : store !! k = Some e →
  length (markets_of e') = length (markets_of e) →
  length (all_markets (<[k := e']> store)) = length (all_markets store).
Proof.
  unfold all_markets. revert k. induction store as [|x store IH]; intros [|k] Hk Hl; try done; cbn in Hk |- *;
    rewrite !length_app; [by simplify_eq; rewrite Hl|f_equal; by apply IH].
Qed.

Lemma set_event_Inv k e e' s : Inv nowhere s → sh_event_store s !! k = Some e → event_id e' = event_id e →
  length (markets_of e') = length (markets_of e) →
  Inv (changed e e') (s ⟪ sh_event_store := <[k := e']> (sh_event_store s) ⟫).
Proof.
  intros [V1 V2 V3 V4 V5 V6 V7] Hk Hid Hl. split; cbn; try done.
  - intros Hf k' x j Hx Hj Hn. destruct (decide (k' = k)) as [->|Hne].
    + rewrite list_lookup_insert_eq in Hx by (by eapply lookup_lt_Some). simplify_eq. rewrite Hid.
      transitivity (pair_view j e); [apply (V1 Hf k); [done|done|by intros []]|]. apply dec_stable. intros H. apply Hn. split; [done|]. by intros ?%symmetry.
    + rewrite list_lookup_insert_ne in Hx by done. apply (V1 Hf k'); [done|done|by intros []].
  - rewrite list_fmap_insert, Hid, list_insert_id; [done|]. rewrite list_lookup_fmap. exact (f_equal (fmap event_id) Hk).
  - change (Z.of_nat (length (all_markets (<[k := e']> (sh_event_store s)))) ≤ U64_MAX). by rewrite (all_markets_insert _ k e e').
Qed.

(** After an operation with transition [t] on event [id]: only the loss of the event is
    still to be announced, and then the event is unusable. *)
Definition Pending (t : BookSyncTransition) (id v : Z) s : Prop :=
  v = sh_installed_universe_version s ∧
  if bool_decide (t = kBECAME_UNUSABLE) then
    Inv (λ i _, i = id) s ∧ ∀ k e, sh_event_store s !! k = Some e → event_id e = id → event_usable e = false
  else Inv nowhere s.

Lemma Pending_calm t id v s s' : calm s s' → Pending t id v s → Pending t id v s'.
Proof.
  intros Hc. pose proof (calm_facts s s' Hc) as (E1 & E2 & _). unfold Pending. rewrite E1, E2. intros [Hv H]. split; [done|].
  destruct (bool_decide _); [destruct H; split; [by eapply Inv_calm|done]|by eapply Inv_calm].
Qed.

Lemma wp_Pending {A} (m : M ShardState A) t id v s : rel calm m → Pending t id v s → wp m (λ _ s', Pending t id v s') s.
Proof. intros Hm Hs. eapply wp_rel; [exact Hm|]. intros _ s' Hc. by eapply Pending_calm. Qed.

Lemma announce_Inv t id v mid rev s : Pending t id v s →
  wp (when (bool_decide (t = kBECAME_UNUSABLE)) (publish_event_unavailable v id mid rev)) (λ _ s', Inv nowhere s') s.
Proof.
  unfold Pending. intros [Hv H]. destruct (bool_decide (t = kBECAME_UNUSABLE)); cbn [when]; [|by wp_step].
  destruct H as [Hs Hu]. eapply wp_mono; [by apply (event_unavailable_Inv (λ i _, i = id))|]. cbv beta. intros _ s' [H _].
  eapply Inv_mono; [|exact H]. by intros i j _ [].
Qed.

(** An operation that only ever makes an event unusable. *)
Lemma lost_Pending op k e s : Inv nowhere s → sh_event_store s !! k = Some e → 0 ≤ op_index op →
  (Event.exec op e).1 ≠ kBECAME_UNUSABLE ∧ (∀ j, pair_view j (Event.exec op e).2 = pair_view j e)
    ∨ (Event.exec op e).1 = kBECAME_UNUSABLE →
  Pending (Event.exec op e).1 (event_id e) (sh_installed_universe_version s)
    (s ⟪ sh_event_store := <[k := (Event.exec op e).2]> (sh_event_store s) ⟫).
Proof.
  intros Hs Hk Hi Hch. pose proof (exec_change op e Hi) as H. destruct (Event.exec op e) as [t e']. cbn [fst snd] in *.
  assert (Inv (changed e e') (s ⟪ sh_event_store := <[k := e']> (sh_event_store s) ⟫)) as Hs'
    by (apply set_event_Inv; [done|done|apply H|apply H]).
  split; [done|]. destruct Hch as [[Ht Hsame]|Ht].
  - rewrite bool_decide_eq_false_2 by done. eapply Inv_mono; [|exact Hs']. intros i j _ [_ Hne]. by apply Hne.
  - rewrite bool_decide_eq_true_2 by done. split; [eapply Inv_mono; [|exact Hs']; by intros i j _ [-> _]|].
    assert (∀ x, event_id x = event_id e → sh_event_store (s ⟪ sh_event_store := <[k := e']> (sh_event_store s) ⟫) !! k = Some e') as Hk'
      by (intros; cbn; apply list_lookup_insert_eq; by eapply lookup_lt_Some).
    intros k' x Hx Hid. assert (e' = x) as <-; [|by apply (ch_unusable _ _ _ _ H)].
    eapply same_event; [apply Hs'|by eapply Hk'|exact Hx|]. rewrite (ch_id _ _ _ _ H). done.
Qed.

Lemma invalidate_views idx reason e : 0 ≤ idx → (Event.exec (OpInvalidate idx reason) e).1 ≠ kBECAME_UNUSABLE →
  ∀ j, pair_view j (Event.exec (OpInvalidate idx reason) e).2 = pair_view j e.
Proof.
  intros Hi Ht j. pose proof (exec_change (OpInvalidate idx reason) e Hi) as Hch. set (op := OpInvalidate idx reason) in *.
  pose proof (exec_spec op e) as Hx. change (op_index op) with idx in *.
  destruct (markets_of e !! Z.to_nat idx) as [m|] eqn:Hm; [|by rewrite Hx]. destruct Hx as (Hms & _ & [Htr _]).
  destruct (announces op m) eqn:Ha; [|apply (ch_silent _ _ _ _ Hch); by change (op_index op) with idx; rewrite Hm].
  assert (sync_of (market_step op m) = kAWAITING_RECOVERY_SNAPSHOT) as Haw by (cbn; by case_bool_decide).
  assert (sync_of m ≠ kSYNCHRONIZED) as Hns by (intros E; rewrite Haw, E in Htr; done).
  assert (∀ x, (∃ y, y ∈ markets_of x ∧ sync_of y ≠ kSYNCHRONIZED) → event_usable x = false) as Hun.
  { intros x (y & Hy & Hne). apply not_true_iff_false. intros [_ H]%event_usable_spec. by apply Hne, H. }
  rewrite !pair_view_unusable; [done|apply Hun..].
  - exists m. split; [by eapply list_elem_of_lookup_2|done].
  - exists (market_step op m). split; [|by rewrite Haw]. rewrite Hms. apply list_elem_of_lookup. exists (Z.to_nat idx).
    apply list_lookup_insert_eq. by eapply lookup_lt_Some.
Qed.

Lemma invalidate_Pending sei emi mid reason e s : Inv nowhere s → 0 ≤ emi → get_event (sh_event_store s) sei = Some e →
  wp (invalidate_in_store sei emi mid reason)
    (λ r s', Pending (ir_book_sync_transition r) (event_id e) (sh_installed_universe_version s) s') s.
Proof.
  intros Hs Hi Hk. unfold wp, invalidate_in_store, store_invalidate_market. unfold get_event in Hk. rewrite Hk.
  assert (Pending kTRANSITION_NONE (event_id e) (sh_installed_universe_version s) (s ⟪ sh_event_store := sh_event_store s ⟫)) as Hno.
  { split; [done|]. cbn. eapply Inv_calm; [|exact Hs]. by split_and!. }
  destruct (get_market e emi) as [m|]; [|done]. destruct (negb (km_market_id m =? mid)); [done|].
  pose proof (lost_Pending (OpInvalidate emi reason) _ e s Hs Hk Hi) as H.
  pose proof (invalidate_views emi reason e Hi) as Hv. cbn [Event.exec] in H, Hv.
  destruct (invalidate_market emi reason e) as [r e']. cbn in H, Hv |- *. apply H.
  destruct (decide (ir_book_sync_transition r = kBECAME_UNUSABLE)); [by right|by left; auto].
Qed.

(** ** Frames *)

Lemma announce_unusable_Inv handle r s : Pending (ir_book_sync_transition r) (fh_event_id handle) (fh_universe_version handle) s →
  wp (announce_unusable handle r) (λ _ s', Inv nowhere s') s.
Proof. apply announce_Inv. Qed.

(** What validation establishes. *)
Record targeted (handle : FrameHandle) (e : EventState) s : Prop := {
  tg_event : get_event (sh_event_store s) (fh_shard_event_index handle) = Some e;
  tg_id : event_id e = fh_event_id handle;
  tg_version : fh_universe_version handle = sh_installed_universe_version s;
  tg_topology : ke_topology (ev_state e) = fh_topology handle;
  tg_market : 0 ≤ fh_event_market_index handle;
}.

Lemma target_mismatch_None handle s : target_mismatch handle s = None → 0 ≤ fh_event_market_index handle →
  ∃ e, targeted handle e s.
Proof.
  unfold target_mismatch. intros H Hi. do 2 (destruct (negb _) eqn:? in H; [done|]). guards.
  destruct (get_event _ _) as [e|] eqn:Hk; [|done]. exists e. do 3 (destruct (negb _) eqn:? in H; [done|]). guards.
  by split.
Qed.

(** An invalidation either announces the loss or is not accepted and loses nothing. *)
Lemma not_accounted r s t id v : Pending t id v s → t = ir_book_sync_transition r →
  wp (account_invalidation_result r)
    (λ b s', Pending t id v s' ∧ (b = false → ir_target_found r = false ∨ t = kINITIAL_SNAPSHOT_INSTALLED ∨ t = kRECOVERED)) s.
Proof.
  intros Hp ->. apply wp_and; [by apply wp_Pending; [rel_auto|]|]. unfold account_invalidation_result.
  destruct (ir_target_found r); cbn [negb]; [|by left]. by destruct (ir_book_sync_transition r); wp_steps; auto.
Qed.

Lemma invalidation_unfound sei emi mid reason s : wp (invalidate_in_store sei emi mid reason)
  (λ r _, ir_target_found r = false → ir_book_sync_transition r = kTRANSITION_NONE) s.
Proof.
  unfold wp, invalidate_in_store, store_invalidate_market. destruct (_ !! _) as [e|]; [|done].
  destruct (get_market e emi) as [m|]; [|done]. destruct (negb (km_market_id m =? mid)); [done|]. unfold invalidate_market.
  by destruct (ke_markets (ev_state e) !! Z.to_nat emi); cbn.
Qed.

(** The common part of the two ways a frame's contents are lost: whatever is not accepted
    leaves nothing to announce. *)
Lemma lost_frame_Inv {A} handle reason e (k : BookInvalidationResult → bool → M ShardState A) Φ s : Inv nowhere s → targeted handle e s →
  (∀ r accounted s', Pending (ir_book_sync_transition r) (fh_event_id handle) (fh_universe_version handle) s' →
     (accounted = false → Inv nowhere s') → wp (k r accounted) Φ s') →
  wp (invalidation ← invalidate_in_store (fh_shard_event_index handle) (fh_event_market_index handle) (fh_market_id handle) reason;
      accounted ← account_invalidation_result invalidation; k invalidation accounted) Φ s.
Proof.
  intros Hs [T1 T2 T3 T4 T5] Hk. wp_step. eapply wp_mono; [apply wp_and; [by apply (invalidate_Pending _ _ _ _ e)|apply invalidation_unfound]|].
  cbv beta. intros r s1 [Hp Hn]. rewrite T2, <- T3 in Hp. wp_step. eapply wp_mono; [by apply not_accounted|]. cbv beta.
  intros b s2 [Hp2 Hb]. apply Hk; [done|]. intros ->. destruct Hp2 as [_ Hp2].
  destruct Hb as [H|[H|H]]; [done|apply Hn in H|..]; by rewrite H in Hp2.
Qed.

Lemma missing_Inv handle e s : Inv nowhere s → targeted handle e s →
  wp (handle_missing_frame clk handle) (λ _ s', Inv nowhere s') s.
Proof.
  intros Hs He. unfold handle_missing_frame. cbv zeta. destruct (is_order_book (fh_kind handle)); [|apply wp_shard_calm; [rel_auto|done]].
  eapply lost_frame_Inv; [done|exact He|]. intros r accounted s1 Hp Hn. wp_step.
  eapply (wp_mono _ (λ _ s', Inv nowhere s')); [destruct accounted; [by apply announce_unusable_Inv|apply wp_shard_calm; [rel_auto|auto]]|].
  cbv beta. intros _ s2 Hs2. apply wp_shard_calm; [rel_auto|done].
Qed.

Lemma parse_failure_Inv handle pr e s : Inv nowhere s → targeted handle e s →
  wp (handle_parse_failure clk handle pr) (λ _ s', Inv nowhere s') s.
Proof.
  intros Hs He. unfold handle_parse_failure. cbv zeta. wp_step. unfold stat. wp_step.
  destruct (is_order_book (fh_kind handle)); [|apply wp_shard_calm; [rel_auto|by apply Inv_stat]].
  eapply lost_frame_Inv; [by apply Inv_stat|by destruct He; split; eauto|]. intros r accounted s1 Hp Hn. wp_step.
  eapply (wp_mono _ (λ _ s', Inv nowhere s')); [|cbv beta; intros ? s2 Hs2; apply wp_shard_calm; [rel_auto|done]].
  destruct accounted; [|apply wp_shard_calm; [rel_auto|auto]]. wp_step. eapply wp_mono; [by apply announce_unusable_Inv|].
  cbv beta. intros _ s2 Hs2. apply wp_shard_calm; [rel_auto|done].
Qed.

(** The state right after a message was applied. *)
Lemma apply_in_store_spec handle parsed e s : Inv nowhere s → targeted handle e s →
  wp (apply_in_store allocs handle parsed) (λ r s1, ∃ e', targeted handle e' s1 ∧ Inv (changed e e') s1 ∧
    (er_disposition r ≠ kAPPLIED → er_book_changed r = false) ∧
    (er_book_sync_transition r = kBECAME_UNUSABLE → event_usable e' = false) ∧
    (er_book_changed r = false → er_book_sync_transition r ≠ kBECAME_UNUSABLE → ∀ j, pair_view j e' = pair_view j e) ∧
    (er_book_sync_transition r ≠ kBECAME_UNUSABLE → ∀ j, 0 ≤ j → pair_view j e' ≠ pair_view j e →
      covered e' (er_event_became_usable r) (fh_event_market_index handle) j)) s.
Proof.
  intros Hs [T1 T2 T3 T4 T5]. unfold wp, apply_in_store, store_apply. unfold get_event in T1. rewrite T1.
  set (ok := allocs (sh_clock_reads s)). set (c := fh_event_market_index handle) in *.
  pose proof (apply_outcome ok c parsed e) as Ho. pose proof (exec_change (OpApply ok c parsed) e T5) as Hch.
  pose proof (unchanged_views ok c parsed e) as Hun. pose proof (changed_by_application ok c parsed e) as Hd.
  destruct (apply ok c parsed e) as [r e']. cbn [fst snd]. destruct Ho as (He' & Et & Eb & _). rewrite <- He', <- Et in Hch.
  exists e'. pose proof Hch as [C1 C2 C3 C4 C5 C6 C7]. split_and!; [|by apply set_event_Inv|done|done|intros; by eapply Hun|].
  - split; [|by rewrite C1|done|by rewrite C2|done]. cbn. unfold get_event. apply list_lookup_insert_eq. by eapply lookup_lt_Some.
  - intros Ht j Hj Hne. assert (event_usable e' = true) as Hu'.
    { apply not_false_iff_true. intros E. apply Hne. rewrite (pair_view_unusable j e') by done. symmetry.
      apply pair_view_unusable, not_true_iff_false. intros Hu. by apply Ht, C4. }
    split_and!; [done| | |].
    + apply dec_stable. intros Hnt. apply Hne. unfold pair_view, build_monotonic_pair_observation.
      rewrite (bool_decide_eq_false_2 _ Hnt), (bool_decide_eq_false_2 (ke_topology (ev_state e) = _)) by congruence. done.
    + destruct (Z.lt_ge_cases (j + 1) (Z.of_nat (length (markets_of e')))) as [|Hge]; [done|]. exfalso. apply Hne.
      rewrite !pair_view_range; [done|rewrite <- C3; lia|lia].
    + rewrite Eb, Hu'. destruct (event_usable e) eqn:Hu; [right|by left].
      destruct (decide (j = c)); [by right|]. destruct (decide (j + 1 = c)); [by left|]. exfalso. by apply Hne, C6.
Qed.

Lemma targeted_calm handle e s s' : calm s s' → targeted handle e s → targeted handle e s'.
Proof. intros Hc [T1 T2 T3 T4 T5]. pose proof (calm_facts s s' Hc) as (E1 & E2 & _). split; by rewrite ?E1, ?E2. Qed.

Lemma targeted_kept handle e s s' : kept s s' → targeted handle e s → targeted handle e s'.
Proof. intros [E1 E2] [T1 T2 T3 T4 T5]. split; by rewrite ?E1, ?E2. Qed.

(** Publishing the pairs of an applied update settles what is still open. *)
Lemma affected_Inv X handle r t e s : targeted handle e s → Inv X s → (er_book_changed r = false → Inv nowhere s) →
  (∀ i j, 0 ≤ j → X i j → i = event_id e ∧ covered e (er_event_became_usable r) (fh_event_market_index handle) j) →
  wp (when (er_book_changed r) (publish_affected_pairs clk handle r t)) (λ _ s', Inv nowhere s') s.
Proof.
  intros [T1 T2 T3 T4 T5] Hs Hn HX. destruct (er_book_changed r) eqn:Ec; cbn [when]; [|wp_step; auto].
  by eapply (publish_affected_Inv X e).
Qed.

Lemma announce_or_cover handle r e e' s : targeted handle e' s → Inv (changed e e') s → event_id e = fh_event_id handle →
  (er_book_sync_transition r = kBECAME_UNUSABLE → event_usable e' = false) →
  (er_book_changed r = false → er_book_sync_transition r ≠ kBECAME_UNUSABLE → ∀ j, pair_view j e' = pair_view j e) →
  (er_book_sync_transition r ≠ kBECAME_UNUSABLE → ∀ j, 0 ≤ j → pair_view j e' ≠ pair_view j e →
    covered e' (er_event_became_usable r) (fh_event_market_index handle) j) →
  wp (when (bool_decide (er_book_sync_transition r = kBECAME_UNUSABLE))
       (publish_event_unavailable (fh_universe_version handle) (fh_event_id handle) (fh_market_id handle) (er_event_revision r)))
    (λ _ s', targeted handle e' s' ∧ ∃ X, Inv X s' ∧ (er_book_changed r = false → Inv nowhere s') ∧
      (∀ i j, 0 ≤ j → X i j → i = event_id e' ∧ covered e' (er_event_became_usable r) (fh_event_market_index handle) j)) s.
Proof.
  intros Ht Hs Hid Hbecame Hsame Hcov. destruct (bool_decide (er_book_sync_transition r = kBECAME_UNUSABLE)) eqn:Et; guards; cbn [when].
  - eapply wp_mono; [eapply (event_unavailable_Inv (changed e e')); [done|apply Ht|]|].
    { intros k x Hx Hx'. destruct Ht. assert (e' = x) as <-; [|by apply Hbecame]. eapply same_event; [apply Hs|done|done|congruence]. }
    cbv beta. intros _ s' [Hs' Hk]. split; [by eapply targeted_kept|].
    assert (Inv nowhere s') as Hn by (eapply Inv_mono; [|exact Hs']; by intros i j _ [[-> _] Hne]).
    exists nowhere. split_and!; [done|done|by intros ? ? _ []].
  - wp_step. split; [done|]. exists (changed e e'). split_and!; [done| |].
    + intros Hc. eapply Inv_mono; [|exact Hs]. intros i j _ [_ Hne]. by apply Hne, Hsame.
    + intros i j Hj [-> Hne]. split; [destruct Ht; congruence|by apply Hcov].
Qed.

Lemma apply_frame_Inv handle parsed e s : Inv nowhere s → targeted handle e s →
  wp (apply_frame clk allocs handle parsed) (λ _ s', Inv nowhere s') s.
Proof.
  intros Hs He. unfold apply_frame. cbv zeta. wp_step. eapply wp_mono; [by eapply apply_in_store_spec|]. cbv beta.
  intros r s1 (e' & Ht & Hs1 & Hd & Hbecame & Hsame & Hcov).
  wp_step. eapply wp_rel; [apply now_calm|]. intros now s2 H2. wp_step. eapply (wp_rel calm); [rel_auto|]. intros _ s3 H3.
  wp_step. eapply (wp_rel calm); [rel_auto|]. intros _ s4 H4. assert (calm s1 s4) as Hc by (etrans; [exact H2|by etrans]).
  apply (targeted_calm _ _ s1 s4 Hc) in Ht. apply (Inv_calm _ s1 s4 Hc) in Hs1. clear s2 s3 H2 H3 H4 Hc. wp_step.
  eapply wp_mono; [eapply (announce_or_cover _ _ e e'); [done|done|apply He|done..]|].
  cbv beta. intros _ s5 (Ht5 & X & Hs5 & Hn & HX). destruct (er_disposition r) eqn:Ed.
  2,3: wp_step; unfold stat; wp_step; apply wp_shard_calm; [rel_auto|apply Inv_stat, Hn, Hd; congruence].
  wp_step. unfold stat. wp_step. wp_step.
  eapply wp_mono; [eapply (affected_Inv X); [|by apply Inv_stat|by intros ?%Hn; apply Inv_stat|exact HX]|].
  - eapply targeted_kept; [|exact Ht5]; done.
  - cbv beta. intros _ s6 Hs6. apply wp_shard_calm; [rel_auto|done].
Qed.

Lemma frame_Inv handle mode s : Inv nowhere s → 0 ≤ fh_event_market_index handle →
  wp (handle_frame clk pools allocs handle mode) (λ _ s', Inv nowhere s') s.
Proof.
  intros Hs Hi. unfold handle_frame. wp_step. eapply wp_rel; [apply now_calm|]. intros now s1 H1. cbv zeta.
  set (h := handle ⟪ fh_shard_dequeue_ts_ns := now ⟫). assert (0 ≤ fh_event_market_index h) as Hh by done. clearbody h.
  apply (Inv_calm _ s s1 H1) in Hs. clear H1 s Hi handle. wp_step. unfold stat. wp_step. apply (Inv_stat _ (λ t, t ⟪ ss_frames_seen ::= incr ⟫)) in Hs.
  set (s2 := s1 ⟪ sh_stats ::= _ ⟫) in *. clearbody s2. destruct (bool_decide _); [apply wp_shard_calm; [rel_auto|done]|].
  unfold validate_handle_target. wp_step. wp_step. wp_step. destruct (target_mismatch h s2) as [reason|] eqn:Em.
  { wp_step. eapply wp_rel; [apply fault_calm|]. intros _ s3 H3. wp_step. cbn [negb]. apply wp_shard_calm; [rel_auto|by eapply Inv_calm]. }
  wp_step. cbn [negb]. destruct (target_mismatch_None h s2 Em Hh) as [e He]. wp_step. wp_step.
  destruct (Pool.frame _ h) as [frame|]; [|by eapply missing_Inv]. destruct (MarketParser.parse h frame) as [pr parsed].
  destruct (negb (pr_success pr)); [by eapply parse_failure_Inv|by eapply apply_frame_Inv].
Qed.

(** ** Barriers *)

Lemma market_barrier_Inv b s : Inv nowhere s → 0 ≤ mb_event_market_index b →
  wp (handle_market_barrier b) (λ _ s', Inv nowhere s') s.
Proof.
  intros Hs Hi. unfold handle_market_barrier. wp_step. unfold stat. wp_step. apply (Inv_stat _ (λ t, t ⟪ ss_market_barriers_seen ::= incr ⟫)) in Hs.
  set (s1 := s ⟪ sh_stats ::= _ ⟫) in *. clearbody s1. wp_step. wp_step.
  destruct (barrier_mismatch b s1) as [reason|] eqn:Em; [apply wp_shard_calm; [rel_auto|done]|].
  unfold barrier_mismatch in Em. destruct (bool_decide _); [done|]. do 2 (destruct (negb _) eqn:? in Em; [done|]).
  destruct (get_event _ _) as [e|] eqn:Hk; [|done]. destruct (negb _) eqn:? in Em; [done|]. guards. clear Em.
  wp_step. eapply wp_mono; [apply wp_and; [by apply (invalidate_Pending _ _ _ _ e)|apply invalidation_unfound]|]. cbv beta.
  intros r s2 [Hp Hn]. fold (event_id e) in *. replace (event_id e) with (mb_event_id b) in Hp by done.
  replace (sh_installed_universe_version s1) with (mb_universe_version b) in Hp by done.
  destruct (ir_target_found r) eqn:Ef; cbn [negb].
  2:{ rewrite (Hn eq_refl) in Hp. destruct Hp as [_ Hp]. apply wp_shard_calm; [rel_auto|exact Hp]. }
  wp_step. eapply wp_mono; [by apply not_accounted|]. cbv beta. intros [] s3 [Hp3 Hb]; cbn [negb].
  - wp_step. eapply wp_mono; [by apply announce_Inv|]. cbv beta. intros _ s4 Hs4. apply wp_shard_calm; [rel_auto|done].
  - destruct Hp3 as [_ Hp3]. destruct (Hb eq_refl) as [H|[H|H]]; [congruence|..]; rewrite H in Hp3; apply wp_shard_calm; [rel_auto|done|rel_auto|done].
Qed.

(** Invalidating every book leaves no event usable. *)
Lemma all_markets_elem (store : list EventState) k e m : store !! k = Some e → m ∈ markets_of e → m ∈ all_markets store.
Proof.
  intros Hk Hm. unfold all_markets. apply list_elem_of_In, in_concat. exists (markets_of e). split; [|by apply list_elem_of_In].
  apply list_elem_of_In, list_elem_of_fmap. exists e. split; [done|by eapply list_elem_of_lookup_2].
Qed.

Lemma event_unusable_all e : (∀ m, m ∈ markets_of e → sync_of m ≠ kSYNCHRONIZED) → event_usable e = false.
Proof.
  intros H. apply not_true_iff_false. intros [Hnil Hs]%event_usable_spec. destruct (markets_of e) as [|m ms]; [done|].
  apply (H m); [left|apply Hs; left].
Qed.

Lemma invalidate_markets_id idxs reason summary e : event_id (invalidate_markets idxs reason (summary, e)).2 = event_id e.
Proof.
  revert summary e. induction idxs as [|idx idxs IH]; intros summary e; [done|]. cbn.
  destruct (exec_static (OpInvalidate idx reason) e) as (_ & H & _). cbn [Event.exec] in H.
  destruct (invalidate_market idx reason e) as [r e']. rewrite IH. exact H.
Qed.

Lemma store_invalidate_ids reason store summary :
  event_id <$> (store_invalidate_loop reason summary store).2 = event_id <$> store.
Proof.
  revert summary. induction store as [|e store IH]; intros summary; [done|]. cbn. unfold invalidate_all_markets.
  pose proof (invalidate_markets_id (seqZ 0 (Z.of_nat (length (ke_markets (ev_state e))))) reason default_BookInvalidationSummary e) as He.
  destruct (invalidate_markets _ reason _) as [r e']. specialize (IH (add_summary summary r)).
  destruct (store_invalidate_loop reason _ store) as [s' rest]. cbn in *. by rewrite He, IH.
Qed.

Lemma invalidate_all_Inv reason s : Inv nowhere s → wp (invalidate_all_in_store reason) (λ r s',
  sh_installed_universe_version s' = sh_installed_universe_version s ∧
  Inv (if 0 <? is_targets_became_unusable r then λ _ _, True else nowhere) s' ∧
  (∀ k e, sh_event_store s' !! k = Some e → event_usable e = false)) s.
Proof.
  intros [V1 V2 V3 V4 V5 V6 V7]. unfold wp, invalidate_all_in_store, store_invalidate_all_markets.
  pose proof (store_invalidate_ids reason (sh_event_store s) default_BookInvalidationSummary) as Hids.
  destruct (store_invalidate_loop_spec reason (sh_event_store s) default_BookInvalidationSummary 0) as [H1 H2];
    [repeat split; cbn; lia|lia|].
  destruct (store_invalidate_loop _ _ _) as [r store]. cbn [fst snd] in *. subst r. cbn [is_targets_became_unusable summary_of].
  assert (∀ k e, store !! k = Some e → event_usable e = false) as Hu.
  { intros k e Hk. apply event_unusable_all. intros m Hm. pose proof (all_markets_elem store k e m Hk Hm) as Hin.
    rewrite H2 in Hin. apply list_elem_of_fmap in Hin as (m' & -> & _). by rewrite await_recovery_sync. }
  split; [done|]. split; [|exact Hu]. cbn [is_targets_became_unusable default_BookInvalidationSummary].
  split; try done.
  - intros Hf k e idx Hk Hi Hn. cbn in *. rewrite (pair_view_unusable idx e) by eauto.
    destruct (Z.ltb_spec 0 (0 + count_sync kSYNCHRONIZED (all_markets (sh_event_store s)))) as [|Hc]; [by destruct Hn|].
    assert ((event_id <$> sh_event_store s) !! k = Some (event_id e)) as Hk0 by by rewrite <- Hids, list_lookup_fmap, Hk.
    rewrite list_lookup_fmap in Hk0. apply fmap_Some in Hk0 as (e0 & Hk0 & ->). transitivity (pair_view idx e0); [apply (V1 Hf k e0 idx Hk0 Hi); by intros []|].
    apply pair_view_unusable, event_unusable_all. intros m Hm Hsync.
    pose proof (all_markets_elem _ k e0 m Hk0 Hm) as Hin.
    assert (m ∈ filter (λ m, sync_of m = kSYNCHRONIZED) (all_markets (sh_event_store s))) as Hf' by by apply list_elem_of_filter.
    unfold count_sync in Hc. destruct (filter _ _); [by apply elem_of_nil in Hf'|cbn in Hc; lia].
  - cbn. by rewrite Hids.
  - change (Z.of_nat (length (all_markets store)) ≤ U64_MAX). by rewrite H2, length_fmap.
Qed.

Lemma subscription_barrier_Inv b s : Inv nowhere s → wp (handle_subscription_barrier b) (λ _ s', Inv nowhere s') s.
Proof.
  intros Hs. unfold handle_subscription_barrier. wp_step. unfold stat. wp_step. cbv zeta.
  apply (Inv_stat _ (λ t, t ⟪ ss_subscription_barriers_seen ::= incr ⟫)) in Hs. set (s1 := s ⟪ sh_stats ::= _ ⟫) in *. clearbody s1.
  wp_step. wp_step. destruct (_ || _) eqn:Eg; [apply wp_shard_calm; [rel_auto|done]|]. guards.
  wp_step. eapply wp_mono; [by apply invalidate_all_Inv|]. cbv beta. intros r s2 (Ev & Hs2 & Hu). wp_step.
  eapply (wp_mono _ (λ _ s', Inv nowhere s')); [|cbv beta; intros _ s3 Hs3; apply wp_shard_calm; [rel_auto|done]].
  destruct (0 <? is_targets_became_unusable r); cbn [when]; [|by wp_step]. eapply shard_unavailable_Inv; [done|congruence|done].
Qed.

(** ** Commands *)

Lemma last_view_foreign v id idx l : (∀ o, ObservedPair o ∈ l → po_universe_version o ≠ v) → last_view v id idx l = None.
Proof.
  induction l as [|m l IH] using rev_ind; intros H; [done|]. rewrite last_view_snoc, IH.
  2:{ intros o Ho. apply H. apply elem_of_app. by left. }
  destruct m as [o|u|u]; cbn; [|by destruct (_ && _)|by destruct (_ =? _)].
  rewrite (proj2 (Z.eqb_neq _ _)); [done|]. apply H. apply elem_of_app. right. by left.
Qed.

(** A newly installed universe: no observation carries its version and no book is in use. *)
Lemma installed_Inv c s : Inv nowhere s → wf_install c → sh_installed_universe_version s < is_universe_version c →
  Inv nowhere (s ⟪ sh_event_store := initialize (is_events c) ⟫ ⟪ sh_installed_universe_version := is_universe_version c ⟫
                 ⟪ sh_stats := default_ShardStats ⟫ ⟪ sh_run_state := kLIVE ⟫).
Proof.
  intros [V1 V2 V3 V4 V5 V6 V7] (W1 & W2 & W3 & W4) Hlt. split; try done.
  - intros _ k e idx Hk Hi _. cbn in *. rewrite last_view_foreign.
    + symmetry. apply pair_view_unusable. unfold initialize in Hk. rewrite list_lookup_fmap in Hk.
      apply fmap_Some in Hk as (e0 & He0 & ->). by eapply (Forall_lookup_1 (λ e, event_usable (make_event e) = false)).
    + intros o Ho%V2. lia.
  - cbn. intros o Ho%V2. lia.
  - cbn. unfold initialize. by rewrite <- list_fmap_compose.
Qed.

Lemma install_Inv c s : Inv nowhere s → wf_install c → wp (handle_install c) (λ _ s', Inv nowhere s') s.
Proof.
  intros Hs Hc. unfold handle_install, install_universe. cbv zeta. wp_steps. destruct (negb _); [apply wp_shard_calm; [rel_auto|done]|].
  destruct (is_universe_version c =? 0) eqn:E0; [apply wp_shard_calm; [rel_auto|done]|].
  destruct (negb (_ || _)) eqn:E1; [apply wp_shard_calm; [rel_auto|done]|].
  destruct (bool_decide (sh_run_state s = kDRAINED) && _) eqn:E2; [apply wp_shard_calm; [rel_auto|done]|].
  wp_steps. cbn [negb]. wp_steps. eapply wp_rel; [apply send_control_calm|]. intros b s' Hcalm. wp_step.
  eapply Inv_calm; [exact Hcalm|]. apply installed_Inv; [done|done|]. guards. destruct Hc as (W1 & _).
  apply orb_true_iff in E1 as [E1|E1]; apply bool_decide_eq_true in E1.
  - rewrite (inv_fresh _ _ Hs E1). lia.
  - rewrite (bool_decide_eq_true_2 _ E1) in E2. cbn in E2. lia.
Qed.

Lemma command_Inv c s : Inv nowhere s → wf_command (Some c) → wp (handle_operator_command c) (λ _ s', Inv nowhere s') s.
Proof.
  intros Hs Hc. pose proof (lifecycle_calm c) as Hl. destruct c; [by apply install_Inv|apply wp_shard_calm; done..].
Qed.

Lemma commands_Inv n k s : Inv nowhere s → wp (drain_control_commands n k) (λ _ s', Inv nowhere s') s.
Proof.
  revert k s. induction n as [|n IH]; intros k s Hs; cbn [drain_control_commands]; [by wp_step|].
  wp_step. unfold process_one_control_command. wp_step.
  assert (wp pop_command (λ c s', Inv nowhere s' ∧ wf_command c) s) as Hpop.
  { apply wp_and; [apply wp_shard_calm; [rel_auto|done]|]. unfold wp, pop_command. pose proof (inv_commands _ _ Hs) as Hf.
    destruct (sh_control_to_shard_queue s) as [|c q]; [done|]. by apply Forall_cons in Hf as [? _]. }
  eapply wp_mono; [exact Hpop|]. cbv beta. intros [c|] s1 [Hs1 Hc]; [|by wp_steps].
  wp_step. eapply wp_mono; [by apply command_Inv|]. cbv beta. intros _ s2 Hs2. wp_step. by apply IH.
Qed.

(** ** Runs *)

Lemma dispatch_Inv m mode s : Inv nowhere s → wf_message (Some m) →
  wp (dispatch_message clk pools allocs m mode) (λ _ s', Inv nowhere s') s.
Proof. intros Hs Hm. destruct m as [h|b|b]; [by apply frame_Inv|by apply market_barrier_Inv|by apply subscription_barrier_Inv]. Qed.

Lemma pop_Inv mode none s : Inv nowhere s → rel calm none →
  wp (popped ← pop_message;
      match popped with Some m => dispatch_message clk pools allocs m mode | None => none end) (λ _ s', Inv nowhere s') s.
Proof.
  intros Hs Hnone. wp_step. eapply (wp_mono _ (λ m s', Inv nowhere s' ∧ wf_message m)).
  { apply wp_and; [apply wp_shard_calm; [rel_auto|done]|]. unfold wp, pop_message. pose proof (inv_messages _ _ Hs) as Hf.
    destruct (sh_router_to_shard_queue s) as [|m q]; [done|]. by apply Forall_cons in Hf as [? _]. }
  cbv beta. intros [m|] s1 [Hs1 Hm]; [by apply dispatch_Inv|by apply wp_shard_calm].
Qed.

Lemma pump_Inv s : Inv nowhere s → wp (pump_once clk pools allocs) (λ _ s', Inv nowhere s') s.
Proof.
  intros Hs. unfold pump_once. wp_step. eapply wp_mono; [apply wp_shard_calm; [apply flush_calm|exact Hs]|]. cbv beta.
  intros [] s1 Hs1; cbn [negb]; [|by wp_step]. wp_step. wp_step. destruct (sh_run_state s1); try by wp_step.
  all: unfold drain_one_message; first [apply (pop_Inv kDISPATCH_DRAINING) | apply (pop_Inv kDISPATCH_LIVE (mret default_ShardPumpResult))]; [done|rel_auto].
Qed.

Lemma shard_exec_Inv op s : Inv nowhere s → Inv nowhere (exec clk pools allocs op s).2.
Proof.
  intros Hs. destruct op as [|n|]; cbn [exec].
  - pose proof (pump_Inv s Hs) as H. unfold wp in H. by destruct (pump_once clk pools allocs s).
  - by apply commands_Inv.
  - apply (wp_shard_calm (maybe_send_telemetry clk)); [rel_auto|done].
Qed.

Lemma run_Inv ops s : Inv nowhere s → Inv nowhere (run clk pools allocs ops s).2.
Proof.
  revert s. induction ops as [|op ops IH]; intros s Hs; cbn [run]; [done|]. apply (shard_exec_Inv op) in Hs.
  destruct (exec clk pools allocs op s) as [r s1]. cbn [snd] in Hs. specialize (IH s1 Hs). destruct (run clk pools allocs ops s1). exact IH.
Qed.

(** C6: from the start of a shard, whatever commands, frames and barriers it is given, as
    long as no message to strategies was refused and no projection failed: a strategy that
    reads the shard's stream and remembers the last observation of each pair, forgetting it
    when the event or the shard is reported unavailable, holds exactly what an observation
    would show now, and nothing for an event with an unusable book.  So strategies never act
    on a book older than the shard's. *)
Theorem strategies_see_current_books shard_index logger recycle control strategy commands messages ops :
  q_sent strategy = [] → Forall wf_command commands → Forall wf_message messages →
  let s := (make_shard shard_index logger recycle control strategy)
             ⟪ sh_control_to_shard_queue := commands ⟫ ⟪ sh_router_to_shard_queue := messages ⟫ in
  let s' := (run clk pools allocs ops s).2 in
  sh_strategy_publication_faulted s' = false →
  ∀ k e idx, sh_event_store s' !! k = Some e → 0 ≤ idx →
    last_view (sh_installed_universe_version s') (event_id e) idx (told s') = pair_view idx e.
Proof.
  intros Hq Hc Hm s s' Hf k e idx Hk Hi. apply (inv_view nowhere s') with k; [|done|done|done|by intros []].
  apply run_Inv. split; try done.
  - unfold told. intros o Ho. change (ObservedPair o ∈ q_sent strategy) in Ho. rewrite Hq in Ho. by apply elem_of_nil in Ho.
  - cbn. apply NoDup_nil_2.
Qed.
End Strategy.
End ShardStrategy.
