(* ===== verification/ShardRecovery.v ===== *)
(** * ShardRecovery: what a shard tells control about lost and recovered books

    Control starts and ends the recovery of a market on two messages of the shard:
    [ShardMarketRecoveryRequired] and [ShardRecoverySnapshotApplied].  A message that does
    not fit in the control queue is kept and sent later.  [reports] lists the two kinds of
    message in the order they were produced, [report_due] says which one the next message
    from the router calls for; a run adds exactly the reports that were due.

    At the end, Module [ShardDemo]: a concrete shard for the witnesses. *)

From S2P Require Import Prelude Spsc LatencyHistogram MarketTypes StrategyTypes FramePool Book Event ShardTypes MarketParser Shard ShardFrames ShardStrategy.
Import Event Book Shard ShardFrames.

Module ShardRecovery.
Section Recovery.
Context {Q : Type → Type} `{!PushQueue Q} `{!PushQueueLaws Q} {SJ : SimdJson}.
Variable clk : nat → Z.
Variable pools : nat → Pool.FramePool.
Variable allocs : nat → bool.
Implicit Types s : ShardState (Q := Q).

Definition is_report (m : ShardToControlMessage) : bool :=
  match m with ScMarketRecoveryRequired _ | ScRecoverySnapshotApplied _ => true | _ => false end.

(** Reports in the order they were produced: already queued, then the one kept back. *)
Definition reports s : list ShardToControlMessage :=
  filter (λ m, is_report m = true) (q_sent (sh_shard_to_control_queue s)) ++ option_list (sh_pending_recovery_status s).

(** Only reports are kept back. *)
Definition keeps_reports s : Prop :=
  match sh_pending_recovery_status s with Some m => is_report m = true | None => True end.

(** ** What is due *)

(** The state of the book a message is about. *)
Definition book_state s (event_index market_index : Z) : option BookSyncState :=
  e ← get_event (sh_event_store s) event_index; m ← get_market e market_index; Some (sync_of m).

(** The contents of a frame were lost: its book, unless already awaiting a recovery
    snapshot, needs one. *)
Definition lost_frame_report (h : FrameHandle) (reason : BookInvalidationReason) s : option ShardToControlMessage :=
  if is_order_book (fh_kind h) &&
     negb (bool_decide (book_state s (fh_shard_event_index h) (fh_event_market_index h) = Some kAWAITING_RECOVERY_SNAPSHOT))
  then Some (ScMarketRecoveryRequired (mkShardMarketRecoveryRequired (fh_universe_version h) (sh_shard_index s)
               (mkIntegrityIncidentKey kSHARD (sh_shard_index s) (sh_next_shard_incident_id s))
               (fh_sid h) (fh_sequence h) (fh_market_id h) (fh_event_id h) reason))
  else None.

(** A snapshot that carries a recovery id was applied. *)
Definition applied_report (h : FrameHandle) (r : EventApplyResult) s : option ShardToControlMessage :=
  if bool_decide (er_disposition r = kAPPLIED) && completes_recovery h (er_book_sync_transition r)
  then Some (ScRecoverySnapshotApplied (mkShardRecoverySnapshotApplied (fh_recovery_id h) (fh_universe_version h)
               (sh_shard_index s) (fh_sid h) (fh_sequence h) (fh_market_id h) (er_book_sync_transition r)))
  else None.

(** A frame is looked up and applied at the time of its dequeue.  An update that is
    rejected and thereby makes its book unusable is the one loss of a book for which the
    code sends nothing, although the documentation asks for a report there as well
    ([desync_is_not_reported] shows what follows). *)
Definition frame_report (h : FrameHandle) s : option ShardToControlMessage :=
  let h := h ⟪ fh_shard_dequeue_ts_ns := clk (sh_clock_reads s) ⟫ in
  let now := S (sh_clock_reads s) in
  match target_mismatch h s with
  | Some _ => None
  | None =>
      match Pool.frame (pools now) h with
      | None => lost_frame_report h kSHARD_FRAME_MISSING s
      | Some frame =>
          let '(parse_result, parsed) := MarketParser.parse h frame in
          if pr_success parse_result
          then
            let applied := (store_apply (allocs now) h parsed (sh_event_store s)).1 in
            match er_book_sync_transition applied with
            | kBECAME_UNUSABLE => None
            | _ => applied_report h applied s
            end
          else lost_frame_report h kSHARD_PARSE_FAILURE s
      end
  end.

Lemma applied_report_transition h r s :
  match er_book_sync_transition r with kBECAME_UNUSABLE => None | _ => applied_report h r s end = applied_report h r s.
Proof.
  unfold applied_report, completes_recovery. destruct (er_book_sync_transition r); try done.
  rewrite (bool_decide_eq_false_2 (kBECAME_UNUSABLE = kRECOVERED)), (bool_decide_eq_false_2 (kBECAME_UNUSABLE = kTRANSITION_NONE)) by done.
  cbn [orb]. by rewrite !andb_false_r.
Qed.

(** A barrier for a market the shard has, whose book does not await recovery yet. *)
Definition barrier_report (b : MarketInvalidationBarrier) s : option ShardToControlMessage :=
  match barrier_mismatch b s, get_event (sh_event_store s) (mb_shard_event_index b) ≫= λ e, get_market e (mb_event_market_index b) with
  | None, Some m =>
      if (km_market_id m =? mb_market_id b) && negb (bool_decide (sync_of m = kAWAITING_RECOVERY_SNAPSHOT))
      then Some (ScMarketRecoveryRequired (mkShardMarketRecoveryRequired (mb_universe_version b) (sh_shard_index s)
                   (mb_incident b) (mb_sid b) (mb_sequence b) (mb_market_id b) (mb_event_id b) (mb_reason b)))
      else None
  | _, _ => None
  end.

Definition message_report (m : MarketDataPathMessage) (mode : MarketDataDispatchMode) s : option ShardToControlMessage :=
  match m, mode with
  | MsgFrame h, kDISPATCH_LIVE => frame_report h s
  | MsgFrame _, kDISPATCH_DRAINING => None
  | MsgMarketBarrier b, _ => barrier_report b s
  | MsgSubscriptionBarrier _, _ => None
  end.

Definition dispatch_mode s : option MarketDataDispatchMode :=
  match sh_run_state s with
  | kLIVE | kPREPARING_STOP | kSAFE_TO_STOP => Some kDISPATCH_LIVE
  | kDRAINING => Some kDISPATCH_DRAINING
  | kUNINSTALLED | kDRAINED | kFAULTED => None
  end.

(** What the next pump owes control, provided an earlier report is not still kept back. *)
Definition report_due s : option ShardToControlMessage :=
  match sh_router_to_shard_queue s, dispatch_mode s with
  | Some m :: _, Some mode => message_report m mode s
  | _, _ => None
  end.

Definition may_pump s : bool :=
  match sh_pending_recovery_status s with
  | Some m => (q_push m (sh_shard_to_control_queue s)).1
  | None => true
  end.

Definition due (op : ShardOp) s : list ShardToControlMessage :=
  match op with OpPump => if may_pump s then option_list (report_due s) else [] | _ => [] end.

Fixpoint due_over (ops : list ShardOp) s : list ShardToControlMessage :=
  match ops with
  | [] => []
  | op :: ops' => due op s ++ due_over ops' (exec clk pools allocs op s).2
  end.

(** What an operation leaves in the queue from the router: a pump takes one entry, unless a
    report is kept back for which control still has no room, or the shard is not running. *)
Definition left_queued (op : ShardOp) s : list (option MarketDataPathMessage) :=
  match op, sh_pending_recovery_status s, dispatch_mode s with
  | OpPump, None, Some _ => tail (sh_router_to_shard_queue s)
  | OpPump, Some report, Some _ =>
      if (q_push report (sh_shard_to_control_queue s)).1 then tail (sh_router_to_shard_queue s) else sh_router_to_shard_queue s
  | _, _, _ => sh_router_to_shard_queue s
  end.

(** ** What does not report *)

Definition desk s : list ShardToControlMessage * option ShardToControlMessage * Z * Z :=
  (filter (λ m, is_report m = true) (q_sent (sh_shard_to_control_queue s)), sh_pending_recovery_status s, sh_shard_index s,
   sh_next_shard_incident_id s).

Lemma send_other m : is_report m = false → rel (same desk) (send_control_message m).
Proof.
  intros Hm s. unfold same, send_control_message, desk. pose proof (push_out (sh_shard_to_control_queue s) m) as Hp.
  destruct (q_push m (sh_shard_to_control_queue s)) as [b q]. cbn in *. rewrite Hp, filter_app. do 3 f_equal.
  destruct b; [|by rewrite app_nil_r]. rewrite filter_cons_False; [by rewrite app_nil_r|by rewrite Hm].
Qed.

Lemma push_desk {T} (get : ShardState (Q := Q) → Q T) (put : Q T → ShardState → ShardState) (x : T) :
  (∀ q s, desk (put q s) = desk s) → rel (same desk) (λ s, let '(b, q) := q_push x (get s) in (b, put q s)).
Proof. intros H s. unfold same. destruct (q_push x (get s)) as [b q]. apply H. Qed.

Lemma push_logger_desk m : rel (same desk) (push_logger m).
Proof. by apply push_desk. Qed.
Lemma push_recycle_desk m : rel (same desk) (push_recycle m).
Proof. by apply push_desk. Qed.
Lemma push_strategy_desk m : rel (same desk) (push_strategy m).
Proof. by apply push_desk. Qed.
Lemma now_desk : rel (same desk) (monotonic_now_ns clk).
Proof. intros s. done. Qed.
Lemma invalidate_desk a b c r : rel (same desk) (invalidate_in_store a b c r).
Proof. intros s. unfold same, invalidate_in_store. by destruct (store_invalidate_market _ _ _ _ _). Qed.
Lemma invalidate_all_desk r : rel (same desk) (invalidate_all_in_store r).
Proof. intros s. unfold same, invalidate_all_in_store. by destruct (store_invalidate_all_markets _ _). Qed.
Lemma apply_desk h p : rel (same desk) (apply_in_store allocs h p).
Proof. intros s. unfold same, apply_in_store. by destruct (store_apply _ _ _ _). Qed.
Lemma pop_command_desk : rel (same desk) pop_command.
Proof. intros s. unfold same, pop_command. by destruct (sh_control_to_shard_queue s) as [|[]]. Qed.
Lemma pop_message_desk : rel (same desk) pop_message.
Proof. intros s. unfold same, pop_message. by destruct (sh_router_to_shard_queue s) as [|[]]. Qed.
Hint Resolve push_logger_desk push_recycle_desk push_strategy_desk now_desk invalidate_desk invalidate_all_desk
  apply_desk pop_command_desk pop_message_desk : frame.
Hint Extern 2 (rel (same desk) (send_control_message _)) => (apply send_other; reflexivity) : frame.
Hint Extern 3 (rel (same desk) (modify _)) => (intros ?; reflexivity) : frame.

(** Everything that does not report is built from the steps above. *)
Ltac desk_auto :=
  repeat first
    [ rel_step
    | progress unfold fault_shard, stat, account_invalidation_result, account_transition, announce_unusable,
        publish_event_unavailable, publish_shard_unavailable, publish_strategy_message, publish_pair, projection_failed,
        publish_affected_pairs, finish_frame, terminal_handoff, reject_barrier, handle_subscription_barrier,
        command_matches_shard, require_run_state, handle_install, install_universe, handle_prepare_stop, handle_drain,
        handle_resume, process_one_control_command, maybe_send_telemetry ].

Lemma publish_pairs_desk e h t l : rel (same desk) (publish_pairs clk e h t l).
Proof. induction l as [|i l IH]; cbn [publish_pairs]; desk_auto. Qed.
Hint Resolve publish_pairs_desk : frame.

Lemma commands_desk n k : rel (same desk) (drain_control_commands n k).
Proof.
  revert k. induction n as [|n IH]; intros k; cbn [drain_control_commands]; desk_auto.
  match goal with |- rel _ (handle_operator_command ?c) => destruct c; cbn [handle_operator_command] end; desk_auto.
Qed.
Lemma telemetry_desk : rel (same desk) (maybe_send_telemetry clk).
Proof. desk_auto. Qed.

(** ** What reports *)

(** Since [s0], the reports [l] were added; without any, none is kept back. *)
Definition adds (l : list ShardToControlMessage) s0 s : Prop :=
  reports s = reports s0 ++ l ∧ keeps_reports s ∧ sh_shard_index s = sh_shard_index s0 ∧
  (l = [] → sh_pending_recovery_status s = None ∧ sh_next_shard_incident_id s = sh_next_shard_incident_id s0).

Lemma adds_desk l s0 s s' : same desk s s' → adds l s0 s → adds l s0 s'.
Proof. unfold same, desk, adds, reports, keeps_reports. intros [= -> -> -> ->]. done. Qed.

Lemma wp_desk {A} (m : M ShardState A) l s0 s : rel (same desk) m → adds l s0 s → wp m (λ _ s', adds l s0 s') s.
Proof. intros Hm Hs. eapply wp_rel; [exact Hm|]. intros _ s'. intros. by eapply adds_desk. Qed.

Lemma send_or_defer_adds m s0 s : is_report m = true → adds [] s0 s →
  wp (send_or_defer_recovery_status m) (λ b s', b = true ∧ adds [m] s0 s') s.
Proof.
  intros Hm (Hr & _ & Hi & Hp). destruct (Hp eq_refl) as [Hnone _]. unfold send_or_defer_recovery_status. wp_step. wp_step. rewrite Hnone.
  unfold reports in Hr. rewrite Hnone, !app_nil_r in Hr. wp_step. unfold send_control_message, wp at 1.
  pose proof (push_out (sh_shard_to_control_queue s) m) as Hq. destruct (q_push m (sh_shard_to_control_queue s)) as [[] q]; cbn [fst snd] in *.
  - wp_step. split; [done|]. split_and!; [|by unfold keeps_reports; cbn; rewrite Hnone|done|done]. unfold reports. cbn.
    by rewrite Hnone, app_nil_r, Hq, filter_app, filter_cons_True, Hr.
  - wp_step. wp_step. wp_step. split; [done|]. split_and!; [|done|done|done]. unfold reports. cbn. rewrite Hq, app_nil_r, Hr. done.
Qed.

(** The two reports of a shard's own: kept for sure, so nothing faults. *)
Lemma lost_contents_adds h reason refused result s0 s : adds [] s0 s →
  wp (report_lost_contents h reason refused result)
    (λ _ s', adds [ScMarketRecoveryRequired (mkShardMarketRecoveryRequired (fh_universe_version h) (sh_shard_index s0)
                     (mkIntegrityIncidentKey kSHARD (sh_shard_index s0) (sh_next_shard_incident_id s0))
                     (fh_sid h) (fh_sequence h) (fh_market_id h) (fh_event_id h) reason)] s0 s') s.
Proof.
  intros (Hr & Hk & Hi & Hp). destruct (Hp eq_refl) as [Hnone Hid]. unfold report_lost_contents, fresh_incident. wp_steps.
  unfold report_market_recovery_required. wp_steps. set (s1 := s ⟪ sh_next_shard_incident_id ::= incr ⟫).
  set (s0' := s0 ⟪ sh_next_shard_incident_id := sh_next_shard_incident_id s1 ⟫).
  assert (adds [] s0' s1) as Hs1 by (split_and!; done). rewrite Hi, Hid.
  eapply wp_mono; [by apply send_or_defer_adds|]. cbv beta. intros b s' [-> Ha]. wp_steps.
  destruct Ha as (H1 & H2 & H3 & H4). change (sh_shard_index s1) with (sh_shard_index s) in H1.
  rewrite Hi in H1. split; [exact H1|]. by split_and!.
Qed.

Lemma recovery_snapshot_adds h t s0 s : adds [] s0 s →
  wp (report_recovery_snapshot h t)
    (λ _ s', adds [ScRecoverySnapshotApplied (mkShardRecoverySnapshotApplied (fh_recovery_id h) (fh_universe_version h)
                     (sh_shard_index s0) (fh_sid h) (fh_sequence h) (fh_market_id h) t)] s0 s') s.
Proof.
  intros Hs. unfold report_recovery_snapshot. wp_steps. eapply wp_mono; [by apply send_or_defer_adds|]. cbv beta.
  intros b s' [-> Ha]. wp_step. destruct Hs as (_ & _ & Hi & _). rewrite Hi in Ha. exact Ha.
Qed.

(** Invalidating a market that was found. *)
Lemma invalidate_found sei emi mid reason e m s : get_event (sh_event_store s) sei = Some e → get_market e emi = Some m →
  km_market_id m = mid →
  wp (invalidate_in_store sei emi mid reason)
    (λ r _, ir_target_found r = true ∧ ir_book_sync_transition r = invalidation_transition (sync_of m)) s.
Proof.
  unfold get_event, get_market. intros He Hm <-. unfold wp, invalidate_in_store, store_invalidate_market, get_market.
  rewrite He, Hm, Z.eqb_refl. cbn. unfold invalidate_market. by rewrite Hm.
Qed.

Lemma accounted_found r m s0 s : ir_target_found r = true → ir_book_sync_transition r = invalidation_transition (sync_of m) →
  adds [] s0 s → wp (account_invalidation_result r) (λ b s', b = true ∧ adds [] s0 s') s.
Proof.
  intros Hf Ht Hs. apply wp_and; [|apply wp_desk; [desk_auto|done]]. unfold account_invalidation_result. rewrite Hf, Ht. cbn.
  by destruct (sync_of m); wp_steps.
Qed.

Lemma needs_recovery_spec st : needs_recovery (invalidation_transition st) = negb (bool_decide (st = kAWAITING_RECOVERY_SNAPSHOT)).
Proof. by destruct st. Qed.

(** ** Frames *)

(** The target of a frame that passed validation. *)
Lemma target_market h s : target_mismatch h s = None → ∃ e m,
  get_event (sh_event_store s) (fh_shard_event_index h) = Some e ∧ get_market e (fh_event_market_index h) = Some m ∧
  km_market_id m = fh_market_id h.
Proof.
  unfold target_mismatch. intros H. do 2 (destruct (negb _) in H; [done|]). destruct (get_event _ _) as [e|]; [|done].
  do 3 (destruct (negb _) in H; [done|]). destruct (get_market e _) as [m|] eqn:Em; [|done].
  destruct (negb _) eqn:? in H; [done|]. guards. by exists e, m.
Qed.

Lemma lost_frame_report_at h reason e m s0 s : get_event (sh_event_store s) (fh_shard_event_index h) = Some e →
  get_market e (fh_event_market_index h) = Some m → sh_shard_index s = sh_shard_index s0 →
  sh_next_shard_incident_id s = sh_next_shard_incident_id s0 → is_order_book (fh_kind h) = true →
  lost_frame_report h reason s =
    if needs_recovery (invalidation_transition (sync_of m))
    then Some (ScMarketRecoveryRequired (mkShardMarketRecoveryRequired (fh_universe_version h) (sh_shard_index s0)
               (mkIntegrityIncidentKey kSHARD (sh_shard_index s0) (sh_next_shard_incident_id s0))
               (fh_sid h) (fh_sequence h) (fh_market_id h) (fh_event_id h) reason)) else None.
Proof.
  intros He Hm Hi Hn Ho. unfold lost_frame_report, book_state. rewrite He. cbn [mbind option_bind]. rewrite Hm. cbn [mbind option_bind].
  rewrite Ho, Hi, Hn. by destruct (sync_of m).
Qed.

Lemma missing_adds h s0 s : adds [] s0 s → target_mismatch h s = None →
  wp (handle_missing_frame clk h) (λ _ s', adds (option_list (lost_frame_report h kSHARD_FRAME_MISSING s)) s0 s') s.
Proof.
  intros Hs Hm. unfold handle_missing_frame. cbv zeta. destruct (is_order_book (fh_kind h)) eqn:Eo.
  2:{ unfold lost_frame_report. rewrite Eo. apply wp_desk; [desk_auto|done]. }
  destruct (target_market h s Hm) as (e & m & He & Hk & Hid). pose proof Hs as (_ & _ & Hi & Hp). destruct (Hp eq_refl) as [_ Hn].
  rewrite (lost_frame_report_at _ _ e m s0 s) by done. clear Hp Hi Hn. wp_step.
  eapply wp_mono; [apply wp_and; [by eapply invalidate_found|apply (wp_desk _ [] s0); [desk_auto|done]]|]. cbv beta.
  intros r s1 [[Hf Ht] Hs1]. wp_step. eapply wp_mono; [by eapply accounted_found|]. cbv beta. intros b s2 [-> Hs2].
  wp_step. eapply wp_mono; [apply (wp_desk _ [] s0); [desk_auto|done]|]. cbv beta. intros _ s3 Hs3. wp_step. rewrite Ht.
  eapply wp_mono; [|cbv beta; intros res s4 Hs4; apply wp_desk; [desk_auto|exact Hs4]].
  destruct (needs_recovery _); [by apply lost_contents_adds|by wp_step].
Qed.

Lemma parse_failure_adds h pr s0 s : adds [] s0 s → target_mismatch h s = None →
  wp (handle_parse_failure clk h pr) (λ _ s', adds (option_list (lost_frame_report h kSHARD_PARSE_FAILURE s)) s0 s') s.
Proof.
  intros Hs Hm. unfold handle_parse_failure. cbv zeta. wp_step. unfold stat. wp_step. destruct (is_order_book (fh_kind h)) eqn:Eo.
  2:{ unfold lost_frame_report. rewrite Eo. apply wp_desk; [desk_auto|done]. }
  destruct (target_market h s Hm) as (e & m & He & Hk & Hid). pose proof Hs as (_ & _ & Hi & Hp). destruct (Hp eq_refl) as [_ Hn].
  rewrite (lost_frame_report_at _ _ e m s0 s) by done. clear Hp Hi Hn. set (s' := s ⟪ sh_stats ::= _ ⟫).
  assert (adds [] s0 s') as Hs' by exact Hs. assert (get_event (sh_event_store s') (fh_shard_event_index h) = Some e) as He' by exact He.
  clearbody s'. clear s Hs He Hm. wp_step.
  eapply wp_mono; [apply wp_and; [by eapply invalidate_found|apply (wp_desk _ [] s0); [desk_auto|done]]|]. cbv beta.
  intros r s1 [[Hf Ht] Hs1]. wp_step. eapply wp_mono; [by eapply accounted_found|]. cbv beta. intros b s2 [-> Hs2].
  wp_step. eapply wp_mono; [|cbv beta; intros res s4 Hs4; apply wp_desk; [desk_auto|exact Hs4]].
  wp_step. eapply wp_mono; [apply (wp_desk _ [] s0); [desk_auto|done]|]. cbv beta. intros _ s3 Hs3. rewrite Ht.
  destruct (needs_recovery _); [by apply lost_contents_adds|by wp_step].
Qed.

Lemma apply_adds h parsed s0 s : adds [] s0 s →
  wp (apply_frame clk allocs h parsed) (λ _ s',
    adds (option_list (applied_report h (store_apply (allocs (sh_clock_reads s)) h parsed (sh_event_store s)).1 s0)) s0 s') s.
Proof.
  intros Hs. unfold apply_frame. cbv zeta. wp_step. unfold apply_in_store, wp at 1.
  destruct (store_apply (allocs (sh_clock_reads s)) h parsed (sh_event_store s)) as [r store]. cbn [fst snd].
  set (s1 := s ⟪ sh_event_store := store ⟫). assert (adds [] s0 s1) as Hs1 by exact Hs. clearbody s1. clear s Hs.
  do 4 (wp_step; eapply wp_mono; [apply (wp_desk _ [] s0); [desk_auto|eassumption]|]; cbv beta; intros ? ? ?).
  unfold applied_report. destruct (er_disposition r).
  - rewrite bool_decide_eq_true_2 by done. cbn [andb]. do 2 (wp_step; eapply wp_mono; [apply (wp_desk _ [] s0); [desk_auto|eassumption]|]; cbv beta; intros ? ? ?).
    wp_step. eapply wp_mono; [|cbv beta; intros u s4 Hs4; apply wp_desk; [desk_auto|exact Hs4]].
    destruct (completes_recovery h _); cbn [when]; [by apply recovery_snapshot_adds|by wp_step].
  - rewrite bool_decide_eq_false_2 by done. apply wp_desk; [desk_auto|done].
  - rewrite bool_decide_eq_false_2 by done. apply wp_desk; [desk_auto|done].
Qed.

Lemma adds_start s : keeps_reports s → sh_pending_recovery_status s = None → adds [] s s.
Proof. intros Hk Hn. unfold adds. by rewrite app_nil_r. Qed.

Lemma frame_adds h mode s : sh_pending_recovery_status s = None →
  wp (handle_frame clk pools allocs h mode) (λ _ s', adds (option_list (message_report (MsgFrame h) mode s)) s s') s.
Proof.
  intros Hn. unfold handle_frame. wp_step. unfold monotonic_now_ns at 1, wp at 1. cbv zeta. cbn [fst snd]. wp_step. unfold stat at 1. wp_step.
  set (h' := h ⟪ fh_shard_dequeue_ts_ns := _ ⟫). set (s1 := s ⟪ sh_clock_reads ::= S ⟫ ⟪ sh_stats ::= _ ⟫).
  assert (adds [] s s1) as Hs1 by (apply (adds_desk _ s s); [done|]; apply adds_start; [unfold keeps_reports; by rewrite Hn|done]).
  destruct mode; cbn [message_report].
  2:{ rewrite bool_decide_eq_true_2 by done. apply wp_desk; [desk_auto|done]. }
  rewrite bool_decide_eq_false_2 by done. unfold frame_report. fold h'.
  assert (target_mismatch h' s1 = target_mismatch h' s) as Et by reflexivity. rewrite <- Et. unfold validate_handle_target. wp_step. wp_step. wp_step.
  destruct (target_mismatch h' s1) eqn:Em; [|clear Et].
  { wp_step. eapply wp_mono; [apply (wp_desk _ [] s); [desk_auto|done]|]. cbv beta. intros _ s2 Hs2. wp_step. cbn [negb].
    apply wp_desk; [desk_auto|done]. }
  wp_step. cbn [negb]. wp_step. wp_step. change (sh_clock_reads s1) with (S (sh_clock_reads s)).
  destruct (Pool.frame _ h') as [frame|]; [|exact (missing_adds h' s s1 Hs1 Em)].
  destruct (MarketParser.parse h' frame) as [pr parsed]. destruct (pr_success pr); cbn [negb].
  - cbv zeta. rewrite applied_report_transition. exact (apply_adds h' parsed s s1 Hs1).
  - exact (parse_failure_adds h' pr s s1 Hs1 Em).
Qed.

(** ** Barriers *)

Lemma market_barrier_adds b s : sh_pending_recovery_status s = None →
  wp (handle_market_barrier b) (λ _ s', adds (option_list (barrier_report b s)) s s') s.
Proof.
  intros Hn. unfold handle_market_barrier. wp_step. unfold stat at 1. wp_step. set (s1 := s ⟪ sh_stats ::= _ ⟫).
  assert (adds [] s s1) as Hs1 by (apply (adds_desk _ s s); [done|]; apply adds_start; [unfold keeps_reports; by rewrite Hn|done]).
  wp_step. wp_step. change (barrier_mismatch b s1) with (barrier_mismatch b s). unfold barrier_report.
  destruct (barrier_mismatch b s) as [reason|]; [apply wp_desk; [desk_auto|done]|]. wp_step.
  change (get_event (sh_event_store s)) with (get_event (sh_event_store s1)). clearbody s1.
  destruct (get_event (sh_event_store s1) (mb_shard_event_index b) ≫= λ e, get_market e (mb_event_market_index b)) as [m|] eqn:Em.
  2:{ eapply (wp_mono _ (λ r s', ir_target_found r = false ∧ adds [] s s')).
      - apply wp_and; [|apply wp_desk; [desk_auto|done]]. unfold wp, invalidate_in_store, store_invalidate_market.
        unfold get_event in Em. destruct (sh_event_store s1 !! _) as [e|]; [|done]. cbn in Em. by rewrite Em.
      - cbv beta. intros r s2 [-> Hs2]. cbn [negb]. apply wp_desk; [desk_auto|done]. }
  apply bind_Some in Em as (e & He & Hm). destruct (Z.eqb_spec (km_market_id m) (mb_market_id b)) as [Hid|Hid]; cbn [andb].
  2:{ eapply (wp_mono _ (λ r s', ir_target_found r = false ∧ adds [] s s')).
      - apply wp_and; [|apply wp_desk; [desk_auto|done]]. unfold wp, invalidate_in_store, store_invalidate_market.
        unfold get_event in He. by rewrite He, Hm, (proj2 (Z.eqb_neq _ _) Hid).
      - cbv beta. intros r s2 [-> Hs2]. cbn [negb]. apply wp_desk; [desk_auto|done]. }
  eapply wp_mono; [apply wp_and; [by eapply invalidate_found|apply (wp_desk _ [] s); [desk_auto|done]]|]. cbv beta.
  intros r s2 [[Hf Ht] Hs2]. rewrite Hf. cbn [negb]. wp_step. eapply wp_mono; [by eapply accounted_found|]. cbv beta. intros ? s3 [-> Hs3].
  cbn [negb]. wp_step. eapply wp_mono; [apply (wp_desk _ [] s); [desk_auto|done]|]. cbv beta. intros _ s4 Hs4. wp_step.
  rewrite Ht, needs_recovery_spec. destruct (negb (bool_decide _)); [|wp_step; cbn [negb]; by wp_step].
  unfold report_market_recovery_required. wp_steps. eapply wp_mono; [by apply send_or_defer_adds|]. cbv beta. intros ? s5 [-> Hs5].
  cbn [negb]. wp_step. destruct Hs4 as (_ & _ & Hi & _). rewrite Hi in Hs5. exact Hs5.
Qed.

Lemma dispatch_adds m mode s : sh_pending_recovery_status s = None →
  wp (dispatch_message clk pools allocs m mode) (λ _ s', adds (option_list (message_report m mode s)) s s') s.
Proof.
  intros Hn. destruct m as [h|b|b]; cbn [dispatch_message message_report]; [by apply frame_adds|by apply market_barrier_adds|].
  apply wp_desk; [desk_auto|]. apply adds_start; [unfold keeps_reports; by rewrite Hn|done].
Qed.

(** ** Runs *)

(** The state reports depend on, besides the router queue. *)
Definition view s : ShardRunState * EventStore * Z * Z * Z * nat :=
  (sh_run_state s, sh_event_store s, sh_shard_index s, sh_installed_universe_version s,
   sh_next_shard_incident_id s, sh_clock_reads s).

Lemma message_report_view m mode s s' : view s' = view s → message_report m mode s' = message_report m mode s.
Proof. destruct s, s'. unfold view. cbn. intros [= -> -> -> -> -> ->]. reflexivity. Qed.

Lemma report_due_view s s' : view s' = view s → sh_router_to_shard_queue s' = sh_router_to_shard_queue s →
  report_due s' = report_due s.
Proof.
  intros Hv Hq. unfold report_due, dispatch_mode. rewrite Hq. pose proof Hv as Hrun. injection Hrun as -> _.
  destruct (sh_router_to_shard_queue s) as [|[m|] q]; [done| |done].
  destruct (sh_run_state s); try done; by apply message_report_view.
Qed.

(** Flushing sends a report that was kept back and produces none. *)
Lemma flush_spec s : keeps_reports s →
  wp flush_pending_recovery_status (λ b s', b = may_pump s ∧ reports s' = reports s ∧ keeps_reports s' ∧
    view s' = view s ∧ sh_router_to_shard_queue s' = sh_router_to_shard_queue s ∧ (b = true → sh_pending_recovery_status s' = None)) s.
Proof.
  unfold flush_pending_recovery_status, may_pump, keeps_reports, reports. intros Hk. wp_step. wp_step.
  destruct (sh_pending_recovery_status s) as [m|] eqn:Ep; [|wp_step; rewrite Ep; by split_and!].
  wp_step. unfold send_control_message, wp at 1. pose proof (push_out (sh_shard_to_control_queue s) m) as Hq.
  destruct (q_push m (sh_shard_to_control_queue s)) as [[] q]; cbn [fst snd] in *.
  - wp_step. wp_step. wp_step. cbn. rewrite Hq, filter_app, filter_cons_True, app_nil_r by done. by split_and!.
  - wp_step. cbn. rewrite Hq, app_nil_r, Ep. by split_and!.
Qed.

Lemma adds_reports l s0 s s' : reports s0 = reports s → adds l s0 s' → reports s' = reports s ++ l ∧ keeps_reports s'.
Proof. intros E (H1 & H2 & _). by rewrite <- E. Qed.

Lemma pop_adds mode none s : sh_pending_recovery_status s = None → rel (same desk) none →
  wp (popped ← pop_message;
      match popped with Some m => dispatch_message clk pools allocs m mode | None => none end)
    (λ _ s', adds (match sh_router_to_shard_queue s with Some m :: _ => option_list (message_report m mode s) | _ => [] end) s s') s.
Proof.
  intros Hn Hnone. assert (adds [] s s) as H0 by (apply adds_start; [unfold keeps_reports; by rewrite Hn|done]).
  wp_step. unfold pop_message, wp at 1. destruct (sh_router_to_shard_queue s) as [|[m|] q]; cbn [fst snd]; [by apply wp_desk| |by apply wp_desk].
  set (s1 := s ⟪ sh_router_to_shard_queue := q ⟫). rewrite <- (message_report_view m mode s s1) by done.
  eapply wp_mono; [by apply dispatch_adds|]. cbv beta. intros _ s' H. exact H.
Qed.

Lemma pump_reports s : keeps_reports s →
  wp (pump_once clk pools allocs) (λ _ s', reports s' = reports s ++ due OpPump s ∧ keeps_reports s') s.
Proof.
  intros Hk. unfold pump_once. wp_step. eapply wp_mono; [by apply flush_spec|]. cbv beta. intros b s1 (Hb & Hr & Hk1 & Hv & Hq & Hn).
  cbn [due]. rewrite <- Hb, <- (report_due_view s s1 Hv Hq). destruct b; cbn [negb]; [|wp_step; rewrite app_nil_r; done].
  specialize (Hn eq_refl). rewrite <- Hr. clear Hb Hr Hv Hq Hk s. rename s1 into s, Hk1 into Hk.
  assert (adds [] s s) as H0 by by apply adds_start.
  assert (∀ mode none, rel (same desk) none → dispatch_mode s = Some mode →
    wp (popped ← pop_message; match popped with Some m => dispatch_message clk pools allocs m mode | None => none end)
      (λ _ s', reports s' = reports s ++ option_list (report_due s) ∧ keeps_reports s') s) as Hpop.
  { intros mode none Hnone Hmode. eapply wp_mono; [by apply pop_adds|]. cbv beta. intros _ s'. unfold report_due. rewrite Hmode.
    destruct (sh_router_to_shard_queue s) as [|[m|] q]; by apply adds_reports. }
  wp_step. wp_step. unfold report_due, dispatch_mode in *. destruct (sh_run_state s).
  all: first [ by apply Hpop | wp_step; destruct (sh_router_to_shard_queue s) as [|[]]; rewrite app_nil_r; done
             | apply (Hpop _ _ ); [desk_auto|done] ].
Qed.

Lemma exec_reports op s : keeps_reports s →
  reports (exec clk pools allocs op s).2 = reports s ++ due op s ∧ keeps_reports (exec clk pools allocs op s).2.
Proof.
  intros Hk. assert (∀ s', same desk s s' → reports s' = reports s ++ [] ∧ keeps_reports s') as Hd.
  { unfold same, desk, reports, keeps_reports in *. intros s' [= -> -> _ _]. by rewrite app_nil_r. }
  destruct op as [|n|]; cbn [exec due snd]; [|apply Hd, commands_desk|apply Hd, telemetry_desk].
  pose proof (pump_reports s Hk) as H. unfold wp in H. by destruct (pump_once clk pools allocs s).
Qed.

(** ** What is taken from the router *)

Lemma dispatch_queue m mode s :
  sh_router_to_shard_queue (dispatch_message clk pools allocs m mode s).2 = sh_router_to_shard_queue s.
Proof.
  destruct m as [h|b|b]; cbn [dispatch_message].
  - pose proof (frame_disposes clk pools allocs h mode s) as H. by destruct (handle_frame _ _ _ h mode s) as [r s'], H.
  - by pose proof (same_outflow _ _ (market_barrier_quiet clk b s)) as (_ & _ & ?).
  - by pose proof (same_outflow _ _ (subscription_barrier_quiet clk b s)) as (_ & _ & ?).
Qed.

Lemma pop_takes_one mode none s : rel (same boundary) none →
  wp (popped ← pop_message; match popped with Some m => dispatch_message clk pools allocs m mode | None => none end)
    (λ _ s', sh_router_to_shard_queue s' = tail (sh_router_to_shard_queue s)) s.
Proof.
  intros Hnone. wp_step. unfold pop_message, wp at 1. destruct (sh_router_to_shard_queue s) as [|[m|] q] eqn:E; cbn [fst snd tail].
  - pose proof (same_outflow _ _ (Hnone s)) as (_ & _ & Hq). unfold wp. by rewrite Hq.
  - unfold wp. by rewrite dispatch_queue.
  - pose proof (same_outflow _ _ (Hnone (s ⟪ sh_router_to_shard_queue := q ⟫))) as (_ & _ & Hq). unfold wp. by rewrite Hq.
Qed.

Lemma may_pump_left s : left_queued OpPump s =
  if may_pump s then match dispatch_mode s with Some _ => tail (sh_router_to_shard_queue s) | None => sh_router_to_shard_queue s end
  else sh_router_to_shard_queue s.
Proof. unfold left_queued, may_pump. destruct (sh_pending_recovery_status s), (dispatch_mode s); try done; by destruct (q_push _ _).1. Qed.

Lemma pump_takes s : keeps_reports s →
  wp (pump_once clk pools allocs) (λ _ s', sh_router_to_shard_queue s' = left_queued OpPump s) s.
Proof.
  intros Hk. unfold pump_once. wp_step. eapply wp_mono; [by apply flush_spec|]. cbv beta. intros b s1 (Hb & _ & _ & Hv & Hq & _).
  rewrite may_pump_left, <- Hb, <- Hq. injection Hv as Hrun _. unfold dispatch_mode. rewrite <- Hrun.
  destruct b; cbn [negb]; [|by wp_step]. wp_step. wp_step.
  destruct (sh_run_state s1); try by wp_step. 1-3: apply pop_takes_one; rel_auto. unfold drain_one_message. apply pop_takes_one. rel_auto; apply shard_send_control_quiet.
Qed.

Lemma exec_takes op s : keeps_reports s → sh_router_to_shard_queue (exec clk pools allocs op s).2 = left_queued op s.
Proof.
  intros Hk. destruct op as [|n|]; cbn [exec snd].
  - pose proof (pump_takes s Hk) as H. unfold wp in H. by destruct (pump_once clk pools allocs s).
  - by pose proof (same_outflow _ _ (drain_commands_quiet clk n 0 s)) as (_ & _ & ->).
  - by pose proof (same_outflow _ _ (telemetry_quiet clk s)) as (_ & _ & ->).
Qed.

(** C10: over any run, the reports a shard has produced for control, queued or still kept
    back, are exactly the ones that were due, once each and in order: one for every frame
    whose contents are missing or do not parse and for every barrier, when the book was not
    awaiting recovery already, and one for every recovery snapshot applied.  (A book lost
    to an update that is rejected gets none: [frame_report] says so.)  A full control
    queue delays a report but loses none: at every step of the run, while a report is kept
    back for which control has no room, the queue from the router is left as it is; and
    otherwise a pump of a running shard takes one entry from it, the first, and nothing
    else takes any.  In particular the shard never faults for want of room for a report. *)
Theorem recovery_reports_exact ops s : keeps_reports s →
  reports (run clk pools allocs ops s).2 = reports s ++ due_over ops s ∧ keeps_reports (run clk pools allocs ops s).2 ∧
  ∀ before op after, ops = before ++ op :: after →
    let s1 := (run clk pools allocs before s).2 in
    sh_router_to_shard_queue (exec clk pools allocs op s1).2 = left_queued op s1.
Proof.
  revert s. induction ops as [|op ops IH]; intros s Hk.
  { cbn [run due_over snd]. rewrite app_nil_r. split; [done|]. split; [done|]. by intros []. }
  destruct (exec_reports op s Hk) as [Hr Hk1]. pose proof (exec_takes op s Hk) as Ht. cbn [run due_over snd].
  destruct (exec clk pools allocs op s) as [r s1] eqn:Ee. cbn [snd] in *.
  destruct (IH s1 Hk1) as (Hr2 & Hk2 & Hq2). destruct (run clk pools allocs ops s1) as [rs s2]. cbn [snd] in *.
  split; [by rewrite Hr2, Hr, app_assoc|]. split; [done|]. intros [|o before] op' after [= -> E]; cbn [run snd].
  - by rewrite Ee.
  - rewrite Ee. specialize (Hq2 before op' after E). destruct (run clk pools allocs before s1) as [rs1 s3]. exact Hq2.
Qed.

(** The book of a market after an update made it unusable. *)
Lemma became_unusable_awaits ok h parsed s s2 r store : 0 ≤ fh_event_market_index h →
  store_apply ok h parsed (sh_event_store s) = (r, store) → er_book_sync_transition r = kBECAME_UNUSABLE →
  sh_event_store s2 = store →
  book_state s2 (fh_shard_event_index h) (fh_event_market_index h) = Some kAWAITING_RECOVERY_SNAPSHOT.
Proof.
  intros Hi Ha Ht Hs2. unfold book_state, get_event, store_apply in *. rewrite Hs2. set (k := Z.to_nat (fh_shard_event_index h)) in *.
  destruct (sh_event_store s !! k) as [e|] eqn:Hk; [|by injection Ha as <- _].
  pose proof (exec_spec (OpApply ok (fh_event_market_index h) parsed) e) as Hx. cbn [Event.exec op_index] in Hx.
  destruct (apply ok (fh_event_market_index h) parsed e) as [r' e'] eqn:Ea. injection Ha as -> <-.
  rewrite list_lookup_insert_eq by by eapply lookup_lt_Some. cbn [mbind option_bind].
  unfold get_market. fold (markets_of e'). destruct (markets_of e !! Z.to_nat (fh_event_market_index h)) as [m|] eqn:Hm.
  - destruct Hx as (Hms & _ & [Htr _]). cbn [fst snd] in *. rewrite Hms, list_lookup_insert_eq by by eapply lookup_lt_Some. cbn [mbind option_bind].
    f_equal. rewrite Ht in Htr. by destruct (sync_of m), (sync_of (market_step _ m)).
  - injection Hx as Hx _. congruence.
Qed.

(** An update that is rejected and makes its book unusable is not reported: the pump
    produces no report, and from the state it leaves neither a barrier nor a lost frame for
    the same market produces one, since the book counts as awaiting recovery already. *)
Theorem desync_is_not_reported h frame pr parsed rest s :
  keeps_reports s → 0 ≤ fh_event_market_index h →
  sh_router_to_shard_queue s = Some (MsgFrame h) :: rest → dispatch_mode s = Some kDISPATCH_LIVE →
  let h' := h ⟪ fh_shard_dequeue_ts_ns := clk (sh_clock_reads s) ⟫ in
  let now := S (sh_clock_reads s) in
  Pool.frame (pools now) h' = Some frame → MarketParser.parse h' frame = (pr, parsed) → pr_success pr = true →
  er_book_sync_transition (store_apply (allocs now) h' parsed (sh_event_store s)).1 = kBECAME_UNUSABLE →
  reports (pump_once clk pools allocs s).2 = reports s ∧
  ∀ s2, sh_event_store s2 = (store_apply (allocs now) h' parsed (sh_event_store s)).2 →
    (∀ b, mb_shard_event_index b = fh_shard_event_index h → mb_event_market_index b = fh_event_market_index h →
       barrier_report b s2 = None) ∧
    (∀ h2 reason, fh_shard_event_index h2 = fh_shard_event_index h → fh_event_market_index h2 = fh_event_market_index h →
       lost_frame_report h2 reason s2 = None).
Proof.
  intros Hk Hi Hq Hmode h' now Hf Hp Hok. destruct (store_apply (allocs now) h' parsed (sh_event_store s)) as [r store] eqn:Ha.
  cbn [fst snd]. intros Ht. split.
  - destruct (pump_reports s Hk) as [-> _]. cbn [due]. unfold report_due. rewrite Hq, Hmode. cbn [message_report]. unfold frame_report.
    fold h' now. rewrite Hf, Hp, Hok, Ha. cbn [fst]. rewrite Ht. by destruct (target_mismatch h' s), (may_pump s); rewrite app_nil_r.
  - intros s2 Hs2. pose proof (became_unusable_awaits _ h' parsed s s2 r store Hi Ha Ht Hs2) as Haw.
    change (fh_shard_event_index h') with (fh_shard_event_index h) in Haw.
    change (fh_event_market_index h') with (fh_event_market_index h) in Haw. split.
    + intros b E1 E2. rewrite <- E1, <- E2 in Haw. unfold barrier_report. destruct (barrier_mismatch b s2); [done|].
      unfold book_state in Haw. destruct (get_event _ _) as [e|]; [|done]. cbn [mbind option_bind] in *.
      destruct (get_market e _) as [m|]; [|done]. injection Haw as ->. by rewrite andb_false_r.
    + intros h2 reason E1 E2. unfold lost_frame_report. by rewrite E1, E2, Haw, andb_false_r.
Qed.
End Recovery.
End ShardRecovery.

(** ** A concrete shard for the witnesses

    One event with two markets, a frame pool whose slots hold a snapshot of each market, a
    delta and a delta that takes more than is there, and queues of the abstract FIFO. *)

Import Event Book Shard ShardFrames ShardRecovery ShardStrategy.

Module ShardDemo.
Import MarketParser.

Definition snapshot_document (bid : string) : json :=
  JObject [("msg", JObject [("yes_dollars_fp", JArray [JArray [JString bid; JString "3.00"]]);
                            ("no_dollars_fp", JArray [])])]%string.
Definition delta_document (delta : string) : json :=
  JObject [("msg", JObject [("side", JString "yes"); ("price_dollars", JString "0.4200"); ("delta_fp", JString delta)])]%string.

Definition demo_library : SimdJson :=
  demo_json [snapshot_document "0.4200"; snapshot_document "0.3000"; delta_document "1.00"; delta_document "-9.00"]%string.

Definition demo_pool : Pool.FramePool :=
  Pool.mkFramePool 4 ((λ i, Pool.mkKalshiFrame 0 1 0 [i]) <$> [0; 1; 2; 3]) [] [1; 1; 1; 1] [true; true; true; true].

(** Slot [slot] as a frame for market [market]. *)
Definition demo_handle (slot market : Z) (kind : FrameKind) : FrameHandle :=
  default_FrameHandle ⟪ fh_universe_version := 5 ⟫ ⟪ fh_sequence := 1 + slot ⟫ ⟪ fh_pool_index := slot ⟫
    ⟪ fh_pool_generation := 1 ⟫ ⟪ fh_market_id := 70 + market ⟫ ⟪ fh_event_id := 7 ⟫
    ⟪ fh_topology := kMONOTONIC_CHAIN ⟫ ⟪ fh_event_market_index := market ⟫ ⟪ fh_kind := kind ⟫.

Definition demo_barrier : MarketInvalidationBarrier :=
  default_MarketInvalidationBarrier ⟪ mb_universe_version := 5 ⟫
    ⟪ mb_incident := mkIntegrityIncidentKey kROUTER 0 1 ⟫ ⟪ mb_sequence := 9 ⟫ ⟪ mb_market_id := 70 ⟫
    ⟪ mb_event_id := 7 ⟫ ⟪ mb_reason := kROUTER_TO_SHARD_DELIVERY_LOSS ⟫.

Definition demo_install : InstallShardUniverse := mkInstallShardUniverse 5 0 [ev_state sample_event].

Definition demo_queue {T} (capacity : Z) : Fifo T := mkFifo capacity [] [] [].

(** Ready to install and to receive [messages]. *)
Definition demo_shard (messages : list MarketDataPathMessage) : ShardState (Q := Fifo) :=
  (make_shard 0 (demo_queue 2) (demo_queue 1) (demo_queue 16) (demo_queue 16))
    ⟪ sh_control_to_shard_queue := [Some (CsInstall demo_install)] ⟫
    ⟪ sh_router_to_shard_queue := Some <$> messages ⟫.

Definition demo_clock (n : nat) : Z := 1 + Z.of_nat n.

Definition demo_run (ops : list ShardOp) (s : ShardState (Q := Fifo)) : list ShardPumpResult * ShardState :=
  run (SJ := demo_library) demo_clock (λ _, demo_pool) (λ _, true) ops s.

Definition demo_ops : list ShardOp := [OpCommands 64; OpTelemetry; OpPump; OpPump; OpPump; OpPump; OpPump; OpPump].

(** Before any snapshot: a delta, a barrier and a frame whose slot is gone, then a delta for
    which neither queue has room. *)
Definition early_messages : list MarketDataPathMessage :=
  [MsgFrame (demo_handle 2 0 kORDERBOOK_DELTA); MsgMarketBarrier demo_barrier;
   MsgFrame (demo_handle 3 0 kORDERBOOK_DELTA); MsgFrame ((demo_handle 1 1 kORDERBOOK_SNAPSHOT) ⟪ fh_pool_generation := 9 ⟫);
   MsgFrame (demo_handle 2 0 kORDERBOOK_DELTA)].
Definition early_shard : ShardState (Q := Fifo) := (demo_run demo_ops (demo_shard early_messages)).2.

Lemma frames_handed_on_once_witness :
  (∃ consumed ds, accounted consumed ds (demo_run demo_ops (demo_shard early_messages)).1 (demo_shard early_messages) early_shard) ∧
  pu_code <$> (demo_run demo_ops (demo_shard early_messages)).1 =
    [kEVENT_IGNORED; kMARKET_BARRIER_HANDLED; kEVENT_IGNORED; kMISSING_FRAME; kHANDLE_LEAK; kPUMP_IDLE].
Proof.
  split; [|vm_compute; reflexivity]. unfold early_shard.
  pose proof (frames_handed_on_once (SJ := demo_library) demo_clock (λ _, demo_pool) (λ _, true) demo_ops (demo_shard early_messages)) as H.
  unfold demo_run. destruct (run _ _ _ demo_ops (demo_shard early_messages)) as [rs s']. exact H.
Defined.

Definition early_event : EventState := default sample_event (sh_event_store early_shard !! 0%nat).

#[local] Opaque run.
Lemma strategies_see_current_books_witness :
  sh_event_store early_shard !! 0%nat = Some early_event ∧
  last_view (sh_installed_universe_version early_shard) (event_id early_event) 0 (told early_shard) = pair_view 0 early_event.
Proof.
  assert (sh_event_store early_shard !! 0%nat = Some early_event) as He by (vm_compute; reflexivity).
  split; [exact He|].
  assert (Forall wf_command [Some (CsInstall demo_install)]) as Hc.
  { apply Forall_cons. split; [|apply Forall_nil_2]. split; [vm_compute; discriminate|]. split; [|split].
    - apply NoDup_singleton.
    - apply Forall_cons. split; [vm_compute; reflexivity|apply Forall_nil_2].
    - vm_compute. discriminate. }
  assert (Forall wf_message (Some <$> early_messages)) as Hm.
  { repeat (apply Forall_cons; split; [first [exact I | vm_compute; discriminate]|]). apply Forall_nil_2. }
  pose proof (strategies_see_current_books (SJ := demo_library) demo_clock (λ _, demo_pool) (λ _, true) 0
    (demo_queue 2) (demo_queue 1) (demo_queue 16) (demo_queue 16) _ _ demo_ops eq_refl Hc Hm) as H.
  cbv zeta in H. set (s' := (run _ _ _ _ _).2) in H. change s' with early_shard in H. clear s'.
  assert (sh_strategy_publication_faulted early_shard = false) as Hf by (vm_compute; reflexivity).
  apply (H Hf 0%nat early_event 0 He). lia.
Defined.
#[local] Transparent run.

(** The barrier and the missing frame are reported. *)
Lemma recovery_reports_exact_witness :
  reports early_shard = due_over (SJ := demo_library) demo_clock (λ _, demo_pool) (λ _, true) demo_ops (demo_shard early_messages) ∧
  length (reports early_shard) = 2%nat.
Proof.
  split; [|vm_compute; reflexivity].
  destruct (recovery_reports_exact (SJ := demo_library) demo_clock (λ _, demo_pool) (λ _, true) demo_ops (demo_shard early_messages)) as [H _];
    [exact I|].
  assert (reports (demo_shard early_messages) = []) as H0 by (vm_compute; reflexivity).
  unfold early_shard, demo_run. rewrite H, H0, app_nil_l. reflexivity.
Defined.

(** A shard that just received a delta outside the price grid of a book in use. *)
Definition demo_desynced : ShardState (Q := Fifo) :=
  (demo_shard [MsgFrame (demo_handle 2 0 kORDERBOOK_DELTA)]) ⟪ sh_run_state := kLIVE ⟫ ⟪ sh_installed_universe_version := 5 ⟫
    ⟪ sh_event_store := [make_event (mkKalshiEvent 7 kMONOTONIC_CHAIN 0
        [(sample_market 0) ⟪ km_book ::= λ b, b ⟪ bk_sync_state := kSYNCHRONIZED ⟫ ⟫])] ⟫.

Definition demo_parsed : ParseResult * KalshiParsedEvent :=
  MarketParser.parse (SJ := demo_library) ((demo_handle 2 0 kORDERBOOK_DELTA) ⟪ fh_shard_dequeue_ts_ns := 1 ⟫)
    (Pool.mkKalshiFrame 0 1 0 [2]).

Lemma desync_is_not_reported_witness :
  pu_code (pump_once (SJ := demo_library) demo_clock (λ _, demo_pool) (λ _, true) demo_desynced).1 = kEVENT_REJECTED ∧
  reports (pump_once (SJ := demo_library) demo_clock (λ _, demo_pool) (λ _, true) demo_desynced).2 = [].
Proof.
  split; [vm_compute; reflexivity|].
  destruct (desync_is_not_reported (SJ := demo_library) demo_clock (λ _, demo_pool) (λ _, true)
    (demo_handle 2 0 kORDERBOOK_DELTA) (Pool.mkKalshiFrame 0 1 0 [2]) demo_parsed.1 demo_parsed.2 [] demo_desynced)
    as [H _]; [exact I|cbn; lia|vm_compute; reflexivity..|].
  rewrite H. vm_compute. reflexivity.
Defined.
End ShardDemo.
