(* ===== verification/Recovery.v ===== *)
(** * Recovery: the coordinator of market recovery

    Models [RecoveryCoordinator] of [cpp/src/control/recovery_coordinator.cpp] and its
    header.  An incident groups the markets whose books one loss made unusable; a
    market of an open incident is latched by it, and every market is driven through
    request, acceptance and snapshot, with bounded retries.

    - Time points and durations of [steady_clock] are nanosecond counts, configured
      durations are milliseconds.
    - [std::unordered_map] iterates in an unspecified order, [hash_order].
    - Insertion into a map allocates and may throw: [alloc n] says whether the [n]-th
      insertion of a call succeeds ([alloc 0] also stands for the allocations before
      the first one), and a call that throws returns [None].
    - [std::sort] on distinct keys is [merge_sort]. *)

From S2P Require Import Prelude MarketTypes Event Router ControlTypes ShardTypes.

Module Recovery.
#[local] Existing Instance Event.BookSyncTransition_eq_dec.

Inductive MarketRecoveryPhase := | kPENDING_REQUEST | kREQUEST_ENQUEUED | kREQUEST_ACCEPTED |
  kSNAPSHOT_APPLIED | kFAILED | kSUPERSEDED.
#[export] Instance MarketRecoveryPhase_eq_dec : EqDecision MarketRecoveryPhase.
Proof. solve_decision. Defined.

Inductive RecoveryObservationCode := | kCREATED | kDUPLICATE | kSTALE_UNIVERSE | kINVALID_INCIDENT
  | kINVALID_REASON | kUNKNOWN_MARKET | kROUTE_MISMATCH | kALREADY_RECOVERING |
  kRECOVERY_ID_EXHAUSTED.
#[export] Instance RecoveryObservationCode_eq_dec : EqDecision RecoveryObservationCode.
Proof. solve_decision. Defined.

Record RecoveryObservationResult := mkRecoveryObservationResult {
  ob_code : RecoveryObservationCode;
  ob_recovery_id : Z;
  ob_markets_affected : Z;
}.
#[export] Instance eta_RecoveryObservationResult : Eta RecoveryObservationResult := λ r,
  mkRecoveryObservationResult (ob_code r) (ob_recovery_id r) (ob_markets_affected r).
Definition default_RecoveryObservationResult : RecoveryObservationResult :=
  mkRecoveryObservationResult kINVALID_INCIDENT 0 0.

Record MarketRecoveryState := mkMarketRecoveryState {
  ms_market_id : Z;
  ms_event_id : Z;
  ms_shard_index : Z;
  ms_phase : MarketRecoveryPhase;
  ms_attempts_sent : Z;
  ms_last_attempt_time : Z;
  ms_next_attempt_time : Z;
}.
#[export] Instance eta_MarketRecoveryState : Eta MarketRecoveryState := λ r,
  mkMarketRecoveryState (ms_market_id r) (ms_event_id r) (ms_shard_index r) (ms_phase r)
    (ms_attempts_sent r) (ms_last_attempt_time r) (ms_next_attempt_time r).
Definition default_MarketRecoveryState : MarketRecoveryState :=
  mkMarketRecoveryState 0 0 0 kPENDING_REQUEST 0 0 0.

Record RecoveryIncidentState := mkRecoveryIncidentState {
  ri_recovery_id : Z;
  ri_source : IntegrityIncidentKey;
  ri_universe_version : Z;
  ri_sid : Z;
  ri_reason : BookInvalidationReason;
  ri_market_recoveries : list MarketRecoveryState;
  ri_started_at : Z;
  ri_last_progress_at : Z;
}.
#[export] Instance eta_RecoveryIncidentState : Eta RecoveryIncidentState := λ r,
  mkRecoveryIncidentState (ri_recovery_id r) (ri_source r) (ri_universe_version r) (ri_sid r)
    (ri_reason r) (ri_market_recoveries r) (ri_started_at r) (ri_last_progress_at r).
Definition default_RecoveryIncidentState : RecoveryIncidentState :=
  mkRecoveryIncidentState 0 default_IntegrityIncidentKey 0 0 kREASON_NONE [] 0 0.

Inductive RecoveryFactDisposition := | kFACT_APPLIED | kFACT_IGNORED | kFACT_REJECTED.
#[export] Instance RecoveryFactDisposition_eq_dec : EqDecision RecoveryFactDisposition.
Proof. solve_decision. Defined.

Inductive RecoveryFactEffect := | kEFFECT_NONE | kEFFECT_REQUEST_ACCEPTED | kRETRY_SCHEDULED |
  kMARKET_RECOVERED | kMARKET_FAILED.
#[export] Instance RecoveryFactEffect_eq_dec : EqDecision RecoveryFactEffect.
Proof. solve_decision. Defined.

Record RecoveryFactResult := mkRecoveryFactResult {
  fr_disposition : RecoveryFactDisposition;
  fr_effect : RecoveryFactEffect;
  fr_recovery_id : Z;
  fr_market_id : Z;
  fr_incident_completed : bool;
  fr_recovery_duration : Z;
}.
#[export] Instance eta_RecoveryFactResult : Eta RecoveryFactResult := λ r,
  mkRecoveryFactResult (fr_disposition r) (fr_effect r) (fr_recovery_id r) (fr_market_id r)
    (fr_incident_completed r) (fr_recovery_duration r).
Definition default_RecoveryFactResult : RecoveryFactResult :=
  mkRecoveryFactResult kFACT_REJECTED kEFFECT_NONE 0 0 false 0.

Record RecoverySupersessionSummary := mkRecoverySupersessionSummary {
  sm_incidents_superseded : Z;
  sm_markets_superseded : Z;
  sm_active_latches_released : Z;
}.
#[export] Instance eta_RecoverySupersessionSummary : Eta RecoverySupersessionSummary := λ r,
  mkRecoverySupersessionSummary (sm_incidents_superseded r) (sm_markets_superseded r)
    (sm_active_latches_released r).
Definition default_RecoverySupersessionSummary : RecoverySupersessionSummary :=
  mkRecoverySupersessionSummary 0 0 0.

Record RecoveryCoordinatorConfig := mkRecoveryCoordinatorConfig {
  cf_max_attempts : Z;
  cf_initial_backoff : Z;
  cf_max_backoff : Z;
  cf_request_ack_timeout : Z;
  cf_snapshot_timeout : Z;
}.
#[export] Instance eta_RecoveryCoordinatorConfig : Eta RecoveryCoordinatorConfig := λ r,
  mkRecoveryCoordinatorConfig (cf_max_attempts r) (cf_initial_backoff r) (cf_max_backoff r)
    (cf_request_ack_timeout r) (cf_snapshot_timeout r).
Definition default_RecoveryCoordinatorConfig : RecoveryCoordinatorConfig :=
  mkRecoveryCoordinatorConfig 5 100 5000 2000 5000.

Record RecoveryTimeoutSummary := mkRecoveryTimeoutSummary {
  ts_request_ack_timeouts : Z;
  ts_snapshot_timeouts : Z;
  ts_retries_scheduled : Z;
  ts_markets_failed : Z;
}.
#[export] Instance eta_RecoveryTimeoutSummary : Eta RecoveryTimeoutSummary := λ r,
  mkRecoveryTimeoutSummary (ts_request_ack_timeouts r) (ts_snapshot_timeouts r)
    (ts_retries_scheduled r) (ts_markets_failed r).
Definition default_RecoveryTimeoutSummary : RecoveryTimeoutSummary :=
  mkRecoveryTimeoutSummary 0 0 0 0.

#[export] Instance IntegrityIncidentOrigin_countable : Countable IntegrityIncidentOrigin.
Proof.
  refine (inj_countable' (λ o, match o with kORIGIN_UNKNOWN => 0 | kWIRE_SESSION => 1 | kROUTER => 2 | kSHARD => 3 end)
    (λ z, if z =? 0 then kORIGIN_UNKNOWN else if z =? 1 then kWIRE_SESSION else if z =? 2 then kROUTER else kSHARD) _).
  by intros [].
Defined.
#[export] Instance IntegrityIncidentKey_countable : Countable IntegrityIncidentKey.
Proof.
  refine (inj_countable' (λ k, (ik_origin k, ik_producer_index k, ik_incident_id k))
    (λ '(o, p, i), mkIntegrityIncidentKey o p i) _). by intros [].
Defined.

(** The universe version and the incident an observation reports. *)
Abbreviation RecoverySourceKey := (Z * IntegrityIncidentKey)%type.

Record RecoveryCoordinator := mkRecoveryCoordinator {
  rc_next_recovery_id : Z;
  rc_incidents : gmap Z RecoveryIncidentState;
  rc_recovery_by_source : gmap RecoverySourceKey Z;
  rc_active_recovery_by_market : gmap Z Z;
  rc_config : RecoveryCoordinatorConfig;
}.
#[export] Instance eta_RecoveryCoordinator : Eta RecoveryCoordinator := λ r,
  mkRecoveryCoordinator (rc_next_recovery_id r) (rc_incidents r) (rc_recovery_by_source r)
    (rc_active_recovery_by_market r) (rc_config r).

Definition make_coordinator (config : RecoveryCoordinatorConfig) : RecoveryCoordinator :=
  mkRecoveryCoordinator 1 ∅ ∅ ∅ config.

(** ** Observing losses *)

Definition valid_targeted_incident_source (fact : ShardMarketRecoveryRequired) : bool :=
  let origin := ik_origin (mq_incident fact) in
  let producer := ik_producer_index (mq_incident fact) in
  match mq_reason fact with
  | kWIRE_POOL_EXHAUSTION | kWIRE_TO_ROUTER_DELIVERY_LOSS =>
      bool_decide (origin = kWIRE_SESSION) && (producer =? 0)
  | kROUTER_TO_SHARD_DELIVERY_LOSS => bool_decide (origin = kROUTER) && (producer =? 0)
  | kSHARD_FRAME_MISSING | kSHARD_PARSE_FAILURE =>
      bool_decide (origin = kSHARD) && (producer =? mq_shard_index fact)
  | kREASON_NONE | kEXCHANGE_SEQUENCE_GAP => false
  end.

Definition reject (code : RecoveryObservationCode) : RecoveryObservationResult :=
  mkRecoveryObservationResult code 0 0.

(** A market that waits for its first request. *)
Definition pending_market (market_id event_id shard_index now : Z) : MarketRecoveryState :=
  mkMarketRecoveryState market_id event_id shard_index kPENDING_REQUEST 0 0 now.

(** Latch markets one by one.  [None]: an insertion failed or a market was already
    latched, and the latches made so far were removed again. *)
Fixpoint latch_markets (alloc : nat → bool) (n : nat) (recovery_id : Z) (markets : list Z) (active : gmap Z Z)
    : option (gmap Z Z) :=
  match markets with
  | [] => Some active
  | m :: markets' =>
      if negb (alloc n) then None
      else
        match active !! m with
        | Some _ => None
        | None => latch_markets alloc (S n) recovery_id markets' (<[m := recovery_id]> active)
        end
  end.

(** Insert the incident, its source and its latches; [None] when an insertion
    throws, with the coordinator restored by the handler. *)
Definition create_incident (alloc : nat → bool) (key : RecoverySourceKey) (incident : RecoveryIncidentState)
    (c : RecoveryCoordinator) : option RecoveryCoordinator :=
  let recovery_id := ri_recovery_id incident in
  if negb (alloc 0%nat) || negb (alloc 1%nat) then None
  else
    active ← latch_markets alloc 2 recovery_id (ms_market_id <$> ri_market_recoveries incident)
               (rc_active_recovery_by_market c);
    Some (c ⟪ rc_incidents ::= <[recovery_id := incident]> ⟫
            ⟪ rc_recovery_by_source ::= <[key := recovery_id]> ⟫
            ⟪ rc_active_recovery_by_market := active ⟫
            ⟪ rc_next_recovery_id ::= λ n, u64 (n + 1) ⟫).

Definition observe_market (alloc : nat → bool) (fact : ShardMarketRecoveryRequired) (active_universe : UniverseSnapshot)
    (now : Z) (c : RecoveryCoordinator) : option RecoveryObservationResult * RecoveryCoordinator :=
  if (us_version active_universe =? 0) || negb (us_version active_universe =? mq_universe_version fact)
  then (Some (reject kSTALE_UNIVERSE), c)
  else if bool_decide (ik_origin (mq_incident fact) = kORIGIN_UNKNOWN) || (ik_incident_id (mq_incident fact) =? 0)
  then (Some (reject kINVALID_INCIDENT), c)
  else if negb (valid_targeted_incident_source fact) then (Some (reject kINVALID_REASON), c)
  else
    match find_if (λ r, ur_market_id r =? mq_market_id fact) (us_market_routes active_universe) with
    | None => (Some (reject kUNKNOWN_MARKET), c)
    | Some route =>
        let key := (mq_universe_version fact, mq_incident fact) in
        if negb (ur_event_id route =? mq_event_id fact) || negb (ur_shard_index route =? mq_shard_index fact)
        then (Some (reject kROUTE_MISMATCH), c)
        else
          match rc_recovery_by_source c !! key with
          | Some id => (Some (mkRecoveryObservationResult kDUPLICATE id 0), c)
          | None =>
              match rc_active_recovery_by_market c !! mq_market_id fact with
              | Some id => (Some (mkRecoveryObservationResult kALREADY_RECOVERING id 0), c)
              | None =>
                  let recovery_id := rc_next_recovery_id c in
                  if recovery_id =? 0 then (Some (reject kRECOVERY_ID_EXHAUSTED), c)
                  else if bool_decide (is_Some (rc_incidents c !! recovery_id))
                  then (if alloc 0%nat then Some (reject kRECOVERY_ID_EXHAUSTED) else None, c)
                  else
                    let incident := mkRecoveryIncidentState recovery_id (mq_incident fact)
                      (mq_universe_version fact) (mq_sid fact) (mq_reason fact)
                      [pending_market (mq_market_id fact) (mq_event_id fact) (mq_shard_index fact) now] now now in
                    match create_incident alloc key incident c with
                    | None => (None, c)
                    | Some c' => (Some (mkRecoveryObservationResult kCREATED recovery_id 1), c')
                    end
              end
          end
    end.

(** The markets of the universe that no incident holds, and the first incident
    found to hold one (0 if none does). *)
Fixpoint unlatched_markets (routes : list UniverseMarketRoute) (active : gmap Z Z) (now existing : Z)
    : list MarketRecoveryState * Z :=
  match routes with
  | [] => ([], existing)
  | route :: routes' =>
      match active !! ur_market_id route with
      | Some id => unlatched_markets routes' active now (if existing =? 0 then id else existing)
      | None =>
          let '(markets, existing') := unlatched_markets routes' active now existing in
          (pending_market (ur_market_id route) (ur_event_id route) (ur_shard_index route) now :: markets, existing')
      end
  end.

Definition observe_subscription (alloc : nat → bool) (fact : OrderBookSubscriptionBarrierDelivered)
    (active_universe : UniverseSnapshot) (now : Z) (c : RecoveryCoordinator)
    : option RecoveryObservationResult * RecoveryCoordinator :=
  if (us_version active_universe =? 0) || negb (us_version active_universe =? bd_universe_version fact)
  then (Some (reject kSTALE_UNIVERSE), c)
  else if negb (bool_decide (ik_origin (bd_incident fact) = kWIRE_SESSION))
       || negb (ik_producer_index (bd_incident fact) =? 0) || (ik_incident_id (bd_incident fact) =? 0)
  then (Some (reject kINVALID_INCIDENT), c)
  else if negb (bool_decide (bd_reason fact = kEXCHANGE_SEQUENCE_GAP)) then (Some (reject kINVALID_REASON), c)
  else
    let key := (bd_universe_version fact, bd_incident fact) in
    match rc_recovery_by_source c !! key with
    | Some id => (Some (mkRecoveryObservationResult kDUPLICATE id 0), c)
    | None =>
        let recovery_id := rc_next_recovery_id c in
        if bool_decide (us_market_routes active_universe = []) then (Some (reject kUNKNOWN_MARKET), c)
        else if recovery_id =? 0 then (Some (reject kRECOVERY_ID_EXHAUSTED), c)
        else
          let '(markets, existing) :=
            unlatched_markets (us_market_routes active_universe) (rc_active_recovery_by_market c) now 0 in
          if bool_decide (markets = [])
          then (Some (mkRecoveryObservationResult kALREADY_RECOVERING existing 0), c)
          else if bool_decide (is_Some (rc_incidents c !! recovery_id))
          then (if alloc 0%nat then Some (reject kRECOVERY_ID_EXHAUSTED) else None, c)
          else
            let incident := mkRecoveryIncidentState recovery_id (bd_incident fact) (bd_universe_version fact)
              (bd_sid fact) (bd_reason fact) markets now now in
            match create_incident alloc key incident c with
            | None => (None, c)
            | Some c' => (Some (mkRecoveryObservationResult kCREATED recovery_id (Z.of_nat (length markets))), c')
            end
    end.

(** ** Superseding *)

Definition settled (phase : MarketRecoveryPhase) : bool :=
  match phase with kSNAPSHOT_APPLIED | kSUPERSEDED => true | _ => false end.

(** The markets of one incident: release its latches, close what is open. *)
Fixpoint supersede_markets (recovery_id : Z) (markets : list MarketRecoveryState) (active : gmap Z Z)
    (summary : RecoverySupersessionSummary) (changed : bool)
    : list MarketRecoveryState * gmap Z Z * RecoverySupersessionSummary * bool :=
  match markets with
  | [] => ([], active, summary, changed)
  | market :: markets' =>
      let released := bool_decide (active !! ms_market_id market = Some recovery_id) in
      let open := negb (settled (ms_phase market)) in
      let active1 := if released then delete (ms_market_id market) active else active in
      let summary1 := if released then summary ⟪ sm_active_latches_released ::= λ n, u64 (n + 1) ⟫ else summary in
      let summary2 := if open then summary1 ⟪ sm_markets_superseded ::= λ n, u64 (n + 1) ⟫ else summary1 in
      let market1 := if open then market ⟪ ms_phase := kSUPERSEDED ⟫ else market in
      let '(rest, active2, summary3, changed2) :=
        supersede_markets recovery_id markets' active1 summary2 (changed || released || open) in
      (market1 :: rest, active2, summary3, changed2)
  end.

Definition supersede_incident (new_universe_version now recovery_id : Z)
    (acc : RecoverySupersessionSummary * RecoveryCoordinator) : RecoverySupersessionSummary * RecoveryCoordinator :=
  let '(summary, c) := acc in
  match rc_incidents c !! recovery_id with
  | None => acc
  | Some incident =>
      if ri_universe_version incident =? new_universe_version then acc
      else
        let '(markets, active, summary1, changed) :=
          supersede_markets recovery_id (ri_market_recoveries incident) (rc_active_recovery_by_market c) summary false in
        let incident1 := incident ⟪ ri_market_recoveries := markets ⟫ in
        let incident2 := if changed then incident1 ⟪ ri_last_progress_at := now ⟫ else incident1 in
        (if changed then summary1 ⟪ sm_incidents_superseded ::= λ n, u64 (n + 1) ⟫ else summary1,
         c ⟪ rc_incidents ::= <[recovery_id := incident2]> ⟫ ⟪ rc_active_recovery_by_market := active ⟫)
  end.

Section Coordinator.
Variable hash_order : list Z → list Z.

Definition incident_ids (c : RecoveryCoordinator) : list Z := hash_order (map_to_list (rc_incidents c)).*1.

Definition supersede_before_universe (new_universe_version now : Z) (c : RecoveryCoordinator)
    : RecoverySupersessionSummary * RecoveryCoordinator :=
  if new_universe_version =? 0 then (default_RecoverySupersessionSummary, c)
  else foldl (λ acc id, supersede_incident new_universe_version now id acc)
         (default_RecoverySupersessionSummary, c) (incident_ids c).

(** ** Requests *)

(** The market's next request may be sent. *)
Definition ready (now : Z) (market : MarketRecoveryState) : bool :=
  bool_decide (ms_phase market = kPENDING_REQUEST) && (ms_next_attempt_time market <=? now)
  && negb (ms_attempts_sent market =? U32_MAX).

Definition request (incident : RecoveryIncidentState) (market : MarketRecoveryState) : RecoverMarketIo :=
  mkRecoverMarketIo (ri_recovery_id incident) (ri_universe_version incident) (ms_market_id market)
    (u32 (ms_attempts_sent market + 1)).

(** The better of the selection so far and the next candidate. *)
Definition select_market (now recovery_id : Z) (incident : RecoveryIncidentState)
    (selected : option (RecoveryIncidentState * MarketRecoveryState)) (market : MarketRecoveryState)
    : option (RecoveryIncidentState * MarketRecoveryState) :=
  if negb (ready now market) then selected
  else
    match selected with
    | None => Some (incident, market)
    | Some (si, sm) =>
        if (recovery_id <? ri_recovery_id si)
           || ((recovery_id =? ri_recovery_id si) && (ms_market_id market <? ms_market_id sm))
        then Some (incident, market) else selected
    end.

Definition next_pending_command (now : Z) (c : RecoveryCoordinator) : option RecoverMarketIo :=
  let selected := foldl (λ selected id,
      match rc_incidents c !! id with
      | None => selected
      | Some incident => foldl (select_market now id incident) selected (ri_market_recoveries incident)
      end) None (incident_ids c) in
  (λ '(incident, market), request incident market) <$> selected.

Definition select_incident (now : Z) (c : RecoveryCoordinator) (selected : option RecoveryIncidentState) (id : Z)
    : option RecoveryIncidentState :=
  match rc_incidents c !! id with
  | None => selected
  | Some incident =>
      if existsb (ready now) (ri_market_recoveries incident)
         && match selected with None => true | Some si => id <? ri_recovery_id si end
      then Some incident else selected
  end.

Definition by_market (a b : RecoverMarketIo) : Prop := rq_market_id a ≤ rq_market_id b.
#[export] Instance by_market_dec : RelDecision by_market.
Proof. intros a b. unfold by_market. apply _. Defined.

Definition next_pending_commands (now : Z) (maximum_commands : nat) (c : RecoveryCoordinator) : list RecoverMarketIo :=
  if (maximum_commands =? 0)%nat then []
  else
    match foldl (select_incident now c) None (incident_ids c) with
    | None => []
    | Some incident =>
        let commands := request incident <$> filter (λ m, ready now m = true) (ri_market_recoveries incident) in
        take maximum_commands (merge_sort by_market commands)
    end.

(** Change the first market with this id. *)
Fixpoint update_market (market_id : Z) (f : MarketRecoveryState → MarketRecoveryState)
    (markets : list MarketRecoveryState) : list MarketRecoveryState :=
  match markets with
  | [] => []
  | m :: markets' => if ms_market_id m =? market_id then f m :: markets' else m :: update_market market_id f markets'
  end.

Definition find_market (market_id : Z) (markets : list MarketRecoveryState) : option MarketRecoveryState :=
  find_if (λ m, ms_market_id m =? market_id) markets.

Definition set_market (recovery_id market_id now : Z) (f : MarketRecoveryState → MarketRecoveryState)
    (c : RecoveryCoordinator) : RecoveryCoordinator :=
  c ⟪ rc_incidents ::= alter (λ i, i ⟪ ri_market_recoveries ::= update_market market_id f ⟫
                                     ⟪ ri_last_progress_at := now ⟫) recovery_id ⟫.

(** The market is latched by this incident. *)
Definition latched (recovery_id market_id : Z) (c : RecoveryCoordinator) : bool :=
  bool_decide (rc_active_recovery_by_market c !! market_id = Some recovery_id).

Definition mark_command_enqueued (command : RecoverMarketIo) (now : Z) (c : RecoveryCoordinator)
    : bool * RecoveryCoordinator :=
  let id := rq_recovery_id command in
  match rc_incidents c !! id with
  | None => (false, c)
  | Some incident =>
      if negb (rq_universe_version command =? ri_universe_version incident) then (false, c)
      else
        match find_market (rq_market_id command) (ri_market_recoveries incident) with
        | None => (false, c)
        | Some market =>
            if negb (latched id (rq_market_id command) c) then (false, c)
            else if negb (bool_decide (ms_phase market = kPENDING_REQUEST)) || (ms_next_attempt_time market >? now)
                 || (ms_attempts_sent market =? U32_MAX)
                 || negb (rq_request_attempt command =? u32 (ms_attempts_sent market + 1))
            then (false, c)
            else (true, set_market id (rq_market_id command) now (λ m, m ⟪ ms_attempts_sent := rq_request_attempt command ⟫
                          ⟪ ms_phase := kREQUEST_ENQUEUED ⟫ ⟪ ms_last_attempt_time := now ⟫) c)
        end
  end.

(** ** Facts *)

Definition handle_accepted (fact : IoRecoveryRequestAccepted) (now : Z) (c : RecoveryCoordinator)
    : RecoveryFactResult * RecoveryCoordinator :=
  let id := ra_recovery_id fact in
  let result := default_RecoveryFactResult ⟪ fr_recovery_id := id ⟫ ⟪ fr_market_id := ra_market_id fact ⟫ in
  let ignored := result ⟪ fr_disposition := kFACT_IGNORED ⟫ in
  match rc_incidents c !! id with
  | None => (result, c)
  | Some incident =>
      if negb (ra_universe_version fact =? ri_universe_version incident) then (result, c)
      else
        match find_market (ra_market_id fact) (ri_market_recoveries incident) with
        | None => (result, c)
        | Some market =>
            if ra_request_attempt fact <? ms_attempts_sent market then (ignored, c)
            else if ra_request_attempt fact >? ms_attempts_sent market then (result, c)
            else if negb (latched id (ra_market_id fact) c) then (ignored, c)
            else if negb (bool_decide (ms_phase market = kREQUEST_ENQUEUED)) then (ignored, c)
            else (result ⟪ fr_disposition := kFACT_APPLIED ⟫ ⟪ fr_effect := kEFFECT_REQUEST_ACCEPTED ⟫,
                  set_market id (ra_market_id fact) now
                    (λ m, m ⟪ ms_phase := kREQUEST_ACCEPTED ⟫ ⟪ ms_last_attempt_time := now ⟫) c)
        end
  end.

Definition kNANOSECONDS_PER_MILLISECOND : Z := 1000000.

Fixpoint backoff_loop (fuel : nat) (attempt attempts_sent delay max_backoff : Z) : Z :=
  match fuel with
  | O => Z.min delay max_backoff
  | S fuel' =>
      if (attempt <? attempts_sent) && (delay <? max_backoff) then
        if delay >? Z.quot max_backoff 2 then max_backoff
        else backoff_loop fuel' (attempt + 1) attempts_sent (delay * 2) max_backoff
      else Z.min delay max_backoff
  end.

(** In milliseconds; the loop counts [attempt] up to [attempts_sent]. *)
Definition retry_backoff (config : RecoveryCoordinatorConfig) (attempts_sent : Z) : Z :=
  backoff_loop (Z.to_nat attempts_sent) 1 attempts_sent
    (Z.min (cf_initial_backoff config) (cf_max_backoff config)) (cf_max_backoff config).

(** A market whose request failed or timed out: give up or wait for the next attempt. *)
Definition retry_or_fail (config : RecoveryCoordinatorConfig) (now : Z) (m : MarketRecoveryState) : MarketRecoveryState :=
  if ms_attempts_sent m >=? cf_max_attempts config then m ⟪ ms_phase := kFAILED ⟫
  else m ⟪ ms_phase := kPENDING_REQUEST ⟫
         ⟪ ms_next_attempt_time := now + kNANOSECONDS_PER_MILLISECOND * retry_backoff config (ms_attempts_sent m) ⟫.

Definition requested (phase : MarketRecoveryPhase) : bool :=
  match phase with kREQUEST_ENQUEUED | kREQUEST_ACCEPTED => true | _ => false end.

Definition handle_failed (fact : IoRecoveryRequestFailed) (now : Z) (c : RecoveryCoordinator)
    : RecoveryFactResult * RecoveryCoordinator :=
  let id := rf_recovery_id fact in
  let result := default_RecoveryFactResult ⟪ fr_recovery_id := id ⟫ ⟪ fr_market_id := rf_market_id fact ⟫ in
  let ignored := result ⟪ fr_disposition := kFACT_IGNORED ⟫ in
  match rc_incidents c !! id with
  | None => (result, c)
  | Some incident =>
      if negb (rf_universe_version fact =? ri_universe_version incident) then (result, c)
      else
        match find_market (rf_market_id fact) (ri_market_recoveries incident) with
        | None => (result, c)
        | Some market =>
            if rf_request_attempt fact <? ms_attempts_sent market then (ignored, c)
            else if rf_request_attempt fact >? ms_attempts_sent market then (result, c)
            else if negb (latched id (rf_market_id fact) c) then (ignored, c)
            else if negb (requested (ms_phase market)) then (ignored, c)
            else (result ⟪ fr_disposition := kFACT_APPLIED ⟫
                         ⟪ fr_effect := if ms_attempts_sent market >=? cf_max_attempts (rc_config c)
                                        then kMARKET_FAILED else kRETRY_SCHEDULED ⟫,
                  set_market id (rf_market_id fact) now (retry_or_fail (rc_config c) now) c)
        end
  end.

Definition handle_snapshot_applied (fact : ShardRecoverySnapshotApplied) (active_universe : UniverseSnapshot) (now : Z)
    (c : RecoveryCoordinator) : RecoveryFactResult * RecoveryCoordinator :=
  let id := rs_recovery_id fact in
  let m := rs_market_id fact in
  let result := default_RecoveryFactResult ⟪ fr_recovery_id := id ⟫ ⟪ fr_market_id := m ⟫ in
  let ignored := result ⟪ fr_disposition := kFACT_IGNORED ⟫ in
  if (us_version active_universe =? 0) || negb (rs_universe_version fact =? us_version active_universe)
  then (ignored, c)
  else
    match rc_incidents c !! id with
    | None => (result, c)
    | Some incident =>
        if negb (rs_universe_version fact =? ri_universe_version incident) then (result, c)
        else
          match find_market m (ri_market_recoveries incident),
                find_if (λ r, ur_market_id r =? m) (us_market_routes active_universe) with
          | Some market, Some route =>
              if negb (ur_shard_index route =? rs_shard_index fact)
                 || negb (ur_shard_index route =? ms_shard_index market)
                 || negb (ur_event_id route =? ms_event_id market)
              then (result, c)
              else if negb (latched id m c) then (ignored, c)
              else if settled (ms_phase market) then (ignored, c)
              else if bool_decide (ms_phase market = kPENDING_REQUEST) && (ms_attempts_sent market =? 0)
              then (result, c)
              else if negb (bool_decide (rs_transition fact = Event.kRECOVERED))
                   && negb (bool_decide (rs_transition fact = Event.kTRANSITION_NONE))
              then (result, c)
              else
                let c1 := set_market id m now (λ x, x ⟪ ms_phase := kSNAPSHOT_APPLIED ⟫) c in
                let completed := match rc_incidents c1 !! id with
                                 | Some i => forallb (λ x, settled (ms_phase x)) (ri_market_recoveries i)
                                 | None => true
                                 end in
                (result ⟪ fr_disposition := kFACT_APPLIED ⟫ ⟪ fr_effect := kMARKET_RECOVERED ⟫
                        ⟪ fr_incident_completed := completed ⟫
                        ⟪ fr_recovery_duration := if completed then now - ri_started_at incident else 0 ⟫,
                 c1 ⟪ rc_active_recovery_by_market ::= delete m ⟫)
          | _, _ => (result, c)
          end
    end.

(** ** Timeouts *)

(** The request or the snapshot of this market is overdue, and this incident still
    holds the market. *)
Definition overdue (config : RecoveryCoordinatorConfig) (now recovery_id : Z) (active : gmap Z Z)
    (market : MarketRecoveryState) : bool :=
  match ms_phase market with
  | kREQUEST_ENQUEUED =>
      negb (now <? ms_last_attempt_time market + kNANOSECONDS_PER_MILLISECOND * cf_request_ack_timeout config)
  | kREQUEST_ACCEPTED =>
      negb (now <? ms_last_attempt_time market + kNANOSECONDS_PER_MILLISECOND * cf_snapshot_timeout config)
  | _ => false
  end && bool_decide (active !! ms_market_id market = Some recovery_id).

Definition count_timeout (config : RecoveryCoordinatorConfig) (market : MarketRecoveryState)
    (summary : RecoveryTimeoutSummary) : RecoveryTimeoutSummary :=
  let summary1 := if bool_decide (ms_phase market = kREQUEST_ENQUEUED)
                  then summary ⟪ ts_request_ack_timeouts ::= λ n, u64 (n + 1) ⟫
                  else summary ⟪ ts_snapshot_timeouts ::= λ n, u64 (n + 1) ⟫ in
  if ms_attempts_sent market >=? cf_max_attempts config
  then summary1 ⟪ ts_markets_failed ::= λ n, u64 (n + 1) ⟫
  else summary1 ⟪ ts_retries_scheduled ::= λ n, u64 (n + 1) ⟫.

Fixpoint expire_markets (config : RecoveryCoordinatorConfig) (now recovery_id : Z) (active : gmap Z Z)
    (markets : list MarketRecoveryState) (summary : RecoveryTimeoutSummary) (progressed : bool)
    : list MarketRecoveryState * RecoveryTimeoutSummary * bool :=
  match markets with
  | [] => ([], summary, progressed)
  | market :: markets' =>
      if overdue config now recovery_id active market then
        let '(rest, summary', progressed') :=
          expire_markets config now recovery_id active markets' (count_timeout config market summary) true in
        (retry_or_fail config now market :: rest, summary', progressed')
      else
        let '(rest, summary', progressed') :=
          expire_markets config now recovery_id active markets' summary progressed in
        (market :: rest, summary', progressed')
  end.

Definition expire_incident (now recovery_id : Z) (acc : RecoveryTimeoutSummary * RecoveryCoordinator)
    : RecoveryTimeoutSummary * RecoveryCoordinator :=
  let '(summary, c) := acc in
  match rc_incidents c !! recovery_id with
  | None => acc
  | Some incident =>
      let '(markets, summary1, progressed) :=
        expire_markets (rc_config c) now recovery_id (rc_active_recovery_by_market c)
          (ri_market_recoveries incident) summary false in
      let incident1 := incident ⟪ ri_market_recoveries := markets ⟫ in
      (summary1, c ⟪ rc_incidents ::= <[recovery_id := if progressed then incident1 ⟪ ri_last_progress_at := now ⟫
                                                      else incident1]> ⟫)
  end.

Definition expire_timeouts (now : Z) (c : RecoveryCoordinator) : RecoveryTimeoutSummary * RecoveryCoordinator :=
  foldl (λ acc id, expire_incident now id acc) (default_RecoveryTimeoutSummary, c) (incident_ids c).

Definition active_market_count (c : RecoveryCoordinator) : nat := size (rc_active_recovery_by_market c).

Definition active_incident_count (c : RecoveryCoordinator) : nat :=
  length (filter (λ id, match rc_incidents c !! id with
                        | None => false
                        | Some i => existsb (λ m, latched id (ms_market_id m) c) (ri_market_recoveries i)
                        end = true) (incident_ids c)).
End Coordinator.
End Recovery.
