(* ===== verification/RecoveryInv.v ===== *)
(** * RecoveryInv: who recovers which market

    The invariant of the recovery coordinator: a market is latched exactly while one
    incident has it open, requests are bounded, and incidents are found under their
    own id and source. *)

From S2P Require Import Prelude MarketTypes Event Router ControlTypes ShardTypes Recovery.

Module RecoveryInv.
Import Recovery.

(** A market never gets more requests than the configuration allows (the first one
    is always sent). *)
Definition limit (config : RecoveryCoordinatorConfig) : Z := Z.max 1 (cf_max_attempts config).

Definition market_ok (config : RecoveryCoordinatorConfig) (x : MarketRecoveryState) : Prop :=
  0 ≤ ms_attempts_sent x ≤ limit config ∧
  (ms_phase x = kPENDING_REQUEST → ms_attempts_sent x = 0 ∨ ms_attempts_sent x < cf_max_attempts config) ∧
  (requested (ms_phase x) = true ∨ ms_phase x = kFAILED → 1 ≤ ms_attempts_sent x).

(** Incident [id] has market [m] open. *)
Definition holds (c : RecoveryCoordinator) (id m : Z) : Prop :=
  ∃ i x, rc_incidents c !! id = Some i ∧ x ∈ ri_market_recoveries i ∧ ms_market_id x = m ∧
         settled (ms_phase x) = false.

Definition market_ids (i : RecoveryIncidentState) : list Z := ms_market_id <$> ri_market_recoveries i.

Record incident_ok (c : RecoveryCoordinator) (id : Z) (i : RecoveryIncidentState) : Prop := {
  io_id : ri_recovery_id i = id ∧ 0 < id ∧ (rc_next_recovery_id c ≠ 0 → id < rc_next_recovery_id c);
  io_markets : NoDup (market_ids i) ∧ Forall (market_ok (rc_config c)) (ri_market_recoveries i);
  io_source : rc_recovery_by_source c !! (ri_universe_version i, ri_source i) = Some id;
}.

Record Inv (c : RecoveryCoordinator) : Prop := {
  inv_next : 0 ≤ rc_next_recovery_id c ≤ U64_MAX;
  inv_incident : ∀ id i, rc_incidents c !! id = Some i → incident_ok c id i;
  inv_latch : ∀ m id, rc_active_recovery_by_market c !! m = Some id ↔ holds c id m;
}.

Lemma make_coordinator_Inv config : Inv (make_coordinator config).
Proof.
  split; cbn; [lia|intros id i H; by rewrite lookup_empty in H|].
  intros m id. rewrite lookup_empty. split; [done|]. intros (i & x & H & _). cbn in H. by rewrite lookup_empty in H.
Qed.

(** ** Changing the markets of one incident *)

(** Under distinct ids, updating the first match is a map. *)
Lemma update_market_map m f l : NoDup (ms_market_id <$> l) →
  update_market m f l = (λ x, if ms_market_id x =? m then f x else x) <$> l.
Proof.
  induction l as [|x l IH]; intros Hnd; [done|]. cbn in *. apply NoDup_cons in Hnd as [Hx Hnd].
  destruct (Z.eqb_spec (ms_market_id x) m) as [E|E]; f_equal; [|by apply IH].
  symmetry. etrans; [|apply list_fmap_id]. apply list_fmap_ext. intros k y Hy.
  destruct (Z.eqb_spec (ms_market_id y) m) as [E'|E']; [|done]. destruct Hx. rewrite E, <- E'.
  apply list_elem_of_fmap. exists y. split; [done|]. by eapply list_elem_of_lookup_2.
Qed.

(** Replacing incident [id] by one whose markets are mapped by [g]. *)
Lemma Inv_map c id i i' g active' : Inv c → rc_incidents c !! id = Some i →
  ri_recovery_id i' = ri_recovery_id i → ri_universe_version i' = ri_universe_version i → ri_source i' = ri_source i →
  ri_market_recoveries i' = g <$> ri_market_recoveries i → (∀ x, ms_market_id (g x) = ms_market_id x) →
  (∀ x, x ∈ ri_market_recoveries i → market_ok (rc_config c) x → market_ok (rc_config c) (g x)) →
  (∀ m id', active' !! m = Some id' ↔ (id' ≠ id ∧ rc_active_recovery_by_market c !! m = Some id') ∨
     (id' = id ∧ ∃ x, x ∈ ri_market_recoveries i ∧ ms_market_id x = m ∧ settled (ms_phase (g x)) = false)) →
  Inv (c ⟪ rc_incidents ::= <[id := i']> ⟫ ⟪ rc_active_recovery_by_market := active' ⟫).
Proof.
  intros Hc Hi E1 E2 E3 Em Hg Hok Hact. split; cbn.
  - apply Hc.
  - intros id' j Hj. destruct (decide (id' = id)) as [->|Hne].
    + rewrite lookup_insert_eq in Hj. injection Hj as <-. destruct (inv_incident _ Hc _ _ Hi) as [H1 [H2 H3] H4].
      split; cbn; [by rewrite E1| |by rewrite E2, E3]. unfold market_ids in *. rewrite Em. split.
      * rewrite <- list_fmap_compose. by rewrite (list_fmap_ext _ ms_market_id) by (intros; apply Hg).
      * apply Forall_fmap, Forall_forall. intros x Hx. rewrite Forall_forall in H3. cbn. by apply Hok, H3.
    + rewrite lookup_insert_ne in Hj by done. by destruct (inv_incident _ Hc _ _ Hj).
  - intros m id'. rewrite Hact. destruct (decide (id' = id)) as [->|Hne].
    + unfold holds. cbn. rewrite lookup_insert_eq. split.
      * intros [[? _]|(_ & x & Hx & <- & Ho)]; [done|]. exists i', (g x). rewrite Em.
        split_and!; [done|apply list_elem_of_fmap; by exists x|apply Hg|done].
      * intros (j & y & [= <-] & Hy & <- & Ho). right. split; [done|]. rewrite Em in Hy.
        apply list_elem_of_fmap in Hy as (x & -> & Hx). exists x. by rewrite Hg.
    + rewrite (inv_latch _ Hc). unfold holds. cbn. rewrite lookup_insert_ne by done. naive_solver.
Qed.

(** If [g] neither opens nor closes a market, the latches stay. *)
Lemma Inv_map_same c id i i' g : Inv c → rc_incidents c !! id = Some i →
  ri_recovery_id i' = ri_recovery_id i → ri_universe_version i' = ri_universe_version i → ri_source i' = ri_source i →
  ri_market_recoveries i' = g <$> ri_market_recoveries i → (∀ x, ms_market_id (g x) = ms_market_id x) →
  (∀ x, x ∈ ri_market_recoveries i → market_ok (rc_config c) x → market_ok (rc_config c) (g x)) →
  (∀ x, x ∈ ri_market_recoveries i → settled (ms_phase (g x)) = settled (ms_phase x)) →
  Inv (c ⟪ rc_incidents ::= <[id := i']> ⟫).
Proof.
  intros Hc Hi E1 E2 E3 Em Hg Hok Hs.
  change (Inv (c ⟪ rc_incidents ::= <[id := i']> ⟫ ⟪ rc_active_recovery_by_market := rc_active_recovery_by_market c ⟫)).
  eapply Inv_map; try done. intros m id'. destruct (decide (id' = id)) as [->|Hne].
  - rewrite (inv_latch _ Hc). split.
    + intros (j & x & Hj & Hx & Hm & Ho). rewrite Hi in Hj. injection Hj as <-. right. split; [done|].
      exists x. by rewrite Hs.
    + intros [[? _]|(_ & x & Hx & Hm & Ho)]; [done|]. exists i, x. by rewrite <- (Hs x).
  - naive_solver.
Qed.

Lemma alter_insert_Some {A} (f : A → A) (k : Z) (a : A) (m : gmap Z A) : m !! k = Some a → alter f k m = <[k := f a]> m.
Proof.
  intros H. apply map_eq. intros j. destruct (decide (j = k)) as [->|Hne].
  - by rewrite lookup_alter_eq, lookup_insert_eq, H.
  - by rewrite lookup_alter_ne, lookup_insert_ne.
Qed.

(** The incident after [set_market]. *)
Definition touched (m now : Z) (f : MarketRecoveryState → MarketRecoveryState) (i : RecoveryIncidentState)
    : RecoveryIncidentState :=
  i ⟪ ri_market_recoveries ::= update_market m f ⟫ ⟪ ri_last_progress_at := now ⟫.

Lemma set_market_insert id m now f c i : rc_incidents c !! id = Some i →
  set_market id m now f c = c ⟪ rc_incidents ::= <[id := touched m now f i]> ⟫.
Proof. intros H. unfold set_market, upd. cbn. by rewrite (alter_insert_Some _ _ _ _ H). Qed.

(** Changing the market a fact is about. *)
Lemma set_market_Inv id m now f c i x : Inv c → rc_incidents c !! id = Some i →
  find_market m (ri_market_recoveries i) = Some x →
  (∀ y, ms_market_id (f y) = ms_market_id y) → settled (ms_phase x) = false → settled (ms_phase (f x)) = false →
  (market_ok (rc_config c) x → market_ok (rc_config c) (f x)) →
  Inv (set_market id m now f c).
Proof.
  intros Hc Hi Hx Hf Ho Ho' Hok. rewrite (set_market_insert _ _ _ _ _ _ Hi).
  destruct (inv_incident _ Hc _ _ Hi) as [_ [Hnd _] _].
  assert (∀ y, y ∈ ri_market_recoveries i → ms_market_id y = m → y = x) as Huniq.
  { apply find_if_Some in Hx as [Hx E%Z.eqb_eq]. intros y Hy <-. unfold market_ids in Hnd.
    apply list_elem_of_lookup in Hx as [a Ha]. apply list_elem_of_lookup in Hy as [b Hb].
    assert (a = b) as ->; [|congruence].
    eapply (NoDup_lookup _ _ _ (ms_market_id y) Hnd); rewrite list_lookup_fmap, ?Ha, ?Hb; cbn; congruence. }
  eapply (Inv_map_same _ _ _ _ (λ y, if ms_market_id y =? m then f y else y)); try done.
  - cbn. by apply update_market_map.
  - intros y. destruct (_ =? _); [apply Hf|done].
  - intros y Hy. destruct (Z.eqb_spec (ms_market_id y) m) as [E|]; [|done]. by rewrite (Huniq y Hy E).
  - intros y Hy. destruct (Z.eqb_spec (ms_market_id y) m) as [E|]; [|done]. rewrite (Huniq y Hy E). congruence.
Qed.

(** ** Requests and facts *)

Ltac next_guard :=
  match goal with
  | |- context [match ?x with _ => _ end] => destruct x eqn:?; try done
  end.
Ltac phase_known := match goal with H : ms_phase _ = _ |- _ => rewrite H end.

Section Ops.
Variable hash_order : list Z → list Z.
Hypothesis hash_order_perm : ∀ l, hash_order l ≡ₚ l.
Implicit Types c : RecoveryCoordinator.

Lemma mark_Inv command now c : is_u32 (cf_max_attempts (rc_config c)) → Inv c → Inv (mark_command_enqueued command now c).2.
Proof.
  intros Hmax Hc. unfold mark_command_enqueued.
  destruct (rc_incidents c !! _) as [i|] eqn:Hi; [|done]. next_guard.
  destruct (find_market _ _) as [x|] eqn:Hx; [|done]. do 2 next_guard. guards. cbn [snd].
  eapply set_market_Inv; try done; [by phase_known|].
  intros (A1 & A2 & _). unfold market_ok, limit in *. cbn.
  match goal with H : rq_request_attempt _ = _ |- _ => rewrite H, u32_id end; [|unfold is_u32 in *; lia].
  destruct A2; [done|..]; split_and!; try done; lia.
Qed.

Lemma accepted_Inv fact now c : Inv c → Inv (handle_accepted fact now c).2.
Proof.
  intros Hc. unfold handle_accepted. cbv zeta.
  destruct (rc_incidents c !! _) as [i|] eqn:Hi; [|done]. next_guard.
  destruct (find_market _ _) as [x|] eqn:Hx; [|done]. do 4 next_guard. guards. cbn [snd].
  eapply set_market_Inv; try done; [by phase_known|].
  intros (A1 & A2 & A3). unfold market_ok in *. cbn. split; [done|]. split; [done|]. intros _. apply A3. left. by phase_known.
Qed.

Lemma retry_or_fail_ok config now x : requested (ms_phase x) = true → market_ok config x →
  market_ok config (retry_or_fail config now x).
Proof.
  intros Hr (H1 & H2 & H3). unfold retry_or_fail, market_ok in *. rewrite Z.geb_leb.
  destruct (Z.leb_spec (cf_max_attempts config) (ms_attempts_sent x)); cbn; (split; [done|]).
  - split; [done|]. intros _. apply H3. by left.
  - split; [intros _; by right|]. by intros [].
Qed.

Lemma retry_or_fail_open config now x : settled (ms_phase (retry_or_fail config now x)) = false.
Proof. unfold retry_or_fail. by destruct (_ >=? _). Qed.

Lemma retry_or_fail_id config now x : ms_market_id (retry_or_fail config now x) = ms_market_id x.
Proof. unfold retry_or_fail. by destruct (_ >=? _). Qed.

Lemma requested_open phase : requested phase = true → settled phase = false.
Proof. by destruct phase. Qed.

Lemma failed_Inv fact now c : Inv c → Inv (handle_failed fact now c).2.
Proof.
  intros Hc. unfold handle_failed. cbv zeta.
  destruct (rc_incidents c !! _) as [i|] eqn:Hi; [|done]. next_guard.
  destruct (find_market _ _) as [x|] eqn:Hx; [|done]. do 4 next_guard. guards. cbn [snd].
  eapply set_market_Inv; try done.
  - apply retry_or_fail_id.
  - by apply requested_open.
  - apply retry_or_fail_open.
  - by apply retry_or_fail_ok.
Qed.

(** Distinct ids: a market of the incident is the one [find_market] finds. *)
Lemma find_market_unique c id i m x : Inv c → rc_incidents c !! id = Some i →
  find_market m (ri_market_recoveries i) = Some x →
  x ∈ ri_market_recoveries i ∧ ms_market_id x = m ∧
  ∀ y, y ∈ ri_market_recoveries i → ms_market_id y = m → y = x.
Proof.
  intros Hc Hi Hx. destruct (inv_incident _ Hc _ _ Hi) as [_ [Hnd _] _]. apply find_if_Some in Hx as [Hx E%Z.eqb_eq].
  split_and!; [done|done|]. intros y Hy <-. unfold market_ids in Hnd.
  apply list_elem_of_lookup in Hx as [a Ha]. apply list_elem_of_lookup in Hy as [b Hb].
  assert (a = b) as ->; [|congruence].
  eapply (NoDup_lookup _ _ _ (ms_market_id y) Hnd); rewrite list_lookup_fmap, ?Ha, ?Hb; cbn; congruence.
Qed.

(** A snapshot fact that is applied: the market was latched, asked for and becomes
    settled, and its latch goes. *)
Definition snapshot_done (fact : ShardRecoverySnapshotApplied) (now : Z) (c c' : RecoveryCoordinator) : Prop :=
  let id := rs_recovery_id fact in
  let m := rs_market_id fact in
  ∃ i x, rc_incidents c !! id = Some i ∧ find_market m (ri_market_recoveries i) = Some x ∧
    rs_universe_version fact = ri_universe_version i ∧ rs_shard_index fact = ms_shard_index x ∧
    rc_active_recovery_by_market c !! m = Some id ∧ settled (ms_phase x) = false ∧ (ms_phase x = kPENDING_REQUEST → ms_attempts_sent x ≠ 0) ∧
    (rs_transition fact = Event.kRECOVERED ∨ rs_transition fact = Event.kTRANSITION_NONE) ∧
    c' = c ⟪ rc_incidents ::= <[id := touched m now (λ x, x ⟪ ms_phase := kSNAPSHOT_APPLIED ⟫) i]> ⟫
           ⟪ rc_active_recovery_by_market := delete m (rc_active_recovery_by_market c) ⟫.

Lemma snapshot_cases fact universe now c :
  (handle_snapshot_applied fact universe now c).2 = c ∨
  us_version universe = rs_universe_version fact ∧
  snapshot_done fact now c (handle_snapshot_applied fact universe now c).2.
Proof.
  unfold handle_snapshot_applied. cbv zeta. next_guard; [by left|].
  destruct (rc_incidents c !! _) as [i|] eqn:Hi; [|by left].
  destruct (negb (rs_universe_version fact =? ri_universe_version i)) eqn:Hu; [by left|].
  destruct (find_market _ _) as [x|] eqn:Hx; [|by left]. destruct (find_if _ _) as [route|] eqn:Hr; [|by left].
  destruct (negb (ur_shard_index route =? _) || _ || _) eqn:Hroute; [by left|]. destruct (negb (latched _ _ _)) eqn:Hl; [by left|].
  destruct (settled _) eqn:Hs; [by left|]. destruct (bool_decide (ms_phase x = _) && _) eqn:Hp; [by left|].
  destruct (negb (bool_decide (rs_transition fact = Event.kRECOVERED)) && _) eqn:Ht; [by left|]. right. guards. split; [done|].
  exists i, x. unfold latched in *. guards. split_and!; try done; try congruence.
  - intros E Hz. rewrite E, Hz in Hp. done.
  - destruct (rs_transition fact); auto; done.
  - cbn [snd]. by rewrite (set_market_insert _ _ _ _ _ _ Hi).
Qed.

Lemma snapshot_Inv fact universe now c : Inv c → Inv (handle_snapshot_applied fact universe now c).2.
Proof.
  intros Hc. destruct (snapshot_cases fact universe now c) as [->|(_ & i & x & Hi & Hx & _ & _ & Hl & Ho & Hp & _ & ->)]; [done|].
  destruct (find_market_unique _ _ _ _ _ Hc Hi Hx) as (Hin & Hm & Huniq).
  destruct (inv_incident _ Hc _ _ Hi) as [_ [Hnd _] _].
  eapply (Inv_map _ _ _ _ (λ y, if ms_market_id y =? rs_market_id fact then y ⟪ ms_phase := kSNAPSHOT_APPLIED ⟫ else y));
    try done.
  - cbn. by apply update_market_map.
  - intros y. by destruct (_ =? _).
  - intros y Hy Hok. destruct (_ =? _); [|done]. destruct Hok as (A1 & A2 & A3). split; [done|]. split; [done|]. by intros [].
  - intros m id'. destruct (decide (m = rs_market_id fact)) as [->|Hne].
    + rewrite lookup_delete_eq. split; [done|]. intros [[Hid Ha]|(_ & y & Hy & Hym & Hs)].
      * congruence.
      * by rewrite Hym, Z.eqb_refl in Hs.
    + rewrite lookup_delete_ne by done. rewrite (inv_latch _ Hc). destruct (decide (id' = rs_recovery_id fact)) as [->|].
      * split.
        -- intros (j & y & Hj & Hy & <- & Hs). rewrite Hi in Hj. injection Hj as <-. right. split; [done|].
           exists y. by rewrite (proj2 (Z.eqb_neq _ _) Hne).
        -- intros [[? _]|(_ & y & Hy & <- & Hs)]; [done|]. rewrite (proj2 (Z.eqb_neq _ _) Hne) in Hs. by exists i, y.
      * naive_solver.
Qed.

(** ** Supersession *)

Lemma supersede_markets_spec id markets : ∀ active summary changed,
  let '(markets', active', _, _) := supersede_markets id markets active summary changed in
  markets' = (λ x, if negb (settled (ms_phase x)) then x ⟪ ms_phase := kSUPERSEDED ⟫ else x) <$> markets ∧
  ∀ m id', active' !! m = Some id' ↔
    active !! m = Some id' ∧ (id' = id → m ∉ ms_market_id <$> markets).
Proof.
  induction markets as [|x markets IH]; intros active summary changed; cbn.
  { split; [done|]. intros m id'. split; [|naive_solver]. intros H. split; [done|]. intros _ Hm. by apply elem_of_nil in Hm. }
  set (active1 := if bool_decide _ then _ else _). set (summary1 := if negb _ then _ else _).
  set (changed1 := _ || _). specialize (IH active1 summary1 changed1).
  destruct (supersede_markets _ _ _ _ _) as [[[rest active2] summary3] changed2]. destruct IH as [-> Hact].
  split; [done|]. intros m id'. rewrite Hact, elem_of_cons. unfold active1. case_bool_decide as Hx; [|naive_solver].
  destruct (decide (m = ms_market_id x)) as [->|Hne].
  - rewrite lookup_delete_eq. naive_solver.
  - rewrite lookup_delete_ne by done. naive_solver.
Qed.

(** One incident of another universe is closed. *)
Lemma supersede_incident_spec v now id summary c : Inv c →
  let c' := (supersede_incident v now id (summary, c)).2 in
  Inv c' ∧ rc_config c' = rc_config c ∧
  (∀ k, ri_universe_version <$> rc_incidents c' !! k = ri_universe_version <$> rc_incidents c !! k) ∧
  ∀ m k, rc_active_recovery_by_market c' !! m = Some k ↔
    rc_active_recovery_by_market c !! m = Some k ∧ (k = id → ri_universe_version <$> rc_incidents c !! id = Some v).
Proof.
  intros Hc. cbv zeta. unfold supersede_incident.
  destruct (rc_incidents c !! id) as [i|] eqn:Hi.
  2: { split_and!; try done. intros m k. split; [|naive_solver]. intros Hk. split; [done|]. intros ->.
       apply (inv_latch _ Hc) in Hk as (j & x & Hj & _). by rewrite Hi in Hj. }
  destruct (Z.eqb_spec (ri_universe_version i) v) as [E|E].
  { split_and!; try done. intros m k. cbn. rewrite E. naive_solver. }
  pose proof (supersede_markets_spec id (ri_market_recoveries i) (rc_active_recovery_by_market c) summary false) as Hs.
  destruct (supersede_markets _ _ _ _ _) as [[[markets active] summary1] changed]. destruct Hs as [-> Hact].
  assert (∀ m k, active !! m = Some k ↔ rc_active_recovery_by_market c !! m = Some k ∧ k ≠ id) as Hact'.
  { intros m k. rewrite Hact. split; intros [H1 H2]; (split; [done|]); [|done]. intros ->. destruct (H2 eq_refl).
    apply (inv_latch _ Hc) in H1 as (j & x & Hj & Hx & <- & _). rewrite Hi in Hj. injection Hj as <-.
    apply list_elem_of_fmap. by exists x. }
  cbn [snd]. set (i' := if changed then _ else _).
  assert (ri_recovery_id i' = ri_recovery_id i ∧ ri_universe_version i' = ri_universe_version i ∧ ri_source i' = ri_source i
    ∧ ri_market_recoveries i' = (λ x, if negb (settled (ms_phase x)) then x ⟪ ms_phase := kSUPERSEDED ⟫ else x) <$>
        ri_market_recoveries i) as (F1 & F2 & F3 & F4) by (unfold i'; by destruct changed).
  clearbody i'. split_and!; [|done| |].
  - eapply Inv_map; try done.
    + intros x. cbv beta. by destruct (negb _).
    + intros x _ (A1 & A2 & A3). cbv beta. destruct (negb _); [|done]. split; [done|]. split; [done|]. by intros [].
    + intros m k. rewrite Hact'. split; [naive_solver|]. intros [[? ?]|(-> & x & Hx & <- & Hs)]; [done|].
      destruct (settled (ms_phase x)) eqn:Ex; cbn in Hs; [congruence|done].
  - intros k. cbn. destruct (decide (k = id)) as [->|Hne].
    + rewrite lookup_insert_eq, Hi. cbn. by rewrite F2.
    + by rewrite lookup_insert_ne.
  - intros m k. cbn. rewrite Hact'. split; [intros [? ?]; done|]. intros [? H]. split; [done|]. intros ->.
    specialize (H eq_refl). cbn in H. congruence.
Qed.

Lemma supersede_fold v now ids : ∀ summary c, Inv c →
  let c' := (foldl (λ acc id, supersede_incident v now id acc) (summary, c) ids).2 in
  Inv c' ∧ rc_config c' = rc_config c ∧
  (∀ k, ri_universe_version <$> rc_incidents c' !! k = ri_universe_version <$> rc_incidents c !! k) ∧
  ∀ m k, rc_active_recovery_by_market c' !! m = Some k ↔
    rc_active_recovery_by_market c !! m = Some k ∧ (k ∈ ids → ri_universe_version <$> rc_incidents c !! k = Some v).
Proof.
  induction ids as [|id ids IH]; intros summary c Hc; cbv zeta; cbn [foldl].
  { split_and!; try done. intros m k. split; [|naive_solver]. intros H. split; [done|]. intros Hk. by apply elem_of_nil in Hk. }
  destruct (supersede_incident_spec v now id summary c Hc) as (H1 & H2 & H3 & H4).
  destruct (supersede_incident v now id (summary, c)) as [summary1 c1]. cbn [snd] in *.
  destruct (IH summary1 c1 H1) as (G1 & G2 & G3 & G4). split_and!; [done|congruence|intros k; by rewrite G3|].
  intros m k. rewrite G4, H4, H3, elem_of_cons. naive_solver.
Qed.

Lemma elem_of_incident_ids c k : k ∈ incident_ids hash_order c ↔ is_Some (rc_incidents c !! k).
Proof.
  unfold incident_ids. rewrite hash_order_perm, list_elem_of_fmap. split.
  - intros ([k' i] & -> & H). apply elem_of_map_to_list in H. by exists i.
  - intros [i H]. exists (k, i). split; [done|]. by apply elem_of_map_to_list.
Qed.

Lemma supersede_spec v now c : Inv c → v ≠ 0 →
  let c' := (supersede_before_universe hash_order v now c).2 in
  Inv c' ∧ rc_config c' = rc_config c ∧
  (∀ k, ri_universe_version <$> rc_incidents c' !! k = ri_universe_version <$> rc_incidents c !! k) ∧
  ∀ m k, rc_active_recovery_by_market c' !! m = Some k ↔
    rc_active_recovery_by_market c !! m = Some k ∧ ri_universe_version <$> rc_incidents c !! k = Some v.
Proof.
  intros Hc Hv. cbv zeta. unfold supersede_before_universe. rewrite (proj2 (Z.eqb_neq _ _) Hv).
  destruct (supersede_fold v now (incident_ids hash_order c) default_RecoverySupersessionSummary c Hc)
    as (H1 & H2 & H3 & H4).
  split_and!; try done. intros m k. rewrite H4. split; [|naive_solver]. intros [Ha Hk]. split; [done|]. apply Hk.
  apply elem_of_incident_ids. apply (inv_latch _ Hc) in Ha as (i & x & Hi & _). by exists i.
Qed.

(** ** Timeouts *)

Definition after_timeout (c : RecoveryCoordinator) (now id : Z) (x : MarketRecoveryState) : MarketRecoveryState :=
  if overdue (rc_config c) now id (rc_active_recovery_by_market c) x then retry_or_fail (rc_config c) now x else x.

Lemma expire_markets_spec config now id active markets : ∀ summary progressed,
  (expire_markets config now id active markets summary progressed).1.1 =
  (λ x, if overdue config now id active x then retry_or_fail config now x else x) <$> markets.
Proof.
  induction markets as [|x markets IH]; intros summary progressed; cbn; [done|]. destruct (overdue _ _ _ _ x).
  - specialize (IH (count_timeout config x summary) true). destruct (expire_markets _ _ _ _ _ _ _) as [[??]?].
    cbn in *. by rewrite IH.
  - specialize (IH summary progressed). destruct (expire_markets _ _ _ _ _ _ _) as [[??]?]. cbn in *. by rewrite IH.
Qed.

Lemma overdue_requested config now id active x : overdue config now id active x = true → requested (ms_phase x) = true.
Proof. unfold overdue. by destruct (ms_phase x). Qed.

Lemma expire_incident_spec now id summary c : Inv c →
  let c' := (expire_incident now id (summary, c)).2 in
  Inv c' ∧ rc_config c' = rc_config c ∧ rc_active_recovery_by_market c' = rc_active_recovery_by_market c ∧
  ∀ k, ri_market_recoveries <$> rc_incidents c' !! k =
    (λ i, if decide (k = id) then after_timeout c now id <$> ri_market_recoveries i else ri_market_recoveries i)
      <$> rc_incidents c !! k.
Proof.
  intros Hc. cbv zeta. unfold expire_incident. destruct (rc_incidents c !! id) as [i|] eqn:Hi.
  2: { split_and!; try done. intros k. cbn. case_decide as Hk; [subst k; by rewrite Hi|done]. }
  pose proof (expire_markets_spec (rc_config c) now id (rc_active_recovery_by_market c) (ri_market_recoveries i)
    summary false) as Hm. fold (after_timeout c now id) in Hm.
  destruct (expire_markets _ _ _ _ _ _ _) as [[markets summary1] progressed]. cbn [fst] in Hm. subst markets. cbn [snd].
  set (i' := if progressed then _ else _).
  assert (ri_recovery_id i' = ri_recovery_id i ∧ ri_universe_version i' = ri_universe_version i ∧ ri_source i' = ri_source i
    ∧ ri_market_recoveries i' = after_timeout c now id <$> ri_market_recoveries i) as (F1 & F2 & F3 & F4)
    by (unfold i'; by destruct progressed).
  clearbody i'. split_and!; [|done|done|].
  - eapply (Inv_map_same _ _ _ _ (after_timeout c now id)); try done; unfold after_timeout.
    + intros x. destruct (overdue _ _ _ _ x); [apply retry_or_fail_id|done].
    + intros x _ Hok. destruct (overdue _ _ _ _ x) eqn:E; [|done]. apply retry_or_fail_ok; [|done].
      by eapply overdue_requested.
    + intros x _. destruct (overdue _ _ _ _ x) eqn:E; [|done]. rewrite retry_or_fail_open. symmetry.
      by eapply requested_open, overdue_requested.
  - intros k. cbn. case_decide as Hk; [subst k|].
    + rewrite lookup_insert_eq, Hi. cbn. by rewrite F4.
    + by rewrite lookup_insert_ne.
Qed.

Lemma expire_fold now ids : ∀ summary c, NoDup ids → Inv c →
  let c' := (foldl (λ acc id, expire_incident now id acc) (summary, c) ids).2 in
  Inv c' ∧ rc_config c' = rc_config c ∧ rc_active_recovery_by_market c' = rc_active_recovery_by_market c ∧
  ∀ k, ri_market_recoveries <$> rc_incidents c' !! k =
    (λ i, if decide (k ∈ ids) then after_timeout c now k <$> ri_market_recoveries i else ri_market_recoveries i)
      <$> rc_incidents c !! k.
Proof.
  induction ids as [|id ids IH]; intros summary c Hnd Hc; cbv zeta; cbn [foldl].
  { split_and!; try done. }
  apply NoDup_cons in Hnd as [Hid Hnd].
  destruct (expire_incident_spec now id summary c Hc) as (H1 & H2 & H3 & H4).
  destruct (expire_incident now id (summary, c)) as [summary1 c1]. cbn [snd] in *.
  destruct (IH summary1 c1 Hnd H1) as (G1 & G2 & G3 & G4). split_and!; [done|congruence|congruence|].
  intros k. rewrite G4. specialize (H4 k). unfold after_timeout in *. rewrite H2, H3 in *.
  destruct (rc_incidents c1 !! k) as [i1|], (rc_incidents c !! k) as [i|]; cbn in *; try done.
  injection H4 as H4. f_equal. rewrite H4. repeat case_decide; try done; set_solver.
Qed.

Lemma expire_spec now c : Inv c →
  let c' := (expire_timeouts hash_order now c).2 in
  Inv c' ∧ rc_config c' = rc_config c ∧ rc_active_recovery_by_market c' = rc_active_recovery_by_market c ∧
  ∀ k, ri_market_recoveries <$> rc_incidents c' !! k =
    (λ i, after_timeout c now k <$> ri_market_recoveries i) <$> rc_incidents c !! k.
Proof.
  intros Hc. cbv zeta. unfold expire_timeouts.
  destruct (expire_fold now (incident_ids hash_order c) default_RecoveryTimeoutSummary c) as (H1 & H2 & H3 & H4);
    [unfold incident_ids; rewrite hash_order_perm; apply NoDup_fst_map_to_list|done|].
  split_and!; try done. intros k. rewrite H4. destruct (rc_incidents c !! k) as [i|] eqn:Hi; [|done]. cbn. f_equal.
  rewrite decide_True; [done|]. apply elem_of_incident_ids. by exists i.
Qed.

(** ** Observations *)

Lemma latch_markets_spec alloc id ms : ∀ n active active', latch_markets alloc n id ms active = Some active' →
  NoDup ms ∧ (∀ m, m ∈ ms → active !! m = None) ∧
  ∀ m, active' !! m = if decide (m ∈ ms) then Some id else active !! m.
Proof.
  induction ms as [|m ms IH]; intros n active active'; cbn.
  { intros [= ->]. split_and!; [apply NoDup_nil_2|intros m Hm; by apply elem_of_nil in Hm|].
    intros m. rewrite decide_False; [done|apply not_elem_of_nil]. }
  destruct (negb _); [done|]. destruct (active !! m) eqn:Em; [done|]. intros H.
  apply IH in H as (H1 & H2 & H3).
  assert (m ∉ ms) as Hm by (intros Hin; apply H2 in Hin; by rewrite lookup_insert_eq in Hin).
  split_and!.
  - by apply NoDup_cons.
  - intros k [->|Hk]%elem_of_cons; [done|]. rewrite <- (lookup_insert_ne active m k id); [by apply H2|by intros ->].
  - intros k. rewrite H3. destruct (decide (k = m)) as [->|Hne].
    + rewrite decide_False by done. rewrite lookup_insert_eq, decide_True; [done|left].
    + rewrite lookup_insert_ne by done. destruct (decide (k ∈ ms)); [rewrite decide_True by (by right)|
        rewrite decide_False by (rewrite elem_of_cons; naive_solver)]; done.
Qed.

(** The coordinator [c'] is [c] with a new incident [i] for the markets [ms]. *)
Definition recorded (key : RecoverySourceKey) (i : RecoveryIncidentState) (ms : list Z) (c c' : RecoveryCoordinator) : Prop :=
  let id := rc_next_recovery_id c in
  ri_recovery_id i = id ∧ (ri_universe_version i, ri_source i) = key ∧ market_ids i = ms ∧ NoDup ms ∧
  id ≠ 0 ∧ rc_incidents c !! id = None ∧ rc_recovery_by_source c !! key = None ∧
  (∀ m, m ∈ ms → rc_active_recovery_by_market c !! m = None) ∧
  rc_incidents c' = <[id := i]> (rc_incidents c) ∧ rc_recovery_by_source c' = <[key := id]> (rc_recovery_by_source c) ∧
  rc_next_recovery_id c' = u64 (id + 1) ∧ rc_config c' = rc_config c ∧
  ∀ m, rc_active_recovery_by_market c' !! m =
    if decide (m ∈ ms) then Some id else rc_active_recovery_by_market c !! m.

Lemma create_recorded alloc key i c c' : create_incident alloc key i c = Some c' →
  ri_recovery_id i = rc_next_recovery_id c → (ri_universe_version i, ri_source i) = key → rc_next_recovery_id c ≠ 0 →
  rc_incidents c !! rc_next_recovery_id c = None → rc_recovery_by_source c !! key = None →
  recorded key i (market_ids i) c c'.
Proof.
  unfold create_incident. intros H E1 E2 H0 Hi Hk. destruct (_ || _); [done|].
  destruct (latch_markets _ _ _ _ _) as [active|] eqn:El; [|done]. cbn in H. injection H as <-.
  apply latch_markets_spec in El as (H1 & H2 & H3). rewrite E1 in H3. unfold recorded, market_ids.
  split_and!; try done; cbn; by rewrite E1.
Qed.

(** A market nothing was sent for yet. *)
Definition untried (now : Z) (x : MarketRecoveryState) : Prop :=
  ms_phase x = kPENDING_REQUEST ∧ ms_attempts_sent x = 0 ∧ ms_next_attempt_time x = now.

Lemma recorded_Inv key i ms now c c' : Inv c → recorded key i ms c c' → Forall (untried now) (ri_market_recoveries i) → Inv c'.
Proof.
  intros Hc (E1 & E2 & E3 & Hnd & H0 & Hi & Hk & Hms & F1 & F2 & F3 & F4 & F5) Hnew.
  pose proof (inv_next _ Hc) as Hn. split.
  - rewrite F3. apply u64_range.
  - intros id j Hj. rewrite F1 in Hj. destruct (decide (id = rc_next_recovery_id c)) as [->|Hne].
    + rewrite lookup_insert_eq in Hj. injection Hj as <-. split.
      * split_and!; [done|lia|]. rewrite F3. intros Hu. destruct (decide (rc_next_recovery_id c = U64_MAX)) as [E|E].
        -- by rewrite E in Hu.
        -- rewrite u64_id by (unfold is_u64; lia). lia.
      * rewrite F4. split; [by rewrite E3|]. eapply Forall_impl; [exact Hnew|]. intros x (P1 & P2 & _).
        unfold market_ok, limit. rewrite P1, P2. split; [lia|]. split; [by left|]. by intros [].
      * by rewrite F2, E2, lookup_insert_eq.
    + rewrite lookup_insert_ne in Hj by done. destruct (inv_incident _ Hc _ _ Hj) as [(A1 & A2 & A3) A4 A5]. split.
      * split_and!; [done|done|]. intros Hu. specialize (A3 H0). rewrite F3 in *.
        destruct (decide (rc_next_recovery_id c = U64_MAX)) as [E|E]; [by rewrite E in Hu|].
        rewrite u64_id by (unfold is_u64; lia). lia.
      * by rewrite F4.
      * rewrite F2, lookup_insert_ne; [done|]. intros E. rewrite E, A5 in Hk. done.
  - intros m id. rewrite F5. unfold holds. rewrite F1. case_decide as Hm.
    + split.
      * intros [= <-]. rewrite <- E3 in Hm. apply list_elem_of_fmap in Hm as (x & -> & Hx). exists i, x.
        rewrite lookup_insert_eq. split_and!; try done. rewrite Forall_forall in Hnew. by destruct (Hnew x Hx) as [-> _].
      * intros (j & x & Hj & Hx & <- & Ho). destruct (decide (id = rc_next_recovery_id c)) as [->|Hne]; [done|].
        rewrite lookup_insert_ne in Hj by done. apply Hms in Hm.
        assert (rc_active_recovery_by_market c !! ms_market_id x = Some id) as Ha
          by (apply (inv_latch _ Hc); by exists j, x). congruence.
    + rewrite (inv_latch _ Hc). unfold holds. split.
      * intros (j & x & Hj & Hx & ? & Ho). exists j, x. rewrite lookup_insert_ne; [done|]. intros <-. congruence.
      * intros (j & x & Hj & Hx & <- & Ho). destruct (decide (id = rc_next_recovery_id c)) as [->|Hne].
        -- rewrite lookup_insert_eq in Hj. injection Hj as <-. destruct Hm. rewrite <- E3. apply list_elem_of_fmap. by exists x.
        -- rewrite lookup_insert_ne in Hj by done. by exists j, x.
Qed.

(** An unused id: ids are handed out in order. *)
Lemma next_id_fresh c : Inv c → rc_next_recovery_id c ≠ 0 → rc_incidents c !! rc_next_recovery_id c = None.
Proof.
  intros Hc H0. destruct (rc_incidents c !! _) as [i|] eqn:Hi; [|done].
  destruct (inv_incident _ Hc _ _ Hi) as [(_ & _ & H) _ _]. specialize (H H0). lia.
Qed.

(** What a loss report is about. *)
Inductive Loss :=
  | LossOfMarket (fact : ShardMarketRecoveryRequired)
  | LossOfSubscription (fact : OrderBookSubscriptionBarrierDelivered).

Definition observe (alloc : nat → bool) (loss : Loss) (universe : UniverseSnapshot) (now : Z) (c : RecoveryCoordinator)
    : option RecoveryObservationResult * RecoveryCoordinator :=
  match loss with
  | LossOfMarket fact => observe_market alloc fact universe now c
  | LossOfSubscription fact => observe_subscription alloc fact universe now c
  end.

Definition loss_key (loss : Loss) : RecoverySourceKey :=
  match loss with
  | LossOfMarket fact => (mq_universe_version fact, mq_incident fact)
  | LossOfSubscription fact => (bd_universe_version fact, bd_incident fact)
  end.

(** The markets it makes unusable that are not being recovered yet. *)
Definition lost_markets (loss : Loss) (universe : UniverseSnapshot) (c : RecoveryCoordinator) : list Z :=
  match loss with
  | LossOfMarket fact => [mq_market_id fact]
  | LossOfSubscription _ =>
      filter (λ m, rc_active_recovery_by_market c !! m = None) (ur_market_id <$> us_market_routes universe)
  end.

Lemma unlatched_markets_spec active now routes : ∀ existing,
  let markets := (unlatched_markets routes active now existing).1 in
  ms_market_id <$> markets = filter (λ m, active !! m = None) (ur_market_id <$> routes) ∧ Forall (untried now) markets.
Proof.
  induction routes as [|route routes IH]; intros existing; cbv zeta; [done|].
  rewrite fmap_cons. cbn [unlatched_markets]. destruct (active !! ur_market_id route) eqn:E.
  - rewrite filter_cons_False by (rewrite E; done). apply IH.
  - rewrite filter_cons_True by done. specialize (IH existing).
    destruct (unlatched_markets _ _ _ _) as [markets existing']. cbn in *. destruct IH as [-> H]. split; [done|]. by constructor.
Qed.

Definition observed (now : Z) (loss : Loss) (universe : UniverseSnapshot) c (r : option RecoveryObservationResult) c' : Prop :=
  (c' = c ∧ ∀ res, r = Some res → ob_code res ≠ kCREATED) ∨
  ∃ i, r = Some (mkRecoveryObservationResult kCREATED (rc_next_recovery_id c)
                   (Z.of_nat (length (lost_markets loss universe c)))) ∧
    us_version universe = (loss_key loss).1 ∧ Forall (untried now) (ri_market_recoveries i) ∧
    recorded (loss_key loss) i (lost_markets loss universe c) c c'.

Lemma observe_market_spec alloc fact universe now c : Inv c →
  let '(r, c') := observe_market alloc fact universe now c in observed now (LossOfMarket fact) universe c r c'.
Proof.
  intros Hc. unfold observe_market.
  destruct ((_ =? 0) || negb (_ =? _)) eqn:Hu; [left; split; [done|]; by intros ? [= <-]|].
  destruct (bool_decide _ || _) eqn:Hin; [left; split; [done|]; by intros ? [= <-]|].
  destruct (negb (valid_targeted_incident_source _)); [left; split; [done|]; by intros ? [= <-]|].
  destruct (find_if _ _) as [route|]; [|left; split; [done|]; by intros ? [= <-]].
  destruct (negb (ur_event_id route =? _) || _); [left; split; [done|]; by intros ? [= <-]|].
  destruct (rc_recovery_by_source c !! _) eqn:Hs; [left; split; [done|]; by intros ? [= <-]|].
  destruct (rc_active_recovery_by_market c !! _) eqn:Ha; [left; split; [done|]; by intros ? [= <-]|].
  destruct (Z.eqb_spec (rc_next_recovery_id c) 0) as [|H0]; [left; split; [done|]; by intros ? [= <-]|].
  rewrite (next_id_fresh c Hc H0), bool_decide_eq_false_2 by (by intros [? ?]).
  destruct (create_incident _ _ _ _) as [c'|] eqn:Ec; [|by left; split].
  pose proof (create_recorded _ _ _ _ _ Ec eq_refl eq_refl H0 (next_id_fresh c Hc H0) Hs) as Hrec.
  right. guards. eexists. split; [reflexivity|]. split; [done|]. split; [|exact Hrec]. by constructor.
Qed.

Lemma observe_subscription_spec alloc fact universe now c : Inv c →
  let '(r, c') := observe_subscription alloc fact universe now c in observed now (LossOfSubscription fact) universe c r c'.
Proof.
  intros Hc. unfold observe_subscription.
  destruct ((_ =? 0) || negb (_ =? _)) eqn:Hu; [left; split; [done|]; by intros ? [= <-]|].
  destruct (_ || _ || _) eqn:Hin in |- *; [left; split; [done|]; by intros ? [= <-]|].
  destruct (negb (bool_decide (bd_reason fact = _))); [left; split; [done|]; by intros ? [= <-]|].
  destruct (rc_recovery_by_source c !! _) eqn:Hs; [left; split; [done|]; by intros ? [= <-]|].
  destruct (bool_decide (us_market_routes universe = [])); [left; split; [done|]; by intros ? [= <-]|].
  destruct (Z.eqb_spec (rc_next_recovery_id c) 0) as [|H0]; [left; split; [done|]; by intros ? [= <-]|].
  pose proof (unlatched_markets_spec (rc_active_recovery_by_market c) now (us_market_routes universe) 0) as [Hm Hnew].
  destruct (unlatched_markets _ _ _ _) as [markets existing]. cbn [fst] in *.
  destruct (bool_decide (markets = [])); [left; split; [done|]; by intros ? [= <-]|].
  rewrite (next_id_fresh c Hc H0), bool_decide_eq_false_2 by (by intros [? ?]).
  destruct (create_incident _ _ _ _) as [c'|] eqn:Ec; [|by left; split].
  pose proof (create_recorded _ _ _ _ _ Ec eq_refl eq_refl H0 (next_id_fresh c Hc H0) Hs) as Hrec.
  unfold market_ids in Hrec. cbn [ri_market_recoveries] in Hrec. rewrite Hm in Hrec.
  right. guards. eexists. split; [cbn; by rewrite <- Hm, length_fmap|]. split; [done|]. by split; [|exact Hrec].
Qed.

Lemma observe_spec alloc loss universe now c : Inv c →
  let '(r, c') := observe alloc loss universe now c in observed now loss universe c r c' ∧ Inv c' ∧ rc_config c' = rc_config c.
Proof.
  intros Hc. assert (let '(r, c') := observe alloc loss universe now c in observed now loss universe c r c') as H
    by (destruct loss; [by apply observe_market_spec|by apply observe_subscription_spec]).
  destruct (observe alloc loss universe now c) as [r c']. split; [done|].
  destruct H as [[-> _]|(i & _ & _ & Hnew & Hr)]; [done|]. split; [by eapply recorded_Inv|]. by apply Hr.
Qed.
End Ops.
End RecoveryInv.
