(* ===== verification/RecoverySafety.v ===== *)
(** * RecoverySafety: what the recovery coordinator guarantees

    Theorems over every sequence of observations, requests, facts, timeouts and
    universe changes.

    At the end, Module [WireRetry]: the coordinator's retries meet the wire session. *)

From S2P Require Import Prelude Spsc MarketTypes FramePool Event Router ControlTypes ShardTypes MarketParser WireTypes Wire WireStream WireRecovery Recovery RecoveryInv.

Module RecoverySafety.
Import Recovery RecoveryInv.

Inductive RecoveryOp :=
  | OpObserve (alloc : nat → bool) (loss : Loss) (universe : UniverseSnapshot) (now : Z)
  | OpMark (command : RecoverMarketIo) (now : Z)
  | OpAccepted (fact : IoRecoveryRequestAccepted) (now : Z)
  | OpFailed (fact : IoRecoveryRequestFailed) (now : Z)
  | OpSnapshot (fact : ShardRecoverySnapshotApplied) (universe : UniverseSnapshot) (now : Z)
  | OpExpire (now : Z)
  | OpSupersede (new_universe_version now : Z).

Section Safety.
Variable hash_order : list Z → list Z.
Hypothesis hash_order_perm : ∀ l, hash_order l ≡ₚ l.
Implicit Types c : RecoveryCoordinator.

Definition exec (op : RecoveryOp) c : RecoveryCoordinator :=
  match op with
  | OpObserve alloc loss universe now => (observe alloc loss universe now c).2
  | OpMark command now => (mark_command_enqueued command now c).2
  | OpAccepted fact now => (handle_accepted fact now c).2
  | OpFailed fact now => (handle_failed fact now c).2
  | OpSnapshot fact universe now => (handle_snapshot_applied fact universe now c).2
  | OpExpire now => (expire_timeouts hash_order now c).2
  | OpSupersede v now => (supersede_before_universe hash_order v now c).2
  end.

Definition exec_all (ops : list RecoveryOp) c : RecoveryCoordinator := foldl (λ c op, exec op c) c ops.

(** Requests and facts leave latches and configuration alone. *)
Lemma mark_frame command now c : rc_config (mark_command_enqueued command now c).2 = rc_config c ∧
  rc_active_recovery_by_market (mark_command_enqueued command now c).2 = rc_active_recovery_by_market c.
Proof. unfold mark_command_enqueued. by repeat next_guard. Qed.

Lemma accepted_frame fact now c : rc_config (handle_accepted fact now c).2 = rc_config c ∧
  rc_active_recovery_by_market (handle_accepted fact now c).2 = rc_active_recovery_by_market c.
Proof. unfold handle_accepted. cbv zeta. by repeat next_guard. Qed.

Lemma failed_frame fact now c : rc_config (handle_failed fact now c).2 = rc_config c ∧
  rc_active_recovery_by_market (handle_failed fact now c).2 = rc_active_recovery_by_market c.
Proof. unfold handle_failed. cbv zeta. by repeat next_guard. Qed.

Lemma exec_Inv op c : is_u32 (cf_max_attempts (rc_config c)) → Inv c → Inv (exec op c) ∧ rc_config (exec op c) = rc_config c.
Proof.
  intros Hmax Hc. destruct op as [alloc loss universe now| | | |fact universe now|now|v now]; cbn [exec].
  - pose proof (observe_spec alloc loss universe now c Hc) as H.
    destruct (observe alloc loss universe now c) as [r c']. by destruct H as [_ H].
  - split; [by apply mark_Inv|apply mark_frame].
  - split; [by apply accepted_Inv|apply accepted_frame].
  - split; [by apply failed_Inv|apply failed_frame].
  - split; [by apply snapshot_Inv|].
    by destruct (snapshot_cases fact universe now c) as [->|(_ & i & x & _ & _ & _ & _ & _ & _ & _ & _ & ->)].
  - by destruct (expire_spec hash_order hash_order_perm now c Hc) as (? & ? & _).
  - destruct (decide (v = 0)) as [->|Hv]; [done|].
    by destruct (supersede_spec hash_order hash_order_perm v now c Hc Hv) as (? & ? & _).
Qed.

Lemma exec_all_Inv ops : ∀ c, is_u32 (cf_max_attempts (rc_config c)) → Inv c →
  Inv (exec_all ops c) ∧ rc_config (exec_all ops c) = rc_config c.
Proof.
  induction ops as [|op ops IH]; intros c Hmax Hc; [done|]. cbn.
  destruct (exec_Inv op c Hmax Hc) as [H1 H2]. rewrite <- H2 in Hmax. destruct (IH _ Hmax H1) as [H3 H4].
  split; [done|]. by etrans.
Qed.

(** ** Requests *)

Lemma find_market_elem c id i x : Inv c → rc_incidents c !! id = Some i → x ∈ ri_market_recoveries i →
  find_market (ms_market_id x) (ri_market_recoveries i) = Some x.
Proof.
  intros Hc Hi Hx. destruct (find_market (ms_market_id x) (ri_market_recoveries i)) as [y|] eqn:Hy.
  - destruct (find_market_unique _ _ _ _ _ Hc Hi Hy) as (_ & _ & Hu). f_equal. symmetry. by apply Hu.
  - eapply find_if_None in Hy; [|exact Hx]. by rewrite Z.eqb_refl in Hy.
Qed.

(** The incident [id] offers the request of its market [x]. *)
Definition offers (now : Z) c (command : RecoverMarketIo) : Prop :=
  ∃ id i x, rc_incidents c !! id = Some i ∧ x ∈ ri_market_recoveries i ∧ ready now x = true ∧ command = request i x.

Lemma mark_offered now c command : Inv c → offers now c command →
  (mark_command_enqueued command now c).1 = true ∧
  ∀ other, offers now c other → rq_market_id other ≠ rq_market_id command →
    offers now (mark_command_enqueued command now c).2 other.
Proof.
  intros Hc (id & i & x & Hi & Hx & Hr & ->). destruct (inv_incident _ Hc _ _ Hi) as [(Hid & _) [Hnd _] _].
  unfold ready in Hr. rewrite !andb_true_iff in Hr. destruct Hr as [[Hp Ht] Hm]. apply bool_decide_eq_true in Hp.
  apply negb_true_iff in Hm.
  assert (latched id (ms_market_id x) c = true) as Hl.
  { apply bool_decide_eq_true, (inv_latch _ Hc). exists i, x. by rewrite Hp. }
  unfold mark_command_enqueued. cbn [request rq_recovery_id rq_universe_version rq_market_id rq_request_attempt].
  rewrite Hid, Hi, Z.eqb_refl, (find_market_elem c id i x Hc Hi Hx), Hl, Hm, Z.eqb_refl, Z.gtb_ltb.
  rewrite bool_decide_eq_true_2 by done. apply Z.leb_le in Ht. rewrite (proj2 (Z.ltb_ge _ _)) by done. cbn [negb orb fst snd].
  split; [done|]. rewrite (set_market_insert _ _ _ _ _ _ Hi).
  intros other (id' & j & y & Hj & Hy & Hry & ->) Hne. destruct (decide (id' = id)) as [->|Hid'].
  - assert (j = i) as -> by congruence. exists id. eexists _, y. split; [apply lookup_insert_eq|]. cbn in *.
    split; [|by split]. rewrite update_market_map by done. apply list_elem_of_fmap. exists y. split; [|done].
    by rewrite (proj2 (Z.eqb_neq _ _) Hne).
  - exists id', j, y. split; [|done]. cbn. by rewrite lookup_insert_ne.
Qed.

Fixpoint mark_all (now : Z) (commands : list RecoverMarketIo) c : list bool * RecoveryCoordinator :=
  match commands with
  | [] => ([], c)
  | command :: commands' =>
      let '(b, c1) := mark_command_enqueued command now c in
      let '(bs, c2) := mark_all now commands' c1 in (b :: bs, c2)
  end.

Lemma mark_all_offered now commands : ∀ c, is_u32 (cf_max_attempts (rc_config c)) → Inv c →
  NoDup (rq_market_id <$> commands) → Forall (offers now c) commands →
  (mark_all now commands c).1 = replicate (length commands) true.
Proof.
  induction commands as [|command commands IH]; intros c Hmax Hc Hnd Ho; [done|]. cbn.
  apply Forall_cons in Ho as [Ho Hos]. apply NoDup_cons in Hnd as [Hm Hnd].
  destruct (mark_offered now c command Hc Ho) as [Hb Hkeep]. pose proof (mark_Inv command now c Hmax Hc) as Hc1.
  pose proof (proj1 (mark_frame command now c)) as Hcfg.
  destruct (mark_command_enqueued command now c) as [b c1]. cbn in *. subst b.
  assert ((mark_all now commands c1).1 = replicate (length commands) true) as H.
  { apply IH; [by rewrite Hcfg|done|done|]. rewrite Forall_forall in Hos |- *. intros other Hin.
    apply Hkeep; [by apply Hos|]. intros E. apply Hm, list_elem_of_fmap. exists other. by split. }
  destruct (mark_all now commands c1) as [bs c2]. cbn in *. by rewrite H.
Qed.

(** Incident [id] has a market whose request may be sent. *)
Definition has_ready (now : Z) c (id : Z) : Prop :=
  ∃ i, rc_incidents c !! id = Some i ∧ existsb (ready now) (ri_market_recoveries i) = true.

(** The first loop selects the oldest such incident. *)
Lemma select_incident_spec now c ids : Inv c →
  match foldl (select_incident now c) None ids with
  | None => ∀ id, id ∈ ids → ¬ has_ready now c id
  | Some i => has_ready now c (ri_recovery_id i) ∧ rc_incidents c !! ri_recovery_id i = Some i ∧
      ∀ id, id ∈ ids → has_ready now c id → ri_recovery_id i ≤ id
  end.
Proof.
  intros Hc. induction ids as [|id ids IH] using rev_ind; cbn; [intros id Hid; by apply elem_of_nil in Hid|].
  rewrite foldl_app. cbn. set (sel := foldl _ _ ids) in *. clearbody sel. unfold select_incident.
  destruct (rc_incidents c !! id) as [i|] eqn:Hi.
  2: { assert (¬ has_ready now c id) as Hn by (intros (j & Hj & _); congruence).
       destruct sel as [si|]; [destruct IH as (H1 & H2 & H3); split_and!; try done|];
         intros k [Hk| ->%list_elem_of_singleton]%elem_of_app Hr; try done; by apply (IH k) || by apply H3. }
  destruct (inv_incident _ Hc _ _ Hi) as [(Hid & _) _ _].
  destruct (existsb (ready now) (ri_market_recoveries i)) eqn:He; cbn [andb].
  - assert (has_ready now c id) as Hr by (by exists i).
    destruct sel as [si|]; [destruct IH as (H1 & H2 & H3); destruct (Z.ltb_spec id (ri_recovery_id si))|].
    + rewrite Hid. split_and!; try done. intros k [Hk| ->%list_elem_of_singleton]%elem_of_app Hrk; [|lia].
      specialize (H3 k Hk Hrk). lia.
    + split_and!; try done. intros k [Hk| ->%list_elem_of_singleton]%elem_of_app Hrk; [by apply H3|lia].
    + rewrite Hid. split_and!; try done. intros k [Hk| ->%list_elem_of_singleton]%elem_of_app Hrk; [|lia].
      by apply IH in Hrk.
  - assert (¬ has_ready now c id) as Hn by (intros (j & Hj & Hr); congruence).
    destruct sel as [si|]; [destruct IH as (H1 & H2 & H3); split_and!; try done|];
      intros k [Hk| ->%list_elem_of_singleton]%elem_of_app Hr; try done; by apply (IH k) || by apply H3.
Qed.

(** ** Retries *)

(** The loop doubles [delay] until [attempts_sent] or the maximum is reached. *)
Lemma backoff_loop_spec fuel : ∀ attempt attempts_sent delay max_backoff,
  0 < delay ≤ max_backoff → attempts_sent - attempt ≤ Z.of_nat fuel →
  backoff_loop fuel attempt attempts_sent delay max_backoff =
    Z.min max_backoff (delay * 2 ^ Z.max 0 (attempts_sent - attempt)).
Proof.
  induction fuel as [|fuel IH]; intros attempt attempts_sent delay max_backoff Hd Hf; cbn [backoff_loop].
  { replace (Z.max 0 (attempts_sent - attempt)) with 0 by lia. lia. }
  destruct (Z.ltb_spec attempt attempts_sent) as [Ha|Ha]; cbn [andb].
  2: { replace (Z.max 0 (attempts_sent - attempt)) with 0 by lia. lia. }
  assert (2 ^ Z.max 0 (attempts_sent - attempt) = 2 * 2 ^ Z.max 0 (attempts_sent - (attempt + 1))) as ->.
  { rewrite <- Z.pow_succ_r by lia. f_equal. lia. }
  pose proof (Z.pow_pos_nonneg 2 (Z.max 0 (attempts_sent - (attempt + 1))) ltac:(lia) ltac:(lia)) as Hp.
  set (p := 2 ^ _) in *. assert (delay * (2 * p) = delay * 2 * p) as -> by lia.
  assert (delay * 2 ≤ delay * 2 * p) by nia.
  destruct (Z.ltb_spec delay max_backoff) as [Hlt|Hge]; [|lia].
  rewrite Z.quot_div_nonneg, Z.gtb_ltb by lia. pose proof (Z.div_mod max_backoff 2). pose proof (Z.mod_pos_bound max_backoff 2).
  destruct (Z.ltb_spec (max_backoff / 2) delay); [lia|]. rewrite IH by lia. done.
Qed.

Lemma retry_backoff_spec config attempts_sent : 0 < cf_initial_backoff config → 0 < cf_max_backoff config →
  1 ≤ attempts_sent →
  retry_backoff config attempts_sent =
    Z.min (cf_max_backoff config) (cf_initial_backoff config * 2 ^ (attempts_sent - 1)).
Proof.
  intros Hi Hm Ha. unfold retry_backoff. rewrite backoff_loop_spec by lia.
  replace (Z.max 0 (attempts_sent - 1)) with (attempts_sent - 1) by lia.
  pose proof (Z.pow_pos_nonneg 2 (attempts_sent - 1) ltac:(lia) ltac:(lia)).
  destruct (Z.le_gt_cases (cf_initial_backoff config) (cf_max_backoff config)).
  - by rewrite (Z.min_l (cf_initial_backoff config)).
  - rewrite (Z.min_r (cf_initial_backoff config)) by lia. rewrite !Z.min_l by nia. done.
Qed.

(** When the answer to the last request of a market is due. *)
Definition deadline (config : RecoveryCoordinatorConfig) (x : MarketRecoveryState) : option Z :=
  match ms_phase x with
  | kREQUEST_ENQUEUED => Some (ms_last_attempt_time x + 1000000 * cf_request_ack_timeout config)
  | kREQUEST_ACCEPTED => Some (ms_last_attempt_time x + 1000000 * cf_snapshot_timeout config)
  | _ => None
  end.

(** What the passage of time does to a market. *)
Definition retried (config : RecoveryCoordinatorConfig) (now : Z) (x : MarketRecoveryState) : MarketRecoveryState :=
  match deadline config x with
  | Some t =>
      if now <? t then x
      else if cf_max_attempts config <=? ms_attempts_sent x then x ⟪ ms_phase := kFAILED ⟫
      else x ⟪ ms_phase := kPENDING_REQUEST ⟫
             ⟪ ms_next_attempt_time := now + 1000000 * Z.min (cf_max_backoff config)
                 (cf_initial_backoff config * 2 ^ (ms_attempts_sent x - 1)) ⟫
  | None => x
  end.

Lemma after_timeout_retried c now id i x : 0 < cf_initial_backoff (rc_config c) → 0 < cf_max_backoff (rc_config c) →
  Inv c → rc_incidents c !! id = Some i → x ∈ ri_market_recoveries i →
  after_timeout c now id x = retried (rc_config c) now x.
Proof.
  intros Hib Hmb Hc Hi Hx. destruct (inv_incident _ Hc _ _ Hi) as [_ [_ Hok] _].
  rewrite Forall_forall in Hok. destruct (Hok x Hx) as (A1 & A2 & A3).
  assert (requested (ms_phase x) = true → rc_active_recovery_by_market c !! ms_market_id x = Some id) as Hl.
  { intros Hr. apply (inv_latch _ Hc). exists i, x. split_and!; try done. by apply requested_open. }
  unfold after_timeout, overdue, retried, deadline, retry_or_fail, kNANOSECONDS_PER_MILLISECOND. rewrite Z.geb_leb.
  destruct (ms_phase x) eqn:Ep; try done; specialize (Hl eq_refl); rewrite Hl, bool_decide_eq_true_2, andb_true_r by done;
    (destruct (_ <? _); [done|]); cbn [negb]; (destruct (_ <=? _); [done|]);
    by rewrite retry_backoff_spec by (done || apply A3; by left).
Qed.

Section Reachable.
Variables (config : RecoveryCoordinatorConfig) (ops : list RecoveryOp).
Hypothesis max_attempts_u32 : is_u32 (cf_max_attempts config).
Let c : RecoveryCoordinator := exec_all ops (make_coordinator config).

Lemma reachable_Inv : Inv c ∧ rc_config c = config.
Proof. by apply (exec_all_Inv ops (make_coordinator config)), make_coordinator_Inv. Qed.

(** In every state the coordinator can reach, a market is latched exactly by the
    incident that has it open, no two incidents have the same market open, and no
    market was ever asked for more often than the configured number of attempts (once,
    if that is zero). *)
Theorem recovery_single_owner :
  (∀ m id, rc_active_recovery_by_market c !! m = Some id ↔ holds c id m) ∧
  (∀ m id id', holds c id m → holds c id' m → id = id') ∧
  (∀ id i x, rc_incidents c !! id = Some i → x ∈ ri_market_recoveries i →
     0 ≤ ms_attempts_sent x ≤ Z.max 1 (cf_max_attempts config)).
Proof.
  destruct reachable_Inv as [Hc Hcfg]. split_and!.
  - apply Hc.
  - intros m id id' H1%(inv_latch _ Hc) H2%(inv_latch _ Hc). congruence.
  - intros id i x Hi Hx. destruct (inv_incident _ Hc _ _ Hi) as [_ [_ H] _]. rewrite Forall_forall, Hcfg in H.
    by apply (H x).
Qed.

(** The operation completes the recovery of [m] by incident [id]: the shard applied
    the snapshot asked for under that incident. *)
Definition completes (op : RecoveryOp) (m id : Z) : Prop :=
  ∃ fact universe now i x, op = OpSnapshot fact universe now ∧
    rs_recovery_id fact = id ∧ rs_market_id fact = m ∧
    rc_incidents c !! id = Some i ∧ x ∈ ri_market_recoveries i ∧ ms_market_id x = m ∧
    rs_universe_version fact = ri_universe_version i ∧ us_version universe = ri_universe_version i ∧
    rs_shard_index fact = ms_shard_index x ∧ 1 ≤ ms_attempts_sent x ∧
    (rs_transition fact = Event.kRECOVERED ∨ rs_transition fact = Event.kTRANSITION_NONE).

(** It replaces the universe the incident belongs to. *)
Definition supersedes (op : RecoveryOp) (id : Z) : Prop :=
  ∃ v now i, op = OpSupersede v now ∧ v ≠ 0 ∧ rc_incidents c !! id = Some i ∧ ri_universe_version i ≠ v.

(** Recovery of a market ends only when the shard that owns it has applied a
    snapshot carrying the incident's id, for the incident's universe and after a
    request was sent, or when the universe is replaced; no acknowledgement, failure,
    timeout or further loss report releases it. *)
Theorem recovery_ends_with_snapshot op m id : rc_active_recovery_by_market c !! m = Some id →
  rc_active_recovery_by_market (exec op c) !! m ≠ Some id → completes op m id ∨ supersedes op id.
Proof.
  destruct reachable_Inv as [Hc Hcfg]. intros Ha Hn.
  destruct op as [alloc loss universe now|command now|fact now|fact now|fact universe now|now|v now]; cbn [exec] in Hn.
  - pose proof (observe_spec alloc loss universe now c Hc) as H. destruct (observe alloc loss universe now c) as [r c'].
    destruct H as [[[-> _]|(i & _ & _ & _ & Hr)] _]; [done|]. cbn in Hn.
    destruct Hr as (_ & _ & _ & _ & _ & _ & _ & Hms & _ & _ & _ & _ & Hact). destruct Hn. rewrite Hact.
    case_decide as Hm; [|done]. apply Hms in Hm. congruence.
  - by rewrite (proj2 (mark_frame _ _ _)) in Hn.
  - by rewrite (proj2 (accepted_frame _ _ _)) in Hn.
  - by rewrite (proj2 (failed_frame _ _ _)) in Hn.
  - left. destruct (snapshot_cases fact universe now c) as [E|(Hu & i & x & Hi & Hx & Hv & Hs & Hl & Ho & Hp & Ht & E)];
      [by rewrite E in Hn|]. rewrite E in Hn. cbn in Hn.
    destruct (decide (m = rs_market_id fact)) as [->|Hne]; [|by rewrite lookup_delete_ne in Hn].
    assert (rs_recovery_id fact = id) as <- by congruence.
    destruct (find_market_unique _ _ _ _ _ Hc Hi Hx) as (Hin & Hm & _).
    exists fact, universe, now, i, x. split_and!; try done; try congruence.
    destruct (inv_incident _ Hc _ _ Hi) as [_ [_ Hok] _]. rewrite Forall_forall in Hok. destruct (Hok x Hin) as (A1 & A2 & A3).
    destruct (ms_phase x); try done; [specialize (Hp eq_refl); lia|apply A3; by left|apply A3; by left|apply A3; by right].
  - by rewrite (proj1 (proj2 (proj2 (expire_spec hash_order hash_order_perm now c Hc)))) in Hn.
  - right. destruct (decide (v = 0)) as [->|Hv]; [done|].
    destruct (supersede_spec hash_order hash_order_perm v now c Hc Hv) as (_ & _ & _ & Hact).
    pose proof Ha as (i & x & Hi & _)%(inv_latch _ Hc). exists v, now, i. split_and!; try done.
    intros E. apply Hn, Hact. split; [done|]. rewrite Hi. cbn. by rewrite E.
Qed.

(** The requests of an incident, in the order they are sent. *)
Lemma sorted_requests now id i : Inv c → rc_incidents c !! id = Some i →
  let commands := merge_sort by_market (request i <$> filter (λ m, ready now m = true) (ri_market_recoveries i)) in
  StronglySorted (λ a b, rq_market_id a < rq_market_id b) commands ∧
  (∀ x, x ∈ ri_market_recoveries i → ready now x = true → request i x ∈ commands) ∧
  Forall (λ command, ∃ x, x ∈ ri_market_recoveries i ∧ ready now x = true ∧ command = request i x) commands.
Proof.
  intros Hc Hi commands. destruct (inv_incident _ Hc _ _ Hi) as [_ [Hnd _] _].
  pose proof (merge_sort_Permutation by_market
    (request i <$> filter (λ m, ready now m = true) (ri_market_recoveries i))) as Hp. fold commands in Hp.
  assert (NoDup (rq_market_id <$> commands)) as Hnd'.
  { rewrite Hp, <- list_fmap_compose. eapply sublist_NoDup; [exact Hnd|]. unfold market_ids.
    apply (fmap_sublist ms_market_id), sublist_filter. }
  split_and!.
  - assert (StronglySorted by_market commands) as Hs.
    { apply Sorted_StronglySorted; [intros ???; unfold by_market; lia|].
      apply Sorted_merge_sort. intros a b. unfold by_market. lia. }
    clearbody commands. clear Hp. induction Hs as [|a l Hs IH Ha]; [constructor|]. cbn in Hnd'.
    apply NoDup_cons in Hnd' as [Hna Hnd']. constructor; [by apply IH|]. rewrite Forall_forall in Ha |- *.
    intros b Hb. specialize (Ha b Hb). unfold by_market in Ha. assert (rq_market_id a ≠ rq_market_id b); [|lia].
    intros E. apply Hna, list_elem_of_fmap. by exists b.
  - intros x Hx Hr. rewrite Hp. apply list_elem_of_fmap. exists x. split; [done|]. by apply list_elem_of_filter.
  - apply Forall_forall. intros command Hin. rewrite Hp in Hin. apply list_elem_of_fmap in Hin as (x & -> & Hx).
    apply list_elem_of_filter in Hx as [Hr Hx]. by exists x.
Qed.

(** The requests the coordinator proposes at time [now] are exactly those it can
    send.  They all belong to the oldest incident with a market that is due, are sorted
    by market without repetition, number at most [n], and leave a due market of that
    incident out only when [n] is reached; there are none exactly when [n] is zero or
    no market is due; and recording them as sent, one after another, succeeds for every
    one of them. *)
Theorem proposed_requests_are_sendable now n :
  let commands := next_pending_commands hash_order now n c in
  (length commands ≤ n)%nat ∧ StronglySorted (λ a b, rq_market_id a < rq_market_id b) commands ∧
  (commands = [] ↔ n = 0%nat ∨ ∀ id, ¬ has_ready now c id) ∧
  (commands ≠ [] → ∃ id i, rc_incidents c !! id = Some i ∧ (∀ id', has_ready now c id' → id ≤ id') ∧
     Forall (λ command, ∃ x, x ∈ ri_market_recoveries i ∧ ready now x = true ∧ command = request i x) commands ∧
     ((length commands < n)%nat → ∀ x, x ∈ ri_market_recoveries i → ready now x = true → request i x ∈ commands)) ∧
  (mark_all now commands c).1 = replicate (length commands) true.
Proof.
  destruct reachable_Inv as [Hc Hcfg]. cbv zeta. unfold next_pending_commands.
  destruct (Nat.eqb_spec n 0) as [->|Hn].
  { split_and!; try done; [constructor|split; [by left|done]]. }
  pose proof (select_incident_spec now c (incident_ids hash_order c) Hc) as Hsel.
  assert (∀ id, has_ready now c id → id ∈ incident_ids hash_order c) as Hids.
  { intros id (i & Hi & _). apply elem_of_incident_ids; [done|by exists i]. }
  destruct (foldl _ None _) as [i|].
  2: { split_and!; try done; [cbn; lia|constructor|]. split; [|done]. intros _. right. intros id Hr. by apply (Hsel id); [apply Hids|]. }
  destruct Hsel as (Hr & Hi & Hold). destruct (sorted_requests now _ i Hc Hi) as (Hs & Hall & Hfrom).
  set (sorted := merge_sort by_market _) in *. clearbody sorted.
  assert (Forall (offers now c) (take n sorted)) as Hoff.
  { apply Forall_take. eapply Forall_impl; [exact Hfrom|]. intros command (x & Hx & Hrx & ->).
    by exists (ri_recovery_id i), i, x. }
  assert (StronglySorted (λ a b, rq_market_id a < rq_market_id b) (take n sorted)) as Hst.
  { clear -Hs. revert n. induction Hs as [|a l Hs IH Ha]; intros n; [rewrite take_nil; constructor|].
    destruct n; [constructor|]. cbn. constructor; [apply IH|by apply Forall_take]. }
  split_and!; [rewrite length_take; lia|done| | |].
  - split; [|intros [?|Hno]; [done|by destruct (Hno _ Hr)]]. intros E. exfalso.
    destruct Hr as (j & Hj & He). rewrite Hi in Hj. injection Hj as <-. apply existsb_exists in He as (x & Hx & Hrx).
    apply list_elem_of_In in Hx. specialize (Hall x Hx Hrx). destruct sorted; [by apply elem_of_nil in Hall|].
    by destruct n.
  - intros _. exists (ri_recovery_id i), i. split_and!; [done|intros id' Hr'; apply Hold; [by apply Hids|done]|by apply Forall_take|].
    rewrite length_take. intros Hlt x Hx Hrx. rewrite take_ge by lia. by apply Hall.
  - apply mark_all_offered; [by rewrite Hcfg|done| |done]. clear -Hst.
    induction Hst as [|a l _ IH Ha]; [apply NoDup_nil_2|]. cbn. apply NoDup_cons. split; [|done].
    intros (b & E & Hb)%list_elem_of_fmap. rewrite Forall_forall in Ha. specialize (Ha b Hb). lia.
Qed.

(** A loss report is recorded atomically.  Either nothing changes: it is stale,
    malformed, a duplicate, already being recovered, or an allocation failed half way
    and was undone.  Or exactly one incident is created, under a fresh id and the
    report's key, that holds exactly the lost markets not yet being recovered (for a
    subscription gap: every such market of the universe), each waiting for its first
    request, and exactly those markets become latched by it. *)
Theorem observation_is_atomic alloc loss universe now :
  let '(r, c') := observe alloc loss universe now c in observed now loss universe c r c'.
Proof.
  pose proof (observe_spec alloc loss universe now c (proj1 reachable_Inv)) as H.
  destruct (observe alloc loss universe now c) as [r c']. apply H.
Qed.

(** Timeouts are handled for every market of every incident at once, and only for
    those whose answer is overdue: such a market is given up when its attempts are used
    up, and otherwise becomes due again after [initial * 2^(attempts - 1)] milliseconds,
    at most [max_backoff]; no latch is released. *)
Theorem timeouts_follow_policy now : 0 < cf_initial_backoff config → 0 < cf_max_backoff config →
  let c' := (expire_timeouts hash_order now c).2 in
  rc_active_recovery_by_market c' = rc_active_recovery_by_market c ∧
  ∀ id, ri_market_recoveries <$> rc_incidents c' !! id =
    (λ i, retried config now <$> ri_market_recoveries i) <$> rc_incidents c !! id.
Proof.
  destruct reachable_Inv as [Hc Hcfg]. intros Hib Hmb.
  destruct (expire_spec hash_order hash_order_perm now c Hc) as (_ & _ & Ha & Hm). split; [done|].
  intros id. rewrite Hm. destruct (rc_incidents c !! id) as [i|] eqn:Hi; [|done]. cbn. f_equal.
  apply list_fmap_ext. intros k x Hx. rewrite <- Hcfg. eapply after_timeout_retried; try done; try by rewrite Hcfg.
  by eapply list_elem_of_lookup_2.
Qed.
End Reachable.
End Safety.

(** ** A concrete recovery

    Market 1 of a two-market universe loses a frame; its snapshot is requested, and
    the shard applies it. *)

Definition demo_route (m : Z) : UniverseMarketRoute :=
  default_UniverseMarketRoute ⟪ ur_market_id := m ⟫ ⟪ ur_event_id := 7 ⟫.
Definition demo_universe : UniverseSnapshot := mkUniverseSnapshot 3 [] [demo_route 1; demo_route 2].
Definition demo_loss : Loss :=
  LossOfMarket (mkShardMarketRecoveryRequired 3 0 (mkIntegrityIncidentKey kSHARD 0 9) 4 5 1 7 kSHARD_FRAME_MISSING).
Definition demo_ops : list RecoveryOp :=
  [OpObserve (λ _, true) demo_loss demo_universe 100; OpMark (mkRecoverMarketIo 1 3 1 1) 200].
Definition demo_snapshot : RecoveryOp :=
  OpSnapshot (mkShardRecoverySnapshotApplied 1 3 0 4 6 1 Event.kRECOVERED) demo_universe 300.
Definition order (l : list Z) : list Z := l.
Definition demo_config : RecoveryCoordinatorConfig := default_RecoveryCoordinatorConfig.

Lemma order_perm l : order l ≡ₚ l.
Proof. done. Qed.

Lemma demo_u32 : is_u32 (cf_max_attempts demo_config).
Proof. unfold is_u32. cbn. lia. Qed.

Lemma recovery_single_owner_witness : holds (exec_all order demo_ops (make_coordinator demo_config)) 1 1.
Proof.
  apply (proj1 (recovery_single_owner order order_perm demo_config demo_ops demo_u32)). vm_compute. reflexivity.
Defined.

Lemma recovery_ends_with_snapshot_witness :
  completes order demo_config demo_ops demo_snapshot 1 1 ∨ supersedes order demo_config demo_ops demo_snapshot 1.
Proof.
  apply (recovery_ends_with_snapshot order order_perm demo_config demo_ops demo_u32).
  - vm_compute. reflexivity.
  - vm_compute. discriminate.
Defined.

Lemma proposed_requests_are_sendable_witness :
  let c := exec_all order [OpObserve (λ _, true) demo_loss demo_universe 100] (make_coordinator demo_config) in
  next_pending_commands order 150 8 c = [mkRecoverMarketIo 1 3 1 1] ∧
  (mark_all 150 (next_pending_commands order 150 8 c) c).1 = [true].
Proof.
  cbv zeta. set (ops := [_]).
  assert (next_pending_commands order 150 8 (exec_all order ops (make_coordinator demo_config)) = [mkRecoverMarketIo 1 3 1 1])
    as E by (vm_compute; reflexivity). split; [exact E|].
  destruct (proposed_requests_are_sendable order order_perm demo_config ops demo_u32 150 8) as (_ & _ & _ & _ & H).
  rewrite H, E. reflexivity.
Defined.

Lemma observation_is_atomic_witness :
  let '(r, c') := observe (λ n, negb (n =? 2)%nat) demo_loss demo_universe 100
                    (exec_all order [] (make_coordinator demo_config)) in
  r = None ∧ observed 100 demo_loss demo_universe (exec_all order [] (make_coordinator demo_config)) r c'.
Proof.
  pose proof (observation_is_atomic order order_perm demo_config [] demo_u32 (λ n, negb (n =? 2)%nat) demo_loss
    demo_universe 100) as H.
  assert ((observe (λ n, negb (n =? 2)%nat) demo_loss demo_universe 100 (exec_all order [] (make_coordinator demo_config))).1
    = None) as E by (vm_compute; reflexivity).
  destruct (observe _ _ _ _ _) as [r c']. exact (conj E H).
Defined.

Lemma timeouts_follow_policy_witness :
  let c := exec_all order demo_ops (make_coordinator demo_config) in
  let c' := (expire_timeouts order 9000000000 c).2 in
  rc_active_recovery_by_market c' = rc_active_recovery_by_market c ∧
  ri_market_recoveries <$> rc_incidents c' !! 1 =
    (λ i, retried demo_config 9000000000 <$> ri_market_recoveries i) <$> rc_incidents c !! 1.
Proof.
  cbv zeta. destruct (timeouts_follow_policy order order_perm demo_config demo_ops demo_u32 9000000000) as [H1 H2];
    [reflexivity|reflexivity|]. split; [exact H1|exact (H2 1)].
Defined.
End RecoverySafety.

(** ** The coordinator's retries meet the wire session

    The coordinator repeats a request whose snapshot does not come in time, with the next
    attempt number.  The wire session still holds the tag of the attempt before. *)


Module WireRetry.
#[local] Existing Instance WireDemo.demo_socket.
Import Wire WireRecovery.

Section WireRetry.
Context {Q : Type → Type} `{HQ : PushQueue Q} {HL : PushQueueLaws Q} {W : Type} `{HW : WebSocket W}.
Implicit Types s : WireState (Q := Q) (W := W).

(** The request of the coordinator for its next attempt, given the tag of its last one. *)
Definition last_attempt (i : Recovery.RecoveryIncidentState) (x : Recovery.MarketRecoveryState) : PendingRecoveryTag :=
  mkPendingRecoveryTag (Recovery.ri_recovery_id i) (Recovery.ri_universe_version i) (Recovery.ms_attempts_sent x).

(** While the wire session waits for the snapshot of an attempt, it refuses the
    coordinator's next attempt: whatever else holds, the retry is answered with a failure,
    no request goes to the exchange, and the old attempt stays pending. *)
Theorem retry_is_refused_while_snapshot_is_awaited i x s :
  0 ≤ Recovery.ms_attempts_sent x < U32_MAX → wi_pending_recovery_by_market s !! Recovery.ms_market_id x = Some (last_attempt i x) →
  wi_ws_session (recover_market (Recovery.request i x) s).2 = wi_ws_session s ∧
  wi_pending_recovery_by_market (recover_market (Recovery.request i x) s).2 = wi_pending_recovery_by_market s ∧
  ∃ reason, told (recover_market (Recovery.request i x) s).2 = told s ++ [request_failed (Recovery.ms_market_id x) (command_tag (Recovery.request i x)) reason].
Proof.
  intros Hn Ht. set (c := Recovery.request i x).
  change (wp (recover_market c) (λ _ s', wi_ws_session s' = wi_ws_session s ∧ wi_pending_recovery_by_market s' = wi_pending_recovery_by_market s ∧
    ∃ reason, told s' = told s ++ [request_failed (rq_market_id c) (command_tag c) reason]) s).
  assert (∀ m, rel (same wi_ws_session) (send_or_defer_recovery_status (Q := Q) (W := W) m)) as Hws.
  { intros m. unfold send_or_defer_recovery_status, count_status, tally, push_control_status. rel_auto; intros s1; unfold same; try done. by destruct (q_push _ _). }
  assert (∀ reason, wp (send_or_defer_recovery_status (request_failed (rq_market_id c) (command_tag c) reason))
    (λ _ s', wi_ws_session s' = wi_ws_session s ∧ wi_pending_recovery_by_market s' = wi_pending_recovery_by_market s ∧
      ∃ reason, told s' = told s ++ [request_failed (rq_market_id c) (command_tag c) reason]) s) as Hrefuse.
  { intros reason. eapply wp_mono; [apply wp_and; [by apply send_status_spec|]|].
    - eapply (wp_rel (same wi_ws_session)); [apply Hws|]. intros a s' H. exact H.
    - cbv beta. intros _ s' [(_ & E & _ & E') Hs]. split_and!; [exact Hs|done|by exists reason]. }
  unfold recover_market. wp_steps. destruct (recovery_refusal c s) as [reason|]; [apply Hrefuse|]. wp_steps.
  change (rq_market_id c) with (Recovery.ms_market_id x). rewrite Ht.
  rewrite bool_decide_eq_false_2; [apply Hrefuse|]. unfold last_attempt, command_tag, c, Recovery.request. cbn. intros [= E].
  rewrite u32_id in E by (unfold is_u32; lia). lia.
Qed.
End WireRetry.

(** The coordinator's first attempt was accepted, but the snapshot did not come in time. *)
Definition timed_out : Recovery.RecoveryCoordinator :=
  RecoverySafety.exec_all RecoverySafety.order
    (RecoverySafety.demo_ops ++ [RecoverySafety.OpAccepted (mkIoRecoveryRequestAccepted 1 3 1 1) 300; RecoverySafety.OpExpire 9000000000000])
    (Recovery.make_coordinator RecoverySafety.demo_config).
Definition timed_out_incident : Recovery.RecoveryIncidentState :=
  default Recovery.default_RecoveryIncidentState (Recovery.rc_incidents timed_out !! 1).
Definition timed_out_market : Recovery.MarketRecoveryState :=
  default Recovery.default_MarketRecoveryState (head (Recovery.ri_market_recoveries timed_out_incident)).
Definition waiting : WireState (Q := Fifo) (W := WireDemo.Socket) := (WireDemo.after 2) ⟪ wi_pending_recovery_by_market := {[1 := mkPendingRecoveryTag 1 3 1]} ⟫.

Lemma retry_is_refused_while_snapshot_is_awaited_witness :
  Recovery.next_pending_commands RecoverySafety.order 90000000000000 8 timed_out = [Recovery.request timed_out_incident timed_out_market] ∧
  ∃ reason, told (recover_market (Recovery.request timed_out_incident timed_out_market) waiting).2 =
    told waiting ++ [request_failed (Recovery.ms_market_id timed_out_market) (command_tag (Recovery.request timed_out_incident timed_out_market)) reason].
Proof.
  split; [vm_compute; reflexivity|].
  assert (0 ≤ Recovery.ms_attempts_sent timed_out_market < U32_MAX) as H1.
  { assert (Recovery.ms_attempts_sent timed_out_market = 1) as -> by (vm_compute; reflexivity). lia. }
  assert (wi_pending_recovery_by_market waiting !! Recovery.ms_market_id timed_out_market = Some (last_attempt timed_out_incident timed_out_market)) as H2
    by (vm_compute; reflexivity).
  exact (proj2 (proj2 (retry_is_refused_while_snapshot_is_awaited timed_out_incident timed_out_market waiting H1 H2))).
Defined.
End WireRetry.
