(* ===== verification/OmsTypes.v ===== *)
(** * OmsTypes: the data of the order management system

    The enums and structs of [cpp/include/predex/oms/order_intents.hpp],
    [cpp/include/predex/oms/oms_types.hpp], the records of
    [cpp/include/predex/oms/oms.hpp] and the OMS part of
    [cpp/include/predex/control/control_types.hpp].  Constructors that would clash
    carry a prefix; fields carry a short prefix per struct.

    The fixed-size identifiers ([ClientOrderId], [ExchangeOrderId],
    [VenueTradeId]) compare by their string view, so they are strings; [assign_from]
    is their only mutator. *)

From S2P Require Import Prelude.
From stdpp Require Import pretty.
Open Scope Z_scope.

(** ** Identifiers *)

Definition kLENGTH_CLIENT_ORDER_ID : Z := 64.
Abbreviation ClientOrderId := string.
Abbreviation ExchangeOrderId := string.
Abbreviation VenueTradeId := string.

Definition id_empty (id : string) : bool := bool_decide (id = "").

(** [assign_from]: too long a view clears the identifier. *)
Definition assign_from (s : string) : bool * string :=
  if kLENGTH_CLIENT_ORDER_ID <=? Z.of_nat (String.length s) then (false, "") else (true, s).

(** ** Intents *)

Inductive TimeInForce := | kGTC | kIOC | kFOK.
#[export] Instance TimeInForce_eq_dec : EqDecision TimeInForce.
Proof. solve_decision. Defined.

Inductive OrderType := | kLIMIT | kMARKETABLE_LIMIT.
#[export] Instance OrderType_eq_dec : EqDecision OrderType.
Proof. solve_decision. Defined.

Inductive LiquidityIntent := | kLIQUIDITY_UNKNOWN | kMAKER | kTAKER.
#[export] Instance LiquidityIntent_eq_dec : EqDecision LiquidityIntent.
Proof. solve_decision. Defined.

Inductive Outcome := | kOUTCOME_UNKNOWN | kYES | kNO.
#[export] Instance Outcome_eq_dec : EqDecision Outcome.
Proof. solve_decision. Defined.

Inductive OrderAction := | kACTION_UNKNOWN | kBUY | kSELL.
#[export] Instance OrderAction_eq_dec : EqDecision OrderAction.
Proof. solve_decision. Defined.

Inductive GroupAdmissionPolicy := | kPOLICY_UNKNOWN | kALL_OR_NONE.
#[export] Instance GroupAdmissionPolicy_eq_dec : EqDecision GroupAdmissionPolicy.
Proof. solve_decision. Defined.

Record IntentContext := mkIntentContext {
  ic_strategy_index : Z;
  ic_market_id : Z;
  ic_event_id : Z;
  ic_strategy_id : Z;
  ic_strategy_intent_id : Z;
  ic_signal_id : Z;
  ic_group_intent_id : Z;
  ic_leg_index : Z;
  ic_leg_count : Z;
  ic_universe_version : Z;
  ic_event_revision : Z;
  ic_source_shard_index : Z;
  ic_ingress_timestamp_ns : Z;
  ic_book_apply_timestamp_ns : Z;
  ic_observation_publish_timestamp_ns : Z;
  ic_strategy_dequeue_timestamp_ns : Z;
  ic_evaluation_complete_timestamp_ns : Z;
  ic_intent_publish_timestamp_ns : Z;
}.
#[export] Instance eta_IntentContext : Eta IntentContext := λ r,
  mkIntentContext (ic_strategy_index r) (ic_market_id r) (ic_event_id r) (ic_strategy_id r)
    (ic_strategy_intent_id r) (ic_signal_id r) (ic_group_intent_id r) (ic_leg_index r)
    (ic_leg_count r) (ic_universe_version r) (ic_event_revision r) (ic_source_shard_index r)
    (ic_ingress_timestamp_ns r) (ic_book_apply_timestamp_ns r)
    (ic_observation_publish_timestamp_ns r) (ic_strategy_dequeue_timestamp_ns r)
    (ic_evaluation_complete_timestamp_ns r) (ic_intent_publish_timestamp_ns r).
Definition default_IntentContext : IntentContext :=
  mkIntentContext 0 0 0 0 0 0 0 0 0 0 0 0 0 0 0 0 0 0.

Record NewOrderIntent := mkNewOrderIntent {
  no_context : IntentContext;
  no_outcome : Outcome;
  no_action : OrderAction;
  no_liquidity_intent : LiquidityIntent;
  no_order_type : OrderType;
  no_time_in_force : TimeInForce;
  no_price_ticks : Z;
  no_quantity_lots : Z;
}.
#[export] Instance eta_NewOrderIntent : Eta NewOrderIntent := λ r,
  mkNewOrderIntent (no_context r) (no_outcome r) (no_action r) (no_liquidity_intent r)
    (no_order_type r) (no_time_in_force r) (no_price_ticks r) (no_quantity_lots r).
Definition default_NewOrderIntent : NewOrderIntent :=
  mkNewOrderIntent default_IntentContext kOUTCOME_UNKNOWN kACTION_UNKNOWN kLIQUIDITY_UNKNOWN
    kLIMIT kGTC 0 0.

Record CancelOrderIntent := mkCancelOrderIntent {
  ci_context : IntentContext;
  ci_target_oms_request_id : Z;
}.
#[export] Instance eta_CancelOrderIntent : Eta CancelOrderIntent := λ r,
  mkCancelOrderIntent (ci_context r) (ci_target_oms_request_id r).
Definition default_CancelOrderIntent : CancelOrderIntent :=
  mkCancelOrderIntent default_IntentContext 0.

Record ModifyOrderIntent := mkModifyOrderIntent {
  mi_context : IntentContext;
  mi_target_oms_request_id : Z;
}.
#[export] Instance eta_ModifyOrderIntent : Eta ModifyOrderIntent := λ r,
  mkModifyOrderIntent (mi_context r) (mi_target_oms_request_id r).
Definition default_ModifyOrderIntent : ModifyOrderIntent :=
  mkModifyOrderIntent default_IntentContext 0.

Definition kMAX_ORDERS_PER_GROUP : nat := 10.

Record GroupOrderIntent := mkGroupOrderIntent {
  gi_context : IntentContext;
  gi_new_orders : list NewOrderIntent;
  gi_leg_count : Z;
  gi_admission_policy : GroupAdmissionPolicy;
  gi_expected_gross_edge_ticks : Z;
  gi_estimated_fee_ticks : Z;
  gi_expected_net_edge_ticks : Z;
}.
#[export] Instance eta_GroupOrderIntent : Eta GroupOrderIntent := λ r,
  mkGroupOrderIntent (gi_context r) (gi_new_orders r) (gi_leg_count r) (gi_admission_policy r)
    (gi_expected_gross_edge_ticks r) (gi_estimated_fee_ticks r) (gi_expected_net_edge_ticks r).
Definition default_GroupOrderIntent : GroupOrderIntent :=
  mkGroupOrderIntent default_IntentContext
    (replicate kMAX_ORDERS_PER_GROUP default_NewOrderIntent) 0 kALL_OR_NONE 0 0 0.

Inductive StrategyIntent :=
  | SiNew (i : NewOrderIntent) | SiCancel (i : CancelOrderIntent) | SiModify (i : ModifyOrderIntent)
  | SiGroup (i : GroupOrderIntent).

(** ** Messages to strategies *)

Record OmsContext := mkOmsContext {
  cx_oms_request_id : Z;
  cx_context : IntentContext;
}.
#[export] Instance eta_OmsContext : Eta OmsContext := λ r,
  mkOmsContext (cx_oms_request_id r) (cx_context r).
Definition default_OmsContext : OmsContext :=
  mkOmsContext 0 default_IntentContext.

Inductive OmsResponseType := | kRESPONSE_UNKNOWN | kRESPONSE_ACCEPTED | kRESPONSE_REJECTED.
#[export] Instance OmsResponseType_eq_dec : EqDecision OmsResponseType.
Proof. solve_decision. Defined.

Inductive RejectReason := | kREJECT_NONE | kTRADING_DISABLED | kRISK_REJECTED | kINVALID_INTENT
  | kUNKNOWN_TARGET_ORDER | kDUPLICATE_INTENT | kOMS_NOT_READY | kUNKNOWN_MARKET
  | kMARKET_NOT_TRADEABLE | kEXECUTION_BLOCKED.
#[export] Instance RejectReason_eq_dec : EqDecision RejectReason.
Proof. solve_decision. Defined.

Record OmsResponse := mkOmsResponse {
  or_context : OmsContext;
  or_response_type : OmsResponseType;
  or_reject_reason : RejectReason;
  or_recv_ts_ns : Z;
  or_response_ts_ns : Z;
}.
#[export] Instance eta_OmsResponse : Eta OmsResponse := λ r,
  mkOmsResponse (or_context r) (or_response_type r) (or_reject_reason r) (or_recv_ts_ns r)
    (or_response_ts_ns r).
Definition default_OmsResponse : OmsResponse :=
  mkOmsResponse default_OmsContext kRESPONSE_REJECTED kREJECT_NONE 0 0.

Inductive OrderState := | kORDER_UNKNOWN | kPENDING_SUBMIT | kWORKING | kREJECTED
  | kPARTIALLY_FILLED | kFILLED | kPENDING_CANCEL | kCANCELED | kPENDING_MODIFY | kEXPIRED
  | kUNCERTAIN.
#[export] Instance OrderState_eq_dec : EqDecision OrderState.
Proof. solve_decision. Defined.

Inductive VenueEventSource := | kSOURCE_UNKNOWN | kREST_RESPONSE | kWEBSOCKET_FEED
  | kRECONCILIATION | kOMS_INTERNAL.
#[export] Instance VenueEventSource_eq_dec : EqDecision VenueEventSource.
Proof. solve_decision. Defined.

Record OrderStateUpdate := mkOrderStateUpdate {
  ou_client_order_id : ClientOrderId;
  ou_exchange_order_id : ExchangeOrderId;
  ou_context : OmsContext;
  ou_order_state : OrderState;
  ou_update_source : VenueEventSource;
  ou_working_qty_lots : Z;
  ou_working_price_ticks : Z;
  ou_outcome : Outcome;
  ou_ordered_qty_lots : Z;
  ou_cumulative_filled_qty_lots : Z;
  ou_leaves_qty_lots : Z;
  ou_last_fill_qty_lots : Z;
  ou_last_fill_price_ticks : Z;
  ou_last_update_ts_ns : Z;
}.
#[export] Instance eta_OrderStateUpdate : Eta OrderStateUpdate := λ r,
  mkOrderStateUpdate (ou_client_order_id r) (ou_exchange_order_id r) (ou_context r)
    (ou_order_state r) (ou_update_source r) (ou_working_qty_lots r) (ou_working_price_ticks r)
    (ou_outcome r) (ou_ordered_qty_lots r) (ou_cumulative_filled_qty_lots r)
    (ou_leaves_qty_lots r) (ou_last_fill_qty_lots r) (ou_last_fill_price_ticks r)
    (ou_last_update_ts_ns r).
Definition default_OrderStateUpdate : OrderStateUpdate :=
  mkOrderStateUpdate "" "" default_OmsContext kORDER_UNKNOWN kSOURCE_UNKNOWN 0 0 kOUTCOME_UNKNOWN
    0 0 0 0 0 0.

Inductive GroupAdmissionState := | kADMISSION_UNKNOWN | kADMISSION_ACCEPTED | kADMISSION_REJECTED.
#[export] Instance GroupAdmissionState_eq_dec : EqDecision GroupAdmissionState.
Proof. solve_decision. Defined.

Record GroupAdmissionResponse := mkGroupAdmissionResponse {
  ga_context : IntentContext;
  ga_oms_group_id : Z;
  ga_admission_state : GroupAdmissionState;
  ga_reject_reason : RejectReason;
  ga_admitted_leg_count : Z;
  ga_reserved_capital_ticks : Z;
  ga_recv_ts_ns : Z;
  ga_response_ts_ns : Z;
}.
#[export] Instance eta_GroupAdmissionResponse : Eta GroupAdmissionResponse := λ r,
  mkGroupAdmissionResponse (ga_context r) (ga_oms_group_id r) (ga_admission_state r)
    (ga_reject_reason r) (ga_admitted_leg_count r) (ga_reserved_capital_ticks r) (ga_recv_ts_ns r)
    (ga_response_ts_ns r).
Definition default_GroupAdmissionResponse : GroupAdmissionResponse :=
  mkGroupAdmissionResponse default_IntentContext 0 kADMISSION_UNKNOWN kREJECT_NONE 0 0 0 0.

Inductive GroupExecutionState := | kGROUP_UNKNOWN | kADMITTED | kPENDING_VENUE | kGROUP_WORKING
  | kGROUP_PARTIALLY_FILLED | kCOMPLETED | kCANCELING_REMAINDER | kUNWINDING | kFLATTENED
  | kGROUP_UNCERTAIN | kREPAIR_FAILED | kGROUP_REJECTED | kREPAIR_REQUIRED | kABORTED.
#[export] Instance GroupExecutionState_eq_dec : EqDecision GroupExecutionState.
Proof. solve_decision. Defined.

Inductive GroupFailureReason := | kFAILURE_NONE | kLEG_REJECTED | kLEG_NOT_SENT
  | kLEG_EXPIRED_UNFILLED | kLEG_PARTIALLY_FILLED | kLEG_TIMEOUT | kLEG_TRANSPORT_ERROR
  | kCANCEL_FAILED | kUNWIND_FAILED | kVENUE_STATE_UNCERTAIN | kLEG_CANCELED
  | kBATCH_RESPONSE_MISMATCH.
#[export] Instance GroupFailureReason_eq_dec : EqDecision GroupFailureReason.
Proof. solve_decision. Defined.

Record GroupLegState := mkGroupLegState {
  gl_oms_request_id : Z;
  gl_market_id : Z;
  gl_leg_index : Z;
  gl_order_state : OrderState;
  gl_ordered_qty_lots : Z;
  gl_cumulative_filled_qty_lots : Z;
  gl_leaves_qty_lots : Z;
}.
#[export] Instance eta_GroupLegState : Eta GroupLegState := λ r,
  mkGroupLegState (gl_oms_request_id r) (gl_market_id r) (gl_leg_index r) (gl_order_state r)
    (gl_ordered_qty_lots r) (gl_cumulative_filled_qty_lots r) (gl_leaves_qty_lots r).
Definition default_GroupLegState : GroupLegState :=
  mkGroupLegState 0 0 0 kORDER_UNKNOWN 0 0 0.

Record GroupStateUpdate := mkGroupStateUpdate {
  gu_context : IntentContext;
  gu_oms_group_id : Z;
  gu_execution_state : GroupExecutionState;
  gu_failure_reason : GroupFailureReason;
  gu_legs : list GroupLegState;
  gu_leg_count : Z;
  gu_repair_attempt_count : Z;
  gu_residual_exposure_present : bool;
  gu_last_update_ts_ns : Z;
}.
#[export] Instance eta_GroupStateUpdate : Eta GroupStateUpdate := λ r,
  mkGroupStateUpdate (gu_context r) (gu_oms_group_id r) (gu_execution_state r)
    (gu_failure_reason r) (gu_legs r) (gu_leg_count r) (gu_repair_attempt_count r)
    (gu_residual_exposure_present r) (gu_last_update_ts_ns r).
Definition default_GroupStateUpdate : GroupStateUpdate :=
  mkGroupStateUpdate default_IntentContext 0 kGROUP_UNKNOWN kFAILURE_NONE
    (replicate kMAX_ORDERS_PER_GROUP default_GroupLegState) 0 0 false 0.

Record StrategyPortfolioUpdate := mkStrategyPortfolioUpdate {
  pu_strategy_index : Z;
  pu_sequence : Z;
  pu_allocation_limit_ticks : Z;
  pu_available_capital_ticks : Z;
  pu_reserved_order_capital_ticks : Z;
  pu_inventory_exposure_ticks : Z;
  pu_realized_pnl_ticks : Z;
  pu_fees_paid_ticks : Z;
  pu_venue_available_balance_ticks : Z;
  pu_venue_portfolio_reconciled : bool;
  pu_open_order_count : Z;
  pu_active_group_count : Z;
  pu_update_ts_ns : Z;
}.
#[export] Instance eta_StrategyPortfolioUpdate : Eta StrategyPortfolioUpdate := λ r,
  mkStrategyPortfolioUpdate (pu_strategy_index r) (pu_sequence r) (pu_allocation_limit_ticks r)
    (pu_available_capital_ticks r) (pu_reserved_order_capital_ticks r)
    (pu_inventory_exposure_ticks r) (pu_realized_pnl_ticks r) (pu_fees_paid_ticks r)
    (pu_venue_available_balance_ticks r) (pu_venue_portfolio_reconciled r) (pu_open_order_count r)
    (pu_active_group_count r) (pu_update_ts_ns r).
Definition default_StrategyPortfolioUpdate : StrategyPortfolioUpdate :=
  mkStrategyPortfolioUpdate 0 0 0 0 0 0 0 0 0 false 0 0 0.

Record StrategyMarketPositionUpdate := mkStrategyMarketPositionUpdate {
  mu_strategy_index : Z;
  mu_sequence : Z;
  mu_market_id : Z;
  mu_event_id : Z;
  mu_net_position_lots : Z;
  mu_resting_buy_qty_lots : Z;
  mu_resting_sell_qty_lots : Z;
  mu_average_entry_price_ticks : Z;
  mu_position_cost_ticks : Z;
  mu_market_exposure_ticks : Z;
  mu_realized_pnl_ticks : Z;
  mu_fees_paid_ticks : Z;
  mu_update_ts_ns : Z;
}.
#[export] Instance eta_StrategyMarketPositionUpdate : Eta StrategyMarketPositionUpdate := λ r,
  mkStrategyMarketPositionUpdate (mu_strategy_index r) (mu_sequence r) (mu_market_id r)
    (mu_event_id r) (mu_net_position_lots r) (mu_resting_buy_qty_lots r)
    (mu_resting_sell_qty_lots r) (mu_average_entry_price_ticks r) (mu_position_cost_ticks r)
    (mu_market_exposure_ticks r) (mu_realized_pnl_ticks r) (mu_fees_paid_ticks r)
    (mu_update_ts_ns r).
Definition default_StrategyMarketPositionUpdate : StrategyMarketPositionUpdate :=
  mkStrategyMarketPositionUpdate 0 0 0 0 0 0 0 0 0 0 0 0 0.

Inductive OmsToStrategyMessage :=
  | SmResponse (m : OmsResponse) | SmOrderState (m : OrderStateUpdate)
  | SmAdmission (m : GroupAdmissionResponse) | SmGroupState (m : GroupStateUpdate)
  | SmPortfolio (m : StrategyPortfolioUpdate) | SmPosition (m : StrategyMarketPositionUpdate).

(** ** Commands to the venue *)

Record SubmitOrderCmd := mkSubmitOrderCmd {
  so_oms_request_id : Z;
  so_client_order_id : ClientOrderId;
  so_new_order_intent : NewOrderIntent;
  so_submission_ts_ns : Z;
  so_reduce_only : bool;
}.
#[export] Instance eta_SubmitOrderCmd : Eta SubmitOrderCmd := λ r,
  mkSubmitOrderCmd (so_oms_request_id r) (so_client_order_id r) (so_new_order_intent r)
    (so_submission_ts_ns r) (so_reduce_only r).
Definition default_SubmitOrderCmd : SubmitOrderCmd :=
  mkSubmitOrderCmd 0 "" default_NewOrderIntent 0 false.

Record SubmitOrderBatchCmd := mkSubmitOrderBatchCmd {
  sbc_oms_request_id : Z;
  sbc_oms_group_id : Z;
  sbc_group_context : IntentContext;
  sbc_orders : list SubmitOrderCmd;
  sbc_order_count : Z;
  sbc_submission_ts_ns : Z;
}.
#[export] Instance eta_SubmitOrderBatchCmd : Eta SubmitOrderBatchCmd := λ r,
  mkSubmitOrderBatchCmd (sbc_oms_request_id r) (sbc_oms_group_id r) (sbc_group_context r)
    (sbc_orders r) (sbc_order_count r) (sbc_submission_ts_ns r).
Definition default_SubmitOrderBatchCmd : SubmitOrderBatchCmd :=
  mkSubmitOrderBatchCmd 0 0 default_IntentContext
    (replicate kMAX_ORDERS_PER_GROUP default_SubmitOrderCmd) 0 0.

Record CancelOrderCmd := mkCancelOrderCmd {
  cc_oms_request_id : Z;
  cc_client_order_id : ClientOrderId;
  cc_exchange_order_id : option ExchangeOrderId;
  cc_cancel_order_intent : CancelOrderIntent;
  cc_submission_ts_ns : Z;
}.
#[export] Instance eta_CancelOrderCmd : Eta CancelOrderCmd := λ r,
  mkCancelOrderCmd (cc_oms_request_id r) (cc_client_order_id r) (cc_exchange_order_id r)
    (cc_cancel_order_intent r) (cc_submission_ts_ns r).
Definition default_CancelOrderCmd : CancelOrderCmd :=
  mkCancelOrderCmd 0 "" None default_CancelOrderIntent 0.

Record ModifyOrderCmd := mkModifyOrderCmd {
  mc_oms_request_id : Z;
  mc_client_order_id : ClientOrderId;
  mc_exchange_order_id : option ExchangeOrderId;
  mc_modify_order_intent : ModifyOrderIntent;
  mc_submission_ts_ns : Z;
}.
#[export] Instance eta_ModifyOrderCmd : Eta ModifyOrderCmd := λ r,
  mkModifyOrderCmd (mc_oms_request_id r) (mc_client_order_id r) (mc_exchange_order_id r)
    (mc_modify_order_intent r) (mc_submission_ts_ns r).
Definition default_ModifyOrderCmd : ModifyOrderCmd :=
  mkModifyOrderCmd 0 "" None default_ModifyOrderIntent 0.

Record RequestPortfolioReconciliation := mkRequestPortfolioReconciliation {
  rr_reconciliation_id : Z;
  rr_universe_version : Z;
  rr_submission_ts_ns : Z;
}.
#[export] Instance eta_RequestPortfolioReconciliation : Eta RequestPortfolioReconciliation := λ r,
  mkRequestPortfolioReconciliation (rr_reconciliation_id r) (rr_universe_version r)
    (rr_submission_ts_ns r).
Definition default_RequestPortfolioReconciliation : RequestPortfolioReconciliation :=
  mkRequestPortfolioReconciliation 0 0 0.

Inductive OmsToKalshiCommand :=
  | KcSubmit (c : SubmitOrderCmd) | KcSubmitBatch (c : SubmitOrderBatchCmd) | KcCancel (c : CancelOrderCmd)
  | KcModify (c : ModifyOrderCmd) | KcReconcile (c : RequestPortfolioReconciliation)
  | KcClose (oms_request_id submission_ts_ns shutdown_epoch : Z).

(** ** Events from the venue *)

Inductive RestCommandKind := | kREST_UNKNOWN | kSUBMIT_ORDER | kCANCEL_ORDER | kMODIFY_ORDER
  | kSUBMIT_ORDER_BATCH | kPORTFOLIO_RECONCILIATION.
#[export] Instance RestCommandKind_eq_dec : EqDecision RestCommandKind.
Proof. solve_decision. Defined.

Inductive RestResultCode := | kRESULT_UNKNOWN | kACKED | kRESULT_REJECTED | kTIMEOUT
  | kTRANSPORT_ERROR | kNOT_SENT.
#[export] Instance RestResultCode_eq_dec : EqDecision RestResultCode.
Proof. solve_decision. Defined.

Inductive VenueRejectReason := | kVenueNone | kInvalidRequest | kInvalidOrder | kDuplicateOrder
  | kOrderNotFound | kMarketClosed | kMarketHalted | kRiskRejected | kRateLimited | kVenueDown
  | kAuthFailed | kOrderAlreadyTerminal | kVenueUnknown.
#[export] Instance VenueRejectReason_eq_dec : EqDecision VenueRejectReason.
Proof. solve_decision. Defined.

Record RestOrderResponse := mkRestOrderResponse {
  ro_context : OmsContext;
  ro_command_kind : RestCommandKind;
  ro_result_code : RestResultCode;
  ro_client_order_id : ClientOrderId;
  ro_exchange_order_id : ExchangeOrderId;
  ro_transport_submit_ts_ns : Z;
  ro_transport_recv_ts_ns : Z;
  ro_http_status_code : Z;
  ro_retry_count : Z;
  ro_venue_reject_reason : VenueRejectReason;
  ro_raw_reason_message : string;
  ro_execution_summary_present : bool;
  ro_acknowledged_fill_qty_lots : Z;
  ro_acknowledged_remaining_qty_lots : Z;
  ro_acknowledged_average_fill_price_ticks : Z;
  ro_acknowledged_fee_paid_ticks : Z;
  ro_venue_ts_ms : Z;
}.
#[export] Instance eta_RestOrderResponse : Eta RestOrderResponse := λ r,
  mkRestOrderResponse (ro_context r) (ro_command_kind r) (ro_result_code r) (ro_client_order_id r)
    (ro_exchange_order_id r) (ro_transport_submit_ts_ns r) (ro_transport_recv_ts_ns r)
    (ro_http_status_code r) (ro_retry_count r) (ro_venue_reject_reason r)
    (ro_raw_reason_message r) (ro_execution_summary_present r) (ro_acknowledged_fill_qty_lots r)
    (ro_acknowledged_remaining_qty_lots r) (ro_acknowledged_average_fill_price_ticks r)
    (ro_acknowledged_fee_paid_ticks r) (ro_venue_ts_ms r).
Definition default_RestOrderResponse : RestOrderResponse :=
  mkRestOrderResponse default_OmsContext kREST_UNKNOWN kRESULT_UNKNOWN "" "" 0 0 0 0 kVenueNone ""
    false 0 0 0 0 0.

Record RestOrderBatchResponse := mkRestOrderBatchResponse {
  rb_batch_oms_request_id : Z;
  rb_oms_group_id : Z;
  rb_group_context : IntentContext;
  rb_result_code : RestResultCode;
  rb_order_responses : list RestOrderResponse;
  rb_requested_order_count : Z;
  rb_response_order_count : Z;
  rb_transport_submit_ts_ns : Z;
  rb_transport_recv_ts_ns : Z;
  rb_http_status_code : Z;
  rb_retry_count : Z;
  rb_venue_reject_reason : VenueRejectReason;
  rb_raw_reason_message : string;
}.
#[export] Instance eta_RestOrderBatchResponse : Eta RestOrderBatchResponse := λ r,
  mkRestOrderBatchResponse (rb_batch_oms_request_id r) (rb_oms_group_id r) (rb_group_context r)
    (rb_result_code r) (rb_order_responses r) (rb_requested_order_count r)
    (rb_response_order_count r) (rb_transport_submit_ts_ns r) (rb_transport_recv_ts_ns r)
    (rb_http_status_code r) (rb_retry_count r) (rb_venue_reject_reason r)
    (rb_raw_reason_message r).
Definition default_RestOrderBatchResponse : RestOrderBatchResponse :=
  mkRestOrderBatchResponse 0 0 default_IntentContext kRESULT_UNKNOWN
    (replicate kMAX_ORDERS_PER_GROUP default_RestOrderResponse) 0 0 0 0 0 0 kVenueNone "".

Inductive PrivateWsOrderEventKind := | kWS_UNKNOWN | kUSER_ORDER | kFILL | kMARKET_POSITION.
#[export] Instance PrivateWsOrderEventKind_eq_dec : EqDecision PrivateWsOrderEventKind.
Proof. solve_decision. Defined.

Record PrivateWsOrderEvent := mkPrivateWsOrderEvent {
  pw_event_kind : PrivateWsOrderEventKind;
  pw_client_order_id : ClientOrderId;
  pw_exchange_order_id : ExchangeOrderId;
  pw_trade_id : VenueTradeId;
  pw_market_id : Z;
  pw_outcome : Outcome;
  pw_action : OrderAction;
  pw_recv_ts_ns : Z;
  pw_venue_ts_ns : Z;
  pw_ws_sequence : Z;
  pw_order_state : OrderState;
  pw_ordered_qty_lots : Z;
  pw_cumulative_filled_qty_lots : Z;
  pw_leaves_qty_lots : Z;
  pw_last_fill_qty_lots : Z;
  pw_last_fill_price_ticks : Z;
  pw_net_position_lots : Z;
  pw_position_cost_ticks : Z;
  pw_realized_pnl_ticks : Z;
  pw_fees_paid_ticks : Z;
  pw_position_fee_cost_ticks : Z;
  pw_volume_lots : Z;
}.
#[export] Instance eta_PrivateWsOrderEvent : Eta PrivateWsOrderEvent := λ r,
  mkPrivateWsOrderEvent (pw_event_kind r) (pw_client_order_id r) (pw_exchange_order_id r)
    (pw_trade_id r) (pw_market_id r) (pw_outcome r) (pw_action r) (pw_recv_ts_ns r)
    (pw_venue_ts_ns r) (pw_ws_sequence r) (pw_order_state r) (pw_ordered_qty_lots r)
    (pw_cumulative_filled_qty_lots r) (pw_leaves_qty_lots r) (pw_last_fill_qty_lots r)
    (pw_last_fill_price_ticks r) (pw_net_position_lots r) (pw_position_cost_ticks r)
    (pw_realized_pnl_ticks r) (pw_fees_paid_ticks r) (pw_position_fee_cost_ticks r)
    (pw_volume_lots r).
Definition default_PrivateWsOrderEvent : PrivateWsOrderEvent :=
  mkPrivateWsOrderEvent kWS_UNKNOWN "" "" "" 0 kOUTCOME_UNKNOWN kACTION_UNKNOWN 0 0 0
    kORDER_UNKNOWN 0 0 0 0 0 0 0 0 0 0 0.

Record VenueMarketPositionSnapshot := mkVenueMarketPositionSnapshot {
  vp_market_ticker : string;
  vp_market_id : Z;
  vp_event_id : Z;
  vp_net_position_lots : Z;
  vp_position_cost_ticks : Z;
  vp_market_exposure_ticks : Z;
  vp_realized_pnl_ticks : Z;
  vp_fees_paid_ticks : Z;
  vp_position_fee_cost_ticks : Z;
  vp_volume_lots : Z;
  vp_position_cost_present : bool;
  vp_market_exposure_present : bool;
  vp_realized_pnl_present : bool;
  vp_fees_paid_present : bool;
}.
#[export] Instance eta_VenueMarketPositionSnapshot : Eta VenueMarketPositionSnapshot := λ r,
  mkVenueMarketPositionSnapshot (vp_market_ticker r) (vp_market_id r) (vp_event_id r)
    (vp_net_position_lots r) (vp_position_cost_ticks r) (vp_market_exposure_ticks r)
    (vp_realized_pnl_ticks r) (vp_fees_paid_ticks r) (vp_position_fee_cost_ticks r)
    (vp_volume_lots r) (vp_position_cost_present r) (vp_market_exposure_present r)
    (vp_realized_pnl_present r) (vp_fees_paid_present r).
Definition default_VenueMarketPositionSnapshot : VenueMarketPositionSnapshot :=
  mkVenueMarketPositionSnapshot "" 0 0 0 0 0 0 0 0 0 false false false false.

Inductive PortfolioReconciliationResultCode := | kRECONCILIATION_UNKNOWN
  | kRECONCILIATION_COMPLETE | kRECONCILIATION_FAILED.
#[export] Instance PortfolioReconciliationResultCode_eq_dec : EqDecision PortfolioReconciliationResultCode.
Proof. solve_decision. Defined.

Record VenuePortfolioSnapshot := mkVenuePortfolioSnapshot {
  vs_reconciliation_id : Z;
  vs_universe_version : Z;
  vs_result_code : PortfolioReconciliationResultCode;
  vs_available_balance_ticks : Z;
  vs_portfolio_value_ticks : Z;
  vs_market_positions : list VenueMarketPositionSnapshot;
  vs_request_ts_ns : Z;
  vs_received_ts_ns : Z;
  vs_error_message : string;
}.
#[export] Instance eta_VenuePortfolioSnapshot : Eta VenuePortfolioSnapshot := λ r,
  mkVenuePortfolioSnapshot (vs_reconciliation_id r) (vs_universe_version r) (vs_result_code r)
    (vs_available_balance_ticks r) (vs_portfolio_value_ticks r) (vs_market_positions r)
    (vs_request_ts_ns r) (vs_received_ts_ns r) (vs_error_message r).
Definition default_VenuePortfolioSnapshot : VenuePortfolioSnapshot :=
  mkVenuePortfolioSnapshot 0 0 kRECONCILIATION_UNKNOWN 0 0 [] 0 0 "".

Record OrderRestEgressDrained := mkOrderRestEgressDrained {
  ed_shutdown_epoch : Z;
  ed_completion_ts_ns : Z;
}.
#[export] Instance eta_OrderRestEgressDrained : Eta OrderRestEgressDrained := λ r,
  mkOrderRestEgressDrained (ed_shutdown_epoch r) (ed_completion_ts_ns r).
Definition default_OrderRestEgressDrained : OrderRestEgressDrained :=
  mkOrderRestEgressDrained 0 0.

Inductive KalshiToOmsEvent :=
  | KeRest (m : RestOrderResponse) | KeRestBatch (m : RestOrderBatchResponse) | KePrivateWs (m : PrivateWsOrderEvent)
  | KeReconciledOrders | KePortfolio (m : VenuePortfolioSnapshot) | KeDrained (m : OrderRestEgressDrained).

(** ** Control commands and statuses *)

Record OmsTelemetrySnapshot := mkOmsTelemetrySnapshot {
  tm_installed_universe_version : Z;
  tm_unknown_market_rejects : Z;
  tm_non_tradeable_market_rejects : Z;
  tm_strategy_intents_received : Z;
  tm_strategy_intents_processed : Z;
  tm_strategy_intents_rejected : Z;
  tm_kalshi_commands_sent : Z;
  tm_kalshi_commands_failed : Z;
  tm_rest_responses_seen : Z;
  tm_private_ws_events_seen : Z;
  tm_reconciliation_events_seen : Z;
  tm_portfolio_reconciliations_requested : Z;
  tm_portfolio_reconciliations_completed : Z;
  tm_portfolio_reconciliations_failed : Z;
  tm_duplicate_fills_ignored : Z;
  tm_venue_position_updates_seen : Z;
  tm_venue_available_balance_ticks : Z;
  tm_portfolio_reconciled : bool;
  tm_order_state_updates_sent : Z;
  tm_strategy_response_backpressure : Z;
  tm_execution_incidents_latched : Z;
  tm_group_repair_attempts : Z;
  tm_group_repair_commands_sent : Z;
  tm_group_repairs_completed : Z;
  tm_group_repairs_failed : Z;
  tm_execution_incident_active : bool;
  tm_live_orders : Z;
  tm_pending_submit_orders : Z;
  tm_uncertain_orders : Z;
}.
#[export] Instance eta_OmsTelemetrySnapshot : Eta OmsTelemetrySnapshot := λ r,
  mkOmsTelemetrySnapshot (tm_installed_universe_version r) (tm_unknown_market_rejects r)
    (tm_non_tradeable_market_rejects r) (tm_strategy_intents_received r)
    (tm_strategy_intents_processed r) (tm_strategy_intents_rejected r) (tm_kalshi_commands_sent r)
    (tm_kalshi_commands_failed r) (tm_rest_responses_seen r) (tm_private_ws_events_seen r)
    (tm_reconciliation_events_seen r) (tm_portfolio_reconciliations_requested r)
    (tm_portfolio_reconciliations_completed r) (tm_portfolio_reconciliations_failed r)
    (tm_duplicate_fills_ignored r) (tm_venue_position_updates_seen r)
    (tm_venue_available_balance_ticks r) (tm_portfolio_reconciled r)
    (tm_order_state_updates_sent r) (tm_strategy_response_backpressure r)
    (tm_execution_incidents_latched r) (tm_group_repair_attempts r)
    (tm_group_repair_commands_sent r) (tm_group_repairs_completed r) (tm_group_repairs_failed r)
    (tm_execution_incident_active r) (tm_live_orders r) (tm_pending_submit_orders r)
    (tm_uncertain_orders r).
Definition default_OmsTelemetrySnapshot : OmsTelemetrySnapshot :=
  mkOmsTelemetrySnapshot 0 0 0 0 0 0 0 0 0 0 0 0 0 0 0 0 0 false 0 0 0 0 0 0 0 false 0 0 0.

Record OrderMarketRoute := mkOrderMarketRoute {
  mr_market_id : Z;
  mr_event_id : Z;
  mr_kalshi_ticker : string;
  mr_tradeable : bool;
  mr_price_level_structure : Z;
  mr_strike_key : option Z;
  mr_market_time_s : Z;
  mr_market_close_time_s : Z;
  mr_market_expected_expiration_time_s : Z;
  mr_market_expiration_time_s : Z;
}.
#[export] Instance eta_OrderMarketRoute : Eta OrderMarketRoute := λ r,
  mkOrderMarketRoute (mr_market_id r) (mr_event_id r) (mr_kalshi_ticker r) (mr_tradeable r)
    (mr_price_level_structure r) (mr_strike_key r) (mr_market_time_s r) (mr_market_close_time_s r)
    (mr_market_expected_expiration_time_s r) (mr_market_expiration_time_s r).
Definition default_OrderMarketRoute : OrderMarketRoute :=
  mkOrderMarketRoute 0 0 "" false 0 None 0 0 0 0.

Record OrderRouteUniverse := mkOrderRouteUniverse {
  un_version : Z;
  un_market_routes : list OrderMarketRoute;
}.
#[export] Instance eta_OrderRouteUniverse : Eta OrderRouteUniverse := λ r,
  mkOrderRouteUniverse (un_version r) (un_market_routes r).
Definition default_OrderRouteUniverse : OrderRouteUniverse :=
  mkOrderRouteUniverse 0 [].

Inductive ControlToOmsCommand :=
  | CtApplyOrderRouteUniverse (snapshot : option OrderRouteUniverse)
  | CtAllowTrading | CtDisableTrading | CtCancelAllOrders.

Record OmsRestEgressDrained := mkOmsRestEgressDrained {
  rd_shutdown_epoch : Z;
  rd_completion_ts_ns : Z;
  rd_live_orders : Z;
  rd_uncertain_orders : Z;
}.
#[export] Instance eta_OmsRestEgressDrained : Eta OmsRestEgressDrained := λ r,
  mkOmsRestEgressDrained (rd_shutdown_epoch r) (rd_completion_ts_ns r) (rd_live_orders r)
    (rd_uncertain_orders r).
Definition default_OmsRestEgressDrained : OmsRestEgressDrained :=
  mkOmsRestEgressDrained 0 0 0 0.

Inductive OmsToControlStatus :=
  | CsReady | CsFaulted (error_message : string) | CsTelemetry (telemetry : OmsTelemetrySnapshot)
  | CsTradingEnabledChanged (trading_enabled : bool)
  | CsCancelAllStateChanged (cancel_all_requested : bool) (live_orders : Z)
  | CsRestEgressDrained (m : OmsRestEgressDrained).

(** ** Records kept by the OMS *)

Record OrderRecord := mkOrderRecord {
  od_context : OmsContext;
  od_client_order_id : ClientOrderId;
  od_exchange_order_id : option ExchangeOrderId;
  od_order_state : OrderState;
  od_previous_order_state : OrderState;
  od_outcome : Outcome;
  od_action : OrderAction;
  od_liquidity_intent : LiquidityIntent;
  od_order_type : OrderType;
  od_time_in_force : TimeInForce;
  od_market_id : Z;
  od_ordered_qty_lots : Z;
  od_working_price_ticks : Z;
  od_cumulative_filled_qty_lots : Z;
  od_leaves_qty_lots : Z;
  od_pending_command_oms_request_id : Z;
  od_pending_command_kind : RestCommandKind;
  od_oms_group_id : Z;
  od_group_leg_index : Z;
  od_repair_order : bool;
  od_terminal_accounted : bool;
  od_reserved_capital_ticks : Z;
}.
#[export] Instance eta_OrderRecord : Eta OrderRecord := λ r,
  mkOrderRecord (od_context r) (od_client_order_id r) (od_exchange_order_id r) (od_order_state r)
    (od_previous_order_state r) (od_outcome r) (od_action r) (od_liquidity_intent r)
    (od_order_type r) (od_time_in_force r) (od_market_id r) (od_ordered_qty_lots r)
    (od_working_price_ticks r) (od_cumulative_filled_qty_lots r) (od_leaves_qty_lots r)
    (od_pending_command_oms_request_id r) (od_pending_command_kind r) (od_oms_group_id r)
    (od_group_leg_index r) (od_repair_order r) (od_terminal_accounted r)
    (od_reserved_capital_ticks r).
Definition default_OrderRecord : OrderRecord :=
  mkOrderRecord default_OmsContext "" None kORDER_UNKNOWN kORDER_UNKNOWN kOUTCOME_UNKNOWN
    kACTION_UNKNOWN kLIQUIDITY_UNKNOWN kLIMIT kGTC 0 0 0 0 0 0 kREST_UNKNOWN 0 0 false false 0.

Record OmsRiskConfig := mkOmsRiskConfig {
  rk_strategy_allocation_limit_ticks : Z;
  rk_venue_safety_reserve_ticks : Z;
  rk_maximum_group_reservation_ticks : Z;
  rk_maximum_group_legs : Z;
  rk_maximum_group_repair_attempts : Z;
  rk_maximum_group_intent_age_ns : Z;
  rk_portfolio_reconciliation_interval_ns : Z;
  rk_require_portfolio_reconciliation : bool;
}.
#[export] Instance eta_OmsRiskConfig : Eta OmsRiskConfig := λ r,
  mkOmsRiskConfig (rk_strategy_allocation_limit_ticks r) (rk_venue_safety_reserve_ticks r)
    (rk_maximum_group_reservation_ticks r) (rk_maximum_group_legs r)
    (rk_maximum_group_repair_attempts r) (rk_maximum_group_intent_age_ns r)
    (rk_portfolio_reconciliation_interval_ns r) (rk_require_portfolio_reconciliation r).
Definition default_OmsRiskConfig : OmsRiskConfig :=
  mkOmsRiskConfig 0 0 0 10 2 0 0 false.

Record GroupAdmissionCheck := mkGroupAdmissionCheck {
  ac_accepted : bool;
  ac_reject_reason : RejectReason;
  ac_required_capital_ticks : Z;
}.
#[export] Instance eta_GroupAdmissionCheck : Eta GroupAdmissionCheck := λ r,
  mkGroupAdmissionCheck (ac_accepted r) (ac_reject_reason r) (ac_required_capital_ticks r).
Definition default_GroupAdmissionCheck : GroupAdmissionCheck :=
  mkGroupAdmissionCheck false kINVALID_INTENT 0.

Record GroupRecord := mkGroupRecord {
  gr_oms_group_id : Z;
  gr_context : IntentContext;
  gr_batch_oms_request_id : Z;
  gr_execution_state : GroupExecutionState;
  gr_failure_reason : GroupFailureReason;
  gr_original_leg_request_ids : list Z;
  gr_active_repair_request_ids : list Z;
  gr_residual_yes_lots : list Z;
  gr_leg_count : Z;
  gr_cancel_attempt_count : Z;
  gr_repair_attempt_count : Z;
  gr_reserved_capital_ticks : Z;
  gr_residual_exposure_present : bool;
  gr_capital_released : bool;
  gr_venue_state_uncertain : bool;
  gr_admitted_ts_ns : Z;
  gr_last_update_ts_ns : Z;
}.
#[export] Instance eta_GroupRecord : Eta GroupRecord := λ r,
  mkGroupRecord (gr_oms_group_id r) (gr_context r) (gr_batch_oms_request_id r)
    (gr_execution_state r) (gr_failure_reason r) (gr_original_leg_request_ids r)
    (gr_active_repair_request_ids r) (gr_residual_yes_lots r) (gr_leg_count r)
    (gr_cancel_attempt_count r) (gr_repair_attempt_count r) (gr_reserved_capital_ticks r)
    (gr_residual_exposure_present r) (gr_capital_released r) (gr_venue_state_uncertain r)
    (gr_admitted_ts_ns r) (gr_last_update_ts_ns r).
Definition default_GroupRecord : GroupRecord :=
  mkGroupRecord 0 default_IntentContext 0 kGROUP_UNKNOWN kFAILURE_NONE
    (replicate kMAX_ORDERS_PER_GROUP 0) (replicate kMAX_ORDERS_PER_GROUP 0)
    (replicate kMAX_ORDERS_PER_GROUP 0) 0 0 0 0 false false false 0 0.

Record StrategyPortfolioRecord := mkStrategyPortfolioRecord {
  pf_strategy_index : Z;
  pf_next_sequence : Z;
  pf_allocation_limit_ticks : Z;
  pf_available_capital_ticks : Z;
  pf_reserved_order_capital_ticks : Z;
  pf_inventory_exposure_ticks : Z;
  pf_realized_pnl_ticks : Z;
  pf_fees_paid_ticks : Z;
  pf_open_order_count : Z;
  pf_active_group_count : Z;
}.
#[export] Instance eta_StrategyPortfolioRecord : Eta StrategyPortfolioRecord := λ r,
  mkStrategyPortfolioRecord (pf_strategy_index r) (pf_next_sequence r)
    (pf_allocation_limit_ticks r) (pf_available_capital_ticks r)
    (pf_reserved_order_capital_ticks r) (pf_inventory_exposure_ticks r) (pf_realized_pnl_ticks r)
    (pf_fees_paid_ticks r) (pf_open_order_count r) (pf_active_group_count r).
Definition default_StrategyPortfolioRecord : StrategyPortfolioRecord :=
  mkStrategyPortfolioRecord 0 1 0 0 0 0 0 0 0 0.

Record StrategyMarketPositionRecord := mkStrategyMarketPositionRecord {
  ps_strategy_index : Z;
  ps_market_id : Z;
  ps_event_id : Z;
  ps_net_position_lots : Z;
  ps_resting_buy_qty_lots : Z;
  ps_resting_sell_qty_lots : Z;
  ps_average_entry_price_ticks : Z;
  ps_position_cost_ticks : Z;
  ps_market_exposure_ticks : Z;
  ps_realized_pnl_ticks : Z;
  ps_fees_paid_ticks : Z;
}.
#[export] Instance eta_StrategyMarketPositionRecord : Eta StrategyMarketPositionRecord := λ r,
  mkStrategyMarketPositionRecord (ps_strategy_index r) (ps_market_id r) (ps_event_id r)
    (ps_net_position_lots r) (ps_resting_buy_qty_lots r) (ps_resting_sell_qty_lots r)
    (ps_average_entry_price_ticks r) (ps_position_cost_ticks r) (ps_market_exposure_ticks r)
    (ps_realized_pnl_ticks r) (ps_fees_paid_ticks r).
Definition default_StrategyMarketPositionRecord : StrategyMarketPositionRecord :=
  mkStrategyMarketPositionRecord 0 0 0 0 0 0 0 0 0 0 0.

Record VenuePortfolioRecord := mkVenuePortfolioRecord {
  vr_available_balance_ticks : Z;
  vr_portfolio_value_ticks : Z;
  vr_reconciliation_id : Z;
  vr_received_ts_ns : Z;
  vr_reconciled : bool;
}.
#[export] Instance eta_VenuePortfolioRecord : Eta VenuePortfolioRecord := λ r,
  mkVenuePortfolioRecord (vr_available_balance_ticks r) (vr_portfolio_value_ticks r)
    (vr_reconciliation_id r) (vr_received_ts_ns r) (vr_reconciled r).
Definition default_VenuePortfolioRecord : VenuePortfolioRecord :=
  mkVenuePortfolioRecord 0 0 0 0 false.

Inductive OmsPumpResult := | kPUMP_OK | kPUMP_NoWork | kPUMP_Error.
#[export] Instance OmsPumpResult_eq_dec : EqDecision OmsPumpResult.
Proof. solve_decision. Defined.

