(* ===== verification/RestTypes.v ===== *)
(** * RestTypes: orders over HTTP

    Models the types of [cpp/include/predex/exchange/kalshi/http_types.hpp] and the requests and
    results of [adapters/order_rest_adapter.hpp], and states what the REST path uses of the two
    libraries beneath it: nlohmann's JSON values and the HTTP/2 session. *)

From S2P Require Import Prelude OmsTypes.

(** ** HTTP *)

Inductive HttpMethod := | kGET | kPOST | kDELETE | kPUT.
#[export] Instance HttpMethod_eq_dec : EqDecision HttpMethod.
Proof. solve_decision. Defined.

Inductive HttpProtocol := | kPROTOCOL_UNKNOWN | kHTTP_1_1 | kHTTP_2.
#[export] Instance HttpProtocol_eq_dec : EqDecision HttpProtocol.
Proof. solve_decision. Defined.

Inductive HttpRequestStatus := | kHTTP_IDLE | kHTTP_IN_FLIGHT | kHTTP_COMPLETED.
#[export] Instance HttpRequestStatus_eq_dec : EqDecision HttpRequestStatus.
Proof. solve_decision. Defined.

Inductive HttpStartResult := | kSTART_ACCEPTED | kSTART_AT_CAPACITY | kSTART_CLOSED | kSTART_ERROR.
#[export] Instance HttpStartResult_eq_dec : EqDecision HttpStartResult.
Proof. solve_decision. Defined.

Record HttpHeader := mkHttpHeader {
  hh_name : string;
  hh_value : string;
}.
#[export] Instance eta_HttpHeader : Eta HttpHeader := λ r,
  mkHttpHeader (hh_name r) (hh_value r).
Definition default_HttpHeader : HttpHeader :=
  mkHttpHeader ""%string ""%string.

Record HttpTrace := mkHttpTrace {
  ht_enqueue_ts_ns : Z;
  ht_resolve_start_ts_ns : Z;
  ht_resolve_end_ts_ns : Z;
  ht_connect_start_ts_ns : Z;
  ht_connect_end_ts_ns : Z;
  ht_tls_start_ts_ns : Z;
  ht_tls_end_ts_ns : Z;
  ht_write_start_ts_ns : Z;
  ht_request_sent_ts_ns : Z;
  ht_response_recv_ts_ns : Z;
  ht_retry_count : Z;
  ht_reused_connection : bool;
  ht_negotiated_protocol : HttpProtocol;
}.
#[export] Instance eta_HttpTrace : Eta HttpTrace := λ r,
  mkHttpTrace (ht_enqueue_ts_ns r) (ht_resolve_start_ts_ns r) (ht_resolve_end_ts_ns r) (ht_connect_start_ts_ns r)
    (ht_connect_end_ts_ns r) (ht_tls_start_ts_ns r) (ht_tls_end_ts_ns r) (ht_write_start_ts_ns r)
    (ht_request_sent_ts_ns r) (ht_response_recv_ts_ns r) (ht_retry_count r) (ht_reused_connection r)
    (ht_negotiated_protocol r).
Definition default_HttpTrace : HttpTrace :=
  mkHttpTrace 0 0 0 0 0 0 0 0 0 0 0 false kPROTOCOL_UNKNOWN.

Record HttpRequest := mkHttpRequest {
  hq_request_id : Z;
  hq_method : HttpMethod;
  hq_target : string;
  hq_body : string;
  hq_content_type : string;
  hq_authenticate : bool;
  hq_headers : list HttpHeader;
  hq_trace : HttpTrace;
}.
#[export] Instance eta_HttpRequest : Eta HttpRequest := λ r,
  mkHttpRequest (hq_request_id r) (hq_method r) (hq_target r) (hq_body r) (hq_content_type r) (hq_authenticate r)
    (hq_headers r) (hq_trace r).
Definition default_HttpRequest : HttpRequest :=
  mkHttpRequest 0 kGET ""%string ""%string "application/json"%string true [] default_HttpTrace.

Record HttpResponse := mkHttpResponse {
  hs_request_id : Z;
  hs_ok : bool;
  hs_status_code : Z;
  hs_body : string;
  hs_error_message : string;
  hs_trace : HttpTrace;
}.
#[export] Instance eta_HttpResponse : Eta HttpResponse := λ r,
  mkHttpResponse (hs_request_id r) (hs_ok r) (hs_status_code r) (hs_body r) (hs_error_message r) (hs_trace r).
Definition default_HttpResponse : HttpResponse :=
  mkHttpResponse 0 false 0 ""%string ""%string default_HttpTrace.

Record HttpPollResult := mkHttpPollResult {
  hp_status : HttpRequestStatus;
  hp_response : option HttpResponse;
}.
#[export] Instance eta_HttpPollResult : Eta HttpPollResult := λ r,
  mkHttpPollResult (hp_status r) (hp_response r).
Definition default_HttpPollResult : HttpPollResult :=
  mkHttpPollResult kHTTP_IDLE None.

(** ** Requests and their results *)

Inductive PortfolioRestRequestKind := | kBALANCE | kPOSITIONS.
#[export] Instance PortfolioRestRequestKind_eq_dec : EqDecision PortfolioRestRequestKind.
Proof. solve_decision. Defined.

Record PreparedOrderRestRequest := mkPreparedOrderRestRequest {
  po_ok : bool;
  po_request : HttpRequest;
  po_source_command : OmsToKalshiCommand;
  po_command_kind : RestCommandKind;
  po_error_message : string;
}.
#[export] Instance eta_PreparedOrderRestRequest : Eta PreparedOrderRestRequest := λ r,
  mkPreparedOrderRestRequest (po_ok r) (po_request r) (po_source_command r) (po_command_kind r) (po_error_message r).
Definition default_PreparedOrderRestRequest : PreparedOrderRestRequest :=
  mkPreparedOrderRestRequest false default_HttpRequest (KcSubmit default_SubmitOrderCmd) kREST_UNKNOWN ""%string.

Record CompletedOrderRestRequest := mkCompletedOrderRestRequest {
  co_ok : bool;
  co_response : RestOrderResponse;
  co_error_message : string;
}.
#[export] Instance eta_CompletedOrderRestRequest : Eta CompletedOrderRestRequest := λ r,
  mkCompletedOrderRestRequest (co_ok r) (co_response r) (co_error_message r).
Definition default_CompletedOrderRestRequest : CompletedOrderRestRequest :=
  mkCompletedOrderRestRequest false default_RestOrderResponse ""%string.

Record CompletedOrderRestBatchRequest := mkCompletedOrderRestBatchRequest {
  cb_ok : bool;
  cb_response : RestOrderBatchResponse;
  cb_error_message : string;
}.
#[export] Instance eta_CompletedOrderRestBatchRequest : Eta CompletedOrderRestBatchRequest := λ r,
  mkCompletedOrderRestBatchRequest (cb_ok r) (cb_response r) (cb_error_message r).
Definition default_CompletedOrderRestBatchRequest : CompletedOrderRestBatchRequest :=
  mkCompletedOrderRestBatchRequest false default_RestOrderBatchResponse ""%string.

Record PreparedPortfolioRestRequest := mkPreparedPortfolioRestRequest {
  pp_ok : bool;
  pp_request : HttpRequest;
  pp_kind : PortfolioRestRequestKind;
  pp_reconciliation_id : Z;
  pp_error_message : string;
}.
#[export] Instance eta_PreparedPortfolioRestRequest : Eta PreparedPortfolioRestRequest := λ r,
  mkPreparedPortfolioRestRequest (pp_ok r) (pp_request r) (pp_kind r) (pp_reconciliation_id r) (pp_error_message r).
Definition default_PreparedPortfolioRestRequest : PreparedPortfolioRestRequest :=
  mkPreparedPortfolioRestRequest false default_HttpRequest kBALANCE 0 ""%string.

Record CompletedPortfolioBalanceRequest := mkCompletedPortfolioBalanceRequest {
  cbal_ok : bool;
  cbal_reconciliation_id : Z;
  cbal_available_balance_ticks : Z;
  cbal_portfolio_value_ticks : Z;
  cbal_error_message : string;
}.
#[export] Instance eta_CompletedPortfolioBalanceRequest : Eta CompletedPortfolioBalanceRequest := λ r,
  mkCompletedPortfolioBalanceRequest (cbal_ok r) (cbal_reconciliation_id r) (cbal_available_balance_ticks r)
    (cbal_portfolio_value_ticks r) (cbal_error_message r).
Definition default_CompletedPortfolioBalanceRequest : CompletedPortfolioBalanceRequest :=
  mkCompletedPortfolioBalanceRequest false 0 0 0 ""%string.

Record CompletedPortfolioPositionsRequest := mkCompletedPortfolioPositionsRequest {
  cpos_ok : bool;
  cpos_reconciliation_id : Z;
  cpos_positions : list VenueMarketPositionSnapshot;
  cpos_next_cursor : string;
  cpos_error_message : string;
}.
#[export] Instance eta_CompletedPortfolioPositionsRequest : Eta CompletedPortfolioPositionsRequest := λ r,
  mkCompletedPortfolioPositionsRequest (cpos_ok r) (cpos_reconciliation_id r) (cpos_positions r) (cpos_next_cursor r)
    (cpos_error_message r).
Definition default_CompletedPortfolioPositionsRequest : CompletedPortfolioPositionsRequest :=
  mkCompletedPortfolioPositionsRequest false 0 [] ""%string ""%string.

(** ** Libraries *)

(** Values of [nlohmann::json].  [json_parse], [json_dump] and [json_get_int64] give the message
    of the exception they throw on the left; [json_at] is [operator[]] for a key that is present,
    [json_items] the elements of an array. *)
Class NlohmannJson := {
  json : Type;
  json_parse : string → string + json;
  json_is_object : json → bool;
  json_is_array : json → bool;
  json_is_string : json → bool;
  json_is_null : json → bool;
  json_is_number_integer : json → bool;
  json_is_number_unsigned : json → bool;
  json_contains : json → string → bool;
  json_at : json → string → json;
  json_empty : json → bool;
  json_items : json → list json;
  json_get_string : json → string;
  json_get_int64 : json → string + Z;
  json_get_uint64 : json → Z;
  json_dump : json → string + string;
}.

(** [exchange::kalshi::Http2Session]. *)
Class HttpSession (H : Type) := {
  http_warm_up : H → bool * H;
  http_start_request : HttpRequest → H → HttpStartResult * H;
  http_poll : H → HttpPollResult * H;
  http_last_error : H → string;
}.
