(* ===== verification/RestAdapter.v ===== *)
(** * RestAdapter: from commands to HTTP requests and back

    Models [cpp/src/exchange/kalshi/adapters/order_rest_adapter.cpp]: requests built for the
    commands of the OMS, and the responses of the venue read into events.  [nlohmann::json] is
    the class [NlohmannJson]; an exception is a value. *)

From S2P Require Import Prelude MoneyTicks FixedPoint OmsTypes RestTypes.
From Stdlib Require Import Ascii.
From Stdlib Require String.
Open Scope Z_scope.

Module RestAdapter.
Import MoneyTicks FixedPoint.

Definition kPRICE_TICKS_PER_DOLLAR : Z := 10000.
Definition kQUANTITY_LOTS_PER_CONTRACT : Z := 100.

Definition chars (s : string) : list ascii := String.list_ascii_of_string s.
Definition text (l : list ascii) : string := String.string_of_list_ascii l.

(** ** Orders in the venue's terms *)

Record V2OrderCoordinates := mkV2OrderCoordinates {
  v2_side : string;
  v2_yes_price_ticks : Z;
}.

Definition to_v2_order_coordinates (outcome : Outcome) (action : OrderAction) (outcome_price_ticks : Z) : option V2OrderCoordinates :=
  if (outcome_price_ticks <=? 0) || (kPRICE_TICKS_PER_DOLLAR <=? outcome_price_ticks) then None
  else
    let valid_outcome := bool_decide (outcome = kYES) || bool_decide (outcome = kNO) in
    let valid_action := bool_decide (action = kBUY) || bool_decide (action = kSELL) in
    if negb valid_outcome || negb valid_action then None
    else
      let yes_price_ticks := if bool_decide (outcome = kYES) then outcome_price_ticks else kPRICE_TICKS_PER_DOLLAR - outcome_price_ticks in
      let is_yes_bid := (bool_decide (outcome = kYES) && bool_decide (action = kBUY)) || (bool_decide (outcome = kNO) && bool_decide (action = kSELL)) in
      Some (mkV2OrderCoordinates (if is_yes_bid then "bid" else "ask") yes_price_ticks).

Definition tif_to_string (time_in_force : TimeInForce) : string :=
  match time_in_force with kGTC => "good_till_canceled" | kIOC => "immediate_or_cancel" | kFOK => "fill_or_kill" end.

(** ** Text *)

Definition quote_char : ascii := ascii_of_N 34.
Definition backslash_char : ascii := ascii_of_N 92.
Definition newline_char : ascii := ascii_of_N 10.
Definition return_char : ascii := ascii_of_N 13.
Definition tab_char : ascii := ascii_of_N 9.

Definition escape_char (ch : ascii) : list ascii :=
  if bool_decide (ch = backslash_char) then [backslash_char; backslash_char]
  else if bool_decide (ch = quote_char) then [backslash_char; quote_char]
  else if bool_decide (ch = newline_char) then [backslash_char; "n"%char]
  else if bool_decide (ch = return_char) then [backslash_char; "r"%char]
  else if bool_decide (ch = tab_char) then [backslash_char; "t"%char]
  else [ch].
(** The text [append_json_escaped] appends. *)
Definition json_escaped (value : string) : string := text ([quote_char] ++ (chars value ≫= escape_char) ++ [quote_char]).

Definition hex_digit (n : Z) : ascii := default "0"%char (chars "0123456789ABCDEF" !! Z.to_nat n).
Definition in_range (lo hi : N) (ch : ascii) : bool := ((lo <=? N_of_ascii ch) && (N_of_ascii ch <=? hi))%N.
Definition unreserved (ch : ascii) : bool :=
  in_range 65 90 ch || in_range 97 122 ch || in_range 48 57 ch || bool_decide (ch = "-"%char) || bool_decide (ch = "_"%char)
  || bool_decide (ch = "."%char) || bool_decide (ch = "~"%char).
Definition percent_encode_char (ch : ascii) : list ascii :=
  if unreserved ch then [ch]
  else ["%"%char; hex_digit (Z.land (Z.shiftr (Z.of_N (N_of_ascii ch)) 4) 15); hex_digit (Z.land (Z.of_N (N_of_ascii ch)) 15)].
Definition percent_encode_query_value (value : string) : string := text (chars value ≫= percent_encode_char).

(** A key of an object, with its colon. *)
Definition key (name : string) : string := text ([quote_char] ++ chars name ++ [quote_char; ":"%char]).
Definition bool_text (b : bool) : string := if b then "true" else "false".

(** The printer fails for a negative number only; both numbers printed are positive. *)
Definition decimal (value scale : Z) (digits : nat) : string := text (default [] (scaled_integer_to_decimal value scale digits)).

(** ** Requests *)

(** [append_v2_order_object]: the error, or the text appended. *)
Definition append_v2_order_object (command : SubmitOrderCmd) (market_ticker : string) : string + string :=
  let order := so_new_order_intent command in
  if (so_oms_request_id command =? 0) || id_empty (so_client_order_id command)
  then inl "submit_order: missing OMS or client order identifier"%string
  else if no_quantity_lots order <=? 0 then inl "submit_order: quantity_lots must be positive"%string
  else
    match to_v2_order_coordinates (no_outcome order) (no_action order) (no_price_ticks order) with
    | None => inl "submit_order: invalid outcome, action, or price_ticks"%string
    | Some coordinates =>
        let tif := tif_to_string (no_time_in_force order) in
        if bool_decide (tif = ""%string) then inl "submit_order: unsupported time_in_force"%string
        else if bool_decide (no_liquidity_intent order = kMAKER) && bool_decide (no_order_type order = kMARKETABLE_LIMIT)
        then inl "submit_order: maker intent cannot be marketable"%string
        else
          let count := decimal (no_quantity_lots order) kQUANTITY_LOTS_PER_CONTRACT 2 in
          let price := decimal (v2_yes_price_ticks coordinates) kPRICE_TICKS_PER_DOLLAR 4 in
          inr ("{" +:+ key "ticker" +:+ json_escaped market_ticker
               +:+ "," +:+ key "client_order_id" +:+ json_escaped (so_client_order_id command)
               +:+ "," +:+ key "side" +:+ json_escaped (v2_side coordinates)
               +:+ "," +:+ key "count" +:+ json_escaped count
               +:+ "," +:+ key "price" +:+ json_escaped price
               +:+ "," +:+ key "time_in_force" +:+ json_escaped tif
               +:+ "," +:+ key "self_trade_prevention_type" +:+ json_escaped "taker_at_cross"
               +:+ "," +:+ key "post_only" +:+ bool_text (bool_decide (no_liquidity_intent order = kMAKER))
               +:+ "," +:+ key "cancel_order_on_pause" +:+ "true"
               +:+ "," +:+ key "reduce_only" +:+ bool_text (so_reduce_only command)
               +:+ "}")%string
    end.

(** The adapter: the routes of the installed universe by market and by ticker.  [emplace] keeps
    the first route of a key. *)
Record Adapter := mkAdapter {
  ad_order_routes : option OrderRouteUniverse;
  ad_ticker_by_market_id : gmap Z string;
  ad_route_by_ticker : gmap string OrderMarketRoute;
}.
#[export] Instance eta_Adapter : Eta Adapter := λ r, mkAdapter (ad_order_routes r) (ad_ticker_by_market_id r) (ad_route_by_ticker r).
Definition default_Adapter : Adapter := mkAdapter None ∅ ∅.

Definition emplace {K A} `{Countable K} (k : K) (a : A) (m : gmap K A) : gmap K A :=
  match m !! k with Some _ => m | None => <[k := a]> m end.
Definition add_route (a : Adapter) (route : OrderMarketRoute) : Adapter :=
  a ⟪ ad_ticker_by_market_id ::= emplace (mr_market_id route) (mr_kalshi_ticker route) ⟫ ⟪ ad_route_by_ticker ::= emplace (mr_kalshi_ticker route) route ⟫.
Definition make_adapter (order_routes : option OrderRouteUniverse) : Adapter :=
  foldl add_route (mkAdapter order_routes ∅ ∅) (match order_routes with Some u => un_market_routes u | None => [] end).
Definition apply_order_route_universe (order_routes : option OrderRouteUniverse) (a : Adapter) : Adapter := make_adapter order_routes.

Definition market_ticker_for_id (a : Adapter) (market_id : Z) : option string := ad_ticker_by_market_id a !! market_id.

Definition build_submit_target : string := "/trade-api/v2/portfolio/events/orders".
Definition build_submit_batch_target : string := "/trade-api/v2/portfolio/events/orders/batched".
Definition build_cancel_target (exchange_order_id : string) : string := ("/trade-api/v2/portfolio/events/orders/" +:+ exchange_order_id)%string.
Definition build_modify_target (exchange_order_id : string) : string := ("/trade-api/v2/portfolio/events/orders/" +:+ exchange_order_id +:+ "/amend")%string.
Definition build_portfolio_balance_target : string := "/trade-api/v2/portfolio/balance".
Definition build_portfolio_positions_target (cursor : string) : string :=
  if bool_decide (cursor = ""%string) then "/trade-api/v2/portfolio/positions?limit=1000&count_filter=position"%string
  else ("/trade-api/v2/portfolio/positions?limit=1000&count_filter=position" +:+ "&cursor=" +:+ percent_encode_query_value cursor)%string.

Definition command_request_id (command : OmsToKalshiCommand) : Z :=
  match command with
  | KcSubmit c => so_oms_request_id c
  | KcSubmitBatch c => sbc_oms_request_id c
  | KcCancel c => cc_oms_request_id c
  | KcModify c => mc_oms_request_id c
  | KcReconcile c => rr_reconciliation_id c
  | KcClose oms_request_id _ _ => oms_request_id
  end.

Definition prepare_command_common (command : OmsToKalshiCommand) (kind : RestCommandKind) : PreparedOrderRestRequest :=
  default_PreparedOrderRestRequest ⟪ po_source_command := command ⟫ ⟪ po_command_kind := kind ⟫
    ⟪ po_request ::= λ q, q ⟪ hq_request_id := command_request_id command ⟫ ⟫.

Definition known_ticker (a : Adapter) (market_id : Z) : option string :=
  match market_ticker_for_id a market_id with
  | Some ticker => if bool_decide (ticker = ""%string) then None else Some ticker
  | None => None
  end.

Definition prepare_submit_order (a : Adapter) (command : SubmitOrderCmd) : PreparedOrderRestRequest :=
  let result := prepare_command_common (KcSubmit command) kSUBMIT_ORDER in
  match known_ticker a (ic_market_id (no_context (so_new_order_intent command))) with
  | None => result ⟪ po_error_message := "submit_order: market_id missing from order route universe"%string ⟫
  | Some market_ticker =>
      match append_v2_order_object command market_ticker with
      | inl error => result ⟪ po_error_message := error ⟫
      | inr body =>
          result ⟪ po_request ::= λ q, q ⟪ hq_method := kPOST ⟫ ⟪ hq_target := build_submit_target ⟫ ⟪ hq_body := body ⟫ ⟫ ⟪ po_ok := true ⟫
      end
  end.

Definition consistent_leg (command : SubmitOrderBatchCmd) (i : nat) (context : IntentContext) : bool :=
  let group := sbc_group_context command in
  (ic_strategy_index context =? ic_strategy_index group) && (ic_group_intent_id context =? ic_group_intent_id group)
  && (ic_universe_version context =? ic_universe_version group) && (ic_event_id context =? ic_event_id group)
  && (ic_event_revision context =? ic_event_revision group) && (ic_leg_index context =? Z.of_nat i)
  && (ic_leg_count context =? sbc_order_count command).

(** The orders of a batch from the [i]th on: the error, or the text appended. *)
Fixpoint append_orders (a : Adapter) (command : SubmitOrderBatchCmd) (i : nat) (orders : list SubmitOrderCmd) : string + string :=
  match orders with
  | [] => inr ""%string
  | order_command :: rest =>
      let context := no_context (so_new_order_intent order_command) in
      if negb (consistent_leg command i context) then inl "submit_order_batch: inconsistent leg context"%string
      else
        match known_ticker a (ic_market_id context) with
        | None => inl "submit_order_batch: market_id missing from order route universe"%string
        | Some market_ticker =>
            match append_v2_order_object order_command market_ticker with
            | inl error => inl error
            | inr order =>
                match append_orders a command (S i) rest with
                | inl error => inl error
                | inr more => inr ((if (i =? 0)%nat then "" else ",") +:+ order +:+ more)%string
                end
            end
        end
  end.

Definition prepare_submit_order_batch (a : Adapter) (command : SubmitOrderBatchCmd) : PreparedOrderRestRequest :=
  let result := prepare_command_common (KcSubmitBatch command) kSUBMIT_ORDER_BATCH in
  if (sbc_oms_request_id command =? 0) || (sbc_oms_group_id command =? 0) || (ic_group_intent_id (sbc_group_context command) =? 0)
  then result ⟪ po_error_message := "submit_order_batch: missing batch or group identifier"%string ⟫
  else if (sbc_order_count command =? 0) || (Z.of_nat (length (sbc_orders command)) <? sbc_order_count command)
  then result ⟪ po_error_message := "submit_order_batch: invalid order_count"%string ⟫
  else
    match append_orders a command 0 (take (Z.to_nat (sbc_order_count command)) (sbc_orders command)) with
    | inl error => result ⟪ po_error_message := error ⟫
    | inr orders =>
        result ⟪ po_request ::= λ q, q ⟪ hq_method := kPOST ⟫ ⟪ hq_target := build_submit_batch_target ⟫
            ⟪ hq_body := ("{" +:+ key "orders" +:+ "[" +:+ orders +:+ "]}")%string ⟫ ⟫ ⟪ po_ok := true ⟫
    end.

Definition prepare_cancel_order (command : CancelOrderCmd) : PreparedOrderRestRequest :=
  let result := prepare_command_common (KcCancel command) kCANCEL_ORDER in
  match cc_exchange_order_id command with
  | Some id =>
      if id_empty id then result ⟪ po_error_message := "cancel_order: exchange_order_id is required"%string ⟫
      else result ⟪ po_request ::= λ q, q ⟪ hq_method := kDELETE ⟫ ⟪ hq_target := build_cancel_target id ⟫ ⟫ ⟪ po_ok := true ⟫
  | None => result ⟪ po_error_message := "cancel_order: exchange_order_id is required"%string ⟫
  end.

Definition prepare_modify_order (command : ModifyOrderCmd) : PreparedOrderRestRequest :=
  (prepare_command_common (KcModify command) kMODIFY_ORDER)
    ⟪ po_error_message := "modify_order: unsupported until ModifyOrderIntent carries replacement fields"%string ⟫.

Definition prepare_command (a : Adapter) (command : OmsToKalshiCommand) : PreparedOrderRestRequest :=
  match command with
  | KcSubmit c => prepare_submit_order a c
  | KcSubmitBatch c => prepare_submit_order_batch a c
  | KcCancel c => prepare_cancel_order c
  | KcModify c => prepare_modify_order c
  | KcReconcile _ => default_PreparedOrderRestRequest ⟪ po_error_message := "RequestPortfolioReconciliation expands into multiple HTTP requests"%string ⟫
  | KcClose _ _ _ => default_PreparedOrderRestRequest ⟪ po_error_message := "CloseOrderRestEgress does not generate an HTTP request"%string ⟫
  end.

Definition prepare_portfolio (kind : PortfolioRestRequestKind) (target error : string) (command : RequestPortfolioReconciliation) (request_id : Z)
    : PreparedPortfolioRestRequest :=
  let result := default_PreparedPortfolioRestRequest ⟪ pp_kind := kind ⟫ ⟪ pp_reconciliation_id := rr_reconciliation_id command ⟫ in
  if (rr_reconciliation_id command =? 0) || (request_id =? 0) then result ⟪ pp_error_message := error ⟫
  else result ⟪ pp_request ::= λ q, q ⟪ hq_request_id := request_id ⟫ ⟪ hq_method := kGET ⟫ ⟪ hq_target := target ⟫ ⟫ ⟪ pp_ok := true ⟫.
Definition prepare_portfolio_balance_request : RequestPortfolioReconciliation → Z → PreparedPortfolioRestRequest :=
  prepare_portfolio kBALANCE build_portfolio_balance_target "portfolio balance request missing reconciliation or HTTP request id".
Definition prepare_portfolio_positions_request (command : RequestPortfolioReconciliation) (request_id : Z) (cursor : string) : PreparedPortfolioRestRequest :=
  prepare_portfolio kPOSITIONS (build_portfolio_positions_target cursor) "portfolio positions request missing reconciliation or HTTP request id" command request_id.

(** ** Responses *)

Definition venue_reject_reason_for_status (status_code : Z) : VenueRejectReason :=
  if (status_code =? 401) || (status_code =? 403) then kAuthFailed
  else if status_code =? 404 then kOrderNotFound
  else if status_code =? 429 then kRateLimited
  else if 500 <=? status_code then kVenueDown
  else kVenueUnknown.

Definition no_http_status (response : HttpResponse) : bool := (hs_status_code response =? 0) || negb (bool_decide (hs_error_message response = ""%string)).
Definition http_failure (response : HttpResponse) : bool := (hs_status_code response <? 200) || (300 <=? hs_status_code response).

(** [valid_http_success]: the error, if it is not a success. *)
Definition valid_http_success (response : HttpResponse) : option string :=
  if no_http_status response then
    Some (if bool_decide (hs_error_message response = ""%string) then "portfolio request failed without an HTTP status"%string else hs_error_message response)
  else if http_failure response then Some (hs_body response)
  else None.

Section Json.
Context `{NlohmannJson}.

Definition read_fixed_point (value : json) (scale : Z) (fractional_digits : nat) (allow_negative : bool) : option Z :=
  if negb (json_is_string value) then None else parse_fixed_point (chars (json_get_string value)) scale fractional_digits allow_negative.

Definition cents_to_money_ticks (value : json) : option Z :=
  if negb (json_is_number_integer value) && negb (json_is_number_unsigned value) then None
  else
    match json_get_int64 value with
    | inl _ => None
    | inr cents => if (Z.quot I64_MAX 100 <? cents) || (cents <? Z.quot I64_MIN 100) then None else Some (cents * 100)
    end.

(** *** Created orders *)

(** The response an entry leaves behind, and whether it was read. *)
Inductive CreatedOrder :=
  | CreatedRead (response : RestOrderResponse)
  | CreatedBad (error : string) (response : RestOrderResponse)
  | CreatedThrow (what : string) (response : RestOrderResponse).

(** An optional number: absent and null leave the response alone. *)
Definition optional_number (order_json : json) (name : string) : option (option Z) :=
  if json_contains order_json name && negb (json_is_null (json_at order_json name)) then
    match read_fixed_point (json_at order_json name) kPRICE_TICKS_PER_DOLLAR 4 false with
    | None => None
    | Some v => Some (Some v)
    end
  else Some None.

Definition parse_execution_summary (order_json : json) (response : RestOrderResponse) : string * RestOrderResponse + RestOrderResponse :=
  if negb (json_contains order_json "fill_count") || negb (json_contains order_json "remaining_count")
  then inl ("successful order response missing fill_count or remaining_count"%string, response)
  else
    match read_fixed_point (json_at order_json "fill_count") kQUANTITY_LOTS_PER_CONTRACT 2 false,
          read_fixed_point (json_at order_json "remaining_count") kQUANTITY_LOTS_PER_CONTRACT 2 false with
    | Some fill_quantity, Some remaining_quantity =>
        let response := response ⟪ ro_execution_summary_present := true ⟫ ⟪ ro_acknowledged_fill_qty_lots := fill_quantity ⟫
                          ⟪ ro_acknowledged_remaining_qty_lots := remaining_quantity ⟫ in
        match optional_number order_json "average_fill_price" with
        | None => inl ("order response contains invalid average_fill_price"%string, response)
        | Some average_price =>
            let response := match average_price with Some v => response ⟪ ro_acknowledged_average_fill_price_ticks := v ⟫ | None => response end in
            match optional_number order_json "average_fee_paid" with
            | None => inl ("order response contains invalid average_fee_paid"%string, response)
            | Some fee =>
                let response := match fee with Some v => response ⟪ ro_acknowledged_fee_paid_ticks := v ⟫ | None => response end in
                inr (if json_contains order_json "ts_ms" && json_is_number_unsigned (json_at order_json "ts_ms")
                     then response ⟪ ro_venue_ts_ms := json_get_uint64 (json_at order_json "ts_ms") ⟫ else response)
            end
        end
    | _, _ => inl ("order response contains invalid fixed-point quantities"%string, response)
    end.

Definition parse_created_order (order_json : json) (response : RestOrderResponse) : CreatedOrder :=
  if negb (json_is_object order_json) then CreatedBad "order response entry is not an object" response
  else if json_contains order_json "error" && json_is_object (json_at order_json "error") && negb (json_empty (json_at order_json "error")) then
    let response := response ⟪ ro_result_code := kRESULT_REJECTED ⟫ ⟪ ro_venue_reject_reason := kVenueUnknown ⟫ in
    match json_dump (json_at order_json "error") with
    | inl what => CreatedThrow what response
    | inr dumped => CreatedRead (response ⟪ ro_raw_reason_message := dumped ⟫)
    end
  else if negb (json_contains order_json "order_id") || negb (json_is_string (json_at order_json "order_id"))
  then CreatedBad "successful order response missing order_id" response
  else
    let '(assigned, exchange_order_id) := assign_from (json_get_string (json_at order_json "order_id")) in
    if negb assigned then CreatedBad "order response contains invalid order_id" response
    else
      match parse_execution_summary order_json (response ⟪ ro_exchange_order_id := exchange_order_id ⟫) with
      | inl (error, response) => CreatedBad error response
      | inr response => CreatedRead (response ⟪ ro_result_code := kACKED ⟫ ⟪ ro_venue_reject_reason := kVenueNone ⟫)
      end.

(** *** Single requests *)

(** What a response to a command says of it, whatever the outcome. *)
Definition identify_response (command : OmsToKalshiCommand) (response : RestOrderResponse) : RestOrderResponse :=
  let response := response ⟪ ro_context ::= λ c, c ⟪ cx_oms_request_id := command_request_id command ⟫ ⟫ in
  let with_exchange_id id response := match id with Some id => response ⟪ ro_exchange_order_id := id ⟫ | None => response end in
  match command with
  | KcSubmit c => response ⟪ ro_context ::= λ x, x ⟪ cx_context := no_context (so_new_order_intent c) ⟫ ⟫ ⟪ ro_client_order_id := so_client_order_id c ⟫
  | KcCancel c =>
      with_exchange_id (cc_exchange_order_id c)
        (response ⟪ ro_context ::= λ x, x ⟪ cx_context := ci_context (cc_cancel_order_intent c) ⟫ ⟫ ⟪ ro_client_order_id := cc_client_order_id c ⟫)
  | KcModify c =>
      with_exchange_id (mc_exchange_order_id c)
        (response ⟪ ro_context ::= λ x, x ⟪ cx_context := mi_context (mc_modify_order_intent c) ⟫ ⟫ ⟪ ro_client_order_id := mc_client_order_id c ⟫)
  | _ => response
  end.

Definition unreadable (error body : string) (response : RestOrderResponse) : CompletedOrderRestRequest :=
  mkCompletedOrderRestRequest false
    (response ⟪ ro_result_code := kTRANSPORT_ERROR ⟫ ⟪ ro_venue_reject_reason := kVenueUnknown ⟫ ⟪ ro_raw_reason_message := body ⟫) error.

Definition complete_request (prepared : PreparedOrderRestRequest) (response : HttpResponse) : CompletedOrderRestRequest :=
  let r := default_RestOrderResponse ⟪ ro_command_kind := po_command_kind prepared ⟫
             ⟪ ro_transport_submit_ts_ns := ht_request_sent_ts_ns (hq_trace (po_request prepared)) ⟫
             ⟪ ro_transport_recv_ts_ns := ht_response_recv_ts_ns (hs_trace response) ⟫ ⟪ ro_http_status_code := hs_status_code response ⟫
             ⟪ ro_retry_count := ht_retry_count (hs_trace response) ⟫ in
  if bool_decide (po_command_kind prepared = kSUBMIT_ORDER_BATCH) then
    mkCompletedOrderRestRequest false
      (r ⟪ ro_result_code := kNOT_SENT ⟫ ⟪ ro_raw_reason_message := "batch request passed to single-order completion"%string ⟫)
      "batch request passed to single-order completion"
  else
    let r := identify_response (po_source_command prepared) r in
    if no_http_status response then
      mkCompletedOrderRestRequest false
        (r ⟪ ro_result_code := kTRANSPORT_ERROR ⟫ ⟪ ro_venue_reject_reason := kVenueDown ⟫ ⟪ ro_raw_reason_message := hs_error_message response ⟫)
        (hs_error_message response)
    else if http_failure response then
      mkCompletedOrderRestRequest false
        (r ⟪ ro_result_code := kRESULT_REJECTED ⟫ ⟪ ro_venue_reject_reason := venue_reject_reason_for_status (hs_status_code response) ⟫
           ⟪ ro_raw_reason_message := hs_body response ⟫)
        (hs_body response)
    else if bool_decide (po_command_kind prepared = kSUBMIT_ORDER) then
      match json_parse (hs_body response) with
      | inl what => unreadable what (hs_body response) r
      | inr parsed =>
          match parse_created_order parsed r with
          | CreatedRead r => mkCompletedOrderRestRequest true r ""
          | CreatedBad error r => unreadable error (hs_body response) r
          | CreatedThrow what r => unreadable what (hs_body response) r
          end
      end
    else mkCompletedOrderRestRequest true (r ⟪ ro_result_code := kACKED ⟫ ⟪ ro_venue_reject_reason := kVenueNone ⟫) "".

(** *** Batches *)

Definition initial_leg (prepared : PreparedOrderRestRequest) (response : HttpResponse) (leg : SubmitOrderCmd) (r : RestOrderResponse) : RestOrderResponse :=
  r ⟪ ro_context := mkOmsContext (so_oms_request_id leg) (no_context (so_new_order_intent leg)) ⟫ ⟪ ro_command_kind := kSUBMIT_ORDER ⟫
    ⟪ ro_result_code := kTRANSPORT_ERROR ⟫ ⟪ ro_client_order_id := so_client_order_id leg ⟫
    ⟪ ro_transport_submit_ts_ns := ht_request_sent_ts_ns (hq_trace (po_request prepared)) ⟫
    ⟪ ro_transport_recv_ts_ns := ht_response_recv_ts_ns (hs_trace response) ⟫ ⟪ ro_http_status_code := hs_status_code response ⟫
    ⟪ ro_retry_count := ht_retry_count (hs_trace response) ⟫.

(** [for(i = 0; i < count; ++i) f(responses[i], orders[i])] *)
Fixpoint for_legs (f : SubmitOrderCmd → RestOrderResponse → RestOrderResponse) (orders : list SubmitOrderCmd) (responses : list RestOrderResponse)
    : list RestOrderResponse :=
  match orders, responses with
  | order :: orders, r :: responses => f order r :: for_legs f orders responses
  | _, _ => responses
  end.

(** The leg an entry answers: the first with its client id that has no answer yet. *)
Fixpoint match_leg (i : nat) (orders : list SubmitOrderCmd) (seen : list bool) (client_id : string) : option nat :=
  match orders, seen with
  | order :: orders, s :: seen =>
      if negb s && bool_decide (so_client_order_id order = client_id) then Some i else match_leg (S i) orders seen client_id
  | _, _ => None
  end.

(** How the loop over the entries ends. *)
Inductive EntriesEnd := | EntriesRead | EntriesBad (error : string) | EntriesThrow (what : string).

(** The entries of the response, one after the other: the responses of the legs, the number of
    legs answered, and the end of the loop. *)
Fixpoint complete_entries (orders : list SubmitOrderCmd) (entries : list json) (responses : list RestOrderResponse) (seen : list bool) (count : Z)
    : list RestOrderResponse * Z * EntriesEnd :=
  match entries with
  | [] => (responses, count, EntriesRead)
  | order_json :: rest =>
      if negb (json_is_object order_json) || negb (json_contains order_json "client_order_id") || negb (json_is_string (json_at order_json "client_order_id"))
      then (responses, count, EntriesBad "batch response entry missing client_order_id")
      else
        match match_leg 0 orders seen (json_get_string (json_at order_json "client_order_id")) with
        | None => (responses, count, EntriesBad "batch response contains unknown or duplicate client_order_id")
        | Some i =>
            match parse_created_order order_json (default default_RestOrderResponse (responses !! i)) with
            | CreatedRead r => complete_entries orders rest (<[i := r]> responses) (<[i := true]> seen) (u8 (count + 1))
            | CreatedBad error r => (<[i := r]> responses, count, EntriesBad error)
            | CreatedThrow what r => (<[i := r]> responses, count, EntriesThrow what)
            end
        end
  end.

Definition batch_failed (code : RestResultCode) (message : string) (error : string) (r : RestOrderBatchResponse) : CompletedOrderRestBatchRequest :=
  mkCompletedOrderRestBatchRequest false (r ⟪ rb_result_code := code ⟫ ⟪ rb_raw_reason_message := message ⟫) error.

Definition complete_batch_request (prepared : PreparedOrderRestRequest) (response : HttpResponse) : CompletedOrderRestBatchRequest :=
  let r := default_RestOrderBatchResponse in
  match po_source_command prepared with
  | KcSubmitBatch command =>
      if negb (bool_decide (po_command_kind prepared = kSUBMIT_ORDER_BATCH))
      then batch_failed kNOT_SENT "non-batch request passed to batch completion" "non-batch request passed to batch completion" r
      else if (sbc_order_count command =? 0) || (Z.of_nat (length (sbc_orders command)) <? sbc_order_count command)
              || (Z.of_nat (length (rb_order_responses r)) <? sbc_order_count command)
      then batch_failed kNOT_SENT "batch completion contains invalid order_count" "batch completion contains invalid order_count" r
      else
        let legs := take (Z.to_nat (sbc_order_count command)) (sbc_orders command) in
        let r := r ⟪ rb_batch_oms_request_id := sbc_oms_request_id command ⟫ ⟪ rb_oms_group_id := sbc_oms_group_id command ⟫
                   ⟪ rb_group_context := sbc_group_context command ⟫ ⟪ rb_requested_order_count := sbc_order_count command ⟫
                   ⟪ rb_transport_submit_ts_ns := ht_request_sent_ts_ns (hq_trace (po_request prepared)) ⟫
                   ⟪ rb_transport_recv_ts_ns := ht_response_recv_ts_ns (hs_trace response) ⟫ ⟪ rb_http_status_code := hs_status_code response ⟫
                   ⟪ rb_retry_count := ht_retry_count (hs_trace response) ⟫
                   ⟪ rb_order_responses ::= for_legs (initial_leg prepared response) legs ⟫ in
        if no_http_status response then
          batch_failed kTRANSPORT_ERROR (hs_error_message response) (hs_error_message response) (r ⟪ rb_venue_reject_reason := kVenueDown ⟫)
        else if http_failure response then
          let reason := venue_reject_reason_for_status (hs_status_code response) in
          batch_failed kRESULT_REJECTED (hs_body response) (hs_body response)
            (r ⟪ rb_venue_reject_reason := reason ⟫
               ⟪ rb_order_responses ::= for_legs (λ _ leg, leg ⟪ ro_result_code := kRESULT_REJECTED ⟫ ⟪ ro_venue_reject_reason := reason ⟫
                                                         ⟪ ro_raw_reason_message := hs_body response ⟫) legs ⟫)
        else
          match json_parse (hs_body response) with
          | inl what => batch_failed kTRANSPORT_ERROR (hs_body response) what (r ⟪ rb_venue_reject_reason := kVenueUnknown ⟫)
          | inr parsed =>
              if negb (json_is_object parsed) || negb (json_contains parsed "orders") || negb (json_is_array (json_at parsed "orders"))
              then batch_failed kTRANSPORT_ERROR (hs_body response) "batch response missing orders array" r
              else
                let '(responses, count, ending) :=
                  complete_entries legs (json_items (json_at parsed "orders")) (rb_order_responses r) (replicate kMAX_ORDERS_PER_GROUP false) 0 in
                let r := r ⟪ rb_order_responses := responses ⟫ ⟪ rb_response_order_count := count ⟫ in
                match ending with
                | EntriesBad error => batch_failed kTRANSPORT_ERROR (hs_body response) error r
                | EntriesThrow what => batch_failed kTRANSPORT_ERROR (hs_body response) what (r ⟪ rb_venue_reject_reason := kVenueUnknown ⟫)
                | EntriesRead =>
                    if negb (count =? sbc_order_count command)
                    then batch_failed kTRANSPORT_ERROR (hs_body response) "batch response omitted one or more submitted orders" r
                    else mkCompletedOrderRestBatchRequest true (r ⟪ rb_result_code := kACKED ⟫ ⟪ rb_venue_reject_reason := kVenueNone ⟫) ""
                end
          end
  | _ => batch_failed kNOT_SENT "non-batch request passed to batch completion" "non-batch request passed to batch completion" r
  end.

(** *** The portfolio *)

Definition complete_portfolio_balance_request (prepared : PreparedPortfolioRestRequest) (response : HttpResponse) : CompletedPortfolioBalanceRequest :=
  let result := default_CompletedPortfolioBalanceRequest ⟪ cbal_reconciliation_id := pp_reconciliation_id prepared ⟫ in
  let failed error := result ⟪ cbal_error_message := error ⟫ in
  if negb (bool_decide (pp_kind prepared = kBALANCE)) || negb (hs_request_id response =? hq_request_id (pp_request prepared))
  then failed "mismatched portfolio balance response"%string
  else
    match valid_http_success response with
    | Some error => failed error
    | None =>
        match json_parse (hs_body response) with
        | inl what => failed what
        | inr parsed =>
            if negb (json_is_object parsed) || negb (json_contains parsed "balance") || negb (json_contains parsed "portfolio_value")
            then failed "portfolio balance response missing balance or portfolio_value"%string
            else
              match cents_to_money_ticks (json_at parsed "balance"), cents_to_money_ticks (json_at parsed "portfolio_value") with
              | Some balance, Some portfolio_value =>
                  result ⟪ cbal_available_balance_ticks := balance ⟫ ⟪ cbal_portfolio_value_ticks := portfolio_value ⟫ ⟪ cbal_ok := true ⟫
              | _, _ => failed "portfolio balance response contains invalid monetary values"%string
              end
        end
    end.

(** An optional amount of a position: absent or null, unreadable, or its ticks. *)
Definition parse_optional_money (item : json) (field : string) (rounding : MoneyTickRounding) : option (option Z) :=
  if negb (json_contains item field) || json_is_null (json_at item field) then Some None
  else if negb (json_is_string (json_at item field)) then None
  else
    match parse_money_ticks (chars (json_get_string (json_at item field))) rounding with
    | None => None
    | Some value => Some (Some value)
    end.

Definition parse_position (a : Adapter) (item : json) : string + VenueMarketPositionSnapshot :=
  if negb (json_is_object item) || negb (json_contains item "ticker") || negb (json_is_string (json_at item "ticker"))
     || negb (json_contains item "position_fp")
  then inl "portfolio position entry missing ticker or position_fp"%string
  else
    match read_fixed_point (json_at item "position_fp") kQUANTITY_LOTS_PER_CONTRACT 2 true with
    | None => inl "portfolio position entry has invalid position_fp"%string
    | Some position =>
        let ticker := json_get_string (json_at item "ticker") in
        let snapshot := default_VenueMarketPositionSnapshot ⟪ vp_market_ticker := ticker ⟫ ⟪ vp_net_position_lots := position ⟫ in
        let snapshot :=
          match ad_route_by_ticker a !! ticker with
          | Some route => snapshot ⟪ vp_market_id := mr_market_id route ⟫ ⟪ vp_event_id := mr_event_id route ⟫
          | None => snapshot
          end in
        match parse_optional_money item "market_exposure_dollars" kAWAY_FROM_ZERO with
        | None => inl "portfolio position entry has invalid market_exposure_dollars"%string
        | Some exposure =>
            let snapshot :=
              match exposure with
              | Some v => snapshot ⟪ vp_market_exposure_ticks := v ⟫ ⟪ vp_market_exposure_present := true ⟫
              | None => snapshot
              end in
            match parse_optional_money item "realized_pnl_dollars" kFLOOR, parse_optional_money item "fees_paid_dollars" kAWAY_FROM_ZERO with
            | Some pnl, Some fees =>
                let snapshot :=
                  match pnl with Some v => snapshot ⟪ vp_realized_pnl_ticks := v ⟫ ⟪ vp_realized_pnl_present := true ⟫ | None => snapshot end in
                inr (match fees with Some v => snapshot ⟪ vp_fees_paid_ticks := v ⟫ ⟪ vp_fees_paid_present := true ⟫ | None => snapshot end)
            | _, _ => inl "portfolio position entry has invalid PnL or fee value"%string
            end
        end
    end.

(** The positions read before the first bad entry, and its error. *)
Fixpoint parse_positions (a : Adapter) (items : list json) : list VenueMarketPositionSnapshot * option string :=
  match items with
  | [] => ([], None)
  | item :: rest =>
      match parse_position a item with
      | inl error => ([], Some error)
      | inr snapshot => let '(more, error) := parse_positions a rest in (snapshot :: more, error)
      end
  end.

Definition complete_portfolio_positions_request (a : Adapter) (prepared : PreparedPortfolioRestRequest) (response : HttpResponse)
    : CompletedPortfolioPositionsRequest :=
  let result := default_CompletedPortfolioPositionsRequest ⟪ cpos_reconciliation_id := pp_reconciliation_id prepared ⟫ in
  if negb (bool_decide (pp_kind prepared = kPOSITIONS)) || negb (hs_request_id response =? hq_request_id (pp_request prepared))
  then result ⟪ cpos_error_message := "mismatched portfolio positions response"%string ⟫
  else
    match valid_http_success response with
    | Some error => result ⟪ cpos_error_message := error ⟫
    | None =>
        match json_parse (hs_body response) with
        | inl what => result ⟪ cpos_error_message := what ⟫
        | inr parsed =>
            if negb (json_is_object parsed) || negb (json_contains parsed "market_positions") || negb (json_is_array (json_at parsed "market_positions"))
            then result ⟪ cpos_error_message := "portfolio positions response missing market_positions"%string ⟫
            else
              let '(positions, error) := parse_positions a (json_items (json_at parsed "market_positions")) in
              let result := result ⟪ cpos_positions := positions ⟫ in
              match error with
              | Some error => result ⟪ cpos_error_message := error ⟫
              | None =>
                  if json_contains parsed "cursor" && negb (json_is_null (json_at parsed "cursor")) then
                    if negb (json_is_string (json_at parsed "cursor"))
                    then result ⟪ cpos_error_message := "portfolio positions cursor is not a string"%string ⟫
                    else result ⟪ cpos_next_cursor := json_get_string (json_at parsed "cursor") ⟫ ⟪ cpos_ok := true ⟫
                  else result ⟪ cpos_ok := true ⟫
              end
        end
    end.
End Json.
End RestAdapter.
