(* ===== verification/RestOrders.v ===== *)
(** * RestOrders: the order that is written is the order that was meant

    A request is text that the venue reads.  A reference reader of JSON text gives back, from
    what the adapter writes, the ticker, the number of contracts and the price, and side and
    price together promise what outcome, action and price of the intent do.

    At the end, Module [RestBatch]: the answers of a batch belong to its legs. *)

From S2P Require Import Prelude MoneyTicks FixedPoint OmsTypes RestTypes RestAdapter.
From Stdlib Require Import Ascii.
From Stdlib Require String.
Open Scope Z_scope.

Module RestOrders.
Import MoneyTicks FixedPoint RestAdapter.

(** ** A reader of JSON text *)

#[warnings="-register-all"]
Inductive Value := | VText (s : string) | VBool (b : bool) | VList (l : list Value) | VObject (members : list (string * Value)).

Definition unescape (c : ascii) : option ascii :=
  if bool_decide (c = backslash_char) then Some backslash_char
  else if bool_decide (c = quote_char) then Some quote_char
  else if bool_decide (c = "n"%char) then Some newline_char
  else if bool_decide (c = "r"%char) then Some return_char
  else if bool_decide (c = "t"%char) then Some tab_char
  else None.
(** The text up to the closing quote; control characters may not stand in it. *)
Fixpoint read_text (l : list ascii) : option (list ascii * list ascii) :=
  match l with
  | [] => None
  | c :: l =>
      if bool_decide (c = quote_char) then Some ([], l)
      else if bool_decide (c = backslash_char) then
        match l with
        | [] => None
        | e :: l => e ← unescape e; '(s, rest) ← read_text l; Some (e :: s, rest)
        end
      else if char_code c <? 32 then None
      else '(s, rest) ← read_text l; Some (c :: s, rest)
  end.
Fixpoint after (prefix l : list ascii) : option (list ascii) :=
  match prefix, l with
  | [], l => Some l
  | p :: prefix, c :: l => if bool_decide (c = p) then after prefix l else None
  | _, [] => None
  end.

(** [fuel] bounds depth and numbers of members. *)
Fixpoint read_value (fuel : nat) (l : list ascii) : option (Value * list ascii) :=
  match fuel, l with
  | S n, c :: l =>
      if bool_decide (c = quote_char) then '(s, rest) ← read_text l; Some (VText (text s), rest)
      else if bool_decide (c = "{"%char) then '(ms, rest) ← read_members n l; Some (VObject ms, rest)
      else if bool_decide (c = "["%char) then '(vs, rest) ← read_elements n l; Some (VList vs, rest)
      else if bool_decide (c = "t"%char) then rest ← after (chars "rue") l; Some (VBool true, rest)
      else if bool_decide (c = "f"%char) then rest ← after (chars "alse") l; Some (VBool false, rest)
      else None
  | _, _ => None
  end
with read_members (fuel : nat) (l : list ascii) : option (list (string * Value) * list ascii) :=
  match fuel with
  | O => None
  | S n =>
      l ← after [quote_char] l; '(name, l) ← read_text l; l ← after [":"%char] l; '(v, l) ← read_value n l;
      match l with
      | c :: l =>
          if bool_decide (c = "}"%char) then Some ([(text name, v)], l)
          else if bool_decide (c = ","%char) then '(ms, rest) ← read_members n l; Some ((text name, v) :: ms, rest)
          else None
      | [] => None
      end
  end
with read_elements (fuel : nat) (l : list ascii) : option (list Value * list ascii) :=
  match fuel with
  | O => None
  | S n =>
      '(v, l) ← read_value n l;
      match l with
      | c :: l =>
          if bool_decide (c = "]"%char) then Some ([v], l)
          else if bool_decide (c = ","%char) then '(vs, rest) ← read_elements n l; Some (v :: vs, rest)
          else None
      | [] => None
      end
  end.
(** A whole text. *)
Definition read_json (s : string) : option Value :=
  '(v, rest) ← read_value 64 (chars s);
  if bool_decide (rest = []) then Some v else None.

(** ** Text that is written is read *)

Definition reads (n : nat) (s : list ascii) (v : Value) : Prop := ∀ rest, read_value n (s ++ rest) = Some (v, rest).

Lemma chars_app a b : chars (a +:+ b) = chars a ++ chars b.
Proof. induction a as [|c a IH]; [done|]. change (c :: chars (a +:+ b) = c :: chars a ++ chars b). by rewrite IH. Qed.
Lemma chars_text l : chars (text l) = l.
Proof. apply String.list_ascii_of_string_of_list_ascii. Qed.
Lemma text_chars s : text (chars s) = s.
Proof. apply String.string_of_list_ascii_of_string. Qed.

(** Characters that JSON text can hold as the adapter writes it: it escapes three of the
    control characters. *)
Definition writable (s : string) : Prop :=
  Forall (λ c, 32 ≤ char_code c ∨ c = newline_char ∨ c = return_char ∨ c = tab_char) (chars s).

Lemma read_escaped_char c l : 32 ≤ char_code c ∨ c = newline_char ∨ c = return_char ∨ c = tab_char →
  read_text (escape_char c ++ l) = '(s, rest) ← read_text l; Some (c :: s, rest).
Proof.
  intros Hc. unfold escape_char. repeat case_bool_decide; subst; try reflexivity. destruct Hc as [Hc|[?|[?|?]]]; [|congruence..]. cbn [app read_text].
  by rewrite !bool_decide_eq_false_2, (proj2 (Z.ltb_ge _ _) Hc) by done.
Qed.
Lemma read_escaped l rest : Forall (λ c, 32 ≤ char_code c ∨ c = newline_char ∨ c = return_char ∨ c = tab_char) l →
  read_text ((l ≫= escape_char) ++ quote_char :: rest) = Some (l, rest).
Proof.
  induction 1 as [|c l Hc _ IH]; [done|]. change ((c :: l) ≫= escape_char) with (escape_char c ++ (l ≫= escape_char)).
  rewrite <- app_assoc, read_escaped_char by done. by rewrite IH.
Qed.
Lemma reads_escaped n s : writable s → reads (S n) (chars (json_escaped s)) (VText s).
Proof.
  intros Hw rest. unfold json_escaped. rewrite chars_text. cbn [app read_value]. rewrite bool_decide_eq_true_2 by done. rewrite <- app_assoc. cbn [app].
  rewrite (read_escaped _ _ Hw). cbn. by rewrite text_chars.
Qed.
Lemma reads_bool n b : reads (S n) (chars (bool_text b)) (VBool b).
Proof. by destruct b. Qed.

(** Names are plain. *)
Definition plain_name (name : string) : Prop := ∀ rest, read_text (chars name ++ quote_char :: rest) = Some (chars name, rest).
Lemma read_key n name s v rest : plain_name name → reads n s v →
  read_members (S n) (chars (key name) ++ s ++ rest) =
    match rest with
    | c :: l =>
        if bool_decide (c = "}"%char) then Some ([(name, v)], l)
        else if bool_decide (c = ","%char) then '(ms, rest) ← read_members n l; Some ((name, v) :: ms, rest)
        else None
    | [] => None
    end.
Proof.
  intros Hn Hv. unfold key. rewrite chars_text. cbn [app read_members after]. rewrite bool_decide_eq_true_2 by done. cbn [mbind option_bind].
  rewrite <- !app_assoc. cbn [app]. rewrite Hn. cbn [mbind option_bind after]. rewrite bool_decide_eq_true_2 by done. cbn [mbind option_bind]. rewrite Hv. cbn [mbind option_bind]. by rewrite text_chars.
Qed.
Lemma member_more n name s v l ms rest : plain_name name → reads n s v → read_members n l = Some (ms, rest) →
  read_members (S n) (chars (key name) ++ s ++ chars "," ++ l) = Some ((name, v) :: ms, rest).
Proof. intros Hn Hv Hl. rewrite (read_key _ _ _ _ _ Hn Hv). cbn. by rewrite Hl. Qed.
Lemma member_last n name s v rest : plain_name name → reads n s v → read_members (S n) (chars (key name) ++ s ++ chars "}" ++ rest) = Some ([(name, v)], rest).
Proof. intros Hn Hv. by rewrite (read_key _ _ _ _ _ Hn Hv). Qed.
Lemma reads_object n s ms : (∀ rest, read_members n (s ++ rest) = Some (ms, rest)) → reads (S n) (chars "{" ++ s) (VObject ms).
Proof. intros Hs rest. cbn. by rewrite Hs. Qed.

(** ** What an order promises *)

(** The profit on a contract, in ticks, if the market settles YES or not. *)
Definition intended_profit (order : NewOrderIntent) (settles_yes : bool) : Z :=
  let pays := if Bool.eqb (bool_decide (no_outcome order = kYES)) settles_yes then 10000 else 0 in
  if bool_decide (no_action order = kBUY) then pays - no_price_ticks order else no_price_ticks order - pays.
Definition venue_profit (side : string) (yes_price_ticks : Z) (settles_yes : bool) : Z :=
  let pays := if settles_yes then 10000 else 0 in
  if bool_decide (side = "bid"%string) then pays - yes_price_ticks else yes_price_ticks - pays.

(** [v] is the order [c] as the venue understands it. *)
Definition is_order (a : Adapter) (c : SubmitOrderCmd) (v : Value) : Prop :=
  ∃ ticker side count price yes_price_ticks,
    market_ticker_for_id a (ic_market_id (no_context (so_new_order_intent c))) = Some ticker ∧
    v = VObject [("ticker", VText ticker); ("client_order_id", VText (so_client_order_id c)); ("side", VText side); ("count", VText count);
      ("price", VText price); ("time_in_force", VText (tif_to_string (no_time_in_force (so_new_order_intent c))));
      ("self_trade_prevention_type", VText "taker_at_cross"); ("post_only", VBool (bool_decide (no_liquidity_intent (so_new_order_intent c) = kMAKER)));
      ("cancel_order_on_pause", VBool true); ("reduce_only", VBool (so_reduce_only c))]%string ∧
    (side = "bid" ∨ side = "ask")%string ∧
    parse_fixed_point (chars count) 100 2 false = Some (no_quantity_lots (so_new_order_intent c)) ∧
    parse_fixed_point (chars price) 10000 4 false = Some yes_price_ticks ∧
    ∀ settles_yes, venue_profit side yes_price_ticks settles_yes = intended_profit (so_new_order_intent c) settles_yes.

(** What is assumed of a command: quantities of 64 bits, a client id that JSON can hold. *)
Definition writable_order (c : SubmitOrderCmd) : Prop := no_quantity_lots (so_new_order_intent c) ≤ I64_MAX ∧ writable (so_client_order_id c).
Definition writable_tickers (a : Adapter) : Prop := ∀ id ticker, ad_ticker_by_market_id a !! id = Some ticker → writable ticker.

Lemma coordinates_promise outcome action price co : to_v2_order_coordinates outcome action price = Some co →
  0 < v2_yes_price_ticks co < 10000 ∧ (v2_side co = "bid" ∨ v2_side co = "ask")%string ∧
  ∀ order settles_yes, no_outcome order = outcome → no_action order = action → no_price_ticks order = price →
    venue_profit (v2_side co) (v2_yes_price_ticks co) settles_yes = intended_profit order settles_yes.
Proof.
  unfold to_v2_order_coordinates, kPRICE_TICKS_PER_DOLLAR. destruct (_ || _) eqn:Eg; [done|]. guards.
  destruct outcome, action; cbn -[Z.sub]; try done; intros [= <-]; cbn [v2_side v2_yes_price_ticks];
    (split; [lia|]; split; [first [by left|by right]|]); intros order yes Eo Ea Ep; unfold intended_profit, venue_profit; rewrite Eo, Ea, Ep;
    repeat case_bool_decide; try done; destruct yes; cbn [Bool.eqb]; lia.
Qed.
Lemma decimal_reads value places : (0 < places ≤ 18)%nat → 0 ≤ value ≤ I64_MAX →
  parse_fixed_point (chars (decimal value (10 ^ Z.of_nat places) places)) (10 ^ Z.of_nat places) places false = Some value ∧
  writable (decimal value (10 ^ Z.of_nat places) places).
Proof.
  intros Hp Hv. unfold decimal, writable. destruct (written_reads value places false Hp Hv) as (t & Et & _ & Er). rewrite Et, chars_text. cbn. split; [done|].
  eapply Forall_impl; [eapply written_characters; [|exact Hv|exact Et]|cbn; lia]. apply Z.pow_pos_nonneg; lia.
Qed.

Lemma known_ticker_some a id ticker : known_ticker a id = Some ticker → market_ticker_for_id a id = Some ticker.
Proof. unfold known_ticker. destruct (market_ticker_for_id a id) as [t|]; [|done]. by destruct (bool_decide _). Qed.

Lemma tif_writable tif : writable (tif_to_string tif).
Proof. destruct tif; unfold writable; cbn; repeat constructor; vm_compute; discriminate. Qed.

Ltac value := first [apply reads_escaped|apply reads_bool|apply (reads_bool _ true)].
Ltac members := first [apply member_last; [done|value]|apply member_more; [done|value|members]].

(** The text of an order, as a list of characters. *)
Lemma order_body a c ticker body : market_ticker_for_id a (ic_market_id (no_context (so_new_order_intent c))) = Some ticker → writable_tickers a → writable_order c →
  append_v2_order_object c ticker = inr body → ∃ v, is_order a c v ∧ ∀ n, (12 ≤ n)%nat → reads n (chars body) v.
Proof.
  intros Ht Hwa [Hq Hw]. unfold append_v2_order_object. destruct (_ || _); [done|]. destruct (_ <=? 0) eqn:Eq; [done|]. guards.
  destruct (to_v2_order_coordinates _ _ _) as [co|] eqn:Eco; [|done]. destruct (bool_decide _); [done|]. destruct (_ && _); [done|]. cbv zeta. intros [= <-].
  destruct (coordinates_promise _ _ _ _ Eco) as (Hp & Hside & Hprofit).
  destruct (decimal_reads (no_quantity_lots (so_new_order_intent c)) 2) as [Hc Hcw]; [lia|lia|].
  destruct (decimal_reads (v2_yes_price_ticks co) 4) as [Hy Hyw]; [lia|lia|].
  change (10 ^ Z.of_nat 2) with kQUANTITY_LOTS_PER_CONTRACT in Hc, Hcw. change (10 ^ Z.of_nat 4) with kPRICE_TICKS_PER_DOLLAR in Hy, Hyw.
  eexists. split.
  { exists ticker, (v2_side co), (decimal (no_quantity_lots (so_new_order_intent c)) kQUANTITY_LOTS_PER_CONTRACT 2), (decimal (v2_yes_price_ticks co) kPRICE_TICKS_PER_DOLLAR 4),
      (v2_yes_price_ticks co). split; [done|]. split; [reflexivity|]. split_and!; try done. intros yes. by apply Hprofit. }
  intros n Hn. do 12 (destruct n as [|n]; [lia|]). clear Hn. rewrite !chars_app. apply reads_object. intros rest. rewrite <- !app_assoc.
  members; try done.
  - by eapply Hwa.
  - by destruct Hside as [-> | ->]; unfold writable; cbn; repeat constructor; vm_compute; discriminate.
  - apply tif_writable.
  - unfold writable; cbn; repeat constructor; vm_compute; discriminate.
Qed.

Lemma element_more n s v l : reads n s v → read_elements (S n) (s ++ chars "," ++ l) = '(vs, rest) ← read_elements n l; Some (v :: vs, rest).
Proof. intros Hv. cbn [read_elements]. by rewrite Hv. Qed.

(** The elements of a list from the second on, behind the first. *)
Lemma more_orders a command legs : ∀ i body, i ≠ 0%nat → writable_tickers a → Forall writable_order legs → append_orders a command i legs = inr body →
  ∃ vs, Forall2 (is_order a) legs vs ∧ ∀ n s v rest, (12 + length legs ≤ n)%nat → reads n s v →
    read_elements (S n) (s ++ chars body ++ chars "]" ++ rest) = Some (v :: vs, rest).
Proof.
  induction legs as [|c legs IH]; intros i body Hi Ha Hw; cbn [append_orders].
  - intros [= <-]. exists []. split; [done|]. intros n s v rest _ Hv. cbn [chars String.list_ascii_of_string app read_elements]. by rewrite Hv.
  - inversion Hw as [|? ? Hc Hw']; subst. destruct (negb _); [done|]. destruct (known_ticker _ _) as [ticker|] eqn:Et; [|done]. apply known_ticker_some in Et.
    destruct (append_v2_order_object c ticker) as [|order] eqn:Eo; [done|]. destruct (append_orders a command (S i) legs) as [|more] eqn:Em; [done|].
    rewrite (proj2 (Nat.eqb_neq i 0) Hi). intros [= <-]. destruct (order_body _ _ _ _ Et Ha Hc Eo) as (v' & Hv' & Hr). destruct (IH (S i) more ltac:(done) Ha Hw' Em) as (vs & Hvs & Hm).
    exists (v' :: vs). split; [by constructor|]. intros n s v rest Hn Hv. cbn [length] in Hn. destruct n as [|n]; [lia|]. rewrite !chars_app, <- !app_assoc. rewrite (element_more _ _ _ _ Hv).
    by rewrite (Hm n (chars order) v' rest ltac:(lia) (Hr n ltac:(lia))).
Qed.
Lemma batch_orders a command legs body : legs ≠ [] → (length legs ≤ 40)%nat → writable_tickers a → Forall writable_order legs → append_orders a command 0 legs = inr body →
  ∃ vs, Forall2 (is_order a) legs vs ∧ ∀ rest, read_elements 61 (chars body ++ chars "]" ++ rest) = Some (vs, rest).
Proof.
  intros Hne Hl Ha Hw. destruct legs as [|c legs]; [done|]. cbn [append_orders length] in *. inversion Hw as [|? ? Hc Hw']; subst. destruct (negb _); [done|].
  destruct (known_ticker _ _) as [ticker|] eqn:Et; [|done]. apply known_ticker_some in Et. destruct (append_v2_order_object c ticker) as [|order] eqn:Eo; [done|].
  destruct (append_orders a command 1 legs) as [|more] eqn:Em; [done|]. intros [= <-]. destruct (order_body _ _ _ _ Et Ha Hc Eo) as (v & Hv & Hr).
  destruct (more_orders _ _ _ 1 more ltac:(done) Ha Hw' Em) as (vs & Hvs & Hm). exists (v :: vs). split; [by constructor|]. intros rest. rewrite !chars_app, <- !app_assoc.
  apply (Hm 60%nat (chars order) v rest); [lia|apply Hr; lia].
Qed.

Lemma reads_batch n body vs : (∀ rest, read_elements n (chars body ++ chars "]" ++ rest) = Some (vs, rest)) →
  reads (S (S (S n))) (chars ("{" +:+ key "orders" +:+ "[" +:+ body +:+ "]}")) (VObject [("orders"%string, VList vs)]).
Proof.
  intros Hr. rewrite !chars_app. apply reads_object. intros rest. rewrite <- !app_assoc. change (chars "]}" ++ rest) with (chars "]" ++ chars "}" ++ rest).
  replace (chars "[" ++ chars body ++ chars "]" ++ chars "}" ++ rest) with ((chars "[" ++ chars body ++ chars "]") ++ chars "}" ++ rest) by (by rewrite <- !app_assoc).
  apply member_last; [done|]. intros rest'. rewrite <- !app_assoc. change (chars "[" ++ ?l) with ("["%char :: l). cbn [read_value]. rewrite !bool_decide_eq_false_2 by done.
  rewrite bool_decide_eq_true_2 by done. by rewrite Hr.
Qed.
Lemma read_json_reads n s v : n = 64%nat → reads n (chars s) v → read_json s = Some v.
Proof. intros -> Hr. unfold read_json. specialize (Hr []). rewrite app_nil_r in Hr. by rewrite Hr. Qed.

Definition writable_command (c : OmsToKalshiCommand) : Prop :=
  match c with
  | KcSubmit o => writable_order o
  | KcSubmitBatch b => length (sbc_orders b) = kMAX_ORDERS_PER_GROUP ∧ Forall writable_order (sbc_orders b) ∧ 0 ≤ sbc_order_count b
  | _ => True
  end.

(** C16: an order is written the way it was meant.  Of every submission the adapter accepts, a
    reader of JSON text gets back an object for each order, in the order of the legs: with the
    ticker of the order's market and its client id, a number of contracts that the venue's
    fixed-point notation reads as the quantity of the intent, and a side and price that,
    however the market settles, make or lose the same per contract as buying or selling the
    intended outcome at the intended price.  A request cannot be read as anything else,
    whatever characters tickers and ids hold that JSON can hold. *)
Theorem orders_are_written_as_meant a c : writable_tickers a → writable_command c → po_ok (prepare_command a c) = true →
  match c with
  | KcSubmit o => ∃ v, read_json (hq_body (po_request (prepare_command a c))) = Some v ∧ is_order a o v
  | KcSubmitBatch b => ∃ vs, read_json (hq_body (po_request (prepare_command a c))) = Some (VObject [("orders"%string, VList vs)]) ∧
      Forall2 (is_order a) (take (Z.to_nat (sbc_order_count b)) (sbc_orders b)) vs
  | _ => True
  end.
Proof.
  intros Ha Hw. destruct c as [o|b|o|o| |]; try done; cbn [prepare_command writable_command] in *.
  - unfold prepare_submit_order. destruct (known_ticker _ _) as [ticker|] eqn:Et; [|done]. apply known_ticker_some in Et.
    destruct (append_v2_order_object o ticker) as [|body] eqn:Eo; [done|]. intros _. cbn [hq_body]. destruct (order_body _ _ _ _ Et Ha Hw Eo) as (v & Hv & Hr). exists v. split; [|done].
    apply (read_json_reads 64 _ _ eq_refl), Hr. lia.
  - destruct Hw as (Hl & Hw & Hc). unfold prepare_submit_order_batch. destruct ((_ || _) || _); [done|]. destruct (_ || (_ <? _)) eqn:Eg; [done|]. guards.
    destruct (append_orders _ _ _ _) as [|body] eqn:Eo; [done|]. intros _. destruct (batch_orders a b (take (Z.to_nat (sbc_order_count b)) (sbc_orders b)) body) as (vs & Hvs & Hr); try done.
    + intros E%(f_equal length). rewrite length_take in E. cbn in E. lia.
    + rewrite length_take, Hl. unfold kMAX_ORDERS_PER_GROUP. lia.
    + by apply Forall_take.
    + exists vs. split; [|done]. by apply (read_json_reads 64 _ _ eq_refl), (reads_batch 61).
Qed.
End RestOrders.

(** ** The answers of a batch belong to its legs

    The venue answers a batch of orders with a list of entries.  A batch is acknowledged only if
    the entries answer its legs one for one, each the leg with its client id. *)

Open Scope Z_scope.

Module RestBatch.
Import RestAdapter.

(** ** Lists *)

Lemma length_for_legs f orders : ∀ responses, length (for_legs f orders responses) = length responses.
Proof. induction orders as [|o orders IH]; intros [|r responses]; cbn [for_legs length]; try done. by rewrite IH. Qed.
Lemma lookup_for_legs f orders : ∀ responses i order r, orders !! i = Some order → responses !! i = Some r → for_legs f orders responses !! i = Some (f order r).
Proof.
  induction orders as [|o orders IH]; intros [|r0 responses] [|i] order r; cbn; try done; [by intros [= ->] [= ->]|]. apply IH.
Qed.

(** Numbers below [n] without repetition: [n] of them are all of them. *)
Lemma all_indices (l : list nat) n : NoDup l → (∀ i, i ∈ l → (i < n)%nat) → (n ≤ length l)%nat → l ≡ₚ seq 0 n.
Proof.
  intros Hn Hl Hle. apply submseteq_length_Permutation; [|by rewrite length_seq]. apply NoDup_submseteq; [done|]. intros i Hi. apply elem_of_seq. specialize (Hl i Hi). lia.
Qed.
Lemma indices_bounded (l : list nat) n : NoDup l → (∀ i, i ∈ l → (i < n)%nat) → (length l ≤ n)%nat.
Proof.
  intros Hn Hl. rewrite <- (length_seq n 0) at 1. apply submseteq_length, NoDup_submseteq; [done|]. intros i Hi. apply elem_of_seq. specialize (Hl i Hi). lia.
Qed.

(** ** Legs *)

Lemma match_leg_found orders : ∀ seen client_id k i, match_leg k orders seen client_id = Some i →
  ∃ order, (k ≤ i)%nat ∧ orders !! (i - k)%nat = Some order ∧ so_client_order_id order = client_id ∧ seen !! (i - k)%nat = Some false.
Proof.
  induction orders as [|order orders IH]; intros [|s seen] client_id k i; cbn [match_leg]; try done. destruct (negb s && _) eqn:E.
  - intros [= <-]. apply andb_prop in E as [Es Ec%bool_decide_eq_true]. exists order. rewrite Nat.sub_diag. split_and!; try done. by destruct s.
  - intros Hm. destruct (IH _ _ _ _ Hm) as (o & Hle & Ho & Hc & Hs). exists o. destruct (i - k)%nat as [|j] eqn:Ej; [lia|]. assert (j = (i - S k)%nat) as -> by lia. split_and!; try done. lia.
Qed.

Section Batch.
Context `{!NlohmannJson}.

Definition entry_client_id (entry : json) : string := json_get_string (json_at entry "client_order_id").

(** How entries answer legs: the [k]th entry the [σ k]th leg. *)
Record answers (orders : list SubmitOrderCmd) (entries : list json) (before after : list RestOrderResponse) (σ : list nat) : Prop := {
  an_length : length σ = length entries;
  an_once : NoDup σ;
  an_leg : ∀ k i entry, σ !! k = Some i → entries !! k = Some entry →
    ∃ order r r', orders !! i = Some order ∧ so_client_order_id order = entry_client_id entry ∧ before !! i = Some r ∧ after !! i = Some r' ∧
      parse_created_order entry r = CreatedRead r';
  an_other : ∀ i, i ∉ σ → after !! i = before !! i;
}.

Lemma entries_answer orders entries : ∀ responses seen count responses' count', (length orders ≤ length responses)%nat → u8 count = count →
  complete_entries orders entries responses seen count = (responses', count', EntriesRead) →
  ∃ σ, answers orders entries responses responses' σ ∧ (∀ i, i ∈ σ → (i < length orders)%nat ∧ seen !! i = Some false) ∧
    count' = u8 (count + Z.of_nat (length entries)).
Proof.
  induction entries as [|entry entries IH]; intros responses seen count responses' count' Hl Hu; cbn [complete_entries].
  - intros [= <- <-]. exists []. split; [split; try done; constructor|]. split; [set_solver|]. cbn. by rewrite Z.add_0_r.
  - destruct (_ || _) eqn:Eg; [done|]. destruct (match_leg _ _ _ _) as [i|] eqn:Em; [|done]. destruct (match_leg_found _ _ _ _ _ Em) as (order & _ & Ho & Hc & Hs).
    rewrite Nat.sub_0_r in Ho, Hs. pose proof (lookup_lt_Some _ _ _ Ho) as Hi. destruct (lookup_lt_is_Some_2 responses i ltac:(lia)) as [r Er]. rewrite Er. change (default _ (Some r)) with r.
    destruct (parse_created_order entry r) as [r1| |] eqn:Ep; [|done..]. intros Hrec. apply IH in Hrec as (σ & [A1 A2 A3 A4] & Hσ & ->); [|by rewrite length_insert|].
    2: { unfold u8. by rewrite Zmod_mod. }
    assert (i ∉ σ) as Hnew. { intros Hin. destruct (Hσ i Hin) as [_ Hs']. rewrite list_lookup_insert_eq in Hs' by (by eapply lookup_lt_Some). done. }
    exists (i :: σ). split; [split|].
    + cbn. by rewrite A1.
    + by constructor.
    + intros [|k] j e; cbn; [|intros Hj He].
      * intros [= <-] [= <-]. exists order, r, r1. split_and!; try done. rewrite A4 by done. by apply list_lookup_insert_eq, (lookup_lt_Some _ _ _ Er).
      * destruct (A3 k j e Hj He) as (o & q & q' & B1 & B2 & B3 & B4 & B5). exists o, q, q'. split_and!; try done. rewrite list_lookup_insert_ne in B3; [done|].
        intros ->. by apply Hnew, (list_elem_of_lookup_2 _ k).
    + intros j [Hj1 Hj2]%not_elem_of_cons. rewrite A4 by done. by apply list_lookup_insert_ne.
    + split.
      * intros j [->|Hj]%elem_of_cons; [done|]. destruct (Hσ j Hj) as [H1 H2]. split; [done|]. rewrite list_lookup_insert_ne in H2; [done|]. by intros ->.
      * unfold u8. rewrite Zplus_mod_idemp_l. f_equal. cbn [length]. lia.
Qed.

Lemma created_keeps entry r r' : parse_created_order entry r = CreatedRead r' → ro_context r' = ro_context r ∧ ro_client_order_id r' = ro_client_order_id r.
Proof. unfold parse_created_order, parse_execution_summary. intros Hp. repeat case_match; simplify_eq; done. Qed.

(** A batch is acknowledged only when its legs are answered one for one.  If the completion
    of a batch succeeds, there are as many entries as legs, and a one-to-one pairing of them by
    client id; what is reported of a leg is what its entry says, under the leg's own request
    id, context and client id.  A response that leaves a leg out, answers one twice or names
    an order of another batch is never taken for an acknowledgement. *)
Theorem batch_acknowledged_leg_by_leg prepared response command :
  po_source_command prepared = KcSubmitBatch command → 0 ≤ sbc_order_count command →
  cb_ok (complete_batch_request prepared response) = true →
  ∃ parsed σ, json_parse (hs_body response) = inr parsed ∧ σ ≡ₚ seq 0 (Z.to_nat (sbc_order_count command)) ∧ length (json_items (json_at parsed "orders")) = length σ ∧
    ∀ k i, σ !! k = Some i → ∃ entry leg r r',
      json_items (json_at parsed "orders") !! k = Some entry ∧ sbc_orders command !! i = Some leg ∧ entry_client_id entry = so_client_order_id leg ∧
      rb_order_responses (cb_response (complete_batch_request prepared response)) !! i = Some r' ∧ parse_created_order entry r = CreatedRead r' ∧
      ro_context r = mkOmsContext (so_oms_request_id leg) (no_context (so_new_order_intent leg)) ∧ ro_client_order_id r = so_client_order_id leg ∧
      ro_context r' = ro_context r ∧ ro_client_order_id r' = ro_client_order_id r.
Proof.
  intros Hsrc Hc0. unfold complete_batch_request. rewrite Hsrc. destruct (negb _); [done|]. destruct ((_ || _) || _) eqn:Eg; [done|]. guards.
  set (legs := take _ _). set (r0 := default_RestOrderBatchResponse ⟪ _ := _ ⟫ ⟪ _ := _ ⟫ ⟪ _ := _ ⟫ ⟪ _ := _ ⟫ ⟪ _ := _ ⟫ ⟪ _ := _ ⟫ ⟪ _ := _ ⟫ ⟪ _ := _ ⟫ ⟪ _ ::= _ ⟫).
  destruct (no_http_status response); [done|]. destruct (http_failure response); [done|]. destruct (json_parse _) as [|parsed] eqn:Ep; [done|]. destruct ((_ || _) || _); [done|].
  destruct (complete_entries _ _ _ _ _) as [[responses count] ending] eqn:Ee. destruct ending; [|done..]. destruct (Z.eqb_spec count (sbc_order_count command)) as [->|]; [|done]. cbn [negb]. intros _.
  assert (length legs = Z.to_nat (sbc_order_count command)) as Hlegs by (unfold legs; rewrite length_take; lia).
  assert (length (rb_order_responses r0) = kMAX_ORDERS_PER_GROUP) as Hr0 by (unfold r0; cbn; by rewrite length_for_legs).
  change (length (rb_order_responses default_RestOrderBatchResponse)) with kMAX_ORDERS_PER_GROUP in *.
  apply entries_answer in Ee as (σ & [A1 A2 A3 A4] & Hσ & Hcount); [|lia|done].
  assert (length σ ≤ Z.to_nat (sbc_order_count command))%nat as Hle by (apply indices_bounded; [done|]; intros i Hi; destruct (Hσ i Hi); lia).
  assert (length σ = Z.to_nat (sbc_order_count command)) as Hlen.
  { unfold kMAX_ORDERS_PER_GROUP in *. rewrite <- A1 in Hcount. cbn in Hcount. unfold u8 in Hcount. rewrite Z.mod_small in Hcount by lia. lia. }
  exists parsed, σ. split; [done|]. split; [apply all_indices; [done|intros i Hi; destruct (Hσ i Hi); lia|lia]|]. split; [done|]. intros k i Hk.
  destruct (lookup_lt_is_Some_2 (json_items (json_at parsed "orders")) k) as [entry He]; [rewrite <- A1; by eapply lookup_lt_Some|].
  destruct (A3 k i entry Hk He) as (leg & r & r' & B1 & B2 & B3 & B4 & B5). exists entry, leg, r, r'.
  assert (i < length legs)%nat as Hi by (by eapply lookup_lt_Some). destruct (lookup_lt_is_Some_2 (rb_order_responses default_RestOrderBatchResponse) i) as [rd Hrd].
  { change (length (rb_order_responses default_RestOrderBatchResponse)) with kMAX_ORDERS_PER_GROUP. lia. }
  assert (r = initial_leg prepared response leg rd) as ->.
  { pose proof (lookup_for_legs (initial_leg prepared response) legs _ i leg rd B1 Hrd) as Hf. change (rb_order_responses r0) with (for_legs (initial_leg prepared response) legs (rb_order_responses default_RestOrderBatchResponse)) in B3. congruence. }
  destruct (created_keeps _ _ _ B5) as [K1 K2]. split_and!; try done. unfold legs in B1. by apply lookup_take_Some in B1 as [B1 _].
Qed.
End Batch.
End RestBatch.
