(* ===== verification/ControlPlaneTypes.v ===== *)
(** * ControlPlaneTypes: what the control plane knows and says

    Models the types of [cpp/include/predex/control/control_types.hpp],
    [control_lifecycle.hpp], [control_plane.hpp] and
    [cpp/include/predex/operator/operator_commands.hpp] that the control plane uses: the state
    it keeps of every component, the messages of the components, and the operator's commands
    and responses. *)

From S2P Require Import Prelude LatencyHistogram MarketTypes Router ControlTypes ShardTypes WireTypes OmsTypes.

(** ** Lifecycle *)

Inductive LifecyclePhase := | kBOOTING | kWAITING_FOR_IO | kIO_CONNECTED | kPHASE_READY | kLIVE_TRADING | kSHUTTING_DOWN | kPHASE_STOPPED
  | kREFRESHING | kPHASE_FAULTED.
#[export] Instance LifecyclePhase_eq_dec : EqDecision LifecyclePhase.
Proof. solve_decision. Defined.

Inductive ComponentStatus := | kSTATUS_UNKNOWN | kSTATUS_STOPPED | kSTATUS_STARTING | kSTATUS_INSTALLING_UNIVERSE | kSTATUS_READY
  | kSTATUS_LIVE | kSTATUS_QUIESCING | kSTATUS_FAULTED.
#[export] Instance ComponentStatus_eq_dec : EqDecision ComponentStatus.
Proof. solve_decision. Defined.

Inductive TradingSessionPhase := | kSESSION_UNKNOWN | kPHASE_TRADING | kREDUCE_ONLY | kFLATTEN_TO_ZERO | kSESSION_STOPPED.
#[export] Instance TradingSessionPhase_eq_dec : EqDecision TradingSessionPhase.
Proof. solve_decision. Defined.

(** ** Telemetry *)

Record RouterTelemetrySnapshot := mkRouterTelemetrySnapshot {
  rtl_total_frames_seen : Z;
  rtl_frames_to_shards : Z;
  rtl_frames_to_logger : Z;
  rtl_frames_recycled : Z;
  rtl_leaked_handles : Z;
  rtl_market_barriers_received : Z;
  rtl_market_barriers_delivered : Z;
  rtl_subscription_barriers_received : Z;
  rtl_subscription_barriers_delivered : Z;
  rtl_barriers_deferred : Z;
  rtl_subscription_recovery_facts_deferred : Z;
  rtl_shard_queue_depth_high_water : Z;
  rtl_channel_stats : list MarketDataChannelTelemetrySnapshot;
  rtl_wire_to_router_latency : list Histogram.LatencyHistogram;
  rtl_router_service_latency : list Histogram.LatencyHistogram;
}.
#[export] Instance eta_RouterTelemetrySnapshot : Eta RouterTelemetrySnapshot := λ r,
  mkRouterTelemetrySnapshot (rtl_total_frames_seen r) (rtl_frames_to_shards r) (rtl_frames_to_logger r)
    (rtl_frames_recycled r) (rtl_leaked_handles r) (rtl_market_barriers_received r) (rtl_market_barriers_delivered r)
    (rtl_subscription_barriers_received r) (rtl_subscription_barriers_delivered r) (rtl_barriers_deferred r)
    (rtl_subscription_recovery_facts_deferred r) (rtl_shard_queue_depth_high_water r) (rtl_channel_stats r)
    (rtl_wire_to_router_latency r) (rtl_router_service_latency r).
Definition default_RouterTelemetrySnapshot : RouterTelemetrySnapshot :=
  mkRouterTelemetrySnapshot 0 0 0 0 0 0 0 0 0 0 0 0 make_market_data_channel_telemetry channel_latency channel_latency.

Record ShardTelemetrySnapshot := mkShardTelemetrySnapshot {
  stl_frames_seen : Z;
  stl_frames_applied : Z;
  stl_parse_rejects : Z;
  stl_event_rejects : Z;
  stl_event_desyncs : Z;
  stl_frames_to_logger : Z;
  stl_frames_recycled : Z;
  stl_leaked_handles : Z;
  stl_missed_frames_to_logger : Z;
  stl_event_ignored : Z;
  stl_market_barriers_seen : Z;
  stl_subscription_barriers_seen : Z;
  stl_barrier_rejects : Z;
  stl_markets_became_unusable : Z;
  stl_markets_recovery_required : Z;
  stl_markets_already_awaiting_recovery : Z;
  stl_router_to_shard_latency : list Histogram.LatencyHistogram;
  stl_shard_service_latency : list Histogram.LatencyHistogram;
  stl_ingress_to_shard_latency : list Histogram.LatencyHistogram;
  stl_ingress_to_book_apply_latency : list Histogram.LatencyHistogram;
}.
#[export] Instance eta_ShardTelemetrySnapshot : Eta ShardTelemetrySnapshot := λ r,
  mkShardTelemetrySnapshot (stl_frames_seen r) (stl_frames_applied r) (stl_parse_rejects r) (stl_event_rejects r)
    (stl_event_desyncs r) (stl_frames_to_logger r) (stl_frames_recycled r) (stl_leaked_handles r)
    (stl_missed_frames_to_logger r) (stl_event_ignored r) (stl_market_barriers_seen r)
    (stl_subscription_barriers_seen r) (stl_barrier_rejects r) (stl_markets_became_unusable r)
    (stl_markets_recovery_required r) (stl_markets_already_awaiting_recovery r) (stl_router_to_shard_latency r)
    (stl_shard_service_latency r) (stl_ingress_to_shard_latency r) (stl_ingress_to_book_apply_latency r).
Definition default_ShardTelemetrySnapshot : ShardTelemetrySnapshot :=
  mkShardTelemetrySnapshot 0 0 0 0 0 0 0 0 0 0 0 0 0 0 0 0 channel_latency channel_latency channel_latency
    channel_latency.

Record RecoveryTelemetrySnapshot := mkRecoveryTelemetrySnapshot {
  rv_incidents_created : Z;
  rv_incidents_deduplicated : Z;
  rv_markets_already_recovering : Z;
  rv_observations_rejected : Z;
  rv_markets_scheduled : Z;
  rv_requests_enqueued : Z;
  rv_request_enqueue_failures : Z;
  rv_requests_accepted : Z;
  rv_request_failures : Z;
  rv_retries_scheduled : Z;
  rv_request_ack_timeouts : Z;
  rv_snapshot_timeouts : Z;
  rv_markets_recovered : Z;
  rv_markets_failed : Z;
  rv_incidents_completed : Z;
  rv_incidents_superseded : Z;
  rv_markets_superseded : Z;
  rv_active_incidents : Z;
  rv_active_markets : Z;
  rv_recovery_duration_samples : Z;
  rv_recovery_duration_total_ns : Z;
  rv_recovery_duration_max_ns : Z;
  rv_recovery_duration_latency : Histogram.LatencyHistogram;
}.
#[export] Instance eta_RecoveryTelemetrySnapshot : Eta RecoveryTelemetrySnapshot := λ r,
  mkRecoveryTelemetrySnapshot (rv_incidents_created r) (rv_incidents_deduplicated r) (rv_markets_already_recovering r)
    (rv_observations_rejected r) (rv_markets_scheduled r) (rv_requests_enqueued r) (rv_request_enqueue_failures r)
    (rv_requests_accepted r) (rv_request_failures r) (rv_retries_scheduled r) (rv_request_ack_timeouts r)
    (rv_snapshot_timeouts r) (rv_markets_recovered r) (rv_markets_failed r) (rv_incidents_completed r)
    (rv_incidents_superseded r) (rv_markets_superseded r) (rv_active_incidents r) (rv_active_markets r)
    (rv_recovery_duration_samples r) (rv_recovery_duration_total_ns r) (rv_recovery_duration_max_ns r)
    (rv_recovery_duration_latency r).
Definition default_RecoveryTelemetrySnapshot : RecoveryTelemetrySnapshot :=
  mkRecoveryTelemetrySnapshot 0 0 0 0 0 0 0 0 0 0 0 0 0 0 0 0 0 0 0 0 0 0 Histogram.empty_histogram.

Record LoggerTelemetrySnapshot := mkLoggerTelemetrySnapshot {
  lt_records_written : Z;
  lt_bytes_written : Z;
  lt_write_failures : Z;
  lt_recycle_failures : Z;
  lt_shard_to_logger_latency : list Histogram.LatencyHistogram;
  lt_ingress_to_logger_write_latency : list Histogram.LatencyHistogram;
}.
#[export] Instance eta_LoggerTelemetrySnapshot : Eta LoggerTelemetrySnapshot := λ r,
  mkLoggerTelemetrySnapshot (lt_records_written r) (lt_bytes_written r) (lt_write_failures r) (lt_recycle_failures r)
    (lt_shard_to_logger_latency r) (lt_ingress_to_logger_write_latency r).
Definition default_LoggerTelemetrySnapshot : LoggerTelemetrySnapshot :=
  mkLoggerTelemetrySnapshot 0 0 0 0 channel_latency channel_latency.

Record PrivateOrderFeedTelemetrySnapshot := mkPrivateOrderFeedTelemetrySnapshot {
  ftl_messages_received : Z;
  ftl_messages_decoded : Z;
  ftl_messages_dropped : Z;
  ftl_parse_failures : Z;
  ftl_oms_enqueue_failures : Z;
  ftl_reconnects : Z;
}.
#[export] Instance eta_PrivateOrderFeedTelemetrySnapshot : Eta PrivateOrderFeedTelemetrySnapshot := λ r,
  mkPrivateOrderFeedTelemetrySnapshot (ftl_messages_received r) (ftl_messages_decoded r) (ftl_messages_dropped r)
    (ftl_parse_failures r) (ftl_oms_enqueue_failures r) (ftl_reconnects r).
Definition default_PrivateOrderFeedTelemetrySnapshot : PrivateOrderFeedTelemetrySnapshot :=
  mkPrivateOrderFeedTelemetrySnapshot 0 0 0 0 0 0.

Record OrderRestTelemetrySnapshot := mkOrderRestTelemetrySnapshot {
  et_commands_received : Z;
  et_requests_sent : Z;
  et_responses_received : Z;
  et_requests_failed : Z;
  et_retry_count : Z;
  et_oms_enqueue_failures : Z;
  et_last_portfolio_reconciliation_error : string;
}.
#[export] Instance eta_OrderRestTelemetrySnapshot : Eta OrderRestTelemetrySnapshot := λ r,
  mkOrderRestTelemetrySnapshot (et_commands_received r) (et_requests_sent r) (et_responses_received r)
    (et_requests_failed r) (et_retry_count r) (et_oms_enqueue_failures r) (et_last_portfolio_reconciliation_error r).
Definition default_OrderRestTelemetrySnapshot : OrderRestTelemetrySnapshot :=
  mkOrderRestTelemetrySnapshot 0 0 0 0 0 0 ""%string.

(** ** The state of the components *)

Record IoComponentState := mkIoComponentState {
  ios_status : ComponentStatus;
  ios_connected : bool;
  ios_installed_universe_version : Z;
  ios_subscribed_universe_version : Z;
  ios_telemetry : IoTelemetrySnapshot;
  ios_last_error : string;
}.
#[export] Instance eta_IoComponentState : Eta IoComponentState := λ r,
  mkIoComponentState (ios_status r) (ios_connected r) (ios_installed_universe_version r)
    (ios_subscribed_universe_version r) (ios_telemetry r) (ios_last_error r).
Definition default_IoComponentState : IoComponentState :=
  mkIoComponentState kSTATUS_UNKNOWN false 0 0 default_IoTelemetrySnapshot ""%string.

Record RouterComponentState := mkRouterComponentState {
  rp_status : ComponentStatus;
  rp_last_error : string;
  rp_telemetry : RouterTelemetrySnapshot;
}.
#[export] Instance eta_RouterComponentState : Eta RouterComponentState := λ r,
  mkRouterComponentState (rp_status r) (rp_last_error r) (rp_telemetry r).
Definition default_RouterComponentState : RouterComponentState :=
  mkRouterComponentState kSTATUS_UNKNOWN ""%string default_RouterTelemetrySnapshot.

Record ShardComponentState := mkShardComponentState {
  shs_status : ComponentStatus;
  shs_installed_universe_version : Z;
  shs_safe_to_stop_universe_version : Z;
  shs_drained_universe_version : Z;
  shs_last_error : string;
  shs_telemetry : ShardTelemetrySnapshot;
}.
#[export] Instance eta_ShardComponentState : Eta ShardComponentState := λ r,
  mkShardComponentState (shs_status r) (shs_installed_universe_version r) (shs_safe_to_stop_universe_version r)
    (shs_drained_universe_version r) (shs_last_error r) (shs_telemetry r).
Definition default_ShardComponentState : ShardComponentState :=
  mkShardComponentState kSTATUS_UNKNOWN 0 0 0 ""%string default_ShardTelemetrySnapshot.

Record LoggerComponentState := mkLoggerComponentState {
  lgs_status : ComponentStatus;
  lgs_output_file_path : string;
  lgs_last_error : string;
  lgs_telemetry : LoggerTelemetrySnapshot;
}.
#[export] Instance eta_LoggerComponentState : Eta LoggerComponentState := λ r,
  mkLoggerComponentState (lgs_status r) (lgs_output_file_path r) (lgs_last_error r) (lgs_telemetry r).
Definition default_LoggerComponentState : LoggerComponentState :=
  mkLoggerComponentState kSTATUS_UNKNOWN ""%string ""%string default_LoggerTelemetrySnapshot.

Record OmsComponentState := mkOmsComponentState {
  oms_status : ComponentStatus;
  oms_installed_universe_version : Z;
  oms_trading_enabled : bool;
  oms_cancel_all_requested : bool;
  oms_telemetry : OmsTelemetrySnapshot;
  oms_last_error : string;
}.
#[export] Instance eta_OmsComponentState : Eta OmsComponentState := λ r,
  mkOmsComponentState (oms_status r) (oms_installed_universe_version r) (oms_trading_enabled r)
    (oms_cancel_all_requested r) (oms_telemetry r) (oms_last_error r).
Definition default_OmsComponentState : OmsComponentState :=
  mkOmsComponentState kSTATUS_UNKNOWN 0 false false default_OmsTelemetrySnapshot ""%string.

Record PrivateOrderFeedComponentState := mkPrivateOrderFeedComponentState {
  fc_status : ComponentStatus;
  fc_connected : bool;
  fc_installed_universe_version : Z;
  fc_subscribed_universe_version : Z;
  fc_last_error : string;
  fc_telemetry : PrivateOrderFeedTelemetrySnapshot;
}.
#[export] Instance eta_PrivateOrderFeedComponentState : Eta PrivateOrderFeedComponentState := λ r,
  mkPrivateOrderFeedComponentState (fc_status r) (fc_connected r) (fc_installed_universe_version r)
    (fc_subscribed_universe_version r) (fc_last_error r) (fc_telemetry r).
Definition default_PrivateOrderFeedComponentState : PrivateOrderFeedComponentState :=
  mkPrivateOrderFeedComponentState kSTATUS_UNKNOWN false 0 0 ""%string default_PrivateOrderFeedTelemetrySnapshot.

Record OrderRestComponentState := mkOrderRestComponentState {
  ec_status : ComponentStatus;
  ec_enabled : bool;
  ec_installed_universe_version : Z;
  ec_last_error : string;
  ec_telemetry : OrderRestTelemetrySnapshot;
}.
#[export] Instance eta_OrderRestComponentState : Eta OrderRestComponentState := λ r,
  mkOrderRestComponentState (ec_status r) (ec_enabled r) (ec_installed_universe_version r) (ec_last_error r)
    (ec_telemetry r).
Definition default_OrderRestComponentState : OrderRestComponentState :=
  mkOrderRestComponentState kSTATUS_UNKNOWN false 0 ""%string default_OrderRestTelemetrySnapshot.

Record ProcessState := mkProcessState {
  pst_lifecycle : LifecyclePhase;
  pst_trading_session_phase : TradingSessionPhase;
  pst_trading_enabled : bool;
  pst_shutdown_requested : bool;
  pst_target_universe_version : Z;
  pst_active_universe_version : Z;
  pst_io_component_state : IoComponentState;
  pst_router_component_state : RouterComponentState;
  pst_logger_component_state : LoggerComponentState;
  pst_oms_component_state : OmsComponentState;
  pst_private_order_feed_component_state : PrivateOrderFeedComponentState;
  pst_order_rest_component_state : OrderRestComponentState;
  pst_shard_component_states : list ShardComponentState;
  pst_recovery_telemetry : RecoveryTelemetrySnapshot;
}.
#[export] Instance eta_ProcessState : Eta ProcessState := λ r,
  mkProcessState (pst_lifecycle r) (pst_trading_session_phase r) (pst_trading_enabled r) (pst_shutdown_requested r)
    (pst_target_universe_version r) (pst_active_universe_version r) (pst_io_component_state r)
    (pst_router_component_state r) (pst_logger_component_state r) (pst_oms_component_state r)
    (pst_private_order_feed_component_state r) (pst_order_rest_component_state r) (pst_shard_component_states r)
    (pst_recovery_telemetry r).
Definition default_ProcessState : ProcessState :=
  mkProcessState kBOOTING kPHASE_TRADING false false 0 0 default_IoComponentState default_RouterComponentState
    default_LoggerComponentState default_OmsComponentState default_PrivateOrderFeedComponentState
    default_OrderRestComponentState [] default_RecoveryTelemetrySnapshot.

(** ** Messages of the components *)

(** The router's messages; [OutOfSequenceFrame] is an alternative that the router does not send. *)
Inductive RouterStatus := | FromRouter (m : RouterToControl) | OutOfSequenceFrame (sid sequence : Z).

Inductive LoggerToControlStatus := | LgStarted (output_file_path : string) | LgFaulted (error_message : string)
  | LgTelemetry (telemetry : LoggerTelemetrySnapshot).

Inductive ControlToPrivateOrderFeedCommand := | CpApplyOrderRouteUniverse (snapshot : option OrderRouteUniverse)
  | CpConnect | CpDisconnect.

Inductive PrivateOrderFeedToControlStatus := | PfConnected | PfDisconnected (reason : string) | PfUniverseApplied (version : Z)
  | PfSubscriptionReady (version : Z) | PfFaulted (error_message : string) | PfTelemetry (telemetry : PrivateOrderFeedTelemetrySnapshot).

Inductive ControlToOrderRestCommand := | CrApplyOrderRouteUniverse (snapshot : option OrderRouteUniverse) | CrEnable | CrDisable.

Inductive OrderRestToControlStatus := | OrReady | OrDisabled | OrUniverseApplied (version : Z) | OrFaulted (error_message : string)
  | OrTelemetry (telemetry : OrderRestTelemetrySnapshot).

(** ** The operator *)

Inductive OperatorCommandType := | kOPERATOR_UNKNOWN | kSTATUS | kSHUTDOWN_GRACEFUL | kSHUTDOWN_FORCEFUL | kCOUNTERSTATS
  | kALLOW_TRADING | kDISABLE_TRADING | kCANCEL_ALL_ORDERS.
#[export] Instance OperatorCommandType_eq_dec : EqDecision OperatorCommandType.
Proof. solve_decision. Defined.

Inductive OperatorResponseType := | kACK | kERROR | kRESPONSE_STATUS | kRESPONSE_COUNTERSTATS.
#[export] Instance OperatorResponseType_eq_dec : EqDecision OperatorResponseType.
Proof. solve_decision. Defined.

Record OperatorCommand := mkOperatorCommand {
  oq_type : OperatorCommandType;
  oq_request_id : Z;
}.
#[export] Instance eta_OperatorCommand : Eta OperatorCommand := λ r,
  mkOperatorCommand (oq_type r) (oq_request_id r).
Definition default_OperatorCommand : OperatorCommand :=
  mkOperatorCommand kOPERATOR_UNKNOWN 0.

Record OperatorStatusSnapshot := mkOperatorStatusSnapshot {
  ost_lifecycle : LifecyclePhase;
  ost_trading_session_phase : TradingSessionPhase;
  ost_trading_enabled : bool;
  ost_shutdown_requested : bool;
}.
#[export] Instance eta_OperatorStatusSnapshot : Eta OperatorStatusSnapshot := λ r,
  mkOperatorStatusSnapshot (ost_lifecycle r) (ost_trading_session_phase r) (ost_trading_enabled r)
    (ost_shutdown_requested r).
Definition default_OperatorStatusSnapshot : OperatorStatusSnapshot :=
  mkOperatorStatusSnapshot kBOOTING kPHASE_TRADING false false.

Record IoCounterStats := mkIoCounterStats {
  xi_io_connected : bool;
  xi_installed_universe_version : Z;
  xi_subscribed_universe_version : Z;
  xi_frames_received : Z;
  xi_frames_published : Z;
  xi_frames_dropped : Z;
  xi_oversized_frames : Z;
  xi_pool_exhausted : Z;
  xi_missing_frame_slot : Z;
  xi_envelope_parse_failed : Z;
  xi_envelope_missing_market_ticker : Z;
  xi_envelope_unsupported_type : Z;
  xi_inactive_sid : Z;
  xi_unknown_market_ticker : Z;
  xi_unknown_market_ticker_samples : list UnknownMarketTickerStats;
  xi_stamp_failed : Z;
  xi_router_enqueue_failed : Z;
  xi_logger_fallback_enqueued : Z;
  xi_logger_fallback_failed : Z;
  xi_recycle_failures : Z;
  xi_snapshot_requests_sent : Z;
  xi_snapshot_requests_accepted : Z;
  xi_snapshot_requests_failed : Z;
  xi_frame_pool_in_use_high_water : Z;
  xi_router_queue_depth_high_water : Z;
  xi_channel_stats : list MarketDataChannelTelemetrySnapshot;
  xi_wire_service_latency : list Histogram.LatencyHistogram;
  xi_last_error : string;
}.
#[export] Instance eta_IoCounterStats : Eta IoCounterStats := λ r,
  mkIoCounterStats (xi_io_connected r) (xi_installed_universe_version r) (xi_subscribed_universe_version r)
    (xi_frames_received r) (xi_frames_published r) (xi_frames_dropped r) (xi_oversized_frames r) (xi_pool_exhausted r)
    (xi_missing_frame_slot r) (xi_envelope_parse_failed r) (xi_envelope_missing_market_ticker r)
    (xi_envelope_unsupported_type r) (xi_inactive_sid r) (xi_unknown_market_ticker r)
    (xi_unknown_market_ticker_samples r) (xi_stamp_failed r) (xi_router_enqueue_failed r)
    (xi_logger_fallback_enqueued r) (xi_logger_fallback_failed r) (xi_recycle_failures r)
    (xi_snapshot_requests_sent r) (xi_snapshot_requests_accepted r) (xi_snapshot_requests_failed r)
    (xi_frame_pool_in_use_high_water r) (xi_router_queue_depth_high_water r) (xi_channel_stats r)
    (xi_wire_service_latency r) (xi_last_error r).
Definition default_IoCounterStats : IoCounterStats :=
  mkIoCounterStats false 0 0 0 0 0 0 0 0 0 0 0 0 0 [] 0 0 0 0 0 0 0 0 0 0 make_market_data_channel_telemetry
    channel_latency ""%string.

Record RouterCounterStats := mkRouterCounterStats {
  xr_frames_seen : Z;
  xr_frames_to_shards : Z;
  xr_frames_to_logger : Z;
  xr_frames_recycled : Z;
  xr_leaked_handles : Z;
  xr_market_barriers_received : Z;
  xr_market_barriers_delivered : Z;
  xr_subscription_barriers_received : Z;
  xr_subscription_barriers_delivered : Z;
  xr_barriers_deferred : Z;
  xr_subscription_recovery_facts_deferred : Z;
  xr_shard_queue_depth_high_water : Z;
  xr_channel_stats : list MarketDataChannelTelemetrySnapshot;
  xr_wire_to_router_latency : list Histogram.LatencyHistogram;
  xr_router_service_latency : list Histogram.LatencyHistogram;
}.
#[export] Instance eta_RouterCounterStats : Eta RouterCounterStats := λ r,
  mkRouterCounterStats (xr_frames_seen r) (xr_frames_to_shards r) (xr_frames_to_logger r) (xr_frames_recycled r)
    (xr_leaked_handles r) (xr_market_barriers_received r) (xr_market_barriers_delivered r)
    (xr_subscription_barriers_received r) (xr_subscription_barriers_delivered r) (xr_barriers_deferred r)
    (xr_subscription_recovery_facts_deferred r) (xr_shard_queue_depth_high_water r) (xr_channel_stats r)
    (xr_wire_to_router_latency r) (xr_router_service_latency r).
Definition default_RouterCounterStats : RouterCounterStats :=
  mkRouterCounterStats 0 0 0 0 0 0 0 0 0 0 0 0 make_market_data_channel_telemetry channel_latency channel_latency.

Record LoggerCounterStats := mkLoggerCounterStats {
  xl_output_file_path : string;
  xl_records_written : Z;
  xl_bytes_written : Z;
  xl_write_failures : Z;
  xl_recycle_failures : Z;
  xl_shard_to_logger_latency : list Histogram.LatencyHistogram;
  xl_ingress_to_logger_write_latency : list Histogram.LatencyHistogram;
}.
#[export] Instance eta_LoggerCounterStats : Eta LoggerCounterStats := λ r,
  mkLoggerCounterStats (xl_output_file_path r) (xl_records_written r) (xl_bytes_written r) (xl_write_failures r)
    (xl_recycle_failures r) (xl_shard_to_logger_latency r) (xl_ingress_to_logger_write_latency r).
Definition default_LoggerCounterStats : LoggerCounterStats :=
  mkLoggerCounterStats ""%string 0 0 0 0 channel_latency channel_latency.

Record ShardCounterStats := mkShardCounterStats {
  xs_shard_index : Z;
  xs_frames_seen : Z;
  xs_frames_applied : Z;
  xs_parse_rejects : Z;
  xs_event_rejects : Z;
  xs_event_desyncs : Z;
  xs_frames_to_logger : Z;
  xs_frames_recycled : Z;
  xs_leaked_handles : Z;
  xs_missed_frames_to_logger : Z;
  xs_event_ignored : Z;
  xs_market_barriers_seen : Z;
  xs_subscription_barriers_seen : Z;
  xs_barrier_rejects : Z;
  xs_markets_became_unusable : Z;
  xs_markets_recovery_required : Z;
  xs_markets_already_awaiting_recovery : Z;
  xs_router_to_shard_latency : list Histogram.LatencyHistogram;
  xs_shard_service_latency : list Histogram.LatencyHistogram;
  xs_ingress_to_shard_latency : list Histogram.LatencyHistogram;
  xs_ingress_to_book_apply_latency : list Histogram.LatencyHistogram;
}.
#[export] Instance eta_ShardCounterStats : Eta ShardCounterStats := λ r,
  mkShardCounterStats (xs_shard_index r) (xs_frames_seen r) (xs_frames_applied r) (xs_parse_rejects r)
    (xs_event_rejects r) (xs_event_desyncs r) (xs_frames_to_logger r) (xs_frames_recycled r) (xs_leaked_handles r)
    (xs_missed_frames_to_logger r) (xs_event_ignored r) (xs_market_barriers_seen r) (xs_subscription_barriers_seen r)
    (xs_barrier_rejects r) (xs_markets_became_unusable r) (xs_markets_recovery_required r)
    (xs_markets_already_awaiting_recovery r) (xs_router_to_shard_latency r) (xs_shard_service_latency r)
    (xs_ingress_to_shard_latency r) (xs_ingress_to_book_apply_latency r).
Definition default_ShardCounterStats : ShardCounterStats :=
  mkShardCounterStats 0 0 0 0 0 0 0 0 0 0 0 0 0 0 0 0 0 channel_latency channel_latency channel_latency
    channel_latency.

Record OmsCounterStats := mkOmsCounterStats {
  xo_trading_enabled : bool;
  xo_cancel_all_requested : bool;
  xo_installed_universe_version : Z;
  xo_unknown_market_rejects : Z;
  xo_non_tradeable_market_rejects : Z;
  xo_strategy_intents_received : Z;
  xo_strategy_intents_processed : Z;
  xo_strategy_intents_rejected : Z;
  xo_kalshi_commands_sent : Z;
  xo_kalshi_commands_failed : Z;
  xo_rest_responses_seen : Z;
  xo_private_ws_events_seen : Z;
  xo_reconciliation_events_seen : Z;
  xo_portfolio_reconciliations_requested : Z;
  xo_portfolio_reconciliations_completed : Z;
  xo_portfolio_reconciliations_failed : Z;
  xo_duplicate_fills_ignored : Z;
  xo_venue_position_updates_seen : Z;
  xo_venue_available_balance_ticks : Z;
  xo_portfolio_reconciled : bool;
  xo_order_state_updates_sent : Z;
  xo_strategy_response_backpressure : Z;
  xo_execution_incidents_latched : Z;
  xo_group_repair_attempts : Z;
  xo_group_repair_commands_sent : Z;
  xo_group_repairs_completed : Z;
  xo_group_repairs_failed : Z;
  xo_execution_incident_active : bool;
  xo_live_orders : Z;
  xo_pending_submit_orders : Z;
  xo_uncertain_orders : Z;
  xo_last_error : string;
}.
#[export] Instance eta_OmsCounterStats : Eta OmsCounterStats := λ r,
  mkOmsCounterStats (xo_trading_enabled r) (xo_cancel_all_requested r) (xo_installed_universe_version r)
    (xo_unknown_market_rejects r) (xo_non_tradeable_market_rejects r) (xo_strategy_intents_received r)
    (xo_strategy_intents_processed r) (xo_strategy_intents_rejected r) (xo_kalshi_commands_sent r)
    (xo_kalshi_commands_failed r) (xo_rest_responses_seen r) (xo_private_ws_events_seen r)
    (xo_reconciliation_events_seen r) (xo_portfolio_reconciliations_requested r)
    (xo_portfolio_reconciliations_completed r) (xo_portfolio_reconciliations_failed r) (xo_duplicate_fills_ignored r)
    (xo_venue_position_updates_seen r) (xo_venue_available_balance_ticks r) (xo_portfolio_reconciled r)
    (xo_order_state_updates_sent r) (xo_strategy_response_backpressure r) (xo_execution_incidents_latched r)
    (xo_group_repair_attempts r) (xo_group_repair_commands_sent r) (xo_group_repairs_completed r)
    (xo_group_repairs_failed r) (xo_execution_incident_active r) (xo_live_orders r) (xo_pending_submit_orders r)
    (xo_uncertain_orders r) (xo_last_error r).
Definition default_OmsCounterStats : OmsCounterStats :=
  mkOmsCounterStats false false 0 0 0 0 0 0 0 0 0 0 0 0 0 0 0 0 0 false 0 0 0 0 0 0 0 false 0 0 0 ""%string.

Record PrivateOrderFeedCounterStats := mkPrivateOrderFeedCounterStats {
  xf_connected : bool;
  xf_installed_universe_version : Z;
  xf_subscribed_universe_version : Z;
  xf_messages_received : Z;
  xf_messages_decoded : Z;
  xf_messages_dropped : Z;
  xf_parse_failures : Z;
  xf_oms_enqueue_failures : Z;
  xf_reconnects : Z;
  xf_last_error : string;
}.
#[export] Instance eta_PrivateOrderFeedCounterStats : Eta PrivateOrderFeedCounterStats := λ r,
  mkPrivateOrderFeedCounterStats (xf_connected r) (xf_installed_universe_version r) (xf_subscribed_universe_version r)
    (xf_messages_received r) (xf_messages_decoded r) (xf_messages_dropped r) (xf_parse_failures r)
    (xf_oms_enqueue_failures r) (xf_reconnects r) (xf_last_error r).
Definition default_PrivateOrderFeedCounterStats : PrivateOrderFeedCounterStats :=
  mkPrivateOrderFeedCounterStats false 0 0 0 0 0 0 0 0 ""%string.

Record OrderRestCounterStats := mkOrderRestCounterStats {
  xe_enabled : bool;
  xe_installed_universe_version : Z;
  xe_commands_received : Z;
  xe_requests_sent : Z;
  xe_responses_received : Z;
  xe_requests_failed : Z;
  xe_retry_count : Z;
  xe_oms_enqueue_failures : Z;
  xe_last_portfolio_reconciliation_error : string;
  xe_last_error : string;
}.
#[export] Instance eta_OrderRestCounterStats : Eta OrderRestCounterStats := λ r,
  mkOrderRestCounterStats (xe_enabled r) (xe_installed_universe_version r) (xe_commands_received r)
    (xe_requests_sent r) (xe_responses_received r) (xe_requests_failed r) (xe_retry_count r)
    (xe_oms_enqueue_failures r) (xe_last_portfolio_reconciliation_error r) (xe_last_error r).
Definition default_OrderRestCounterStats : OrderRestCounterStats :=
  mkOrderRestCounterStats false 0 0 0 0 0 0 0 ""%string ""%string.

Record OperatorCounterStatsSnapshot := mkOperatorCounterStatsSnapshot {
  xc_status_snapshot : OperatorStatusSnapshot;
  xc_io_stats : IoCounterStats;
  xc_router_stats : RouterCounterStats;
  xc_shard_stats : list ShardCounterStats;
  xc_logger_stats : LoggerCounterStats;
  xc_oms_stats : OmsCounterStats;
  xc_private_order_feed_stats : PrivateOrderFeedCounterStats;
  xc_order_rest_stats : OrderRestCounterStats;
  xc_recovery_stats : RecoveryTelemetrySnapshot;
}.
#[export] Instance eta_OperatorCounterStatsSnapshot : Eta OperatorCounterStatsSnapshot := λ r,
  mkOperatorCounterStatsSnapshot (xc_status_snapshot r) (xc_io_stats r) (xc_router_stats r) (xc_shard_stats r)
    (xc_logger_stats r) (xc_oms_stats r) (xc_private_order_feed_stats r) (xc_order_rest_stats r) (xc_recovery_stats r).
Definition default_OperatorCounterStatsSnapshot : OperatorCounterStatsSnapshot :=
  mkOperatorCounterStatsSnapshot default_OperatorStatusSnapshot default_IoCounterStats default_RouterCounterStats []
    default_LoggerCounterStats default_OmsCounterStats default_PrivateOrderFeedCounterStats
    default_OrderRestCounterStats default_RecoveryTelemetrySnapshot.

Inductive OperatorResponsePayload := | AckPayload | ErrorPayload (message : string) | StatusPayload (s : OperatorStatusSnapshot)
  | CounterStatsPayload (s : OperatorCounterStatsSnapshot).

Record OperatorResponse := mkOperatorResponse {
  on_request_id : Z;
  on_type : OperatorResponseType;
  on_payload : OperatorResponsePayload;
}.
#[export] Instance eta_OperatorResponse : Eta OperatorResponse := λ r,
  mkOperatorResponse (on_request_id r) (on_type r) (on_payload r).
Definition default_OperatorResponse : OperatorResponse :=
  mkOperatorResponse 0 kACK AckPayload.

(** ** The control plane *)

Record OperatorPumpResult := mkOperatorPumpResult {
  oup_commands_processed : Z;
  oup_responses_pushed_success : Z;
  oup_responses_pushed_failure : Z;
}.
#[export] Instance eta_OperatorPumpResult : Eta OperatorPumpResult := λ r,
  mkOperatorPumpResult (oup_commands_processed r) (oup_responses_pushed_success r) (oup_responses_pushed_failure r).
Definition default_OperatorPumpResult : OperatorPumpResult :=
  mkOperatorPumpResult 0 0 0.

Record IoPumpResult := mkIoPumpResult {
  iu_statuses_processed : Z;
  iu_commands_pushed_success : Z;
  iu_commands_pushed_failure : Z;
}.
#[export] Instance eta_IoPumpResult : Eta IoPumpResult := λ r,
  mkIoPumpResult (iu_statuses_processed r) (iu_commands_pushed_success r) (iu_commands_pushed_failure r).
Definition default_IoPumpResult : IoPumpResult :=
  mkIoPumpResult 0 0 0.

Record ControlShardPumpResult := mkControlShardPumpResult {
  hu_statuses_processed : Z;
  hu_commands_pushed_success : Z;
  hu_commands_pushed_failure : Z;
}.
#[export] Instance eta_ControlShardPumpResult : Eta ControlShardPumpResult := λ r,
  mkControlShardPumpResult (hu_statuses_processed r) (hu_commands_pushed_success r) (hu_commands_pushed_failure r).
Definition default_ControlShardPumpResult : ControlShardPumpResult :=
  mkControlShardPumpResult 0 0 0.

Record RequiredComponents := mkRequiredComponents {
  req_market_data : bool;
  req_shards : bool;
  req_logger : bool;
  req_oms : bool;
  req_private_order_feed : bool;
  req_order_rest : bool;
}.
#[export] Instance eta_RequiredComponents : Eta RequiredComponents := λ r,
  mkRequiredComponents (req_market_data r) (req_shards r) (req_logger r) (req_oms r) (req_private_order_feed r)
    (req_order_rest r).
Definition default_RequiredComponents : RequiredComponents :=
  mkRequiredComponents false true true false false false.

Record SyntheticTradingSessionConfig := mkSyntheticTradingSessionConfig {
  syn_enabled : bool;
  syn_reduce_only_after_ns : Z;
  syn_flatten_to_zero_after_ns : Z;
  syn_stopped_after_ns : Z;
}.
#[export] Instance eta_SyntheticTradingSessionConfig : Eta SyntheticTradingSessionConfig := λ r,
  mkSyntheticTradingSessionConfig (syn_enabled r) (syn_reduce_only_after_ns r) (syn_flatten_to_zero_after_ns r)
    (syn_stopped_after_ns r).
Definition default_SyntheticTradingSessionConfig : SyntheticTradingSessionConfig :=
  mkSyntheticTradingSessionConfig false 0 0 0.

Inductive RecoveryPumpCode := | kRECOVERY_OK | kIO_BACKPRESSURE | kCOORDINATOR_COMMIT_FAILED.
#[export] Instance RecoveryPumpCode_eq_dec : EqDecision RecoveryPumpCode.
Proof. solve_decision. Defined.

Record RecoveryPumpResult := mkRecoveryPumpResult {
  vu_code : RecoveryPumpCode;
  vu_commands_pushed_success : Z;
  vu_commands_pushed_failure : Z;
}.
#[export] Instance eta_RecoveryPumpResult : Eta RecoveryPumpResult := λ r,
  mkRecoveryPumpResult (vu_code r) (vu_commands_pushed_success r) (vu_commands_pushed_failure r).
Definition default_RecoveryPumpResult : RecoveryPumpResult :=
  mkRecoveryPumpResult kRECOVERY_OK 0 0.
