(* ===== verification/RestSession.v ===== *)
(** * RestSession: the thread that sends orders

    Models [cpp/src/exchange/kalshi/order_rest_session.cpp]: commands of the OMS become HTTP
    requests, their responses events for the OMS; events that find the OMS's queue full wait in
    a ring buffer; a portfolio is reconciled page by page.  The HTTP session is the class
    [HttpSession], JSON the class [NlohmannJson], output queues the class [PushQueue]; input
    queues are the results of the next pops. *)

From S2P Require Import Prelude Spsc ShardTypes WireTypes OmsTypes RestTypes RestAdapter ControlPlaneTypes.
Open Scope Z_scope.

Module RestSession.
Import RestAdapter.

Definition kORDER_REST_TELEMETRY_INTERVAL : Z := 250000000.
Definition kMAX_PENDING_OMS_EVENTS : nat := 64.
Definition kMAX_HTTP_POLL_BATCH_SIZE : nat := 64.
Definition kMAX_INFLIGHT_REQUESTS : nat := 10.

Inductive InflightRequest := | InflightOrder (p : PreparedOrderRestRequest) | InflightPortfolio (p : PreparedPortfolioRestRequest).

Record ActivePortfolioReconciliation := mkActivePortfolioReconciliation {
  ap_command : RequestPortfolioReconciliation;
  ap_balance_complete : bool;
  ap_positions_complete : bool;
  ap_available_balance_ticks : Z;
  ap_portfolio_value_ticks : Z;
  ap_positions : list VenueMarketPositionSnapshot;
}.
#[export] Instance eta_ActivePortfolioReconciliation : Eta ActivePortfolioReconciliation := λ r,
  mkActivePortfolioReconciliation (ap_command r) (ap_balance_complete r) (ap_positions_complete r) (ap_available_balance_ticks r)
    (ap_portfolio_value_ticks r) (ap_positions r).

Definition bump (n : Z) : Z := u64 (n + 1).

Section RestSession.
Context {Q : Type → Type} `{!PushQueue Q} {H : Type} `{!HttpSession H} `{!NlohmannJson}.
Variable clk : nat → Z.

Record RestState := mkRestState {
  re_http_session : H;
  re_order_rest_adapter : Adapter;
  re_control_to_order_rest_queue : list (option ControlToOrderRestCommand);
  re_order_rest_to_control_queue : Q OrderRestToControlStatus;
  re_oms_to_order_rest_queue : list (option OmsToKalshiCommand);
  re_order_rest_to_oms_queue : Q KalshiToOmsEvent;
  re_enabled : bool;
  re_faulted : bool;
  re_last_error : string;
  re_inflight_requests : gmap Z InflightRequest;
  re_active_portfolio_reconciliation : option ActivePortfolioReconciliation;
  re_telemetry : OrderRestTelemetrySnapshot;
  re_next_telemetry_send : Z;
  re_pending_oms_events : list KalshiToOmsEvent;
  re_pending_oms_head : Z;
  re_pending_oms_tail : Z;
  re_pending_oms_count : Z;
  re_installed_universe_version : Z;
  re_pending_ready_notification : bool;
  re_pending_fault_notification : bool;
  re_egress_closed : bool;
  re_shutdown_epoch : Z;
  re_drain_marker_sent : bool;
  re_next_portfolio_http_request_id : Z;
  re_clock_reads : nat;
}.
#[export] Instance eta_RestState : Eta RestState := λ r,
  mkRestState (re_http_session r) (re_order_rest_adapter r) (re_control_to_order_rest_queue r) (re_order_rest_to_control_queue r)
    (re_oms_to_order_rest_queue r) (re_order_rest_to_oms_queue r) (re_enabled r) (re_faulted r) (re_last_error r) (re_inflight_requests r)
    (re_active_portfolio_reconciliation r) (re_telemetry r) (re_next_telemetry_send r) (re_pending_oms_events r) (re_pending_oms_head r)
    (re_pending_oms_tail r) (re_pending_oms_count r) (re_installed_universe_version r) (re_pending_ready_notification r)
    (re_pending_fault_notification r) (re_egress_closed r) (re_shutdown_epoch r) (re_drain_marker_sent r)
    (re_next_portfolio_http_request_id r) (re_clock_reads r).

(** The clock is read once, for the first telemetry. *)
Definition make_rest_session (http : H) (adapter : Adapter) (from_control : list (option ControlToOrderRestCommand)) (to_control : Q OrderRestToControlStatus)
    (from_oms : list (option OmsToKalshiCommand)) (to_oms : Q KalshiToOmsEvent) : RestState :=
  mkRestState http adapter from_control to_control from_oms to_oms false false "" ∅ None default_OrderRestTelemetrySnapshot
    (clk 0 + kORDER_REST_TELEMETRY_INTERVAL) (replicate kMAX_PENDING_OMS_EVENTS (KeRest default_RestOrderResponse)) 0 0 0 0 false false false 0 false
    U64_MAX 1.

Definition rest_now_ns : M RestState Z := λ s, (u64 (clk (re_clock_reads s)), s ⟪ re_clock_reads ::= S ⟫).
Definition tally (f : OrderRestTelemetrySnapshot → OrderRestTelemetrySnapshot) : M RestState unit := modify (λ s, s ⟪ re_telemetry ::= f ⟫).

(** ** Outgoing messages *)

Definition try_push_control_status (status : OrderRestToControlStatus) : M RestState bool := λ s,
  let '(b, q) := q_push status (re_order_rest_to_control_queue s) in (b, s ⟪ re_order_rest_to_control_queue := q ⟫).
Definition push_oms (event : KalshiToOmsEvent) : M RestState bool := λ s,
  let '(b, q) := q_push event (re_order_rest_to_oms_queue s) in (b, s ⟪ re_order_rest_to_oms_queue := q ⟫).

Definition try_send_pending_control_notifications : M RestState unit :=
  fault_pending ← gets re_pending_fault_notification;
  ready_pending ← gets re_pending_ready_notification;
  if fault_pending : bool then
    error ← gets re_last_error;
    pushed ← try_push_control_status (OrFaulted error);
    when pushed (modify (λ s, s ⟪ re_pending_fault_notification := false ⟫))
  else if negb ready_pending then mret tt
  else
    available ← gets (λ s, re_enabled s && negb (re_faulted s));
    if negb available then modify (λ s, s ⟪ re_pending_ready_notification := false ⟫)
    else
      pushed ← try_push_control_status OrReady;
      when pushed (modify (λ s, s ⟪ re_pending_ready_notification := false ⟫)).

Definition slot (index : Z) (s : RestState) : nat := Z.to_nat (index mod Z.of_nat (length (re_pending_oms_events s))).

Definition defer_oms_event (event : KalshiToOmsEvent) : M RestState bool := λ s,
  if Z.of_nat (length (re_pending_oms_events s)) <=? re_pending_oms_count s then (false, s)
  else (true, s ⟪ re_pending_oms_events ::= <[slot (re_pending_oms_tail s) s := event]> ⟫ ⟪ re_pending_oms_count ::= bump ⟫ ⟪ re_pending_oms_tail ::= bump ⟫).

(** The loop ends when the count is zero: [fuel] is the count. *)
Fixpoint drain_events (fuel : nat) : M RestState unit :=
  match fuel with
  | O => mret tt
  | S fuel' =>
      event ← gets (λ s, default (KeRest default_RestOrderResponse) (re_pending_oms_events s !! slot (re_pending_oms_head s) s));
      pushed ← push_oms event;
      if negb pushed then mret tt
      else
        modify (λ s, s ⟪ re_pending_oms_events ::= <[slot (re_pending_oms_head s) s := KeRest default_RestOrderResponse]> ⟫
                       ⟪ re_pending_oms_count ::= λ n, u64 (n - 1) ⟫ ⟪ re_pending_oms_head ::= bump ⟫);;
        drain_events fuel'
  end.
Definition drain_pending_oms_events : M RestState unit :=
  count ← gets re_pending_oms_count;
  drain_events (Z.to_nat count).

Definition send_or_defer_oms_event (event : KalshiToOmsEvent) : M RestState bool :=
  count ← gets re_pending_oms_count;
  if 0 <? count then
    deferred ← defer_oms_event event;
    if deferred : bool then mret true
    else tally (λ t, t ⟪ et_oms_enqueue_failures ::= bump ⟫);; mret false
  else
    pushed ← push_oms event;
    if pushed : bool then mret true
    else tally (λ t, t ⟪ et_oms_enqueue_failures ::= bump ⟫);; defer_oms_event event.

(** ** Control *)

Definition disable (reason : string) : M RestState unit :=
  modify (λ s, s ⟪ re_enabled := false ⟫ ⟪ re_pending_ready_notification := false ⟫ ⟪ re_last_error := reason ⟫).

Definition fault (reason : string) : M RestState unit :=
  disable reason;;
  modify (λ s, s ⟪ re_faulted := true ⟫ ⟪ re_pending_ready_notification := false ⟫ ⟪ re_pending_fault_notification := true ⟫);;
  try_send_pending_control_notifications.

Definition apply_universe (snapshot : option OrderRouteUniverse) : M RestState unit :=
  match snapshot with
  | None => fault "apply_order_route_universe: snapshot is null"
  | Some universe =>
      modify (λ s, s ⟪ re_installed_universe_version := un_version universe ⟫ ⟪ re_order_rest_adapter ::= apply_order_route_universe snapshot ⟫);;
      pushed ← try_push_control_status (OrUniverseApplied (un_version universe));
      when (negb pushed) (fault "failed to report installed order route universe")
  end.

Definition enable : M RestState unit :=
  running ← gets (λ s, re_enabled s && negb (re_faulted s));
  if running : bool then mret tt
  else
    version ← gets re_installed_universe_version;
    if version =? 0 then fault "cannot enable order REST without an installed universe"
    else
      unresolved ← gets (λ s, re_faulted s && (negb (bool_decide (re_inflight_requests s = ∅)) || (0 <? re_pending_oms_count s)));
      if unresolved : bool then
        modify (λ s, s ⟪ re_last_error := "cannot recover order REST while requests or OMS events remain unresolved"%string ⟫)
      else
        warm ← (λ s, let '(b, h) := http_warm_up (re_http_session s) in (b, s ⟪ re_http_session := h ⟫));
        if negb warm then
          error ← gets (λ s, http_last_error (re_http_session s));
          fault ("failed to warm HTTP/2 session: " +:+ error)%string
        else
          modify (λ s, s ⟪ re_enabled := true ⟫ ⟪ re_faulted := false ⟫ ⟪ re_last_error := ""%string ⟫ ⟪ re_pending_fault_notification := false ⟫
                         ⟪ re_pending_ready_notification := true ⟫);;
          try_send_pending_control_notifications.

Definition handle_control_command (command : ControlToOrderRestCommand) : M RestState unit :=
  match command with
  | CrEnable => enable
  | CrDisable => disable "control plane requested disable"
  | CrApplyOrderRouteUniverse snapshot => apply_universe snapshot
  end.

Definition pop_control : M RestState (option ControlToOrderRestCommand) := λ s,
  match re_control_to_order_rest_queue s with
  | [] => (None, s)
  | x :: q => (x, s ⟪ re_control_to_order_rest_queue := q ⟫)
  end.
Fixpoint control_loop (fuel : nat) : M RestState unit :=
  match fuel with
  | O => mret tt
  | S fuel' =>
      command ← pop_control;
      match command with
      | None => mret tt
      | Some command => handle_control_command command;; control_loop fuel'
      end
  end.
Definition drain_control_commands : M RestState unit :=
  fuel ← gets (λ s, length (re_control_to_order_rest_queue s));
  control_loop fuel.

(** ** Local rejections *)

Definition local_reject (prepared : PreparedOrderRestRequest) (reason : string) (reject_ts_ns : Z) : KalshiToOmsEvent :=
  match po_source_command prepared with
  | KcSubmitBatch batch =>
      let leg_reject leg (_ : RestOrderResponse) :=
        default_RestOrderResponse ⟪ ro_context := mkOmsContext (so_oms_request_id leg) (no_context (so_new_order_intent leg)) ⟫
          ⟪ ro_command_kind := kSUBMIT_ORDER ⟫ ⟪ ro_result_code := kNOT_SENT ⟫ ⟪ ro_client_order_id := so_client_order_id leg ⟫
          ⟪ ro_transport_recv_ts_ns := reject_ts_ns ⟫ ⟪ ro_venue_reject_reason := kVenueNone ⟫ ⟪ ro_raw_reason_message := reason ⟫ in
      KeRestBatch
        (default_RestOrderBatchResponse ⟪ rb_batch_oms_request_id := sbc_oms_request_id batch ⟫ ⟪ rb_oms_group_id := sbc_oms_group_id batch ⟫
          ⟪ rb_group_context := sbc_group_context batch ⟫ ⟪ rb_result_code := kNOT_SENT ⟫ ⟪ rb_requested_order_count := sbc_order_count batch ⟫
          ⟪ rb_response_order_count := 0 ⟫ ⟪ rb_transport_recv_ts_ns := reject_ts_ns ⟫ ⟪ rb_venue_reject_reason := kVenueNone ⟫
          ⟪ rb_raw_reason_message := reason ⟫
          ⟪ rb_order_responses ::= for_legs leg_reject (take (Z.to_nat (sbc_order_count batch)) (sbc_orders batch)) ⟫)
  | command =>
      KeRest (identify_response command
        (default_RestOrderResponse ⟪ ro_command_kind := po_command_kind prepared ⟫ ⟪ ro_result_code := kNOT_SENT ⟫
          ⟪ ro_transport_recv_ts_ns := reject_ts_ns ⟫ ⟪ ro_venue_reject_reason := kVenueNone ⟫ ⟪ ro_raw_reason_message := reason ⟫))
  end.

Definition emit_local_reject (prepared : PreparedOrderRestRequest) (reason : string) : M RestState bool :=
  reject_ts_ns ← rest_now_ns;
  tally (λ t, t ⟪ et_requests_failed ::= bump ⟫);;
  send_or_defer_oms_event (local_reject prepared reason reject_ts_ns).

(** ** The portfolio *)

(** The loop passes over the ids in flight: [fuel] is their number. *)
Fixpoint skip_ids (fuel : nat) (id : Z) (inflight : gmap Z InflightRequest) : Z :=
  match fuel with
  | O => id
  | S fuel' => if negb (id =? 0) && bool_decide (is_Some (inflight !! id)) then skip_ids fuel' (u64 (id - 1)) inflight else id
  end.
Definition next_portfolio_http_request_id : M RestState Z := λ s,
  let id := skip_ids (size (re_inflight_requests s)) (re_next_portfolio_http_request_id s) (re_inflight_requests s) in
  (id, s ⟪ re_next_portfolio_http_request_id := u64 (id - 1) ⟫).

Definition portfolio_failure (command : RequestPortfolioReconciliation) (received_ts_ns : Z) (error : string) : KalshiToOmsEvent :=
  KePortfolio (default_VenuePortfolioSnapshot ⟪ vs_reconciliation_id := rr_reconciliation_id command ⟫ ⟪ vs_universe_version := rr_universe_version command ⟫
    ⟪ vs_result_code := kRECONCILIATION_FAILED ⟫ ⟪ vs_request_ts_ns := rr_submission_ts_ns command ⟫ ⟪ vs_received_ts_ns := received_ts_ns ⟫
    ⟪ vs_error_message := error ⟫).

Definition fail_portfolio_reconciliation (reason : string) : M RestState unit :=
  active ← gets re_active_portfolio_reconciliation;
  match active with
  | None => mret tt
  | Some active =>
      tally (λ t, t ⟪ et_last_portfolio_reconciliation_error := reason ⟫);;
      modify (λ s, s ⟪ re_active_portfolio_reconciliation := None ⟫);;
      tally (λ t, t ⟪ et_requests_failed ::= bump ⟫);;
      now ← rest_now_ns;
      sent ← send_or_defer_oms_event (portfolio_failure (ap_command active) now reason);
      when (negb sent) (fault "unable to deliver failed portfolio reconciliation to OMS")
  end.

Definition http_start (request : HttpRequest) : M RestState HttpStartResult := λ s,
  let '(r, h) := http_start_request request (re_http_session s) in (r, s ⟪ re_http_session := h ⟫).
(** [unordered_map::emplace] keeps a request that is there. *)
Definition file_inflight (id : Z) (request : InflightRequest) : M RestState unit := modify (λ s, s ⟪ re_inflight_requests ::= emplace id request ⟫).

Definition start_portfolio_request (prepared : PreparedPortfolioRestRequest) : M RestState bool :=
  if negb (pp_ok prepared) then fail_portfolio_reconciliation (pp_error_message prepared);; mret false
  else
    inflight ← gets (λ s, size (re_inflight_requests s));
    if (kMAX_INFLIGHT_REQUESTS <=? inflight)%nat
    then fail_portfolio_reconciliation "HTTP session at capacity during portfolio reconciliation";; mret false
    else
      started ← http_start (pp_request prepared);
      if negb (bool_decide (started = kSTART_ACCEPTED))
      then fail_portfolio_reconciliation "failed to start portfolio reconciliation HTTP request";; mret false
      else
        file_inflight (hq_request_id (pp_request prepared)) (InflightPortfolio prepared);;
        tally (λ t, t ⟪ et_requests_sent ::= bump ⟫);;
        mret true.

Definition refuse_portfolio (command : RequestPortfolioReconciliation) (error : string) : M RestState unit :=
  now ← rest_now_ns;
  _ ← send_or_defer_oms_event (portfolio_failure command now error);
  mret tt.

Definition handle_portfolio_reconciliation (command : RequestPortfolioReconciliation) : M RestState unit :=
  available ← gets (λ s, re_enabled s && negb (re_faulted s));
  version ← gets re_installed_universe_version;
  active ← gets re_active_portfolio_reconciliation;
  if rr_reconciliation_id command =? 0 then refuse_portfolio command "portfolio reconciliation id is zero"
  else if negb available then refuse_portfolio command "portfolio reconciliation requested while order REST is unavailable"
  else if (rr_universe_version command =? 0) || negb (rr_universe_version command =? version)
  then refuse_portfolio command "portfolio reconciliation universe does not match order REST universe"
  else if bool_decide (is_Some active) then refuse_portfolio command "portfolio reconciliation already active"
  else
    modify (λ s, s ⟪ re_active_portfolio_reconciliation := Some (mkActivePortfolioReconciliation command false false 0 0 []) ⟫);;
    id ← next_portfolio_http_request_id;
    _ ← start_portfolio_request (prepare_portfolio_balance_request command id);
    mret tt.

Definition maybe_finish_portfolio_reconciliation : M RestState unit :=
  active ← gets re_active_portfolio_reconciliation;
  match active with
  | None => mret tt
  | Some active =>
      if negb (ap_balance_complete active) || negb (ap_positions_complete active) then mret tt
      else
        modify (λ s, s ⟪ re_active_portfolio_reconciliation := None ⟫);;
        tally (λ t, t ⟪ et_last_portfolio_reconciliation_error := ""%string ⟫);;
        now ← rest_now_ns;
        let command := ap_command active in
        sent ← send_or_defer_oms_event (KePortfolio (mkVenuePortfolioSnapshot (rr_reconciliation_id command) (rr_universe_version command)
          kRECONCILIATION_COMPLETE (ap_available_balance_ticks active) (ap_portfolio_value_ticks active) (ap_positions active)
          (rr_submission_ts_ns command) now ""));
        when (negb sent) (fault "unable to deliver portfolio reconciliation to OMS")
  end.

Definition complete_portfolio_request (prepared : PreparedPortfolioRestRequest) (response : HttpResponse) : M RestState unit :=
  active ← gets re_active_portfolio_reconciliation;
  adapter ← gets re_order_rest_adapter;
  match active with
  | None => fault "received stale or unknown portfolio reconciliation response"
  | Some active =>
      if negb (rr_reconciliation_id (ap_command active) =? pp_reconciliation_id prepared)
      then fault "received stale or unknown portfolio reconciliation response"
      else if bool_decide (pp_kind prepared = kBALANCE) then
        let completed := complete_portfolio_balance_request prepared response in
        if negb (cbal_ok completed) then fail_portfolio_reconciliation (cbal_error_message completed)
        else
          modify (λ s, s ⟪ re_active_portfolio_reconciliation := Some (active ⟪ ap_available_balance_ticks := cbal_available_balance_ticks completed ⟫
            ⟪ ap_portfolio_value_ticks := cbal_portfolio_value_ticks completed ⟫ ⟪ ap_balance_complete := true ⟫) ⟫);;
          id ← next_portfolio_http_request_id;
          _ ← start_portfolio_request (prepare_portfolio_positions_request (ap_command active) id "");
          mret tt
      else
        let completed := complete_portfolio_positions_request adapter prepared response in
        if negb (cpos_ok completed) then fail_portfolio_reconciliation (cpos_error_message completed)
        else
          let active := active ⟪ ap_positions ::= λ l, l ++ cpos_positions completed ⟫ in
          if negb (bool_decide (cpos_next_cursor completed = ""%string)) then
            modify (λ s, s ⟪ re_active_portfolio_reconciliation := Some active ⟫);;
            id ← next_portfolio_http_request_id;
            _ ← start_portfolio_request (prepare_portfolio_positions_request (ap_command active) id (cpos_next_cursor completed));
            mret tt
          else
            modify (λ s, s ⟪ re_active_portfolio_reconciliation := Some (active ⟪ ap_positions_complete := true ⟫) ⟫);;
            maybe_finish_portfolio_reconciliation
  end.

(** ** Commands of the OMS *)

Definition handle_close_egress (shutdown_epoch : Z) : M RestState unit :=
  closed ← gets re_egress_closed;
  epoch ← gets re_shutdown_epoch;
  if closed : bool then
    when (negb (epoch =? shutdown_epoch)) (fault "Received CloseOrderRestEgress with mismatched shutdown_epoch")
  else if shutdown_epoch =? 0 then fault "Received CloseOrderRestEgress with shutdown_epoch=0"
  else
    modify (λ s, s ⟪ re_egress_closed := true ⟫ ⟪ re_shutdown_epoch := shutdown_epoch ⟫ ⟪ re_enabled := false ⟫
                   ⟪ re_pending_ready_notification := false ⟫ ⟪ re_pending_fault_notification := false ⟫);;
    try_send_pending_control_notifications.

Definition reject (prepared : PreparedOrderRestRequest) (reason : string) : M RestState unit := _ ← emit_local_reject prepared reason; mret tt.

(** A command that is sent as one request. *)
Definition send_order_command (command : OmsToKalshiCommand) : M RestState unit :=
  adapter ← gets re_order_rest_adapter;
  enabled ← gets re_enabled;
  let prepared := prepare_command adapter command in
  if negb (po_ok prepared) then reject prepared (po_error_message prepared)
  else if negb enabled then reject prepared "Order REST session is disabled"
  else
    let request_id := hq_request_id (po_request prepared) in
    duplicate ← gets (λ s, bool_decide (is_Some (re_inflight_requests s !! request_id)));
    if duplicate : bool then reject prepared "Duplicate request_id in flight"
    else
      started ← http_start (po_request prepared);
      match started with
      | kSTART_ACCEPTED => file_inflight request_id (InflightOrder prepared);; tally (λ t, t ⟪ et_requests_sent ::= bump ⟫)
      | kSTART_AT_CAPACITY => reject prepared "HTTP session at capacity"
      | kSTART_CLOSED => reject prepared "HTTP session closed"
      | kSTART_ERROR =>
          error ← gets (λ s, http_last_error (re_http_session s));
          reject prepared ("HTTP session error: " +:+ error)%string
      end.

Definition handle_oms_command (command : OmsToKalshiCommand) : M RestState unit :=
  tally (λ t, t ⟪ et_commands_received ::= bump ⟫);;
  match command with
  | KcClose _ _ shutdown_epoch => handle_close_egress shutdown_epoch
  | KcReconcile c => handle_portfolio_reconciliation c
  | _ => send_order_command command
  end.

Definition pop_oms : M RestState (option OmsToKalshiCommand) := λ s,
  match re_oms_to_order_rest_queue s with
  | [] => (None, s)
  | x :: q => (x, s ⟪ re_oms_to_order_rest_queue := q ⟫)
  end.
Fixpoint oms_loop (fuel : nat) : M RestState unit :=
  match fuel with
  | O => mret tt
  | S fuel' =>
      open ← gets (λ s, negb (re_egress_closed s) && (size (re_inflight_requests s) <? kMAX_INFLIGHT_REQUESTS)%nat);
      if negb open then mret tt
      else
        command ← pop_oms;
        match command with
        | None => mret tt
        | Some command => handle_oms_command command;; oms_loop fuel'
        end
  end.
Definition drain_oms_commands : M RestState unit :=
  fuel ← gets (λ s, length (re_oms_to_order_rest_queue s));
  oms_loop fuel.

(** ** Responses *)

Definition http_poll_once : M RestState HttpPollResult := λ s,
  let '(r, h) := http_poll (re_http_session s) in (r, s ⟪ re_http_session := h ⟫).
Definition take_inflight (id : Z) : M RestState (option InflightRequest) := λ s,
  (re_inflight_requests s !! id, s ⟪ re_inflight_requests ::= delete id ⟫).

(** The event for the OMS, and whether the response was good. *)
Definition complete_order (prepared : PreparedOrderRestRequest) (response : HttpResponse) : bool * KalshiToOmsEvent :=
  if bool_decide (po_command_kind prepared = kSUBMIT_ORDER_BATCH) then
    let completed := complete_batch_request prepared response in (cb_ok completed, KeRestBatch (cb_response completed))
  else
    let completed := complete_request prepared response in (co_ok completed, KeRest (co_response completed)).

Fixpoint receive_http (max_batch_size : nat) : M RestState unit :=
  match max_batch_size with
  | O => mret tt
  | S rest =>
      poll_result ← http_poll_once;
      if negb (bool_decide (hp_status poll_result = kHTTP_COMPLETED)) then mret tt
      else
        match hp_response poll_result with
        | None => fault "HttpPollResult has no response when status is COMPLETED"
        | Some response =>
            inflight ← take_inflight (hs_request_id response);
            match inflight with
            | None => fault "Received HTTP response for unknown request_id"
            | Some (InflightPortfolio prepared) =>
                tally (λ t, t ⟪ et_responses_received ::= bump ⟫);;
                complete_portfolio_request prepared response;;
                receive_http rest
            | Some (InflightOrder prepared) =>
                tally (λ t, t ⟪ et_responses_received ::= bump ⟫);;
                let '(ok, event) := complete_order prepared response in
                when (negb ok) (tally (λ t, t ⟪ et_requests_failed ::= bump ⟫));;
                sent ← send_or_defer_oms_event event;
                if negb sent then
                  fault (if bool_decide (po_command_kind prepared = kSUBMIT_ORDER_BATCH)
                         then "pending OMS event queue full, unable to send batch response to OMS"
                         else "pending OMS event queue full, unable to send response to OMS")
                else receive_http rest
            end
        end
  end.

(** ** The thread *)

Definition finish_egress_drain : M RestState unit :=
  waiting ← gets (λ s, negb (re_egress_closed s) || re_drain_marker_sent s || negb (bool_decide (re_inflight_requests s = ∅)) || (0 <? re_pending_oms_count s));
  if waiting : bool then mret tt
  else
    epoch ← gets re_shutdown_epoch;
    now ← rest_now_ns;
    sent ← send_or_defer_oms_event (KeDrained (mkOrderRestEgressDrained epoch now));
    if negb sent then fault "Failed to send OrderRestEgressDrained event to OMS"
    else modify (λ s, s ⟪ re_drain_marker_sent := true ⟫).

Definition maybe_send_telemetry : M RestState unit :=
  try_send_pending_control_notifications;;
  now ← (λ s, (clk (re_clock_reads s), s ⟪ re_clock_reads ::= S ⟫));
  next ← gets re_next_telemetry_send;
  if now <? next then mret tt
  else
    modify (λ s, s ⟪ re_next_telemetry_send := now + kORDER_REST_TELEMETRY_INTERVAL ⟫);;
    telemetry ← gets re_telemetry;
    _ ← try_push_control_status (OrTelemetry telemetry);
    mret tt.

(** One round of [run]; the yield is left out. *)
Definition run_once : M RestState unit :=
  drain_control_commands;;
  drain_pending_oms_events;;
  receive_http kMAX_HTTP_POLL_BATCH_SIZE;;
  finish_egress_drain;;
  open ← gets (λ s, re_enabled s && negb (re_faulted s) && (re_pending_oms_count s =? 0));
  when open drain_oms_commands;;
  maybe_send_telemetry.
End RestSession.
End RestSession.
