(* ===== verification/RestSettled.v ===== *)
(** * RestSettled: every command is answered once

    The OMS owes its strategies an answer for every command it hands to the REST session.  This
    file keeps the account: a command taken from the OMS's queue is answered by one event, or
    its request is in flight, or its answer was lost because both the queue and the ring buffer
    of waiting events were full. *)

From S2P Require Import Prelude Spsc Ring ShardTypes WireTypes OmsTypes RestTypes RestAdapter ControlPlaneTypes RestSession.
Open Scope Z_scope.

Module RestSettled.
Import RestAdapter RestSession.

(** ** Duties *)

(** What has to be answered: an order command, by its request, or a reconciliation. *)
Inductive Duty := | OrderDuty (oms_request_id : Z) | PortfolioDuty (reconciliation_id : Z).

Definition command_duty (c : OmsToKalshiCommand) : list Duty :=
  match c with
  | KcClose _ _ _ => []
  | KcReconcile r => [PortfolioDuty (rr_reconciliation_id r)]
  | c => [OrderDuty (command_request_id c)]
  end.
Definition event_duty (e : KalshiToOmsEvent) : list Duty :=
  match e with
  | KeRest m => [OrderDuty (cx_oms_request_id (ro_context m))]
  | KeRestBatch m => [OrderDuty (rb_batch_oms_request_id m)]
  | KePortfolio m => [PortfolioDuty (vs_reconciliation_id m)]
  | _ => []
  end.
Definition inflight_duty (r : InflightRequest) : list Duty :=
  match r with InflightOrder p => [OrderDuty (command_request_id (po_source_command p))] | InflightPortfolio _ => [] end.
Definition active_duty (a : option ActivePortfolioReconciliation) : list Duty :=
  match a with Some a => [PortfolioDuty (rr_reconciliation_id (ap_command a))] | None => [] end.

(** Any event but the last one, which tells the OMS that all is answered. *)
Definition plain (e : KalshiToOmsEvent) : Prop := match e with KeDrained _ => False | _ => True end.

(** Commands as the OMS's types allow them: the array of a batch has its size. *)
Definition typed_command (c : OmsToKalshiCommand) : Prop :=
  match c with KcSubmitBatch b => length (sbc_orders b) = kMAX_ORDERS_PER_GROUP | _ => True end.

(** A request that was prepared from a command the adapter accepts. *)
Definition prepared_ok (p : PreparedOrderRestRequest) : Prop :=
  match po_source_command p with
  | KcSubmitBatch c => po_command_kind p = kSUBMIT_ORDER_BATCH ∧ sbc_order_count c ≠ 0 ∧ sbc_order_count c ≤ Z.of_nat (length (sbc_orders c)) ∧
      sbc_order_count c ≤ Z.of_nat kMAX_ORDERS_PER_GROUP
  | KcReconcile _ | KcClose _ _ _ => False
  | _ => po_command_kind p ≠ kSUBMIT_ORDER_BATCH
  end.

(** Accounts of successive stretches add up. *)
Lemma account_trans {A} (r1 r2 o0 o1 o2 m1 m2 l1 l2 : list A) :
  r1 ++ o0 ≡ₚ m1 ++ o1 ++ l1 → r2 ++ o1 ≡ₚ m2 ++ o2 ++ l2 → (r1 ++ r2) ++ o0 ≡ₚ (m1 ++ m2) ++ o2 ++ l1 ++ l2.
Proof.
  intros P1 P2. rewrite <- app_assoc, (Permutation_app_comm r1), <- app_assoc, (Permutation_app_comm o0 r1), P1.
  rewrite (Permutation_app_comm r2), <- !app_assoc, (Permutation_app_comm l1 r2). f_equiv. rewrite !app_assoc, (Permutation_app_comm _ r2), P2.
  rewrite <- !app_assoc. f_equiv. f_equiv. apply Permutation_app_comm.
Qed.

Section Json.
Context `{!NlohmannJson}.

Lemma created_context order_json r :
  match parse_created_order order_json r with CreatedRead r' | CreatedBad _ r' | CreatedThrow _ r' => ro_context r' = ro_context r end.
Proof. unfold parse_created_order, parse_execution_summary. repeat case_match; simplify_eq; done. Qed.

Lemma identify_context command r : cx_oms_request_id (ro_context (identify_response command r)) = command_request_id command.
Proof. unfold identify_response. by repeat case_match. Qed.

Lemma complete_request_context p response : po_command_kind p ≠ kSUBMIT_ORDER_BATCH →
  cx_oms_request_id (ro_context (co_response (complete_request p response))) = command_request_id (po_source_command p).
Proof.
  intros Hk. unfold complete_request. rewrite (bool_decide_eq_false_2 _ Hk). cbv zeta. set (r := default_RestOrderResponse ⟪ _ := _ ⟫ ⟪ _ := _ ⟫ ⟪ _ := _ ⟫ ⟪ _ := _ ⟫ ⟪ _ := _ ⟫).
  pose proof (identify_context (po_source_command p) r) as Hi. set (r' := identify_response _ _) in *. repeat case_match; try exact Hi;
    match goal with E : parse_created_order ?j r' = _ |- _ => pose proof (created_context j r') as Hc; rewrite E in Hc; cbn; rewrite Hc; exact Hi end.
Qed.

Lemma complete_batch_id p response c : po_source_command p = KcSubmitBatch c → prepared_ok p →
  rb_batch_oms_request_id (cb_response (complete_batch_request p response)) = sbc_oms_request_id c.
Proof.
  intros E Hp. unfold prepared_ok in Hp. unfold complete_batch_request. rewrite E in *. destruct Hp as (Hk & H1 & H2 & H3).
  rewrite (bool_decide_eq_true_2 _ Hk), (proj2 (Z.eqb_neq _ _) H1). rewrite (proj2 (Z.ltb_ge (Z.of_nat (length (sbc_orders c))) _) H2).
  change (Z.of_nat (length (rb_order_responses default_RestOrderBatchResponse))) with (Z.of_nat kMAX_ORDERS_PER_GROUP). rewrite (proj2 (Z.ltb_ge _ _) H3). cbn [negb orb].
  repeat case_match; done.
Qed.

(** A response to a request in flight answers its command. *)
Lemma complete_order_duty p response : prepared_ok p → event_duty (complete_order p response).2 = inflight_duty (InflightOrder p).
Proof.
  intros Hp. pose proof Hp as Hp'. unfold prepared_ok in Hp'. unfold complete_order. destruct (po_source_command p) eqn:E; try done.
  1, 3, 4: rewrite bool_decide_eq_false_2 by done; cbn [snd event_duty inflight_duty]; by rewrite complete_request_context.
  destruct Hp' as [Hk _]. rewrite bool_decide_eq_true_2 by done. cbn [snd event_duty inflight_duty]. rewrite (complete_batch_id _ _ c E Hp), E. done.
Qed.

(** A prepared request carries its command and its id. *)
Definition order_command (c : OmsToKalshiCommand) : Prop := match c with KcReconcile _ | KcClose _ _ _ => False | _ => True end.

Lemma prepare_source a c : order_command c → po_source_command (prepare_command a c) = c ∧ hq_request_id (po_request (prepare_command a c)) = command_request_id c.
Proof.
  destruct c; try done; intros _; cbn [prepare_command]; unfold prepare_submit_order, prepare_submit_order_batch, prepare_cancel_order, prepare_modify_order;
    repeat case_match; done.
Qed.
Lemma prepare_ok a c : typed_command c → order_command c → po_ok (prepare_command a c) = true → prepared_ok (prepare_command a c).
Proof.
  intros Ht Ho Hok. unfold prepared_ok. rewrite (proj1 (prepare_source a c Ho)). destruct c as [c|c|c|c| |]; try done; revert Hok; cbn [prepare_command].
  - unfold prepare_submit_order. by repeat case_match.
  - cbn in Ht. unfold prepare_submit_order_batch. destruct ((_ || _) || _); [done|]. destruct (_ || (_ <? _)) eqn:Eg; [done|]. guards.
    destruct (append_orders _ _ _ _); [done|]. intros _. split; [done|]. rewrite Ht in *. lia.
  - unfold prepare_cancel_order. by repeat case_match.
Qed.
Lemma local_reject_duty p reason ts : order_command (po_source_command p) → event_duty (local_reject p reason ts) = command_duty (po_source_command p).
Proof. unfold local_reject. destruct (po_source_command p) eqn:E; try done; intros _; cbn [event_duty command_duty]; by rewrite identify_context. Qed.
Lemma local_reject_plain p reason ts : plain (local_reject p reason ts).
Proof. unfold local_reject. by destruct (po_source_command p). Qed.
Lemma complete_order_plain p response : plain (complete_order p response).2.
Proof. unfold complete_order. by destruct (bool_decide _). Qed.
End Json.

Section RestSettled.
Context {Q : Type → Type} `{HQ : PushQueue Q} {HL : PushQueueLaws Q} {H : Type} `{!HttpSession H} `{!NlohmannJson}.
Variable clk : nat → Z.
Abbreviation RestState := (RestState (Q := Q) (H := H)).
Implicit Types s : RestState.

(** ** The stream to the OMS *)

Definition blank : KalshiToOmsEvent := KeRest default_RestOrderResponse.
Definition pending s : list KalshiToOmsEvent := Ring.window blank (re_pending_oms_events s) (re_pending_oms_head s) (Z.to_nat (re_pending_oms_count s)).
(** What the OMS was sent, and what waits to be sent, in order. *)
Definition stream s : list KalshiToOmsEvent := q_sent (re_order_rest_to_oms_queue s) ++ pending s.
Definition full s : Prop := re_pending_oms_count s = Z.of_nat kMAX_PENDING_OMS_EVENTS.

Record ring_ok s : Prop := {
  ri_size : length (re_pending_oms_events s) = kMAX_PENDING_OMS_EVENTS;
  ri_count : 0 ≤ re_pending_oms_count s ≤ Z.of_nat kMAX_PENDING_OMS_EVENTS;
  ri_tail : re_pending_oms_tail s mod 64 = (re_pending_oms_head s + re_pending_oms_count s) mod 64;
}.

Definition owed s : list Duty := (map_to_list (re_inflight_requests s) ≫= λ x, inflight_duty x.2) ++ active_duty (re_active_portfolio_reconciliation s).

(** Requests in flight are filed under their ids. *)
Definition filed s : Prop := ∀ id p, re_inflight_requests s !! id = Some (InflightOrder p) → prepared_ok p ∧ command_request_id (po_source_command p) = id.

Record inv s : Prop := { iv_ring : ring_ok s; iv_filed : filed s }.

(** The part of the state the account is about. *)
Definition books s := (re_order_rest_to_oms_queue s, re_pending_oms_events s, re_pending_oms_head s, re_pending_oms_tail s, re_pending_oms_count s,
  re_inflight_requests s, re_active_portfolio_reconciliation s).

(** Duties [req] are taken on, and every duty is answered, still owed or lost, the last only
    when no event can wait any more. *)
Definition settles_by (P : KalshiToOmsEvent → Prop) (req : list Duty) s s' : Prop :=
  inv s → inv s' ∧ (full s → full s') ∧ ∃ msgs lost, stream s' = stream s ++ msgs ∧ Forall P msgs ∧
    req ++ owed s ≡ₚ (msgs ≫= event_duty) ++ owed s' ++ lost ∧ (lost ≠ [] → full s').

Abbreviation settles := (settles_by plain).

Lemma settles_weaken (P P' : KalshiToOmsEvent → Prop) req s s' : (∀ e, P e → P' e) → settles_by P req s s' → settles_by P' req s s'.
Proof. intros HP Hs Hi. destruct (Hs Hi) as (I & F & m & l & S & N & R). split; [done|]. split; [done|]. exists m, l. split; [done|]. split; [by eapply Forall_impl|done]. Qed.
Lemma settles_trans P r1 r2 s s1 s2 : settles_by P r1 s s1 → settles_by P r2 s1 s2 → settles_by P (r1 ++ r2) s s2.
Proof.
  intros H1 H2 Hi. destruct (H1 Hi) as (I1 & F1 & m1 & l1 & S1 & N1 & P1 & L1). destruct (H2 I1) as (I2 & F2 & m2 & l2 & S2 & N2 & P2 & L2).
  split; [done|]. split; [auto|]. exists (m1 ++ m2), (l1 ++ l2). split; [by rewrite S2, S1, app_assoc|]. split; [by apply Forall_app|]. split.
  - rewrite bind_app. by eapply account_trans.
  - intros Hne. destruct l1 as [|]; [|by apply F2, L1]. by apply L2.
Qed.
#[local] Instance settles_preorder P : PreOrder (settles_by P []).
Proof.
  split; [|by intros s s1 s2; apply settles_trans]. intros s Hi. split; [done|]. split; [done|]. exists [], []. rewrite !app_nil_r. split_and!; done || constructor.
Qed.
(** What is taken on may be settled by the first part of a method. *)
Lemma settles_bind {A B} r (m : M RestState A) (k : A → M RestState B) s : settles r s (m s).2 → (∀ a, rel (settles []) (k a)) → settles r s ((m ≫= k) s).2.
Proof.
  intros Hm Hk. unfold mbind, M_bind. destruct (m s) as [a s1]. rewrite <- (app_nil_r r). eapply settles_trans; [exact Hm|apply Hk].
Qed.
Lemma settles_books s s' : books s' = books s → settles [] s s'.
Proof.
  unfold books. intros E. apply pair_eq in E as [E E7]. apply pair_eq in E as [E E6]. apply pair_eq in E as [E E5]. apply pair_eq in E as [E E4].
  apply pair_eq in E as [E E3]. apply pair_eq in E as [E1 E2]. intros [[R1 R2 R3] Hf].
  assert (stream s' = stream s) as Es by (unfold stream, pending; by rewrite E1, E2, E3, E5).
  split; [split; [by split; rewrite ?E2, ?E3, ?E4, ?E5|unfold filed; by rewrite E6]|]. split; [unfold full; by rewrite E5|].
  exists [], []. rewrite Es, app_nil_r. split; [done|]. split; [done|]. split; [|done]. unfold owed. by rewrite E6, E7, app_nil_r.
Qed.

(** ** Quiet operations *)

Lemma qu_books {A} (m : M RestState A) : rel (same books) m → rel (settles []) m.
Proof. intros Hm s. by apply settles_books, Hm. Qed.
Lemma bo_control status : rel (same books) (try_push_control_status status).
Proof. intros s. unfold try_push_control_status. by destruct (q_push _ _). Qed.
Lemma bo_tally f : rel (same books) (tally f).
Proof. by intros s. Qed.
Lemma bo_now : rel (same books) (rest_now_ns clk).
Proof. by intros s. Qed.
#[local] Hint Resolve bo_control bo_tally bo_now : frame.
Lemma bo_notify : rel (same books) try_send_pending_control_notifications.
Proof. unfold try_send_pending_control_notifications. rel_auto. Qed.
#[local] Hint Resolve bo_notify : frame.
Lemma bo_disable reason : rel (same books) (disable reason).
Proof. by intros s. Qed.
#[local] Hint Resolve bo_disable : frame.
Lemma bo_fault reason : rel (same books) (fault reason).
Proof. unfold fault. rel_auto. Qed.
#[local] Hint Resolve bo_fault : frame.
Lemma bo_apply_universe snapshot : rel (same books) (apply_universe snapshot).
Proof. unfold apply_universe. rel_auto. Qed.
Lemma bo_warm : rel (same books) (λ s, let '(b, h) := http_warm_up (re_http_session s) in (b, s ⟪ re_http_session := h ⟫)).
Proof. intros s. by destruct (http_warm_up _). Qed.
#[local] Hint Resolve bo_warm : frame.
Lemma bo_enable : rel (same books) enable.
Proof. unfold enable. rel_auto. Qed.
#[local] Hint Resolve bo_apply_universe bo_enable : frame.
Lemma bo_control_command c : rel (same books) (handle_control_command c).
Proof. destruct c; cbn; rel_auto. Qed.
Lemma bo_pop_control : rel (same books) pop_control.
Proof. intros s. unfold pop_control. by destruct (re_control_to_order_rest_queue s). Qed.
#[local] Hint Resolve bo_control_command bo_pop_control : frame.
Lemma bo_drain_control : rel (same books) drain_control_commands.
Proof. unfold drain_control_commands. apply rel_bind; [exact _|rel_auto|]. intros fuel. induction fuel; cbn; rel_auto. Qed.
Lemma bo_close epoch : rel (same books) (handle_close_egress epoch).
Proof. unfold handle_close_egress. rel_auto. Qed.
Lemma bo_telemetry : rel (same books) (maybe_send_telemetry clk).
Proof. unfold maybe_send_telemetry. rel_auto. Qed.
Lemma bo_start request : rel (same books) (http_start request).
Proof. intros s. unfold http_start. by destruct (http_start_request _ _). Qed.
Lemma bo_poll : rel (same books) http_poll_once.
Proof. intros s. unfold http_poll_once. by destruct (http_poll _). Qed.
Lemma bo_next_id : rel (same books) next_portfolio_http_request_id.
Proof. by intros s. Qed.
Lemma bo_pop_oms : rel (same books) pop_oms.
Proof. intros s. unfold pop_oms. by destruct (re_oms_to_order_rest_queue s). Qed.

(** ** Sending events *)

(** [e] is sent or waits; or it is lost. *)
Definition emits e (b : bool) s s' : Prop :=
  inv s' ∧ (full s → full s') ∧ re_inflight_requests s' = re_inflight_requests s ∧
  re_active_portfolio_reconciliation s' = re_active_portfolio_reconciliation s ∧
  if b then stream s' = stream s ++ [e] else stream s' = stream s ∧ full s'.

Lemma defer_emits e s : inv s → wp (defer_oms_event e) (λ b s', emits e b s s') s.
Proof.
  intros [[R1 R2 R3] Hf]. unfold wp, defer_oms_event. rewrite R1. change (Z.of_nat kMAX_PENDING_OMS_EVENTS) with 64 in *. destruct (Z.leb_spec 64 (re_pending_oms_count s)) as [Hc|Hc]; cbn [fst snd].
  - assert (full s) by (unfold full; change (Z.of_nat kMAX_PENDING_OMS_EVENTS) with 64; lia). by split_and!.
  - assert (slot (re_pending_oms_tail s) s =
        Z.to_nat ((re_pending_oms_head s + Z.of_nat (Z.to_nat (re_pending_oms_count s))) mod Z.of_nat (length (re_pending_oms_events s)))) as Hslot.
    { unfold slot. rewrite R1. change (Z.of_nat kMAX_PENDING_OMS_EVENTS) with 64. f_equal. rewrite R3. f_equal. lia. }
    assert (bump (re_pending_oms_count s) = re_pending_oms_count s + 1) as Hb by (unfold bump; apply u64_id; unfold is_u64; lia).
    split_and!; try done.
    + split; [|done]. split; cbn; [by rewrite length_insert|change (Z.of_nat kMAX_PENDING_OMS_EVENTS) with 64; rewrite Hb; lia|]. rewrite Hb. unfold bump. rewrite (u64_mod_pow2 _ 6 ltac:(lia)). change (2 ^ 6) with 64.
      rewrite Z.add_assoc, (Zplus_mod (re_pending_oms_tail s)), R3, <- Zplus_mod. done.
    + unfold full. change (Z.of_nat kMAX_PENDING_OMS_EVENTS) with 64. lia.
    + unfold stream, pending. cbn. rewrite <- app_assoc. f_equal. rewrite Hb, Hslot. replace (Z.to_nat (re_pending_oms_count s + 1)) with (S (Z.to_nat (re_pending_oms_count s))) by lia.
      apply Ring.window_push. rewrite R1. unfold kMAX_PENDING_OMS_EVENTS. lia.
Qed.

Lemma emits_tally e b s s' f : emits e b s s' → emits e b s (s' ⟪ re_telemetry ::= f ⟫).
Proof. intros ([[R1 R2 R3] Hf] & F & E1 & E2 & L). split_and!; [by split|done..]. Qed.

Lemma send_emits e s : inv s → wp (send_or_defer_oms_event e) (λ b s', emits e b s s') s.
Proof.
  intros Hi. unfold send_or_defer_oms_event. wp_steps. destruct (0 <? re_pending_oms_count s) eqn:Ec.
  - wp_step. eapply wp_mono; [by apply defer_emits|]. cbv beta. intros b s' He. destruct b; [by wp_step|]. by apply emits_tally.
  - destruct Hi as [[R1 R2 R3] Hf]. apply Z.ltb_ge in Ec. assert (re_pending_oms_count s = 0) as E0 by lia. assert (pending s = []) as Ep by (unfold pending; by rewrite E0).
    wp_step. unfold wp at 1. unfold push_oms. pose proof (push_sent e (re_order_rest_to_oms_queue s)) as Hs. destruct (q_push e _) as [b q]. cbn [fst snd] in *. destruct b.
    + wp_step. split_and!; try done. unfold stream. rewrite Ep, app_nil_r. cbn. rewrite Hs. unfold pending. cbn. by rewrite E0, app_nil_r.
    + wp_step. unfold wp at 1. cbn [tally modify fst snd]. set (s1 := s ⟪ _ := _ ⟫ ⟪ _ ::= _ ⟫). assert (stream s1 = stream s) as E1 by (unfold stream, pending; cbn; by rewrite Hs).
      eapply wp_mono; [by apply defer_emits|]. cbv beta. intros b s' (E & F & G & K & L). split_and!; try done. destruct b; by rewrite L, E1 || by destruct L as [-> ?]; rewrite E1.
Qed.

(** Sending an answer settles its duty. *)
Lemma emits_settles e b s s' : plain e → emits e b s s' → settles (event_duty e) s s'.
Proof.
  intros Hp (Hi & Hf & E1 & E2 & Hs) _. split; [done|]. split; [done|]. assert (owed s' = owed s) as Eo by (unfold owed; by rewrite E1, E2). destruct b.
  - exists [e], []. cbn. rewrite app_nil_r, app_nil_r, Eo. split; [done|]. split; [by repeat constructor|done].
  - destruct Hs as [Hs Hfull]. exists [], (event_duty e). rewrite app_nil_r, Eo. split; [done|]. split; [done|]. split; [|done]. cbn. apply Permutation_app_comm.
Qed.
Lemma send_settles e : plain e → rel (settles (event_duty e)) (send_or_defer_oms_event e).
Proof. intros Hp s Hi. pose proof (send_emits e s Hi) as He. unfold wp in He. by eapply emits_settles. Qed.

(** A duty leaves the books, to be answered. *)
Definition releases (d : list Duty) s s' : Prop :=
  inv s → inv s' ∧ (full s → full s') ∧ stream s' = stream s ∧ owed s ≡ₚ d ++ owed s'.
Lemma releases_settles d s s1 s2 : releases d s s1 → settles d s1 s2 → settles [] s s2.
Proof.
  intros Hr Hs Hi. destruct (Hr Hi) as (I1 & F1 & S1 & P1). destruct (Hs I1) as (I2 & F2 & m & l & S2 & N2 & P2 & L2). split; [done|]. split; [auto|].
  exists m, l. split; [by rewrite S2, S1|]. split; [done|]. split; [|done]. by rewrite P1.
Qed.

(** ** The portfolio *)

Lemma release_active s : releases (active_duty (re_active_portfolio_reconciliation s)) s (s ⟪ re_active_portfolio_reconciliation := None ⟫).
Proof. intros [[R1 R2 R3] Hf]. split; [by split|]. split; [done|]. split; [done|]. unfold owed. cbn. rewrite app_nil_r. apply Permutation_app_comm. Qed.
Lemma set_active a s s' : s' = s ⟪ re_active_portfolio_reconciliation := Some a ⟫ →
  active_duty (re_active_portfolio_reconciliation s) = active_duty (Some a) → settles [] s s'.
Proof.
  intros -> E [[R1 R2 R3] Hf]. split; [by split|]. split; [done|]. exists [], []. cbn. rewrite app_nil_r. split; [done|]. split; [done|]. split; [|done]. unfold owed. cbn.
  by rewrite E, app_nil_r.
Qed.

Lemma fail_settles reason : rel (settles []) (fail_portfolio_reconciliation clk reason).
Proof.
  intros s. unfold fail_portfolio_reconciliation, mbind, M_bind, gets. destruct (re_active_portfolio_reconciliation s) as [a|] eqn:Ea; [|reflexivity].
  unfold tally, modify, rest_now_ns. cbv beta iota. set (s1 := s ⟪ _ ::= _ ⟫). set (s2 := s1 ⟪ _ := _ ⟫). set (s3 := s2 ⟪ _ ::= _ ⟫ ⟪ _ ::= _ ⟫). set (e := portfolio_failure _ _ _).
  etrans; [by apply (settles_books s s1)|]. eapply (releases_settles [PortfolioDuty (rr_reconciliation_id (ap_command a))]).
  { intros Hi. pose proof (release_active s1 Hi) as Hr. change (re_active_portfolio_reconciliation s1) with (re_active_portfolio_reconciliation s) in Hr. rewrite Ea in Hr. exact Hr. }
  change [PortfolioDuty _] with ([] ++ event_duty e ++ []). apply (settles_trans _ _ _ _ s3); [by apply settles_books|].
  pose proof (send_settles e I s3) as Hs. destruct (send_or_defer_oms_event e s3) as [b s4]. eapply settles_trans; [exact Hs|].
  destruct b; [reflexivity|]. apply qu_books, bo_fault.
Qed.
#[local] Hint Resolve fail_settles : frame.

Lemma qu_control status : rel (settles []) (try_push_control_status status). Proof. apply qu_books, bo_control. Qed.
Lemma qu_tally f : rel (settles []) (tally f). Proof. apply qu_books, bo_tally. Qed.
Lemma qu_now : rel (settles []) (rest_now_ns clk). Proof. apply qu_books, bo_now. Qed.
Lemma qu_fault reason : rel (settles []) (fault reason). Proof. apply qu_books, bo_fault. Qed.
Lemma qu_start request : rel (settles []) (http_start request). Proof. apply qu_books, bo_start. Qed.
Lemma qu_poll : rel (settles []) http_poll_once. Proof. apply qu_books, bo_poll. Qed.
Lemma qu_next_id : rel (settles []) next_portfolio_http_request_id. Proof. apply qu_books, bo_next_id. Qed.
#[local] Hint Resolve qu_control qu_tally qu_now qu_fault qu_start qu_poll qu_next_id : frame.

(** Filing a request under a free id; one in use keeps its request. *)
Lemma file_settles id r s : (∀ p, r = InflightOrder p → prepared_ok p ∧ command_request_id (po_source_command p) = id) → 
  (re_inflight_requests s !! id = None ∨ inflight_duty r = []) → settles (inflight_duty r) s (file_inflight id r s).2.
Proof.
  intros Hr Hfree [[R1 R2 R3] Hf]. unfold file_inflight, modify, emplace. cbn [fst snd]. split; [split; [by split|]|split; [done|]].
  - intros id' p. cbn. destruct (re_inflight_requests s !! id) eqn:E; [apply Hf|]. destruct (decide (id' = id)) as [->|].
    + rewrite lookup_insert_eq. intros [= ->]. by apply Hr.
    + rewrite lookup_insert_ne by done. apply Hf.
  - exists [], []. rewrite !app_nil_r. split; [done|]. split; [done|]. split; [|done]. unfold owed. cbn. destruct (re_inflight_requests s !! id) eqn:E.
    + destruct Hfree as [Hn| ->]; [congruence|done].
    + rewrite map_to_list_insert by done. cbn. by rewrite app_assoc.
Qed.

Lemma start_settles prepared : rel (settles []) (start_portfolio_request clk prepared).
Proof.
  unfold start_portfolio_request. rel_auto. intros s. refine (file_settles _ (InflightPortfolio prepared) s _ _); [done|by right].
Qed.
#[local] Hint Resolve start_settles : frame.

Lemma refuse_settles c error : rel (settles [PortfolioDuty (rr_reconciliation_id c)]) (refuse_portfolio clk c error).
Proof.
  intros s. unfold refuse_portfolio, mbind, M_bind, rest_now_ns. cbv beta iota. set (s1 := s ⟪ _ ::= _ ⟫). set (e := portfolio_failure _ _ _).
  change [PortfolioDuty _] with ([] ++ event_duty e). apply (settles_trans _ _ _ _ s1); [by apply settles_books|]. pose proof (send_settles e I s1) as Hs.
  by destruct (send_or_defer_oms_event e s1).
Qed.

Lemma handle_portfolio_settles c : rel (settles [PortfolioDuty (rr_reconciliation_id c)]) (handle_portfolio_reconciliation clk c).
Proof.
  intros s. unfold handle_portfolio_reconciliation, mbind at 1 2 3, M_bind at 1 2 3, gets. cbv beta iota.
  destruct (_ =? 0); [apply refuse_settles|]. destruct (negb _); [apply refuse_settles|]. destruct (_ || _); [apply refuse_settles|].
  destruct (bool_decide (is_Some _)) eqn:Ea; [apply refuse_settles|]. apply bool_decide_eq_false, eq_None_not_Some in Ea.
  unfold mbind at 1, M_bind at 1, modify. cbv beta iota. set (a := mkActivePortfolioReconciliation _ _ _ _ _ _). set (s1 := s ⟪ _ := _ ⟫).
  change [PortfolioDuty _] with ([PortfolioDuty (rr_reconciliation_id c)] ++ []). apply (settles_trans _ _ _ _ s1).
  - intros [[R1 R2 R3] Hf]. split; [by split|]. split; [done|]. exists [], []. rewrite !app_nil_r. split; [done|]. split; [done|]. split; [|done]. unfold owed. cbn. rewrite Ea, app_nil_r.
    cbn. by rewrite Permutation_app_comm.
  - generalize s1. change (rel (settles []) (id ← next_portfolio_http_request_id; _ ← start_portfolio_request clk (prepare_portfolio_balance_request c id); mret tt)). rel_auto.
Qed.

Lemma finish_settles : rel (settles []) (maybe_finish_portfolio_reconciliation clk).
Proof.
  intros s. unfold maybe_finish_portfolio_reconciliation, mbind, M_bind, gets. destruct (re_active_portfolio_reconciliation s) as [a|] eqn:Ea; [|reflexivity].
  destruct (_ || _); [reflexivity|]. unfold tally, modify, rest_now_ns. cbv beta iota. set (s1 := s ⟪ _ := _ ⟫). set (s2 := s1 ⟪ _ ::= _ ⟫ ⟪ _ ::= _ ⟫). set (e := KePortfolio _).
  eapply (releases_settles [PortfolioDuty (rr_reconciliation_id (ap_command a))]).
  { pose proof (release_active s) as Hr. rewrite Ea in Hr. exact Hr. }
  change [PortfolioDuty _] with ([] ++ event_duty e ++ []). apply (settles_trans _ _ _ _ s2); [by apply settles_books|].
  pose proof (send_settles e I s2) as Hs. destruct (send_or_defer_oms_event e s2) as [b s3]. eapply settles_trans; [exact Hs|]. destruct b; [reflexivity|apply qu_fault].
Qed.
#[local] Hint Resolve finish_settles : frame.

Lemma complete_portfolio_settles prepared response : rel (settles []) (complete_portfolio_request clk prepared response).
Proof.
  intros s. unfold complete_portfolio_request, mbind at 1 2, M_bind at 1 2, gets. cbv beta iota. destruct (re_active_portfolio_reconciliation s) as [a|] eqn:Ea; [|apply qu_fault].
  assert (∀ A (a' : ActivePortfolioReconciliation) (k : M RestState A), ap_command a' = ap_command a → rel (settles []) k →
    settles [] s ((modify (λ s, s ⟪ re_active_portfolio_reconciliation := Some a' ⟫);; k) s).2) as Hset.
  { intros A a' k E Hk. etrans; [by apply (set_active a' s _ eq_refl); rewrite Ea; cbn; rewrite E|]. apply Hk. }
  destruct (negb _); [apply qu_fault|]. destruct (bool_decide _); [destruct (negb _); [apply fail_settles|]; apply Hset; [done|rel_auto]|].
  destruct (negb _); [apply fail_settles|]. cbv zeta. destruct (negb _); apply Hset; try done; rel_auto.
Qed.
#[local] Hint Resolve complete_portfolio_settles : frame.

(** ** Orders *)

Lemma reject_settles p reason : order_command (po_source_command p) → rel (settles (command_duty (po_source_command p))) (reject clk p reason).
Proof.
  intros Ho s. unfold reject, emit_local_reject, mbind, M_bind, rest_now_ns, tally, modify. cbv beta iota. set (s1 := s ⟪ _ ::= _ ⟫ ⟪ _ ::= _ ⟫). set (e := local_reject _ _ _).
  rewrite <- (local_reject_duty p reason (u64 (clk (re_clock_reads s))) Ho : event_duty e = _). change (event_duty e) with ([] ++ event_duty e).
  apply (settles_trans _ _ _ _ s1); [by apply settles_books|]. pose proof (send_settles e (local_reject_plain _ _ _) s1) as Hs. by destruct (send_or_defer_oms_event e s1).
Qed.

Lemma order_settles c : typed_command c → order_command c → rel (settles (command_duty c)) (send_order_command clk c).
Proof.
  intros Ht Ho s. unfold send_order_command, mbind at 1 2, M_bind at 1 2, gets. cbv beta iota zeta. set (p := prepare_command _ c).
  destruct (prepare_source (re_order_rest_adapter s) c Ho) as [Hsrc Hid]. fold p in Hsrc, Hid.
  assert (∀ reason s1, settles (command_duty c) s1 (reject clk p reason s1).2) as Hrej.
  { intros reason s1. pose proof (reject_settles p reason ltac:(by rewrite Hsrc) s1) as Hr. by rewrite Hsrc in Hr. }
  destruct (po_ok p) eqn:Hok; cbn [negb]; [|apply Hrej]. destruct (negb _); [apply Hrej|]. unfold mbind at 1, M_bind at 1. cbv beta iota.
  destruct (bool_decide _) eqn:Ed; [apply Hrej|]. apply bool_decide_eq_false, eq_None_not_Some in Ed.
  unfold mbind at 1, M_bind at 1. pose proof (bo_start (po_request p) s) as Hb. destruct (http_start (po_request p) s) as [started s1]. cbn [snd] in Hb.
  change (command_duty c) with ([] ++ command_duty c). apply (settles_trans _ _ _ _ s1); [by apply settles_books|]. destruct started; [|apply Hrej..|].
  - assert (command_duty c = inflight_duty (InflightOrder p)) as Hd by (cbn [inflight_duty]; rewrite Hsrc; by destruct c). rewrite Hd.
    assert (re_inflight_requests s1 = re_inflight_requests s) as Ei.
    { unfold same, books in Hb. apply pair_eq in Hb as [Hb _]. by apply pair_eq in Hb as [_ Hb]. }
    assert (settles (inflight_duty (InflightOrder p)) s1 (file_inflight (hq_request_id (po_request p)) (InflightOrder p) s1).2) as Hf.
    { apply file_settles; [|left; by rewrite Ei]. intros p' [= <-]. split; [by apply prepare_ok|]. by rewrite Hsrc, Hid. }
    apply settles_bind; [exact Hf|intros; apply qu_tally].
  - unfold mbind, M_bind. cbv beta iota. apply Hrej.
Qed.

Lemma handle_oms_settles c : typed_command c → rel (settles (command_duty c)) (handle_oms_command clk c).
Proof.
  intros Ht s. unfold handle_oms_command, mbind, M_bind, tally, modify. set (s1 := s ⟪ _ ::= _ ⟫).
  change (command_duty c) with ([] ++ command_duty c). apply (settles_trans _ _ _ _ s1); [by apply settles_books|].
  destruct c; try (by apply order_settles); [apply handle_portfolio_settles|]. apply qu_books, bo_close.
Qed.

(** ** Rounds *)

(** Commands [taken] were popped and settled. *)
Definition serves_by P s s' : Prop :=
  Forall typed_command (omap id (re_oms_to_order_rest_queue s)) →
  ∃ taken, re_oms_to_order_rest_queue s = taken ++ re_oms_to_order_rest_queue s' ∧ settles_by P (omap id taken ≫= command_duty) s s'.
Abbreviation serves := (serves_by plain).

Definition oms_input s := re_oms_to_order_rest_queue s.
Lemma serves_input P s s' : oms_input s' = oms_input s → settles_by P [] s s' → serves_by P s s'.
Proof. intros E Hs _. exists []. by split. Qed.
#[local] Instance serves_preorder P : PreOrder (serves_by P).
Proof.
  split; [intros s; by apply serves_input|]. intros s s1 s2 H1 H2 Ht. destruct (H1 Ht) as (t1 & E1 & S1). rewrite E1, omap_app, Forall_app in Ht.
  destruct (H2 (proj2 Ht)) as (t2 & E2 & S2). exists (t1 ++ t2). split; [by rewrite E1, E2, app_assoc|]. rewrite omap_app, bind_app. by eapply settles_trans.
Qed.

Lemma in_emits e : rel (same oms_input) (send_or_defer_oms_event e).
Proof.
  assert (rel (same oms_input) (defer_oms_event e)) as Hd by (intros s; unfold defer_oms_event; by destruct (_ <=? _)).
  assert (rel (same oms_input) (push_oms e)) as Hp by (intros s; unfold push_oms; by destruct (q_push _ _)).
  unfold send_or_defer_oms_event, tally. rel_auto.
Qed.
Lemma in_control status : rel (same oms_input) (try_push_control_status status).
Proof. intros s. unfold try_push_control_status. by destruct (q_push _ _). Qed.
Lemma in_start request : rel (same oms_input) (http_start request).
Proof. intros s. unfold http_start. by destruct (http_start_request _ _). Qed.
#[local] Hint Resolve in_emits in_control in_start : frame.
Lemma in_fault reason : rel (same oms_input) (fault reason).
Proof. unfold fault, disable, try_send_pending_control_notifications. rel_auto. Qed.
#[local] Hint Resolve in_fault : frame.
Lemma in_fail reason : rel (same oms_input) (fail_portfolio_reconciliation clk reason).
Proof. unfold fail_portfolio_reconciliation, tally. rel_auto. Qed.
#[local] Hint Resolve in_fail : frame.
Lemma in_start_portfolio p : rel (same oms_input) (start_portfolio_request clk p).
Proof. unfold start_portfolio_request, tally, file_inflight. rel_auto. Qed.
#[local] Hint Resolve in_start_portfolio : frame.
Lemma in_handle c : rel (same oms_input) (handle_oms_command clk c).
Proof.
  unfold handle_oms_command, tally, handle_close_egress, try_send_pending_control_notifications, handle_portfolio_reconciliation, refuse_portfolio, send_order_command,
    reject, emit_local_reject, file_inflight, tally. rel_auto.
Qed.

Lemma oms_loop_serves fuel : rel serves (oms_loop clk fuel).
Proof.
  induction fuel as [|fuel IH]; [intros s; reflexivity|]. intros s. cbn [oms_loop]. unfold mbind, M_bind, gets. destruct (negb _); [reflexivity|].
  unfold pop_oms. destruct (re_oms_to_order_rest_queue s) as [|[c|] q] eqn:Eq; [reflexivity| |].
  - set (s1 := s ⟪ _ := _ ⟫). pose proof (in_handle c s1) as Hi. pose proof (handle_oms_settles c) as Hs. destruct (handle_oms_command clk c s1) as [u s2] eqn:Eh.
    etrans; [|apply IH]. intros Ht. rewrite Eq in Ht. cbn in Ht. inversion Ht; subst. exists [Some c]. unfold same, oms_input in Hi. cbn [snd] in Hi. rewrite Hi. split; [done|].
    cbn. rewrite app_nil_r. change (command_duty c) with ([] ++ command_duty c). apply (settles_trans _ _ _ _ s1); [by apply settles_books|].
    specialize (Hs ltac:(done) s1). by rewrite Eh in Hs.
  - set (s1 := s ⟪ _ := _ ⟫). intros _. exists [None]. split; [done|]. by apply settles_books.
Qed.

Lemma take_releases id s r : re_inflight_requests s !! id = Some r → releases (inflight_duty r) s (take_inflight id s).2.
Proof.
  intros Hr [[R1 R2 R3] Hf]. unfold take_inflight. cbn [snd]. split; [split; [by split|]|].
  - intros id' p. cbn. intros [_ Hp]%lookup_delete_Some. by apply Hf.
  - split; [done|]. split; [done|]. unfold owed. cbn. rewrite <- (map_to_list_delete _ _ _ Hr). cbn. by rewrite app_assoc.
Qed.

Lemma receive_settles n : rel (settles []) (receive_http clk n).
Proof.
  induction n as [|n IH]; [intros s; reflexivity|]. intros s. cbn [receive_http]. unfold mbind at 1, M_bind at 1. pose proof (qu_poll s) as Hp. destruct (http_poll_once s) as [poll s1].
  etrans; [exact Hp|]. clear Hp. cbn [snd]. destruct (negb _); [reflexivity|]. destruct (hp_response poll) as [response|]; [|apply qu_fault].
  unfold mbind at 1, M_bind at 1. pose proof (take_releases (hs_request_id response) s1) as Ht. unfold take_inflight in *. cbn [snd] in Ht. set (s2 := s1 ⟪ _ ::= _ ⟫) in *.
  destruct (re_inflight_requests s1 !! hs_request_id response) as [[p|p]|] eqn:Er.
  - specialize (Ht _ eq_refl). intros Hi. pose proof (iv_filed _ Hi _ _ Er) as [Hok _]. revert Hi. eapply releases_settles; [exact Ht|]. rewrite <- (complete_order_duty p response Hok).
    pose proof (complete_order_plain p response) as Hpl. destruct (complete_order p response) as [ok e]. cbn [snd] in *. clear Er Ht. generalize s2. clear s2. intros s2. unfold mbind at 1, M_bind at 1, tally, modify. set (s3 := s2 ⟪ _ ::= _ ⟫).
    change (event_duty e) with ([] ++ event_duty e). apply (settles_trans _ _ _ _ s3); [by apply settles_books|]. unfold mbind at 1, M_bind at 1.
    pose proof (rel_when (settles []) (negb ok) _ (qu_tally (λ t, t ⟪ et_requests_failed ::= bump ⟫)) s3) as Hw. unfold tally, modify in Hw.
    destruct (when _ _ s3) as [u s4]. change (event_duty e) with ([] ++ event_duty e). apply (settles_trans _ _ _ _ s4); [exact Hw|].
    unfold mbind, M_bind. pose proof (send_settles e Hpl s4) as Hs. destruct (send_or_defer_oms_event e s4) as [b s5]. rewrite <- (app_nil_r (event_duty e)). eapply settles_trans; [exact Hs|].
    destruct b; [apply IH|apply qu_fault].
  - specialize (Ht _ eq_refl). eapply releases_settles; [exact Ht|]. clear Er Ht. generalize s2.
    change (rel (settles []) (tally (λ t, t ⟪ et_responses_received ::= bump ⟫);; complete_portfolio_request clk p response;; receive_http clk n)). rel_auto.
  - etrans; [|apply qu_fault]. apply settles_books. unfold s2, books. cbn. by rewrite delete_id.
Qed.

(** The last event: it is sent when nothing is in flight and nothing waits. *)
Lemma egress_outcome s : inv s →
  settles [] s (finish_egress_drain clk s).2 ∧ re_drain_marker_sent (finish_egress_drain clk s).2 = re_drain_marker_sent s ∨
  inv (finish_egress_drain clk s).2 ∧ (full s → full (finish_egress_drain clk s).2) ∧ re_drain_marker_sent s = false ∧ re_drain_marker_sent (finish_egress_drain clk s).2 = true ∧
    re_egress_closed (finish_egress_drain clk s).2 = true ∧ re_inflight_requests (finish_egress_drain clk s).2 = ∅ ∧
    re_inflight_requests s = ∅ ∧ re_active_portfolio_reconciliation (finish_egress_drain clk s).2 = re_active_portfolio_reconciliation s ∧
    ∃ m, stream (finish_egress_drain clk s).2 = stream s ++ [KeDrained m].
Proof.
  intros Hi. unfold finish_egress_drain, mbind, M_bind, gets, rest_now_ns. cbv beta iota. destruct (((_ || _) || _) || _) eqn:Eg; [left; by split|]. guards.
  set (e := KeDrained _). set (s1 := s ⟪ _ ::= _ ⟫). assert (inv s1) as Hi1 by (by destruct Hi as [[R1 R2 R3] Hf]). pose proof (send_emits e s1 Hi1) as He. unfold wp in He.
  assert (rel (same (λ s, (re_drain_marker_sent s, re_egress_closed s))) (send_or_defer_oms_event e)) as Hk.
  { assert (rel (same (λ s, (re_drain_marker_sent s, re_egress_closed s))) (defer_oms_event e)) by (intros s0; unfold defer_oms_event; by destruct (_ <=? _)).
    assert (rel (same (λ s, (re_drain_marker_sent s, re_egress_closed s))) (push_oms e)) by (intros s0; unfold push_oms; by destruct (q_push _ _)).
    unfold send_or_defer_oms_event, tally. rel_auto. }
  specialize (Hk s1). destruct (send_or_defer_oms_event e s1) as [b s2]. cbn [fst snd] in *. injection Hk as K1 K2. destruct He as (I2 & F2 & E1 & E2 & L2). destruct b; cbn [negb].
  - right. split_and!; cbn; try done; [by destruct I2 as [[R1 R2 R3] Hf]|congruence|by rewrite E1|]. eexists. exact L2.
  - left. destruct L2 as [L2 Lf]. assert (settles [] s s2) as Hs.
    { intros _. split; [done|]. split; [exact F2|]. exists [], []. rewrite !app_nil_r. split; [exact L2|]. split; [done|]. split; [|done]. unfold owed. by rewrite E1, E2. }
    split; [etrans; [exact Hs|apply qu_fault]|]. transitivity (re_drain_marker_sent s2); [|exact K1].
    assert (rel (same re_drain_marker_sent) (fault "Failed to send OrderRestEgressDrained event to OMS" : M RestState unit)) as Hf.
    { assert (∀ status, rel (same re_drain_marker_sent) (try_push_control_status status : M RestState bool)) by (intros status s0; unfold try_push_control_status; by destruct (q_push _ _)).
      unfold fault, disable, try_send_pending_control_notifications. rel_auto. }
    apply Hf.
Qed.

(** Events that wait are sent in order. *)
Lemma drain_events_keeps n s : inv s → (n ≤ Z.to_nat (re_pending_oms_count s))%nat →
  wp (drain_events n) (λ _ s', inv s' ∧ stream s' = stream s ∧ re_inflight_requests s' = re_inflight_requests s ∧
    re_active_portfolio_reconciliation s' = re_active_portfolio_reconciliation s ∧ oms_input s' = oms_input s) s.
Proof.
  revert s. induction n as [|n IH]; intros s Hi Hn; [done|]. cbn [drain_events]. destruct Hi as [[R1 R2 R3] Hf]. wp_steps.
  set (e := default _ _). assert (pending s = e :: Ring.window blank (re_pending_oms_events s) (re_pending_oms_head s + 1) (Z.to_nat (re_pending_oms_count s) - 1)) as Ep.
  { unfold pending. destruct (Z.to_nat (re_pending_oms_count s)) as [|c] eqn:Ec; [lia|]. cbn [Ring.window]. by rewrite Nat.sub_0_r || replace (S c - 1)%nat with c by lia. }
  unfold wp at 1. unfold push_oms. pose proof (push_sent e (re_order_rest_to_oms_queue s)) as Hs. destruct (q_push e _) as [b q]. cbn [fst snd] in *. destruct b; cbn [negb].
  - wp_steps. set (s1 := s ⟪ _ := _ ⟫ ⟪ _ ::= _ ⟫ ⟪ _ ::= _ ⟫ ⟪ _ ::= _ ⟫). change (Z.of_nat kMAX_PENDING_OMS_EVENTS) with 64 in *.
    assert (re_pending_oms_count s1 = re_pending_oms_count s - 1) as Ec by (unfold s1; cbn; apply u64_id; unfold is_u64; lia).
    assert (re_pending_oms_head s1 mod 64 = (re_pending_oms_head s + 1) mod 64) as Eh by (unfold s1; cbn; unfold bump; by rewrite (u64_mod_pow2 _ 6 ltac:(lia))).
    assert (length (re_pending_oms_events s1) = kMAX_PENDING_OMS_EVENTS) as El by (unfold s1; cbn; by rewrite length_insert).
    assert (stream s1 = stream s) as Es.
    { unfold stream. rewrite Ep. change (q_sent (re_order_rest_to_oms_queue s1)) with (q_sent q). rewrite Hs, <- app_assoc. cbn. f_equal. f_equal. unfold pending. rewrite Ec.
      rewrite (Ring.window_congr _ _ (re_pending_oms_head s1) (re_pending_oms_head s + 1)) by (rewrite El; exact Eh).
      replace (Z.to_nat (re_pending_oms_count s - 1)) with (Z.to_nat (re_pending_oms_count s) - 1)%nat by lia. unfold s1. cbn. unfold slot. cbn. apply Ring.window_pop.
      rewrite R1. unfold kMAX_PENDING_OMS_EVENTS. lia. }
    assert (inv s1) as Hi1.
    { split; [split|exact Hf]; [done|change (Z.of_nat kMAX_PENDING_OMS_EVENTS) with 64; lia|]. rewrite Ec, Zplus_mod, Eh, <- Zplus_mod.
      replace (re_pending_oms_head s + 1 + (re_pending_oms_count s - 1)) with (re_pending_oms_head s + re_pending_oms_count s) by lia. exact R3. }
    eapply wp_mono; [apply IH; [done|lia]|]. cbv beta. intros _ s' (I & S & F & A & O). by rewrite S, F, A, O, Es.
  - wp_steps. split_and!; try done. unfold stream, pending. cbn. by rewrite Hs.
Qed.
Lemma drain_keeps s : inv s → wp drain_pending_oms_events (λ _ s', inv s' ∧ stream s' = stream s ∧ owed s' = owed s ∧ oms_input s' = oms_input s) s.
Proof.
  intros Hi. unfold drain_pending_oms_events. wp_steps. eapply wp_mono; [by apply drain_events_keeps|]. cbv beta. intros _ s' (I & S & F & A & O).
  split_and!; try done. unfold owed. by rewrite F, A.
Qed.

Lemma in_notify : rel (same oms_input) try_send_pending_control_notifications.
Proof. unfold try_send_pending_control_notifications. rel_auto. Qed.
#[local] Hint Resolve in_notify : frame.
Lemma in_drain_control : rel (same oms_input) drain_control_commands.
Proof.
  unfold drain_control_commands. apply rel_bind; [exact _|rel_auto|]. intros fuel. induction fuel as [|fuel IH]; cbn [control_loop]; [rel_auto|].
  assert (rel (same oms_input) pop_control) by (intros s; unfold pop_control; by destruct (re_control_to_order_rest_queue s)).
  assert (rel (same oms_input) (λ s, let '(b, h) := http_warm_up (re_http_session s) in (b, s ⟪ re_http_session := h ⟫))) by (intros s; by destruct (http_warm_up _)).
  assert (∀ c, rel (same oms_input) (handle_control_command c)) by (intros c; unfold handle_control_command, enable, disable, apply_universe; rel_auto).
  rel_auto.
Qed.
Lemma in_receive n : rel (same oms_input) (receive_http clk n).
Proof.
  induction n as [|n IH]; cbn [receive_http]; [rel_auto|].
  assert (rel (same oms_input) http_poll_once) by (intros s; unfold http_poll_once; by destruct (http_poll _)).
  assert (∀ p r, rel (same oms_input) (complete_portfolio_request clk p r)).
  { intros p r. unfold complete_portfolio_request, maybe_finish_portfolio_reconciliation, tally. rel_auto. }
  unfold tally. rel_auto.
Qed.
Lemma in_egress : rel (same oms_input) (finish_egress_drain clk).
Proof. unfold finish_egress_drain. rel_auto. Qed.
Lemma in_telemetry : rel (same oms_input) (maybe_send_telemetry clk).
Proof. unfold maybe_send_telemetry. rel_auto. Qed.

Definition any_event (e : KalshiToOmsEvent) : Prop := True.
Lemma egress_accounts s : inv s → settles_by any_event [] s (finish_egress_drain clk s).2.
Proof.
  intros Hi. destruct (egress_outcome s Hi) as [[Hs _]|(I & F & _ & _ & _ & E1 & E2 & E3 & m & S)]; [by eapply settles_weaken; [|exact Hs]|]. intros _. split; [done|]. split; [done|].
  exists [KeDrained m], []. rewrite S, app_nil_r. split; [done|]. split; [by repeat constructor|]. split; [|done]. unfold owed. by rewrite E1, E2, E3.
Qed.

(** What the part of a round behind the drain of the ring buffer serves. *)
Definition after_drain : M RestState unit :=
  receive_http clk kMAX_HTTP_POLL_BATCH_SIZE;;
  finish_egress_drain clk;;
  open ← gets (λ s, re_enabled s && negb (re_faulted s) && (re_pending_oms_count s =? 0));
  when open (drain_oms_commands clk);;
  maybe_send_telemetry clk.
Lemma after_drain_serves s : inv s → serves_by any_event s (after_drain s).2.
Proof.
  intros Hi. unfold after_drain. unfold mbind at 1, M_bind at 1. pose proof (in_receive kMAX_HTTP_POLL_BATCH_SIZE s) as O1. pose proof (receive_settles kMAX_HTTP_POLL_BATCH_SIZE s) as S1.
  destruct (receive_http clk kMAX_HTTP_POLL_BATCH_SIZE s) as [u1 s1]. cbn [snd] in *. etrans; [apply serves_input; [exact O1|by eapply settles_weaken; [|exact S1]]|].
  destruct (S1 Hi) as [I1 _]. unfold mbind at 1, M_bind at 1. pose proof (in_egress s1) as O2. pose proof (egress_accounts s1 I1) as S2.
  destruct (finish_egress_drain clk s1) as [u2 s2]. cbn [snd] in *. etrans; [apply serves_input; [exact O2|exact S2]|]. clear O2 S2.
  assert (∀ A (m : M RestState A), rel serves m → rel (serves_by any_event) m) as Hw.
  { intros A m Hm s' Ht. destruct (Hm s' Ht) as (taken & E & Hs). exists taken. split; [done|]. by eapply settles_weaken; [|exact Hs]. }
  revert s2. change (rel (serves_by any_event) (open ← gets (λ s : RestState, re_enabled s && negb (re_faulted s) && (re_pending_oms_count s =? 0));
    when open (drain_oms_commands clk);; maybe_send_telemetry clk)).
  apply rel_bind; [exact _|rel_auto|intros open]. apply rel_bind; [exact _| |intros _; apply Hw; intros s'; apply serves_input; [apply in_telemetry|apply qu_books, bo_telemetry]].
  apply rel_when; [exact _|]. apply Hw. unfold drain_oms_commands. apply rel_bind; [exact _|rel_auto|intros fuel; apply oms_loop_serves].
Qed.

Lemma run_split : run_once clk = (drain_control_commands;; drain_pending_oms_events;; after_drain).
Proof. unfold run_once, after_drain. reflexivity. Qed.

(** The account of a round. *)
Lemma round_account s : inv s → Forall typed_command (omap id (re_oms_to_order_rest_queue s)) →
  wp (run_once clk) (λ _ s', inv s' ∧ ∃ taken msgs lost, re_oms_to_order_rest_queue s = taken ++ re_oms_to_order_rest_queue s' ∧ stream s' = stream s ++ msgs ∧
    (omap id taken ≫= command_duty) ++ owed s ≡ₚ (msgs ≫= event_duty) ++ owed s' ++ lost ∧ (lost ≠ [] → full s')) s.
Proof.
  intros Hi Ht. rewrite run_split. wp_step. eapply (wp_rel (λ s s', same books s s' ∧ same oms_input s s')); [intros s0; split; [apply bo_drain_control|apply in_drain_control]|].
  intros _ s1 [B1 O1]. destruct (settles_books _ _ B1 Hi) as (I1 & _ & _). assert (stream s1 = stream s ∧ owed s1 = owed s) as [S1 W1].
  { unfold same, books in B1. injection B1 as E1 E2 E3 E4 E5 E6 E7. unfold stream, pending, owed. by rewrite E1, E2, E3, E5, E6, E7. }
  wp_step. eapply wp_mono; [by apply drain_keeps|]. cbv beta. intros _ s2 (I2 & S2 & W2 & O2).
  pose proof (after_drain_serves s2 I2) as Hs. unfold wp. set (s3 := (after_drain s2).2) in *. unfold same, oms_input in O1, O2. rewrite <- O1, <- O2 in Ht.
  destruct (Hs Ht) as (taken & Eq & Hset). destruct (Hset I2) as (I3 & _ & msgs & lost & S3 & _ & P3 & L3). split; [done|]. exists taken, msgs, lost.
  split; [by rewrite <- O1, <- O2|]. split; [by rewrite S3, S2, S1|]. split; [|done]. by rewrite <- W1, <- W2.
Qed.

(** ** Runs *)

(** What the control plane and the OMS hand over before a round. *)
Definition Input : Type := list (option ControlToOrderRestCommand) * list (option OmsToKalshiCommand).
Definition hand_over (i : Input) s : RestState :=
  s ⟪ re_control_to_order_rest_queue ::= λ q, q ++ i.1 ⟫ ⟪ re_oms_to_order_rest_queue ::= λ q, q ++ i.2 ⟫.
Definition round (i : Input) s : RestState := (run_once clk (hand_over i s)).2.
Definition rounds (inputs : list Input) s : RestState := foldl (λ s i, round i s) s inputs.
Definition commands (inputs : list Input) : list (option OmsToKalshiCommand) := inputs ≫= snd.

Lemma rounds_snoc inputs i s : rounds (inputs ++ [i]) s = round i (rounds inputs s).
Proof. unfold rounds. by rewrite foldl_app. Qed.

Lemma round_facts i s : inv s → Forall typed_command (omap id (re_oms_to_order_rest_queue s ++ i.2)) →
  inv (round i s) ∧ ∃ taken msgs lost, re_oms_to_order_rest_queue s ++ i.2 = taken ++ re_oms_to_order_rest_queue (round i s) ∧ stream (round i s) = stream s ++ msgs ∧
    (omap id taken ≫= command_duty) ++ owed s ≡ₚ (msgs ≫= event_duty) ++ owed (round i s) ++ lost ∧ (lost ≠ [] → full (round i s)).
Proof.
  intros Hi Ht. assert (inv (hand_over i s)) as Hi' by (by destruct Hi as [[R1 R2 R3] Hf]). exact (round_account (hand_over i s) Hi' Ht).
Qed.

Lemma make_inv http adapter from_control to_control from_oms to_oms : inv (make_rest_session clk http adapter from_control to_control from_oms to_oms).
Proof. split; [split; [done|done|done]|]. intros id p. cbn. by rewrite lookup_empty. Qed.

Lemma rounds_inv inputs s0 : inv s0 → Forall typed_command (omap id (re_oms_to_order_rest_queue s0 ++ commands inputs)) →
  inv (rounds inputs s0) ∧ ∃ taken msgs lost, re_oms_to_order_rest_queue s0 ++ commands inputs = taken ++ re_oms_to_order_rest_queue (rounds inputs s0) ∧
    stream (rounds inputs s0) = stream s0 ++ msgs ∧ (omap id taken ≫= command_duty) ++ owed s0 ≡ₚ (msgs ≫= event_duty) ++ owed (rounds inputs s0) ++ lost ∧
    (lost ≠ [] → ∃ before, before `prefix_of` inputs ∧ full (rounds before s0)).
Proof.
  intros Hi0. induction inputs as [|i inputs IH] using rev_ind; intros Ht.
  - split; [done|]. exists [], [], []. cbn. rewrite !app_nil_r. done.
  - unfold commands in Ht. rewrite bind_app, app_assoc, omap_app, Forall_app in Ht. destruct Ht as [Ht1 Ht2]. cbn in Ht2. rewrite app_nil_r in Ht2.
    destruct (IH Ht1) as (I & taken & msgs & lost & Q1 & S1 & P1 & L1). rewrite rounds_snoc.
    assert (Forall typed_command (omap id (re_oms_to_order_rest_queue (rounds inputs s0) ++ i.2))) as Ht3.
    { rewrite omap_app, Forall_app. split; [|done]. unfold commands in Q1. rewrite Q1, omap_app, Forall_app in Ht1. apply Ht1. }
    destruct (round_facts i _ I Ht3) as (I' & taken' & msgs' & lost' & Q2 & S2 & P2 & L2). split; [done|]. exists (taken ++ taken'), (msgs ++ msgs'), (lost ++ lost'). split_and!.
    + unfold commands in *. rewrite bind_app, app_assoc, Q1. cbn. rewrite app_nil_r, <- !app_assoc. f_equal. exact Q2.
    + by rewrite S2, S1, app_assoc.
    + rewrite omap_app, !bind_app. by eapply account_trans.
    + intros Hne. destruct lost as [|d lost].
      * exists (inputs ++ [i]). split; [done|]. rewrite rounds_snoc. by apply L2.
      * destruct (L1 ltac:(done)) as (before & Hp & Hf). exists before. split; [by apply prefix_app_r|done].
Qed.

(** C14: every command the OMS hands to the REST session is settled.  In any run, whatever HTTP
    and the venue do, the commands taken so far are a prefix of those handed over, and each has
    exactly one of: an event that answers it, among those sent to the OMS or waiting to be sent
    in order; a request in flight or the reconciliation being carried out; or, if some round
    ended with all 64 slots for waiting events in use, an answer that was lost.  No command is
    answered twice, and none is answered that was not taken. *)
Theorem every_command_is_settled http adapter from_control to_control from_oms to_oms inputs :
  q_sent to_oms = [] → Forall typed_command (omap id (from_oms ++ commands inputs)) →
  ∃ taken lost, from_oms ++ commands inputs =
      taken ++ re_oms_to_order_rest_queue (rounds inputs (make_rest_session clk http adapter from_control to_control from_oms to_oms)) ∧
    (omap id taken ≫= command_duty) ≡ₚ
      (stream (rounds inputs (make_rest_session clk http adapter from_control to_control from_oms to_oms)) ≫= event_duty) ++
      owed (rounds inputs (make_rest_session clk http adapter from_control to_control from_oms to_oms)) ++ lost ∧
    (lost ≠ [] → ∃ before, before `prefix_of` inputs ∧ full (rounds before (make_rest_session clk http adapter from_control to_control from_oms to_oms))).
Proof.
  intros Hq Ht. set (s0 := make_rest_session clk _ _ _ _ _ _). destruct (rounds_inv inputs s0 (make_inv _ _ _ _ _ _) Ht) as (_ & taken & msgs & lost & Q1 & S1 & P1 & L1).
  exists taken, lost. split; [exact Q1|]. split; [|exact L1]. assert (stream s0 = []) as E0 by (unfold stream, pending; cbn; by rewrite Hq).
  rewrite S1, E0. cbn [app]. rewrite <- P1. unfold s0, owed. cbn. by rewrite app_nil_r.
Qed.
End RestSettled.
End RestSettled.
