(* ===== verification/RestDrained.v ===== *)
(** * RestDrained: one reconciliation at a time, and a last word

    While a reconciliation is carried out exactly one of its requests is in flight, so that it
    is always answered; and the event that tells the OMS that the session is drained is the last
    one, sent when nothing is owed any more.

    At the end, Module [RestDemo]: a concrete REST session for the witnesses. *)

From S2P Require Import Prelude Spsc Ring MarketTypes ShardTypes WireTypes OmsTypes RestTypes RestAdapter RestOrders ControlPlaneTypes RestSession RestSettled.
Open Scope Z_scope.

Module RestDrained.
Import RestAdapter RestSession RestSettled.

(** ** Request ids *)

Lemma skip_ids_free_from (m : gmap Z InflightRequest) n : ∀ id (passed : gset Z), is_u64 id → passed ⊆ dom m → (size passed + n = size (dom m))%nat →
  (∀ x, x ∈ passed → id < x) → is_u64 (skip_ids n id m) ∧ (skip_ids n id m = 0 ∨ m !! skip_ids n id m = None).
Proof.
  induction n as [|n IH]; intros id passed Hu Hsub Hsize Hlt; cbn [skip_ids].
  - split; [done|]. right. apply not_elem_of_dom. intros Hin. assert (passed ≡ dom m) as He by (apply set_subseteq_size_equiv; [done|lia]).
    rewrite <- He in Hin. specialize (Hlt _ Hin). lia.
  - destruct (Z.eqb_spec id 0) as [->|Hne]; cbn [negb andb]; [by split; [|left]|]. case_bool_decide as Hin; [|split; [done|right; by apply eq_None_not_Some]].
    assert (u64 (id - 1) = id - 1) as Ei by (apply u64_id; unfold is_u64 in *; lia). rewrite Ei. apply (IH (id - 1) ({[id]} ∪ passed)).
    + unfold is_u64 in *. lia.
    + apply union_least; [|done]. apply singleton_subseteq_l, elem_of_dom. done.
    + rewrite size_union, size_singleton; [lia|]. apply disjoint_singleton_l. intros Hp. specialize (Hlt _ Hp). lia.
    + intros x [->%elem_of_singleton|Hx]%elem_of_union; [lia|]. specialize (Hlt _ Hx). lia.
Qed.
Lemma skip_ids_free m id : is_u64 id → is_u64 (skip_ids (size m) id m) ∧ (skip_ids (size m) id m = 0 ∨ m !! skip_ids (size m) id m = None).
Proof.
  intros Hu. apply (skip_ids_free_from m (size m) id ∅ Hu); [set_solver|rewrite size_empty, size_dom; lia|set_solver].
Qed.

Section RestDrained.
Context {Q : Type → Type} `{HQ : PushQueue Q} {HL : PushQueueLaws Q} {H : Type} `{!HttpSession H} `{!NlohmannJson}.
Variable clk : nat → Z.
Abbreviation RestState := (RestSession.RestState (Q := Q) (H := H)).
Implicit Types s : RestState.

(** ** Reconciliations *)

Definition no_portfolio s : Prop := ∀ id p, re_inflight_requests s !! id ≠ Some (InflightPortfolio p).
(** The request a reconciliation is at: the balance first, then the positions. *)
Definition next_step (a : ActivePortfolioReconciliation) (p : PreparedPortfolioRestRequest) : Prop :=
  pp_reconciliation_id p = rr_reconciliation_id (ap_command a) ∧ pp_kind p = if ap_balance_complete a then kPOSITIONS else kBALANCE.
Definition in_step s : Prop :=
  match re_active_portfolio_reconciliation s with
  | None => no_portfolio s
  | Some a => ap_positions_complete a = false ∧ ∃ id p, re_inflight_requests s !! id = Some (InflightPortfolio p) ∧ next_step a p ∧
      ∀ id' p', re_inflight_requests s !! id' = Some (InflightPortfolio p') → id' = id
  end.
Record portfolio_ok s : Prop := { po_step : in_step s; po_id : is_u64 (re_next_portfolio_http_request_id s) }.

(** What this depends on. *)
Definition port s := (re_inflight_requests s, re_active_portfolio_reconciliation s, re_next_portfolio_http_request_id s).
Lemma portfolio_ok_port s s' : port s' = port s → portfolio_ok s → portfolio_ok s'.
Proof.
  unfold port. intros E. apply pair_eq in E as [E E3]. apply pair_eq in E as [E1 E2]. intros [P1 P2]. split; [|by rewrite E3].
  unfold in_step, no_portfolio in *. by rewrite E1, E2.
Qed.
Lemma ok_port {A} (m : M RestState A) : rel (same port) m → rel (keeps portfolio_ok) m.
Proof. intros Hm s Hs. by eapply portfolio_ok_port; [apply Hm|]. Qed.

Lemma pt_control status : rel (same port) (try_push_control_status status).
Proof. intros s. unfold try_push_control_status. by destruct (q_push _ _). Qed.
Lemma pt_send e : rel (same port) (send_or_defer_oms_event e).
Proof.
  assert (rel (same port) (defer_oms_event e)) as Hd by (intros s; unfold defer_oms_event; by destruct (_ <=? _)).
  assert (rel (same port) (push_oms e)) as Hp by (intros s; unfold push_oms; by destruct (q_push _ _)).
  unfold send_or_defer_oms_event, tally. rel_auto.
Qed.
#[local] Hint Resolve pt_control pt_send : frame.
Lemma pt_notify : rel (same port) try_send_pending_control_notifications.
Proof. unfold try_send_pending_control_notifications. rel_auto. Qed.
#[local] Hint Resolve pt_notify : frame.
Lemma pt_fault reason : rel (same port) (fault reason).
Proof. unfold fault, disable. rel_auto. Qed.
#[local] Hint Resolve pt_fault : frame.
Lemma pt_start request : rel (same port) (http_start request).
Proof. intros s. unfold http_start. by destruct (http_start_request _ _). Qed.
Lemma pt_poll : rel (same port) http_poll_once.
Proof. intros s. unfold http_poll_once. by destruct (http_poll _). Qed.
Lemma pt_reject p reason : rel (same port) (reject clk p reason).
Proof. unfold reject, emit_local_reject, tally. rel_auto. Qed.
Lemma pt_refuse c error : rel (same port) (refuse_portfolio clk c error).
Proof. unfold refuse_portfolio. rel_auto. Qed.
Lemma pt_close epoch : rel (same port) (handle_close_egress epoch).
Proof. unfold handle_close_egress. rel_auto. Qed.
Lemma pt_egress : rel (same port) (finish_egress_drain clk).
Proof. unfold finish_egress_drain. rel_auto. Qed.
Lemma pt_telemetry : rel (same port) (maybe_send_telemetry clk).
Proof. unfold maybe_send_telemetry. rel_auto. Qed.
Lemma pt_pop_oms : rel (same port) pop_oms.
Proof. intros s. unfold pop_oms. by destruct (re_oms_to_order_rest_queue s). Qed.
Lemma pt_drain : rel (same port) drain_pending_oms_events.
Proof.
  unfold drain_pending_oms_events. apply rel_bind; [exact _|rel_auto|]. intros count. induction (Z.to_nat count) as [|n IH]; cbn [drain_events]; [rel_auto|].
  assert (∀ e, rel (same port) (push_oms e)) by (intros e s; unfold push_oms; by destruct (q_push _ _)). rel_auto.
Qed.
Lemma pt_drain_control : rel (same port) drain_control_commands.
Proof.
  unfold drain_control_commands. apply rel_bind; [exact _|rel_auto|]. intros fuel. induction fuel as [|fuel IH]; cbn [control_loop]; [rel_auto|].
  assert (rel (same port) pop_control) by (intros s; unfold pop_control; by destruct (re_control_to_order_rest_queue s)).
  assert (rel (same port) (λ s, let '(b, h) := http_warm_up (re_http_session s) in (b, s ⟪ re_http_session := h ⟫))) by (intros s; by destruct (http_warm_up _)).
  assert (∀ c, rel (same port) (handle_control_command c)) by (intros c; unfold handle_control_command, enable, disable, apply_universe; rel_auto).
  rel_auto.
Qed.

(** A reconciliation that has no request in flight: it starts its next one or fails. *)
Lemma fail_ok reason s : no_portfolio s → is_u64 (re_next_portfolio_http_request_id s) → portfolio_ok (fail_portfolio_reconciliation clk reason s).2.
Proof.
  intros Hn Hu. unfold fail_portfolio_reconciliation, mbind at 1, M_bind at 1, gets. cbv beta iota. destruct (re_active_portfolio_reconciliation s) as [a|] eqn:Ea.
  - set (s1 := s ⟪ re_active_portfolio_reconciliation := None ⟫). assert (portfolio_ok s1) as H1 by (by split).
    assert (port (fail_portfolio_reconciliation clk reason s).2 = port s1) as E.
    { unfold fail_portfolio_reconciliation, mbind at 1 2 3 4 5, M_bind at 1 2 3 4 5, gets, tally, modify, rest_now_ns. cbv beta iota. rewrite Ea. cbv beta iota.
      set (e := portfolio_failure _ _ _). set (s2 := s ⟪ _ ::= _ ⟫ ⟪ _ := _ ⟫ ⟪ _ ::= _ ⟫ ⟪ _ ::= _ ⟫).
      transitivity (port s2); [|done]. generalize s2.
      change (rel (same port) (sent ← send_or_defer_oms_event e; when (negb sent) (fault "unable to deliver failed portfolio reconciliation to OMS"))). rel_auto. }
    revert E. unfold fail_portfolio_reconciliation, mbind at 1, M_bind at 1, gets. cbv beta iota. rewrite Ea. intros E. by eapply portfolio_ok_port.
  - split; [|done]. unfold in_step. cbn. rewrite Ea. exact Hn.
Qed.

Lemma start_ok a prepared s : re_active_portfolio_reconciliation s = Some a → no_portfolio s → ap_positions_complete a = false →
  is_u64 (re_next_portfolio_http_request_id s) →
  (pp_ok prepared = true → re_inflight_requests s !! hq_request_id (pp_request prepared) = None ∧ next_step a prepared) →
  wp (start_portfolio_request clk prepared) (λ _ s', portfolio_ok s') s.
Proof.
  intros Ea Hn Hp Hu Hok. assert (∀ reason s1, port s1 = port s → wp (fail_portfolio_reconciliation clk reason;; mret false) (λ _ s', portfolio_ok s') s1) as Hfail.
  { intros reason s1 E. wp_step. unfold wp. apply fail_ok; unfold port in E; injection E as E1 E2 E3; [unfold no_portfolio; by rewrite E1|by rewrite E3]. }
  unfold start_portfolio_request. destruct (pp_ok prepared) eqn:Eok; cbn [negb]; [|by apply Hfail]. destruct (Hok eq_refl) as [Hfree Hstep]. wp_steps.
  destruct (_ <=? _)%nat; [by apply Hfail|]. wp_step. eapply (wp_rel (same port)); [apply pt_start|]. intros started s1 E1. destruct (negb _); [by apply Hfail|].
  unfold same, port in E1. apply pair_eq in E1 as [E1 E3]. apply pair_eq in E1 as [E1 E2]. unfold file_inflight, tally. wp_steps. split; cbn; [|by rewrite E3].
  unfold in_step. cbn. rewrite E2, Ea. split; [done|]. exists (hq_request_id (pp_request prepared)), prepared. unfold emplace. rewrite E1, Hfree, lookup_insert_eq.
  split; [done|]. split; [done|]. intros id' p'. destruct (decide (id' = hq_request_id (pp_request prepared))) as [->|]; [done|]. rewrite lookup_insert_ne by done.
  intros Hin. by destruct (Hn id' p').
Qed.

Lemma prepare_portfolio_ok kind target error command id : pp_ok (prepare_portfolio kind target error command id) = true →
  id ≠ 0 ∧ hq_request_id (pp_request (prepare_portfolio kind target error command id)) = id ∧
  pp_kind (prepare_portfolio kind target error command id) = kind ∧
  pp_reconciliation_id (prepare_portfolio kind target error command id) = rr_reconciliation_id command.
Proof. unfold prepare_portfolio. destruct (_ || _) eqn:E; [done|]. guards. done. Qed.

(** The next request of a reconciliation. *)
Lemma ask_ok a kind target error s : re_active_portfolio_reconciliation s = Some a → no_portfolio s → ap_positions_complete a = false →
  is_u64 (re_next_portfolio_http_request_id s) → (kind = if ap_balance_complete a then kPOSITIONS else kBALANCE) →
  wp (id ← next_portfolio_http_request_id; _ ← start_portfolio_request clk (prepare_portfolio kind target error (ap_command a) id); mret tt) (λ _ s', portfolio_ok s') s.
Proof.
  intros Ea Hn Hp Hu Hk. wp_step. unfold wp at 1, next_portfolio_http_request_id. cbn [fst snd]. destruct (skip_ids_free (re_inflight_requests s) _ Hu) as [Hid Hfree].
  set (id := skip_ids _ _ _) in *. wp_step. eapply wp_mono; [apply (start_ok a)|]; cbn; try done.
  - apply u64_range.
  - intros Hok. apply prepare_portfolio_ok in Hok as (Hne & -> & Hkind & Hrec). split; [by destruct Hfree|]. split; [done|]. by rewrite Hkind.
Qed.

Lemma finish_portfolio_ok a s : re_active_portfolio_reconciliation s = Some a → no_portfolio s → is_u64 (re_next_portfolio_http_request_id s) →
  ap_balance_complete a = true → ap_positions_complete a = true → wp (maybe_finish_portfolio_reconciliation clk) (λ _ s', portfolio_ok s') s.
Proof.
  intros Ea Hn Hu Hb Hp. unfold maybe_finish_portfolio_reconciliation, tally, rest_now_ns. wp_steps. rewrite Ea, Hb, Hp. cbn [negb orb]. wp_steps. unfold wp at 1. cbn [fst snd].
  set (s1 := s ⟪ _ := _ ⟫ ⟪ _ ::= _ ⟫ ⟪ _ ::= _ ⟫). assert (portfolio_ok s1) as H1 by (by split). wp_step.
  eapply (wp_rel (same port)); [apply pt_send|]. intros sent s2 E2. eapply (wp_rel (same port)); [apply rel_when; [exact _|apply pt_fault]|]. intros _ s3 E3.
  eapply portfolio_ok_port; [|exact H1]. unfold same in *. congruence.
Qed.

(** A request of the reconciliation has come back. *)
Lemma complete_portfolio_ok a p response s : re_active_portfolio_reconciliation s = Some a → no_portfolio s → ap_positions_complete a = false → next_step a p →
  is_u64 (re_next_portfolio_http_request_id s) → wp (complete_portfolio_request clk p response) (λ _ s', portfolio_ok s') s.
Proof.
  intros Ea Hn Hp [Hid Hkind] Hu. unfold complete_portfolio_request. wp_steps. rewrite Ea, Hid, Z.eqb_refl. cbn [negb].
  assert (∀ reason, wp (fail_portfolio_reconciliation clk reason) (λ _ s', portfolio_ok s') s) as Hfail by (intros reason; by apply fail_ok).
  destruct (ap_balance_complete a) eqn:Eb; rewrite Hkind.
  - rewrite bool_decide_eq_false_2 by done. destruct (negb _); [apply Hfail|]. cbv zeta. destruct (negb _); do 2 wp_step.
    + eapply (ask_ok (a ⟪ ap_positions ::= _ ⟫)); try done. cbn. by rewrite Eb.
    + by eapply finish_portfolio_ok.
  - rewrite bool_decide_eq_true_2 by done. destruct (negb _); [apply Hfail|]. do 2 wp_step. set (a' := a ⟪ _ := _ ⟫ ⟪ _ := _ ⟫ ⟪ _ := _ ⟫).
    change (ap_command a) with (ap_command a'). unfold prepare_portfolio_positions_request. by apply (ask_ok a').
Qed.

(** Requests for orders come and go. *)
Lemma take_order_ok id p s : re_inflight_requests s !! id = Some (InflightOrder p) → portfolio_ok s → portfolio_ok (take_inflight id s).2.
Proof.
  intros Hin [Hs Hu]. split; [|done]. unfold in_step, take_inflight, no_portfolio in *. cbn. destruct (re_active_portfolio_reconciliation s) as [a|].
  - destruct Hs as (Hp & id0 & p0 & H0' & Hstep & Hone). split; [done|]. exists id0, p0. rewrite lookup_delete_ne by (intros ->; congruence). split; [done|]. split; [done|].
    intros id' p' [_ Hl]%lookup_delete_Some. by eapply Hone.
  - intros id' p' [_ Hl]%lookup_delete_Some. by eapply Hs.
Qed.
Lemma file_order_ok id p s : portfolio_ok s → portfolio_ok (file_inflight id (InflightOrder p) s).2.
Proof.
  intros [Hs Hu]. split; [|done]. unfold in_step, file_inflight, modify, emplace, no_portfolio in *. cbn. destruct (re_inflight_requests s !! id) eqn:Ei; [done|].
  destruct (re_active_portfolio_reconciliation s) as [a|].
  - destruct Hs as (Hp & id0 & p0 & H0' & Hstep & Hone). split; [done|]. exists id0, p0. rewrite lookup_insert_ne by (intros ->; congruence). split; [done|]. split; [done|].
    intros id' p' [[_ [=]]|[_ Hl]]%lookup_insert_Some. by eapply Hone.
  - intros id' p' [[_ [=]]|[_ Hl]]%lookup_insert_Some. by eapply Hs.
Qed.
(** The request in flight of a reconciliation comes back. *)
Lemma take_portfolio id p s : re_inflight_requests s !! id = Some (InflightPortfolio p) → portfolio_ok s →
  no_portfolio (take_inflight id s).2 ∧ ∃ a, re_active_portfolio_reconciliation s = Some a ∧ ap_positions_complete a = false ∧ next_step a p.
Proof.
  intros Hin [Hs Hu]. unfold in_step, no_portfolio, take_inflight in *. cbn. destruct (re_active_portfolio_reconciliation s) as [a|]; [|by destruct (Hs id p)].
  destruct Hs as (Hp & id0 & p0 & H0' & Hstep & Hone). assert (id = id0) as -> by (by eapply Hone). assert (p = p0) as -> by congruence. split.
  - intros id' p' [Hne Hl]%lookup_delete_Some. apply Hne. symmetry. by eapply Hone.
  - by exists a.
Qed.

Lemma receive_ok n : rel (keeps portfolio_ok) (receive_http clk n).
Proof.
  induction n as [|n IH]; [by intros s|]. intros s Hs. change (wp (receive_http clk (S n)) (λ _ s', portfolio_ok s') s). cbn [receive_http]. wp_step.
  eapply (wp_rel (same port)); [apply pt_poll|]. intros poll s1 E1. assert (portfolio_ok s1) as H1 by (by eapply portfolio_ok_port). clear Hs E1 s.
  assert (∀ reason s', portfolio_ok s' → wp (fault reason) (λ _ s', portfolio_ok s') s') as Hfault.
  { intros reason s' Hs'. eapply (wp_rel (same port)); [apply pt_fault|]. intros _ s'' E. by eapply portfolio_ok_port. }
  destruct (negb _); [by wp_step|]. destruct (hp_response poll) as [response|]; [|by apply Hfault]. wp_step. unfold wp at 1.
  pose proof (take_order_ok (hs_request_id response)) as Ho. pose proof (take_portfolio (hs_request_id response)) as Hp. unfold take_inflight in *. cbn [fst snd] in *.
  destruct (re_inflight_requests s1 !! hs_request_id response) as [[p|p]|] eqn:Er.
  - specialize (Ho p s1 Er H1). unfold tally. do 2 wp_step. destruct (complete_order p response) as [ok e]. wp_step.
    eapply (wp_rel (same port)); [apply rel_when; [exact _|by intros s]|]. intros _ s3 E3. wp_step. eapply (wp_rel (same port)); [apply pt_send|]. intros sent s4 E4.
    assert (portfolio_ok s4) as H4. { eapply portfolio_ok_port; [exact E4|]. eapply portfolio_ok_port; [exact E3|]. by eapply portfolio_ok_port; [|exact Ho]. }
    destruct sent; cbn [negb]; [by apply IH|by apply Hfault].
  - destruct (Hp p s1 Er H1) as (Hn & a & Ea & Hpc & Hstep). unfold tally. do 3 wp_step. eapply wp_mono; [by eapply (complete_portfolio_ok a); [| | | |apply H1]|].
    cbv beta. intros _ s3 H3. by apply IH.
  - apply Hfault. eapply portfolio_ok_port; [|exact H1]. unfold port. cbn. by rewrite delete_id.
Qed.

Lemma handle_oms_ok c : rel (keeps portfolio_ok) (handle_oms_command clk c).
Proof.
  intros s Hs. change (wp (handle_oms_command clk c) (λ _ s', portfolio_ok s') s). unfold handle_oms_command, tally. wp_steps. set (s1 := s ⟪ _ ::= _ ⟫).
  assert (portfolio_ok s1) as H1 by (by eapply portfolio_ok_port; [|exact Hs]). generalize dependent s1. clear s Hs. intros s Hs.
  assert (∀ c' : OmsToKalshiCommand, wp (send_order_command clk c') (λ _ s', portfolio_ok s') s) as Hsend.
  { intros c'. unfold send_order_command. wp_steps. set (p := prepare_command _ _). assert (∀ reason s', port s' = port s → wp (reject clk p reason) (λ _ s', portfolio_ok s') s') as Hrej.
    { intros reason s' E. eapply (wp_rel (same port)); [apply pt_reject|]. intros _ s'' E'. eapply portfolio_ok_port; [|exact Hs]. unfold same in E'. congruence. }
    cbv zeta. destruct (negb _); [by apply Hrej|]. destruct (negb _); [by apply Hrej|]. wp_steps. destruct (bool_decide _); [by apply Hrej|]. wp_step.
    eapply (wp_rel (same port)); [apply pt_start|]. intros started s1 E1. destruct started; [|by apply Hrej..|].
    - wp_step. unfold wp at 1. cbn [fst snd]. unfold tally. wp_step.
      apply (portfolio_ok_port (file_inflight (hq_request_id (po_request p)) (InflightOrder p) s1).2); [done|]. apply file_order_ok. by eapply portfolio_ok_port.
    - wp_steps. by apply Hrej. }
  destruct c; try apply Hsend.
  - unfold handle_portfolio_reconciliation. wp_steps. assert (∀ error, wp (refuse_portfolio clk c error) (λ _ s', portfolio_ok s') s) as Href.
    { intros error. eapply (wp_rel (same port)); [apply pt_refuse|]. intros _ s' E. by eapply portfolio_ok_port. }
    destruct (_ =? 0); [apply Href|]. destruct (negb _); [apply Href|]. destruct (_ || _); [apply Href|]. destruct (bool_decide _) eqn:Ea; [apply Href|].
    apply bool_decide_eq_false, eq_None_not_Some in Ea. do 2 wp_step. set (a := mkActivePortfolioReconciliation _ _ _ _ _ _). destruct Hs as [Hstep Hu].
    unfold in_step in Hstep. rewrite Ea in Hstep. change c with (ap_command a) at 1. unfold prepare_portfolio_balance_request. by apply (ask_ok a).
  - eapply (wp_rel (same port)); [apply pt_close|]. intros _ s' E. by eapply portfolio_ok_port.
Qed.

Lemma oms_loop_ok n : rel (keeps portfolio_ok) (oms_loop clk n).
Proof.
  induction n as [|n IH]; cbn [oms_loop]; [by intros s|]. apply rel_bind; [exact _|rel_auto|intros open]. apply rel_if; [rel_auto|].
  apply rel_bind; [exact _|apply ok_port, pt_pop_oms|intros [c|]]; [|rel_auto]. apply rel_bind; [exact _|apply handle_oms_ok|intros _; apply IH].
Qed.

Lemma run_portfolio_ok : rel (keeps portfolio_ok) (run_once clk).
Proof.
  unfold run_once. apply rel_bind; [exact _|apply ok_port, pt_drain_control|intros _]. apply rel_bind; [exact _|apply ok_port, pt_drain|intros _].
  apply rel_bind; [exact _|apply receive_ok|intros _]. apply rel_bind; [exact _|apply ok_port, pt_egress|intros _]. apply rel_bind; [exact _|rel_auto|intros open].
  apply rel_bind; [exact _| |intros _; apply ok_port, pt_telemetry]. apply rel_when; [exact _|]. unfold drain_oms_commands. apply rel_bind; [exact _|rel_auto|intros fuel; apply oms_loop_ok].
Qed.

(** ** The last event *)

Definition flags s := (re_drain_marker_sent s, re_egress_closed s).

Lemma fl_control status : rel (same flags) (try_push_control_status status).
Proof. intros s. unfold try_push_control_status. by destruct (q_push _ _). Qed.
Lemma fl_send e : rel (same flags) (send_or_defer_oms_event e).
Proof.
  assert (rel (same flags) (defer_oms_event e)) as Hd by (intros s; unfold defer_oms_event; by destruct (_ <=? _)).
  assert (rel (same flags) (push_oms e)) as Hp by (intros s; unfold push_oms; by destruct (q_push _ _)).
  unfold send_or_defer_oms_event, tally. rel_auto.
Qed.
#[local] Hint Resolve fl_control fl_send : frame.
Lemma fl_notify : rel (same flags) try_send_pending_control_notifications.
Proof. unfold try_send_pending_control_notifications. rel_auto. Qed.
#[local] Hint Resolve fl_notify : frame.
Lemma fl_fault reason : rel (same flags) (fault reason).
Proof. unfold fault, disable. rel_auto. Qed.
#[local] Hint Resolve fl_fault : frame.
Lemma fl_start request : rel (same flags) (http_start request).
Proof. intros s. unfold http_start. by destruct (http_start_request _ _). Qed.
Lemma fl_poll : rel (same flags) http_poll_once.
Proof. intros s. unfold http_poll_once. by destruct (http_poll _). Qed.
#[local] Hint Resolve fl_start fl_poll : frame.
Lemma fl_telemetry : rel (same flags) (maybe_send_telemetry clk).
Proof. unfold maybe_send_telemetry. rel_auto. Qed.
Lemma fl_drain : rel (same flags) drain_pending_oms_events.
Proof.
  unfold drain_pending_oms_events. apply rel_bind; [exact _|rel_auto|]. intros count. induction (Z.to_nat count) as [|n IH]; cbn [drain_events]; [rel_auto|].
  assert (∀ e, rel (same flags) (push_oms e)) by (intros e s; unfold push_oms; by destruct (q_push _ _)). rel_auto.
Qed.
Lemma fl_drain_control : rel (same flags) drain_control_commands.
Proof.
  unfold drain_control_commands. apply rel_bind; [exact _|rel_auto|]. intros fuel. induction fuel as [|fuel IH]; cbn [control_loop]; [rel_auto|].
  assert (rel (same flags) pop_control) by (intros s; unfold pop_control; by destruct (re_control_to_order_rest_queue s)).
  assert (rel (same flags) (λ s, let '(b, h) := http_warm_up (re_http_session s) in (b, s ⟪ re_http_session := h ⟫))) by (intros s; by destruct (http_warm_up _)).
  assert (∀ c, rel (same flags) (handle_control_command c)) by (intros c; unfold handle_control_command, enable, disable, apply_universe; rel_auto).
  rel_auto.
Qed.
Lemma fl_fail reason : rel (same flags) (fail_portfolio_reconciliation clk reason).
Proof. unfold fail_portfolio_reconciliation, tally. rel_auto. Qed.
#[local] Hint Resolve fl_fail : frame.
Lemma fl_start_portfolio p : rel (same flags) (start_portfolio_request clk p).
Proof. unfold start_portfolio_request, tally, file_inflight. rel_auto. Qed.
#[local] Hint Resolve fl_start_portfolio : frame.
Lemma fl_receive n : rel (same flags) (receive_http clk n).
Proof.
  induction n as [|n IH]; cbn [receive_http]; [rel_auto|].
  assert (∀ p r, rel (same flags) (complete_portfolio_request clk p r)).
  { intros p r. unfold complete_portfolio_request, maybe_finish_portfolio_reconciliation, tally. rel_auto. }
  unfold tally. rel_auto.
Qed.
Definition marker s := re_drain_marker_sent s.
Lemma mk_flags {A} (m : M RestState A) : rel (same flags) m → rel (same marker) m.
Proof. intros Hm s. specialize (Hm s). by injection Hm. Qed.
Lemma mk_handle c : rel (same marker) (handle_oms_command clk c).
Proof.
  unfold handle_oms_command, tally. apply rel_bind; [exact _|by intros s|intros _]. destruct c.
  1-4: apply mk_flags; unfold send_order_command, reject, emit_local_reject, tally, file_inflight; rel_auto.
  - apply mk_flags. unfold handle_portfolio_reconciliation, refuse_portfolio. rel_auto.
  - assert (∀ reason, rel (same marker) (fault reason)) by (intros; apply mk_flags, fl_fault).
    assert (rel (same marker) try_send_pending_control_notifications) by apply mk_flags, fl_notify. unfold handle_close_egress. rel_auto.
Qed.
Lemma mk_oms_loop n : rel (same marker) (oms_loop clk n).
Proof.
  induction n as [|n IH]; cbn [oms_loop]; [by intros s|]. assert (rel (same marker) pop_oms) by (intros s; unfold pop_oms; by destruct (re_oms_to_order_rest_queue s)).
  pose proof mk_handle. rel_auto.
Qed.

(** Once drained the session says nothing more. *)
Definition drained s : Prop := re_drain_marker_sent s = true ∧ re_egress_closed s = true ∧ re_inflight_requests s = ∅.
Definition last_word s : Prop :=
  if re_drain_marker_sent s then drained s ∧ ∃ l m, stream s = l ++ [KeDrained m] ∧ Forall plain l else Forall plain (stream s).

Definition keeps_still s s' : Prop := inv s → drained s → inv s' ∧ drained s' ∧ stream s' = stream s.
#[local] Instance keeps_still_preorder : PreOrder keeps_still.
Proof.
  split; [by intros s|]. intros s s1 s2 H1 H2 Hi Hd. destruct (H1 Hi Hd) as (I1 & D1 & S1). destruct (H2 I1 D1) as (I2 & D2 & S2). by rewrite S2.
Qed.
Lemma still_books {A} (m : M RestState A) : rel (same books) m → rel (same flags) m → rel keeps_still m.
Proof.
  intros Hb Hf s Hi (D1 & D2 & D3). specialize (Hb s). specialize (Hf s). destruct (settles_books _ _ Hb Hi) as (I & _). split; [done|].
  unfold same, books in Hb. injection Hb as E1 E2 E3 E4 E5 E6 E7. injection Hf as F1 F2. split; [split_and!; congruence|]. unfold stream, pending. by rewrite E1, E2, E3, E5.
Qed.
Lemma still_drain : rel keeps_still drain_pending_oms_events.
Proof.
  intros s Hi (D1 & D2 & D3). pose proof (fl_drain s) as Hf. injection Hf as F1 F2. pose proof (pt_drain s) as Hp. injection Hp as P1 P2 P3.
  destruct (drain_keeps s Hi) as (I & S & _). split; [done|]. split; [split_and!; congruence|done].
Qed.
Lemma still_receive n : rel keeps_still (receive_http clk n).
Proof.
  destruct n as [|n]; [by intros s|]. intros s Hi Hd. change (wp (receive_http clk (S n)) (λ _ s', inv s' ∧ drained s' ∧ stream s' = stream s) s). cbn [receive_http]. wp_step.
  eapply (wp_rel keeps_still); [apply (still_books _ bo_poll fl_poll)|]. intros poll s1 H1. destruct (H1 Hi Hd) as (I1 & D1 & S1).
  assert (∀ reason, wp (fault reason) (λ _ s', inv s' ∧ drained s' ∧ stream s' = stream s) s1) as Hf.
  { intros reason. eapply (wp_rel keeps_still); [apply (still_books _ (bo_fault clk reason) (fl_fault reason))|]. intros _ s2 H2. destruct (H2 I1 D1) as (I2 & D2 & S2). by rewrite S2. }
  destruct (negb _); [by wp_step|]. destruct (hp_response poll) as [response|]; [|apply Hf]. wp_step. unfold wp at 1, take_inflight. cbn [fst snd]. destruct D1 as (F1 & F2 & Ei).
  rewrite Ei, lookup_empty. replace (s1 ⟪ re_inflight_requests ::= delete (hs_request_id response) ⟫) with s1; [apply Hf|]. destruct s1. cbn in *. unfold upd. cbn. by rewrite Ei, delete_empty.
Qed.
Lemma still_egress : rel keeps_still (finish_egress_drain clk).
Proof.
  intros s Hi Hd. change (wp (finish_egress_drain clk) (λ _ s', inv s' ∧ drained s' ∧ stream s' = stream s) s). unfold finish_egress_drain. do 2 wp_step.
  pose proof Hd as (D1 & _ & _). rewrite D1, orb_true_r. by wp_steps.
Qed.
Lemma still_oms : rel keeps_still (drain_oms_commands clk).
Proof.
  intros s Hi Hd. change (wp (drain_oms_commands clk) (λ _ s', inv s' ∧ drained s' ∧ stream s' = stream s) s). unfold drain_oms_commands. wp_steps.
  destruct (length _) as [|n]; [done|]. cbn [oms_loop]. wp_steps. pose proof Hd as (_ & D2 & _). rewrite D2. by wp_steps.
Qed.
Lemma still_tail : rel keeps_still (open ← gets (λ s : RestState, re_enabled s && negb (re_faulted s) && (re_pending_oms_count s =? 0));
    when open (drain_oms_commands clk);; maybe_send_telemetry clk).
Proof.
  apply rel_bind; [exact _|rel_auto|intros open]. apply rel_bind; [exact _|apply rel_when; [exact _|apply still_oms]|intros _; apply still_books; [apply bo_telemetry|apply fl_telemetry]].
Qed.

(** Until then all it says is plain. *)
Definition typed_queue s : Prop := Forall typed_command (omap id (re_oms_to_order_rest_queue s)).
Record word_ok s : Prop := { wo_inv : inv s; wo_typed : typed_queue s; wo_last : last_word s }.
Definition adds_plain s s' : Prop := inv s → typed_queue s → inv s' ∧ typed_queue s' ∧ ∃ msgs, stream s' = stream s ++ msgs ∧ Forall plain msgs.

Lemma serves_plain {A} (m : M RestState A) : rel (serves_by plain) m → rel adds_plain m.
Proof.
  intros Hm s Hi Ht. destruct (Hm s Ht) as (taken & E & Hs). destruct (Hs Hi) as (I & _ & msgs & _ & S & N & _). split; [done|]. split; [|by exists msgs].
  unfold typed_queue in *. rewrite E, omap_app, Forall_app in Ht. apply Ht.
Qed.
Lemma input_plain {A} (m : M RestState A) : rel (same oms_input) m → rel (settles_by plain []) m → rel adds_plain m.
Proof. intros Ho Hs. apply serves_plain. intros s. apply serves_input; [apply Ho|apply Hs]. Qed.
Lemma drain_plain : rel adds_plain drain_pending_oms_events.
Proof.
  intros s Hi Ht. destruct (drain_keeps s Hi) as (I & S & _ & O). split; [done|]. split; [unfold typed_queue; unfold oms_input in O; by rewrite O|]. exists []. by rewrite app_nil_r.
Qed.
Lemma word_keeps {A} (m : M RestState A) : rel adds_plain m → rel (same marker) m → rel keeps_still m → rel (keeps word_ok) m.
Proof.
  intros Ha Hm Hk s [Hi Ht Hl]. destruct (Ha s Hi Ht) as (I & T & msgs & S & N). split; [done|done|]. specialize (Hm s). unfold same, marker in Hm. unfold last_word in *. rewrite Hm.
  destruct (re_drain_marker_sent s) eqn:Em; [|rewrite S; by apply Forall_app]. destruct Hl as [Hd Hl]. destruct (Hk s Hi Hd) as (_ & D & ->). done.
Qed.

Lemma word_books {A} (m : M RestState A) : rel (same books) m → rel (same oms_input) m → rel (same flags) m → rel (keeps word_ok) m.
Proof. intros Hb Ho Hf. apply word_keeps; [by apply input_plain; [|apply qu_books]|by apply mk_flags|by apply still_books]. Qed.
Lemma word_egress : rel (keeps word_ok) (finish_egress_drain clk).
Proof.
  intros s Hs. pose proof Hs as [Hi Ht Hl]. assert (typed_queue (finish_egress_drain clk s).2) as Ht'.
  { unfold typed_queue. pose proof (in_egress clk s) as O. unfold same, oms_input in O. by rewrite O. }
  destruct (egress_outcome clk s Hi) as [[Hp Hm]|(I & _ & Em & Em' & Ec & Ei & _ & _ & m & S)].
  - destruct (Hp Hi) as (I & _ & msgs & _ & S & N & _). split; [done|done|]. unfold last_word in *. rewrite Hm. destruct (re_drain_marker_sent s) eqn:Em; [|rewrite S; by apply Forall_app].
    destruct Hl as [Hd Hl]. destruct (still_egress s Hi Hd) as (_ & D & ->). done.
  - split; [done|done|]. unfold last_word in *. rewrite Em in Hl. rewrite Em'. split; [done|]. by exists (stream s), m.
Qed.
Lemma word_oms : rel (keeps word_ok) (drain_oms_commands clk).
Proof.
  apply word_keeps; [apply serves_plain| |apply still_oms]; unfold drain_oms_commands.
  - apply rel_bind; [apply serves_preorder|intros s; by apply serves_input; [|apply settles_books]|intros fuel; apply oms_loop_serves].
  - apply rel_bind; [exact _|by intros s|intros fuel; apply mk_oms_loop].
Qed.

Lemma word_run : rel (keeps word_ok) (run_once clk).
Proof.
  unfold run_once. apply rel_bind; [exact _|apply word_books; [exact (bo_drain_control clk)|exact in_drain_control|apply fl_drain_control]|intros _].
  apply rel_bind; [exact _|apply word_keeps; [apply drain_plain|apply mk_flags, fl_drain|apply still_drain]|intros _].
  apply rel_bind; [exact _|apply word_keeps; [apply input_plain; [apply in_receive|apply receive_settles]|apply mk_flags, fl_receive|apply still_receive]|intros _].
  apply rel_bind; [exact _|apply word_egress|intros _]. apply rel_bind; [exact _|by intros s|intros open].
  apply rel_bind; [exact _|apply rel_when; [exact _|apply word_oms]|intros _]. apply word_books; [apply bo_telemetry|apply in_telemetry|apply fl_telemetry].
Qed.

(** ** Runs *)

Lemma rounds_portfolio inputs s : portfolio_ok s → portfolio_ok (rounds clk inputs s).
Proof.
  intros Hs. induction inputs as [|i inputs IH] using rev_ind; [done|]. rewrite rounds_snoc. apply run_portfolio_ok. by eapply portfolio_ok_port; [|exact IH].
Qed.
Lemma rounds_word inputs s : inv s → last_word s → Forall typed_command (omap id (re_oms_to_order_rest_queue s ++ commands inputs)) → word_ok (rounds clk inputs s).
Proof.
  intros Hi Hl. induction inputs as [|i inputs IH] using rev_ind; intros Ht.
  - split; [done| |done]. unfold commands in Ht. cbn in Ht. by rewrite app_nil_r in Ht.
  - unfold commands in Ht. rewrite bind_app, app_assoc, omap_app, Forall_app in Ht. destruct Ht as [Ht Hti]. cbn in Hti. rewrite app_nil_r in Hti. destruct (IH Ht) as [I T L].
    rewrite rounds_snoc. apply word_run. split; [by destruct I as [[R1 R2 R3] Hf]| |exact L]. unfold typed_queue, hand_over. cbn. rewrite omap_app. by apply Forall_app.
Qed.

(** A reconciliation of the portfolio is always under way or over.  In every state a run
    reaches, if a reconciliation is being carried out then exactly one of its requests is in
    flight, the one for the balance until that has come and one for a page of positions
    after that, for the reconciliation that is carried out; and if none is, no such request is
    in flight.  So no reconciliation waits for a response that cannot come, none is answered
    from the pages of another, and the pages are asked for one after the other. *)
Theorem reconciliation_in_step http adapter from_control to_control from_oms to_oms inputs :
  match re_active_portfolio_reconciliation (rounds clk inputs (make_rest_session clk http adapter from_control to_control from_oms to_oms)) with
  | None => ∀ id p, re_inflight_requests (rounds clk inputs (make_rest_session clk http adapter from_control to_control from_oms to_oms)) !! id ≠ Some (InflightPortfolio p)
  | Some a => ∃ id p, (∀ id' p', re_inflight_requests (rounds clk inputs (make_rest_session clk http adapter from_control to_control from_oms to_oms)) !! id' =
        Some (InflightPortfolio p') ↔ id' = id ∧ p' = p) ∧
      pp_reconciliation_id p = rr_reconciliation_id (ap_command a) ∧ pp_kind p = if ap_balance_complete a then kPOSITIONS else kBALANCE
  end.
Proof.
  set (s0 := make_rest_session clk _ _ _ _ _ _). assert (portfolio_ok s0) as Hp0 by (split; [intros id p; cbn; by rewrite lookup_empty|cbn; unfold is_u64; lia]).
  destruct (rounds_portfolio inputs s0 Hp0) as [Hs _]. unfold in_step in Hs. destruct (re_active_portfolio_reconciliation _) as [a|]; [|exact Hs].
  destruct Hs as (_ & id & p & Hin & [H1 H2] & Hone). exists id, p. split; [|done]. intros id' p'. split; [|by intros [-> ->]]. intros Hin'. assert (id' = id) as -> by (by eapply Hone). split; [done|congruence].
Qed.

(** C15: the event that says the session is drained is its last word.  In any run, if among the
    events sent to the OMS or waiting to be sent there is one that says that the session is
    drained, then it is the only one and the last, and nothing is owed any more: no request is
    in flight and no reconciliation is carried out.  The OMS may stop when it reads it. *)
Theorem drained_is_the_last_word http adapter from_control to_control from_oms to_oms inputs m :
  q_sent to_oms = [] → Forall typed_command (omap id (from_oms ++ commands inputs)) →
  KeDrained m ∈ stream (rounds clk inputs (make_rest_session clk http adapter from_control to_control from_oms to_oms)) →
  (∃ answers, stream (rounds clk inputs (make_rest_session clk http adapter from_control to_control from_oms to_oms)) = answers ++ [KeDrained m] ∧ Forall plain answers) ∧
  owed (rounds clk inputs (make_rest_session clk http adapter from_control to_control from_oms to_oms)) = [].
Proof.
  intros Hq Ht Hin. set (s0 := make_rest_session clk _ _ _ _ _ _) in *. assert (portfolio_ok s0) as Hp0 by (split; [intros id p; cbn; by rewrite lookup_empty|cbn; unfold is_u64; lia]).
  assert (last_word s0) as Hl0 by (unfold last_word, stream, pending; cbn; by rewrite Hq).
  destruct (rounds_word inputs s0 (make_inv _ _ _ _ _ _ _) Hl0 Ht) as [_ _ Hl]. destruct (rounds_portfolio inputs s0 Hp0) as [Hs _]. unfold last_word in Hl.
  assert (∀ l, Forall plain l → KeDrained m ∈ l → False) as Hno by (intros l Hp Hm; rewrite Forall_forall in Hp; by apply (Hp _ Hm)).
  destruct (re_drain_marker_sent _); [|by destruct (Hno _ Hl)]. destruct Hl as ((_ & _ & Ei) & l & m' & E & Hp). split.
  - rewrite E in Hin. apply elem_of_app in Hin as [Hin|Hin%list_elem_of_singleton]; [by destruct (Hno _ Hp)|]. simplify_eq. by exists l.
  - unfold owed. rewrite Ei, map_to_list_empty. cbn. unfold in_step in Hs. destruct (re_active_portfolio_reconciliation _) as [a|]; [|done].
    destruct Hs as (_ & id & p & Hin' & _). by rewrite Ei, lookup_empty in Hin'.
Qed.
End RestDrained.
End RestDrained.

(** ** A concrete REST session for the witnesses

    Two markets; an order, a batch of two legs and a reconciliation are sent, answered out of
    order, and the session is closed. *)

Open Scope Z_scope.

Module RestDemo.
Import RestAdapter RestOrders RestBatch RestSession RestSettled RestDrained.

(** ** JSON as trees *)

#[warnings="-register-all"]
Inductive Tree := | TString (s : string) | TInt (z : Z) | TArray (l : list Tree) | TObject (members : list (string * Tree)).

Definition member (t : Tree) (name : string) : option Tree :=
  match t with TObject ms => snd ∘ snd <$> list_find (λ m, m.1 = name) ms | _ => None end.
Definition filled (order_id client_id : string) : Tree :=
  TObject [("order_id", TString order_id); ("client_order_id", TString client_id); ("fill_count", TString "2.00"); ("remaining_count", TString "0.00")]%string.

(** The bodies of the run. *)
Definition document (body : string) : string + Tree :=
  if bool_decide (body = "order"%string) then inr (filled "X1" "c1")
  else if bool_decide (body = "batch"%string) then inr (TObject [("orders", TArray [filled "X3" "c3"; filled "X2" "c2"])]%string)
  else if bool_decide (body = "balance"%string) then inr (TObject [("balance", TInt 5000); ("portfolio_value", TInt 7000)]%string)
  else if bool_decide (body = "positions"%string)
  then inr (TObject [("market_positions", TArray [TObject [("ticker", TString "KX-A"); ("position_fp", TString "-2.00")]])]%string)
  else inl "parse error"%string.

#[local] Instance demo_nlohmann : NlohmannJson := {|
  json := Tree;
  json_parse := document;
  json_is_object t := match t with TObject _ => true | _ => false end;
  json_is_array t := match t with TArray _ => true | _ => false end;
  json_is_string t := match t with TString _ => true | _ => false end;
  json_is_null t := false;
  json_is_number_integer t := match t with TInt _ => true | _ => false end;
  json_is_number_unsigned t := match t with TInt z => 0 <=? z | _ => false end;
  json_contains t name := bool_decide (is_Some (member t name));
  json_at t name := default (TObject []) (member t name);
  json_empty t := match t with TObject [] | TArray [] => true | _ => false end;
  json_items t := match t with TArray l => l | _ => [] end;
  json_get_string t := match t with TString s => s | _ => ""%string end;
  json_get_int64 t := match t with TInt z => inr z | _ => inl "not a number"%string end;
  json_get_uint64 t := match t with TInt z => u64 z | _ => 0 end;
  json_dump t := inr "error"%string;
|}.

(** ** HTTP as a script: what the next polls return *)

Definition Script : Type := list HttpPollResult.
#[local] Instance demo_http : HttpSession Script := {|
  http_warm_up h := (true, h);
  http_start_request _ h := (kSTART_ACCEPTED, h);
  http_poll h := match h with [] => (default_HttpPollResult, []) | r :: h => (r, h) end;
  http_last_error _ := ""%string;
|}.

Definition idle : HttpPollResult := default_HttpPollResult.
Definition answered (id : Z) (body : string) : HttpPollResult :=
  mkHttpPollResult kHTTP_COMPLETED (Some (default_HttpResponse ⟪ hs_request_id := id ⟫ ⟪ hs_ok := true ⟫ ⟪ hs_status_code := 201 ⟫ ⟪ hs_body := body ⟫)).

(** ** The run *)

Definition demo_routes : OrderRouteUniverse :=
  mkOrderRouteUniverse 3 [default_OrderMarketRoute ⟪ mr_market_id := 71 ⟫ ⟪ mr_event_id := 7 ⟫ ⟪ mr_kalshi_ticker := "KX-A"%string ⟫ ⟪ mr_tradeable := true ⟫;
                          default_OrderMarketRoute ⟪ mr_market_id := 72 ⟫ ⟪ mr_event_id := 7 ⟫ ⟪ mr_kalshi_ticker := "KX-B"%string ⟫ ⟪ mr_tradeable := true ⟫].
Definition leg (request market leg_index leg_count : Z) (id : string) (outcome : Outcome) : SubmitOrderCmd :=
  mkSubmitOrderCmd request id
    (mkNewOrderIntent (default_IntentContext ⟪ ic_market_id := market ⟫ ⟪ ic_event_id := 7 ⟫ ⟪ ic_group_intent_id := 9 ⟫ ⟪ ic_leg_index := leg_index ⟫ ⟪ ic_leg_count := leg_count ⟫)
       outcome kBUY kTAKER kLIMIT kIOC 4200 200) 0 false.
Definition demo_batch : SubmitOrderBatchCmd :=
  default_SubmitOrderBatchCmd ⟪ sbc_oms_request_id := 4 ⟫ ⟪ sbc_oms_group_id := 5 ⟫ ⟪ sbc_group_context := default_IntentContext ⟪ ic_event_id := 7 ⟫ ⟪ ic_group_intent_id := 9 ⟫ ⟫
    ⟪ sbc_order_count := 2 ⟫ ⟪ sbc_orders := [leg 2 71 0 2 "c2" kYES; leg 3 72 1 2 "c3" kNO] ++ replicate 8 default_SubmitOrderCmd ⟫.
Definition demo_commands : list (option OmsToKalshiCommand) :=
  [Some (KcSubmit (leg 1 71 0 1 "c1" kNO)); Some (KcSubmitBatch demo_batch); Some (KcReconcile (mkRequestPortfolioReconciliation 8 3 100))].

Definition demo_script : Script :=
  [idle; answered 4 "batch"; answered 1 "order"; answered U64_MAX "balance"; idle; answered (U64_MAX - 1) "positions"; idle].
Definition demo_clock (n : nat) : Z := 1000 * Z.of_nat n.
Definition room {T} : Fifo T := mkFifo 8 [] [] [].
Definition sent_inputs : list Input := [([Some (CrApplyOrderRouteUniverse (Some demo_routes)); Some CrEnable], demo_commands)].
Definition closed_inputs : list Input := sent_inputs ++ [([], []); ([], [Some (KcClose 6 200 1)]); ([], [])].
Abbreviation demo_session inputs :=
  (rounds (Q := Fifo) (H := Script) demo_clock inputs (make_rest_session demo_clock demo_script default_Adapter [] room [] room)).

(** Three commands are taken, and all are owed. *)
Example sent_owes : size (re_inflight_requests (demo_session sent_inputs)) = 3%nat ∧ length (owed (demo_session sent_inputs)) = 3%nat ∧ stream (demo_session sent_inputs) = [].
Proof. vm_compute. split_and!; reflexivity. Qed.
(** Then they are answered. *)
Example closed_answers : (stream (demo_session closed_inputs) ≫= event_duty) = [OrderDuty 4; OrderDuty 1; PortfolioDuty 8] ∧ owed (demo_session closed_inputs) = [].
Proof. vm_compute. split; reflexivity. Qed.

(** ** Witnesses *)

Lemma every_command_is_settled_witness :
  ∃ taken lost, commands closed_inputs = taken ++ re_oms_to_order_rest_queue (demo_session closed_inputs) ∧
    (omap id taken ≫= command_duty) ≡ₚ [OrderDuty 4; OrderDuty 1; PortfolioDuty 8] ++ lost.
Proof.
  assert (q_sent (room : Fifo KalshiToOmsEvent) = []) as H1 by reflexivity.
  assert (Forall typed_command (omap id ([] ++ commands closed_inputs))) as H2 by (repeat constructor).
  destruct (every_command_is_settled (Q := Fifo) (H := Script) demo_clock demo_script default_Adapter [] room [] room closed_inputs H1 H2)
    as (taken & lost & E & P & _). exists taken, lost. split; [exact E|]. destruct closed_answers as [C1 C2]. rewrite C1, C2 in P. exact P.
Defined.

Definition demo_drained : OrderRestEgressDrained := mkOrderRestEgressDrained 1 5000.
Lemma drained_is_the_last_word_witness :
  (∃ answers, stream (demo_session closed_inputs) = answers ++ [KeDrained demo_drained] ∧ Forall plain answers) ∧ owed (demo_session closed_inputs) = [].
Proof.
  assert (q_sent (room : Fifo KalshiToOmsEvent) = []) as H1 by reflexivity.
  assert (Forall typed_command (omap id ([] ++ commands closed_inputs))) as H2 by (repeat constructor).
  assert (KeDrained demo_drained ∈ stream (demo_session closed_inputs)) as H3.
  { apply last_Some_elem_of. vm_compute. reflexivity. }
  exact (drained_is_the_last_word (Q := Fifo) (H := Script) demo_clock demo_script default_Adapter [] room [] room closed_inputs demo_drained H1 H2 H3).
Defined.

Definition demo_adapter : Adapter := make_adapter (Some demo_routes).
Lemma demo_writable : writable_tickers demo_adapter.
Proof.
  intros id ticker Hl. assert (ticker ∈ ["KX-A"; "KX-B"]%string) as Hin.
  { assert ((map_to_list (ad_ticker_by_market_id demo_adapter)).*2 = ["KX-A"; "KX-B"]%string) as <- by (vm_compute; reflexivity).
    apply list_elem_of_fmap. exists (id, ticker). split; [done|]. by apply elem_of_map_to_list. }
  apply list_elem_of_In in Hin. destruct Hin as [<-|[<-|[]]]; unfold writable; cbn; repeat constructor; vm_compute; discriminate.
Qed.
Lemma orders_are_written_as_meant_witness :
  ∃ vs, read_json (hq_body (po_request (prepare_command demo_adapter (KcSubmitBatch demo_batch)))) = Some (VObject [("orders"%string, VList vs)]) ∧
    Forall2 (is_order demo_adapter) (take 2 (sbc_orders demo_batch)) vs.
Proof.
  assert (writable_command (KcSubmitBatch demo_batch)) as H1.
  { split; [reflexivity|]. split; [|vm_compute; discriminate]. repeat constructor; vm_compute; discriminate. }
  assert (po_ok (prepare_command demo_adapter (KcSubmitBatch demo_batch)) = true) as H2 by (vm_compute; reflexivity).
  exact (orders_are_written_as_meant demo_adapter (KcSubmitBatch demo_batch) demo_writable H1 H2).
Defined.

Definition demo_prepared : PreparedOrderRestRequest := prepare_command demo_adapter (KcSubmitBatch demo_batch).
Definition demo_response : HttpResponse := default_HttpResponse ⟪ hs_request_id := 4 ⟫ ⟪ hs_status_code := 201 ⟫ ⟪ hs_body := "batch"%string ⟫.
Lemma batch_acknowledged_leg_by_leg_witness :
  ∃ parsed σ, json_parse (hs_body demo_response) = inr parsed ∧ σ ≡ₚ seq 0 2 ∧ length (json_items (json_at parsed "orders")) = length σ.
Proof.
  assert (po_source_command demo_prepared = KcSubmitBatch demo_batch) as H1 by (vm_compute; reflexivity).
  assert (0 ≤ sbc_order_count demo_batch) as H2 by (vm_compute; discriminate).
  assert (cb_ok (complete_batch_request demo_prepared demo_response) = true) as H3 by (vm_compute; reflexivity).
  destruct (batch_acknowledged_leg_by_leg demo_prepared demo_response demo_batch H1 H2 H3) as (parsed & σ & P1 & P2 & P3 & _).
  exists parsed, σ. split; [exact P1|]. split; [exact P2|exact P3].
Defined.
End RestDemo.
