(* ===== verification/OrderParser.v ===== *)
(** * OrderParser: messages of the private feed

    Models [cpp/src/ingest/kalshi/order_data/order_parser.cpp]: fills, updates of orders,
    positions and responses to subscriptions, over the answers of simdjson. *)

From S2P Require Import Prelude MoneyTicks FixedPoint Book MarketParser Wire OmsTypes RestAdapter.
From Stdlib Require Import Ascii.
From Stdlib Require String.
Open Scope Z_scope.

(** The booleans of a document. *)
Class SimdJsonBooleans `{SJ : SimdJson} := { value_get_bool : jvalue → option bool }.

Module OrderParser.
Import Book MoneyTicks.
Import RestAdapter(chars, text).

Definition kMAX_TICKER_LEN : nat := 128.

Inductive OrderIncomingMessageKind := | kCONTROL_RESPONSE | kORDER_DATA | kMESSAGE_IGNORE | kMESSAGE_MALFORMED.
#[export] Instance OrderIncomingMessageKind_eq_dec : EqDecision OrderIncomingMessageKind.
Proof. solve_decision. Defined.

Record OrderControlResponse := mkOrderControlResponse {
  oc_request_id : Z;
  oc_session_id : option Z;
  oc_success : bool;
  oc_error_message : string;
}.
#[export] Instance eta_OrderControlResponse : Eta OrderControlResponse := λ r,
  mkOrderControlResponse (oc_request_id r) (oc_session_id r) (oc_success r) (oc_error_message r).
Definition default_OrderControlResponse : OrderControlResponse := mkOrderControlResponse 0 None false "".

Inductive OrderParseCode := | kPARSE_OK | kPARSE_IGNORE | kINVALID_JSON | kUNSUPPORTED_TYPE | kMISSING_FIELD | kUNKNOWN_ORDER_STATE | kINVALID_ORDER_ID.
#[export] Instance OrderParseCode_eq_dec : EqDecision OrderParseCode.
Proof. solve_decision. Defined.

(** The ticker is the text the storage holds up to its length. *)
Record ParsedOrderMessage := mkParsedOrderMessage {
  pm_kind : OrderIncomingMessageKind;
  pm_parse_code : OrderParseCode;
  pm_control_response : OrderControlResponse;
  pm_order_event : PrivateWsOrderEvent;
  pm_market_ticker : string;
}.
#[export] Instance eta_ParsedOrderMessage : Eta ParsedOrderMessage := λ r,
  mkParsedOrderMessage (pm_kind r) (pm_parse_code r) (pm_control_response r) (pm_order_event r) (pm_market_ticker r).
Definition default_ParsedOrderMessage : ParsedOrderMessage :=
  mkParsedOrderMessage kMESSAGE_IGNORE kPARSE_OK default_OrderControlResponse default_PrivateWsOrderEvent "".

Abbreviation P := (M ParsedOrderMessage).
Definition write (f : PrivateWsOrderEvent → PrivateWsOrderEvent) : P unit := modify (λ m, m ⟪ pm_order_event ::= f ⟫).

Definition assign_market_ticker (ticker : list ascii) : P bool :=
  if (kMAX_TICKER_LEN <=? length ticker)%nat then modify (λ m, m ⟪ pm_market_ticker := ""%string ⟫);; mret false
  else modify (λ m, m ⟪ pm_market_ticker := text ticker ⟫);; mret true.

(** ** Numbers and tokens *)

(** The text of the market parser's function of this name. *)
Definition parse_scaled_fp : list ascii → Z → nat → bool → option Z := FixedPoint.parse_scaled_fp.

(** A number is written before its range is tested. *)
Definition written (set : Z → PrivateWsOrderEvent → PrivateWsOrderEvent) (number : option Z) : P bool :=
  match number with
  | None => mret false
  | Some out => write (set out);; mret true
  end.
Definition parse_price_ticks (value : list ascii) (set : Z → PrivateWsOrderEvent → PrivateWsOrderEvent) : P bool :=
  match parse_scaled_fp value kTICKSCALE 4 false with
  | None => mret false
  | Some out => write (set out);; mret ((0 <=? out) && (u64 out <=? kTICKSCALE))
  end.
Definition parse_qty_lots (value : list ascii) : option Z := parse_scaled_fp value kQTY_SCALE 2 false.
Definition parse_signed_qty_lots (value : list ascii) : option Z := parse_scaled_fp value kQTY_SCALE 2 true.

Definition parse_ts_ms_to_ns (ts_ms : Z) : option Z := if U64_MAX / 1000000 <? ts_ms then None else Some (u64 (ts_ms * 1000000)).

Definition token (value : list ascii) (literal : string) : bool := bool_decide (value = chars literal).
Definition parse_outcome (value : list ascii) : option Outcome :=
  if token value "yes" then Some kYES else if token value "no" then Some kNO else None.
Definition parse_action (value : list ascii) : option OrderAction :=
  if token value "buy" then Some kBUY else if token value "sell" then Some kSELL else None.
Definition parse_order_state (value : list ascii) : option OrderState :=
  if token value "resting" || token value "open" then Some kWORKING
  else if token value "partially_filled" then Some kPARTIALLY_FILLED
  else if token value "filled" || token value "executed" then Some kFILLED
  else if token value "canceled" || token value "cancelled" then Some kCANCELED
  else if token value "rejected" then Some kREJECTED
  else if token value "expired" then Some kEXPIRED
  else None.

Definition chosen {A} (set : A → PrivateWsOrderEvent → PrivateWsOrderEvent) (choice : option A) : P bool :=
  match choice with
  | None => mret false
  | Some a => write (set a);; mret true
  end.

Definition assign_id (set : string → PrivateWsOrderEvent → PrivateWsOrderEvent) (id : list ascii) : P bool :=
  let '(ok, stored) := assign_from (text id) in write (set stored);; mret ok.
Definition assign_exchange_order_id : list ascii → P bool := assign_id (λ id e, e ⟪ pw_exchange_order_id := id ⟫).
Definition assign_optional_client_order_id (id : list ascii) : P bool :=
  if bool_decide (id = []) then mret true else assign_id (λ id e, e ⟪ pw_client_order_id := id ⟫) id.

Definition normalize_price_for_outcome : P unit :=
  modify (λ m, match pw_outcome (pm_order_event m) with
               | kNO => m ⟪ pm_order_event ::= λ e, e ⟪ pw_last_fill_price_ticks ::= λ price, kTICKSCALE - price ⟫ ⟫
               | _ => m
               end).

(** ** Messages *)

Section OrderParser.
Context {SJ : SimdJson} {SJN : SimdJsonNumbers} {SJB : SimdJsonBooleans}.

Definition find_field (obj : jobject) (key : string) : option jvalue :=
  match find_field_unordered obj key with inl _ => None | inr v => Some v end.
Definition read_uint64 (obj : jobject) (key : string) : option Z := v ← find_field obj key; value_get_uint64 v.
Definition read_bool (obj : jobject) (key : string) : option bool := v ← find_field obj key; value_get_bool v.
Definition read_string (obj : jobject) (key : string) : option (list ascii) := v ← find_field obj key; value_get_string v.
Definition read_optional_string (obj : jobject) (key : string) : option (list ascii) := v ← find_field obj key; value_get_string v.
Definition read_object (obj : jobject) (key : string) : option jobject := v ← find_field obj key; value_get_object v.

(** [if(!read_string(msg, key, value) || !use(value)) return error;] *)
Definition with_string (msg : jobject) (key : string) (use : list ascii → P bool) : P bool :=
  match read_string msg key with None => mret false | Some value => use value end.
Definition need (error : OrderParseCode) (test : P bool) (rest : P OrderParseCode) : P OrderParseCode :=
  ok ← test;
  if ok : bool then rest else mret error.
(** A time that may be missing. *)
Definition optional_ts (msg : jobject) (key : string) : P bool :=
  match read_uint64 msg key with
  | None => mret true
  | Some ts_ms => written (λ ts e, e ⟪ pw_venue_ts_ns := ts ⟫) (parse_ts_ms_to_ns ts_ms)
  end.

Definition open_message (message : list Z) : option jobject :=
  document ← iterate message (Z.of_nat (length message));
  document_get_object document.

Definition classify_message (message : list Z) : OrderIncomingMessageKind :=
  if bool_decide (message = []) then kMESSAGE_IGNORE
  else
    match open_message message with
    | None => kMESSAGE_MALFORMED
    | Some root =>
        match read_string root "type" with
        | None => kMESSAGE_IGNORE
        | Some type =>
            if token type "fill" || token type "user_order" || token type "market_position" then kORDER_DATA
            else if token type "subscribed" || token type "unsubscribed" || token type "error" then kCONTROL_RESPONSE
            else kMESSAGE_IGNORE
        end
    end.

Definition parse_control_response (message : list Z) : OrderParseCode * OrderControlResponse :=
  let r := default_OrderControlResponse in
  if bool_decide (message = []) then (kPARSE_IGNORE, r)
  else
    match open_message message with
    | None => (kINVALID_JSON, r)
    | Some root =>
        match read_uint64 root "id" with
        | None => (kMISSING_FIELD, r)
        | Some request_id =>
            let r := r ⟪ oc_request_id := request_id ⟫ in
            match read_string root "type" with
            | None => (kMISSING_FIELD, r)
            | Some type =>
                if token type "error" then (kPARSE_OK, r ⟪ oc_success := false ⟫ ⟪ oc_error_message := "Kalshi websocket command failed"%string ⟫)
                else if token type "subscribed" then
                  match (msg ← read_object root "msg"; read_uint64 msg "sid") with
                  | None => (kMISSING_FIELD, r ⟪ oc_success := false ⟫ ⟪ oc_error_message := "subscribed response missing sid"%string ⟫)
                  | Some sid => (kPARSE_OK, r ⟪ oc_success := true ⟫ ⟪ oc_session_id := Some (i64 sid) ⟫)
                  end
                else if token type "unsubscribed" then (kPARSE_OK, r ⟪ oc_success := true ⟫)
                else (kUNSUPPORTED_TYPE, r ⟪ oc_success := false ⟫ ⟪ oc_error_message := "unsupported control response type"%string ⟫)
            end
        end
    end.

Definition parse_fill_event (msg : jobject) : P OrderParseCode :=
  write (λ e, e ⟪ pw_event_kind := kFILL ⟫);;
  need kINVALID_ORDER_ID (with_string msg "trade_id" (assign_id (λ id e, e ⟪ pw_trade_id := id ⟫))) (
  need kINVALID_ORDER_ID (with_string msg "order_id" assign_exchange_order_id) (
  need kMISSING_FIELD (with_string msg "market_ticker" assign_market_ticker) (
  need kMISSING_FIELD (with_string msg "side" (λ v, chosen (λ o e, e ⟪ pw_outcome := o ⟫) (parse_outcome v))) (
  need kMISSING_FIELD (with_string msg "action" (λ v, chosen (λ a e, e ⟪ pw_action := a ⟫) (parse_action v))) (
  need kMISSING_FIELD (with_string msg "yes_price_dollars" (λ v, parse_price_ticks v (λ p e, e ⟪ pw_last_fill_price_ticks := p ⟫))) (
  normalize_price_for_outcome;;
  need kMISSING_FIELD (with_string msg "count_fp" (λ v, written (λ q e, e ⟪ pw_last_fill_qty_lots := q ⟫) (parse_qty_lots v))) (
  need kMISSING_FIELD (optional_ts msg "ts_ms") (
  mret kPARSE_OK)))))))).

(** The outcome of an order: its side, or else the flag. *)
Definition order_outcome (msg : jobject) : P bool :=
  let set := λ o e, e ⟪ pw_outcome := o ⟫ in
  match read_string msg "side" with
  | Some side => chosen set (parse_outcome side)
  | None =>
      match read_bool msg "is_yes" with
      | None => mret false
      | Some is_yes => chosen set (Some (if is_yes : bool then kYES else kNO))
      end
  end.
Definition optional_client_order_id (msg : jobject) : P bool :=
  match read_optional_string msg "client_order_id" with
  | None => mret true
  | Some id => assign_optional_client_order_id id
  end.

Definition parse_user_order_event (msg : jobject) : P OrderParseCode :=
  write (λ e, e ⟪ pw_event_kind := kUSER_ORDER ⟫);;
  need kINVALID_ORDER_ID (with_string msg "order_id" assign_exchange_order_id) (
  need kMISSING_FIELD (with_string msg "ticker" assign_market_ticker) (
  need kUNKNOWN_ORDER_STATE (with_string msg "status" (λ v, chosen (λ s e, e ⟪ pw_order_state := s ⟫) (parse_order_state v))) (
  need kMISSING_FIELD (order_outcome msg) (
  need kMISSING_FIELD (with_string msg "fill_count_fp" (λ v, written (λ q e, e ⟪ pw_cumulative_filled_qty_lots := q ⟫) (parse_qty_lots v))) (
  need kMISSING_FIELD (with_string msg "remaining_count_fp" (λ v, written (λ q e, e ⟪ pw_leaves_qty_lots := q ⟫) (parse_qty_lots v))) (
  need kMISSING_FIELD (with_string msg "initial_count_fp" (λ v, written (λ q e, e ⟪ pw_ordered_qty_lots := q ⟫) (parse_qty_lots v))) (
  need kINVALID_ORDER_ID (optional_client_order_id msg) (
  need kMISSING_FIELD (optional_ts msg "created_ts_ms") (
  mret kPARSE_OK))))))))).

Definition money (rounding : MoneyTickRounding) (set : Z → PrivateWsOrderEvent → PrivateWsOrderEvent) (value : list ascii) : P bool :=
  written set (parse_money_ticks value rounding).

Definition parse_market_position_event (msg : jobject) : P OrderParseCode :=
  write (λ e, e ⟪ pw_event_kind := kMARKET_POSITION ⟫);;
  need kMISSING_FIELD (with_string msg "market_ticker" assign_market_ticker) (
  need kMISSING_FIELD (with_string msg "position_fp" (λ v, written (λ q e, e ⟪ pw_net_position_lots := q ⟫) (parse_signed_qty_lots v))) (
  need kMISSING_FIELD (with_string msg "position_cost_dollars" (money kAWAY_FROM_ZERO (λ t e, e ⟪ pw_position_cost_ticks := t ⟫))) (
  need kMISSING_FIELD (with_string msg "realized_pnl_dollars" (money kFLOOR (λ t e, e ⟪ pw_realized_pnl_ticks := t ⟫))) (
  need kMISSING_FIELD (with_string msg "fees_paid_dollars" (money kAWAY_FROM_ZERO (λ t e, e ⟪ pw_fees_paid_ticks := t ⟫))) (
  need kMISSING_FIELD (with_string msg "position_fee_cost_dollars" (money kAWAY_FROM_ZERO (λ t e, e ⟪ pw_position_fee_cost_ticks := t ⟫))) (
  need kMISSING_FIELD (with_string msg "volume_fp" (λ v, written (λ q e, e ⟪ pw_volume_lots := q ⟫) (parse_qty_lots v))) (
  mret kPARSE_OK))))))).

(** The message starts empty. *)
Definition parse_order_event (message : list Z) : OrderParseCode * ParsedOrderMessage :=
  let m := default_ParsedOrderMessage ⟪ pm_kind := kORDER_DATA ⟫ in
  if bool_decide (message = []) then (kPARSE_IGNORE, m)
  else
    match open_message message with
    | None => (kINVALID_JSON, m)
    | Some root =>
        let m := match read_uint64 root "seq" with Some seq => m ⟪ pm_order_event ::= λ e, e ⟪ pw_ws_sequence := seq ⟫ ⟫ | None => m end in
        match read_string root "type" with
        | None => (kMISSING_FIELD, m)
        | Some type =>
            match read_object root "msg" with
            | None => (kMISSING_FIELD, m)
            | Some msg =>
                let '(code, m) :=
                  (if token type "fill" then parse_fill_event msg
                   else if token type "user_order" then parse_user_order_event msg
                   else if token type "market_position" then parse_market_position_event msg
                   else mret kUNSUPPORTED_TYPE) m in
                (code, m ⟪ pm_parse_code := code ⟫)
            end
        end
    end.

Definition parse_message (message : list Z) : OrderParseCode * ParsedOrderMessage :=
  let m := default_ParsedOrderMessage ⟪ pm_kind := classify_message message ⟫ in
  match classify_message message with
  | kCONTROL_RESPONSE => let '(code, response) := parse_control_response message in (code, m ⟪ pm_control_response := response ⟫)
  | kORDER_DATA => parse_order_event message
  | kMESSAGE_IGNORE => (kPARSE_IGNORE, m)
  | kMESSAGE_MALFORMED => (kINVALID_JSON, m)
  end.
End OrderParser.
End OrderParser.
