(* ===== verification/OrderSession.v ===== *)
(** * OrderSession: the thread of the private feed

    Models [cpp/src/ingest/kalshi/order_data/order_session.cpp]: subscriptions to the channels
    of the account, the events they carry for the OMS, and the ring buffer where events wait
    while the OMS's queue is full.  The websocket is the class [OrderWebSocket], simdjson the
    classes [SimdJson], [SimdJsonNumbers] and [SimdJsonBooleans]. *)

From S2P Require Import Prelude Spsc ShardTypes MarketParser WireTypes Wire OmsTypes RestAdapter ControlPlaneTypes OrderParser.
Open Scope Z_scope.

Inductive KalshiOrderDataChannel := | kFILL_CHANNEL | kMARKET_POSITIONS_CHANNEL | kUSER_ORDERS_CHANNEL.
#[export] Instance KalshiOrderDataChannel_eq_dec : EqDecision KalshiOrderDataChannel.
Proof. solve_decision. Defined.
#[export] Instance KalshiOrderDataChannel_countable : Countable KalshiOrderDataChannel.
Proof.
  refine (inj_countable' (λ c, match c with kFILL_CHANNEL => 1%nat | kMARKET_POSITIONS_CHANNEL => 2%nat | kUSER_ORDERS_CHANNEL => 3%nat end)
    (λ n, match n with 1%nat => kFILL_CHANNEL | 2%nat => kMARKET_POSITIONS_CHANNEL | _ => kUSER_ORDERS_CHANNEL end) _). by intros [].
Defined.

(** The requests of [KalshiOrderDataHandler], before their rendering as JSON text. *)
Inductive OrderWsRequest :=
  | OrderSubscribe (req_id : Z) (channel : KalshiOrderDataChannel) (tickers : list string)
  | OrderUnsubscribe (req_id : Z) (channel : KalshiOrderDataChannel) (session_ids : list Z).

(** [exchange::kalshi::WebSocketSession] of the private feed. *)
Class OrderWebSocket (W : Type) := {
  ow_connect : W → bool * W;
  ow_send_text : OrderWsRequest → W → SendStatus * W;
  ow_poll : W → Z * W;
  ow_recv_text : W → ReadResult * W;
  ow_consume_message : W → W;
  ow_close : W → W;
  ow_last_error : W → string;
}.

Module OrderSession.
Import OrderParser.

Definition kPRIVATE_ORDER_FEED_TELEMETRY_INTERVAL : Z := 250000000.
Definition kPENDING_OMS_EVENTS_CAPACITY : nat := 1024.

Inductive OrderSubscriptionPhase := | kPHASE_IDLE | kSUBSCRIBE_PENDING | kSUBSCRIBED | kUNSUBSCRIBE_PENDING | kPHASE_FAULTED.
#[export] Instance OrderSubscriptionPhase_eq_dec : EqDecision OrderSubscriptionPhase.
Proof. solve_decision. Defined.

Inductive OrderWsCommandKind := | kSUBSCRIBE | kUNSUBSCRIBE.

Record ActiveOrderSubscription := mkActiveOrderSubscription {
  sb_channel : KalshiOrderDataChannel;
  sb_phase : OrderSubscriptionPhase;
  sb_sid : option Z;
  sb_last_error : string;
}.
#[export] Instance eta_ActiveOrderSubscription : Eta ActiveOrderSubscription := λ r,
  mkActiveOrderSubscription (sb_channel r) (sb_phase r) (sb_sid r) (sb_last_error r).

Record PendingOrderWsCommand := mkPendingOrderWsCommand {
  pc_ws_command_id : Z;
  pc_kind : OrderWsCommandKind;
  pc_channel : KalshiOrderDataChannel;
  pc_universe_version : Z;
}.

Section OrderSession.
Context {Q : Type → Type} `{!PushQueue Q} {W : Type} `{!OrderWebSocket W} {SJ : SimdJson} {SJN : SimdJsonNumbers} {SJB : SimdJsonBooleans}.
Variable clk : nat → Z.

Record FeedState := mkFeedState {
  kf_ws_session : W;
  kf_control_to_order_session_queue : list (option ControlToPrivateOrderFeedCommand);
  kf_order_session_to_control_queue : Q PrivateOrderFeedToControlStatus;
  kf_private_ws_to_oms_queue : Q KalshiToOmsEvent;
  kf_connected : bool;
  kf_last_error : string;
  kf_subscribed_universe_version : Z;
  kf_installed_universe_version : Z;
  kf_desired_universe : option OrderRouteUniverse;
  kf_route_by_ticker : gmap string OrderMarketRoute;
  kf_desired_channels : list KalshiOrderDataChannel;
  kf_active_subscriptions : gmap KalshiOrderDataChannel ActiveOrderSubscription;
  kf_pending_ws_commands : gmap Z PendingOrderWsCommand;
  kf_telemetry : PrivateOrderFeedTelemetrySnapshot;
  kf_next_telemetry_send : Z;
  kf_next_ws_command_id : Z;
  kf_pending_oms_events : list KalshiToOmsEvent;
  kf_pending_oms_count : Z;
  kf_pending_oms_tail : Z;
  kf_pending_oms_head : Z;
  kf_clock_reads : nat;
}.
#[export] Instance eta_FeedState : Eta FeedState := λ r,
  mkFeedState (kf_ws_session r) (kf_control_to_order_session_queue r) (kf_order_session_to_control_queue r) (kf_private_ws_to_oms_queue r)
    (kf_connected r) (kf_last_error r) (kf_subscribed_universe_version r) (kf_installed_universe_version r) (kf_desired_universe r)
    (kf_route_by_ticker r) (kf_desired_channels r) (kf_active_subscriptions r) (kf_pending_ws_commands r) (kf_telemetry r)
    (kf_next_telemetry_send r) (kf_next_ws_command_id r) (kf_pending_oms_events r) (kf_pending_oms_count r) (kf_pending_oms_tail r)
    (kf_pending_oms_head r) (kf_clock_reads r).

(** The clock is read once, for the first telemetry. *)
Definition make_order_session (ws : W) (channels : list KalshiOrderDataChannel) (from_control : list (option ControlToPrivateOrderFeedCommand))
    (to_control : Q PrivateOrderFeedToControlStatus) (to_oms : Q KalshiToOmsEvent) : FeedState :=
  mkFeedState ws from_control to_control to_oms false "" 0 0 None ∅ channels ∅ ∅ default_PrivateOrderFeedTelemetrySnapshot
    (clk 0 + kPRIVATE_ORDER_FEED_TELEMETRY_INTERVAL) 1 (replicate kPENDING_OMS_EVENTS_CAPACITY (KeRest default_RestOrderResponse)) 0 0 0 1.

Definition feed_tally (f : PrivateOrderFeedTelemetrySnapshot → PrivateOrderFeedTelemetrySnapshot) : M FeedState unit := modify (λ s, s ⟪ kf_telemetry ::= f ⟫).
Definition count_up (n : Z) : Z := u64 (n + 1).
Definition set_error (error : string) : M FeedState unit := modify (λ s, s ⟪ kf_last_error := error ⟫).
Definition close_websocket : M FeedState unit := modify (λ s, s ⟪ kf_ws_session ::= ow_close ⟫).
Definition websocket_error : M FeedState string := gets (λ s, ow_last_error (kf_ws_session s)).

(** ** Outgoing messages *)

Definition push_control_status (status : PrivateOrderFeedToControlStatus) : M FeedState bool := λ s,
  let '(b, q) := q_push status (kf_order_session_to_control_queue s) in (b, s ⟪ kf_order_session_to_control_queue := q ⟫).
Definition tell (status : PrivateOrderFeedToControlStatus) : M FeedState unit := _ ← push_control_status status; mret tt.
(** [status_.last_error = error; push_control_status(Faulted)] *)
Definition tell_fault (error : string) : M FeedState unit := set_error error;; tell (PfFaulted error).

Definition push_to_oms (event : KalshiToOmsEvent) : M FeedState bool := λ s,
  let '(b, q) := q_push event (kf_private_ws_to_oms_queue s) in (b, s ⟪ kf_private_ws_to_oms_queue := q ⟫).

Definition next_slot (index : Z) (s : FeedState) : Z := u64 (index + 1) mod Z.of_nat (length (kf_pending_oms_events s)).
Definition defer_oms_event (event : KalshiToOmsEvent) : M FeedState bool := λ s,
  if kf_pending_oms_count s <? Z.of_nat (length (kf_pending_oms_events s)) then
    (true, s ⟪ kf_pending_oms_events ::= <[Z.to_nat (kf_pending_oms_head s) := event]> ⟫ ⟪ kf_pending_oms_head ::= λ h, next_slot h s ⟫ ⟪ kf_pending_oms_count ::= count_up ⟫)
  else (false, s).

Definition emit_or_defer_oms_event (event : KalshiToOmsEvent) : M FeedState bool :=
  count ← gets kf_pending_oms_count;
  pushed ← (if count =? 0 then push_to_oms event else mret false);
  if pushed : bool then mret true
  else
    deferred ← defer_oms_event event;
    if deferred : bool then mret true
    else
      feed_tally (λ t, t ⟪ ftl_oms_enqueue_failures ::= count_up ⟫);;
      tell_fault "private order feed OMS egress buffer exhausted";;
      close_websocket;;
      modify (λ s, s ⟪ kf_connected := false ⟫);;
      mret false.

(** The loop ends when the count is zero: [fuel] is the count.  A push that fails leaves the
    event in place; one that succeeds leaves a moved-from event that is not read again. *)
Fixpoint flush_loop (fuel : nat) : M FeedState unit :=
  match fuel with
  | O => mret tt
  | S fuel' =>
      event ← gets (λ s, default (KeRest default_RestOrderResponse) (kf_pending_oms_events s !! Z.to_nat (kf_pending_oms_tail s)));
      pushed ← push_to_oms event;
      if negb pushed then mret tt
      else
        modify (λ s, s ⟪ kf_pending_oms_tail ::= λ t, next_slot t s ⟫ ⟪ kf_pending_oms_count ::= λ n, u64 (n - 1) ⟫);;
        flush_loop fuel'
  end.
Definition flush_deferred_oms_events : M FeedState unit :=
  count ← gets kf_pending_oms_count;
  flush_loop (Z.to_nat count).

(** ** Universes and routes *)

Definition apply_universe_snapshot (snapshot : option OrderRouteUniverse) : M FeedState unit :=
  match snapshot with
  | None => tell_fault "received null order route universe snapshot"
  | Some universe =>
      modify (λ s, s ⟪ kf_desired_universe := snapshot ⟫ ⟪ kf_installed_universe_version := un_version universe ⟫
                     ⟪ kf_subscribed_universe_version ::= λ v, if v =? un_version universe then v else 0 ⟫
                     ⟪ kf_route_by_ticker := foldl (λ routes route, RestAdapter.emplace (mr_kalshi_ticker route) route routes) ∅ (un_market_routes universe) ⟫);;
      tell (PfUniverseApplied (un_version universe))
  end.

(** The event with its market: the OMS may know a market that is not in this universe. *)
Definition stamp_market_route (parsed : ParsedOrderMessage) : M FeedState (option ParsedOrderMessage) :=
  desired ← gets kf_desired_universe;
  routes ← gets kf_route_by_ticker;
  match desired with
  | None => mret None
  | Some _ =>
      let market_id := match routes !! pm_market_ticker parsed with None => 0 | Some route => mr_market_id route end in
      mret (Some (parsed ⟪ pm_order_event ::= λ e, e ⟪ pw_market_id := market_id ⟫ ⟫))
  end.

(** ** Subscriptions *)

Definition next_ws_command_id : M FeedState Z := λ s, (kf_next_ws_command_id s, s ⟪ kf_next_ws_command_id ::= count_up ⟫).
Definition send_text (request : OrderWsRequest) : M FeedState SendStatus := λ s,
  let '(r, w) := ow_send_text request (kf_ws_session s) in (r, s ⟪ kf_ws_session := w ⟫).
Definition channel_number (channel : KalshiOrderDataChannel) : string :=
  match channel with kFILL_CHANNEL => "1" | kMARKET_POSITIONS_CHANNEL => "2" | kUSER_ORDERS_CHANNEL => "3" end.

Definition clear_transport_subscription_state : M FeedState unit :=
  modify (λ s, s ⟪ kf_active_subscriptions := ∅ ⟫ ⟪ kf_pending_ws_commands := ∅ ⟫ ⟪ kf_subscribed_universe_version := 0 ⟫).

Definition subscribe_channel (channel : KalshiOrderDataChannel) : M FeedState bool :=
  present ← gets (λ s, bool_decide (is_Some (kf_active_subscriptions s !! channel)));
  if present : bool then tell_fault ("cannot subscribe to channel - already subscribed: " +:+ channel_number channel)%string;; mret false
  else
    id ← next_ws_command_id;
    send_status ← send_text (OrderSubscribe id channel []);
    if negb (bool_decide (send_status = kSEND_ACCEPTED)) then
      reason ← websocket_error;
      let error := ("subscribe send failed: " +:+ reason)%string in
      modify (λ s, s ⟪ kf_last_error := error ⟫ ⟪ kf_active_subscriptions ::= <[channel := mkActiveOrderSubscription channel kPHASE_FAULTED None error]> ⟫);;
      tell (PfFaulted error);;
      mret false
    else
      modify (λ s, s ⟪ kf_pending_ws_commands ::= <[id := mkPendingOrderWsCommand id kSUBSCRIBE channel (kf_installed_universe_version s)]> ⟫
                     ⟪ kf_active_subscriptions ::= <[channel := mkActiveOrderSubscription channel kSUBSCRIBE_PENDING None ""]> ⟫);;
      mret true.

Definition unsubscribe_channel (channel : KalshiOrderDataChannel) : M FeedState bool :=
  subscription ← gets (λ s, kf_active_subscriptions s !! channel);
  match (subscription ≫= λ sub, sid ← sb_sid sub; Some (sub, sid)) with
  | None => tell_fault ("cannot unsubscribe from channel - not currently subscribed: " +:+ channel_number channel)%string;; mret false
  | Some (sub, sid) =>
      id ← next_ws_command_id;
      send_status ← send_text (OrderUnsubscribe id (sb_channel sub) [sid]);
      if negb (bool_decide (send_status = kSEND_ACCEPTED)) then
        reason ← websocket_error;
        let error := ("unsubscribe send failed: " +:+ reason)%string in
        modify (λ s, s ⟪ kf_last_error := error ⟫ ⟪ kf_active_subscriptions ::= <[channel := sub ⟪ sb_phase := kPHASE_FAULTED ⟫ ⟪ sb_last_error := error ⟫]> ⟫);;
        tell (PfFaulted error);;
        mret false
      else
        modify (λ s, s ⟪ kf_pending_ws_commands ::= <[id := mkPendingOrderWsCommand id kUNSUBSCRIBE (sb_channel sub) (kf_installed_universe_version s)]> ⟫
                       ⟪ kf_active_subscriptions ::= <[channel := sub ⟪ sb_phase := kUNSUBSCRIBE_PENDING ⟫]> ⟫);;
        mret true
  end.

Fixpoint subscribe_channels (channels : list KalshiOrderDataChannel) : M FeedState bool :=
  match channels with
  | [] => mret true
  | channel :: rest =>
      ok ← subscribe_channel channel;
      if ok : bool then subscribe_channels rest else mret false
  end.
Definition subscribe_active_universe : M FeedState bool :=
  desired ← gets kf_desired_universe;
  connected ← gets kf_connected;
  channels ← gets kf_desired_channels;
  if negb (bool_decide (is_Some desired)) then tell_fault "cannot subscribe to universe - no snapshot applied";; mret false
  else if negb connected then tell_fault "cannot subscribe to universe - not connected";; mret false
  else subscribe_channels channels.

(** ** The connection *)

Definition connect : M FeedState bool :=
  ok ← (λ s, let '(b, w) := ow_connect (kf_ws_session s) in (b, s ⟪ kf_ws_session := w ⟫));
  if ok : bool then
    modify (λ s, s ⟪ kf_connected := true ⟫ ⟪ kf_last_error := ""%string ⟫);;
    clear_transport_subscription_state;;
    desired ← gets kf_desired_universe;
    when (bool_decide (is_Some desired)) (_ ← subscribe_active_universe; mret tt);;
    tell PfConnected;;
    mret true
  else
    reason ← websocket_error;
    modify (λ s, s ⟪ kf_connected := false ⟫ ⟪ kf_last_error := reason ⟫);;
    tell (PfDisconnected reason);;
    mret false.

Definition disconnect (reason : string) : M FeedState unit :=
  close_websocket;;
  modify (λ s, s ⟪ kf_connected := false ⟫ ⟪ kf_last_error := reason ⟫);;
  clear_transport_subscription_state;;
  tell (PfDisconnected reason).

(** ** Messages *)

Definition acknowledged (sub : option ActiveOrderSubscription) : bool :=
  match sub with Some sub => bool_decide (sb_phase sub = kSUBSCRIBED) && bool_decide (is_Some (sb_sid sub)) | None => false end.
Definition still_open (sub : ActiveOrderSubscription) : bool :=
  bool_decide (sb_phase sub = kSUBSCRIBED) || bool_decide (sb_phase sub = kSUBSCRIBE_PENDING) || bool_decide (sb_phase sub = kUNSUBSCRIBE_PENDING)
  || bool_decide (is_Some (sb_sid sub)).

(** [active_subscriptions_[channel]] makes an entry when there is none. *)
Definition default_subscription (channel : KalshiOrderDataChannel) : ActiveOrderSubscription := mkActiveOrderSubscription channel kPHASE_IDLE None "".
Definition put_subscription (sub : ActiveOrderSubscription) : M FeedState unit := modify (λ s, s ⟪ kf_active_subscriptions ::= <[sb_channel sub := sub]> ⟫).

Definition subscription_fault (sub : ActiveOrderSubscription) (sub_error error : string) : M FeedState unit :=
  put_subscription (sub ⟪ sb_phase := kPHASE_FAULTED ⟫ ⟪ sb_last_error := sub_error ⟫);;
  tell_fault error.

Definition handle_ws_control_response (parsed : ParsedOrderMessage) : M FeedState unit :=
  if negb (bool_decide (pm_kind parsed = kCONTROL_RESPONSE)) then mret tt
  else
    let response := pm_control_response parsed in
    pending ← gets (λ s, kf_pending_ws_commands s !! oc_request_id response);
    match pending with
    | None => mret tt
    | Some pending =>
        modify (λ s, s ⟪ kf_pending_ws_commands ::= delete (oc_request_id response) ⟫);;
        installed ← gets kf_installed_universe_version;
        if negb (pc_universe_version pending =? installed) then mret tt
        else
          sub ← gets (λ s, default (default_subscription (pc_channel pending)) (kf_active_subscriptions s !! pc_channel pending));
          let sub := sub ⟪ sb_channel := pc_channel pending ⟫ in
          if negb (oc_success response) then
            subscription_fault sub (oc_error_message response) ("control response error: " +:+ oc_error_message response)%string
          else
            match pc_kind pending with
            | kSUBSCRIBE =>
                match oc_session_id response with
                | None => subscription_fault sub "private order subscribe ack missing session id" "private order subscribe ack missing session id"
                | Some sid =>
                    put_subscription (sub ⟪ sb_sid := Some sid ⟫ ⟪ sb_phase := kSUBSCRIBED ⟫ ⟪ sb_last_error := ""%string ⟫);;
                    desired ← gets kf_desired_universe;
                    channels ← gets kf_desired_channels;
                    active ← gets kf_active_subscriptions;
                    match desired with
                    | Some universe =>
                        when (negb (bool_decide (channels = [])) && forallb (λ channel, acknowledged (active !! channel)) channels) (
                          modify (λ s, s ⟪ kf_subscribed_universe_version := un_version universe ⟫);;
                          tell (PfSubscriptionReady (un_version universe)))
                    | None => mret tt
                    end
                end
            | kUNSUBSCRIBE =>
                put_subscription (sub ⟪ sb_sid := None ⟫ ⟪ sb_phase := kPHASE_IDLE ⟫ ⟪ sb_last_error := ""%string ⟫);;
                active ← gets kf_active_subscriptions;
                when (forallb (λ x, negb (still_open x.2)) (map_to_list active)) (modify (λ s, s ⟪ kf_subscribed_universe_version := 0 ⟫))
            end
    end.

Definition feed_now_ns : M FeedState Z := λ s, (u64 (clk (kf_clock_reads s)), s ⟪ kf_clock_reads ::= S ⟫).

Definition handle_order_event (parsed : ParsedOrderMessage) : M FeedState unit :=
  if negb (bool_decide (pm_kind parsed = kORDER_DATA)) then mret tt
  else
    stamped ← stamp_market_route parsed;
    match stamped with
    | None => feed_tally (λ t, t ⟪ ftl_messages_dropped ::= count_up ⟫)
    | Some parsed =>
        now ← feed_now_ns;
        sent ← emit_or_defer_oms_event (KePrivateWs ((pm_order_event parsed) ⟪ pw_recv_ts_ns := now ⟫));
        if negb sent then feed_tally (λ t, t ⟪ ftl_messages_dropped ::= count_up ⟫)
        else feed_tally (λ t, t ⟪ ftl_messages_decoded ::= count_up ⟫)
    end.

Definition poll_websocket : M FeedState Z := λ s, let '(n, w) := ow_poll (kf_ws_session s) in (n, s ⟪ kf_ws_session := w ⟫).
Definition recv_text : M FeedState ReadResult := λ s, let '(r, w) := ow_recv_text (kf_ws_session s) in (r, s ⟪ kf_ws_session := w ⟫).
Definition consume_message : M FeedState unit := modify (λ s, s ⟪ kf_ws_session ::= ow_consume_message ⟫).
Definition dropped (t : PrivateOrderFeedTelemetrySnapshot) : PrivateOrderFeedTelemetrySnapshot :=
  t ⟪ ftl_parse_failures ::= count_up ⟫ ⟪ ftl_messages_dropped ::= count_up ⟫.

Definition receive_failed : M FeedState unit :=
  reason ← websocket_error;
  set_error ("private order feed receive failed: " +:+ reason)%string;;
  close_websocket;;
  clear_transport_subscription_state;;
  modify (λ s, s ⟪ kf_connected := false ⟫);;
  tell (PfFaulted ("private order feed receive failed: " +:+ reason)%string).

Definition unreadable_code (code : OrderParseCode) : bool :=
  bool_decide (code = kINVALID_JSON) || bool_decide (code = kMISSING_FIELD) || bool_decide (code = kUNKNOWN_ORDER_STATE) || bool_decide (code = kINVALID_ORDER_ID).

(** A message was read. *)
Definition handle_payload (payload : list Z) : M FeedState unit :=
  feed_tally (λ t, t ⟪ ftl_messages_received ::= count_up ⟫);;
  let '(code, parsed) := parse_message payload in
  let parsed := parsed ⟪ pm_parse_code := code ⟫ in
  if unreadable_code code then feed_tally dropped;; consume_message
  else if bool_decide (code = kPARSE_IGNORE) then feed_tally (λ t, t ⟪ ftl_messages_decoded ::= count_up ⟫);; consume_message
  else
    match pm_kind parsed with
    | kCONTROL_RESPONSE => handle_ws_control_response parsed
    | kORDER_DATA => handle_order_event parsed
    | kMESSAGE_IGNORE | kMESSAGE_MALFORMED => feed_tally dropped
    end;;
    connected ← gets kf_connected;
    when connected consume_message.

(** The result says whether the thread goes on without a pause. *)
Definition service_transport_once : M FeedState bool :=
  polled ← poll_websocket;
  read_result ← recv_text;
  match rr_status read_result with
  | kREAD_PENDING => mret (0 <? polled)
  | kREAD_CLOSED => disconnect "websocket closed";; mret true
  | kREAD_ERROR => receive_failed;; mret true
  | kREAD_MESSAGE => handle_payload (rr_payload read_result);; mret true
  end.

(** ** The thread *)

Definition maybe_send_telemetry : M FeedState unit :=
  now ← (λ s, (clk (kf_clock_reads s), s ⟪ kf_clock_reads ::= S ⟫));
  next ← gets kf_next_telemetry_send;
  if now <? next then mret tt
  else
    telemetry ← gets kf_telemetry;
    tell (PfTelemetry telemetry);;
    modify (λ s, s ⟪ kf_next_telemetry_send := now + kPRIVATE_ORDER_FEED_TELEMETRY_INTERVAL ⟫).

Definition handle_control_command (cmd : ControlToPrivateOrderFeedCommand) : M FeedState unit :=
  match cmd with
  | CpApplyOrderRouteUniverse snapshot =>
      apply_universe_snapshot snapshot;;
      connected ← gets kf_connected;
      when connected (clear_transport_subscription_state;; _ ← subscribe_active_universe; mret tt)
  | CpConnect => _ ← connect; mret tt
  | CpDisconnect => disconnect ""
  end.
Definition pop_control : M FeedState (option ControlToPrivateOrderFeedCommand) := λ s,
  match kf_control_to_order_session_queue s with
  | [] => (None, s)
  | x :: q => (x, s ⟪ kf_control_to_order_session_queue := q ⟫)
  end.
Fixpoint control_loop (fuel : nat) : M FeedState unit :=
  match fuel with
  | O => mret tt
  | S fuel' =>
      cmd ← pop_control;
      match cmd with
      | None => mret tt
      | Some cmd => handle_control_command cmd;; control_loop fuel'
      end
  end.
Definition drain_control_commands : M FeedState unit :=
  fuel ← gets (λ s, length (kf_control_to_order_session_queue s));
  control_loop fuel.

(** One round of [run]; the sleep is left out. *)
Definition run_once : M FeedState unit :=
  flush_deferred_oms_events;;
  drain_control_commands;;
  connected ← gets kf_connected;
  when connected (_ ← service_transport_once; mret tt);;
  maybe_send_telemetry.
(** What [run] does when it is stopped. *)
Definition run_stopped : M FeedState unit :=
  disconnect "private order feed session stopped";;
  flush_deferred_oms_events;;
  maybe_send_telemetry.
End OrderSession.
End OrderSession.
