(* ===== verification/OrderFeed.v ===== *)
(** * OrderFeed: what the private feed passes on

    Every order event the private feed reads reaches the OMS, in order, unless the buffer for
    waiting events is exhausted, and then the feed closes and says so; and it reports that it
    is subscribed only when the exchange has acknowledged every channel. *)

From S2P Require Import Prelude Spsc Ring ShardTypes MarketParser WireTypes Wire OmsTypes RestAdapter ControlPlaneTypes OrderParser OrderSession.
Open Scope Z_scope.

Module OrderFeed.
Import OrderParser OrderSession.

Section OrderFeed.
Context {Q : Type → Type} `{HQ : PushQueue Q} {HL : PushQueueLaws Q} {W : Type} `{!OrderWebSocket W} {SJ : SimdJson} {SJN : SimdJsonNumbers} {SJB : SimdJsonBooleans}.
Variable clk : nat → Z.
Abbreviation FeedState := (FeedState (Q := Q) (W := W)).
Implicit Types s : FeedState.

(** ** The stream to the OMS *)

Definition blank : KalshiToOmsEvent := KeRest default_RestOrderResponse.
Definition waiting s : list KalshiToOmsEvent := Ring.window blank (kf_pending_oms_events s) (kf_pending_oms_tail s) (Z.to_nat (kf_pending_oms_count s)).
(** What the OMS was sent, and what waits to be sent, in order. *)
Definition feed_stream s : list KalshiToOmsEvent := q_sent (kf_private_ws_to_oms_queue s) ++ waiting s.
Definition exhausted s : Prop := kf_pending_oms_count s = Z.of_nat kPENDING_OMS_EVENTS_CAPACITY.

Record buffer_ok s : Prop := {
  bo_size : length (kf_pending_oms_events s) = kPENDING_OMS_EVENTS_CAPACITY;
  bo_count : 0 ≤ kf_pending_oms_count s ≤ 1024;
  bo_tail : 0 ≤ kf_pending_oms_tail s < 1024;
  bo_head : kf_pending_oms_head s = (kf_pending_oms_tail s + kf_pending_oms_count s) mod 1024;
}.

(** What the events depend on. *)
Definition egress s := (kf_private_ws_to_oms_queue s, kf_pending_oms_events s, kf_pending_oms_count s, kf_pending_oms_tail s, kf_pending_oms_head s).
Lemma egress_same s s' : egress s' = egress s → (buffer_ok s → buffer_ok s') ∧ feed_stream s' = feed_stream s ∧ kf_pending_oms_count s' = kf_pending_oms_count s.
Proof.
  unfold egress. intros E. apply pair_eq in E as [E E5]. apply pair_eq in E as [E E4]. apply pair_eq in E as [E E3]. apply pair_eq in E as [E1 E2].
  split; [intros [R1 R2 R3 R4]; by split; rewrite ?E2, ?E3, ?E4, ?E5|]. unfold feed_stream, waiting. by rewrite E1, E2, E3, E4.
Qed.

Lemma next_slot_value (i : Z) s : length (kf_pending_oms_events s) = kPENDING_OMS_EVENTS_CAPACITY → 0 ≤ i < 1024 → next_slot i s = (i + 1) mod 1024.
Proof. intros Hl Hi. unfold next_slot. rewrite Hl. change (Z.of_nat kPENDING_OMS_EVENTS_CAPACITY) with 1024. by rewrite u64_id by (unfold is_u64; lia). Qed.

Lemma defer_waits e s : buffer_ok s → wp (defer_oms_event e) (λ b s', buffer_ok s' ∧ if b then feed_stream s' = feed_stream s ++ [e] else s' = s ∧ exhausted s) s.
Proof.
  intros [R1 R2 R3 R4]. unfold wp, defer_oms_event. rewrite R1. change (Z.of_nat kPENDING_OMS_EVENTS_CAPACITY) with 1024. destruct (Z.ltb_spec (kf_pending_oms_count s) 1024) as [Hc|Hc]; cbn [fst snd].
  - assert (count_up (kf_pending_oms_count s) = kf_pending_oms_count s + 1) as Hb by (unfold count_up; apply u64_id; unfold is_u64; lia).
    pose proof (Z.mod_pos_bound (kf_pending_oms_tail s + kf_pending_oms_count s) 1024 ltac:(lia)) as Hh. rewrite <- R4 in Hh. split; [split; cbn|].
    + by rewrite length_insert.
    + rewrite Hb. lia.
    + done.
    + rewrite Hb, next_slot_value, R4, Zplus_mod_idemp_l by done. f_equal. lia.
    + unfold feed_stream, waiting. cbn. rewrite <- app_assoc. f_equal. rewrite Hb. replace (Z.to_nat (kf_pending_oms_count s + 1)) with (S (Z.to_nat (kf_pending_oms_count s))) by lia.
      rewrite R4. replace ((kf_pending_oms_tail s + kf_pending_oms_count s) mod 1024) with
        ((kf_pending_oms_tail s + Z.of_nat (Z.to_nat (kf_pending_oms_count s))) mod Z.of_nat (length (kf_pending_oms_events s)))
        by (rewrite R1; change (Z.of_nat kPENDING_OMS_EVENTS_CAPACITY) with 1024; f_equal; lia).
      apply Ring.window_push. rewrite R1. unfold kPENDING_OMS_EVENTS_CAPACITY. lia.
  - split; [by split|]. split; [done|]. unfold exhausted. change (Z.of_nat kPENDING_OMS_EVENTS_CAPACITY) with 1024. lia.
Qed.

Lemma eg_status status : rel (same egress) (push_control_status status).
Proof. intros s. unfold push_control_status. by destruct (q_push _ _). Qed.
#[local] Hint Resolve eg_status : frame.
Lemma eg_tell status : rel (same egress) (tell status).
Proof. unfold tell. rel_auto. Qed.
#[local] Hint Resolve eg_tell : frame.
Lemma eg_tell_fault error : rel (same egress) (tell_fault error).
Proof. unfold tell_fault, set_error. rel_auto. Qed.
#[local] Hint Resolve eg_tell_fault : frame.

Lemma push_sends e s : buffer_ok s → kf_pending_oms_count s = 0 →
  wp (push_to_oms e) (λ b s', buffer_ok s' ∧ kf_pending_oms_count s' = kf_pending_oms_count s ∧ feed_stream s' = feed_stream s ++ if b then [e] else []) s.
Proof.
  intros [R1 R2 R3 R4] Hc. unfold wp, push_to_oms. pose proof (push_sent e (kf_private_ws_to_oms_queue s)) as Hs. destruct (q_push e _) as [b q]. cbn [fst snd] in *.
  split; [by split|]. split; [done|]. unfold feed_stream, waiting. cbn. rewrite Hc. cbn. rewrite !app_nil_r, Hs. by destruct b; rewrite ?app_nil_r.
Qed.

(** An event is sent, or waits behind those that wait; or the feed closes. *)
Definition emitted e (b : bool) s s' : Prop :=
  buffer_ok s' ∧ if b then feed_stream s' = feed_stream s ++ [e] ∧ kf_connected s' = kf_connected s
                 else feed_stream s' = feed_stream s ∧ exhausted s' ∧ kf_connected s' = false.
Lemma emit_outcome e s : buffer_ok s → wp (emit_or_defer_oms_event e) (λ b s', emitted e b s s') s.
Proof.
  intros Hi. unfold emit_or_defer_oms_event. wp_steps.
  assert (wp (if kf_pending_oms_count s =? 0 then push_to_oms e else mret false)
    (λ b s', buffer_ok s' ∧ kf_connected s' = kf_connected s ∧ feed_stream s' = feed_stream s ++ if b then [e] else []) s) as Hp.
  { destruct (Z.eqb_spec (kf_pending_oms_count s) 0) as [Hc|Hc]; [|wp_steps; by rewrite app_nil_r]. pose proof (push_sends e s Hi Hc) as Hp. unfold wp in *.
    assert (kf_connected (push_to_oms e s).2 = kf_connected s) as Hk by (unfold push_to_oms; by destruct (q_push _ _)). naive_solver. }
  eapply wp_mono; [exact Hp|]. cbv beta. intros pushed s1 (I1 & K1 & S1). destruct pushed; [wp_step; by split|]. rewrite app_nil_r in S1. wp_step.
  assert (kf_connected (defer_oms_event e s1).2 = kf_connected s1) as Hk by (unfold defer_oms_event; by destruct (_ <? _)).
  pose proof (defer_waits e s1 I1) as Hd. unfold wp in Hd. unfold wp at 1. destruct (defer_oms_event e s1) as [deferred s2]. cbn [fst snd] in *. destruct Hd as [I2 Hd].
  destruct deferred; [wp_step; split; [done|]; split; [congruence|congruence]|]. destruct Hd as [-> He]. unfold feed_tally, close_websocket. do 3 wp_step.
  eapply (wp_rel (same egress)); [apply eg_tell_fault|]. intros _ s3 E3. apply egress_same in E3 as (I3 & S3 & C3). specialize (I3 ltac:(by destruct I1 as [R1 R2 R3 R4])).
  wp_steps. split; [by destruct I3 as [R1 R2 R3 R4]|]. split; [|split; [|done]].
  - transitivity (feed_stream s3); [done|]. rewrite S3. exact S1.
  - unfold exhausted in *. cbn. rewrite C3. exact He.
Qed.

(** Events that wait are sent in order. *)
Lemma flush_keeps n s : buffer_ok s → (n ≤ Z.to_nat (kf_pending_oms_count s))%nat → wp (flush_loop n) (λ _ s', buffer_ok s' ∧ feed_stream s' = feed_stream s) s.
Proof.
  revert s. induction n as [|n IH]; intros s Hi Hn; [done|]. cbn [flush_loop]. pose proof Hi as [R1 R2 R3 R4]. wp_steps. set (e := default _ _).
  assert (waiting s = e :: Ring.window blank (kf_pending_oms_events s) (kf_pending_oms_tail s + 1) (Z.to_nat (kf_pending_oms_count s) - 1)) as Ew.
  { unfold waiting. destruct (Z.to_nat (kf_pending_oms_count s)) as [|c] eqn:Ec; [lia|]. cbn [Ring.window]. rewrite Nat.sub_0_r || replace (S c - 1)%nat with c by lia. f_equal.
    unfold Ring.at_slot. rewrite R1. change (Z.of_nat kPENDING_OMS_EVENTS_CAPACITY) with 1024. by rewrite Z.mod_small. }
  unfold wp at 1, push_to_oms. pose proof (push_sent e (kf_private_ws_to_oms_queue s)) as Hs. destruct (q_push e _) as [b q]. cbn [fst snd] in *. destruct b; cbn [negb].
  - wp_steps. set (s1 := s ⟪ _ := _ ⟫ ⟪ _ ::= _ ⟫ ⟪ _ ::= _ ⟫).
    assert (kf_pending_oms_count s1 = kf_pending_oms_count s - 1) as Ec by (unfold s1; cbn; apply u64_id; unfold is_u64; lia).
    assert (kf_pending_oms_tail s1 = (kf_pending_oms_tail s + 1) mod 1024) as Et by (unfold s1; cbn; by apply next_slot_value).
    assert (feed_stream s1 = feed_stream s) as Es.
    { unfold feed_stream. rewrite Ew. change (q_sent (kf_private_ws_to_oms_queue s1)) with (q_sent q). rewrite Hs, <- app_assoc. cbn [app]. do 2 f_equal. unfold waiting. rewrite Ec, Et.
      replace (Z.to_nat (kf_pending_oms_count s - 1)) with (Z.to_nat (kf_pending_oms_count s) - 1)%nat by lia. apply Ring.window_congr. change (kf_pending_oms_events s1) with (kf_pending_oms_events s).
      rewrite R1. change (Z.of_nat kPENDING_OMS_EVENTS_CAPACITY) with 1024. apply Zmod_mod. }
    assert (buffer_ok s1) as Hi1.
    { split; [done|lia|rewrite Et; apply Z.mod_pos_bound; lia|]. rewrite Ec, Et, Zplus_mod_idemp_l. change (kf_pending_oms_head s1) with (kf_pending_oms_head s). rewrite R4. f_equal. lia. }
    eapply wp_mono; [apply IH; [done|lia]|]. cbv beta. intros _ s' [I ->]. done.
  - wp_steps. split; [by split|]. unfold feed_stream, waiting. cbn. by rewrite Hs.
Qed.
Lemma flush_all s : buffer_ok s → wp flush_deferred_oms_events (λ _ s', buffer_ok s' ∧ feed_stream s' = feed_stream s) s.
Proof. intros Hi. unfold flush_deferred_oms_events. wp_steps. by apply flush_keeps. Qed.

(** ** What leaves the events alone *)

Lemma eg_send request : rel (same egress) (send_text request).
Proof. intros s. unfold send_text. by destruct (ow_send_text _ _). Qed.
#[local] Hint Resolve eg_send : frame.
Lemma eg_subscribe_channel channel : rel (same egress) (subscribe_channel channel).
Proof. unfold subscribe_channel, next_ws_command_id, websocket_error. rel_auto. Qed.
#[local] Hint Resolve eg_subscribe_channel : frame.
Lemma eg_subscribe_channels channels : rel (same egress) (subscribe_channels channels).
Proof. induction channels; cbn [subscribe_channels]; rel_auto. Qed.
#[local] Hint Resolve eg_subscribe_channels : frame.
Lemma eg_subscribe : rel (same egress) subscribe_active_universe.
Proof. unfold subscribe_active_universe. rel_auto. Qed.
#[local] Hint Resolve eg_subscribe : frame.
Lemma eg_connect : rel (same egress) connect.
Proof.
  assert (rel (same egress) (λ s, let '(b, w) := ow_connect (kf_ws_session s) in (b, s ⟪ kf_ws_session := w ⟫))) by (intros s; by destruct (ow_connect _)).
  unfold connect, clear_transport_subscription_state, websocket_error. rel_auto.
Qed.
Lemma eg_disconnect reason : rel (same egress) (disconnect reason).
Proof. unfold disconnect, close_websocket, clear_transport_subscription_state. rel_auto. Qed.
#[local] Hint Resolve eg_connect eg_disconnect : frame.
Lemma eg_handle_control cmd : rel (same egress) (handle_control_command cmd).
Proof. unfold handle_control_command, apply_universe_snapshot, clear_transport_subscription_state. rel_auto. Qed.
Lemma eg_drain_control : rel (same egress) drain_control_commands.
Proof.
  unfold drain_control_commands. apply rel_bind; [exact _|rel_auto|]. intros fuel. induction fuel as [|fuel IH]; cbn [control_loop]; [rel_auto|].
  assert (rel (same egress) pop_control) by (intros s; unfold pop_control; by destruct (kf_control_to_order_session_queue s)). pose proof eg_handle_control. rel_auto.
Qed.
Lemma eg_response parsed : rel (same egress) (handle_ws_control_response parsed).
Proof. unfold handle_ws_control_response, subscription_fault, put_subscription. rel_auto. Qed.
Lemma eg_failed : rel (same egress) receive_failed.
Proof. unfold receive_failed, websocket_error, set_error, close_websocket, clear_transport_subscription_state. rel_auto. Qed.
Lemma eg_telemetry : rel (same egress) (maybe_send_telemetry clk).
Proof. unfold maybe_send_telemetry. rel_auto. Qed.
Lemma co_tell status : rel (same kf_connected) (tell status : M FeedState unit).
Proof. intros s. unfold tell, push_control_status, mbind, M_bind. by destruct (q_push _ _). Qed.
#[local] Hint Resolve co_tell : frame.
Lemma co_telemetry : rel (same kf_connected) (maybe_send_telemetry clk : M FeedState unit).
Proof. unfold maybe_send_telemetry. rel_auto. Qed.

(** ** What a message owes the OMS *)

(** A message that holds an order event that can be read is passed on, stamped with its market
    and the time, once there is a universe. *)
Definition due s (payload : list Z) : list KalshiToOmsEvent :=
  match classify_message payload, parse_order_event payload, kf_desired_universe s with
  | kORDER_DATA, (kPARSE_OK, m), Some _ =>
      [KePrivateWs ((pm_order_event m) ⟪ pw_market_id := match kf_route_by_ticker s !! pm_market_ticker m with None => 0 | Some route => mr_market_id route end ⟫
         ⟪ pw_recv_ts_ns := u64 (clk (kf_clock_reads s)) ⟫)]
  | _, _, _ => []
  end.

(** A message of order data is read or refused. *)
Definition settled (code : OrderParseCode) : Prop := code = kPARSE_OK ∨ unreadable_code code = true.
Lemma need_settled error test rest : unreadable_code error = true → (∀ m, settled (rest m).1) → ∀ m, settled (need error test rest m).1.
Proof. intros He Hr m. unfold need, mbind, M_bind. destruct (test m) as [[|] m1]; [apply Hr|by right]. Qed.
Lemma then_settled {A} (test : P A) (rest : P OrderParseCode) : (∀ m, settled (rest m).1) → ∀ m, settled ((test;; rest) m).1.
Proof. intros Hr m. unfold mbind, M_bind. destruct (test m) as [a m1]. apply Hr. Qed.
Ltac settle := repeat first [intros m; by left | apply need_settled; [done|] | apply then_settled].
Lemma fill_settled msg m : settled (parse_fill_event msg m).1.
Proof. revert m. unfold parse_fill_event. settle. Qed.
Lemma user_order_settled msg m : settled (parse_user_order_event msg m).1.
Proof. revert m. unfold parse_user_order_event. settle. Qed.
Lemma position_settled msg m : settled (parse_market_position_event msg m).1.
Proof. revert m. unfold parse_market_position_event. settle. Qed.
Lemma order_event_settled payload : classify_message payload = kORDER_DATA → settled (parse_order_event payload).1.
Proof.
  unfold classify_message, parse_order_event. destruct (bool_decide _); [done|]. destruct (open_message payload) as [root|]; [|done]. destruct (read_string root "type") as [type|]; [|done].
  intros Hc. set (m0 := match read_uint64 root "seq" with Some _ => _ | None => _ end). destruct (read_object root "msg") as [msg|]; [|by right].
  assert (∀ parse : P OrderParseCode, settled (parse m0).1 → settled (let '(code, m) := parse m0 in (code, m ⟪ pm_parse_code := code ⟫)).1) as Hl by (intros parse; by destruct (parse m0)).
  destruct (token type "fill"); [apply Hl, fill_settled|]. destruct (token type "user_order"); [apply Hl, user_order_settled|].
  destruct (token type "market_position"); [apply Hl, position_settled|]. cbn in Hc. by repeat case_match.
Qed.
(** The kind of a message is not changed by its reader. *)
Lemma order_event_kind payload : pm_kind (parse_order_event payload).2 = kORDER_DATA.
Proof.
  assert (∀ set id, rel (same pm_kind) (assign_id set id)) as H1 by (intros set id m; unfold assign_id; by destruct (assign_from _)).
  assert (∀ A set (o : option A), rel (same pm_kind) (chosen set o)) as H2 by (intros A set [|] m; done).
  assert (∀ set o, rel (same pm_kind) (written set o)) as H3 by (intros set [|] m; done).
  assert (rel (same pm_kind) normalize_price_for_outcome) as H4 by (intros m; unfold normalize_price_for_outcome, modify; cbn; by case_match).
  assert (∀ msg, rel (same pm_kind) (parse_fill_event msg)) as F1.
  { intros msg. unfold parse_fill_event, need, with_string, assign_exchange_order_id, assign_market_ticker, parse_price_ticks, optional_ts, write. rel_auto. }
  assert (∀ msg, rel (same pm_kind) (parse_user_order_event msg)) as F2.
  { intros msg. unfold parse_user_order_event, need, with_string, assign_exchange_order_id, assign_market_ticker, optional_ts, order_outcome, optional_client_order_id, assign_optional_client_order_id, write.
    rel_auto. }
  assert (∀ msg, rel (same pm_kind) (parse_market_position_event msg)) as F3.
  { intros msg. unfold parse_market_position_event, need, with_string, assign_market_ticker, money, write. rel_auto. }
  unfold parse_order_event. destruct (bool_decide _); [done|]. destruct (open_message payload) as [root|]; [|done].
  assert (pm_kind (match read_uint64 root "seq" with Some seq => default_ParsedOrderMessage ⟪ pm_kind := kORDER_DATA ⟫ ⟪ pm_order_event ::= λ e, e ⟪ pw_ws_sequence := seq ⟫ ⟫
    | None => default_ParsedOrderMessage ⟪ pm_kind := kORDER_DATA ⟫ end) = kORDER_DATA) as Hk by (by destruct (read_uint64 root "seq")).
  set (m0 := match read_uint64 root "seq" with Some _ => _ | None => _ end) in *. destruct (read_string root "type") as [type|]; [|done]. destruct (read_object root "msg") as [msg|]; [|done].
  assert (∀ parse : P OrderParseCode, rel (same pm_kind) parse → pm_kind (let '(code, m) := parse m0 in (code, m ⟪ pm_parse_code := code ⟫)).2 = kORDER_DATA) as Hl.
  { intros parse Hp. specialize (Hp m0). destruct (parse m0) as [code m]. cbn in *. unfold same in Hp. congruence. }
  apply Hl. rel_auto.
Qed.

(** ** Rounds *)

(** The state in which a round turns to the websocket. *)
Definition ready s : FeedState := (drain_control_commands (flush_deferred_oms_events s).2).2.
(** The message that is read there. *)
Definition arrival s : option (list Z) :=
  if kf_connected s then
    let r := (ow_recv_text (ow_poll (kf_ws_session s)).2).1 in
    match rr_status r with kREAD_MESSAGE => Some (rr_payload r) | _ => None end
  else None.
Definition round_due s : list KalshiToOmsEvent := match arrival (ready s) with Some payload => due (ready s) payload | None => [] end.

(** What is due is passed on; or it is lost and the feed closes. *)
Definition passes (owed : list KalshiToOmsEvent) s s' : Prop :=
  buffer_ok s' ∧ (feed_stream s' = feed_stream s ++ owed ∨ owed ≠ [] ∧ feed_stream s' = feed_stream s ∧ exhausted s' ∧ kf_connected s' = false).
Lemma passes_egress owed s s1 s' : egress s1 = egress s → passes owed s1 s' → passes owed s s'.
Proof. intros E. apply egress_same in E as (_ & S & _). unfold passes. by rewrite S. Qed.
Lemma passes_nothing s s' : buffer_ok s → egress s' = egress s → passes [] s s'.
Proof. intros Hi E. apply egress_same in E as (I & S & _). split; [auto|]. left. by rewrite app_nil_r. Qed.
Lemma passes_after owed s s1 s' : passes owed s s1 → egress s' = egress s1 → kf_connected s' = kf_connected s1 → passes owed s s'.
Proof.
  intros [Hi Ho] E Hk. apply egress_same in E as (I & S & C). split; [auto|]. rewrite S, Hk. unfold exhausted in *. rewrite C. exact Ho.
Qed.

Lemma order_event_passes payload m s : buffer_ok s → classify_message payload = kORDER_DATA → parse_order_event payload = (kPARSE_OK, m) →
  wp (handle_order_event clk (m ⟪ pm_parse_code := kPARSE_OK ⟫)) (λ _ s', passes (due s payload) s s') s.
Proof.
  intros Hi Hc Hp. pose proof (order_event_kind payload) as Hk. rewrite Hp in Hk. cbn in Hk. unfold handle_order_event, stamp_market_route. cbn [pm_kind].
  rewrite bool_decide_eq_true_2 by done. cbn [negb]. unfold due. rewrite Hc, Hp. unfold feed_tally. wp_steps. destruct (kf_desired_universe s) as [u|].
  - wp_steps. unfold wp at 1, feed_now_ns. cbn [fst snd]. wp_step. set (s1 := s ⟪ _ ::= _ ⟫). set (e := KePrivateWs _).
    eapply wp_mono; [apply (emit_outcome e s1); by destruct Hi as [R1 R2 R3 R4]|]. cbv beta. intros sent s2 [I2 Hs]. destruct sent; cbn [negb]; wp_steps.
    + split; [by destruct I2 as [R1 R2 R3 R4]|]. left. destruct Hs as [Hs _]. exact Hs.
    + split; [by destruct I2 as [R1 R2 R3 R4]|]. right. destruct Hs as (Hs & He & Hd). split; [done|]. split; [exact Hs|]. by split.
  - wp_steps. by apply passes_nothing.
Qed.

Lemma payload_passes payload s : buffer_ok s → wp (handle_payload clk payload) (λ _ s', passes (due s payload) s s') s.
Proof.
  intros Hi. unfold handle_payload, feed_tally, consume_message. do 2 wp_step. set (s1 := s ⟪ _ ::= _ ⟫).
  assert (buffer_ok s1) as Hi1 by (by destruct Hi as [R1 R2 R3 R4]). change (due s payload) with (due s1 payload). apply (wp_mono _ (λ _ s', passes (due s1 payload) s1 s')).
  2: { intros _ s'. by apply passes_egress. }
  generalize dependent s1. clear s Hi. intros s Hi.
  assert (∀ code m, parse_message payload = (code, m) → (classify_message payload = kORDER_DATA ∧ parse_order_event payload = (code, m)) ∨
    classify_message payload ≠ kORDER_DATA ∧ due s payload = [] ∧ pm_kind m ≠ kORDER_DATA) as Hcase.
  { intros code m. unfold parse_message, due. destruct (classify_message payload) eqn:Ec; [|by left|..]; intros E; right; (split; [done|]); (split; [done|]).
    - destruct (parse_control_response payload). by simplify_eq.
    - by simplify_eq.
    - by simplify_eq. }
  destruct (parse_message payload) as [code m] eqn:Em. destruct (Hcase code m eq_refl) as [[Hc Hp]|(Hc & -> & Hk)].
  - pose proof (order_event_settled payload Hc) as Hs. rewrite Hp in Hs. cbn in Hs. destruct Hs as [->|Hu].
    + cbn [unreadable_code]. replace (unreadable_code kPARSE_OK) with false by reflexivity. rewrite bool_decide_eq_false_2 by done.
      pose proof (order_event_kind payload) as Hk. rewrite Hp in Hk. cbn in Hk. cbv zeta. change (pm_kind (m ⟪ pm_parse_code := kPARSE_OK ⟫)) with (pm_kind m). rewrite Hk. wp_step.
      eapply wp_mono; [by apply order_event_passes|]. cbv beta. intros _ s2 H2. wp_steps. destruct (kf_connected s2) eqn:Ek; cbn [when]; wp_steps; [|done].
      by eapply passes_after; [exact H2| |].
    + cbv zeta. rewrite Hu. wp_steps. assert (due s payload = []) as ->; [|by apply passes_nothing]. unfold due. rewrite Hc, Hp. by destruct code.
  - assert (∀ k : M FeedState unit, rel (same egress) k → wp k (λ _ s', passes [] s s') s) as Hq.
    { intros k Hr. eapply (wp_rel (same egress)); [exact Hr|]. intros _ s' E. by apply passes_nothing. }
    apply Hq. cbv zeta. pose proof eg_response.
    apply rel_if; [rel_auto|]. apply rel_if; [rel_auto|]. apply rel_bind; [exact _| |intros _; rel_auto]. change (pm_kind (m ⟪ pm_parse_code := code ⟫)) with (pm_kind m).
    destruct (pm_kind m) eqn:Ekind; [rel_auto| |rel_auto|rel_auto]. done.
Qed.

Lemma transport_passes s : buffer_ok s → kf_connected s = true →
  wp (service_transport_once clk) (λ _ s', passes (match arrival s with Some payload => due s payload | None => [] end) s s') s.
Proof.
  intros Hi Hc. unfold service_transport_once, arrival. rewrite Hc. wp_step. unfold wp at 1, poll_websocket. destruct (ow_poll (kf_ws_session s)) as [n w]. cbn [fst snd]. wp_step.
  unfold wp at 1, recv_text. cbn [kf_ws_session]. set (s1 := s ⟪ kf_ws_session := w ⟫). change (kf_ws_session s1) with w. destruct (ow_recv_text w) as [r w']. cbn [fst snd]. set (s2 := s1 ⟪ kf_ws_session := w' ⟫).
  assert (buffer_ok s2) as Hi2 by (by destruct Hi as [R1 R2 R3 R4]). assert (∀ k : M FeedState unit, rel (same egress) k → wp (k;; mret true) (λ _ s', passes [] s s') s2) as Hq.
  { intros k Hr. wp_step. eapply (wp_rel (same egress)); [exact Hr|]. intros _ s' E. wp_step. eapply (passes_egress _ _ s2); [done|by apply passes_nothing]. }
  destruct (rr_status r).
  - wp_step. by apply passes_nothing.
  - wp_step. change (due s (rr_payload r)) with (due s2 (rr_payload r)). eapply wp_mono; [by apply payload_passes|]. cbv beta. intros _ s3 H3. wp_step. by eapply (passes_egress _ _ s2).
  - apply Hq, eg_disconnect.
  - apply Hq, eg_failed.
Qed.

(** What control hands over before a round. *)
Definition feed_hand_over (commands : list (option ControlToPrivateOrderFeedCommand)) s : FeedState :=
  s ⟪ kf_control_to_order_session_queue ::= λ q, q ++ commands ⟫.
Definition feed_round (commands : list (option ControlToPrivateOrderFeedCommand)) s : FeedState := (run_once clk (feed_hand_over commands s)).2.
Definition feed_rounds (inputs : list (list (option ControlToPrivateOrderFeedCommand))) s : FeedState := foldl (λ s commands, feed_round commands s) s inputs.

Lemma round_passes s : buffer_ok s → passes (round_due s) s (run_once clk s).2.
Proof.
  intros Hi. change (wp (run_once clk) (λ _ s', passes (round_due s) s s') s). unfold run_once, round_due. wp_step. unfold wp at 1.
  pose proof (flush_all s Hi) as Hf. unfold wp in Hf. unfold ready. destruct (flush_deferred_oms_events s) as [u s1]. cbn [fst snd] in *. destruct Hf as [I1 S1]. wp_step. unfold wp at 1.
  pose proof (eg_drain_control s1) as Ed. destruct (drain_control_commands s1) as [u2 s2]. cbn [fst snd] in *. apply egress_same in Ed as (I2 & S2 & _). specialize (I2 I1).
  assert (∀ s', passes (match arrival s2 with Some payload => due s2 payload | None => [] end) s2 s' → passes (match arrival s2 with Some payload => due s2 payload | None => [] end) s s') as Hp.
  { intros s' [Hb Ho]. split; [done|]. by rewrite S2, S1 in Ho. }
  do 2 wp_step. wp_step. apply (wp_mono _ (λ _ s', passes (match arrival s2 with Some payload => due s2 payload | None => [] end) s2 s')).
  - destruct (kf_connected s2) eqn:Ec; cbn [when].
    + wp_step. eapply wp_mono; [by apply transport_passes|]. cbv beta. intros _ s3 H3. by wp_step.
    + wp_step. unfold arrival. rewrite Ec. by apply passes_nothing.
  - intros _ s3 H3. eapply (wp_rel (λ s s', same egress s s' ∧ same kf_connected s s')); [intros s0; split; [apply eg_telemetry|apply co_telemetry]|].
    intros _ s4 [E4 K4]. apply Hp. by eapply passes_after.
Qed.

Lemma rounds_buffer inputs s : buffer_ok s → buffer_ok (feed_rounds inputs s).
Proof.
  intros Hi. induction inputs as [|i inputs IH] using rev_ind; [done|]. unfold feed_rounds. rewrite foldl_app. cbn. unfold feed_round. apply round_passes. by destruct IH as [R1 R2 R3 R4].
Qed.

(** The state after a run from the start. *)
Definition feed_run ws channels from_control to_control to_oms inputs : FeedState := feed_rounds inputs (make_order_session clk ws channels from_control to_control to_oms).

(** C28: the private feed passes on every order event, in order.  In any run, whatever the
    websocket delivers, a round extends the events sent to the OMS or waiting to be sent by
    exactly the event that the message it read holds: a fill, an update of an order or a
    position that can be read, stamped with the market of its ticker.  The one exception is a
    round that ends with all 1024 slots for waiting events in use: the event of that round is
    lost, and the feed is closed.  Nothing else is sent to the OMS, and nothing twice. *)
Theorem order_events_reach_the_oms ws channels from_control to_control to_oms inputs commands :
  feed_stream (feed_round commands (feed_run ws channels from_control to_control to_oms inputs)) =
    feed_stream (feed_run ws channels from_control to_control to_oms inputs) ++ round_due (feed_hand_over commands (feed_run ws channels from_control to_control to_oms inputs)) ∨
  round_due (feed_hand_over commands (feed_run ws channels from_control to_control to_oms inputs)) ≠ [] ∧
    feed_stream (feed_round commands (feed_run ws channels from_control to_control to_oms inputs)) = feed_stream (feed_run ws channels from_control to_control to_oms inputs) ∧
    exhausted (feed_round commands (feed_run ws channels from_control to_control to_oms inputs)) ∧
    kf_connected (feed_round commands (feed_run ws channels from_control to_control to_oms inputs)) = false.
Proof.
  unfold feed_run, feed_round. set (s := feed_rounds inputs _). assert (buffer_ok s) as Hb by (apply rounds_buffer; by split).
  exact (proj2 (round_passes (feed_hand_over commands s) ltac:(by destruct Hb as [R1 R2 R3 R4]))).
Qed.
End OrderFeed.
End OrderFeed.
