(* ===== verification/OrderReady.v ===== *)
(** * OrderReady: when the private feed says it is subscribed

    The feed reports a universe as subscribed once every channel has a subscription that the
    exchange has acknowledged, and forgets it whenever a subscription is dropped. *)

From S2P Require Import Prelude Spsc ShardTypes MarketParser WireTypes Wire OmsTypes RestAdapter ControlPlaneTypes OrderParser OrderSession OrderFeed.
Open Scope Z_scope.

Module OrderReady.
Import OrderParser OrderSession OrderFeed.

Section OrderReady.
Context {Q : Type → Type} `{HQ : PushQueue Q} {HL : PushQueueLaws Q} {W : Type} `{!OrderWebSocket W} {SJ : SimdJson} {SJN : SimdJsonNumbers} {SJB : SimdJsonBooleans}.
Variable clk : nat → Z.
Abbreviation FeedState := (FeedState (Q := Q) (W := W)).
Implicit Types s : FeedState.

(** ** Subscriptions *)

(** Version [v] is in force, with all channels acknowledged. *)
Definition subscribed_to (v : Z) s : Prop :=
  (∃ u, kf_desired_universe s = Some u ∧ un_version u = v) ∧ kf_desired_channels s ≠ [] ∧
  ∀ channel, channel ∈ kf_desired_channels s → acknowledged (kf_active_subscriptions s !! channel) = true.
(** Requests wait for the channels whose subscription is pending, one for each. *)
Record subs_ok s : Prop := {
  sk_version : kf_subscribed_universe_version s ≠ 0 → subscribed_to (kf_subscribed_universe_version s) s;
  sk_pending : ∀ id p, kf_pending_ws_commands s !! id = Some p →
    pc_kind p = kSUBSCRIBE ∧ ∃ sub, kf_active_subscriptions s !! pc_channel p = Some sub ∧ sb_phase sub = kSUBSCRIBE_PENDING;
  sk_one : ∀ id id' p p', kf_pending_ws_commands s !! id = Some p → kf_pending_ws_commands s !! id' = Some p' → pc_channel p = pc_channel p' → id = id';
}.

(** What this depends on. *)
Definition subs s := (kf_subscribed_universe_version s, kf_desired_universe s, kf_desired_channels s, kf_active_subscriptions s, kf_pending_ws_commands s).
Lemma subs_same s s' : subs s' = subs s → (subs_ok s → subs_ok s') ∧ ∀ v, subscribed_to v s → subscribed_to v s'.
Proof.
  unfold subs. intros E. apply pair_eq in E as [E E5]. apply pair_eq in E as [E E4]. apply pair_eq in E as [E E3]. apply pair_eq in E as [E1 E2].
  assert (∀ v, subscribed_to v s → subscribed_to v s') as Hv by (unfold subscribed_to; by rewrite E2, E3, E4). split; [|done].
  intros [S1 S2 S3]. split; [rewrite E1; auto|by rewrite E4, E5|by rewrite E5].
Qed.
Lemma ok_same {A} (m : M FeedState A) : rel (same subs) m → rel (keeps subs_ok) m.
Proof. intros Hm s. exact (proj1 (subs_same _ _ (Hm s))). Qed.

Lemma su_status status : rel (same subs) (push_control_status status).
Proof. intros s. unfold push_control_status. by destruct (q_push _ _). Qed.
#[local] Hint Resolve su_status : frame.
Lemma su_tell status : rel (same subs) (tell status).
Proof. unfold tell. rel_auto. Qed.
#[local] Hint Resolve su_tell : frame.
Lemma su_tell_fault error : rel (same subs) (tell_fault error).
Proof. unfold tell_fault, set_error. rel_auto. Qed.
#[local] Hint Resolve su_tell_fault : frame.
Lemma su_push e : rel (same subs) (push_to_oms e).
Proof. intros s. unfold push_to_oms. by destruct (q_push _ _). Qed.
#[local] Hint Resolve su_push : frame.
Lemma su_flush : rel (same subs) flush_deferred_oms_events.
Proof. unfold flush_deferred_oms_events. apply rel_bind; [exact _|rel_auto|intros count]. induction (Z.to_nat count) as [|n IH]; cbn [flush_loop]; rel_auto. Qed.
Lemma su_emit e : rel (same subs) (emit_or_defer_oms_event e).
Proof.
  assert (rel (same subs) (defer_oms_event e)) by (intros s; unfold defer_oms_event; by destruct (_ <? _)). unfold emit_or_defer_oms_event, feed_tally, close_websocket. rel_auto.
Qed.
#[local] Hint Resolve su_emit : frame.
Lemma su_order_event parsed : rel (same subs) (handle_order_event clk parsed).
Proof. unfold handle_order_event, stamp_market_route, feed_tally, feed_now_ns. rel_auto. Qed.
Lemma su_send request : rel (same subs) (send_text request).
Proof. intros s. unfold send_text. by destruct (ow_send_text _ _). Qed.
Lemma su_telemetry : rel (same subs) (maybe_send_telemetry clk).
Proof. unfold maybe_send_telemetry. rel_auto. Qed.

Lemma clear_ok : rel (keeps subs_ok) clear_transport_subscription_state.
Proof. intros s _. split; cbn; [done|intros id p; by rewrite lookup_empty|intros id id' p p'; by rewrite lookup_empty]. Qed.
#[local] Hint Resolve clear_ok : frame.

(** A change to a channel that is not acknowledged. *)
Lemma subscribed_other s s' channel sub : kf_desired_universe s' = kf_desired_universe s → kf_desired_channels s' = kf_desired_channels s →
  kf_active_subscriptions s' = <[channel := sub]> (kf_active_subscriptions s) → acknowledged (kf_active_subscriptions s !! channel) = false →
  ∀ v, subscribed_to v s → subscribed_to v s'.
Proof.
  intros E1 E2 E3 Hn v (Hu & Hc & Ha). unfold subscribed_to. rewrite E1, E2. split; [done|]. split; [done|]. intros ch Hin. specialize (Ha ch Hin). rewrite E3, lookup_insert_ne; [done|].
  intros ->. congruence.
Qed.

Lemma subscribe_channel_ok channel : rel (keeps subs_ok) (subscribe_channel channel).
Proof.
  intros s Hs. change (wp (subscribe_channel channel) (λ _ s', subs_ok s') s). unfold subscribe_channel. wp_steps.
  assert (∀ A (m : M FeedState A) s, rel (same subs) m → subs_ok s → wp m (λ _ s', subs_ok s') s) as Hq by (intros A m s0 Hm H0; by apply ok_same).
  destruct (bool_decide _) eqn:Eb; [apply Hq; [rel_auto|done]|]. apply bool_decide_eq_false, eq_None_not_Some in Eb. wp_step. unfold wp at 1, next_ws_command_id. cbn [fst snd].
  set (id := kf_next_ws_command_id s). set (s1 := s ⟪ _ ::= _ ⟫). assert (subs s1 = subs s) as E1 by done. wp_step. eapply (wp_rel (same subs)); [apply su_send|]. intros status s2 E2.
  assert (subs s2 = subs s) as E by (unfold same in E2; congruence). destruct (proj1 (subs_same _ _ E) Hs) as [S1 S2 S3].
  assert (kf_active_subscriptions s2 !! channel = None) as En by (unfold subs in E; injection E as ? ? ? -> ?; done). clear Hs E E1 E2 s1.
  assert (∀ id p, kf_pending_ws_commands s2 !! id = Some p → pc_channel p ≠ channel) as Hne.
  { intros id' p Hp Hc. destruct (S2 id' p Hp) as (_ & sub & Hsub & _). by rewrite Hc, En in Hsub. }
  assert (acknowledged (kf_active_subscriptions s2 !! channel) = false) as Hack by (by rewrite En).
  destruct (negb _); unfold websocket_error; wp_steps.
  - apply Hq; [rel_auto|]. split; cbn.
    + intros Hv. eapply (subscribed_other s2); [reflexivity|reflexivity|reflexivity|exact Hack|by apply S1].
    + intros id' p Hp. destruct (S2 id' p Hp) as (Hk & sub & Hsub & Hph). split; [done|]. exists sub. split; [|done]. by rewrite lookup_insert_ne by (by apply not_eq_sym, (Hne id')).
    + exact S3.
  - split; cbn.
    + intros Hv. eapply (subscribed_other s2); [reflexivity|reflexivity|reflexivity|exact Hack|by apply S1].
    + intros id' p. destruct (decide (id' = id)) as [->|Hid].
      * rewrite lookup_insert_eq. intros [= <-]. split; [done|]. cbn. eexists. rewrite lookup_insert_eq. by split.
      * rewrite lookup_insert_ne by done. intros Hp. destruct (S2 id' p Hp) as (Hk & sub & Hsub & Hph). split; [done|]. exists sub. split; [|done].
        by rewrite lookup_insert_ne by (by apply not_eq_sym, (Hne id')).
    + intros id1 id2 p1 p2. destruct (decide (id1 = id)) as [->|H1], (decide (id2 = id)) as [->|H2]; rewrite ?lookup_insert_eq, ?lookup_insert_ne by done; [done| | |apply S3].
      * intros [= <-] Hp Hc. by destruct (Hne id2 p2 Hp).
      * intros Hp [= <-] Hc. by destruct (Hne id1 p1 Hp).
Qed.
#[local] Hint Resolve subscribe_channel_ok : frame.
Lemma subscribe_ok : rel (keeps subs_ok) subscribe_active_universe.
Proof.
  assert (∀ channels, rel (keeps subs_ok) (subscribe_channels channels)) by (induction channels; cbn [subscribe_channels]; rel_auto).
  assert (∀ error, rel (keeps subs_ok) (tell_fault error)) by (intros; apply ok_same, su_tell_fault). unfold subscribe_active_universe. rel_auto.
Qed.
#[local] Hint Resolve subscribe_ok : frame.

(** Parts that only send statuses and change the rest of the state. *)
Lemma ok_tell status : rel (keeps subs_ok) (tell status).
Proof. apply ok_same, su_tell. Qed.
Lemma ok_modify (f : FeedState → FeedState) : (∀ s, subs (f s) = subs s) → rel (keeps subs_ok) (modify f).
Proof. intros Hf. apply ok_same. intros s. apply Hf. Qed.
#[local] Hint Resolve ok_tell : frame.
Ltac quiet_modify := apply ok_modify; intros ?; reflexivity.

Lemma connect_ok : rel (keeps subs_ok) connect.
Proof.
  assert (rel (keeps subs_ok) (λ s, let '(b, w) := ow_connect (kf_ws_session s) in (b, s ⟪ kf_ws_session := w ⟫))) by (apply ok_same; intros s; by destruct (ow_connect _)).
  unfold connect, websocket_error. rel_auto; quiet_modify.
Qed.
Lemma disconnect_ok reason : rel (keeps subs_ok) (disconnect reason).
Proof. unfold disconnect, close_websocket. rel_auto; quiet_modify. Qed.
Lemma failed_ok : rel (keeps subs_ok) receive_failed.
Proof. unfold receive_failed, websocket_error, set_error, close_websocket. rel_auto; quiet_modify. Qed.

(** A universe of the version that is subscribed to leaves the subscriptions in force. *)
Lemma apply_ok snapshot : rel (keeps subs_ok) (apply_universe_snapshot snapshot).
Proof.
  destruct snapshot as [u|]; cbn [apply_universe_snapshot]; [|apply ok_same, su_tell_fault]. apply rel_bind; [exact _| |intros _; apply ok_tell].
  intros s [S1 S2 S3]. split; [cbn|exact S2|exact S3]. destruct (Z.eqb_spec (kf_subscribed_universe_version s) (un_version u)) as [E|]; [|done].
  intros Hv. destruct (S1 Hv) as (_ & Hc & Ha). split; [by exists u|done].
Qed.
#[local] Hint Resolve connect_ok disconnect_ok apply_ok : frame.
Lemma drain_ok : rel (keeps subs_ok) drain_control_commands.
Proof.
  unfold drain_control_commands. apply rel_bind; [exact _|rel_auto|]. intros fuel. induction fuel as [|fuel IH]; cbn [control_loop]; [rel_auto|].
  assert (rel (keeps subs_ok) pop_control) by (apply ok_same; intros s; unfold pop_control; by destruct (kf_control_to_order_session_queue s)).
  assert (∀ cmd, rel (keeps subs_ok) (handle_control_command cmd)) by (intros cmd; unfold handle_control_command; rel_auto). rel_auto.
Qed.

(** ** Reports *)

Definition reports s : list PrivateOrderFeedToControlStatus := q_sent (kf_order_session_to_control_queue s).
Definition no_report (status : PrivateOrderFeedToControlStatus) : Prop := match status with PfSubscriptionReady _ => False | _ => True end.
(** Nothing is reported as subscribed. *)
Definition silent s s' : Prop := ∃ msgs, reports s' = reports s ++ msgs ∧ Forall no_report msgs.
#[local] Instance silent_preorder : PreOrder silent.
Proof.
  split; [intros s; exists []; by rewrite app_nil_r|]. intros s s1 s2 (m1 & E1 & F1) (m2 & E2 & F2). exists (m1 ++ m2). rewrite E2, E1, app_assoc. split; [done|by apply Forall_app].
Qed.
Lemma silent_same s s' : kf_order_session_to_control_queue s' = kf_order_session_to_control_queue s → silent s s'.
Proof. intros E. exists []. unfold reports. by rewrite E, app_nil_r. Qed.
Lemma si_status status : no_report status → rel silent (push_control_status status).
Proof.
  intros Hn s. unfold push_control_status. pose proof (push_sent status (kf_order_session_to_control_queue s)) as Hs. destruct (q_push _ _) as [b q]. cbn in *.
  exists (if b then [status] else []). unfold reports. cbn. rewrite Hs. destruct b; [split; [done|by constructor]|by rewrite app_nil_r].
Qed.
Lemma si_tell status : no_report status → rel silent (tell status).
Proof. intros Hn. unfold tell. apply rel_bind; [exact _|by apply si_status|rel_auto]. Qed.
Lemma si_modify (f : FeedState → FeedState) : (∀ s, kf_order_session_to_control_queue (f s) = kf_order_session_to_control_queue s) → rel silent (modify f).
Proof. intros Hf s. by apply silent_same, Hf. Qed.
Ltac silently := repeat first [progress rel_auto | apply si_tell; exact I | apply si_status; exact I | apply si_modify; intros ?; reflexivity | intros ?; by apply silent_same].
Lemma si_tell_fault error : rel silent (tell_fault error).
Proof. unfold tell_fault, set_error. silently. Qed.
#[local] Hint Resolve si_tell_fault : frame.
Lemma si_push e : rel silent (push_to_oms e).
Proof. intros s. unfold push_to_oms. destruct (q_push _ _). by apply silent_same. Qed.
Lemma si_send request : rel silent (send_text request).
Proof. intros s. unfold send_text. destruct (ow_send_text _ _). by apply silent_same. Qed.
#[local] Hint Resolve si_push si_send : frame.
Lemma si_flush : rel silent flush_deferred_oms_events.
Proof. unfold flush_deferred_oms_events. apply rel_bind; [exact _|rel_auto|intros count]. induction (Z.to_nat count) as [|n IH]; cbn [flush_loop]; silently. Qed.
Lemma si_channel channel : rel silent (subscribe_channel channel).
Proof. unfold subscribe_channel, next_ws_command_id, websocket_error. silently. Qed.
#[local] Hint Resolve si_channel : frame.
Lemma si_subscribe : rel silent subscribe_active_universe.
Proof.
  assert (∀ channels, rel silent (subscribe_channels channels)) by (induction channels; cbn [subscribe_channels]; silently). unfold subscribe_active_universe. silently.
Qed.
#[local] Hint Resolve si_subscribe : frame.
Lemma si_connect : rel silent connect.
Proof.
  assert (rel silent (λ s, let '(b, w) := ow_connect (kf_ws_session s) in (b, s ⟪ kf_ws_session := w ⟫))) by (intros s; destruct (ow_connect _); by apply silent_same).
  unfold connect, websocket_error, clear_transport_subscription_state. silently.
Qed.
Lemma si_disconnect reason : rel silent (disconnect reason).
Proof. unfold disconnect, close_websocket, clear_transport_subscription_state. silently. Qed.
#[local] Hint Resolve si_connect si_disconnect : frame.
Lemma si_drain : rel silent drain_control_commands.
Proof.
  unfold drain_control_commands. apply rel_bind; [exact _|rel_auto|]. intros fuel. induction fuel as [|fuel IH]; cbn [control_loop]; [rel_auto|].
  assert (rel silent pop_control) by (intros s; unfold pop_control; destruct (kf_control_to_order_session_queue s); by apply silent_same).
  assert (∀ cmd, rel silent (handle_control_command cmd)) by (intros cmd; unfold handle_control_command, apply_universe_snapshot, clear_transport_subscription_state; silently). silently.
Qed.
Lemma si_failed : rel silent receive_failed.
Proof. unfold receive_failed, websocket_error, set_error, close_websocket, clear_transport_subscription_state. silently. Qed.
Lemma si_order_event parsed : rel silent (handle_order_event clk parsed).
Proof.
  assert (∀ e, rel silent (defer_oms_event e)) by (intros e s; unfold defer_oms_event; destruct (_ <? _); by apply silent_same).
  unfold handle_order_event, stamp_market_route, feed_now_ns, emit_or_defer_oms_event, feed_tally, close_websocket. silently.
Qed.
Lemma si_telemetry : rel silent (maybe_send_telemetry clk).
Proof. unfold maybe_send_telemetry. silently. Qed.

(** ** Responses *)

(** What is reported as subscribed is so. *)
Definition announces s s' : Prop := ∃ msgs, reports s' = reports s ++ msgs ∧ ∀ v, PfSubscriptionReady v ∈ msgs → subscribed_to v s'.
Lemma silent_announces s s1 s2 : silent s s1 → announces s1 s2 → announces s s2.
Proof.
  intros (m1 & E1 & F1) (m2 & E2 & F2). exists (m1 ++ m2). rewrite E2, E1, app_assoc. split; [done|]. intros v [Hv|Hv]%elem_of_app; [|by apply F2].
  rewrite Forall_forall in F1. by destruct (F1 _ Hv).
Qed.
Lemma announces_silent s s1 s2 : announces s s1 → silent s1 s2 → subs s2 = subs s1 → announces s s2.
Proof.
  intros (m1 & E1 & F1) (m2 & E2 & F2) E. exists (m1 ++ m2). rewrite E2, E1, app_assoc. split; [done|]. intros v [Hv|Hv]%elem_of_app; [by apply (proj2 (subs_same _ _ E)), F1|].
  rewrite Forall_forall in F2. by destruct (F2 _ Hv).
Qed.
Lemma silent_only s s' : silent s s' → announces s s'.
Proof. intros H. eapply silent_announces; [exact H|]. exists []. rewrite app_nil_r. split; [done|]. set_solver. Qed.
Lemma tell_announces v s : subscribed_to v s → wp (tell (PfSubscriptionReady v)) (λ _ s', subs s' = subs s ∧ announces s s') s.
Proof.
  intros Hv. unfold wp. pose proof (su_tell (PfSubscriptionReady v) s) as E. split; [exact E|]. unfold tell, push_control_status, mbind, M_bind in *.
  pose proof (push_sent (PfSubscriptionReady v) (kf_order_session_to_control_queue s)) as Hs. destruct (q_push (PfSubscriptionReady v) _) as [b q]. cbn in *.
  exists (if b then [PfSubscriptionReady v] else []). unfold reports. cbn. rewrite Hs. split; [by destruct b; rewrite ?app_nil_r|]. intros v' Hin. apply (proj2 (subs_same _ _ E)).
  destruct b; [|by apply elem_of_nil in Hin]. apply list_elem_of_singleton in Hin. by simplify_eq.
Qed.

(** The response to the one request for a channel. *)
Lemma response_taken id p s : kf_pending_ws_commands s !! id = Some p → subs_ok s →
  subs_ok (s ⟪ kf_pending_ws_commands ::= delete id ⟫) ∧
  ∀ sub, sb_channel sub = pc_channel p → subs_ok (s ⟪ kf_pending_ws_commands ::= delete id ⟫ ⟪ kf_active_subscriptions ::= <[sb_channel sub := sub]> ⟫).
Proof.
  intros Hp [S1 S2 S3]. destruct (S2 id p Hp) as (_ & sub0 & Hsub0 & Hph). split.
  - split; cbn; [exact S1|intros id' p' [_ Hp']%lookup_delete_Some; by apply (S2 id')|intros id1 id2 p1 p2 [_ H1]%lookup_delete_Some [_ H2]%lookup_delete_Some; by apply (S3 id1 id2 p1 p2)].
  - intros sub Hc. split; cbn.
    + intros Hv. eapply (subscribed_other s); [reflexivity|reflexivity|reflexivity| |by apply S1]. rewrite Hc, Hsub0. unfold acknowledged. by rewrite Hph, bool_decide_eq_false_2.
    + intros id' p' [Hne Hp']%lookup_delete_Some. destruct (S2 id' p' Hp') as (Hk & sub' & Hsub' & Hph'). split; [done|]. exists sub'. split; [|done].
      rewrite lookup_insert_ne; [done|]. rewrite Hc. intros Hsame. by apply Hne, (S3 id id' p p').
    + intros id1 id2 p1 p2 [_ H1]%lookup_delete_Some [_ H2]%lookup_delete_Some. by apply (S3 id1 id2 p1 p2).
Qed.

Lemma response_outcome parsed s : subs_ok s → wp (handle_ws_control_response parsed) (λ _ s', subs_ok s' ∧ announces s s') s.
Proof.
  intros Hs. assert (∀ s', subs_ok s' → silent s s' → subs_ok s' ∧ announces s s') as Hq by (intros; split; [done|by apply silent_only]).
  unfold handle_ws_control_response. destruct (negb _); [wp_step; by apply Hq|]. cbv zeta. wp_steps. destruct (kf_pending_ws_commands s !! _) as [p|] eqn:Ep; [|wp_step; by apply Hq].
  destruct (response_taken _ _ _ Ep Hs) as [H1 H2]. destruct (sk_pending _ Hs _ _ Ep) as (Hk & _). wp_steps. destruct (negb (pc_universe_version p =? _)); [wp_step; apply Hq; [done|by apply silent_same]|].
  wp_steps. set (sub := (default _ _) ⟪ sb_channel := pc_channel p ⟫). set (s1 := s ⟪ _ ::= _ ⟫) in *.
  assert (∀ sub' e1 e2, sb_channel sub' = pc_channel p → wp (subscription_fault sub' e1 e2) (λ _ s', subs_ok s' ∧ announces s s') s1) as Hfault.
  { intros sub' e1 e2 Hc. unfold subscription_fault, put_subscription. do 2 wp_step. eapply (wp_rel (λ s s', same subs s s' ∧ silent s s')); [intros s0; split; [apply su_tell_fault|apply si_tell_fault]|].
    intros _ s2 [E2 Hs2]. apply Hq; [apply (proj1 (subs_same _ _ E2)); by apply H2|]. etrans; [|exact Hs2]. by apply silent_same. }
  destruct (negb (oc_success _)); [by apply Hfault|]. rewrite Hk. destruct (oc_session_id _) as [sid|]; [|by apply Hfault]. unfold put_subscription. wp_steps.
  set (sub1 := sub ⟪ _ := _ ⟫ ⟪ _ := _ ⟫ ⟪ _ := _ ⟫). set (s2 := s1 ⟪ _ ::= _ ⟫). assert (subs_ok s2) as Hs2 by (by apply H2). assert (silent s s2) as Hsi by (by apply silent_same).
  destruct (kf_desired_universe s2) as [u|] eqn:Eu; [|wp_step; by apply Hq]. destruct (_ && forallb _ _) eqn:Eall; cbn [when]; [|wp_step; by apply Hq]. apply andb_prop in Eall as [Hne Hall].
  wp_steps. set (s3 := s2 ⟪ _ := _ ⟫). assert (subscribed_to (un_version u) s3) as Hsub.
  { split; [exists u; by split|]. split; [intros E; by rewrite (bool_decide_eq_true_2 _ E) in Hne|]. intros ch Hin. rewrite forallb_forall in Hall. apply Hall. by apply list_elem_of_In. }
  assert (subs_ok s3) as Hs3 by (destruct Hs2 as [S1 S2 S3]; by split). eapply wp_mono; [by apply tell_announces|]. cbv beta. intros _ s4 [E4 A4]. split; [by apply (proj1 (subs_same _ _ E4))|].
  eapply silent_announces; [|exact A4]. etrans; [exact Hsi|by apply silent_same].
Qed.

Lemma payload_outcome payload s : subs_ok s → wp (handle_payload clk payload) (λ _ s', subs_ok s' ∧ announces s s') s.
Proof.
  intros Hs. unfold handle_payload, feed_tally, consume_message. do 2 wp_step. set (s1 := s ⟪ _ ::= _ ⟫). assert (subs_ok s1) as Hs1 by (by destruct Hs). destruct (parse_message payload) as [code m]. cbv zeta.
  assert (∀ m : M FeedState unit, rel (same subs) m → rel silent m → wp m (λ _ s', subs_ok s' ∧ announces s s') s1) as Hq.
  { intros k Hk Hsi. specialize (Hk s1). specialize (Hsi s1). split; [by apply (proj1 (subs_same _ _ Hk))|]. apply silent_only. etrans; [|exact Hsi]. by apply silent_same. }
  destruct (unreadable_code code); [apply Hq; silently|]. destruct (bool_decide _); [apply Hq; silently|]. wp_step.
  apply (wp_mono _ (λ _ s', subs_ok s' ∧ announces s s')).
  - destruct (pm_kind _); [|apply Hq; [apply su_order_event|apply si_order_event]|apply Hq; silently..].
    eapply wp_mono; [by apply response_outcome|]. cbv beta. intros _ s2 [H2 A2]. split; [done|]. eapply silent_announces; [|exact A2]. by apply silent_same.
  - intros _ s2 [H2 A2]. wp_steps. destruct (kf_connected s2); cbn [when]; wp_steps; [|by split]. split; [by destruct H2|]. eapply announces_silent; [exact A2|by apply silent_same|done].
Qed.

Lemma transport_outcome s : subs_ok s → wp (service_transport_once clk) (λ _ s', subs_ok s' ∧ announces s s') s.
Proof.
  intros Hs. unfold service_transport_once. wp_step. unfold wp at 1, poll_websocket. destruct (ow_poll _) as [n w]. cbn [fst snd]. wp_step. unfold wp at 1, recv_text.
  destruct (ow_recv_text _) as [r w']. cbn [fst snd]. set (s1 := s ⟪ _ := _ ⟫ ⟪ _ := _ ⟫). assert (subs_ok s1) as Hs1 by (by destruct Hs). assert (silent s s1) as Hsi by (by apply silent_same).
  assert (∀ m : M FeedState unit, rel (keeps subs_ok) m → rel silent m → wp (m;; mret true) (λ _ s', subs_ok s' ∧ announces s s') s1) as Hq.
  { intros k Hk Hk'. wp_step. specialize (Hk s1 Hs1). specialize (Hk' s1). unfold wp. cbn. split; [exact Hk|]. apply silent_only. by etrans. }
  destruct (rr_status r).
  - wp_step. split; [done|by apply silent_only].
  - wp_step. eapply wp_mono; [by apply payload_outcome|]. cbv beta. intros _ s2 [H2 A2]. wp_step. split; [done|]. by eapply silent_announces.
  - apply Hq; [apply disconnect_ok|apply si_disconnect].
  - apply Hq; [apply failed_ok|apply si_failed].
Qed.

Lemma round_outcome s : subs_ok s → subs_ok (run_once clk s).2 ∧ announces s (run_once clk s).2.
Proof.
  intros Hs. change (wp (run_once clk) (λ _ s', subs_ok s' ∧ announces s s') s). unfold run_once. wp_step.
  eapply (wp_rel (λ s s', keeps subs_ok s s' ∧ silent s s')); [intros s0; split; [apply ok_same, su_flush|apply si_flush]|]. intros _ s1 [K1 Q1]. specialize (K1 Hs). wp_step.
  eapply (wp_rel (λ s s', keeps subs_ok s s' ∧ silent s s')); [intros s0; split; [apply drain_ok|apply si_drain]|]. intros _ s2 [K2 Q2]. specialize (K2 K1). do 2 wp_step. wp_step.
  apply (wp_mono _ (λ _ s', subs_ok s' ∧ announces s2 s')).
  - destruct (kf_connected s2); cbn [when]; [|wp_step; split; [done|by apply silent_only]]. wp_step. eapply wp_mono; [by apply transport_outcome|]. cbv beta. intros _ s3 H3. by wp_step.
  - intros _ s3 [H3 A3]. eapply (wp_rel (λ s s', same subs s s' ∧ silent s s')); [intros s0; split; [apply su_telemetry|apply si_telemetry]|]. intros _ s4 [E4 Q4].
    split; [by apply (proj1 (subs_same _ _ E4))|]. apply (silent_announces _ s2); [by etrans|]. by eapply announces_silent.
Qed.

Lemma rounds_subs inputs s : subs_ok s → subs_ok (feed_rounds clk inputs s).
Proof.
  intros Hs. induction inputs as [|i inputs IH] using rev_ind; [done|]. unfold feed_rounds. rewrite foldl_app. cbn. unfold feed_round. apply round_outcome. by destruct IH.
Qed.

(** C29: the private feed says that it is subscribed only when it is.  In every state a run
    reaches in which a universe counts as subscribed, it is the installed one, and every
    channel that is wanted has a subscription that the exchange has acknowledged with a session
    id.  And whenever a round reports a universe to control as subscribed, the same holds for
    that universe at the end of the round. *)
Theorem subscription_is_acknowledged ws channels from_control to_control to_oms inputs commands v :
  (kf_subscribed_universe_version (feed_run clk ws channels from_control to_control to_oms inputs) = v ∧ v ≠ 0 →
     subscribed_to v (feed_run clk ws channels from_control to_control to_oms inputs)) ∧
  ∃ msgs, reports (feed_round clk commands (feed_run clk ws channels from_control to_control to_oms inputs)) =
      reports (feed_run clk ws channels from_control to_control to_oms inputs) ++ msgs ∧
    (PfSubscriptionReady v ∈ msgs → subscribed_to v (feed_round clk commands (feed_run clk ws channels from_control to_control to_oms inputs))).
Proof.
  unfold feed_run. set (s0 := make_order_session clk _ _ _ _ _). assert (subs_ok s0) as H0.
  { split; cbn; [done|intros id p; by rewrite lookup_empty|intros id id' p p'; by rewrite lookup_empty]. }
  pose proof (rounds_subs inputs s0 H0) as Hs. split; [intros [<- Hv]; by apply Hs|].
  destruct (round_outcome (feed_hand_over commands (feed_rounds clk inputs s0)) ltac:(by destruct Hs)) as [_ (msgs & E & F)]. exists msgs. split; [exact E|apply F].
Qed.
End OrderReady.
End OrderReady.
