(* ===== verification/OrderTrade.v ===== *)
(** * OrderTrade: a fill is read as the trade it reports

    The venue reports a fill with the price of YES, whatever was traded.  The parser gives the
    OMS the price of the outcome; together with outcome and action it promises what the trade
    does, and for an order written by the REST adapter what its intent does.

    At the end, Module [OrderDemo]: a concrete private feed. *)

From S2P Require Import Prelude Spsc MoneyTicks FixedPoint Book ShardTypes MarketParser WireTypes Wire WireRecovery OmsTypes RestTypes RestAdapter RestOrders ControlPlaneTypes OrderParser OrderSession OrderFeed OrderReady.
From Stdlib Require Import Ascii.
From Stdlib Require String.
Open Scope Z_scope.

Module OrderTrade.
Import MoneyTicks Book FixedPoint RestOrders OrderParser.
Import RestAdapter(chars, text, to_v2_order_coordinates, V2OrderCoordinates, v2_side, v2_yes_price_ticks).

(** Buying YES or selling NO is a bid for YES. *)
Definition bids_yes (outcome : Outcome) (action : OrderAction) : bool :=
  (bool_decide (outcome = kYES) && bool_decide (action = kBUY)) || (bool_decide (outcome = kNO) && bool_decide (action = kSELL)).
Definition yes_side (outcome : Outcome) (action : OrderAction) : string := if bids_yes outcome action then "bid" else "ask".

(** What the event of a fill promises per contract. *)
Definition event_profit (e : PrivateWsOrderEvent) (settles_yes : bool) : Z :=
  let pays := if Bool.eqb (bool_decide (pw_outcome e = kYES)) settles_yes then 10000 else 0 in
  if bool_decide (pw_action e = kBUY) then pays - pw_last_fill_price_ticks e else pw_last_fill_price_ticks e - pays.

Section OrderTrade.
Context {SJ : SimdJson} {SJN : SimdJsonNumbers} {SJB : SimdJsonBooleans}.

(** ** What a reader that succeeds has read *)

Lemma need_ok error test rest m m' : error ≠ kPARSE_OK → need error test rest m = (kPARSE_OK, m') → ∃ m1, test m = (true, m1) ∧ rest m1 = (kPARSE_OK, m').
Proof. intros He. unfold need, mbind, M_bind. destruct (test m) as [[|] m1]; [by exists m1|]. intros [= ? _]. congruence. Qed.
Lemma with_string_ok msg key use m m' : with_string msg key use m = (true, m') → ∃ value, read_string msg key = Some value ∧ use value m = (true, m').
Proof. unfold with_string. destruct (read_string msg key) as [value|]; [by exists value|done]. Qed.
Lemma assign_id_ok set id m m' : assign_id set id m = (true, m') → m' = m ⟪ pm_order_event ::= set (text id) ⟫.
Proof. unfold assign_id, assign_from. destruct (_ <=? _); cbn; [done|]. by intros [= <-]. Qed.
Lemma ticker_ok ticker m m' : assign_market_ticker ticker m = (true, m') → m' = m ⟪ pm_market_ticker := text ticker ⟫.
Proof. unfold assign_market_ticker. destruct (_ <=? _)%nat; cbn; [done|]. by intros [= <-]. Qed.
Lemma chosen_ok {A} set (o : option A) m m' : chosen set o m = (true, m') → ∃ a, o = Some a ∧ m' = m ⟪ pm_order_event ::= set a ⟫.
Proof. destruct o as [a|]; [|done]. cbn. intros [= <-]. by exists a. Qed.
Lemma written_ok set (o : option Z) m m' : written set o m = (true, m') → ∃ a, o = Some a ∧ m' = m ⟪ pm_order_event ::= set a ⟫.
Proof. destruct o as [a|]; [|done]. cbn. intros [= <-]. by exists a. Qed.
Lemma reference_bound value places p : reference_fixed_point value places false = Some p → p ≤ I64_MAX.
Proof.
  unfold reference_fixed_point. destruct (scaled_value value places) as [[[] v]|]; [done| |done]. cbn -[Z.ltb]. destruct (Z.ltb_spec I64_MAX v); [done|]. by intros [= <-].
Qed.
Lemma price_ok value set m m' : parse_price_ticks value set m = (true, m') → ∃ p, reference_fixed_point value 4 false = Some p ∧ 0 ≤ p ≤ 10000 ∧ m' = m ⟪ pm_order_event ::= set p ⟫.
Proof.
  unfold parse_price_ticks, OrderParser.parse_scaled_fp. change kTICKSCALE with (10 ^ Z.of_nat 4). rewrite (proj1 (readers_reference value 4 false ltac:(lia))).
  destruct (reference_fixed_point value 4 false) as [p|] eqn:Er; [|done]. cbn -[Z.leb u64]. intros [= Hp <-]. exists p. apply andb_prop in Hp as [H1%Z.leb_le H2%Z.leb_le]. split; [done|]. split; [|done].
  split; [done|]. pose proof (reference_bound _ _ _ Er). by rewrite u64_id in H2 by (unfold is_u64; lia).
Qed.
Lemma quantity_ok value q : parse_qty_lots value = Some q → reference_fixed_point value 2 false = Some q.
Proof. unfold parse_qty_lots, OrderParser.parse_scaled_fp. change kQTY_SCALE with (10 ^ Z.of_nat 2). by rewrite (proj1 (readers_reference value 2 false ltac:(lia))). Qed.
Lemma optional_ts_ok msg key m m' : optional_ts msg key m = (true, m') → ∃ ts, m' = m ⟪ pm_order_event ::= λ e, e ⟪ pw_venue_ts_ns := ts ⟫ ⟫.
Proof.
  unfold optional_ts. destruct (read_uint64 msg key) as [t|].
  - intros (ts & _ & ->)%written_ok. by exists ts.
  - cbn. intros [= <-]. exists (pw_venue_ts_ns (pm_order_event m)). by destruct m as [? ? ? [] ?].
Qed.

Lemma chars_of l : chars (text l) = l.
Proof. apply String.list_ascii_of_string_of_list_ascii. Qed.
Lemma outcome_token value o : parse_outcome value = Some o → (value = chars "yes" ∧ o = kYES) ∨ (value = chars "no" ∧ o = kNO).
Proof. unfold parse_outcome, token. repeat case_bool_decide; intros [=]; subst; auto. Qed.
Lemma action_token value a : parse_action value = Some a → (value = chars "buy" ∧ a = kBUY) ∨ (value = chars "sell" ∧ a = kSELL).
Proof. unfold parse_action, token. repeat case_bool_decide; intros [=]; subst; auto. Qed.

(** ** Fills *)

(** What the message says of the trade: outcome and action, the price of YES and the quantity. *)
Definition reports_trade (msg : jobject) (outcome : Outcome) (action : OrderAction) (yes_price quantity : Z) : Prop :=
  read_string msg "side" = Some (chars (if bool_decide (outcome = kYES) then "yes" else "no")) ∧ (outcome = kYES ∨ outcome = kNO) ∧
  read_string msg "action" = Some (chars (if bool_decide (action = kBUY) then "buy" else "sell")) ∧ (action = kBUY ∨ action = kSELL) ∧
  (∃ price, read_string msg "yes_price_dollars" = Some price ∧ reference_fixed_point price 4 false = Some yes_price) ∧
  (∃ count, read_string msg "count_fp" = Some count ∧ reference_fixed_point count 2 false = Some quantity).

Lemma normalized_profit outcome action yes_price e : (outcome = kYES ∨ outcome = kNO) → (action = kBUY ∨ action = kSELL) →
  pw_outcome e = outcome → pw_action e = action → pw_last_fill_price_ticks e = (if bool_decide (outcome = kNO) then 10000 - yes_price else yes_price) →
  ∀ settles_yes, event_profit e settles_yes = venue_profit (yes_side outcome action) yes_price settles_yes.
Proof.
  intros Ho Ha E1 E2 E3 yes. unfold event_profit, venue_profit, yes_side, bids_yes. rewrite E1, E2, E3. destruct Ho as [-> | ->], Ha as [-> | ->], yes; cbv -[Z.sub]; lia.
Qed.
Lemma order_profit order co : to_v2_order_coordinates (no_outcome order) (no_action order) (no_price_ticks order) = Some co →
  ∀ settles_yes, venue_profit (v2_side co) (v2_yes_price_ticks co) settles_yes = intended_profit order settles_yes.
Proof. intros Hc yes. destruct (coordinates_promise _ _ _ _ Hc) as (_ & _ & Hp). by apply Hp. Qed.

Lemma trade_facts msg e side act price count o a p q :
  read_string msg "side" = Some side → parse_outcome side = Some o → read_string msg "action" = Some act → parse_action act = Some a →
  read_string msg "yes_price_dollars" = Some price → reference_fixed_point price 4 false = Some p → 0 ≤ p ≤ 10000 →
  read_string msg "count_fp" = Some count → reference_fixed_point count 2 false = Some q →
  pw_outcome e = o → pw_action e = a → pw_last_fill_price_ticks e = (if bool_decide (o = kNO) then 10000 - p else p) → pw_last_fill_qty_lots e = q →
  ∃ yes_price, 0 ≤ yes_price ≤ 10000 ∧ reports_trade msg (pw_outcome e) (pw_action e) yes_price (pw_last_fill_qty_lots e) ∧
    (∀ settles_yes, event_profit e settles_yes = venue_profit (yes_side (pw_outcome e) (pw_action e)) yes_price settles_yes) ∧
    ∀ order co, to_v2_order_coordinates (no_outcome order) (no_action order) (no_price_ticks order) = Some co →
      v2_side co = yes_side (pw_outcome e) (pw_action e) → v2_yes_price_ticks co = yes_price → ∀ settles_yes, event_profit e settles_yes = intended_profit order settles_yes.
Proof.
  intros R4 Ho%outcome_token R5 Ha%action_token R6 Hp Hr R7 Hq Eo Ea Epr Eq. assert (o = kYES ∨ o = kNO) as Ho' by naive_solver. assert (a = kBUY ∨ a = kSELL) as Ha' by naive_solver.
  pose proof (normalized_profit o a p e Ho' Ha' Eo Ea Epr) as Hprofit. exists p. rewrite Eo, Ea, Eq. split; [done|]. split; [|split; [done|]].
  - unfold reports_trade. split_and!; [|done| |done|by exists price|by exists count]; [rewrite R4|rewrite R5].
    + by destruct Ho as [[-> ->]|[-> ->]].
    + by destruct Ha as [[-> ->]|[-> ->]].
  - intros order co Hco Hs Hy yes. rewrite Hprofit, <- Hs, <- Hy. by apply order_profit.
Qed.

(** C30: a fill is read as the trade it reports.  If the parser accepts the message of a fill,
    the event has the trade id, order id and ticker of the message, its outcome, action and
    exact quantity; its price is between nothing and a dollar, and outcome, action and price
    of the event make or lose per contract, however the market settles, exactly what a bid or
    offer for YES at the reported price does.  In particular a fill at the price at which the
    REST adapter wrote an order promises exactly what the intent of the order did. *)
Theorem fill_is_the_reported_trade msg m m' : parse_fill_event msg m = (kPARSE_OK, m') →
  read_string msg "trade_id" = Some (chars (pw_trade_id (pm_order_event m'))) ∧
  read_string msg "order_id" = Some (chars (pw_exchange_order_id (pm_order_event m'))) ∧
  read_string msg "market_ticker" = Some (chars (pm_market_ticker m')) ∧
  ∃ yes_price, 0 ≤ yes_price ≤ 10000 ∧
    reports_trade msg (pw_outcome (pm_order_event m')) (pw_action (pm_order_event m')) yes_price (pw_last_fill_qty_lots (pm_order_event m')) ∧
    (∀ settles_yes, event_profit (pm_order_event m') settles_yes =
       venue_profit (yes_side (pw_outcome (pm_order_event m')) (pw_action (pm_order_event m'))) yes_price settles_yes) ∧
    ∀ order co, to_v2_order_coordinates (no_outcome order) (no_action order) (no_price_ticks order) = Some co →
      v2_side co = yes_side (pw_outcome (pm_order_event m')) (pw_action (pm_order_event m')) → v2_yes_price_ticks co = yes_price →
      ∀ settles_yes, event_profit (pm_order_event m') settles_yes = intended_profit order settles_yes.
Proof.
  unfold parse_fill_event. unfold mbind at 1, M_bind at 1, write at 1, modify. cbv beta iota. set (m0 := m ⟪ _ ::= _ ⟫).
  intros (m1 & (trade & R1 & ->%assign_id_ok)%with_string_ok & H)%need_ok; [|done]. apply need_ok in H as (m2 & (oid & R2 & ->%assign_id_ok)%with_string_ok & H); [|done].
  apply need_ok in H as (m3 & (ticker & R3 & ->%ticker_ok)%with_string_ok & H); [|done]. apply need_ok in H as (m4 & (side & R4 & (o & Ho & ->)%chosen_ok)%with_string_ok & H); [|done].
  apply need_ok in H as (m5 & (act & R5 & (a & Ha & ->)%chosen_ok)%with_string_ok & H); [|done]. apply need_ok in H as (m6 & (price & R6 & (p & Hp & Hr & ->)%price_ok)%with_string_ok & H); [|done].
  unfold mbind at 1, M_bind at 1, normalize_price_for_outcome, modify in H. cbv beta iota in H.
  apply need_ok in H as (m7 & (count & R7 & (q & Hq%quantity_ok & ->)%written_ok)%with_string_ok & H); [|done]. apply need_ok in H as (m8 & (ts & ->)%optional_ts_ok & H); [|done].
  cbn in H. injection H as <-.
  pose proof (outcome_token _ _ Ho) as Ho'. split_and!.
  1-3: destruct o; cbn; by rewrite chars_of.
  eapply trade_facts; [exact R4|exact Ho|exact R5|exact Ha|exact R6|exact Hp|exact Hr|exact R7|exact Hq|..]; by destruct Ho' as [[_ ->]|[_ ->]].
Qed.
End OrderTrade.
End OrderTrade.

(** ** A concrete private feed

    One channel, a websocket that delivers a script of messages and records the requests, and
    queues of the abstract FIFO: the feed connects, subscribes, is acknowledged and receives a
    fill of a NO contract.  The queue to the OMS has no room, so that the fill waits. *)

Open Scope Z_scope.

Module OrderDemo.
Import OrderParser OrderSession OrderFeed OrderReady OrderTrade.
Import WireDemo(tree, TString, TNumber, TObject, tree_json, tree_numbers).
Import RestAdapter(chars).

(** ** Libraries *)

Record Line := mkLine { li_inbox : list (list Z); li_requests : list OrderWsRequest }.
#[local] Instance demo_line : OrderWebSocket Line := {|
  ow_connect := λ w, (true, w);
  ow_send_text := λ r w, (kSEND_ACCEPTED, mkLine (li_inbox w) (li_requests w ++ [r]));
  ow_poll := λ w, (1, w);
  ow_recv_text := λ w, (match li_inbox w with [] => mkReadResult kREAD_PENDING [] | m :: _ => mkReadResult kREAD_MESSAGE m end, w);
  ow_consume_message := λ w, mkLine (tail (li_inbox w)) (li_requests w);
  ow_close := λ w, mkLine [] (li_requests w);
  ow_last_error := λ _, ""%string;
|}.

Definition fill_body : list (string * tree) :=
  [("trade_id", TString "t-1"); ("order_id", TString "o-1"); ("market_ticker", TString "KX-A"); ("side", TString "no"); ("action", TString "buy");
   ("yes_price_dollars", TString "0.3500"); ("count_fp", TString "2.50"); ("ts_ms", TNumber 7)]%string.
Definition documents : list tree :=
  [TObject [("id", TNumber 1); ("type", TString "subscribed"); ("msg", TObject [("sid", TNumber 9)])];
   TObject [("type", TString "fill"); ("seq", TNumber 3); ("msg", TObject fill_body)]]%string.
#[local] Instance demo_simdjson : SimdJson := tree_json documents.
#[local] Instance demo_simdjson_numbers : SimdJsonNumbers := tree_numbers documents.
(** These documents have no booleans. *)
#[local] Instance demo_simdjson_booleans : SimdJsonBooleans := {| value_get_bool := λ _, None |}.

(** ** The feed *)

Definition demo_universe : OrderRouteUniverse := mkOrderRouteUniverse 6 [default_OrderMarketRoute ⟪ mr_market_id := 101 ⟫ ⟪ mr_kalshi_ticker := "KX-A"%string ⟫].
Definition demo_commands : list (option ControlToPrivateOrderFeedCommand) := [Some (CpApplyOrderRouteUniverse (Some demo_universe)); Some CpConnect].
Definition demo_clock (n : nat) : Z := 1 + Z.of_nat n.
Definition line : Line := mkLine [[0]; [1]] [].
Definition room {T} (capacity : Z) : Fifo T := mkFifo capacity [] [] [].
Abbreviation demo_feed inputs := (feed_run (Q := Fifo) demo_clock line [kFILL_CHANNEL] [] (room 8) (room 0) inputs).
Abbreviation demo_round commands inputs := (feed_round demo_clock commands (demo_feed inputs)).

Definition demo_fill : KalshiToOmsEvent :=
  KePrivateWs (default_PrivateWsOrderEvent ⟪ pw_event_kind := kFILL ⟫ ⟪ pw_ws_sequence := 3 ⟫ ⟪ pw_trade_id := "t-1"%string ⟫ ⟪ pw_exchange_order_id := "o-1"%string ⟫
    ⟪ pw_outcome := kNO ⟫ ⟪ pw_action := kBUY ⟫ ⟪ pw_last_fill_price_ticks := 6500 ⟫ ⟪ pw_last_fill_qty_lots := 250 ⟫ ⟪ pw_venue_ts_ns := 7000000 ⟫
    ⟪ pw_market_id := 101 ⟫ ⟪ pw_recv_ts_ns := 3 ⟫).

(** The universe is subscribed after the first round, the fill waits after the second. *)
Example feed_rounds_run : li_requests (kf_ws_session (demo_round demo_commands [])) = [OrderSubscribe 1 kFILL_CHANNEL []] ∧
  kf_subscribed_universe_version (demo_feed [demo_commands]) = 6 ∧ feed_stream (demo_feed [demo_commands]) = [] ∧
  feed_stream (demo_round [] [demo_commands]) = [demo_fill] ∧ kf_pending_oms_count (demo_round [] [demo_commands]) = 1.
Proof. vm_compute. split_and!; reflexivity. Qed.

(** ** The theorems at work *)

Lemma order_events_reach_the_oms_witness : feed_stream (demo_round [] [demo_commands]) = feed_stream (demo_feed [demo_commands]) ++ [demo_fill].
Proof.
  assert (round_due demo_clock (feed_hand_over [] (demo_feed [demo_commands])) = [demo_fill]) as E by (vm_compute; reflexivity).
  destruct (order_events_reach_the_oms (Q := Fifo) demo_clock line [kFILL_CHANNEL] [] (room 8) (room 0) [demo_commands] []) as [H|(_ & _ & _ & H)].
  - rewrite E in H. exact H.
  - assert (kf_connected (demo_round [] [demo_commands]) = true) as K by (vm_compute; reflexivity). rewrite K in H. discriminate H.
Defined.

Lemma subscription_is_acknowledged_witness : subscribed_to 6 (demo_feed [demo_commands]).
Proof.
  assert (kf_subscribed_universe_version (demo_feed [demo_commands]) = 6) as E by (vm_compute; reflexivity).
  destruct (subscription_is_acknowledged (Q := Fifo) demo_clock line [kFILL_CHANNEL] [] (room 8) (room 0) [demo_commands] [] 6) as [H _].
  apply H. split; [exact E|discriminate].
Defined.

Definition parsed_fill : ParsedOrderMessage := (parse_fill_event fill_body default_ParsedOrderMessage).2.
(** The fill is of an offer for YES at 35 cents. *)
Lemma fill_is_the_reported_trade_witness : ∃ yes_price,
  reports_trade fill_body kNO kBUY yes_price 250 ∧ ∀ settles_yes, event_profit (pm_order_event parsed_fill) settles_yes = RestOrders.venue_profit "ask" yes_price settles_yes.
Proof.
  assert (parse_fill_event fill_body default_ParsedOrderMessage = (kPARSE_OK, parsed_fill)) as E by (vm_compute; reflexivity).
  assert (pw_outcome (pm_order_event parsed_fill) = kNO ∧ pw_action (pm_order_event parsed_fill) = kBUY ∧ pw_last_fill_qty_lots (pm_order_event parsed_fill) = 250) as (E1 & E2 & E3)
    by (vm_compute; split_and!; reflexivity).
  destruct (fill_is_the_reported_trade (SJ := demo_simdjson) fill_body default_ParsedOrderMessage parsed_fill E) as (_ & _ & _ & yes_price & _ & H1 & H2 & _).
  rewrite E1, E2, E3 in H1. rewrite E1, E2 in H2. exists yes_price. split; [exact H1|exact H2].
Defined.
End OrderDemo.
