(* ===== verification/Config.v ===== *)
(** * Config: the configuration file

    Models [cpp/src/config/app_config.cpp]: the document is read section by section, a field
    that is missing keeps its default, and the result is validated before it is used.  A thrown
    exception is the left alternative of the result.  JSON is the class [NlohmannJson] of the
    REST adapter with the conversions [NlohmannGetters]; [NlohmannTyped] says that their results
    have the C++ types they are converted to. *)

From S2P Require Import Prelude IdleBackoff MarketTypes StrategyTypes MonotonicArb ControlTypes Universe WireTypes RestTypes OrderSession.
From stdpp Require Import pretty.
Open Scope Z_scope.

(** [json::get<T>()], with the message of its exception on the left; [json_elements] is what a
    range-based [for] visits, [json_extract] what [>>] reads from the start of a file. *)
Class NlohmannGetters `{NlohmannJson} := {
  json_as_bool : json → string + bool;
  json_as_string : json → string + string;
  json_as_uint64 : json → string + Z;
  json_as_uint32 : json → string + Z;
  json_as_int64 : json → string + Z;
  json_as_int : json → string + Z;
  json_elements : json → list json;
  json_extract : string → string + json;
}.
Class NlohmannTyped `{NlohmannGetters} := {
  as_uint64_typed : ∀ j n, json_as_uint64 j = inr n → is_u64 n;
  as_uint32_typed : ∀ j n, json_as_uint32 j = inr n → is_u32 n;
  as_int64_typed : ∀ j n, json_as_int64 j = inr n → is_i64 n;
}.

Module Config.
Import Backoff MonotonicArb.

(** ** Exceptions *)

Definition Result (A : Type) : Type := string + A.
#[global] Instance Result_ret : MRet Result := λ A a, inr a.
#[global] Instance Result_bind : MBind Result := λ A B k m, match m with inl e => inl e | inr a => k a end.
Definition throw {A} (error : string) : Result A := inl error.
(** [if(condition) throw std::runtime_error(error);] *)
Definition refuse_if (condition : bool) (error : string) : Result unit := if condition then throw error else mret tt.
Fixpoint each {A B} (f : A → Result B) (l : list A) : Result (list B) :=
  match l with
  | [] => mret []
  | a :: l => b ← f a; bs ← each f l; mret (b :: bs)
  end.

(** ** Data *)

Record RuntimeConfig := mkRuntimeConfig {
  rt_shard_count : Z;
  rt_shard_queue_capacity : Z;
  rt_router_queue_capacity : Z;
  rt_frame_pool_capacity : Z;
  rt_operator_queue_capacity : Z;
  rt_operator_socket_path : string;
  rt_market_data_tape_path : string;
  rt_thread_polling : IdleBackoffConfig;
  rt_synthetic_trading_session_enabled : bool;
  rt_reduce_only_after_seconds : Z;
  rt_flatten_to_zero_after_seconds : Z;
  rt_stopped_after_seconds : Z;
}.

Record KalshiAuthConfig := mkKalshiAuthConfig { au_key_id_env : string; au_private_key_pem_env : string }.
Record KalshiMarketDataConfig := mkKalshiMarketDataConfig { md_enable_market_data : bool; md_channels : list KalshiMarketDataChannel }.
Record KalshiOrderRestConfig := mkKalshiOrderRestConfig { or_enable_order_rest : bool; or_endpoint : string; or_max_concurrent_streams : Z }.
Record KalshiPrivateOrderFeedConfig := mkKalshiPrivateOrderFeedConfig { pf_enable_private_order_feed : bool; pf_channels : list KalshiOrderDataChannel }.
Record KalshiConfig := mkKalshiConfig {
  ka_auth : KalshiAuthConfig;
  ka_market_data : KalshiMarketDataConfig;
  ka_order_rest : KalshiOrderRestConfig;
  ka_private_order_feed : KalshiPrivateOrderFeedConfig;
}.

Record OmsConfig := mkOmsConfig {
  om_strategy_allocation_limit_ticks : Z;
  om_venue_safety_reserve_ticks : Z;
  om_maximum_group_reservation_ticks : Z;
  om_maximum_group_legs : Z;
  om_maximum_group_repair_attempts : Z;
  om_maximum_group_intent_age_ns : Z;
  om_portfolio_reconciliation_interval_ns : Z;
}.

Record StrategyConfig := mkStrategyConfig {
  sc_enable_monotonic_arb : bool;
  sc_strategy_id : Z;
  sc_maximum_observation_age_ns : Z;
  sc_monotonic_arb : MonotonicArbConfig;
}.

Record AppConfig := mkAppConfig {
  ap_runtime : RuntimeConfig;
  ap_kalshi : KalshiConfig;
  ap_oms : OmsConfig;
  ap_strategy : StrategyConfig;
  ap_universe_events : list EventConfig;
}.

Definition default_IdleBackoffConfig : IdleBackoffConfig := mkIdleBackoffConfig kLOW_LATENCY 64 64 50 1000.
Definition default_RuntimeConfig : RuntimeConfig :=
  mkRuntimeConfig 4 32768 32768 65536 64 "/tmp/predex_operator.sock" "logs/live/predex_tape.bin" default_IdleBackoffConfig false 0 0 0.
Definition default_KalshiAuthConfig : KalshiAuthConfig := mkKalshiAuthConfig "" "".
Definition default_KalshiMarketDataConfig : KalshiMarketDataConfig := mkKalshiMarketDataConfig false [].
Definition default_KalshiOrderRestConfig : KalshiOrderRestConfig := mkKalshiOrderRestConfig false "" 10.
Definition default_KalshiPrivateOrderFeedConfig : KalshiPrivateOrderFeedConfig := mkKalshiPrivateOrderFeedConfig false [].
Definition default_KalshiConfig : KalshiConfig :=
  mkKalshiConfig default_KalshiAuthConfig default_KalshiMarketDataConfig default_KalshiOrderRestConfig default_KalshiPrivateOrderFeedConfig.
Definition default_OmsConfig : OmsConfig := mkOmsConfig 0 0 0 10 2 0 5000000000.
Definition default_StrategyConfig : StrategyConfig := mkStrategyConfig false 1 50000000 default_MonotonicArbConfig.
Definition default_app_config : AppConfig :=
  mkAppConfig default_RuntimeConfig default_KalshiConfig default_OmsConfig default_StrategyConfig [].

(** ** Names *)

Definition parse_market_data_channel (channel : string) : Result KalshiMarketDataChannel :=
  if bool_decide (channel = "orderbook_delta"%string) then mret kCH_ORDERBOOK_DELTA
  else if bool_decide (channel = "trade"%string) then mret kCH_TRADE
  else if bool_decide (channel = "market_lifecycle_v2"%string) then mret kCH_MARKET_LIFECYCLE
  else throw ("Unknown Kalshi market data channel: " +:+ channel)%string.

Definition parse_order_data_channel (channel : string) : Result KalshiOrderDataChannel :=
  if bool_decide (channel = "fill"%string) then mret kFILL_CHANNEL
  else if bool_decide (channel = "market_positions"%string) then mret kMARKET_POSITIONS_CHANNEL
  else if bool_decide (channel = "user_orders"%string) then mret kUSER_ORDERS_CHANNEL
  else throw ("Unknown Kalshi private order feed channel: " +:+ channel)%string.

Definition parse_thread_polling_profile (profile : string) : Result ThreadPollingProfile :=
  if bool_decide (profile = "low_latency"%string) then mret kLOW_LATENCY
  else if bool_decide (profile = "harvest"%string) then mret kHARVEST
  else throw ("Unknown thread polling profile: " +:+ profile)%string.

(** ** Reading *)

Section Load.
Context {NJ : NlohmannJson} {NG : NlohmannGetters}.

(** [if(j.contains(key)) field = j[key].get<T>();] and [field = j.value(key, field);] *)
Definition field {A} (get : json → string + A) (j : json) (key : string) (default : A) : Result A :=
  if json_contains j key then get (json_at j key) else mret default.

Definition get_string_or_unsigned (j : json) (field_name : string) : Result string :=
  if negb (json_contains j field_name) then throw ("Missing required field: " +:+ field_name)%string
  else
    let value := json_at j field_name in
    if json_is_string value then json_as_string value
    else if json_is_number_unsigned value then n ← json_as_uint64 value; mret (pretty (Z.to_N n))
    else if json_is_number_integer value then
      signed_value ← json_as_int64 value;
      if signed_value <? 0 then throw ("Field must be non-negative: " +:+ field_name)%string else mret (pretty (Z.to_N (u64 signed_value)))
    else throw ("Field must be a string or unsigned integer: " +:+ field_name)%string.

Definition get_required_string (j : json) (field_name : string) : Result string :=
  if negb (json_contains j field_name) || negb (json_is_string (json_at j field_name)) then throw ("Missing or invalid string field: " +:+ field_name)%string
  else json_as_string (json_at j field_name).

Definition load_thread_polling (j : json) : Result IdleBackoffConfig :=
  let d := default_IdleBackoffConfig in
  refuse_if (negb (json_is_object j)) "Invalid thread_polling configuration: expected object";;
  profile ← field (λ v, name ← json_as_string v; parse_thread_polling_profile name) j "profile" (profile d);
  spin_iterations ← field json_as_uint32 j "spin_iterations" (spin_iterations d);
  yield_iterations ← field json_as_uint32 j "yield_iterations" (yield_iterations d);
  min_sleep ← field json_as_int64 j "min_sleep_us" (min_sleep d);
  max_sleep ← field json_as_int64 j "max_sleep_us" (max_sleep d);
  mret (mkIdleBackoffConfig profile spin_iterations yield_iterations min_sleep max_sleep).

Definition load_runtime (j : json) : Result RuntimeConfig :=
  let d := default_RuntimeConfig in
  shard_count ← field json_as_uint64 j "shard_count" (rt_shard_count d);
  shard_queue_capacity ← field json_as_uint64 j "shard_queue_capacity" (rt_shard_queue_capacity d);
  router_queue_capacity ← field json_as_uint64 j "router_queue_capacity" (rt_router_queue_capacity d);
  frame_pool_capacity ← field json_as_uint64 j "frame_pool_capacity" (rt_frame_pool_capacity d);
  operator_queue_capacity ← field json_as_uint64 j "operator_queue_capacity" (rt_operator_queue_capacity d);
  operator_socket_path ← field json_as_string j "operator_socket_path" (rt_operator_socket_path d);
  market_data_tape_path ← field json_as_string j "market_data_tape_path" (rt_market_data_tape_path d);
  thread_polling ← field load_thread_polling j "thread_polling" (rt_thread_polling d);
  synthetic_trading_session_enabled ← field json_as_bool j "synthetic_trading_session_enabled" (rt_synthetic_trading_session_enabled d);
  reduce_only_after_seconds ← field json_as_uint64 j "reduce_only_after_seconds" (rt_reduce_only_after_seconds d);
  flatten_to_zero_after_seconds ← field json_as_uint64 j "flatten_to_zero_after_seconds" (rt_flatten_to_zero_after_seconds d);
  stopped_after_seconds ← field json_as_uint64 j "stopped_after_seconds" (rt_stopped_after_seconds d);
  mret (mkRuntimeConfig shard_count shard_queue_capacity router_queue_capacity frame_pool_capacity operator_queue_capacity operator_socket_path
    market_data_tape_path thread_polling synthetic_trading_session_enabled reduce_only_after_seconds flatten_to_zero_after_seconds stopped_after_seconds).

Definition load_auth (j : json) : Result KalshiAuthConfig :=
  key_id_env ← field json_as_string j "key_id_env" "";
  private_key_pem_env ← field json_as_string j "private_key_pem_env" "";
  mret (mkKalshiAuthConfig key_id_env private_key_pem_env).

(** The list of channels, each of them a string. *)
Definition load_channels {A} (parse : string → Result A) (error : string) (j : json) : Result (list A) :=
  each (λ channel, refuse_if (negb (json_is_string channel)) error;; name ← json_as_string channel; parse name) (json_elements j).

Definition load_market_data (j : json) : Result KalshiMarketDataConfig :=
  enable ← field json_as_bool j "enable_market_data" false;
  channels ← field (load_channels parse_market_data_channel "Invalid Kalshi market data channel: expected string") j "channels" [];
  mret (mkKalshiMarketDataConfig enable channels).

Definition load_order_rest (j : json) : Result KalshiOrderRestConfig :=
  let d := default_KalshiOrderRestConfig in
  enable ← field json_as_bool j "enable_order_rest" (or_enable_order_rest d);
  endpoint ← field json_as_string j "endpoint" (or_endpoint d);
  max_concurrent_streams ← field json_as_uint64 j "max_concurrent_streams" (or_max_concurrent_streams d);
  mret (mkKalshiOrderRestConfig enable endpoint max_concurrent_streams).

Definition load_private_order_feed (j : json) : Result KalshiPrivateOrderFeedConfig :=
  enable ← field json_as_bool j "enable_private_order_feed" false;
  channels ← field (load_channels parse_order_data_channel "Invalid Kalshi private order feed channel: expected string") j "channels" [];
  mret (mkKalshiPrivateOrderFeedConfig enable channels).

Definition load_kalshi (j : json) : Result KalshiConfig :=
  auth ← field load_auth j "auth" default_KalshiAuthConfig;
  market_data ← field load_market_data j "market_data" default_KalshiMarketDataConfig;
  order_rest ← field load_order_rest j "order_rest" default_KalshiOrderRestConfig;
  private_order_feed ← field load_private_order_feed j "private_order_feed" default_KalshiPrivateOrderFeedConfig;
  mret (mkKalshiConfig auth market_data order_rest private_order_feed).

Definition load_oms (j : json) : Result OmsConfig :=
  let d := default_OmsConfig in
  refuse_if (negb (json_is_object j)) "Invalid oms configuration: expected object";;
  strategy_allocation_limit_ticks ← field json_as_int64 j "strategy_allocation_limit_ticks" (om_strategy_allocation_limit_ticks d);
  venue_safety_reserve_ticks ← field json_as_int64 j "venue_safety_reserve_ticks" (om_venue_safety_reserve_ticks d);
  maximum_group_reservation_ticks ← field json_as_uint64 j "maximum_group_reservation_ticks" (om_maximum_group_reservation_ticks d);
  maximum_group_legs ← field json_as_uint64 j "maximum_group_legs" (om_maximum_group_legs d);
  maximum_group_repair_attempts ← field json_as_uint64 j "maximum_group_repair_attempts" (om_maximum_group_repair_attempts d);
  refuse_if ((U8_MAX <? maximum_group_legs) || (U8_MAX <? maximum_group_repair_attempts)) "OMS group limits exceed uint8 range";;
  maximum_group_intent_age_ns ← field json_as_uint64 j "maximum_group_intent_age_ns" (om_maximum_group_intent_age_ns d);
  portfolio_reconciliation_interval_ns ← field json_as_uint64 j "portfolio_reconciliation_interval_ns" (om_portfolio_reconciliation_interval_ns d);
  mret (mkOmsConfig strategy_allocation_limit_ticks venue_safety_reserve_ticks maximum_group_reservation_ticks (u8 maximum_group_legs)
    (u8 maximum_group_repair_attempts) maximum_group_intent_age_ns portfolio_reconciliation_interval_ns).

Definition load_monotonic_arb (j : json) : Result MonotonicArbConfig :=
  let d := default_MonotonicArbConfig in
  refuse_if (negb (json_is_object j)) "Invalid monotonic_arb configuration: expected object";;
  order_quantity_lots ← field json_as_uint64 j "order_quantity_lots" (ac_order_quantity_lots d);
  minimum_net_edge_ticks ← field json_as_uint64 j "minimum_net_edge_ticks" (ac_minimum_net_edge_ticks d);
  edge_cushion_ticks ← field json_as_uint64 j "edge_cushion_ticks" (ac_edge_cushion_ticks d);
  require_top_gap_continuity ← field json_as_bool j "require_top_gap_continuity" (ac_require_top_gap_continuity d);
  maximum_top_gap_ticks ← field json_as_uint64 j "maximum_top_gap_ticks" (ac_maximum_top_gap_ticks d);
  require_near_top_multilevel_support ← field json_as_bool j "require_near_top_multilevel_support" (ac_require_near_top_multilevel_support d);
  near_top_depth_window_ticks ← field json_as_uint64 j "near_top_depth_window_ticks" (ac_near_top_depth_window_ticks d);
  minimum_near_top_levels ← field json_as_uint64 j "minimum_near_top_levels" (ac_minimum_near_top_levels d);
  bounded_easier_aggression_enabled ← field json_as_bool j "bounded_easier_aggression_enabled" (ac_bounded_easier_aggression_enabled d);
  bounded_harder_aggression_enabled ← field json_as_bool j "bounded_harder_aggression_enabled" (ac_bounded_harder_aggression_enabled d);
  maximum_easier_aggression_ticks ← field json_as_uint64 j "maximum_easier_aggression_ticks" (ac_maximum_easier_aggression_ticks d);
  maximum_harder_aggression_ticks ← field json_as_uint64 j "maximum_harder_aggression_ticks" (ac_maximum_harder_aggression_ticks d);
  maximum_easier_book_levels ← field json_as_uint64 j "maximum_easier_book_levels" (ac_maximum_easier_book_levels d);
  maximum_harder_book_levels ← field json_as_uint64 j "maximum_harder_book_levels" (ac_maximum_harder_book_levels d);
  refuse_if ((U8_MAX <? minimum_near_top_levels) || (U8_MAX <? maximum_easier_book_levels) || (U8_MAX <? maximum_harder_book_levels))
    "Monotonic arbitrage level count exceeds uint8 range";;
  require_full_easier_depth_for_quantity ← field json_as_bool j "require_full_easier_depth_for_quantity" (ac_require_full_easier_depth_for_quantity d);
  require_full_harder_depth_for_quantity ← field json_as_bool j "require_full_harder_depth_for_quantity" (ac_require_full_harder_depth_for_quantity d);
  taker_fee_rate_numerator ← field json_as_uint32 j "taker_fee_rate_numerator" (ac_taker_fee_rate_numerator d);
  taker_fee_rate_denominator ← field json_as_uint32 j "taker_fee_rate_denominator" (ac_taker_fee_rate_denominator d);
  execution_rounding_reserve_ticks_per_leg ← field json_as_uint64 j "execution_rounding_reserve_ticks_per_leg" (ac_execution_rounding_reserve_ticks_per_leg d);
  mret (mkMonotonicArbConfig order_quantity_lots minimum_net_edge_ticks edge_cushion_ticks require_top_gap_continuity maximum_top_gap_ticks
    require_near_top_multilevel_support near_top_depth_window_ticks (u8 minimum_near_top_levels) bounded_easier_aggression_enabled
    bounded_harder_aggression_enabled maximum_easier_aggression_ticks maximum_harder_aggression_ticks (u8 maximum_easier_book_levels)
    (u8 maximum_harder_book_levels) require_full_easier_depth_for_quantity require_full_harder_depth_for_quantity taker_fee_rate_numerator
    taker_fee_rate_denominator execution_rounding_reserve_ticks_per_leg).

Definition load_strategy (j : json) : Result StrategyConfig :=
  let d := default_StrategyConfig in
  refuse_if (negb (json_is_object j)) "Invalid strategy configuration: expected object";;
  enable_monotonic_arb ← field json_as_bool j "enable_monotonic_arb" (sc_enable_monotonic_arb d);
  strategy_id ← field json_as_uint32 j "strategy_id" (sc_strategy_id d);
  maximum_observation_age_ns ← field json_as_uint64 j "maximum_observation_age_ns" (sc_maximum_observation_age_ns d);
  monotonic_arb ← field load_monotonic_arb j "monotonic_arb" (sc_monotonic_arb d);
  mret (mkStrategyConfig enable_monotonic_arb strategy_id maximum_observation_age_ns monotonic_arb).

(** [static_cast<std::uint64_t>(j.value(key, 0))]: the default is an [int], and so is the value. *)
Definition time_field (j : json) (key : string) : Result Z := n ← field json_as_int j key 0; mret (u64 n).

Definition load_market (j : json) : Result MarketConfig :=
  market_id ← get_string_or_unsigned j "market_id";
  kalshi_ticker ← get_required_string j "kalshi_ticker";
  tradeable ← field json_as_bool j "tradeable" false;
  price_level_structure ← get_required_string j "price_level_structure";
  strike_key ← field (λ v, n ← json_as_int64 v; mret (Some n)) j "strike_key" None;
  market_time_s ← time_field j "market_time_s";
  market_close_time_s ← time_field j "market_close_time_s";
  market_expected_expiration_time_s ← time_field j "market_expected_expiration_time_s";
  market_expiration_time_s ← time_field j "market_expiration_time_s";
  mret (mkMarketConfig market_id kalshi_ticker tradeable price_level_structure strike_key market_time_s market_close_time_s
    market_expected_expiration_time_s market_expiration_time_s).

Definition load_event (j : json) : Result EventConfig :=
  event_id ← get_string_or_unsigned j "event_id";
  affinity_key ← get_string_or_unsigned j "affinity_key";
  topology ← get_required_string j "topology";
  refuse_if (negb (json_contains j "markets") || negb (json_is_array (json_at j "markets"))) "Universe event markets must be an array";;
  markets ← each load_market (json_elements (json_at j "markets"));
  mret (mkEventConfig event_id affinity_key topology markets).

Definition load_universe (j : json) : Result (list EventConfig) := field (λ events, each load_event (json_elements events)) j "events" [].

(** ** Validation *)

(** [(capacity & (capacity - 1)) != 0] *)
Definition bad_capacity (capacity : Z) : bool := (capacity =? 0) || negb (Z.land capacity (u64 (capacity - 1)) =? 0).

(** The capital of two legs at a dollar, in [unsigned __int128]. *)
Definition group_reservation (quantity_lots : Z) : Z :=
  let leg_product := u128 (quantity_lots * kPriceTicksPerDollar) in
  let leg_reservation := u128 (leg_product / kQuantityLotsPerContract + (if leg_product mod kQuantityLotsPerContract =? 0 then 0 else 1)) in
  u128 (leg_reservation * 2).

Definition validate_oms (config : OmsConfig) : Result unit :=
  refuse_if (om_strategy_allocation_limit_ticks config <? 0) "Invalid configuration: strategy_allocation_limit_ticks must be non-negative";;
  refuse_if (om_venue_safety_reserve_ticks config <? 0) "Invalid configuration: venue_safety_reserve_ticks must be non-negative";;
  refuse_if ((om_maximum_group_legs config =? 0) || (10 <? om_maximum_group_legs config)) "Invalid configuration: maximum_group_legs must be between 1 and 10".

Definition validate_strategy (config : AppConfig) : Result unit :=
  let strategy := ap_strategy config in
  let oms := ap_oms config in
  let kalshi := ap_kalshi config in
  if sc_enable_monotonic_arb strategy then
    refuse_if ((sc_strategy_id strategy =? 0) || (sc_maximum_observation_age_ns strategy =? 0) || negb (valid_monotonic_arb_config (sc_monotonic_arb strategy)))
      "Invalid configuration: monotonic arbitrage strategy settings are invalid";;
    refuse_if (negb (md_enable_market_data (ka_market_data kalshi)) || negb (or_enable_order_rest (ka_order_rest kalshi))
        || negb (pf_enable_private_order_feed (ka_private_order_feed kalshi)))
      "Invalid configuration: monotonic arbitrage requires market data, order REST, and private order feed";;
    refuse_if ((om_strategy_allocation_limit_ticks oms <=? 0) || (om_maximum_group_reservation_ticks oms =? 0) || (om_maximum_group_legs oms <? 2)
        || (om_maximum_group_repair_attempts oms =? 0) || (om_maximum_group_intent_age_ns oms =? 0))
      "Invalid configuration: monotonic arbitrage requires positive OMS capital, repair attempts, and two-leg group admission";;
    let reservation := group_reservation (ac_order_quantity_lots (sc_monotonic_arb strategy)) in
    refuse_if ((u128 (om_maximum_group_reservation_ticks oms) <? reservation) || (u128 (om_strategy_allocation_limit_ticks oms) <? reservation))
      "Invalid configuration: OMS capital cannot cover one monotonic arbitrage group";;
    refuse_if (negb (existsb (λ event, bool_decide (ec_topology event = "monotonic_chain"%string)) (ap_universe_events config)))
      "Invalid configuration: monotonic arbitrage requires a monotonic_chain event"
  else mret tt.

Definition validate_session (config : RuntimeConfig) : Result unit :=
  if rt_synthetic_trading_session_enabled config then
    refuse_if (rt_reduce_only_after_seconds config =? 0)
      "Invalid configuration: reduce_only_after_seconds must be greater than 0 when synthetic trading session is enabled";;
    refuse_if (negb (rt_flatten_to_zero_after_seconds config =? 0) && (rt_flatten_to_zero_after_seconds config <? rt_reduce_only_after_seconds config))
      "Invalid configuration: flatten_to_zero_after_seconds must be >= reduce_only_after_seconds";;
    let lower_bound := if rt_flatten_to_zero_after_seconds config =? 0 then rt_reduce_only_after_seconds config else rt_flatten_to_zero_after_seconds config in
    refuse_if (negb (rt_stopped_after_seconds config =? 0) && (rt_stopped_after_seconds config <? lower_bound))
      "Invalid configuration: stopped_after_seconds must be >= the previous synthetic trading session cutoff"
  else mret tt.

Definition is_harvest (config : IdleBackoffConfig) : bool := match profile config with kHARVEST => true | kLOW_LATENCY => false end.

Definition validate_runtime (config : RuntimeConfig) : Result unit :=
  let polling := rt_thread_polling config in
  refuse_if (rt_shard_count config =? 0) "Invalid configuration: shard_count must be greater than 0";;
  refuse_if (bad_capacity (rt_shard_queue_capacity config)) "Invalid configuration: shard_queue_capacity must be a positive power of two";;
  refuse_if (bad_capacity (rt_router_queue_capacity config)) "Invalid configuration: router_queue_capacity must be a positive power of two";;
  refuse_if (bad_capacity (rt_frame_pool_capacity config)) "Invalid configuration: frame_pool_capacity must be a positive power of two";;
  refuse_if (bad_capacity (rt_operator_queue_capacity config)) "Invalid configuration: operator_queue_capacity must be a positive power of two";;
  refuse_if (bool_decide (rt_operator_socket_path config = ""%string)) "Invalid configuration: operator_socket_path must not be empty";;
  refuse_if (bool_decide (rt_market_data_tape_path config = ""%string)) "Invalid configuration: market_data_tape_path must not be empty";;
  refuse_if (is_harvest polling && (min_sleep polling <=? 0)) "Invalid configuration: harvest min_sleep_us must be greater than 0";;
  refuse_if (is_harvest polling && (max_sleep polling <? min_sleep polling)) "Invalid configuration: harvest max_sleep_us must be >= min_sleep_us";;
  validate_session config.

Definition validate_market (topology : string) (market : MarketConfig) : Result unit :=
  refuse_if (bool_decide (mc_market_id market = ""%string)) "Invalid configuration: universe market_id must not be empty";;
  refuse_if (bool_decide (mc_kalshi_ticker market = ""%string)) "Invalid configuration: universe kalshi_ticker must not be empty";;
  refuse_if (bool_decide (mc_price_level_structure market = ""%string)) "Invalid configuration: universe price_level_structure must not be empty";;
  refuse_if (bool_decide (topology = "monotonic_chain"%string) && bool_decide (mc_strike_key market = None))
    "Invalid configuration: universe market must have a strike_key when topology is monotonic chain".

Definition validate_event (event : EventConfig) : Result unit :=
  refuse_if (bool_decide (ec_event_id event = ""%string)) "Invalid configuration: universe event_id must not be empty";;
  refuse_if (bool_decide (ec_affinity_key event = ""%string)) "Invalid configuration: universe affinity_key must not be empty";;
  refuse_if (bool_decide (ec_topology event = ""%string)) "Invalid configuration: universe topology must not be empty";;
  refuse_if (bool_decide (ec_markets event = [])) "Invalid configuration: universe event must contain at least one market";;
  _ ← each (validate_market (ec_topology event)) (ec_markets event);
  mret tt.

Definition validate_universe (events : list EventConfig) : Result unit :=
  refuse_if (bool_decide (events = [])) "Invalid configuration: universe must contain at least one event";;
  _ ← each validate_event events;
  mret tt.

(** The credentials of a connection that is enabled. *)
Definition validate_auth (auth : KalshiAuthConfig) (purpose : string) : Result unit :=
  refuse_if (bool_decide (au_key_id_env auth = ""%string)) ("Invalid configuration: kalshi.auth.key_id_env must not be empty when " +:+ purpose +:+ " is enabled")%string;;
  refuse_if (bool_decide (au_private_key_pem_env auth = ""%string))
    ("Invalid configuration: kalshi.auth.private_key_pem_env must not be empty when " +:+ purpose +:+ " is enabled")%string.

Definition kREQUIRED_CHANNELS : list KalshiOrderDataChannel := [kUSER_ORDERS_CHANNEL; kFILL_CHANNEL; kMARKET_POSITIONS_CHANNEL].

Definition validate_kalshi (config : KalshiConfig) : Result unit :=
  let auth := ka_auth config in
  let market_data := ka_market_data config in
  let order_rest := ka_order_rest config in
  let feed := ka_private_order_feed config in
  (if md_enable_market_data market_data then
     validate_auth auth "market data";;
     refuse_if (bool_decide (md_channels market_data = [])) "Invalid configuration: kalshi.market_data.channels must not be empty when market data is enabled"
   else mret tt);;
  (if or_enable_order_rest order_rest then
     validate_auth auth "order REST";;
     refuse_if (or_max_concurrent_streams order_rest =? 0)
       "Invalid configuration: kalshi.order_rest.max_concurrent_streams must be greater than 0 when order REST is enabled";;
     refuse_if (negb (pf_enable_private_order_feed feed)) "Invalid configuration: private order feed must be enabled when order REST is enabled"
   else mret tt);;
  (if pf_enable_private_order_feed feed then
     validate_auth auth "private order feed";;
     refuse_if (bool_decide (pf_channels feed = [])) "Invalid configuration: kalshi.private_order_feed.channels must not be empty when private order feed is enabled";;
     if or_enable_order_rest order_rest then
       refuse_if (negb (forallb (λ channel, bool_decide (channel ∈ pf_channels feed)) kREQUIRED_CHANNELS))
         "Invalid configuration: live order graph requires user_orders, fill, and market_positions private channels"
     else mret tt
   else mret tt).

Definition validate_app_config (config : AppConfig) : Result unit :=
  validate_oms (ap_oms config);;
  validate_strategy config;;
  validate_runtime (ap_runtime config);;
  validate_universe (ap_universe_events config);;
  validate_kalshi (ap_kalshi config).

(** The sections of the document, in their order in the code. *)
Definition load_sections (j : json) : Result AppConfig :=
  runtime ← field load_runtime j "runtime" default_RuntimeConfig;
  kalshi ← field load_kalshi j "kalshi" default_KalshiConfig;
  oms ← field load_oms j "oms" default_OmsConfig;
  strategy ← field load_strategy j "strategy" default_StrategyConfig;
  events ← field load_universe j "universe" [];
  mret (mkAppConfig runtime kalshi oms strategy events).

(** [contents] is the file, if it can be opened. *)
Definition load_app_config (config_path : string) (contents : option string) : Result AppConfig :=
  let loaded :=
    match contents with
    | None => throw ("Failed to open config file: " +:+ config_path)%string
    | Some contents =>
        json_config ← json_extract contents;
        config ← load_sections json_config;
        validate_app_config config;;
        mret config
    end in
  match loaded with
  | inl error => throw ("Error loading app config from " +:+ config_path +:+ ": " +:+ error)%string
  | inr config => mret config
  end.
End Load.
End Config.
