(* ===== verification/ControlPlane.v ===== *)
(** * ControlPlane: the state of the process

    Models [ControlPlane] of [cpp/src/control/control_plane.cpp] and its header: it takes the
    statuses of all components, derives the phase of the process from them, carries out the
    operator's commands, distributes a universe to the components, and drives the recovery
    coordinator.

    - Queues that are read are lists of the results of the next pops; a queue that may be
      absent is an [option].
    - [clk n] is the [n]-th reading of the steady clock, in nanoseconds.
    - A loss report may fail to allocate: [alloc n] says which insertions succeed in the call
      made at the [n]-th reading of the clock.
    - An index past the end of a vector is undefined in the source and has no effect here. *)

From S2P Require Import Prelude Spsc LatencyHistogram MarketTypes Book Event Router ControlTypes ShardTypes WireTypes Recovery OmsTypes ControlPlaneTypes.
From stdpp Require Import pretty.

Module ControlPlane.
Import Book Event Recovery.
#[local] Open Scope Z_scope.

Definition bump (n : Z) : Z := u64 (n + 1).
Definition add64 (k n : Z) : Z := u64 (n + k).

(** ** Conversions *)

Definition to_shard_market_scale (structure : PriceLevelStructure) : MarketScale :=
  match structure with
  | kLINEAR_CENT => kLINEAR_CENTS
  | kTAPERED_DECI_CENT => kTAPERED_DECI_CENTS
  | kDECI_CENT => kDECI_CENTS
  | kPRICE_UNKNOWN => kSCALE_UNKNOWN
  end.

Definition to_control_shard_stats (stats : ShardStats) : ShardTelemetrySnapshot :=
  mkShardTelemetrySnapshot (ss_frames_seen stats) (ss_frames_applied stats) (ss_parse_rejects stats)
    (ss_event_rejects stats) (ss_event_desyncs stats) (ss_frames_to_logger stats) (ss_frames_recycled stats)
    (ss_leaked_handles stats) (ss_missed_frames_to_logger stats) (ss_event_ignored stats)
    (ss_market_barriers_seen stats) (ss_subscription_barriers_seen stats) (ss_barrier_rejects stats)
    (ss_markets_became_unusable stats) (ss_markets_recovery_required stats)
    (ss_markets_already_awaiting_recovery stats) (ss_router_to_shard_latency stats) (ss_shard_service_latency stats)
    (ss_ingress_to_shard_latency stats) (ss_ingress_to_book_apply_latency stats).

Definition account_recovery_observation (result : RecoveryObservationResult) (t : RecoveryTelemetrySnapshot) : RecoveryTelemetrySnapshot :=
  match ob_code result with
  | kCREATED => t ⟪ rv_incidents_created ::= bump ⟫ ⟪ rv_markets_scheduled ::= add64 (ob_markets_affected result) ⟫
  | kDUPLICATE => t ⟪ rv_incidents_deduplicated ::= bump ⟫
  | kALREADY_RECOVERING => t ⟪ rv_markets_already_recovering ::= bump ⟫
  | _ => t ⟪ rv_observations_rejected ::= bump ⟫
  end.

Definition account_recovery_fact (result : RecoveryFactResult) (t : RecoveryTelemetrySnapshot) : RecoveryTelemetrySnapshot :=
  if negb (bool_decide (fr_disposition result = kFACT_APPLIED)) then t
  else
    let t :=
      match fr_effect result with
      | kEFFECT_REQUEST_ACCEPTED => t ⟪ rv_requests_accepted ::= bump ⟫
      | kRETRY_SCHEDULED => t ⟪ rv_request_failures ::= bump ⟫ ⟪ rv_retries_scheduled ::= bump ⟫
      | kMARKET_RECOVERED => t ⟪ rv_markets_recovered ::= bump ⟫
      | kMARKET_FAILED => t ⟪ rv_request_failures ::= bump ⟫ ⟪ rv_markets_failed ::= bump ⟫
      | kEFFECT_NONE => t
      end in
    if fr_incident_completed result then
      let duration := Z.max 0 (fr_recovery_duration result) in
      t ⟪ rv_incidents_completed ::= bump ⟫ ⟪ rv_recovery_duration_samples ::= bump ⟫
        ⟪ rv_recovery_duration_total_ns ::= add64 duration ⟫ ⟪ rv_recovery_duration_max_ns ::= Z.max duration ⟫
        ⟪ rv_recovery_duration_latency ::= λ h, Histogram.record h duration ⟫
    else t.

(** [vector::resize]: a vector that is too short is extended for the index. *)
Definition ensure_index {A} (d : A) (index : Z) (l : list A) : list A :=
  if Z.of_nat (length l) <=? index then resize (Z.to_nat (u32 (index + 1))) d l else l.

Definition install_market (route : UniverseMarketRoute) (m : KalshiMarket) : KalshiMarket :=
  m ⟪ km_market_id := ur_market_id route ⟫ ⟪ km_event_market_index := ur_event_market_index route ⟫ ⟪ km_tradeable := ur_tradeable route ⟫
    ⟪ km_book ::= λ b, b ⟪ bk_scale := to_shard_market_scale (ur_price_level_structure route) ⟫ ⟫
    ⟪ km_strike_key := ur_strike_key route ⟫ ⟪ km_market_time_s := ur_market_time_s route ⟫
    ⟪ km_market_close_time_s := ur_market_close_time_s route ⟫
    ⟪ km_market_expected_expiration_time_s := ur_market_expected_expiration_time_s route ⟫
    ⟪ km_market_expiration_time_s := ur_market_expiration_time_s route ⟫.

Definition install_event (route : UniverseMarketRoute) (e : Event.KalshiEvent) : Event.KalshiEvent :=
  e ⟪ Event.ke_event_id := ur_event_id route ⟫ ⟪ Event.ke_topology := ur_topology route ⟫
    ⟪ Event.ke_shard_event_index := ur_shard_event_index route ⟫
    ⟪ Event.ke_markets ::= λ ms, alter (install_market route) (Z.to_nat (ur_event_market_index route))
        (ensure_index default_KalshiMarket (ur_event_market_index route) ms) ⟫.

Definition install_route (shard_count : nat) (events_by_shard : list (list Event.KalshiEvent)) (route : UniverseMarketRoute)
    : list (list Event.KalshiEvent) :=
  if Z.of_nat shard_count <=? ur_shard_index route then events_by_shard
  else
    alter (λ shard_events, alter (install_event route) (Z.to_nat (ur_shard_event_index route))
             (ensure_index Event.default_KalshiEvent (ur_shard_event_index route) shard_events))
          (Z.to_nat (ur_shard_index route)) events_by_shard.

Definition build_shard_events (snapshot : UniverseSnapshot) (shard_count : nat) : list (list Event.KalshiEvent) :=
  foldl (install_route shard_count) (replicate shard_count []) (us_market_routes snapshot).

(** The numeric values of [PriceLevelStructure]. *)
Definition price_level_code (p : PriceLevelStructure) : Z :=
  match p with kPRICE_UNKNOWN => 0 | kLINEAR_CENT => 1 | kTAPERED_DECI_CENT => 2 | kDECI_CENT => 3 end.

Definition order_market_route (route : UniverseMarketRoute) : OrderMarketRoute :=
  mkOrderMarketRoute (ur_market_id route) (ur_event_id route) (ur_kalshi_ticker route) (ur_tradeable route)
    (price_level_code (ur_price_level_structure route)) (ur_strike_key route) (ur_market_time_s route) (ur_market_close_time_s route)
    (ur_market_expected_expiration_time_s route) (ur_market_expiration_time_s route).
Definition build_order_route_universe (snapshot : UniverseSnapshot) : OrderRouteUniverse :=
  mkOrderRouteUniverse (us_version snapshot) (order_market_route <$> us_market_routes snapshot).

(** [to_operator_unknown_market_ticker_stats] copies the samples field by field into a struct
    of the same shape. *)
Definition to_operator_unknown_market_ticker_stats (samples : list UnknownMarketTickerStats) : list UnknownMarketTickerStats :=
  (λ x, mkUnknownMarketTickerStats (uk_market_ticker x) (uk_frame_kind x) (uk_sid x) (uk_channel x)) <$> samples.

Definition shard_counter_stats (shard_index : nat) (shard_state : ShardComponentState) : ShardCounterStats :=
  let telemetry := shs_telemetry shard_state in
  mkShardCounterStats (Z.of_nat shard_index) (stl_frames_seen telemetry) (stl_frames_applied telemetry)
      (stl_parse_rejects telemetry) (stl_event_rejects telemetry) (stl_event_desyncs telemetry)
      (stl_frames_to_logger telemetry) (stl_frames_recycled telemetry) (stl_leaked_handles telemetry)
      (stl_missed_frames_to_logger telemetry) (stl_event_ignored telemetry) (stl_market_barriers_seen telemetry)
      (stl_subscription_barriers_seen telemetry) (stl_barrier_rejects telemetry)
      (stl_markets_became_unusable telemetry) (stl_markets_recovery_required telemetry)
      (stl_markets_already_awaiting_recovery telemetry) (stl_router_to_shard_latency telemetry)
      (stl_shard_service_latency telemetry) (stl_ingress_to_shard_latency telemetry)
      (stl_ingress_to_book_apply_latency telemetry).

Definition status_snapshot (p : ProcessState) : OperatorStatusSnapshot :=
  mkOperatorStatusSnapshot (pst_lifecycle p) (pst_trading_session_phase p) (pst_trading_enabled p) (pst_shutdown_requested p).

Definition build_counter_stats_snapshot (p : ProcessState) : OperatorCounterStatsSnapshot :=
  let io := pst_io_component_state p in
  let router := pst_router_component_state p in
  let logger := pst_logger_component_state p in
  let oms := pst_oms_component_state p in
  let feed := pst_private_order_feed_component_state p in
  let rest := pst_order_rest_component_state p in
  mkOperatorCounterStatsSnapshot (status_snapshot p)
    (mkIoCounterStats (ios_connected io) (ios_installed_universe_version io) (ios_subscribed_universe_version io)
      (io_frames_received (ios_telemetry io)) (io_frames_published (ios_telemetry io))
      (io_frames_dropped (ios_telemetry io)) (io_oversized_frames (ios_telemetry io))
      (io_pool_exhausted (ios_telemetry io)) (io_missing_frame_slot (ios_telemetry io))
      (io_envelope_parse_failed (ios_telemetry io)) (io_envelope_missing_market_ticker (ios_telemetry io))
      (io_envelope_unsupported_type (ios_telemetry io)) (io_inactive_sid (ios_telemetry io))
      (io_unknown_market_ticker (ios_telemetry io))
      (to_operator_unknown_market_ticker_stats (io_unknown_market_ticker_samples (ios_telemetry io)))
      (io_stamp_failed (ios_telemetry io)) (io_router_enqueue_failed (ios_telemetry io))
      (io_logger_fallback_enqueued (ios_telemetry io)) (io_logger_fallback_failed (ios_telemetry io))
      (io_recycle_failures (ios_telemetry io)) (io_snapshot_requests_sent (ios_telemetry io))
      (io_snapshot_requests_accepted (ios_telemetry io)) (io_snapshot_requests_failed (ios_telemetry io))
      (io_frame_pool_in_use_high_water (ios_telemetry io)) (io_router_queue_depth_high_water (ios_telemetry io))
      (io_channel_stats (ios_telemetry io)) (io_wire_service_latency (ios_telemetry io)) (ios_last_error io))
    (mkRouterCounterStats (rtl_total_frames_seen (rp_telemetry router)) (rtl_frames_to_shards (rp_telemetry router))
      (rtl_frames_to_logger (rp_telemetry router)) (rtl_frames_recycled (rp_telemetry router))
      (rtl_leaked_handles (rp_telemetry router)) (rtl_market_barriers_received (rp_telemetry router))
      (rtl_market_barriers_delivered (rp_telemetry router)) (rtl_subscription_barriers_received (rp_telemetry router))
      (rtl_subscription_barriers_delivered (rp_telemetry router)) (rtl_barriers_deferred (rp_telemetry router))
      (rtl_subscription_recovery_facts_deferred (rp_telemetry router))
      (rtl_shard_queue_depth_high_water (rp_telemetry router)) (rtl_channel_stats (rp_telemetry router))
      (rtl_wire_to_router_latency (rp_telemetry router)) (rtl_router_service_latency (rp_telemetry router)))
    (imap shard_counter_stats (pst_shard_component_states p))
    (mkLoggerCounterStats (lgs_output_file_path logger) (lt_records_written (lgs_telemetry logger))
      (lt_bytes_written (lgs_telemetry logger)) (lt_write_failures (lgs_telemetry logger))
      (lt_recycle_failures (lgs_telemetry logger)) (lt_shard_to_logger_latency (lgs_telemetry logger))
      (lt_ingress_to_logger_write_latency (lgs_telemetry logger)))
    (mkOmsCounterStats (oms_trading_enabled oms) (oms_cancel_all_requested oms) (oms_installed_universe_version oms)
      (tm_unknown_market_rejects (oms_telemetry oms)) (tm_non_tradeable_market_rejects (oms_telemetry oms))
      (tm_strategy_intents_received (oms_telemetry oms)) (tm_strategy_intents_processed (oms_telemetry oms))
      (tm_strategy_intents_rejected (oms_telemetry oms)) (tm_kalshi_commands_sent (oms_telemetry oms))
      (tm_kalshi_commands_failed (oms_telemetry oms)) (tm_rest_responses_seen (oms_telemetry oms))
      (tm_private_ws_events_seen (oms_telemetry oms)) (tm_reconciliation_events_seen (oms_telemetry oms))
      (tm_portfolio_reconciliations_requested (oms_telemetry oms))
      (tm_portfolio_reconciliations_completed (oms_telemetry oms))
      (tm_portfolio_reconciliations_failed (oms_telemetry oms)) (tm_duplicate_fills_ignored (oms_telemetry oms))
      (tm_venue_position_updates_seen (oms_telemetry oms)) (tm_venue_available_balance_ticks (oms_telemetry oms))
      (tm_portfolio_reconciled (oms_telemetry oms)) (tm_order_state_updates_sent (oms_telemetry oms))
      (tm_strategy_response_backpressure (oms_telemetry oms)) (tm_execution_incidents_latched (oms_telemetry oms))
      (tm_group_repair_attempts (oms_telemetry oms)) (tm_group_repair_commands_sent (oms_telemetry oms))
      (tm_group_repairs_completed (oms_telemetry oms)) (tm_group_repairs_failed (oms_telemetry oms))
      (tm_execution_incident_active (oms_telemetry oms)) (tm_live_orders (oms_telemetry oms))
      (tm_pending_submit_orders (oms_telemetry oms)) (tm_uncertain_orders (oms_telemetry oms)) (oms_last_error oms))
    (mkPrivateOrderFeedCounterStats (fc_connected feed) (fc_installed_universe_version feed)
      (fc_subscribed_universe_version feed) (ftl_messages_received (fc_telemetry feed))
      (ftl_messages_decoded (fc_telemetry feed)) (ftl_messages_dropped (fc_telemetry feed))
      (ftl_parse_failures (fc_telemetry feed)) (ftl_oms_enqueue_failures (fc_telemetry feed))
      (ftl_reconnects (fc_telemetry feed)) (fc_last_error feed))
    (mkOrderRestCounterStats (ec_enabled rest) (ec_installed_universe_version rest)
      (et_commands_received (ec_telemetry rest)) (et_requests_sent (ec_telemetry rest))
      (et_responses_received (ec_telemetry rest)) (et_requests_failed (ec_telemetry rest))
      (et_retry_count (ec_telemetry rest)) (et_oms_enqueue_failures (ec_telemetry rest))
      (et_last_portfolio_reconciliation_error (ec_telemetry rest)) (ec_last_error rest))
    (pst_recovery_telemetry p).

(** ** The state *)

Section ControlPlane.
Context {Q : Type → Type} `{!PushQueue Q}.

Record ControlState := mkControlState {
  cp_operator_command_queue : list (option OperatorCommand);
  cp_operator_response_queue : Q OperatorResponse;
  cp_control_to_io_queue : Q ControlToIoCommand;
  cp_io_to_control_status_queue : list (option IoToControlStatus);
  cp_process_state : ProcessState;
  cp_active_universe : option UniverseSnapshot;
  cp_active_order_universe : option OrderRouteUniverse;
  cp_next_universe_version : Z;
  cp_router_to_control_queue : list (option RouterStatus);
  cp_control_to_shard_queues : list (option (Q ControlToShardCommand));
  cp_shard_to_control_queues : list (option (list (option ShardToControlMessage)));
  cp_logger_to_control_status_queue : option (list (option LoggerToControlStatus));
  cp_control_to_oms_queue : option (Q ControlToOmsCommand);
  cp_oms_to_control_status_queue : option (list (option OmsToControlStatus));
  cp_control_to_private_order_feed_queue : option (Q ControlToPrivateOrderFeedCommand);
  cp_private_order_feed_to_control_status_queue : option (list (option PrivateOrderFeedToControlStatus));
  cp_control_to_order_rest_queue : option (Q ControlToOrderRestCommand);
  cp_order_rest_to_control_status_queue : option (list (option OrderRestToControlStatus));
  cp_required_components : RequiredComponents;
  cp_synthetic_session_config : SyntheticTradingSessionConfig;
  cp_recovery_coordinator : RecoveryCoordinator;
  cp_session_start_time : Z;
  cp_recovery_orchestration_faulted : bool;
  cp_clock_reads : nat;
}.
#[export] Instance eta_ControlState : Eta ControlState := λ r,
  mkControlState (cp_operator_command_queue r) (cp_operator_response_queue r) (cp_control_to_io_queue r)
    (cp_io_to_control_status_queue r) (cp_process_state r) (cp_active_universe r) (cp_active_order_universe r)
    (cp_next_universe_version r) (cp_router_to_control_queue r) (cp_control_to_shard_queues r) (cp_shard_to_control_queues r)
    (cp_logger_to_control_status_queue r) (cp_control_to_oms_queue r) (cp_oms_to_control_status_queue r)
    (cp_control_to_private_order_feed_queue r) (cp_private_order_feed_to_control_status_queue r)
    (cp_control_to_order_rest_queue r) (cp_order_rest_to_control_status_queue r) (cp_required_components r)
    (cp_synthetic_session_config r) (cp_recovery_coordinator r) (cp_session_start_time r) (cp_recovery_orchestration_faulted r)
    (cp_clock_reads r).

Variable clk : nat → Z.
Variable alloc : nat → nat → bool.
Variable hash_order : list Z → list Z.

Definition control_now : M ControlState Z := λ s, (clk (cp_clock_reads s), s ⟪ cp_clock_reads ::= S ⟫).
Definition on_process (f : ProcessState → ProcessState) : M ControlState unit := modify (λ s, s ⟪ cp_process_state ::= f ⟫).
Definition on_coordinator {A} (f : RecoveryCoordinator → A * RecoveryCoordinator) : M ControlState A := λ s,
  let '(a, c) := f (cp_recovery_coordinator s) in (a, s ⟪ cp_recovery_coordinator := c ⟫).
Definition on_recovery_telemetry (f : RecoveryTelemetrySnapshot → RecoveryTelemetrySnapshot) : M ControlState unit :=
  on_process (λ p, p ⟪ pst_recovery_telemetry ::= f ⟫).

(** ** Outgoing messages *)

Definition push_operator_response (response : OperatorResponse) : M ControlState bool := λ s,
  let '(b, q) := q_push response (cp_operator_response_queue s) in (b, s ⟪ cp_operator_response_queue := q ⟫).
Definition push_io_command (cmd : ControlToIoCommand) : M ControlState bool := λ s,
  let '(b, q) := q_push cmd (cp_control_to_io_queue s) in (b, s ⟪ cp_control_to_io_queue := q ⟫).
Definition push_oms_command (cmd : ControlToOmsCommand) : M ControlState bool := λ s,
  match cp_control_to_oms_queue s with
  | None => (false, s)
  | Some q => let '(b, q) := q_push cmd q in (b, s ⟪ cp_control_to_oms_queue := Some q ⟫)
  end.
Definition push_private_order_feed_command (cmd : ControlToPrivateOrderFeedCommand) : M ControlState bool := λ s,
  match cp_control_to_private_order_feed_queue s with
  | None => (false, s)
  | Some q => let '(b, q) := q_push cmd q in (b, s ⟪ cp_control_to_private_order_feed_queue := Some q ⟫)
  end.
Definition push_order_rest_command (cmd : ControlToOrderRestCommand) : M ControlState bool := λ s,
  match cp_control_to_order_rest_queue s with
  | None => (false, s)
  | Some q => let '(b, q) := q_push cmd q in (b, s ⟪ cp_control_to_order_rest_queue := Some q ⟫)
  end.
Definition push_shard_command (shard_index : nat) (command : ControlToShardCommand) : M ControlState bool := λ s,
  match cp_control_to_shard_queues s !! shard_index with
  | Some (Some q) => let '(b, q) := q_push command q in (b, s ⟪ cp_control_to_shard_queues ::= <[shard_index := Some q]> ⟫)
  | _ => (false, s)
  end.

(** ** The phase of the process *)

Definition faulted (status : ComponentStatus) : bool := bool_decide (status = kSTATUS_FAULTED).

Definition required_components_faulted (s : ControlState) : bool :=
  let p := cp_process_state s in
  let r := cp_required_components s in
  if cp_recovery_orchestration_faulted s then true
  else if req_market_data r && faulted (ios_status (pst_io_component_state p)) then true
  else if faulted (rp_status (pst_router_component_state p)) then true
  else if req_logger r && faulted (lgs_status (pst_logger_component_state p)) then true
  else if req_oms r && faulted (oms_status (pst_oms_component_state p)) then true
  else if req_private_order_feed r && faulted (fc_status (pst_private_order_feed_component_state p)) then true
  else if req_order_rest r && faulted (ec_status (pst_order_rest_component_state p)) then true
  else req_shards r && existsb (λ shard, faulted (shs_status shard)) (pst_shard_component_states p).

Definition required_components_ready_for_capture (s : ControlState) : bool :=
  let p := cp_process_state s in
  let r := cp_required_components s in
  let target := pst_target_universe_version p in
  let io := pst_io_component_state p in
  if target =? 0 then false
  else if req_market_data r && (negb (bool_decide (ios_status io = kSTATUS_LIVE)) || negb (ios_installed_universe_version io =? target)
                                || negb (ios_subscribed_universe_version io =? target)) then false
  else if req_shards r && (bool_decide (pst_shard_component_states p = [])
                           || negb (forallb (λ shard, bool_decide (shs_status shard = kSTATUS_LIVE) && (shs_installed_universe_version shard =? target))
                                      (pst_shard_component_states p))) then false
  else if req_logger r && negb (bool_decide (lgs_status (pst_logger_component_state p) = kSTATUS_LIVE)) then false
  else true.

Definition required_components_ready_for_trading (s : ControlState) : bool :=
  let p := cp_process_state s in
  let r := cp_required_components s in
  let target := pst_target_universe_version p in
  let oms := pst_oms_component_state p in
  let rest := pst_order_rest_component_state p in
  let feed := pst_private_order_feed_component_state p in
  if negb (required_components_ready_for_capture s) then false
  else if req_oms r && (negb (bool_decide (oms_status oms = kSTATUS_READY)) || negb (oms_installed_universe_version oms =? target)) then false
  else if req_oms r && req_order_rest r && negb (tm_portfolio_reconciled (oms_telemetry oms)) then false
  else if req_order_rest r && (negb (bool_decide (ec_status rest = kSTATUS_READY)) || negb (ec_installed_universe_version rest =? target)) then false
  else if req_private_order_feed r && (negb (bool_decide (fc_status feed = kSTATUS_LIVE)) || negb (fc_installed_universe_version feed =? target)
                                       || negb (fc_subscribed_universe_version feed =? target)) then false
  else true.

Definition stopped (status : ComponentStatus) : bool := bool_decide (status = kSTATUS_STOPPED).

(** All required transports have stopped. *)
Definition transports_stopped (s : ControlState) : bool :=
  let p := cp_process_state s in
  let r := cp_required_components s in
  (negb (req_market_data r) || stopped (ios_status (pst_io_component_state p)))
  && (negb (req_private_order_feed r) || stopped (fc_status (pst_private_order_feed_component_state p)))
  && (negb (req_order_rest r) || stopped (ec_status (pst_order_rest_component_state p))).

Definition disable_trading_flags (p : ProcessState) : ProcessState :=
  p ⟪ pst_trading_enabled := false ⟫ ⟪ pst_oms_component_state ::= λ o, o ⟪ oms_trading_enabled := false ⟫ ⟫.

Definition io_up (s : ControlState) : bool :=
  negb (req_market_data (cp_required_components s)) || bool_decide (ios_status (pst_io_component_state (cp_process_state s)) = kSTATUS_READY)
  || bool_decide (ios_status (pst_io_component_state (cp_process_state s)) = kSTATUS_LIVE).

Definition recompute (s : ControlState) : ProcessState :=
  let p := cp_process_state s in
  if pst_shutdown_requested p then p ⟪ pst_lifecycle := if transports_stopped s then kPHASE_STOPPED else kSHUTTING_DOWN ⟫
  else if required_components_faulted s then disable_trading_flags (p ⟪ pst_lifecycle := kPHASE_FAULTED ⟫)
  else if required_components_ready_for_trading s && pst_trading_enabled p then
    p ⟪ pst_lifecycle := kLIVE_TRADING ⟫ ⟪ pst_active_universe_version := pst_target_universe_version p ⟫
  else if required_components_ready_for_capture s then
    p ⟪ pst_lifecycle := kPHASE_READY ⟫ ⟪ pst_active_universe_version := pst_target_universe_version p ⟫
  else p ⟪ pst_lifecycle := if io_up s then kIO_CONNECTED else kWAITING_FOR_IO ⟫.
Definition recompute_process_state : M ControlState unit := modify (λ s, s ⟪ cp_process_state := recompute s ⟫).

(** ** The trading session *)

Definition session_phase (config : SyntheticTradingSessionConfig) (elapsed_ns : Z) : TradingSessionPhase :=
  if negb (syn_stopped_after_ns config =? 0) && (syn_stopped_after_ns config <=? elapsed_ns) then kSESSION_STOPPED
  else if negb (syn_flatten_to_zero_after_ns config =? 0) && (syn_flatten_to_zero_after_ns config <=? elapsed_ns) then kFLATTEN_TO_ZERO
  else if negb (syn_reduce_only_after_ns config =? 0) && (syn_reduce_only_after_ns config <=? elapsed_ns) then kREDUCE_ONLY
  else kPHASE_TRADING.
Definition compute_trading_session_phase : M ControlState TradingSessionPhase :=
  config ← gets cp_synthetic_session_config;
  if negb (syn_enabled config) then mret kPHASE_TRADING
  else
    now ← control_now;
    start ← gets cp_session_start_time;
    mret (session_phase config (u64 (now - start))).

Definition apply_trading_session_phase (phase : TradingSessionPhase) : M ControlState unit :=
  current ← gets (λ s, pst_trading_session_phase (cp_process_state s));
  if bool_decide (current = phase) then mret tt
  else
    on_process (λ p, p ⟪ pst_trading_session_phase := phase ⟫);;
    when (negb (bool_decide (phase = kPHASE_TRADING)))
      (on_process disable_trading_flags;;
       oms ← gets (λ s, req_oms (cp_required_components s));
       when oms (_ ← push_oms_command CtDisableTrading; mret tt));;
    recompute_process_state.

Definition update_trading_session_phase : M ControlState bool :=
  previous ← gets (λ s, pst_trading_session_phase (cp_process_state s));
  phase ← compute_trading_session_phase;
  apply_trading_session_phase phase;;
  current ← gets (λ s, pst_trading_session_phase (cp_process_state s));
  mret (negb (bool_decide (current = previous))).

(** ** Commands of the operator *)

Definition count_push (result : OperatorPumpResult) (pushed : bool) : OperatorPumpResult :=
  if pushed then result ⟪ oup_responses_pushed_success ::= bump ⟫ else result ⟪ oup_responses_pushed_failure ::= bump ⟫.
Definition respond (result : OperatorPumpResult) (response : OperatorResponse) : M ControlState OperatorPumpResult :=
  pushed ← push_operator_response response;
  mret (count_push result pushed).
Definition push_ack (result : OperatorPumpResult) (request_id : Z) : M ControlState OperatorPumpResult :=
  respond result (mkOperatorResponse request_id kACK AckPayload).
Definition push_error (result : OperatorPumpResult) (request_id : Z) (message : string) : M ControlState OperatorPumpResult :=
  respond result (mkOperatorResponse request_id kERROR (ErrorPayload message)).

Definition allow_trading (result : OperatorPumpResult) (request_id : Z) : M ControlState OperatorPumpResult :=
  oms ← gets (λ s, req_oms (cp_required_components s));
  phase ← gets (λ s, pst_trading_session_phase (cp_process_state s));
  ready ← gets required_components_ready_for_trading;
  if negb oms then push_error result request_id "cannot allow trading: OMS is not enabled"
  else if negb (bool_decide (phase = kPHASE_TRADING))
  then push_error result request_id "cannot allow trading: synthetic trading session is no longer in trading phase"
  else if negb ready then push_error result request_id "cannot allow trading: required trading components are not ready"
  else
    pushed ← push_oms_command CtAllowTrading;
    if negb pushed then push_error result request_id "cannot allow trading: failed to enqueue OMS command"
    else push_ack result request_id.

Definition disable_trading (result : OperatorPumpResult) (request_id : Z) : M ControlState OperatorPumpResult :=
  on_process disable_trading_flags;;
  oms ← gets (λ s, req_oms (cp_required_components s));
  pushed ← (if oms : bool then push_oms_command CtDisableTrading else mret true);
  if negb pushed then push_error result request_id "failed to enqueue OMS disable-trading command"
  else recompute_process_state;; push_ack result request_id.

Definition cancel_all_orders (result : OperatorPumpResult) (request_id : Z) : M ControlState OperatorPumpResult :=
  oms ← gets (λ s, req_oms (cp_required_components s));
  if negb oms then push_error result request_id "cannot cancel all orders: OMS is not enabled"
  else
    pushed ← push_oms_command CtCancelAllOrders;
    if negb pushed then push_error result request_id "cannot cancel all orders: failed to enqueue OMS command"
    else
      on_process (λ p, disable_trading_flags (p ⟪ pst_oms_component_state ::= λ o, o ⟪ oms_cancel_all_requested := true ⟫ ⟫));;
      recompute_process_state;;
      push_ack result request_id.

Definition handle_operator_command (item : OperatorCommand) (result : OperatorPumpResult) : M ControlState OperatorPumpResult :=
  let result := result ⟪ oup_commands_processed ::= bump ⟫ in
  let id := oq_request_id item in
  match oq_type item with
  | kSTATUS => p ← gets cp_process_state; respond result (mkOperatorResponse id kRESPONSE_STATUS (StatusPayload (status_snapshot p)))
  | kCOUNTERSTATS =>
      p ← gets cp_process_state;
      respond result (mkOperatorResponse id kRESPONSE_COUNTERSTATS (CounterStatsPayload (build_counter_stats_snapshot p)))
  | kOPERATOR_UNKNOWN => push_error result id "unknown command"
  | kSHUTDOWN_GRACEFUL =>
      on_process (λ p, p ⟪ pst_lifecycle := kSHUTTING_DOWN ⟫ ⟪ pst_shutdown_requested := true ⟫ ⟪ pst_trading_enabled := false ⟫);;
      oms ← gets (λ s, req_oms (cp_required_components s));
      when oms (_ ← push_oms_command CtDisableTrading; mret tt);;
      push_ack result id
  | kSHUTDOWN_FORCEFUL =>
      on_process (λ p, disable_trading_flags (p ⟪ pst_lifecycle := kSHUTTING_DOWN ⟫ ⟪ pst_shutdown_requested := true ⟫));;
      push_ack result id
  | kALLOW_TRADING => allow_trading result id
  | kDISABLE_TRADING => disable_trading result id
  | kCANCEL_ALL_ORDERS => cancel_all_orders result id
  end.

Definition pop_operator_command : M ControlState (option OperatorCommand) := λ s,
  match cp_operator_command_queue s with
  | [] => (None, s)
  | x :: q => (x, s ⟪ cp_operator_command_queue := q ⟫)
  end.
(** The loop ends at the latest when the queue is empty: [fuel] is its length. *)
Fixpoint operator_loop (fuel : nat) (result : OperatorPumpResult) : M ControlState OperatorPumpResult :=
  match fuel with
  | O => mret result
  | S fuel' =>
      item ← pop_operator_command;
      match item with
      | None => mret result
      | Some item => result ← handle_operator_command item result; operator_loop fuel' result
      end
  end.
Definition process_operator_commands : M ControlState OperatorPumpResult :=
  _ ← update_trading_session_phase;
  fuel ← gets (λ s, length (cp_operator_command_queue s));
  operator_loop fuel default_OperatorPumpResult.

(** ** Statuses of the components *)

(** [std::to_string] of an unsigned number. *)
Definition to_string (n : Z) : string := pretty (Z.to_N n).

Definition on_io (f : IoComponentState → IoComponentState) : M ControlState unit := on_process (λ p, p ⟪ pst_io_component_state ::= f ⟫).

Definition apply_io_status (status : IoToControlStatus) : M ControlState unit :=
  match status with
  | IsConnected => on_io (λ c, c ⟪ ios_status := kSTATUS_READY ⟫ ⟪ ios_connected := true ⟫ ⟪ ios_last_error := ""%string ⟫)
  | IsDisconnected reason => on_io (λ c, c ⟪ ios_status := kSTATUS_STOPPED ⟫ ⟪ ios_connected := false ⟫ ⟪ ios_last_error := reason ⟫)
  | IsUniverseSnapshotApplied version =>
      on_io (λ c, c ⟪ ios_installed_universe_version := version ⟫ ⟪ ios_status := kSTATUS_READY ⟫ ⟪ ios_last_error := ""%string ⟫)
  | IsSubscriptionReady version =>
      on_io (λ c, c ⟪ ios_subscribed_universe_version := version ⟫ ⟪ ios_status := kSTATUS_LIVE ⟫ ⟪ ios_last_error := ""%string ⟫)
  | IsFaulted error => on_io (λ c, c ⟪ ios_status := kSTATUS_FAULTED ⟫ ⟪ ios_connected := false ⟫ ⟪ ios_last_error := error ⟫)
  | IsTelemetry telemetry => on_io (λ c, c ⟪ ios_telemetry := telemetry ⟫)
  | IsRecoveryRequestAccepted fact =>
      now ← control_now;
      result ← on_coordinator (handle_accepted fact now);
      on_recovery_telemetry (account_recovery_fact result)
  | IsRecoveryRequestFailed fact =>
      now ← control_now;
      result ← on_coordinator (handle_failed fact now);
      on_recovery_telemetry (account_recovery_fact result)
  end.

Definition pop_io_status : M ControlState (option IoToControlStatus) := λ s,
  match cp_io_to_control_status_queue s with
  | [] => (None, s)
  | x :: q => (x, s ⟪ cp_io_to_control_status_queue := q ⟫)
  end.
Fixpoint io_loop (fuel : nat) (result : IoPumpResult) : M ControlState IoPumpResult :=
  match fuel with
  | O => mret result
  | S fuel' =>
      status ← pop_io_status;
      match status with
      | None => mret result
      | Some status => apply_io_status status;; recompute_process_state;; io_loop fuel' (result ⟪ iu_statuses_processed ::= bump ⟫)
      end
  end.
Definition process_io_status : M ControlState IoPumpResult :=
  fuel ← gets (λ s, length (cp_io_to_control_status_queue s));
  io_loop fuel default_IoPumpResult.

(** The loops [while(process_one()) processed_any = true] of the other components; [fuel] is
    the number of messages queued. *)
Fixpoint process_all (fuel : nat) (one : M ControlState bool) (processed_any : bool) : M ControlState bool :=
  match fuel with
  | O => mret processed_any
  | S fuel' => processed ← one; if processed : bool then process_all fuel' one true else mret processed_any
  end.

(** *** Router *)

Definition on_router (f : RouterComponentState → RouterComponentState) : M ControlState unit := on_process (λ p, p ⟪ pst_router_component_state ::= f ⟫).

Definition copy_router_telemetry (m : RouterTelemetry) (t : RouterTelemetrySnapshot) : RouterTelemetrySnapshot :=
  t ⟪ rtl_total_frames_seen := rm_total_frames_seen m ⟫ ⟪ rtl_frames_to_shards := rm_frames_to_shards m ⟫
    ⟪ rtl_frames_to_logger := rm_frames_to_logger m ⟫ ⟪ rtl_frames_recycled := rm_frames_recycled m ⟫
    ⟪ rtl_market_barriers_received := rm_market_barriers_received m ⟫ ⟪ rtl_market_barriers_delivered := rm_market_barriers_delivered m ⟫
    ⟪ rtl_subscription_barriers_received := rm_subscription_barriers_received m ⟫
    ⟪ rtl_subscription_barriers_delivered := rm_subscription_barriers_delivered m ⟫ ⟪ rtl_barriers_deferred := rm_barriers_deferred m ⟫
    ⟪ rtl_subscription_recovery_facts_deferred := rm_subscription_recovery_facts_deferred m ⟫
    ⟪ rtl_shard_queue_depth_high_water := rm_shard_queue_depth_high_water m ⟫ ⟪ rtl_channel_stats := rm_channel_stats m ⟫
    ⟪ rtl_wire_to_router_latency := rm_wire_to_router_latency m ⟫ ⟪ rtl_router_service_latency := rm_router_service_latency m ⟫.

Definition reject_observation : M ControlState unit := on_recovery_telemetry (λ t, t ⟪ rv_observations_rejected ::= bump ⟫).
Definition fault_recovery : M ControlState unit := modify (λ s, s ⟪ cp_recovery_orchestration_faulted := true ⟫).
Definition next_alloc : M ControlState (nat → bool) := gets (λ s, alloc (cp_clock_reads s)).

Definition apply_router_status (msg : RouterStatus) : M ControlState unit :=
  match msg with
  | FromRouter (RcTelemetry m) => on_router (λ c, c ⟪ rp_telemetry ::= copy_router_telemetry m ⟫)
  | FromRouter (RcShardBackpressure _) => mret tt
  | OutOfSequenceFrame sid sequence =>
      on_router (λ c, c ⟪ rp_last_error := ("Out of sequence frame detected: sid " +:+ to_string sid +:+ " sequence " +:+ to_string sequence)%string ⟫)
  | FromRouter (RcHandleLeak m) =>
      on_router (λ c, c ⟪ rp_telemetry ::= λ t, t ⟪ rtl_leaked_handles ::= bump ⟫ ⟫
        ⟪ rp_last_error := ("Handle leak detected for universe version " +:+ to_string (hl_universe_version m) +:+ " shard index " +:+
            to_string (hl_shard_index m))%string ⟫
        ⟪ rp_status := kSTATUS_FAULTED ⟫)
  | FromRouter (RcSubscriptionBarrierDelivered m) =>
      universe ← gets cp_active_universe;
      match universe with
      | None => reject_observation
      | Some universe =>
          alloc ← next_alloc;
          now ← control_now;
          observation ← on_coordinator (observe_subscription alloc m universe now);
          match observation with
          | Some observation => on_recovery_telemetry (account_recovery_observation observation)
          | None =>
              reject_observation;;
              fault_recovery;;
              on_router (λ c, c ⟪ rp_status := kSTATUS_FAULTED ⟫ ⟪ rp_last_error := "Failed to create subscription recovery incident"%string ⟫)
          end
      end
  end.

Definition process_one_router_message : M ControlState bool := λ s,
  match cp_router_to_control_queue s with
  | [] => (false, s)
  | None :: q => (false, s ⟪ cp_router_to_control_queue := q ⟫)
  | Some msg :: q => (apply_router_status msg;; recompute_process_state;; mret true) (s ⟪ cp_router_to_control_queue := q ⟫)
  end.
Definition process_router_messages : M ControlState bool :=
  fuel ← gets (λ s, length (cp_router_to_control_queue s));
  process_all fuel process_one_router_message false.

(** *** Shards *)

Definition on_shard (shard_index : Z) (f : ShardComponentState → ShardComponentState) : M ControlState unit :=
  on_process (λ p, p ⟪ pst_shard_component_states ::= λ l,
    alter f (Z.to_nat shard_index) (ensure_index default_ShardComponentState shard_index l) ⟫).

Definition apply_shard_status (status : ShardToControlMessage) : M ControlState unit :=
  match status with
  | ScInstalled m =>
      on_shard (si_shard_index m) (λ c, c ⟪ shs_status := kSTATUS_LIVE ⟫ ⟪ shs_installed_universe_version := si_universe_version m ⟫
        ⟪ shs_last_error := ""%string ⟫)
  | ScSafeToStop m =>
      on_shard (st_shard_index m) (λ c, c ⟪ shs_status := kSTATUS_READY ⟫ ⟪ shs_safe_to_stop_universe_version := st_universe_version m ⟫
        ⟪ shs_last_error := st_reason m ⟫)
  | ScDrainComplete m =>
      on_shard (dc_shard_index m) (λ c, c ⟪ shs_status := kSTATUS_STOPPED ⟫ ⟪ shs_drained_universe_version := dc_universe_version m ⟫
        ⟪ shs_telemetry := to_control_shard_stats (dc_stats m) ⟫ ⟪ shs_last_error := ""%string ⟫)
  | ScParseRejected m =>
      on_shard (pj_shard_index m) (λ c, c ⟪ shs_telemetry ::= λ t, t ⟪ stl_parse_rejects ::= bump ⟫ ⟫
        ⟪ shs_last_error := ("Shard parse rejected sequence " +:+ to_string (pj_sequence m))%string ⟫)
  | ScApplyRejected m =>
      on_shard (aj_shard_index m) (λ c, c ⟪ shs_telemetry ::= λ t, t ⟪ stl_event_rejects ::= bump ⟫ ⟫
        ⟪ shs_last_error := ("Shard apply rejected sequence " +:+ to_string (aj_sequence m))%string ⟫)
  | ScEventDesynced m =>
      on_shard (ed_shard_index m) (λ c, c ⟪ shs_telemetry ::= λ t, t ⟪ stl_event_desyncs ::= bump ⟫ ⟫
        ⟪ shs_last_error := ("Shard event desynced sequence " +:+ to_string (ed_sequence m))%string ⟫)
  | ScTelemetry m => on_shard (sy_shard_index m) (λ c, c ⟪ shs_telemetry := to_control_shard_stats (sy_stats m) ⟫)
  | ScFaulted m => on_shard (sf_shard_index m) (λ c, c ⟪ shs_status := kSTATUS_FAULTED ⟫ ⟪ shs_last_error := sf_reason m ⟫)
  | ScStats _ => mret tt
  | ScMarketRecoveryRequired m =>
      universe ← gets cp_active_universe;
      match universe with
      | None => mret tt
      | Some universe =>
          alloc ← next_alloc;
          now ← control_now;
          result ← on_coordinator (observe_market alloc m universe now);
          match result with
          | Some result => on_recovery_telemetry (account_recovery_observation result)
          | None =>
              reject_observation;;
              fault_recovery;;
              on_shard (mq_shard_index m) (λ c, c ⟪ shs_status := kSTATUS_FAULTED ⟫ ⟪ shs_last_error := "Failed to create market recovery incident"%string ⟫)
          end
      end
  | ScRecoverySnapshotApplied m =>
      universe ← gets cp_active_universe;
      match universe with
      | None => mret tt
      | Some universe =>
          now ← control_now;
          result ← on_coordinator (handle_snapshot_applied m universe now);
          on_recovery_telemetry (account_recovery_fact result)
      end
  end.

Definition pop_shard_message (index : nat) : M ControlState (option ShardToControlMessage) := λ s,
  match cp_shard_to_control_queues s !! index with
  | Some (Some (x :: q)) => (x, s ⟪ cp_shard_to_control_queues ::= <[index := Some q]> ⟫)
  | _ => (None, s)
  end.
(** The first queue that has a message. *)
Fixpoint poll_shards (indices : list nat) : M ControlState bool :=
  match indices with
  | [] => mret false
  | index :: rest =>
      status ← pop_shard_message index;
      match status with
      | Some status => apply_shard_status status;; recompute_process_state;; mret true
      | None => poll_shards rest
      end
  end.
Definition process_one_shard_message : M ControlState bool :=
  n ← gets (λ s, length (cp_shard_to_control_queues s));
  poll_shards (seq 0 n).
Definition queued_shard_messages (s : ControlState) : nat := sum_list_with (λ q, length (default [] q)) (cp_shard_to_control_queues s).
Definition process_shard_messages : M ControlState bool :=
  fuel ← gets queued_shard_messages;
  process_all fuel process_one_shard_message false.

(** *** Logger *)

Definition apply_logger_status (status : LoggerToControlStatus) : M ControlState unit :=
  on_process (λ p, p ⟪ pst_logger_component_state ::= λ c,
    match status with
    | LgStarted path => c ⟪ lgs_status := kSTATUS_LIVE ⟫ ⟪ lgs_output_file_path := path ⟫ ⟪ lgs_last_error := ""%string ⟫
    | LgFaulted error => c ⟪ lgs_status := kSTATUS_FAULTED ⟫ ⟪ lgs_last_error := error ⟫
    | LgTelemetry telemetry => c ⟪ lgs_telemetry := telemetry ⟫
    end ⟫).
Definition process_one_logger_message : M ControlState bool := λ s,
  match cp_logger_to_control_status_queue s with
  | None | Some [] => (false, s)
  | Some (None :: q) => (false, s ⟪ cp_logger_to_control_status_queue := Some q ⟫)
  | Some (Some status :: q) =>
      (apply_logger_status status;; recompute_process_state;; mret true) (s ⟪ cp_logger_to_control_status_queue := Some q ⟫)
  end.
Definition process_logger_messages : M ControlState bool :=
  fuel ← gets (λ s, length (default [] (cp_logger_to_control_status_queue s)));
  process_all fuel process_one_logger_message false.

(** *** OMS *)

Definition on_oms (f : OmsComponentState → OmsComponentState) : M ControlState unit := on_process (λ p, p ⟪ pst_oms_component_state ::= f ⟫).

Definition apply_oms_status (status : OmsToControlStatus) : M ControlState unit :=
  match status with
  | CsReady => on_oms (λ c, c ⟪ oms_status := kSTATUS_READY ⟫ ⟪ oms_last_error := ""%string ⟫)
  | CsFaulted error => on_oms (λ c, c ⟪ oms_status := kSTATUS_FAULTED ⟫ ⟪ oms_last_error := error ⟫ ⟪ oms_trading_enabled := false ⟫)
  | CsTelemetry telemetry =>
      on_oms (λ c, c ⟪ oms_telemetry := telemetry ⟫ ⟪ oms_installed_universe_version := tm_installed_universe_version telemetry ⟫)
  | CsTradingEnabledChanged enabled =>
      on_oms (λ c, c ⟪ oms_trading_enabled := enabled ⟫);;
      on_process (λ p, p ⟪ pst_trading_enabled := enabled ⟫)
  | CsCancelAllStateChanged requested _ => on_oms (λ c, c ⟪ oms_cancel_all_requested := requested ⟫)
  | CsRestEgressDrained m =>
      on_oms (λ c, c ⟪ oms_telemetry ::= λ t, t ⟪ tm_live_orders := rd_live_orders m ⟫ ⟪ tm_uncertain_orders := rd_uncertain_orders m ⟫ ⟫)
  end.
Definition process_one_oms_status : M ControlState bool := λ s,
  match cp_oms_to_control_status_queue s with
  | None | Some [] => (false, s)
  | Some (None :: q) => (false, s ⟪ cp_oms_to_control_status_queue := Some q ⟫)
  | Some (Some status :: q) =>
      (apply_oms_status status;; recompute_process_state;; mret true) (s ⟪ cp_oms_to_control_status_queue := Some q ⟫)
  end.
Definition process_oms_status : M ControlState bool :=
  fuel ← gets (λ s, length (default [] (cp_oms_to_control_status_queue s)));
  process_all fuel process_one_oms_status false.

(** *** Private order feed *)

Definition apply_private_order_feed_status (status : PrivateOrderFeedToControlStatus) : M ControlState unit :=
  on_process (λ p, p ⟪ pst_private_order_feed_component_state ::= λ c,
    match status with
    | PfConnected => c ⟪ fc_status := kSTATUS_READY ⟫ ⟪ fc_connected := true ⟫ ⟪ fc_last_error := ""%string ⟫
    | PfDisconnected reason => c ⟪ fc_status := kSTATUS_STOPPED ⟫ ⟪ fc_connected := false ⟫ ⟪ fc_last_error := reason ⟫
                                 ⟪ fc_subscribed_universe_version := 0 ⟫
    | PfUniverseApplied version => c ⟪ fc_status := kSTATUS_READY ⟫ ⟪ fc_installed_universe_version := version ⟫ ⟪ fc_last_error := ""%string ⟫
    | PfSubscriptionReady version => c ⟪ fc_status := kSTATUS_LIVE ⟫ ⟪ fc_subscribed_universe_version := version ⟫ ⟪ fc_last_error := ""%string ⟫
    | PfFaulted error => c ⟪ fc_status := kSTATUS_FAULTED ⟫ ⟪ fc_connected := false ⟫ ⟪ fc_last_error := error ⟫
    | PfTelemetry telemetry => c ⟪ fc_telemetry := telemetry ⟫
    end ⟫).
Definition process_one_private_order_feed_status : M ControlState bool := λ s,
  match cp_private_order_feed_to_control_status_queue s with
  | None | Some [] => (false, s)
  | Some (None :: q) => (false, s ⟪ cp_private_order_feed_to_control_status_queue := Some q ⟫)
  | Some (Some status :: q) =>
      (apply_private_order_feed_status status;; recompute_process_state;; mret true)
        (s ⟪ cp_private_order_feed_to_control_status_queue := Some q ⟫)
  end.
Definition process_private_order_feed_status : M ControlState bool :=
  fuel ← gets (λ s, length (default [] (cp_private_order_feed_to_control_status_queue s)));
  process_all fuel process_one_private_order_feed_status false.

(** *** Order REST *)

Definition apply_order_rest_status (status : OrderRestToControlStatus) : M ControlState unit :=
  on_process (λ p, p ⟪ pst_order_rest_component_state ::= λ c,
    match status with
    | OrReady => c ⟪ ec_status := kSTATUS_READY ⟫ ⟪ ec_enabled := true ⟫ ⟪ ec_last_error := ""%string ⟫
    | OrDisabled => c ⟪ ec_status := kSTATUS_STOPPED ⟫ ⟪ ec_enabled := false ⟫
    | OrUniverseApplied version => c ⟪ ec_status := kSTATUS_READY ⟫ ⟪ ec_installed_universe_version := version ⟫ ⟪ ec_last_error := ""%string ⟫
    | OrFaulted error => c ⟪ ec_status := kSTATUS_FAULTED ⟫ ⟪ ec_enabled := false ⟫ ⟪ ec_last_error := error ⟫
    | OrTelemetry telemetry => c ⟪ ec_telemetry := telemetry ⟫
    end ⟫).
Definition process_one_order_rest_status : M ControlState bool := λ s,
  match cp_order_rest_to_control_status_queue s with
  | None | Some [] => (false, s)
  | Some (None :: q) => (false, s ⟪ cp_order_rest_to_control_status_queue := Some q ⟫)
  | Some (Some status :: q) =>
      (apply_order_rest_status status;; recompute_process_state;; mret true) (s ⟪ cp_order_rest_to_control_status_queue := Some q ⟫)
  end.
Definition process_order_rest_status : M ControlState bool :=
  fuel ← gets (λ s, length (default [] (cp_order_rest_to_control_status_queue s)));
  process_all fuel process_one_order_rest_status false.

(** ** Universes *)

Definition install_universe (snapshot : UniverseSnapshot) : M ControlState Z :=
  version ← gets cp_next_universe_version;
  let next_universe := snapshot ⟪ us_version := version ⟫ in
  modify (λ s, s ⟪ cp_next_universe_version ::= bump ⟫);;
  now ← control_now;
  supersession ← on_coordinator (supersede_before_universe hash_order version now);
  on_recovery_telemetry (λ t, t ⟪ rv_incidents_superseded ::= add64 (sm_incidents_superseded supersession) ⟫
    ⟪ rv_markets_superseded ::= add64 (sm_markets_superseded supersession) ⟫);;
  modify (λ s, s ⟪ cp_active_universe := Some next_universe ⟫ ⟪ cp_active_order_universe := Some (build_order_route_universe next_universe) ⟫);;
  on_process (λ p, p ⟪ pst_target_universe_version := version ⟫);;
  recompute_process_state;;
  mret version.

Definition send_active_universe_to_io : M ControlState bool :=
  universe ← gets cp_active_universe;
  match universe with
  | None => mret false
  | Some u => push_io_command (CiApplyUniverseSnapshot (Some u))
  end.
Definition send_active_order_universe_to_oms : M ControlState bool :=
  universe ← gets cp_active_order_universe;
  match universe with None => mret false | Some u => push_oms_command (CtApplyOrderRouteUniverse (Some u)) end.
Definition send_active_order_universe_to_private_order_feed : M ControlState bool :=
  universe ← gets cp_active_order_universe;
  match universe with None => mret false | Some u => push_private_order_feed_command (CpApplyOrderRouteUniverse (Some u)) end.
Definition send_active_order_universe_to_order_rest : M ControlState bool :=
  universe ← gets cp_active_order_universe;
  match universe with None => mret false | Some u => push_order_rest_command (CrApplyOrderRouteUniverse (Some u)) end.

(** The loop over the shards: a command each, and what is noted of a shard that was sent it. *)
Fixpoint command_shards (indices : list nat) (command : nat → ControlToShardCommand) (note : ShardComponentState → ShardComponentState)
    (result : ControlShardPumpResult) : M ControlState ControlShardPumpResult :=
  match indices with
  | [] => mret result
  | index :: rest =>
      pushed ← push_shard_command index (command index);
      if pushed : bool then
        on_process (λ p, p ⟪ pst_shard_component_states ::= alter note index ⟫);;
        command_shards rest command note (result ⟪ hu_commands_pushed_success ::= bump ⟫)
      else command_shards rest command note (result ⟪ hu_commands_pushed_failure ::= bump ⟫)
  end.
Definition command_all_shards (command : UniverseSnapshot → nat → ControlToShardCommand) (note : ShardComponentState → ShardComponentState)
    : M ControlState ControlShardPumpResult :=
  universe ← gets cp_active_universe;
  match universe with
  | None => mret default_ControlShardPumpResult
  | Some u =>
      shard_count ← gets (λ s, length (cp_control_to_shard_queues s));
      result ← command_shards (seq 0 shard_count) (command u) note default_ControlShardPumpResult;
      recompute_process_state;;
      mret result
  end.

Definition send_active_universe_to_shards : M ControlState ControlShardPumpResult :=
  universe ← gets cp_active_universe;
  match universe with
  | None => mret default_ControlShardPumpResult
  | Some u =>
      shard_count ← gets (λ s, length (cp_control_to_shard_queues s));
      let events_by_shard := build_shard_events u shard_count in
      on_process (λ p, p ⟪ pst_shard_component_states ::= λ l, if (length l <? shard_count)%nat then resize shard_count default_ShardComponentState l else l ⟫);;
      result ← command_shards (seq 0 shard_count)
        (λ index, CsInstall (mkInstallShardUniverse (us_version u) (Z.of_nat index) (default [] (events_by_shard !! index))))
        (λ c, c ⟪ shs_status := kSTATUS_INSTALLING_UNIVERSE ⟫ ⟪ shs_installed_universe_version := 0 ⟫ ⟪ shs_safe_to_stop_universe_version := 0 ⟫
                ⟪ shs_drained_universe_version := 0 ⟫ ⟪ shs_last_error := ""%string ⟫)
        default_ControlShardPumpResult;
      recompute_process_state;;
      mret result
  end.

Definition prepare_active_universe_stop_on_shards : M ControlState ControlShardPumpResult :=
  command_all_shards (λ u index, CsPrepareStop (mkPrepareStopUniverse (us_version u) (Z.of_nat index))) (λ c, c ⟪ shs_status := kSTATUS_QUIESCING ⟫).
Definition drain_active_universe_on_shards : M ControlState ControlShardPumpResult :=
  command_all_shards (λ u index, CsDrain (mkDrainShardUniverse (us_version u) (Z.of_nat index))) (λ c, c ⟪ shs_status := kSTATUS_QUIESCING ⟫).
Definition resume_active_universe_on_shards : M ControlState ControlShardPumpResult :=
  command_all_shards (λ u index, CsResume (mkResumeShardUniverse (us_version u) (Z.of_nat index))) (λ c, c).

(** ** Recovery *)

Definition kMaxCommandsPerPump : nat := 64.

Fixpoint send_requests (now : Z) (commands : list RecoverMarketIo) (result : RecoveryPumpResult) : M ControlState RecoveryPumpResult :=
  match commands with
  | [] => mret result
  | command :: rest =>
      pushed ← push_io_command (CiRecoverMarket command);
      if negb pushed then
        on_recovery_telemetry (λ t, t ⟪ rv_request_enqueue_failures ::= bump ⟫);;
        mret (result ⟪ vu_commands_pushed_failure ::= bump ⟫ ⟪ vu_code := kIO_BACKPRESSURE ⟫)
      else
        marked ← on_coordinator (mark_command_enqueued command now);
        if negb marked then
          fault_recovery;;
          recompute_process_state;;
          mret (result ⟪ vu_code := kCOORDINATOR_COMMIT_FAILED ⟫)
        else
          on_recovery_telemetry (λ t, t ⟪ rv_requests_enqueued ::= bump ⟫);;
          send_requests now rest (result ⟪ vu_commands_pushed_success ::= bump ⟫)
  end.

Definition may_request (universe : UniverseSnapshot) (s : ControlState) : bool :=
  let io := pst_io_component_state (cp_process_state s) in
  ios_connected io && bool_decide (ios_status io = kSTATUS_LIVE) && (ios_installed_universe_version io =? us_version universe)
  && (ios_subscribed_universe_version io =? us_version universe).

Definition process_recovery (now : Z) : M ControlState RecoveryPumpResult :=
  recovery_faulted ← gets cp_recovery_orchestration_faulted;
  universe ← gets cp_active_universe;
  if recovery_faulted : bool then mret (default_RecoveryPumpResult ⟪ vu_code := kCOORDINATOR_COMMIT_FAILED ⟫)
  else
    match universe with
    | None => mret default_RecoveryPumpResult
    | Some universe =>
        timeouts ← on_coordinator (expire_timeouts hash_order now);
        coordinator ← gets cp_recovery_coordinator;
        on_recovery_telemetry (λ t,
          t ⟪ rv_request_ack_timeouts ::= add64 (ts_request_ack_timeouts timeouts) ⟫ ⟪ rv_snapshot_timeouts ::= add64 (ts_snapshot_timeouts timeouts) ⟫
            ⟪ rv_retries_scheduled ::= add64 (ts_retries_scheduled timeouts) ⟫ ⟪ rv_markets_failed ::= add64 (ts_markets_failed timeouts) ⟫
            ⟪ rv_active_incidents := Z.of_nat (active_incident_count hash_order coordinator) ⟫ ⟪ rv_active_markets := Z.of_nat (active_market_count coordinator) ⟫);;
        go ← gets (may_request universe);
        if negb go then mret default_RecoveryPumpResult
        else send_requests now (next_pending_commands hash_order now kMaxCommandsPerPump coordinator) default_RecoveryPumpResult
    end.

(** ** Construction and the pump *)

Definition make_control_plane (operator_commands : list (option OperatorCommand)) (operator_responses : Q OperatorResponse)
    (to_io : Q ControlToIoCommand) (from_io : list (option IoToControlStatus)) (from_router : list (option RouterStatus))
    (to_shards : list (option (Q ControlToShardCommand))) (from_shards : list (option (list (option ShardToControlMessage))))
    (from_logger : option (list (option LoggerToControlStatus))) (to_oms : option (Q ControlToOmsCommand))
    (from_oms : option (list (option OmsToControlStatus))) (to_feed : option (Q ControlToPrivateOrderFeedCommand))
    (from_feed : option (list (option PrivateOrderFeedToControlStatus))) (to_rest : option (Q ControlToOrderRestCommand))
    (from_rest : option (list (option OrderRestToControlStatus))) (required : RequiredComponents) (session : SyntheticTradingSessionConfig)
    : ControlState :=
  ((phase ← compute_trading_session_phase; on_process (λ p, p ⟪ pst_trading_session_phase := phase ⟫) : M ControlState unit)
    (mkControlState operator_commands operator_responses to_io from_io
      (default_ProcessState ⟪ pst_shard_component_states := replicate (length to_shards) default_ShardComponentState ⟫)
      None None 1 from_router to_shards from_shards from_logger to_oms from_oms to_feed from_feed to_rest from_rest required session
      (make_coordinator default_RecoveryCoordinatorConfig) (clk 0) false 1)).2.

(** One round of the main thread's loop. *)
Definition pump_control_plane_once : M ControlState bool :=
  phase_changed ← update_trading_session_phase;
  operator_result ← process_operator_commands;
  io_result ← process_io_status;
  router_messages ← process_router_messages;
  shard_messages ← process_shard_messages;
  now ← control_now;
  recovery_result ← process_recovery now;
  logger_messages ← process_logger_messages;
  oms_messages ← process_oms_status;
  order_rest_messages ← process_order_rest_status;
  private_order_feed_messages ← process_private_order_feed_status;
  mret (phase_changed || (0 <? oup_commands_processed operator_result) || (0 <? iu_statuses_processed io_result) || router_messages
        || shard_messages || (0 <? vu_commands_pushed_success recovery_result) || logger_messages || oms_messages || order_rest_messages
        || private_order_feed_messages).
End ControlPlane.
End ControlPlane.
