(* ===== verification/ControlSafety.v ===== *)
(** * ControlSafety: what the control plane reports and permits

    The phase of the process tells the truth about its components in every reachable state;
    trading is allowed only on the operator's word, on a ready graph and within the session;
    and a fault is not passed on to the OMS.

    At the end, Module [ControlDemo]: a concrete run of the control plane. *)

From S2P Require Import Prelude Spsc MarketTypes Router ControlTypes ShardTypes WireTypes Recovery OmsTypes ControlPlaneTypes ControlPlane.

Module ControlSafety.
Import Recovery ControlPlane.

Section ControlSafety.
Context {Q : Type → Type} `{HQ : PushQueue Q} {HL : PushQueueLaws Q}.
Variable clk : nat → Z.
Variable alloc : nat → nat → bool.
Variable hash_order : list Z → list Z.
Abbreviation ControlState := (ControlState (Q := Q)).
Implicit Types s : ControlState.

(** ** The phase of the process *)

Definition lifecycle_true s : Prop :=
  let p := cp_process_state s in
  match pst_lifecycle p with
  | kBOOTING => pst_shutdown_requested p = false
  | kWAITING_FOR_IO => pst_shutdown_requested p = false ∧ required_components_faulted s = false ∧
      required_components_ready_for_capture s = false ∧ io_up s = false
  | kIO_CONNECTED => pst_shutdown_requested p = false ∧ required_components_faulted s = false ∧
      required_components_ready_for_capture s = false ∧ io_up s = true
  | kPHASE_READY => pst_shutdown_requested p = false ∧ required_components_faulted s = false ∧
      required_components_ready_for_capture s = true ∧ pst_active_universe_version p = pst_target_universe_version p
  | kLIVE_TRADING => pst_shutdown_requested p = false ∧ required_components_faulted s = false ∧
      required_components_ready_for_trading s = true ∧ pst_active_universe_version p = pst_target_universe_version p
  | kSHUTTING_DOWN => pst_shutdown_requested p = true
  | kPHASE_STOPPED => pst_shutdown_requested p = true ∧ transports_stopped s = true
  | kREFRESHING => False
  | kPHASE_FAULTED => pst_shutdown_requested p = false ∧ required_components_faulted s = true ∧ pst_trading_enabled p = false ∧
      oms_trading_enabled (pst_oms_component_state p) = false
  end.

Lemma recompute_true s : lifecycle_true (s ⟪ cp_process_state := recompute s ⟫).
Proof.
  unfold recompute. destruct (pst_shutdown_requested (cp_process_state s)) eqn:Es.
  - destruct (transports_stopped s) eqn:Et; unfold lifecycle_true; cbn; auto.
  - destruct (required_components_faulted s) eqn:Ef; [by unfold lifecycle_true; cbn|].
    destruct (required_components_ready_for_trading s && pst_trading_enabled (cp_process_state s)) eqn:Er.
    { apply andb_true_iff in Er as [Er _]. by unfold lifecycle_true; cbn. }
    destruct (required_components_ready_for_capture s) eqn:Ec; [by unfold lifecycle_true; cbn|].
    destruct (io_up s) eqn:Eu; by unfold lifecycle_true; cbn.
Qed.
#[local] Hint Resolve recompute_true : frame.

(** What the phase depends on. *)
Definition phase_view s :=
  (cp_required_components s, cp_recovery_orchestration_faulted s, (cp_process_state s) ⟪ pst_recovery_telemetry := default_RecoveryTelemetrySnapshot ⟫).
Lemma view_true s s' : phase_view s' = phase_view s → lifecycle_true s → lifecycle_true s'.
Proof.
  intros E H. unfold phase_view in E. apply pair_eq in E as [[E1 E2]%pair_eq E3]. unfold lifecycle_true, required_components_faulted, required_components_ready_for_trading,
    required_components_ready_for_capture, transports_stopped, io_up in *. rewrite E1, E2 in *. by destruct (cp_process_state s), (cp_process_state s'); cbn in *; simplify_eq.
Qed.

Abbreviation true_kept := (keeps lifecycle_true).

Lemma tr_same {A} (m : M ControlState A) : rel (same phase_view) m → rel true_kept m.
Proof. intros Hm s Hs. exact (view_true _ _ (Hm s) Hs). Qed.

(** Methods that compute the phase anew, whatever was true before. *)
Definition establishes {A} (m : M ControlState A) : Prop := ∀ s, lifecycle_true (m s).2.

Lemma es_recompute : establishes recompute_process_state.
Proof. intros s. apply recompute_true. Qed.
Lemma es_after {A B} (m : M ControlState A) (k : A → M ControlState B) : (∀ a, establishes (k a)) → establishes (m ≫= k).
Proof. intros Hk s. unfold mbind, M_bind. destruct (m s). apply Hk. Qed.
Lemma es_then {A B} (m : M ControlState A) (k : A → M ControlState B) : establishes m → (∀ a, rel true_kept (k a)) → establishes (m ≫= k).
Proof. intros Hm Hk s. unfold mbind, M_bind. specialize (Hm s). destruct (m s). by apply Hk. Qed.
Lemma tr_establishes {A} (m : M ControlState A) : establishes m → rel true_kept m.
Proof. intros Hm s _. apply Hm. Qed.
#[local] Hint Resolve es_recompute : frame.

Lemma vw_now : rel (same phase_view) (control_now clk). Proof. done. Qed.
Lemma vw_coordinator {A} (f : RecoveryCoordinator → A * RecoveryCoordinator) : rel (same phase_view) (on_coordinator f).
Proof. intros s. unfold on_coordinator. by destruct (f _). Qed.
Lemma vw_recovery_telemetry f : rel (same phase_view) (on_recovery_telemetry f). Proof. done. Qed.
Lemma vw_respond m : rel (same phase_view) (push_operator_response m).
Proof. intros s. unfold push_operator_response. by destruct (q_push _ _). Qed.
Lemma vw_io m : rel (same phase_view) (push_io_command m).
Proof. intros s. unfold push_io_command. by destruct (q_push _ _). Qed.
Lemma vw_oms m : rel (same phase_view) (push_oms_command m).
Proof. intros s. unfold push_oms_command. destruct (cp_control_to_oms_queue s); [|done]. by destruct (q_push _ _). Qed.
Lemma vw_pop_operator : rel (same phase_view) pop_operator_command.
Proof. intros s. unfold pop_operator_command. by destruct (cp_operator_command_queue s). Qed.
Lemma vw_pop_io : rel (same phase_view) pop_io_status.
Proof. intros s. unfold pop_io_status. by destruct (cp_io_to_control_status_queue s). Qed.
Lemma vw_pop_shard i : rel (same phase_view) (pop_shard_message i).
Proof. intros s. unfold pop_shard_message. by repeat case_match. Qed.
#[local] Hint Resolve vw_now vw_coordinator vw_recovery_telemetry vw_respond vw_io vw_oms vw_pop_operator vw_pop_io vw_pop_shard : frame.
#[local] Hint Extern 2 (rel (keeps lifecycle_true) _) => apply tr_same : frame.

Lemma tr_apply_phase phase : rel true_kept (apply_trading_session_phase phase).
Proof.
  unfold apply_trading_session_phase. apply rel_bind; [exact _|apply tr_same; rel_auto|]. intros current. case_bool_decide; [apply rel_ret; exact _|].
  apply tr_establishes. do 2 (apply es_after; intros _). apply es_recompute.
Qed.
#[local] Hint Resolve tr_apply_phase : frame.
Lemma vw_compute_phase : rel (same phase_view) (compute_trading_session_phase clk).
Proof. unfold compute_trading_session_phase. rel_auto. Qed.
#[local] Hint Resolve vw_compute_phase : frame.
Lemma tr_phase : rel true_kept (update_trading_session_phase clk).
Proof. unfold update_trading_session_phase. rel_auto. Qed.

(** *** Commands of the operator *)

Lemma tr_flags : rel true_kept (on_process disable_trading_flags).
Proof.
  intros s H. unfold lifecycle_true in *. cbn. destruct (pst_lifecycle (cp_process_state s)); naive_solver.
Qed.
#[local] Hint Resolve tr_flags : frame.
Lemma vw_ack r id : rel (same phase_view) (push_ack r id).
Proof. unfold push_ack, respond. rel_auto. Qed.
Lemma vw_error r id e : rel (same phase_view) (push_error r id e).
Proof. unfold push_error, respond. rel_auto. Qed.
#[local] Hint Resolve vw_ack vw_error : frame.
Lemma tr_allow r id : rel true_kept (allow_trading r id).
Proof. apply tr_same. unfold allow_trading. rel_auto. Qed.
Lemma tr_disable r id : rel true_kept (disable_trading r id).
Proof.
  unfold disable_trading. apply rel_bind; [exact _|apply tr_flags|intros _]. apply rel_bind; [exact _|apply tr_same; rel_auto|intros oms].
  apply rel_bind; [exact _|destruct oms; apply tr_same; rel_auto|intros pushed]. destruct pushed; cbn [negb]; [|apply tr_same; rel_auto].
  apply tr_establishes, es_then; [apply es_recompute|]. intros _. apply tr_same. rel_auto.
Qed.
Lemma tr_cancel r id : rel true_kept (cancel_all_orders r id).
Proof.
  unfold cancel_all_orders. apply rel_bind; [exact _|apply tr_same; rel_auto|intros oms]. destruct oms; cbn [negb]; [|apply tr_same; rel_auto].
  apply rel_bind; [exact _|apply tr_same; rel_auto|intros pushed]. destruct pushed; cbn [negb]; [|apply tr_same; rel_auto].
  apply tr_establishes, es_after. intros _. apply es_then; [apply es_recompute|]. intros _. apply tr_same. rel_auto.
Qed.
#[local] Hint Resolve tr_allow tr_disable tr_cancel : frame.
Lemma tr_operator_command item r : rel true_kept (handle_operator_command item r).
Proof.
  unfold handle_operator_command. destruct (oq_type item); cbv zeta; try (solve [auto with frame nocore]); try (apply tr_same; unfold respond; rel_auto; fail).
  - apply tr_establishes, es_then; [by intros s|]. intros _. apply tr_same. rel_auto.
  - apply tr_establishes, es_then; [by intros s|]. intros _. apply tr_same. rel_auto.
Qed.
#[local] Hint Resolve tr_operator_command : frame.
Lemma tr_operator_loop n r : rel true_kept (operator_loop n r).
Proof.
  revert r. induction n as [|n IH]; intros r; cbn [operator_loop]; [apply tr_same; rel_auto|]. apply rel_bind; [exact _|apply tr_same; rel_auto|intros [item|]]; [|apply tr_same; rel_auto].
  apply rel_bind; [exact _|auto with frame nocore|auto].
Qed.
#[local] Hint Resolve tr_operator_loop tr_phase : frame.
Lemma tr_operator : rel true_kept (process_operator_commands clk).
Proof. unfold process_operator_commands. rel_auto. Qed.

(** *** Statuses *)

Lemma tr_io_loop n r : rel true_kept (io_loop clk n r).
Proof.
  revert r. induction n as [|n IH]; intros r; cbn [io_loop]; [apply tr_same; rel_auto|]. apply rel_bind; [exact _|apply tr_same; rel_auto|intros [status|]]; [|apply tr_same; rel_auto].
  apply tr_establishes, es_after. intros _. apply es_then; [apply es_recompute|auto].
Qed.
Lemma tr_all n (one : M ControlState bool) b : rel true_kept one → rel true_kept (process_all n one b).
Proof.
  intros H1. revert b. induction n as [|n IH]; intros b; cbn [process_all]; [apply rel_ret; exact _|]. apply rel_bind; [exact _|done|intros []; [apply IH|apply rel_ret; exact _]].
Qed.
(** A message is applied and the phase computed anew. *)
Lemma tr_applied {A} (m : M ControlState A) s s1 : lifecycle_true (((m ≫= λ _, recompute_process_state ≫= λ _, mret true) : M ControlState bool) s1).2.
Proof. apply (es_after m (λ _, recompute_process_state ≫= λ _, mret true)). intros _. apply es_then; [apply es_recompute|]. intros _. apply rel_ret. exact _. Qed.

Lemma tr_one_router : rel true_kept (process_one_router_message clk alloc).
Proof. intros s Hs. unfold process_one_router_message. destruct (cp_router_to_control_queue s) as [|[m|] q]; try by eapply view_true. by apply tr_applied. Qed.
Lemma tr_one_logger : rel true_kept process_one_logger_message.
Proof. intros s Hs. unfold process_one_logger_message. destruct (cp_logger_to_control_status_queue s) as [[|[m|] q]|]; try by eapply view_true. by apply tr_applied. Qed.
Lemma tr_one_oms : rel true_kept process_one_oms_status.
Proof. intros s Hs. unfold process_one_oms_status. destruct (cp_oms_to_control_status_queue s) as [[|[m|] q]|]; try by eapply view_true. by apply tr_applied. Qed.
Lemma tr_one_feed : rel true_kept process_one_private_order_feed_status.
Proof.
  intros s Hs. unfold process_one_private_order_feed_status. destruct (cp_private_order_feed_to_control_status_queue s) as [[|[m|] q]|]; try by eapply view_true.
  by apply tr_applied.
Qed.
Lemma tr_one_rest : rel true_kept process_one_order_rest_status.
Proof. intros s Hs. unfold process_one_order_rest_status. destruct (cp_order_rest_to_control_status_queue s) as [[|[m|] q]|]; try by eapply view_true. by apply tr_applied. Qed.
Lemma tr_poll l : rel true_kept (poll_shards clk alloc l).
Proof.
  induction l as [|i l IH]; cbn [poll_shards]; [apply rel_ret; exact _|]. apply rel_bind; [exact _|apply tr_same; rel_auto|intros [m|]]; [|done].
  intros s _. by apply tr_applied.
Qed.
#[local] Hint Resolve tr_operator tr_io_loop tr_all tr_one_router tr_one_logger tr_one_oms tr_one_feed tr_one_rest tr_poll : frame.

(** *** Recovery, universes and the pump *)

Lemma tr_requests now l r : rel true_kept (send_requests now l r).
Proof.
  revert r. induction l as [|c l IH]; intros r; cbn [send_requests]; [apply rel_ret; exact _|]. apply rel_bind; [exact _|apply tr_same; rel_auto|intros []; cbn [negb]]; [|apply tr_same; rel_auto].
  apply rel_bind; [exact _|apply tr_same; rel_auto|intros []; cbn [negb]].
  - apply rel_bind; [exact _|apply tr_same; rel_auto|intros _; apply IH].
  - apply tr_establishes, es_after. intros _. apply es_then; [apply es_recompute|]. intros _. apply rel_ret. exact _.
Qed.
#[local] Hint Resolve tr_requests : frame.
Lemma tr_recovery now : rel true_kept (process_recovery hash_order now).
Proof. unfold process_recovery. rel_auto. Qed.
#[local] Hint Resolve tr_recovery : frame.
Lemma tr_one_shard : rel true_kept (process_one_shard_message clk alloc).
Proof. unfold process_one_shard_message. rel_auto. Qed.
#[local] Hint Resolve tr_one_shard : frame.
Lemma tr_pump : rel true_kept (pump_control_plane_once clk alloc hash_order).
Proof.
  unfold pump_control_plane_once, process_io_status, process_router_messages, process_shard_messages, process_logger_messages, process_oms_status,
    process_order_rest_status, process_private_order_feed_status. rel_auto.
Qed.
#[local] Hint Resolve tr_pump : frame.
Lemma tr_install u : rel true_kept (install_universe clk hash_order u).
Proof.
  unfold install_universe. apply rel_bind; [exact _|apply tr_same; rel_auto|intros v]. cbv zeta. apply tr_establishes. do 6 (apply es_after; intros ?).
  apply es_then; [apply es_recompute|]. intros _. apply rel_ret. exact _.
Qed.
Lemma tr_command_all c n : rel true_kept (command_all_shards c n).
Proof.
  unfold command_all_shards. apply rel_bind; [exact _|apply tr_same; rel_auto|intros [u|]]; [|apply rel_ret; exact _].
  apply tr_establishes. do 2 (apply es_after; intros ?). apply es_then; [apply es_recompute|]. intros _. apply rel_ret. exact _.
Qed.
Lemma tr_send_shards : rel true_kept send_active_universe_to_shards.
Proof.
  unfold send_active_universe_to_shards. apply rel_bind; [exact _|apply tr_same; rel_auto|intros [u|]]; [|apply rel_ret; exact _].
  apply tr_establishes. do 3 (apply es_after; intros ?). apply es_then; [apply es_recompute|]. intros _. apply rel_ret. exact _.
Qed.
Lemma vw_feed m : rel (same phase_view) (push_private_order_feed_command m).
Proof. intros s. unfold push_private_order_feed_command. destruct (cp_control_to_private_order_feed_queue s); [|done]. by destruct (q_push _ _). Qed.
Lemma vw_rest m : rel (same phase_view) (push_order_rest_command m).
Proof. intros s. unfold push_order_rest_command. destruct (cp_control_to_order_rest_queue s); [|done]. by destruct (q_push _ _). Qed.
#[local] Hint Resolve tr_install tr_command_all tr_send_shards vw_feed vw_rest : frame.

(** ** Runs *)

(** The other threads produce and consume: the queues are those of [q]. *)
Definition with_queues (q s : ControlState) : ControlState :=
  mkControlState (cp_operator_command_queue q) (cp_operator_response_queue q) (cp_control_to_io_queue q) (cp_io_to_control_status_queue q)
    (cp_process_state s) (cp_active_universe s) (cp_active_order_universe s) (cp_next_universe_version s) (cp_router_to_control_queue q)
    (cp_control_to_shard_queues q) (cp_shard_to_control_queues q) (cp_logger_to_control_status_queue q) (cp_control_to_oms_queue q)
    (cp_oms_to_control_status_queue q) (cp_control_to_private_order_feed_queue q) (cp_private_order_feed_to_control_status_queue q)
    (cp_control_to_order_rest_queue q) (cp_order_rest_to_control_status_queue q) (cp_required_components s) (cp_synthetic_session_config s)
    (cp_recovery_coordinator s) (cp_session_start_time s) (cp_recovery_orchestration_faulted s) (cp_clock_reads s).

Inductive ControlOp :=
  | OpPump | OpInstallUniverse (u : UniverseSnapshot) | OpSendIo | OpSendOms | OpSendFeed | OpSendRest | OpSendShards | OpPrepareStop | OpDrain | OpResume
  | OpIoCommand (c : ControlToIoCommand) | OpFeedCommand (c : ControlToPrivateOrderFeedCommand) | OpRestCommand (c : ControlToOrderRestCommand)
  | OpTraffic (q : ControlState).

Definition exec (op : ControlOp) s : ControlState :=
  match op with
  | OpPump => (pump_control_plane_once clk alloc hash_order s).2
  | OpInstallUniverse u => (install_universe clk hash_order u s).2
  | OpSendIo => (send_active_universe_to_io s).2
  | OpSendOms => (send_active_order_universe_to_oms s).2
  | OpSendFeed => (send_active_order_universe_to_private_order_feed s).2
  | OpSendRest => (send_active_order_universe_to_order_rest s).2
  | OpSendShards => (send_active_universe_to_shards s).2
  | OpPrepareStop => (prepare_active_universe_stop_on_shards s).2
  | OpDrain => (drain_active_universe_on_shards s).2
  | OpResume => (resume_active_universe_on_shards s).2
  | OpIoCommand c => (push_io_command c s).2
  | OpFeedCommand c => (push_private_order_feed_command c s).2
  | OpRestCommand c => (push_order_rest_command c s).2
  | OpTraffic q => with_queues q s
  end.
Definition exec_all (ops : list ControlOp) s : ControlState := foldl (λ s op, exec op s) s ops.

Lemma exec_true op s : lifecycle_true s → lifecycle_true (exec op s).
Proof.
  assert (∀ A (m : M ControlState A), rel (same phase_view) m → lifecycle_true s → lifecycle_true (m s).2) as Hv by (intros A m Hm; by apply tr_same).
  destruct op; cbn [exec]; try (apply Hv; unfold send_active_universe_to_io, send_active_order_universe_to_oms, send_active_order_universe_to_private_order_feed,
    send_active_order_universe_to_order_rest; rel_auto; fail).
  - apply tr_pump.
  - apply tr_install.
  - apply tr_send_shards.
  - apply tr_command_all.
  - apply tr_command_all.
  - apply tr_command_all.
  - by apply view_true.
Qed.

Variable initial : ControlState.
Definition constructed : Prop :=
  ∃ a b c d e f g h i j k l m n required session, initial = make_control_plane clk a b c d e f g h i j k l m n required session.

Lemma make_true : constructed → lifecycle_true initial.
Proof.
  intros (a & b & c & d & e & f & g & h & i & j & k & l & m & n & required & session & ->). unfold make_control_plane, compute_trading_session_phase, mbind, M_bind, gets.
  by destruct (negb _).
Qed.

(** C19: in every state the control plane can reach, whatever the components and the operator
    send, the phase it reports is true: [kLIVE_TRADING] only with every required component
    ready for trading on the target universe, none faulted and no shutdown requested,
    [kREADY] likewise for capture, [kFAULTED] only with a fault and trading reported disabled,
    [kSTOPPED] only after a shutdown request and once the required transports have stopped;
    and once shutdown is requested only [kSHUTTING_DOWN] and [kSTOPPED] are reported. *)
Theorem lifecycle_tells_the_truth ops : constructed → lifecycle_true (exec_all ops initial).
Proof.
  intros H. unfold exec_all. assert (∀ s, lifecycle_true s → lifecycle_true (foldl (λ s op, exec op s) s ops)) as Hall; [|by apply Hall, make_true].
  induction ops as [|op ops IH]; intros s Hs; [done|]. apply IH. by apply exec_true.
Qed.

(** ** Permission to trade *)

Definition oms_sent s : list ControlToOmsCommand := match cp_control_to_oms_queue s with Some q => q_sent q | None => [] end.

(** What [allow-trading] requires. *)
Definition gate s : bool :=
  req_oms (cp_required_components s) && bool_decide (pst_trading_session_phase (cp_process_state s) = kPHASE_TRADING) &&
  required_components_ready_for_trading s.

Lemma gate_recompute s : gate (s ⟪ cp_process_state := recompute s ⟫) = gate s.
Proof. unfold recompute. by repeat case_match. Qed.

(** Commands are sent to the OMS, [CtAllowTrading] only if [P]. *)
Definition sends (P : Prop) s s' : Prop := ∃ msgs, oms_sent s' = oms_sent s ++ msgs ∧ (CtAllowTrading ∈ msgs → P).

#[local] Instance sends_preorder P : PreOrder (sends P).
Proof.
  split.
  - intros s. exists []. rewrite app_nil_r. split; [done|]. by intros ?%not_elem_of_nil.
  - intros s1 s2 s3 (m1 & M1 & H1) (m2 & M2 & H2). exists (m1 ++ m2). rewrite M2, M1, app_assoc. split; [done|]. intros [?|?]%elem_of_app; auto.
Qed.
Lemma sends_mono (P P' : Prop) s s' : (P → P') → sends P s s' → sends P' s s'.
Proof. intros HP (msgs & E & H). exists msgs. auto. Qed.
Lemma sends_quiet P s s' : cp_control_to_oms_queue s' = cp_control_to_oms_queue s → sends P s s'.
Proof. intros E. exists []. unfold oms_sent. rewrite E, app_nil_r. split; [done|]. by intros ?%not_elem_of_nil. Qed.

Lemma push_oms_spec (P : Prop) m s : (m = CtAllowTrading → P) → sends P s (push_oms_command m s).2.
Proof.
  intros HP. unfold push_oms_command, sends, oms_sent. destruct (cp_control_to_oms_queue s) as [q|] eqn:Eq.
  - pose proof (push_sent m q) as H. destruct (q_push m q) as [b q']. cbn in *. rewrite H.
    destruct b; [exists [m]; split; [done|]; by intros ?%list_elem_of_singleton%eq_sym%HP|exists []; rewrite app_nil_r; split; [done|]; by intros ?%not_elem_of_nil].
  - exists []. cbn. rewrite Eq. split; [done|]. by intros ?%not_elem_of_nil.
Qed.

(** The operator's commands that are left, and the gate. *)
Definition permission_view s := (cp_operator_command_queue s, gate s).
Lemma push_oms_view m : rel (same permission_view) (push_oms_command m).
Proof. intros s. unfold push_oms_command. destruct (cp_control_to_oms_queue s) as [q|]; [|done]. by destruct (q_push m q). Qed.
Lemma respond_view r m : rel (same permission_view) (respond r m) ∧ rel (same cp_control_to_oms_queue) (respond r m).
Proof. split; intros s; unfold respond, push_operator_response, mbind, M_bind; by destruct (q_push _ _). Qed.
Lemma recompute_view : rel (same permission_view) recompute_process_state.
Proof. intros s. unfold same, permission_view. cbn [snd recompute_process_state modify]. by rewrite gate_recompute. Qed.

(** Commands that are not [allow-trading]. *)
Definition harmless s s' : Prop := same permission_view s s' ∧ sends False s s'.
#[local] Instance harmless_preorder : PreOrder harmless.
Proof.
  split; [by intros s; split|]. intros s1 s2 s3 [V1 S1] [V2 S2]. split; [by etrans|by etrans].
Qed.
Lemma harmless_quiet s s' : same permission_view s s' → same cp_control_to_oms_queue s s' → harmless s s'.
Proof. intros ? E. split; [done|]. by apply sends_quiet. Qed.
#[local] Hint Extern 1 (harmless _ _) => apply harmless_quiet; reflexivity : frame.

Lemma hm_recompute : rel harmless recompute_process_state.
Proof. intros s. apply harmless_quiet; [apply recompute_view|done]. Qed.
Lemma hm_respond r m : rel harmless (respond r m).
Proof. intros s. apply harmless_quiet; apply respond_view. Qed.
Lemma hm_flags : rel harmless (on_process disable_trading_flags).
Proof. intros s. by apply harmless_quiet. Qed.
Lemma hm_push m : m ≠ CtAllowTrading → rel harmless (push_oms_command m).
Proof. intros Hm s. split; [apply push_oms_view|by apply push_oms_spec]. Qed.
#[local] Hint Resolve hm_recompute hm_respond hm_flags : frame.
#[local] Hint Extern 1 (rel _ (push_oms_command _)) => apply hm_push; discriminate : frame.

Lemma hm_disable r id : rel harmless (disable_trading r id).
Proof. unfold disable_trading, push_ack, push_error. rel_auto. Qed.
Lemma hm_cancel r id : rel harmless (cancel_all_orders r id).
Proof. unfold cancel_all_orders, push_ack, push_error. rel_auto. Qed.
#[local] Hint Resolve hm_disable hm_cancel : frame.

Lemma allow_spec r id s : same permission_view s (allow_trading r id s).2 ∧ sends (gate s = true) s (allow_trading r id s).2.
Proof.
  assert (∀ m s1, same permission_view s1 (respond r m s1).2 ∧ sends (gate s = true) s1 (respond r m s1).2) as Hr.
  { intros m s1. split; [apply respond_view|]. apply sends_quiet, respond_view. }
  unfold allow_trading, mbind, M_bind, gets, push_error, push_ack.
  destruct (req_oms (cp_required_components s)) eqn:E1; cbn [negb]; [|apply Hr].
  destruct (bool_decide (pst_trading_session_phase (cp_process_state s) = kPHASE_TRADING)) eqn:E2; cbn [negb]; [|apply Hr].
  destruct (required_components_ready_for_trading s) eqn:E3; cbn [negb]; [|apply Hr].
  assert (gate s = true) as Hg by (unfold gate; by rewrite E1, E2, E3).
  pose proof (push_oms_spec (gate s = true) CtAllowTrading s (λ _, Hg)) as Hs. pose proof (push_oms_view CtAllowTrading s) as Hv.
  destruct (push_oms_command CtAllowTrading s) as [[] s1]; cbn [negb snd] in *;
    match goal with |- context [respond r ?m s1] => destruct (Hr m s1) as [H1 H2] end; (split; etrans; [eassumption|exact H1|eassumption|exact H2]).
Qed.

Lemma operator_command_spec item r s : same permission_view s (handle_operator_command item r s).2 ∧
  sends (gate s = true ∧ oq_type item = kALLOW_TRADING) s (handle_operator_command item r s).2.
Proof.
  assert (∀ m : M ControlState OperatorPumpResult, rel harmless m → same permission_view s (m s).2 ∧ sends (gate s = true ∧ oq_type item = kALLOW_TRADING) s (m s).2) as Hh.
  { intros m Hm. destruct (Hm s) as [? ?]. split; [done|]. by eapply sends_mono; [|done]. }
  unfold handle_operator_command. destruct (oq_type item) eqn:Et; cbv zeta; try (apply Hh; unfold push_ack, push_error; rel_auto; fail).
  edestruct allow_spec as [H1 H2]. split; [exact H1|]. eapply sends_mono; [|exact H2]. done.
Qed.

(** The operator's commands [used] are taken. *)
Definition permits s s' : Prop :=
  gate s' = gate s ∧ ∃ used, cp_operator_command_queue s = used ++ cp_operator_command_queue s' ∧
    sends (gate s = true ∧ ∃ item, Some item ∈ used ∧ oq_type item = kALLOW_TRADING) s s'.

Lemma operator_loop_permits n r s : permits s (operator_loop n r s).2.
Proof.
  assert (∀ s, permits s s) as Hrefl by (intros s1; split; [done|]; by exists []).
  revert r s. induction n as [|n IH]; intros r s; cbn [operator_loop]; [apply Hrefl|]. unfold mbind, M_bind, pop_operator_command.
  destruct (cp_operator_command_queue s) as [|[item|] q] eqn:Eq; [apply Hrefl| |].
  2: { split; [done|]. exists [None]. split; [done|]. by apply sends_quiet. }
  set (s1 := s ⟪ cp_operator_command_queue := q ⟫). destruct (operator_command_spec item r s1) as [Hv Hs]. destruct (handle_operator_command item r s1) as [r' s2]. cbn [snd] in *.
  apply pair_eq in Hv as [V1 V2]. destruct (IH r' s2) as (G & used & U & S2). change (gate s1) with (gate s) in *. split; [congruence|]. exists (Some item :: used).
  split; [change (cp_operator_command_queue s1) with q in V1; by rewrite Eq, <- V1, U|]. change (sends (gate s = true ∧ oq_type item = kALLOW_TRADING) s s2) in Hs.
  etrans; [eapply sends_mono; [|exact Hs]|eapply sends_mono; [|exact S2]].
  - intros [? ?]. split; [done|]. exists item. split; [left|done].
  - intros [? (i & ? & ?)]. split; [congruence|]. exists i. split; [by right|done].
Qed.

(** The change of the session's phase sends only [CtDisableTrading]. *)
Lemma session_spec s : cp_operator_command_queue (update_trading_session_phase clk s).2 = cp_operator_command_queue s ∧
  sends False s (update_trading_session_phase clk s).2.
Proof.
  assert (rel (λ s s', cp_operator_command_queue s' = cp_operator_command_queue s ∧ sends False s s') (update_trading_session_phase clk)) as H; [|apply H].
  assert (PreOrder (λ s s', cp_operator_command_queue s' = cp_operator_command_queue s ∧ sends False s s')).
  { split; [by intros s1; split|]. intros s1 s2 s3 [? ?] [? ?]. split; [congruence|by etrans]. }
  assert (∀ s s', (cp_operator_command_queue s', cp_control_to_oms_queue s') = (cp_operator_command_queue s, cp_control_to_oms_queue s) →
    cp_operator_command_queue s' = cp_operator_command_queue s ∧ sends False s s') as Hq by (intros s1 s2 [= E1 E2]; split; [done|by apply sends_quiet]).
  unfold update_trading_session_phase, compute_trading_session_phase, apply_trading_session_phase.
  rel_auto; try (intros s1; by apply Hq). intros s1. destruct (hm_push CtDisableTrading ltac:(done) s1) as [V1 V2]. split; [by injection V1|done].
Qed.

(** *** Statuses send nothing to the OMS *)

Definition oms_view s := (cp_operator_command_queue s, cp_control_to_oms_queue s).
Abbreviation unsent := (same oms_view).

Lemma us_now : rel unsent (control_now clk). Proof. done. Qed.
Lemma us_process f : rel unsent (on_process f). Proof. done. Qed.
Lemma us_recompute : rel unsent recompute_process_state. Proof. done. Qed.
Lemma us_fault : rel unsent fault_recovery. Proof. done. Qed.
Lemma us_coordinator {A} (f : RecoveryCoordinator → A * RecoveryCoordinator) : rel unsent (on_coordinator f).
Proof. intros s. unfold on_coordinator. by destruct (f _). Qed.
Lemma us_push_io m : rel unsent (push_io_command m).
Proof. intros s. unfold push_io_command. by destruct (q_push _ _). Qed.
Lemma us_pop_io : rel unsent pop_io_status.
Proof. intros s. unfold pop_io_status. by destruct (cp_io_to_control_status_queue s). Qed.
Lemma us_pop_shard i : rel unsent (pop_shard_message i).
Proof. intros s. unfold pop_shard_message. by repeat case_match. Qed.
#[local] Hint Resolve us_now us_process us_recompute us_fault us_coordinator us_push_io us_pop_io us_pop_shard : frame.
Lemma us_telemetry f : rel unsent (on_recovery_telemetry f). Proof. done. Qed.
#[local] Hint Resolve us_telemetry : frame.
Lemma us_io_status m : rel unsent (apply_io_status clk m).
Proof. unfold apply_io_status, on_io. rel_auto. Qed.
Lemma us_router_status m : rel unsent (apply_router_status clk alloc m).
Proof. unfold apply_router_status, on_router, reject_observation, next_alloc. rel_auto. Qed.
Lemma us_shard_status m : rel unsent (apply_shard_status clk alloc m).
Proof. unfold apply_shard_status, on_shard, reject_observation, next_alloc. rel_auto. Qed.
Lemma us_oms_status m : rel unsent (apply_oms_status m).
Proof. unfold apply_oms_status, on_oms. rel_auto. Qed.
#[local] Hint Resolve us_io_status us_router_status us_shard_status us_oms_status : frame.
Lemma us_io_loop n r : rel unsent (io_loop clk n r).
Proof. revert r. induction n; intros; cbn [io_loop]; rel_auto. Qed.
Lemma us_poll l : rel unsent (poll_shards clk alloc l).
Proof. induction l; cbn [poll_shards]; rel_auto. Qed.
Lemma us_requests now l r : rel unsent (send_requests now l r).
Proof. revert r. induction l; intros; cbn [send_requests]; rel_auto. Qed.
Lemma us_all n (one : M ControlState bool) b : rel unsent one → rel unsent (process_all n one b).
Proof. intros H1. revert b. induction n; intros; cbn [process_all]; rel_auto. Qed.
#[local] Hint Resolve us_io_loop us_poll us_requests us_all : frame.

Lemma us_applied {A} (m : M ControlState A) s : rel unsent m →
  oms_view (((m ≫= λ _, recompute_process_state ≫= λ _, mret true) : M ControlState bool) s).2 = oms_view s.
Proof. intros Hm. assert (rel unsent (m ≫= λ _, recompute_process_state ≫= λ _, mret true)) as H by rel_auto. apply H. Qed.
Lemma us_one_router : rel unsent (process_one_router_message clk alloc).
Proof. intros s. unfold process_one_router_message, same. destruct (cp_router_to_control_queue s) as [|[m|] q]; try done. rewrite us_applied; [done|rel_auto]. Qed.
Lemma us_one_logger : rel unsent process_one_logger_message.
Proof. intros s. unfold process_one_logger_message, same. destruct (cp_logger_to_control_status_queue s) as [[|[m|] q]|]; done. Qed.
Lemma us_one_oms : rel unsent process_one_oms_status.
Proof. intros s. unfold process_one_oms_status, same. destruct (cp_oms_to_control_status_queue s) as [[|[m|] q]|]; try done. rewrite us_applied; [done|rel_auto]. Qed.
Lemma us_one_feed : rel unsent process_one_private_order_feed_status.
Proof.
  intros s. unfold process_one_private_order_feed_status, same. destruct (cp_private_order_feed_to_control_status_queue s) as [[|[m|] q]|]; done.
Qed.
Lemma us_one_rest : rel unsent process_one_order_rest_status.
Proof. intros s. unfold process_one_order_rest_status, same. destruct (cp_order_rest_to_control_status_queue s) as [[|[m|] q]|]; done. Qed.
Lemma us_one_shard : rel unsent (process_one_shard_message clk alloc).
Proof. unfold process_one_shard_message. rel_auto. Qed.
Lemma us_recovery now : rel unsent (process_recovery hash_order now).
Proof. unfold process_recovery. rel_auto. Qed.
#[local] Hint Resolve us_one_router us_one_logger us_one_oms us_one_feed us_one_rest us_one_shard us_recovery : frame.

(** The part of a round after the operator's commands. *)
Definition process_statuses : M ControlState bool :=
  io_result ← process_io_status clk;
  router_messages ← process_router_messages clk alloc;
  shard_messages ← process_shard_messages clk alloc;
  now ← control_now clk;
  recovery_result ← process_recovery hash_order now;
  logger_messages ← process_logger_messages;
  oms_messages ← process_oms_status;
  order_rest_messages ← process_order_rest_status;
  private_order_feed_messages ← process_private_order_feed_status;
  mret ((0 <? iu_statuses_processed io_result) || router_messages || shard_messages || (0 <? vu_commands_pushed_success recovery_result) || logger_messages
        || oms_messages || order_rest_messages || private_order_feed_messages).

Lemma us_statuses : rel unsent process_statuses.
Proof.
  unfold process_statuses, process_io_status, process_router_messages, process_shard_messages, process_logger_messages, process_oms_status,
    process_order_rest_status, process_private_order_feed_status. rel_auto.
Qed.

Lemma pump_split s : (pump_control_plane_once clk alloc hash_order s).2 =
  (process_statuses (process_operator_commands clk (update_trading_session_phase clk s).2).2).2.
Proof.
  unfold pump_control_plane_once, process_statuses, mbind, M_bind. destruct (update_trading_session_phase clk s) as [b1 s1]. cbn [snd].
  destruct (process_operator_commands clk s1) as [r2 s2]. cbn [snd]. destruct (process_io_status clk s2) as [r3 s3].
  destruct (process_router_messages clk alloc s3) as [r4 s4]. destruct (process_shard_messages clk alloc s4) as [r5 s5]. destruct (control_now clk s5) as [now s6].
  destruct (process_recovery hash_order now s6) as [r7 s7]. destruct (process_logger_messages s7) as [r8 s8]. destruct (process_oms_status s8) as [r9 s9].
  destruct (process_order_rest_status s9) as [r10 s10]. by destruct (process_private_order_feed_status s10).
Qed.

(** The state in which a round processes the operator's commands. *)
Definition at_commands s : ControlState := (update_trading_session_phase clk (update_trading_session_phase clk s).2).2.

(** C18: in a round of the control plane trading is allowed only on the operator's word and
    through the gate: if [CtAllowTrading] is among the commands sent to the OMS, then an
    [allow-trading] command was taken from the operator, an OMS is required, and when the
    operator's commands were processed the session was in its trading phase and every required
    component was ready for trading on the target universe. *)
Theorem allow_trading_is_gated s :
  ∃ msgs, oms_sent (pump_control_plane_once clk alloc hash_order s).2 = oms_sent s ++ msgs ∧
    (CtAllowTrading ∈ msgs → gate (at_commands s) = true ∧ ∃ item, Some item ∈ cp_operator_command_queue s ∧ oq_type item = kALLOW_TRADING).
Proof.
  unfold at_commands. rewrite pump_split. set (s1 := (update_trading_session_phase clk s).2). set (s2 := (update_trading_session_phase clk s1).2).
  destruct (session_spec s) as [U1 S1]. destruct (session_spec s1) as [U2 S2]. fold s1 in U1, S1. fold s2 in U2, S2.
  set (s3 := (process_operator_commands clk s1).2).
  assert (permits s2 s3) as (_ & used & U3 & S3).
  { unfold s3, s2, process_operator_commands, mbind, M_bind, gets. destruct (update_trading_session_phase clk s1) as [b t]. apply operator_loop_permits. }
  assert (cp_control_to_oms_queue (process_statuses s3).2 = cp_control_to_oms_queue s3) as E by (pose proof (us_statuses s3) as H; by injection H).
  assert (sends (gate s2 = true ∧ ∃ item, Some item ∈ cp_operator_command_queue s ∧ oq_type item = kALLOW_TRADING) s (process_statuses s3).2) as (msgs & H); [|by exists msgs].
  etrans; [by eapply sends_mono; [|exact S1]|]. etrans; [by eapply sends_mono; [|exact S2]|]. etrans; [|by apply sends_quiet].
  eapply sends_mono; [|exact S3]. intros [? (item & Hi & Ht)]. split; [done|]. exists item. split; [|done]. rewrite <- U1, <- U2, U3. by apply elem_of_app; left.
Qed.

(** C27: a fault is not passed on.  No status of any component makes the control plane send
    a command to the OMS; in particular, when the market-data connection faults, the control
    plane reports the process faulted and trading disabled, and the OMS is not told. *)
Theorem faults_are_not_passed_on s error :
  pst_shutdown_requested (cp_process_state s) = false → req_market_data (cp_required_components s) = true →
  cp_io_to_control_status_queue s = [Some (IsFaulted error)] →
  pst_lifecycle (cp_process_state (process_io_status clk s).2) = kPHASE_FAULTED ∧ pst_trading_enabled (cp_process_state (process_io_status clk s).2) = false ∧
  oms_trading_enabled (pst_oms_component_state (cp_process_state (process_io_status clk s).2)) = false ∧
  cp_control_to_oms_queue (process_io_status clk s).2 = cp_control_to_oms_queue s ∧
  ∀ s1, cp_control_to_oms_queue (process_statuses s1).2 = cp_control_to_oms_queue s1.
Proof.
  intros Hs Hr Hq. assert (∀ s1, cp_control_to_oms_queue (process_statuses s1).2 = cp_control_to_oms_queue s1) as Hall.
  { intros s1. pose proof (us_statuses s1) as H. by injection H. }
  unfold process_io_status, mbind, M_bind, gets. rewrite Hq. cbn [length io_loop]. unfold mbind, M_bind, pop_io_status. rewrite Hq.
  unfold apply_io_status, on_io, on_process, modify, recompute_process_state. cbv beta iota. unfold recompute. cbn -[required_components_ready_for_trading].
  rewrite Hs. unfold required_components_faulted. cbn. rewrite Hr. cbn. by destruct (cp_recovery_orchestration_faulted s).
Qed.

(** [allow-trading] is carried out and acknowledged in a faulted process, if the required
    components are ready: a fault of the router or of the recovery of order books does not
    close the gate. *)
Theorem allow_trading_ignores_faults s r id : pst_lifecycle (cp_process_state s) = kPHASE_FAULTED → gate s = true →
  (∃ q, cp_control_to_oms_queue s = Some q ∧ (q_push CtAllowTrading q).1 = true) →
  oms_sent (allow_trading r id s).2 = oms_sent s ++ [CtAllowTrading] ∧
  q_sent (cp_operator_response_queue (allow_trading r id s).2) =
    q_sent (cp_operator_response_queue s) ++
    (if (q_push (mkOperatorResponse id kACK AckPayload) (cp_operator_response_queue s)).1 then [mkOperatorResponse id kACK AckPayload] else []).
Proof.
  intros _ Hg (q & Hq & Hp). unfold gate in Hg. apply andb_true_iff in Hg as [[H1 H2]%andb_true_iff H3].
  unfold allow_trading, mbind, M_bind, gets. rewrite H1, H2, H3. cbn [negb]. unfold push_oms_command. rewrite Hq.
  pose proof (push_sent CtAllowTrading q) as Hs. destruct (q_push CtAllowTrading q) as [b q']. cbn in Hp, Hs. subst b. cbn [negb].
  unfold push_ack, respond, push_operator_response, mbind, M_bind. set (m := mkOperatorResponse id kACK AckPayload). cbn.
  pose proof (push_sent m (cp_operator_response_queue s)) as Hr. destruct (q_push m (cp_operator_response_queue s)) as [b q1]. cbn in *. unfold oms_sent. cbn. rewrite Hs, Hq, Hr.
  split; [done|]. destruct b; [done|by rewrite app_nil_r].
Qed.
End ControlSafety.
End ControlSafety.

(** ** A concrete run of the control plane

    Market data, one shard and the OMS are required.  The universe is installed, the components
    report that they are ready and the operator allows trading; later the router loses a frame
    handle and the market-data connection fails. *)


Module ControlDemo.
Import Recovery ControlPlane ControlSafety.

Definition demo_clock (n : nat) : Z := 1000 * Z.of_nat n.
Definition demo_alloc (_ _ : nat) : bool := true.
Definition room {T} (capacity : Z) : Fifo T := mkFifo capacity [] [] [].
Abbreviation State := (ControlState (Q := Fifo)).

Definition demo_required : RequiredComponents := mkRequiredComponents true true false true false false.
Definition demo_initial : State :=
  make_control_plane demo_clock [] (room 8) (room 8) [] [] [Some (room 8)] [Some []] None (Some (room 8)) (Some []) None None None None
    demo_required default_SyntheticTradingSessionConfig.

Definition demo_universe : UniverseSnapshot := default_UniverseSnapshot.

(** What the components report. *)
Definition ready_traffic : State :=
  demo_initial ⟪ cp_io_to_control_status_queue := [Some IsConnected; Some (IsUniverseSnapshotApplied 1); Some (IsSubscriptionReady 1)] ⟫
    ⟪ cp_shard_to_control_queues := [Some [Some (ScInstalled (mkShardUniverseInstalled 1 0 1))]] ⟫
    ⟪ cp_oms_to_control_status_queue :=
        Some [Some CsReady; Some (CsTelemetry (default_OmsTelemetrySnapshot ⟪ tm_installed_universe_version := 1 ⟫))] ⟫.
Definition allow_traffic : State := demo_initial ⟪ cp_operator_command_queue := [Some (mkOperatorCommand kALLOW_TRADING 7)] ⟫.
Definition enabled_traffic : State := demo_initial ⟪ cp_oms_to_control_status_queue := Some [Some (CsTradingEnabledChanged true)] ⟫.
Definition leak_traffic : State :=
  demo_initial ⟪ cp_router_to_control_queue := [Some (FromRouter (RcHandleLeak (mkRouterHandleLeak 1 9 5 0 0 0 101 10)))] ⟫.
Definition fault_traffic : State := demo_initial ⟪ cp_io_to_control_status_queue := [Some (IsFaulted "read failed")] ⟫.

Definition run (ops : list ControlOp) : State := exec_all demo_clock demo_alloc id ops demo_initial.
Definition ready_ops : list ControlOp := [OpInstallUniverse demo_universe; OpSendIo; OpSendShards; OpSendOms; OpTraffic ready_traffic; OpPump].
Definition asked_ops : list ControlOp := ready_ops ++ [OpTraffic allow_traffic].
Definition live_ops : list ControlOp := asked_ops ++ [OpPump; OpTraffic enabled_traffic; OpPump].
Definition leaked_ops : list ControlOp := live_ops ++ [OpTraffic leak_traffic; OpPump].
Definition lost_ops : list ControlOp := live_ops ++ [OpTraffic fault_traffic].

Definition lifecycle (s : State) : LifecyclePhase := pst_lifecycle (cp_process_state s).

Lemma demo_constructed : constructed (Q := Fifo) demo_clock demo_initial.
Proof. unfold constructed, demo_initial. repeat eexists. Qed.

Example demo_phases : lifecycle <$> [demo_initial; run ready_ops; run live_ops; run leaked_ops] = [kBOOTING; kPHASE_READY; kLIVE_TRADING; kPHASE_FAULTED].
Proof. vm_compute. reflexivity. Qed.

Lemma lifecycle_tells_the_truth_witness : lifecycle (run live_ops) = kLIVE_TRADING ∧ lifecycle_true (run live_ops).
Proof.
  split; [vm_compute; reflexivity|].
  exact (lifecycle_tells_the_truth (Q := Fifo) demo_clock demo_alloc id demo_initial live_ops demo_constructed).
Defined.

Lemma allow_trading_is_gated_witness :
  oms_sent (pump_control_plane_once demo_clock demo_alloc id (run asked_ops)).2 = oms_sent (run asked_ops) ++ [CtAllowTrading] ∧
  ∃ msgs, oms_sent (pump_control_plane_once demo_clock demo_alloc id (run asked_ops)).2 = oms_sent (run asked_ops) ++ msgs ∧
    (CtAllowTrading ∈ msgs → gate (at_commands demo_clock (run asked_ops)) = true ∧
      ∃ item, Some item ∈ cp_operator_command_queue (run asked_ops) ∧ oq_type item = kALLOW_TRADING).
Proof.
  split; [vm_compute; reflexivity|]. exact (allow_trading_is_gated (Q := Fifo) demo_clock demo_alloc id (run asked_ops)).
Defined.

Lemma faults_are_not_passed_on_witness :
  lifecycle (run live_ops) = kLIVE_TRADING ∧ pst_lifecycle (cp_process_state (process_io_status demo_clock (run lost_ops)).2) = kPHASE_FAULTED ∧
  cp_control_to_oms_queue (process_io_status demo_clock (run lost_ops)).2 = cp_control_to_oms_queue (run lost_ops).
Proof.
  assert (pst_shutdown_requested (cp_process_state (run lost_ops)) = false) as H1 by (vm_compute; reflexivity).
  assert (req_market_data (cp_required_components (run lost_ops)) = true) as H2 by (vm_compute; reflexivity).
  assert (cp_io_to_control_status_queue (run lost_ops) = [Some (IsFaulted "read failed")]) as H3 by (vm_compute; reflexivity).
  destruct (faults_are_not_passed_on (Q := Fifo) demo_clock demo_alloc id (run lost_ops) "read failed" H1 H2 H3) as (P1 & _ & _ & P4 & _).
  split; [vm_compute; reflexivity|exact (conj P1 P4)].
Defined.

Lemma allow_trading_ignores_faults_witness :
  pst_lifecycle (cp_process_state (run leaked_ops)) = kPHASE_FAULTED ∧
  oms_sent (allow_trading default_OperatorPumpResult 8 (run leaked_ops)).2 = oms_sent (run leaked_ops) ++ [CtAllowTrading].
Proof.
  assert (pst_lifecycle (cp_process_state (run leaked_ops)) = kPHASE_FAULTED) as H1 by (vm_compute; reflexivity).
  assert (gate (run leaked_ops) = true) as H2 by (vm_compute; reflexivity).
  assert (∃ q, cp_control_to_oms_queue (run leaked_ops) = Some q ∧ (q_push CtAllowTrading q).1 = true) as H3.
  { exists (room 8). split; vm_compute; reflexivity. }
  split; [exact H1|]. exact (proj1 (allow_trading_ignores_faults (Q := Fifo) (run leaked_ops) default_OperatorPumpResult 8 H1 H2 H3)).
Defined.
End ControlDemo.
