(* ===== verification/OperatorJson.v ===== *)
(** * OperatorJson: what the operator is shown

    Models the rendering of responses in [cpp/src/operator/operator_command_handler.cpp]
    ([to_json] and its helpers) as trees; writing a tree as text is left to [nlohmann::json].
    The latencies of the shards are also shown together: they are those of all their samples. *)

From S2P Require Import Prelude LatencyHistogram MarketTypes ShardTypes WireTypes ControlPlaneTypes.
From stdpp Require Import pretty.
Open Scope Z_scope.

#[warnings="-register-all"]
Inductive JsonTree := | JNumber (n : Z) | JBool (b : bool) | JText (s : string) | JArray (l : list JsonTree) | JObject (members : list (string * JsonTree)).

Module OperatorJson.
Import Histogram.

(** ** Names *)

Definition lifecycle_to_string (lifecycle : LifecyclePhase) : string :=
  match lifecycle with
  | kBOOTING => "booting" | kWAITING_FOR_IO => "waiting_for_io" | kIO_CONNECTED => "io_connected" | kPHASE_READY => "ready"
  | kLIVE_TRADING => "live_trading" | kSHUTTING_DOWN => "shutting_down" | kPHASE_STOPPED => "stopped" | kREFRESHING => "refreshing"
  | kPHASE_FAULTED => "faulted"
  end.
Definition trading_session_phase_to_string (phase : TradingSessionPhase) : string :=
  match phase with
  | kPHASE_TRADING => "trading" | kREDUCE_ONLY => "reduce_only" | kFLATTEN_TO_ZERO => "flatten_to_zero" | kSESSION_STOPPED => "stopped"
  | kSESSION_UNKNOWN => "unknown"
  end.
Definition response_type_to_string (type : OperatorResponseType) : string :=
  match type with kACK => "ack" | kERROR => "error" | kRESPONSE_STATUS => "status" | kRESPONSE_COUNTERSTATS => "counterstats" end.
(** The numeric values of [FrameKind]. *)
Definition frame_kind_code (kind : FrameKind) : Z :=
  match kind with
  | kFRAME_UNKNOWN => 0 | kORDERBOOK_SNAPSHOT => 1 | kORDERBOOK_DELTA => 2 | kTRADE => 3 | kSUBSCRIPTION_ACK => 4 | kUNSUBSCRIBED => 5
  | kLIFECYCLE => 6 | kHEARTBEAT => 7
  end.
Definition frame_kind_to_string (frame_kind : Z) : string :=
  match frame_kind with
  | 1 => "orderbook_snapshot" | 2 => "orderbook_delta" | 3 => "trade" | 4 => "subscription_ack" | 5 => "unsubscribed" | 6 => "lifecycle"
  | 7 => "heartbeat" | _ => "unknown"
  end.
Definition market_data_channel_to_string (channel : Z) : string :=
  match channel with 1 => "orderbook_delta" | 2 => "trade" | 3 => "market_lifecycle_v2" | _ => "unknown" end.

(** ** Latencies *)

Definition latency_members (h : LatencyHistogram) : list (string * JsonTree) :=
  [("count", JNumber (count h)); ("mean_ns", JNumber (mean_ns h)); ("p50_ns", JNumber (percentile_upper_bound h 5000));
   ("p95_ns", JNumber (percentile_upper_bound h 9500)); ("p99_ns", JNumber (percentile_upper_bound h 9900));
   ("p99_9_ns", JNumber (percentile_upper_bound h 9990)); ("max_ns", JNumber (max_ns h))]%string.
Definition latency_histogram_json (h : LatencyHistogram) : JsonTree := JObject (latency_members h).

(** One summary for each channel, numbered from 1. *)
Definition channel_latency_json (latency : list LatencyHistogram) : JsonTree :=
  JArray (imap (λ index h,
    let channel := u8 (Z.of_nat index + 1) in
    JObject (latency_members h ++ [("channel", JText (market_data_channel_to_string channel)); ("channel_code", JNumber channel)]%string)) latency).

(** [aggregate[index].merge(shard[index])] for every channel, shard after shard. *)
Definition merge_channels (aggregate latency : list LatencyHistogram) : list LatencyHistogram := zip_with merge aggregate latency.
Definition aggregate_latency (field : ShardCounterStats → list LatencyHistogram) (shards : list ShardCounterStats) : list LatencyHistogram :=
  foldl (λ aggregate shard, merge_channels aggregate (field shard)) (replicate kMarketDataChannelCount empty_histogram) shards.

(** ** Counters *)

Definition channel_stats_json (stats : list MarketDataChannelTelemetrySnapshot) : JsonTree :=
  JArray ((λ s, JObject
    [("channel", JText (market_data_channel_to_string (ct_channel s))); ("channel_code", JNumber (ct_channel s));
     ("frames_observed", JNumber (ct_frames_observed s)); ("sequence_gaps", JNumber (ct_sequence_gaps s));
     ("duplicate_sequences", JNumber (ct_duplicate_sequences s)); ("stale_sequences", JNumber (ct_stale_sequences s));
     ("intentionally_filtered", JNumber (ct_intentionally_filtered s)); ("logger_only_frames", JNumber (ct_logger_only_frames s));
     ("downstream_delivery_losses", JNumber (ct_downstream_delivery_losses s))]%string) <$> stats).

Definition unknown_market_ticker_samples_json (samples : list UnknownMarketTickerStats) : JsonTree :=
  JArray ((λ s, JObject
    [("market_ticker", JText (uk_market_ticker s)); ("frame_kind", JText (frame_kind_to_string (frame_kind_code (uk_frame_kind s))));
     ("frame_kind_code", JNumber (frame_kind_code (uk_frame_kind s))); ("sid", JNumber (uk_sid s));
     ("channel", JText (market_data_channel_to_string (uk_channel s))); ("channel_code", JNumber (uk_channel s))]%string) <$> samples).

Definition status_json (s : OperatorStatusSnapshot) : JsonTree := JObject
  [("lifecycle", JText (lifecycle_to_string (ost_lifecycle s))); ("trading_session_phase", JText (trading_session_phase_to_string (ost_trading_session_phase s)));
   ("trading_enabled", JBool (ost_trading_enabled s)); ("shutdown_requested", JBool (ost_shutdown_requested s))]%string.

Definition io_stats_json (s : IoCounterStats) : JsonTree := JObject
  [("io_connected", JBool (xi_io_connected s)); ("installed_universe_version", JNumber (xi_installed_universe_version s));
   ("subscribed_universe_version", JNumber (xi_subscribed_universe_version s)); ("frames_received", JNumber (xi_frames_received s));
   ("frames_published", JNumber (xi_frames_published s)); ("frames_dropped", JNumber (xi_frames_dropped s));
   ("oversized_frames", JNumber (xi_oversized_frames s)); ("pool_exhausted", JNumber (xi_pool_exhausted s));
   ("missing_frame_slot", JNumber (xi_missing_frame_slot s)); ("envelope_parse_failed", JNumber (xi_envelope_parse_failed s));
   ("envelope_missing_market_ticker", JNumber (xi_envelope_missing_market_ticker s));
   ("envelope_unsupported_type", JNumber (xi_envelope_unsupported_type s)); ("inactive_sid", JNumber (xi_inactive_sid s));
   ("unknown_market_ticker", JNumber (xi_unknown_market_ticker s)); ("unknown_market_ticker_samples", unknown_market_ticker_samples_json (xi_unknown_market_ticker_samples s));
   ("stamp_failed", JNumber (xi_stamp_failed s)); ("router_enqueue_failed", JNumber (xi_router_enqueue_failed s));
   ("logger_fallback_enqueued", JNumber (xi_logger_fallback_enqueued s)); ("logger_fallback_failed", JNumber (xi_logger_fallback_failed s));
   ("recycle_failures", JNumber (xi_recycle_failures s)); ("snapshot_requests_sent", JNumber (xi_snapshot_requests_sent s));
   ("snapshot_requests_accepted", JNumber (xi_snapshot_requests_accepted s)); ("snapshot_requests_failed", JNumber (xi_snapshot_requests_failed s));
   ("frame_pool_in_use_high_water", JNumber (xi_frame_pool_in_use_high_water s));
   ("router_queue_depth_high_water", JNumber (xi_router_queue_depth_high_water s)); ("channel_stats", channel_stats_json (xi_channel_stats s));
   ("last_error", JText (xi_last_error s))]%string.
Definition router_stats_json (s : RouterCounterStats) : JsonTree := JObject
  [("frames_seen", JNumber (xr_frames_seen s)); ("frames_to_shards", JNumber (xr_frames_to_shards s));
   ("frames_to_logger", JNumber (xr_frames_to_logger s)); ("frames_recycled", JNumber (xr_frames_recycled s));
   ("leaked_handles", JNumber (xr_leaked_handles s)); ("market_barriers_received", JNumber (xr_market_barriers_received s));
   ("market_barriers_delivered", JNumber (xr_market_barriers_delivered s));
   ("subscription_barriers_received", JNumber (xr_subscription_barriers_received s));
   ("subscription_barriers_delivered", JNumber (xr_subscription_barriers_delivered s)); ("barriers_deferred", JNumber (xr_barriers_deferred s));
   ("subscription_recovery_facts_deferred", JNumber (xr_subscription_recovery_facts_deferred s));
   ("shard_queue_depth_high_water", JNumber (xr_shard_queue_depth_high_water s)); ("channel_stats", channel_stats_json (xr_channel_stats s))]%string.
Definition logger_stats_json (s : LoggerCounterStats) : JsonTree := JObject
  [("output_file_path", JText (xl_output_file_path s)); ("records_written", JNumber (xl_records_written s));
   ("bytes_written", JNumber (xl_bytes_written s)); ("write_failures", JNumber (xl_write_failures s));
   ("recycle_failures", JNumber (xl_recycle_failures s))]%string.
Definition oms_stats_json (s : OmsCounterStats) : JsonTree := JObject
  [("trading_enabled", JBool (xo_trading_enabled s)); ("cancel_all_requested", JBool (xo_cancel_all_requested s));
   ("installed_universe_version", JNumber (xo_installed_universe_version s)); ("unknown_market_rejects", JNumber (xo_unknown_market_rejects s));
   ("non_tradeable_market_rejects", JNumber (xo_non_tradeable_market_rejects s));
   ("strategy_intents_received", JNumber (xo_strategy_intents_received s)); ("strategy_intents_processed", JNumber (xo_strategy_intents_processed s));
   ("strategy_intents_rejected", JNumber (xo_strategy_intents_rejected s)); ("kalshi_commands_sent", JNumber (xo_kalshi_commands_sent s));
   ("kalshi_commands_failed", JNumber (xo_kalshi_commands_failed s)); ("rest_responses_seen", JNumber (xo_rest_responses_seen s));
   ("private_ws_events_seen", JNumber (xo_private_ws_events_seen s)); ("reconciliation_events_seen", JNumber (xo_reconciliation_events_seen s));
   ("portfolio_reconciliations_requested", JNumber (xo_portfolio_reconciliations_requested s));
   ("portfolio_reconciliations_completed", JNumber (xo_portfolio_reconciliations_completed s));
   ("portfolio_reconciliations_failed", JNumber (xo_portfolio_reconciliations_failed s));
   ("duplicate_fills_ignored", JNumber (xo_duplicate_fills_ignored s)); ("venue_position_updates_seen", JNumber (xo_venue_position_updates_seen s));
   ("venue_available_balance_ticks", JNumber (xo_venue_available_balance_ticks s)); ("portfolio_reconciled", JBool (xo_portfolio_reconciled s));
   ("order_state_updates_sent", JNumber (xo_order_state_updates_sent s));
   ("strategy_response_backpressure", JNumber (xo_strategy_response_backpressure s));
   ("execution_incidents_latched", JNumber (xo_execution_incidents_latched s)); ("group_repair_attempts", JNumber (xo_group_repair_attempts s));
   ("group_repair_commands_sent", JNumber (xo_group_repair_commands_sent s)); ("group_repairs_completed", JNumber (xo_group_repairs_completed s));
   ("group_repairs_failed", JNumber (xo_group_repairs_failed s)); ("execution_incident_active", JBool (xo_execution_incident_active s));
   ("live_orders", JNumber (xo_live_orders s)); ("pending_submit_orders", JNumber (xo_pending_submit_orders s));
   ("uncertain_orders", JNumber (xo_uncertain_orders s)); ("last_error", JText (xo_last_error s))]%string.
Definition private_order_feed_stats_json (s : PrivateOrderFeedCounterStats) : JsonTree := JObject
  [("connected", JBool (xf_connected s)); ("installed_universe_version", JNumber (xf_installed_universe_version s));
   ("subscribed_universe_version", JNumber (xf_subscribed_universe_version s)); ("messages_received", JNumber (xf_messages_received s));
   ("messages_decoded", JNumber (xf_messages_decoded s)); ("messages_dropped", JNumber (xf_messages_dropped s));
   ("parse_failures", JNumber (xf_parse_failures s)); ("oms_enqueue_failures", JNumber (xf_oms_enqueue_failures s));
   ("reconnects", JNumber (xf_reconnects s)); ("last_error", JText (xf_last_error s))]%string.
Definition order_rest_stats_json (s : OrderRestCounterStats) : JsonTree := JObject
  [("enabled", JBool (xe_enabled s)); ("installed_universe_version", JNumber (xe_installed_universe_version s));
   ("commands_received", JNumber (xe_commands_received s)); ("requests_sent", JNumber (xe_requests_sent s));
   ("responses_received", JNumber (xe_responses_received s)); ("requests_failed", JNumber (xe_requests_failed s));
   ("retry_count", JNumber (xe_retry_count s)); ("oms_enqueue_failures", JNumber (xe_oms_enqueue_failures s));
   ("last_portfolio_reconciliation_error", JText (xe_last_portfolio_reconciliation_error s)); ("last_error", JText (xe_last_error s))]%string.
Definition recovery_stats_json (s : RecoveryTelemetrySnapshot) : JsonTree := JObject
  [("incidents_created", JNumber (rv_incidents_created s)); ("incidents_deduplicated", JNumber (rv_incidents_deduplicated s));
   ("markets_already_recovering", JNumber (rv_markets_already_recovering s)); ("observations_rejected", JNumber (rv_observations_rejected s));
   ("markets_scheduled", JNumber (rv_markets_scheduled s)); ("requests_enqueued", JNumber (rv_requests_enqueued s));
   ("request_enqueue_failures", JNumber (rv_request_enqueue_failures s)); ("requests_accepted", JNumber (rv_requests_accepted s));
   ("request_failures", JNumber (rv_request_failures s)); ("retries_scheduled", JNumber (rv_retries_scheduled s));
   ("request_ack_timeouts", JNumber (rv_request_ack_timeouts s)); ("snapshot_timeouts", JNumber (rv_snapshot_timeouts s));
   ("markets_recovered", JNumber (rv_markets_recovered s)); ("markets_failed", JNumber (rv_markets_failed s));
   ("incidents_completed", JNumber (rv_incidents_completed s)); ("incidents_superseded", JNumber (rv_incidents_superseded s));
   ("markets_superseded", JNumber (rv_markets_superseded s)); ("active_incidents", JNumber (rv_active_incidents s));
   ("active_markets", JNumber (rv_active_markets s)); ("recovery_duration_samples", JNumber (rv_recovery_duration_samples s));
   ("recovery_duration_total_ns", JNumber (rv_recovery_duration_total_ns s)); ("recovery_duration_max_ns", JNumber (rv_recovery_duration_max_ns s))]%string.
Definition shard_stat_json (s : ShardCounterStats) : JsonTree := JObject
  [("shard_index", JNumber (xs_shard_index s)); ("frames_seen", JNumber (xs_frames_seen s)); ("frames_applied", JNumber (xs_frames_applied s));
   ("parse_rejects", JNumber (xs_parse_rejects s)); ("event_rejects", JNumber (xs_event_rejects s)); ("event_desyncs", JNumber (xs_event_desyncs s));
   ("frames_to_logger", JNumber (xs_frames_to_logger s)); ("frames_recycled", JNumber (xs_frames_recycled s));
   ("leaked_handles", JNumber (xs_leaked_handles s)); ("missed_frames_to_logger", JNumber (xs_missed_frames_to_logger s));
   ("event_ignored", JNumber (xs_event_ignored s)); ("market_barriers_seen", JNumber (xs_market_barriers_seen s));
   ("subscription_barriers_seen", JNumber (xs_subscription_barriers_seen s)); ("barrier_rejects", JNumber (xs_barrier_rejects s));
   ("markets_became_unusable", JNumber (xs_markets_became_unusable s)); ("markets_recovery_required", JNumber (xs_markets_recovery_required s));
   ("markets_already_awaiting_recovery", JNumber (xs_markets_already_awaiting_recovery s))]%string.

Definition shard_latency_json (s : ShardCounterStats) : JsonTree := JObject
  [("shard_index", JNumber (xs_shard_index s)); ("router_to_shard", channel_latency_json (xs_router_to_shard_latency s));
   ("shard_service", channel_latency_json (xs_shard_service_latency s)); ("ingress_to_shard", channel_latency_json (xs_ingress_to_shard_latency s));
   ("ingress_to_book_apply", channel_latency_json (xs_ingress_to_book_apply_latency s))]%string.
Definition shards_aggregate_json (shards : list ShardCounterStats) : JsonTree := JObject
  [("router_to_shard", channel_latency_json (aggregate_latency xs_router_to_shard_latency shards));
   ("shard_service", channel_latency_json (aggregate_latency xs_shard_service_latency shards));
   ("ingress_to_shard", channel_latency_json (aggregate_latency xs_ingress_to_shard_latency shards));
   ("ingress_to_book_apply", channel_latency_json (aggregate_latency xs_ingress_to_book_apply_latency shards))]%string.

Definition latency_stats_json (p : OperatorCounterStatsSnapshot) : JsonTree := JObject
  [("clock", JText "steady_clock"); ("units", JText "nanoseconds"); ("logger_write_semantics", JText "ostream_write_completed_not_fsync");
   ("io", JObject [("wire_service", channel_latency_json (xi_wire_service_latency (xc_io_stats p)))]);
   ("router", JObject [("wire_to_router", channel_latency_json (xr_wire_to_router_latency (xc_router_stats p)));
                       ("router_service", channel_latency_json (xr_router_service_latency (xc_router_stats p)))]);
   ("shards", JArray (shard_latency_json <$> xc_shard_stats p)); ("shards_aggregate", shards_aggregate_json (xc_shard_stats p));
   ("logger", JObject [("shard_to_logger", channel_latency_json (xl_shard_to_logger_latency (xc_logger_stats p)));
                       ("ingress_to_logger_write", channel_latency_json (xl_ingress_to_logger_write_latency (xc_logger_stats p)))]);
   ("recovery_total", latency_histogram_json (rv_recovery_duration_latency (xc_recovery_stats p)))]%string.

Definition counter_stats_json (p : OperatorCounterStatsSnapshot) : JsonTree := JObject
  [("status_snapshot", status_json (xc_status_snapshot p)); ("io_stats", io_stats_json (xc_io_stats p)); ("router_stats", router_stats_json (xc_router_stats p));
   ("shard_stats", JArray (shard_stat_json <$> xc_shard_stats p)); ("logger_stats", logger_stats_json (xc_logger_stats p));
   ("oms_stats", oms_stats_json (xc_oms_stats p)); ("private_order_feed_stats", private_order_feed_stats_json (xc_private_order_feed_stats p));
   ("order_rest_stats", order_rest_stats_json (xc_order_rest_stats p)); ("recovery_stats", recovery_stats_json (xc_recovery_stats p));
   ("latency_stats", latency_stats_json p)]%string.

(** ** Responses *)

Definition payload_json (payload : OperatorResponsePayload) : JsonTree :=
  match payload with
  | AckPayload => JObject [("message"%string, JText "ack")]
  | ErrorPayload message => JObject [("message"%string, JText message)]
  | StatusPayload s => status_json s
  | CounterStatsPayload s => counter_stats_json s
  end.
Definition to_json (response : OperatorResponse) : JsonTree := JObject
  [("request_id", JText (pretty (Z.to_N (on_request_id response)))); ("type", JText (response_type_to_string (on_type response)));
   ("ok", JBool (negb (bool_decide (on_type response = kERROR)))); ("payload", payload_json (on_payload response))]%string.

(** ** The latencies of all shards *)

(** Channel [index] of the samples of a shard. *)
Definition recorded_channels (samples : nat → list Z) : list LatencyHistogram := (λ index, recorded (samples index)) <$> seq 0 kMarketDataChannelCount.

Lemma merge_recorded xs ys : samples_ok xs → samples_ok ys → merge (recorded xs) (recorded ys) = recorded (xs ++ ys).
Proof. intros Hx Hy. rewrite !recorded_spec by first [done | by apply Forall_app]. by apply spec_app. Qed.

(** The histograms shown for all shards together are those of all their samples: if every shard
    has recorded its samples, so that its counters hold their histogram, then the aggregate of
    a channel is the histogram of the samples of all shards, and with it count, mean and
    percentiles. *)
Theorem aggregate_is_of_all_samples field shards (samples : ShardCounterStats → nat → list Z) :
  Forall (λ shard, field shard = recorded_channels (samples shard) ∧ ∀ index, samples_ok (samples shard index)) shards →
  aggregate_latency field shards = recorded_channels (λ index, shards ≫= λ shard, samples shard index).
Proof.
  intros Hs. unfold aggregate_latency. change (replicate kMarketDataChannelCount empty_histogram) with (recorded_channels (λ _, [])).
  assert (∀ seen : nat → list Z, (∀ index, samples_ok (seen index)) →
    foldl (λ aggregate shard, merge_channels aggregate (field shard)) (recorded_channels seen) shards =
      recorded_channels (λ index, seen index ++ (shards ≫= λ shard, samples shard index))) as H.
  2: { apply H. intros index. constructor. }
  induction Hs as [|shard shards [Hf Hok] _ IH]; intros seen Hseen; cbn [foldl].
  - unfold recorded_channels. apply list_fmap_ext. intros i index _. cbn. by rewrite app_nil_r.
  - rewrite Hf. replace (merge_channels (recorded_channels seen) (recorded_channels (samples shard))) with (recorded_channels (λ index, seen index ++ samples shard index)).
    + rewrite IH by (intros index; apply Forall_app; split; [apply Hseen|apply Hok]). unfold recorded_channels. apply list_fmap_ext. intros i index _. cbn. by rewrite app_assoc.
    + unfold merge_channels, recorded_channels. cbn. by rewrite !merge_recorded by auto.
Qed.
End OperatorJson.
