(* ===== verification/Tape.v ===== *)
(** * Tape: the format of the market-data tape, and its reader

    The record header of [cpp/include/predex/logging/market_data_logger.hpp] as the bytes that
    the logger writes (64 of them, little endian and without padding), and the reader of tapes,
    [python/src/predex/replay/market_data_tape.py].  Bytes are integers from 0 to 255.  Reading
    gives the records that could be read and how it ended; its fuel is the number of bytes,
    each record takes at least 64. *)

From S2P Require Import Prelude MarketTypes FramePool OperatorJson.
Open Scope Z_scope.

Module Tape.
Import Pool OperatorJson(frame_kind_code).

(** ** Bytes *)

(** The [size] bytes of an integer, the lowest first. *)
Fixpoint to_bytes (size : nat) (z : Z) : list Z :=
  match size with O => [] | S size => z mod 256 :: to_bytes size (z / 256) end.
Fixpoint of_bytes (bytes : list Z) : Z :=
  match bytes with [] => 0 | b :: bytes => b + 256 * of_bytes bytes end.
Fixpoint pack (sizes : list nat) (values : list Z) : list Z :=
  match sizes, values with size :: sizes, z :: values => to_bytes size z ++ pack sizes values | _, _ => [] end.
(** [struct.Struct.unpack] *)
Fixpoint unpack (sizes : list nat) (bytes : list Z) : list Z :=
  match sizes with [] => [] | size :: sizes => of_bytes (take size bytes) :: unpack sizes (drop size bytes) end.

Lemma length_to_bytes size z : length (to_bytes size z) = size.
Proof. revert z. induction size as [|size IH]; intros z; [done|]. cbn. by rewrite IH. Qed.
Lemma of_to_bytes size z : 0 ≤ z < 256 ^ Z.of_nat size → of_bytes (to_bytes size z) = z.
Proof.
  revert z. induction size as [|size IH]; intros z Hz; [cbn in *; lia|]. cbn [to_bytes of_bytes]. rewrite Nat2Z.inj_succ, Z.pow_succ_r in Hz by lia.
  rewrite IH; [pose proof (Z.div_mod z 256); lia|]. split; [apply Z.div_pos; lia|]. apply Z.div_lt_upper_bound; lia.
Qed.
Lemma length_pack sizes values : length sizes = length values → length (pack sizes values) = sum_list sizes.
Proof.
  revert values. induction sizes as [|size sizes IH]; intros [|z values]; try done. cbn. intros [= E]. by rewrite length_app, length_to_bytes, IH.
Qed.
Lemma unpack_pack sizes values rest : Forall2 (λ size z, 0 ≤ z < 256 ^ Z.of_nat size) sizes values → unpack sizes (pack sizes values ++ rest) = values.
Proof.
  intros H. induction H as [|size z sizes values Hz _ IH]; [done|]. cbn [unpack pack]. rewrite <- app_assoc.
  rewrite take_app_length', drop_app_length' by (by rewrite length_to_bytes). by rewrite of_to_bytes, IH.
Qed.

(** ** The format *)

Definition kTAPEMAGIC : list Z := [80; 68; 84; 50].
Definition kTAPEVERSION : Z := 2.
Definition kTAPEFLAGS : Z := 0.
Definition file_header : list Z := kTAPEMAGIC ++ to_bytes 2 kTAPEVERSION ++ to_bytes 2 kTAPEFLAGS.

Record MarketDataTapeRecordHeader := mkMarketDataTapeRecordHeader {
  tp_universe_version : Z;
  tp_recv_ts_ns : Z;
  tp_sequence : Z;
  tp_affinity_key : Z;
  tp_sid : Z;
  tp_market_id : Z;
  tp_event_id : Z;
  tp_shard_index : Z;
  tp_shard_event_index : Z;
  tp_event_market_index : Z;
  tp_payload_len : Z;
  tp_frame_kind : Z;
  tp_topology : Z;
  tp_flags : Z;
}.

(** The sizes of the members; there is no padding between them. *)
Definition record_sizes : list nat := [8; 8; 8; 8; 4; 4; 4; 4; 4; 4; 4; 1; 1; 2]%nat.
Definition record_values (h : MarketDataTapeRecordHeader) : list Z :=
  [tp_universe_version h; tp_recv_ts_ns h; tp_sequence h; tp_affinity_key h; tp_sid h; tp_market_id h; tp_event_id h; tp_shard_index h;
   tp_shard_event_index h; tp_event_market_index h; tp_payload_len h; tp_frame_kind h; tp_topology h; tp_flags h].
Definition header_bytes (h : MarketDataTapeRecordHeader) : list Z := pack record_sizes (record_values h).

(** [static_cast<std::uint16_t>] *)
Definition u16 (z : Z) : Z := z mod 65536.
Definition topology_code (topology : EventTopology) : Z :=
  match topology with kTOPOLOGY_UNKNOWN => 0 | kMONOTONIC_CHAIN => 1 | kMUTUALLY_EXCLUSIVE => 3 | kUNORDERED_GROUP => 4 | kSINGLE_MARKET => 5 end.
Definition record_header (handle : FrameHandle) (f : KalshiFrame) : MarketDataTapeRecordHeader :=
  mkMarketDataTapeRecordHeader (fh_universe_version handle) (fr_recv_ts_ns f) (fh_sequence handle) (fh_affinity_key handle) (fh_sid handle) (fh_market_id handle)
    (fh_event_id handle) (fh_shard_index handle) (fh_shard_event_index handle) (fh_event_market_index handle) (fr_len f)
    (frame_kind_code (fh_kind handle)) (topology_code (fh_topology handle)) (u16 (fr_flags f)).

(** ** The reader *)

Record MarketDataTapeRecord := mkMarketDataTapeRecord { tr_record_index : nat; tr_header : MarketDataTapeRecordHeader; tr_payload : list Z }.
Inductive TapeEnd := | TapeEnds | TapeError (error : string) (index : nat).

(** [MarketDataRecordHeader] of the unpacked values. *)
Definition header_of_values (values : list Z) : MarketDataTapeRecordHeader :=
  let at_ (i : nat) := default 0 (values !! i) in
  mkMarketDataTapeRecordHeader (at_ 0%nat) (at_ 1%nat) (at_ 2%nat) (at_ 3%nat) (at_ 4%nat) (at_ 5%nat) (at_ 6%nat) (at_ 7%nat) (at_ 8%nat) (at_ 9%nat) (at_ 10%nat) (at_ 11%nat) (at_ 12%nat) (at_ 13%nat).
Definition kRECORD_SIZE : nat := 64.

Fixpoint read_records (fuel : nat) (index : nat) (bytes : list Z) : list MarketDataTapeRecord * TapeEnd :=
  match fuel with
  | O => ([], TapeEnds)
  | S fuel =>
      let raw := take kRECORD_SIZE bytes in
      if (length raw =? 0)%nat then ([], TapeEnds)
      else if negb (length raw =? kRECORD_SIZE)%nat then ([], TapeError "tape ended mid-record header" index)
      else
        let header := header_of_values (unpack record_sizes raw) in
        let rest := drop kRECORD_SIZE bytes in
        let payload := take (Z.to_nat (tp_payload_len header)) rest in
        if negb (Z.of_nat (length payload) =? tp_payload_len header) then ([], TapeError "tape ended mid-record payload" index)
        else
          let '(records, tape_end) := read_records fuel (S index) (drop (Z.to_nat (tp_payload_len header)) rest) in
          (mkMarketDataTapeRecord index header payload :: records, tape_end)
  end.

Definition iter_market_data_records (bytes : list Z) : list MarketDataTapeRecord * TapeEnd :=
  let raw := take 8 bytes in
  if (length raw =? 0)%nat then ([], TapeEnds)
  else if negb (length raw =? 8)%nat then ([], TapeError "tape ended mid-file header" 0)
  else if negb (bool_decide (take 4 raw = kTAPEMAGIC)) then ([], TapeError "unsupported tape magic" 0)
  else if negb (of_bytes (take 2 (drop 4 raw)) =? kTAPEVERSION) then ([], TapeError "unsupported tape version" 0)
  else read_records (S (length bytes)) 0 (drop 8 bytes).

(** ** What is written is read *)

(** A header and the bytes of its frame. *)
Abbreviation Entry := (MarketDataTapeRecordHeader * list Z)%type.
Definition record_bytes (e : Entry) : list Z := header_bytes e.1 ++ e.2.
Definition header_typed (h : MarketDataTapeRecordHeader) : Prop := Forall2 (λ size z, 0 ≤ z < 256 ^ Z.of_nat size) record_sizes (record_values h).
Definition entry_ok (e : Entry) : Prop := header_typed e.1 ∧ Z.of_nat (length e.2) = tp_payload_len e.1.
Definition indexed (index : nat) (l : list Entry) : list MarketDataTapeRecord := imap (λ k e, mkMarketDataTapeRecord (index + k) e.1 e.2) l.

Lemma length_header_bytes h : length (header_bytes h) = kRECORD_SIZE.
Proof. unfold header_bytes. by rewrite length_pack. Qed.
Lemma header_of_record h : header_of_values (record_values h) = h.
Proof. by destruct h. Qed.
Lemma unpack_header h : header_typed h → header_of_values (unpack record_sizes (header_bytes h)) = h.
Proof.
  intros Ht. unfold header_bytes. rewrite <- (app_nil_r (pack _ _)), unpack_pack by done. apply header_of_record.
Qed.
Lemma indexed_cons index e l : indexed index (e :: l) = mkMarketDataTapeRecord index e.1 e.2 :: indexed (S index) l.
Proof.
  unfold indexed. cbn. f_equal; [f_equal; lia|]. apply imap_ext. intros k x _. cbn. f_equal. lia.
Qed.

Lemma read_one fuel index e rest : entry_ok e →
  read_records (S fuel) index (record_bytes e ++ rest) =
    let '(records, tape_end) := read_records fuel (S index) rest in (mkMarketDataTapeRecord index e.1 e.2 :: records, tape_end).
Proof.
  intros [Ht Hl]. unfold record_bytes. rewrite <- app_assoc. cbn [read_records]. rewrite take_app_length', drop_app_length' by (by rewrite length_header_bytes).
  rewrite length_header_bytes, Nat.eqb_refl. cbn [negb Nat.eqb kRECORD_SIZE]. rewrite unpack_header by done.
  rewrite <- Hl, Nat2Z.id, take_app_length, drop_app_length, Z.eqb_refl. done.
Qed.
(** A record that was cut off is noticed. *)
Lemma read_cut fuel index e k : entry_ok e → (0 < k < length (record_bytes e))%nat → ∃ error, read_records (S fuel) index (take k (record_bytes e)) = ([], TapeError error index).
Proof.
  intros [Ht Hl] [Hk1 Hk2]. cbn [read_records]. rewrite take_take. unfold record_bytes in *. rewrite length_app, length_header_bytes in Hk2.
  destruct (decide (k < kRECORD_SIZE)%nat) as [Hlt|Hge].
  - rewrite Nat.min_r by lia. rewrite length_take, length_app, length_header_bytes, Nat.min_l by lia.
    rewrite (proj2 (Nat.eqb_neq _ _)), (proj2 (Nat.eqb_neq k _)) by lia. eauto.
  - rewrite Nat.min_l by lia. rewrite take_app_length' by (by rewrite length_header_bytes). rewrite length_header_bytes, Nat.eqb_refl. cbn [negb Nat.eqb kRECORD_SIZE].
    rewrite unpack_header by done. rewrite <- Hl. rewrite (proj2 (Z.eqb_neq _ _)); [eauto|]. rewrite length_take, length_drop, length_take, length_app, length_header_bytes, Nat2Z.id. unfold kRECORD_SIZE in *. lia.
Qed.
Lemma read_written fuel index l rest : Forall entry_ok l →
  read_records (length l + fuel) index ((l ≫= record_bytes) ++ rest) =
    ((indexed index l ++ (read_records fuel (index + length l) rest).1), (read_records fuel (index + length l) rest).2).
Proof.
  intros H. revert index. induction H as [|e l He _ IH]; intros index; cbn [length Nat.add mbind list_bind app].
  { rewrite Nat.add_0_r. by destruct (read_records _ _ _). }
  rewrite <- app_assoc, read_one, IH, indexed_cons, Nat.add_succ_r by done. done.
Qed.

Lemma read_file_header rest : iter_market_data_records (file_header ++ rest) = read_records (S (8 + length rest)) 0 rest.
Proof. unfold iter_market_data_records. change (drop 8 (file_header ++ rest)) with rest. done. Qed.
Lemma length_records l : Forall entry_ok l → (64 * length l ≤ length (l ≫= record_bytes))%nat.
Proof. intros H. induction H as [|e l [_ _] _ IH]; [done|]. cbn [mbind list_bind length]. unfold record_bytes at 1. rewrite !length_app, length_header_bytes. unfold kRECORD_SIZE. change (list_bind _ _ record_bytes l) with (l ≫= record_bytes). lia. Qed.
(** Reading a whole tape needs no more fuel than it has. *)
Lemma read_tape l rest : Forall entry_ok l → ∃ fuel, (length rest ≤ fuel)%nat ∧
  iter_market_data_records (file_header ++ (l ≫= record_bytes) ++ rest) = (indexed 0 l ++ (read_records (S fuel) (length l) rest).1, (read_records (S fuel) (length l) rest).2).
Proof.
  intros H. rewrite read_file_header, length_app. pose proof (length_records l H) as Hl. exists (8 + length (l ≫= record_bytes) + length rest - length l)%nat. split; [lia|].
  replace (S _) with (length l + S (8 + length (l ≫= record_bytes) + length rest - length l))%nat by lia. by rewrite read_written.
Qed.
End Tape.
