(* ===== verification/Logger.v ===== *)
(** * Logger: the market-data logger

    Models [cpp/include/predex/logging/market_data_logger.hpp]: the logger takes frames from the
    shards' queues in turn, appends a record for each to the tape and hands the frame back.  The
    tape is the bytes given to the output stream so far.  What a write does is a parameter: the
    [n]-th succeeds or stores some bytes and fails, and as the stream stays failed no later one
    stores anything.  The pool of frames belongs to the wire session; between two pumps other
    threads change it and fill the queues. *)

From S2P Require Import Prelude Spsc LatencyHistogram MarketTypes FramePool ShardTypes ControlPlaneTypes OperatorJson Tape.
Open Scope Z_scope.

Module Logger.
Import Pool Tape.

Definition kLOGGER_TELEMETRY_INTERVAL : Z := 250000000.

Section Logger.
Context {Q : Type → Type} `{HQ : !PushQueue Q}.
Variable clk : nat → Z.
(** What the [n]-th write to the file does: [None] succeeds, [Some k] stores [k] bytes and fails. *)
Variable write_outcome : nat → option nat.

Record LoggerState := mkLoggerState {
  lg_input_queues : list (option (list (option FrameHandle)));
  lg_frame_pool : FramePool;
  lg_recycle_queue : Q FrameHandle;
  lg_logger_to_control_status_queue : option (Q LoggerToControlStatus);
  lg_output_file_path : string;
  lg_tape : list Z;
  lg_failed : bool;
  lg_writes : nat;
  lg_logged_count : Z;
  lg_bytes_written : Z;
  lg_recycle_failed_count : Z;
  lg_write_failed_count : Z;
  lg_shard_to_logger_latency : list Histogram.LatencyHistogram;
  lg_ingress_to_logger_write_latency : list Histogram.LatencyHistogram;
  lg_fault_reported : bool;
  lg_next_input_queue : nat;
  lg_next_telemetry_send : Z;
  lg_clock_reads : nat;
}.
#[export] Instance eta_LoggerState : Eta LoggerState := λ r,
  mkLoggerState (lg_input_queues r) (lg_frame_pool r) (lg_recycle_queue r) (lg_logger_to_control_status_queue r) (lg_output_file_path r) (lg_tape r)
    (lg_failed r) (lg_writes r) (lg_logged_count r) (lg_bytes_written r) (lg_recycle_failed_count r) (lg_write_failed_count r)
    (lg_shard_to_logger_latency r) (lg_ingress_to_logger_write_latency r) (lg_fault_reported r) (lg_next_input_queue r) (lg_next_telemetry_send r)
    (lg_clock_reads r).

(** [std::ofstream::write] *)
Definition stream_write (bytes : list Z) : M LoggerState unit := λ s,
  if lg_failed s then (tt, s)
  else
    match write_outcome (lg_writes s) with
    | None => (tt, s ⟪ lg_tape ::= λ t, t ++ bytes ⟫ ⟪ lg_writes ::= S ⟫)
    | Some k => (tt, s ⟪ lg_tape ::= λ t, t ++ take k bytes ⟫ ⟪ lg_failed := true ⟫ ⟪ lg_writes ::= S ⟫)
    end.

Definition logger_now : M LoggerState Z := λ s, (clk (lg_clock_reads s), s ⟪ lg_clock_reads ::= S ⟫).

Definition push_control_status (status : LoggerToControlStatus) : M LoggerState bool := λ s,
  match lg_logger_to_control_status_queue s with
  | None => (false, s)
  | Some q => let '(b, q) := q_push status q in (b, s ⟪ lg_logger_to_control_status_queue := Some q ⟫)
  end.

Definition report_fault_once (error_message : string) : M LoggerState unit :=
  reported ← gets lg_fault_reported;
  if reported : bool then mret tt
  else
    modify (λ s, s ⟪ lg_fault_reported := true ⟫);;
    _ ← push_control_status (LgFaulted error_message);
    mret tt.

Definition telemetry (s : LoggerState) : LoggerTelemetrySnapshot :=
  mkLoggerTelemetrySnapshot (lg_logged_count s) (lg_bytes_written s) (lg_write_failed_count s) (lg_recycle_failed_count s)
    (lg_shard_to_logger_latency s) (lg_ingress_to_logger_write_latency s).
Definition maybe_send_telemetry : M LoggerState unit :=
  now ← logger_now;
  next ← gets lg_next_telemetry_send;
  if now <? next then mret tt
  else
    snapshot ← gets telemetry;
    _ ← push_control_status (LgTelemetry snapshot);
    modify (λ s, s ⟪ lg_next_telemetry_send := now + kLOGGER_TELEMETRY_INTERVAL ⟫).

(** A frame is handed back, or lost and counted. *)
Definition hand_back (handle : FrameHandle) : M LoggerState unit := λ s,
  let '(pushed, q) := q_push handle (lg_recycle_queue s) in
  let s := s ⟪ lg_recycle_queue := q ⟫ in
  (tt, if pushed : bool then s else s ⟪ lg_recycle_failed_count ::= λ n, u64 (n + 1) ⟫).

Definition record_latency (handle : FrameHandle) (now : Z) (s : LoggerState) : LoggerState :=
  let channel_index := market_data_channel_index (fh_kind handle) in
  if (channel_index <? kMarketDataChannelCount)%nat
  then s ⟪ lg_ingress_to_logger_write_latency ::= alter (λ h, Histogram.record_elapsed_ns h (fh_ingress_ts_ns handle) now) channel_index ⟫
         ⟪ lg_shard_to_logger_latency ::= alter (λ h, Histogram.record_elapsed_ns h (fh_shard_publish_ts_ns handle) now) channel_index ⟫
  else s.

(** Whether a record was written. *)
Definition log_handle (handle : FrameHandle) : M LoggerState bool :=
  pool ← gets lg_frame_pool;
  match frame pool handle with
  | None => hand_back handle;; mret false
  | Some f =>
      if Z.of_nat kMaxFrameBytes <? fr_len f then
        modify (λ s, s ⟪ lg_write_failed_count ::= λ n, u64 (n + 1) ⟫);;
        hand_back handle;;
        mret false
      else
        stream_write (header_bytes (record_header handle f));;
        stream_write (take (Z.to_nat (fr_len f)) (fr_payload f));;
        failed ← gets lg_failed;
        if failed : bool then
          modify (λ s, s ⟪ lg_write_failed_count ::= λ n, u64 (n + 1) ⟫);;
          report_fault_once "Failed to write market data tape record";;
          hand_back handle;;
          mret false
        else
          modify (λ s, s ⟪ lg_logged_count ::= λ n, u64 (n + 1) ⟫ ⟪ lg_bytes_written ::= λ n, u64 (n + (Z.of_nat kRECORD_SIZE + fr_len f)) ⟫);;
          now ← logger_now;
          modify (record_latency handle now);;
          hand_back handle;;
          mret true
  end.

(** The queue whose turn it is; [None]: a null pointer, or nothing in the queue. *)
Definition pop_input : M LoggerState (option FrameHandle) := λ s,
  match lg_input_queues s !! lg_next_input_queue s with
  | Some (Some (handle :: q)) => (handle, s ⟪ lg_input_queues ::= <[lg_next_input_queue s := Some q]> ⟫)
  | _ => (None, s)
  end.
Definition next_queue : M LoggerState unit :=
  modify (λ s, s ⟪ lg_next_input_queue := ((lg_next_input_queue s + 1) mod length (lg_input_queues s))%nat ⟫).

Fixpoint pump_loop (max_batch_size : nat) (logged : Z) : M LoggerState Z :=
  match max_batch_size with
  | O => mret logged
  | S n =>
      queues ← gets lg_input_queues;
      match queues with
      | [] => mret logged
      | _ =>
          handle ← pop_input;
          written ← (match handle with Some handle => log_handle handle | None => mret false end);
          next_queue;;
          pump_loop n (if written : bool then logged + 1 else logged)
      end
  end.

Definition pump (max_batch_size : nat) : M LoggerState Z :=
  logged ← pump_loop max_batch_size 0;
  maybe_send_telemetry;;
  mret logged.

(** The constructor; [None] is the exception it throws.  [opened]: the directories could be made
    and the file opened; [flushed]: the flush did not fail. *)
Definition make_logger (input_queues : list (option (list (option FrameHandle)))) (pool : FramePool) (recycle_queue : Q FrameHandle)
    (status_queue : option (Q LoggerToControlStatus)) (output_file_path : string) (opened flushed : bool) : option LoggerState :=
  if negb opened then None
  else
    let s := mkLoggerState input_queues pool recycle_queue status_queue output_file_path [] false 0 0 0 0 0 channel_latency channel_latency false 0
               (clk 0 + kLOGGER_TELEMETRY_INTERVAL) 1 in
    let s := (stream_write kTAPEMAGIC s).2 in
    let s := (stream_write (to_bytes 2 kTAPEVERSION) s).2 in
    let s := (stream_write (to_bytes 2 kTAPEFLAGS) s).2 ⟪ lg_bytes_written := 8 ⟫ in
    if lg_failed s || negb flushed then None
    else Some (push_control_status (LgStarted output_file_path) s).2.
End Logger.
End Logger.
