(* ===== verification/LoggerTape.v ===== *)
(** * LoggerTape: the tape holds what the logger was given

    Every frame the logger takes is written as one record, in order, and handed back; what it
    has written is what the reader of tapes reads.  After the first write that fails nothing is
    written any more.

    At the end, Module [LoggerDemo]: a tape of two records, for the witness. *)

From S2P Require Import Prelude Spsc LatencyHistogram MarketTypes FramePool ShardTypes ControlPlaneTypes OperatorJson Tape Logger.
Open Scope Z_scope.

Module LoggerTape.
Import Pool Tape Logger.

(** ** What is due *)

Abbreviation Inputs := (list (option (list (option FrameHandle)))).
(** The handles [n] turns take, and the queues after them. *)
Fixpoint turns (n : nat) (next : nat) (queues : Inputs) : list FrameHandle * nat * Inputs :=
  match n, queues with
  | O, _ | _, [] => ([], next, queues)
  | S n, _ =>
      let next' := ((next + 1) mod length queues)%nat in
      match queues !! next with
      | Some (Some (handle :: q)) =>
          let '(handles, next'', queues') := turns n next' (<[next := Some q]> queues) in
          (match handle with Some handle => handle :: handles | None => handles end, next'', queues')
      | _ => turns n next' queues
      end
  end.
Lemma turns_S n next queues : queues ≠ [] → turns (S n) next queues =
  match queues !! next with
  | Some (Some (handle :: q)) =>
      (match handle with Some handle => [handle] | None => [] end ++ (turns n ((next + 1) mod length queues)%nat (<[next := Some q]> queues)).1.1,
       (turns n ((next + 1) mod length queues)%nat (<[next := Some q]> queues)).1.2, (turns n ((next + 1) mod length queues)%nat (<[next := Some q]> queues)).2)
  | _ => turns n ((next + 1) mod length queues)%nat queues
  end.
Proof.
  destruct queues as [|q0 queues]; [done|]. intros _. cbn [turns]. destruct ((q0 :: queues) !! next) as [[[|handle q]|]|]; try done. destruct (turns n _ _) as [[handles next'] queues']. by destruct handle.
Qed.
(** The record of a frame; none is due if the frame is gone or too long. *)
Definition entry (pool : FramePool) (handle : FrameHandle) : option Entry :=
  match frame pool handle with
  | Some f => if Z.of_nat kMaxFrameBytes <? fr_len f then None else Some (record_header handle f, take (Z.to_nat (fr_len f)) (fr_payload f))
  | None => None
  end.
Definition entries (pool : FramePool) (handles : list FrameHandle) : list Entry := omap (entry pool) handles.

Section LoggerTape.
Context {Q : Type → Type} `{HQ : PushQueue Q} {HL : PushQueueLaws Q}.
Variable clk : nat → Z.
Variable write_outcome : nat → option nat.
Implicit Types s : LoggerState (Q := Q).

(** ** A step *)

Definition size (l : list Entry) : Z := Z.of_nat (length (l ≫= record_bytes)).

(** The entries were written; or one of them was cut off, and those after it left out; or writing
    had failed before. *)
Inductive wrote (l : list Entry) s s' : Prop :=
  | wrote_all : lg_failed s = false → lg_failed s' = false → lg_tape s' = lg_tape s ++ (l ≫= record_bytes) →
      lg_logged_count s' = u64 (lg_logged_count s + Z.of_nat (length l)) → lg_bytes_written s' = u64 (lg_bytes_written s + size l) → wrote l s s'
  | wrote_part written e later k : lg_failed s = false → lg_failed s' = true → l = written ++ e :: later → lg_tape s' = lg_tape s ++ (written ≫= record_bytes) ++ take k (record_bytes e) →
      lg_logged_count s' = u64 (lg_logged_count s + Z.of_nat (length written)) → lg_bytes_written s' = u64 (lg_bytes_written s + size written) → wrote l s s'
  | wrote_none : lg_failed s = true → lg_failed s' = true → lg_tape s' = lg_tape s →
      lg_logged_count s' = lg_logged_count s → lg_bytes_written s' = lg_bytes_written s → wrote l s s'.

(** Each handle was handed back, or lost and counted. *)
Definition recycled (handles : list FrameHandle) s s' : Prop := ∃ kept, kept `sublist_of` handles ∧
  q_sent (lg_recycle_queue s') = q_sent (lg_recycle_queue s) ++ kept ∧
  lg_recycle_failed_count s' = u64 (lg_recycle_failed_count s + Z.of_nat (length handles - length kept)).

Definition counters_typed s : Prop := is_u64 (lg_logged_count s) ∧ is_u64 (lg_bytes_written s) ∧ is_u64 (lg_recycle_failed_count s).

Lemma u64_add_add a b c : u64 (u64 (a + b) + c) = u64 (a + (b + c)).
Proof. unfold u64. rewrite Zplus_mod_idemp_l. f_equal. lia. Qed.
Lemma size_app l l' : size (l ++ l') = size l + size l'.
Proof. unfold size. rewrite bind_app, length_app. lia. Qed.

Lemma wrote_nil s s' : counters_typed s → lg_failed s' = lg_failed s → lg_tape s' = lg_tape s → lg_logged_count s' = lg_logged_count s → lg_bytes_written s' = lg_bytes_written s → wrote [] s s'.
Proof.
  intros (H1 & H2 & _) Hf Ht Hl Hb. destruct (lg_failed s) eqn:E; [by apply wrote_none|]. apply wrote_all; try done.
  - by rewrite app_nil_r.
  - by rewrite Hl, Z.add_0_r, u64_id.
  - unfold size. cbn. by rewrite Hb, Z.add_0_r, u64_id.
Qed.
Lemma wrote_app l l' s s1 s' : wrote l s s1 → wrote l' s1 s' → wrote (l ++ l') s s'.
Proof.
  intros [F F1 T C B|written e later k F F1 -> T C B|F F1 T C B] [F' F1' T' C' B'|written' e' later' k' F' F1' -> T' C' B'|F' F1' T' C' B']; try congruence.
  - apply wrote_all; [done..|rewrite T', T, bind_app; by rewrite app_assoc|rewrite C', C, u64_add_add, length_app; f_equal; lia|rewrite B', B, u64_add_add, size_app; f_equal; lia].
  - apply (wrote_part _ _ _ (l ++ written') e' later' k'); [done|done|by rewrite app_assoc|rewrite T', T, bind_app; by rewrite <- !app_assoc|rewrite C', C, u64_add_add, length_app; f_equal; lia|rewrite B', B, u64_add_add, size_app; f_equal; lia].
  - apply (wrote_part _ _ _ written e (later ++ l') k); [done|done|by rewrite <- app_assoc|congruence..].
  - apply wrote_none; congruence.
Qed.
Lemma recycled_nil s s' : counters_typed s → lg_recycle_queue s' = lg_recycle_queue s → lg_recycle_failed_count s' = lg_recycle_failed_count s → recycled [] s s'.
Proof. intros (_ & _ & H) Hq Hc. exists []. split; [done|]. rewrite Hq, Hc, app_nil_r. split; [done|]. cbn. by rewrite Z.add_0_r, u64_id. Qed.
Lemma recycled_app l l' s s1 s' : recycled l s s1 → recycled l' s1 s' → recycled (l ++ l') s s'.
Proof.
  intros (k & K & E & C) (k' & K' & E' & C'). exists (k ++ k'). split; [by apply sublist_app|]. rewrite E', E, C', C, app_assoc, u64_add_add, !length_app. split; [done|].
  apply sublist_length in K, K'. f_equal. lia.
Qed.

(** What only handing a frame back and writing change. *)
Definition kept_by_status s s' : Prop :=
  lg_input_queues s' = lg_input_queues s ∧ lg_frame_pool s' = lg_frame_pool s ∧ lg_next_input_queue s' = lg_next_input_queue s ∧ lg_recycle_queue s' = lg_recycle_queue s ∧
  lg_recycle_failed_count s' = lg_recycle_failed_count s ∧ lg_tape s' = lg_tape s ∧ lg_failed s' = lg_failed s ∧ lg_logged_count s' = lg_logged_count s ∧
  lg_bytes_written s' = lg_bytes_written s.
Lemma kept_refl s : kept_by_status s s.
Proof. by repeat split. Qed.
Lemma kept_trans s s1 s2 : kept_by_status s s1 → kept_by_status s1 s2 → kept_by_status s s2.
Proof. unfold kept_by_status. intros. destruct_and!. repeat split; congruence. Qed.
Lemma push_status_kept status s : kept_by_status s (push_control_status status s).2.
Proof. unfold push_control_status. destruct (lg_logger_to_control_status_queue s) as [q|]; [|apply kept_refl]. destruct (q_push status q). by repeat split. Qed.
Lemma report_fault_kept message s : kept_by_status s (report_fault_once message s).2.
Proof.
  change (wp (report_fault_once message) (λ _ s', kept_by_status s s') s). unfold report_fault_once. wp_steps. destruct (lg_fault_reported s); [wp_steps; apply kept_refl|]. wp_steps. unfold wp.
  eapply kept_trans; [|apply push_status_kept]. by repeat split.
Qed.
Lemma telemetry_kept s : kept_by_status s (maybe_send_telemetry clk s).2.
Proof.
  change (wp (maybe_send_telemetry clk) (λ _ s', kept_by_status s s') s). unfold maybe_send_telemetry. wp_step. unfold wp at 1, logger_now. cbn [fst snd]. wp_step. wp_step.
  destruct (_ <? _); [wp_step; by repeat split|]. set (s1 := s ⟪ _ ::= _ ⟫).
  do 3 wp_step. unfold wp. apply (kept_trans s s1); [by repeat split|]. eapply kept_trans; [apply (push_status_kept (LgTelemetry (telemetry s1)))|]. by repeat split.
Qed.

(** A turn took these handles. *)
Record logged (handles : list FrameHandle) s s' : Prop := {
  lo_pool : lg_frame_pool s' = lg_frame_pool s;
  lo_inputs : lg_input_queues s' = lg_input_queues s;
  lo_next : lg_next_input_queue s' = lg_next_input_queue s;
  lo_wrote : wrote (entries (lg_frame_pool s) handles) s s';
  lo_recycled : recycled handles s s';
  lo_typed : counters_typed s';
}.

Lemma hand_back_logged handle l s0 s : lg_frame_pool s = lg_frame_pool s0 → lg_input_queues s = lg_input_queues s0 → lg_next_input_queue s = lg_next_input_queue s0 →
  lg_recycle_queue s = lg_recycle_queue s0 → lg_recycle_failed_count s = lg_recycle_failed_count s0 → entries (lg_frame_pool s0) [handle] = l → wrote l s0 s → counters_typed s →
  logged [handle] s0 (hand_back handle s).2.
Proof.
  intros Hp Hi Hn Hq Hc He Hw (T1 & T2 & T3). unfold hand_back. pose proof (push_sent handle (lg_recycle_queue s)) as Hs. destruct (q_push handle (lg_recycle_queue s)) as [pushed q]. cbn [fst snd] in *.
  assert (∀ s', s' = s ⟪ lg_recycle_queue := q ⟫ ∨ s' = s ⟪ lg_recycle_queue := q ⟫ ⟪ lg_recycle_failed_count ::= λ n, u64 (n + 1) ⟫ → wrote l s0 s') as Hw'.
  { intros s' [-> | ->]; destruct Hw; by econstructor. }
  split; try (destruct pushed; cbn; done).
  - rewrite He. apply Hw'. destruct pushed; auto.
  - destruct pushed; [exists [handle]|exists []]; cbn; rewrite Hs, Hq; (split; [by try apply sublist_nil_l|]); rewrite <- Hc.
    + split; [done|]. by rewrite Z.add_0_r, u64_id.
    + split; [by rewrite app_nil_r|done].
  - destruct pushed; split_and!; cbn; try done. apply u64_range.
Qed.

(** Only the tape is written. *)
Definition kept_by_write s s' : Prop :=
  lg_input_queues s' = lg_input_queues s ∧ lg_frame_pool s' = lg_frame_pool s ∧ lg_next_input_queue s' = lg_next_input_queue s ∧ lg_recycle_queue s' = lg_recycle_queue s ∧
  lg_recycle_failed_count s' = lg_recycle_failed_count s ∧ lg_logged_count s' = lg_logged_count s ∧ lg_bytes_written s' = lg_bytes_written s.
Definition two_writes (bytes : list Z) s s' : Prop := kept_by_write s s' ∧
  (lg_failed s = false ∧ lg_failed s' = false ∧ lg_tape s' = lg_tape s ++ bytes ∨
   lg_failed s = false ∧ lg_failed s' = true ∧ (∃ k, lg_tape s' = lg_tape s ++ take k bytes) ∨
   lg_failed s = true ∧ lg_failed s' = true ∧ lg_tape s' = lg_tape s).
Lemma write_two {A} a b (rest : M LoggerState A) Φ s :
  (∀ s', two_writes (a ++ b) s s' → wp rest Φ s') → wp (stream_write write_outcome a;; stream_write write_outcome b;; rest) Φ s.
Proof.
  intros H. wp_step. unfold wp at 1. wp_step. unfold wp at 1. apply H. unfold two_writes, stream_write. destruct (lg_failed s) eqn:Ef; cbn [fst snd]; [rewrite Ef; split; [by repeat split|auto]|]. destruct (write_outcome (lg_writes s)) as [k|]; cbn.
  - split; [by repeat split|]. right. left. split_and!; [done|done|]. exists (k `min` length a)%nat. rewrite take_app. rewrite (proj2 (Nat.sub_0_le _ _)) by lia. rewrite take_0, app_nil_r. f_equal.
    destruct (Nat.min_spec k (length a)) as [[_ ->]|[Hk ->]]; [done|]. by rewrite !take_ge by lia.
  - rewrite Ef. destruct (write_outcome (S (lg_writes s))) as [k|]; cbn; (split; [by repeat split|]).
    + right. left. split_and!; [done|done|]. exists (length a + k)%nat. rewrite take_app_add, <- app_assoc. done.
    + left. by rewrite app_assoc.
Qed.

(** The frame has the length it says. *)
Definition frame_ok (f : KalshiFrame) : Prop := is_u64 (fr_recv_ts_ns f) ∧ is_u32 (fr_len f) ∧ Z.of_nat kMaxFrameBytes ≤ Z.of_nat (length (fr_payload f)).
Definition pool_ok (pool : FramePool) : Prop := Forall frame_ok (frames_ pool).
Lemma pool_frame pool handle f : pool_ok pool → frame pool handle = Some f → frame_ok f.
Proof. unfold pool_ok, frame. rewrite Forall_forall. intros H. destruct (is_live_handle _ _); [|done]. intros Hf. by eapply H, list_elem_of_lookup_2. Qed.
Lemma size_entry header f : frame_ok f → fr_len f ≤ Z.of_nat kMaxFrameBytes → size [(header, take (Z.to_nat (fr_len f)) (fr_payload f))] = Z.of_nat kRECORD_SIZE + fr_len f.
Proof.
  intros (_ & [Hl _] & Hp) Hm. unfold size. cbn [mbind list_bind]. rewrite app_nil_r. unfold record_bytes. cbn [fst snd]. rewrite length_app, length_header_bytes, length_take, Nat.min_l by lia. lia.
Qed.

(** One record of the entry [e]. *)
Lemma wrote_one e s s1 s' : two_writes (record_bytes e) s s1 → lg_tape s' = lg_tape s1 → lg_failed s' = lg_failed s1 →
  (if lg_failed s1 then lg_logged_count s' = lg_logged_count s1 ∧ lg_bytes_written s' = lg_bytes_written s1
   else lg_logged_count s' = u64 (lg_logged_count s1 + 1) ∧ lg_bytes_written s' = u64 (lg_bytes_written s1 + size [e])) →
  counters_typed s → wrote [e] s s'.
Proof.
  intros [(_ & _ & _ & _ & _ & Kl & Kb) Hw] Et Ef Hc (T1 & T2 & _).
  destruct Hw as [(F & F1 & T)|[(F & F1 & k & T)|(F & F1 & T)]]; rewrite F1, ?Kl, ?Kb in Hc; destruct Hc as [Hc1 Hc2].
  - apply wrote_all; [done|congruence|rewrite Et, T; cbn; by rewrite app_nil_r|done|done].
  - apply (wrote_part _ _ _ [] e [] k); [done|congruence|done|by rewrite Et, T|cbn; by rewrite Hc1, Z.add_0_r, u64_id|rewrite Hc2; change (size []) with 0; by rewrite Z.add_0_r, u64_id].
  - apply wrote_none; congruence.
Qed.

Lemma log_handle_logged handle s : counters_typed s → pool_ok (lg_frame_pool s) → logged [handle] s (log_handle clk write_outcome handle s).2.
Proof.
  intros Ht Hp. change (wp (log_handle clk write_outcome handle) (λ _ s', logged [handle] s s') s). unfold log_handle. wp_step. wp_step.
  assert (entries (lg_frame_pool s) [handle] = option_list (entry (lg_frame_pool s) handle)) as He by (unfold entries; cbn; by destruct (entry _ _)). unfold entry in He.
  destruct (frame _ handle) as [f|] eqn:Hf. 2: { wp_step. unfold wp at 1. eapply hand_back_logged; [done..|exact He|by apply wrote_nil|done]. }
  destruct (_ <? fr_len f) eqn:El; [wp_steps; unfold wp; eapply hand_back_logged; [done..|exact He|by apply wrote_nil|done]|]. apply Z.ltb_ge in El.
  cbn [option_list] in He. pose proof (size_entry (record_header handle f) f (pool_frame _ _ _ Hp Hf) El) as Hsize. set (e := (record_header handle f, _)) in *.
  apply write_two. change (header_bytes _ ++ _) with (record_bytes e). intros s1 Hw. pose proof (proj1 Hw) as (K1 & K2 & K3 & K4 & K5 & K6 & K7). destruct Ht as (T1 & T2 & T3).
  wp_step. wp_step. destruct (lg_failed s1) eqn:Ef.
  - wp_step. wp_step. wp_step. unfold wp at 1. pose proof (report_fault_kept "Failed to write market data tape record" (s1 ⟪ lg_write_failed_count ::= λ n, u64 (n + 1) ⟫)) as (R1 & R2 & R3 & R4 & R5 & R6 & R7 & R8 & R9).
    destruct (report_fault_once _ _) as [[] s2]. cbn in R1, R2, R3, R4, R5, R6, R7, R8, R9. cbn [fst snd]. wp_step. unfold wp at 1. wp_step. eapply hand_back_logged; [congruence..|exact He| |split_and!; congruence].
    apply (wrote_one e s s1); [done|done|done|rewrite Ef; by split|by split_and!].
  - wp_steps. unfold wp at 1, logger_now. cbn [fst snd]. wp_steps. unfold wp at 1. wp_step. unfold record_latency.
    match goal with |- logged _ _ (hand_back _ ?s').2 => set (s2 := s') end.
    assert (lg_frame_pool s2 = lg_frame_pool s1 ∧ lg_input_queues s2 = lg_input_queues s1 ∧ lg_next_input_queue s2 = lg_next_input_queue s1 ∧ lg_recycle_queue s2 = lg_recycle_queue s1 ∧ lg_recycle_failed_count s2 = lg_recycle_failed_count s1 ∧
      lg_tape s2 = lg_tape s1 ∧ lg_failed s2 = lg_failed s1 ∧ lg_logged_count s2 = u64 (lg_logged_count s1 + 1) ∧ lg_bytes_written s2 = u64 (lg_bytes_written s1 + size [e])) as (R1 & R2 & R3 & R4 & R5 & R6 & R7 & R8 & R9).
    { subst s2. destruct (_ <? _)%nat; cbn; split_and!; try done; by rewrite Hsize. }
    eapply hand_back_logged; [congruence..|exact He| |].
    + apply (wrote_one e s s1); [done|done|done|rewrite Ef; by split|by split_and!].
    + split_and!; rewrite ?R8, ?R9, ?R5, ?K5; [apply u64_range|apply u64_range|done].
Qed.

(** ** A pump *)

Lemma wrote_kept l s s1 s2 : wrote l s s1 → kept_by_status s1 s2 → wrote l s s2.
Proof.
  intros W (_ & _ & _ & _ & _ & E6 & E7 & E8 & E9).
  destruct W as [F F1 T C B|written e later k F F1 El T C B|F F1 T C B]; [apply wrote_all|apply (wrote_part _ _ _ written e later k)|apply wrote_none]; congruence.
Qed.
Lemma recycled_kept l s s1 s2 : recycled l s s1 → kept_by_status s1 s2 → recycled l s s2.
Proof. intros (k & H1 & H2 & H3) (_ & _ & _ & E4 & E5 & _). exists k. by rewrite E4, E5. Qed.

Record pumped (n : nat) s s' : Prop := {
  pd_pool : lg_frame_pool s' = lg_frame_pool s;
  pd_turns : (lg_next_input_queue s', lg_input_queues s') = ((turns n (lg_next_input_queue s) (lg_input_queues s)).1.2, (turns n (lg_next_input_queue s) (lg_input_queues s)).2);
  pd_wrote : wrote (entries (lg_frame_pool s) (turns n (lg_next_input_queue s) (lg_input_queues s)).1.1) s s';
  pd_recycled : recycled (turns n (lg_next_input_queue s) (lg_input_queues s)).1.1 s s';
  pd_typed : counters_typed s';
}.

Lemma entries_app pool l l' : entries pool (l ++ l') = entries pool l ++ entries pool l'.
Proof. apply omap_app. Qed.

Lemma pumped_cons n taken s s1 s' : turns (S n) (lg_next_input_queue s) (lg_input_queues s) =
    (taken ++ (turns n (lg_next_input_queue s1) (lg_input_queues s1)).1.1, (turns n (lg_next_input_queue s1) (lg_input_queues s1)).1.2, (turns n (lg_next_input_queue s1) (lg_input_queues s1)).2) →
  lg_frame_pool s1 = lg_frame_pool s → wrote (entries (lg_frame_pool s) taken) s s1 → recycled taken s s1 → pumped n s1 s' → pumped (S n) s s'.
Proof.
  intros Et Ep Hw Hr [P1 P2 P3 P4 P5]. split; rewrite ?Et; cbn [fst snd]; [congruence|done|rewrite entries_app; eapply wrote_app; [done|by rewrite <- Ep]|by eapply recycled_app|done].
Qed.

(** The turn is passed on. *)
Definition passed_on s : LoggerState := s ⟪ lg_next_input_queue := ((lg_next_input_queue s + 1) mod length (lg_input_queues s))%nat ⟫.
Lemma wrote_passed l s s1 : wrote l s s1 → wrote l s (passed_on s1).
Proof. intros []; by econstructor. Qed.

Lemma loop_pumped n logged s : counters_typed s → pool_ok (lg_frame_pool s) → wp (pump_loop clk write_outcome n logged) (λ _ s', pumped n s s') s.
Proof.
  revert logged s. induction n as [|n IH]; intros logged s Ht Hp; cbn [pump_loop].
  { wp_step. split; [done|done|by apply wrote_nil|by apply recycled_nil|done]. }
  wp_step. wp_step. destruct (lg_input_queues s) as [|q0 queues0] eqn:Eq.
  { wp_step. split; rewrite ?Eq; [done|done|by apply wrote_nil|by apply recycled_nil|done]. }
  wp_step. unfold wp at 1, pop_input.
  assert (∀ m taken s1, counters_typed s1 → lg_frame_pool s1 = lg_frame_pool s → lg_next_input_queue s1 = lg_next_input_queue s → length (lg_input_queues s1) = length (lg_input_queues s) →
    turns (S n) (lg_next_input_queue s) (lg_input_queues s) =
      (taken ++ (turns n ((lg_next_input_queue s + 1) mod length (lg_input_queues s))%nat (lg_input_queues s1)).1.1,
       (turns n ((lg_next_input_queue s + 1) mod length (lg_input_queues s))%nat (lg_input_queues s1)).1.2, (turns n ((lg_next_input_queue s + 1) mod length (lg_input_queues s))%nat (lg_input_queues s1)).2) →
    wrote (entries (lg_frame_pool s) taken) s s1 → recycled taken s s1 → wp (next_queue;; pump_loop clk write_outcome n m) (λ _ s', pumped (S n) s s') s1) as Hnext.
  { intros m taken s1 Ht1 Hp1 Hn1 Hl Et Hw Hr. unfold next_queue. wp_step. wp_step. change (wp (pump_loop clk write_outcome n m) (λ _ s', pumped (S n) s s') (passed_on s1)).
    eapply wp_mono; [apply IH; [done|cbn; by rewrite Hp1]|]. cbv beta. intros _ s' H. eapply (pumped_cons n taken s (passed_on s1)); [|done|by apply wrote_passed|exact Hr|exact H].
    cbn. by rewrite Hn1, Hl. }
  destruct (lg_input_queues s !! lg_next_input_queue s) as [[[|[handle|] q]|]|] eqn:El; cbn [fst snd].
  1,4,5: wp_step; wp_step; apply (Hnext _ []); [done|done|done|done| |by apply wrote_nil|by apply recycled_nil]; rewrite turns_S, El by (by rewrite Eq); cbn [app]; by rewrite <- !surjective_pairing.
  - wp_step. unfold wp at 1. set (s0 := s ⟪ _ ::= _ ⟫). pose proof (log_handle_logged handle s0 Ht Hp) as [L1 L2 L3 L4 L5 L6]. apply (Hnext _ [handle]); try done.
    + rewrite L2. cbn. by rewrite length_insert.
    + rewrite L2. by rewrite turns_S, El by (by rewrite Eq).
    + destruct L4; by econstructor.
  - wp_step. wp_step. apply (Hnext _ []); [done|done|done|cbn; by rewrite length_insert| |by apply wrote_nil|by apply recycled_nil]. by rewrite turns_S, El by (by rewrite Eq).
Qed.
Lemma pump_pumped n s : counters_typed s → pool_ok (lg_frame_pool s) → pumped n s (pump clk write_outcome n s).2.
Proof.
  intros Ht Hp. change (wp (pump clk write_outcome n) (λ _ s', pumped n s s') s). unfold pump. wp_step. eapply wp_mono; [by apply loop_pumped|]. cbv beta. intros logged s1 [P1 P2 P3 P4 (T1 & T2 & T3)].
  wp_step. unfold wp at 1. wp_step. pose proof (telemetry_kept s1) as K. pose proof K as (K1 & K2 & K3 & K4 & K5 & K6 & K7 & K8 & K9).
  split; [congruence|by rewrite K1, K3|by eapply wrote_kept|by eapply recycled_kept|split_and!; congruence].
Qed.

(** ** A run *)

Inductive logger_op :=
  | LgPump (max_batch_size : nat)
  (** Other threads have changed the pool and put handles into the queues. *)
  | LgSupply (pool : FramePool) (inputs : list (list (option FrameHandle))).
Definition supply (pool : FramePool) (inputs : list (list (option FrameHandle))) s : LoggerState :=
  s ⟪ lg_frame_pool := pool ⟫ ⟪ lg_input_queues ::= imap (λ i q, (λ l, l ++ default [] (inputs !! i)) <$> q) ⟫.
Definition run_op (op : logger_op) s : LoggerState :=
  match op with LgPump n => (pump clk write_outcome n s).2 | LgSupply pool inputs => supply pool inputs s end.
Fixpoint run_logger (ops : list logger_op) s : LoggerState := match ops with [] => s | op :: ops => run_logger ops (run_op op s) end.

Definition op_taken (op : logger_op) s : list FrameHandle :=
  match op with LgPump n => (turns n (lg_next_input_queue s) (lg_input_queues s)).1.1 | LgSupply _ _ => [] end.
(** The handles taken in a run, and the records due for them. *)
Fixpoint taken (ops : list logger_op) s : list FrameHandle := match ops with [] => [] | op :: ops => op_taken op s ++ taken ops (run_op op s) end.
Fixpoint due (ops : list logger_op) s : list Entry := match ops with [] => [] | op :: ops => entries (lg_frame_pool s) (op_taken op s) ++ due ops (run_op op s) end.

(** *** Types *)

Definition handle_typed (h : FrameHandle) : Prop :=
  is_u64 (fh_universe_version h) ∧ is_u64 (fh_sequence h) ∧ is_u64 (fh_affinity_key h) ∧ is_u32 (fh_sid h) ∧ is_u32 (fh_market_id h) ∧ is_u32 (fh_event_id h) ∧
  is_u32 (fh_shard_index h) ∧ is_u32 (fh_shard_event_index h) ∧ is_u32 (fh_event_market_index h).
Definition queue_typed (q : list (option FrameHandle)) : Prop := ∀ h, Some h ∈ q → handle_typed h.
Definition inputs_typed (queues : Inputs) : Prop := ∀ q, Some q ∈ queues → queue_typed q.
Definition op_typed (op : logger_op) : Prop := match op with LgPump _ => True | LgSupply pool inputs => pool_ok pool ∧ Forall queue_typed inputs end.

Lemma entry_typed pool h e : pool_ok pool → handle_typed h → entry pool h = Some e → entry_ok e.
Proof.
  intros Hp (H1 & H2 & H3 & H4 & H5 & H6 & H7 & H8 & H9). unfold entry. destruct (frame pool h) as [f|] eqn:Ef; [|done]. destruct (Z.ltb_spec (Z.of_nat kMaxFrameBytes) (fr_len f)) as [|Hl]; [done|].
  intros [= <-]. destruct (pool_frame _ _ _ Hp Ef) as (F1 & F2 & F3). unfold is_u64, is_u32 in *. split.
  - unfold header_typed, record_sizes, record_values, record_header. cbn [fst tp_universe_version tp_recv_ts_ns tp_sequence tp_affinity_key tp_sid tp_market_id tp_event_id tp_shard_index tp_shard_event_index tp_event_market_index tp_payload_len tp_frame_kind tp_topology tp_flags].
    repeat constructor; cbn [Z.of_nat Pos.of_succ_nat Pos.succ]; try lia; try (by destruct (fh_kind h)); try (by destruct (fh_topology h)); unfold u16; pose proof (Z.mod_pos_bound (fr_flags f) 65536); lia.
  - cbn [fst snd]. rewrite length_take, Nat.min_l by lia. cbn. lia.
Qed.
Lemma turns_typed n next queues : inputs_typed queues → Forall handle_typed (turns n next queues).1.1 ∧ inputs_typed (turns n next queues).2.
Proof.
  revert next queues. induction n as [|n IH]; intros next queues Hq; [by destruct queues|]. destruct (decide (queues = [])) as [->|Hne]; [by split|]. rewrite turns_S by done.
  destruct (queues !! next) as [[[|handle q]|]|] eqn:El; try by apply IH. apply list_elem_of_lookup_2 in El as Hin.
  assert (inputs_typed (<[next:=Some q]> queues)) as Hq'.
  { intros q' [j [(_ & [= ->] & _)|(_ & Hj)]%list_lookup_insert_Some]%list_elem_of_lookup; [|by apply Hq, list_elem_of_lookup_2 with j]. intros h Hh. apply (Hq _ Hin). by right. }
  destruct (IH ((next + 1) mod length queues)%nat _ Hq') as [H1 H2]. cbn [fst snd]. split; [|done]. apply Forall_app. split; [|done].
  destruct handle as [h|]; [|constructor]. constructor; [|constructor]. apply (Hq _ Hin). left.
Qed.
Lemma entries_typed pool l : pool_ok pool → Forall handle_typed l → Forall entry_ok (entries pool l).
Proof. intros Hp Hl. unfold entries. induction Hl as [|h l Hh _ IH]; [constructor|]. cbn. destruct (entry pool h) as [e|] eqn:Ee; [|done]. constructor; [by eapply entry_typed|done]. Qed.

Definition good s : Prop := counters_typed s ∧ pool_ok (lg_frame_pool s) ∧ inputs_typed (lg_input_queues s).
Lemma op_good op s : good s → op_typed op → good (run_op op s).
Proof.
  intros (Ht & Hp & Hi) Ho. destruct op as [n|pool inputs]; cbn [run_op].
  - destruct (pump_pumped n s Ht Hp) as [P1 P2 _ _ P5]. split_and!; [done|by rewrite P1|]. injection P2 as _ ->. by apply turns_typed.
  - destruct Ho as [Ho1 Ho2]. split_and!; [done|done|]. cbn. intros q (i & [q0|] & E & Hq0)%elem_of_lookup_imap; [|done]. injection E as ->. intros h [Hh|Hh]%elem_of_app.
    + apply list_elem_of_lookup_2 in Hq0. by apply (Hi q0).
    + rewrite Forall_forall in Ho2. destruct (inputs !! i) as [l|] eqn:El; [|by apply not_elem_of_nil in Hh]. apply (Ho2 l); [by eapply list_elem_of_lookup_2|done].
Qed.
Lemma op_effect op s : good s → op_typed op → wrote (entries (lg_frame_pool s) (op_taken op s)) s (run_op op s) ∧ recycled (op_taken op s) s (run_op op s).
Proof.
  intros (Ht & Hp & Hi) Ho. destruct op as [n|pool inputs]; cbn [run_op op_taken]; [by destruct (pump_pumped n s Ht Hp)|]. split; [by apply wrote_nil|by apply recycled_nil].
Qed.
Lemma run_effect ops s : good s → Forall op_typed ops → wrote (due ops s) s (run_logger ops s) ∧ recycled (taken ops s) s (run_logger ops s) ∧ Forall entry_ok (due ops s).
Proof.
  intros Hg Ho. revert s Hg. induction Ho as [|op ops Hop _ IH]; intros s Hg; cbn [due taken run_logger].
  { destruct Hg as (Ht & _). split_and!; [by apply wrote_nil|by apply recycled_nil|constructor]. }
  destruct (op_effect op s Hg Hop) as [W R]. destruct (IH _ (op_good op s Hg Hop)) as (W' & R' & F). split_and!; [by eapply wrote_app|by eapply recycled_app|].
  apply Forall_app. split; [|done]. destruct Hg as (_ & Hp & Hi). apply entries_typed; [done|]. destruct op; [by apply turns_typed|constructor].
Qed.

Lemma run_good ops s : good s → Forall op_typed ops → good (run_logger ops s).
Proof. intros Hg Ho. revert s Hg. induction Ho as [|op ops Hop _ IH]; intros s Hg; [done|]. cbn. by apply IH, op_good. Qed.
Lemma constructed_logger queues pool recycle_queue status_queue path opened flushed s :
  make_logger clk write_outcome queues pool recycle_queue status_queue path opened flushed = Some s →
  lg_tape s = file_header ∧ lg_failed s = false ∧ lg_logged_count s = 0 ∧ lg_bytes_written s = 8 ∧ lg_recycle_failed_count s = 0 ∧ lg_frame_pool s = pool ∧ lg_input_queues s = queues.
Proof.
  unfold make_logger. destruct opened; [|done]. cbn [negb]. unfold stream_write. cbn. destruct (write_outcome 0); [done|]. cbn. destruct (write_outcome 1); [done|]. cbn. destruct (write_outcome 2); [done|]. cbn.
  destruct flushed; [|done]. cbn [negb]. intros [= <-]. destruct (push_status_kept (LgStarted path) (mkLoggerState queues pool recycle_queue status_queue path file_header false 3 0 8 0 0 channel_latency channel_latency false 0 (clk 0 + kLOGGER_TELEMETRY_INTERVAL) 1))
    as (K1 & K2 & K3 & K4 & K5 & K6 & K7 & K8 & K9). split_and!; done.
Qed.

(** A tape that ends in a record that may be cut off. *)
Lemma read_part written e later k : Forall entry_ok (written ++ e :: later) →
  ∃ m, (length written ≤ m ≤ S (length written))%nat ∧ (iter_market_data_records (file_header ++ (written ≫= record_bytes) ++ take k (record_bytes e))).1 = indexed 0 (take m (written ++ e :: later)).
Proof.
  intros [Fw [Fe _]%Forall_cons]%Forall_app.
  destruct (decide (k = 0)%nat) as [->|Hk0]; [|destruct (decide (k < length (record_bytes e))%nat) as [Hk|Hk]].
  - exists (length written). split; [lia|]. destruct (read_tape written [] Fw) as (fuel & _ & E). rewrite take_0, E. cbn [read_records fst take length Nat.eqb kRECORD_SIZE]. by rewrite app_nil_r, take_app_length.
  - exists (length written). split; [lia|]. destruct (read_tape written (take k (record_bytes e)) Fw) as (fuel & _ & E). rewrite E. destruct (read_cut fuel (length written) e k Fe ltac:(lia)) as [error ->]. cbn [fst].
    by rewrite app_nil_r, take_app_length.
  - exists (S (length written)). split; [lia|]. destruct (read_tape (written ++ [e]) []) as (fuel & _ & E); [apply Forall_app; split; [done|by constructor]|]. rewrite bind_app in E. cbn [mbind list_bind] in E. rewrite app_nil_r, app_nil_r in E.
    rewrite take_ge by lia. rewrite E. cbn [read_records fst take length Nat.eqb kRECORD_SIZE]. rewrite app_nil_r. f_equal. rewrite <- Nat.add_1_r, take_app_add. done.
Qed.

(** C36: the tape holds the market data.  From the start of the logger, whatever other threads
    put into its queues and do with the frames, every handle it takes is handed back once, in
    order, or lost and counted.  As long as no write has failed, the reader of tapes reads from
    the tape exactly one record for each frame taken (except frames that are gone or too long),
    in the order they were taken, with the fields and the payload of the frame, and ends without
    an error; and the counters are the number of records and of bytes.  If a write has failed
    the reader still reads the first of these records, at most one more than the logger counts,
    and nothing is written any more. *)
Theorem tape_reads_back queues pool recycle_queue status_queue path opened flushed s ops :
  make_logger clk write_outcome queues pool recycle_queue status_queue path opened flushed = Some s →
  pool_ok pool → inputs_typed queues → Forall op_typed ops →
  recycled (taken ops s) s (run_logger ops s) ∧
  (lg_failed (run_logger ops s) = false →
     iter_market_data_records (lg_tape (run_logger ops s)) = (indexed 0 (due ops s), TapeEnds) ∧
     lg_logged_count (run_logger ops s) = u64 (Z.of_nat (length (due ops s))) ∧
     lg_bytes_written (run_logger ops s) = u64 (Z.of_nat (length (lg_tape (run_logger ops s))))) ∧
  (lg_failed (run_logger ops s) = true →
     (∃ n m, (n ≤ m ≤ S n)%nat ∧ lg_logged_count (run_logger ops s) = u64 (Z.of_nat n) ∧
        (iter_market_data_records (lg_tape (run_logger ops s))).1 = indexed 0 (take m (due ops s))) ∧
     ∀ more, Forall op_typed more → lg_tape (run_logger more (run_logger ops s)) = lg_tape (run_logger ops s)).
Proof.
  intros Hm Hp Hi Ho. destruct (constructed_logger _ _ _ _ _ _ _ _ Hm) as (C1 & C2 & C3 & C4 & C5 & C6 & C7).
  assert (good s) as Hg by (split_and!; [unfold counters_typed; rewrite C3, C4, C5; by split_and!|by rewrite C6|by rewrite C7]).
  destruct (run_effect ops s Hg Ho) as (W & R & F). split; [done|]. split.
  - intros Hf. destruct W as [F0 F1 T C B|? ? ? ? ? F1|? F1]; [|congruence..]. rewrite T, C1, C, C3, B, C4. split_and!; [|done|].
    + destruct (read_tape (due ops s) [] F) as (fuel & _ & E). rewrite app_nil_r in E. rewrite E. cbn [read_records fst snd take length Nat.eqb kRECORD_SIZE]. by rewrite app_nil_r.
    + f_equal. unfold size. rewrite length_app. cbn [length file_header app kTAPEMAGIC to_bytes]. lia.
  - intros Hf. split.
    + destruct W as [F0 F1|written e later k F0 F1 E T C B|F0]; [congruence| |congruence]. rewrite T, C1, C, C3. rewrite E in F |- *. destruct (read_part written e later k F) as (m & Hm' & Er). exists (length written), m. done.
    + intros more Hmore.
      destruct (run_effect more (run_logger ops s) (run_good ops s Hg Ho) Hmore) as ([F0|? ? ? ? F0|F0 F1 T _ _] & _ & _); [congruence|congruence|done].
Qed.
End LoggerTape.
End LoggerTape.

(** ** A tape of two records, for the witness *)

Open Scope Z_scope.

Module LoggerDemo.
Import Pool Tape Logger LoggerTape.

Definition clock (n : nat) : Z := Z.of_nat n.
Definition room {T} : Fifo T := mkFifo 8 [] [] [].

(** A pool with two frames in use. *)
Definition filled (payload : list Z) (f : KalshiFrame) : KalshiFrame :=
  mkKalshiFrame 1000 (Z.of_nat (length payload)) 0 (payload ++ drop (length payload) (fr_payload f)).
Definition pool0 : FramePool := default (mkFramePool 0 [] [] [] []) (make_pool 64 2).
Definition acquired1 : option FrameHandle * FramePool := try_acquire 64 pool0.
Definition acquired2 : option FrameHandle * FramePool := try_acquire 64 acquired1.2.
Definition handle1 : FrameHandle := (default default_FrameHandle acquired1.1) ⟪ fh_sequence := 41 ⟫ ⟪ fh_kind := kORDERBOOK_DELTA ⟫.
Definition handle2 : FrameHandle := (default default_FrameHandle acquired2.1) ⟪ fh_sequence := 42 ⟫ ⟪ fh_kind := kTRADE ⟫.
Definition pool : FramePool := (write_frame handle2 (filled [4; 5]) (write_frame handle1 (filled [1; 2; 3]) acquired2.2).2).2.

Definition start : LoggerState (Q := Fifo) :=
  default (mkLoggerState [] pool0 room None "" [] false 0 0 0 0 0 [] [] false 0 0 0) (make_logger clock (λ _, None) [Some []; None; Some []] pool0 room (Some room) "tape.bin" true true).
Definition ops : list logger_op := [LgPump 3; LgSupply pool [[Some handle1]; []; [Some handle2]]; LgPump 4].

Lemma frames_ok (p : FramePool) : forallb (λ f, (0 <=? fr_recv_ts_ns f) && (fr_recv_ts_ns f <=? U64_MAX) && (0 <=? fr_len f) && (fr_len f <=? U32_MAX) && (8192 <=? Z.of_nat (length (fr_payload f)))) (frames_ p) = true → pool_ok p.
Proof.
  intros H. apply Forall_forall. intros f Hf. rewrite forallb_forall in H. apply list_elem_of_In, H in Hf. unfold frame_ok, is_u64, is_u32. change (Z.of_nat kMaxFrameBytes) with 8192. lia.
Qed.

Lemma tape_reads_back_witness :
  iter_market_data_records (lg_tape (run_logger clock (λ _, None) ops start)) = (indexed 0 (due clock (λ _, None) ops start), TapeEnds) ∧
  tr_payload <$> indexed 0 (due clock (λ _, None) ops start) = [[1; 2; 3]; [4; 5]].
Proof.
  assert (make_logger clock (λ _, None) [Some []; None; Some []] pool0 room (Some room) "tape.bin" true true = Some start) as H1 by (vm_compute; reflexivity).
  assert (pool_ok pool0) as H2 by (apply frames_ok; vm_compute; reflexivity).
  assert (inputs_typed [Some []; None; Some []]) as H3.
  { intros q Hq h Hh. exfalso. apply elem_of_cons in Hq as [Hq|Hq]; [|apply elem_of_cons in Hq as [Hq|Hq]; [discriminate Hq|apply elem_of_cons in Hq as [Hq|Hq]; [|by apply not_elem_of_nil in Hq]]];
    injection Hq as ->; by apply not_elem_of_nil in Hh. }
  assert (pool_ok pool) as H4 by (apply frames_ok; vm_compute; reflexivity).
  assert (∀ h, h = handle1 ∨ h = handle2 → handle_typed h) as Hh by (intros h [-> | ->]; unfold handle_typed, is_u64, is_u32; split_and!; vm_compute; congruence).
  assert (Forall op_typed ops) as H5.
  { constructor; [exact I|]. constructor; [|constructor; [exact I|constructor]]. split; [exact H4|].
    apply Forall_cons; split; [|apply Forall_cons; split; [|apply Forall_cons; split; [|apply Forall_nil_2]]]; intros h E; [|by apply not_elem_of_nil in E|]; apply list_elem_of_singleton in E; apply Hh; [left|right]; congruence. }
  destruct (tape_reads_back clock (λ _, None) [Some []; None; Some []] pool0 room (Some room) "tape.bin" true true start ops H1 H2 H3 H5) as (_ & H & _).
  assert (lg_failed (run_logger clock (λ _, None) ops start) = false) as Hf by (vm_compute; reflexivity).
  split; [exact (proj1 (H Hf))|vm_compute; reflexivity].
Defined.
(** A tape whose last record is cut off after ten bytes. *)
Definition short_of_space (n : nat) : option nat := if (n =? 5)%nat then Some 10%nat else None.
Example cut_off : (λ r, (tr_payload <$> r.1, r.2)) (iter_market_data_records (lg_tape (run_logger clock short_of_space ops start))) =
  ([[1; 2; 3]], TapeError "tape ended mid-record header" 1).
Proof. vm_compute. reflexivity. Qed.
End LoggerDemo.
