(* ===== verification/Operator.v ===== *)
(** * Operator: commands of the operator and their answers

    Models [OperatorCommandHandler::handle_command] of
    [cpp/src/operator/operator_command_handler.cpp]: a line is parsed, the command is passed to
    the control plane, and the response is awaited, at most half a second.  JSON is the classes
    [NlohmannJson], [NlohmannGetters] and [NlohmannText]; the queue of responses is the results
    of its next pops; the loop that waits has fuel, and a theorem says that it is enough when
    every sleep lasts as long as it was asked to. *)

From S2P Require Import Prelude Spsc Universe RestTypes ControlPlaneTypes OrderSession Config OperatorJson.
From Stdlib Require Import Ascii.
From Stdlib Require String.
Open Scope Z_scope.

(** [json::at], with the message of its exception on the left, and [json::dump]. *)
Class NlohmannText `{NlohmannJson} := {
  json_lookup : json → string → string + json;
  json_write : JsonTree → string + string;
}.

Module Operator.
Import Universe Config OperatorJson.

Definition kMAX_WAIT_TIME : Z := 500000000.
Definition kPOLL_INTERVAL : Z := 50000000.
(** Enough rounds for half a second. *)
Definition kMAX_POLLS : nat := 11.

Record CommandResponse := mkCommandResponse { cm_ok : bool; cm_body : string }.
Definition rejected (reason : string) : CommandResponse := mkCommandResponse false ("command rejected: " +:+ reason)%string.
Definition mismatched : CommandResponse := rejected "received response with mismatched request id".

Definition command_type (type : string) : OperatorCommandType :=
  if bool_decide (type = "status"%string) then kSTATUS
  else if bool_decide (type = "shutdown-graceful"%string) then kSHUTDOWN_GRACEFUL
  else if bool_decide (type = "shutdown-forceful"%string) then kSHUTDOWN_FORCEFUL
  else if bool_decide (type = "counterstats"%string) then kCOUNTERSTATS
  else if bool_decide (type = "allow-trading"%string) then kALLOW_TRADING
  else if bool_decide (type = "disable-trading"%string) then kDISABLE_TRADING
  else if bool_decide (type = "cancel-all-orders"%string) then kCANCEL_ALL_ORDERS
  else kOPERATOR_UNKNOWN.

Section Operator.
Context {Q : Type → Type} `{!PushQueue Q} {NJ : NlohmannJson} {NG : NlohmannGetters} {NX : NlohmannText}.
Variable clk : nat → Z.

Definition parse_command (command_line : string) : Result OperatorCommand :=
  j ← json_parse command_line;
  id_value ← json_lookup j "cmd_id";
  cmd_id_str ← json_as_string id_value;
  type_value ← json_lookup j "type";
  type_str ← json_as_string type_value;
  id ← stoull (String.list_ascii_of_string cmd_id_str);
  mret (mkOperatorCommand (command_type type_str) id.1).

Record HandlerState := mkHandlerState {
  hd_server_to_control_queue : Q OperatorCommand;
  hd_control_to_server_queue : list (option OperatorResponse);
  hd_clock_reads : nat;
}.
#[export] Instance eta_HandlerState : Eta HandlerState := λ r,
  mkHandlerState (hd_server_to_control_queue r) (hd_control_to_server_queue r) (hd_clock_reads r).

Definition handler_now : M HandlerState Z := λ s, (clk (hd_clock_reads s), s ⟪ hd_clock_reads ::= S ⟫).
Definition push_command (cmd : OperatorCommand) : M HandlerState bool := λ s,
  let '(b, q) := q_push cmd (hd_server_to_control_queue s) in (b, s ⟪ hd_server_to_control_queue := q ⟫).
Definition pop_response : M HandlerState (option OperatorResponse) := λ s,
  match hd_control_to_server_queue s with
  | [] => (None, s)
  | x :: q => (x, s ⟪ hd_control_to_server_queue := q ⟫)
  end.

Definition newline : string := String.String (ascii_of_N 10) String.EmptyString.
Definition answer_operator (response : OperatorResponse) : Result CommandResponse :=
  text ← json_write (to_json response);
  mret (mkCommandResponse (negb (bool_decide (on_type response = kERROR))) (text +:+ newline)%string).

(** What [catch] answers. *)
Definition or_rejected (r : Result CommandResponse) : CommandResponse :=
  match r with inl e => rejected ("failed to parse command - " +:+ e)%string | inr r => r end.

(** [None]: the fuel has run out. *)
Fixpoint await_response (fuel : nat) (deadline request_id : Z) : M HandlerState (option CommandResponse) :=
  match fuel with
  | O => mret None
  | S fuel' =>
      now ← handler_now;
      if now <? deadline then
        response ← pop_response;
        match response with
        | Some response => mret (Some (if on_request_id response =? request_id then or_rejected (answer_operator response) else mismatched))
        | None => await_response fuel' deadline request_id
        end
      else mret (Some (rejected "timed out waiting for response"))
  end.

Definition handle_command (command_line : string) : M HandlerState (option CommandResponse) :=
  match parse_command command_line with
  | inl e => mret (Some (or_rejected (inl e)))
  | inr cmd =>
      if bool_decide (oq_type cmd = kOPERATOR_UNKNOWN) then mret (Some (rejected "unknown command type"))
      else
        pushed ← push_command cmd;
        if negb pushed then mret (Some (rejected "control queue is full"))
        else
          start ← handler_now;
          await_response kMAX_POLLS (start + kMAX_WAIT_TIME) (oq_request_id cmd)
  end.

(** ** Answers *)

Context {HL : PushQueueLaws Q}.
Implicit Types s : HandlerState.

(** The clock does not run backwards, and a sleep lasts at least as long as it was asked to. *)
Definition paced s : Prop := clk (hd_clock_reads s) ≤ clk (hd_clock_reads s + 1) ∧
  ∀ k, (1 ≤ k)%nat → clk (hd_clock_reads s + k) + kPOLL_INTERVAL ≤ clk (hd_clock_reads s + S k).

(** [response] of control is the response to this command, no error, and [r] is its text. *)
Definition answers (cmd : OperatorCommand) (response : OperatorResponse) (r : CommandResponse) : Prop :=
  on_request_id response = oq_request_id cmd ∧ on_type response ≠ kERROR ∧
  ∃ text, json_write (to_json response) = inr text ∧ cm_body r = (text +:+ newline)%string.
(** Waiting leaves the commands alone and takes at most the first response there is. *)
Record awaited (cmd : OperatorCommand) (r : option CommandResponse) s s' : Prop := {
  aw_commands : hd_server_to_control_queue s' = hd_server_to_control_queue s;
  aw_responses : ∃ n, hd_control_to_server_queue s = replicate n None ++ hd_control_to_server_queue s' ∨
    ∃ response, hd_control_to_server_queue s = replicate n None ++ Some response :: hd_control_to_server_queue s';
  aw_ok : ∀ r', r = Some r' → cm_ok r' = true →
    ∃ n response, hd_control_to_server_queue s = replicate n None ++ Some response :: hd_control_to_server_queue s' ∧ answers cmd response r';
}.

Lemma awaited_silent cmd r s s' : hd_server_to_control_queue s' = hd_server_to_control_queue s → hd_control_to_server_queue s' = hd_control_to_server_queue s →
  (∀ r', r = Some r' → cm_ok r' = false) → awaited cmd r s s'.
Proof.
  intros Hc Hr Hok. split; [done|exists 0%nat; left; by rewrite Hr|]. intros r' E Ht. rewrite (Hok r' E) in Ht. done.
Qed.
Lemma answer_ok response r : or_rejected (answer_operator response) = r → cm_ok r = true →
  on_type response ≠ kERROR ∧ ∃ text, json_write (to_json response) = inr text ∧ cm_body r = (text +:+ newline)%string.
Proof.
  unfold answer_operator, mbind, Result_bind. destruct (json_write _) as [e|text]; cbn; intros <-; cbn; [done|].
  intros Hok%negb_true_iff%bool_decide_eq_false. eauto.
Qed.

Lemma await_outcome fuel deadline cmd s : wp (await_response fuel deadline (oq_request_id cmd)) (λ r s', awaited cmd r s s') s.
Proof.
  revert s. induction fuel as [|fuel IH]; intros s; cbn [await_response].
  { wp_step. by apply awaited_silent. }
  wp_step. unfold wp at 1, handler_now. cbn [fst snd]. set (s1 := s ⟪ _ ::= _ ⟫). destruct (_ <? deadline).
  2: { wp_step. apply awaited_silent; try done. by intros r' [= <-]. }
  wp_step. unfold wp at 1, pop_response. destruct (hd_control_to_server_queue s1) as [|[response|] rest] eqn:Eq; cbn [fst snd].
  - eapply wp_mono; [apply IH|]. cbv beta. intros r s' [A1 A2 A3]. split; [exact A1|exact A2|exact A3].
  - wp_step. change (hd_control_to_server_queue s1) with (hd_control_to_server_queue s) in Eq. split; [done|exists 0%nat; right; by exists response|]. intros r' [= <-] Hok.
    destruct (Z.eqb_spec (on_request_id response) (oq_request_id cmd)) as [Hid|]; [|done]. destruct (answer_ok response _ eq_refl Hok) as (Ht & text & Hw & Hb).
    exists 0%nat, response. split; [done|]. split; [done|]. split; [done|]. by exists text.
  - change (hd_control_to_server_queue s1) with (hd_control_to_server_queue s) in Eq. eapply wp_mono; [apply IH|]. cbv beta. intros r s' [A1 A2 A3]. cbn in *. split; [exact A1|..].
    + rewrite Eq. destruct A2 as (n & [->|(response & ->)]); exists (S n); [left|right; exists response]; done.
    + intros r' E Hok. destruct (A3 r' E Hok) as (n & response & H2 & H3). exists (S n), response. by rewrite Eq, H2.
Qed.

(** The loop ends before its fuel does. *)
Lemma await_ends fuel deadline id n0 s : (∀ k, (1 ≤ k)%nat → clk (n0 + k) + kPOLL_INTERVAL ≤ clk (n0 + S k)) → (n0 < hd_clock_reads s)%nat →
  deadline ≤ clk (hd_clock_reads s) + kPOLL_INTERVAL * Z.of_nat fuel → wp (await_response (S fuel) deadline id) (λ r _, is_Some r) s.
Proof.
  intros Hp. revert s. induction fuel as [|fuel IH]; intros s Hn Hd; cbn [await_response]; wp_step; unfold wp at 1, handler_now; cbn [fst snd].
  { rewrite (proj2 (Z.ltb_ge _ _)) by lia. by wp_step. }
  set (s1 := s ⟪ _ ::= _ ⟫). destruct (_ <? deadline); [|by wp_step]. wp_step. unfold wp at 1, pop_response.
  specialize (Hp (hd_clock_reads s - n0)%nat ltac:(lia)) as Hstep. replace (n0 + (hd_clock_reads s - n0))%nat with (hd_clock_reads s) in Hstep by lia.
  replace (n0 + S (hd_clock_reads s - n0))%nat with (S (hd_clock_reads s)) in Hstep by lia.
  assert (∀ s2, hd_clock_reads s2 = S (hd_clock_reads s) → wp (await_response (S fuel) deadline id) (λ r _, is_Some r) s2) as Hnext by (intros s2 E; apply IH; rewrite E; lia).
  destruct (hd_control_to_server_queue s1) as [|[response|] rest]; cbn [fst snd]; [by apply Hnext|by wp_step|by apply Hnext].
Qed.

(** A command that is known, and what is known of the queues if it was passed on. *)
Definition known_command (line : string) (cmd : OperatorCommand) : Prop := parse_command line = inr cmd ∧ oq_type cmd ≠ kOPERATOR_UNKNOWN.
Definition commands_sent s : list OperatorCommand := q_sent (hd_server_to_control_queue s).

(** C34: the operator gets the answer to his own command.  Whatever line the operator sends,
    and whatever control puts in the queue of responses, the handler returns; it passes at most
    one command on, the one the line says, and only if its type is known; and it answers that
    all is well only if it has passed the command on, and then with the text of the very
    response that was first in the queue, which it has taken, whose id is the one of the
    command and which is no error. *)
Theorem operator_gets_his_answer line s :
  paced s →
  ∃ r, (handle_command line s).1 = Some r ∧
    (commands_sent (handle_command line s).2 = commands_sent s ∧ cm_ok r = false ∨
     ∃ cmd, known_command line cmd ∧ commands_sent (handle_command line s).2 = commands_sent s ++ [cmd] ∧
       (cm_ok r = true → ∃ n response,
          hd_control_to_server_queue s = replicate n None ++ Some response :: hd_control_to_server_queue (handle_command line s).2 ∧
          answers cmd response r)).
Proof.
  intros [P1 P2]. change (wp (handle_command line) (λ r' s', ∃ r, r' = Some r ∧ (commands_sent s' = commands_sent s ∧ cm_ok r = false ∨
     ∃ cmd, known_command line cmd ∧ commands_sent s' = commands_sent s ++ [cmd] ∧
       (cm_ok r = true → ∃ n response, hd_control_to_server_queue s = replicate n None ++ Some response :: hd_control_to_server_queue s' ∧ answers cmd response r))) s).
  unfold handle_command. destruct (parse_command line) as [e|cmd] eqn:Ep; [wp_step; eauto|]. destruct (bool_decide _) eqn:Eu; [wp_step; eauto|]. apply bool_decide_eq_false in Eu.
  wp_step. unfold wp at 1, push_command. pose proof (push_sent cmd (hd_server_to_control_queue s)) as Hs. destruct (q_push cmd _) as [pushed q]. cbn [fst snd] in *.
  destruct pushed; cbn [negb]; [|wp_step; eexists; split; [done|left; split; [|done]]; exact Hs]. wp_step. unfold wp at 1, handler_now. cbn [fst snd].
  set (s1 := s ⟪ _ := _ ⟫ ⟪ _ ::= _ ⟫). change (clk (hd_clock_reads _)) with (clk (hd_clock_reads s)).
  pose proof (await_outcome kMAX_POLLS (clk (hd_clock_reads s) + kMAX_WAIT_TIME) cmd s1) as Ho.
  pose proof (await_ends 10 (clk (hd_clock_reads s) + kMAX_WAIT_TIME) (oq_request_id cmd) (hd_clock_reads s) s1 P2 ltac:(cbn; lia)) as He.
  change (hd_clock_reads s1) with (S (hd_clock_reads s)) in He. rewrite <- Nat.add_1_r in He. specialize (He ltac:(unfold kMAX_WAIT_TIME, kPOLL_INTERVAL; lia)).
  unfold wp in *. destruct He as [r Er]. change (S 10) with kMAX_POLLS in Er. exists r. split; [exact Er|]. right. exists cmd. split; [done|]. destruct Ho as [O1 O2 O3].
  split; [unfold commands_sent; by rewrite O1|]. intros Hok. exact (O3 r Er Hok).
Qed.

(** ** Late answers *)

(** Commands one after another, with their answers.  Before each, control may have taken
    commands from its queue; its response to each comes when the handler has returned. *)
Inductive served : HandlerState → list (OperatorCommand * option CommandResponse) → HandlerState → Prop :=
| served_nil s : served s [] s
| served_cons s line cmd queue response rest s' :
    known_command line cmd → (q_push cmd (hd_server_to_control_queue s)).1 = true → on_request_id response = oq_request_id cmd →
    served ((handle_command line s).2 ⟪ hd_server_to_control_queue := queue ⟫ ⟪ hd_control_to_server_queue ::= λ q, q ++ [Some response] ⟫) rest s' →
    served s ((cmd, (handle_command line s).1) :: rest) s'.

(** Neighbours differ. *)
Fixpoint changing (id : Z) (ids : list Z) : Prop := match ids with [] => True | id' :: ids => id ≠ id' ∧ changing id' ids end.

Lemma stale_mismatch line cmd late s : known_command line cmd → (q_push cmd (hd_server_to_control_queue s)).1 = true → (∀ n, clk (S n) < clk n + kMAX_WAIT_TIME) →
  hd_control_to_server_queue s = [Some late] → on_request_id late ≠ oq_request_id cmd →
  (handle_command line s).1 = Some mismatched ∧ hd_control_to_server_queue (handle_command line s).2 = [].
Proof.
  intros [Hk Ht] Hp Hc Hl Hne. change (wp (handle_command line) (λ r s', r = Some mismatched ∧ hd_control_to_server_queue s' = []) s).
  unfold handle_command. rewrite Hk, bool_decide_eq_false_2 by done. wp_step. unfold wp at 1, push_command. destruct (q_push cmd _) as [b q]. cbn [fst snd] in *. subst b. cbn [negb].
  wp_step. unfold wp at 1, handler_now. cbn [fst snd]. change kMAX_POLLS with (S 10). cbn [await_response]. wp_step. unfold wp at 1, handler_now. cbn [fst snd].
  rewrite (proj2 (Z.ltb_lt _ _)) by apply Hc. wp_step. unfold wp at 1, pop_response. cbn [hd_control_to_server_queue]. set (s1 := s ⟪ _ := _ ⟫ ⟪ _ ::= _ ⟫ ⟪ _ ::= _ ⟫).
  change (hd_control_to_server_queue s1) with (hd_control_to_server_queue s). rewrite Hl. cbn [fst snd]. wp_step. by rewrite (proj2 (Z.eqb_neq _ _) Hne).
Qed.

(** One answer that comes too late spoils all that follow.  Once a response is left in the
    queue (the handler has given up on its command), every later command is carried out, and
    yet every one of them is answered as rejected, with a mismatched id: each takes the
    response to the one before it, as long as neighbouring commands have different ids. *)
Theorem late_answer_spoils_the_rest late s trace s' :
  (∀ n, clk (S n) < clk n + kMAX_WAIT_TIME) → hd_control_to_server_queue s = [Some late] →
  served s trace s' → changing (on_request_id late) ((λ x, oq_request_id x.1) <$> trace) →
  Forall (λ x, x.2 = Some mismatched) trace ∧ ∃ left, hd_control_to_server_queue s' = [Some left].
Proof.
  intros Hc Hl Hs. revert late Hl. induction Hs as [s|s line cmd queue response rest s' Hk Hp Hid Hs IH]; intros late Hl Hch; [eauto|]. destruct Hch as [Hne Hch].
  destruct (stale_mismatch line cmd late s Hk Hp Hc Hl Hne) as [H1 H2]. destruct (IH response) as [F L].
  - cbn. by rewrite H2.
  - by rewrite Hid.
  - split; [|exact L]. by constructor.
Qed.
End Operator.
End Operator.
