(* ===== verification/OperatorSocket.v ===== *)
(** * OperatorSocket: the command server and its client

    Models [cpp/src/socket/unix_command_server.cpp] and [cpp/apps/predexctl/main.cpp].  What the
    system calls return is a script: a list of rounds, each with the time, the result of [poll]
    and of the calls that follow it.  The loops run through the script; when it ends they are
    still waiting.  Starting the server is a sequence of calls, recorded as actions. *)

From S2P Require Import Prelude Universe OperatorJson.
From Stdlib Require Import Ascii.
From Stdlib Require String.
From stdpp Require Import pretty.
Open Scope Z_scope.

Module OperatorSocket.
Import Universe.

(** ** Lines *)

Definition newline_char : ascii := ascii_of_N 10.
(** The bytes before the first newline, and whether there is one. *)
Fixpoint split_line (chunk : list ascii) : list ascii * bool :=
  match chunk with
  | [] => ([], false)
  | c :: rest => if bool_decide (c = newline_char) then ([], true) else let '(payload, found) := split_line rest in (c :: payload, found)
  end.

Inductive Gathered := | More (line : list ascii) | Line (line : list ascii) | TooLarge.
Definition gather (max_bytes : nat) (line chunk : list ascii) : Gathered :=
  let '(payload, found) := split_line chunk in
  if (max_bytes <? length line + length payload)%nat then TooLarge
  else if found then Line (line ++ payload) else More (line ++ payload).

(** The result of [read] or [recv]. *)
Inductive SysRead := | ReadBytes (chunk : list ascii) | ReadEof | ReadInterrupted | ReadAgain | ReadFailed (error : string).
(** The result of [send]. *)
Inductive SysSend := | SentBytes (count : nat) | SendInterrupted | SendAgain | SendFailed (error : string).

(** ** The server *)

Definition kDEFAULT_CLIENT_IO_TIMEOUT_MS : Z := 100.
Definition kDEFAULT_MAX_REQUEST_BYTES : nat := Z.to_nat 1024.

(** What [poll] says of the client and of the descriptor that stops the server. *)
Inductive ServerPoll := | PollTimeout | PollInterrupted | PollFailed (error : string) | PollReady (client_invalid client_ready stop_ready : bool).
Record ReadRound := mkReadRound { sr_now : Z; sr_poll : ServerPoll; sr_stop_requested : bool; sr_reads : list SysRead }.

Inductive ClientRead := | Keep (request : list ascii) | Complete (request : list ascii) | Abandon.
(** Reads until nothing is left. *)
Fixpoint drain_client (max_bytes : nat) (reads : list SysRead) (request : list ascii) : ClientRead :=
  match reads with
  | [] => Keep request
  | ReadBytes chunk :: rest =>
      match gather max_bytes request chunk with
      | TooLarge => Abandon
      | Line request => Complete request
      | More request => drain_client max_bytes rest request
      end
  | ReadEof :: _ => Abandon
  | ReadInterrupted :: rest => drain_client max_bytes rest request
  | ReadAgain :: _ => Keep request
  | ReadFailed _ :: _ => Abandon
  end.

Inductive ServerRead := | RequestLine (request : list ascii) | ClientAbandoned | ServerStopped | ServerFailed (error : string) | StillReading (request : list ascii).
Fixpoint read_request (max_bytes : nat) (read_deadline : Z) (rounds : list ReadRound) (request : list ascii) : ServerRead :=
  match rounds with
  | [] => StillReading request
  | r :: rest =>
      if read_deadline <=? sr_now r then ClientAbandoned
      else
        match sr_poll r with
        | PollTimeout => ClientAbandoned
        | PollInterrupted => if sr_stop_requested r then ServerStopped else read_request max_bytes read_deadline rest request
        | PollFailed error => ServerFailed ("client read poll failed: " +:+ error)%string
        | PollReady client_invalid client_ready stop_ready =>
            if stop_ready || sr_stop_requested r then ServerStopped
            else if client_invalid then ClientAbandoned
            else if client_ready then
              match drain_client max_bytes (sr_reads r) request with
              | Keep request => read_request max_bytes read_deadline rest request
              | Complete request => RequestLine request
              | Abandon => ClientAbandoned
              end
            else read_request max_bytes read_deadline rest request
        end
  end.

(** Every response ends with a newline. *)
Definition terminated (body : list ascii) : list ascii :=
  if bool_decide (last body = Some newline_char) then body else body ++ [newline_char].

(** What [poll] says while the response is written. *)
Inductive WritePoll := | WriteTimeout | WriteInterrupted | WritePollFailed (error : string) | WriteReady (client_closed writable stop_ready : bool).
Record WriteRound := mkWriteRound { sw_now : Z; sw_poll : WritePoll; sw_stop_requested : bool; sw_send : SysSend }.
Inductive ServerWrite := | Written | ClientDropped | WriteStopped | WriteFailed (error : string) | StillWriting.

(** The result, and how many bytes the client was sent. *)
Fixpoint write_response (write_deadline : Z) (rounds : list WriteRound) (size total : nat) : ServerWrite * nat :=
  if (size <=? total)%nat then (Written, total)
  else
    match rounds with
    | [] => (StillWriting, total)
    | r :: rest =>
        if write_deadline <=? sw_now r then (ClientDropped, total)
        else
          match sw_poll r with
          | WriteTimeout => (ClientDropped, total)
          | WriteInterrupted => if sw_stop_requested r then (WriteStopped, total) else write_response write_deadline rest size total
          | WritePollFailed error => (WriteFailed ("client write poll failed: " +:+ error)%string, total)
          | WriteReady client_closed writable stop_ready =>
              if stop_ready || sw_stop_requested r then (WriteStopped, total)
              else if client_closed then (ClientDropped, total)
              else if negb writable then write_response write_deadline rest size total
              else
                match sw_send r with
                | SentBytes count => if (0 <? count)%nat then write_response write_deadline rest size (total + count) else (ClientDropped, total)
                | SendInterrupted | SendAgain => write_response write_deadline rest size total
                | SendFailed _ => (ClientDropped, total)
                end
          end
    end.

(** *** One client *)

Record ServeScript := mkServeScript {
  sv_read_deadline : Z;
  sv_read_rounds : list ReadRound;
  sv_stop_after_read : bool;
  sv_write_deadline : Z;
  sv_write_rounds : list WriteRound;
}.
Inductive ClientServed := | ServedOne | ServedStop | ServedError (error : string) | ServedWaits.
(** The outcome, and the bytes the client was sent.  [handler] is [ICommandHandler]; [None]
    means that it has not returned. *)
Definition serve_client {S} (handler : list ascii → M S (option (list ascii))) (max_bytes : nat) (x : ServeScript) : M S (ClientServed * list ascii) :=
  match read_request max_bytes (sv_read_deadline x) (sv_read_rounds x) [] with
  | ServerStopped => mret (ServedStop, [])
  | ServerFailed error => mret (ServedError error, [])
  | StillReading _ => mret (ServedWaits, [])
  | ClientAbandoned => mret (if sv_stop_after_read x then ServedStop else ServedOne, [])
  | RequestLine request =>
      if sv_stop_after_read x then mret (ServedStop, [])
      else
        response ← handler request;
        match response with
        | None => mret (ServedWaits, [])
        | Some body =>
            let body := terminated body in
            let '(outcome, total) := write_response (sv_write_deadline x) (sv_write_rounds x) (length body) 0 in
            mret (match outcome with
                  | Written | ClientDropped => ServedOne
                  | WriteStopped => ServedStop
                  | WriteFailed error => ServedError error
                  | StillWriting => ServedWaits
                  end, take total body)
        end
  end.

(** *** The loop that accepts clients *)

Inductive ListenPoll := | ListenInterrupted | ListenFailed (error : string) | ListenReady (stop_ready stop_failed listen_failed listen_ready : bool).
Inductive AcceptResult := | Accepted | AcceptInterrupted | AcceptRetry | AcceptFailed (error : string).
Inductive ListenStep := | ListenAgain | ServeClient | StopServing | StopWith (error : string).
Definition listen_step (poll : ListenPoll) (stop_requested : bool) (accept : AcceptResult) : ListenStep :=
  match poll with
  | ListenInterrupted => if stop_requested then StopServing else ListenAgain
  | ListenFailed error => StopWith ("poll failed: " +:+ error)%string
  | ListenReady stop_ready stop_failed listen_failed listen_ready =>
      if stop_ready || stop_requested then StopServing
      else if stop_failed then StopWith "stop eventfd poll failure"
      else if listen_failed then StopWith "listening socket poll failure"
      else if listen_ready then
        match accept with
        | Accepted => ServeClient
        | AcceptInterrupted => if stop_requested then StopServing else ListenAgain
        | AcceptRetry => ListenAgain
        | AcceptFailed error => StopWith ("failed to accept client connection: " +:+ error)%string
        end
      else ListenAgain
  end.

(** *** Start *)

(** What is at the path of the socket. *)
Inductive PathState := | PathMissing | PathStatFailed (error : string) | PathFound (is_socket owned_by_user : bool).
Inductive LockResult := | Locked | LockedByAnother | LockFailed (error : string).
(** The results of the calls; [None] is success. *)
Record StartScript := mkStartScript {
  ss_has_handler : bool;
  ss_timeout_in_range : bool;
  ss_lock_file_open : option string;
  ss_path_too_long : bool;
  ss_lock : LockResult;
  ss_path : PathState;
  ss_unlink : option string;
  ss_socket : option string;
  ss_bind : option string;
  ss_chmod : option string;
  ss_listen : option string;
  ss_eventfd : option string;
}.
Inductive StartAction := | ActOpenLockFile | ActLock | ActStat | ActUnlink | ActSocket | ActBind | ActChmod | ActListen | ActEventfd | ActReady | ActGuardUnlink.

(** The actions that were taken, and the error if there is one. *)
Definition check_call (result : option string) (action : StartAction) (error : string) (next : list StartAction * option string) : list StartAction * option string :=
  match result with
  | Some reason => ([action], Some (error +:+ reason)%string)
  | None => (action :: next.1, next.2)
  end.
(** The destructor of [SocketPathGuard] after [mark_owned]: a failure removes the socket again. *)
Definition owned_path (r : list StartAction * option string) : list StartAction * option string :=
  match r.2 with Some _ => (r.1 ++ [ActGuardUnlink], r.2) | None => r end.
Definition start_listening (x : StartScript) : list StartAction * option string :=
  check_call (ss_socket x) ActSocket "failed to create socket: " (
  check_call (ss_bind x) ActBind "failed to bind socket: " (owned_path (
  check_call (ss_chmod x) ActChmod "failed to set socket permissions: " (
  check_call (ss_listen x) ActListen "failed to listen on socket: " (
  check_call (ss_eventfd x) ActEventfd "failed to create eventfd: " ([ActReady], None)))))).
Definition start_server (socket_path : string) (x : StartScript) : list StartAction * option string :=
  if negb (ss_has_handler x) then ([], Some "command_handler is null"%string)
  else if negb (ss_timeout_in_range x) then ([], Some "client I/O timeout exceeds poll timeout range"%string)
  else if ss_path_too_long x then ([ActOpenLockFile], Some "socket path is too long"%string)
  else
    check_call (ss_lock_file_open x) ActOpenLockFile "failed to open lock file: " (
    match ss_lock x with
    | LockedByAnother => ([ActLock], Some "another instance is already running"%string)
    | LockFailed error => ([ActLock], Some ("failed to acquire lock on lock file: " +:+ error)%string)
    | Locked =>
        let '(actions, error) :=
          match ss_path x with
          | PathMissing => start_listening x
          | PathStatFailed error => ([], Some ("failed to stat socket path: " +:+ error)%string)
          | PathFound is_socket owned_by_user =>
              if negb is_socket then ([], Some ("socket path exists and is not a socket: " +:+ socket_path)%string)
              else if negb owned_by_user then ([], Some ("socket path exists and is not owned by the current user: " +:+ socket_path)%string)
              else check_call (ss_unlink x) ActUnlink "failed to remove existing socket file: " (start_listening x)
          end in
        (ActLock :: ActStat :: actions, error)
    end).

#[export] Instance StartAction_eq_dec : EqDecision StartAction.
Proof. solve_decision. Defined.
(** The list of actions is known. *)
Ltac by_actions := cbn; split_and!; first [intros Hin; first [by split | done | exfalso; revert Hin; apply (bool_decide_unpack _); by vm_compute] | done].
Lemma listening_actions x :
  (ActUnlink ∈ (start_listening x).1 → False) ∧ (ActListen ∈ (start_listening x).1 → ss_chmod x = None) ∧
  ((start_listening x).2 = None ↔ last (start_listening x).1 = Some ActReady).
Proof.
  unfold start_listening, check_call. destruct (ss_socket x); [by_actions|]. destruct (ss_bind x); [by_actions|]. destruct (ss_chmod x); [by_actions|].
  destruct (ss_listen x); [by_actions|]. destruct (ss_eventfd x); by_actions.
Qed.
Lemma listening_some x : ∃ first rest, (start_listening x).1 = first :: rest.
Proof. unfold start_listening, check_call. destruct (ss_socket x); eauto. Qed.
(** A socket that was there is removed only with the lock held and if it is the user's own; and
    the server listens only once the socket is closed to others. *)
Theorem start_is_exclusive socket_path x :
  (ActUnlink ∈ (start_server socket_path x).1 → ss_lock x = Locked ∧ ss_path x = PathFound true true) ∧
  (ActListen ∈ (start_server socket_path x).1 → ss_lock x = Locked ∧ ss_chmod x = None) ∧
  ((start_server socket_path x).2 = None ↔ last (start_server socket_path x).1 = Some ActReady).
Proof.
  destruct (listening_actions x) as (L1 & L2 & L3). destruct (listening_some x) as (first & rest & E). unfold start_server, check_call.
  destruct (ss_has_handler x); [|by_actions]. destruct (ss_timeout_in_range x); [|by_actions]. destruct (ss_path_too_long x); [by_actions|].
  destruct (ss_lock_file_open x); [by_actions|]. destruct (ss_lock x); [|by_actions..]. destruct (ss_path x) as [|error|is_socket owned]; [|by_actions|].
  - cbn [negb]. destruct (start_listening x) as [actions error]. cbn [fst snd] in *. subst actions. rewrite !elem_of_cons. rewrite elem_of_cons in L1, L2.
    split_and!; [naive_solver|naive_solver|exact L3].
  - destruct is_socket; [|by_actions]. destruct owned; [|by_actions]. cbn [negb]. destruct (ss_unlink x); [by_actions|]. destruct (start_listening x) as [actions error]. cbn [fst snd] in *. subst actions.
    rewrite !elem_of_cons. rewrite elem_of_cons in L1, L2. split_and!; [naive_solver|naive_solver|exact L3].
Qed.

(** ** The client *)

Inductive SocketExitCode := | kSuccess | kInvalidArgs | kSocketFailure | kExitProtocolFailure | kSocketTimeout | kWriteFailure | kReadFailure.

Definition kCMD_ID_SHIFT : Z := 16.
Definition kCMD_ID_MASK : Z := 65535.
(** From the time in microseconds and the id of the process. *)
Definition cmd_id (now_us pid : Z) : Z := Z.lor (u64 (Z.shiftl (u64 now_us) kCMD_ID_SHIFT)) (Z.land (u64 pid) kCMD_ID_MASK).
Definition make_cmd_id (now_us pid : Z) : string := pretty (Z.to_N (cmd_id now_us pid)).
Definition request_json (cmd_id command : string) : JsonTree := JObject [("cmd_id"%string, JText cmd_id); ("type"%string, JText command)].

Definition normalize_command (command : string) : option string :=
  if bool_decide (command = "status"%string) then Some "status"%string
  else if bool_decide (command = "counterstats"%string) || bool_decide (command = "stats"%string) then Some "counterstats"%string
  else if bool_decide (command = "shutdown-graceful"%string) || bool_decide (command = "shutdown_graceful"%string) then Some "shutdown-graceful"%string
  else if bool_decide (command = "shutdown-forceful"%string) || bool_decide (command = "shutdown_forceful"%string) then Some "shutdown-forceful"%string
  else if bool_decide (command = "allow-trading"%string) || bool_decide (command = "allow_trading"%string) then Some "allow-trading"%string
  else if bool_decide (command = "disable-trading"%string) || bool_decide (command = "disable_trading"%string) then Some "disable-trading"%string
  else if bool_decide (command = "cancel-all-orders"%string) || bool_decide (command = "cancel_all_orders"%string) then Some "cancel-all-orders"%string
  else None.

Record UnixCommandClientConfig := mkUnixCommandClientConfig { uc_socket_path : string; uc_timeout_ms : Z; uc_command : string }.
Inductive ParseArgsResult := | ArgsOk (config : UnixCommandClientConfig) | HelpRequested | ArgsError (error : string).

Definition kINT_MAX : Z := 2147483647.
(** [std::from_chars] over the whole text, and the range test. *)
Definition parse_timeout (value : string) : option Z :=
  match String.list_ascii_of_string value with
  | [] => None
  | digits =>
      match read_digits 0 digits with
      | (timeout_ms, []) => if (U32_MAX <? timeout_ms) || (timeout_ms =? 0) || (kINT_MAX <? timeout_ms) then None else Some timeout_ms
      | _ => None
      end
  end.

Record ArgState := mkArgState { ag_socket_path : string; ag_timeout_ms : Z; ag_explicit_socket : bool; ag_explicit_timeout : bool; ag_command : option string }.

(** The arguments after the name of the program. *)
Fixpoint scan_args (arguments : list string) (s : ArgState) : ParseArgsResult + ArgState :=
  match arguments with
  | [] => inr s
  | arg :: rest =>
      if bool_decide (arg = "--help"%string) || bool_decide (arg = "-h"%string) then inl HelpRequested
      else if bool_decide (arg = "--socket"%string) then
        if ag_explicit_socket s then inl (ArgsError "--socket specified more than once")
        else
          match rest with
          | [] => inl (ArgsError "--socket requires a path")
          | path :: rest =>
              if bool_decide (path = ""%string) then inl (ArgsError "--socket path must not be empty")
              else scan_args rest (mkArgState path (ag_timeout_ms s) true (ag_explicit_timeout s) (ag_command s))
          end
      else if bool_decide (arg = "--timeout-ms"%string) then
        if ag_explicit_timeout s then inl (ArgsError "--timeout-ms specified more than once")
        else
          match rest with
          | [] => inl (ArgsError "--timeout-ms requires a value")
          | value :: rest =>
              match parse_timeout value with
              | None => inl (ArgsError "invalid --timeout-ms value")
              | Some timeout_ms => scan_args rest (mkArgState (ag_socket_path s) timeout_ms (ag_explicit_socket s) true (ag_command s))
              end
          end
      else if bool_decide (head (String.list_ascii_of_string arg) = Some "-"%char) then inl (ArgsError ("unknown option: " +:+ arg)%string)
      else
        match ag_command s with
        | Some _ => inl (ArgsError "only one command may be specified")
        | None =>
            if bool_decide (arg = ""%string) then inl (ArgsError "command must not be empty")
            else scan_args rest (mkArgState (ag_socket_path s) (ag_timeout_ms s) (ag_explicit_socket s) (ag_explicit_timeout s) (Some arg))
        end
  end.

(** [environment]: the variable [PREDEX_SOCKET_PATH]. *)
Definition parse_args (environment : option string) (arguments : list string) : ParseArgsResult :=
  match scan_args arguments (mkArgState (default ""%string environment) 2000 false false None) with
  | inl result => result
  | inr s =>
      if bool_decide (ag_socket_path s = ""%string) then ArgsError "no socket path specified; use --socket or set PREDEX_SOCKET_PATH"
      else
        match ag_command s with
        | None => ArgsError "no command specified"
        | Some command =>
            match normalize_command command with
            | None => ArgsError ("unknown command: " +:+ command)%string
            | Some command => ArgsOk (mkUnixCommandClientConfig (ag_socket_path s) (ag_timeout_ms s) command)
            end
        end
  end.

(** *** Connecting, sending and receiving *)

Inductive ClientPoll := | CTimeout | CInterrupted | CFailed (error : string) | CReady (failed ready : bool).
(** [cr_failed] of a round is what the revents say: an error while connecting and receiving, also
    that the server has hung up while sending. *)
Record ConnectRound := mkConnectRound { cc_now : Z; cc_poll : ClientPoll; cc_socket_error : option string }.
Record SendRound := mkSendRound { cs_now : Z; cs_poll : ClientPoll; cs_send : SysSend }.
Record ReceiveRound := mkReceiveRound { cv_now : Z; cv_poll : ClientPoll; cv_recv : SysRead }.

Inductive Exit (A : Type) := | Ends (code : SocketExitCode) (error : string) | Goes (a : A) | Waits.
Arguments Ends {A} code error.
Arguments Goes {A} a.
Arguments Waits {A}.

Fixpoint client_connect (deadline : Z) (rounds : list ConnectRound) : Exit unit :=
  match rounds with
  | [] => Waits
  | r :: rest =>
      if deadline <=? cc_now r then Ends kSocketTimeout "connection timed out"
      else
        match cc_poll r with
        | CTimeout => Ends kSocketTimeout "connection timeout"
        | CInterrupted => client_connect deadline rest
        | CFailed error => Ends kSocketFailure ("connection poll failed: " +:+ error)
        | CReady invalid ready =>
            if invalid then Ends kSocketFailure "connection socket became invalid"
            else if ready then
              match cc_socket_error r with
              | Some error => Ends kSocketFailure ("connection socket error: " +:+ error)
              | None => Goes tt
              end
            else client_connect deadline rest
        end
  end.

(** The number of bytes the server was sent, at the end. *)
Fixpoint client_send (deadline : Z) (rounds : list SendRound) (size total : nat) : Exit nat :=
  if (size <=? total)%nat then Goes total
  else
    match rounds with
    | [] => Waits
    | r :: rest =>
        if deadline <=? cs_now r then Ends kSocketTimeout "send timed out"
        else
          match cs_poll r with
          | CTimeout => Ends kSocketTimeout "send timed out"
          | CInterrupted => client_send deadline rest size total
          | CFailed error => Ends kSocketFailure ("send poll failed: " +:+ error)
          | CReady closed ready =>
              if closed then Ends kWriteFailure "socket closed while sending request"
              else if negb ready then client_send deadline rest size total
              else
                match cs_send r with
                | SentBytes count => if (0 <? count)%nat then client_send deadline rest size (total + count)
                                     else Ends kWriteFailure "server closed connection while sending request"
                | SendInterrupted | SendAgain => client_send deadline rest size total
                | SendFailed error => Ends kWriteFailure ("send failed: " +:+ error)
                end
          end
    end.

Definition kMAX_RESPONSE_SIZE : nat := Z.to_nat 16777216.
Fixpoint client_receive (max_bytes : nat) (deadline : Z) (rounds : list ReceiveRound) (response : list ascii) : Exit (list ascii) :=
  match rounds with
  | [] => Waits
  | r :: rest =>
      if deadline <=? cv_now r then Ends kSocketTimeout "receive timed out"
      else
        match cv_poll r with
        | CTimeout => Ends kSocketTimeout "receive timed out"
        | CInterrupted => client_receive max_bytes deadline rest response
        | CFailed error => Ends kSocketFailure ("receive poll failed: " +:+ error)
        | CReady failed ready =>
            if failed then Ends kSocketFailure "receive poll error"
            else if negb ready then client_receive max_bytes deadline rest response
            else
              match cv_recv r with
              | ReadFailed error => Ends kReadFailure ("receive failed: " +:+ error)
              | ReadInterrupted | ReadAgain => client_receive max_bytes deadline rest response
              | ReadEof => Ends kReadFailure "connection closed by server"
              | ReadBytes chunk =>
                  match gather max_bytes response chunk with
                  | TooLarge => Ends kReadFailure "response too large"
                  | Line response => Goes response
                  | More response => client_receive max_bytes deadline rest response
                  end
              end
        end
  end.

(** [sizeof(sockaddr_un::sun_path)] *)
Definition kSUN_PATH_SIZE : nat := 108.
(** The whole client: the results of [socket] and [connect] ([None]: it is in progress), and
    the rounds of the three loops.  The request is written as [request_text] and a newline. *)
Record ClientScript := mkClientScript {
  ck_socket : option string;
  ck_connect : option (option string);
  ck_start : Z;
  ck_connect_rounds : list ConnectRound;
  ck_send_rounds : list SendRound;
  ck_receive_rounds : list ReceiveRound;
}.
Definition client_main (config : UnixCommandClientConfig) (request_text : list ascii) (x : ClientScript) : Exit (list ascii) :=
  if bool_decide (uc_socket_path config = ""%string) || (kSUN_PATH_SIZE <=? length (String.list_ascii_of_string (uc_socket_path config)))%nat
  then Ends kInvalidArgs "invalid socket path"
  else
    match ck_socket x with
    | Some error => Ends kSocketFailure ("failed to create socket: " +:+ error)
    | None =>
        let deadline := ck_start x + uc_timeout_ms config * 1000000 in
        match (match ck_connect x with
               | Some (Some error) => Ends kSocketFailure ("failed to connect: " +:+ error)
               | Some None => Goes tt
               | None => client_connect deadline (ck_connect_rounds x)
               end) with
        | Ends code error => Ends code error
        | Waits => Waits
        | Goes _ =>
            match client_send deadline (ck_send_rounds x) (length (request_text ++ [newline_char])) 0 with
            | Ends code error => Ends code error
            | Waits => Waits
            | Goes _ => client_receive kMAX_RESPONSE_SIZE deadline (ck_receive_rounds x) []
            end
        end
    end.
End OperatorSocket.
