(* ===== verification/OperatorLine.v ===== *)
(** * OperatorLine: a command from the operator's shell to the control plane

    However the kernel cuts a line into pieces, both ends put the same line together; and every
    command line that the client accepts arrives at the handler as the command it names.

    At the end, Module [OperatorDemo]: an operator's session, for the witnesses. *)

From S2P Require Import Prelude Spsc Universe RestTypes ControlPlaneTypes OrderSession Config OperatorJson Operator OperatorSocket.
From Stdlib Require Import Ascii.
From Stdlib Require String.
From stdpp Require Import pretty.
Open Scope Z_scope.

(** What [dump] writes without indentation is one line, and parsing an object of strings gives
    its members back. *)
Class NlohmannRoundTrip `{NlohmannGetters} `{!NlohmannText} := {
  dump_one_line : ∀ t text, json_write t = inr text → OperatorSocket.newline_char ∉ String.list_ascii_of_string text;
  dump_parse : ∀ (members : list (string * string)) text, NoDup members.*1 → json_write (JObject ((λ m, (m.1, JText m.2)) <$> members)) = inr text →
    ∃ j, json_parse text = inr j ∧ ∀ name value, (name, value) ∈ members → ∃ v, json_lookup j name = inr v ∧ json_as_string v = inr value;
}.

Module OperatorLine.
Import Universe Config Operator OperatorSocket.

Abbreviation chars := String.list_ascii_of_string.

(** ** Lines *)

Definition plain (l : list ascii) : Prop := newline_char ∉ l.
Lemma split_line_plain l : plain l → split_line l = (l, false).
Proof.
  unfold plain. induction l as [|c l IH]; [done|]. intros [Hc Hl]%not_elem_of_cons. cbn [split_line app]. rewrite bool_decide_eq_false_2 by done. by rewrite IH.
Qed.
Lemma split_line_ends l rest : plain l → split_line (l ++ newline_char :: rest) = (l, true).
Proof.
  unfold plain. induction l as [|c l IH]; [intros _; cbn [split_line app]; by rewrite bool_decide_eq_true_2|]. intros [Hc Hl]%not_elem_of_cons. cbn [split_line app]. rewrite bool_decide_eq_false_2 by done. by rewrite IH.
Qed.
Lemma split_line_cases l : plain l ∨ ∃ line rest, plain line ∧ l = line ++ newline_char :: rest.
Proof.
  unfold plain. induction l as [|c l IH]; [left; apply not_elem_of_nil|]. destruct (decide (c = newline_char)) as [->|Hc]; [right; exists [], l; split; [apply not_elem_of_nil|done]|].
  destruct IH as [H|(line & rest & H & ->)]; [left|right; exists (c :: line), rest; split; [|done]]; by apply not_elem_of_cons.
Qed.

Lemma gather_line max line rest extra : plain (line ++ rest) → (length (line ++ rest) ≤ max)%nat → gather max line (rest ++ newline_char :: extra) = Line (line ++ rest).
Proof.
  intros Hp Hm. unfold plain in Hp. unfold gather. rewrite split_line_ends by (unfold plain; set_solver). rewrite length_app in Hm. by rewrite (proj2 (Nat.ltb_ge _ _)) by lia.
Qed.
(** A piece either completes the line or is part of it. *)
Lemma gather_step max line rest chunk extra : plain (line ++ rest) → (length (line ++ rest) ≤ max)%nat → (∃ tail, chunk ++ extra = rest ++ newline_char :: tail) →
  gather max line chunk = Line (line ++ rest) ∨ ∃ rest' tail, rest = chunk ++ rest' ∧ gather max line chunk = More (line ++ chunk) ∧ extra = rest' ++ newline_char :: tail.
Proof.
  intros Hp Hm [tail E]. unfold plain in Hp. destruct (split_line_cases chunk) as [Hc|(line' & more & Hl & ->)].
  - right. assert (∃ rest', rest = chunk ++ rest' ∧ extra = rest' ++ newline_char :: tail) as (rest' & -> & ->).
    { apply app_eq_inv in E as [(k & -> & Ek)|(k & -> & ->)]; [|by exists k]. destruct k as [|c k]; [exists []; by rewrite !app_nil_r in *|].
      cbn [app] in Ek. injection Ek as <- _. unfold plain in Hc. set_solver. }
    exists rest', tail. split; [done|]. split; [|done]. rewrite !length_app in Hm. unfold gather. rewrite split_line_plain by done. by rewrite (proj2 (Nat.ltb_ge _ _)) by lia.
  - left. assert (line' = rest) as ->; [|by apply gather_line].
    assert (split_line ((line' ++ newline_char :: more) ++ extra) = (line', true)) as E1 by (rewrite <- app_assoc; by apply split_line_ends).
    assert (split_line (rest ++ newline_char :: tail) = (rest, true)) as E2 by (apply split_line_ends; unfold plain; set_solver). congruence.
Qed.

(** ** The server reads a line *)

(** Bytes, an interrupted call, or nothing more for now. *)
Definition uneventful (r : SysRead) : Prop := match r with ReadBytes _ | ReadInterrupted | ReadAgain => True | _ => False end.
Fixpoint bytes_of (reads : list SysRead) : list ascii :=
  match reads with
  | ReadBytes chunk :: rest => chunk ++ bytes_of rest
  | ReadInterrupted :: rest => bytes_of rest
  | _ => []
  end.

Lemma drain_step max reads acc rest extra : Forall uneventful reads → plain (acc ++ rest) → (length (acc ++ rest) ≤ max)%nat →
  (∃ tail, bytes_of reads ++ extra = rest ++ newline_char :: tail) →
  drain_client max reads acc = Complete (acc ++ rest) ∨
  ∃ rest' tail, rest = bytes_of reads ++ rest' ∧ drain_client max reads acc = Keep (acc ++ bytes_of reads) ∧ extra = rest' ++ newline_char :: tail.
Proof.
  intros Hr. revert acc rest. induction Hr as [|r reads Hh _ IH]; intros acc rest Hp Hm [tail E]; cbn [drain_client bytes_of] in *.
  { right. exists rest, tail. by rewrite app_nil_r. }
  destruct r as [chunk| | | |]; try done; cbn [drain_client bytes_of app] in *.
  - rewrite <- app_assoc in E. destruct (gather_step max acc rest chunk _ Hp Hm (ex_intro _ tail E)) as [->|(rest' & tail' & -> & -> & E')]; [by left|].
    rewrite app_assoc in Hp, Hm. destruct (IH (acc ++ chunk) rest' Hp Hm (ex_intro _ tail' E')) as [->|(rest2 & tail2 & -> & -> & ->)].
    + left. by rewrite <- app_assoc.
    + right. exists rest2, tail2. by rewrite <- !app_assoc.
  - apply IH; [done|done|by exists tail].
  - right. exists rest, tail. by rewrite app_nil_r.
Qed.

(** A round in time, without an error and without a stop. *)
Definition quiet_round (deadline : Z) (r : ReadRound) : Prop :=
  sr_now r < deadline ∧ sr_stop_requested r = false ∧ (sr_poll r = PollInterrupted ∨ ∃ ready, sr_poll r = PollReady false ready false) ∧ Forall uneventful (sr_reads r).
Definition delivered (r : ReadRound) : list ascii := match sr_poll r with PollReady _ true _ => bytes_of (sr_reads r) | _ => [] end.

Lemma read_request_line max deadline rounds acc rest : Forall (quiet_round deadline) rounds → plain (acc ++ rest) → (length (acc ++ rest) ≤ max)%nat →
  (∃ tail, (rounds ≫= delivered) = rest ++ newline_char :: tail) → read_request max deadline rounds acc = RequestLine (acc ++ rest).
Proof.
  intros Hr. revert acc rest. induction Hr as [|r rounds (Hn & Hs & Hp & Hu) _ IH]; intros acc rest Hpl Hm [tail E]; cbn [read_request mbind list_bind] in *.
  { destruct rest; discriminate E. }
  rewrite (proj2 (Z.leb_gt _ _)) by lia. unfold delivered in E at 1. destruct Hp as [Ep|[ready Ep]]; rewrite Ep in *; rewrite Hs; cbn [orb].
  - apply IH; [done|done|by exists tail].
  - destruct ready; [|apply IH; [done|done|by exists tail]]. destruct (drain_step max (sr_reads r) acc rest _ Hu Hpl Hm (ex_intro _ tail E)) as [->|(rest' & tail' & -> & -> & E')]; [done|].
    rewrite app_assoc in *. apply IH; [done|done|by exists tail'].
Qed.

(** ** The client reads a line *)

Definition quiet_receive (deadline : Z) (r : ReceiveRound) : Prop :=
  cv_now r < deadline ∧ (cv_poll r = CInterrupted ∨ ∃ ready, cv_poll r = CReady false ready) ∧ match cv_recv r with ReadBytes _ | ReadInterrupted | ReadAgain => True | _ => False end.
Definition received (r : ReceiveRound) : list ascii := match cv_poll r with CReady _ true => bytes_of [cv_recv r] | _ => [] end.

Lemma client_receive_line max deadline rounds acc rest : Forall (quiet_receive deadline) rounds → plain (acc ++ rest) → (length (acc ++ rest) ≤ max)%nat →
  (∃ tail, (rounds ≫= received) = rest ++ newline_char :: tail) → client_receive max deadline rounds acc = Goes (acc ++ rest).
Proof.
  intros Hr. revert acc rest. induction Hr as [|r rounds (Hn & Hp & Hu) _ IH]; intros acc rest Hpl Hm [tail E]; cbn [client_receive mbind list_bind] in *.
  { destruct rest; discriminate E. }
  rewrite (proj2 (Z.leb_gt _ _)) by lia. unfold received in E at 1. destruct Hp as [Ep|[ready Ep]]; rewrite Ep in *; [apply IH; [done|done|by exists tail]|].
  destruct ready; cbn [negb]; [|apply IH; [done|done|by exists tail]]. destruct (cv_recv r) as [chunk| | | |]; try done; cbn [bytes_of app] in E; try (apply IH; [done|done|by exists tail]).
  rewrite app_nil_r in E.
  destruct (gather_step max acc rest chunk _ Hpl Hm (ex_intro _ tail E)) as [->|(rest' & tail' & -> & -> & E')]; [done|].
  rewrite app_assoc in *. apply IH; [done|done|by exists tail'].
Qed.

(** A response whose text has no newline but perhaps a last one. *)
Lemma terminated_plain body : plain body → terminated body = body ++ [newline_char].
Proof.
  intros Hp. unfold terminated. rewrite bool_decide_eq_false_2; [done|]. intros Hl. apply Hp. by eapply last_Some_elem_of.
Qed.
Lemma terminated_ended body : terminated (body ++ [newline_char]) = body ++ [newline_char].
Proof. unfold terminated. by rewrite last_snoc, bool_decide_eq_true_2. Qed.

(** ** Ids *)

Lemma digit_of d : (d < 10)%N → digit_value (pretty_N_char d) = Some (Z.of_N d).
Proof.
  intros Hd. assert (Forall (λ d, digit_value (pretty_N_char d) = Some (Z.of_N d)) (N.of_nat <$> seq 0 10)) as F by (repeat constructor).
  rewrite Forall_forall in F. apply F, list_elem_of_fmap. exists (N.to_nat d). split; [lia|]. apply elem_of_seq. lia.
Qed.
Lemma read_pretty x s : read_digits 0 (chars (pretty_N_go x s)) = read_digits (Z.of_N x) (chars s).
Proof.
  revert s. induction (N.lt_wf_0 x) as [x _ IH]. intros s. destruct (decide (x = 0%N)) as [->|Hx]; [by rewrite pretty_N_go_0|].
  rewrite pretty_N_go_step by lia. rewrite IH by (apply N.div_lt; lia). cbn [String.list_ascii_of_string read_digits]. rewrite digit_of by (by apply N.mod_lt).
  f_equal. pose proof (N.div_mod x 10). lia.
Qed.
Definition is_digit (c : ascii) : Prop := is_Some (digit_value c).
Lemma pretty_digits x s : Forall is_digit (chars s) → Forall is_digit (chars (pretty_N_go x s)).
Proof.
  revert s. induction (N.lt_wf_0 x) as [x _ IH]. intros s Hs. destruct (decide (x = 0%N)) as [->|Hx]; [by rewrite pretty_N_go_0|].
  rewrite pretty_N_go_step by lia. apply IH; [apply N.div_lt; lia|]. constructor; [|done]. unfold is_digit. rewrite digit_of by (by apply N.mod_lt). eauto.
Qed.
Lemma read_number n : 0 ≤ n → read_digits 0 (chars (pretty (Z.to_N n))) = (n, []).
Proof.
  intros Hn. unfold pretty, pretty_N. case_decide as E; [by assert (n = 0) as -> by lia|]. rewrite read_pretty. cbn. f_equal. lia.
Qed.
Lemma number_digits n : ∃ c rest, chars (pretty (Z.to_N n)) = c :: rest ∧ is_digit c.
Proof.
  unfold pretty, pretty_N. case_decide as E; [exists "0"%char, []; split; [done|by exists 0]|]. pose proof (pretty_digits (Z.to_N n) "" ltac:(constructor)) as F.
  pose proof (read_pretty (Z.to_N n) "") as R. destruct (chars _) as [|c rest]; [cbn in R; injection R; lia|]. exists c, rest. split; [done|]. by inversion F.
Qed.
Lemma digit_plain c : is_digit c → is_space c = false ∧ c ≠ "-"%char ∧ c ≠ "+"%char.
Proof.
  unfold is_digit, digit_value, is_space. intros [d Hd]. destruct (_ && _) eqn:E; [|done]. split; [lia|]. split; intros ->; done.
Qed.
(** What [std::to_string] writes, [std::stoull] reads. *)
Lemma stoull_pretty n : is_u64 n → stoull (chars (pretty (Z.to_N n))) = inr (n, []).
Proof.
  intros Hn. unfold is_u64 in Hn. pose proof (read_number n ltac:(lia)) as R. destruct (number_digits n) as (c & rest & E & Hd). rewrite E in *. destruct (digit_plain c Hd) as (Hs & Hm & Hp).
  unfold stoull. cbn [drop_spaces]. rewrite Hs, !bool_decide_eq_false_2 by done. rewrite R. cbn [length Nat.eqb]. by rewrite (proj2 (Z.ltb_ge _ _)) by lia.
Qed.

(** ** Commands *)

(** The words of the usage text of the client, with the other spellings it takes, and the
    commands of the control plane that they stand for. *)
Definition vocabulary : list (OperatorCommandType * list string) :=
  [(kSTATUS, ["status"]);
   (kCOUNTERSTATS, ["counterstats"; "stats"]);
   (kALLOW_TRADING, ["allow-trading"; "allow_trading"]);
   (kDISABLE_TRADING, ["disable-trading"; "disable_trading"]);
   (kCANCEL_ALL_ORDERS, ["cancel-all-orders"; "cancel_all_orders"]);
   (kSHUTDOWN_GRACEFUL, ["shutdown-graceful"; "shutdown_graceful"]);
   (kSHUTDOWN_FORCEFUL, ["shutdown-forceful"; "shutdown_forceful"])]%string.
Definition means (word : string) (type : OperatorCommandType) : Prop := ∃ words, (type, words) ∈ vocabulary ∧ word ∈ words.

(** No word stands for two commands. *)
Lemma means_one word type type' : means word type → means word type' → type = type'.
Proof.
  intros (words & H & Hw) (words' & H' & Hw').
  assert (Forall (λ e, Forall (λ e', e.1 = e'.1 ∨ Forall (λ w, w ∉ e'.2) e.2) vocabulary) vocabulary) as F
    by (apply (bool_decide_unpack _); by vm_compute).
  rewrite Forall_forall in F. specialize (F _ H). rewrite Forall_forall in F. destruct (F _ H') as [E|F']; [exact E|].
  rewrite Forall_forall in F'. by destruct (F' _ Hw).
Qed.

(** Options with their values, and nothing else. *)
Inductive options : list string → Prop :=
| options_none : options []
| options_socket path rest : options rest → options ("--socket"%string :: path :: rest)
| options_timeout value rest : options rest → options ("--timeout-ms"%string :: value :: rest).

(** The one argument that is neither an option nor the value of one. *)
Definition typed (arguments : list string) (word : string) : Prop :=
  ∃ before after, arguments = before ++ word :: after ∧ options before ∧ options after.

(** Whatever is normalized is sent under a name that the handler takes for the same command. *)
Lemma normal_command word name : normalize_command word = Some name → means word (command_type name).
Proof.
  unfold normalize_command. intros H.
  repeat match type of H with
  | (if ?b then _ else _) = _ => let E := fresh in destruct b eqn:E;
      [injection H as <-; repeat (apply orb_true_iff in E as [E|E]); apply bool_decide_eq_true in E; subst word|]
  end; [..|done].
  all: eexists; split; [vm_compute; repeat (apply elem_of_cons; first [left; reflexivity|right])|].
  all: apply (bool_decide_unpack _); by vm_compute.
Qed.
(** Looking at the arguments only ever refuses them. *)
Lemma scan_refuses arguments a config : scan_args arguments a ≠ inl (ArgsOk config).
Proof.
  remember (length arguments) as n eqn:Hn. revert arguments Hn a. induction (Nat.lt_wf_0 n) as [n _ IH]. intros arguments -> a. destruct arguments as [|arg rest]; [done|].
  assert (∀ skipped rest' a', rest = skipped ++ rest' → scan_args rest' a' ≠ inl (ArgsOk config)) as Hrest.
  { intros skipped rest' a' ->. eapply IH; [|done]. cbn [length]. rewrite length_app. lia. }
  cbn [scan_args]. destruct (_ || _); [done|]. destruct (bool_decide _); [|destruct (bool_decide _); [|destruct (bool_decide _); [done|]]].
  - destruct (ag_explicit_socket a); [done|]. destruct rest as [|path rest]; [done|]. destruct (bool_decide _); [done|]. by apply (Hrest [path]).
  - destruct (ag_explicit_timeout a); [done|]. destruct rest as [|value rest]; [done|]. destruct (parse_timeout value); [by apply (Hrest [value])|done].
  - destruct (ag_command a); [done|]. destruct (bool_decide _); [done|]. by apply (Hrest []).
Qed.
(** The command is the argument that is no option. *)
Lemma scan_finds arguments a a' : scan_args arguments a = inr a' →
  match ag_command a, ag_command a' with
  | Some word, found => found = Some word ∧ options arguments
  | None, Some word => typed arguments word
  | None, None => options arguments
  end.
Proof.
  remember (length arguments) as n eqn:Hn. revert arguments Hn a. induction (Nat.lt_wf_0 n) as [n _ IH]. intros arguments -> a. destruct arguments as [|arg rest].
  { intros [= ->]. destruct (ag_command a'); [split; [done|]|]; constructor. }
  assert (∀ o value rest' s, rest = value :: rest' → ag_command s = ag_command a → (∀ l, options l → options (o :: value :: l)) → scan_args rest' s = inr a' →
    match ag_command a, ag_command a' with
    | Some word, found => found = Some word ∧ options (o :: rest)
    | None, Some word => typed (o :: rest) word
    | None, None => options (o :: rest)
    end) as Hopt.
  { intros o value rest' s -> Es Ho Hs. pose proof (IH (length rest') ltac:(cbn; lia) rest' eq_refl s Hs) as H. rewrite Es in H.
    destruct (ag_command a) as [w|]; [by destruct H as [-> H]; split; [|apply Ho]|].
    destruct (ag_command a') as [w|]; [|by apply Ho]. destruct H as (before & after & -> & Hb & Ha). exists (o :: value :: before), after. by split; [|split; [apply Ho|]]. }
  cbn [scan_args]. destruct (_ || _); [done|]. case_bool_decide as Es; [|case_bool_decide as Et; [|case_bool_decide; [done|]]].
  - subst arg. destruct (ag_explicit_socket a); [done|]. destruct rest as [|path rest]; [done|]. case_bool_decide; [done|].
    apply (Hopt _ path rest); [done|done|by constructor].
  - subst arg. destruct (ag_explicit_timeout a); [done|]. destruct rest as [|value rest]; [done|]. destruct (parse_timeout value); [|done].
    apply (Hopt _ value rest); [done|done|by constructor].
  - destruct (ag_command a) as [w|]; [done|]. case_bool_decide; [done|]. intros Hs.
    pose proof (IH (length rest) ltac:(cbn; lia) rest eq_refl _ Hs) as [-> Hrest]. exists [], rest. split; [done|]. split; [constructor|done].
Qed.

Lemma accepted_command environment arguments config : parse_args environment arguments = ArgsOk config →
  ∃ word, typed arguments word ∧ means word (command_type (uc_command config)).
Proof.
  unfold parse_args. destruct (scan_args _ _) as [r|a] eqn:E; [intros ->; by destruct (scan_refuses _ _ _ E)|]. apply scan_finds in E. cbn [ag_command] in E.
  destruct (bool_decide _); [done|]. destruct (ag_command a) as [command|]; [|done]. destruct (normalize_command command) as [name|] eqn:En; [|done].
  intros [= <-]. exists command. split; [done|]. by apply normal_command.
Qed.
Lemma means_known word : ¬ means word kOPERATOR_UNKNOWN.
Proof.
  intros (words & H & _). revert H. apply (bool_decide_unpack _). by vm_compute.
Qed.
Lemma u64_ones z : is_u64 z → Z.land z (Z.ones 64) = z.
Proof. unfold is_u64. intros Hz. rewrite Z.land_ones by lia. apply Z.mod_small. change (2 ^ 64) with (U64_MAX + 1). lia. Qed.
Lemma lor_u64 a b : is_u64 a → is_u64 b → is_u64 (Z.lor a b).
Proof.
  intros Ha Hb. rewrite <- (u64_ones a), <- (u64_ones b), <- Z.land_lor_distr_l by done. rewrite Z.land_ones by lia. unfold is_u64.
  change (2 ^ 64) with (U64_MAX + 1). pose proof (Z.mod_pos_bound (Z.lor a b) (U64_MAX + 1)). lia.
Qed.
Lemma cmd_id_u64 now_us pid : is_u64 (cmd_id now_us pid).
Proof.
  apply lor_u64; [apply u64_range|]. change kCMD_ID_MASK with (Z.ones 16). rewrite Z.land_ones by lia. unfold is_u64. pose proof (Z.mod_pos_bound (u64 pid) (2 ^ 16)). lia.
Qed.

(** ** The round trip *)

Section RoundTrip.
Context {Q : Type → Type} `{!PushQueue Q} {NJ : NlohmannJson} {NG : NlohmannGetters} {NX : NlohmannText} {NR : NlohmannRoundTrip}.
Variable clk : nat → Z.
Implicit Types s : HandlerState (Q := Q).

(** The handler, as the server calls it. *)
Definition on_line (line : list ascii) : M HandlerState (option (list ascii)) :=
  r ← handle_command clk (String.string_of_list_ascii line); mret ((λ r, chars (cm_body r)) <$> r).

Lemma request_is_known environment arguments config now_us pid text : parse_args environment arguments = ArgsOk config →
  json_write (request_json (make_cmd_id now_us pid) (uc_command config)) = inr text →
  ∃ word type, typed arguments word ∧ means word type ∧ known_command text (mkOperatorCommand type (cmd_id now_us pid)).
Proof.
  intros Ha Hw. destruct (accepted_command _ _ _ Ha) as (word & Ht & Hm). exists word, (command_type (uc_command config)).
  split; [done|]. split; [done|]. split; [|intros E; cbn in E; rewrite E in Hm; by apply means_known in Hm]. clear Hm.
  destruct (dump_parse [("cmd_id", make_cmd_id now_us pid); ("type", uc_command config)]%string text) as (j & Hj & Hm); [apply (bool_decide_unpack _); by vm_compute|done|].
  destruct (Hm "cmd_id"%string _ ltac:(left)) as (v1 & L1 & S1). destruct (Hm "type"%string _ ltac:(right; left)) as (v2 & L2 & S2).
  unfold parse_command, mbind, Result_bind. rewrite Hj, L1, S1, L2, S2. unfold make_cmd_id. by rewrite stoull_pretty by apply cmd_id_u64.
Qed.

(** The server has sent everything. *)
Lemma written_all deadline rounds size total : (write_response deadline rounds size total).1 = Written → (size ≤ (write_response deadline rounds size total).2)%nat.
Proof.
  revert total. induction rounds as [|r rounds IH]; intros total; cbn [write_response]; destruct (Nat.leb_spec size total) as [H|H]; [done|done|done|].
  destruct (deadline <=? _); [done|]. destruct (sw_poll r); [done|destruct (sw_stop_requested r); [done|apply IH]|done|].
  destruct (_ || _); [done|]. destruct client_closed; [done|]. destruct writable; cbn [negb]; [|apply IH]. destruct (sw_send r) as [n| | |]; [|apply IH|apply IH|done].
  destruct (0 <? n)%nat; [apply IH|done].
Qed.

(** A response of one line, as its text or with its newline. *)
Definition line_of (body line : list ascii) : Prop := plain line ∧ (body = line ∨ body = line ++ [newline_char]).
Lemma terminated_line body line : line_of body line → terminated body = line ++ [newline_char].
Proof. intros [Hp [->| ->]]; [by apply terminated_plain|apply terminated_ended]. Qed.

(** The line arrives in time and without an error, in whatever pieces. *)
Definition arrives (x : ServeScript) (text : string) : Prop :=
  Forall (quiet_round (sv_read_deadline x)) (sv_read_rounds x) ∧ (sv_read_rounds x ≫= delivered) = chars text ++ [newline_char] ∧ sv_stop_after_read x = false.

Lemma request_arrives t text max x : json_write t = inr text → (length (chars text) ≤ max)%nat → arrives x text →
  read_request max (sv_read_deadline x) (sv_read_rounds x) [] = RequestLine (chars text).
Proof.
  intros Hw Hm (Hq & Hd & _). apply (read_request_line max (sv_read_deadline x) (sv_read_rounds x) [] (chars text)); [done|exact (dump_one_line t text Hw)|done|].
  by exists [].
Qed.

Lemma serve_answers t text max x s r line : json_write t = inr text → (length (chars text) ≤ max)%nat → arrives x text →
  (handle_command clk text s).1 = Some r → line_of (chars (cm_body r)) line →
  (write_response (sv_write_deadline x) (sv_write_rounds x) (S (length line)) 0).1 = Written →
  serve_client on_line max x s = ((ServedOne, line ++ [newline_char]), (handle_command clk text s).2).
Proof.
  intros Hw Hm Ha Hr Hl Hs. unfold serve_client. rewrite (request_arrives t text) by done. destruct Ha as (_ & _ & ->).
  unfold on_line, mbind, M_bind. rewrite String.string_of_list_ascii_of_string. destruct (handle_command clk text s) as [r' s']. cbn [fst] in Hr. subst r'. cbn [mret M_ret fmap option_fmap option_map fst snd].
  rewrite (terminated_line _ line Hl). rewrite length_app, Nat.add_1_r. pose proof (written_all _ _ _ _ Hs) as Hall. destruct (write_response _ _ _ _) as [outcome total]. cbn [fst snd] in *. subst outcome.
  cbn [mret M_ret]. rewrite take_ge; [done|]. rewrite length_app, Nat.add_1_r. exact Hall.
Qed.

(** C35: a command makes the round trip.  Every command line that the client accepts has exactly
    one word besides its options, and is for the handler a command that it knows: the one that
    this word stands for in the table of the client's usage text ([vocabulary]), with the id the
    client made of the time and its process.  Its line may be cut into pieces, and reading it may be
    interrupted; the server hands it to the handler as it was written and has then changed what
    the handler changed; and the client, whatever pieces it receives, ends with the line that
    the handler answered. *)
Theorem command_round_trip environment arguments config now_us pid text max x s r line rounds deadline :
  parse_args environment arguments = ArgsOk config →
  json_write (request_json (make_cmd_id now_us pid) (uc_command config)) = inr text → (length (chars text) ≤ max)%nat → arrives x text →
  (handle_command clk text s).1 = Some r → line_of (chars (cm_body r)) line → (length line ≤ kMAX_RESPONSE_SIZE)%nat →
  (write_response (sv_write_deadline x) (sv_write_rounds x) (S (length line)) 0).1 = Written →
  Forall (quiet_receive deadline) rounds → (rounds ≫= received) = (serve_client on_line max x s).1.2 →
  (∃ word type, typed arguments word ∧ means word type ∧ known_command text (mkOperatorCommand type (cmd_id now_us pid))) ∧
  (serve_client on_line max x s).1.1 = ServedOne ∧ (serve_client on_line max x s).2 = (handle_command clk text s).2 ∧
  client_receive kMAX_RESPONSE_SIZE deadline rounds [] = Goes line.
Proof.
  intros Ha Hw Hm Hx Hr Hl Hsize Hs Hq Hd. pose proof (serve_answers _ text max x s r line Hw Hm Hx Hr Hl Hs) as E. rewrite E in *. cbn [fst snd] in *.
  split; [by eapply request_is_known|]. split; [done|]. split; [done|].
  apply (client_receive_line kMAX_RESPONSE_SIZE deadline rounds [] line); [done|apply Hl|done|by exists []].
Qed.

End RoundTrip.
End OperatorLine.

(** ** An operator's session, for the witnesses

    A status request, cut into pieces on its way to the server and back. *)

Open Scope Z_scope.

Module OperatorDemo.
Import Universe Config Operator OperatorSocket OperatorLine.

(** ** JSON *)

Inductive Node := | NText (s : string) | NObject (members : list (string * string)).
Definition node_member (n : Node) (name : string) : option string :=
  match n with NObject ms => snd ∘ snd <$> list_find (λ m, m.1 = name) ms | _ => None end.
(** An object whose members are strings. *)
Definition texts (t : JsonTree) : option (list (string * string)) :=
  match t with JObject ms => mapM (λ m, match m.2 with JText s => Some (m.1, s) | _ => None end) ms | _ => None end.

Definition quoted (s : string) : string := let q := String.String (ascii_of_N 34) String.EmptyString in (q +:+ s +:+ q)%string.
Definition request_members : list (string * string) := [("cmd_id", make_cmd_id 1000000 77); ("type", "status")]%string.
Definition request_text : string := ("{" +:+ quoted "cmd_id" +:+ ":" +:+ quoted (make_cmd_id 1000000 77) +:+ "," +:+ quoted "type" +:+ ":" +:+ quoted "status" +:+ "}")%string.
Definition answer_text : string := ("{" +:+ quoted "ok" +:+ ":true}")%string.

#[local] Instance node_json : NlohmannJson := {|
  json := Node;
  json_parse text := if bool_decide (text = request_text) then inr (NObject request_members) else inl "parse error"%string;
  json_is_object n := match n with NObject _ => true | _ => false end;
  json_is_array n := false;
  json_is_string n := match n with NText _ => true | _ => false end;
  json_is_null n := false;
  json_is_number_integer n := false;
  json_is_number_unsigned n := false;
  json_contains n name := bool_decide (is_Some (node_member n name));
  json_at n name := NText (default ""%string (node_member n name));
  json_empty n := match n with NObject [] => true | _ => false end;
  json_items n := [];
  json_get_string n := match n with NText s => s | _ => ""%string end;
  json_get_int64 n := inl "type must be number"%string;
  json_get_uint64 n := 0;
  json_dump n := inr ""%string;
|}.
#[local] Instance node_getters : NlohmannGetters := {|
  json_as_bool n := inl "type must be boolean"%string;
  json_as_string n := match n with NText s => inr s | _ => inl "type must be string"%string end;
  json_as_uint64 n := inl "type must be number"%string;
  json_as_uint32 n := inl "type must be number"%string;
  json_as_int64 n := inl "type must be number"%string;
  json_as_int n := inl "type must be number"%string;
  json_elements n := [n];
  json_extract := json_parse;
|}.
#[local] Instance node_text : NlohmannText := {|
  json_lookup n name := match node_member n name with Some s => inr (NText s) | None => inl "key not found"%string end;
  json_write t := match texts t with
                  | Some ms => if bool_decide (ms = request_members) then inr request_text else inl "type_error"%string
                  | None => inr answer_text
                  end;
|}.

Lemma texts_of (ms : list (string * string)) : texts (JObject ((λ m, (m.1, JText m.2)) <$> ms)) = Some ms.
Proof. cbn. induction ms as [|[a b] ms IH]; [done|]. cbn. by rewrite IH. Qed.
#[local] Instance node_round_trip : NlohmannRoundTrip.
Proof.
  split.
  - intros t text. cbn. destruct (texts t) as [ms|]; [case_bool_decide; [|done]|]; intros [= <-]; apply (bool_decide_unpack _); by vm_compute.
  - intros members text _. cbn -[texts]. rewrite texts_of. case_bool_decide as E; [|done]. intros [= <-]. exists (NObject request_members). subst members. split; [by vm_compute|].
    intros name value [[= -> ->]|[[= -> ->]|[]%not_elem_of_nil]%elem_of_cons]%elem_of_cons; eexists; split; by vm_compute.
Qed.

(** ** The session *)

Definition clock (n : nat) : Z := kPOLL_INTERVAL * Z.of_nat n.
Definition room {T} : Fifo T := mkFifo 8 [] [] [].
Definition status_command : OperatorCommand := mkOperatorCommand kSTATUS (cmd_id 1000000 77).
Definition status_response : OperatorResponse := mkOperatorResponse (cmd_id 1000000 77) kACK AckPayload.
(** The response is there after two polls. *)
Definition handler : HandlerState (Q := Fifo) := mkHandlerState room [None; None; Some status_response] 0.
Definition answer : CommandResponse := mkCommandResponse true (answer_text +:+ newline)%string.

Lemma handler_paced : paced clock handler.
Proof. split; [done|]. intros k Hk. unfold clock, kPOLL_INTERVAL. lia. Qed.

Lemma operator_gets_his_answer_witness :
  paced clock handler ∧ (handle_command clock request_text handler).1 = Some answer ∧ commands_sent (handle_command clock request_text handler).2 = [status_command] ∧
  ∃ response, hd_control_to_server_queue handler = [None; None; Some response] ∧ answers status_command response answer.
Proof.
  assert ((handle_command clock request_text handler).1 = Some answer) as E by (vm_compute; reflexivity).
  assert (commands_sent (handle_command clock request_text handler).2 = [status_command]) as Es by (vm_compute; reflexivity).
  split; [exact handler_paced|]. split; [exact E|]. split; [exact Es|].
  destruct (operator_gets_his_answer clock request_text handler handler_paced) as (r & Er & [[H _]|(cmd & _ & H & Hok)]).
  - rewrite Es in H. discriminate H.
  - rewrite E in Er. injection Er as <-. rewrite Es in H. injection H as <-. destruct (Hok eq_refl) as (n & response & Hn & Ha).
    exists response. split; [|exact Ha]. assert (hd_control_to_server_queue (handle_command clock request_text handler).2 = []) as El by (vm_compute; reflexivity).
    rewrite El in Hn. destruct n as [|[|[|n]]]; try discriminate Hn. exact Hn.
Defined.

(** ** A late answer *)

Definition late_clock (n : nat) : Z := Z.of_nat n.
Definition late_response : OperatorResponse := mkOperatorResponse 5 kACK AckPayload.
Definition waiting : HandlerState (Q := Fifo) := mkHandlerState room [Some late_response] 0.
Definition next : HandlerState (Q := Fifo) :=
  (handle_command late_clock request_text waiting).2 ⟪ hd_server_to_control_queue := room ⟫ ⟪ hd_control_to_server_queue ::= λ q, q ++ [Some status_response] ⟫.

Lemma late_answer_spoils_the_rest_witness :
  known_command request_text status_command ∧ Forall (λ x, x.2 = Some mismatched) [(status_command, (handle_command late_clock request_text waiting).1)] ∧
  ∃ left, hd_control_to_server_queue next = [Some left].
Proof.
  assert (known_command request_text status_command) as Hk by (split; [vm_compute; reflexivity|discriminate]).
  split; [exact Hk|]. apply (late_answer_spoils_the_rest late_clock late_response waiting [(status_command, (handle_command late_clock request_text waiting).1)] next).
  - intros n. unfold late_clock, kMAX_WAIT_TIME. lia.
  - reflexivity.
  - apply (served_cons late_clock waiting request_text status_command room status_response [] next); [exact Hk|vm_compute; reflexivity|reflexivity|apply served_nil].
  - split; [discriminate|exact I].
Defined.

(** ** The line *)

Definition cut (n : nat) (text : string) : list ascii * list ascii := let l := chars text ++ [newline_char] in (take n l, drop n l).
Definition serve_script : ServeScript := mkServeScript 100
  [mkReadRound 1 PollInterrupted false []; mkReadRound 2 (PollReady false true false) false [ReadBytes (cut 9 request_text).1; ReadInterrupted; ReadAgain];
   mkReadRound 3 (PollReady false true false) false [ReadBytes (cut 9 request_text).2]] false 100
  [mkWriteRound 4 (WriteReady false true false) false (SentBytes 3); mkWriteRound 5 WriteInterrupted false SendAgain; mkWriteRound 6 (WriteReady false true false) false (SentBytes 100)].
Definition receive_rounds : list ReceiveRound :=
  [mkReceiveRound 5 (CReady false true) (ReadBytes (cut 3 answer_text).1); mkReceiveRound 6 CInterrupted ReadAgain; mkReceiveRound 7 (CReady false true) (ReadBytes (cut 3 answer_text).2)].
Definition arguments : list string := ["--socket"; "/tmp/predex.sock"; "status"]%string.
Definition client_config : UnixCommandClientConfig := mkUnixCommandClientConfig "/tmp/predex.sock" 2000 "status".

(** Each round is in time, interrupted or ready, and its reads are uneventful. *)
Ltac by_rounds := repeat (apply Forall_cons; split); try apply Forall_nil_2;
  split_and!; try (vm_compute; reflexivity); try (left; reflexivity); try (right; eexists; reflexivity); cbn; repeat constructor.

Lemma command_round_trip_witness :
  parse_args None arguments = ArgsOk client_config ∧
  (∃ word type, typed arguments word ∧ means word type ∧ known_command request_text (mkOperatorCommand type (cmd_id 1000000 77))) ∧
  (serve_client (on_line clock) kDEFAULT_MAX_REQUEST_BYTES serve_script handler).1.1 = ServedOne ∧
  client_receive kMAX_RESPONSE_SIZE 100 receive_rounds [] = Goes (chars answer_text).
Proof.
  assert (parse_args None arguments = ArgsOk client_config) as H1 by (vm_compute; reflexivity).
  assert (json_write (request_json (make_cmd_id 1000000 77) (uc_command client_config)) = inr request_text) as H2 by (vm_compute; reflexivity).
  assert (length (chars request_text) ≤ kDEFAULT_MAX_REQUEST_BYTES)%nat as H3 by (apply (bool_decide_unpack _); vm_compute; exact I).
  assert (arrives serve_script request_text) as H4.
  { split; [|split; [vm_compute; reflexivity|reflexivity]]. cbn [sv_read_rounds serve_script]. by_rounds. }
  assert ((handle_command clock request_text handler).1 = Some answer) as H5 by (vm_compute; reflexivity).
  assert (line_of (chars (cm_body answer)) (chars answer_text)) as H6 by (split; [apply (bool_decide_unpack _); vm_compute; exact I|right; vm_compute; reflexivity]).
  assert (length (chars answer_text) ≤ kMAX_RESPONSE_SIZE)%nat as H7 by (change (length (chars answer_text)) with 11%nat; unfold kMAX_RESPONSE_SIZE; lia).
  assert ((write_response (sv_write_deadline serve_script) (sv_write_rounds serve_script) (S (length (chars answer_text))) 0).1 = Written) as H8 by (vm_compute; reflexivity).
  assert (Forall (quiet_receive 100) receive_rounds) as H9 by (unfold receive_rounds; by_rounds).
  assert ((receive_rounds ≫= received) = (serve_client (on_line clock) kDEFAULT_MAX_REQUEST_BYTES serve_script handler).1.2) as H10 by (vm_compute; reflexivity).
  destruct (command_round_trip clock None arguments client_config 1000000 77 request_text kDEFAULT_MAX_REQUEST_BYTES serve_script handler answer (chars answer_text) receive_rounds 100
    H1 H2 H3 H4 H5 H6 H7 H8 H9 H10) as (Hk & H & _ & Hc).
  split; [exact H1|]. split; [exact Hk|]. split; [exact H|exact Hc].
Defined.
End OperatorDemo.
