(* ===== verification/UniverseInstall.v ===== *)
(** * UniverseInstall: every market is installed where it is routed

    The configuration builder gives every market its place: a shard, an event of the shard and
    a market of the event.  The control plane builds the events it installs on the shards from
    these places alone, and the wire session stamps frames with them. *)

From S2P Require Import Prelude MarketTypes Book Event ControlTypes Universe ShardTypes WireTypes Recovery OmsTypes ControlPlaneTypes ControlPlane.

Module UniverseInstall.
Import Book Event Universe ControlPlane.

Definition event_at (evs : list (list KalshiEvent)) (i j : nat) : option KalshiEvent := evs !! i ≫= λ l, l !! j.
Definition place (r : UniverseMarketRoute) : nat * nat * nat :=
  (Z.to_nat (ur_shard_index r), Z.to_nat (ur_shard_event_index r), Z.to_nat (ur_event_market_index r)).
Definition new_market (r : UniverseMarketRoute) : KalshiMarket := install_market r default_KalshiMarket.

(** The events hold the markets of the routes at their places, and nothing else. *)
Record holds_exactly (rs : list UniverseMarketRoute) (evs : list (list KalshiEvent)) : Prop := {
  he_distinct : NoDup (place <$> rs);
  he_routed : ∀ r i j k, r ∈ rs → place r = (i, j, k) → ∃ e, event_at evs i j = Some e ∧ ke_markets e !! k = Some (new_market r) ∧
    ke_event_id e = ur_event_id r ∧ ke_topology e = ur_topology r ∧ ke_shard_event_index e = ur_shard_event_index r;
  he_only : ∀ i j k e m, event_at evs i j = Some e → ke_markets e !! k = Some m → ∃ r, r ∈ rs ∧ place r = (i, j, k);
}.

(** ** Installing at the end of a vector *)

Lemma install_at_end {A} (f : A → A) d index (l : list A) : 0 ≤ index < U32_MAX → Z.of_nat (length l) ≤ index →
  alter f (Z.to_nat index) (ensure_index d index l) = resize (Z.to_nat index) d l ++ [f d].
Proof.
  intros Hi Hl. unfold ensure_index. rewrite (proj2 (Z.leb_le _ _)) by done. rewrite u32_id by (unfold is_u32; lia).
  replace (Z.to_nat (index + 1)) with (Z.to_nat index + 1)%nat by lia. rewrite resize_add, (drop_ge l) by lia. cbn [resize].
  rewrite <- (length_resize l (Z.to_nat index) d) at 1. rewrite <- (Nat.add_0_r (length _)). by rewrite alter_app_r.
Qed.
Lemma install_at_next {A} (f : A → A) d index (l : list A) : 0 ≤ index < U32_MAX → Z.of_nat (length l) = index →
  alter f (Z.to_nat index) (ensure_index d index l) = l ++ [f d].
Proof. intros Hi Hl. rewrite install_at_end by lia. replace (Z.to_nat index) with (length l) by lia. by rewrite resize_all. Qed.
Lemma install_at_last {A} (f : A → A) d index (l : list A) x : Z.of_nat (length l) = index →
  alter f (Z.to_nat index) (ensure_index d index (l ++ [x])) = l ++ [f x].
Proof.
  intros Hl. unfold ensure_index. rewrite length_app. cbn [length]. rewrite (proj2 (Z.leb_gt _ _)) by lia.
  replace (Z.to_nat index) with (length l + 0)%nat by lia. by rewrite alter_app_r.
Qed.

(** ** The routes of one event *)

(** The routes a group of markets of an event get: the event's place, and the markets in order. *)
Definition route_of (c : EventContext) (k : Z) (r : UniverseMarketRoute) : Prop :=
  ur_event_id r = ct_event_id c ∧ ur_topology r = ct_topology c ∧ ur_shard_index r = ct_shard_index c ∧
  ur_shard_event_index r = ct_shard_event_index c ∧ ur_event_market_index r = k.
Inductive group (c : EventContext) : Z → list UniverseMarketRoute → Prop :=
  | group_nil k : group c k []
  | group_cons k r rs : route_of c k r → 0 ≤ k < U32_MAX → group c (k + 1) rs → group c k (r :: rs).

Lemma build_markets_group c markets : ∀ index built routes, build_markets c index markets = inr (built, routes) →
  Z.of_nat index + Z.of_nat (length markets) ≤ U32_MAX → group c (Z.of_nat index) routes.
Proof.
  induction markets as [|m rest IH]; intros index built routes; cbn [build_markets].
  - intros [= <- <-] _. constructor.
  - cbn [length]. intros Hb Hl. destruct (build_market c index m) as [|[market route]] eqn:Em; [done|].
    destruct (build_markets c (S index) rest) as [|[b' routes']] eqn:Er; [done|]. injection Hb as <- <-. constructor; [| lia |].
    + unfold build_market in Em. repeat case_match; try done. injection Em as <- <-. unfold route_of; cbn. split_and!; try done.
      revert H1. unfold checked_u32. case_match; [done|]. by intros [= <-].
    + replace (Z.of_nat index + 1) with (Z.of_nat (S index)) by lia. eapply IH; [done|lia].
Qed.

Lemma group_lookup c k rs i r : group c k rs → rs !! i = Some r → route_of c (k + Z.of_nat i) r.
Proof.
  intros Hg. revert i. induction Hg as [|k r' rs Hr Hk Hg IH]; [done|]. intros [|i]; cbn [lookup list_lookup].
  - intros [= ->]. by rewrite Z.add_0_r.
  - intros Hi. specialize (IH i Hi). by replace (k + Z.of_nat (S i)) with (k + 1 + Z.of_nat i) by lia.
Qed.

Definition shard_event (c : EventContext) (ms : list KalshiMarket) : KalshiEvent := mkKalshiEvent (ct_event_id c) (ct_topology c) (ct_shard_event_index c) ms.

Lemma install_event_eq r e : install_event r e =
  mkKalshiEvent (ur_event_id r) (ur_topology r) (ur_shard_event_index r)
    (alter (install_market r) (Z.to_nat (ur_event_market_index r)) (ensure_index default_KalshiMarket (ur_event_market_index r) (ke_markets e))).
Proof. done. Qed.

Section Shards.
Context (n : nat).

Lemma install_route_at evs r : ur_shard_index r < Z.of_nat n → install_route n evs r =
  alter (λ l, alter (install_event r) (Z.to_nat (ur_shard_event_index r)) (ensure_index default_KalshiEvent (ur_shard_event_index r) l)) (Z.to_nat (ur_shard_index r)) evs.
Proof. intros H. unfold install_route. by rewrite (proj2 (Z.leb_gt _ _)). Qed.

Lemma install_rest c k rs : group c k rs → 0 ≤ ct_shard_index c < Z.of_nat n → ∀ evs l ms, evs !! Z.to_nat (ct_shard_index c) = Some (l ++ [shard_event c ms]) →
  Z.of_nat (length l) = ct_shard_event_index c → Z.of_nat (length ms) = k →
  foldl (install_route n) evs rs = <[Z.to_nat (ct_shard_index c) := l ++ [shard_event c (ms ++ (new_market <$> rs))]]> evs.
Proof.
  intros Hg Hs. induction Hg as [k|k r rs (R1 & R2 & R3 & R4 & R5) Hk Hg IH]; intros evs l ms He Hl Hm; cbn [foldl fmap list_fmap].
  - rewrite app_nil_r. symmetry. by apply list_insert_id.
  - rewrite install_route_at by lia. rewrite R3, R4.
    assert (alter (install_event r) (Z.to_nat (ct_shard_event_index c)) (ensure_index default_KalshiEvent (ct_shard_event_index c) (l ++ [shard_event c ms]))
      = l ++ [shard_event c (ms ++ [new_market r])]) as Hstep.
    { rewrite install_at_last by done. rewrite install_event_eq. cbn [ke_markets shard_event]. rewrite R5, install_at_next by done. by rewrite R1, R2, R4. }
    rewrite (IH _ l (ms ++ [new_market r])).
    + rewrite <- app_assoc. cbn. apply list_eq. intros i'. destruct (decide (Z.to_nat (ct_shard_index c) = i')) as [<-|].
      * apply lookup_lt_Some in He as Hlt. rewrite !list_lookup_insert_eq; [done|done|]. by rewrite length_alter.
      * by rewrite !list_lookup_insert_ne, list_lookup_alter_ne.
    + by rewrite list_lookup_alter_eq, He; cbn; rewrite Hstep.
    + done.
    + rewrite length_app; cbn; lia.
Qed.

(** Installing an event's routes puts the event at its place, with its markets in order. *)
Lemma install_group c r rs : group c 0 (r :: rs) → 0 ≤ ct_shard_index c < Z.of_nat n → 0 ≤ ct_shard_event_index c < U32_MAX →
  ∀ evs l, evs !! Z.to_nat (ct_shard_index c) = Some l → Z.of_nat (length l) ≤ ct_shard_event_index c →
  foldl (install_route n) evs (r :: rs) =
    <[Z.to_nat (ct_shard_index c) := resize (Z.to_nat (ct_shard_event_index c)) default_KalshiEvent l ++ [shard_event c (new_market <$> r :: rs)]]> evs.
Proof.
  intros Hg Hs Hj evs l He Hl. inversion Hg as [|? ? ? (R1 & R2 & R3 & R4 & R5) Hk Hg']; subst. cbn [foldl]. rewrite install_route_at by lia. rewrite R3, R4.
  assert (alter (install_event r) (Z.to_nat (ct_shard_event_index c)) (ensure_index default_KalshiEvent (ct_shard_event_index c) l)
      = resize (Z.to_nat (ct_shard_event_index c)) default_KalshiEvent l ++ [shard_event c [new_market r]]) as Hstep.
  { rewrite install_at_end by done. rewrite install_event_eq. cbn [ke_markets default_KalshiEvent]. rewrite R5, install_at_next by done. by rewrite R1, R2, R4. }
  erewrite (install_rest c (0 + 1) rs Hg' Hs _ _ [new_market r]).
  - cbn. apply list_eq. intros i'. destruct (decide (Z.to_nat (ct_shard_index c) = i')) as [<-|].
    + apply lookup_lt_Some in He as Hlt. rewrite !list_lookup_insert_eq; [done|done|]. by rewrite length_alter.
    + by rewrite !list_lookup_insert_ne, list_lookup_alter_ne.
  - by rewrite list_lookup_alter_eq, He; cbn; rewrite Hstep.
  - rewrite length_resize; lia.
  - done.
Qed.

(** ** Event by event *)

(** [next] counts the events of every shard, at most [count] of them. *)
Record building (count : Z) (next : list Z) (rs : list UniverseMarketRoute) (evs : list (list KalshiEvent)) : Prop := {
  bd_exact : holds_exactly rs evs;
  bd_evs : length evs = n;
  bd_next : length next = n;
  bd_count : ∀ i x, next !! i = Some x → 0 ≤ x ≤ count;
  bd_room : ∀ i l x, evs !! i = Some l → next !! i = Some x → Z.of_nat (length l) ≤ x;
  bd_used : ∀ r x, r ∈ rs → next !! Z.to_nat (ur_shard_index r) = Some x → 0 ≤ ur_shard_event_index r < x;
}.

(** The shard [i0] after an event is put at [j0], past its events. *)
Section Appended.
Context (evs : list (list KalshiEvent)) (i0 j0 : nat) (l : list KalshiEvent) (e0 : KalshiEvent).
Context (Hl : evs !! i0 = Some l) (Hlen : (length l ≤ j0)%nat).
Let evs' := <[i0 := resize j0 default_KalshiEvent l ++ [e0]]> evs.

Lemma event_at_other i j : i ≠ i0 → event_at evs' i j = event_at evs i j.
Proof. intros. unfold event_at, evs'. by rewrite list_lookup_insert_ne. Qed.
Lemma event_at_shard j : event_at evs' i0 j = (resize j0 default_KalshiEvent l ++ [e0]) !! j.
Proof. unfold event_at, evs'. rewrite list_lookup_insert_eq by (by eapply lookup_lt_Some). done. Qed.
Lemma event_at_new : event_at evs' i0 j0 = Some e0.
Proof. rewrite event_at_shard. apply list_lookup_middle. by rewrite length_resize. Qed.
Lemma event_at_kept i j e : event_at evs i j = Some e → event_at evs' i j = Some e.
Proof.
  destruct (decide (i = i0)) as [->|]; [|by rewrite event_at_other]. rewrite event_at_shard. unfold event_at. rewrite Hl. cbn. intros He.
  apply lookup_lt_Some in He as Hj. rewrite lookup_app_l by (rewrite length_resize; lia). by rewrite lookup_resize by lia.
Qed.
Lemma event_at_market i j e k m : event_at evs' i j = Some e → ke_markets e !! k = Some m → (i = i0 ∧ j = j0 ∧ e = e0) ∨ event_at evs i j = Some e.
Proof.
  destruct (decide (i = i0)) as [->|]; [|rewrite event_at_other by done; tauto]. destruct (decide (j = j0)) as [->|Hj].
  { rewrite event_at_new. intros [= ->]. auto. }
  rewrite event_at_shard. intros He Hm. right. unfold event_at. rewrite Hl. cbn.
  destruct (decide (j < j0)%nat); [|rewrite lookup_ge_None_2 in He; [done|rewrite length_app, length_resize; cbn; lia]].
  rewrite lookup_app_l in He by (rewrite length_resize; lia). destruct (decide (j < length l)%nat).
  - by rewrite lookup_resize in He by lia.
  - rewrite lookup_resize_new in He by lia. injection He as <-. done.
Qed.
End Appended.

Lemma group_place c r rs : group c 0 rs → r ∈ rs →
  ∃ k, place r = (Z.to_nat (ct_shard_index c), Z.to_nat (ct_shard_event_index c), k) ∧ rs !! k = Some r ∧ route_of c (Z.of_nat k) r.
Proof.
  intros Hg [k Hk]%list_elem_of_lookup. exists k. pose proof (group_lookup c 0 _ k r Hg Hk) as Hr. rewrite Z.add_0_l in Hr. split; [|done].
  destruct Hr as (_ & _ & R3 & R4 & R5). unfold place. by rewrite R3, R4, R5, Nat2Z.id.
Qed.
Lemma group_places_distinct c rs : group c 0 rs → NoDup (place <$> rs).
Proof.
  intros Hg. apply NoDup_fmap_2_strong.
  - intros r1 r2 H1 H2 Heq. destruct (group_place c r1 rs Hg H1) as (k1 & Hp1 & Hk1 & _), (group_place c r2 rs Hg H2) as (k2 & Hp2 & Hk2 & _). congruence.
  - apply NoDup_alt. intros k1 k2 r' H1 H2. pose proof (group_lookup c 0 _ _ _ Hg H1) as (_ & _ & _ & _ & R1).
    pose proof (group_lookup c 0 _ _ _ Hg H2) as (_ & _ & _ & _ & R2). lia.
Qed.

Lemma holds_exactly_group c gs rs evs l : group c 0 gs → evs !! Z.to_nat (ct_shard_index c) = Some l →
  Z.of_nat (length l) ≤ ct_shard_event_index c →
  (∀ r', r' ∈ rs → Z.to_nat (ur_shard_index r') = Z.to_nat (ct_shard_index c) → 0 ≤ ur_shard_event_index r' < ct_shard_event_index c) →
  holds_exactly rs evs →
  holds_exactly (rs ++ gs) (<[Z.to_nat (ct_shard_index c) :=
    resize (Z.to_nat (ct_shard_event_index c)) default_KalshiEvent l ++ [shard_event c (new_market <$> gs)]]> evs).
Proof.
  intros Hg Hl Hlen Hused [E1 E2 E3]. assert (length l ≤ Z.to_nat (ct_shard_event_index c))%nat as Hlen' by lia. split.
  - rewrite fmap_app. apply NoDup_app. split; [done|]. split; [|by eapply group_places_distinct].
    intros p (r1 & -> & H1)%list_elem_of_fmap (r2 & Heq & H2)%list_elem_of_fmap. destruct (group_place c r2 gs Hg H2) as (k & Hp & _ & _).
    rewrite Hp in Heq. injection Heq as Hs Hj _. specialize (Hused r1 H1 Hs). lia.
  - intros r' i j k [Hr|Hr]%elem_of_app Hp.
    + destruct (E2 r' i j k Hr Hp) as (e & He & Hrest). exists e. split; [|done]. by apply event_at_kept.
    + destruct (group_place c r' gs Hg Hr) as (k' & Hp' & Hk' & (R1 & R2 & R3 & R4 & R5)). rewrite Hp' in Hp. injection Hp as <- <- <-.
      exists (shard_event c (new_market <$> gs)). split; [by apply event_at_new|].
      cbn [ke_markets shard_event ke_event_id ke_topology ke_shard_event_index]. by rewrite list_lookup_fmap, Hk'.
  - intros i j k e m He Hm. destruct (event_at_market _ _ _ _ _ Hl Hlen' i j e k m He Hm) as [(-> & -> & ->)|He'].
    + cbn [ke_markets shard_event] in Hm. rewrite list_lookup_fmap in Hm. destruct (gs !! k) as [r'|] eqn:Hk; [|done].
      exists r'. apply list_elem_of_lookup_2 in Hk as Hin. split; [by apply elem_of_app; right|].
      pose proof (group_lookup c 0 _ _ _ Hg Hk) as (_ & _ & R3 & R4 & R5). unfold place. rewrite R3, R4, R5. f_equal. lia.
    + destruct (E3 i j k e m He' Hm) as (r' & ? & ?). exists r'. split; [by apply elem_of_app; left|done].
Qed.

(** An event of the configuration: the group of its routes is installed at the next place of
    its shard, and an event without markets leaves its place empty. *)
Lemma building_group count next rs evs c gs x : building count next rs evs → group c 0 gs → 0 ≤ ct_shard_index c →
  next !! Z.to_nat (ct_shard_index c) = Some x → ct_shard_event_index c = x → count < U32_MAX →
  building (count + 1) (alter (λ n, u32 (n + 1)) (Z.to_nat (ct_shard_index c)) next) (rs ++ gs) (foldl (install_route n) evs gs).
Proof.
  intros [B1 B2 B3 B4 B5 B6] Hg Hs Hx Hj Hc. pose proof (B4 _ _ Hx) as Hxc. apply lookup_lt_Some in Hx as Hlt.
  destruct (lookup_lt_is_Some_2 evs (Z.to_nat (ct_shard_index c))) as [l Hl]; [lia|]. pose proof (B5 _ _ _ Hl Hx) as Hroom.
  assert (foldl (install_route n) evs gs = evs ∧ gs = [] ∨ foldl (install_route n) evs gs = <[Z.to_nat (ct_shard_index c) :=
    resize (Z.to_nat (ct_shard_event_index c)) default_KalshiEvent l ++ [shard_event c (new_market <$> gs)]]> evs) as Hf.
  { destruct gs as [|r gs]; [by left|right]. apply install_group; try done; lia. }
  split.
  - destruct Hf as [[-> ->]| ->]; [by rewrite app_nil_r|]. apply holds_exactly_group; try done; [lia|].
    intros r' Hr' He. rewrite Hj. apply B6; [done|]. by rewrite He.
  - destruct Hf as [[-> _]| ->]; [done|]. by rewrite length_insert.
  - by rewrite length_alter.
  - intros i y. destruct (decide (i = Z.to_nat (ct_shard_index c))) as [->|].
    + rewrite list_lookup_alter_eq, Hx. intros [= <-]. rewrite u32_id by (unfold is_u32; lia). lia.
    + rewrite list_lookup_alter_ne by done. intros Hi. specialize (B4 i y Hi). lia.
  - intros i l' y Hi. destruct (decide (i = Z.to_nat (ct_shard_index c))) as [->|].
    + rewrite list_lookup_alter_eq, Hx. intros [= <-]. rewrite u32_id by (unfold is_u32; lia). destruct Hf as [[Hf _]|Hf]; rewrite Hf in Hi.
      * rewrite Hl in Hi. injection Hi as <-. lia.
      * rewrite list_lookup_insert_eq in Hi by lia. injection Hi as <-. rewrite length_app, length_resize. cbn. lia.
    + rewrite list_lookup_alter_ne by done. intros Hy. apply (B5 i); [|done]. destruct Hf as [[Hf _]|Hf]; rewrite Hf in Hi; [done|].
      by rewrite list_lookup_insert_ne in Hi.
  - intros r y [Hr|Hr]%elem_of_app Hy.
    + destruct (decide (Z.to_nat (ur_shard_index r) = Z.to_nat (ct_shard_index c))) as [He|].
      * rewrite He, list_lookup_alter_eq, Hx in Hy. injection Hy as <-. rewrite u32_id by (unfold is_u32; lia).
        assert (0 ≤ ur_shard_event_index r < x); [|lia]. apply B6; [done|]. by rewrite He.
      * rewrite list_lookup_alter_ne in Hy by done. by apply B6.
    + destruct (group_place c r gs Hg Hr) as (k & _ & _ & _ & _ & R3 & R4 & _). rewrite R3, list_lookup_alter_eq, Hx in Hy. injection Hy as <-.
      rewrite u32_id by (unfold is_u32; lia). lia.
Qed.

(** ** The whole configuration *)

Context (sort_by_strike : list MarketConfig → list MarketConfig).
Hypothesis sort_permutes : ∀ l, sort_by_strike l ≡ₚ l.
Context (shard_count : Z).
Hypothesis shards : n = Z.to_nat shard_count.
Hypothesis some_shards : 0 < shard_count ≤ U32_MAX.

Lemma order_markets_length topology markets ordered : order_markets sort_by_strike topology markets = inr ordered → length ordered = length markets.
Proof. unfold order_markets. repeat case_match; try done; intros [= <-]; [by rewrite sort_permutes|done]. Qed.

Lemma building_event count next rs evs config event gs next' : building count next rs evs → count < U32_MAX →
  Z.of_nat (length (ec_markets config)) ≤ U32_MAX →
  build_event sort_by_strike shard_count next config = inr (event, gs, next') →
  building (count + 1) next' (rs ++ gs) (foldl (install_route n) evs gs).
Proof.
  intros HB Hc Hm. unfold build_event. destruct (parse_event_id _) as [|event_id]; [done|]. destruct (parse_affinity_key _) as [|key]; [done|].
  destruct (parse_event_topology _) as [|topology]; [done|]. destruct (order_markets _ topology _) as [|ordered] eqn:Eo; [done|].
  destruct (build_markets _ 0 ordered) as [|[built routes]] eqn:Eb; [done|]. intros [= _ <- <-].
  apply order_markets_length in Eo. apply (build_markets_group _ _ 0) in Eb; [|lia].
  pose proof (Z.mod_pos_bound key shard_count ltac:(lia)) as Hmod. assert (u32 (key mod shard_count) = key mod shard_count) as Hu by (apply u32_id; unfold is_u32; lia).
  destruct (lookup_lt_is_Some_2 next (Z.to_nat (u32 (key mod shard_count)))) as [x Hx].
  { rewrite (bd_next _ _ _ _ HB), Hu. lia. }
  refine (building_group _ _ _ _ _ _ x HB Eb _ Hx _ Hc); cbn [ct_shard_index ct_shard_event_index]; [lia|by rewrite Hx].
Qed.

Lemma building_events configs : ∀ count next rs evs events gs, building count next rs evs → count + Z.of_nat (length configs) ≤ U32_MAX →
  Forall (λ c, Z.of_nat (length (ec_markets c)) ≤ U32_MAX) configs →
  build_events sort_by_strike shard_count next configs = inr (events, gs) → holds_exactly (rs ++ gs) (foldl (install_route n) evs gs).
Proof.
  induction configs as [|config rest IH]; intros count next rs evs events gs HB Hc Hm; cbn [build_events].
  - intros [= <- <-]. rewrite app_nil_r. apply HB.
  - inversion Hm; subst. cbn [length] in Hc. destruct (build_event _ _ next config) as [|[[event gs1] next1]] eqn:E1; [done|].
    destruct (build_events _ _ next1 rest) as [|[events2 gs2]] eqn:E2; [done|]. intros [= _ <-]. rewrite foldl_app, app_assoc.
    eapply building_event in E1; [|exact HB|lia|done]. eapply IH; [exact E1|lia|done|exact E2].
Qed.
End Shards.

(** C20: the universe the configuration builds is installed as it is routed.  For the events of
    the configuration (fewer than [2^32] of them, and of markets in one of them) and the shard
    count they were built for, the events the control plane sends to the shards hold, at the
    shard, event and market index of every route, the market of this route, in an event with the
    route's event id and topology; no two routes have the same place; and no shard holds a
    market that has no route.  The markets of a chain are in the order of the sort, whichever
    order it gives to equal strikes. *)
Theorem built_universe_is_installed sort_by_strike configs shard_count u :
  (∀ l, sort_by_strike l ≡ₚ l) → 0 < shard_count ≤ U32_MAX → Z.of_nat (length configs) ≤ U32_MAX →
  Forall (λ c, Z.of_nat (length (ec_markets c)) ≤ U32_MAX) configs →
  build_universe_snapshot sort_by_strike configs shard_count = inr u →
  holds_exactly (us_market_routes u) (build_shard_events u (Z.to_nat shard_count)).
Proof.
  intros Hsort Hs Hc Hm. unfold build_universe_snapshot. case_match; [done|]. destruct (build_events _ _ _ configs) as [|[events routes]] eqn:E; [done|].
  intros [= <-]. unfold build_shard_events. cbn [us_market_routes].
  apply (building_events _ _ Hsort shard_count eq_refl Hs configs 0 _ [] (replicate (Z.to_nat shard_count) []) _ _) in E; [done| |lia|done].
  split; try done.
  - split; [constructor|intros ???? []%not_elem_of_nil|]. intros i j k e m. unfold event_at. intros He.
    destruct (replicate _ _ !! i) as [l|] eqn:El; [|done]. apply lookup_replicate in El as [-> _]. done.
  - by rewrite length_replicate.
  - by rewrite length_replicate.
  - intros i x [-> _]%lookup_replicate. lia.
  - intros i l x [-> _]%lookup_replicate [-> _]%lookup_replicate. done.
  - intros r x []%not_elem_of_nil.
Qed.

(** Three events on two shards; the first is a chain whose strikes are not in order, the second
    has no markets. *)
Definition strike_le (a b : MarketConfig) : bool :=
  match mc_strike_key a, mc_strike_key b with Some x, Some y => x <=? y | _, _ => true end.
Fixpoint insert_market (m : MarketConfig) (l : list MarketConfig) : list MarketConfig :=
  match l with [] => [m] | m' :: l' => if strike_le m m' then m :: l else m' :: insert_market m l' end.
Definition insertion_sort (l : list MarketConfig) : list MarketConfig := foldr insert_market [] l.

Lemma insert_market_permutes m l : insert_market m l ≡ₚ m :: l.
Proof. induction l as [|m' l IH]; cbn; [done|]. destruct (strike_le m m'); [done|]. rewrite IH. constructor. Qed.
Lemma insertion_sort_permutes l : insertion_sort l ≡ₚ l.
Proof. induction l as [|m l IH]; cbn; [done|]. by rewrite insert_market_permutes, IH. Qed.

Definition sample_config (id : string) (key : Z) : MarketConfig :=
  mkMarketConfig id ("KX-" +:+ id) true "linear_cent" (Some key) 0 0 0 0.
Definition sample_configs : list EventConfig :=
  [mkEventConfig "10" "4" "monotonic_chain" [sample_config "101" 20; sample_config "102" 10];
   mkEventConfig "11" "7" "unordered_group" [];
   mkEventConfig "12" "9" "single_market" [sample_config "103" 30]].
Definition sample_universe : UniverseSnapshot :=
  match build_universe_snapshot insertion_sort sample_configs 2 with inr u => u | inl _ => default_UniverseSnapshot end.

Lemma built_universe_is_installed_witness :
  holds_exactly (us_market_routes sample_universe) (build_shard_events sample_universe (Z.to_nat 2)) ∧
  place <$> us_market_routes sample_universe = [(0, 0, 0); (0, 0, 1); (1, 1, 0)]%nat ∧ ur_market_id <$> us_market_routes sample_universe = [102; 101; 103].
Proof.
  assert (build_universe_snapshot insertion_sort sample_configs 2 = inr sample_universe) as Hb by (vm_compute; reflexivity).
  split; [|split; vm_compute; reflexivity].
  apply (built_universe_is_installed insertion_sort sample_configs 2 sample_universe insertion_sort_permutes); [lia|cbn; lia| |exact Hb].
  repeat constructor; cbn; lia.
Defined.
End UniverseInstall.
