(* ===== verification/Strategy.v ===== *)
(** * Strategy: the thread that turns observations into group intents

    Models [cpp/src/strategy/strategy.cpp] and [cpp/include/predex/strategy/strategy.hpp].
    The strategy reads observations of one queue per shard, evaluates each for an arbitrage,
    and publishes a two-leg group intent to the OMS when its view of the portfolio allows it;
    it tracks the groups it has published until the OMS says they are over.

    Of the queues it reads, the state holds the results its next [try_pop] calls return.
    The queue it writes is used through [PushQueue].  Clock readings, of the monotonic and of
    the wall clock, are indexed by the number of monotonic readings made so far.  The
    iteration order of a hash map is the parameter [hash_order]. *)

From S2P Require Import Prelude Spsc LatencyHistogram StrategyTypes MonotonicArb OmsTypes.
Import MonotonicArb.

Module Strategy.

Inductive StrategyPumpCode := | kNO_WORK | kOBSERVATION_REJECTED | kCANDIDATE_FOUND | kEVENT_UNAVAILABLE
  | kSHARD_UNAVAILABLE | kMESSAGE_REJECTED | kOMS_MESSAGE_HANDLED | kCANDIDATE_SUPPRESSED | kINTENT_PUBLISHED
  | kINTENT_BACKPRESSURE.
#[export] Instance StrategyPumpCode_eq_dec : EqDecision StrategyPumpCode.
Proof. solve_decision. Defined.

Inductive StrategyMessageRejectReason := | kREASON_OK | kSHARD_INDEX_MISMATCH | kUNIVERSE_VERSION_MISMATCH
  | kOBSERVATION_TOO_OLD | kINVALID_TIMESTAMP_ORDER | kNON_MONOTONIC_EVENT_REVISION | kOMS_STRATEGY_INDEX_MISMATCH
  | kSTALE_OMS_SEQUENCE.
#[export] Instance StrategyMessageRejectReason_eq_dec : EqDecision StrategyMessageRejectReason.
Proof. solve_decision. Defined.

Inductive StrategyIntentSuppressReason := | kSUPPRESS_NONE | kPORTFOLIO_UNKNOWN | kPORTFOLIO_NOT_RECONCILED
  | kINSUFFICIENT_CAPITAL | kEVENT_GROUP_ACTIVE | kSUPPRESS_EXECUTION_BLOCKED | kIDENTITY_EXHAUSTED.
#[export] Instance StrategyIntentSuppressReason_eq_dec : EqDecision StrategyIntentSuppressReason.
Proof. solve_decision. Defined.

Record StrategyPumpResult := mkStrategyPumpResult {
  sp_code : StrategyPumpCode;
  sp_source_shard_index : Z;
  sp_message_reject_reason : StrategyMessageRejectReason;
  sp_evaluation_reason : MonotonicArbRejectReason;
  sp_intent_suppress_reason : StrategyIntentSuppressReason;
  sp_candidate : option MonotonicArbCandidate;
  sp_published_intent : option GroupOrderIntent;
}.
#[export] Instance eta_StrategyPumpResult : Eta StrategyPumpResult := λ r,
  mkStrategyPumpResult (sp_code r) (sp_source_shard_index r) (sp_message_reject_reason r) (sp_evaluation_reason r)
    (sp_intent_suppress_reason r) (sp_candidate r) (sp_published_intent r).
Definition default_StrategyPumpResult : StrategyPumpResult :=
  mkStrategyPumpResult kNO_WORK 0 kREASON_OK kARB_NONE kSUPPRESS_NONE None None.

Record StrategyShardInputStats := mkStrategyShardInputStats {
  ist_shard_index : Z;
  ist_messages_seen : Z;
  ist_observations_seen : Z;
  ist_event_unavailable_seen : Z;
  ist_shard_unavailable_seen : Z;
  ist_message_rejects : Z;
  ist_shard_to_strategy_latency : Histogram.LatencyHistogram;
  ist_ingress_to_strategy_latency : Histogram.LatencyHistogram;
}.
#[export] Instance eta_StrategyShardInputStats : Eta StrategyShardInputStats := λ r,
  mkStrategyShardInputStats (ist_shard_index r) (ist_messages_seen r) (ist_observations_seen r)
    (ist_event_unavailable_seen r) (ist_shard_unavailable_seen r) (ist_message_rejects r)
    (ist_shard_to_strategy_latency r) (ist_ingress_to_strategy_latency r).

Record StrategyStats := mkStrategyStats {
  ts_messages_seen : Z;
  ts_observations_evaluated : Z;
  ts_candidates_found : Z;
  ts_event_unavailable_seen : Z;
  ts_shard_unavailable_seen : Z;
  ts_message_rejects : Z;
  ts_stale_observations : Z;
  ts_oms_messages_seen : Z;
  ts_intents_published : Z;
  ts_intent_backpressure : Z;
  ts_candidates_suppressed : Z;
  ts_group_admissions_accepted : Z;
  ts_group_admissions_rejected : Z;
  ts_terminal_groups_seen : Z;
  ts_unsafe_groups_seen : Z;
  ts_shard_to_strategy_latency : Histogram.LatencyHistogram;
  ts_evaluation_latency : Histogram.LatencyHistogram;
  ts_ingress_to_evaluation_latency : Histogram.LatencyHistogram;
}.
#[export] Instance eta_StrategyStats : Eta StrategyStats := λ r,
  mkStrategyStats (ts_messages_seen r) (ts_observations_evaluated r) (ts_candidates_found r) (ts_event_unavailable_seen r)
    (ts_shard_unavailable_seen r) (ts_message_rejects r) (ts_stale_observations r) (ts_oms_messages_seen r)
    (ts_intents_published r) (ts_intent_backpressure r) (ts_candidates_suppressed r) (ts_group_admissions_accepted r)
    (ts_group_admissions_rejected r) (ts_terminal_groups_seen r) (ts_unsafe_groups_seen r)
    (ts_shard_to_strategy_latency r) (ts_evaluation_latency r) (ts_ingress_to_evaluation_latency r).
Definition default_StrategyStats : StrategyStats :=
  mkStrategyStats 0 0 0 0 0 0 0 0 0 0 0 0 0 0 0 Histogram.empty_histogram Histogram.empty_histogram Histogram.empty_histogram.

Record MonotonicArbStrategyConfig := mkMonotonicArbStrategyConfig {
  sg_strategy_id : Z;
  sg_arb_config : MonotonicArbConfig;
  sg_maximum_observation_age_ns : Z;
}.

Record ActiveGroup := mkActiveGroup {
  ag_event_id : Z;
  ag_pending_capital_ticks : Z;
  ag_admission_pending : bool;
}.
#[export] Instance eta_ActiveGroup : Eta ActiveGroup := λ r,
  mkActiveGroup (ag_event_id r) (ag_pending_capital_ticks r) (ag_admission_pending r).

(** A shard's queue as the results of its next pops. *)
Record StrategyShardInput := mkStrategyShardInput {
  in_shard_index : Z;
  in_queue : list (option ShardToStrategyMessage);
}.
#[export] Instance eta_StrategyShardInput : Eta StrategyShardInput := λ r,
  mkStrategyShardInput (in_shard_index r) (in_queue r).

Section Strategy.
Context {Q : Type → Type} `{!PushQueue Q}.

Record StrategyState := mkStrategyState {
  st_strategy_index : Z;
  st_active_universe_version : Z;
  st_config : MonotonicArbStrategyConfig;
  st_shard_inputs : list StrategyShardInput;
  st_strategy_to_oms_queue : Q StrategyIntent;
  st_oms_to_strategy_queue : list (option OmsToStrategyMessage);
  st_next_input_index : Z;
  st_stats : StrategyStats;
  st_shard_input_stats : list StrategyShardInputStats;
  st_evaluation_rejections : list Z;
  st_portfolio_seen : bool;
  st_portfolio_reconciled : bool;
  st_execution_blocked : bool;
  st_available_capital_ticks : Z;
  st_last_portfolio_sequence : Z;
  st_pending_capital_ticks : Z;
  st_next_group_intent_id : Z;
  st_next_strategy_intent_id : Z;
  st_next_signal_id : Z;
  st_last_pair_revision : gmap Z Z;
  st_unavailable_event_revision : gmap Z Z;
  st_active_group_by_event : gmap Z Z;
  st_active_group_by_id : gmap Z ActiveGroup;
  st_clock_reads : nat;
}.
#[export] Instance eta_StrategyState : Eta StrategyState := λ r,
  mkStrategyState (st_strategy_index r) (st_active_universe_version r) (st_config r) (st_shard_inputs r)
    (st_strategy_to_oms_queue r) (st_oms_to_strategy_queue r) (st_next_input_index r) (st_stats r)
    (st_shard_input_stats r) (st_evaluation_rejections r) (st_portfolio_seen r) (st_portfolio_reconciled r)
    (st_execution_blocked r) (st_available_capital_ticks r) (st_last_portfolio_sequence r) (st_pending_capital_ticks r)
    (st_next_group_intent_id r) (st_next_strategy_intent_id r) (st_next_signal_id r) (st_last_pair_revision r)
    (st_unavailable_event_revision r) (st_active_group_by_event r) (st_active_group_by_id r) (st_clock_reads r).

(** The constructor; [None] where it throws.  All queues are there. *)
Definition make_strategy (strategy_index active_universe_version : Z) (config : MonotonicArbStrategyConfig)
    (shard_inputs : list StrategyShardInput) (strategy_to_oms : Q StrategyIntent)
    (oms_to_strategy : list (option OmsToStrategyMessage)) : option StrategyState :=
  if (active_universe_version =? 0) || (sg_strategy_id config =? 0) || (sg_maximum_observation_age_ns config =? 0)
     || negb (valid_monotonic_arb_config (sg_arb_config config)) || bool_decide (shard_inputs = [])
  then None
  else if negb (bool_decide (NoDup (in_shard_index <$> shard_inputs))) then None
  else
    let stats_of input := mkStrategyShardInputStats (in_shard_index input) 0 0 0 0 0 Histogram.empty_histogram Histogram.empty_histogram in
    Some (mkStrategyState strategy_index active_universe_version config shard_inputs strategy_to_oms oms_to_strategy 0
            default_StrategyStats (stats_of <$> shard_inputs) (replicate 15 0) false false false 0 0 0 1 1 1 ∅ ∅ ∅ ∅ 0).

Variable clk : nat → Z.
Variable wall_clk : nat → Z.
Variable hash_order : list Z → list Z.

Definition strategy_now_ns : M StrategyState Z := λ s, (clk (st_clock_reads s), s ⟪ st_clock_reads ::= S ⟫).

Definition bump (n : Z) : Z := u64 (n + 1).
Definition count (f : StrategyStats → StrategyStats) : M StrategyState unit := modify (λ s, s ⟪ st_stats ::= f ⟫).
Definition count_input (input_index : nat) (f : StrategyShardInputStats → StrategyShardInputStats) : M StrategyState unit :=
  modify (λ s, s ⟪ st_shard_input_stats ::= alter f input_index ⟫).

Definition terminal_group_state (state : GroupExecutionState) : bool :=
  match state with kCOMPLETED | kFLATTENED | kABORTED | kGROUP_REJECTED => true | _ => false end.
Definition unsafe_group_state (state : GroupExecutionState) : bool :=
  match state with kREPAIR_REQUIRED | kGROUP_UNCERTAIN | kREPAIR_FAILED => true | _ => false end.

(** ** Intents *)

Definition required_capital_ticks (candidate : MonotonicArbCandidate) : option Z :=
  let leg_exposure quantity_lots :=
    let product := u128 (quantity_lots * kPriceTicksPerDollar) in
    u128 (product / kQuantityLotsPerContract + (if product mod kQuantityLotsPerContract =? 0 then 0 else 1)) in
  let exposure := u128 (leg_exposure (al_quantity_lots (cd_easier_leg candidate)) + leg_exposure (al_quantity_lots (cd_harder_leg candidate))) in
  if U64_MAX <? exposure then None else Some (u64 exposure).

Definition make_leg (group_context : IntentContext) (leg : MonotonicArbLeg) (leg_index strategy_intent_id : Z) : NewOrderIntent :=
  mkNewOrderIntent
    (group_context ⟪ ic_market_id := al_market_id leg ⟫ ⟪ ic_strategy_intent_id := strategy_intent_id ⟫ ⟪ ic_leg_index := leg_index ⟫)
    kYES (match al_action leg with kBUY_YES => kBUY | kSELL_YES => kSELL end) kTAKER kMARKETABLE_LIMIT kFOK
    (i64 (al_limit_price_ticks leg)) (i64 (al_quantity_lots leg)).

Definition identity_exhausted (candidate : MonotonicArbCandidate) (s : StrategyState) : bool :=
  (st_next_group_intent_id s =? 0) || (st_next_strategy_intent_id s =? 0)
  || (4294967295 - 1 <? st_next_strategy_intent_id s) || (st_next_signal_id s =? 0) || (4294967295 <? st_next_signal_id s)
  || (I64_MAX <? al_limit_price_ticks (cd_easier_leg candidate)) || (I64_MAX <? al_limit_price_ticks (cd_harder_leg candidate))
  || (I64_MAX <? al_quantity_lots (cd_easier_leg candidate)) || (I64_MAX <? al_quantity_lots (cd_harder_leg candidate)).

Definition make_group_intent (candidate : MonotonicArbCandidate) (strategy_dequeue evaluation_complete intent_publish : Z)
    : M StrategyState (option GroupOrderIntent) :=
  exhausted ← gets (identity_exhausted candidate);
  if exhausted : bool then mret None
  else
    group_id ← gets st_next_group_intent_id;
    modify (λ s, s ⟪ st_next_group_intent_id ::= bump ⟫);;
    signal_id ← gets st_next_signal_id;
    modify (λ s, s ⟪ st_next_signal_id ::= bump ⟫);;
    first_intent_id ← gets st_next_strategy_intent_id;
    modify (λ s, s ⟪ st_next_strategy_intent_id ::= bump ⟫);;
    second_intent_id ← gets st_next_strategy_intent_id;
    modify (λ s, s ⟪ st_next_strategy_intent_id ::= bump ⟫);;
    strategy_index ← gets st_strategy_index;
    strategy_id ← gets (λ s, sg_strategy_id (st_config s));
    let group_context :=
      mkIntentContext strategy_index (al_market_id (cd_easier_leg candidate)) (cd_event_id candidate) strategy_id 0
        (u32 signal_id) group_id 0 2 (cd_universe_version candidate) (cd_event_revision candidate) (cd_shard_index candidate)
        (cd_ingress_timestamp_ns candidate) (cd_book_apply_timestamp_ns candidate) (cd_observation_publish_timestamp_ns candidate)
        strategy_dequeue evaluation_complete intent_publish in
    mret (Some (default_GroupOrderIntent ⟪ gi_context := group_context ⟫ ⟪ gi_leg_count := 2 ⟫
      ⟪ gi_admission_policy := kALL_OR_NONE ⟫ ⟪ gi_expected_gross_edge_ticks := cd_gross_edge_ticks candidate ⟫
      ⟪ gi_estimated_fee_ticks := cd_estimated_fee_ticks candidate ⟫ ⟪ gi_expected_net_edge_ticks := cd_net_edge_ticks candidate ⟫
      ⟪ gi_new_orders ::= λ l, <[1%nat := make_leg group_context (cd_harder_leg candidate) 1 (u32 second_intent_id)]>
                               (<[0%nat := make_leg group_context (cd_easier_leg candidate) 0 (u32 first_intent_id)]> l) ⟫)).

(** ** Messages of shards *)

(** A message is refused: counted twice, for the strategy and for its input. *)
Definition count_reject (input_index : nat) : M StrategyState unit :=
  count (λ t, t ⟪ ts_message_rejects ::= bump ⟫);;
  count_input input_index (λ t, t ⟪ ist_message_rejects ::= bump ⟫).

Definition reject_message (input_index : nat) (reason : StrategyMessageRejectReason) (result : StrategyPumpResult)
    : M StrategyState StrategyPumpResult :=
  count_reject input_index;;
  mret (result ⟪ sp_code := kMESSAGE_REJECTED ⟫ ⟪ sp_message_reject_reason := reason ⟫).

Definition suppress (reason : StrategyIntentSuppressReason) (result : StrategyPumpResult) : M StrategyState StrategyPumpResult :=
  count (λ t, t ⟪ ts_candidates_suppressed ::= bump ⟫);;
  mret (result ⟪ sp_code := kCANDIDATE_SUPPRESSED ⟫ ⟪ sp_intent_suppress_reason := reason ⟫).

(** Why a message does not belong to its input, if it does not. *)
Definition input_mismatch (input_index : nat) (shard_index universe_version : Z) (s : StrategyState)
    : option StrategyMessageRejectReason :=
  match st_shard_inputs s !! input_index with
  | Some input =>
      if negb (in_shard_index input =? shard_index) then Some kSHARD_INDEX_MISMATCH
      else if negb (universe_version =? st_active_universe_version s) then Some kUNIVERSE_VERSION_MISMATCH
      else None
  | None => Some kSHARD_INDEX_MISMATCH
  end.

(** [message_matches_input] and the return of every handler when it fails. *)
Definition if_matches_input (input_index : nat) (shard_index universe_version : Z)
    (handle : StrategyPumpResult → M StrategyState StrategyPumpResult) : M StrategyState StrategyPumpResult :=
  let result := default_StrategyPumpResult ⟪ sp_source_shard_index := shard_index ⟫ in
  mismatch ← gets (input_mismatch input_index shard_index universe_version);
  match mismatch with
  | Some reason => reject_message input_index reason result
  | None => handle result
  end.

Definition timestamps_disordered (o : MonotonicPairObservation) (dequeue_timestamp_ns : Z) : bool :=
  (po_ingress_timestamp_ns o =? 0) || (po_book_apply_timestamp_ns o <? po_ingress_timestamp_ns o)
  || (po_publish_timestamp_ns o <? po_book_apply_timestamp_ns o) || (dequeue_timestamp_ns <? po_publish_timestamp_ns o).

(** The revision is not newer than a report of unavailability, or than the last observation
    of the pair. *)
Definition stale_revision (o : MonotonicPairObservation) (known : option Z) : bool :=
  match known with Some revision => po_event_revision o <=? revision | None => false end.

Definition reason_index (reason : MonotonicArbRejectReason) : nat :=
  match reason with
  | kARB_NONE => 0 | kARB_MARKET_NOT_TRADEABLE => 1 | kMARKET_CLOSED => 2 | kINVALID_PAIR_ORDER => 3 | kMISSING_BID_DEPTH => 4
  | kMISSING_ASK_DEPTH => 5 | kNO_GROSS_EDGE => 6 | kINSUFFICIENT_NET_EDGE => 7 | kDEPTH_DISCONTINUITY => 8
  | kINSUFFICIENT_QUANTITY => 9 | kPRICE_AGGRESSION_EXCEEDED => 10 | kARITHMETIC_OVERFLOW => 11 | kINVALID_CONFIG => 12
  | kINVALID_OBSERVATION => 13 | kFEES_ERASE_EDGE => 14 | kARB_COUNT => 15
  end%nat.

Definition push_intent (intent : GroupOrderIntent) : M StrategyState bool := λ s,
  let '(b, q) := q_push (SiGroup intent) (st_strategy_to_oms_queue s) in (b, s ⟪ st_strategy_to_oms_queue := q ⟫).

(** The last part: the candidate fits the portfolio; publish it. *)
Definition publish_candidate (candidate : MonotonicArbCandidate) (required_capital dequeue_timestamp_ns evaluation_complete : Z)
    (result : StrategyPumpResult) : M StrategyState StrategyPumpResult :=
  publish_timestamp ← strategy_now_ns;
  intent ← make_group_intent candidate dequeue_timestamp_ns evaluation_complete publish_timestamp;
  match intent with
  | None =>
      result ← suppress kIDENTITY_EXHAUSTED result;
      modify (λ s, s ⟪ st_execution_blocked := true ⟫);;
      mret result
  | Some intent =>
      let group_intent_id := ic_group_intent_id (gi_context intent) in
      pushed ← push_intent intent;
      if pushed : bool then
        modify (λ s, s ⟪ st_active_group_by_event ::= <[cd_event_id candidate := group_intent_id]> ⟫
                       ⟪ st_active_group_by_id ::= <[group_intent_id := mkActiveGroup (cd_event_id candidate) required_capital true]> ⟫
                       ⟪ st_pending_capital_ticks ::= λ n, u64 (n + required_capital) ⟫);;
        count (λ t, t ⟪ ts_intents_published ::= bump ⟫);;
        mret (result ⟪ sp_code := kINTENT_PUBLISHED ⟫ ⟪ sp_published_intent := Some intent ⟫)
      else
        count (λ t, t ⟪ ts_intent_backpressure ::= bump ⟫);;
        mret (result ⟪ sp_code := kINTENT_BACKPRESSURE ⟫)
  end.

(** Why a candidate that needs [required] may not be published now, if it may not. *)
Definition capital_refusal (required : option Z) (s : StrategyState) : option StrategyIntentSuppressReason :=
  match required with
  | None => Some kINSUFFICIENT_CAPITAL
  | Some required =>
      if negb (st_portfolio_seen s) then Some kPORTFOLIO_UNKNOWN
      else if negb (st_portfolio_reconciled s) then Some kPORTFOLIO_NOT_RECONCILED
      else
        let available := u64 (Z.max 0 (st_available_capital_ticks s)) in
        if (available <? st_pending_capital_ticks s) || (u64 (available - st_pending_capital_ticks s) <? required)
        then Some kINSUFFICIENT_CAPITAL else None
  end.

(** The evaluation of an observation that passed every check. *)
Definition evaluate_observation (o : MonotonicPairObservation) (dequeue_timestamp_ns : Z) (result : StrategyPumpResult)
    : M StrategyState StrategyPumpResult :=
  evaluation_start ← strategy_now_ns;
  evaluation ← gets (λ s, evaluate_monotonic_arb (sg_arb_config (st_config s)) o (wall_clk (st_clock_reads s)));
  evaluation_complete ← strategy_now_ns;
  count (λ t, t ⟪ ts_observations_evaluated ::= bump ⟫
    ⟪ ts_evaluation_latency ::= λ h, Histogram.record_elapsed_ns h evaluation_start evaluation_complete ⟫
    ⟪ ts_ingress_to_evaluation_latency ::= λ h, Histogram.record_elapsed_ns h (po_ingress_timestamp_ns o) evaluation_complete ⟫);;
  let result := result ⟪ sp_evaluation_reason := ae_reason evaluation ⟫ in
  match ae_candidate evaluation with
  | None =>
      modify (λ s, s ⟪ st_evaluation_rejections ::= alter bump (reason_index (ae_reason evaluation)) ⟫);;
      mret (result ⟪ sp_code := kOBSERVATION_REJECTED ⟫)
  | Some candidate =>
      let result := result ⟪ sp_candidate := Some candidate ⟫ in
      count (λ t, t ⟪ ts_candidates_found ::= bump ⟫);;
      let required_capital := required_capital_ticks candidate in
      refusal ← gets (capital_refusal required_capital);
      match refusal with
      | Some reason => suppress reason result
      | None => publish_candidate candidate (default 0 required_capital) dequeue_timestamp_ns evaluation_complete result
      end
  end.

Definition handle_observation (input_index : nat) (o : MonotonicPairObservation) (dequeue_timestamp_ns : Z)
    : M StrategyState StrategyPumpResult :=
  if_matches_input input_index (po_shard_index o) (po_universe_version o) (λ result,
    count_input input_index (λ t, t ⟪ ist_observations_seen ::= bump ⟫
      ⟪ ist_shard_to_strategy_latency ::= λ h, Histogram.record_elapsed_ns h (po_publish_timestamp_ns o) dequeue_timestamp_ns ⟫
      ⟪ ist_ingress_to_strategy_latency ::= λ h, Histogram.record_elapsed_ns h (po_ingress_timestamp_ns o) dequeue_timestamp_ns ⟫);;
    count (λ t, t ⟪ ts_shard_to_strategy_latency ::= λ h, Histogram.record_elapsed_ns h (po_publish_timestamp_ns o) dequeue_timestamp_ns ⟫);;
    if timestamps_disordered o dequeue_timestamp_ns then reject_message input_index kINVALID_TIMESTAMP_ORDER result
    else
      maximum_age ← gets (λ s, sg_maximum_observation_age_ns (st_config s));
      if maximum_age <? dequeue_timestamp_ns - po_publish_timestamp_ns o then
        count (λ t, t ⟪ ts_stale_observations ::= bump ⟫);;
        reject_message input_index kOBSERVATION_TOO_OLD result
      else
        unavailable ← gets (λ s, st_unavailable_event_revision s !! po_event_id o);
        if stale_revision o unavailable then reject_message input_index kNON_MONOTONIC_EVENT_REVISION result
        else
          last_revision ← gets (λ s, st_last_pair_revision s !! mv_market_id (po_easier o));
          if stale_revision o last_revision then reject_message input_index kNON_MONOTONIC_EVENT_REVISION result
          else
            modify (λ s, s ⟪ st_last_pair_revision ::= <[mv_market_id (po_easier o) := po_event_revision o]> ⟫);;
            blocked ← gets st_execution_blocked;
            if blocked : bool then suppress kSUPPRESS_EXECUTION_BLOCKED result
            else
              active ← gets (λ s, st_active_group_by_event s !! po_event_id o);
              match active with
              | Some _ => suppress kEVENT_GROUP_ACTIVE result
              | None => evaluate_observation o dequeue_timestamp_ns result
              end).

Definition handle_event_unavailable (input_index : nat) (m : StrategyEventUnavailable) : M StrategyState StrategyPumpResult :=
  if_matches_input input_index (eu_shard_index m) (eu_universe_version m) (λ result,
    count (λ t, t ⟪ ts_event_unavailable_seen ::= bump ⟫);;
    count_input input_index (λ t, t ⟪ ist_event_unavailable_seen ::= bump ⟫);;
    modify (λ s, s ⟪ st_unavailable_event_revision ::= λ m', <[eu_event_id m := Z.max (default 0 (m' !! eu_event_id m)) (eu_event_revision m)]> m' ⟫);;
    mret (result ⟪ sp_code := kEVENT_UNAVAILABLE ⟫)).

Definition handle_shard_unavailable (input_index : nat) (m : StrategyShardUnavailable) : M StrategyState StrategyPumpResult :=
  if_matches_input input_index (su_shard_index m) (su_universe_version m) (λ result,
    count (λ t, t ⟪ ts_shard_unavailable_seen ::= bump ⟫);;
    count_input input_index (λ t, t ⟪ ist_shard_unavailable_seen ::= bump ⟫);;
    mret (result ⟪ sp_code := kSHARD_UNAVAILABLE ⟫)).

Definition dispatch_strategy_message (input_index : nat) (m : ShardToStrategyMessage) (dequeue_timestamp_ns : Z)
    : M StrategyState StrategyPumpResult :=
  count (λ t, t ⟪ ts_messages_seen ::= bump ⟫);;
  count_input input_index (λ t, t ⟪ ist_messages_seen ::= bump ⟫);;
  match m with
  | ObservedPair o => handle_observation input_index o dequeue_timestamp_ns
  | EventUnavailable u => handle_event_unavailable input_index u
  | ShardUnavailable u => handle_shard_unavailable input_index u
  end.

(** ** Messages of the OMS *)

Definition reject_oms_message (reason : StrategyMessageRejectReason) : M StrategyState StrategyPumpResult :=
  count (λ t, t ⟪ ts_message_rejects ::= bump ⟫);;
  mret (default_StrategyPumpResult ⟪ sp_code := kMESSAGE_REJECTED ⟫ ⟪ sp_message_reject_reason := reason ⟫).
Definition oms_handled : StrategyPumpResult := default_StrategyPumpResult ⟪ sp_code := kOMS_MESSAGE_HANDLED ⟫.

Definition release_pending (capital : Z) : M StrategyState unit :=
  modify (λ s, s ⟪ st_pending_capital_ticks ::= λ pending, u64 (pending - Z.min pending capital) ⟫).

(** The loop over the groups on a portfolio update: what an admitted group had pending is
    now part of the OMS's figure. *)
Fixpoint settle_groups (ids : list Z) : M StrategyState unit :=
  match ids with
  | [] => mret tt
  | id :: ids' =>
      group ← gets (λ s, st_active_group_by_id s !! id);
      match group with
      | Some g =>
          when (negb (ag_admission_pending g) && (0 <? ag_pending_capital_ticks g))
            (release_pending (ag_pending_capital_ticks g);;
             modify (λ s, s ⟪ st_active_group_by_id ::= <[id := g ⟪ ag_pending_capital_ticks := 0 ⟫]> ⟫))
      | None => mret tt
      end;;
      settle_groups ids'
  end.

Definition forget_group (id : Z) (g : ActiveGroup) : M StrategyState unit :=
  release_pending (ag_pending_capital_ticks g);;
  modify (λ s, s ⟪ st_active_group_by_event ::= delete (ag_event_id g) ⟫ ⟪ st_active_group_by_id ::= delete id ⟫).

Definition handle_portfolio_update (m : StrategyPortfolioUpdate) : M StrategyState StrategyPumpResult :=
  strategy_index ← gets st_strategy_index;
  last ← gets st_last_portfolio_sequence;
  if negb (pu_strategy_index m =? strategy_index) then reject_oms_message kOMS_STRATEGY_INDEX_MISMATCH
  else if pu_sequence m <=? last then reject_oms_message kSTALE_OMS_SEQUENCE
  else
    modify (λ s, s ⟪ st_last_portfolio_sequence := pu_sequence m ⟫ ⟪ st_portfolio_seen := true ⟫
                   ⟪ st_portfolio_reconciled := pu_venue_portfolio_reconciled m ⟫
                   ⟪ st_available_capital_ticks := pu_available_capital_ticks m ⟫);;
    ids ← gets (λ s, hash_order (map_to_list (st_active_group_by_id s)).*1);
    settle_groups ids;;
    mret oms_handled.

Definition handle_position_update (m : StrategyMarketPositionUpdate) : M StrategyState StrategyPumpResult :=
  strategy_index ← gets st_strategy_index;
  last ← gets st_last_portfolio_sequence;
  if negb (mu_strategy_index m =? strategy_index) then reject_oms_message kOMS_STRATEGY_INDEX_MISMATCH
  else if mu_sequence m <=? last then reject_oms_message kSTALE_OMS_SEQUENCE
  else modify (λ s, s ⟪ st_last_portfolio_sequence := mu_sequence m ⟫);; mret oms_handled.

Definition handle_admission (m : GroupAdmissionResponse) : M StrategyState StrategyPumpResult :=
  strategy_index ← gets st_strategy_index;
  if negb (ic_strategy_index (ga_context m) =? strategy_index) then reject_oms_message kOMS_STRATEGY_INDEX_MISMATCH
  else
    let id := ic_group_intent_id (ga_context m) in
    group ← gets (λ s, st_active_group_by_id s !! id);
    match group with
    | None => mret oms_handled
    | Some g =>
        if bool_decide (ga_admission_state m = kADMISSION_ACCEPTED) then
          modify (λ s, s ⟪ st_active_group_by_id ::= <[id := g ⟪ ag_admission_pending := false ⟫]> ⟫);;
          count (λ t, t ⟪ ts_group_admissions_accepted ::= bump ⟫);;
          mret oms_handled
        else
          forget_group id g;;
          count (λ t, t ⟪ ts_group_admissions_rejected ::= bump ⟫);;
          mret oms_handled
    end.

Definition handle_group_state (m : GroupStateUpdate) : M StrategyState StrategyPumpResult :=
  strategy_index ← gets st_strategy_index;
  if negb (ic_strategy_index (gu_context m) =? strategy_index) then reject_oms_message kOMS_STRATEGY_INDEX_MISMATCH
  else
    let id := ic_group_intent_id (gu_context m) in
    group ← gets (λ s, st_active_group_by_id s !! id);
    match group with
    | None => mret oms_handled
    | Some g =>
        if unsafe_group_state (gu_execution_state m) then
          modify (λ s, s ⟪ st_execution_blocked := true ⟫);;
          count (λ t, t ⟪ ts_unsafe_groups_seen ::= bump ⟫);;
          mret oms_handled
        else if terminal_group_state (gu_execution_state m) then
          forget_group id g;;
          count (λ t, t ⟪ ts_terminal_groups_seen ::= bump ⟫);;
          mret oms_handled
        else mret oms_handled
    end.

(** Responses and order updates are only checked for their strategy. *)
Definition handle_order_message (context : OmsContext) : M StrategyState StrategyPumpResult :=
  strategy_index ← gets st_strategy_index;
  if negb (ic_strategy_index (cx_context context) =? strategy_index) then reject_oms_message kOMS_STRATEGY_INDEX_MISMATCH
  else mret oms_handled.

Definition handle_oms_message (m : OmsToStrategyMessage) : M StrategyState StrategyPumpResult :=
  count (λ t, t ⟪ ts_oms_messages_seen ::= bump ⟫);;
  match m with
  | SmPortfolio p => handle_portfolio_update p
  | SmPosition p => handle_position_update p
  | SmAdmission a => handle_admission a
  | SmGroupState g => handle_group_state g
  | SmResponse r => handle_order_message (or_context r)
  | SmOrderState u => handle_order_message (ou_context u)
  end.

(** ** The pump *)

Definition pop_oms_message : M StrategyState (option OmsToStrategyMessage) := λ s,
  match st_oms_to_strategy_queue s with
  | [] => (None, s)
  | x :: q => (x, s ⟪ st_oms_to_strategy_queue := q ⟫)
  end.

Definition pop_input (input_index : nat) : M StrategyState (option ShardToStrategyMessage) := λ s,
  match st_shard_inputs s !! input_index with
  | Some input =>
      match in_queue input with
      | [] => (None, s)
      | x :: q => (x, s ⟪ st_shard_inputs ::= <[input_index := input ⟪ in_queue := q ⟫]> ⟫)
      end
  | None => (None, s)
  end.

(** The inputs in turn, starting after the one served last. *)
Fixpoint poll_inputs (offsets : list Z) : M StrategyState StrategyPumpResult :=
  match offsets with
  | [] => mret default_StrategyPumpResult
  | offset :: offsets' =>
      next ← gets st_next_input_index;
      size ← gets (λ s, Z.of_nat (length (st_shard_inputs s)));
      let input_index := (next + offset) mod size in
      popped ← pop_input (Z.to_nat input_index);
      match popped with
      | None => poll_inputs offsets'
      | Some message =>
          modify (λ s, s ⟪ st_next_input_index := (input_index + 1) mod size ⟫);;
          now ← strategy_now_ns;
          dispatch_strategy_message (Z.to_nat input_index) message now
      end
  end.

Definition strategy_pump_once : M StrategyState StrategyPumpResult :=
  popped ← pop_oms_message;
  match popped with
  | Some message => handle_oms_message message
  | None =>
      size ← gets (λ s, Z.of_nat (length (st_shard_inputs s)));
      poll_inputs (seqZ 0 size)
  end.
End Strategy.
End Strategy.
