(* ===== verification/App.v ===== *)
(** * App: how the process is put together

    Models the assembly in [cpp/apps/predex/main.cpp]: the queues between the threads, the
    settings the components get from the configuration, and the start of the components, in
    order, with the commands the control plane sends to each.  Starting a thread has no effect
    on the state of the control plane and is left out, and so is the shutdown. *)

From S2P Require Import Prelude Spsc IdleBackoff MarketTypes StrategyTypes MonotonicArb FramePool Router ControlTypes Universe ShardTypes WireTypes OmsTypes RestTypes ControlPlaneTypes OrderSession Config ControlPlane Strategy.
Open Scope Z_scope.

Module App.
Import Universe Config Strategy ControlPlane.

(** ** Settings *)

Definition kDefaultConfigPath : string := "docs/app_config.example.json".
(** [arguments] are those after the name of the program. *)
Definition config_path_from_args (arguments : list string) : string := default kDefaultConfigPath (head arguments).

Definition checked_shard_count (shard_count : Z) : Result Z :=
  if (shard_count =? 0) || (U32_MAX <? shard_count) then throw "Configured shard_count is outside uint32_t range" else mret (u32 shard_count).

Record Credentials := mkCredentials { cr_key_id : string; cr_private_key_pem : string }.
(** The environment of the process. *)
Definition required_env_value (getenv : string → option string) (env_name : string) : Result string :=
  let missing := throw ("Missing required environment variable: " +:+ env_name)%string in
  match getenv env_name with
  | None => missing
  | Some value => if bool_decide (value = ""%string) then missing else mret value
  end.
Definition make_kalshi_credentials (getenv : string → option string) (auth : KalshiAuthConfig) : Result Credentials :=
  key_id ← required_env_value getenv (au_key_id_env auth);
  private_key_pem ← required_env_value getenv (au_private_key_pem_env auth);
  mret (mkCredentials key_id private_key_pem).

Definition kKALSHI_REST_ENDPOINT : string := "https://api.elections.kalshi.com".
(** Timeouts in milliseconds. *)
Record Http2SessionConfig := mkHttp2SessionConfig {
  hc_endpoint : string;
  hc_connect_timeout : Z;
  hc_request_timeout : Z;
  hc_max_retries : Z;
  hc_max_concurrent_streams : Z;
}.
(** The configuration holds a [size_t], the session a [uint16_t]. *)
Definition make_http_config (order_rest : KalshiOrderRestConfig) : Http2SessionConfig :=
  mkHttp2SessionConfig (if bool_decide (or_endpoint order_rest = ""%string) then kKALSHI_REST_ENDPOINT else or_endpoint order_rest)
    3000 5000 0 (or_max_concurrent_streams order_rest mod 65536).
Definition make_http_session (getenv : string → option string) (auth : KalshiAuthConfig) (order_rest : KalshiOrderRestConfig)
    : Result (Credentials * Http2SessionConfig) :=
  credentials ← make_kalshi_credentials getenv auth;
  mret (credentials, make_http_config order_rest).

Definition order_graph_enabled (config : AppConfig) : bool :=
  or_enable_order_rest (ka_order_rest (ap_kalshi config)) || pf_enable_private_order_feed (ka_private_order_feed (ap_kalshi config)).

Definition make_required_components (config : AppConfig) : RequiredComponents :=
  mkRequiredComponents (md_enable_market_data (ka_market_data (ap_kalshi config))) true true (order_graph_enabled config)
    (pf_enable_private_order_feed (ka_private_order_feed (ap_kalshi config))) (or_enable_order_rest (ka_order_rest (ap_kalshi config))).

Definition kNsPerSecond : Z := 1000000000.
Definition make_synthetic_session_config (runtime : RuntimeConfig) : SyntheticTradingSessionConfig :=
  mkSyntheticTradingSessionConfig (rt_synthetic_trading_session_enabled runtime) (u64 (rt_reduce_only_after_seconds runtime * kNsPerSecond))
    (u64 (rt_flatten_to_zero_after_seconds runtime * kNsPerSecond)) (u64 (rt_stopped_after_seconds runtime * kNsPerSecond)).

Definition make_oms_risk_config (config : AppConfig) : OmsRiskConfig :=
  let oms := ap_oms config in
  mkOmsRiskConfig (om_strategy_allocation_limit_ticks oms) (om_venue_safety_reserve_ticks oms) (om_maximum_group_reservation_ticks oms)
    (om_maximum_group_legs oms) (om_maximum_group_repair_attempts oms) (om_maximum_group_intent_age_ns oms)
    (om_portfolio_reconciliation_interval_ns oms) (or_enable_order_rest (ka_order_rest (ap_kalshi config))).

Definition make_strategy_config (config : AppConfig) : MonotonicArbStrategyConfig :=
  mkMonotonicArbStrategyConfig (sc_strategy_id (ap_strategy config)) (sc_monotonic_arb (ap_strategy config)) (sc_maximum_observation_age_ns (ap_strategy config)).

(** ** Queues *)

Abbreviation queue X := (@Spsc.SPSCQueue X).

Record AppQueues := mkAppQueues {
  aq_server_to_control : queue OperatorCommand;
  aq_control_to_server : queue OperatorResponse;
  aq_control_to_io : queue ControlToIoCommand;
  aq_io_to_control_status : queue IoToControlStatus;
  aq_logger_to_control_status : queue LoggerToControlStatus;
  aq_control_to_oms : queue ControlToOmsCommand;
  aq_oms_to_control_status : queue OmsToControlStatus;
  aq_oms_to_order_rest : queue OmsToKalshiCommand;
  aq_order_rest_to_oms : queue KalshiToOmsEvent;
  aq_private_order_feed_to_oms : queue KalshiToOmsEvent;
  aq_control_to_order_rest : queue ControlToOrderRestCommand;
  aq_order_rest_to_control_status : queue OrderRestToControlStatus;
  aq_control_to_private_order_feed : queue ControlToPrivateOrderFeedCommand;
  aq_private_order_feed_to_control_status : queue PrivateOrderFeedToControlStatus;
  aq_router_to_control : queue RouterStatus;
  aq_wire_to_router : queue MarketDataPathMessage;
  aq_router_to_logger : queue FrameHandle;
  aq_router_recycle : queue FrameHandle;
  aq_logger_recycle : queue FrameHandle;
  aq_wire_to_logger : queue FrameHandle;
  aq_control_to_shard : list (queue ControlToShardCommand);
  aq_shard_to_control : list (queue ShardToControlMessage);
  aq_strategy_to_oms : list (queue StrategyIntent);
  aq_oms_to_strategy : list (queue OmsToStrategyMessage);
  aq_router_to_shard : list (queue MarketDataPathMessage);
  aq_shard_to_logger : list (queue FrameHandle);
  aq_shard_recycle : list (queue FrameHandle);
  aq_shard_to_strategy : list (queue ShardToStrategyMessage);
}.

(** The constructor; that of a queue may throw. *)
Definition make_app_queues (runtime : RuntimeConfig) : option AppQueues :=
  let shards := Z.to_nat (rt_shard_count runtime) in
  let control {T} := Spsc.make_queue (T := T) (rt_operator_queue_capacity runtime) in
  let data {T} := Spsc.make_queue (T := T) (rt_shard_queue_capacity runtime) in
  let frames {T} := Spsc.make_queue (T := T) (rt_router_queue_capacity runtime) in
  server_to_control ← control; control_to_server ← control; control_to_io ← control; io_to_control_status ← control;
  logger_to_control_status ← control; control_to_oms ← control; oms_to_control_status ← control;
  oms_to_order_rest ← data; order_rest_to_oms ← data; private_order_feed_to_oms ← data;
  control_to_order_rest ← control; order_rest_to_control_status ← control; control_to_private_order_feed ← control;
  private_order_feed_to_control_status ← control; router_to_control ← control;
  wire_to_router ← frames; router_to_logger ← frames; router_recycle ← frames; logger_recycle ← frames; wire_to_logger ← frames;
  strategy_to_oms ← data; oms_to_strategy ← data;
  control_to_shard ← data; shard_to_control ← data; router_to_shard ← data; shard_to_logger ← frames; shard_recycle ← frames; shard_to_strategy ← data;
  Some (mkAppQueues server_to_control control_to_server control_to_io io_to_control_status logger_to_control_status control_to_oms
    oms_to_control_status oms_to_order_rest order_rest_to_oms private_order_feed_to_oms control_to_order_rest order_rest_to_control_status
    control_to_private_order_feed private_order_feed_to_control_status router_to_control wire_to_router router_to_logger router_recycle
    logger_recycle wire_to_logger (replicate shards control_to_shard) (replicate shards shard_to_control) [strategy_to_oms] [oms_to_strategy]
    (replicate shards router_to_shard) (replicate shards shard_to_logger) (replicate shards shard_recycle) (replicate shards shard_to_strategy)).

(** The inputs of the strategy, one for each shard; nothing was published yet. *)
Definition make_strategy_inputs (shard_count : nat) : list StrategyShardInput := (λ index, mkStrategyShardInput (u32 (Z.of_nat index)) []) <$> seq 0 shard_count.

(** ** Start *)

Section Start.
Context {Q : Type → Type} `{!PushQueue Q}.
Variable clk : nat → Z.
Variable hash_order : list Z → list Z.
Variable sort_by_strike : list MarketConfig → list MarketConfig.
Variable getenv : string → option string.
Abbreviation ControlState := (ControlState (Q := Q)).

(** The components are started one after another, until one fails. *)
Definition Stage : Type := M ControlState (option string).
Definition skip : Stage := mret None.
Definition fails (error : string) : Stage := mret (Some error).
Definition followed_by (first next : Stage) : Stage :=
  error ← first;
  match error with Some _ => mret error | None => next end.
(** A push that has to succeed. *)
Definition must (push : M ControlState bool) (error : string) : Stage :=
  pushed ← push;
  if pushed : bool then skip else fails error.

Definition start_universe (config : AppConfig) (shard_count : Z) : Stage :=
  match build_universe_snapshot sort_by_strike (ap_universe_events config) shard_count with
  | inl error => fails ("predex universe init error: " +:+ error)%string
  | inr universe =>
      _ ← install_universe clk hash_order universe;
      result ← send_active_universe_to_shards;
      if hu_commands_pushed_failure result =? 0 then skip
      else fails "predex universe init error: Failed to enqueue universe install command to one or more shards"
  end.

Definition start_oms (config : AppConfig) : Stage :=
  if order_graph_enabled config
  then must send_active_order_universe_to_oms "predex OMS init error: failed to enqueue active order universe to OMS"
  else skip.

Definition start_strategy (config : AppConfig) (to_oms : Q StrategyIntent) : Stage :=
  if sc_enable_monotonic_arb (ap_strategy config) then
    version ← gets (λ s, pst_target_universe_version (cp_process_state s));
    match make_strategy 0 version (make_strategy_config config) (make_strategy_inputs (Z.to_nat (rt_shard_count (ap_runtime config)))) to_oms [] with
    | None => fails "predex strategy init error"
    | Some _ => skip
    end
  else skip.

(** What a session is made of, or the error that is reported. *)
Definition with_session {A} (name : string) (session : Result A) (stage : Stage) : Stage :=
  match session with inl error => fails (name +:+ error)%string | inr _ => stage end.

Definition start_order_rest (config : AppConfig) : Stage :=
  let kalshi := ap_kalshi config in
  let name := "predex order REST init error: "%string in
  if or_enable_order_rest (ka_order_rest kalshi) then
    with_session name (make_http_session getenv (ka_auth kalshi) (ka_order_rest kalshi)) (
      followed_by (must send_active_order_universe_to_order_rest (name +:+ "Failed to enqueue active order universe to order REST")%string)
                  (must (push_order_rest_command CrEnable) (name +:+ "Failed to enqueue order REST enable command")%string))
  else skip.

Definition start_private_order_feed (config : AppConfig) : Stage :=
  let kalshi := ap_kalshi config in
  let name := "predex private order feed init error: "%string in
  if pf_enable_private_order_feed (ka_private_order_feed kalshi) then
    with_session name (make_kalshi_credentials getenv (ka_auth kalshi)) (
      followed_by (must send_active_order_universe_to_private_order_feed (name +:+ "Failed to enqueue active order universe to private order feed")%string)
                  (must (push_private_order_feed_command CpConnect) (name +:+ "Failed to enqueue private order feed connect command")%string))
  else skip.

Definition start_market_data (config : AppConfig) : Stage :=
  let kalshi := ap_kalshi config in
  let name := "predex market data init error: "%string in
  if md_enable_market_data (ka_market_data kalshi) then
    with_session name (make_kalshi_credentials getenv (ka_auth kalshi)) (
      followed_by (must send_active_universe_to_io (name +:+ "Failed to enqueue active universe to IO")%string)
                  (must (push_io_command CiConnect) (name +:+ "Failed to enqueue IO connect command")%string))
  else skip.

(** [server_error]: the command server did not become ready. *)
Definition start_components (config : AppConfig) (shard_count : Z) (server_error : option string) (strategy_to_oms : Q StrategyIntent) : Stage :=
  followed_by (start_universe config shard_count) (
  followed_by (match server_error with Some error => fails ("predex server failed to start: " +:+ error)%string | None => skip end) (
  followed_by (start_oms config) (
  followed_by (start_strategy config strategy_to_oms) (
  followed_by (start_order_rest config) (
  followed_by (start_private_order_feed config) (
  start_market_data config)))))).
End Start.

(** Before that: the configuration, libcurl, the number of shards, the queues and the frames.
    [inl] is an error that is reported, [None] an exception that ends the process. *)
Section Prepare.
Context {NJ : NlohmannJson} {NG : NlohmannGetters}.
(** [simdjson::SIMDJSON_PADDING]. *)
Variable kFrameParserPadding : nat.

Definition reported {A} (name : string) (r : Result A) : Result A := match r with inl error => throw (name +:+ error)%string | inr a => mret a end.

Definition construct (runtime : RuntimeConfig) : option (AppQueues * Pool.FramePool) :=
  match make_app_queues runtime, Pool.make_pool kFrameParserPadding (Z.to_nat (rt_frame_pool_capacity runtime)) with
  | Some queues, Some pool => Some (queues, pool)
  | _, _ => None
  end.

Definition prepare (arguments : list string) (read_file : string → option string) (curl_ready : bool)
    : Result (AppConfig * Z * option (AppQueues * Pool.FramePool)) :=
  config ← reported "predex config error: " (load_app_config (config_path_from_args arguments) (read_file (config_path_from_args arguments)));
  refuse_if (or_enable_order_rest (ka_order_rest (ap_kalshi config)) && negb curl_ready) "predex curl init error: curl_global_init failed";;
  shard_count ← reported "predex config error: " (checked_shard_count (rt_shard_count (ap_runtime config)));
  mret (config, shard_count, construct (ap_runtime config)).
End Prepare.
End App.
