(* ===== verification/AppStart.v ===== *)
(** * AppStart: what the components are told when the process starts

    A start without an error has sent every component that is enabled the universe, and then
    the command that connects it, and nothing else to anyone; in particular trading is not
    allowed. *)

From S2P Require Import Prelude Spsc MarketTypes ControlTypes Universe ShardTypes WireTypes Recovery OmsTypes ControlPlaneTypes OrderSession Config ControlPlane Strategy App.
Open Scope Z_scope.

Module AppStart.
Import Universe Config ControlPlane App.

Section AppStart.
Context {Q : Type → Type} `{HQ : PushQueue Q} {HL : PushQueueLaws Q}.
Variable clk : nat → Z.
Variable hash_order : list Z → list Z.
Variable sort_by_strike : list MarketConfig → list MarketConfig.
Variable getenv : string → option string.
Abbreviation ControlState := (ControlState (Q := Q)).
Implicit Types s : ControlState.

(** ** What was sent *)

Definition to_io s : list ControlToIoCommand := q_sent (cp_control_to_io_queue s).
Definition to_oms s : list ControlToOmsCommand := from_option q_sent [] (cp_control_to_oms_queue s).
Definition to_feed s : list ControlToPrivateOrderFeedCommand := from_option q_sent [] (cp_control_to_private_order_feed_queue s).
Definition to_rest s : list ControlToOrderRestCommand := from_option q_sent [] (cp_control_to_order_rest_queue s).
Definition to_shard s (index : nat) : list ControlToShardCommand := match cp_control_to_shard_queues s !! index with Some (Some q) => q_sent q | _ => [] end.

(** The universes, and the queues to the shards. *)
Definition universes s := (cp_active_universe s, cp_active_order_universe s, cp_control_to_shard_queues s).

(** A stage sends these commands. *)
Record sends io oms feed rest s s' : Prop := {
  se_same : universes s' = universes s;
  se_io : to_io s' = to_io s ++ io;
  se_oms : to_oms s' = to_oms s ++ oms;
  se_feed : to_feed s' = to_feed s ++ feed;
  se_rest : to_rest s' = to_rest s ++ rest;
}.
Lemma sends_nothing s : sends [] [] [] [] s s.
Proof. by split; rewrite ?app_nil_r. Qed.
Lemma sends_then io oms feed rest io' oms' feed' rest' s s1 s' :
  sends io oms feed rest s s1 → sends io' oms' feed' rest' s1 s' → sends (io ++ io') (oms ++ oms') (feed ++ feed') (rest ++ rest') s s'.
Proof. intros [A1 A2 A3 A4 A5] [B1 B2 B3 B4 B5]. split; [congruence|..]; rewrite app_assoc; congruence. Qed.

(** ** Stages *)

(** What holds after a stage that does not fail. *)
Definition stage_wp (stage : Stage (Q := Q)) (Φ : ControlState → Prop) s : Prop := wp stage (λ error s', error = None → Φ s') s.

Lemma followed_wp first next Φ s : stage_wp first (λ s1, stage_wp next Φ s1) s → stage_wp (followed_by first next) Φ s.
Proof.
  unfold stage_wp, wp, followed_by, mbind, M_bind. destruct (first s) as [[error|] s1]; cbn; [done|]. auto.
Qed.
Lemma must_wp push error Φ s : wp push (λ pushed s', pushed = true → Φ s') s → stage_wp (must push error) Φ s.
Proof. unfold stage_wp, wp, must, mbind, M_bind. destruct (push s) as [[] s1]; cbn; naive_solver. Qed.
Lemma stage_mono stage (Φ Ψ : ControlState → Prop) s : stage_wp stage Φ s → (∀ s', Φ s' → Ψ s') → stage_wp stage Ψ s.
Proof. unfold stage_wp, wp. auto. Qed.
Lemma skip_wp (Φ : ControlState → Prop) s : Φ s → stage_wp skip Φ s.
Proof. by intros ? _. Qed.
Lemma fails_wp error (Φ : ControlState → Prop) s : stage_wp (fails error) Φ s.
Proof. done. Qed.

Lemma io_sends c s : wp (push_io_command c) (λ pushed s', pushed = true → sends [c] [] [] [] s s') s.
Proof.
  unfold wp, push_io_command. pose proof (push_sent c (cp_control_to_io_queue s)) as Hs. destruct (q_push c _) as [b q]. cbn in *. intros ->.
  split; rewrite ?app_nil_r; try done.
Qed.
Lemma oms_sends c s : wp (push_oms_command c) (λ pushed s', pushed = true → sends [] [c] [] [] s s') s.
Proof.
  unfold wp, push_oms_command. destruct (cp_control_to_oms_queue s) as [q0|] eqn:E0; [|done]. pose proof (push_sent c q0) as Hs. destruct (q_push c _) as [b q]. cbn in *. intros ->.
  split; rewrite ?app_nil_r; try done. unfold to_oms. by rewrite E0.
Qed.
Lemma feed_sends c s : wp (push_private_order_feed_command c) (λ pushed s', pushed = true → sends [] [] [c] [] s s') s.
Proof.
  unfold wp, push_private_order_feed_command. destruct (cp_control_to_private_order_feed_queue s) as [q0|] eqn:E0; [|done]. pose proof (push_sent c q0) as Hs. destruct (q_push c _) as [b q].
  cbn in *. intros ->. split; rewrite ?app_nil_r; try done. unfold to_feed. by rewrite E0.
Qed.
Lemma rest_sends c s : wp (push_order_rest_command c) (λ pushed s', pushed = true → sends [] [] [] [c] s s') s.
Proof.
  unfold wp, push_order_rest_command. destruct (cp_control_to_order_rest_queue s) as [q0|] eqn:E0; [|done]. pose proof (push_sent c q0) as Hs. destruct (q_push c _) as [b q].
  cbn in *. intros ->. split; rewrite ?app_nil_r; try done. unfold to_rest. by rewrite E0.
Qed.

(** The state has these universes. *)
Definition has (u : UniverseSnapshot) (o : OrderRouteUniverse) s : Prop := cp_active_universe s = Some u ∧ cp_active_order_universe s = Some o.
Lemma has_sends u o io oms feed rest s s' : has u o s → sends io oms feed rest s s' → has u o s'.
Proof. intros [H1 H2] [E _ _ _ _]. unfold has, universes in *. by simplify_eq; split; congruence. Qed.

(** Two commands, one after the other. *)
Lemma two_sends (first next : M ControlState bool) e1 e2 io oms feed rest io' oms' feed' rest' s :
  wp first (λ pushed s', pushed = true → sends io oms feed rest s s') s →
  (∀ s1, wp next (λ pushed s', pushed = true → sends io' oms' feed' rest' s1 s') s1) →
  stage_wp (followed_by (must first e1) (must next e2)) (sends (io ++ io') (oms ++ oms') (feed ++ feed') (rest ++ rest') s) s.
Proof.
  intros H1 H2. apply followed_wp, must_wp. eapply wp_mono; [exact H1|]. cbv beta. intros pushed s1 Hp Hp1%Hp. apply must_wp. eapply wp_mono; [apply H2|]. cbv beta.
  intros pushed2 s2 Hp2 Hp3%Hp2. by eapply sends_then.
Qed.

Section Stages.
Context (config : AppConfig) (u : UniverseSnapshot) (o : OrderRouteUniverse).

Definition oms_commands : list ControlToOmsCommand := if order_graph_enabled config then [CtApplyOrderRouteUniverse (Some o)] else [].
Definition rest_commands : list ControlToOrderRestCommand :=
  if or_enable_order_rest (ka_order_rest (ap_kalshi config)) then [CrApplyOrderRouteUniverse (Some o); CrEnable] else [].
Definition feed_commands : list ControlToPrivateOrderFeedCommand :=
  if pf_enable_private_order_feed (ka_private_order_feed (ap_kalshi config)) then [CpApplyOrderRouteUniverse (Some o); CpConnect] else [].
Definition io_commands : list ControlToIoCommand :=
  if md_enable_market_data (ka_market_data (ap_kalshi config)) then [CiApplyUniverseSnapshot (Some u); CiConnect] else [].

Lemma oms_stage s : has u o s → stage_wp (start_oms config) (sends [] oms_commands [] [] s) s.
Proof.
  intros [_ Ho]. unfold start_oms, oms_commands. destruct (order_graph_enabled config); [|apply skip_wp, sends_nothing].
  apply must_wp. unfold send_active_order_universe_to_oms. wp_steps. rewrite Ho. apply oms_sends.
Qed.
Lemma strategy_stage queue s : stage_wp (start_strategy config queue) (sends [] [] [] [] s) s.
Proof.
  unfold start_strategy. destruct (sc_enable_monotonic_arb _); [|apply skip_wp, sends_nothing]. unfold stage_wp, wp, mbind, M_bind, gets. cbn.
  destruct (Strategy.make_strategy _ _ _ _ _ _); [|done]. intros _. apply sends_nothing.
Qed.
Lemma rest_stage s : has u o s → stage_wp (start_order_rest getenv config) (sends [] [] [] rest_commands s) s.
Proof.
  intros [_ Ho]. unfold start_order_rest, rest_commands. destruct (or_enable_order_rest _); [|apply skip_wp, sends_nothing]. unfold with_session.
  destruct (make_http_session _ _ _); [apply fails_wp|]. apply (two_sends _ _ _ _ [] [] [] [_] [] [] [] [_]); [|intros s1; apply rest_sends].
  unfold send_active_order_universe_to_order_rest. wp_steps. rewrite Ho. apply rest_sends.
Qed.
Lemma feed_stage s : has u o s → stage_wp (start_private_order_feed getenv config) (sends [] [] feed_commands [] s) s.
Proof.
  intros [_ Ho]. unfold start_private_order_feed, feed_commands. destruct (pf_enable_private_order_feed _); [|apply skip_wp, sends_nothing]. unfold with_session.
  destruct (make_kalshi_credentials _ _); [apply fails_wp|]. apply (two_sends _ _ _ _ [] [] [_] [] [] [] [_] []); [|intros s1; apply feed_sends].
  unfold send_active_order_universe_to_private_order_feed. wp_steps. rewrite Ho. apply feed_sends.
Qed.
Lemma io_stage s : has u o s → stage_wp (start_market_data getenv config) (sends io_commands [] [] [] s) s.
Proof.
  intros [Hu _]. unfold start_market_data, io_commands. destruct (md_enable_market_data _); [|apply skip_wp, sends_nothing]. unfold with_session.
  destruct (make_kalshi_credentials _ _); [apply fails_wp|]. apply (two_sends _ _ _ _ [_] [] [] [] [_] [] [] []); [|intros s1; apply io_sends].
  unfold send_active_universe_to_io. wp_steps. rewrite Hu. apply io_sends.
Qed.
End Stages.

(** ** The universe *)

(** The commands of the shards do not touch the other queues. *)
Definition others s := (cp_active_universe s, cp_active_order_universe s, to_io s, to_oms s, to_feed s, to_rest s).
Lemma others_push index c : rel (same others) (push_shard_command index c).
Proof. intros s. unfold push_shard_command. destruct (_ !! index) as [[q|]|]; [|done..]. by destruct (q_push c q). Qed.
#[local] Hint Resolve others_push : frame.
Lemma others_command indices command note result : rel (same others) (command_shards indices command note result).
Proof. revert result. induction indices as [|index indices IH]; intros result; cbn [command_shards]; rel_auto. Qed.

(** Unless a push fails, every shard of the list gets its command. *)
Lemma push_shard_sends index c s : wp (push_shard_command index c) (λ pushed s', length (cp_control_to_shard_queues s') = length (cp_control_to_shard_queues s) ∧
  (pushed = true → to_shard s' index = to_shard s index ++ [c]) ∧ ∀ other, other ≠ index → to_shard s' other = to_shard s other) s.
Proof.
  unfold wp, push_shard_command. destruct (cp_control_to_shard_queues s !! index) as [[q0|]|] eqn:E0; [|done..]. pose proof (push_sent c q0) as Hs. destruct (q_push c q0) as [b q].
  cbn in *. rewrite length_insert. split; [done|]. unfold to_shard. cbn. split.
  - intros ->. rewrite list_lookup_insert_eq by (by eapply lookup_lt_Some). by rewrite E0.
  - intros other Hne. by rewrite list_lookup_insert_ne.
Qed.
Definition failures (result : ControlShardPumpResult) : Z := hu_commands_pushed_failure result.
Lemma command_shards_sends command note indices result s : NoDup indices → 0 ≤ failures result → failures result + Z.of_nat (length indices) ≤ U64_MAX →
  wp (command_shards indices command note result) (λ r s', failures result ≤ failures r ∧
    (failures r = failures result → (∀ i, i ∈ indices → to_shard s' i = to_shard s i ++ [command i]) ∧ ∀ i, i ∉ indices → to_shard s' i = to_shard s i)) s.
Proof.
  revert result s. induction indices as [|index indices IH]; intros result s Hnd Hf Hb; cbn [command_shards].
  { wp_step. split; [lia|]. intros _. split; [by intros i Hi%elem_of_nil|done]. }
  apply NoDup_cons in Hnd as [Hni Hnd]. cbn [length] in Hb. wp_step. eapply wp_mono; [apply push_shard_sends|]. cbv beta. intros pushed s1 (_ & P1 & P2). destruct pushed.
  - unfold on_process. wp_steps. eapply wp_mono; [apply IH; [done|exact Hf|change (failures _) with (failures result); lia]|]. cbv beta. intros r s' [L H]. split; [exact L|]. intros [H1 H2]%H. split.
    + intros i Hi. apply elem_of_cons in Hi as [->|Hi]; [rewrite H2 by done; by apply P1|]. rewrite H1 by done. f_equal. apply P2. by intros ->.
    + intros i Hi. apply not_elem_of_cons in Hi as [Hne Hi]. rewrite H2 by done. by apply P2.
  - assert (failures (result ⟪ hu_commands_pushed_failure ::= bump ⟫) = failures result + 1) as Ef.
    { unfold failures in *. cbn. unfold bump. apply u64_id. unfold is_u64. lia. }
    eapply wp_mono; [apply IH; [done|rewrite Ef; lia|rewrite Ef; lia]|]. cbv beta. intros r s' [L _]. rewrite Ef in L. split; [lia|]. intros Hr. lia.
Qed.

Section Universe.
Context (config : AppConfig) (shard_count : Z).

(** What shard [index] is sent. *)
Definition shard_command (shards : nat) (u : UniverseSnapshot) (index : nat) : ControlToShardCommand :=
  CsInstall (mkInstallShardUniverse (us_version u) (Z.of_nat index) (default [] (build_shard_events u shards !! index))).

(** The universe is built, gets the next version, and is sent to every shard. *)
Record installed u s s' : Prop := {
  in_built : ∃ built, build_universe_snapshot sort_by_strike (ap_universe_events config) shard_count = inr built ∧ u = built ⟪ us_version := cp_next_universe_version s ⟫;
  in_others : others s' = (Some u, Some (build_order_route_universe u), to_io s, to_oms s, to_feed s, to_rest s);
  in_shards : ∀ index, (index < length (cp_control_to_shard_queues s))%nat → to_shard s' index = to_shard s index ++ [shard_command (length (cp_control_to_shard_queues s)) u index];
}.
Lemma install_spec built s : wp (install_universe clk hash_order built) (λ _ s',
  others s' = (Some (built ⟪ us_version := cp_next_universe_version s ⟫), Some (build_order_route_universe (built ⟪ us_version := cp_next_universe_version s ⟫)), to_io s, to_oms s, to_feed s, to_rest s) ∧
  cp_control_to_shard_queues s' = cp_control_to_shard_queues s) s.
Proof.
  unfold install_universe, recompute_process_state, on_recovery_telemetry, on_process. wp_steps. unfold wp at 1, control_now. cbn [fst snd]. wp_step. unfold wp at 1, on_coordinator.
  destruct (Recovery.supersede_before_universe _ _ _ _) as [summary coordinator]. cbn [fst snd]. wp_steps. done.
Qed.
Lemma send_shards_spec u s : cp_active_universe s = Some u → Z.of_nat (length (cp_control_to_shard_queues s)) ≤ U64_MAX →
  wp send_active_universe_to_shards (λ r s', others s' = others s ∧ (hu_commands_pushed_failure r = 0 →
    ∀ index, (index < length (cp_control_to_shard_queues s))%nat → to_shard s' index = to_shard s index ++ [shard_command (length (cp_control_to_shard_queues s)) u index])) s.
Proof.
  intros Hu Hlen. unfold send_active_universe_to_shards, recompute_process_state, on_process. wp_steps. rewrite Hu. wp_steps. set (s1 := s ⟪ _ ::= _ ⟫).
  set (n := length (cp_control_to_shard_queues s)) in *.
  match goal with |- wp (command_shards _ ?command ?note ?result) _ _ =>
    pose proof (others_command (seq 0 n) command note result s1) as Ho;
    pose proof (command_shards_sends command note (seq 0 n) result s1 (NoDup_seq 0 n) ltac:(done) ltac:(rewrite length_seq; exact Hlen)) as Hc end.
  unfold wp in Hc. unfold wp at 1. destruct (command_shards _ _ _ _ s1) as [r s2]. cbn [fst snd] in *. wp_steps. split; [exact Ho|].
  intros Hr index Hi. destruct Hc as [_ Hc]. destruct (Hc Hr) as [H1 _]. apply H1. apply elem_of_seq. lia.
Qed.
Lemma universe_stage s : Z.of_nat (length (cp_control_to_shard_queues s)) ≤ U64_MAX → stage_wp (start_universe clk hash_order sort_by_strike config shard_count) (λ s', ∃ u, installed u s s') s.
Proof.
  intros Hlen. unfold start_universe. destruct (build_universe_snapshot _ _ _) as [error|built] eqn:Eb; [apply fails_wp|]. unfold stage_wp. wp_step.
  eapply wp_mono; [apply install_spec|]. cbv beta. intros _ s1 [E1 Eq]. set (u := built ⟪ us_version := cp_next_universe_version s ⟫) in *.
  wp_step. eapply wp_mono; [apply (send_shards_spec u); [unfold others in E1; congruence|by rewrite Eq]|]. cbv beta. intros r s2 [E2 H2]. destruct (Z.eqb_spec (hu_commands_pushed_failure r) 0) as [Hr|Hr]; [|done].
  intros _. exists u. split; [by exists built|cbn; congruence|]. intros index Hi. cbn. rewrite <- Eq in *. rewrite H2 by done. f_equal.
  unfold to_shard. by rewrite Eq.
Qed.
End Universe.

(** C33: the components are started in order and with nothing but this.  If the start reports no
    error, then a universe was built from the configuration and got the next version, every
    shard was sent the command to install its part of it, and the OMS, REST, the private feed
    and the market-data connection, each only if the configuration enables it, were sent the
    universe and after it the command to connect, and nothing more: no component is told to
    connect before it is told the universe, and the OMS is not told to allow trading. *)
Theorem components_are_started_in_order config shard_count server_error queue s s' :
  Z.of_nat (length (cp_control_to_shard_queues s)) ≤ U32_MAX →
  start_components clk hash_order sort_by_strike getenv config shard_count server_error queue s = (None, s') →
  ∃ built u, build_universe_snapshot sort_by_strike (ap_universe_events config) shard_count = inr built ∧ u = built ⟪ us_version := cp_next_universe_version s ⟫ ∧
    (∀ index, (index < length (cp_control_to_shard_queues s))%nat → to_shard s' index = to_shard s index ++ [shard_command (length (cp_control_to_shard_queues s)) u index]) ∧
    to_oms s' = to_oms s ++ oms_commands config (build_order_route_universe u) ∧
    to_rest s' = to_rest s ++ rest_commands config (build_order_route_universe u) ∧
    to_feed s' = to_feed s ++ feed_commands config (build_order_route_universe u) ∧
    to_io s' = to_io s ++ io_commands config u.
Proof.
  intros Hlen Hrun. cut (stage_wp (start_components clk hash_order sort_by_strike getenv config shard_count server_error queue) (λ s', ∃ u s1, installed config shard_count u s s1 ∧
    sends (io_commands config u) (oms_commands config (build_order_route_universe u)) (feed_commands config (build_order_route_universe u))
      (rest_commands config (build_order_route_universe u)) s1 s') s).
  { unfold stage_wp, wp. rewrite Hrun. cbn. intros H. destruct (H eq_refl) as (u & s1 & [(built & Eb & Eu) Eo Es] & [Se S1 S2 S3 S4]). exists built, u.
    assert (cp_control_to_shard_queues s' = cp_control_to_shard_queues s1) as Eq by exact (f_equal snd Se). unfold others in Eo. simplify_eq.
    split_and!; try done; try congruence. intros index Hi. rewrite <- Es by done. unfold to_shard. by rewrite Eq. }
  unfold start_components. apply followed_wp. eapply stage_mono; [apply universe_stage; lia|]. cbv beta. intros s1 (u & Hu). set (o := build_order_route_universe u).
  assert (has u o s1) as H1 by (pose proof (in_others _ _ _ _ _ Hu) as E; unfold others in E; by simplify_eq). apply followed_wp. destruct server_error; [apply fails_wp|]. apply skip_wp, followed_wp.
  eapply stage_mono; [by apply (oms_stage config u o)|]. intros s2 S2. pose proof (has_sends _ _ _ _ _ _ _ _ H1 S2) as H2. apply followed_wp. eapply stage_mono; [apply strategy_stage|]. intros s3 S3.
  pose proof (has_sends _ _ _ _ _ _ _ _ H2 S3) as H3. apply followed_wp. eapply stage_mono; [by apply (rest_stage config u o)|]. intros s4 S4. pose proof (has_sends _ _ _ _ _ _ _ _ H3 S4) as H4.
  apply followed_wp. eapply stage_mono; [by apply (feed_stage config u o)|]. intros s5 S5. pose proof (has_sends _ _ _ _ _ _ _ _ H4 S5) as H5. eapply stage_mono; [by apply (io_stage config u o)|]. intros s6 S6.
  exists u, s1. split; [done|]. pose proof (sends_then _ _ _ _ _ _ _ _ _ _ _ S2 S3) as S. apply (sends_then _ _ _ _ _ _ _ _ _ _ _ S) in S4. apply (sends_then _ _ _ _ _ _ _ _ _ _ _ S4) in S5.
  apply (sends_then _ _ _ _ _ _ _ _ _ _ _ S5) in S6. by rewrite !app_nil_r in S6.
Qed.
End AppStart.
End AppStart.
