(* ===== verification/Signing.v ===== *)
(** * Signing: authentication, and the messages sent over websockets

    Models [cpp/src/exchange/kalshi/adapters/auth_signer.cpp] and its header, and
    [market_data_handler.cpp] and [order_data_handler.cpp] of the same directory.  The signature
    itself, [sign_rsa_pss_sha256_base64], is the class [Rsa]: the private key and the text give
    the signature or the message of an exception.  Messages are JSON trees; [json_write] gives
    their text. *)

From S2P Require Import Prelude WireTypes RestTypes OrderSession Config OperatorJson Operator App.
From Stdlib Require Import Ascii.
From Stdlib Require String.
From stdpp Require Import pretty.
Open Scope Z_scope.

(** [AuthSigner::sign_rsa_pss_sha256_base64] of OpenSSL. *)
Class Rsa := { rsa_sign : string → string → string + string }.

Module Signing.
Import Config App OrderSession.

(** ** The signer *)

Record AuthHeaders := mkAuthHeaders { ah_key_id : string; ah_timestamp_ms : string; ah_signature_base64 : string }.
Record RestAuthArguments := mkRestAuthArguments { ra_method : string; ra_path : string }.

Fixpoint starts_with (prefix text : list ascii) : bool :=
  match prefix, text with
  | [], _ => true
  | p :: prefix, c :: text => bool_decide (p = c) && starts_with prefix text
  | _ :: _, [] => false
  end.
(** [std::string::find] of a text, as whether it is found. *)
Fixpoint contains (needle text : list ascii) : bool :=
  starts_with needle text || match text with [] => false | _ :: text => contains needle text end.

(** [read_file] gives the contents of a file that can be opened. *)
Definition resolve_private_key_pem (read_file : string → option string) (private_key_pem_or_path : string) : Result string :=
  if bool_decide (private_key_pem_or_path = ""%string) then throw "Kalshi private key is empty"
  else if contains (String.list_ascii_of_string "-----BEGIN") (String.list_ascii_of_string private_key_pem_or_path) then mret private_key_pem_or_path
  else match read_file private_key_pem_or_path with None => throw ("Failed to open PEM file: " +:+ private_key_pem_or_path)%string | Some text => mret text end.

(** The text up to the first question mark. *)
Fixpoint without_query (target : list ascii) : list ascii :=
  match target with [] => [] | c :: rest => if bool_decide (c = "?"%char) then [] else c :: without_query rest end.
Definition make_rest_signing_payload (timestamp_ms : string) (args : RestAuthArguments) : string :=
  (timestamp_ms +:+ ra_method args +:+ String.string_of_list_ascii (without_query (String.list_ascii_of_string (ra_path args))))%string.

Section Signer.
Context {RS : Rsa}.
(** [now_ms]: the system clock. *)
Definition make_rest_auth_headers (credentials : Credentials) (now_ms : Z) (args : RestAuthArguments) : Result AuthHeaders :=
  let timestamp_ms := pretty now_ms in
  signature ← rsa_sign (cr_private_key_pem credentials) (make_rest_signing_payload timestamp_ms args);
  mret (mkAuthHeaders (cr_key_id credentials) timestamp_ms signature).
Definition make_ws_headers (credentials : Credentials) (now_ms : Z) (ws_path : string) : Result AuthHeaders :=
  make_rest_auth_headers credentials now_ms (mkRestAuthArguments "GET" ws_path).

(** ** Connecting *)

(** The headers are a map, in the order of their names. *)
Record WsConnectRequest := mkWsConnectRequest { wc_endpoint : string; wc_headers : list (string * string) }.
Definition kWEBSOCKET_ENDPOINT : string := "wss://api.elections.kalshi.com/trade-api/ws/v2".
Definition kORDER_DATA_WEBSOCKET_ENDPOINT : string := "wss://api.elections.kalshi.com/trade-api/ws/v2".
Definition connect_request (endpoint : string) (h : AuthHeaders) : WsConnectRequest :=
  mkWsConnectRequest endpoint
    [("KALSHI-ACCESS-KEY", ah_key_id h); ("KALSHI-ACCESS-SIGNATURE", ah_signature_base64 h); ("KALSHI-ACCESS-TIMESTAMP", ah_timestamp_ms h)]%string.
(** [build_connect_request] of the handler of market data and of the one of order data. *)
Definition market_connect_request (credentials : Credentials) (now_ms : Z) : Result WsConnectRequest :=
  h ← make_ws_headers credentials now_ms "/trade-api/ws/v2"; mret (connect_request kWEBSOCKET_ENDPOINT h).
Definition order_connect_request (credentials : Credentials) (now_ms : Z) : Result WsConnectRequest :=
  h ← make_ws_headers credentials now_ms "/trade-api/ws/v2"; mret (connect_request kORDER_DATA_WEBSOCKET_ENDPOINT h).
End Signer.

(** ** Messages *)

Definition market_channel_to_string (channel : KalshiMarketDataChannel) : string :=
  match channel with kCH_ORDERBOOK_DELTA => "orderbook_delta" | kCH_TRADE => "trade" | kCH_MARKET_LIFECYCLE => "market_lifecycle_v2" end.
Definition order_channel_to_string (channel : KalshiOrderDataChannel) : string :=
  match channel with kFILL_CHANNEL => "fill" | kMARKET_POSITIONS_CHANNEL => "market_positions" | kUSER_ORDERS_CHANNEL => "user_orders" end.

(** A member that is left out if it is empty. *)
Definition unless_empty (name : string) (l : list JsonTree) : list (string * JsonTree) := match l with [] => [] | _ => [(name, JArray l)] end.
Definition ws_payload (req_id : Z) (cmd : string) (params : list (string * JsonTree)) : JsonTree :=
  JObject [("id", JNumber req_id); ("cmd", JText cmd); ("params", JObject params)]%string.

Definition market_message (r : WsRequest) : JsonTree :=
  match r with
  | WsSubscribe req_id channel tickers =>
      ws_payload req_id "subscribe" (("channels"%string, JArray [JText (market_channel_to_string channel)]) :: unless_empty "market_tickers" (JText <$> tickers))
  | WsUpdate req_id session_id tickers action =>
      ws_payload req_id "update_subscription" (("sid"%string, JNumber session_id) :: ("action"%string, JText action) :: unless_empty "market_tickers" (JText <$> tickers))
  | WsUnsubscribe req_id session_ids => ws_payload req_id "unsubscribe" [("sids"%string, JArray (JNumber <$> session_ids))]
  end.
Definition order_message (r : OrderWsRequest) : JsonTree :=
  match r with
  | OrderSubscribe req_id channel tickers =>
      ws_payload req_id "subscribe" (("channels"%string, JArray [JText (order_channel_to_string channel)]) :: unless_empty "market_tickers" (JText <$> tickers))
  | OrderUnsubscribe req_id channel session_ids =>
      ws_payload req_id "unsubscribe" (("channels"%string, JArray [JText (order_channel_to_string channel)]) :: unless_empty "session_ids" (JNumber <$> session_ids))
  end.

(** What is signed does not depend on the query: pages of a listing are signed alike. *)
Lemma query_is_not_signed timestamp_ms method path query : "?"%char ∉ String.list_ascii_of_string path →
  make_rest_signing_payload timestamp_ms (mkRestAuthArguments method (path +:+ "?" +:+ query)%string) = (timestamp_ms +:+ method +:+ path)%string.
Proof.
  intros H. unfold make_rest_signing_payload. cbn [ra_method ra_path]. do 2 f_equal. rewrite <- (String.string_of_list_ascii_of_string path) at 2. f_equal.
  induction path as [|c path IH]; [done|]. cbn [String.list_ascii_of_string] in H. apply not_elem_of_cons in H as [Hc H].
  change (without_query (c :: String.list_ascii_of_string (path +:+ "?" +:+ query)%string) = c :: String.list_ascii_of_string path). cbn [without_query]. rewrite bool_decide_eq_false_2 by done. by rewrite IH.
Qed.
(** Different requests are different messages. *)
Lemma market_message_inj r r' : market_message r = market_message r' → r = r'.
Proof.
  assert (∀ l l' : list string, JText <$> l = JText <$> l' → l = l') as Ht by (intros l l'; apply list_fmap_eq_inj; congruence).
  assert (∀ l l' : list Z, JNumber <$> l = JNumber <$> l' → l = l') as Hn by (intros l l'; apply list_fmap_eq_inj; congruence).
  assert (∀ l l' : list string, unless_empty "market_tickers" (JText <$> l) = unless_empty "market_tickers" (JText <$> l') → l = l') as Hu.
  { intros [|x l] [|x' l']; try done. cbn. intros [= -> E]. f_equal. by apply Ht. }
  destruct r, r'; cbn; intros E; simplify_eq.
  - f_equal; [by destruct channel, channel0|by apply Hu].
  - f_equal. by apply Hu.
  - f_equal. by apply Hn.
Qed.
End Signing.
