(* ===== verification/Http2.v ===== *)
(** * Http2: the HTTP session over libcurl

    Models [cpp/src/exchange/kalshi/http2_session.cpp] and its header: requests in flight, the
    completed responses and the state of the session, one definition per method.  libcurl is the
    class [Libcurl] over a state of its own; an easy handle is named by the request id it
    carries.  [curl_multi_info_read] hands over the messages that [curl_multi_perform] left;
    [LibcurlLaws] says that reading one leaves fewer, so the loop of [poll], whose fuel is their
    number, ends.  The session is an instance of the interface [HttpSession] of the REST
    session. *)

From S2P Require Import Prelude RestTypes Config App Signing.
From Stdlib Require Import Ascii.
From Stdlib Require String.
From stdpp Require Import pretty.
Open Scope Z_scope.

(** The options of an easy handle. *)
Inductive EasyBody := | EasyGet | EasyPost (body : string) | EasyDelete (body : option string) | EasyPut (body : string).
Record EasyRequest := mkEasyRequest {
  ez_url : string;
  ez_headers : list string;
  ez_private : Z;
  ez_timeout_ms : Z;
  ez_connect_timeout_ms : Z;
  ez_body : EasyBody;
}.
(** [CURLMSG_DONE] with what [curl_easy_getinfo] says of its handle.  [cg_error]: the text of the
    result, if it is not [CURLE_OK]; [cg_error_buffer]: what the handle wrote to its buffer. *)
Record CurlDone := mkCurlDone { cg_private : Z; cg_error : option string; cg_error_buffer : string; cg_http_code : Z; cg_http_2 : bool }.

Class Libcurl (E : Type) := {
  curl_multi_init : E → bool * E;
  curl_multi_cleanup : E → E;
  curl_slist_append : string → E → bool * E;
  curl_easy_init : E → bool * E;
  curl_easy_cleanup : Z → E → E;
  curl_multi_add_handle : EasyRequest → E → option string * E;
  curl_multi_remove_handle : Z → E → E;
  (** An error, and the pieces of bodies that were received, each for its request. *)
  curl_multi_perform : E → (option string * list (Z * string)) * E;
  (** [Some None] is a message of another kind. *)
  curl_multi_info_read : E → option (option CurlDone) * E;
  curl_messages : E → nat;
}.
Class LibcurlLaws (E : Type) `{Libcurl E} : Prop := {
  info_read_fewer : ∀ e m, (curl_multi_info_read e).1 = Some m → (curl_messages (curl_multi_info_read e).2 < curl_messages e)%nat;
  cleanup_messages : ∀ id e, curl_messages (curl_easy_cleanup id e) = curl_messages e;
  remove_messages : ∀ id e, (curl_messages (curl_multi_remove_handle id e) ≤ curl_messages e)%nat;
}.

Module Http2.
Import Config App Signing.

Record ActiveRequest := mkActiveRequest {
  av_request : HttpRequest;
  av_url : string;
  av_method : string;
  av_body : string;
  av_response_body : string;
  av_deadline_ns : Z;
  av_curl_headers : list string;
}.
#[export] Instance eta_ActiveRequest : Eta ActiveRequest := λ r,
  mkActiveRequest (av_request r) (av_url r) (av_method r) (av_body r) (av_response_body r) (av_deadline_ns r) (av_curl_headers r).

Definition http_method_to_string (method : HttpMethod) : string := match method with kGET => "GET" | kPOST => "POST" | kDELETE => "DELETE" | kPUT => "PUT" end.

Section Http2.
Context {E : Type} {LC : Libcurl E} {RS : Rsa}.
Variable clk : nat → Z.
Variable wall_clk : nat → Z.

Record Http2State := mkHttp2State {
  h2_env : E;
  h2_multi_handle : bool;
  h2_credentials : Credentials;
  h2_config : Http2SessionConfig;
  h2_last_error : string;
  h2_inflight_requests : gmap Z ActiveRequest;
  h2_completed_responses : list HttpResponse;
  h2_is_warmed_up : bool;
  h2_is_closed : bool;
  h2_clock_reads : nat;
}.
#[export] Instance eta_Http2State : Eta Http2State := λ r,
  mkHttp2State (h2_env r) (h2_multi_handle r) (h2_credentials r) (h2_config r) (h2_last_error r) (h2_inflight_requests r) (h2_completed_responses r)
    (h2_is_warmed_up r) (h2_is_closed r) (h2_clock_reads r).

Definition make_http2_session (env : E) (credentials : Credentials) (config : Http2SessionConfig) : Http2State :=
  mkHttp2State env false credentials config "" ∅ [] false true 0.

(** A call of libcurl. *)
Definition curl {A} (call : E → A * E) : M Http2State A := λ s, let '(a, e) := call (h2_env s) in (a, s ⟪ h2_env := e ⟫).
Definition curl_ (call : E → E) : M Http2State unit := modify (λ s, s ⟪ h2_env ::= call ⟫).
Definition set_error (error : string) : M Http2State unit := modify (λ s, s ⟪ h2_last_error := error ⟫).
Definition now_ns : M Http2State Z := λ s, (u64 (clk (h2_clock_reads s)), s ⟪ h2_clock_reads ::= S ⟫).

(** ** Opening and closing *)

Definition warm_up : M Http2State bool :=
  closed ← gets h2_is_closed;
  if negb closed then mret true
  else
    handle ← curl curl_multi_init;
    modify (λ s, s ⟪ h2_multi_handle := handle ⟫);;
    if negb handle then set_error "Failed to initialize CURL multi handle";; mret false
    else modify (λ s, s ⟪ h2_is_closed := false ⟫ ⟪ h2_is_warmed_up := true ⟫);; mret true.

(** The easy handle of a request is removed and cleaned up. *)
Definition drop_handle (id : Z) : M Http2State unit := curl_ (curl_multi_remove_handle id);; curl_ (curl_easy_cleanup id).
Definition close : M Http2State unit :=
  handle ← gets h2_multi_handle;
  inflight ← gets h2_inflight_requests;
  (if (handle : bool) then
     (if bool_decide (inflight = ∅) then mret tt
      else forM_ (map_to_list inflight).*1 drop_handle;; modify (λ s, s ⟪ h2_inflight_requests := ∅ ⟫));;
     curl_ curl_multi_cleanup;;
     modify (λ s, s ⟪ h2_multi_handle := false ⟫)
   else mret tt);;
  modify (λ s, s ⟪ h2_is_closed := true ⟫ ⟪ h2_is_warmed_up := false ⟫).

(** ** Requests *)

Definition available_capacity (s : Http2State) : Z :=
  if h2_is_closed s || (hc_max_concurrent_streams (h2_config s) <=? Z.of_nat (size (h2_inflight_requests s))) then 0
  else hc_max_concurrent_streams (h2_config s) - Z.of_nat (size (h2_inflight_requests s)).
Definition has_inflight_requests (s : Http2State) : bool := negb (bool_decide (h2_inflight_requests s = ∅)).

(** Each header with the error that is kept if it cannot be appended. *)
Fixpoint append_headers (headers : list (string * string)) : M Http2State bool :=
  match headers with
  | [] => mret true
  | (header, error) :: rest =>
      appended ← curl (curl_slist_append header);
      if (appended : bool) then append_headers rest else set_error error;; mret false
  end.
Definition base_headers (request : HttpRequest) : list (string * string) :=
  [("Accept: application/json", "Failed to append Accept header"); ("Content-Type: " +:+ hq_content_type request, "Failed to append Content-Type header");
   ("User-Agent: PredEx/1.0", "Failed to append User-Agent header")]%string.
Definition auth_headers (h : AuthHeaders) : list (string * string) :=
  [("KALSHI-ACCESS-KEY: " +:+ ah_key_id h, "Failed to append KALSHI-ACCESS-KEY header");
   ("KALSHI-ACCESS-SIGNATURE: " +:+ ah_signature_base64 h, "Failed to append KALSHI-ACCESS-SIGNATURE header");
   ("KALSHI-ACCESS-TIMESTAMP: " +:+ ah_timestamp_ms h, "Failed to append KALSHI-ACCESS-TIMESTAMP header")]%string.
Definition custom_headers (request : HttpRequest) : list (string * string) :=
  (λ h, (hh_name h +:+ ": " +:+ hh_value h, "Failed to append custom header: " +:+ hh_name h)%string) <$> hq_headers request.

(** The system clock is read once for each signature. *)
Definition sign_request (request : HttpRequest) : M Http2State (Result (list (string * string))) :=
  if hq_authenticate request then
    s ← gets id;
    modify (λ s, s ⟪ h2_clock_reads ::= S ⟫);;
    mret (headers ← make_rest_auth_headers (h2_credentials s) (wall_clk (h2_clock_reads s)) (mkRestAuthArguments (http_method_to_string (hq_method request)) (hq_target request)); mret (auth_headers headers))
  else mret (inr []).

Definition easy_body (method : HttpMethod) (body : string) : EasyBody :=
  match method with
  | kGET => EasyGet
  | kPOST => EasyPost body
  | kDELETE => EasyDelete (if bool_decide (body = ""%string) then None else Some body)
  | kPUT => EasyPut body
  end.
Definition easy_request (config : Http2SessionConfig) (active : ActiveRequest) : EasyRequest :=
  mkEasyRequest (av_url active) (av_curl_headers active) (hq_request_id (av_request active)) (hc_request_timeout config) (hc_connect_timeout config)
    (easy_body (hq_method (av_request active)) (av_body active)).
Definition on_trace (id : Z) (f : HttpTrace → HttpTrace) : M Http2State unit :=
  modify (λ s, s ⟪ h2_inflight_requests ::= alter (λ a, a ⟪ av_request ::= λ r, r ⟪ hq_trace ::= f ⟫ ⟫) id ⟫).

(** The request is filed and handed to libcurl. *)
Definition submit (active : ActiveRequest) : M Http2State HttpStartResult :=
  initialized ← curl curl_easy_init;
  if negb initialized then set_error "Failed to initialize CURL easy handle";; mret kSTART_ERROR
  else
    let id := hq_request_id (av_request active) in
    modify (λ s, s ⟪ h2_inflight_requests ::= <[id := active]> ⟫);;
    config ← gets h2_config;
    enqueued ← now_ns;
    on_trace id (λ t, t ⟪ ht_enqueue_ts_ns := enqueued ⟫);;
    added ← curl (curl_multi_add_handle (easy_request config active));
    match added with
    | Some error =>
        set_error ("Failed to add CURL easy handle to multi handle: " +:+ error)%string;;
        modify (λ s, s ⟪ h2_inflight_requests ::= delete id ⟫);;
        curl_ (curl_easy_cleanup id);;
        mret kSTART_ERROR
    | None =>
        sent ← now_ns;
        on_trace id (λ t, t ⟪ ht_request_sent_ts_ns := sent ⟫);;
        mret kSTART_ACCEPTED
    end.

(** [inl] is an exception of the signer. *)
Definition start_request (request : HttpRequest) : M Http2State (Result HttpStartResult) :=
  s ← gets id;
  if h2_is_closed s || negb (h2_multi_handle s) then mret (inr kSTART_CLOSED)
  else if available_capacity s =? 0 then mret (inr kSTART_AT_CAPACITY)
  else if hq_request_id request =? 0 then mret (inr kSTART_ERROR)
  else if bool_decide (is_Some (h2_inflight_requests s !! hq_request_id request)) then mret (inr kSTART_ERROR)
  else
    now ← now_ns;
    based ← append_headers (base_headers request);
    if negb based then mret (inr kSTART_ERROR)
    else
      signed ← sign_request request;
      match signed with
      | inl error => mret (inl error)
      | inr signed =>
          appended ← append_headers (signed ++ custom_headers request);
          if negb appended then mret (inr kSTART_ERROR)
          else
            result ← submit (mkActiveRequest (request ⟪ hq_body := ""%string ⟫) (hc_endpoint (h2_config s) +:+ hq_target request)%string (http_method_to_string (hq_method request))
              (hq_body request) "" (u64 (now + hc_request_timeout (h2_config s) * 1000000)) ((base_headers request).*1 ++ signed.*1 ++ (custom_headers request).*1));
            mret (inr result)
      end.

(** ** Responses *)

(** [write_body_callback] *)
Definition receive (chunk : Z * string) (s : Http2State) : Http2State :=
  s ⟪ h2_inflight_requests ::= alter (λ a, a ⟪ av_response_body ::= λ b, (b +:+ chunk.2)%string ⟫) chunk.1 ⟫.

Definition response_of (active : ActiveRequest) (done : CurlDone) (now : Z) : HttpResponse :=
  mkHttpResponse (cg_private done)
    (bool_decide (cg_error done = None) && (200 <=? cg_http_code done) && (cg_http_code done <? 300))
    (cg_http_code done mod 65536) (av_response_body active)
    (match cg_error done with
     | None => ""%string
     | Some error => if bool_decide (cg_error_buffer done = ""%string) then ("CURL error: " +:+ error)%string else cg_error_buffer done
     end)
    ((hq_trace (av_request active)) ⟪ ht_response_recv_ts_ns := now ⟫ ⟪ ht_negotiated_protocol := if cg_http_2 done then kHTTP_2 else kHTTP_1_1 ⟫).

Definition nothing (s : Http2State) : HttpPollResult := mkHttpPollResult (if has_inflight_requests s then kHTTP_IN_FLIGHT else kHTTP_IDLE) None.
(** [None]: there is no completed response. *)
Definition pop_completed : M Http2State (option HttpPollResult) := λ s,
  match h2_completed_responses s with
  | [] => (None, s)
  | response :: rest => (Some (mkHttpPollResult kHTTP_COMPLETED (Some response)), s ⟪ h2_completed_responses := rest ⟫)
  end.

Fixpoint read_messages (fuel : nat) : M Http2State HttpPollResult :=
  match fuel with
  | O => gets nothing
  | S fuel' =>
      message ← curl curl_multi_info_read;
      match message with
      | None => gets nothing
      | Some None =>
          completed ← pop_completed;
          match completed with Some result => mret result | None => read_messages fuel' end
      | Some (Some done) =>
          let id := cg_private done in
          found ← gets (λ s, h2_inflight_requests s !! id);
          match found with
          | None =>
              set_error "Received CURLMSG_DONE for unknown request_id";;
              drop_handle id;;
              read_messages fuel'
          | Some active =>
              now ← now_ns;
              curl_ (curl_multi_remove_handle id);;
              modify (λ s, s ⟪ h2_completed_responses ::= λ l, l ++ [response_of active done now] ⟫);;
              modify (λ s, s ⟪ h2_inflight_requests ::= delete id ⟫);;
              curl_ (curl_easy_cleanup id);;
              completed ← pop_completed;
              match completed with Some result => mret result | None => read_messages fuel' end
          end
      end
  end.

Definition poll : M Http2State HttpPollResult :=
  completed ← pop_completed;
  match completed with
  | Some result => mret result
  | None =>
      closed ← gets h2_is_closed;
      if (closed : bool) then mret (mkHttpPollResult kHTTP_IDLE None)
      else
        performed ← curl curl_multi_perform;
        modify (λ s, foldl (λ s chunk, receive chunk s) s performed.2);;
        match performed.1 with
        | Some error => set_error ("CURL multi perform error: " +:+ error)%string;; gets nothing
        | None =>
            messages ← gets (λ s, curl_messages (h2_env s));
            read_messages (S messages)
        end
  end.
End Http2.
End Http2.
