(* ===== verification/Http2Account.v ===== *)
(** * Http2Account: every request that was accepted is answered once

    In any use of the HTTP session, whatever libcurl does, the requests it has accepted are the
    ones it has answered, the ones that closing has given up and the ones in flight.

    At the end, Module [RestHttp]: the REST session and the HTTP session are in step. *)

From S2P Require Import Prelude Spsc ShardTypes WireTypes OmsTypes RestTypes RestAdapter ControlPlaneTypes RestSession RestSettled Config App Signing Http2.
Open Scope Z_scope.

Module Http2Account.
Import Config App Signing Http2.

Section Account.
Context {E : Type} {LC : Libcurl E} {RS : Rsa}.
Variable clk : nat → Z.
Variable wall_clk : nat → Z.
Implicit Types s : Http2State (E := E).

Definition ids s : gset Z := dom (h2_inflight_requests s).
Definition core s := (ids s, h2_completed_responses s, h2_is_closed s, h2_multi_handle s, h2_config s).

(** Between two calls no completed response is left, and only an open session has requests. *)
Record session_ok s : Prop := {
  so_completed : h2_completed_responses s = [];
  so_handle : h2_multi_handle s = negb (h2_is_closed s);
  so_closed : h2_is_closed s = true → ids s = ∅;
  so_capacity : Z.of_nat (size (ids s)) ≤ Z.max 0 (hc_max_concurrent_streams (h2_config s));
  so_ids : 0 ∉ ids s;
}.

(** ** What leaves the requests alone *)

Lemma curl_core {A} (call : E → A * E) : rel (same core) (curl call).
Proof. intros s. unfold curl. by destruct (call (h2_env s)). Qed.
#[local] Hint Resolve curl_core : frame.
Lemma curl__core (call : E → E) : rel (same core) (curl_ call).
Proof. intros s. done. Qed.
#[local] Hint Resolve curl__core : frame.
Lemma set_error_core error : rel (same core) (set_error error : M (Http2State (E := E)) unit).
Proof. intros s. done. Qed.
#[local] Hint Resolve set_error_core : frame.
Lemma now_core : rel (same core) (now_ns clk : M (Http2State (E := E)) Z).
Proof. intros s. done. Qed.
#[local] Hint Resolve now_core : frame.
Lemma append_core headers : rel (same core) (append_headers headers : M (Http2State (E := E)) bool).
Proof. induction headers as [|[header error] headers IH]; cbn [append_headers]; rel_auto. Qed.
#[local] Hint Resolve append_core : frame.
Lemma drop_core id : rel (same core) (drop_handle id : M (Http2State (E := E)) unit).
Proof. unfold drop_handle. rel_auto. Qed.
#[local] Hint Resolve drop_core : frame.
Lemma sign_core request : rel (same core) (sign_request wall_clk request : M (Http2State (E := E)) _).
Proof. unfold sign_request. rel_auto. Qed.
#[local] Hint Resolve sign_core : frame.

Lemma trace_core id f : rel (same core) (on_trace id f : M (Http2State (E := E)) unit).
Proof. intros s. unfold same, core, ids, on_trace. cbn. by rewrite dom_alter_L. Qed.
#[local] Hint Resolve trace_core : frame.
Lemma receive_core chunks s : core (foldl (λ s chunk, receive chunk s) s chunks) = core s.
Proof. revert s. induction chunks as [|chunk chunks IH]; intros s; [done|]. cbn [foldl]. rewrite IH. unfold core, ids, receive. cbn. by rewrite dom_alter_L. Qed.

Lemma core_ok s s' : core s' = core s → session_ok s → session_ok s'.
Proof. unfold core. intros [= E1 E2 E3 E4 E5] [O1 O2 O3 O4 O5]. split; rewrite ?E1, ?E2, ?E3, ?E4, ?E5; done. Qed.

(** ** Requests *)

(** What a call of [start_request] does. *)
Definition started (id : Z) (r : Result HttpStartResult) s s' : Prop :=
  h2_config s' = h2_config s ∧ session_ok s' ∧
  ((r = inr kSTART_ACCEPTED ∧ (id ∉ ids s) ∧ id ≠ 0 ∧ ids s' = {[id]} ∪ ids s) ∨ (r ≠ inr kSTART_ACCEPTED ∧ ids s' = ids s)).
Lemma started_refused id r s s' : session_ok s → core s' = core s → r ≠ inr kSTART_ACCEPTED → started id r s s'.
Proof.
  intros Ho Ec Hr. split; [unfold core in Ec; congruence|]. split; [by eapply core_ok|]. right. split; [done|]. unfold core in *. congruence.
Qed.

Lemma submit_started active s0 s : session_ok s0 → core s = core s0 → h2_is_closed s0 = false → hq_request_id (av_request active) ≠ 0 →
  hq_request_id (av_request active) ∉ ids s0 → available_capacity s0 ≠ 0 →
  wp (submit clk active) (λ r s', started (hq_request_id (av_request active)) (inr r) s0 s') s.
Proof.
  intros Ho Ec Hcl Hid Hnew Hcap. unfold submit. set (id := hq_request_id _) in *. wp_step. eapply (wp_rel (same core)); [apply curl_core|]. intros initialized s1 E1.
  assert (core s1 = core s0) as Ec1 by (unfold same in E1; congruence). destruct initialized; cbn [negb].
  2: { wp_step. eapply (wp_rel (same core)); [apply set_error_core|]. intros _ s2 E2. wp_step. apply started_refused; [done|unfold same in E2; congruence|done]. }
  wp_step. wp_step. wp_step. wp_step. wp_step. eapply (wp_rel (same core)); [apply now_core|]. intros enqueued s2 E2. wp_step. eapply (wp_rel (same core)); [apply trace_core|]. intros _ s3 E3. wp_step.
  eapply (wp_rel (same core)); [apply curl_core|]. intros added s4 E4. unfold same in *.
  assert (core s4 = ({[id]} ∪ ids s0, h2_completed_responses s0, h2_is_closed s0, h2_multi_handle s0, h2_config s0)) as E5.
  { rewrite E4, E3, E2. unfold core in *. injection Ec1 as I1 C1 K1 M1 G1. unfold ids in *. cbn. rewrite dom_insert_L. congruence. }
  destruct added as [error|].
  - wp_step. eapply (wp_rel (same core)); [apply set_error_core|]. intros _ s5 E6. wp_step. wp_step. wp_step. eapply (wp_rel (same core)); [apply curl__core|]. intros _ s6 E7. wp_step.
    unfold same in *. apply started_refused; [done| |done]. rewrite E7. rewrite E5 in E6. unfold core in *. injection E6 as I1 C1 K1 M1 G1. unfold ids in *. cbn. rewrite dom_delete_L, I1.
    replace (({[id]} ∪ dom (h2_inflight_requests s0)) ∖ {[id]}) with (dom (h2_inflight_requests s0)) by set_solver. congruence.
  - wp_step. eapply (wp_rel (same core)); [apply now_core|]. intros sent s5 E6. wp_step. eapply (wp_rel (same core)); [apply trace_core|]. intros _ s6 E7. wp_step. unfold same in *.
    assert (core s6 = ({[id]} ∪ ids s0, h2_completed_responses s0, h2_is_closed s0, h2_multi_handle s0, h2_config s0)) as E8 by congruence. unfold core in E8. injection E8 as I1 C1 K1 M1 G1.
    destruct Ho as [O1 O2 O3 O4 O5]. split; [done|]. split; [|left; done].
    split; [congruence|congruence|intros; congruence| |rewrite I1; set_solver]. rewrite I1, G1, size_union, size_singleton by set_solver.
    unfold available_capacity in Hcap. rewrite Hcl in Hcap. cbn [orb] in Hcap. unfold ids in *. rewrite size_dom in *. destruct (Z.leb_spec (hc_max_concurrent_streams (h2_config s0)) (Z.of_nat (size (h2_inflight_requests s0)))); lia.
Qed.

Lemma start_outcome request s : session_ok s → wp (start_request clk wall_clk request) (λ r s', started (hq_request_id request) r s s') s.
Proof.
  intros Ho. unfold start_request. wp_step. wp_step. cbn [id]. destruct (_ || _) eqn:Ecl; [wp_step; by apply started_refused|]. apply orb_false_iff in Ecl as [Hcl _].
  destruct (Z.eqb_spec (available_capacity s) 0) as [|Hcap]; [wp_step; by apply started_refused|]. destruct (Z.eqb_spec (hq_request_id request) 0) as [|Hid]; [wp_step; by apply started_refused|].
  case_bool_decide as Hnew; [wp_step; by apply started_refused|]. rewrite <- elem_of_dom in Hnew. change (dom _) with (ids s) in Hnew.
  wp_step. eapply (wp_rel (same core)); [apply now_core|]. intros now s1 E1. wp_step. eapply (wp_rel (same core)); [apply append_core|]. intros based s2 E2. unfold same in *.
  destruct based; cbn [negb]; [|wp_step; apply started_refused; [done|congruence|done]].
  wp_step. eapply (wp_rel (same core)); [apply sign_core|]. intros signed s3 E3. unfold same in *. destruct signed as [error|signed]; [wp_step; apply started_refused; [done|congruence|done]|].
  wp_step. eapply (wp_rel (same core)); [apply append_core|]. intros appended s4 E4. unfold same in *. destruct appended; cbn [negb]; [|wp_step; apply started_refused; [done|congruence|done]].
  wp_step. eapply wp_mono; [apply (submit_started _ s); [done|congruence|done|done|done|done]|]. cbv beta. intros r s' H. wp_step. exact H.
Qed.

(** ** Responses *)

(** What a call of [poll] does: a response is that of a request in flight, and no response is the
    news that there is none in flight only if there is none. *)
Definition polled (r : HttpPollResult) s s' : Prop :=
  h2_config s' = h2_config s ∧ session_ok s' ∧
  match hp_response r with
  | Some response => hp_status r = kHTTP_COMPLETED ∧ hs_request_id response ∈ ids s ∧ ids s' = ids s ∖ {[hs_request_id response]}
  | None => ids s' = ids s ∧ hp_status r = (if bool_decide (ids s = ∅) then kHTTP_IDLE else kHTTP_IN_FLIGHT)
  end.
Lemma polled_nothing s0 s : session_ok s0 → core s = core s0 → polled (nothing s) s0 s.
Proof.
  intros Ho Ec. split; [unfold core in Ec; congruence|]. split; [by eapply core_ok|]. cbn [nothing hp_response hp_status]. unfold core in Ec. injection Ec as I1 _ _ _ _. split; [done|].
  unfold has_inflight_requests. rewrite <- I1. unfold ids. destruct (decide (h2_inflight_requests s = ∅)) as [H|H].
  - rewrite !bool_decide_eq_true_2; [done|by rewrite H, dom_empty_L|done].
  - rewrite !bool_decide_eq_false_2; [done|by rewrite dom_empty_iff_L|done].
Qed.

Lemma read_messages_polled fuel s0 s : session_ok s0 → core s = core s0 → h2_is_closed s0 = false → wp (read_messages clk fuel) (λ r s', polled r s0 s') s.
Proof.
  intros Ho. revert s. induction fuel as [|fuel IH]; intros s Ec Hcl; cbn [read_messages]; [wp_step; by apply polled_nothing|].
  wp_step. eapply (wp_rel (same core)); [apply curl_core|]. intros message s1 E1. unfold same in E1. rewrite Ec in E1. pose proof (so_completed _ Ho) as Hcomp.
  destruct message as [[done|]|]; [| |wp_step; by apply polled_nothing].
  2: { wp_step. unfold wp at 1, pop_completed. replace (h2_completed_responses s1) with (@nil HttpResponse) by (unfold core in E1; congruence). cbn [fst snd]. by apply IH. }
  wp_step. wp_step. destruct (h2_inflight_requests s1 !! cg_private done) as [active|] eqn:Ef.
  2: { wp_step. eapply (wp_rel (same core)); [apply set_error_core|]. intros _ s2 E2. wp_step. eapply (wp_rel (same core)); [apply drop_core|]. intros _ s3 E3. unfold same in *. apply IH; [congruence|done]. }
  wp_step. eapply (wp_rel (same core)); [apply now_core|]. intros now s2 E2. wp_step. eapply (wp_rel (same core)); [apply curl__core|]. intros _ s3 E3. unfold same in *.
  wp_step. wp_step. wp_step. wp_step. wp_step. eapply (wp_rel (same core)); [apply curl__core|]. intros _ s4 E4. unfold same in E4. wp_step.
  rewrite E1 in E2. rewrite E2 in E3. unfold core in E3. injection E3 as I3 C3 K3 M3 G3. unfold core, ids in E4. cbn in E4. rewrite C3, Hcomp in E4. injection E4 as I4 C4 K4 M4 G4.
  unfold wp at 1, pop_completed. rewrite C4. cbn [app fst snd]. wp_step. set (s5 := s4 ⟪ _ := _ ⟫).
  assert (ids s5 = ids s0 ∖ {[cg_private done]}) as Hids by (unfold ids in *; cbn; by rewrite I4, dom_delete_L, I3).
  destruct Ho as [O1 O2 O3 O4 O5]. unfold polled. cbn [hp_response hp_status hs_request_id response_of]. change (h2_config s5) with (h2_config s4). split; [congruence|]. split.
  - split; change (h2_completed_responses s5) with (@nil HttpResponse); change (h2_multi_handle s5) with (h2_multi_handle s4); change (h2_is_closed s5) with (h2_is_closed s4); change (h2_config s5) with (h2_config s4); rewrite ?Hids.
    + done.
    + congruence.
    + intros Hc. rewrite O3 by congruence. set_solver.
    + rewrite G4, G3. pose proof (subseteq_size (ids s0 ∖ {[cg_private done]}) (ids s0) ltac:(set_solver)). lia.
    + set_solver.
  - split; [done|]. split; [|done]. assert (cg_private done ∈ ids s1) as Hin by (apply elem_of_dom; eauto). unfold core in E1. congruence.
Qed.
Lemma poll_outcome s : session_ok s → wp (poll clk) (λ r s', polled r s s') s.
Proof.
  intros Ho. unfold poll. wp_step. unfold wp at 1, pop_completed. rewrite (so_completed _ Ho). cbn [fst snd]. wp_step. wp_step. destruct (h2_is_closed s) eqn:Hcl.
  { wp_step. split; [done|]. split; [done|]. cbn. by rewrite (so_closed _ Ho Hcl). }
  wp_step. eapply (wp_rel (same core)); [apply curl_core|]. intros performed s1 E1. wp_step. wp_step. pose proof (receive_core performed.2 s1) as E2. set (s2 := foldl _ s1 _) in *. unfold same in E1. rewrite E1 in E2.
  destruct performed.1 as [error|].
  - wp_step. eapply (wp_rel (same core)); [apply set_error_core|]. intros _ s3 E3. unfold same in E3. wp_step. apply polled_nothing; [done|congruence].
  - wp_step. wp_step. by apply read_messages_polled.
Qed.

(** The fuel of [poll] is enough: with more of it the loop does the same. *)
Lemma messages_are_read {HC : LibcurlLaws E} fuel fuel' s : (curl_messages (h2_env s) < fuel)%nat → (curl_messages (h2_env s) < fuel')%nat →
  read_messages clk fuel s = read_messages clk fuel' s.
Proof.
  revert fuel' s. induction fuel as [|fuel IH]; intros [|fuel'] s H H'; try lia. cbn [read_messages]. unfold mbind, M_bind, curl.
  pose proof (info_read_fewer (h2_env s)) as Hf. destruct (curl_multi_info_read (h2_env s)) as [message e] eqn:Em. cbn [fst snd] in Hf. destruct message as [[msg|]|]; [| |done].
  - specialize (Hf _ eq_refl). unfold gets. cbn. destruct (h2_inflight_requests s !! cg_private msg) as [active|].
    + unfold pop_completed, curl_, modify, now_ns. cbn. destruct (h2_completed_responses s ++ _) eqn:El; [by destruct (h2_completed_responses s)|done].
    + apply IH; unfold set_error, drop_handle, curl_, modify; cbn; rewrite cleanup_messages; pose proof (remove_messages (cg_private msg) e); lia.
  - specialize (Hf _ eq_refl). unfold pop_completed. cbn. destruct (h2_completed_responses s); [|done]. apply IH; cbn; lia.
Qed.

(** ** Opening and closing *)

Lemma warm_up_outcome s : session_ok s → wp warm_up (λ _ s', h2_config s' = h2_config s ∧ session_ok s' ∧ ids s' = ids s) s.
Proof.
  intros Ho. unfold warm_up. wp_step. wp_step. destruct (h2_is_closed s) eqn:Hcl; cbn [negb]; [|by wp_step]. wp_step. eapply (wp_rel (same core)); [apply curl_core|]. intros handle s1 E1. unfold same in E1.
  wp_step. wp_step. unfold core in E1. injection E1 as I1 C1 K1 M1 G1. destruct Ho as [O1 O2 O3 O4 O5]. rewrite Hcl in *. destruct handle; cbn [negb].
  - wp_steps. unfold ids in *. cbn. split; [done|]. split; [|done]. split; unfold ids in *; cbn; [congruence|done|done|by rewrite G1, I1|by rewrite I1].
  - wp_step. unfold set_error. wp_step. wp_step. unfold ids in *. cbn. split; [done|]. split; [|done]. split; unfold ids in *; cbn; rewrite ?K1; [congruence|done|intros _; rewrite I1; auto|by rewrite G1, I1|by rewrite I1].
Qed.
Lemma close_outcome s : session_ok s → wp close (λ _ s', h2_config s' = h2_config s ∧ session_ok s' ∧ ids s' = ∅) s.
Proof.
  intros Ho. unfold close. wp_step. wp_step. wp_step. wp_step. destruct Ho as [O1 O2 O3 O4 O5]. wp_step.
  assert (∀ s', h2_config s' = h2_config s → h2_completed_responses s' = [] → ids s' = ∅ → h2_multi_handle s' = false →
    wp (modify (λ s, s ⟪ h2_is_closed := true ⟫ ⟪ h2_is_warmed_up := false ⟫)) (λ _ s', h2_config s' = h2_config s ∧ session_ok s' ∧ ids s' = ∅) s') as Hend.
  { intros s' E1 E2 E3 E4. wp_step. split; [done|]. split; [|done]. split; [done|done|done|..]; unfold ids in *; cbn; rewrite E3; [|set_solver]. rewrite size_empty. lia. }
  destruct (h2_multi_handle s) eqn:Hh.
  - wp_step. assert (∀ s', h2_config s' = h2_config s → h2_completed_responses s' = [] → ids s' = ∅ →
      wp (curl_ curl_multi_cleanup;; modify (λ s, s ⟪ h2_multi_handle := false ⟫)) (λ _ s', wp (modify (λ s, s ⟪ h2_is_closed := true ⟫ ⟪ h2_is_warmed_up := false ⟫)) (λ _ s', h2_config s' = h2_config s ∧ session_ok s' ∧ ids s' = ∅) s') s') as Hclean.
    { intros s' E1 E2 E3. unfold curl_. wp_step. wp_step. wp_step. by apply Hend. }
    case_bool_decide as He.
    + wp_step. apply Hclean; [done|done|]. unfold ids. by rewrite He, dom_empty_L.
    + wp_step. eapply (wp_rel (same core)); [apply rel_forM; [exact _|intros x; apply drop_core]|]. intros _ s1 E1. unfold same, core in E1. wp_step. apply Hclean; unfold ids; cbn; [congruence|congruence|by rewrite dom_empty_L].
  - wp_step. apply Hend; [done|done| |done]. apply O3. by destruct (h2_is_closed s).
Qed.

(** ** A use of the session *)

Inductive http_op := | HWarmUp | HStart (request : HttpRequest) | HPoll | HClose.
Definition run_op (op : http_op) s : Http2State :=
  match op with HWarmUp => (warm_up s).2 | HStart request => (start_request clk wall_clk request s).2 | HPoll => (poll clk s).2 | HClose => (close s).2 end.
Fixpoint run_ops (ops : list http_op) s : Http2State := match ops with [] => s | op :: ops => run_ops ops (run_op op s) end.
(** The ids of the requests accepted, the responses handed out, and the ids given up. *)
Definition op_accepted (op : http_op) s : list Z :=
  match op with
  | HStart request => match (start_request clk wall_clk request s).1 with inr kSTART_ACCEPTED => [hq_request_id request] | _ => [] end
  | _ => []
  end.
Definition op_answered (op : http_op) s : list HttpResponse := match op with HPoll => option_list (hp_response (poll clk s).1) | _ => [] end.
Definition op_abandoned (op : http_op) s : list Z := match op with HClose => elements (ids s) | _ => [] end.
Fixpoint collect {A} (f : http_op → Http2State → list A) (ops : list http_op) s : list A := match ops with [] => [] | op :: ops => f op s ++ collect f ops (run_op op s) end.

Lemma op_account op s : session_ok s → session_ok (run_op op s) ∧ h2_config (run_op op s) = h2_config s ∧ (0 ∉ op_accepted op s) ∧
  op_accepted op s ++ elements (ids s) ≡ₚ (hs_request_id <$> op_answered op s) ++ op_abandoned op s ++ elements (ids (run_op op s)).
Proof.
  intros Ho. destruct op as [|request| |]; cbn [run_op op_accepted op_answered op_abandoned fmap list_fmap app].
  - destruct (warm_up_outcome s Ho) as (E1 & E2 & E3). rewrite E3. split_and!; [done|done|apply not_elem_of_nil|done].
  - pose proof (start_outcome request s Ho) as (E1 & E2 & [(-> & Hnew & Hid & ->)|(Hr & ->)]).
    + split_and!; [done|done|set_solver|]. rewrite elements_union_singleton by done. done.
    + destruct (start_request clk wall_clk request s).1 as [e|[]]; cbn [app] in *; try done; (split_and!; [done|done|apply not_elem_of_nil|done]).
  - pose proof (poll_outcome s Ho) as (E1 & E2 & E3). destruct (hp_response _) as [response|]; cbn [option_list fmap list_fmap app].
    + destruct E3 as (_ & Hin & ->). split_and!; [done|done|apply not_elem_of_nil|].
      change (elements (ids s) ≡ₚ hs_request_id response :: elements (ids s ∖ {[hs_request_id response]})). rewrite <- elements_union_singleton by set_solver. by rewrite <- union_difference_singleton_L.
    + destruct E3 as [-> _]. split_and!; [done|done|apply not_elem_of_nil|done].
  - destruct (close_outcome s Ho) as (E1 & E2 & E3). rewrite E3, elements_empty, app_nil_r. split_and!; [done|done|apply not_elem_of_nil|done].
Qed.

Lemma make_ok env credentials config : session_ok (make_http2_session env credentials config).
Proof. split; try done. unfold ids. cbn. rewrite dom_empty_L, size_empty. lia. Qed.

(** C37: every request that was accepted is answered once.  In any use of the HTTP session,
    opened, closed and opened again, whatever libcurl does: the requests it has accepted are,
    one for one, those whose response it has handed out, those in flight when it was closed, and
    those in flight; a response always belongs to a request.  At most as many requests are in
    flight as there may be streams, none when the session is closed, and the session says that
    it is idle only if there are none. *)
Theorem requests_are_answered_once env credentials config ops :
  collect op_accepted ops (make_http2_session env credentials config) ≡ₚ
    (hs_request_id <$> collect op_answered ops (make_http2_session env credentials config)) ++ collect op_abandoned ops (make_http2_session env credentials config) ++
    elements (ids (run_ops ops (make_http2_session env credentials config))) ∧
  Z.of_nat (size (ids (run_ops ops (make_http2_session env credentials config)))) ≤ Z.max 0 (hc_max_concurrent_streams config) ∧
  (h2_is_closed (run_ops ops (make_http2_session env credentials config)) = true → ids (run_ops ops (make_http2_session env credentials config)) = ∅) ∧
  (hp_status (poll clk (run_ops ops (make_http2_session env credentials config))).1 = kHTTP_IDLE → ids (run_ops ops (make_http2_session env credentials config)) = ∅).
Proof.
  assert (∀ s, session_ok s → h2_config s = config → session_ok (run_ops ops s) ∧ h2_config (run_ops ops s) = config ∧
    collect op_accepted ops s ++ elements (ids s) ≡ₚ (hs_request_id <$> collect op_answered ops s) ++ collect op_abandoned ops s ++ elements (ids (run_ops ops s))) as Hrun.
  { induction ops as [|op ops IH]; intros s Ho Hc; [by split_and!|]. destruct (op_account op s Ho) as (O1 & O2 & _ & O4). destruct (IH (run_op op s) O1 ltac:(congruence)) as (R1 & R2 & R3).
    cbn [run_ops collect]. split_and!; [done|done|]. rewrite fmap_app. rewrite <- app_assoc, (Permutation_app_comm (collect op_accepted ops _)), app_assoc, O4, <- !app_assoc.
    rewrite (Permutation_app_comm (elements _) (collect op_accepted ops _)), R3. solve_Permutation. }
  destruct (Hrun _ (make_ok env credentials config) eq_refl) as (R1 & R2 & R3). unfold ids at 1 in R3. cbn in R3. rewrite dom_empty_L, elements_empty, app_nil_r in R3.
  split; [exact R3|]. split; [pose proof (so_capacity _ R1) as Hcap; by rewrite R2 in Hcap|]. split; [apply R1|]. pose proof (poll_outcome _ R1) as (_ & _ & P). intros Hidle. destruct (hp_response _); [destruct P as [P _]; congruence|].
  destruct P as [_ P]. case_bool_decide; [done|congruence].
Qed.
End Account.
End Http2Account.

(** ** The REST session and the HTTP session are in step

    [HttpSessionLaws] is what the REST session may expect of an HTTP session; [Http2State] keeps
    it.  Against it the REST session is shown to have on file exactly the requests that the HTTP
    session has in flight. *)

Open Scope Z_scope.

(** The ids in flight: a request that is accepted has a new one, a response ends it. *)
Class HttpSessionLaws (H : Type) `{!HttpSession H} := {
  http_ok : H → Prop;
  http_ids : H → gset Z;
  warm_up_law : ∀ h, http_ok h → http_ok (http_warm_up h).2 ∧ http_ids (http_warm_up h).2 = http_ids h;
  start_law : ∀ request h, http_ok h → http_ok (http_start_request request h).2 ∧
    if bool_decide ((http_start_request request h).1 = kSTART_ACCEPTED)
    then (hq_request_id request ∉ http_ids h) ∧ http_ids (http_start_request request h).2 = {[hq_request_id request]} ∪ http_ids h
    else http_ids (http_start_request request h).2 = http_ids h;
  poll_law : ∀ h, http_ok h → http_ok (http_poll h).2 ∧
    match hp_response (http_poll h).1 with
    | Some response => hp_status (http_poll h).1 = kHTTP_COMPLETED ∧ hs_request_id response ∈ http_ids h ∧ http_ids (http_poll h).2 = http_ids h ∖ {[hs_request_id response]}
    | None => hp_status (http_poll h).1 ≠ kHTTP_COMPLETED ∧ http_ids (http_poll h).2 = http_ids h
    end;
}.

Module RestHttp.
Import RestAdapter RestSession RestSettled.

Section InStep.
Context {Q : Type → Type} `{HQ : PushQueue Q} {H : Type} {HH : HttpSession H} {HL : HttpSessionLaws H} `{!NlohmannJson}.
Variable clk : nat → Z.
Implicit Types s : RestState (Q := Q) (H := H).
Abbreviation Rest A := (M (RestState (Q := Q) (H := H)) A).

Definition both s := (re_http_session s, re_inflight_requests s).
Definition in_step s : Prop := http_ok (re_http_session s) ∧ dom (re_inflight_requests s) = http_ids (re_http_session s).

Lemma same_in_step {A} (m : Rest A) : rel (same both) m → rel (keeps in_step) m.
Proof. intros Hm s. specialize (Hm s). unfold same, both in Hm. injection Hm as E1 E2. unfold keeps, in_step. by rewrite E1, E2. Qed.

(** ** What leaves both alone *)

Lemma push_status_both status : rel (same both) (try_push_control_status status : Rest bool).
Proof. intros s. unfold try_push_control_status. by destruct (q_push status _). Qed.
#[local] Hint Resolve push_status_both : frame.
Lemma push_oms_both event : rel (same both) (push_oms event : Rest bool).
Proof. intros s. unfold push_oms. by destruct (q_push event _). Qed.
#[local] Hint Resolve push_oms_both : frame.
Lemma notify_both : rel (same both) (try_send_pending_control_notifications : Rest unit).
Proof. unfold try_send_pending_control_notifications. rel_auto. Qed.
#[local] Hint Resolve notify_both : frame.
Lemma defer_both event : rel (same both) (defer_oms_event event : Rest bool).
Proof. intros s. unfold defer_oms_event. by destruct (_ <=? _). Qed.
#[local] Hint Resolve defer_both : frame.
Lemma drain_events_both fuel : rel (same both) (drain_events fuel : Rest unit).
Proof. induction fuel as [|fuel IH]; cbn [drain_events]; rel_auto. Qed.
#[local] Hint Resolve drain_events_both : frame.
Lemma drain_pending_both : rel (same both) (drain_pending_oms_events : Rest unit).
Proof. unfold drain_pending_oms_events. rel_auto. Qed.
#[local] Hint Resolve drain_pending_both : frame.
Lemma send_or_defer_both event : rel (same both) (send_or_defer_oms_event event : Rest bool).
Proof. unfold send_or_defer_oms_event, tally. rel_auto. Qed.
#[local] Hint Resolve send_or_defer_both : frame.
Lemma fault_both reason : rel (same both) (fault reason : Rest unit).
Proof. unfold fault, disable. rel_auto. Qed.
#[local] Hint Resolve fault_both : frame.
Lemma apply_universe_both snapshot : rel (same both) (apply_universe snapshot : Rest unit).
Proof. unfold apply_universe. rel_auto. Qed.
#[local] Hint Resolve apply_universe_both : frame.
Lemma rest_now_both : rel (same both) (rest_now_ns clk : Rest Z).
Proof. intros s. done. Qed.
#[local] Hint Resolve rest_now_both : frame.
Lemma reject_both prepared reason : rel (same both) (reject clk prepared reason : Rest unit).
Proof. unfold reject, emit_local_reject, tally. rel_auto. Qed.
#[local] Hint Resolve reject_both : frame.
Lemma next_id_both : rel (same both) (next_portfolio_http_request_id : Rest Z).
Proof. intros s. done. Qed.
#[local] Hint Resolve next_id_both : frame.
Lemma fail_portfolio_both reason : rel (same both) (fail_portfolio_reconciliation clk reason : Rest unit).
Proof. unfold fail_portfolio_reconciliation, tally. rel_auto. Qed.
#[local] Hint Resolve fail_portfolio_both : frame.
Lemma refuse_both command error : rel (same both) (refuse_portfolio clk command error : Rest unit).
Proof. unfold refuse_portfolio. rel_auto. Qed.
#[local] Hint Resolve refuse_both : frame.
Lemma maybe_finish_both : rel (same both) (maybe_finish_portfolio_reconciliation clk : Rest unit).
Proof. unfold maybe_finish_portfolio_reconciliation, tally. rel_auto. Qed.
#[local] Hint Resolve maybe_finish_both : frame.
Lemma close_egress_both epoch : rel (same both) (handle_close_egress epoch : Rest unit).
Proof. unfold handle_close_egress. rel_auto. Qed.
#[local] Hint Resolve close_egress_both : frame.
Lemma finish_drain_both : rel (same both) (finish_egress_drain clk : Rest unit).
Proof. unfold finish_egress_drain. rel_auto. Qed.
#[local] Hint Resolve finish_drain_both : frame.
Lemma telemetry_both : rel (same both) (maybe_send_telemetry clk : Rest unit).
Proof. unfold maybe_send_telemetry. rel_auto. Qed.
#[local] Hint Resolve telemetry_both : frame.

(** ** What keeps them in step *)

#[local] Hint Resolve same_in_step : frame.
Lemma modify_in_step f : (∀ s, both (f s) = both s) → rel (keeps in_step) (modify f : Rest unit).
Proof. intros Hf. apply same_in_step. intros s. apply Hf. Qed.
#[local] Hint Extern 1 (rel (keeps in_step) (modify _)) => (apply modify_in_step; intros ?; reflexivity) : frame.
#[local] Hint Extern 1 (rel (keeps in_step) (tally _)) => (apply modify_in_step; intros ?; reflexivity) : frame.

Lemma in_step_keeps {A} (m : Rest A) Φ s : rel (keeps in_step) m → in_step s → (∀ a s', in_step s' → Φ a s') → wp m Φ s.
Proof. intros Hm Hs Hk. apply Hk. by apply Hm. Qed.

Lemma enable_in_step : rel (keeps in_step) (enable : Rest unit).
Proof.
  unfold enable. rel_auto. intros s [Hok Hd]. unfold in_step. pose proof (warm_up_law (re_http_session s) Hok) as [W1 W2]. destruct (http_warm_up (re_http_session s)) as [b h]. cbn in *. by rewrite W2.
Qed.
#[local] Hint Resolve enable_in_step : frame.
Lemma control_in_step command : rel (keeps in_step) (handle_control_command command : Rest unit).
Proof. unfold handle_control_command, disable. rel_auto. Qed.
#[local] Hint Resolve control_in_step : frame.
Lemma control_loop_in_step fuel : rel (keeps in_step) (control_loop fuel : Rest unit).
Proof. induction fuel as [|fuel IH]; cbn [control_loop]; rel_auto. apply same_in_step. intros s. unfold pop_control. by destruct (re_control_to_order_rest_queue s). Qed.
#[local] Hint Resolve control_loop_in_step : frame.

(** A request that was accepted is put on file. *)
Lemma start_in_step {A} request (k : HttpStartResult → Rest A) Φ s : in_step s →
  (∀ r s', r ≠ kSTART_ACCEPTED → in_step s' → wp (k r) Φ s') →
  (∀ s', http_ok (re_http_session s') → hq_request_id request ∉ dom (re_inflight_requests s') →
     http_ids (re_http_session s') = {[hq_request_id request]} ∪ dom (re_inflight_requests s') → wp (k kSTART_ACCEPTED) Φ s') →
  wp (http_start request ≫= k) Φ s.
Proof.
  intros [Hok Hd] Hno Hyes. wp_step. unfold wp at 1, http_start. pose proof (start_law request (re_http_session s) Hok) as [S1 S2]. destruct (http_start_request request (re_http_session s)) as [r h]. cbn [fst snd] in *.
  case_bool_decide as Er.
  - subst r. destruct S2 as [S2 S3]. apply Hyes; cbn; [done|by rewrite Hd|by rewrite Hd].
  - apply Hno; [done|]. split; cbn; [done|congruence].
Qed.
Lemma file_in_step id request s : http_ok (re_http_session s) → id ∉ dom (re_inflight_requests s) → http_ids (re_http_session s) = {[id]} ∪ dom (re_inflight_requests s) →
  in_step (file_inflight id request s).2.
Proof.
  intros Hok Hnew Hids. split; [done|]. cbn. unfold emplace. apply not_elem_of_dom in Hnew as Hnew'. rewrite Hnew', dom_insert_L. done.
Qed.

Lemma start_portfolio_in_step prepared : rel (keeps in_step) (start_portfolio_request clk prepared : Rest bool).
Proof.
  unfold start_portfolio_request. destruct (negb (pp_ok prepared)); [rel_auto|]. apply rel_bind; [exact _|rel_auto|intros inflight]. destruct (_ <=? _)%nat; [rel_auto|].
  intros s Hs. apply (start_in_step _ _ (λ _ s', in_step s') s Hs).
  - intros r s' Hr Hs'. rewrite bool_decide_eq_false_2 by done. cbn [negb]. eapply in_step_keeps; [|exact Hs'|auto]. rel_auto.
  - intros s' Hok Hnew Hids. rewrite bool_decide_eq_true_2 by done. cbn [negb]. wp_step. unfold wp at 1. eapply in_step_keeps; [|by apply file_in_step|auto]. rel_auto.
Qed.
#[local] Hint Resolve start_portfolio_in_step : frame.
Lemma reconcile_in_step command : rel (keeps in_step) (handle_portfolio_reconciliation clk command : Rest unit).
Proof. unfold handle_portfolio_reconciliation. rel_auto. Qed.
#[local] Hint Resolve reconcile_in_step : frame.
Lemma complete_portfolio_in_step prepared response : rel (keeps in_step) (complete_portfolio_request clk prepared response : Rest unit).
Proof. unfold complete_portfolio_request. rel_auto. Qed.
#[local] Hint Resolve complete_portfolio_in_step : frame.
Lemma send_order_in_step command : rel (keeps in_step) (send_order_command clk command : Rest unit).
Proof.
  unfold send_order_command. do 2 (apply rel_bind; [exact _|rel_auto|intros ?]). cbv zeta. destruct (negb _); [rel_auto|]. destruct (negb _); [rel_auto|].
  apply rel_bind; [exact _|rel_auto|intros duplicate]. destruct duplicate; [rel_auto|]. intros s Hs. apply (start_in_step _ _ (λ _ s', in_step s') s Hs).
  - intros r s' Hr Hs'. destruct r; [done|..]; (eapply in_step_keeps; [|exact Hs'|auto]; rel_auto).
  - intros s' Hok Hnew Hids. wp_step. unfold wp at 1. eapply in_step_keeps; [|by apply file_in_step|auto]. rel_auto.
Qed.
#[local] Hint Resolve send_order_in_step : frame.
Lemma oms_command_in_step command : rel (keeps in_step) (handle_oms_command clk command : Rest unit).
Proof. unfold handle_oms_command. rel_auto. Qed.
#[local] Hint Resolve oms_command_in_step : frame.
Lemma oms_loop_in_step fuel : rel (keeps in_step) (oms_loop clk fuel : Rest unit).
Proof. induction fuel as [|fuel IH]; cbn [oms_loop]; rel_auto. apply same_in_step. intros s. unfold pop_oms. by destruct (re_oms_to_order_rest_queue s). Qed.
#[local] Hint Resolve oms_loop_in_step : frame.

(** A response is always that of a request on file. *)
Lemma poll_finds s response : in_step s → hp_response (http_poll (re_http_session s)).1 = Some response → is_Some (re_inflight_requests s !! hs_request_id response).
Proof. intros [Hok Hd] Er. pose proof (poll_law _ Hok) as [_ P]. rewrite Er in P. apply elem_of_dom. rewrite Hd. apply P. Qed.

Lemma receive_in_step fuel : rel (keeps in_step) (receive_http clk fuel : Rest unit).
Proof.
  induction fuel as [|fuel IH]; cbn [receive_http]; [rel_auto|]. intros s Hs. destruct Hs as [Hok Hd].
  match goal with |- in_step (?m s).2 => change (wp m (λ _ s', in_step s') s) end.
  wp_step. unfold wp at 1, http_poll_once. pose proof (poll_law _ Hok) as [P1 P2]. destruct (http_poll (re_http_session s)) as [r h]. cbn [fst snd] in *.
  destruct (hp_response r) as [response|].
  - destruct P2 as (P2 & P3 & P4). rewrite bool_decide_eq_true_2 by done. cbn [negb]. wp_step. unfold wp at 1, take_inflight. cbn [fst snd].
    set (s1 := s ⟪ _ := _ ⟫ ⟪ _ ::= _ ⟫). assert (in_step s1) as Hs1 by (split; [done|]; cbn; rewrite dom_delete_L, Hd; by rewrite P4).
    eapply in_step_keeps; [|exact Hs1|auto]. rel_auto.
  - destruct P2 as [P2 P3]. rewrite bool_decide_eq_false_2 by done. cbn [negb]. wp_step. split; cbn; [done|congruence].
Qed.
#[local] Hint Resolve receive_in_step : frame.
Lemma run_once_in_step : rel (keeps in_step) (run_once clk : Rest unit).
Proof. unfold run_once, drain_control_commands, drain_oms_commands. rel_auto. Qed.

Lemma rounds_in_step inputs s : in_step s → in_step (rounds clk inputs s).
Proof.
  revert s. induction inputs as [|i inputs IH]; intros s Hs; [done|]. cbn [rounds foldl]. apply IH. unfold round. apply run_once_in_step. exact Hs.
Qed.
End InStep.

(** ** The HTTP session keeps its laws *)

Import Config App Signing Http2.

Section Implementation.
Context {E : Type} {LC : Libcurl E}.
Variable clk wall_clk : nat → Z.
(** The signature of a text by a key: the signer does not fail. *)
Variable sign : string → string → string.
#[local] Instance signer : Rsa := {| rsa_sign key text := inr (sign key text) |}.

#[export] Instance http2_session : HttpSession (Http2State (E := E)) := {|
  http_warm_up := warm_up;
  http_start_request request s := match start_request clk wall_clk request s with (inr r, s') => (r, s') | (inl _, s') => (kSTART_ERROR, s') end;
  http_poll := poll clk;
  http_last_error := h2_last_error;
|}.
(** No exception is swallowed there: with this signer none is thrown. *)
Lemma signer_does_not_throw request s error : (start_request clk wall_clk request s).1 ≠ inl error.
Proof.
  assert (∀ {A} (m : M (Http2State (E := E)) A) Φ s, (∀ a s', Φ a s') → wp m Φ s) as any by (intros; unfold wp; auto).
  change (wp (start_request clk wall_clk request) (λ r _, r ≠ inl error) s). unfold start_request, sign_request. do 2 wp_step. cbv beta.
  repeat (match goal with |- wp (if ?b then _ else _) _ _ => destruct b; [by wp_step|] end).
  wp_step. apply any. intros now s1. cbv beta. wp_step. apply any. intros [] s2; cbn [negb]; [|by wp_step].
  destruct (hq_authenticate request); wp_steps; [match goal with |- wp (match ?e with _ => _ end) _ _ => destruct e eqn:Ee; [discriminate Ee|] end; wp_step|].
  all: apply any; intros [] s3; cbn [negb]; [|by wp_step]; wp_step; apply any; intros r s4; by wp_step.
Qed.

#[export] Program Instance http2_laws : HttpSessionLaws (Http2State (E := E)) := {|
  http_ok := Http2Account.session_ok;
  http_ids := Http2Account.ids;
|}.
Next Obligation. intros h Ho. destruct (Http2Account.warm_up_outcome h Ho) as (_ & H1 & H2). by split. Qed.
Next Obligation.
  intros request h Ho. cbn [http_start_request http2_session]. pose proof (Http2Account.start_outcome clk wall_clk request h Ho) as (_ & H1 & H2).
  destruct (start_request clk wall_clk request h) as [[error|r] s'] eqn:Es; cbn [fst snd] in *; (split; [done|]).
  - destruct H2 as [[H2 _]|[_ H2]]; [done|]. by rewrite bool_decide_eq_false_2.
  - destruct H2 as [(H2 & H3 & _ & H4)|[H2 H3]]; [injection H2 as ->; by rewrite bool_decide_eq_true_2|]. rewrite bool_decide_eq_false_2; [done|congruence].
Qed.
Next Obligation.
  intros h Ho. cbn [http_poll http2_session]. pose proof (Http2Account.poll_outcome clk h Ho) as (_ & H1 & H2). split; [done|]. destruct (hp_response _); [done|]. destruct H2 as [-> ->]. split; [|done]. by case_bool_decide.
Qed.

Context {Q : Type → Type} `{HQ : PushQueue Q} `{!NlohmannJson}.

(** C38: the REST session and the HTTP session are in step.  In any run of the REST session over
    this HTTP session, whatever libcurl, the venue and the OMS do: the requests that the REST
    session has on file are exactly those that the HTTP session has in flight, and the next
    response that the HTTP session hands out is to one of them.  So the REST session never
    faults for a response that it cannot place, and no request is refused for an id that the
    other session still uses. *)
Theorem rest_and_http_in_step rest_clk env credentials config adapter from_control (to_control : Q OrderRestToControlStatus) from_oms to_oms inputs :
  dom (re_inflight_requests (rounds rest_clk inputs (make_rest_session rest_clk (make_http2_session env credentials config) adapter from_control to_control from_oms to_oms))) =
    Http2Account.ids (re_http_session (rounds rest_clk inputs (make_rest_session rest_clk (make_http2_session env credentials config) adapter from_control to_control from_oms to_oms))) ∧
  ∀ response,
    hp_response (poll clk (re_http_session (rounds rest_clk inputs (make_rest_session rest_clk (make_http2_session env credentials config) adapter from_control to_control from_oms to_oms)))).1 = Some response →
    is_Some (re_inflight_requests (rounds rest_clk inputs (make_rest_session rest_clk (make_http2_session env credentials config) adapter from_control to_control from_oms to_oms)) !! hs_request_id response).
Proof.
  assert (in_step (rounds rest_clk inputs (make_rest_session rest_clk (make_http2_session env credentials config) adapter from_control to_control from_oms to_oms))) as Hs.
  { apply rounds_in_step. split; [apply Http2Account.make_ok|done]. }
  split; [apply Hs|]. intros response Hr. by apply poll_finds.
Qed.
End Implementation.
End RestHttp.
