(* ===== verification/WebSocketSession.v ===== *)
(** * WebSocketSession: the websocket transport over Boost.Beast

    Models [cpp/src/exchange/kalshi/websocket_session.cpp] and its header: the connection, the
    one read and the one write that are outstanding, the messages that wait to be written, and
    the handlers that [io_context] runs.  Asio, Beast and OpenSSL are the class [Beast] over a
    state of their own: [beast_call] is a call that returns at once with an error or none,
    [async_read] and [async_write] start an operation, and [io_poll_one] and [io_run_one] are the
    next handler that the event loop runs, without waiting and waiting.  [BeastLaws] states what
    Asio documents: an operation has its handler run once, after it was started, and [run_one]
    runs none only if nothing is outstanding.

    [assert] is kept: an assertion that does not hold is recorded in [ww_failed_assertions], and
    the method goes on as it does in a build without assertions. *)

From S2P Require Import Prelude WireTypes Wire OrderParser OrderSession Config OperatorJson Signing.
From Stdlib Require Import Ascii String.
From stdpp Require Import strings list.
Open Scope Z_scope.

(** ** Asio, Beast and OpenSSL *)

Inductive BeastCall :=
  | BcDefaultVerifyPaths
  | BcNewStream
  | BcResolve (host port : string)
  | BcExpires (after : option Z)
  | BcConnect
  | BcSetSni (host : string)
  | BcSetHost (host : string)
  | BcSslError
  | BcTlsHandshake
  | BcDecorate (headers : list (string * string))
  | BcWsHandshake (host target : string)
  | BcText
  | BcCancel
  | BcShutdown
  | BcClose
  | BcRestart.

(** What a handler of the event loop is: that of the read, with its error (and whether it says
    that the connection was closed) and the bytes that were read, that of the write, or one of
    Asio's own, in which a ping may be found. *)
Inductive Completion :=
  | ReadDone (error : option (bool * string)) (bytes : list Z)
  | WriteDone (error : option string)
  | OtherHandler (ping : bool).

Class Beast (E : Type) := {
  beast_call : BeastCall → E → option string * E;
  socket_is_open : E → bool;
  async_read : E → E;
  async_write : string → E → E;
  io_stopped : E → bool;
  io_poll_one : E → option Completion * E;
  io_run_one : E → option Completion * E;
  (** How many handlers a call of [poll] runs at most. *)
  io_turn : E → nat;
  (** How many handlers are left to run, once nothing new is started. *)
  io_work : E → nat;
  (** What is outstanding, and the messages that [async_write] was given. *)
  io_reading : E → bool;
  io_writing : E → option string;
  io_written : E → list string;
}.

(** What a handler says of the operations that are outstanding before and after it. *)
Definition handler_effect {E} `{Beast E} (c : Completion) (e e' : E) : Prop :=
  io_written e' = io_written e ∧
  match c with
  | ReadDone _ _ => io_reading e = true ∧ io_reading e' = false ∧ io_writing e' = io_writing e
  | WriteDone _ => is_Some (io_writing e) ∧ io_writing e' = None ∧ io_reading e' = io_reading e
  | OtherHandler _ => io_reading e' = io_reading e ∧ io_writing e' = io_writing e
  end.
Definition outstanding {E} `{Beast E} (e : E) : bool * option string * list string := (io_reading e, io_writing e, io_written e).

Class BeastLaws (E : Type) `{Beast E} : Prop := {
  call_outstanding : ∀ c e, outstanding (beast_call c e).2 = outstanding e;
  restart_not_stopped : ∀ e, io_stopped (beast_call BcRestart e).2 = false;
  read_outstanding : ∀ e, outstanding (async_read e) = (true, io_writing e, io_written e);
  write_outstanding : ∀ m e, outstanding (async_write m e) = (io_reading e, Some m, io_written e ++ [m]);
  poll_handler : ∀ e c e', io_poll_one e = (Some c, e') → handler_effect c e e';
  poll_none : ∀ e e', io_poll_one e = (None, e') → outstanding e' = outstanding e;
  run_handler_effect : ∀ e c e', io_run_one e = (Some c, e') → handler_effect c e e';
  run_handler_work : ∀ e c e', io_run_one e = (Some c, e') → (io_work e' < io_work e)%nat;
  (** The loop stops only when it is out of work, and then [run_one] runs no handler. *)
  run_handler_goes_on : ∀ e c e', io_run_one e = (Some c, e') → io_reading e' = true ∨ is_Some (io_writing e') → io_stopped e' = false;
  run_none : ∀ e e', io_run_one e = (None, e') → io_stopped e = false → io_reading e = false ∧ io_writing e = None ∧ outstanding e' = outstanding e;
}.

Module WebSocketSession.
Import Config Signing.

(** ** Endpoints *)

Record EndpointParts := mkEndpointParts { ep_scheme : string; ep_host : string; ep_port : string; ep_target : string }.

Definition lower_character (c : ascii) : ascii :=
  let n := nat_of_ascii c in if (65 <=? n)%nat && (n <=? 90)%nat then ascii_of_nat (n + 32) else c.
Fixpoint to_lower (text : string) : string :=
  match text with EmptyString => EmptyString | String c rest => String (lower_character c) (to_lower rest) end.

Definition is_default_port (scheme port : string) : bool :=
  (String.eqb scheme "wss" && String.eqb port "443") || (String.eqb scheme "ws" && String.eqb port "80").

(** [text.substr(first)]. *)
Definition substr_from (first : nat) (text : string) : string := String.substring first (String.length text - first) text.
(** [text.rfind(c)]. *)
Fixpoint rfind (c : ascii) (text : string) : option nat :=
  match text with
  | EmptyString => None
  | String d rest => match rfind c rest with Some i => Some (S i) | None => if Ascii.eqb d c then Some 0%nat else None end
  end.

(** The host and the port of an authority that is not empty. *)
Definition parse_authority (authority : string) : string + (string * string) :=
  match String.get 0 authority with
  | Some "["%char =>
      match String.index 0 "]" authority with
      | None => inl "Malformed IPv6 host in endpoint"%string
      | Some bracket_end =>
          let host := String.substring 1 (bracket_end - 1) authority in
          if (bracket_end + 1 <? String.length authority)%nat then
            match String.get (bracket_end + 1) authority with
            | Some ":"%char => inr (host, substr_from (bracket_end + 2) authority)
            | _ => inl "Malformed port in endpoint authority"%string
            end
          else inr (host, ""%string)
      end
  | _ =>
      match rfind ":" authority with
      | Some colon =>
          if bool_decide (String.index 0 ":" authority = Some colon) then inr (String.substring 0 colon authority, substr_from (colon + 1) authority)
          else inr (authority, ""%string)
      | None => inr (authority, ""%string)
      end
  end.

Definition parse_ws_endpoint (endpoint : string) : string + EndpointParts :=
  if String.eqb endpoint "" then inl "Websocket endpoint is empty"%string
  else
    match String.index 0 "://" endpoint with
    | None => inl "Websocket endpoint must include a scheme (ws:// or wss://)"%string
    | Some scheme_pos =>
        let scheme := to_lower (String.substring 0 scheme_pos endpoint) in
        if negb (String.eqb scheme "ws") && negb (String.eqb scheme "wss") then inl ("Unsupported websocket scheme: " +:+ scheme)%string
        else
          let host_pos := (scheme_pos + 3)%nat in
          if (String.length endpoint <=? host_pos)%nat then inl "Websocket endpoint missing host"%string
          else
            let path_pos := String.index host_pos "/" endpoint in
            let authority := match path_pos with None => substr_from host_pos endpoint | Some p => String.substring host_pos (p - host_pos) endpoint end in
            let target := match path_pos with None => "/"%string | Some p => substr_from p endpoint end in
            if String.eqb authority "" then inl "Websocket endpoint authority is empty"%string
            else
              match parse_authority authority with
              | inl error => inl error
              | inr (host, port) => inr (mkEndpointParts scheme host (if String.eqb port "" then (if String.eqb scheme "wss" then "443" else "80") else port)%string target)
              end
    end.

(** ** The session *)

Inductive TransportState := | kDISCONNECTED | kRUNNING | kSTOPPED | kFAULTED.
#[export] Instance TransportState_eq_dec : EqDecision TransportState.
Proof. solve_decision. Defined.
Inductive ReadState := | kREAD_IDLE | kREAD_OUTSTANDING | kMESSAGE_READY.
#[export] Instance ReadState_eq_dec : EqDecision ReadState.
Proof. solve_decision. Defined.

(** [kConnectTimeout], in seconds. *)
Definition kConnectTimeout : Z := 2.

Section Session.
Context {E : Type} {BE : Beast E}.
Variable clk : nat → Z.
Variable wall_clk : nat → Z.
(** [adapter_.build_connect_request()], which may throw. *)
Variable adapter : Z → Result WsConnectRequest.

Record WebSocketState := mkWebSocketState {
  ww_env : E;
  ww_connect_request : WsConnectRequest;
  ww_last_error : string;
  ww_last_ping_recv_ns : Z;
  ww_endpoint : EndpointParts;
  ww_stream : bool;
  ww_state : TransportState;
  ww_read_state : ReadState;
  ww_read_buffer : list Z;
  ww_active_write : option string;
  ww_pending_writes : list string;
  ww_queued_write_bytes : Z;
  ww_clock_reads : nat;
  ww_failed_assertions : list string;
}.
#[export] Instance eta_WebSocketState : Eta WebSocketState := λ r,
  mkWebSocketState (ww_env r) (ww_connect_request r) (ww_last_error r) (ww_last_ping_recv_ns r) (ww_endpoint r) (ww_stream r) (ww_state r) (ww_read_state r)
    (ww_read_buffer r) (ww_active_write r) (ww_pending_writes r) (ww_queued_write_bytes r) (ww_clock_reads r) (ww_failed_assertions r).
#[local] Abbreviation WS := (M WebSocketState).

Definition call (c : BeastCall) : WS (option string) := λ s, let '(r, e) := beast_call c (ww_env s) in (r, s ⟪ ww_env := e ⟫).
Definition call_ (c : BeastCall) : WS unit := call c;; mret tt.
Definition set_last_error (text : string) : WS unit := modify (λ s, s ⟪ ww_last_error := text ⟫).
Definition assertion (holds : WebSocketState → bool) (text : string) : WS unit := modify (λ s, if holds s then s else s ⟪ ww_failed_assertions ::= λ l, l ++ [text] ⟫).
Definition steady_now_ns : WS Z := λ s, (u64 (clk (ww_clock_reads s)), s ⟪ ww_clock_reads ::= S ⟫).
Definition message_size (message : string) : Z := Z.of_nat (String.length message).

Definition make_websocket_session (env : E) : WebSocketState :=
  let '(error, e) := beast_call BcDefaultVerifyPaths env in
  mkWebSocketState e (mkWsConnectRequest "" []) (match error with None => ""%string | Some text => "Failed to load default TLS CA paths: " +:+ text end)%string 0
    (mkEndpointParts "" "" "" "") true kDISCONNECTED kREAD_IDLE [] None [] 0 0 [].

(** [if (io_context_.stopped()) io_context_.restart()]. *)
Definition restart_if_stopped : WS unit := stopped ← gets (io_stopped ∘ ww_env); if (stopped : bool) then call_ BcRestart else mret tt.

(** The messages that wait are dropped, each taken off the count of bytes. *)
Definition drop_pending : WS unit := modify (λ s, s ⟪ ww_queued_write_bytes := foldl (λ q message, u64 (q - message_size message)) (ww_queued_write_bytes s) (ww_pending_writes s) ⟫ ⟪ ww_pending_writes := [] ⟫).
Definition clear_read_buffer : WS unit := modify (λ s, s ⟪ ww_read_buffer := [] ⟫).

Definition transition_fault (operation text : string) : WS unit :=
  state ← gets ww_state;
  if bool_decide (state = kFAULTED) || bool_decide (state = kSTOPPED) then mret tt
  else
    set_last_error (operation +:+ " failed: " +:+ text)%string;;
    modify (λ s, s ⟪ ww_state := kFAULTED ⟫);;
    drop_pending;;
    call_ BcCancel;; call_ BcShutdown;; call_ BcClose.

(** ** Reading *)

Definition arm_read : WS unit :=
  assertion (λ s, bool_decide (ww_read_state s = kREAD_IDLE)) "arm_read: read_state_ == kIDLE";;
  assertion (λ s, bool_decide (ww_state s = kRUNNING)) "arm_read: state_ == kRUNNING";;
  assertion (λ s, bool_decide (ww_read_buffer s = [])) "arm_read: read_buffer_.size() == 0";;
  restart_if_stopped;;
  modify (λ s, s ⟪ ww_read_state := kREAD_OUTSTANDING ⟫);;
  modify (λ s, s ⟪ ww_env ::= async_read ⟫).

(** The handler of the read; the bytes that were read are in the buffer. *)
Definition on_read (error : option (bool * string)) (bytes : list Z) : WS unit :=
  modify (λ s, s ⟪ ww_read_buffer ::= λ b, b ++ bytes ⟫);;
  assertion (λ s, bool_decide (ww_read_state s = kREAD_OUTSTANDING)) "on_read: read_state_ == kPENDING";;
  state ← gets ww_state;
  if bool_decide (state = kSTOPPED) || bool_decide (state = kFAULTED) then modify (λ s, s ⟪ ww_read_state := kREAD_IDLE ⟫);; clear_read_buffer
  else
    match error with
    | Some (closed, text) =>
        modify (λ s, s ⟪ ww_read_state := kREAD_IDLE ⟫);;
        if (closed : bool) then modify (λ s, s ⟪ ww_state := kDISCONNECTED ⟫);; clear_read_buffer
        else transition_fault "async_read" text
    | None => modify (λ s, s ⟪ ww_read_state := kMESSAGE_READY ⟫)
    end.

Definition recv_text : WS ReadResult :=
  s ← gets id;
  if bool_decide (ww_state s = kFAULTED) then mret (mkReadResult kREAD_ERROR [])
  else if bool_decide (ww_state s = kDISCONNECTED) || bool_decide (ww_state s = kSTOPPED) then mret (mkReadResult kREAD_CLOSED [])
  else if negb (bool_decide (ww_read_state s = kMESSAGE_READY)) then mret (mkReadResult kREAD_PENDING [])
  else mret (mkReadResult kREAD_MESSAGE (ww_read_buffer s)).

Definition consume_message : WS unit :=
  assertion (λ s, bool_decide (ww_state s = kRUNNING)) "consume_message: state_ == kRUNNING";;
  assertion (λ s, bool_decide (ww_read_state s = kMESSAGE_READY)) "consume_message: read_state_ == kMESSAGE_READY";;
  clear_read_buffer;;
  modify (λ s, s ⟪ ww_read_state := kREAD_IDLE ⟫);;
  arm_read.

(** ** Writing *)

Definition start_active_write : WS unit :=
  assertion (λ s, bool_decide (ww_state s = kRUNNING)) "start_active_write: state_ == kRUNNING";;
  assertion (λ s, bool_decide (is_Some (ww_active_write s))) "start_active_write: active_write_";;
  restart_if_stopped;;
  modify (λ s, s ⟪ ww_env ::= async_write (default ""%string (ww_active_write s)) ⟫).

(** The active write is over. *)
Definition end_active_write : WS unit :=
  modify (λ s, s ⟪ ww_queued_write_bytes ::= λ q, u64 (q - message_size (default ""%string (ww_active_write s))) ⟫ ⟪ ww_active_write := None ⟫).

(** The handler of the write. *)
Definition on_write (error : option string) : WS unit :=
  assertion (λ s, bool_decide (is_Some (ww_active_write s))) "on_write: active_write_";;
  state ← gets ww_state;
  if bool_decide (state = kSTOPPED) || bool_decide (state = kFAULTED) then end_active_write
  else
    match error with
    | Some text => end_active_write;; transition_fault "async_write" text
    | None =>
        end_active_write;;
        pending ← gets ww_pending_writes;
        match pending with
        | [] => mret tt
        | message :: rest => modify (λ s, s ⟪ ww_active_write := Some message ⟫ ⟪ ww_pending_writes := rest ⟫);; start_active_write
        end
    end.

Definition send_text (message : string) : WS SendStatus :=
  state ← gets ww_state;
  if bool_decide (state = kFAULTED) then mret kSEND_ERROR
  else if negb (bool_decide (state = kRUNNING)) then mret kSEND_CLOSED
  else
    modify (λ s, s ⟪ ww_queued_write_bytes ::= λ q, u64 (q + message_size message) ⟫);;
    active ← gets ww_active_write;
    match active with
    | None => modify (λ s, s ⟪ ww_active_write := Some message ⟫);; start_active_write;; mret kSEND_ACCEPTED
    | Some _ => modify (λ s, s ⟪ ww_pending_writes ::= λ l, l ++ [message] ⟫);; mret kSEND_ACCEPTED
    end.

(** ** The event loop *)

Definition run_handler (c : Completion) : WS unit :=
  match c with
  | ReadDone error bytes => on_read error bytes
  | WriteDone error => on_write error
  | OtherHandler ping => if (ping : bool) then now ← steady_now_ns; modify (λ s, s ⟪ ww_last_ping_recv_ns := now ⟫) else mret tt
  end.
Definition io_one (next : E → option Completion * E) : WS (option Completion) := λ s, let '(c, e) := next (ww_env s) in (c, s ⟪ ww_env := e ⟫).

Fixpoint poll_loop (fuel : nat) (handlers : Z) : WS Z :=
  match fuel with
  | O => mret handlers
  | S fuel =>
      c ← io_one io_poll_one;
      match c with None => mret handlers | Some c => run_handler c;; poll_loop fuel (handlers + 1) end
  end.
Definition poll : WS Z := restart_if_stopped;; turn ← gets (io_turn ∘ ww_env); poll_loop turn 0.

(** ** Closing and connecting *)

Fixpoint close_loop (fuel : nat) : WS unit :=
  match fuel with
  | O => mret tt
  | S fuel =>
      s ← gets id;
      if bool_decide (ww_read_state s = kREAD_OUTSTANDING) || bool_decide (is_Some (ww_active_write s)) then
        c ← io_one io_run_one;
        match c with None => mret tt | Some c => run_handler c;; close_loop fuel end
      else mret tt
  end.

Definition close : WS unit :=
  stream ← gets ww_stream;
  if negb stream then modify (λ s, s ⟪ ww_state := kDISCONNECTED ⟫)
  else
    modify (λ s, s ⟪ ww_state := kSTOPPED ⟫);;
    drop_pending;;
    call_ (BcExpires None);;
    is_open ← gets (socket_is_open ∘ ww_env);
    (if (is_open : bool) then call_ BcCancel;; call_ BcShutdown;; call_ BcClose else mret tt);;
    restart_if_stopped;;
    work ← gets (io_work ∘ ww_env);
    close_loop (S work);;
    assertion (λ s, negb (bool_decide (ww_read_state s = kREAD_OUTSTANDING))) "close: read_state_ != kPENDING";;
    assertion (λ s, bool_decide (ww_active_write s = None)) "close: !active_write_";;
    modify (λ s, s ⟪ ww_read_buffer := [] ⟫ ⟪ ww_pending_writes := [] ⟫ ⟪ ww_queued_write_bytes := 0 ⟫ ⟪ ww_state := kDISCONNECTED ⟫ ⟪ ww_read_state := kREAD_IDLE ⟫).

Definition reset_stream : WS unit :=
  assertion (λ s, negb (bool_decide (ww_read_state s = kREAD_OUTSTANDING))) "reset_stream: read_state_ != kPENDING";;
  assertion (λ s, bool_decide (ww_active_write s = None)) "reset_stream: !active_write_";;
  call_ BcNewStream;;
  modify (λ s, s ⟪ ww_stream := true ⟫ ⟪ ww_read_buffer := [] ⟫ ⟪ ww_pending_writes := [] ⟫ ⟪ ww_queued_write_bytes := 0 ⟫ ⟪ ww_read_state := kREAD_IDLE ⟫
    ⟪ ww_state := kDISCONNECTED ⟫ ⟪ ww_last_ping_recv_ns := 0 ⟫).

Definition refuse (text : string) : WS bool := set_last_error text;; mret false.
Definition openssl_error_message (context : string) : WS string :=
  code ← call BcSslError; mret (match code with None => context | Some text => context +:+ ": " +:+ text end)%string.

(** The websocket handshake and the first read. *)
Definition connect_websocket : WS bool :=
  s ← gets id;
  call_ (BcDecorate (("User-Agent"%string, "PredEx/1.0"%string) :: wc_headers (ww_connect_request s)));;
  let endpoint := ww_endpoint s in
  let handshake_host := (if is_default_port (ep_scheme endpoint) (ep_port endpoint) then ep_host endpoint else ep_host endpoint +:+ ":" +:+ ep_port endpoint)%string in
  call_ (BcExpires (Some kConnectTimeout));;
  error ← call (BcWsHandshake handshake_host (ep_target endpoint));
  call_ (BcExpires None);;
  match error with
  | Some text => refuse ("Websocket handshake failed: " +:+ text)%string
  | None =>
      call_ BcText;;
      now ← steady_now_ns;
      modify (λ s, s ⟪ ww_last_ping_recv_ns := now ⟫);;
      modify (λ s, s ⟪ ww_state := kRUNNING ⟫ ⟪ ww_read_state := kREAD_IDLE ⟫);;
      arm_read;;
      mret true
  end.

(** The connection and its encryption. *)
Definition connect_stream : WS bool :=
  endpoint ← gets ww_endpoint;
  resolved ← call (BcResolve (ep_host endpoint) (ep_port endpoint));
  match resolved with Some text => refuse ("Failed to resolve websocket host: " +:+ text)%string | None =>
  call_ (BcExpires (Some kConnectTimeout));;
  connected ← call BcConnect;
  match connected with Some text => call_ (BcExpires None);; refuse ("Failed to connect to websocket host: " +:+ text)%string | None =>
  call_ (BcExpires None);;
  sni ← call (BcSetSni (ep_host endpoint));
  match sni with Some _ => text ← openssl_error_message "Failed to set SNI hostname for TLS connection"; refuse text | None =>
  host ← call (BcSetHost (ep_host endpoint));
  match host with Some _ => text ← openssl_error_message "Failed to set hostname for TLS connection"; refuse text | None =>
  call_ (BcExpires (Some kConnectTimeout));;
  handshake ← call BcTlsHandshake;
  match handshake with Some text => call_ (BcExpires None);; refuse ("TLS handshake failed: " +:+ text)%string | None =>
  connect_websocket
  end end end end end.

Definition connect : WS (Result bool) :=
  close;;
  reset_stream;;
  set_last_error "";;
  reads ← gets ww_clock_reads;
  modify (λ s, s ⟪ ww_clock_reads ::= S ⟫);;
  match adapter (wall_clk reads) with
  | inl error => mret (inl error)
  | inr request =>
      modify (λ s, s ⟪ ww_connect_request := request ⟫);;
      match parse_ws_endpoint (wc_endpoint request) with
      | inl error => refused ← refuse error; mret (inr refused)
      | inr endpoint =>
          if negb (String.eqb (ep_scheme endpoint) "wss") then refused ← refuse "Only wss:// endpoints are supported right now"; mret (inr refused)
          else
            modify (λ s, s ⟪ ww_endpoint := endpoint ⟫);;
            connected ← connect_stream;
            mret (inr connected)
      end
  end.
End Session.
Arguments WebSocketState E : clear implicits.

(** ** The transport of the wire session and of the private feed *)

Section Interfaces.
Context {E : Type} `{Beast E}.
Variable clk wall_clk : nat → Z.
(** An adapter whose signer does not fail. *)
Variable adapter : Z → WsConnectRequest.
(** [json::dump], on text that it does not refuse. *)
Variable dump : OperatorJson.JsonTree → string.

Definition connected_session (s : WebSocketState E) : bool * WebSocketState E :=
  match connect clk wall_clk (λ now, inr (adapter now)) s with (inr r, s') => (r, s') | (inl _, s') => (false, s') end.

#[export] Instance market_web_socket : WebSocket (WebSocketState E) := {|
  ws_connect := connected_session;
  ws_send_text request := send_text (dump (market_message request));
  ws_poll := poll clk;
  ws_recv_text := recv_text;
  ws_consume_message s := (consume_message s).2;
  ws_close s := (close clk s).2;
  ws_last_error := ww_last_error;
|}.
#[export] Instance order_web_socket : OrderWebSocket (WebSocketState E) := {|
  ow_connect := connected_session;
  ow_send_text request := send_text (dump (order_message request));
  ow_poll := poll clk;
  ow_recv_text := recv_text;
  ow_consume_message s := (consume_message s).2;
  ow_close s := (close clk s).2;
  ow_last_error := ww_last_error;
|}.
End Interfaces.

Example market_endpoint : parse_ws_endpoint kWEBSOCKET_ENDPOINT = inr (mkEndpointParts "wss" "api.elections.kalshi.com" "443" "/trade-api/ws/v2").
Proof. vm_compute. reflexivity. Qed.
Example ipv6_endpoint : parse_ws_endpoint "WSS://[::1]:8443/x" = inr (mkEndpointParts "wss" "::1" "8443" "/x").
Proof. vm_compute. reflexivity. Qed.
Example bare_endpoint : parse_ws_endpoint "ws://host:81" = inr (mkEndpointParts "ws" "host" "81" "/").
Proof. vm_compute. reflexivity. Qed.
End WebSocketSession.
