(* ===== verification/WebSocketOrder.v ===== *)
(** * WebSocketOrder: the websocket session writes its messages in order

    In any use of the session the messages that it has accepted since it was connected are those
    that it has given to Beast, in the order they came, then those that wait; at most one read and
    one write are outstanding; closing waits for both and leaves nothing behind.

    At the end, Module [WebSocketDemo]: the websocket session on a network that follows a script. *)

From S2P Require Import Prelude WireTypes Config Signing WebSocketSession.
Open Scope Z_scope.

Module WebSocketOrder.
Import Config Signing WebSocketSession.

Section Order.
Context {E : Type} {BE : Beast E} {BL : BeastLaws E}.
Variable clk wall_clk : nat → Z.
Variable adapter : Z → Result WsConnectRequest.
Implicit Types s : WebSocketState E.

(** ** The invariant *)

Definition bytes (l : list string) : Z := foldr (λ m n, message_size m + n) 0 l.
Definition active_bytes s : Z := from_option message_size 0 (ww_active_write s).

(** The assertion of [start_active_write] that a late write breaks. *)
Definition late_write : string := "start_active_write: state_ == kRUNNING".

Record Inv s : Prop := {
  wi_bytes : ww_queued_write_bytes s = u64 (active_bytes s + bytes (ww_pending_writes s));
  wi_read : io_reading (ww_env s) = bool_decide (ww_read_state s = kREAD_OUTSTANDING);
  wi_write : io_writing (ww_env s) = ww_active_write s;
  wi_pending : ww_active_write s = None → ww_pending_writes s = [];
  wi_over : ww_state s = kSTOPPED ∨ ww_state s = kFAULTED → ww_pending_writes s = [];
  wi_stream : ww_stream s = true;
  wi_failed : Forall (λ a, a = late_write) (ww_failed_assertions s);
}.

Definition core s := (outstanding (ww_env s), (ww_state s, ww_read_state s, ww_read_buffer s), (ww_active_write s, ww_pending_writes s, ww_queued_write_bytes s), (ww_stream s, ww_failed_assertions s)).
Lemma core_inv s s' : core s' = core s → Inv s → Inv s'.
Proof. unfold core, outstanding. intros [= Er Ew El Es Ers Eb Ea Ep Eq Est Ef] [I1 I2 I3 I4 I5 I6 I7]. split; unfold active_bytes in *; rewrite ?Er, ?Ew, ?Es, ?Ers, ?Ea, ?Ep, ?Eq, ?Est, ?Ef; auto. Qed.

(** The messages given to Beast and those that wait. *)
Definition handed s : list string := io_written (ww_env s) ++ ww_pending_writes s.
(** A step drops messages only when the session faults. *)
Definition account s s' : Prop :=
  ∃ dropped, handed s = handed s' ++ dropped ∧ (ww_state s' ≠ kFAULTED → dropped = []) ∧ (ww_state s = kFAULTED → ww_state s' = kFAULTED) ∧
    (ww_state s = kSTOPPED → ww_state s' = kSTOPPED).
#[export] Instance account_preorder : PreOrder account.
Proof.
  split.
  - intros s. exists []. by rewrite app_nil_r.
  - intros s1 s2 s3 (d & H1 & H2 & H3 & H4) (d' & K1 & K2 & K3 & K4). exists (d' ++ d). split; [by rewrite H1, K1, <- app_assoc|]. split; [|split; auto].
    intros Hs. rewrite (K2 Hs), H2; [done|]. intros Hf. by apply Hs, K3.
Qed.

(** ** Assertions and calls *)

Lemma wp_assertion holds text Φ s : holds s = true → Φ tt s → wp (assertion holds text) Φ s.
Proof. intros H. unfold assertion. intros HΦ. wp_step. by rewrite H. Qed.

Lemma call_core c : rel (same core) (call c : M (WebSocketState E) _).
Proof. intros s. unfold same, core, call. pose proof (call_outstanding c (ww_env s)) as Ho. destruct (beast_call c (ww_env s)) as [r e]. cbn in *. by rewrite Ho. Qed.
#[local] Hint Resolve call_core : frame.
Lemma call__core c : rel (same core) (call_ c : M (WebSocketState E) unit).
Proof. unfold call_. rel_auto. Qed.
#[local] Hint Resolve call__core : frame.
Lemma error_core text : rel (same core) (set_last_error text : M (WebSocketState E) unit).
Proof. done. Qed.
#[local] Hint Resolve error_core : frame.
Lemma ws_now_core : rel (same core) (steady_now_ns clk : M (WebSocketState E) Z).
Proof. done. Qed.
#[local] Hint Resolve ws_now_core : frame.
Lemma restart_core : rel (same core) (restart_if_stopped : M (WebSocketState E) unit).
Proof. unfold restart_if_stopped. rel_auto. Qed.
#[local] Hint Resolve restart_core : frame.
Lemma refuse_core text : rel (same core) (refuse text : M (WebSocketState E) bool).
Proof. unfold refuse. rel_auto. Qed.
#[local] Hint Resolve refuse_core : frame.
Lemma ssl_core text : rel (same core) (openssl_error_message text : M (WebSocketState E) string).
Proof. unfold openssl_error_message. rel_auto. Qed.
#[local] Hint Resolve ssl_core : frame.

Lemma u64_sub a b : u64 (u64 a - b) = u64 (a - b).
Proof. unfold u64. apply Zminus_mod_idemp_l. Qed.
Lemma dropped_bytes a l : foldl (λ q message, u64 (q - message_size message)) (u64 (a + bytes l)) l = u64 a.
Proof.
  revert a. induction l as [|m l IH]; intros a; [cbn; f_equal; lia|]. cbn [foldl]. rewrite u64_sub. change (bytes (m :: l)) with (message_size m + bytes l).
  replace (a + (message_size m + bytes l) - message_size m) with (a + bytes l) by lia. apply IH.
Qed.

Lemma bytes_snoc l m : bytes (l ++ [m]) = bytes l + message_size m.
Proof. induction l as [|x l IH]; [cbn; lia|]. change (message_size x + bytes (l ++ [m]) = message_size x + bytes l + message_size m). lia. Qed.

Lemma fault_inv operation text s : Inv s → wp (transition_fault operation text) (λ _ s', Inv s' ∧ account s s') s.
Proof.
  intros I. unfold transition_fault. do 2 wp_step. destruct (bool_decide (_ = kFAULTED)) eqn:Ef; cbn [orb]; [wp_step; by split|].
  destruct (bool_decide (_ = kSTOPPED)) eqn:Es; [wp_step; by split|]. guards.
  wp_step. unfold set_last_error. do 3 wp_step. wp_step. unfold drop_pending. wp_step.
  match goal with |- wp _ _ ?x => set (s1 := x); assert (Inv s1 ∧ account s s1) as [I1 A1]; [|clearbody s1] end.
  { destruct I as [I1 I2 I3 I4 I5 I6 I7]. split.
    - split; cbn; try done. unfold active_bytes. cbn. rewrite I1, dropped_bytes. f_equal. unfold active_bytes. cbn. lia.
    - exists (ww_pending_writes s). unfold handed. cbn. rewrite app_nil_r. naive_solver. }
  eapply (wp_rel (same core)); [rel_auto|]. intros _ s2 E2. unfold same in E2. split; [by eapply core_inv|]. etrans; [exact A1|].
  exists []. unfold handed, core, outstanding in *. rewrite app_nil_r. injection E2. intros. repeat split; congruence.
Qed.

(** ** The handlers *)

(** The state in which the handler runs: the event loop has taken it off what is outstanding. *)
Definition taken (c : Completion) s s1 : Prop := ∃ e', handler_effect c (ww_env s) e' ∧ s1 = s ⟪ ww_env := e' ⟫.

Lemma read_inv error data s s1 : Inv s → taken (ReadDone error data) s s1 → wp (on_read error data) (λ _ s', Inv s' ∧ account s s') s1.
Proof.
  intros [I1 I2 I3 I4 I5 I6 I7] (e' & (Ew & R1 & R2 & W) & ->). unfold on_read. rewrite R1 in I2. symmetry in I2. apply bool_decide_eq_true in I2. do 2 wp_step. wp_step.
  apply wp_assertion; [cbn; by rewrite bool_decide_eq_true_2|]. do 2 wp_step. change (ww_state (s ⟪ _ := _ ⟫ ⟪ _ ::= _ ⟫)) with (ww_state s).
  assert (∀ s', io_reading (ww_env s') = false → ww_read_state s' ≠ kREAD_OUTSTANDING → (ww_state s' = ww_state s ∨ ww_state s' = kDISCONNECTED ∧ ww_state s ≠ kSTOPPED ∧ ww_state s ≠ kFAULTED) →
    (io_writing (ww_env s'), io_written (ww_env s'), ww_active_write s', ww_pending_writes s', ww_queued_write_bytes s', ww_stream s', ww_failed_assertions s') =
      (io_writing (ww_env s), io_written (ww_env s), ww_active_write s, ww_pending_writes s, ww_queued_write_bytes s, ww_stream s, ww_failed_assertions s) →
    Inv s' ∧ account s s') as Hend.
  { intros s' F1 F2 F3 [= G1 G2 G3 G4 G5 G6 G7]. split.
    - split; unfold active_bytes in *; rewrite ?G1, ?G3, ?G4, ?G5, ?G6, ?G7; [done| |done|done| |done|done].
      + rewrite F1. by rewrite bool_decide_eq_false_2.
      + destruct F3 as [->|(-> & _ & _)]; [done|]. by intros [].
    - exists []. unfold handed. rewrite G2, G4, app_nil_r. split; [done|]. split; [done|]. destruct F3 as [F3|(F3 & K1 & K2)]; [rewrite F3; auto|done]. }
  destruct (bool_decide (_ = kSTOPPED)) eqn:Es; [|destruct (bool_decide (_ = kFAULTED)) eqn:Ef]; cbn [orb].
  1, 2: do 2 wp_step; unfold clear_read_buffer; wp_step; apply Hend; cbn; [done|done|by left|congruence].
  guards. destruct error as [[closed text]|].
  - do 2 wp_step. destruct closed.
    + do 2 wp_step. unfold clear_read_buffer. wp_step. apply Hend; cbn; [done|done|by right|congruence].
    + match goal with |- wp _ _ ?x => destruct (Hend x) as [I A]; [done|done|by left|cbn; congruence|] end.
      eapply wp_mono; [by apply fault_inv|]. cbv beta. intros _ s' [I' A']. split; [done|]. by etrans.
  - wp_step. apply Hend; cbn; [done|done|by left|congruence].
Qed.

(** The next message is given to Beast. *)
Lemma start_write_inv m s : ww_active_write s = Some m → io_writing (ww_env s) = None → (ww_state s = kRUNNING ∨ ww_state s = kDISCONNECTED) →
  ww_queued_write_bytes s = u64 (message_size m + bytes (ww_pending_writes s)) → io_reading (ww_env s) = bool_decide (ww_read_state s = kREAD_OUTSTANDING) →
  ww_stream s = true → Forall (λ a, a = late_write) (ww_failed_assertions s) →
  wp start_active_write (λ _ s', Inv s' ∧ io_written (ww_env s') = io_written (ww_env s) ++ [m] ∧ ww_pending_writes s' = ww_pending_writes s ∧ ww_state s' = ww_state s) s.
Proof.
  intros Ha Hw Hs Hq Hr Hst Hf. unfold start_active_write, assertion. do 2 wp_step. wp_step.
  assert (∃ failed, (if bool_decide (ww_state s = kRUNNING) then s else s ⟪ ww_failed_assertions ::= λ l, l ++ [late_write] ⟫) = s ⟪ ww_failed_assertions := failed ⟫ ∧ Forall (λ a, a = late_write) failed) as (failed & Ef & Hff).
  { destruct (bool_decide (ww_state s = kRUNNING)); [exists (ww_failed_assertions s); split; [destruct s; reflexivity|done]|]. exists (ww_failed_assertions s ++ [late_write]). split; [done|]. apply Forall_app. split; [done|]. by apply Forall_singleton. }
  change "start_active_write: state_ == kRUNNING"%string with late_write. rewrite Ef. wp_step. wp_step. change (ww_active_write (s ⟪ _ := _ ⟫)) with (ww_active_write s). rewrite Ha. rewrite bool_decide_eq_true_2 by eauto.
  eapply (wp_rel (same core)); [apply restart_core|]. intros _ s2 E2. unfold same, core, outstanding in E2. cbn in E2. injection E2 as Fr Fw Fl Fs Frs Fb Fa Fp Fq Fst Ff. wp_step.
  rewrite Fa, Ha. cbn [default from_option id]. pose proof (write_outstanding m (ww_env s2)) as Ho. unfold outstanding in Ho. injection Ho as O1 O2 O3.
  split; [|cbn; rewrite O3, Fl; done]. split; unfold active_bytes; cbn; rewrite ?O1, ?O2, ?Fr, ?Frs, ?Fa, ?Fp, ?Fq, ?Ff, ?Fst, ?Ha; cbn; [done..| |done|done].
  rewrite Fs. destruct Hs as [->| ->]; by intros [].
Qed.

Lemma write_inv error s s1 : Inv s → taken (WriteDone error) s s1 → wp (on_write error) (λ _ s', Inv s' ∧ account s s') s1.
Proof.
  intros I (e' & (Ew & [m Hm] & W & R) & ->). pose proof (wi_write _ I) as Ha. rewrite Hm in Ha. symmetry in Ha.
  set (s2 := s ⟪ ww_env := e' ⟫ ⟪ ww_queued_write_bytes := u64 (bytes (ww_pending_writes s)) ⟫ ⟪ ww_active_write := None ⟫).
  assert (∀ Φ, Φ tt s2 → wp end_active_write Φ (s ⟪ ww_env := e' ⟫)) as Hend.
  { intros Φ HΦ. assert (u64 (ww_queued_write_bytes s - message_size m) = u64 (bytes (ww_pending_writes s))) as Hq.
    { rewrite (wi_bytes _ I), u64_sub. f_equal. unfold active_bytes. rewrite Ha. cbn. lia. }
    unfold end_active_write. wp_step. unfold s2 in HΦ. rewrite <- Hq in HΦ. change (ww_active_write (s ⟪ _ := _ ⟫)) with (ww_active_write s). rewrite Ha. exact HΦ. }
  assert (ww_pending_writes s = [] → Inv s2 ∧ account s s2) as Hidle.
  { intros Hp. split.
    - destruct I as [I1 I2 I3 I4 I5 I6 I7]. split; unfold active_bytes; cbn; try done; [by rewrite R].
    - exists []. unfold handed. cbn. rewrite Ew, app_nil_r. done. }
  unfold on_write. wp_step. apply wp_assertion; [apply bool_decide_eq_true_2; cbn; rewrite Ha; eauto|]. do 2 wp_step. change (ww_state (s ⟪ _ := _ ⟫)) with (ww_state s).
  destruct (bool_decide (ww_state s = kSTOPPED)) eqn:Es; [|destruct (bool_decide (ww_state s = kFAULTED)) eqn:Ef]; cbn [orb]; guards.
  1, 2: apply Hend, Hidle, (wi_over _ I); auto.
  destruct error as [text|].
  - wp_step. apply Hend. unfold transition_fault. do 2 wp_step. change (ww_state s2) with (ww_state s). rewrite !bool_decide_eq_false_2 by done. cbn [orb].
    unfold set_last_error, drop_pending. do 5 wp_step. wp_step. eapply (wp_rel (same core)); [rel_auto|]. intros _ s3 E3. unfold same in E3. split.
    + eapply core_inv; [exact E3|]. destruct I as [I1 I2 I3 I4 I5 I6 I7]. split; unfold active_bytes; cbn; try done; [|by rewrite R]. rewrite <- (Z.add_0_l (bytes _)). apply (dropped_bytes 0).
    + exists (ww_pending_writes s). unfold handed. unfold core, outstanding in E3. cbn in E3. injection E3 as Fr Fw Fl Fs Frs Fb Fa Fp Fq Fst Ff. rewrite Fl, Fp, Ew, app_nil_r. split; [done|]. split; [done|]. split; done.
  - wp_step. apply Hend. do 2 wp_step. change (ww_pending_writes s2) with (ww_pending_writes s). destruct (ww_pending_writes s) as [|next rest] eqn:Ep; [wp_step; by apply Hidle|].
    do 2 wp_step. eapply wp_mono; [apply (start_write_inv next); try done|].
    + cbn. destruct (ww_state s); try done; auto.
    + cbn. rewrite R. apply (wi_read _ I).
    + apply (wi_stream _ I).
    + apply (wi_failed _ I).
    + cbv beta. cbn. intros _ s' (I' & Hw & Hp & Hs). split; [done|]. exists []. unfold handed. rewrite Hw, Hp, Hs, Ep, Ew, app_nil_r, <- app_assoc. done.
Qed.

Lemma handler_inv c s s1 : Inv s → taken c s s1 → wp (run_handler clk c) (λ _ s', Inv s' ∧ account s s') s1.
Proof.
  destruct c as [error data|error|ping]; intros I H; [by apply read_inv|by apply write_inv|]. cbn [run_handler]. destruct H as (e' & (Ew & R & W) & ->).
  eapply (wp_rel (same core)); [destruct ping; rel_auto|]. intros _ s' Ec. unfold same in Ec. assert (core s' = core s) as Es by (rewrite Ec; unfold core, outstanding; cbn; congruence).
  split; [by eapply core_inv|]. exists []. unfold core, outstanding in Es. injection Es as Fr Fw Fl Fs Frs Fb Fa Fp Fq Fst Ff. unfold handed. rewrite Fl, Fp, Fs, app_nil_r. done.
Qed.

Lemma poll_loop_inv fuel n s : Inv s → wp (poll_loop clk fuel n) (λ _ s', Inv s' ∧ account s s') s.
Proof.
  revert n s. induction fuel as [|fuel IH]; intros n s I; cbn [poll_loop]; [by wp_step|]. wp_step. unfold wp at 1, io_one. destruct (io_poll_one (ww_env s)) as [[c|] e'] eqn:Ep; cbn [fst snd].
  - apply poll_handler in Ep. wp_step. eapply wp_mono; [apply (handler_inv c s); [done|by exists e']|]. cbv beta. intros _ s1 [I1 A1].
    eapply wp_mono; [by apply IH|]. cbv beta. intros _ s' [I' A']. split; [done|by etrans].
  - apply poll_none in Ep. wp_step. assert (core (s ⟪ ww_env := e' ⟫) = core s) as Ec by (unfold core; cbn; by rewrite Ep). split; [by eapply core_inv|].
    exists []. unfold outstanding in Ep. unfold handed. cbn. rewrite app_nil_r. split; [congruence|done].
Qed.
Lemma account_core s s1 s2 : core s1 = core s → account s1 s2 → account s s2.
Proof. unfold core, outstanding, account, handed. intros [= Fr Fw Fl Fs Frs Fb Fa Fp Fq Fst Ff]. by rewrite Fl, Fp, Fs. Qed.
Lemma poll_inv s : Inv s → wp (poll clk) (λ _ s', Inv s' ∧ account s s') s.
Proof.
  intros I. unfold poll. wp_step. eapply (wp_rel (same core)); [apply restart_core|]. intros _ s1 E1. unfold same in E1. do 2 wp_step.
  eapply wp_mono; [apply poll_loop_inv; by eapply core_inv|]. cbv beta. intros _ s' [I' A']. split; [done|]. by eapply account_core.
Qed.

(** ** The calls of a client *)

Lemma send_inv m s : Inv s →
  wp (send_text m) (λ r s', Inv s' ∧ ww_state s' = ww_state s ∧ handed s' = (if bool_decide (r = kSEND_ACCEPTED) then handed s ++ [m] else handed s) ∧ (r = kSEND_ACCEPTED ↔ ww_state s = kRUNNING)) s.
Proof.
  intros I. unfold send_text. do 2 wp_step. destruct (bool_decide (_ = kFAULTED)) eqn:Ef; guards; [wp_step; split; [done|]; split; [done|]; split; [done|split; congruence]|].
  destruct (bool_decide (_ = kRUNNING)) eqn:Er; cbn [negb]; guards; [|wp_step; split; [done|]; split; [done|]; split; [done|split; congruence]].
  do 2 wp_step. do 2 wp_step. destruct I as [I1 I2 I3 I4 I5 I6 I7]. cbn [ww_active_write]. change (ww_active_write (s ⟪ _ ::= _ ⟫)) with (ww_active_write s).
  assert (u64 (ww_queued_write_bytes s + message_size m) = u64 (active_bytes s + bytes (ww_pending_writes s) + message_size m)) as Hq by (rewrite I1; apply Zplus_mod_idemp_l).
  destruct (ww_active_write s) as [active|] eqn:Ea.
  - do 2 wp_step. wp_step. rewrite bool_decide_eq_true_2 by done. split; [|split; [done|split; [|done]]].
    + split; unfold active_bytes in *; cbn; rewrite ?Ea in *; cbn in *; try done; [|rewrite Er; by intros []]. rewrite Hq. f_equal.
      rewrite bytes_snoc. lia.
    + unfold handed. cbn. by rewrite app_assoc.
  - rewrite (I4 eq_refl) in *. do 2 wp_step. wp_step. eapply wp_mono; [apply (start_write_inv m); try done|].
    + cbn. auto.
    + cbn. rewrite (I4 eq_refl). rewrite Hq. f_equal. unfold active_bytes. rewrite Ea. cbn. lia.
    + cbv beta. cbn. intros _ s' (I' & Hw & Hp & Hs). wp_step. rewrite bool_decide_eq_true_2 by done. split; [done|]. split; [done|]. split; [|done].
      unfold handed. rewrite Hw, Hp, (I4 eq_refl). by rewrite !app_nil_r.
Qed.

Lemma recv_same s : wp recv_text (λ r s', s' = s ∧ (rr_status r = kREAD_MESSAGE ↔ ww_state s = kRUNNING ∧ ww_read_state s = kMESSAGE_READY)) s.
Proof. unfold recv_text. do 2 wp_step. unfold wp, id. destruct (ww_state s), (ww_read_state s); (split; [done|]); cbn; naive_solver. Qed.

Lemma arm_inv s : Inv s → ww_state s = kRUNNING → ww_read_state s = kREAD_IDLE → ww_read_buffer s = [] →
  wp arm_read (λ _ s', Inv s' ∧ handed s' = handed s ∧ ww_state s' = kRUNNING ∧ ww_pending_writes s' = ww_pending_writes s) s.
Proof.
  intros I Hs Hr Hb. unfold arm_read. wp_step. apply wp_assertion; [by rewrite bool_decide_eq_true_2|]. wp_step. apply wp_assertion; [by rewrite bool_decide_eq_true_2|]. wp_step. apply wp_assertion; [by rewrite bool_decide_eq_true_2|].
  wp_step. eapply (wp_rel (same core)); [apply restart_core|]. intros _ s1 E1. unfold same in E1. pose proof (core_inv _ _ E1 I) as [I1 I2 I3 I4 I5 I6 I7].
  unfold core, outstanding in E1. injection E1 as Fr Fw Fl Fs Frs Fb Fa Fp Fq Fst Ff. do 2 wp_step. wp_step.
  pose proof (read_outstanding (ww_env s1)) as Ho. unfold outstanding in Ho. injection Ho as O1 O2 O3. split; [|unfold handed; cbn; rewrite O3, Fl, Fp, Fs; by split].
  split; unfold active_bytes in *; cbn; rewrite ?O1, ?O2; try done.
Qed.
Lemma consume_inv s : Inv s → ww_state s = kRUNNING → ww_read_state s = kMESSAGE_READY → wp consume_message (λ _ s', Inv s' ∧ account s s' ∧ ww_state s' = kRUNNING) s.
Proof.
  intros I Hs Hr. unfold consume_message. wp_step. apply wp_assertion; [by rewrite bool_decide_eq_true_2|]. wp_step. apply wp_assertion; [by rewrite bool_decide_eq_true_2|]. unfold clear_read_buffer. do 4 wp_step.
  eapply wp_mono; [apply arm_inv; try done|].
  - destruct I as [I1 I2 I3 I4 I5 I6 I7]. split; unfold active_bytes in *; cbn; try done. rewrite I2, Hr. done.
  - cbv beta. intros _ s' (I' & Hh & Hs' & _). split; [done|]. split; [|done]. exists []. rewrite Hh, app_nil_r, Hs, Hs'. done.
Qed.

(** ** Closing and connecting *)

Definition settled s : Prop := ww_read_state s ≠ kREAD_OUTSTANDING ∧ ww_active_write s = None.
(** A handler that runs while the session closes starts nothing. *)
Lemma wp_stopped c s : ww_state s = kSTOPPED → wp (run_handler clk c) (λ _ s', ww_env s' = ww_env s) s.
Proof.
  intros Hs. destruct c as [error data|error|ping]; unfold wp; cbn [run_handler].
  - unfold on_read, assertion, clear_read_buffer, mbind, M_bind, modify, gets. cbn. destruct (bool_decide (ww_read_state s = kREAD_OUTSTANDING)); cbn; by rewrite Hs.
  - unfold on_write, assertion, end_active_write, mbind, M_bind, modify, gets. destruct (bool_decide (is_Some (ww_active_write s))); cbn; by rewrite Hs.
  - by destruct ping.
Qed.
(** The loop of [close] ends with nothing outstanding: its fuel is enough. *)
Lemma close_loop_settles fuel s : Inv s → ww_state s = kSTOPPED → (io_work (ww_env s) < fuel)%nat → (io_stopped (ww_env s) = false ∨ settled s) →
  wp (close_loop clk fuel) (λ _ s', Inv s' ∧ settled s' ∧ ww_state s' = kSTOPPED ∧ io_written (ww_env s') = io_written (ww_env s)) s.
Proof.
  revert s. induction fuel as [|fuel IH]; intros s I Hs Hf Hr; [lia|]. cbn [close_loop]. do 2 wp_step. cbn [id]. destruct (_ || _) eqn:Eo.
  2: { apply orb_false_iff in Eo as [E1 E2]. guards. wp_step. split; [done|]. split; [|done]. split; [done|]. by apply eq_None_not_Some. }
  assert (io_stopped (ww_env s) = false) as Hns.
  { destruct Hr as [|[Hr Ha]]; [done|]. rewrite Ha in Eo. rewrite bool_decide_eq_false_2 in Eo by done. discriminate Eo. }
  wp_step. unfold wp at 1, io_one. destruct (io_run_one (ww_env s)) as [[c|] e'] eqn:Ec; cbn [fst snd].
  - pose proof (run_handler_work _ _ _ Ec) as Hw. pose proof (run_handler_goes_on _ _ _ Ec) as Hg. apply run_handler_effect in Ec. wp_step.
    eapply wp_mono; [apply wp_and; [apply (handler_inv c s (s ⟪ ww_env := e' ⟫)); [done|by exists e']|by apply (wp_stopped c)]|].
    cbv beta. intros _ s1 [[I1 (d & A1 & A2 & _ & A4)] Ee].
    assert (io_written (ww_env s1) = io_written (ww_env s)) as Ew.
    { specialize (A4 Hs). rewrite (A2 ltac:(congruence)), app_nil_r in A1. unfold handed in A1. rewrite (wi_over _ I), (wi_over _ I1), !app_nil_r in A1 by auto. done. }
    eapply wp_mono; [apply IH; [done|auto|rewrite Ee; cbn; lia|]|].
    + rewrite Ee. cbn. destruct (io_stopped e') eqn:Est; [|by left]. right. split.
      * intros Hread. pose proof (wi_read _ I1) as W. rewrite bool_decide_eq_true_2, Ee in W by done. specialize (Hg (or_introl W)). congruence.
      * pose proof (wi_write _ I1) as W. rewrite Ee in W. cbn in W. destruct (ww_active_write s1) as [m|]; [|done]. specialize (Hg (or_intror (mk_is_Some _ _ W))). congruence.
    + cbv beta. intros _ s' (? & ? & ? & ?). split; [done|]. split; [done|]. split; [done|congruence].
  - apply run_none in Ec as (R & W & Ho); [|done]. wp_step. assert (core (s ⟪ ww_env := e' ⟫) = core s) as Ecore by (unfold core; cbn; by rewrite Ho).
    split; [by eapply core_inv|]. unfold outstanding in Ho. split; [|split; [done|cbn; congruence]]. split; cbn.
    + intros Hread. rewrite (wi_read _ I), Hread in R. done.
    + by rewrite <- (wi_write _ I).
Qed.

(** A session with nothing outstanding and nothing kept. *)
Record fresh (w : list string) s : Prop := {
  fr_inv : Inv s;
  fr_state : ww_state s = kDISCONNECTED;
  fr_read : ww_read_state s = kREAD_IDLE;
  fr_buffer : ww_read_buffer s = [];
  fr_active : ww_active_write s = None;
  fr_written : io_written (ww_env s) = w;
}.
Lemma fresh_core w s s' : core s' = core s → fresh w s → fresh w s'.
Proof.
  intros Ec [F1 F2 F3 F4 F5 F6]. pose proof (core_inv _ _ Ec F1) as I. unfold core, outstanding in Ec. injection Ec as Er Ew El Es Ers Eb Ea Ep Eq Est Ef. split; congruence.
Qed.

Lemma close_fresh s : Inv s → wp (close clk) (λ _ s', fresh (io_written (ww_env s)) s') s.
Proof.
  intros I. unfold close. do 2 wp_step. rewrite (wi_stream _ I). cbn [negb]. do 2 wp_step. wp_step. unfold drop_pending. wp_step.
  match goal with |- wp _ _ ?x => set (s1 := x); assert (Inv s1 ∧ ww_state s1 = kSTOPPED ∧ io_written (ww_env s1) = io_written (ww_env s)) as (I1 & S1 & W1); [|clearbody s1] end.
  { split; [|done]. destruct I as [I1 I2 I3 I4 I5 I6 I7]. split; unfold active_bytes; cbn; try done. rewrite I1, dropped_bytes. f_equal. unfold active_bytes. lia. }
  wp_step. eapply (wp_rel (same core)); [rel_auto|]. intros _ s2 E2. do 2 wp_step. wp_step. eapply (wp_rel (same core)); [rel_auto|]. intros _ s3 E3. unfold same in E2, E3. rewrite E2 in E3.
  wp_step. eapply (wp_mono _ (λ _ s4, core s4 = core s1 ∧ io_stopped (ww_env s4) = false)).
  { unfold restart_if_stopped. do 2 wp_step. cbn [compose]. destruct (io_stopped (ww_env s3)) eqn:Est; [|by wp_step]. unfold call_. wp_step. pose proof (call_core BcRestart s3) as Ec. pose proof (restart_not_stopped (ww_env s3)) as Hns.
    unfold wp at 1. unfold same, call in *. destruct (beast_call BcRestart (ww_env s3)) as [r e]. wp_step. cbn [fst snd] in *. split; [congruence|done]. }
  cbv beta. intros _ s4 [E4 Hns]. pose proof (core_inv _ _ E4 I1) as I4. unfold core, outstanding in E4. injection E4 as _ _ El Es _ _ _ _ _ _ _. do 2 wp_step. wp_step.
  eapply wp_mono; [apply close_loop_settles; [done|congruence|cbn; lia|by left]|]. cbv beta. intros _ s5 (I5 & (T1 & T2) & S5 & W5).
  wp_step. apply wp_assertion; [by rewrite bool_decide_eq_false_2|]. wp_step. apply wp_assertion; [by rewrite bool_decide_eq_true_2|]. wp_step.
  destruct I5 as [J1 J2 J3 J4 J5 J6 J7]. split; cbn; try done; [|congruence].
  split; unfold active_bytes; cbn; rewrite ?T2; try done; [|congruence]. rewrite J2. by rewrite bool_decide_eq_false_2.
Qed.
Lemma reset_fresh w s : fresh w s → wp reset_stream (λ _ s', fresh w s') s.
Proof.
  intros F. unfold reset_stream. wp_step. apply wp_assertion; [by rewrite (fr_read _ _ F)|]. wp_step. apply wp_assertion; [rewrite (fr_active _ _ F); done|]. wp_step. eapply (wp_rel (same core)); [apply call__core|]. intros _ s1 E1.
  apply (fresh_core w) in E1; [|done]. destruct E1 as [[I1 I2 I3 I4 I5 I6 I7] F2 F3 F4 F5 F6]. wp_step. split; cbn; try done. split; unfold active_bytes; cbn; rewrite ?F5; try done; [by rewrite I2, F3|congruence].
Qed.

(** What a connection leaves. *)
Definition opened (w : list string) s : Prop := Inv s ∧ handed s = w ∧ ww_pending_writes s = [] ∧ (ww_state s = kDISCONNECTED ∨ ww_state s = kRUNNING).
Lemma fresh_opened w s : fresh w s → opened w s.
Proof. intros [F1 F2 F3 F4 F5 F6]. pose proof (wi_pending _ F1 F5) as Hp. split; [done|]. split; [|by split; [|left]]. unfold handed. by rewrite Hp, app_nil_r. Qed.
Lemma wp_fresh {A} w (m : M (WebSocketState E) A) Φ s : rel (same core) m → fresh w s → (∀ a s', fresh w s' → Φ a s') → wp m Φ s.
Proof. intros Hm F HΦ. eapply (wp_rel (same core)); [done|]. intros a s' Ec. apply HΦ. by eapply fresh_core. Qed.
Ltac fresh_step := wp_step; eapply wp_fresh; [rel_auto|eassumption|]; intros.
Ltac fresh_ends := eapply wp_fresh; [rel_auto|eassumption|]; intros; by apply fresh_opened.

Lemma connect_websocket_opened w s : fresh w s → wp (connect_websocket clk) (λ _ s', opened w s') s.
Proof.
  intros F. unfold connect_websocket. do 2 wp_step. do 4 fresh_step. match goal with |- wp (match ?x with _ => _ end) _ _ => destruct x end; [fresh_ends|].
  do 2 fresh_step. do 4 wp_step. match goal with F : fresh w ?x |- wp _ _ _ => destruct F as [[I1 I2 I3 I4 I5 I6 I7] F2 F3 F4 F5 F6] end. wp_step.
  eapply wp_mono; [apply arm_inv; [|done|done|done]|].
  - split; unfold active_bytes in *; cbn; try done; [|by intros []]. rewrite I2. by rewrite F3.
  - cbv beta. intros _ s9 (J1 & J2 & J3 & J4). wp_step. split; [done|]. split; [|split; [rewrite J4; cbn; by apply I4|by right]]. rewrite J2. unfold handed. cbn. by rewrite (I4 F5), app_nil_r.
Qed.
Lemma connect_stream_opened w s : fresh w s → wp (connect_stream clk) (λ _ s', opened w s') s.
Proof.
  intros F. unfold connect_stream. do 2 wp_step.
  repeat first [fresh_step | match goal with |- wp (match ?x with _ => _ end) _ _ => destruct x; [fresh_ends|] end | by apply connect_websocket_opened ].
Qed.
Lemma connect_opened s : Inv s → wp (connect clk wall_clk adapter) (λ _ s', opened (io_written (ww_env s)) s') s.
Proof.
  intros I. unfold connect. wp_step. eapply wp_mono; [by apply close_fresh|]. cbv beta. intros _ s1 F1. wp_step. eapply wp_mono; [by apply reset_fresh|]. cbv beta. intros _ s2 F2. fresh_step.
  do 2 wp_step. fresh_step. destruct (adapter _) as [error|request]; [wp_step; by apply fresh_opened|]. fresh_step. destruct (parse_ws_endpoint _) as [error|endpoint]; [fresh_ends|].
  destruct (negb _); [fresh_ends|]. fresh_step. wp_step. eapply wp_mono; [by apply connect_stream_opened|]. cbv beta. intros r s9 Ho. by wp_step.
Qed.

(** ** A use of the session *)

(** A message is consumed after it was received, as the wire session and the private feed do. *)
Inductive ws_op := | WConnect | WSend (message : string) | WReceive | WPoll | WClose.
(** With the session, what had been given to Beast when it was last connected or closed, and
    what it has accepted since. *)
Record Use := mkUse { us_session : WebSocketState E; us_base : list string; us_accepted : list string }.

Definition receive_and_consume : M (WebSocketState E) ReadResult :=
  r ← recv_text; (if bool_decide (rr_status r = kREAD_MESSAGE) then consume_message else mret tt);; mret r.
Definition run_op (op : ws_op) (u : Use) : Use :=
  let s := us_session u in
  match op with
  | WConnect => let s' := (connect clk wall_clk adapter s).2 in mkUse s' (io_written (ww_env s')) []
  | WClose => let s' := (close clk s).2 in mkUse s' (io_written (ww_env s')) []
  | WSend m => let '(r, s') := send_text m s in mkUse s' (us_base u) (us_accepted u ++ (if bool_decide (r = kSEND_ACCEPTED) then [m] else []))
  | WReceive => mkUse (receive_and_consume s).2 (us_base u) (us_accepted u)
  | WPoll => mkUse (poll clk s).2 (us_base u) (us_accepted u)
  end.
Definition run_ops (ops : list ws_op) (u : Use) : Use := foldl (λ u op, run_op op u) u ops.
Definition start_use (env : E) : Use := mkUse (make_websocket_session env) (io_written env) [].

Record use_ok (u : Use) : Prop := {
  uo_inv : Inv (us_session u);
  uo_order : ∃ dropped, us_base u ++ us_accepted u = handed (us_session u) ++ dropped ∧ (ww_state (us_session u) ≠ kFAULTED → dropped = []);
}.
Lemma use_account u s' : use_ok u → Inv s' → account (us_session u) s' → use_ok (mkUse s' (us_base u) (us_accepted u)).
Proof.
  intros [I (d & H1 & H2)] I' (d' & A1 & A2 & A3 & A4). split; [done|]. cbn. exists (d' ++ d). split; [by rewrite H1, A1, app_assoc|]. intros Hs. rewrite A2, H2; [done| |done]. intros Hf. auto.
Qed.
Lemma use_opened s : Inv s → handed s = io_written (ww_env s) → use_ok (mkUse s (io_written (ww_env s)) []).
Proof. intros I H. split; [done|]. cbn. exists []. by rewrite H, !app_nil_r. Qed.

Lemma receive_and_consume_inv s : Inv s → wp receive_and_consume (λ _ s', Inv s' ∧ account s s') s.
Proof.
  intros I. unfold receive_and_consume. wp_step. eapply wp_mono; [apply recv_same|]. cbv beta. intros r s1 [-> Hr]. wp_step. case_bool_decide as Hm.
  - apply Hr in Hm as [H1 H2]. eapply wp_mono; [by apply consume_inv|]. cbv beta. intros _ s' (I' & A' & _). by wp_step.
  - by do 2 wp_step.
Qed.

Lemma ws_op_ok op u : use_ok u → use_ok (run_op op u).
Proof.
  intros U. pose proof (uo_inv _ U) as I. destruct op as [|m| | |]; cbn [run_op].
  - pose proof (connect_opened _ I) as (I' & H & Hp & _). apply use_opened; [done|]. unfold handed. by rewrite Hp, app_nil_r.
  - pose proof (send_inv m _ I) as (I' & Hs & Hh & Hacc). destruct (send_text m (us_session u)) as [r s']. cbn [fst snd] in *. destruct U as [_ (d & H1 & H2)]. split; [done|]. cbn. rewrite Hs.
    destruct (decide (ww_state (us_session u) = kRUNNING)) as [Hr|Hr].
    + rewrite (H2 ltac:(by rewrite Hr)), app_nil_r in H1. exists []. split; [|done]. rewrite app_nil_r, app_assoc, H1, Hh. case_bool_decide; [done|]. by rewrite app_nil_r.
    + rewrite bool_decide_eq_false_2 in * by (by rewrite Hacc). rewrite app_nil_r, Hh. eauto.
  - apply use_account; [done|apply (receive_and_consume_inv _ I)..].
  - apply use_account; [done|apply (poll_inv _ I)..].
  - pose proof (close_fresh _ I) as F. apply use_opened; [apply F|]. unfold handed. rewrite (wi_pending _ (fr_inv _ _ F) (fr_active _ _ F)). by rewrite app_nil_r.
Qed.
Lemma run_ops_ok ops u : use_ok u → use_ok (run_ops ops u).
Proof. revert u. induction ops as [|op ops IH]; intros u U; [done|]. apply IH. by apply ws_op_ok. Qed.
Lemma ws_start_ok env : io_reading env = false → io_writing env = None → use_ok (start_use env).
Proof.
  intros Hr Hw. pose proof (call_outstanding BcDefaultVerifyPaths env) as Ho. unfold start_use, make_websocket_session. destruct (beast_call _ env) as [error e]. unfold outstanding in Ho. cbn in Ho. injection Ho as H1 H2 H3.
  split; cbn; [|exists []; unfold handed; cbn; by rewrite H3, !app_nil_r]. split; cbn; try done; [by rewrite H1, Hr|congruence].
Qed.

(** C40: the websocket session sends what it accepts, in order and one at a time.  In any use of
    it, whatever the network does: the messages it has accepted since it was last connected or
    closed are those that were given to Beast in that time, in the order they were accepted, then
    those that wait; only a fault drops messages, and only those that wait.  At most one write is
    outstanding, that of the active message, and a read is outstanding exactly when the session
    says so; the count of queued bytes is that of the messages held; and no assertion fails but
    the one that a late write breaks.  Closing ends, with nothing outstanding and nothing
    queued. *)
Theorem messages_are_sent_in_order env ops : io_reading env = false → io_writing env = None →
  let u := run_ops ops (start_use env) in
  let s := us_session u in
  (∃ dropped, us_base u ++ us_accepted u = io_written (ww_env s) ++ ww_pending_writes s ++ dropped ∧ (ww_state s ≠ kFAULTED → dropped = [])) ∧
  io_writing (ww_env s) = ww_active_write s ∧
  io_reading (ww_env s) = bool_decide (ww_read_state s = kREAD_OUTSTANDING) ∧
  ww_queued_write_bytes s = u64 (from_option message_size 0 (ww_active_write s) + foldr (λ m n, message_size m + n) 0 (ww_pending_writes s)) ∧
  Forall (λ a, a = late_write) (ww_failed_assertions s) ∧
  let closed := (close clk s).2 in
  io_writing (ww_env closed) = None ∧ io_reading (ww_env closed) = false ∧ ww_state closed = kDISCONNECTED ∧ ww_queued_write_bytes closed = 0.
Proof.
  intros Hr Hw u s. pose proof (run_ops_ok ops _ (ws_start_ok env Hr Hw)) as [I (d & H1 & H2)]. fold u in I, H1, H2. fold s in I, H1, H2.
  split; [exists d; split; [|done]; rewrite H1; unfold handed; by rewrite <- app_assoc|]. split; [apply I|]. split; [apply I|]. split; [apply I|]. split; [apply I|].
  intros closed. pose proof (close_fresh _ I : fresh _ closed) as [[J1 J2 J3 J4 J5 J6 J7] F2 F3 F4 F5 F6]. split; [congruence|]. split; [by rewrite J2, F3|]. split; [done|].
  rewrite J1. unfold active_bytes. by rewrite F5, (J4 F5).
Qed.
End Order.
End WebSocketOrder.

(** ** The websocket session on a network that follows a script

    An environment that hands out the handlers of a script: it shows that the laws of Beast can
    hold, how messages are sent one after the other, and how a write that completes after the
    venue has closed the connection starts another one on it. *)

Open Scope Z_scope.

Module WebSocketDemo.
Import Config Signing WebSocketSession WebSocketOrder.

(** ** A network that follows a script *)

Record ScriptedNet := mkScriptedNet { sn_script : list Completion; sn_reading : bool; sn_writing : option string; sn_written : list string }.
Definition ready (c : Completion) (e : ScriptedNet) : bool :=
  match c with ReadDone _ _ => sn_reading e | WriteDone _ => bool_decide (is_Some (sn_writing e)) | OtherHandler _ => true end.
Definition complete (c : Completion) (script : list Completion) (e : ScriptedNet) : ScriptedNet :=
  match c with
  | ReadDone _ _ => mkScriptedNet script false (sn_writing e) (sn_written e)
  | WriteDone _ => mkScriptedNet script (sn_reading e) None (sn_written e)
  | OtherHandler _ => mkScriptedNet script (sn_reading e) (sn_writing e) (sn_written e)
  end.

#[export] Instance scripted_net : Beast ScriptedNet := {|
  beast_call c e := (None, e);
  socket_is_open e := true;
  async_read e := mkScriptedNet (sn_script e) true (sn_writing e) (sn_written e);
  async_write m e := mkScriptedNet (sn_script e) (sn_reading e) (Some m) (sn_written e ++ [m]);
  io_stopped e := false;
  io_poll_one e := match sn_script e with c :: script => if ready c e then (Some c, complete c script e) else (None, e) | [] => (None, e) end;
  io_run_one e :=
    if sn_reading e then (Some (ReadDone (Some (true, "aborted"%string)) []), mkScriptedNet (sn_script e) false (sn_writing e) (sn_written e))
    else match sn_writing e with
         | Some m => (Some (WriteDone (Some "aborted"%string)), mkScriptedNet (sn_script e) false None (sn_written e))
         | None => (None, e)
         end;
  io_turn e := length (sn_script e);
  io_work e := ((if sn_reading e then 1 else 0) + (if sn_writing e is Some _ then 1 else 0))%nat;
  io_reading := sn_reading;
  io_writing := sn_writing;
  io_written := sn_written;
|}.
#[export] Instance scripted_laws : BeastLaws ScriptedNet.
Proof.
  split; cbn; try done.
  - intros [[|c script] r w l] c' e'; cbn; [done|]. destruct c, r, w; cbn; intros [= <- <-]; unfold handler_effect; cbn; eauto.
  - intros [[|c script] r w l] e'; cbn; [by intros [= <-]|]. destruct c, r, w; cbn; intros [= <-]; done.
  - intros [script r w l] c e'. destruct r, w; cbn; intros [= <- <-]; unfold handler_effect; cbn; eauto.
  - intros [script r w l] c e'. destruct r, w; cbn; intros [= <- <-]; cbn; lia.
  - intros [script r w l] e'. destruct r, w; cbn; intros [= <-]; done.
Qed.

Definition demo_adapter (now_ms : Z) : Result WsConnectRequest := inr (mkWsConnectRequest kWEBSOCKET_ENDPOINT []).
Definition demo_net (script : list Completion) : ScriptedNet := mkScriptedNet script false None [].
Definition demo_use (script : list Completion) (ops : list ws_op) : Use := run_ops (λ _, 0) (λ _, 0) demo_adapter ops (start_use (demo_net script)).

(** Three messages: the first two are written, the third waits for the second. *)
Definition demo_script : list Completion := [WriteDone None; ReadDone None [123]; WriteDone None].
Definition demo_ops : list ws_op := [WConnect; WSend "a"; WSend "b"; WSend "c"; WPoll; WReceive]%string.
Example demo_written : sn_written (ww_env (us_session (demo_use (take 2 demo_script) demo_ops))) = ["a"; "b"]%string.
Proof. vm_compute. reflexivity. Qed.

Lemma messages_are_sent_in_order_witness :
  let u := run_ops (λ _, 0) (λ _, 0) demo_adapter demo_ops (start_use (demo_net demo_script)) in
  let s := us_session u in
  ww_state s = kRUNNING ∧ us_accepted u = ["a"; "b"; "c"]%string ∧
  ∃ dropped, us_base u ++ us_accepted u = io_written (ww_env s) ++ ww_pending_writes s ++ dropped ∧ (ww_state s ≠ kFAULTED → dropped = []).
Proof.
  intros u s. split; [vm_compute; reflexivity|]. split; [vm_compute; reflexivity|].
  pose proof (messages_are_sent_in_order (λ _, 0) (λ _, 0) demo_adapter (demo_net demo_script) demo_ops eq_refl eq_refl) as [H _]. exact H.
Defined.

(** ** A late write *)

(** The venue closes the connection while a write is outstanding and a message waits; then the
    write completes. *)
Definition late_script : list Completion := [ReadDone (Some (true, "closed"%string)) []; WriteDone None].
Definition late_ops : list ws_op := [WConnect; WSend "a"; WSend "b"; WPoll]%string.

(** A write that completes after the venue has closed the connection starts the next one.
    The handler of the write looks only for a stopped or faulted session; the handler of the read
    has left it disconnected, with its messages.  So the next message is given to Beast on a
    connection that is closed, and the assertion of [start_active_write] fails, which ends a
    build that keeps assertions. *)
Theorem late_write_after_close :
  let s := us_session (demo_use late_script late_ops) in
  ww_state s = kDISCONNECTED ∧ sn_written (ww_env s) = ["a"; "b"]%string ∧ ww_active_write s = Some "b"%string ∧
  ww_failed_assertions s = ["start_active_write: state_ == kRUNNING"%string].
Proof. vm_compute. repeat split. Qed.
End WebSocketDemo.
