(* ===== verification/StrategySafety.v ===== *)
(** * StrategySafety: what a strategy publishes, and what it remembers of it

    The invariant of the two maps of active groups and of the capital they hold, and the
    conditions under which a group intent leaves the strategy. *)

From S2P Require Import Prelude Spsc LatencyHistogram StrategyTypes MonotonicArb MonotonicArbSound OmsTypes Strategy.
Import MonotonicArb MonotonicArbSound Strategy.

Module StrategySafety.

(** ** The capital of the groups together *)

Definition total_pending (groups : gmap Z ActiveGroup) : Z :=
  map_fold (λ _ g total, ag_pending_capital_ticks g + total) 0 groups.

Lemma total_insert id g groups : groups !! id = None →
  total_pending (<[id := g]> groups) = ag_pending_capital_ticks g + total_pending groups.
Proof. intros H. unfold total_pending. rewrite map_fold_insert_L; [done|intros; lia|done]. Qed.

Lemma total_delete id g groups : groups !! id = Some g →
  total_pending groups = ag_pending_capital_ticks g + total_pending (delete id groups).
Proof. intros H. rewrite <- (insert_delete_id groups id g) at 1 by done. by rewrite total_insert by apply lookup_delete_eq. Qed.

Lemma total_update id g g' groups : groups !! id = Some g →
  total_pending (<[id := g']> groups) = total_pending groups - ag_pending_capital_ticks g + ag_pending_capital_ticks g'.
Proof.
  intros H. rewrite <- insert_delete_eq, total_insert by apply lookup_delete_eq. rewrite (total_delete id g groups) by done. lia.
Qed.

Lemma total_pending_nonneg groups : map_Forall (λ _ g, 0 ≤ ag_pending_capital_ticks g) groups → 0 ≤ total_pending groups.
Proof.
  induction groups as [|id g groups Hid IH] using map_ind; [done|]. rewrite map_Forall_insert, total_insert by done.
  intros [? ?%IH]. lia.
Qed.

Section StrategySafety.
Context {Q : Type → Type} `{HQ : PushQueue Q} {HL : PushQueueLaws Q}.
Variable clk : nat → Z.
Variable wall_clk : nat → Z.
Variable hash_order : list Z → list Z.
Implicit Types s : StrategyState (Q := Q).

(** ** The invariant *)

Definition typed_oms_message (m : OmsToStrategyMessage) : Prop :=
  match m with SmPortfolio p => is_i64 (pu_available_capital_ticks p) | _ => True end.

Record Inv s : Prop := {
  inv_index : ∀ event id, st_active_group_by_event s !! event = Some id ↔
    ∃ g, st_active_group_by_id s !! id = Some g ∧ ag_event_id g = event;
  inv_held : map_Forall (λ _ g, 0 ≤ ag_pending_capital_ticks g) (st_active_group_by_id s);
  inv_pending : st_pending_capital_ticks s = total_pending (st_active_group_by_id s);
  inv_bound : st_pending_capital_ticks s ≤ I64_MAX;
  inv_fresh : map_Forall (λ id _, 0 < id < st_next_group_intent_id s) (st_active_group_by_id s);
  inv_ids : 0 < st_next_group_intent_id s ≤ 2147483648 ∧ st_next_signal_id s = st_next_group_intent_id s ∧
    st_next_strategy_intent_id s = 2 * st_next_group_intent_id s - 1;
  inv_available : is_i64 (st_available_capital_ticks s);
  inv_config : valid_monotonic_arb_config (sg_arb_config (st_config s)) = true;
  inv_messages : Forall (λ m, from_option typed_oms_message True m) (st_oms_to_strategy_queue s);
}.

Lemma inv_pending_range s : Inv s → 0 ≤ st_pending_capital_ticks s ≤ I64_MAX.
Proof. intros H. split; [|by apply H]. rewrite (inv_pending s H). apply total_pending_nonneg, H. Qed.

(** What the invariant speaks of. *)
Definition ledger s :=
  (st_active_group_by_event s, st_active_group_by_id s, st_pending_capital_ticks s,
   (st_next_group_intent_id s, st_next_signal_id s, st_next_strategy_intent_id s), st_available_capital_ticks s,
   st_oms_to_strategy_queue s, st_config s).

Lemma inv_ledger s s' : ledger s' = ledger s → Inv s → Inv s'.
Proof. intros [= E1 E2 E3 E4 E5 E6 E7 E8 E9] []. split; rewrite ?E1, ?E2, ?E3, ?E4, ?E5, ?E6, ?E7, ?E8, ?E9; done. Qed.

(** *** Releasing capital, forgetting and settling groups *)

Lemma release_exact s capital : Inv s → 0 ≤ capital ≤ st_pending_capital_ticks s →
  wp (release_pending capital) (λ _ s', s' = s ⟪ st_pending_capital_ticks := st_pending_capital_ticks s - capital ⟫) s.
Proof.
  intros HI Hc. pose proof (inv_pending_range s HI) as Hp. unfold release_pending. wp_step. cbn. unfold upd; cbn. f_equal.
  rewrite Z.min_r by lia. apply u64_id. unfold is_u64. lia.
Qed.

Lemma held_le s id g : Inv s → st_active_group_by_id s !! id = Some g →
  0 ≤ ag_pending_capital_ticks g ≤ st_pending_capital_ticks s.
Proof.
  intros HI Hg. pose proof (inv_held s HI id g Hg). rewrite (inv_pending s HI), (total_delete id g) by done.
  assert (0 ≤ total_pending (delete id (st_active_group_by_id s))); [|cbn beta in *; lia].
  apply total_pending_nonneg. apply map_Forall_delete, HI.
Qed.

Lemma forget_spec s id g : Inv s → st_active_group_by_id s !! id = Some g →
  wp (forget_group id g) (λ _ s', Inv s' ∧ st_active_group_by_id s' = delete id (st_active_group_by_id s) ∧
    st_execution_blocked s' = st_execution_blocked s ∧ st_strategy_to_oms_queue s' = st_strategy_to_oms_queue s) s.
Proof.
  intros HI Hg. unfold forget_group. wp_step. eapply wp_mono; [apply release_exact; [done|by apply (held_le s id g)]|]. cbv beta. intros _ ? ->.
  wp_step. split_and!; try done. pose proof (held_le s id g HI Hg). destruct HI. split; cbn; try done.
  - intros event id'. rewrite lookup_delete_Some, inv_index0. setoid_rewrite lookup_delete_Some. split.
    + intros [Hne (g' & Hg' & E)]. exists g'. split_and!; try done. intros ->. congruence.
    + intros (g' & [Hne Hg'] & E). split; [|by exists g']. intros <-. apply Hne.
      assert (st_active_group_by_event s !! ag_event_id g = Some id) as H1 by (apply inv_index0; by exists g).
      assert (st_active_group_by_event s !! ag_event_id g = Some id') as H2 by (apply inv_index0; by exists g'). congruence.
  - by apply map_Forall_delete.
  - rewrite inv_pending0, (total_delete id g (st_active_group_by_id s)) by done. lia.
  - lia.
  - by apply map_Forall_delete.
Qed.

(** A change of a group that keeps its event. *)
Lemma update_inv s id g g' pending : Inv s → st_active_group_by_id s !! id = Some g → ag_event_id g' = ag_event_id g →
  0 ≤ ag_pending_capital_ticks g' ≤ ag_pending_capital_ticks g →
  pending = st_pending_capital_ticks s - ag_pending_capital_ticks g + ag_pending_capital_ticks g' →
  Inv (s ⟪ st_pending_capital_ticks := pending ⟫ ⟪ st_active_group_by_id ::= <[id := g']> ⟫).
Proof.
  intros HI Hg He Hc ->. destruct HI. split; cbn; try done.
  - intros event id'. rewrite inv_index0. destruct (decide (id' = id)) as [->|Hne].
    + rewrite lookup_insert_eq. split; intros (h & Hh & E); simplify_eq; eauto.
    + by rewrite lookup_insert_ne by done.
  - apply map_Forall_insert_2; [lia|done].
  - rewrite (total_update id g) by done. lia.
  - lia.
  - apply map_Forall_insert_2; [by apply (inv_fresh0 id g)|done].
Qed.

(** The identities of the groups and everything of them but the capital. *)
Definition same_groups s s' : Prop :=
  (∀ id, is_Some (st_active_group_by_id s' !! id) ↔ is_Some (st_active_group_by_id s !! id)) ∧
  st_execution_blocked s' = st_execution_blocked s ∧ st_strategy_to_oms_queue s' = st_strategy_to_oms_queue s.

Lemma update_same_groups s id g g' : st_active_group_by_id s !! id = Some g →
  ∀ id', is_Some (<[id := g']> (st_active_group_by_id s) !! id') ↔ is_Some (st_active_group_by_id s !! id').
Proof.
  intros Hg id'. destruct (decide (id' = id)) as [->|]; [|by rewrite lookup_insert_ne]. rewrite lookup_insert_eq, Hg. done.
Qed.

Lemma settle_spec ids s : Inv s → wp (settle_groups ids) (λ _ s', Inv s' ∧ same_groups s s') s.
Proof.
  revert s. induction ids as [|id ids IH]; intros s HI; cbn [settle_groups]; [by wp_step; split|]. wp_steps.
  destruct (st_active_group_by_id s !! id) as [g|] eqn:Hg; [|wp_step; by apply IH].
  unfold when. destruct (_ && _) eqn:E; [|wp_step; by apply IH].
  wp_step. eapply wp_mono; [apply release_exact; [done|by apply (held_le s id g)]|]. cbv beta. intros _ ? ->. wp_step.
  pose proof (held_le s id g HI Hg).
  eapply wp_mono; [apply IH; apply (update_inv s id g (g ⟪ ag_pending_capital_ticks := 0 ⟫)); cbn; try done; lia|].
  cbv beta. intros _ s' (HI' & Hid & Hb & Hq). split; [done|]. split_and!; [|done|done].
  intros id'. rewrite Hid. cbn. by apply (update_same_groups s id g).
Qed.

(** ** Messages of the OMS *)

(** The message that a group is over. *)
Definition ends_group (m : OmsToStrategyMessage) (id : Z) : Prop :=
  match m with
  | SmAdmission a => ic_group_intent_id (ga_context a) = id ∧ ga_admission_state a ≠ kADMISSION_ACCEPTED
  | SmGroupState u => ic_group_intent_id (gu_context u) = id ∧ terminal_group_state (gu_execution_state u) = true
  | _ => False
  end.

(** A message of the OMS publishes nothing and ends only the group it is about. *)
Record oms_step (m : OmsToStrategyMessage) s (r : StrategyPumpResult) s' : Prop := {
  om_inv : Inv s';
  om_quiet : sp_published_intent r = None ∧ st_strategy_to_oms_queue s' = st_strategy_to_oms_queue s;
  om_blocked : st_execution_blocked s = true → st_execution_blocked s' = true;
  om_ended : ∀ id, is_Some (st_active_group_by_id s !! id) → st_active_group_by_id s' !! id = None → ends_group m id;
}.

Lemma oms_step_same m s r s' : Inv s' → sp_published_intent r = None → same_groups s s' → oms_step m s r s'.
Proof.
  intros HI Hr (Hid & Hb & Hq). split; try done; [by rewrite Hb|]. intros id Hs Hn. apply Hid in Hs. rewrite Hn in Hs. by destruct Hs.
Qed.

Lemma counted_inv s (f : StrategyStats → StrategyStats) : Inv s → Inv (s ⟪ st_stats ::= f ⟫).
Proof. by apply inv_ledger. Qed.

Lemma reject_oms_spec m reason s : Inv s → wp (reject_oms_message reason) (oms_step m s) s.
Proof. intros HI. unfold reject_oms_message, count. wp_steps. apply oms_step_same; [by apply counted_inv|done..]. Qed.

Lemma portfolio_spec p s : Inv s → is_i64 (pu_available_capital_ticks p) →
  wp (handle_portfolio_update hash_order p) (oms_step (SmPortfolio p) s) s.
Proof.
  intros HI Hty. unfold handle_portfolio_update. wp_steps. destruct (negb _); [by apply reject_oms_spec|].
  destruct (_ <=? _); [by apply reject_oms_spec|]. wp_steps. eapply wp_mono; [apply settle_spec; by destruct HI|].
  cbv beta. intros _ s' [HI' Hs]. wp_step. by apply oms_step_same.
Qed.

Lemma position_spec p s : Inv s → wp (handle_position_update p) (oms_step (SmPosition p) s) s.
Proof.
  intros HI. unfold handle_position_update. wp_steps. destruct (negb _); [by apply reject_oms_spec|].
  destruct (_ <=? _); [by apply reject_oms_spec|]. wp_steps. apply oms_step_same; [by revert HI; apply inv_ledger|done..].
Qed.

Lemma ended_spec m id g f s : Inv s → st_active_group_by_id s !! id = Some g → ends_group m id →
  wp (forget_group id g;; count f;; mret oms_handled) (oms_step m s) s.
Proof.
  intros HI Hg Hm. wp_step. eapply wp_mono; [by apply forget_spec|]. cbv beta. intros _ s' (HI' & Hid & Hb & Hq).
  unfold count. wp_steps. split; cbn; try done; [by apply counted_inv|by rewrite Hb|].
  intros id' Hs. rewrite Hid. intros [<- | Hn]%lookup_delete_None; [done|]. rewrite Hn in Hs. by destruct Hs.
Qed.

Lemma admission_spec a s : Inv s → wp (handle_admission a) (oms_step (SmAdmission a) s) s.
Proof.
  intros HI. unfold handle_admission. wp_steps. destruct (negb _); [by apply reject_oms_spec|]. wp_steps.
  destruct (_ !! _) as [g|] eqn:Hg; [|by wp_step; apply oms_step_same]. case_bool_decide as Ha; [|by apply (ended_spec _ _ g)].
  unfold count. wp_steps. apply oms_step_same; [|done|split_and!; [|done..]; cbn; by apply (update_same_groups s _ g)].
  apply counted_inv. pose proof (inv_held s HI _ g Hg) as Hh. cbn beta in Hh.
  apply (inv_ledger (s ⟪ st_pending_capital_ticks := st_pending_capital_ticks s ⟫ ⟪ st_active_group_by_id ::= <[ic_group_intent_id (ga_context a) := g ⟪ ag_admission_pending := false ⟫]> ⟫));
    [done|]. apply (update_inv s _ g); cbn; done || lia.
Qed.

Lemma group_state_spec u s : Inv s → wp (handle_group_state u) (oms_step (SmGroupState u) s) s.
Proof.
  intros HI. unfold handle_group_state. wp_steps. destruct (negb _); [by apply reject_oms_spec|]. wp_steps.
  destruct (_ !! _) as [g|] eqn:Hg; [|by wp_step; apply oms_step_same].
  destruct (unsafe_group_state _).
  { unfold count. wp_steps. split; try done; [by revert HI; apply inv_ledger|]. cbn. intros id Hs Hn. rewrite Hn in Hs. by destruct Hs. }
  destruct (terminal_group_state _) eqn:Ht; [by apply (ended_spec _ _ g)|by wp_step; apply oms_step_same].
Qed.

Lemma order_message_spec m context s : Inv s → wp (handle_order_message context) (oms_step m s) s.
Proof.
  intros HI. unfold handle_order_message. wp_steps. destruct (negb _); [by apply reject_oms_spec|by wp_step; apply oms_step_same].
Qed.

Lemma oms_message_spec m s : Inv s → typed_oms_message m → wp (handle_oms_message hash_order m) (oms_step m s) s.
Proof.
  intros HI Hty. unfold handle_oms_message. unfold count at 1. wp_steps. set (s1 := s ⟪ st_stats ::= _ ⟫).
  assert (Inv s1) by by apply counted_inv. eapply (wp_mono _ (oms_step m s1)); [|intros r s' []; by split].
  destruct m; cbn in Hty; auto using portfolio_spec, position_spec, admission_spec, group_state_spec, order_message_spec.
Qed.

(** ** Observations *)

(** Nothing is published and the groups are left alone. *)
Record silent s (r : StrategyPumpResult) s' : Prop := {
  si_inv : Inv s';
  si_quiet : sp_published_intent r = None;
  si_queue : q_sent (st_strategy_to_oms_queue s') = q_sent (st_strategy_to_oms_queue s);
  si_groups : st_active_group_by_id s' = st_active_group_by_id s;
  si_blocked : st_execution_blocked s = true → st_execution_blocked s' = true;
}.

(** The group [intent] was sent for [o], which was dequeued at the time [dequeue]; [n] clock
    readings had been made before its evaluation. *)
Record evaluated s (n : nat) (dequeue : Z) (o : MonotonicPairObservation) (intent : GroupOrderIntent) s' : Prop := {
  ev_gates : st_portfolio_seen s = true ∧ st_portfolio_reconciled s = true;
  ev_sent : q_sent (st_strategy_to_oms_queue s') = q_sent (st_strategy_to_oms_queue s) ++ [SiGroup intent];
  ev_inv : Inv s';
  ev_blocked : st_execution_blocked s' = st_execution_blocked s;
  ev_group : ∃ candidate required,
    ae_candidate (evaluate_monotonic_arb (sg_arb_config (st_config s)) o (wall_clk (S n))) = Some candidate ∧
    (make_group_intent candidate dequeue (clk (S n)) (clk (S (S n))) s).1 = Some intent ∧
    required_capital_ticks candidate = Some required ∧
    st_active_group_by_id s !! st_next_group_intent_id s = None ∧
    st_active_group_by_id s' = <[st_next_group_intent_id s := mkActiveGroup (po_event_id o) required true]> (st_active_group_by_id s) ∧
    st_pending_capital_ticks s' = st_pending_capital_ticks s + required ∧
    st_pending_capital_ticks s + required ≤ Z.max 0 (st_available_capital_ticks s);
}.

Definition observed s n dequeue o (r : StrategyPumpResult) s' : Prop :=
  match sp_published_intent r with Some intent => evaluated s n dequeue o intent s' | None => silent s r s' end.

Lemma silent_observed s n d o r s' : silent s r s' → observed s n d o r s'.
Proof. intros H. unfold observed. by rewrite (si_quiet _ _ _ H). Qed.

Lemma candidate_origin c o now candidate : ae_candidate (evaluate_monotonic_arb c o now) = Some candidate →
  ∃ selection, candidate = candidate_of c o selection ∧ valid_pair_header o = true.
Proof.
  unfold evaluate_monotonic_arb. destruct (valid_pair_header o); [|done]. cbn [negb].
  repeat (case_match; try done); cbn; intros [= <-]; eauto.
Qed.

Lemma suppress_spec reason result s : Inv s → sp_published_intent result = None → wp (suppress reason result) (silent s) s.
Proof. intros HI Hr. unfold suppress, count. wp_steps. split; try done. by apply counted_inv. Qed.

Lemma capital_refusal_none required s : Inv s → capital_refusal required s = None →
  ∃ r, required = Some r ∧ st_portfolio_seen s = true ∧ st_portfolio_reconciled s = true ∧
    st_pending_capital_ticks s + r ≤ Z.max 0 (st_available_capital_ticks s).
Proof.
  intros HI. pose proof (inv_pending_range s HI). pose proof (inv_available s HI) as Ha. unfold is_i64 in Ha.
  unfold capital_refusal. destruct required as [r|]; [|done].
  destruct (st_portfolio_seen s); [|done]. destruct (st_portfolio_reconciled s); [|done]. cbn [negb]. cbv zeta.
  rewrite (u64_id (Z.max _ _)) by (unfold is_u64; lia).
  destruct (Z.ltb_spec (Z.max 0 (st_available_capital_ticks s)) (st_pending_capital_ticks s)); [done|]. cbn [orb].
  rewrite u64_id by (unfold is_u64; lia).
  destruct (Z.ltb_spec (Z.max 0 (st_available_capital_ticks s) - st_pending_capital_ticks s) r); [done|]. intros _. exists r. split_and!; done || lia.
Qed.

Lemma required_nonneg candidate required : required_capital_ticks candidate = Some required → 0 ≤ required.
Proof.
  unfold required_capital_ticks. cbv zeta. match goal with |- context [U64_MAX <? ?e] => destruct (U64_MAX <? e); [done|]; intros [= <-]; apply (u64_range e) end.
Qed.

(** A group intent uses one group, one signal and two order identities. *)
Lemma make_intent_spec candidate d e p s : Inv s →
  wp (make_group_intent candidate d e p) (λ r s', r = (make_group_intent candidate d e p s).1 ∧
    match r with
    | None => s' = s
    | Some intent => ic_group_intent_id (gi_context intent) = st_next_group_intent_id s ∧ st_next_group_intent_id s < 2147483648 ∧
        s' = s ⟪ st_next_group_intent_id := st_next_group_intent_id s + 1 ⟫ ⟪ st_next_signal_id := st_next_signal_id s + 1 ⟫
               ⟪ st_next_strategy_intent_id := st_next_strategy_intent_id s + 2 ⟫
    end) s.
Proof.
  intros HI. destruct (inv_ids s HI) as (Hg & Hs & Hi). unfold wp. split; [done|].
  unfold make_group_intent, mbind, M_bind, gets, modify, mret, M_ret. destruct (identity_exhausted candidate s) eqn:E; [done|].
  unfold identity_exhausted in E. guards. cbn. split_and!; [done|lia|].
  unfold upd; cbn. unfold bump. rewrite Hs, Hi. rewrite !u64_id by (unfold is_u64; rewrite ?u64_id by (unfold is_u64; lia); lia). f_equal. lia.
Qed.

(** What an intent is made from. *)
Definition identity s :=
  (st_next_group_intent_id s, st_next_signal_id s, st_next_strategy_intent_id s, st_strategy_index s, sg_strategy_id (st_config s)).

Lemma make_intent_same candidate d e p s s' : identity s' = identity s →
  (make_group_intent candidate d e p s').1 = (make_group_intent candidate d e p s).1.
Proof.
  intros [= E1 E2 E3 E4 E5]. unfold make_group_intent, mbind, M_bind, gets, modify, mret, M_ret, identity_exhausted.
  rewrite E1, E2, E3. case_match; [done|]. cbn. by rewrite E1, E2, E3, E4, E5.
Qed.

(** Unused identities may be lost. *)
Lemma lost_ids_inv s s1 : Inv s → st_next_group_intent_id s < 2147483648 →
  ledger s1 = ledger (s ⟪ st_next_group_intent_id := st_next_group_intent_id s + 1 ⟫ ⟪ st_next_signal_id := st_next_signal_id s + 1 ⟫
                       ⟪ st_next_strategy_intent_id := st_next_strategy_intent_id s + 2 ⟫) → Inv s1.
Proof.
  intros HI Hlt Hl. eapply inv_ledger; [exact Hl|]. destruct HI. split; cbn; try done; [|lia].
  intros id g Hg. specialize (inv_fresh0 id g Hg). cbn beta in *. lia.
Qed.

(** The state after a group has been sent. *)
Lemma sent_inv s s1 event required q f : Inv s → ledger s1 = ledger s → st_next_group_intent_id s < 2147483648 →
  st_active_group_by_event s !! event = None → 0 ≤ required →
  st_pending_capital_ticks s + required ≤ Z.max 0 (st_available_capital_ticks s) →
  Inv (s1 ⟪ st_next_group_intent_id := st_next_group_intent_id s + 1 ⟫ ⟪ st_next_signal_id := st_next_signal_id s + 1 ⟫
         ⟪ st_next_strategy_intent_id := st_next_strategy_intent_id s + 2 ⟫ ⟪ st_strategy_to_oms_queue := q ⟫
         ⟪ st_active_group_by_event ::= <[event := st_next_group_intent_id s]> ⟫
         ⟪ st_active_group_by_id ::= <[st_next_group_intent_id s := mkActiveGroup event required true]> ⟫
         ⟪ st_pending_capital_ticks ::= λ n, u64 (n + required) ⟫ ⟪ st_stats ::= f ⟫).
Proof.
  intros HI [= E1 E2 E3 E4 E5 E6 E7 E8 E9] Hlt Hev Hr Hc. pose proof (inv_pending_range s HI). pose proof (inv_available s HI) as Ha. unfold is_i64 in Ha.
  assert (st_active_group_by_id s !! st_next_group_intent_id s = None) as Hid.
  { apply eq_None_not_Some. intros [g Hg]. pose proof (inv_fresh s HI _ g Hg) as Hf. cbn beta in Hf. lia. }
  destruct HI. split; cbn; rewrite ?E1, ?E2, ?E3, ?E7, ?E8, ?E9, ?(u64_id (_ + _)) by (unfold is_u64; lia); try done.
  - intros event' id. destruct (decide (event' = event)) as [->|Hne], (decide (id = st_next_group_intent_id s)) as [->|Hne'].
    + rewrite !lookup_insert_eq. split; eauto.
    + rewrite lookup_insert_eq, lookup_insert_ne by done. split; [congruence|]. intros (g & Hg & E). exfalso.
      assert (st_active_group_by_event s !! event = Some id) by (apply inv_index0; eauto). congruence.
    + rewrite lookup_insert_ne, lookup_insert_eq, inv_index0 by done. split; [intros (g & Hg & _); congruence|]. intros (g & Hg & E). by simplify_eq.
    + by rewrite !lookup_insert_ne by done.
  - by apply map_Forall_insert_2.
  - rewrite total_insert by done. cbn. lia.
  - lia.
  - apply map_Forall_insert_2; [lia|]. intros id g Hg. specialize (inv_fresh0 id g Hg). cbn beta in *. lia.
  - lia.
Qed.

Lemma publish_candidate_spec candidate required d ec result s : Inv s → sp_published_intent result = None →
  st_active_group_by_event s !! cd_event_id candidate = None → 0 ≤ required →
  st_pending_capital_ticks s + required ≤ Z.max 0 (st_available_capital_ticks s) →
  wp (publish_candidate clk candidate required d ec result) (λ r s', match sp_published_intent r with
    | None => silent s r s'
    | Some intent =>
        Inv s' ∧ (make_group_intent candidate d ec (clk (st_clock_reads s)) s).1 = Some intent ∧
        q_sent (st_strategy_to_oms_queue s') = q_sent (st_strategy_to_oms_queue s) ++ [SiGroup intent] ∧
        st_execution_blocked s' = st_execution_blocked s ∧
        st_active_group_by_id s' = <[st_next_group_intent_id s := mkActiveGroup (cd_event_id candidate) required true]> (st_active_group_by_id s) ∧
        st_pending_capital_ticks s' = st_pending_capital_ticks s + required
    end) s.
Proof.
  intros HI Hr Hev Hreq Hc. pose proof (inv_pending_range s HI). pose proof (inv_available s HI) as Ha. unfold is_i64 in Ha.
  unfold publish_candidate. wp_step. unfold strategy_now_ns, wp at 1. cbn. set (s1 := s ⟪ st_clock_reads ::= S ⟫).
  assert (ledger s1 = ledger s) as Hl by done. wp_step. eapply wp_mono; [by apply make_intent_spec, (inv_ledger s)|]. cbv beta. intros [intent|] s2 [E Hs2].
  - destruct Hs2 as (Hid & Hlt & ->). rewrite Hid. wp_step. unfold push_intent, wp at 1. cbn.
    pose proof (push_sent (SiGroup intent) (st_strategy_to_oms_queue s)) as Hp. destruct (q_push _ _) as [[] q]; cbn in Hp |- *.
    + unfold count. wp_steps. cbn. split_and!; try done.
      * by apply (sent_inv s).
      * rewrite E. by apply make_intent_same.
      * apply u64_id. unfold is_u64. lia.
    + unfold count. wp_steps. cbn. rewrite Hr. split; try done. by apply (lost_ids_inv s).
  - subst s2. unfold suppress, count. wp_steps. cbn. rewrite Hr. split; try done. by apply (inv_ledger s).
Qed.

Lemma evaluate_spec o d result s : Inv s → sp_published_intent result = None → st_active_group_by_event s !! po_event_id o = None →
  wp (evaluate_observation clk wall_clk o d result) (observed s (st_clock_reads s) d o) s.
Proof.
  intros HI Hr Hev. unfold evaluate_observation. wp_step. unfold strategy_now_ns, wp at 1. cbn. wp_steps. unfold strategy_now_ns, wp at 1. cbn.
  unfold count. wp_steps. set (s1 := s ⟪ st_clock_reads ::= S ⟫ ⟪ st_clock_reads ::= S ⟫ ⟪ st_stats ::= _ ⟫).
  destruct (ae_candidate _) as [candidate|] eqn:Ea.
  2: { wp_steps. apply silent_observed. split; cbn; try done. by apply (inv_ledger s). }
  wp_steps. set (s2 := s1 ⟪ st_stats ::= _ ⟫). assert (Inv s2) as HI2 by by apply (inv_ledger s).
  destruct (capital_refusal _ _) as [reason|] eqn:Er.
  { eapply wp_mono; [by apply suppress_spec|]. cbv beta. intros r s' []. apply silent_observed. by split. }
  apply capital_refusal_none in Er as (required & Hreq & Hseen & Hrec & Hc); [|done]. rewrite Hreq. cbn [default].
  destruct (candidate_origin _ _ _ _ Ea) as (selection & Ec & _).
  assert (cd_event_id candidate = po_event_id o) as He by by rewrite Ec.
  eapply wp_mono; [apply publish_candidate_spec; try done; [by rewrite He|by eapply required_nonneg]|]. cbv beta.
  intros r s' H. unfold observed. destruct (sp_published_intent r) as [intent|]; [|by destruct H; split].
  destruct H as (HI' & Hi & Hq & Hb & Hg & Hp). split; try done. exists candidate, required. rewrite He in Hg. split_and!; try done.
  - rewrite <- Hi. by apply make_intent_same.
  - apply eq_None_not_Some. intros [g Hg']. pose proof (inv_fresh s HI _ g Hg') as Hf. cbn beta in Hf. lia.
Qed.

(** *** The checks before the evaluation *)

(** What the evaluation reads, clocks apart. *)
Record same_view s s1 : Prop := {
  sv_ledger : ledger s1 = ledger s;
  sv_identity : identity s1 = identity s;
  sv_config : st_config s1 = st_config s;
  sv_seen : st_portfolio_seen s1 = st_portfolio_seen s;
  sv_reconciled : st_portfolio_reconciled s1 = st_portfolio_reconciled s;
  sv_blocked : st_execution_blocked s1 = st_execution_blocked s;
  sv_queue : st_strategy_to_oms_queue s1 = st_strategy_to_oms_queue s;
}.

Lemma silent_view s s1 r s' : same_view s s1 → silent s1 r s' → silent s r s'.
Proof. intros [Hl Hi Hc Hs Hr Hb Hq] []. injection Hl as E1 E2 E3 E4 E5 E6 E7 E8 E9. rewrite Hq, E2, Hb in *. by split. Qed.

Lemma silent_refl s r s' : same_view s s' → Inv s → sp_published_intent r = None → silent s r s'.
Proof. intros Hv HI Hr. apply (silent_view s s'); [done|]. split; try done. by apply (inv_ledger s); [apply Hv|]. Qed.

Lemma evaluated_view s s1 n d o intent s' : same_view s s1 → evaluated s1 n d o intent s' → evaluated s n d o intent s'.
Proof.
  intros [Hl Hi Hc Hs Hr Hb Hq] [? ? ? ? (candidate & required & H1 & H2 & H3 & H4 & H5 & H6 & H7)].
  rewrite (make_intent_same _ _ _ _ s s1 Hi) in H2. injection Hl as E1 E2 E3 E4 E5 E6 E7 E8 E9. rewrite Hs, Hr, Hq, Hb, Hc, E2, E3, E4, E7 in *.
  split; try done. by exists candidate, required.
Qed.

Lemma observed_view s s1 n d o r s' : same_view s s1 → observed s1 n d o r s' → observed s n d o r s'.
Proof. intros Hv. unfold observed. case_match; [by apply evaluated_view|by apply silent_view]. Qed.

(** Everything that was checked of an observation that led to a group. *)
Record checked s (dequeue : Z) (o : MonotonicPairObservation) : Prop := {
  ck_universe : po_universe_version o = st_active_universe_version s;
  ck_times : po_ingress_timestamp_ns o ≠ 0 ∧ po_ingress_timestamp_ns o ≤ po_book_apply_timestamp_ns o ∧
    po_book_apply_timestamp_ns o ≤ po_publish_timestamp_ns o ∧ po_publish_timestamp_ns o ≤ dequeue;
  ck_age : dequeue - po_publish_timestamp_ns o ≤ sg_maximum_observation_age_ns (st_config s);
  ck_available : ∀ revision, st_unavailable_event_revision s !! po_event_id o = Some revision → revision < po_event_revision o;
  ck_newest : ∀ revision, st_last_pair_revision s !! mv_market_id (po_easier o) = Some revision → revision < po_event_revision o;
  ck_unblocked : st_execution_blocked s = false;
  ck_event_free : st_active_group_by_event s !! po_event_id o = None;
}.

Definition handled s dequeue o (r : StrategyPumpResult) s' : Prop :=
  observed s (st_clock_reads s) dequeue o r s' ∧ (is_Some (sp_published_intent r) → checked s dequeue o).

Lemma silent_handled s d o r s' : silent s r s' → handled s d o r s'.
Proof. intros H. split; [by apply silent_observed|]. rewrite (si_quiet _ _ _ H). by intros [? [=]]. Qed.

Lemma reject_spec s i reason result s1 : same_view s s1 → Inv s → sp_published_intent result = None →
  wp (reject_message i reason result) (silent s) s1.
Proof. intros Hv HI Hr. unfold reject_message, count_reject, count, count_input. wp_steps. apply silent_refl; [by destruct Hv|done..]. Qed.

Lemma suppressed s s1 d o reason result : same_view s s1 → Inv s → sp_published_intent result = None →
  wp (suppress reason result) (handled s d o) s1.
Proof.
  intros Hv HI Hr. eapply wp_mono; [apply suppress_spec; [by apply (inv_ledger s), HI; apply Hv|done]|]. cbv beta.
  intros r s' H. by apply silent_handled, (silent_view s s1).
Qed.

Lemma stale_false o known : stale_revision o known = false → ∀ revision, known = Some revision → revision < po_event_revision o.
Proof. unfold stale_revision. intros H ? ->. by apply Z.leb_gt. Qed.

Lemma mismatch_none i shard_index version s : input_mismatch i shard_index version s = None →
  ∃ input, st_shard_inputs s !! i = Some input ∧ in_shard_index input = shard_index ∧ version = st_active_universe_version s.
Proof.
  unfold input_mismatch. destruct (_ !! _) as [input|]; [|done]. destruct (negb (_ =? shard_index)) eqn:E1; [done|].
  destruct (negb (version =? _)) eqn:E2; [done|]. intros _. guards. eauto.
Qed.

Lemma matching_spec s i shard_index version h (Φ : StrategyPumpResult → StrategyState (Q := Q) → Prop) : Inv s →
  (∀ r s', silent s r s' → Φ r s') →
  ((∃ input, st_shard_inputs s !! i = Some input ∧ in_shard_index input = shard_index ∧ version = st_active_universe_version s) →
   wp (h (default_StrategyPumpResult ⟪ sp_source_shard_index := shard_index ⟫)) Φ s) →
  wp (if_matches_input i shard_index version h) Φ s.
Proof.
  intros HI Hs Hh. unfold if_matches_input. wp_steps. destruct (input_mismatch _ _ _ _) as [reason|] eqn:E.
  - eapply wp_mono; [|exact Hs]. by apply reject_spec.
  - by apply Hh, mismatch_none.
Qed.

Lemma observation_spec i o d s : Inv s →
  wp (handle_observation clk wall_clk i o d) (λ r s', handled s d o r s' ∧
    (is_Some (sp_published_intent r) → ∃ input, st_shard_inputs s !! i = Some input ∧ in_shard_index input = po_shard_index o)) s.
Proof.
  intros HI. unfold handle_observation. apply matching_spec; [done|intros r s' H; split; [by apply silent_handled|]; rewrite (si_quiet _ _ _ H); by intros [? [=]]|].
  intros (input & Hi & Hsh & Hu). eapply (wp_mono _ (handled s d o)); [|intros r s' H; split; [done|eauto]].
  unfold count_input, count. wp_steps. set (s1 := s ⟪ st_shard_input_stats ::= _ ⟫ ⟪ st_stats ::= _ ⟫).
  assert (same_view s s1) as Hv by done.
  destruct (timestamps_disordered o d) eqn:Et; [eapply wp_mono; [by apply (reject_spec s)|intros; by apply silent_handled]|].
  wp_steps. destruct (_ <? _) eqn:Ea.
  { wp_steps. eapply wp_mono; [by apply (reject_spec s)|intros; by apply silent_handled]. }
  wp_steps. destruct (stale_revision o _) eqn:Eu; [eapply wp_mono; [by apply (reject_spec s)|intros; by apply silent_handled]|].
  wp_steps. destruct (stale_revision o (st_last_pair_revision _ !! _)) eqn:El; [eapply wp_mono; [by apply (reject_spec s)|intros; by apply silent_handled]|].
  wp_steps. set (s2 := s1 ⟪ st_last_pair_revision ::= _ ⟫). assert (same_view s s2) as Hv2 by done. assert (Inv s2) as HI2 by by apply (inv_ledger s).
  change (st_execution_blocked s2) with (st_execution_blocked s). destruct (st_execution_blocked s) eqn:Eb; [by apply suppressed|].
  wp_steps. change (st_active_group_by_event s2) with (st_active_group_by_event s).
  destruct (st_active_group_by_event s !! po_event_id o) eqn:Ee; [by apply suppressed|].
  eapply wp_mono; [by apply evaluate_spec|]. cbv beta. intros r s' H. split; [by apply (observed_view s s2)|]. intros _.
  unfold timestamps_disordered in Et. guards. split; try done; [exact (stale_false _ _ Eu)|exact (stale_false _ _ El)].
Qed.

Lemma event_unavailable_spec i m s : Inv s → wp (handle_event_unavailable i m) (silent s) s.
Proof. intros HI. unfold handle_event_unavailable. apply matching_spec; [done..|]. intros _. unfold count, count_input. wp_steps. by apply silent_refl. Qed.

Lemma shard_unavailable_spec i m s : Inv s → wp (handle_shard_unavailable i m) (silent s) s.
Proof. intros HI. unfold handle_shard_unavailable. apply matching_spec; [done..|]. intros _. unfold count, count_input. wp_steps. by apply silent_refl. Qed.

(** ** The pump *)

(** The observation is in the queue of its shard. *)
Definition available_observation s (o : MonotonicPairObservation) : Prop :=
  ∃ i input, st_shard_inputs s !! i = Some input ∧ in_shard_index input = po_shard_index o ∧ Some (ObservedPair o) ∈ in_queue input.

(** A turn that sends nothing, or one group, for an observation that was checked. *)
Definition polled s (r : StrategyPumpResult) s' : Prop :=
  match sp_published_intent r with
  | None => silent s r s'
  | Some intent => ∃ o, available_observation s o ∧ checked s (clk (st_clock_reads s)) o ∧
      evaluated s (S (st_clock_reads s)) (clk (st_clock_reads s)) o intent s'
  end.

Lemma silent_polled s r s' : silent s r s' → polled s r s'.
Proof. intros H. unfold polled. by rewrite (si_quiet _ _ _ H). Qed.

(** Receiving from an input. *)
Lemma pop_spec i s (Φ : option ShardToStrategyMessage → StrategyState (Q := Q) → Prop) :
  (∀ q x input, st_shard_inputs s !! i = Some input → in_queue input = x :: q →
    Φ x (s ⟪ st_shard_inputs ::= <[i := input ⟪ in_queue := q ⟫]> ⟫)) → Φ None s → wp (pop_input i) Φ s.
Proof.
  intros H1 H2. unfold pop_input, wp. destruct (st_shard_inputs s !! i) as [input|] eqn:E; [|done].
  destruct (in_queue input) as [|x q] eqn:Eq; [done|]. by apply H1.
Qed.

Lemma available_pop s i input x q o : st_shard_inputs s !! i = Some input → in_queue input = x :: q →
  available_observation (s ⟪ st_shard_inputs ::= <[i := input ⟪ in_queue := q ⟫]> ⟫) o → available_observation s o.
Proof.
  intros Hi Hq (j & input' & Hj & Hsh & Hin). cbn in Hj. destruct (decide (i = j)) as [<-|Hne].
  - rewrite list_lookup_insert_eq in Hj by by eapply lookup_lt_Some. injection Hj as <-. exists i, input. cbn in *.
    split_and!; try done. rewrite Hq. by apply list_elem_of_further.
  - rewrite list_lookup_insert_ne in Hj by done. by exists j, input'.
Qed.

Lemma checked_same s s1 d o : same_view s s1 → st_active_universe_version s1 = st_active_universe_version s →
  st_unavailable_event_revision s1 = st_unavailable_event_revision s → st_last_pair_revision s1 = st_last_pair_revision s →
  checked s1 d o → checked s d o.
Proof.
  intros [Hl _ Hc _ _ Hb _] E1 E2 E3 []. injection Hl as E4 _ _ _ _ _ _ _ _. rewrite E1, E2, E3, E4, Hc, Hb in *. by split.
Qed.

Lemma dispatch_spec i input m q s : Inv s → st_shard_inputs s !! i = Some input → in_queue input = Some m :: q →
  ∀ s1, same_view s s1 → st_active_universe_version s1 = st_active_universe_version s →
  st_unavailable_event_revision s1 = st_unavailable_event_revision s → st_last_pair_revision s1 = st_last_pair_revision s →
  st_clock_reads s1 = S (st_clock_reads s) → (in_shard_index <$> st_shard_inputs s1) = (in_shard_index <$> st_shard_inputs s) →
  wp (dispatch_strategy_message clk wall_clk i m (clk (st_clock_reads s))) (polled s) s1.
Proof.
  intros HI Hi Hq s1 Hv E1 E2 E3 E4 E5. unfold dispatch_strategy_message, count, count_input. wp_steps.
  set (s2 := s1 ⟪ st_stats ::= _ ⟫ ⟪ st_shard_input_stats ::= _ ⟫). assert (same_view s s2) as Hv2 by by destruct Hv.
  assert (Inv s2) as HI2 by (apply (inv_ledger s); [apply Hv2|done]).
  assert (∀ r s', silent s2 r s' → polled s r s') as Hs by (intros; by apply silent_polled, (silent_view s s2)).
  destruct m as [o|u|u]; [|eapply wp_mono; [by apply event_unavailable_spec|exact Hs]|eapply wp_mono; [by apply shard_unavailable_spec|exact Hs]].
  eapply wp_mono; [by apply observation_spec|]. cbv beta. intros r s' [[Ho Hc] Hin]. apply (observed_view s) in Ho; [|done].
  change (st_clock_reads s2) with (st_clock_reads s1) in Ho. rewrite E4 in Ho. unfold polled. unfold observed in Ho.
  destruct (sp_published_intent r) as [intent|]; [|done]. exists o. split_and!; [|by apply (checked_same s s2); auto|done].
  destruct Hin as (input' & Hi' & Hsh); [done|]. cbn in Hi'. exists i, input. split_and!; [done| |rewrite Hq; by left].
  apply (f_equal (.!! i)) in E5. rewrite !list_lookup_fmap, Hi, Hi' in E5. cbn in E5. congruence.
Qed.

Lemma poll_spec offsets s : Inv s → wp (poll_inputs clk wall_clk offsets) (polled s) s.
Proof.
  revert s. induction offsets as [|offset offsets IH]; intros s HI; cbn [poll_inputs]; [wp_step; by apply silent_polled, silent_refl|].
  wp_steps. apply pop_spec; [|by apply IH]. intros q x input Hi Hq. set (s1 := s ⟪ st_shard_inputs ::= _ ⟫).
  assert (same_view s s1) as Hv by done. destruct x as [m|].
  - wp_steps. unfold strategy_now_ns, wp at 1. cbn [fst snd].
    match goal with |- wp (dispatch_strategy_message _ _ _ _ ?t) _ _ => change t with (clk (st_clock_reads s)) end.
    apply (dispatch_spec _ input m q); try done. cbn.
    rewrite list_fmap_insert. apply list_insert_id. rewrite list_lookup_fmap, Hi. done.
  - eapply wp_mono; [apply IH; by apply (inv_ledger s)|]. cbv beta. intros r s' H. unfold polled in *.
    destruct (sp_published_intent r); [|by apply (silent_view s s1)]. destruct H as (o & Ha & Hc & He). exists o.
    split_and!; [by eapply available_pop|by apply (checked_same s s1)|by apply (evaluated_view s s1)].
Qed.

Definition turn s : StrategyPumpResult * StrategyState := strategy_pump_once clk wall_clk hash_order s.
Definition turns (n : nat) s : StrategyState := Nat.iter n (λ s, (turn s).2) s.

(** A turn handles a message of the OMS if there is one, and polls the shards otherwise. *)
Definition turned s (r : StrategyPumpResult) s' : Prop :=
  (∃ m s1, head (st_oms_to_strategy_queue s) = Some (Some m) ∧ oms_step m s1 r s' ∧
     st_active_group_by_id s1 = st_active_group_by_id s ∧ st_execution_blocked s1 = st_execution_blocked s ∧
     st_strategy_to_oms_queue s1 = st_strategy_to_oms_queue s) ∨
  polled s r s'.

Lemma turn_spec s : Inv s → turned s (turn s).1 (turn s).2.
Proof.
  intros HI. enough (wp (strategy_pump_once clk wall_clk hash_order) (turned s) s) by done.
  unfold strategy_pump_once. wp_step. unfold pop_oms_message, wp at 1.
  destruct (st_oms_to_strategy_queue s) as [|x q] eqn:Eq; [cbn; wp_steps; eapply wp_mono; [by apply poll_spec|by right]|]. cbn [fst snd].
  pose proof (inv_messages s HI) as Hm. rewrite Eq in Hm. apply Forall_cons in Hm as [Hx Hm]. set (s1 := s ⟪ st_oms_to_strategy_queue := q ⟫).
  assert (Inv s1) by (destruct HI; by split). destruct x as [m|].
  - eapply wp_mono; [by apply oms_message_spec|]. cbv beta. intros r s' H1. left. exists m, s1. by rewrite Eq.
  - wp_steps. eapply wp_mono; [by apply poll_spec|]. cbv beta. intros r s' H1. right. unfold polled in *.
    destruct (sp_published_intent r) as [intent|]; [|by destruct H1; split]. destruct H1 as (o & Ha & [] & []). exists o. split_and!; [done|by split|].
    split; try done. destruct ev_group0 as (candidate & required & H1 & H2 & H3). exists candidate, required. rewrite <- H2. split_and!; try done; [|apply H3..].
    by apply make_intent_same.
Qed.

(** ** Reachable strategies *)

Definition reachable s : Prop :=
  ∃ index version config inputs to_oms from_oms s0 n,
    make_strategy index version config inputs to_oms from_oms = Some s0 ∧
    Forall (λ m, from_option typed_oms_message True m) from_oms ∧ s = turns n s0.

Lemma turn_inv s : Inv s → Inv (turn s).2.
Proof.
  intros HI. destruct (turn_spec s HI) as [(m & s1 & _ & [] & _)|H]; [done|]. unfold polled in H.
  destruct (sp_published_intent _); [destruct H as (o & _ & _ & []); done|by destruct H].
Qed.

Lemma turns_inv n s : Inv s → Inv (turns n s).
Proof. intros HI. induction n as [|n IH]; [done|]. by apply turn_inv. Qed.

Lemma start_inv index version config inputs to_oms from_oms s0 : make_strategy index version config inputs to_oms from_oms = Some s0 →
  Forall (λ m, from_option typed_oms_message True m) from_oms → Inv s0.
Proof.
  unfold make_strategy. destruct (_ || _) eqn:E; [done|]. destruct (negb (bool_decide (NoDup _))); [done|]. intros [= <-] Hm. guards.
  split; cbn; try done; try lia. intros event id. rewrite !lookup_empty. split; [done|]. by intros (g & [=] & _).
Qed.

Lemma reachable_inv s : reachable s → Inv s.
Proof. intros (index & version & config & inputs & to_oms & from_oms & s0 & n & Hs & Hm & ->). eapply turns_inv, start_inv; eauto. Qed.

Lemma blocked_turn s : Inv s → st_execution_blocked s = true →
  st_execution_blocked (turn s).2 = true ∧ q_sent (st_strategy_to_oms_queue (turn s).2) = q_sent (st_strategy_to_oms_queue s).
Proof.
  intros HI Hb. destruct (turn_spec s HI) as [(m & s1 & _ & [_ [_ Hq] Hb' _] & _ & E1 & E2)|H].
  - rewrite Hq, E2. split; [by apply Hb'; rewrite E1|done].
  - unfold polled in H. destruct (sp_published_intent _); [destruct H as (o & _ & [] & _); congruence|]. destruct H. auto.
Qed.

Lemma blocked_turns n s : Inv s → st_execution_blocked s = true →
  q_sent (st_strategy_to_oms_queue (turns n s)) = q_sent (st_strategy_to_oms_queue s).
Proof.
  intros HI Hb. enough (st_execution_blocked (turns n s) = true ∧ q_sent (st_strategy_to_oms_queue (turns n s)) = q_sent (st_strategy_to_oms_queue s)) by tauto.
  induction n as [|n [IH1 IH2]]; [done|]. destruct (blocked_turn (turns n s) (turns_inv n s HI) IH1) as [H1 H2]. split; [done|by rewrite <- IH2].
Qed.

(** In every reachable state the strategy's two maps of active groups are inverse to each
    other, so an event has at most one; the capital it counts as pending is exactly what its
    groups hold, and fits its type; identities of groups are never used twice.  A group
    leaves the maps only when the OMS says that it was rejected or is over. *)
Theorem active_groups_consistent s : reachable s →
  (∀ event id, st_active_group_by_event s !! event = Some id ↔ ∃ g, st_active_group_by_id s !! id = Some g ∧ ag_event_id g = event) ∧
  st_pending_capital_ticks s = total_pending (st_active_group_by_id s) ∧ 0 ≤ st_pending_capital_ticks s ≤ I64_MAX ∧
  map_Forall (λ id g, 0 < id < st_next_group_intent_id s ∧ 0 ≤ ag_pending_capital_ticks g) (st_active_group_by_id s) ∧
  ∀ id, is_Some (st_active_group_by_id s !! id) → st_active_group_by_id (turn s).2 !! id = None →
    ∃ m, head (st_oms_to_strategy_queue s) = Some (Some m) ∧ ends_group m id.
Proof.
  intros HI%reachable_inv. split_and!; try apply HI; try (by apply inv_pending_range).
  - intros id g Hg. split; [by apply (inv_fresh s HI id g)|by apply (inv_held s HI id g)].
  - intros id Hs Hn. destruct (turn_spec s HI) as [(m & s1 & Hh & [_ _ _ He] & E & _)|H]; [exists m; split; [done|]; apply He; by rewrite ?E|].
    exfalso. unfold polled in H. destruct (sp_published_intent _).
    + destruct H as (o & _ & _ & [_ _ _ _ (candidate & required & _ & _ & _ & _ & E & _)]). rewrite E in Hn. apply lookup_insert_None in Hn as [Hn _].
      rewrite Hn in Hs. by destruct Hs.
    + rewrite (si_groups _ _ _ H) in Hn. rewrite Hn in Hs. by destruct Hs.
Qed.

(** C9: a turn sends nothing to the OMS, or exactly one group intent, and that only for an
    observation out of the queue of its shard, of the strategy's universe, with ordered
    timestamps, not older than allowed and newer than every report that its event is
    unavailable and than the pair's last observation; with no unsafe group seen, no active
    group for the event, a reconciled portfolio, and its full capital within what is
    available after the capital of the groups still pending.  The intent is built from the
    candidate found in that observation, with identities not used before. *)
Theorem strategy_publishes_soundly s : reachable s →
  match sp_published_intent (turn s).1 with
  | None => q_sent (st_strategy_to_oms_queue (turn s).2) = q_sent (st_strategy_to_oms_queue s)
  | Some intent => ∃ o, available_observation s o ∧ checked s (clk (st_clock_reads s)) o ∧
      evaluated s (S (st_clock_reads s)) (clk (st_clock_reads s)) o intent (turn s).2
  end.
Proof.
  intros HI%reachable_inv. destruct (turn_spec s HI) as [(m & s1 & _ & [_ [-> ->] _ _] & _ & _ & ->)|H]; [done|].
  unfold polled in H. by destruct (sp_published_intent _); [|destruct H].
Qed.

(** When the OMS reports that a group of the strategy needs repair, is uncertain or could
    not be repaired, the strategy sends nothing more, whatever arrives afterwards. *)
Theorem unsafe_group_stops_strategy s u n : reachable s → head (st_oms_to_strategy_queue s) = Some (Some (SmGroupState u)) →
  ic_strategy_index (gu_context u) = st_strategy_index s → is_Some (st_active_group_by_id s !! ic_group_intent_id (gu_context u)) →
  unsafe_group_state (gu_execution_state u) = true →
  q_sent (st_strategy_to_oms_queue (turns (S n) s)) = q_sent (st_strategy_to_oms_queue s).
Proof.
  intros HI%reachable_inv Hh Hi [g Hg] Hu. unfold turns. rewrite Nat.iter_succ_r. fold (turns n (turn s).2).
  assert (st_execution_blocked (turn s).2 = true ∧ st_strategy_to_oms_queue (turn s).2 = st_strategy_to_oms_queue s) as [Hb Hq].
  { unfold turn, strategy_pump_once, pop_oms_message, mbind, M_bind. destruct (st_oms_to_strategy_queue s) as [|x q]; [done|]. injection Hh as ->.
    unfold handle_oms_message, handle_group_state, count, mbind, M_bind, gets, modify, mret, M_ret. cbn.
    rewrite (proj2 (Z.eqb_eq _ _) Hi). cbn. rewrite Hg, Hu. done. }
  rewrite blocked_turns; [by rewrite Hq|by apply turn_inv|done].
Qed.
End StrategySafety.

(** ** A concrete strategy

    It learns of its portfolio, publishes a group for the one observation there is, and then
    hears that the group is uncertain. *)

Definition demo_clock (n : nat) : Z := 995 + Z.of_nat n.
Definition demo_wall_clock (n : nat) : Z := 0.
Definition demo_order (l : list Z) : list Z := l.

Definition demo_observation : MonotonicPairObservation :=
  sample_observation ⟪ po_universe_version := 3 ⟫ ⟪ po_easier := sample_view 1 0 100 [4000; 4100] ⟫
    ⟪ po_harder := sample_view 2 1 200 [5000; 4900] ⟫ ⟪ po_ingress_timestamp_ns := 900 ⟫ ⟪ po_book_apply_timestamp_ns := 901 ⟫
    ⟪ po_publish_timestamp_ns := 902 ⟫.
Definition demo_portfolio : StrategyPortfolioUpdate :=
  default_StrategyPortfolioUpdate ⟪ pu_sequence := 1 ⟫ ⟪ pu_available_capital_ticks := 1000000 ⟫ ⟪ pu_venue_portfolio_reconciled := true ⟫.
Definition demo_uncertain : GroupStateUpdate :=
  mkGroupStateUpdate (default_IntentContext ⟪ ic_group_intent_id := 1 ⟫) 1 kGROUP_UNCERTAIN kFAILURE_NONE [] 2 0 false 0.

Definition demo_config : MonotonicArbStrategyConfig := mkMonotonicArbStrategyConfig 9 default_MonotonicArbConfig 1000.
Definition demo_inputs : list StrategyShardInput := [mkStrategyShardInput 0 [Some (ObservedPair demo_observation)]].
Definition demo_messages : list (option OmsToStrategyMessage) :=
  [Some (SmPortfolio demo_portfolio); None; Some (SmGroupState demo_uncertain)].
Definition demo_start : StrategyState (Q := Fifo) :=
  mkStrategyState 0 3 demo_config demo_inputs (mkFifo 8 [] [] []) demo_messages 0 default_StrategyStats
    [mkStrategyShardInputStats 0 0 0 0 0 0 Histogram.empty_histogram Histogram.empty_histogram]
    (replicate 15 0) false false false 0 0 0 1 1 1 ∅ ∅ ∅ ∅ 0.
Definition demo (n : nat) : StrategyState (Q := Fifo) := turns demo_clock demo_wall_clock demo_order n demo_start.

Lemma demo_reachable n : reachable demo_clock demo_wall_clock demo_order (demo n).
Proof.
  exists 0, 3, demo_config, demo_inputs, (mkFifo 8 [] [] []), demo_messages, demo_start, n. split_and!; [vm_compute; reflexivity| |reflexivity].
  repeat (apply Forall_cons; split; [cbn; unfold is_i64; cbn; lia || exact I|]). apply Forall_nil_2.
Qed.

Lemma active_groups_consistent_witness : st_active_group_by_id (demo 2) !! 1 = Some (mkActiveGroup 7 20000 true) ∧
  st_active_group_by_event (demo 2) !! 7 = Some 1.
Proof.
  assert (st_active_group_by_id (demo 2) !! 1 = Some (mkActiveGroup 7 20000 true)) as H by (vm_compute; reflexivity). split; [exact H|].
  destruct (active_groups_consistent demo_clock demo_wall_clock demo_order (demo 2) (demo_reachable 2)) as (Hx & _).
  apply Hx. exists (mkActiveGroup 7 20000 true). split; [exact H|reflexivity].
Defined.

Lemma strategy_publishes_soundly_witness : ∃ o, available_observation (demo 1) o ∧ checked (demo 1) 995 o.
Proof.
  pose proof (strategy_publishes_soundly demo_clock demo_wall_clock demo_order (demo 1) (demo_reachable 1)) as H.
  assert (is_Some (sp_published_intent (turn demo_clock demo_wall_clock demo_order (demo 1)).1)) as [intent E] by (vm_compute; eauto).
  rewrite E in H. destruct H as (o & Ha & Hc & _). exists o. split; [exact Ha|].
  assert (demo_clock (st_clock_reads (demo 1)) = 995) as Et by (vm_compute; reflexivity). rewrite Et in Hc. exact Hc.
Defined.

Lemma unsafe_group_stops_strategy_witness :
  q_sent (st_strategy_to_oms_queue (turns demo_clock demo_wall_clock demo_order 6 (demo 2))) = q_sent (st_strategy_to_oms_queue (demo 2)).
Proof.
  apply (unsafe_group_stops_strategy demo_clock demo_wall_clock demo_order (demo 2) demo_uncertain 5 (demo_reachable 2));
    [vm_compute; reflexivity|vm_compute; reflexivity| |vm_compute; reflexivity]. vm_compute. eauto.
Defined.
End StrategySafety.
