(* ===== verification/OmsRisk.v ===== *)
(** * OmsRisk: the arithmetic of reservations and positions

    The helpers of the anonymous namespace of [cpp/src/oms/oms.cpp]: capital
    reservations, unsigned lot counts, money amounts and the sign convention of
    positions, each with the overflow tests of the source. *)

From S2P Require Import Prelude OmsTypes.

Module Risk.

Definition kPRICE_TICKS_PER_DOLLAR : Z := 10000.
Definition kQUANTITY_LOTS_PER_CONTRACT : Z := 100.
Definition kGROUP_ADMISSION_RESPONSE_SLOTS : Z := 3.
Definition kPORTFOLIO_RECONCILIATION_RETRY_NS : Z := 1000000000.

Definition valid_timestamp_chain (c : IntentContext) : bool :=
  negb (ic_ingress_timestamp_ns c =? 0) &&
  (ic_ingress_timestamp_ns c <=? ic_book_apply_timestamp_ns c) &&
  (ic_book_apply_timestamp_ns c <=? ic_observation_publish_timestamp_ns c) &&
  (ic_observation_publish_timestamp_ns c <=? ic_strategy_dequeue_timestamp_ns c) &&
  (ic_strategy_dequeue_timestamp_ns c <=? ic_evaluation_complete_timestamp_ns c) &&
  (ic_evaluation_complete_timestamp_ns c <=? ic_intent_publish_timestamp_ns c).

Definition full_notional_reservation (quantity_lots : Z) : option Z :=
  if quantity_lots <=? 0 then None
  else
    let unsigned_quantity := u64 quantity_lots in
    if unsigned_quantity >? U64_MAX / kPRICE_TICKS_PER_DOLLAR then None
    else
      let product := u64 (unsigned_quantity * kPRICE_TICKS_PER_DOLLAR) in
      Some (u64 (product / kQUANTITY_LOTS_PER_CONTRACT +
                 (if product mod kQUANTITY_LOTS_PER_CONTRACT =? 0 then 0 else 1))).

Definition absolute_lots (quantity_lots : Z) : option Z :=
  if quantity_lots =? I64_MIN then None
  else Some (u64 (if quantity_lots <? 0 then - quantity_lots else quantity_lots)).

Definition inventory_full_notional_exposure (absolute_quantity_lots : Z) : option Z :=
  if absolute_quantity_lots =? 0 then Some 0
  else if absolute_quantity_lots >? I64_MAX then None
  else full_notional_reservation (i64 absolute_quantity_lots).

(** The quotient of a signed division truncates toward zero. *)
Definition monetary_ticks (quantity_lots price_ticks : Z) : option Z :=
  if (price_ticks <? 0) ||
     (quantity_lots >? I64_MAX / (if price_ticks =? 0 then 1 else price_ticks))
  then None
  else Some (Z.quot (i64 quantity_lots * price_ticks) kQUANTITY_LOTS_PER_CONTRACT).

Definition signed_yes_lots (outcome : Outcome) (action : OrderAction) (quantity_lots : Z) : option Z :=
  if (quantity_lots <=? 0) || bool_decide (outcome = kOUTCOME_UNKNOWN) || bool_decide (action = kACTION_UNKNOWN)
  then None
  else
    let positive := (bool_decide (outcome = kYES) && bool_decide (action = kBUY)) ||
                    (bool_decide (outcome = kNO) && bool_decide (action = kSELL)) in
    Some (if positive then quantity_lots else - quantity_lots).

(** ** The helpers compute what they mean *)

(** One contract is 100 lots and pays one dollar, 10000 ticks: the reservation of
    [q] lots is [100 q] ticks, never rounded and never wrapped. *)
Lemma full_notional_reservation_spec q : is_i64 q →
  full_notional_reservation q = if (0 <? q) && (q <=? U64_MAX / 10000) then Some (100 * q) else None.
Proof.
  intros Hq. unfold is_i64 in Hq. unfold full_notional_reservation, kPRICE_TICKS_PER_DOLLAR, kQUANTITY_LOTS_PER_CONTRACT.
  destruct (Z.leb_spec q 0), (Z.ltb_spec 0 q); try lia; [done|]. cbn [andb].
  rewrite (u64_id q) by (unfold is_u64; lia). rewrite Z.gtb_ltb.
  destruct (Z.ltb_spec (U64_MAX / 10000) q), (Z.leb_spec q (U64_MAX / 10000)); try lia; [done|].
  change (U64_MAX / 10000) with 1844674407370955 in *.
  rewrite (u64_id (q * 10000)) by (unfold is_u64; lia).
  replace (q * 10000) with (q * 100 * 100) by lia. rewrite Z.mod_mul, Z.div_mul by lia.
  change (0 =? 0) with true. cbn [Z.eqb]. rewrite u64_id by (unfold is_u64; lia). f_equal. lia.
Qed.

Lemma full_notional_reservation_positive q r : is_i64 q → full_notional_reservation q = Some r →
  0 < q ∧ r = 100 * q ∧ 0 < r ≤ I64_MAX.
Proof.
  intros Hq H. rewrite full_notional_reservation_spec in H by done.
  destruct (Z.ltb_spec 0 q); [|done]. cbn [andb] in H.
  destruct (Z.leb_spec q (U64_MAX / 10000)) as [Hle|]; [|done]. injection H as <-.
  change (U64_MAX / 10000) with 1844674407370955 in Hle. lia.
Qed.

Lemma absolute_lots_spec q : is_i64 q → q ≠ I64_MIN → absolute_lots q = Some (Z.abs q).
Proof.
  intros Hq Hne. unfold absolute_lots, is_i64 in *. rewrite (proj2 (Z.eqb_neq _ _)) by done.
  f_equal. destruct (Z.ltb_spec q 0); rewrite u64_id by (unfold is_u64; lia); lia.
Qed.

Lemma signed_yes_lots_abs o a q d : signed_yes_lots o a q = Some d → 0 < q ∧ Z.abs d = q ∧ d ≠ 0.
Proof.
  unfold signed_yes_lots. destruct (Z.leb_spec q 0); [done|]. cbn [orb].
  destruct (bool_decide _ || bool_decide _); [done|]. cbn. intros [= <-].
  destruct (_ || _); lia.
Qed.

(** Buying YES and selling NO are the same exposure, and the opposite of the other
    two: an unwind order on the same outcome with the opposite action cancels it. *)
Lemma signed_yes_lots_opposite o q d : signed_yes_lots o kBUY q = Some d → signed_yes_lots o kSELL q = Some (- d).
Proof.
  unfold signed_yes_lots. destruct (Z.leb_spec q 0); [done|]. destruct o;
    repeat case_bool_decide; try congruence; cbn; intros [= <-]; f_equal; lia.
Qed.

End Risk.
