(* ===== verification/Oms.v ===== *)
(** * Oms: the order management system

    Models [cpp/src/oms/oms.cpp] and the class [Oms] of
    [cpp/include/predex/oms/oms.hpp], handler by handler.  The OMS is owned by one
    thread; a method is a command of the state monad [M OmsState].

    - A reference or pointer to a record is the key of the record in its map: the
      C++ maps have stable references and the OMS never erases a record it still
      refers to.
    - [std::unordered_map] iterates in an unspecified order: [hash_order] is an
      arbitrary permutation of the keys.
    - [now_ns()] is the next reading of the sequence [clk].
    - Outgoing queues are used through [PushQueue].  An incoming queue is the list
      of results its next [try_pop] calls return: [None] where the queue is found
      empty, so every interleaving with the producer is some list.
    - Unsigned arithmetic wraps; signed arithmetic is computed in [Z].  The weighted
      average of [account_fill], a [long double] division in C++, is the exact
      truncated quotient. *)

From S2P Require Import Prelude Spsc OmsTypes OmsRisk.
From stdpp Require Import pretty.
Open Scope Z_scope.

Module Oms.
Import Risk.
Section Oms.
Context {Q : Type → Type} `{!PushQueue Q}.

Record OmsState := mkOmsState {
  os_client_order_id_to_oms_request_id_map : gmap string Z;
  os_exchange_order_id_to_oms_request_id_map : gmap string Z;
  os_orders : gmap Z OrderRecord;
  os_market_route_by_id : gmap Z OrderMarketRoute;
  os_active_order_universe : option OrderRouteUniverse;
  os_group_by_id : gmap Z GroupRecord;
  os_group_id_by_strategy_intent : gmap Z (gmap Z Z);
  os_portfolio_by_strategy : gmap Z StrategyPortfolioRecord;
  os_position_by_strategy_and_market : gmap Z (gmap Z StrategyMarketPositionRecord);
  os_venue_position_by_market : gmap Z VenueMarketPositionSnapshot;
  os_accounted_trade_ids : gset string;
  os_strategy_intent_queues : list (option (list (option StrategyIntent)));
  os_strategy_response_queues : list (option (Q OmsToStrategyMessage));
  os_control_command_queue : list (option ControlToOmsCommand);
  os_oms_status_queue : Q OmsToControlStatus;
  os_kalshi_command_queue : Q OmsToKalshiCommand;
  os_venue_event_queues : list (option (list (option KalshiToOmsEvent)));
  os_risk_config : OmsRiskConfig;
  os_venue_portfolio : VenuePortfolioRecord;
  os_telemetry : OmsTelemetrySnapshot;
  os_trading_enabled : bool;
  os_cancel_all_requested : bool;
  os_ready_reported : bool;
  os_execution_incident_active : bool;
  os_execution_fault_reported : bool;
  os_defer_group_state_updates : bool;
  os_next_oms_request_id : Z;
  os_next_oms_group_id : Z;
  os_next_reconciliation_id : Z;
  os_active_reconciliation_id : Z;
  os_next_reconciliation_due_ts_ns : Z;
  os_portfolio_reconciliation_needed : bool;
  os_pending_rest_egress_drained : option OmsRestEgressDrained;
  os_clock_reads : nat;
}.
#[export] Instance eta_OmsState : Eta OmsState := λ r,
  mkOmsState (os_client_order_id_to_oms_request_id_map r)
    (os_exchange_order_id_to_oms_request_id_map r) (os_orders r) (os_market_route_by_id r)
    (os_active_order_universe r) (os_group_by_id r) (os_group_id_by_strategy_intent r)
    (os_portfolio_by_strategy r) (os_position_by_strategy_and_market r)
    (os_venue_position_by_market r) (os_accounted_trade_ids r) (os_strategy_intent_queues r)
    (os_strategy_response_queues r) (os_control_command_queue r) (os_oms_status_queue r)
    (os_kalshi_command_queue r) (os_venue_event_queues r) (os_risk_config r)
    (os_venue_portfolio r) (os_telemetry r) (os_trading_enabled r) (os_cancel_all_requested r)
    (os_ready_reported r) (os_execution_incident_active r) (os_execution_fault_reported r)
    (os_defer_group_state_updates r) (os_next_oms_request_id r) (os_next_oms_group_id r)
    (os_next_reconciliation_id r) (os_active_reconciliation_id r)
    (os_next_reconciliation_due_ts_ns r) (os_portfolio_reconciliation_needed r)
    (os_pending_rest_egress_drained r) (os_clock_reads r).

(** The constructor: empty books, trading disabled. *)
Definition make_oms (responses : list (option (Q OmsToStrategyMessage))) (status : Q OmsToControlStatus)
    (commands : Q OmsToKalshiCommand) (intents : list (option (list (option StrategyIntent))))
    (controls : list (option ControlToOmsCommand)) (venue : list (option (list (option KalshiToOmsEvent))))
    (config : OmsRiskConfig) : OmsState :=
  mkOmsState ∅ ∅ ∅ ∅ None ∅ ∅ ∅ ∅ ∅ ∅ intents responses controls status commands venue config
    default_VenuePortfolioRecord default_OmsTelemetrySnapshot false false false false false false
    1 1 1 0 0 false None 0.

Variable clk : nat → Z.
Variable hash_order : list Z → list Z.

Definition now_ns : M OmsState Z := λ s, (clk (os_clock_reads s), s ⟪ os_clock_reads ::= S ⟫).

Definition incr (n : Z) : Z := u64 (n + 1).

Definition map_keys {A} (m : gmap Z A) : list Z := hash_order (map_to_list m).*1.

(** [counter++] *)
Definition fresh_request_id : M OmsState Z := λ s,
  (os_next_oms_request_id s, s ⟪ os_next_oms_request_id ::= incr ⟫).

Definition tele (f : OmsTelemetrySnapshot → OmsTelemetrySnapshot) : M OmsState unit :=
  modify (λ s, s ⟪ os_telemetry ::= f ⟫).

(** ** Records by reference *)

Definition order_at (k : Z) (s : OmsState) : OrderRecord := default default_OrderRecord (os_orders s !! k).
Definition group_at (g : Z) (s : OmsState) : GroupRecord := default default_GroupRecord (os_group_by_id s !! g).
Definition portfolio_at (i : Z) (s : OmsState) : StrategyPortfolioRecord :=
  default default_StrategyPortfolioRecord (os_portfolio_by_strategy s !! i).
Definition position_at (i m : Z) (s : OmsState) : StrategyMarketPositionRecord :=
  default default_StrategyMarketPositionRecord (default ∅ (os_position_by_strategy_and_market s !! i) !! m).

Definition upd_order (k : Z) (f : OrderRecord → OrderRecord) : M OmsState unit :=
  modify (λ s, s ⟪ os_orders ::= alter f k ⟫).
Definition upd_group (g : Z) (f : GroupRecord → GroupRecord) : M OmsState unit :=
  modify (λ s, s ⟪ os_group_by_id ::= alter f g ⟫).
Definition upd_portfolio (i : Z) (f : StrategyPortfolioRecord → StrategyPortfolioRecord) : M OmsState unit :=
  modify (λ s, s ⟪ os_portfolio_by_strategy ::= alter f i ⟫).
Definition upd_position (i m : Z) (f : StrategyMarketPositionRecord → StrategyMarketPositionRecord)
    : M OmsState unit :=
  modify (λ s, s ⟪ os_position_by_strategy_and_market ::= alter (alter f m) i ⟫).

(** ** Sending *)

Definition send_strategy_message (strategy_index : Z) (m : OmsToStrategyMessage) : M OmsState bool := λ s,
  match os_strategy_response_queues s !! Z.to_nat strategy_index with
  | Some (Some queue) =>
      let '(b, queue') := q_push m queue in
      let s := s ⟪ os_strategy_response_queues ::= <[Z.to_nat strategy_index := Some queue']> ⟫ in
      (b, if b then s else s ⟪ os_telemetry ::= λ t, t ⟪ tm_strategy_response_backpressure ::= incr ⟫ ⟫)
  | _ => (false, s ⟪ os_telemetry ::= λ t, t ⟪ tm_strategy_response_backpressure ::= incr ⟫ ⟫)
  end.

Definition send_kalshi_command (c : OmsToKalshiCommand) : M OmsState bool := λ s,
  let '(b, queue) := q_push c (os_kalshi_command_queue s) in
  (b, s ⟪ os_kalshi_command_queue := queue ⟫
        ⟪ os_telemetry ::= λ t, if b then t ⟪ tm_kalshi_commands_sent ::= incr ⟫
                                else t ⟪ tm_kalshi_commands_failed ::= incr ⟫ ⟫).

Definition send_control_status (st : OmsToControlStatus) : M OmsState bool := λ s,
  let '(b, queue) := q_push st (os_oms_status_queue s) in (b, s ⟪ os_oms_status_queue := queue ⟫).

(** ** Orders *)

Definition is_terminal (state : OrderState) : bool :=
  match state with kFILLED | kCANCELED | kREJECTED | kEXPIRED => true | _ => false end.
Definition is_live (state : OrderState) : bool :=
  negb (bool_decide (state = kORDER_UNKNOWN)) && negb (is_terminal state).
Definition is_cancelable (state : OrderState) : bool :=
  match state with kPENDING_SUBMIT | kWORKING | kPARTIALLY_FILLED | kUNCERTAIN => true | _ => false end.

Definition count_orders (p : OrderState → bool) (s : OmsState) : Z :=
  Z.of_nat (length (filter (λ x : Z * OrderRecord, p (od_order_state x.2) = true) (map_to_list (os_orders s)))).
Definition live_order_count : OmsState → Z := count_orders is_live.
Definition pending_submit_order_count : OmsState → Z :=
  count_orders (λ st, bool_decide (st = kPENDING_SUBMIT)).
Definition uncertain_order_count : OmsState → Z := count_orders (λ st, bool_decide (st = kUNCERTAIN)).

Definition make_client_order_id (oms_request_id : Z) : ClientOrderId :=
  (assign_from ("px-" +:+ pretty (Z.to_N oms_request_id))).2.

Definition make_order_state_update (r : OrderRecord) (source : VenueEventSource) (ts : Z) : OrderStateUpdate :=
  default_OrderStateUpdate
    ⟪ ou_client_order_id := od_client_order_id r ⟫
    ⟪ ou_exchange_order_id := default "" (od_exchange_order_id r) ⟫
    ⟪ ou_context := od_context r ⟫ ⟪ ou_order_state := od_order_state r ⟫ ⟪ ou_update_source := source ⟫
    ⟪ ou_working_qty_lots := od_leaves_qty_lots r ⟫ ⟪ ou_working_price_ticks := od_working_price_ticks r ⟫
    ⟪ ou_outcome := od_outcome r ⟫ ⟪ ou_ordered_qty_lots := od_ordered_qty_lots r ⟫
    ⟪ ou_cumulative_filled_qty_lots := od_cumulative_filled_qty_lots r ⟫
    ⟪ ou_leaves_qty_lots := od_leaves_qty_lots r ⟫ ⟪ ou_last_update_ts_ns := ts ⟫.

Definition find_order (k : Z) (s : OmsState) : option Z := (λ _, k) <$> os_orders s !! k.
Definition find_order_by_client (id : ClientOrderId) (s : OmsState) : option Z :=
  if id_empty id then None
  else k ← os_client_order_id_to_oms_request_id_map s !! id; find_order k s.
Definition find_order_by_exchange (id : ExchangeOrderId) (s : OmsState) : option Z :=
  if id_empty id then None
  else k ← os_exchange_order_id_to_oms_request_id_map s !! id; find_order k s.

(** The last resort is a scan of the map for the pending command. *)
Definition find_order_for_rest_response (r : RestOrderResponse) (s : OmsState) : option Z :=
  if negb (id_empty (ro_client_order_id r)) then find_order_by_client (ro_client_order_id r) s
  else if negb (id_empty (ro_exchange_order_id r)) then find_order_by_exchange (ro_exchange_order_id r) s
  else
    match find_order (cx_oms_request_id (ro_context r)) s with
    | Some k => Some k
    | None =>
        if cx_oms_request_id (ro_context r) =? 0 then None
        else
          snd <$> list_find (λ k, od_pending_command_oms_request_id (order_at k s) = cx_oms_request_id (ro_context r))
                    (map_keys (os_orders s))
    end.

Definition find_group (g : Z) (s : OmsState) : option Z := (λ _, g) <$> os_group_by_id s !! g.
Definition find_group_by_intent (strategy_index group_intent_id : Z) (s : OmsState) : option Z :=
  groups ← os_group_id_by_strategy_intent s !! strategy_index;
  g ← groups !! group_intent_id;
  find_group g s.

Definition find_market_route (market_id : Z) (s : OmsState) : option OrderMarketRoute :=
  os_market_route_by_id s !! market_id.

Definition clear_pending_command (r : OrderRecord) : OrderRecord :=
  r ⟪ od_pending_command_oms_request_id := 0 ⟫ ⟪ od_pending_command_kind := kREST_UNKNOWN ⟫
    ⟪ od_previous_order_state := kORDER_UNKNOWN ⟫.

Definition restore_previous_state (r : OrderRecord) : OrderRecord :=
  clear_pending_command
    (if bool_decide (od_previous_order_state r = kORDER_UNKNOWN) then r
     else r ⟪ od_order_state := od_previous_order_state r ⟫).

(** ** Status messages *)

Definition emit_order_state_update (k : Z) (source : VenueEventSource) (ts : Z) : M OmsState unit :=
  record ← gets (order_at k);
  sent ← send_strategy_message (ic_strategy_index (cx_context (od_context record)))
           (SmOrderState (make_order_state_update record source ts));
  when sent (tele (λ t, t ⟪ tm_order_state_updates_sent ::= incr ⟫)).

Definition emit_trading_enabled_changed : M OmsState unit :=
  enabled ← gets os_trading_enabled;
  _ ← send_control_status (CsTradingEnabledChanged enabled);
  mret tt.

Definition emit_telemetry : M OmsState unit :=
  modify (λ s, s ⟪ os_telemetry ::= λ t, t ⟪ tm_live_orders := live_order_count s ⟫
    ⟪ tm_pending_submit_orders := pending_submit_order_count s ⟫
    ⟪ tm_uncertain_orders := uncertain_order_count s ⟫ ⟫);;
  t ← gets os_telemetry;
  _ ← send_control_status (CsTelemetry t);
  mret tt.

(** ** Capital *)

Definition portfolio_ready_for_trading (s : OmsState) : bool :=
  negb (rk_require_portfolio_reconciliation (os_risk_config s)) || vr_reconciled (os_venue_portfolio s).

(** The saturating sum of every strategy's reservations, with its early exit. *)
Fixpoint sum_reservations (l : list Z) (global : Z) : Z :=
  match l with
  | [] => global
  | r :: l' => if r >? I64_MAX - global then I64_MAX else sum_reservations l' (global + Z.max 0 r)
  end.

Definition global_reservations (s : OmsState) : Z :=
  sum_reservations ((λ i, pf_reserved_order_capital_ticks (portfolio_at i s)) <$> map_keys (os_portfolio_by_strategy s)) 0.

Definition strategy_available (p : StrategyPortfolioRecord) : Z :=
  let positive_reservations := Z.max 0 (pf_reserved_order_capital_ticks p) in
  let positive_inventory := Z.max 0 (pf_inventory_exposure_ticks p) in
  let strategy_committed :=
    if positive_inventory >? I64_MAX - positive_reservations then I64_MAX
    else positive_reservations + positive_inventory in
  Z.max 0 (pf_allocation_limit_ticks p - Z.min (pf_allocation_limit_ticks p) strategy_committed).

Definition venue_available (s : OmsState) : Z :=
  let balance := vr_available_balance_ticks (os_venue_portfolio s) in
  let venue_after_safety :=
    Z.max 0 (balance - Z.min balance (Z.max 0 (rk_venue_safety_reserve_ticks (os_risk_config s)))) in
  Z.max 0 (venue_after_safety - Z.min venue_after_safety (global_reservations s)).

Definition available_capital (p : StrategyPortfolioRecord) (s : OmsState) : Z :=
  if negb (rk_require_portfolio_reconciliation (os_risk_config s)) then strategy_available p
  else if negb (vr_reconciled (os_venue_portfolio s)) then 0
  else Z.min (strategy_available p) (venue_available s).

Definition recompute_strategy_available_capital (i : Z) : M OmsState unit :=
  modify (λ s, s ⟪ os_portfolio_by_strategy ::=
    alter (λ p, p ⟪ pf_available_capital_ticks := available_capital p s ⟫) i ⟫).

Definition recompute_all_strategy_available_capital : M OmsState unit :=
  keys ← gets (λ s, map_keys (os_portfolio_by_strategy s));
  forM_ keys recompute_strategy_available_capital.

Definition ensure_strategy_portfolio (i : Z) : M OmsState unit :=
  existing ← gets (λ s, os_portfolio_by_strategy s !! i);
  match existing with
  | Some _ => mret tt
  | None =>
      modify (λ s, let limit := rk_strategy_allocation_limit_ticks (os_risk_config s) in
        s ⟪ os_portfolio_by_strategy ::= <[i := default_StrategyPortfolioRecord ⟪ pf_strategy_index := i ⟫
              ⟪ pf_allocation_limit_ticks := limit ⟫ ⟪ pf_available_capital_ticks := limit ⟫]> ⟫);;
      recompute_strategy_available_capital i
  end.

Definition ensure_strategy_market_position (i m event_id : Z) : M OmsState unit :=
  modify (λ s, s ⟪ os_position_by_strategy_and_market ::=
    partial_alter (λ o, Some (let positions := default ∅ o in
      match positions !! m with
      | Some _ => positions
      | None => <[m := default_StrategyMarketPositionRecord ⟪ ps_strategy_index := i ⟫
                         ⟪ ps_market_id := m ⟫ ⟪ ps_event_id := event_id ⟫]> positions
      end)) i ⟫).

(** [portfolio.next_sequence++] *)
Definition next_sequence (i : Z) : M OmsState Z := λ s,
  (pf_next_sequence (portfolio_at i s),
   s ⟪ os_portfolio_by_strategy ::= alter (λ p, p ⟪ pf_next_sequence ::= incr ⟫) i ⟫).

Definition emit_strategy_portfolio_update (i ts : Z) : M OmsState unit :=
  sequence ← next_sequence i;
  p ← gets (portfolio_at i);
  venue ← gets os_venue_portfolio;
  _ ← send_strategy_message (pf_strategy_index p) (SmPortfolio (mkStrategyPortfolioUpdate
        (pf_strategy_index p) sequence (pf_allocation_limit_ticks p) (pf_available_capital_ticks p)
        (pf_reserved_order_capital_ticks p) (pf_inventory_exposure_ticks p) (pf_realized_pnl_ticks p)
        (pf_fees_paid_ticks p) (vr_available_balance_ticks venue) (vr_reconciled venue)
        (pf_open_order_count p) (pf_active_group_count p) ts));
  mret tt.

Definition emit_strategy_market_position_update (i m ts : Z) : M OmsState unit :=
  p ← gets (position_at i m);
  ensure_strategy_portfolio (ps_strategy_index p);;
  sequence ← next_sequence (ps_strategy_index p);
  _ ← send_strategy_message (ps_strategy_index p) (SmPosition (mkStrategyMarketPositionUpdate
        (ps_strategy_index p) sequence (ps_market_id p) (ps_event_id p) (ps_net_position_lots p)
        (ps_resting_buy_qty_lots p) (ps_resting_sell_qty_lots p) (ps_average_entry_price_ticks p)
        (ps_position_cost_ticks p) (ps_market_exposure_ticks p) (ps_realized_pnl_ticks p)
        (ps_fees_paid_ticks p) ts));
  mret tt.

(** [reserve_group_capital] and [release_group_capital] take the group by
    reference; here they take and return it. *)
Definition reserve_group_capital (group : GroupRecord) : M OmsState (bool * GroupRecord) :=
  if (gr_reserved_capital_ticks group =? 0) || (gr_reserved_capital_ticks group >? I64_MAX)
  then mret (false, group)
  else
    let i := ic_strategy_index (gr_context group) in
    ensure_strategy_portfolio i;;
    let reservation := i64 (gr_reserved_capital_ticks group) in
    p ← gets (portfolio_at i);
    if pf_available_capital_ticks p <? reservation then mret (false, group)
    else
      upd_portfolio i (λ p, p ⟪ pf_reserved_order_capital_ticks ::= Z.add reservation ⟫
                              ⟪ pf_active_group_count ::= λ n, u32 (n + 1) ⟫);;
      recompute_strategy_available_capital i;;
      mret (true, group ⟪ gr_capital_released := false ⟫).

Definition release_group_capital_of (group : GroupRecord) : M OmsState GroupRecord :=
  if gr_capital_released group then mret group
  else
    let i := ic_strategy_index (gr_context group) in
    ensure_strategy_portfolio i;;
    p ← gets (portfolio_at i);
    let released := Z.min (pf_reserved_order_capital_ticks p) (i64 (gr_reserved_capital_ticks group)) in
    upd_portfolio i (λ p, p ⟪ pf_reserved_order_capital_ticks ::= λ r, r - released ⟫
                            ⟪ pf_active_group_count ::= λ n, if n >? 0 then n - 1 else n ⟫);;
    recompute_strategy_available_capital i;;
    ts ← now_ns;
    emit_strategy_portfolio_update i ts;;
    mret (group ⟪ gr_reserved_capital_ticks ::= λ r, u64 (r - u64 released) ⟫ ⟪ gr_capital_released := true ⟫).

Definition release_group_capital (g : Z) : M OmsState unit :=
  group ← gets (group_at g);
  group' ← release_group_capital_of group;
  upd_group g (λ _, group').

(** ** Groups: messages *)

Definition leg_indices (group : GroupRecord) : list nat := seq 0 (Z.to_nat (gr_leg_count group)).
Definition leg_id (group : GroupRecord) (i : nat) : Z := default 0 (gr_original_leg_request_ids group !! i).

Definition emit_group_admission_response (group : GroupRecord) (state : GroupAdmissionState)
    (reject_reason : RejectReason) (recv_ts_ns : Z) : M OmsState unit :=
  let accepted := bool_decide (state = kADMISSION_ACCEPTED) in
  ts ← now_ns;
  _ ← send_strategy_message (ic_strategy_index (gr_context group)) (SmAdmission (mkGroupAdmissionResponse
        (gr_context group) (gr_oms_group_id group) state reject_reason
        (if accepted then gr_leg_count group else 0)
        (if accepted then gr_reserved_capital_ticks group else 0) recv_ts_ns ts));
  mret tt.

Definition group_leg_state (r : OrderRecord) : GroupLegState :=
  mkGroupLegState (cx_oms_request_id (od_context r)) (od_market_id r) (od_group_leg_index r) (od_order_state r)
    (od_ordered_qty_lots r) (od_cumulative_filled_qty_lots r) (od_leaves_qty_lots r).

Definition group_legs (group : GroupRecord) (s : OmsState) : list GroupLegState :=
  foldl (λ legs i,
    match os_orders s !! leg_id group i with
    | None => legs
    | Some r => <[i := group_leg_state r]> legs
    end) (replicate kMAX_ORDERS_PER_GROUP default_GroupLegState) (leg_indices group).

Definition emit_group_state_update (group : GroupRecord) (ts : Z) : M OmsState unit :=
  legs ← gets (group_legs group);
  _ ← send_strategy_message (ic_strategy_index (gr_context group)) (SmGroupState (mkGroupStateUpdate
        (gr_context group) (gr_oms_group_id group) (gr_execution_state group) (gr_failure_reason group)
        legs (gr_leg_count group) (gr_repair_attempt_count group) (gr_residual_exposure_present group) ts));
  mret tt.

(** [emit_group_state_update] on a group of the map. *)
Definition emit_group_update (g ts : Z) : M OmsState unit :=
  group ← gets (group_at g);
  emit_group_state_update group ts.

(** ** Admission of a group *)

Definition reject_check (reason : RejectReason) : GroupAdmissionCheck := mkGroupAdmissionCheck false reason 0.

(** Guards of one leg; [earlier] are the legs before it. *)
Definition check_leg (group : GroupOrderIntent) (s : OmsState) (earlier : list NewOrderIntent) (i : Z)
    (leg : NewOrderIntent) : option RejectReason :=
  let gc := gi_context group in
  let c := no_context leg in
  if negb (ic_strategy_index c =? ic_strategy_index gc) || negb (ic_event_id c =? ic_event_id gc)
     || negb (ic_strategy_id c =? ic_strategy_id gc) || negb (ic_signal_id c =? ic_signal_id gc)
     || negb (ic_group_intent_id c =? ic_group_intent_id gc)
     || negb (ic_universe_version c =? ic_universe_version gc)
     || negb (ic_event_revision c =? ic_event_revision gc)
     || negb (ic_source_shard_index c =? ic_source_shard_index gc)
     || negb (ic_leg_index c =? i) || negb (ic_leg_count c =? gi_leg_count group)
     || (ic_market_id c =? 0) || (ic_strategy_intent_id c =? 0)
  then Some kINVALID_INTENT
  else if (no_price_ticks leg <=? 0) || (no_price_ticks leg >=? kPRICE_TICKS_PER_DOLLAR)
     || (no_quantity_lots leg <=? 0) || bool_decide (no_outcome leg = kOUTCOME_UNKNOWN)
     || bool_decide (no_action leg = kACTION_UNKNOWN)
     || negb (bool_decide (no_liquidity_intent leg = kTAKER))
     || negb (bool_decide (no_order_type leg = kMARKETABLE_LIMIT))
     || negb (bool_decide (no_time_in_force leg = kFOK))
  then Some kINVALID_INTENT
  else if negb (valid_timestamp_chain c) then Some kINVALID_INTENT
  else
    match find_market_route (ic_market_id c) s with
    | None => Some kUNKNOWN_MARKET
    | Some route =>
        if negb (mr_tradeable route) then Some kMARKET_NOT_TRADEABLE
        else if negb (mr_event_id route =? ic_event_id gc) then Some kINVALID_INTENT
        else if existsb (λ e, (ic_market_id (no_context e) =? ic_market_id c)
                              || (ic_strategy_intent_id (no_context e) =? ic_strategy_intent_id c)) earlier
        then Some kINVALID_INTENT
        else None
    end.

(** The loop over the legs, accumulating the required capital. *)
Fixpoint check_legs (group : GroupOrderIntent) (s : OmsState) (earlier legs : list NewOrderIntent)
    (i required : Z) : RejectReason + Z :=
  match legs with
  | [] => inr required
  | leg :: legs' =>
      match check_leg group s earlier i leg with
      | Some reason => inl reason
      | None =>
          match full_notional_reservation (no_quantity_lots leg) with
          | None => inl kRISK_REJECTED
          | Some leg_reservation =>
              if required >? U64_MAX - leg_reservation then inl kRISK_REJECTED
              else check_legs group s (earlier ++ [leg]) legs' (i + 1) (u64 (required + leg_reservation))
          end
      end
  end.

Definition universe_ready (s : OmsState) : bool :=
  match os_active_order_universe s with
  | None => false
  | Some u => negb (un_version u =? 0)
  end.

(** The guards before the clock is read. *)
Definition check_group_preconditions (group : GroupOrderIntent) (s : OmsState) : option RejectReason :=
  let c := gi_context group in
  if os_execution_incident_active s then Some kEXECUTION_BLOCKED
  else if negb (os_trading_enabled s) then Some kTRADING_DISABLED
  else if negb (universe_ready s) then Some kOMS_NOT_READY
  else if negb (portfolio_ready_for_trading s) then Some kOMS_NOT_READY
  else if negb (bool_decide (gi_admission_policy group = kALL_OR_NONE)) then Some kINVALID_INTENT
  else
    match os_strategy_response_queues s !! Z.to_nat (ic_strategy_index c) with
    | Some (Some queue) =>
        if (q_size queue >? q_capacity queue) || (q_capacity queue - q_size queue <? kGROUP_ADMISSION_RESPONSE_SLOTS)
        then Some kOMS_NOT_READY
        else if (ic_group_intent_id c =? 0) || (ic_event_id c =? 0) || (ic_universe_version c =? 0)
             || (ic_event_revision c =? 0) || negb (ic_leg_count c =? gi_leg_count group)
        then Some kINVALID_INTENT
        else if negb (ic_universe_version c =? default 0 (un_version <$> os_active_order_universe s))
        then Some kINVALID_INTENT
        else if (gi_leg_count group <? 2) || (gi_leg_count group >? Z.of_nat (length (gi_new_orders group)))
             || (gi_leg_count group >? rk_maximum_group_legs (os_risk_config s))
        then Some kINVALID_INTENT
        else if (rk_strategy_allocation_limit_ticks (os_risk_config s) <=? 0)
             || (rk_maximum_group_reservation_ticks (os_risk_config s) =? 0)
             || (rk_maximum_group_intent_age_ns (os_risk_config s) =? 0)
        then Some kRISK_REJECTED
        else if negb (valid_timestamp_chain c) then Some kINVALID_INTENT
        else None
    | _ => Some kOMS_NOT_READY
    end.

(** The guards after it. *)
Definition check_group_risk (group : GroupOrderIntent) (current_time_ns : Z) (s : OmsState) : GroupAdmissionCheck :=
  let c := gi_context group in
  if (ic_intent_publish_timestamp_ns c >? current_time_ns)
     || (current_time_ns - ic_intent_publish_timestamp_ns c >? rk_maximum_group_intent_age_ns (os_risk_config s))
  then reject_check kINVALID_INTENT
  else if bool_decide (is_Some (find_group_by_intent (ic_strategy_index c) (ic_group_intent_id c) s))
  then reject_check kDUPLICATE_INTENT
  else if (gi_expected_gross_edge_ticks group <? gi_estimated_fee_ticks group)
     || negb (gi_expected_net_edge_ticks group =? gi_expected_gross_edge_ticks group - gi_estimated_fee_ticks group)
     || (gi_expected_net_edge_ticks group =? 0)
  then reject_check kINVALID_INTENT
  else
    match check_legs group s [] (take (Z.to_nat (gi_leg_count group)) (gi_new_orders group)) 0 0 with
    | inl reason => reject_check reason
    | inr required =>
        if (required =? 0) || (required >? rk_maximum_group_reservation_ticks (os_risk_config s))
           || (required >? I64_MAX)
        then reject_check kRISK_REJECTED
        else
          let available :=
            match os_portfolio_by_strategy s !! ic_strategy_index c with
            | Some p => pf_available_capital_ticks p
            | None => rk_strategy_allocation_limit_ticks (os_risk_config s)
            end in
          if (available <? 0) || (required >? u64 available) then reject_check kRISK_REJECTED
          else mkGroupAdmissionCheck true kREJECT_NONE required
    end.

Definition check_group_admission (group : GroupOrderIntent) : M OmsState GroupAdmissionCheck :=
  blocked ← gets (check_group_preconditions group);
  match blocked with
  | Some reason => mret (reject_check reason)
  | None =>
      current_time_ns ← now_ns;
      gets (check_group_risk group current_time_ns)
  end.

(** ** Accounting for fills and terminal orders *)

Definition overflows_i64 (residual delta : Z) : bool :=
  ((delta >? 0) && (residual >? I64_MAX - delta)) || ((delta <? 0) && (residual <? I64_MIN - delta)).

(** The group's residual exposure of the filled leg. *)
Definition account_residual (k signed_delta : Z) : M OmsState unit :=
  order ← gets (order_at k);
  group ← gets (λ s, os_group_by_id s !! od_oms_group_id order);
  match group with
  | None => mret tt
  | Some group =>
      if negb (od_group_leg_index order <? gr_leg_count group) then mret tt
      else
        let leg := Z.to_nat (od_group_leg_index order) in
        let residual := default 0 (gr_residual_yes_lots group !! leg) in
        upd_group (od_oms_group_id order) (λ g,
          if overflows_i64 residual signed_delta then g ⟪ gr_venue_state_uncertain := true ⟫
          else g ⟪ gr_residual_yes_lots ::= <[leg := residual + signed_delta]> ⟫)
  end.

(** Average entry price and realized profit after a fill: [None] leaves the
    profit unchanged. *)
Definition fill_position (p : StrategyMarketPositionRecord) (signed_delta old_abs delta_abs yes_price : Z)
    : Z * option Z :=
  let delta_side_price := if signed_delta >? 0 then yes_price else kPRICE_TICKS_PER_DOLLAR - yes_price in
  let same_direction := (ps_net_position_lots p =? 0)
                        || Bool.eqb (ps_net_position_lots p >? 0) (signed_delta >? 0) in
  if same_direction then
    let new_abs := u64 (old_abs + delta_abs) in
    (if new_abs =? 0 then ps_average_entry_price_ticks p
     else Z.quot (old_abs * ps_average_entry_price_ticks p + delta_abs * delta_side_price) new_abs, None)
  else
    let closed_lots := Z.min old_abs delta_abs in
    let exit_price := if ps_net_position_lots p >? 0 then yes_price else kPRICE_TICKS_PER_DOLLAR - yes_price in
    let average := ps_average_entry_price_ticks p in
    let pnl := monetary_ticks closed_lots (if exit_price - average <? 0 then average - exit_price else exit_price - average) in
    (if delta_abs >? old_abs then delta_side_price else if delta_abs =? old_abs then 0 else average,
     (λ v, if exit_price >=? average then v else - v) <$> pnl).

Definition exposure_or_max (lots : option Z) : Z :=
  match (match lots with Some l => inventory_full_notional_exposure l | None => None end) with
  | Some e => i64 e
  | None => I64_MAX
  end.

(** Release the part of the reservation that the fill used up. *)
Definition release_fill_reservation (k i fill_qty : Z) : M OmsState unit :=
  match full_notional_reservation fill_qty with
  | None => mret tt
  | Some fill_reservation =>
      order ← gets (order_at k);
      let released := Z.min (od_reserved_capital_ticks order) (i64 fill_reservation) in
      upd_order k (λ o, o ⟪ od_reserved_capital_ticks ::= λ r, r - released ⟫);;
      upd_portfolio i (λ p, p ⟪ pf_reserved_order_capital_ticks ::= λ r, r - Z.min r released ⟫);;
      upd_group (od_oms_group_id order) (λ g, g ⟪ gr_reserved_capital_ticks ::= λ r, u64 (r - Z.min r (u64 released)) ⟫)
  end.

Definition account_fill (k : Z) (event : PrivateWsOrderEvent) : M OmsState unit :=
  order ← gets (order_at k);
  let outcome := if bool_decide (pw_outcome event = kOUTCOME_UNKNOWN) then od_outcome order else pw_outcome event in
  let action := if bool_decide (pw_action event = kACTION_UNKNOWN) then od_action order else pw_action event in
  let qty := pw_last_fill_qty_lots event in
  let price := pw_last_fill_price_ticks event in
  if (qty <=? 0) || (price <=? 0) || (price >=? kPRICE_TICKS_PER_DOLLAR)
     || bool_decide (outcome = kOUTCOME_UNKNOWN) || bool_decide (action = kACTION_UNKNOWN)
  then mret tt
  else
    match signed_yes_lots outcome action qty with
    | None => mret tt
    | Some signed_delta =>
        account_residual k signed_delta;;
        let i := ic_strategy_index (cx_context (od_context order)) in
        let m := od_market_id order in
        ensure_strategy_market_position i m (ic_event_id (cx_context (od_context order)));;
        ensure_strategy_portfolio i;;
        position ← gets (position_at i m);
        match absolute_lots (ps_net_position_lots position), absolute_lots signed_delta with
        | Some old_abs, Some delta_abs =>
            let yes_price := if bool_decide (outcome = kYES) then price else kPRICE_TICKS_PER_DOLLAR - price in
            let '(average, pnl) := fill_position position signed_delta old_abs delta_abs yes_price in
            let new_position := ps_net_position_lots position + signed_delta in
            let new_abs := absolute_lots new_position in
            let exposure := exposure_or_max new_abs in
            let cost := default 0 (l ← new_abs; monetary_ticks l average) in
            upd_position i m (λ p, p ⟪ ps_average_entry_price_ticks := average ⟫
              ⟪ ps_realized_pnl_ticks ::= Z.add (default 0 pnl) ⟫ ⟪ ps_net_position_lots := new_position ⟫
              ⟪ ps_market_exposure_ticks := exposure ⟫ ⟪ ps_position_cost_ticks := cost ⟫);;
            upd_portfolio i (λ p, p ⟪ pf_realized_pnl_ticks ::= Z.add (default 0 pnl) ⟫
              ⟪ pf_inventory_exposure_ticks ::= λ e, e + (exposure - ps_market_exposure_ticks position) ⟫);;
            release_fill_reservation k i qty;;
            recompute_all_strategy_available_capital;;
            emit_strategy_market_position_update i m (pw_recv_ts_ns event);;
            emit_strategy_portfolio_update i (pw_recv_ts_ns event);;
            modify (λ s, s ⟪ os_portfolio_reconciliation_needed :=
                             rk_require_portfolio_reconciliation (os_risk_config s) ⟫)
        | _, _ => mret tt
        end
    end.

Definition account_terminal_order (k ts : Z) : M OmsState unit :=
  order ← gets (order_at k);
  if negb (is_terminal (od_order_state order)) || od_terminal_accounted order then mret tt
  else
    upd_order k (λ o, o ⟪ od_terminal_accounted := true ⟫);;
    let i := ic_strategy_index (cx_context (od_context order)) in
    ensure_strategy_portfolio i;;
    upd_portfolio i (λ p, p ⟪ pf_open_order_count ::= λ n, if n >? 0 then n - 1 else n ⟫);;
    when (negb (bool_decide (od_order_state order = kFILLED)) && (od_reserved_capital_ticks order >? 0))
      (p ← gets (portfolio_at i);
       let released := Z.min (pf_reserved_order_capital_ticks p) (od_reserved_capital_ticks order) in
       upd_portfolio i (λ p, p ⟪ pf_reserved_order_capital_ticks ::= λ r, r - released ⟫);;
       upd_group (od_oms_group_id order) (λ g, g ⟪ gr_reserved_capital_ticks ::= λ r, u64 (r - Z.min r (u64 released)) ⟫);;
       upd_order k (λ o, o ⟪ od_reserved_capital_ticks ::= λ r, r - released ⟫));;
    recompute_all_strategy_available_capital;;
    emit_strategy_portfolio_update i ts.

(** ** The venue's portfolio *)

Definition average_entry (lots : option Z) (cost : Z) : Z :=
  match lots with
  | Some l =>
      if (l >? 0) && (cost >=? 0) && (u64 cost <=? U64_MAX / kQUANTITY_LOTS_PER_CONTRACT)
      then i64 (u64 (u64 cost * kQUANTITY_LOTS_PER_CONTRACT) / l) else 0
  | None => 0
  end.

(** The exposure the venue reports, or the full notional of the position, or the
    maximum when that does not fit. *)
Definition resolved_exposure (v : VenueMarketPositionSnapshot) : Z :=
  if vp_market_exposure_present v then vp_market_exposure_ticks v
  else
    match (l ← absolute_lots (vp_net_position_lots v); inventory_full_notional_exposure l) with
    | Some e => if e <=? I64_MAX then i64 e else I64_MAX
    | None => I64_MAX
    end.

Definition apply_venue_market_position (v : VenueMarketPositionSnapshot) (ts : Z) : M OmsState unit :=
  if vp_market_id v =? 0 then mret tt
  else
    let m := vp_market_id v in
    modify (λ s, s ⟪ os_venue_position_by_market ::= <[m := v]> ⟫);;
    count ← gets (λ s, length (os_strategy_response_queues s));
    if negb (count =? 1)%nat then mret tt
    else
      ensure_strategy_market_position 0 m (vp_event_id v);;
      ensure_strategy_portfolio 0;;
      previous ← gets (position_at 0 m);
      let realized := if vp_realized_pnl_present v then vp_realized_pnl_ticks v else ps_realized_pnl_ticks previous in
      let fees := if vp_fees_paid_present v then vp_fees_paid_ticks v else ps_fees_paid_ticks previous in
      let exposure := resolved_exposure v in
      upd_position 0 m (λ p, p ⟪ ps_net_position_lots := vp_net_position_lots v ⟫
        ⟪ ps_position_cost_ticks ::= λ c, if vp_position_cost_present v then vp_position_cost_ticks v else c ⟫
        ⟪ ps_realized_pnl_ticks := realized ⟫ ⟪ ps_fees_paid_ticks := fees ⟫
        ⟪ ps_market_exposure_ticks := exposure ⟫
        ⟪ ps_average_entry_price_ticks :=
            average_entry (absolute_lots (vp_net_position_lots v)) (vp_position_cost_ticks v) ⟫);;
      upd_portfolio 0 (λ p, p
        ⟪ pf_inventory_exposure_ticks ::= λ e, e + (exposure - ps_market_exposure_ticks previous) ⟫
        ⟪ pf_realized_pnl_ticks ::= λ r, r + (realized - ps_realized_pnl_ticks previous) ⟫
        ⟪ pf_fees_paid_ticks ::= λ f, f + (fees - ps_fees_paid_ticks previous) ⟫);;
      recompute_all_strategy_available_capital;;
      emit_strategy_market_position_update 0 m ts;;
      emit_strategy_portfolio_update 0 ts.

Definition maybe_report_ready : M OmsState unit :=
  skip ← gets (λ s, os_ready_reported s || negb (universe_ready s) || negb (portfolio_ready_for_trading s));
  if skip : bool then mret tt
  else
    sent ← send_control_status CsReady;
    when sent (modify (λ s, s ⟪ os_ready_reported := true ⟫)).

Definition maybe_request_portfolio_reconciliation : M OmsState bool :=
  idle ← gets (λ s, negb (rk_require_portfolio_reconciliation (os_risk_config s)) || negb (universe_ready s)
                    || negb (os_active_reconciliation_id s =? 0));
  if idle : bool then mret false
  else
    current_time ← now_ns;
    s0 ← gets id;
    if os_portfolio_reconciliation_needed s0 && negb (os_next_reconciliation_due_ts_ns s0 =? 0)
       && (current_time <? os_next_reconciliation_due_ts_ns s0)
    then mret false
    else
      let periodic_due := negb (rk_portfolio_reconciliation_interval_ns (os_risk_config s0) =? 0)
        && vr_reconciled (os_venue_portfolio s0) && (current_time >=? os_next_reconciliation_due_ts_ns s0) in
      if negb (os_portfolio_reconciliation_needed s0) && negb periodic_due then mret false
      else
        let reconciliation_id := os_next_reconciliation_id s0 in
        modify (λ s, s ⟪ os_next_reconciliation_id ::= incr ⟫);;
        sent ← send_kalshi_command (KcReconcile (mkRequestPortfolioReconciliation reconciliation_id
                 (default 0 (un_version <$> os_active_order_universe s0)) current_time));
        if negb sent then mret false
        else
          modify (λ s, s ⟪ os_active_reconciliation_id := reconciliation_id ⟫
                         ⟪ os_portfolio_reconciliation_needed := false ⟫);;
          tele (λ t, t ⟪ tm_portfolio_reconciliations_requested ::= incr ⟫);;
          emit_telemetry;;
          mret true.

(** ** Cancelling *)

Definition emit_cancel_command_for_record (k : Z) (context : IntentContext) (command_oms_request_id ts : Z)
    : M OmsState bool :=
  record ← gets (order_at k);
  if negb (is_cancelable (od_order_state record)) then mret false
  else
    sent ← send_kalshi_command (KcCancel (mkCancelOrderCmd command_oms_request_id (od_client_order_id record)
             (od_exchange_order_id record)
             (mkCancelOrderIntent context (cx_oms_request_id (od_context record))) ts));
    if negb sent then mret false
    else
      upd_order k (λ o, o ⟪ od_previous_order_state := od_order_state o ⟫ ⟪ od_order_state := kPENDING_CANCEL ⟫
        ⟪ od_pending_command_oms_request_id := command_oms_request_id ⟫
        ⟪ od_pending_command_kind := kCANCEL_ORDER ⟫);;
      emit_order_state_update k kOMS_INTERNAL ts;;
      mret true.

(** Cancel a list of orders, each under a fresh request id; counts the commands. *)
Fixpoint cancel_orders (ks : list Z) (context : OrderRecord → IntentContext) (ts sent : Z) : M OmsState Z :=
  match ks with
  | [] => mret sent
  | k :: ks' =>
      record ← gets (order_at k);
      id ← fresh_request_id;
      ok ← emit_cancel_command_for_record k (context record) id ts;
      cancel_orders ks' context ts (if ok : bool then sent + 1 else sent)
  end.

(** ** Execution incidents *)

Definition in_incident (state : GroupExecutionState) : bool :=
  match state with
  | kREPAIR_REQUIRED | kCANCELING_REMAINDER | kUNWINDING | kGROUP_UNCERTAIN | kREPAIR_FAILED => true
  | _ => false
  end.

Definition group_has_residual_exposure (group : GroupRecord) : bool :=
  existsb (λ i, negb (default 0 (gr_residual_yes_lots group !! i) =? 0)) (leg_indices group).

Definition group_has_confirmed_original_fill (group : GroupRecord) (s : OmsState) : bool :=
  existsb (λ i, match os_orders s !! leg_id group i with
                | Some r => od_cumulative_filled_qty_lots r >? 0
                | None => false
                end) (leg_indices group).

Definition latch_execution_incident : M OmsState unit :=
  active ← gets os_execution_incident_active;
  when (negb active) (modify (λ s, s ⟪ os_execution_incident_active := true ⟫
    ⟪ os_telemetry ::= λ t, t ⟪ tm_execution_incident_active := true ⟫ ⟪ tm_execution_incidents_latched ::= incr ⟫ ⟫));;
  enabled ← gets os_trading_enabled;
  when enabled (modify (λ s, s ⟪ os_trading_enabled := false ⟫);; emit_trading_enabled_changed).

Definition refresh_execution_incident_latch : M OmsState unit :=
  active ← gets (λ s, existsb (λ g, in_incident (gr_execution_state (group_at g s))) (map_keys (os_group_by_id s)));
  modify (λ s, s ⟪ os_execution_incident_active := active ⟫
    ⟪ os_telemetry ::= λ t, t ⟪ tm_execution_incident_active := active ⟫ ⟫
    ⟪ os_execution_fault_reported ::= λ r, if negb active then false else r ⟫).

Definition needs_operator (state : GroupExecutionState) : bool :=
  match state with kGROUP_UNCERTAIN | kREPAIR_FAILED => true | _ => false end.

Definition fault_message (state : GroupExecutionState) : string :=
  match state with
  | kGROUP_UNCERTAIN => "OMS group execution state is uncertain; operator reconciliation required"
  | _ => "OMS group repair failed; residual exposure may remain"
  end.

Definition maybe_report_execution_fault : M OmsState unit :=
  reported ← gets os_execution_fault_reported;
  if reported : bool then mret tt
  else
    found ← gets (λ s, list_find (λ g, needs_operator (gr_execution_state (group_at g s)) = true)
                         (map_keys (os_group_by_id s)));
    match found with
    | None => mret tt
    | Some (_, g) =>
        group ← gets (group_at g);
        sent ← send_control_status (CsFaulted (fault_message (gr_execution_state group)));
        when sent (modify (λ s, s ⟪ os_execution_fault_reported := true ⟫))
    end.

Definition fail_group_repair (g : Z) (reason : GroupFailureReason) (ts : Z) : M OmsState unit :=
  group ← gets (group_at g);
  let newly_failed := negb (bool_decide (gr_execution_state group = kREPAIR_FAILED)) in
  upd_group g (λ x, x ⟪ gr_execution_state := kREPAIR_FAILED ⟫ ⟪ gr_failure_reason := reason ⟫
    ⟪ gr_residual_exposure_present := group_has_residual_exposure x ⟫ ⟪ gr_last_update_ts_ns := ts ⟫);;
  latch_execution_incident;;
  when newly_failed
    (tele (λ t, t ⟪ tm_group_repairs_failed ::= incr ⟫);; emit_group_update g ts;; emit_telemetry);;
  maybe_report_execution_fault.

(** ** Repairing a group *)

Definition set_uncertain (g : Z) : M OmsState unit := upd_group g (λ x, x ⟪ gr_venue_state_uncertain := true ⟫).

(** The first loop: which originals can be cancelled, is a cancel pending, and is
    any original missing or uncertain. *)
Fixpoint scan_original_legs (g : Z) (ixs : list nat) (cancelable : list Z) (pending : bool)
    : M OmsState (list Z * bool) :=
  match ixs with
  | [] => mret (cancelable, pending)
  | i :: ixs' =>
      group ← gets (group_at g);
      original ← gets (λ s, os_orders s !! leg_id group i);
      match original with
      | None => set_uncertain g;; scan_original_legs g ixs' cancelable pending
      | Some o =>
          when (bool_decide (od_order_state o = kUNCERTAIN)) (set_uncertain g);;
          if bool_decide (od_order_state o = kPENDING_CANCEL)
          then scan_original_legs g ixs' cancelable true
          else if is_cancelable (od_order_state o)
          then scan_original_legs g ixs' (cancelable ++ [leg_id group i]) pending
          else scan_original_legs g ixs' cancelable pending
      end
  end.

Definition uncertain_or (group : GroupRecord) (state : GroupExecutionState) : GroupExecutionState :=
  if gr_venue_state_uncertain group then kGROUP_UNCERTAIN else state.

Definition reconciliation_needed : M OmsState unit :=
  modify (λ s, s ⟪ os_portfolio_reconciliation_needed := rk_require_portfolio_reconciliation (os_risk_config s) ⟫).

Definition command_room (s : OmsState) (count : Z) : bool :=
  let queue := os_kalshi_command_queue s in
  negb ((q_size queue >? q_capacity queue) || (q_capacity queue - q_size queue <? count)).

(** The branch for cancelable originals. *)
Definition cancel_remainder (g : Z) (cancelable : list Z) (ts : Z) : M OmsState unit :=
  group ← gets (group_at g);
  limit ← gets (λ s, rk_maximum_group_repair_attempts (os_risk_config s));
  if gr_cancel_attempt_count group >=? limit then
    if gr_venue_state_uncertain group then
      upd_group g (λ x, x ⟪ gr_execution_state := kGROUP_UNCERTAIN ⟫ ⟪ gr_last_update_ts_ns := ts ⟫);;
      emit_group_update g ts;;
      maybe_report_execution_fault
    else fail_group_repair g kCANCEL_FAILED ts
  else
    room ← gets (λ s, command_room s (Z.of_nat (length cancelable)));
    if negb room then upd_group g (λ x, x ⟪ gr_execution_state := uncertain_or x kREPAIR_REQUIRED ⟫)
    else
      commands_sent ← cancel_orders cancelable (λ _, gr_context group) ts 0;
      when (negb (commands_sent =? Z.of_nat (length cancelable))) (set_uncertain g);;
      when (commands_sent >? 0)
        (upd_group g (λ x, x ⟪ gr_cancel_attempt_count ::= λ n, u8 (n + 1) ⟫);;
         tele (λ t, t ⟪ tm_group_repair_commands_sent ::= λ n, u64 (n + commands_sent) ⟫));;
      upd_group g (λ x, x ⟪ gr_execution_state := uncertain_or x kCANCELING_REMAINDER ⟫
                          ⟪ gr_last_update_ts_ns := ts ⟫);;
      emit_group_update g ts;;
      emit_telemetry;;
      uncertain ← gets (λ s, gr_venue_state_uncertain (group_at g s));
      when uncertain (reconciliation_needed;; maybe_report_execution_fault).

(** The second loop: is a repair order still live; finished ones are forgotten. *)
Fixpoint scan_repair_orders (g : Z) (ixs : list nat) (live : bool) : M OmsState bool :=
  match ixs with
  | [] => mret live
  | i :: ixs' =>
      group ← gets (group_at g);
      let request_id := default 0 (gr_active_repair_request_ids group !! i) in
      if request_id =? 0 then scan_repair_orders g ixs' live
      else
        repair ← gets (λ s, os_orders s !! request_id);
        match repair with
        | None => set_uncertain g;; scan_repair_orders g ixs' live
        | Some r =>
            if bool_decide (od_order_state r = kUNCERTAIN) then
              set_uncertain g;; scan_repair_orders g ixs' live
            else if is_live (od_order_state r) then scan_repair_orders g ixs' true
            else
              upd_group g (λ x, x ⟪ gr_active_repair_request_ids ::= <[i := 0]> ⟫);;
              scan_repair_orders g ixs' live
        end
  end.

(** The order that flattens [residual] lots of a leg. *)
Definition repair_action (outcome : Outcome) (residual : Z) : option OrderAction :=
  let need_positive_yes := residual <? 0 in
  match outcome with
  | kYES => Some (if need_positive_yes then kBUY else kSELL)
  | kNO => Some (if need_positive_yes then kSELL else kBUY)
  | kOUTCOME_UNKNOWN => None
  end.

Definition make_repair_intent (original : OrderRecord) (i : nat) (action : OrderAction) (quantity : Z) : NewOrderIntent :=
  mkNewOrderIntent ((cx_context (od_context original)) ⟪ ic_leg_index := Z.of_nat i ⟫) (od_outcome original) action
    kTAKER kMARKETABLE_LIMIT kFOK
    (if bool_decide (action = kBUY) then kPRICE_TICKS_PER_DOLLAR - 1 else 1) quantity.

Definition make_repair_record (g : Z) (original : OrderRecord) (i : nat) (intent : NewOrderIntent)
    (request_id : Z) (client_order_id : ClientOrderId) : OrderRecord :=
  default_OrderRecord ⟪ od_context := mkOmsContext request_id (no_context intent) ⟫
    ⟪ od_client_order_id := client_order_id ⟫ ⟪ od_order_state := kPENDING_SUBMIT ⟫
    ⟪ od_outcome := no_outcome intent ⟫ ⟪ od_action := no_action intent ⟫
    ⟪ od_liquidity_intent := no_liquidity_intent intent ⟫ ⟪ od_order_type := no_order_type intent ⟫
    ⟪ od_time_in_force := no_time_in_force intent ⟫ ⟪ od_market_id := od_market_id original ⟫
    ⟪ od_ordered_qty_lots := no_quantity_lots intent ⟫ ⟪ od_working_price_ticks := no_price_ticks intent ⟫
    ⟪ od_leaves_qty_lots := no_quantity_lots intent ⟫ ⟪ od_pending_command_oms_request_id := request_id ⟫
    ⟪ od_pending_command_kind := kSUBMIT_ORDER ⟫ ⟪ od_oms_group_id := g ⟫
    ⟪ od_group_leg_index := Z.of_nat i ⟫ ⟪ od_repair_order := true ⟫.

(** [map.emplace]: an existing entry is kept. *)
Definition emplace {K A} `{Countable K} (k : K) (a : A) (m : gmap K A) : gmap K A :=
  match m !! k with Some _ => m | None => <[k := a]> m end.

Definition add_order (k : Z) (r : OrderRecord) : M OmsState unit :=
  modify (λ s, s ⟪ os_orders ::= emplace k r ⟫
                 ⟪ os_client_order_id_to_oms_request_id_map ::= emplace (od_client_order_id r) k ⟫).
Definition remove_order (k : Z) (client_order_id : ClientOrderId) : M OmsState unit :=
  modify (λ s, s ⟪ os_client_order_id_to_oms_request_id_map ::= delete client_order_id ⟫
                 ⟪ os_orders ::= delete k ⟫).

(** The third loop: submit a reduce-only order per leg with residual exposure;
    returns the number of commands sent. *)
Fixpoint submit_repair_orders (g : Z) (ixs : list nat) (ts commands_sent : Z) : M OmsState Z :=
  match ixs with
  | [] => mret commands_sent
  | i :: ixs' =>
      group ← gets (group_at g);
      let residual := default 0 (gr_residual_yes_lots group !! i) in
      if residual =? 0 then submit_repair_orders g ixs' ts commands_sent
      else
        original ← gets (λ s, os_orders s !! leg_id group i);
        match original, absolute_lots residual with
        | Some original, Some quantity =>
            if (quantity =? 0) || (quantity >? I64_MAX) then set_uncertain g;; mret commands_sent
            else
              match repair_action (od_outcome original) residual with
              | None => set_uncertain g;; mret commands_sent
              | Some action =>
                  request_id ← fresh_request_id;
                  let client_order_id := make_client_order_id request_id in
                  if id_empty client_order_id then set_uncertain g;; mret commands_sent
                  else
                    let intent := make_repair_intent original i action (i64 quantity) in
                    add_order request_id
                      (make_repair_record (gr_oms_group_id group) original i intent request_id client_order_id);;
                    upd_group g (λ x, x ⟪ gr_active_repair_request_ids ::= <[i := request_id]> ⟫);;
                    sent ← send_kalshi_command (KcSubmit (mkSubmitOrderCmd request_id client_order_id intent ts true));
                    if negb sent then
                      upd_group g (λ x, x ⟪ gr_active_repair_request_ids ::= <[i := 0]> ⟫);;
                      remove_order request_id client_order_id;;
                      upd_group g (λ x, x ⟪ gr_venue_state_uncertain := commands_sent >? 0 ⟫);;
                      mret commands_sent
                    else submit_repair_orders g ixs' ts (commands_sent + 1)
              end
        | _, _ => set_uncertain g;; mret commands_sent
        end
  end.

Definition residual_legs (group : GroupRecord) : Z :=
  Z.of_nat (length (filter (λ i, default 0 (gr_residual_yes_lots group !! i) ≠ 0) (leg_indices group))).

(** The last branch: residual exposure, nothing to cancel, nothing live. *)
Definition unwind_residual (g ts : Z) : M OmsState unit :=
  group ← gets (group_at g);
  limit ← gets (λ s, rk_maximum_group_repair_attempts (os_risk_config s));
  if gr_repair_attempt_count group >=? limit then fail_group_repair g kUNWIND_FAILED ts
  else
    room ← gets (λ s, command_room s (residual_legs group));
    if negb room then upd_group g (λ x, x ⟪ gr_execution_state := kREPAIR_REQUIRED ⟫)
    else
      commands_sent ← submit_repair_orders g (leg_indices group) ts 0;
      uncertain ← gets (λ s, gr_venue_state_uncertain (group_at g s));
      if uncertain : bool then
        upd_group g (λ x, x ⟪ gr_execution_state := kGROUP_UNCERTAIN ⟫
          ⟪ gr_failure_reason := kVENUE_STATE_UNCERTAIN ⟫ ⟪ gr_last_update_ts_ns := ts ⟫);;
        latch_execution_incident;;
        emit_group_update g ts;;
        emit_telemetry;;
        maybe_report_execution_fault
      else if commands_sent =? 0 then mret tt
      else
        upd_group g (λ x, x ⟪ gr_repair_attempt_count ::= λ n, u8 (n + 1) ⟫);;
        tele (λ t, t ⟪ tm_group_repair_attempts ::= incr ⟫
                     ⟪ tm_group_repair_commands_sent ::= λ n, u64 (n + commands_sent) ⟫);;
        let p := ic_strategy_index (gr_context group) in
        ensure_strategy_portfolio p;;
        upd_portfolio p (λ x, x ⟪ pf_open_order_count ::= λ n, u32 (n + commands_sent) ⟫);;
        upd_group g (λ x, x ⟪ gr_execution_state := kUNWINDING ⟫ ⟪ gr_last_update_ts_ns := ts ⟫);;
        emit_group_update g ts;;
        emit_strategy_portfolio_update p ts;;
        emit_telemetry.

Definition finish_repair (g ts : Z) : M OmsState unit :=
  group ← gets (group_at g);
  repaired ← gets (group_has_confirmed_original_fill group);
  upd_group g (λ x, x ⟪ gr_execution_state := if repaired : bool then kFLATTENED else kABORTED ⟫
    ⟪ gr_failure_reason ::= λ r, if repaired then r else kFAILURE_NONE ⟫ ⟪ gr_last_update_ts_ns := ts ⟫);;
  release_group_capital g;;
  when repaired (tele (λ t, t ⟪ tm_group_repairs_completed ::= incr ⟫));;
  emit_group_update g ts;;
  refresh_execution_incident_latch;;
  emit_telemetry.

(** The part after the cancellations. *)
Definition repair_exposure (g ts : Z) : M OmsState unit :=
  group0 ← gets (group_at g);
  repair_order_live ← scan_repair_orders g (leg_indices group0) false;
  upd_group g (λ x, x ⟪ gr_residual_exposure_present := group_has_residual_exposure x ⟫);;
  group ← gets (group_at g);
  if gr_venue_state_uncertain group then
    upd_group g (λ x, x ⟪ gr_execution_state := kGROUP_UNCERTAIN ⟫
      ⟪ gr_failure_reason := kVENUE_STATE_UNCERTAIN ⟫ ⟪ gr_last_update_ts_ns := ts ⟫);;
    reconciliation_needed;;
    emit_group_update g ts;;
    emit_telemetry;;
    maybe_report_execution_fault
  else if negb (gr_residual_exposure_present group) then finish_repair g ts
  else if repair_order_live : bool then upd_group g (λ x, x ⟪ gr_execution_state := kUNWINDING ⟫)
  else unwind_residual g ts.

Definition continue_group_repair (g ts : Z) : M OmsState unit :=
  group ← gets (group_at g);
  if gr_capital_released group || bool_decide (gr_execution_state group = kREPAIR_FAILED) then mret tt
  else
    scan ← scan_original_legs g (leg_indices group) [] false;
    if (0 <? length scan.1)%nat then cancel_remainder g scan.1 ts
    else if scan.2 : bool then
      uncertain ← gets (λ s, gr_venue_state_uncertain (group_at g s));
      if uncertain : bool then
        upd_group g (λ x, x ⟪ gr_execution_state := kGROUP_UNCERTAIN ⟫);;
        maybe_report_execution_fault
      else upd_group g (λ x, x ⟪ gr_execution_state := kCANCELING_REMAINDER ⟫)
    else repair_exposure g ts.

Definition begin_group_repair (g : Z) (reason : GroupFailureReason) (ts : Z) : M OmsState unit :=
  group ← gets (group_at g);
  let already_repairing := in_incident (gr_execution_state group) in
  when (bool_decide (reason = kVENUE_STATE_UNCERTAIN)) (set_uncertain g);;
  upd_group g (λ x, x ⟪ gr_failure_reason := reason ⟫
    ⟪ gr_residual_exposure_present := group_has_residual_exposure x ⟫
    ⟪ gr_execution_state := uncertain_or x kREPAIR_REQUIRED ⟫ ⟪ gr_last_update_ts_ns := ts ⟫);;
  latch_execution_incident;;
  when (negb already_repairing) (emit_group_update g ts;; emit_telemetry);;
  continue_group_repair g ts.

Definition being_repaired (state : GroupExecutionState) : bool :=
  match state with kREPAIR_REQUIRED | kCANCELING_REMAINDER | kUNWINDING => true | _ => false end.

Fixpoint service_groups (gs : list Z) (ts progressed : Z) : M OmsState Z :=
  match gs with
  | [] => mret progressed
  | g :: gs' =>
      before ← gets (group_at g);
      if negb (being_repaired (gr_execution_state before)) then service_groups gs' ts progressed
      else
        continue_group_repair g ts;;
        after ← gets (group_at g);
        let changed := negb (bool_decide (gr_execution_state after = gr_execution_state before))
          || negb (gr_cancel_attempt_count after =? gr_cancel_attempt_count before)
          || negb (gr_repair_attempt_count after =? gr_repair_attempt_count before) in
        service_groups gs' ts (if changed then progressed + 1 else progressed)
  end.

Definition service_execution_incidents : M OmsState Z :=
  ts ← now_ns;
  gs ← gets (λ s, map_keys (os_group_by_id s));
  progressed ← service_groups gs ts 0;
  maybe_report_execution_fault;;
  mret progressed.

(** ** Group state after an order changed *)

Record LegSummary := mkLegSummary {
  ls_all_filled : bool; ls_all_terminal : bool; ls_any_fill : bool; ls_any_uncertain : bool;
  ls_any_partial : bool; ls_any_terminal_failure : bool; ls_fills_fully_accounted : bool;
}.

Definition summarize_leg (s : OmsState) (group : GroupRecord) (acc : LegSummary) (i : nat) : LegSummary :=
  match os_orders s !! leg_id group i with
  | None => mkLegSummary false false (ls_any_fill acc) true (ls_any_partial acc) (ls_any_terminal_failure acc) false
  | Some leg =>
      let st := od_order_state leg in
      mkLegSummary (ls_all_filled acc && bool_decide (st = kFILLED)) (ls_all_terminal acc && is_terminal st)
        (ls_any_fill acc || (od_cumulative_filled_qty_lots leg >? 0))
        (ls_any_uncertain acc || bool_decide (st = kUNCERTAIN))
        (ls_any_partial acc || bool_decide (st = kPARTIALLY_FILLED))
        (ls_any_terminal_failure acc || (is_terminal st && negb (bool_decide (st = kFILLED))))
        (ls_fills_fully_accounted acc && (od_reserved_capital_ticks leg =? 0))
  end.

Definition summarize_legs (group : GroupRecord) (s : OmsState) : LegSummary :=
  foldl (summarize_leg s group) (mkLegSummary true true false false false false true) (leg_indices group).

Definition close_group (g : Z) (state : GroupExecutionState) (ts : Z) : M OmsState unit :=
  upd_group g (λ x, x ⟪ gr_execution_state := state ⟫ ⟪ gr_failure_reason := kFAILURE_NONE ⟫
    ⟪ gr_residual_exposure_present := false ⟫ ⟪ gr_last_update_ts_ns := ts ⟫);;
  release_group_capital g;;
  emit_group_update g ts.

Definition update_group_after_order_state_change (k ts : Z) : M OmsState unit :=
  order ← gets (order_at k);
  if od_oms_group_id order =? 0 then mret tt
  else
    let g := od_oms_group_id order in
    found ← gets (find_group g);
    match found with
    | None => mret tt
    | Some _ =>
        group ← gets (group_at g);
        if od_repair_order order || in_incident (gr_execution_state group) then
          when (bool_decide (od_order_state order = kUNCERTAIN)) (set_uncertain g);;
          if negb (bool_decide (gr_execution_state group = kREPAIR_FAILED)) then continue_group_repair g ts
          else mret tt
        else if gr_capital_released group then mret tt
        else
          sum ← gets (summarize_legs group);
          upd_group g (λ x, x ⟪ gr_residual_exposure_present := group_has_residual_exposure x ⟫);;
          if ls_any_uncertain sum || gr_venue_state_uncertain group
             || (ls_all_filled sum && negb (ls_fills_fully_accounted sum))
          then begin_group_repair g kVENUE_STATE_UNCERTAIN ts
          else if ls_all_filled sum then close_group g kCOMPLETED ts
          else if ls_all_terminal sum && negb (ls_any_fill sum) then close_group g kABORTED ts
          else if ls_any_partial sum || ls_any_terminal_failure sum || (ls_all_terminal sum && ls_any_fill sum)
          then begin_group_repair g kLEG_PARTIALLY_FILLED ts
          else
            upd_group g (λ x, x ⟪ gr_execution_state :=
                                    if ls_any_fill sum then kGROUP_PARTIALLY_FILLED else kGROUP_WORKING ⟫
                                ⟪ gr_last_update_ts_ns := ts ⟫);;
            emit_group_update g ts
    end.

(** ** Strategy intents *)

Definition respond (strategy_index : Z) (context : OmsContext) (recv_ts : Z) (type : OmsResponseType)
    (reason : RejectReason) : M OmsState Z :=
  ts ← now_ns;
  _ ← send_strategy_message strategy_index (SmResponse (mkOmsResponse context type reason recv_ts ts));
  mret ts.

Definition reject_intent (strategy_index : Z) (context : OmsContext) (recv_ts : Z) (reason : RejectReason)
    : M OmsState unit :=
  tele (λ t, t ⟪ tm_strategy_intents_rejected ::= incr ⟫);;
  _ ← respond strategy_index context recv_ts kRESPONSE_REJECTED reason;
  mret tt.

Definition make_order_record (context : OmsContext) (client_order_id : ClientOrderId) (intent : NewOrderIntent)
    (reservation : Z) : OrderRecord :=
  default_OrderRecord ⟪ od_context := context ⟫ ⟪ od_client_order_id := client_order_id ⟫
    ⟪ od_order_state := kPENDING_SUBMIT ⟫ ⟪ od_outcome := no_outcome intent ⟫ ⟪ od_action := no_action intent ⟫
    ⟪ od_liquidity_intent := no_liquidity_intent intent ⟫ ⟪ od_order_type := no_order_type intent ⟫
    ⟪ od_time_in_force := no_time_in_force intent ⟫ ⟪ od_market_id := ic_market_id (no_context intent) ⟫
    ⟪ od_ordered_qty_lots := no_quantity_lots intent ⟫ ⟪ od_working_price_ticks := no_price_ticks intent ⟫
    ⟪ od_leaves_qty_lots := no_quantity_lots intent ⟫ ⟪ od_reserved_capital_ticks := reservation ⟫.

(** The guards of a single order, in the order of the source. *)
Definition check_new_order (intent : NewOrderIntent) (s : OmsState) : option RejectReason :=
  if os_execution_incident_active s then Some kEXECUTION_BLOCKED
  else if negb (os_trading_enabled s) then Some kTRADING_DISABLED
  else if negb (portfolio_ready_for_trading s) then Some kOMS_NOT_READY
  else if (no_quantity_lots intent <=? 0) || (no_price_ticks intent <=? 0)
       || bool_decide (no_outcome intent = kOUTCOME_UNKNOWN) || bool_decide (no_action intent = kACTION_UNKNOWN)
  then Some kINVALID_INTENT
  else
    match find_market_route (ic_market_id (no_context intent)) s with
    | None => Some kUNKNOWN_MARKET
    | Some route => if negb (mr_tradeable route) then Some kMARKET_NOT_TRADEABLE else None
    end.

(** The reservation, the submission and its roll-back. *)
Definition submit_new_order (intent : NewOrderIntent) (context : OmsContext) (recv_ts : Z)
    (client_order_id : ClientOrderId) (reservation : Z) : M OmsState unit :=
  let i := ic_strategy_index (no_context intent) in
  let request_id := cx_oms_request_id context in
  ensure_strategy_portfolio i;;
  p ← gets (portfolio_at i);
  if pf_available_capital_ticks p <? reservation then reject_intent i context recv_ts kRISK_REJECTED
  else
    upd_portfolio i (λ p, p ⟪ pf_reserved_order_capital_ticks ::= Z.add reservation ⟫);;
    recompute_all_strategy_available_capital;;
    submission_ts ← now_ns;
    sent ← send_kalshi_command (KcSubmit (mkSubmitOrderCmd request_id client_order_id intent submission_ts false));
    if negb sent then
      upd_portfolio i (λ p, p ⟪ pf_reserved_order_capital_ticks ::= λ r, r - reservation ⟫);;
      recompute_all_strategy_available_capital;;
      reject_intent i context recv_ts kOMS_NOT_READY
    else
      add_order request_id (make_order_record context client_order_id intent reservation);;
      upd_portfolio i (λ p, p ⟪ pf_open_order_count ::= λ n, u32 (n + 1) ⟫);;
      tele (λ t, t ⟪ tm_strategy_intents_processed ::= incr ⟫);;
      response_ts ← respond i context recv_ts kRESPONSE_ACCEPTED kREJECT_NONE;
      emit_strategy_portfolio_update i response_ts.

Definition handle_new_order (intent : NewOrderIntent) : M OmsState unit :=
  recv_ts ← now_ns;
  request_id ← fresh_request_id;
  let context := mkOmsContext request_id (no_context intent) in
  let i := ic_strategy_index (no_context intent) in
  blocked ← gets (check_new_order intent);
  match blocked with
  | Some reason =>
      when (bool_decide (reason = kUNKNOWN_MARKET)) (tele (λ t, t ⟪ tm_unknown_market_rejects ::= incr ⟫));;
      when (bool_decide (reason = kMARKET_NOT_TRADEABLE)) (tele (λ t, t ⟪ tm_non_tradeable_market_rejects ::= incr ⟫));;
      reject_intent i context recv_ts reason
  | None =>
      let client_order_id := make_client_order_id request_id in
      if id_empty client_order_id then reject_intent i context recv_ts kOMS_NOT_READY
      else
        match full_notional_reservation (no_quantity_lots intent) with
        | None => reject_intent i context recv_ts kRISK_REJECTED
        | Some required_capital =>
            if required_capital >? I64_MAX then reject_intent i context recv_ts kRISK_REJECTED
            else submit_new_order intent context recv_ts client_order_id (i64 required_capital)
        end
  end.

Definition handle_cancel_order (intent : CancelOrderIntent) : M OmsState unit :=
  recv_ts ← now_ns;
  request_id ← fresh_request_id;
  let context := mkOmsContext request_id (ci_context intent) in
  let i := ic_strategy_index (ci_context intent) in
  target ← gets (find_order (ci_target_oms_request_id intent));
  match target with
  | None => reject_intent i context recv_ts kUNKNOWN_TARGET_ORDER
  | Some k =>
      ts ← now_ns;
      sent ← emit_cancel_command_for_record k (ci_context intent) request_id ts;
      if negb sent then reject_intent i context recv_ts kOMS_NOT_READY
      else
        tele (λ t, t ⟪ tm_strategy_intents_processed ::= incr ⟫);;
        _ ← respond i context recv_ts kRESPONSE_ACCEPTED kREJECT_NONE;
        mret tt
  end.

Definition handle_modify_order (intent : ModifyOrderIntent) : M OmsState unit :=
  recv_ts ← now_ns;
  request_id ← fresh_request_id;
  let context := mkOmsContext request_id (mi_context intent) in
  let i := ic_strategy_index (mi_context intent) in
  target ← gets (find_order (mi_target_oms_request_id intent));
  incident ← gets os_execution_incident_active;
  if incident : bool then reject_intent i context recv_ts kEXECUTION_BLOCKED
  else
    match target with
    | None => reject_intent i context recv_ts kUNKNOWN_TARGET_ORDER
    | Some k =>
        record ← gets (order_at k);
        submission_ts ← now_ns;
        sent ← send_kalshi_command (KcModify (mkModifyOrderCmd request_id (od_client_order_id record)
                 (od_exchange_order_id record) intent submission_ts));
        if negb sent then reject_intent i context recv_ts kOMS_NOT_READY
        else
          upd_order k (λ o, o ⟪ od_previous_order_state := od_order_state o ⟫ ⟪ od_order_state := kPENDING_MODIFY ⟫
            ⟪ od_pending_command_oms_request_id := request_id ⟫ ⟪ od_pending_command_kind := kMODIFY_ORDER ⟫);;
          ts ← now_ns;
          emit_order_state_update k kOMS_INTERNAL ts;;
          tele (λ t, t ⟪ tm_strategy_intents_processed ::= incr ⟫);;
          _ ← respond i context recv_ts kRESPONSE_ACCEPTED kREJECT_NONE;
          mret tt
    end.

Definition reject_group (intent : GroupOrderIntent) (recv_ts_ns : Z) (reason : RejectReason) : M OmsState unit :=
  tele (λ t, t ⟪ tm_strategy_intents_rejected ::= incr ⟫);;
  ts ← now_ns;
  emit_group_admission_response
    (default_GroupRecord ⟪ gr_context := gi_context intent ⟫ ⟪ gr_execution_state := kGROUP_REJECTED ⟫
       ⟪ gr_leg_count := gi_leg_count intent ⟫ ⟪ gr_last_update_ts_ns := ts ⟫)
    kADMISSION_REJECTED reason recv_ts_ns.

(** What the leg loop builds: a request id, a client id, a command and a record
    per leg; [None] when a client id cannot be made. *)
Record BuiltLeg := mkBuiltLeg { bl_request_id : Z; bl_command : SubmitOrderCmd; bl_record : OrderRecord }.

Definition make_leg (g submission_ts_ns : Z) (i : nat) (leg : NewOrderIntent) (request_id : Z) : BuiltLeg :=
  let client_order_id := make_client_order_id request_id in
  mkBuiltLeg request_id
    (mkSubmitOrderCmd request_id client_order_id leg submission_ts_ns false)
    ((make_order_record (mkOmsContext request_id (no_context leg)) client_order_id leg
        (i64 (default 0 (full_notional_reservation (no_quantity_lots leg)))))
       ⟪ od_pending_command_oms_request_id := request_id ⟫ ⟪ od_pending_command_kind := kSUBMIT_ORDER ⟫
       ⟪ od_oms_group_id := g ⟫ ⟪ od_group_leg_index := Z.of_nat i ⟫ ⟪ od_repair_order := false ⟫).

Fixpoint build_legs (g submission_ts_ns : Z) (i : nat) (legs : list NewOrderIntent) : M OmsState (option (list BuiltLeg)) :=
  match legs with
  | [] => mret (Some [])
  | leg :: legs' =>
      request_id ← fresh_request_id;
      if id_empty (make_client_order_id request_id) then mret None
      else
        rest ← build_legs g submission_ts_ns (S i) legs';
        mret (cons (make_leg g submission_ts_ns i leg request_id) <$> rest)
  end.

Definition make_group (g batch_request_id submission_ts_ns required : Z) (intent : GroupOrderIntent)
    (legs : list BuiltLeg) : GroupRecord :=
  default_GroupRecord ⟪ gr_oms_group_id := g ⟫ ⟪ gr_context := gi_context intent ⟫
    ⟪ gr_batch_oms_request_id := batch_request_id ⟫ ⟪ gr_execution_state := kADMITTED ⟫
    ⟪ gr_leg_count := gi_leg_count intent ⟫ ⟪ gr_reserved_capital_ticks := required ⟫
    ⟪ gr_admitted_ts_ns := submission_ts_ns ⟫ ⟪ gr_last_update_ts_ns := submission_ts_ns ⟫
    ⟪ gr_original_leg_request_ids ::= λ a, (bl_request_id <$> legs) ++ drop (length legs) a ⟫.

Definition make_batch (g batch_request_id submission_ts_ns : Z) (intent : GroupOrderIntent) (legs : list BuiltLeg)
    : SubmitOrderBatchCmd :=
  mkSubmitOrderBatchCmd batch_request_id g (gi_context intent)
    ((bl_command <$> legs) ++ drop (length legs) (replicate kMAX_ORDERS_PER_GROUP default_SubmitOrderCmd))
    (gi_leg_count intent) submission_ts_ns.

(** Undo the bookkeeping of a batch that could not be sent. *)
Definition rollback_group (g : Z) (intent : GroupOrderIntent) (legs : list BuiltLeg) : M OmsState unit :=
  forM_ legs (λ l, remove_order (bl_request_id l) (od_client_order_id (bl_record l)));;
  modify (λ s, s ⟪ os_group_id_by_strategy_intent ::=
    partial_alter (λ o, groups ← o;
      let groups := delete (ic_group_intent_id (gi_context intent)) groups in
      if bool_decide (groups = ∅) then None else Some groups) (ic_strategy_index (gi_context intent)) ⟫);;
  release_group_capital g;;
  modify (λ s, s ⟪ os_group_by_id ::= delete g ⟫).

Definition register_group (g : Z) (intent : GroupOrderIntent) (legs : list BuiltLeg) : M OmsState unit :=
  modify (λ s, s ⟪ os_group_id_by_strategy_intent ::=
    partial_alter (λ o, Some (emplace (ic_group_intent_id (gi_context intent)) g (default ∅ o)))
      (ic_strategy_index (gi_context intent)) ⟫);;
  forM_ legs (λ l, add_order (bl_request_id l) (bl_record l)).

(** From the admitted group to the submitted batch. *)
Definition submit_group (g batch_request_id submission_ts_ns recv_ts_ns : Z) (intent : GroupOrderIntent)
    (group : GroupRecord) (legs : list BuiltLeg) : M OmsState unit :=
  inserted ← gets (λ s, bool_decide (os_group_by_id s !! g = None));
  if negb inserted then
    _ ← release_group_capital_of group;
    reject_group intent recv_ts_ns kDUPLICATE_INTENT
  else
    modify (λ s, s ⟪ os_group_by_id ::= <[g := group]> ⟫);;
    register_group g intent legs;;
    sent ← send_kalshi_command (KcSubmitBatch (make_batch g batch_request_id submission_ts_ns intent legs));
    if negb sent then
      rollback_group g intent legs;;
      reject_group intent recv_ts_ns kOMS_NOT_READY
    else
      upd_group g (λ x, x ⟪ gr_execution_state := kPENDING_VENUE ⟫ ⟪ gr_last_update_ts_ns := submission_ts_ns ⟫);;
      tele (λ t, t ⟪ tm_strategy_intents_processed ::= incr ⟫);;
      let p := ic_strategy_index (gi_context intent) in
      ensure_strategy_portfolio p;;
      upd_portfolio p (λ x, x ⟪ pf_open_order_count ::= λ n, u32 (n + gi_leg_count intent) ⟫);;
      admitted ← gets (group_at g);
      emit_group_admission_response admitted kADMISSION_ACCEPTED kREJECT_NONE recv_ts_ns;;
      emit_group_update g submission_ts_ns;;
      emit_strategy_portfolio_update p submission_ts_ns.

Definition handle_group_order (intent : GroupOrderIntent) : M OmsState unit :=
  recv_ts_ns ← now_ns;
  admission ← check_group_admission intent;
  if negb (ac_accepted admission) then reject_group intent recv_ts_ns (ac_reject_reason admission)
  else
    g ← gets os_next_oms_group_id;
    modify (λ s, s ⟪ os_next_oms_group_id ::= incr ⟫);;
    batch_request_id ← fresh_request_id;
    submission_ts_ns ← now_ns;
    built ← build_legs g submission_ts_ns 0 (take (Z.to_nat (gi_leg_count intent)) (gi_new_orders intent));
    match built with
    | None => reject_group intent recv_ts_ns kOMS_NOT_READY
    | Some legs =>
        reserved ← reserve_group_capital
          (make_group g batch_request_id submission_ts_ns (ac_required_capital_ticks admission) intent legs);
        if negb reserved.1 then reject_group intent recv_ts_ns kRISK_REJECTED
        else submit_group g batch_request_id submission_ts_ns recv_ts_ns intent reserved.2 legs
    end.

Definition handle_strategy_intent (i : StrategyIntent) : M OmsState unit :=
  match i with
  | SiNew i => handle_new_order i
  | SiCancel i => handle_cancel_order i
  | SiModify i => handle_modify_order i
  | SiGroup i => handle_group_order i
  end.

(** ** Venue events *)

(** What a REST response does to the order record. *)
Definition rest_transition (r : RestOrderResponse) (o : OrderRecord) : OrderRecord :=
  match ro_result_code r with
  | kACKED =>
      clear_pending_command
        (match ro_command_kind r with
         | kSUBMIT_ORDER => o ⟪ od_order_state := kWORKING ⟫
         | kCANCEL_ORDER => o ⟪ od_order_state := kPENDING_CANCEL ⟫
         | kMODIFY_ORDER => o ⟪ od_order_state := kPENDING_MODIFY ⟫
         | _ => o
         end)
  | kRESULT_REJECTED | kNOT_SENT =>
      match ro_command_kind r with
      | kSUBMIT_ORDER =>
          clear_pending_command (o ⟪ od_order_state := kREJECTED ⟫ ⟪ od_leaves_qty_lots := 0 ⟫)
      | kCANCEL_ORDER | kMODIFY_ORDER => restore_previous_state o
      | _ => o
      end
  | kTIMEOUT | kTRANSPORT_ERROR =>
      o ⟪ od_previous_order_state := od_order_state o ⟫ ⟪ od_order_state := kUNCERTAIN ⟫
  | kRESULT_UNKNOWN => o
  end.

(** Remember the exchange's identifier of an order. *)
Definition learn_exchange_id (k : Z) (id : ExchangeOrderId) : M OmsState unit :=
  record ← gets (order_at k);
  when (negb (id_empty id))
    (upd_order k (λ o, o ⟪ od_exchange_order_id := Some id ⟫);;
     modify (λ s, s ⟪ os_exchange_order_id_to_oms_request_id_map ::=
                       <[id := cx_oms_request_id (od_context record)]> ⟫)).

Definition handle_rest_response (r : RestOrderResponse) : M OmsState unit :=
  tele (λ t, t ⟪ tm_rest_responses_seen ::= incr ⟫);;
  found ← gets (find_order_for_rest_response r);
  match found with
  | None => mret tt
  | Some k =>
      learn_exchange_id k (ro_exchange_order_id r);;
      upd_order k (rest_transition r);;
      emit_order_state_update k kREST_RESPONSE (ro_transport_recv_ts_ns r);;
      account_terminal_order k (ro_transport_recv_ts_ns r);;
      defer ← gets os_defer_group_state_updates;
      when (negb defer) (update_group_after_order_state_change k (ro_transport_recv_ts_ns r))
  end.

(** A leg without a result takes the batch's, or a transport error. *)
Definition stamp_leg (batch : RestOrderBatchResponse) (leg : RestOrderResponse) : RestOrderResponse :=
  match ro_result_code leg with
  | kRESULT_UNKNOWN =>
      leg ⟪ ro_result_code := match rb_result_code batch with kRESULT_UNKNOWN => kTRANSPORT_ERROR | c => c end ⟫
          ⟪ ro_venue_reject_reason := rb_venue_reject_reason batch ⟫
          ⟪ ro_raw_reason_message ::= λ m, if bool_decide (m = "") then rb_raw_reason_message batch else m ⟫
  | _ => leg
  end.

Fixpoint handle_batch_legs (batch : RestOrderBatchResponse) (legs : list RestOrderResponse) (missing : bool)
    : M OmsState bool :=
  match legs with
  | [] => mret missing
  | leg :: legs' =>
      let leg := stamp_leg batch leg in
      if cx_oms_request_id (ro_context leg) =? 0 then handle_batch_legs batch legs' true
      else handle_rest_response leg;; handle_batch_legs batch legs' missing
  end.

Definition handle_batch_response (r : RestOrderBatchResponse) : M OmsState unit :=
  let safe_order_count := Z.min (rb_requested_order_count r) (Z.of_nat (length (rb_order_responses r))) in
  previous_defer ← gets os_defer_group_state_updates;
  modify (λ s, s ⟪ os_defer_group_state_updates := true ⟫);;
  missing ← handle_batch_legs r (take (Z.to_nat safe_order_count) (rb_order_responses r))
              (negb (safe_order_count =? rb_requested_order_count r));
  modify (λ s, s ⟪ os_defer_group_state_updates := previous_defer ⟫);;
  if previous_defer : bool then mret tt
  else
    let g := rb_oms_group_id r in
    group ← gets (λ s, os_group_by_id s !! g);
    match group with
    | None => mret tt
    | Some group =>
        if gr_leg_count group =? 0 then mret tt
        else
          first_order ← gets (find_order (leg_id group 0));
          match first_order with
          | Some k =>
              if missing : bool then
                set_uncertain g;;
                begin_group_repair g kVENUE_STATE_UNCERTAIN (rb_transport_recv_ts_ns r)
              else update_group_after_order_state_change k (rb_transport_recv_ts_ns r)
          | None =>
              set_uncertain g;;
              begin_group_repair g kVENUE_STATE_UNCERTAIN (rb_transport_recv_ts_ns r)
          end
    end.

Definition position_snapshot_of (e : PrivateWsOrderEvent) (event_id : Z) : VenueMarketPositionSnapshot :=
  default_VenueMarketPositionSnapshot ⟪ vp_market_id := pw_market_id e ⟫ ⟪ vp_event_id := event_id ⟫
    ⟪ vp_net_position_lots := pw_net_position_lots e ⟫ ⟪ vp_position_cost_ticks := pw_position_cost_ticks e ⟫
    ⟪ vp_realized_pnl_ticks := pw_realized_pnl_ticks e ⟫ ⟪ vp_fees_paid_ticks := pw_fees_paid_ticks e ⟫
    ⟪ vp_position_fee_cost_ticks := pw_position_fee_cost_ticks e ⟫ ⟪ vp_volume_lots := pw_volume_lots e ⟫
    ⟪ vp_position_cost_present := true ⟫ ⟪ vp_realized_pnl_present := true ⟫ ⟪ vp_fees_paid_present := true ⟫.

(** What an order update of the private feed does to the record. *)
Definition user_order_transition (e : PrivateWsOrderEvent) (o : OrderRecord) : OrderRecord :=
  clear_pending_command (o ⟪ od_order_state := pw_order_state e ⟫ ⟪ od_outcome := pw_outcome e ⟫
    ⟪ od_market_id := pw_market_id e ⟫ ⟪ od_ordered_qty_lots := pw_ordered_qty_lots e ⟫
    ⟪ od_cumulative_filled_qty_lots := pw_cumulative_filled_qty_lots e ⟫
    ⟪ od_leaves_qty_lots := pw_leaves_qty_lots e ⟫).

(** What a fill does to it. *)
Definition fill_transition (e : PrivateWsOrderEvent) (o : OrderRecord) : OrderRecord :=
  let o := if bool_decide (pw_outcome e = kOUTCOME_UNKNOWN) then o else o ⟪ od_outcome := pw_outcome e ⟫ in
  let o := if pw_market_id e =? 0 then o else o ⟪ od_market_id := pw_market_id e ⟫ in
  let o := o ⟪ od_cumulative_filled_qty_lots ::= λ n, n + pw_last_fill_qty_lots e ⟫ in
  let o := if od_leaves_qty_lots o >=? pw_last_fill_qty_lots e
           then o ⟪ od_leaves_qty_lots ::= λ n, n - pw_last_fill_qty_lots e ⟫ else o in
  if (od_leaves_qty_lots o =? 0) && (od_ordered_qty_lots o >? 0)
  then clear_pending_command (o ⟪ od_order_state := kFILLED ⟫)
  else if od_cumulative_filled_qty_lots o >? 0 then o ⟪ od_order_state := kPARTIALLY_FILLED ⟫
  else o.

Definition after_order_event (k ts : Z) : M OmsState unit :=
  emit_order_state_update k kWEBSOCKET_FEED ts;;
  account_terminal_order k ts;;
  update_group_after_order_state_change k ts.

Definition handle_private_ws (e : PrivateWsOrderEvent) : M OmsState unit :=
  tele (λ t, t ⟪ tm_private_ws_events_seen ::= incr ⟫);;
  if bool_decide (pw_event_kind e = kMARKET_POSITION) then
    route ← gets (find_market_route (pw_market_id e));
    apply_venue_market_position
      (position_snapshot_of e (match route with Some r => mr_event_id r | None => 0 end)) (pw_recv_ts_ns e);;
    tele (λ t, t ⟪ tm_venue_position_updates_seen ::= incr ⟫);;
    reconciliation_needed;;
    emit_telemetry
  else
    found ← gets (λ s, match find_order_by_client (pw_client_order_id e) s with
                       | Some k => Some k
                       | None => find_order_by_exchange (pw_exchange_order_id e) s
                       end);
    match found with
    | None => mret tt
    | Some k =>
        learn_exchange_id k (pw_exchange_order_id e);;
        match pw_event_kind e with
        | kUSER_ORDER =>
            upd_order k (user_order_transition e);;
            after_order_event k (pw_recv_ts_ns e)
        | kFILL =>
            if id_empty (pw_trade_id e) then mret tt
            else
              duplicate ← gets (λ s, bool_decide (pw_trade_id e ∈ os_accounted_trade_ids s));
              if duplicate : bool then tele (λ t, t ⟪ tm_duplicate_fills_ignored ::= incr ⟫)
              else
                modify (λ s, s ⟪ os_accounted_trade_ids ::= union {[pw_trade_id e]} ⟫);;
                upd_order k (fill_transition e);;
                account_fill k e;;
                after_order_event k (pw_recv_ts_ns e)
        | kMARKET_POSITION | kWS_UNKNOWN => mret tt
        end
    end.

(** ** Portfolio reconciliation *)

(** The position a reconciled venue position becomes. *)
Definition reconciled_position (v : VenueMarketPositionSnapshot) (previous : option StrategyMarketPositionRecord)
    (m : Z) : StrategyMarketPositionRecord :=
  let previous_or {A} (f : StrategyMarketPositionRecord → A) (d : A) :=
    match previous with Some p => f p | None => d end in
  let cost := if vp_position_cost_present v then vp_position_cost_ticks v else previous_or ps_position_cost_ticks 0 in
  mkStrategyMarketPositionRecord 0 m (vp_event_id v) (vp_net_position_lots v) 0 0
    (if vp_position_cost_present v then average_entry (absolute_lots (vp_net_position_lots v)) cost
     else previous_or ps_average_entry_price_ticks 0)
    cost (resolved_exposure v)
    (if vp_realized_pnl_present v then vp_realized_pnl_ticks v else previous_or ps_realized_pnl_ticks 0)
    (if vp_fees_paid_present v then vp_fees_paid_ticks v else previous_or ps_fees_paid_ticks 0).

Definition set_position (m : Z) (p : StrategyMarketPositionRecord) : M OmsState unit :=
  modify (λ s, s ⟪ os_position_by_strategy_and_market ::= alter <[m := p]> 0 ⟫).

Definition reconcile_market (previous_positions : gmap Z StrategyMarketPositionRecord) (ts m : Z) : M OmsState unit :=
  venue ← gets (λ s, default default_VenueMarketPositionSnapshot (os_venue_position_by_market s !! m));
  let previous := previous_positions !! m in
  let position := reconciled_position venue previous m in
  set_position m position;;
  upd_portfolio 0 (λ p, p ⟪ pf_inventory_exposure_ticks ::= Z.add (ps_market_exposure_ticks position) ⟫
    ⟪ pf_realized_pnl_ticks ::= λ r, r + (ps_realized_pnl_ticks position - default 0 (ps_realized_pnl_ticks <$> previous)) ⟫
    ⟪ pf_fees_paid_ticks ::= λ f, f + (ps_fees_paid_ticks position - default 0 (ps_fees_paid_ticks <$> previous)) ⟫);;
  emit_strategy_market_position_update 0 m ts.

(** A market the venue no longer reports keeps its realized results only. *)
Definition retire_market (previous_positions : gmap Z StrategyMarketPositionRecord) (ts m : Z) : M OmsState unit :=
  present ← gets (λ s, default ∅ (os_position_by_strategy_and_market s !! 0) !! m);
  match present, previous_positions !! m with
  | None, Some previous =>
      set_position m (default_StrategyMarketPositionRecord ⟪ ps_strategy_index := 0 ⟫ ⟪ ps_market_id := m ⟫
        ⟪ ps_event_id := ps_event_id previous ⟫ ⟪ ps_realized_pnl_ticks := ps_realized_pnl_ticks previous ⟫
        ⟪ ps_fees_paid_ticks := ps_fees_paid_ticks previous ⟫);;
      emit_strategy_market_position_update 0 m ts
  | _, _ => mret tt
  end.

(** With a single strategy, all reconciled inventory belongs to it. *)
Definition reconcile_single_strategy (ts : Z) : M OmsState unit :=
  previous_positions ← gets (λ s, default ∅ (os_position_by_strategy_and_market s !! 0));
  modify (λ s, s ⟪ os_position_by_strategy_and_market ::= <[0 := ∅]> ⟫);;
  ensure_strategy_portfolio 0;;
  upd_portfolio 0 (λ p, p ⟪ pf_inventory_exposure_ticks := 0 ⟫);;
  markets ← gets (λ s, map_keys (os_venue_position_by_market s));
  forM_ markets (reconcile_market previous_positions ts);;
  forM_ (map_keys previous_positions) (retire_market previous_positions ts).

Definition collect_positions (l : list VenueMarketPositionSnapshot) : gmap Z VenueMarketPositionSnapshot :=
  foldl (λ m v, if vp_market_id v =? 0 then m else <[vp_market_id v := v]> m) ∅ l.

Definition reconciliation_failed : M OmsState unit :=
  modify (λ s, s ⟪ os_venue_portfolio ::= λ v, v ⟪ vr_reconciled := false ⟫ ⟫
    ⟪ os_telemetry ::= λ t, t ⟪ tm_portfolio_reconciled := false ⟫ ⟪ tm_portfolio_reconciliations_failed ::= incr ⟫ ⟫
    ⟪ os_portfolio_reconciliation_needed := true ⟫);;
  ts ← now_ns;
  modify (λ s, s ⟪ os_next_reconciliation_due_ts_ns := u64 (ts + kPORTFOLIO_RECONCILIATION_RETRY_NS) ⟫);;
  enabled ← gets os_trading_enabled;
  when enabled (modify (λ s, s ⟪ os_trading_enabled := false ⟫);; emit_trading_enabled_changed);;
  recompute_all_strategy_available_capital;;
  emit_telemetry.

Definition reconciliation_completed (snapshot : VenuePortfolioSnapshot) : M OmsState unit :=
  modify (λ s, s ⟪ os_venue_portfolio := mkVenuePortfolioRecord (vs_available_balance_ticks snapshot)
      (vs_portfolio_value_ticks snapshot) (vs_reconciliation_id snapshot) (vs_received_ts_ns snapshot) true ⟫
    ⟪ os_venue_position_by_market := collect_positions (vs_market_positions snapshot) ⟫);;
  count ← gets (λ s, length (os_strategy_response_queues s));
  when (count =? 1)%nat (reconcile_single_strategy (vs_received_ts_ns snapshot));;
  tele (λ t, t ⟪ tm_portfolio_reconciled := true ⟫
    ⟪ tm_venue_available_balance_ticks := vs_available_balance_ticks snapshot ⟫
    ⟪ tm_portfolio_reconciliations_completed ::= incr ⟫);;
  interval ← gets (λ s, rk_portfolio_reconciliation_interval_ns (os_risk_config s));
  due ← (if interval =? 0 then mret 0 else ts ← now_ns; mret (u64 (ts + interval)));
  modify (λ s, s ⟪ os_next_reconciliation_due_ts_ns := due ⟫);;
  recompute_all_strategy_available_capital;;
  strategies ← gets (λ s, map_keys (os_portfolio_by_strategy s));
  forM_ strategies (λ i, emit_strategy_portfolio_update i (vs_received_ts_ns snapshot));;
  emit_telemetry;;
  maybe_report_ready.

Definition handle_portfolio_snapshot (snapshot : VenuePortfolioSnapshot) : M OmsState unit :=
  tele (λ t, t ⟪ tm_reconciliation_events_seen ::= incr ⟫);;
  s0 ← gets id;
  if (vs_reconciliation_id snapshot =? 0) || negb (vs_reconciliation_id snapshot =? os_active_reconciliation_id s0)
  then mret tt
  else
    let current := match os_active_order_universe s0 with
                   | Some u => vs_universe_version snapshot =? un_version u
                   | None => false
                   end in
    if negb current then
      modify (λ s, s ⟪ os_active_reconciliation_id := 0 ⟫ ⟪ os_portfolio_reconciliation_needed := true ⟫
                     ⟪ os_next_reconciliation_due_ts_ns := 0 ⟫)
    else
      modify (λ s, s ⟪ os_active_reconciliation_id := 0 ⟫);;
      if negb (bool_decide (vs_result_code snapshot = kRECONCILIATION_COMPLETE)) then reconciliation_failed
      else reconciliation_completed snapshot.

Definition try_send_pending_control_status : M OmsState bool :=
  pending ← gets os_pending_rest_egress_drained;
  match pending with
  | None => mret false
  | Some m =>
      sent ← send_control_status (CsRestEgressDrained m);
      if negb sent then mret false
      else
        modify (λ s, s ⟪ os_pending_rest_egress_drained := None ⟫);;
        mret true
  end.

Definition handle_egress_drained (d : OrderRestEgressDrained) : M OmsState unit :=
  modify (λ s, s ⟪ os_pending_rest_egress_drained := Some (mkOmsRestEgressDrained (ed_shutdown_epoch d)
    (ed_completion_ts_ns d) (live_order_count s) (uncertain_order_count s)) ⟫);;
  _ ← try_send_pending_control_status;
  mret tt.

Definition handle_venue_event (e : KalshiToOmsEvent) : M OmsState unit :=
  match e with
  | KeRest r => handle_rest_response r
  | KeRestBatch r => handle_batch_response r
  | KePrivateWs e => handle_private_ws e
  | KeReconciledOrders => tele (λ t, t ⟪ tm_reconciliation_events_seen ::= incr ⟫)
  | KePortfolio p => handle_portfolio_snapshot p
  | KeDrained d => handle_egress_drained d
  end.

(** ** Control commands *)

Definition handle_allow_trading : M OmsState unit :=
  modify (λ s, s ⟪ os_trading_enabled := negb (os_execution_incident_active s) && universe_ready s
                                         && portfolio_ready_for_trading s ⟫);;
  emit_trading_enabled_changed.

Definition handle_disable_trading : M OmsState unit :=
  modify (λ s, s ⟪ os_trading_enabled := false ⟫);;
  emit_trading_enabled_changed.

Definition handle_cancel_all : M OmsState unit :=
  modify (λ s, s ⟪ os_cancel_all_requested := true ⟫ ⟪ os_trading_enabled := false ⟫);;
  submission_ts ← now_ns;
  ks ← gets (λ s, map_keys (os_orders s));
  _ ← cancel_orders ks (λ r, cx_context (od_context r)) submission_ts 0;
  requested ← gets os_cancel_all_requested;
  live ← gets live_order_count;
  _ ← send_control_status (CsCancelAllStateChanged requested live);
  mret tt.

Definition handle_apply_universe (snapshot : option OrderRouteUniverse) : M OmsState unit :=
  previous_version ← gets (λ s, match os_active_order_universe s with Some u => un_version u | None => 0 end);
  modify (λ s, s ⟪ os_active_order_universe := snapshot ⟫
    ⟪ os_market_route_by_id := match snapshot with
        | Some u => foldl (λ m r, <[mr_market_id r := r]> m) ∅ (un_market_routes u)
        | None => ∅
        end ⟫
    ⟪ os_telemetry ::= λ t, t ⟪ tm_installed_universe_version :=
        match snapshot with Some u => un_version u | None => 0 end ⟫ ⟫);;
  let changed := match snapshot with Some u => negb (un_version u =? previous_version) | None => true end in
  when changed
    (modify (λ s, s ⟪ os_ready_reported := false ⟫);;
     enabled ← gets os_trading_enabled;
     when enabled (modify (λ s, s ⟪ os_trading_enabled := false ⟫);; emit_trading_enabled_changed);;
     required ← gets (λ s, rk_require_portfolio_reconciliation (os_risk_config s));
     when required
       (modify (λ s, s ⟪ os_venue_portfolio ::= λ v, v ⟪ vr_reconciled := false ⟫ ⟫
          ⟪ os_telemetry ::= λ t, t ⟪ tm_portfolio_reconciled := false ⟫ ⟫
          ⟪ os_portfolio_reconciliation_needed := match snapshot with Some _ => true | None => false end ⟫
          ⟪ os_next_reconciliation_due_ts_ns := 0 ⟫);;
        recompute_all_strategy_available_capital));;
  emit_telemetry.

Definition handle_control_command (c : ControlToOmsCommand) : M OmsState unit :=
  match c with
  | CtApplyOrderRouteUniverse u => handle_apply_universe u
  | CtAllowTrading => handle_allow_trading
  | CtDisableTrading => handle_disable_trading
  | CtCancelAllOrders => handle_cancel_all
  end.

(** ** The pump *)

Definition kMAX_DRAIN : Z := 100.

(** The result of the next [try_pop] of a queue. *)
Definition pop {T} (q : list (option T)) : option T * list (option T) :=
  match q with [] => (None, []) | x :: q' => (x, q') end.

Definition pop_intent (i : nat) : M OmsState (option StrategyIntent) := λ s,
  match os_strategy_intent_queues s !! i with
  | Some (Some q) => let '(x, q') := pop q in (x, s ⟪ os_strategy_intent_queues ::= <[i := Some q']> ⟫)
  | _ => (None, s)
  end.

Definition pop_venue (i : nat) : M OmsState (option KalshiToOmsEvent) := λ s,
  match os_venue_event_queues s !! i with
  | Some (Some q) => let '(x, q') := pop q in (x, s ⟪ os_venue_event_queues ::= <[i := Some q']> ⟫)
  | _ => (None, s)
  end.

Definition pop_control : M OmsState (option ControlToOmsCommand) := λ s,
  let '(x, q') := pop (os_control_command_queue s) in (x, s ⟪ os_control_command_queue := q' ⟫).

(** One round over a vector of queues: at most one message per queue and never
    more than [max] in all. *)
Fixpoint drain_round {T} (popq : nat → M OmsState (option T)) (handle : T → M OmsState unit) (max : Z)
    (ixs : list nat) (processed : Z) (did_work : bool) : M OmsState (Z * bool) :=
  match ixs with
  | [] => mret (processed, did_work)
  | i :: ixs' =>
      if max <=? processed then drain_round popq handle max ixs' processed did_work
      else
        x ← popq i;
        match x with
        | None => drain_round popq handle max ixs' processed did_work
        | Some m => handle m;; drain_round popq handle max ixs' (processed + 1) true
        end
  end.

Fixpoint drain_loop {T} (fuel : nat) (popq : nat → M OmsState (option T)) (handle : T → M OmsState unit) (max : Z)
    (ixs : list nat) (processed : Z) : M OmsState Z :=
  match fuel with
  | O => mret processed
  | S fuel =>
      if processed <? max then
        r ← drain_round popq handle max ixs processed false;
        if r.2 : bool then drain_loop fuel popq handle max ixs r.1 else mret r.1
      else mret processed
  end.

Definition drain_strategy_intents (max : Z) : M OmsState Z :=
  count ← gets (λ s, length (os_strategy_intent_queues s));
  drain_loop (Z.to_nat max) pop_intent
    (λ i, handle_strategy_intent i;; tele (λ t, t ⟪ tm_strategy_intents_received ::= incr ⟫))
    max (seq 0 count) 0.

Definition drain_venue_events (max : Z) : M OmsState Z :=
  count ← gets (λ s, length (os_venue_event_queues s));
  drain_loop (Z.to_nat max) pop_venue handle_venue_event max (seq 0 count) 0.

Fixpoint drain_control_loop (fuel : nat) (processed : Z) : M OmsState Z :=
  match fuel with
  | O => mret processed
  | S fuel =>
      command ← pop_control;
      match command with
      | None => mret processed
      | Some c => handle_control_command c;; drain_control_loop fuel (processed + 1)
      end
  end.

Definition drain_control_commands (max : Z) : M OmsState Z := drain_control_loop (Z.to_nat max) 0.

Definition pump_once : M OmsState OmsPumpResult :=
  w0 ← try_send_pending_control_status;
  w1 ← drain_control_commands kMAX_DRAIN;
  w2 ← drain_venue_events kMAX_DRAIN;
  w3 ← service_execution_incidents;
  w4 ← maybe_request_portfolio_reconciliation;
  maybe_report_ready;;
  w5 ← drain_strategy_intents kMAX_DRAIN;
  let work_done := (if w0 : bool then 1 else 0) + w1 + w2 + w3 + (if w4 : bool then 1 else 0) + w5 in
  mret (if work_done >? 0 then kPUMP_OK else kPUMP_NoWork).
End Oms.
End Oms.
