(* ===== verification/OmsDemo.v ===== *)
(** * OmsDemo: a concrete OMS

    One strategy, a two-market event and bounded queues: the inputs on which the
    theorems about the OMS are instantiated. *)

From S2P Require Import Prelude Spsc OmsTypes OmsRisk Oms.

Module OmsDemo.
Import Oms.

Definition clock (n : nat) : Z := 1000 + Z.of_nat n.
Definition order (l : list Z) : list Z := l.

Definition config : OmsRiskConfig := mkOmsRiskConfig 1000000 0 1000000 10 2 1000000 0 false.

Definition route (m : Z) : OrderMarketRoute :=
  default_OrderMarketRoute ⟪ mr_market_id := m ⟫ ⟪ mr_event_id := 7 ⟫ ⟪ mr_tradeable := true ⟫.
Definition universe : OrderRouteUniverse := mkOrderRouteUniverse 3 [route 1; route 2].

Definition queue {T} (capacity : Z) : Fifo T := mkFifo capacity [] [] [].

Definition fresh_oms (intents : list (option StrategyIntent)) (controls : list (option ControlToOmsCommand))
    (venue : list (option KalshiToOmsEvent)) : OmsState (Q := Fifo) :=
  make_oms [Some (queue 64)] (queue 64) (queue 64) [Some intents] controls [Some venue] config.

(** The context of leg [i] in market [m] of the strategy's group intent 5. *)
Definition context (i m : Z) : IntentContext :=
  default_IntentContext ⟪ ic_market_id := m ⟫ ⟪ ic_event_id := 7 ⟫ ⟪ ic_strategy_intent_id := 10 + i ⟫
    ⟪ ic_group_intent_id := 5 ⟫ ⟪ ic_leg_index := i ⟫ ⟪ ic_leg_count := 2 ⟫ ⟪ ic_universe_version := 3 ⟫
    ⟪ ic_event_revision := 4 ⟫ ⟪ ic_ingress_timestamp_ns := 900 ⟫ ⟪ ic_book_apply_timestamp_ns := 901 ⟫
    ⟪ ic_observation_publish_timestamp_ns := 902 ⟫ ⟪ ic_strategy_dequeue_timestamp_ns := 903 ⟫
    ⟪ ic_evaluation_complete_timestamp_ns := 904 ⟫ ⟪ ic_intent_publish_timestamp_ns := 905 ⟫.

Definition leg (i m : Z) (outcome : Outcome) : NewOrderIntent :=
  mkNewOrderIntent (context i m) outcome kBUY kTAKER kMARKETABLE_LIMIT kFOK 4000 200.

Definition group_intent : GroupOrderIntent :=
  mkGroupOrderIntent (context 0 1)
    [leg 0 1 kYES; leg 1 2 kNO] 2 kALL_OR_NONE 100 20 80.

(** Trading is enabled on the installed universe. *)
Definition trading_oms (intents : list (option StrategyIntent)) (venue : list (option KalshiToOmsEvent)) : OmsState (Q := Fifo) :=
  fresh_oms intents [Some (CtApplyOrderRouteUniverse (Some universe)); Some CtAllowTrading] venue.

(** A fill of [lots] lots of the order with the client id [id]. *)
Definition fill_event (trade id : string) (m lots : Z) (outcome : Outcome) : PrivateWsOrderEvent :=
  default_PrivateWsOrderEvent ⟪ pw_event_kind := kFILL ⟫ ⟪ pw_client_order_id := id ⟫
    ⟪ pw_trade_id := trade ⟫ ⟪ pw_market_id := m ⟫ ⟪ pw_outcome := outcome ⟫ ⟪ pw_action := kBUY ⟫
    ⟪ pw_last_fill_qty_lots := lots ⟫ ⟪ pw_last_fill_price_ticks := 4000 ⟫ ⟪ pw_recv_ts_ns := 2000 ⟫.
Definition fill (trade id : string) (m lots : Z) (outcome : Outcome) : KalshiToOmsEvent :=
  KePrivateWs (fill_event trade id m lots outcome).

(** The venue kills the order with the client id [id]. *)
Definition killed (id : string) : KalshiToOmsEvent :=
  KeRest (default_RestOrderResponse ⟪ ro_client_order_id := id ⟫ ⟪ ro_command_kind := kSUBMIT_ORDER ⟫
    ⟪ ro_result_code := kRESULT_REJECTED ⟫ ⟪ ro_transport_recv_ts_ns := 2001 ⟫).

Definition pump (s : OmsState (Q := Fifo)) : OmsState := (pump_once clock order s).2.

(** The demo group has been submitted to the venue. *)
Definition submitted_oms : OmsState (Q := Fifo) := pump (trading_oms [Some (SiGroup group_intent)] []).
End OmsDemo.
