(* ===== verification/OmsFrame.v ===== *)
(** * OmsFrame: what the OMS methods leave alone

    Most methods of the OMS only touch messages, telemetry and portfolio figures.
    This file states it once: [core] is the part of the state that decides whether
    and what the OMS may trade, and [quiet] methods leave it unchanged.  The safety
    theorems of the other OMS files rest on these lemmas.

    At the end, Module [Footprint]: which members of the OMS a group of methods may write. *)

From S2P Require Import Prelude Spsc OmsTypes OmsRisk Oms.

Module Frame.
Import Oms.

Section Frame.
Context {Q : Type → Type} `{!PushQueue Q}.
Variable clk : nat → Z.
Variable hash_order : list Z → list Z.
Implicit Types s : OmsState (Q := Q).

Record Core := mkCore {
  c_enabled : bool; c_incident : bool; c_groups : gmap Z GroupRecord; c_orders : gmap Z OrderRecord;
  c_universe : option OrderRouteUniverse; c_reconciled : bool; c_config : OmsRiskConfig;
  c_trades : gset string; c_group_ids : gmap Z (gmap Z Z);
}.

Definition core s : Core :=
  mkCore (os_trading_enabled s) (os_execution_incident_active s) (os_group_by_id s) (os_orders s)
    (os_active_order_universe s) (vr_reconciled (os_venue_portfolio s)) (os_risk_config s)
    (os_accounted_trade_ids s) (os_group_id_by_strategy_intent s).

Definition quiet s s' : Prop := core s' = core s.

#[export] Instance quiet_preorder : PreOrder quiet.
Proof. split; unfold quiet; repeat intro; congruence. Qed.

Lemma send_strategy_quiet i m : rel quiet (send_strategy_message i m).
Proof.
  intros s. unfold send_strategy_message. destruct (_ !! _) as [[q|]|]; [|done..].
  destruct (q_push m q) as [[] q']; done.
Qed.

Lemma send_kalshi_quiet c : rel quiet (send_kalshi_command c).
Proof. intros s. unfold send_kalshi_command. by destruct (q_push c _) as [[] q']. Qed.

Lemma send_control_quiet st : rel quiet (send_control_status st).
Proof. intros s. unfold send_control_status. by destruct (q_push st _) as [b q']. Qed.

Lemma now_quiet : rel quiet (now_ns clk).
Proof. intros s. done. Qed.

Lemma fresh_quiet : rel quiet fresh_request_id.
Proof. intros s. done. Qed.

Lemma tele_quiet f : rel quiet (tele f).
Proof. intros s. done. Qed.

Lemma upd_portfolio_quiet i f : rel quiet (upd_portfolio i f).
Proof. intros s. done. Qed.

Lemma upd_position_quiet i m f : rel quiet (upd_position i m f).
Proof. intros s. done. Qed.

Lemma next_sequence_quiet i : rel quiet (next_sequence i).
Proof. intros s. done. Qed.

Hint Resolve send_strategy_quiet send_kalshi_quiet send_control_quiet now_quiet fresh_quiet tele_quiet
  upd_portfolio_quiet upd_position_quiet next_sequence_quiet : frame.

Lemma emit_order_state_quiet k src ts : rel quiet (emit_order_state_update k src ts).
Proof. unfold emit_order_state_update. rel_auto. Qed.

Lemma emit_trading_quiet : rel quiet emit_trading_enabled_changed.
Proof. unfold emit_trading_enabled_changed. rel_auto. Qed.

Lemma emit_telemetry_quiet : rel quiet emit_telemetry.
Proof. unfold emit_telemetry. rel_auto. Qed.

Lemma recompute_quiet i : rel quiet (recompute_strategy_available_capital hash_order i).
Proof. intros s. done. Qed.

Hint Resolve emit_order_state_quiet emit_trading_quiet emit_telemetry_quiet recompute_quiet : frame.

Lemma recompute_all_quiet : rel quiet (recompute_all_strategy_available_capital hash_order).
Proof. unfold recompute_all_strategy_available_capital. rel_auto. Qed.

Lemma ensure_portfolio_quiet i : rel quiet (ensure_strategy_portfolio hash_order i).
Proof. unfold ensure_strategy_portfolio. rel_auto. Qed.

Lemma ensure_position_quiet i m e : rel quiet (ensure_strategy_market_position i m e).
Proof. intros s. done. Qed.

Hint Resolve recompute_all_quiet ensure_portfolio_quiet ensure_position_quiet : frame.

Lemma emit_portfolio_quiet i ts : rel quiet (emit_strategy_portfolio_update i ts).
Proof. unfold emit_strategy_portfolio_update. rel_auto. Qed.

Lemma emit_position_quiet i m ts : rel quiet (emit_strategy_market_position_update hash_order i m ts).
Proof. unfold emit_strategy_market_position_update. rel_auto. Qed.

Hint Resolve emit_portfolio_quiet emit_position_quiet : frame.

Lemma reserve_quiet group : rel quiet (reserve_group_capital hash_order group).
Proof. unfold reserve_group_capital. rel_auto. Qed.

Lemma release_of_quiet group : rel quiet (release_group_capital_of clk hash_order group).
Proof. unfold release_group_capital_of. rel_auto. Qed.

Lemma emit_admission_quiet group st reason ts : rel quiet (emit_group_admission_response clk group st reason ts).
Proof. unfold emit_group_admission_response. rel_auto. Qed.

Lemma emit_group_quiet g ts : rel quiet (emit_group_update g ts).
Proof. unfold emit_group_update, emit_group_state_update. rel_auto. Qed.

Hint Resolve reserve_quiet release_of_quiet emit_admission_quiet emit_group_quiet : frame.

Lemma check_admission_quiet group : rel quiet (check_group_admission clk group).
Proof. unfold check_group_admission. rel_auto. Qed.

Lemma apply_venue_position_quiet v ts : rel quiet (apply_venue_market_position hash_order v ts).
Proof. unfold apply_venue_market_position. rel_auto. Qed.

Lemma report_ready_quiet : rel quiet maybe_report_ready.
Proof. unfold maybe_report_ready. rel_auto. Qed.

Lemma request_reconciliation_quiet : rel quiet (maybe_request_portfolio_reconciliation clk).
Proof. unfold maybe_request_portfolio_reconciliation. rel_auto. Qed.

Lemma report_fault_quiet : rel quiet (maybe_report_execution_fault hash_order).
Proof. unfold maybe_report_execution_fault. rel_auto. Qed.

Lemma reconciliation_needed_quiet : rel quiet reconciliation_needed.
Proof. intros s. done. Qed.

Lemma respond_quiet i c ts t r : rel quiet (respond clk i c ts t r).
Proof. unfold respond. rel_auto. Qed.

Hint Resolve check_admission_quiet apply_venue_position_quiet report_ready_quiet request_reconciliation_quiet
  report_fault_quiet reconciliation_needed_quiet respond_quiet : frame.

Lemma reject_intent_quiet i c ts r : rel quiet (reject_intent clk i c ts r).
Proof. unfold reject_intent. rel_auto. Qed.

Lemma reject_group_quiet i ts r : rel quiet (reject_group clk i ts r).
Proof. unfold reject_group. rel_auto. Qed.

Lemma pending_status_quiet : rel quiet try_send_pending_control_status.
Proof. unfold try_send_pending_control_status. rel_auto. Qed.

Hint Resolve reject_intent_quiet reject_group_quiet pending_status_quiet : frame.

Lemma egress_drained_quiet d : rel quiet (handle_egress_drained d).
Proof. unfold handle_egress_drained. rel_auto. Qed.

Lemma build_legs_quiet g ts i legs : rel quiet (build_legs g ts i legs).
Proof. revert i. induction legs as [|leg legs IH]; intros i; cbn [build_legs]; rel_auto. Qed.

Lemma reconcile_single_quiet ts : rel quiet (reconcile_single_strategy hash_order ts).
Proof. unfold reconcile_single_strategy, reconcile_market, retire_market, set_position. rel_auto. Qed.

Lemma pop_intent_quiet i : rel quiet (pop_intent i).
Proof. intros s. unfold pop_intent. destruct (_ !! _) as [[[|x q]|]|]; done. Qed.

Lemma pop_venue_quiet i : rel quiet (pop_venue i).
Proof. intros s. unfold pop_venue. destruct (_ !! _) as [[[|x q]|]|]; done. Qed.

Lemma pop_control_quiet : rel quiet pop_control.
Proof. intros s. unfold pop_control. by destruct (os_control_command_queue s). Qed.
End Frame.

#[export] Hint Resolve send_strategy_quiet send_kalshi_quiet send_control_quiet now_quiet fresh_quiet tele_quiet
  upd_portfolio_quiet upd_position_quiet next_sequence_quiet emit_order_state_quiet emit_trading_quiet
  emit_telemetry_quiet recompute_quiet recompute_all_quiet ensure_portfolio_quiet ensure_position_quiet
  emit_portfolio_quiet emit_position_quiet reserve_quiet release_of_quiet emit_admission_quiet emit_group_quiet
  check_admission_quiet apply_venue_position_quiet report_ready_quiet request_reconciliation_quiet
  report_fault_quiet reconciliation_needed_quiet respond_quiet reject_intent_quiet reject_group_quiet
  pending_status_quiet egress_drained_quiet build_legs_quiet reconcile_single_quiet
  pop_intent_quiet pop_venue_quiet pop_control_quiet : frame.
End Frame.

(** ** Which members of the OMS a group of methods may write

    A relation between states that tolerates writes to a set of members holds of
    every method that writes only those.  [MessageFrame] tolerates the members that
    messages and capital figures use, [RepairFrame] also those that repairing a
    group writes.  Instantiating the classes with "this member is unchanged" gives
    the frame of every such method at once. *)


Module Footprint.
Import Oms Frame.

Create HintDb footprint.

Section Classes.
Context {Q : Type → Type} `{!PushQueue Q}.

Class MessageFrame (R : OmsState (Q := Q) → OmsState → Prop) : Prop := {
  mf_preorder :: PreOrder R;
  mf_telemetry s f : R s (s ⟪ os_telemetry ::= f ⟫);
  mf_responses s f : R s (s ⟪ os_strategy_response_queues ::= f ⟫);
  mf_status s f : R s (s ⟪ os_oms_status_queue ::= f ⟫);
  mf_clock s f : R s (s ⟪ os_clock_reads ::= f ⟫);
  mf_portfolio s f : R s (s ⟪ os_portfolio_by_strategy ::= f ⟫);
  mf_fault s f : R s (s ⟪ os_execution_fault_reported ::= f ⟫);
  mf_needed s f : R s (s ⟪ os_portfolio_reconciliation_needed ::= f ⟫);
  mf_enabled s f : R s (s ⟪ os_trading_enabled ::= f ⟫);
  mf_incident s f : R s (s ⟪ os_execution_incident_active ::= f ⟫);
}.

Class RepairFrame (R : OmsState (Q := Q) → OmsState → Prop) : Prop := {
  rf_message :: MessageFrame R;
  rf_groups s f : R s (s ⟪ os_group_by_id ::= f ⟫);
  rf_orders s f : R s (s ⟪ os_orders ::= f ⟫);
  rf_clients s f : R s (s ⟪ os_client_order_id_to_oms_request_id_map ::= f ⟫);
  rf_commands s f : R s (s ⟪ os_kalshi_command_queue ::= f ⟫);
  rf_request_id s f : R s (s ⟪ os_next_oms_request_id ::= f ⟫);
}.
End Classes.

(** A chain of member updates is tolerated update by update. *)
Ltac foot_update :=
  first [apply mf_telemetry | apply mf_responses | apply mf_status | apply mf_clock | apply mf_portfolio
        | apply mf_fault | apply mf_needed | apply mf_enabled | apply mf_incident
        | apply rf_groups | apply rf_orders | apply rf_clients | apply rf_commands | apply rf_request_id].
Ltac foot := repeat first [foot_update | eassumption | etrans; [|foot_update]]; try reflexivity.

Ltac foot_step :=
  first
    [ solve [auto with footprint nocore]
    | apply rel_ret; exact _ | apply rel_gets; exact _
    | apply rel_bind; [exact _| |intros ?]
    | apply rel_when; [exact _|]
    | apply rel_forM; [exact _|intros ?]
    | apply rel_if
    | apply rel_modify; intros ?; solve [foot]
    | match goal with
      | |- rel _ (let _ := _ in _) => cbv zeta
      | |- rel _ (match ?x with _ => _ end) => destruct x
      end
    | solve [intros ?; foot] ].
Ltac foot_auto := repeat foot_step.

Section Footprint.
Context {Q : Type → Type} `{!PushQueue Q}.
#[local] Hint Extern 0 (MessageFrame _) => exact _ : footprint.
#[local] Hint Extern 0 (RepairFrame _) => exact _ : footprint.

Variable clk : nat → Z.
Variable hash_order : list Z → list Z.

Section Message.
Context (R : OmsState (Q := Q) → OmsState → Prop) `{!MessageFrame R}.

Lemma f_now : rel R (now_ns clk).
Proof. intros s. apply mf_clock. Qed.

Lemma f_tele f : rel R (tele f).
Proof. intros s. apply mf_telemetry. Qed.

Lemma f_send_strategy i m : rel R (send_strategy_message i m).
Proof.
  intros s. unfold send_strategy_message.
  destruct (_ !! _) as [[q|]|]; [|apply mf_telemetry..]. destruct (q_push m q) as [[] q']; cbn [snd]; foot.
Qed.

Lemma f_send_control st : rel R (send_control_status st).
Proof. intros s. unfold send_control_status. destruct (q_push _ _). apply (mf_status s). Qed.

Lemma f_upd_portfolio i f : rel R (upd_portfolio i f).
Proof. intros s. apply (mf_portfolio s). Qed.

Lemma f_next_sequence i : rel R (next_sequence i).
Proof. intros s. apply (mf_portfolio s). Qed.

Lemma f_recompute i : rel R (recompute_strategy_available_capital hash_order i).
Proof. intros s. apply (mf_portfolio s). Qed.

Lemma f_reconciliation_needed : rel R reconciliation_needed.
Proof. intros s. apply (mf_needed s). Qed.

Hint Resolve f_now f_tele f_send_strategy f_send_control f_upd_portfolio f_next_sequence f_recompute
  f_reconciliation_needed : footprint.

Lemma f_recompute_all : rel R (recompute_all_strategy_available_capital hash_order).
Proof. unfold recompute_all_strategy_available_capital. foot_auto. Qed.

Lemma f_ensure_portfolio i : rel R (ensure_strategy_portfolio hash_order i).
Proof. unfold ensure_strategy_portfolio. foot_auto. Qed.

Lemma f_emit_order k src ts : rel R (emit_order_state_update k src ts).
Proof. unfold emit_order_state_update. foot_auto. Qed.

Lemma f_emit_trading : rel R emit_trading_enabled_changed.
Proof. unfold emit_trading_enabled_changed. foot_auto. Qed.

Lemma f_emit_telemetry : rel R emit_telemetry.
Proof. unfold emit_telemetry. foot_auto. Qed.

Lemma f_emit_portfolio i ts : rel R (emit_strategy_portfolio_update i ts).
Proof. unfold emit_strategy_portfolio_update. foot_auto. Qed.

Lemma f_emit_group g ts : rel R (emit_group_update g ts).
Proof. unfold emit_group_update, emit_group_state_update. foot_auto. Qed.
Hint Resolve f_recompute_all f_ensure_portfolio f_emit_order f_emit_trading f_emit_telemetry f_emit_portfolio
  f_emit_group : footprint.

Lemma f_emit_position i m ts : rel R (emit_strategy_market_position_update hash_order i m ts).
Proof. unfold emit_strategy_market_position_update. foot_auto. Qed.

Lemma f_emit_admission group st reason ts : rel R (emit_group_admission_response clk group st reason ts).
Proof. unfold emit_group_admission_response. foot_auto. Qed.

Lemma f_reserve group : rel R (reserve_group_capital hash_order group).
Proof. unfold reserve_group_capital. foot_auto. Qed.

Lemma f_release_of group : rel R (release_group_capital_of clk hash_order group).
Proof. unfold release_group_capital_of. foot_auto. Qed.

Lemma f_report_fault : rel R (maybe_report_execution_fault hash_order).
Proof. unfold maybe_report_execution_fault. foot_auto. Qed.

Lemma f_latch : rel R latch_execution_incident.
Proof. unfold latch_execution_incident. foot_auto. Qed.

Lemma f_refresh : rel R (refresh_execution_incident_latch hash_order).
Proof. unfold refresh_execution_incident_latch. foot_auto. Qed.

Lemma f_respond i c ts t r : rel R (respond clk i c ts t r).
Proof. unfold respond. foot_auto. Qed.
Hint Resolve f_respond : footprint.

Lemma f_reject_intent i c ts r : rel R (reject_intent clk i c ts r).
Proof. unfold reject_intent. foot_auto. Qed.
Hint Resolve f_emit_admission : footprint.

Lemma f_reject_group i ts r : rel R (reject_group clk i ts r).
Proof. unfold reject_group. foot_auto. Qed.
End Message.

#[local] Hint Resolve f_now f_tele f_send_strategy f_send_control f_upd_portfolio f_next_sequence f_recompute
  f_reconciliation_needed f_recompute_all f_ensure_portfolio f_emit_order f_emit_trading f_emit_telemetry
  f_emit_portfolio f_emit_group f_emit_position f_emit_admission f_reserve f_release_of f_report_fault f_latch
  f_refresh f_respond f_reject_intent f_reject_group : footprint.

Section Repair.
Context (R : OmsState (Q := Q) → OmsState → Prop) `{!RepairFrame R}.

Lemma f_send_kalshi c : rel R (send_kalshi_command c).
Proof. intros s. unfold send_kalshi_command. destruct (q_push _ _) as [b q]. cbn [snd]. foot. Qed.

Lemma f_fresh : rel R fresh_request_id.
Proof. intros s. apply (rf_request_id s). Qed.

Lemma f_upd_order k f : rel R (upd_order k f).
Proof. intros s. apply (rf_orders s). Qed.

Lemma f_upd_group g f : rel R (upd_group g f).
Proof. intros s. apply (rf_groups s). Qed.

Lemma f_add_order k r : rel R (add_order k r).
Proof. unfold add_order. foot_auto. Qed.

Lemma f_remove_order k id : rel R (remove_order k id).
Proof. unfold remove_order. foot_auto. Qed.
Hint Resolve f_send_kalshi f_fresh f_upd_order f_upd_group f_add_order f_remove_order : footprint.

Lemma f_release g : rel R (release_group_capital clk hash_order g).
Proof. unfold release_group_capital. foot_auto. Qed.

Lemma f_emit_cancel k c id ts : rel R (emit_cancel_command_for_record k c id ts).
Proof. unfold emit_cancel_command_for_record. foot_auto. Qed.
Hint Resolve f_release f_emit_cancel : footprint.

Lemma f_cancel_orders ks c ts n : rel R (cancel_orders ks c ts n).
Proof. revert n. induction ks as [|k ks IH]; intros n; cbn [cancel_orders]; foot_auto. Qed.

Lemma f_fail_repair g reason ts : rel R (fail_group_repair hash_order g reason ts).
Proof. unfold fail_group_repair. foot_auto. Qed.

Lemma f_set_uncertain g : rel R (set_uncertain g).
Proof. unfold set_uncertain. foot_auto. Qed.
Hint Resolve f_cancel_orders f_fail_repair f_set_uncertain : footprint.

Lemma f_scan_original g ixs c p : rel R (scan_original_legs g ixs c p).
Proof. revert c p. induction ixs as [|i ixs IH]; intros c p; cbn [scan_original_legs]; foot_auto. Qed.

Lemma f_scan_repair g ixs l : rel R (scan_repair_orders g ixs l).
Proof. revert l. induction ixs as [|i ixs IH]; intros l; cbn [scan_repair_orders]; foot_auto. Qed.

Lemma f_submit_repair g ixs ts n : rel R (submit_repair_orders g ixs ts n).
Proof. revert n. induction ixs as [|i ixs IH]; intros n; cbn [submit_repair_orders]; foot_auto. Qed.

Lemma f_cancel_remainder g c ts : rel R (cancel_remainder hash_order g c ts).
Proof. unfold cancel_remainder. foot_auto. Qed.
Hint Resolve f_scan_original f_scan_repair f_submit_repair f_cancel_remainder : footprint.

Lemma f_unwind g ts : rel R (unwind_residual hash_order g ts).
Proof. unfold unwind_residual. foot_auto. Qed.

Lemma f_finish g ts : rel R (finish_repair clk hash_order g ts).
Proof. unfold finish_repair. foot_auto. Qed.
Hint Resolve f_unwind f_finish : footprint.

Lemma f_continue g ts : rel R (continue_group_repair clk hash_order g ts).
Proof. unfold continue_group_repair, repair_exposure. foot_auto. Qed.
Hint Resolve f_continue : footprint.

Lemma f_begin g reason ts : rel R (begin_group_repair clk hash_order g reason ts).
Proof. unfold begin_group_repair. foot_auto. Qed.

Lemma f_close g st ts : rel R (close_group clk hash_order g st ts).
Proof. unfold close_group. foot_auto. Qed.
Hint Resolve f_begin f_close : footprint.

Lemma f_update_group k ts : rel R (update_group_after_order_state_change clk hash_order k ts).
Proof. unfold update_group_after_order_state_change. foot_auto. Qed.

Lemma f_account_terminal k ts : rel R (account_terminal_order hash_order k ts).
Proof. unfold account_terminal_order. foot_auto. Qed.
Hint Resolve f_update_group f_account_terminal : footprint.

Lemma f_after_order_event k ts : rel R (after_order_event clk hash_order k ts).
Proof. unfold after_order_event. foot_auto. Qed.

Lemma f_account_residual k d : rel R (account_residual k d).
Proof. unfold account_residual. foot_auto. Qed.

Lemma f_release_fill k i q : rel R (release_fill_reservation k i q).
Proof. unfold release_fill_reservation. foot_auto. Qed.
End Repair.
End Footprint.

#[export] Hint Resolve f_now f_tele f_send_strategy f_send_control f_upd_portfolio f_next_sequence f_recompute
  f_reconciliation_needed f_recompute_all f_ensure_portfolio f_emit_order f_emit_trading f_emit_telemetry
  f_emit_portfolio f_emit_group f_emit_position f_emit_admission f_reserve f_release_of f_report_fault f_latch
  f_refresh f_respond f_reject_intent f_reject_group
  f_send_kalshi f_fresh f_upd_order f_upd_group f_add_order f_remove_order f_release f_emit_cancel f_cancel_orders
  f_fail_repair f_set_uncertain f_scan_original f_scan_repair f_submit_repair f_cancel_remainder f_unwind f_finish
  f_continue f_begin f_close f_update_group f_account_terminal f_after_order_event f_account_residual f_release_fill
  : footprint.
#[export] Hint Extern 0 (MessageFrame _) => exact _ : footprint.
#[export] Hint Extern 0 (RepairFrame _) => exact _ : footprint.
End Footprint.
