(* ===== verification/OmsReserve.v ===== *)
(** * OmsReserve: how a handler moves commands, records and reservations

    [moved i d cs bk s s'] says that between two states exactly the commands [cs]
    were sent, the orders, groups and group intents became [bk], and the reservation
    of strategy [i], and of no other, grew by [d].  The lemmas of this file let it be
    computed along a handler: methods that only send messages or recompute figures
    keep it. *)

From S2P Require Import Prelude Spsc OmsTypes OmsRisk Oms OmsFrame.

Module Reserve.
Import Risk Oms Footprint.

Create HintDb capital.

(** The records an intent may file. *)
Record Records := mkRecords {
  b_orders : gmap Z OrderRecord;
  b_groups : gmap Z GroupRecord;
  b_intents : gmap Z (gmap Z Z);
}.

Section Basic.
Context {Q : Type → Type} `{!PushQueue Q}.
Variable clk : nat → Z.
Variable hash_order : list Z → list Z.
Implicit Types s : OmsState (Q := Q).

Definition reserved_for (i : Z) s : Z := pf_reserved_order_capital_ticks (portfolio_at i s).

(** The available capital the checks compare with: a strategy seen for the first
    time gets a portfolio first. *)
Definition available_for (i : Z) s : Z :=
  pf_available_capital_ticks (portfolio_at i (ensure_strategy_portfolio hash_order i s).2).

Definition sent_commands s : list OmsToKalshiCommand := q_sent (os_kalshi_command_queue s).

Definition records_of s : Records :=
  mkRecords (os_orders s) (os_group_by_id s) (os_group_id_by_strategy_intent s).

(** No command was sent and no record changed. *)
Definition same_book s s' : Prop :=
  os_kalshi_command_queue s' = os_kalshi_command_queue s ∧ records_of s' = records_of s.

#[export] Instance same_book_frame : MessageFrame same_book.
Proof. split; [split; [by intros ?|intros ??? [] []; split; congruence]|..]; intros; by split. Qed.

(** No reservation moved, no portfolio was lost. *)
Definition same_reserved s s' : Prop := ∀ i, reserved_for i s' = reserved_for i s ∧
  (is_Some (os_portfolio_by_strategy s !! i) → is_Some (os_portfolio_by_strategy s' !! i)).

#[export] Instance same_reserved_preorder : PreOrder same_reserved.
Proof.
  split; [by intros s i|]. intros s1 s2 s3 H1 H2 i. destruct (H1 i), (H2 i). split; [congruence|auto].
Qed.

Definition same_portfolios s s' : Prop := os_portfolio_by_strategy s' = os_portfolio_by_strategy s.

Lemma same_portfolios_reserved s s' : same_portfolios s s' → same_reserved s s'.
Proof. intros H i. unfold reserved_for, portfolio_at. by rewrite H. Qed.

Lemma alter_reserved i f : (∀ p, pf_reserved_order_capital_ticks (f p) = pf_reserved_order_capital_ticks p) →
  rel same_reserved (upd_portfolio (Q := Q) i f).
Proof.
  intros Hf s j. unfold reserved_for, portfolio_at. cbn. destruct (decide (j = i)) as [->|Hne].
  - rewrite lookup_alter_eq. destruct (os_portfolio_by_strategy s !! i); cbn; [|done]. split; [apply Hf|by eexists].
  - by rewrite lookup_alter_ne.
Qed.

Lemma recompute_reserved i : rel same_reserved (recompute_strategy_available_capital (Q := Q) hash_order i).
Proof. intros s. by apply (alter_reserved i (λ p, p ⟪ pf_available_capital_ticks := available_capital hash_order p s ⟫)). Qed.

Lemma next_sequence_reserved i : rel same_reserved (next_sequence (Q := Q) i).
Proof. intros s. by apply (alter_reserved i (λ p, p ⟪ pf_next_sequence ::= incr ⟫)). Qed.

Lemma send_strategy_portfolios i m : rel same_portfolios (send_strategy_message (Q := Q) i m).
Proof.
  intros s. unfold send_strategy_message. destruct (_ !! _) as [[q|]|]; [|done..].
  by destruct (q_push m q) as [[] q'].
Qed.

Lemma send_kalshi_portfolios c : rel same_portfolios (send_kalshi_command (Q := Q) c).
Proof. intros s. unfold send_kalshi_command. by destruct (q_push c _). Qed.

Lemma quiet_reserved {A} (m : M (OmsState (Q := Q)) A) : rel same_portfolios m → rel same_reserved m.
Proof. intros H s. by apply same_portfolios_reserved. Qed.
End Basic.

#[export] Hint Resolve alter_reserved recompute_reserved next_sequence_reserved quiet_reserved send_strategy_portfolios
  send_kalshi_portfolios : capital.
#[export] Hint Extern 2 (∀ _, pf_reserved_order_capital_ticks _ = _) => (intros ?; reflexivity) : capital.

Ltac reserved_step :=
  first
    [ solve [auto with capital nocore]
    | apply rel_ret; exact _ | apply rel_gets; exact _
    | apply rel_bind; [exact _| |intros ?]
    | apply rel_when; [exact _|] | apply rel_forM; [exact _|intros ?] | apply rel_if
    | apply quiet_reserved; intros ?; reflexivity
    | match goal with
      | |- rel _ (let _ := _ in _) => cbv zeta
      | |- rel _ (match ?x with _ => _ end) => destruct x
      end ].
Ltac reserved_auto := repeat reserved_step.

Section Moved.
Context {Q : Type → Type} `{!PushQueue Q, !PushQueueLaws Q}.
Variable clk : nat → Z.
Variable hash_order : list Z → list Z.
Implicit Types s : OmsState (Q := Q).

Lemma ensure_reserved i : rel same_reserved (ensure_strategy_portfolio (Q := Q) hash_order i).
Proof.
  intros s. change (wp (ensure_strategy_portfolio hash_order i) (λ _, same_reserved s) s).
  unfold ensure_strategy_portfolio. wp_steps.
  destruct (os_portfolio_by_strategy s !! i) as [p|] eqn:Ep; [by wp_steps|]. wp_steps.
  eapply (wp_rel same_reserved); [apply recompute_reserved|]. intros _ s' Hs'. etrans; [|exact Hs'].
  intros j. unfold reserved_for, portfolio_at. cbn. destruct (decide (j = i)) as [->|Hne].
  - rewrite lookup_insert_eq, Ep. split; [done|by intros [? ?]].
  - by rewrite lookup_insert_ne.
Qed.
Hint Resolve ensure_reserved : capital.

Lemma reject_reserved i c ts r : rel same_reserved (reject_intent (Q := Q) clk i c ts r).
Proof. unfold reject_intent, respond. reserved_auto. Qed.

Lemma recompute_all_reserved : rel same_reserved (recompute_all_strategy_available_capital (Q := Q) hash_order).
Proof. unfold recompute_all_strategy_available_capital. reserved_auto. Qed.

Lemma emit_portfolio_reserved i ts : rel same_reserved (emit_strategy_portfolio_update (Q := Q) i ts).
Proof. unfold emit_strategy_portfolio_update. reserved_auto. Qed.
Hint Resolve reject_reserved recompute_all_reserved emit_portfolio_reserved : capital.

Lemma ensure_exists i s : is_Some (os_portfolio_by_strategy (ensure_strategy_portfolio hash_order i s).2 !! i).
Proof.
  change (wp (ensure_strategy_portfolio hash_order i) (λ _ s', is_Some (os_portfolio_by_strategy s' !! i)) s).
  unfold ensure_strategy_portfolio. wp_steps.
  destruct (os_portfolio_by_strategy s !! i) as [p|] eqn:Ep; [wp_steps; by rewrite Ep|].
  unfold recompute_strategy_available_capital. wp_steps. cbn. rewrite lookup_alter_eq, lookup_insert_eq. by eexists.
Qed.

(** Changing one strategy's reservation. *)
Lemma move_reserved i d f s : (∀ p, pf_reserved_order_capital_ticks (f p) = pf_reserved_order_capital_ticks p + d) →
  is_Some (os_portfolio_by_strategy s !! i) →
  let s' := (upd_portfolio (Q := Q) i f s).2 in
  (∀ j, reserved_for j s' = reserved_for j s + if decide (j = i) then d else 0) ∧
  is_Some (os_portfolio_by_strategy s' !! i).
Proof.
  intros Hf [p Hp]. cbv zeta. split.
  - intros j. unfold reserved_for, portfolio_at. cbn. case_decide as Hj; [subst j|].
    + rewrite lookup_alter_eq, Hp. apply Hf.
    + rewrite lookup_alter_ne by done. lia.
  - cbn. rewrite lookup_alter_eq, Hp. by eexists.
Qed.

Lemma send_kalshi_spec c s : wp (send_kalshi_command c) (λ b s',
  sent_commands s' = sent_commands s ++ (if b then [c] else []) ∧ records_of s' = records_of s ∧ same_portfolios s s') s.
Proof.
  unfold wp, send_kalshi_command, sent_commands. pose proof (push_sent c (os_kalshi_command_queue s)) as Hp.
  destruct (q_push c _) as [b q]; cbn in *. split; [|done]. rewrite Hp. destruct b; [done|by rewrite app_nil_r].
Qed.

(** Nothing was sent, filed or reserved. *)
Definition refused s s' : Prop :=
  sent_commands s' = sent_commands s ∧ records_of s' = records_of s ∧ ∀ j, reserved_for j s' = reserved_for j s.

Lemma refused_intro s s' : same_book s s' → same_reserved s s' → refused s s'.
Proof. intros [H1 H2] H3. split; [unfold sent_commands; by rewrite H1|]. split; [done|]. intros j. apply H3. Qed.

Lemma wp_both {A} (m : M (OmsState (Q := Q)) A) Φ s : rel same_book m → rel same_reserved m →
  (∀ a s', same_book s s' → same_reserved s s' → Φ a s') → wp m Φ s.
Proof. intros H1 H2 H. unfold wp. apply H; [apply H1|apply H2]. Qed.

(** From [s] to [s']: [cs] sent, the records are now [os], [d] more reserved for
    strategy [i]. *)
Definition moved (i d : Z) (cs : list OmsToKalshiCommand) (os : Records) s s' : Prop :=
  sent_commands s' = sent_commands s ++ cs ∧ records_of s' = os ∧
  (∀ j, reserved_for j s' = reserved_for j s + if decide (j = i) then d else 0) ∧
  is_Some (os_portfolio_by_strategy s' !! i).

Lemma moved_keep i d cs os s s1 s2 : moved i d cs os s s1 → same_book s1 s2 → same_reserved s1 s2 → moved i d cs os s s2.
Proof.
  intros (H1 & H2 & H3 & H4) [B1 B2] Hr. unfold moved, sent_commands in *. rewrite B1, B2.
  split; [done|]. split; [done|]. split; [|by apply Hr]. intros j. rewrite (proj1 (Hr j)). apply H3.
Qed.

Lemma moved_reserve i d d' f s s1 cs os :
  (∀ p, pf_reserved_order_capital_ticks (f p) = pf_reserved_order_capital_ticks p + d') → moved i d cs os s s1 →
  moved i (d + d') cs os s (upd_portfolio i f s1).2.
Proof.
  intros Hf (H1 & H2 & H3 & H4). destruct (move_reserved i d' f s1 Hf H4) as [M1 M2].
  split; [done|]. split; [done|]. split; [|done]. intros j. rewrite M1, H3. case_decide; lia.
Qed.

(** Steps that only change records. *)
Lemma moved_records i d cs bk s s1 s2 : moved i d cs bk s s1 →
  os_kalshi_command_queue s2 = os_kalshi_command_queue s1 → same_portfolios s1 s2 → moved i d cs (records_of s2) s s2.
Proof.
  intros (H1 & H2 & H3 & H4) E1 E2. split; [unfold sent_commands in *; by rewrite E1|]. split; [done|].
  split; [|by rewrite E2]. intros j. by rewrite (proj1 (same_portfolios_reserved _ _ E2 j)).
Qed.

Lemma refused_keep s s1 s2 : refused s s1 → same_book s1 s2 → same_reserved s1 s2 → refused s s2.
Proof.
  intros (H1 & H2 & H3) [B1 B2] Hr. unfold refused, sent_commands in *. rewrite B1, B2.
  split; [done|]. split; [done|]. intros j. rewrite (proj1 (Hr j)). apply H3.
Qed.

Lemma moved_refused i s s' : moved i 0 [] (records_of s) s s' → refused s s'.
Proof.
  intros (H1 & H2 & H3 & _). rewrite app_nil_r in H1. split; [done|]. split; [done|].
  intros j. rewrite H3. case_decide; lia.
Qed.

Lemma wp_moved {A} i d cs os s s1 (m : M (OmsState (Q := Q)) A) Φ : rel same_book m → rel same_reserved m →
  moved i d cs os s s1 → (∀ a s', moved i d cs os s s' → Φ a s') → wp m Φ s1.
Proof. intros H1 H2 Hm H. eapply wp_both; [done|done|]. intros a s' ??. apply H. by eapply moved_keep. Qed.

(** A portfolio for strategy [i] is there from now on. *)
Lemma ensure_moved i s s0 : sent_commands s0 = sent_commands s → records_of s0 = records_of s → same_portfolios s s0 →
  moved i 0 [] (records_of s) s (ensure_strategy_portfolio hash_order i s0).2.
Proof.
  intros Hs Hr Hp. destruct (f_ensure_portfolio hash_order same_book i s0) as [B1 B2]. unfold moved, sent_commands in *.
  rewrite B1, B2, app_nil_r. split; [done|]. split; [done|]. split; [|apply ensure_exists].
  intros j. rewrite (proj1 (ensure_reserved i s0 j)), (proj1 (same_portfolios_reserved _ _ Hp j)). case_decide; lia.
Qed.

Lemma moved_send i d s s1 bk c (sent : bool) s2 : moved i d [] bk s s1 →
  sent_commands s2 = sent_commands s1 ++ (if sent then [c] else []) →
  records_of s2 = records_of s1 → same_portfolios s1 s2 → moved i d (if sent then [c] else []) bk s s2.
Proof.
  intros (H1 & H2 & H3 & H4) E1 E2 E3. rewrite app_nil_r in H1. split; [by rewrite E1, H1|]. split; [congruence|].
  split; [|by rewrite E3]. intros j. by rewrite (proj1 (same_portfolios_reserved _ _ E3 j)).
Qed.

(** Reading the clock or drawing a request id does not change what is available. *)
Lemma available_for_frame i s s' : same_portfolios s s' → os_risk_config s' = os_risk_config s →
  os_venue_portfolio s' = os_venue_portfolio s → available_for hash_order i s' = available_for hash_order i s.
Proof.
  intros H1 H2 H3. unfold same_portfolios in H1.
  unfold available_for, ensure_strategy_portfolio, mbind, M_bind, gets, mret, M_ret. rewrite H1.
  destruct (os_portfolio_by_strategy s !! i) eqn:E; cbn; unfold portfolio_at; cbn; rewrite ?H1; [done|].
  rewrite !lookup_alter_eq, !lookup_insert_eq. cbn.
  unfold available_capital, venue_available, global_reservations, portfolio_at. cbn. by rewrite H1, H2, H3.
Qed.

End Moved.

#[export] Hint Resolve ensure_reserved reject_reserved recompute_all_reserved emit_portfolio_reserved : capital.
End Reserve.
