(* ===== verification/OmsIncident.v ===== *)
(** * OmsIncident: the execution-incident latch and the repair budget

    While any group is being repaired, is uncertain or could not be repaired, the
    OMS must not accept new risk.  The invariant [Inv] says so, together with the
    bound on repair attempts; every handler and the pump preserve it. *)

From S2P Require Import Prelude Spsc OmsTypes OmsRisk Oms OmsDemo OmsFrame.

Module Incident.
Import Risk Oms Frame.

Section Incident.
Context {Q : Type → Type} `{!PushQueue Q}.
Variable clk : nat → Z.
Variable hash_order : list Z → list Z.
Hypothesis hash_order_perm : ∀ l, hash_order l ≡ₚ l.
Implicit Types s : OmsState (Q := Q).

Definition core_universe_ready (c : Core) : bool :=
  match c_universe c with None => false | Some u => negb (un_version u =? 0) end.
Definition core_portfolio_ready (c : Core) : bool :=
  negb (rk_require_portfolio_reconciliation (c_config c)) || c_reconciled c.

(** A group is filed under its own id and its attempts stay in budget. *)
Definition group_wf (config : OmsRiskConfig) (g : Z) (gr : GroupRecord) : Prop :=
  gr_oms_group_id gr = g ∧
  0 ≤ gr_cancel_attempt_count gr ≤ rk_maximum_group_repair_attempts config ∧
  0 ≤ gr_repair_attempt_count gr ≤ rk_maximum_group_repair_attempts config.

(** Under repair, or closed: where repair orders may exist. *)
Definition repairable (gr : GroupRecord) : Prop :=
  in_incident (gr_execution_state gr) = true ∨ gr_capital_released gr = true.

(** Repair orders belong to groups that are under repair or closed. *)
Definition repair_wf (groups : gmap Z GroupRecord) (o : OrderRecord) : Prop :=
  od_repair_order o = true → ∃ gr, groups !! od_oms_group_id o = Some gr ∧ repairable gr.

(** Everything but the latch. *)
Definition Inv0 (c : Core) : Prop :=
  0 ≤ rk_maximum_group_repair_attempts (c_config c) ≤ U8_MAX ∧
  (c_enabled c = true → core_universe_ready c = true ∧ core_portfolio_ready c = true) ∧
  map_Forall (group_wf (c_config c)) (c_groups c) ∧
  map_Forall (λ _, repair_wf (c_groups c)) (c_orders c).

Definition Inv (c : Core) : Prop :=
  Inv0 c ∧ (c_enabled c = true → c_incident c = false) ∧
  map_Forall (λ _ gr, in_incident (gr_execution_state gr) = true → c_incident c = true) (c_groups c).

Definition Ok s : Prop := Inv (core s).

(** The group [g] is under repair, with the given attempt counts. *)
Definition at_repair (g a b L : Z) (c : Core) : Prop :=
  rk_maximum_group_repair_attempts (c_config c) = L ∧ ∃ gr, c_groups c !! g = Some gr ∧ in_incident (gr_execution_state gr) = true ∧
        gr_cancel_attempt_count gr = a ∧ gr_repair_attempt_count gr = b.

Definition P (g a b L : Z) s : Prop := Ok s ∧ at_repair g a b L (core s).

Lemma quiet_keeps_Ok {A} (m : M (OmsState (Q := Q)) A) : rel quiet m → rel (keeps Ok) m.
Proof. intros H s HR. unfold Ok. by rewrite (H s). Qed.

Lemma quiet_keeps_P {A} g a b L (m : M (OmsState (Q := Q)) A) : rel quiet m → rel (keeps (P g a b L)) m.
Proof. intros H s [H1 H2]. unfold P, Ok. by rewrite (H s). Qed.

Lemma wp_keep {A} (R : OmsState → Prop) (m : M (OmsState (Q := Q)) A) (Φ : A → OmsState → Prop) s :
  rel (keeps R) m → R s → (∀ a s', R s' → Φ a s') → wp m Φ s.
Proof. intros Hm HR HΦ. eapply wp_rel; [exact Hm|]. intros a s' Hk. by apply HΦ, Hk. Qed.

Lemma keeps_wp {A} (R : OmsState → Prop) (m : M (OmsState (Q := Q)) A) :
  (∀ s, R s → wp m (λ _, R) s) → rel (keeps R) m.
Proof. intros H s HR. exact (H s HR). Qed.

(** ** Updating one group *)

Definition with_groups (c : Core) (gs : gmap Z GroupRecord) : Core :=
  mkCore (c_enabled c) (c_incident c) gs (c_orders c) (c_universe c) (c_reconciled c) (c_config c) (c_trades c)
    (c_group_ids c).

Lemma alter_Forall {V} (Φ : Z → V → Prop) (f : V → V) k (m : gmap Z V) :
  map_Forall Φ m → (∀ x, m !! k = Some x → Φ k (f x)) → map_Forall Φ (alter f k m).
Proof.
  intros Hm Hf i o Hi. destruct (decide (i = k)) as [->|Hne].
  - rewrite lookup_alter_eq in Hi. destruct (m !! k) as [o'|] eqn:E; [|done]. injection Hi as <-. by apply Hf.
  - rewrite lookup_alter_ne in Hi by done. by apply Hm.
Qed.

Lemma repair_wf_alter groups g f o :
  (∀ x, groups !! g = Some x → repairable x → repairable (f x)) →
  repair_wf groups o → repair_wf (alter f g groups) o.
Proof.
  intros Hf Ho Hr. destruct (Ho Hr) as (gr & H1 & H2). destruct (decide (od_oms_group_id o = g)) as [He|Hne].
  - exists (f gr). rewrite He, lookup_alter_eq, <- He, H1. split; [done|]. apply Hf; [by rewrite <- He|done].
  - exists gr. by rewrite lookup_alter_ne.
Qed.

Lemma Inv0_alter c g f : Inv0 c →
  (∀ x, c_groups c !! g = Some x → group_wf (c_config c) g (f x) ∧ (repairable x → repairable (f x))) →
  Inv0 (with_groups c (alter f g (c_groups c))).
Proof.
  intros (Hl & Ht & Hg & Ho) Hf. split; [done|]. split; [done|]. split.
  - apply alter_Forall; [done|]. intros x Hx. by apply Hf.
  - intros k o Hk. apply repair_wf_alter; [intros x Hx; by apply Hf|by apply (Ho k)].
Qed.

(** An update is safe when it respects the group's identity and budget, does not
    lose a repairable group, and enters an incident only under the latch. *)
Lemma Inv_alter c g f : Inv c →
  (∀ x, c_groups c !! g = Some x → group_wf (c_config c) g (f x) ∧ (repairable x → repairable (f x)) ∧
     (in_incident (gr_execution_state (f x)) = true → c_incident c = true)) →
  Inv (with_groups c (alter f g (c_groups c))).
Proof.
  intros (H0 & Hlatch & Hin) Hf. split; [|split; [done|]].
  - apply Inv0_alter; [done|]. intros x Hx. by destruct (Hf x Hx) as (? & ? & _).
  - apply alter_Forall; [done|]. intros x Hx. by apply Hf.
Qed.

Lemma Inv_group c g x : Inv c → c_groups c !! g = Some x → group_wf (c_config c) g x.
Proof. intros ((_ & _ & Hg & _) & _). apply Hg. Qed.

Lemma Inv_latched c g x : Inv c → c_groups c !! g = Some x → in_incident (gr_execution_state x) = true →
  c_incident c = true.
Proof. intros (_ & _ & Hin). apply Hin. Qed.

(** A group update that keeps its identity, budget and standing. *)
Definition group_frame (f : GroupRecord → GroupRecord) : Prop :=
  ∀ x, gr_oms_group_id (f x) = gr_oms_group_id x ∧
       gr_cancel_attempt_count (f x) = gr_cancel_attempt_count x ∧
       gr_repair_attempt_count (f x) = gr_repair_attempt_count x ∧
       gr_capital_released (f x) = gr_capital_released x ∧
       (in_incident (gr_execution_state x) = true → in_incident (gr_execution_state (f x)) = true).

Lemma group_frame_wf config g f x : group_frame f → group_wf config g x → group_wf config g (f x).
Proof. intros Hf. destruct (Hf x) as (H1 & H2 & H3 & _). unfold group_wf. by rewrite H1, H2, H3. Qed.

Lemma group_frame_repairable f x : group_frame f → repairable x → repairable (f x).
Proof. intros Hf. destruct (Hf x) as (_ & _ & _ & H4 & H5). unfold repairable. rewrite H4. tauto. Qed.

Lemma upd_group_Ok g f : group_frame f →
  (∀ x, in_incident (gr_execution_state (f x)) = in_incident (gr_execution_state x)) →
  rel (keeps Ok) (upd_group (Q := Q) g f).
Proof.
  intros Hf Hin s Hs. apply (Inv_alter (core s)); [done|]. intros x Hx.
  split; [apply group_frame_wf; [done|]; by eapply Inv_group|].
  split; [by apply group_frame_repairable|]. rewrite Hin. by apply (Inv_latched (core s) g x).
Qed.

(** While [g] is under repair it may move between incident states. *)
Lemma upd_group_P g a b L f : group_frame f → rel (keeps (P g a b L)) (upd_group (Q := Q) g f).
Proof.
  intros Hf s [Hs (HL & gr & Hg & Hst & Ha & Hb)]. split.
  - apply (Inv_alter (core s)); [done|]. intros x Hx.
    split; [apply group_frame_wf; [done|]; by eapply Inv_group|].
    split; [by apply group_frame_repairable|]. intros _. by apply (Inv_latched (core s) g gr).
  - destruct (Hf gr) as (_ & H2 & H3 & _ & H5). split; [done|]. exists (f gr). cbn in Hg |- *.
    rewrite lookup_alter_eq, Hg. split; [done|]. split; [by apply H5|]. split; congruence.
Qed.

Lemma P_limits g a b L s : P g a b L s →
  0 ≤ a ≤ L ∧ 0 ≤ b ≤ L ∧ L ≤ U8_MAX ∧ rk_maximum_group_repair_attempts (os_risk_config s) = L.
Proof.
  intros [Hs (<- & gr & Hg & _ & <- & <-)]. destruct (Inv_group _ _ _ Hs Hg) as (_ & ? & ?).
  destruct Hs as ((? & _) & _). cbn in *. lia.
Qed.

Lemma P_group g a b L s : P g a b L s →
  gr_cancel_attempt_count (group_at g s) = a ∧ gr_repair_attempt_count (group_at g s) = b ∧
  gr_oms_group_id (group_at g s) = g ∧ in_incident (gr_execution_state (group_at g s)) = true.
Proof.
  intros [Hs (_ & gr & Hg & Hst & <- & <-)]. destruct (Inv_group _ _ _ Hs Hg) as (Hid & _).
  cbn in Hg. unfold group_at. by rewrite Hg.
Qed.

(** Attempts are counted only below the limit. *)
Lemma upd_group_attempts g a b L a' b' (f : GroupRecord → GroupRecord) s :
  (∀ x, gr_oms_group_id (f x) = gr_oms_group_id x ∧
        (gr_cancel_attempt_count x = a → gr_cancel_attempt_count (f x) = a') ∧
        (gr_repair_attempt_count x = b → gr_repair_attempt_count (f x) = b') ∧
        gr_execution_state (f x) = gr_execution_state x ∧ gr_capital_released (f x) = gr_capital_released x) →
  0 ≤ a' ≤ L → 0 ≤ b' ≤ L →
  P g a b L s → P g a' b' L (upd_group g f s).2.
Proof.
  intros Hf Ha' Hb' [Hs (HL & gr & Hg & Hst & Ha & Hb)]. destruct (Hf gr) as (H1 & H2 & H3 & H4 & H5). split.
  - apply (Inv_alter (core s)); [done|]. intros x Hx. assert (x = gr) as -> by congruence.
    destruct (Inv_group _ _ _ Hs Hg) as (Hid & _). unfold group_wf, repairable.
    rewrite H1, (H2 Ha), (H3 Hb), H4, H5, HL. repeat (split; [done|]). intros _. by apply (Inv_latched (core s) g gr).
  - split; [done|]. exists (f gr). cbn in Hg |- *. rewrite lookup_alter_eq, Hg, H4. auto.
Qed.

(** ** Updating orders *)

(** An order update that keeps what ties the order to its group. *)
Definition order_frame (f : OrderRecord → OrderRecord) : Prop :=
  ∀ o, od_repair_order (f o) = od_repair_order o ∧ od_oms_group_id (f o) = od_oms_group_id o.

Definition with_orders (c : Core) (os : gmap Z OrderRecord) : Core :=
  mkCore (c_enabled c) (c_incident c) (c_groups c) os (c_universe c) (c_reconciled c) (c_config c) (c_trades c)
    (c_group_ids c).

Lemma Inv_orders c os : Inv c → map_Forall (λ _, repair_wf (c_groups c)) os → Inv (with_orders c os).
Proof. intros ((? & ? & ? & _) & ? & ?) Hos. by split. Qed.

Lemma Inv_repairs c : Inv c → map_Forall (λ _, repair_wf (c_groups c)) (c_orders c).
Proof. by intros ((_ & _ & _ & ?) & _). Qed.

Lemma upd_order_Ok k f : order_frame f → rel (keeps Ok) (upd_order (Q := Q) k f).
Proof.
  intros Hf s Hs. apply (Inv_orders (core s)); [done|]. apply alter_Forall; [by apply Inv_repairs|].
  intros o Ho. destruct (Hf o) as [H1 H2]. unfold repair_wf. rewrite H1, H2. by apply (Inv_repairs _ Hs k).
Qed.

Lemma add_order_Ok k r s : repair_wf (os_group_by_id s) r → Ok s → Ok (add_order k r s).2.
Proof.
  intros Hr Hs. apply (Inv_orders (core s)); [done|]. pose proof (Inv_repairs _ Hs) as Ho. cbn in Ho |- *.
  unfold emplace. destruct (os_orders s !! k); [done|]. by apply map_Forall_insert_2.
Qed.

Lemma remove_order_Ok k id : rel (keeps Ok) (remove_order (Q := Q) k id).
Proof.
  intros s Hs. apply (Inv_orders (core s)); [done|]. apply map_Forall_delete. by apply Inv_repairs.
Qed.

(** Steps that leave the groups alone keep a repair going. *)
Lemma P_of_Ok {A} g a b L (m : M (OmsState (Q := Q)) A) :
  rel (keeps Ok) m → (∀ s, os_group_by_id (m s).2 = os_group_by_id s ∧ os_risk_config (m s).2 = os_risk_config s) → rel (keeps (P g a b L)) m.
Proof. intros Hm Hg s [Hs Ha]. split; [by apply Hm|]. unfold at_repair in *. cbn in *.
  destruct (Hg s) as [-> ->]. done. Qed.

Lemma upd_order_P g a b L k f : order_frame f → rel (keeps (P g a b L)) (upd_order (Q := Q) k f).
Proof. intros Hf. apply P_of_Ok; [by apply upd_order_Ok|by split]. Qed.

Lemma remove_order_P g a b L k id : rel (keeps (P g a b L)) (remove_order (Q := Q) k id).
Proof. apply P_of_Ok; [by apply remove_order_Ok|by split]. Qed.

Hint Resolve quiet_keeps_Ok quiet_keeps_P upd_order_P upd_order_Ok remove_order_P remove_order_Ok upd_group_P : frame.
Hint Extern 3 (rel quiet (modify _)) => (intros ?; reflexivity) : frame.
Hint Extern 3 (order_frame _) => (intros ?; split; reflexivity) : frame.
Ltac group_frame_solve :=
  intros ?; repeat split; try done; unfold uncertain_or; cbn; repeat case_match; done.
Hint Extern 3 (group_frame _) => solve [group_frame_solve] : frame.

Lemma set_uncertain_P g a b L : rel (keeps (P g a b L)) (set_uncertain (Q := Q) g).
Proof. unfold set_uncertain. rel_auto. Qed.

Lemma set_uncertain_Ok g : rel (keeps Ok) (set_uncertain (Q := Q) g).
Proof. apply upd_group_Ok; [group_frame_solve|done]. Qed.

Hint Resolve set_uncertain_P set_uncertain_Ok : frame.

Lemma emit_cancel_Ok k context id ts : rel (keeps Ok) (emit_cancel_command_for_record (Q := Q) k context id ts).
Proof. unfold emit_cancel_command_for_record. rel_auto. Qed.

Lemma emit_cancel_P g a b L k context id ts :
  rel (keeps (P g a b L)) (emit_cancel_command_for_record (Q := Q) k context id ts).
Proof. unfold emit_cancel_command_for_record. rel_auto. Qed.

Hint Resolve emit_cancel_Ok emit_cancel_P : frame.

Lemma cancel_orders_Ok ks context ts sent : rel (keeps Ok) (cancel_orders (Q := Q) ks context ts sent).
Proof. revert sent. induction ks as [|k ks IH]; intros sent; cbn [cancel_orders]; rel_auto. Qed.

Lemma cancel_orders_P g a b L ks context ts sent :
  rel (keeps (P g a b L)) (cancel_orders (Q := Q) ks context ts sent).
Proof. revert sent. induction ks as [|k ks IH]; intros sent; cbn [cancel_orders]; rel_auto. Qed.

Hint Resolve cancel_orders_Ok cancel_orders_P : frame.

(** ** The latch *)

(** Latching makes any incident legitimate. *)
Lemma latch_establishes_Ok s : Inv0 (core s) → Ok (latch_execution_incident s).2.
Proof.
  intros H0. change (wp latch_execution_incident (λ _, Ok) s). unfold latch_execution_incident, when.
  wp_steps. 
  assert (∀ s1, core s1 = mkCore (os_trading_enabled s) true (os_group_by_id s) (os_orders s)
    (os_active_order_universe s) (vr_reconciled (os_venue_portfolio s)) (os_risk_config s)
    (os_accounted_trade_ids s) (os_group_id_by_strategy_intent s) →
    wp (enabled ← gets os_trading_enabled;
        (if enabled : bool then (modify (λ s, s ⟪ os_trading_enabled := false ⟫);; emit_trading_enabled_changed)
         else mret tt)) (λ _, Ok) s1) as Hrest.
  { intros s1 Hc. wp_steps. destruct (os_trading_enabled s1) eqn:He.
    - wp_steps. eapply (wp_rel quiet); [apply emit_trading_quiet|]. intros _ s2 Hq. unfold Ok. rewrite Hq.
      injection Hc as H1 H2 H3 H4 H5 H6 H7 H8 H9. destruct H0 as (? & ? & ? & ?). unfold core in *. cbn in *.
      unfold Inv, Inv0. cbn. rewrite H2, H3, H4, H7. split_and!; first [done | lia | by intros i x Hi].
    - wp_steps. assert (os_trading_enabled s = false) as He' by (injection Hc; congruence).
      unfold Ok. rewrite Hc, He'. destruct H0 as (? & ? & ? & ?). split_and!; first [done | lia | by intros i x Hi]. }
  destruct (os_execution_incident_active s) eqn:Ha; cbn [negb]; wp_steps; apply Hrest.
  - unfold core. by rewrite Ha.
  - done.
Qed.

Definition same_groups s s' : Prop :=
  os_group_by_id s' = os_group_by_id s ∧ os_risk_config s' = os_risk_config s.

#[local] Instance same_groups_preorder : PreOrder same_groups.
Proof. split; unfold same_groups; repeat intro; intuition congruence. Qed.

Lemma quiet_same_groups {A} (m : M (OmsState (Q := Q)) A) : rel quiet m → rel same_groups m.
Proof. intros H s. specialize (H s). injection H as _ _ Hg _ _ _ Hc _ _. by split. Qed.
Hint Resolve quiet_same_groups : frame.
Hint Extern 3 (same_groups _ _) => (split; reflexivity) : frame.

Lemma latch_groups : rel same_groups (latch_execution_incident (Q := Q)).
Proof. unfold latch_execution_incident. rel_auto. Qed.

Lemma latch_Ok : rel (keeps Ok) (latch_execution_incident (Q := Q)).
Proof. intros s Hs. apply latch_establishes_Ok, Hs. Qed.

Lemma latch_P g a b L : rel (keeps (P g a b L)) (latch_execution_incident (Q := Q)).
Proof. apply P_of_Ok; [apply latch_Ok|apply latch_groups]. Qed.

Lemma elem_of_keys {V} (m : gmap Z V) k : k ∈ map_keys hash_order m ↔ is_Some (m !! k).
Proof.
  unfold map_keys. rewrite hash_order_perm, list_elem_of_fmap. split.
  - intros ([k' v] & -> & Hin). apply elem_of_map_to_list in Hin. by exists v.
  - intros [v Hv]. exists (k, v). by rewrite elem_of_map_to_list.
Qed.

Lemma incident_scan_spec s :
  existsb (λ g, in_incident (gr_execution_state (group_at g s))) (map_keys hash_order (os_group_by_id s)) = true ↔
  ∃ g gr, os_group_by_id s !! g = Some gr ∧ in_incident (gr_execution_state gr) = true.
Proof.
  rewrite existsb_exists. split.
  - intros (g & Hin & Hst). apply list_elem_of_In, elem_of_keys in Hin as [gr Hg].
    exists g, gr. unfold group_at in Hst. by rewrite Hg in Hst.
  - intros (g & gr & Hg & Hst). exists g. split; [apply list_elem_of_In, elem_of_keys; by exists gr|].
    unfold group_at. by rewrite Hg.
Qed.

Lemma refresh_Ok : rel (keeps Ok) (refresh_execution_incident_latch (Q := Q) hash_order).
Proof.
  apply keeps_wp. intros s Hs. pose proof (incident_scan_spec s) as Hscan.
  unfold refresh_execution_incident_latch. wp_steps. revert Hscan. generalize (existsb
    (λ g, in_incident (gr_execution_state (group_at g s))) (map_keys hash_order (os_group_by_id s))) as active.
  intros active Hscan. destruct Hs as (H0 & Hlatch & Hin). split; [exact H0|]. split.
  - intros He. change (active = false). apply not_true_iff_false. intros (g & gr & Hg & Hst)%Hscan.
    specialize (Hin g gr Hg Hst). rewrite (Hlatch He) in Hin. done.
  - intros g gr Hg Hst. apply Hscan. by exists g, gr.
Qed.

Hint Resolve latch_Ok latch_P refresh_Ok : frame.

(** ** Repair *)

Lemma scan_original_P g a b L ixs cancelable pending :
  rel (keeps (P g a b L)) (scan_original_legs (Q := Q) g ixs cancelable pending).
Proof.
  revert cancelable pending. induction ixs as [|i ixs IH]; intros c p; cbn [scan_original_legs]; rel_auto.
Qed.

Lemma scan_repair_P g a b L ixs live : rel (keeps (P g a b L)) (scan_repair_orders (Q := Q) g ixs live).
Proof. revert live. induction ixs as [|i ixs IH]; intros l; cbn [scan_repair_orders]; rel_auto. Qed.

Lemma fail_repair_P g a b L reason ts : rel (keeps (P g a b L)) (fail_group_repair (Q := Q) hash_order g reason ts).
Proof. unfold fail_group_repair. rel_auto. Qed.

Hint Resolve scan_original_P scan_repair_P fail_repair_P : frame.

(** A repair order is filed under the group it repairs. *)
Lemma add_repair_P g a b L k r s : od_oms_group_id r = g → P g a b L s → P g a b L (add_order k r s).2.
Proof.
  intros Hr [Hs Ha]. split; [|done]. apply add_order_Ok; [|done]. intros _. rewrite Hr.
  destruct Ha as (_ & gr & Hg & Hst & _). exists gr. by split; [|left].
Qed.

Lemma submit_repair_P g a b L ixs ts sent : rel (keeps (P g a b L)) (submit_repair_orders (Q := Q) g ixs ts sent).
Proof.
  revert sent. induction ixs as [|i ixs IH]; intros sent; cbn [submit_repair_orders]; [rel_auto|].
  apply keeps_wp. intros s Hs. wp_steps. destruct (P_group _ _ _ _ _ Hs) as (_ & _ & Hid & _).
  case_match; [by apply IH|]. wp_steps.
  destruct (os_orders s !! _) as [original|]; [|by eapply wp_keep; [|exact Hs|]; [rel_auto|]].
  destruct (absolute_lots _) as [quantity|]; [|by eapply wp_keep; [|exact Hs|]; [rel_auto|]].
  case_match; [by eapply wp_keep; [|exact Hs|]; [rel_auto|]|].
  case_match; [|by eapply wp_keep; [|exact Hs|]; [rel_auto|]].
  wp_step. eapply wp_keep; [apply quiet_keeps_P, fresh_quiet|exact Hs|]. intros id s' Hs'.
  case_match; [by eapply wp_keep; [|exact Hs'|]; [rel_auto|]|].
  wp_step. apply (wp_mono _ (λ _, P g a b L)); [apply add_repair_P; [exact Hid|exact Hs']|].
  intros _ s2 Hs2. eapply wp_keep; [|exact Hs2|by intros]. rel_auto.
Qed.
Hint Resolve submit_repair_P : frame.

Definition PA g s : Prop := ∃ a b L, P g a b L s.

Lemma PA_Ok g s : PA g s → Ok s.
Proof. by intros (a & b & L & H & _). Qed.

Lemma keeps_PA {A} g (m : M (OmsState (Q := Q)) A) : (∀ a b L, rel (keeps (P g a b L)) m) → rel (keeps (PA g)) m.
Proof. intros H s (a & b & L & Hs). exists a, b, L. by apply H. Qed.

Lemma keeps_PA_Ok {A} g (m : M (OmsState (Q := Q)) A) s : rel (keeps (PA g)) m → PA g s → wp m (λ _, Ok) s.
Proof. intros H Hs. eapply wp_keep; [exact H|exact Hs|]. intros _ s'. apply PA_Ok. Qed.

Ltac pa := eapply keeps_PA_Ok; [apply keeps_PA; intros; rel_auto|].

Lemma cancel_remainder_Ok g a b L cancelable ts s :
  P g a b L s → wp (cancel_remainder hash_order g cancelable ts) (λ _, Ok) s.
Proof.
  intros Hs. destruct (P_group _ _ _ _ _ Hs) as (Ha & _). destruct (P_limits _ _ _ _ _ Hs) as (La & Lb & LL & HL).
  assert (PA g s) as HPA by (by exists a, b, L).
  unfold cancel_remainder. wp_steps. rewrite Ha, HL. case_match; [by pa|]. wp_steps. case_match; [by pa|].
  wp_step. eapply wp_keep; [apply cancel_orders_P|exact Hs|]. intros sent s1 Hs1.
  wp_step. eapply (wp_keep (P g a b L)); [rel_auto|exact Hs1|]. intros _ s2 Hs2.
  wp_step. apply (wp_mono _ (λ _, PA g)); [|intros _ s' Hs'; by pa].
  unfold when. case_match; [|wp_step; by exists a, b, L]. wp_step. unfold wp at 1.
  assert (P g (a + 1) b L (upd_group g (λ x, x ⟪ gr_cancel_attempt_count ::= λ n, u8 (n + 1) ⟫) s2).2) as Hs3.
  { apply (upd_group_attempts g a b); [|lia|lia|exact Hs2]. intros x. split_and!; try done.
    intros <-. cbn. apply u8_id. unfold is_u8. lia. }
  eapply wp_keep; [|exact Hs3|intros _ s4; by exists (a + 1), b, L]. rel_auto.
Qed.

Lemma unwind_residual_Ok g a b L ts s : P g a b L s → wp (unwind_residual hash_order g ts) (λ _, Ok) s.
Proof.
  intros Hs. destruct (P_group _ _ _ _ _ Hs) as (_ & Hb & _). destruct (P_limits _ _ _ _ _ Hs) as (La & Lb & LL & HL).
  assert (PA g s) as HPA by (by exists a, b, L).
  unfold unwind_residual. wp_steps. rewrite Hb, HL. case_match; [by pa|]. wp_steps. case_match; [by pa|].
  wp_step. eapply wp_keep; [apply submit_repair_P|exact Hs|]. intros sent s1 Hs1.
  assert (PA g s1) as HPA1 by (by exists a, b, L).
  wp_steps. case_match; [by pa|]. case_match; [by pa|]. wp_step.
  apply (wp_mono _ (λ _, PA g)); [|intros _ s' Hs'; by pa]. exists a, (b + 1), L.
  apply (upd_group_attempts g a b); [|lia|lia|exact Hs1]. intros x. split_and!; try done.
  intros <-. cbn. apply u8_id. unfold is_u8. lia.
Qed.

(** What releasing the capital does to the core: it marks the group released. *)
Definition releases (x x' : GroupRecord) : Prop :=
  gr_oms_group_id x' = gr_oms_group_id x ∧ gr_cancel_attempt_count x' = gr_cancel_attempt_count x ∧
  gr_repair_attempt_count x' = gr_repair_attempt_count x ∧ gr_execution_state x' = gr_execution_state x ∧
  gr_capital_released x' = true.

Lemma release_of_spec group s :
  wp (release_group_capital_of clk hash_order group) (λ group' s', quiet s s' ∧ releases group group') s.
Proof.
  split; [apply release_of_quiet|]. generalize s. intros s0.
  change (wp (release_group_capital_of clk hash_order group) (λ group' _, releases group group') s0).
  unfold release_group_capital_of. destruct (gr_capital_released group) eqn:E; [by wp_steps|].
  repeat (wp_step; eapply (wp_rel (λ _ _, True)); [by intros ?|intros ? ? _]). by wp_steps.
Qed.

Lemma release_spec g s :
  wp (release_group_capital clk hash_order g) (λ _ s', ∃ h,
    core s' = with_groups (core s) (alter h g (os_group_by_id s)) ∧
    ∀ x, os_group_by_id s !! g = Some x → releases x (h x)) s.
Proof.
  unfold release_group_capital. wp_steps.
  eapply wp_mono; [apply release_of_spec|]. intros group' s' [Hq Hr]. unfold upd_group. wp_steps.
  exists (λ _, group'). split.
  - injection Hq as H1 H2 H3 H4 H5 H6 H7 H8 H9. unfold core, with_groups. cbn. by rewrite H1, H2, H3, H4, H5, H6, H7, H8, H9.
  - intros x Hx. unfold group_at in Hr. by rewrite Hx in Hr.
Qed.

Lemma wf_releases config g x x' : releases x x' → group_wf config g x → group_wf config g x'.
Proof. intros (H1 & H2 & H3 & _). unfold group_wf. by rewrite H1, H2, H3. Qed.

(** Leave a repair (or ordinary execution) for a closed state. *)
Definition closes (f : GroupRecord → GroupRecord) : Prop :=
  ∀ x, gr_oms_group_id (f x) = gr_oms_group_id x ∧
       gr_cancel_attempt_count (f x) = gr_cancel_attempt_count x ∧
       gr_repair_attempt_count (f x) = gr_repair_attempt_count x ∧
       in_incident (gr_execution_state (f x)) = false.

Lemma close_Ok {A} g f (k : M (OmsState (Q := Q)) A) Φ s : closes f → Ok s → (∀ s', Ok s' → wp k Φ s') →
  wp (upd_group g f;; release_group_capital clk hash_order g;; k) Φ s.
Proof.
  intros Hf Hs Hk. wp_step. unfold upd_group at 1. wp_step. wp_step. eapply wp_mono; [apply release_spec|].
  intros _ s' (h & Hc & Hh). apply Hk. unfold Ok. rewrite Hc. cbn in Hh |- *. rewrite alter_alter_eq.
  apply (Inv_alter (core s)); [done|]. intros x Hx. cbn in Hx. cbn.
  destruct (Hh (f x)) as (E1 & E2 & E3 & E4 & E5); [by rewrite lookup_alter_eq, Hx|].
  destruct (Hf x) as (F1 & F2 & F3 & F4). destruct (Inv_group _ _ _ Hs Hx) as (? & ? & ?).
  unfold group_wf, repairable. rewrite E1, E2, E3, E4, E5, F1, F2, F3, F4. repeat (split; [first [done|by right]|]); done.
Qed.

Lemma finish_repair_Ok g ts : rel (keeps Ok) (finish_repair (Q := Q) clk hash_order g ts).
Proof.
  apply keeps_wp. intros s Hs. unfold finish_repair. do 4 wp_step. apply close_Ok; [|done|].
  - intros x. cbn. by case_match.
  - intros s' Hs'. eapply wp_keep; [|exact Hs'|by intros]. rel_auto.
Qed.

Lemma close_group_Ok g state ts : in_incident state = false →
  rel (keeps Ok) (close_group (Q := Q) clk hash_order g state ts).
Proof.
  intros Hst. apply keeps_wp. intros s Hs. unfold close_group. apply close_Ok; [done|done|].
  intros s' Hs'. eapply wp_keep; [|exact Hs'|by intros]. rel_auto.
Qed.
Hint Resolve finish_repair_Ok : frame.

Lemma repair_exposure_Ok g a b L ts s : P g a b L s → wp (repair_exposure clk hash_order g ts) (λ _, Ok) s.
Proof.
  intros Hs. unfold repair_exposure. do 3 wp_step. eapply wp_keep; [apply scan_repair_P|exact Hs|].
  intros live s1 Hs1. wp_step. eapply (wp_keep (P g a b L)); [rel_auto|exact Hs1|]. intros _ s2 Hs2.
  assert (PA g s2) as HPA by (by exists a, b, L). wp_steps.
  case_match; [by pa|]. case_match; [eapply wp_keep; [apply finish_repair_Ok|by eapply PA_Ok|done]|].
  destruct live; [by pa|]. by eapply unwind_residual_Ok.
Qed.

(** A group under repair, or closed, may always be serviced. *)
Lemma continue_repair_Ok g ts s : Ok s → repairable (group_at g s) → 
  wp (continue_group_repair clk hash_order g ts) (λ _, Ok) s.
Proof.
  intros Hs Hr. unfold continue_group_repair. wp_steps. case_match eqn:E; [by wp_steps|].
  apply orb_false_iff in E as [E _]. destruct Hr as [Hr|Hr]; [|congruence].
  unfold group_at in Hr. destruct (os_group_by_id s !! g) as [gr|] eqn:Eg; [|done]. cbn in Hr.
  set (a := gr_cancel_attempt_count gr). set (b := gr_repair_attempt_count gr).
  assert (P g a b (rk_maximum_group_repair_attempts (os_risk_config s)) s) as HP
    by (split; [done|split; [done|]; by exists gr]).
  wp_step. eapply wp_keep; [apply scan_original_P|exact HP|]. intros [cancelable pending] s1 Hs1. cbn [fst snd].
  case_match; [by eapply cancel_remainder_Ok|].
  assert (PA g s1) as HPA by (by eexists _, _, _).
  destruct pending; [|by eapply repair_exposure_Ok]. wp_steps. case_match; by pa.
Qed.

Lemma quiet_keeps_with {A} g gr (m : M (OmsState (Q := Q)) A) :
  rel quiet m → rel (keeps (λ s', Ok s' ∧ os_group_by_id s' !! g = gr)) m.
Proof.
  intros H s [H1 H2]. split; [by apply (quiet_keeps_Ok m H)|]. specialize (H s).
  rewrite <- H2. f_equal. exact (f_equal c_groups H).
Qed.

Lemma begin_repair_Ok g reason ts s : Ok s → is_Some (os_group_by_id s !! g) →
  wp (begin_group_repair clk hash_order g reason ts) (λ _, Ok) s.
Proof.
  intros Hs Hg. unfold begin_group_repair. wp_steps.
  generalize (in_incident (gr_execution_state (group_at g s))) as already. intros already.
  apply (wp_mono _ (λ _ s1, Ok s1 ∧ is_Some (os_group_by_id s1 !! g))).
  { unfold when. case_match; [|by wp_steps; eauto]. split; [by apply set_uncertain_Ok|].
    unfold set_uncertain, upd_group. cbn. rewrite lookup_alter_eq. by apply fmap_is_Some. }
  clear s Hs Hg. intros _ s [Hs [gr Hg]]. wp_step.
  set (f := λ x : GroupRecord, _). unfold upd_group. wp_steps.
  assert (in_incident (gr_execution_state (f gr)) = true) as Hin by (subst f; unfold uncertain_or; cbn; by case_match).
  assert (Inv0 (core s ⟪ os_group_by_id ::= alter f g ⟫)) as H0.
  { apply (Inv0_alter (core s)); [apply Hs|]. intros x Hx. assert (x = gr) as -> by (cbn in Hx; congruence).
    split; [|by left]. apply (Inv_group _ _ _ Hs Hg). }
  apply (wp_mono _ (λ _ s', Ok s' ∧ os_group_by_id s' !! g = Some (f gr))).
  { split; [by apply latch_establishes_Ok|]. rewrite (proj1 (latch_groups _)). cbn. by rewrite lookup_alter_eq, Hg. }
  intros _ s1 Hs1. wp_step. eapply (wp_keep (λ s', Ok s' ∧ os_group_by_id s' !! g = Some (f gr))); [|exact Hs1|].
  - apply rel_when; [exact _|]. apply quiet_keeps_with. rel_auto.
  - intros _ s2 [Hs2 Hg2]. apply continue_repair_Ok; [done|]. unfold group_at. rewrite Hg2. by left.
Qed.

(** ** Groups after their orders *)

Lemma service_groups_Ok gs ts n : rel (keeps Ok) (service_groups (Q := Q) clk hash_order gs ts n).
Proof.
  revert n. induction gs as [|g gs IH]; intros n; cbn [service_groups]; [rel_auto|].
  apply keeps_wp. intros s Hs. wp_steps. case_match eqn:E; [by apply IH|]. wp_step.
  apply (wp_mono _ (λ _, Ok)); [|intros _ s' Hs'; wp_steps; by apply IH]. apply continue_repair_Ok; [done|].
  left. by destruct (gr_execution_state (group_at g s)).
Qed.

Lemma service_Ok : rel (keeps Ok) (service_execution_incidents (Q := Q) clk hash_order).
Proof. unfold service_execution_incidents. pose proof service_groups_Ok. rel_auto. Qed.

Lemma set_uncertain_repairable g :
  rel (keeps (λ s, Ok s ∧ repairable (group_at g s))) (set_uncertain (Q := Q) g).
Proof.
  intros s [Hs Hr]. split; [by apply set_uncertain_Ok|]. unfold group_at, set_uncertain, upd_group in *. cbn.
  rewrite lookup_alter_eq. by destruct (os_group_by_id s !! g).
Qed.

(** Moving a group that is executing normally. *)
Lemma upd_group_idle g f s x : Ok s → os_group_by_id s !! g = Some x → ¬ repairable x → closes f →
  Ok (upd_group g f s).2.
Proof.
  intros Hs Hx Hr Hf. apply (Inv_alter (core s)); [done|]. intros y Hy.
  assert (y = x) as -> by (cbn in Hy; congruence). destruct (Hf x) as (F1 & F2 & F3 & F4).
  destruct (Inv_group _ _ _ Hs Hx) as (? & ? & ?). unfold group_wf. rewrite F1, F2, F3, F4. done.
Qed.

Lemma order_repairable k s x : Ok s → os_group_by_id s !! od_oms_group_id (order_at k s) = Some x →
  od_repair_order (order_at k s) = true → repairable x.
Proof.
  intros Hs Hx Hr. unfold order_at in *. destruct (os_orders s !! k) as [o|] eqn:Eo; [|done]. cbn in *.
  destruct (Inv_repairs _ Hs k o Eo Hr) as (y & Hy & Hrep). cbn in Hy. congruence.
Qed.

Lemma update_group_idle_Ok g x sum ts s : Ok s → os_group_by_id s !! g = Some x → ¬ repairable x →
  wp (upd_group g (λ x, x ⟪ gr_residual_exposure_present := group_has_residual_exposure x ⟫);;
      if ls_any_uncertain sum || gr_venue_state_uncertain x
         || (ls_all_filled sum && negb (ls_fills_fully_accounted sum))
      then begin_group_repair clk hash_order g kVENUE_STATE_UNCERTAIN ts
      else if ls_all_filled sum then close_group clk hash_order g kCOMPLETED ts
      else if ls_all_terminal sum && negb (ls_any_fill sum) then close_group clk hash_order g kABORTED ts
      else if ls_any_partial sum || ls_any_terminal_failure sum || (ls_all_terminal sum && ls_any_fill sum)
      then begin_group_repair clk hash_order g kLEG_PARTIALLY_FILLED ts
      else
        upd_group g (λ x, x ⟪ gr_execution_state :=
                                if ls_any_fill sum then kGROUP_PARTIALLY_FILLED else kGROUP_WORKING ⟫
                            ⟪ gr_last_update_ts_ns := ts ⟫);;
        emit_group_update g ts) (λ _, Ok) s.
Proof.
  intros Hs Hx Hr. wp_step.
  apply (wp_mono _ (λ _ s1, Ok s1 ∧ ∃ y, os_group_by_id s1 !! g = Some y ∧ ¬ repairable y)).
  { split; [by apply upd_group_Ok; [group_frame_solve|..]|]. eexists. cbn. rewrite lookup_alter_eq, Hx. by split. }
  intros _ s1 (Hs1 & y & Hy & Hry).
  destruct (_ || _ || _); [by apply begin_repair_Ok|].
  destruct (ls_all_filled sum); [by apply close_group_Ok|].
  destruct (ls_all_terminal sum && _); [by apply close_group_Ok|].
  destruct (_ || _ || _); [by apply begin_repair_Ok|].
  wp_step; apply (wp_mono _ (λ _, Ok)); [eapply upd_group_idle; [done|done|done|]; by destruct (ls_any_fill sum)|].
  intros _ s2 Hs2. eapply wp_keep; [|exact Hs2|by intros]. rel_auto.
Qed.

Lemma update_group_Ok k ts : rel (keeps Ok) (update_group_after_order_state_change (Q := Q) clk hash_order k ts).
Proof.
  apply keeps_wp. intros s Hs. unfold update_group_after_order_state_change. wp_steps.
  case_match; [by wp_steps|]. wp_steps. unfold find_group.
  destruct (os_group_by_id s !! _) as [x|] eqn:Hx; [|by wp_steps]. cbn [fmap option_fmap option_map]. wp_steps.
  unfold group_at. rewrite Hx. cbn [default from_option id]. case_match eqn:E.
  - assert (repairable x) as Hr.
    { apply orb_true_iff in E as [E|E]; [by eapply order_repairable|by left]. }
    wp_step. eapply (wp_keep (λ s', Ok s' ∧ repairable (group_at (od_oms_group_id (order_at k s)) s'))).
    + apply rel_when; [exact _|]. apply set_uncertain_repairable.
    + split; [done|]. unfold group_at. by rewrite Hx.
    + intros _ s1 [Hs1 Hr1]. case_match; [by apply continue_repair_Ok|by wp_steps].
  - apply orb_false_iff in E as [_ E]. case_match eqn:Er; [by wp_steps|]. wp_steps.
    apply update_group_idle_Ok; [done|done|]. unfold repairable. rewrite E, Er. by intros [|].
Qed.
Hint Resolve service_Ok update_group_Ok : frame.

(** ** Accounting *)

Hint Extern 3 (∀ _, in_incident _ = in_incident _) => (intros ?; cbn; repeat case_match; done) : frame.
Hint Resolve upd_group_Ok : frame.

Lemma account_residual_Ok k d : rel (keeps Ok) (account_residual (Q := Q) k d).
Proof. unfold account_residual. rel_auto. Qed.

Lemma release_fill_Ok k i q : rel (keeps Ok) (release_fill_reservation (Q := Q) k i q).
Proof. unfold release_fill_reservation. rel_auto. Qed.
Hint Resolve account_residual_Ok release_fill_Ok : frame.

Lemma account_fill_Ok k e : rel (keeps Ok) (account_fill (Q := Q) hash_order k e).
Proof. unfold account_fill. rel_auto. Qed.

Lemma account_terminal_Ok k ts : rel (keeps Ok) (account_terminal_order (Q := Q) hash_order k ts).
Proof. unfold account_terminal_order. rel_auto. Qed.
Hint Resolve account_fill_Ok account_terminal_Ok : frame.

(** ** Intents *)

Lemma add_plain_order_Ok k r : od_repair_order r = false → rel (keeps Ok) (add_order (Q := Q) k r).
Proof. intros Hr s Hs. apply add_order_Ok; [|done]. intros H. congruence. Qed.

Hint Extern 3 (od_repair_order _ = false) => reflexivity : frame.
Hint Resolve add_plain_order_Ok : frame.

Lemma submit_new_order_Ok intent context ts id r :
  rel (keeps Ok) (submit_new_order (Q := Q) clk hash_order intent context ts id r).
Proof. unfold submit_new_order. rel_auto. Qed.
Hint Resolve submit_new_order_Ok : frame.

Lemma handle_new_order_Ok intent : rel (keeps Ok) (handle_new_order (Q := Q) clk hash_order intent).
Proof. unfold handle_new_order. rel_auto. Qed.

Lemma handle_cancel_order_Ok intent : rel (keeps Ok) (handle_cancel_order (Q := Q) clk intent).
Proof. unfold handle_cancel_order. rel_auto. Qed.

Lemma handle_modify_order_Ok intent : rel (keeps Ok) (handle_modify_order (Q := Q) clk intent).
Proof. unfold handle_modify_order. rel_auto. Qed.

(** While a group is being filed, its id is still unused: [Filing g] is the
    invariant of the state without [g], plus a well-formed idle group at [g]. *)
Definition Filing (g : Z) s : Prop :=
  Inv (with_groups (core s) (delete g (os_group_by_id s))) ∧
  ∃ gr, os_group_by_id s !! g = Some gr ∧ group_wf (os_risk_config s) g gr ∧
        in_incident (gr_execution_state gr) = false.

Lemma quiet_keeps_Filing {A} g (m : M (OmsState (Q := Q)) A) : rel quiet m → rel (keeps (Filing g)) m.
Proof.
  intros H s [H1 H2]. specialize (H s). split; [|].
  - rewrite H. change (os_group_by_id (m s).2) with (c_groups (core (m s).2)). by rewrite H.
  - change (os_group_by_id (m s).2) with (c_groups (core (m s).2)).
    change (os_risk_config (m s).2) with (c_config (core (m s).2)). by rewrite H.
Qed.

Lemma add_plain_order_Filing g k r : od_repair_order r = false → rel (keeps (Filing g)) (add_order (Q := Q) k r).
Proof.
  intros Hr s [H1 H2]. split; [|exact H2].
  apply (Inv_orders (with_groups (core s) (delete g (os_group_by_id s)))); [done|].
  apply Inv_repairs in H1. cbn in H1 |- *. unfold emplace. destruct (os_orders s !! k); [done|].
  apply map_Forall_insert_2; [|done]. intros H. congruence.
Qed.

Lemma remove_order_Filing g k id : rel (keeps (Filing g)) (remove_order (Q := Q) k id).
Proof.
  intros s [H1 H2]. split; [|exact H2].
  apply (Inv_orders (with_groups (core s) (delete g (os_group_by_id s)))); [done|].
  apply Inv_repairs in H1. exact (map_Forall_delete _ (os_orders s) k H1).
Qed.

Lemma Filing_Ok g s : Filing g s → Ok s.
Proof.
  intros (((Hl & Ht & Hg & Ho) & Hlatch & Hin) & gr & Hgr & Hwf & Hst). cbn in *.
  assert (∀ Φ : Z → GroupRecord → Prop, map_Forall Φ (delete g (os_group_by_id s)) → Φ g gr →
    map_Forall Φ (os_group_by_id s)) as Hadd.
  { intros Φ H1 H2 i x Hi. destruct (decide (i = g)) as [->|Hne]; [congruence|]. apply H1. by rewrite lookup_delete_ne. }
  split; [split; [done|split; [done|split]]|split; [done|]].
  - by apply Hadd.
  - intros k o Hk Hr. destruct (Ho k o Hk Hr) as (x & Hx & Hrep). exists x.
    apply lookup_delete_Some in Hx as [_ Hx]. done.
  - apply Hadd; [done|]. cbn. congruence.
Qed.

Lemma upd_group_Filing g f : closes f → rel (keeps (Filing g)) (upd_group (Q := Q) g f).
Proof.
  intros Hf s (H1 & gr & Hgr & (W1 & W2 & W3) & Hst). split.
  - cbn. by rewrite delete_alter_eq.
  - destruct (Hf gr) as (F1 & F2 & F3 & F4). exists (f gr). cbn. rewrite lookup_alter_eq, Hgr.
    unfold group_wf. by rewrite F1, F2, F3, F4.
Qed.

Lemma release_Filing g : rel (keeps (Filing g)) (release_group_capital (Q := Q) clk hash_order g).
Proof.
  apply keeps_wp. intros s Hs. eapply wp_mono; [apply release_spec|]. intros _ s' (h & Hc & Hh).
  destruct Hs as (H1 & gr & Hgr & Hwf & Hst). specialize (Hh gr Hgr).
  unfold Filing. change (os_group_by_id s') with (c_groups (core s')).
  change (os_risk_config s') with (c_config (core s')). rewrite Hc. cbn. split.
  - by rewrite delete_alter_eq.
  - exists (h gr). rewrite lookup_alter_eq, Hgr. split; [done|]. split; [by eapply wf_releases|].
    destruct Hh as (_ & _ & _ & -> & _). done.
Qed.

Hint Resolve quiet_keeps_Filing add_plain_order_Filing remove_order_Filing release_Filing upd_group_Filing : frame.
Hint Extern 4 (rel (keeps (Filing _)) (modify _)) => (intros ? [? ?]; split; assumption) : frame.
Hint Extern 4 (rel (keeps Ok) (modify _)) => (intros ? ?; assumption) : frame.
Hint Extern 3 (closes _) => (intros ?; repeat split; reflexivity) : frame.

Lemma forM_legs {R : OmsState → Prop} (legs : list BuiltLeg) (f : BuiltLeg → M (OmsState (Q := Q)) unit) :
  (∀ l, l ∈ legs → rel (keeps R) (f l)) → rel (keeps R) (forM_ legs f).
Proof.
  induction legs as [|l legs IH]; intros Hf; cbn [forM_]; [apply rel_ret, _|].
  apply rel_bind; [exact _|apply Hf; by left|]. intros _. apply IH. intros l' Hl'. apply Hf. by right.
Qed.

Lemma register_Filing g intent legs : (∀ l, l ∈ legs → od_repair_order (bl_record l) = false) →
  rel (keeps (Filing g)) (register_group (Q := Q) g intent legs).
Proof.
  intros Hl. unfold register_group. apply rel_bind; [exact _|rel_auto|]. intros _. apply forM_legs.
  intros l Hin. apply add_plain_order_Filing. by apply Hl.
Qed.

Lemma rollback_Ok g intent legs s : Filing g s → wp (rollback_group clk hash_order g intent legs) (λ _, Ok) s.
Proof.
  intros Hs. unfold rollback_group. 
  repeat (wp_step; eapply (wp_keep (Filing g)); [rel_auto|eassumption|clear s Hs; intros _ s Hs]).
  wp_steps. apply Hs.
Qed.

Lemma submit_group_Ok g batch sub recv intent group legs s :
  Ok s → group_wf (os_risk_config s) g group → in_incident (gr_execution_state group) = false →
  (∀ l, l ∈ legs → od_repair_order (bl_record l) = false) →
  wp (submit_group clk hash_order g batch sub recv intent group legs) (λ _, Ok) s.
Proof.
  intros Hs Hwf Hst Hl. unfold submit_group. wp_steps. case_match eqn:E.
  { eapply wp_keep; [|exact Hs|by intros]. rel_auto. }
  apply negb_false_iff, bool_decide_eq_true in E. wp_steps.
  match goal with |- wp _ _ ?s1 => assert (Filing g s1) as Hf end.
  { split; [|exists group; cbn; by rewrite lookup_insert_eq]. cbn. by rewrite delete_insert_id. }
  eapply wp_keep; [by apply register_Filing|exact Hf|]. clear s Hs Hwf E Hf. intros _ s Hs.
  wp_step. eapply (wp_keep (Filing g)); [rel_auto|exact Hs|]. clear s Hs. intros sent s Hs.
  destruct (negb sent).
  - wp_step. eapply wp_mono; [by apply rollback_Ok|]. intros [] s1 Hs1.
    eapply wp_keep; [|exact Hs1|by intros]. rel_auto.
  - eapply wp_keep; [|exact Hs|intros _ s1; apply Filing_Ok]. rel_auto.
Qed.

Lemma build_legs_plain g ts i legs s :
  wp (build_legs (Q := Q) g ts i legs)
     (λ r _, ∀ built l, r = Some built → l ∈ built → od_repair_order (bl_record l) = false) s.
Proof.
  revert i s. induction legs as [|leg legs IH]; intros i s; cbn [build_legs].
  - wp_steps. intros ? l [= <-] Hl. by apply not_elem_of_nil in Hl.
  - wp_step. eapply (wp_rel (λ _ _, True)); [by intros ?|intros id s1 _]. case_match; [by wp_steps|].
    wp_step. eapply wp_mono; [apply IH|]. intros r s2 Hr. wp_steps.
    intros built l Hb Hl. destruct r as [built'|]; [|done]. injection Hb as <-.
    apply elem_of_cons in Hl as [->|Hl]; [done|]. by eapply Hr.
Qed.

Lemma reserve_spec group s : wp (reserve_group_capital hash_order group) (λ r s', quiet s s' ∧
  (r.2 = group ∨ r.2 = group ⟪ gr_capital_released := false ⟫)) s.
Proof.
  split; [apply reserve_quiet|].
  change (wp (reserve_group_capital hash_order group) (λ r _,
    r.2 = group ∨ r.2 = group ⟪ gr_capital_released := false ⟫) s).
  unfold reserve_group_capital. case_match; [wp_steps; by left|].
  wp_step. eapply (wp_rel (λ _ _, True)); [by intros ?|intros ? ? _]. wp_steps. case_match; [wp_steps; by left|].
  repeat (wp_step; eapply (wp_rel (λ _ _, True)); [by intros ?|intros ? ? _]). wp_steps. by right.
Qed.

Lemma handle_group_order_Ok intent : rel (keeps Ok) (handle_group_order (Q := Q) clk hash_order intent).
Proof.
  apply keeps_wp. intros s Hs. unfold handle_group_order.
  wp_step. eapply (wp_keep Ok); [rel_auto|exact Hs|]. clear s Hs. intros recv s Hs.
  wp_step. eapply (wp_keep Ok); [rel_auto|exact Hs|]. clear s Hs. intros admission s Hs.
  case_match; [eapply wp_keep; [|exact Hs|by intros]; rel_auto|]. wp_steps.
  generalize (os_next_oms_group_id s) as g. intros g.
  match goal with |- wp _ _ ?s1 => assert (Ok s1) as Hs1 by exact Hs; generalize dependent s1 end.
  clear s Hs. intros s Hs. eapply (wp_keep Ok); [rel_auto|exact Hs|]. clear s Hs. intros batch s Hs.
  wp_step. eapply (wp_keep Ok); [rel_auto|exact Hs|]. clear s Hs. intros sub s Hs.
  wp_step. apply (wp_mono _ (λ r s', Ok s' ∧ ∀ built l, r = Some built → l ∈ built → od_repair_order (bl_record l) = false)).
  { split; [|apply build_legs_plain]. by apply quiet_keeps_Ok; [apply build_legs_quiet|]. }
  clear s Hs. intros [legs|] s [Hs Hl]; [|eapply wp_keep; [|exact Hs|by intros]; rel_auto].
  wp_step. eapply wp_mono; [apply reserve_spec|]. intros [ok group] s1 [Hq Hg]. cbn [fst snd] in *.
  assert (Ok s1) as Hs1 by (unfold Ok; by rewrite Hq). destruct ok; cbn [negb].
  - assert (0 ≤ rk_maximum_group_repair_attempts (os_risk_config s1)) by (destruct Hs1 as (([? _] & _) & _); done).
    apply submit_group_Ok; [done| | |by intros; eapply Hl].
    + destruct Hg as [->| ->]; split; [done|cbn; lia|done|cbn; lia].
    + by destruct Hg as [->| ->].
  - eapply wp_keep; [|exact Hs1|by intros]. rel_auto.
Qed.
Hint Resolve handle_new_order_Ok handle_cancel_order_Ok handle_modify_order_Ok handle_group_order_Ok : frame.

(** ** Venue events *)

Lemma rest_transition_frame r : order_frame (rest_transition r).
Proof. intros o. unfold rest_transition, restore_previous_state, clear_pending_command. by repeat case_match. Qed.

Lemma user_order_frame e : order_frame (user_order_transition e).
Proof. by intros o. Qed.

Lemma fill_frame e : order_frame (fill_transition e).
Proof. intros o. unfold fill_transition, clear_pending_command. by repeat case_match. Qed.
Hint Resolve rest_transition_frame user_order_frame fill_frame : frame.

Lemma learn_Ok k id : rel (keeps Ok) (learn_exchange_id (Q := Q) k id).
Proof. unfold learn_exchange_id. rel_auto. Qed.
Hint Resolve learn_Ok : frame.

Lemma handle_rest_Ok r : rel (keeps Ok) (handle_rest_response (Q := Q) clk hash_order r).
Proof. unfold handle_rest_response. rel_auto. Qed.
Hint Resolve handle_rest_Ok : frame.

Lemma handle_batch_legs_Ok batch legs missing :
  rel (keeps Ok) (handle_batch_legs (Q := Q) clk hash_order batch legs missing).
Proof. revert missing. induction legs as [|l legs IH]; intros missing; cbn [handle_batch_legs]; rel_auto. Qed.
Hint Resolve handle_batch_legs_Ok : frame.

Lemma uncertain_repair_Ok g reason ts s : Ok s → is_Some (os_group_by_id s !! g) →
  wp (set_uncertain g;; begin_group_repair clk hash_order g reason ts) (λ _, Ok) s.
Proof.
  intros Hs Hg. wp_step. apply (wp_mono _ (λ _ s', Ok s' ∧ is_Some (os_group_by_id s' !! g))).
  - split; [by apply set_uncertain_Ok|]. cbn. rewrite lookup_alter_eq. by apply fmap_is_Some.
  - intros _ s1 [Hs1 Hg1]. by apply begin_repair_Ok.
Qed.

Lemma handle_batch_Ok r : rel (keeps Ok) (handle_batch_response (Q := Q) clk hash_order r).
Proof.
  apply keeps_wp. intros s Hs. unfold handle_batch_response. wp_steps.
  eapply (wp_keep Ok); [rel_auto|exact Hs|]. intros missing s1 Hs1. wp_steps.
  case_match; [by wp_steps|]. wp_steps.
  match goal with |- wp _ _ ?s2 => assert (Ok s2) as Hs2 by exact Hs1; generalize dependent s2 end.
  intros s2 Hs2. destruct (os_group_by_id s2 !! _) as [gr|] eqn:Hg; [|by wp_steps].
  case_match; [by wp_steps|]. wp_steps. case_match; [|by apply uncertain_repair_Ok; [|rewrite Hg]].
  case_match; [by apply uncertain_repair_Ok; [|rewrite Hg]|by apply update_group_Ok].
Qed.

Lemma handle_private_ws_Ok e : rel (keeps Ok) (handle_private_ws (Q := Q) clk hash_order e).
Proof. unfold handle_private_ws, after_order_event. rel_auto. Qed.
Hint Resolve handle_batch_Ok handle_private_ws_Ok : frame.

(** ** Readiness *)

Definition disabled (c : Core) : Core :=
  mkCore false (c_incident c) (c_groups c) (c_orders c) (c_universe c) (c_reconciled c) (c_config c) (c_trades c)
    (c_group_ids c).

Lemma Inv_disabled c : Inv c → Inv (disabled c).
Proof. intros ((? & _ & ? & ?) & _ & ?). by split. Qed.

(** A loss of readiness: whatever happened to the readiness facts, the OMS that
    then disables trading is in order. *)
Definition Unready s : Prop :=
  let c := core s in
  0 ≤ rk_maximum_group_repair_attempts (c_config c) ≤ U8_MAX ∧ map_Forall (group_wf (c_config c)) (c_groups c) ∧
  map_Forall (λ _, repair_wf (c_groups c)) (c_orders c) ∧
  map_Forall (λ _ gr, in_incident (gr_execution_state gr) = true → c_incident c = true) (c_groups c).

Lemma Ok_Unready s : Ok s → Unready s.
Proof. by intros ((? & _ & ? & ?) & _ & ?). Qed.

Lemma Unready_disabled s : Unready s → Inv (disabled (core s)).
Proof. by intros (? & ? & ? & ?). Qed.

Lemma quiet_keeps_Unready {A} (m : M (OmsState (Q := Q)) A) : rel quiet m → rel (keeps Unready) m.
Proof. intros H s HR. unfold Unready. by rewrite (H s). Qed.
Hint Resolve quiet_keeps_Unready : frame.

Lemma disable_step s : Unready s →
  wp (when (os_trading_enabled s) (modify (λ s, s ⟪ os_trading_enabled := false ⟫);; emit_trading_enabled_changed))
     (λ _ s', Ok s' ∧ os_trading_enabled s' = false) s.
Proof.
  intros Hs%Unready_disabled. unfold when. destruct (os_trading_enabled s) eqn:E.
  - wp_steps. eapply (wp_rel quiet); [apply emit_trading_quiet|]. intros _ s' Hq. unfold Ok.
    split; [rewrite Hq; exact Hs|exact (f_equal c_enabled Hq)].
  - wp_steps. split; [|done]. unfold Ok, core, disabled in *. rewrite E. exact Hs.
Qed.

Lemma reconciliation_failed_Ok : rel (keeps Ok) (reconciliation_failed (Q := Q) clk hash_order).
Proof.
  apply keeps_wp. intros s Hs%Ok_Unready. unfold reconciliation_failed. wp_steps.
  eapply (wp_keep Unready); [rel_auto|exact Hs|]. intros ts s0 Hs0. wp_steps.
  eapply wp_mono; [apply disable_step; exact Hs0|]. intros _ s1 [Hs1 _]. eapply wp_keep; [|exact Hs1|by intros]. rel_auto.
Qed.

Lemma reconciled_Ok snapshot : rel (keeps Ok) (reconciliation_completed (Q := Q) clk hash_order snapshot).
Proof.
  apply keeps_wp. intros s Hs. unfold reconciliation_completed. do 2 wp_step.
  match goal with |- wp _ _ ?s1 => assert (Ok s1) as Hs1 end.
  { destruct Hs as ((Hl & Ht & Hg & Ho) & Hlatch & Hin). split; [split; [exact Hl|split; [|by split]]|by split].
    intros He. destruct (Ht He) as [Hu _]. split; [exact Hu|]. unfold core_portfolio_ready. cbn. by rewrite orb_true_r. }
  eapply wp_keep; [|exact Hs1|by intros]. rel_auto.
Qed.
Hint Resolve reconciliation_failed_Ok reconciled_Ok : frame.

Lemma handle_snapshot_Ok snapshot : rel (keeps Ok) (handle_portfolio_snapshot (Q := Q) clk hash_order snapshot).
Proof. unfold handle_portfolio_snapshot. rel_auto. Qed.
Hint Resolve handle_snapshot_Ok : frame.

Lemma handle_venue_event_Ok e : rel (keeps Ok) (handle_venue_event (Q := Q) clk hash_order e).
Proof. destruct e; cbn [handle_venue_event]; rel_auto. Qed.

(** ** Control commands *)

Lemma handle_allow_Ok : rel (keeps Ok) (handle_allow_trading (Q := Q)).
Proof.
  apply keeps_wp. intros s Hs. unfold handle_allow_trading. do 2 wp_step.
  match goal with |- wp _ _ ?s1 => assert (Ok s1) as Hs1 end.
  { destruct Hs as ((Hl & Ht & Hg & Ho) & Hlatch & Hin). split; [split; [done|split]|split]; try done.
    - intros [[Hi Hu]%andb_true_iff Hp]%andb_true_iff. by split.
    - by intros [[Hi%negb_true_iff Hu]%andb_true_iff Hp]%andb_true_iff. }
  eapply wp_keep; [|exact Hs1|by intros]. rel_auto.
Qed.

Lemma disable_Ok (f : OmsState → OmsState) :
  (∀ s, core (f s) = disabled (core s)) → rel (keeps Ok) (modify (S := OmsState (Q := Q)) f).
Proof. intros Hf s Hs. unfold Ok. cbn. rewrite Hf. by apply Inv_disabled. Qed.

Lemma handle_disable_Ok : rel (keeps Ok) (handle_disable_trading (Q := Q)).
Proof. unfold handle_disable_trading. apply rel_bind; [exact _|by apply disable_Ok|]. intros _. rel_auto. Qed.

Lemma handle_cancel_all_Ok : rel (keeps Ok) (handle_cancel_all (Q := Q) clk hash_order).
Proof. unfold handle_cancel_all. apply rel_bind; [exact _|by apply disable_Ok|]. intros _. rel_auto. Qed.

Lemma handle_universe_Ok snapshot : rel (keeps Ok) (handle_apply_universe (Q := Q) hash_order snapshot).
Proof.
  apply keeps_wp. intros s Hs. unfold handle_apply_universe. wp_steps.
  set (changed := match snapshot with Some u => _ | None => true end).
  apply (wp_mono _ (λ _, Ok)); [|intros _ s1 Hs1; eapply wp_keep; [|exact Hs1|by intros]; rel_auto].
  destruct changed eqn:Ec; subst changed; cbn [when].
  - wp_steps. eapply wp_mono; [apply disable_step; exact (Ok_Unready _ Hs)|].
    intros _ s1 [Hs1 He]. wp_steps. unfold when.
    destruct (rk_require_portfolio_reconciliation _); [|by wp_steps]. do 2 wp_step.
    match goal with |- wp _ _ ?s2 => assert (Ok s2) as Hs2 end.
    { destruct Hs1 as ((Hl & Ht & Hg & Ho) & Hlatch & Hin). split; [split; [exact Hl|split; [|by split]]|by split].
      cbn. rewrite He. done. }
    eapply wp_keep; [|exact Hs2|by intros]. rel_auto.
  - wp_steps. destruct snapshot as [u|]; [|done]. apply negb_false_iff, Z.eqb_eq in Ec.
    destruct Hs as ((Hl & Ht & Hg & Ho) & Hlatch & Hin). split; [split; [exact Hl|split; [|by split]]|by split].
    intros He. destruct (Ht He) as [Hu Hp]. split; [|exact Hp]. unfold core_universe_ready in *. cbn in Hu |- *.
    rewrite Ec. by destruct (os_active_order_universe s).
Qed.
Hint Resolve handle_allow_Ok handle_disable_Ok handle_cancel_all_Ok handle_universe_Ok : frame.

Lemma handle_control_Ok c : rel (keeps Ok) (handle_control_command (Q := Q) clk hash_order c).
Proof. destruct c; cbn [handle_control_command]; rel_auto. Qed.
Hint Resolve handle_control_Ok handle_venue_event_Ok : frame.

(** ** The pump *)

Lemma drain_round_Ok {T} (popq : nat → M (OmsState (Q := Q)) (option T)) handle max ixs n w :
  (∀ i, rel (keeps Ok) (popq i)) → (∀ x, rel (keeps Ok) (handle x)) →
  rel (keeps Ok) (drain_round popq handle max ixs n w).
Proof. intros Hp Hh. revert n w. induction ixs as [|i ixs IH]; intros n w; cbn [drain_round]; rel_auto. Qed.

Lemma drain_loop_Ok {T} fuel (popq : nat → M (OmsState (Q := Q)) (option T)) handle max ixs n :
  (∀ i, rel (keeps Ok) (popq i)) → (∀ x, rel (keeps Ok) (handle x)) →
  rel (keeps Ok) (drain_loop fuel popq handle max ixs n).
Proof.
  intros Hp Hh. pose proof (λ n w, drain_round_Ok popq handle max ixs n w Hp Hh).
  revert n. induction fuel as [|fuel IH]; intros n; cbn [drain_loop]; rel_auto.
Qed.

Lemma drain_control_Ok fuel n : rel (keeps Ok) (drain_control_loop (Q := Q) clk hash_order fuel n).
Proof. revert n. induction fuel as [|fuel IH]; intros n; cbn [drain_control_loop]; rel_auto. Qed.

Lemma handle_intent_Ok i : rel (keeps Ok) (handle_strategy_intent (Q := Q) clk hash_order i).
Proof. destruct i; cbn [handle_strategy_intent]; rel_auto. Qed.
Hint Resolve drain_control_Ok handle_intent_Ok : frame.

Lemma pump_Ok : rel (keeps Ok) (pump_once (Q := Q) clk hash_order).
Proof.
  unfold pump_once, drain_control_commands, drain_venue_events, drain_strategy_intents.
  repeat first [apply drain_loop_Ok; intros ? | rel_step].
Qed.

(** ** Every run *)

(** Between pumps other threads append to the incoming queues and consume from
    the outgoing ones. *)
Inductive env : OmsState (Q := Q) → OmsState → Prop :=
| env_queues s responses status commands intents controls venue :
    env s (s ⟪ os_strategy_response_queues := responses ⟫ ⟪ os_oms_status_queue := status ⟫
             ⟪ os_kalshi_command_queue := commands ⟫ ⟪ os_strategy_intent_queues := intents ⟫
             ⟪ os_control_command_queue := controls ⟫ ⟪ os_venue_event_queues := venue ⟫).

Lemma env_venue s venue : env s (s ⟪ os_venue_event_queues := venue ⟫).
Proof.
  pose proof (env_queues s (os_strategy_response_queues s) (os_oms_status_queue s) (os_kalshi_command_queue s)
    (os_strategy_intent_queues s) (os_control_command_queue s) venue) as H. by destruct s.
Qed.

Inductive reachable (s0 : OmsState (Q := Q)) : OmsState → Prop :=
| reach_init : reachable s0 s0
| reach_pump s : reachable s0 s → reachable s0 (pump_once clk hash_order s).2
| reach_env s s' : reachable s0 s → env s s' → reachable s0 s'.

Lemma reachable_Ok s0 s : Ok s0 → reachable s0 s → Ok s.
Proof. intros H0. induction 1 as [|s _ IH|s s' _ IH He]; [done|by apply pump_Ok|by destruct He]. Qed.

Lemma make_oms_Ok responses status commands intents controls venue config :
  is_u8 (rk_maximum_group_repair_attempts config) →
  Ok (make_oms responses status commands intents controls venue config).
Proof.
  intros Hc. split; [split; [exact Hc|split; [done|split]]|split; [done|]]; apply map_Forall_empty.
Qed.

(** C1: in every state the OMS can reach from its constructor, through any sequence
    of pumps and any traffic of the other threads, a group that is being repaired,
    is uncertain or could not be repaired keeps the execution incident latched and
    trading disabled; and trading is only ever enabled on an installed universe and,
    where the configuration asks for it, a reconciled portfolio. *)
Theorem incident_blocks_trading responses status commands intents controls venue config s :
  is_u8 (rk_maximum_group_repair_attempts config) →
  reachable (make_oms responses status commands intents controls venue config) s →
  (∀ g group, os_group_by_id s !! g = Some group → in_incident (gr_execution_state group) = true →
     os_execution_incident_active s = true ∧ os_trading_enabled s = false) ∧
  (os_trading_enabled s = true →
     os_execution_incident_active s = false ∧ universe_ready s = true ∧ portfolio_ready_for_trading s = true).
Proof.
  intros Hc Hr. pose proof (reachable_Ok _ _ (make_oms_Ok _ _ _ _ _ _ _ Hc) Hr) as ((_ & Ht & _) & Hlatch & Hin).
  split.
  - intros g group Hg Hst. pose proof (Hin g group Hg Hst) as Ha. split; [exact Ha|].
    apply not_true_iff_false. intros He. cbn in Ha, Hlatch. rewrite (Hlatch He) in Ha. done.
  - intros He. split; [by apply Hlatch|]. by apply Ht.
Qed.

(** C22: the OMS never spends more than the configured number of cancel rounds and
    of unwind rounds on a group, in any reachable state, so the 8-bit counters never
    wrap. *)
Theorem repair_attempts_bounded responses status commands intents controls venue config s g group :
  is_u8 (rk_maximum_group_repair_attempts config) →
  reachable (make_oms responses status commands intents controls venue config) s →
  os_group_by_id s !! g = Some group →
  0 ≤ gr_cancel_attempt_count group ≤ rk_maximum_group_repair_attempts (os_risk_config s) ∧
  0 ≤ gr_repair_attempt_count group ≤ rk_maximum_group_repair_attempts (os_risk_config s).
Proof.
  intros Hc Hr Hg. pose proof (reachable_Ok _ _ (make_oms_Ok _ _ _ _ _ _ _ Hc) Hr) as Hs.
  by destruct (Inv_group _ _ _ Hs Hg) as (_ & ? & ?).
Qed.
End Incident.

Import OmsDemo.

(** One leg of the demo group fills, the venue kills the other: the group is being
    unwound when the next pump ends. *)
Definition demo_broken : OmsState (Q := Fifo) :=
  pump ((pump (trading_oms [Some (SiGroup group_intent)] []))
          ⟪ os_venue_event_queues := [Some [Some (fill "t1" "px-2" 1 200 kYES); Some (killed "px-3")]] ⟫).

Lemma order_permutes : ∀ l, order l ≡ₚ l.
Proof. done. Qed.

Lemma demo_broken_reachable :
  reachable clock order (trading_oms [Some (SiGroup group_intent)] []) demo_broken.
Proof.
  unfold demo_broken, pump. apply reach_pump. refine (reach_env _ _ _ _ _ _ (env_venue _ _)).
  apply reach_pump, reach_init.
Qed.

Lemma incident_blocks_trading_witness :
  (∃ group, os_group_by_id demo_broken !! 1 = Some group ∧ gr_execution_state group = kUNWINDING) ∧
  os_execution_incident_active demo_broken = true ∧ os_trading_enabled demo_broken = false.
Proof.
  pose proof demo_broken_reachable as Hr.
  assert (gr_execution_state <$> os_group_by_id demo_broken !! 1 = Some kUNWINDING) as Hst by (vm_compute; reflexivity).
  revert Hr Hst. generalize demo_broken. intros s Hr (group & Hg & Hst)%fmap_Some.
  split; [by exists group|].
  apply (proj1 (incident_blocks_trading clock order order_permutes _ _ _ _ _ _ config s ltac:(done) Hr) 1 group Hg).
  by rewrite <- Hst.
Defined.

Lemma repair_attempts_bounded_witness :
  ∃ group, os_group_by_id demo_broken !! 1 = Some group ∧ gr_repair_attempt_count group = 1 ∧
           0 ≤ gr_cancel_attempt_count group ≤ 2.
Proof.
  pose proof demo_broken_reachable as Hr.
  assert (gr_repair_attempt_count <$> os_group_by_id demo_broken !! 1 = Some 1) as Hst by (vm_compute; reflexivity).
  assert (2 = rk_maximum_group_repair_attempts (os_risk_config demo_broken)) as Hl by (vm_compute; reflexivity).
  revert Hr Hst Hl. generalize demo_broken. intros s Hr (group & Hg & Hst)%fmap_Some Hl.
  exists group. split; [done|]. split; [done|]. rewrite Hl.
  exact (proj1 (repair_attempts_bounded clock order order_permutes _ _ _ _ _ _ config s 1 group ltac:(done) Hr Hg)).
Defined.
End Incident.
