(* ===== verification/OmsAdmission.v ===== *)
(** * OmsAdmission: which groups the OMS admits

    A declarative account of group admission: what is true of a group intent, and
    of the OMS, whenever [check_group_admission] accepts it. *)

From S2P Require Import Prelude Spsc OmsTypes OmsRisk Oms OmsDemo.

Module Admission.
Import Risk Oms.

Section Admission.
Context {Q : Type → Type} `{!PushQueue Q}.
Variable clk : nat → Z.
Implicit Types s : OmsState (Q := Q).

(** The gates of the OMS are open. *)
Definition gates_open s : Prop :=
  os_execution_incident_active s = false ∧ os_trading_enabled s = true ∧ universe_ready s = true ∧
  portfolio_ready_for_trading s = true.

(** A leg that may be part of the group. *)
Definition leg_ok (group : GroupOrderIntent) s (leg : NewOrderIntent) : Prop :=
  ic_strategy_index (no_context leg) = ic_strategy_index (gi_context group) ∧
  ic_group_intent_id (no_context leg) = ic_group_intent_id (gi_context group) ∧
  ic_universe_version (no_context leg) = ic_universe_version (gi_context group) ∧
  (0 < no_price_ticks leg < kPRICE_TICKS_PER_DOLLAR ∧ 0 < no_quantity_lots leg) ∧
  no_outcome leg ≠ kOUTCOME_UNKNOWN ∧ no_action leg ≠ kACTION_UNKNOWN ∧
  no_liquidity_intent leg = kTAKER ∧ no_order_type leg = kMARKETABLE_LIMIT ∧ no_time_in_force leg = kFOK ∧
  ∃ route, find_market_route (ic_market_id (no_context leg)) s = Some route ∧ mr_tradeable route = true ∧
           mr_event_id route = ic_event_id (gi_context group).

Definition market (leg : NewOrderIntent) : Z := ic_market_id (no_context leg).
Definition intent_id (leg : NewOrderIntent) : Z := ic_strategy_intent_id (no_context leg).
Definition legs_of (group : GroupOrderIntent) : list NewOrderIntent :=
  take (Z.to_nat (gi_leg_count group)) (gi_new_orders group).

(** The capital the legs need: 100 ticks per lot. *)
Fixpoint notional (legs : list NewOrderIntent) : Z :=
  match legs with [] => 0 | leg :: legs' => 100 * no_quantity_lots leg + notional legs' end.

Lemma check_leg_sound group s earlier i leg : check_leg group s earlier i leg = None →
  leg_ok group s leg ∧ ic_leg_index (no_context leg) = i ∧
  Forall (λ e, market e ≠ market leg ∧ intent_id e ≠ intent_id leg) earlier.
Proof.
  unfold check_leg. destruct (_ || _) eqn:E1; [done|]. destruct (_ || _) eqn:E2 in |- *; [done|].
  destruct (negb (valid_timestamp_chain _)); [done|].
  destruct (find_market_route _ s) as [route|] eqn:Er; [|done].
  destruct (mr_tradeable route) eqn:Et; [cbn [negb]|done].
  destruct (Z.eqb_spec (mr_event_id route) (ic_event_id (gi_context group))) as [He|]; [cbn [negb]|done].
  destruct (existsb _ earlier) eqn:Ex; [done|]. intros _.
  guards. split; [|split; [done|]].
  - unfold leg_ok. split_and!; try done; try lia. by exists route.
  - apply Forall_forall. intros e He'. apply list_elem_of_In in He'.
    assert (¬ ((ic_market_id (no_context e) =? market leg) || (ic_strategy_intent_id (no_context e) =? intent_id leg) = true))
      as Hn by (intros Hc; rewrite <- not_true_iff_false in Ex; apply Ex, existsb_exists; by exists e).
    apply not_true_iff_false in Hn. guards. done.
Qed.

Lemma check_legs_sound group s earlier legs i required r :
  Forall (λ leg, is_i64 (no_quantity_lots leg)) legs → 0 ≤ required ≤ U64_MAX →
  check_legs group s earlier legs i required = inr r →
  Forall (leg_ok group s) legs ∧ r = required + notional legs ∧ 0 ≤ r ≤ U64_MAX ∧
  (NoDup (market <$> earlier) → NoDup (market <$> earlier ++ legs)) ∧
  (NoDup (intent_id <$> earlier) → NoDup (intent_id <$> earlier ++ legs)).
Proof.
  revert earlier i required. induction legs as [|leg legs IH]; intros earlier i required Hq Hreq; cbn.
  { intros [= ->]. rewrite app_nil_r. split_and!; [done|lia|lia|lia|done|done]. }
  destruct (check_leg _ _ _ _ _) eqn:Ec; [done|]. destruct (full_notional_reservation _) as [lr|] eqn:Er; [|done].
  apply Forall_cons in Hq as [Hq1 Hq]. destruct (full_notional_reservation_positive _ _ Hq1 Er) as (_ & -> & Hlr).
  destruct (_ >? _) eqn:Eg; [done|]. guards. intros H.
  rewrite u64_id in H by (unfold is_u64; lia).
  apply IH in H as (H1 & H2 & H3 & H4 & H5); [|done|lia].
  apply check_leg_sound in Ec as (Hok & _ & Hdis). rewrite Forall_forall in Hdis.
  assert (∀ f : NewOrderIntent → Z, (∀ e, e ∈ earlier → f e ≠ f leg) → NoDup (f <$> earlier) → NoDup (f <$> earlier ++ [leg])) as Hsnoc.
  { intros f Hf Hnd. rewrite fmap_app. apply NoDup_app. split; [done|]. split; [|apply NoDup_singleton].
    intros x (e & -> & He)%list_elem_of_fmap Hx%list_elem_of_singleton. by apply (Hf e). }
  rewrite <- app_assoc in H4, H5. cbn in H4, H5. split_and!; try done; try lia.
  - by constructor.
  - intros Hnd. apply H4, Hsnoc; [|done]. intros e He. by apply Hdis.
  - intros Hnd. apply H5, Hsnoc; [|done]. intros e He. by apply Hdis.
Qed.

(** The capital an existing portfolio, or a new strategy's allocation, offers. *)
Definition offered (i : Z) s : Z :=
  match os_portfolio_by_strategy s !! i with
  | Some p => pf_available_capital_ticks p
  | None => rk_strategy_allocation_limit_ticks (os_risk_config s)
  end.

(** What admission promises. *)
Record admissible (group : GroupOrderIntent) (now required : Z) s : Prop := {
  ad_gates : gates_open s;
  ad_universe : ic_universe_version (gi_context group) = default 0 (un_version <$> os_active_order_universe s);
  ad_policy : gi_admission_policy group = kALL_OR_NONE;
  ad_legs : 2 ≤ gi_leg_count group ≤ Z.of_nat (length (gi_new_orders group)) ∧
            gi_leg_count group ≤ rk_maximum_group_legs (os_risk_config s);
  ad_fresh : find_group_by_intent (ic_strategy_index (gi_context group)) (ic_group_intent_id (gi_context group)) s = None;
  ad_age : ic_intent_publish_timestamp_ns (gi_context group) ≤ now ≤
           ic_intent_publish_timestamp_ns (gi_context group) + rk_maximum_group_intent_age_ns (os_risk_config s);
  ad_edge : gi_expected_net_edge_ticks group = gi_expected_gross_edge_ticks group - gi_estimated_fee_ticks group;
  ad_leg_ok : Forall (leg_ok group s) (legs_of group);
  ad_markets : NoDup (market <$> legs_of group);
  ad_intents : NoDup (intent_id <$> legs_of group);
  ad_required : required = notional (legs_of group) ∧ 0 < required ≤ I64_MAX;
  ad_budget : required ≤ rk_maximum_group_reservation_ticks (os_risk_config s) ∧
              required ≤ offered (ic_strategy_index (gi_context group)) s;
}.

(** The next guard of a chain of rejections was not hit. *)
Ltac pass :=
  match goal with
  | |- (if ?b then _ else _) = _ → _ => destruct b eqn:?; [discriminate|]
  | |- ac_accepted (if ?b then _ else _) = _ → _ => destruct b eqn:?; [discriminate|]
  end.

Lemma preconditions_sound group s : check_group_preconditions group s = None →
  gates_open s ∧ gi_admission_policy group = kALL_OR_NONE ∧
  ic_universe_version (gi_context group) = default 0 (un_version <$> os_active_order_universe s) ∧
  (2 ≤ gi_leg_count group ≤ Z.of_nat (length (gi_new_orders group)) ∧
   gi_leg_count group ≤ rk_maximum_group_legs (os_risk_config s)).
Proof.
  unfold check_group_preconditions, gates_open.
  destruct (os_execution_incident_active s); [done|]. destruct (os_trading_enabled s); [cbn [negb]|done].
  destruct (universe_ready s); [cbn [negb]|done]. destruct (portfolio_ready_for_trading s); [cbn [negb]|done].
  pass. destruct (_ !! _) as [[queue|]|]; [|done..]. do 6 pass. intros _. guards. split_and!; done || lia.
Qed.

Lemma risk_sound group now s : Forall (λ leg, is_i64 (no_quantity_lots leg)) (gi_new_orders group) →
  is_i64 (offered (ic_strategy_index (gi_context group)) s) → gates_open s →
  gi_admission_policy group = kALL_OR_NONE →
  ic_universe_version (gi_context group) = default 0 (un_version <$> os_active_order_universe s) →
  (2 ≤ gi_leg_count group ≤ Z.of_nat (length (gi_new_orders group)) ∧
   gi_leg_count group ≤ rk_maximum_group_legs (os_risk_config s)) →
  ac_accepted (check_group_risk group now s) = true →
  admissible group now (ac_required_capital_ticks (check_group_risk group now s)) s.
Proof.
  intros Hq Hoff Hg Hp Hu Hl. unfold check_group_risk. fold (legs_of group).
  fold (offered (ic_strategy_index (gi_context group)) s).
  do 3 pass.
  destruct (check_legs _ _ _ _ _ _) as [reason|required] eqn:E4; [done|].
  do 2 pass. intros _. cbn.
  apply check_legs_sound in E4 as (H1 & H2 & H3 & H4 & H5);
    [|apply Forall_take, Hq|lia]. guards. rewrite u64_id in * by (unfold is_u64, is_i64 in *; lia).
  split; try done; try lia; [by apply eq_None_not_Some|apply H4, NoDup_nil_2|apply H5, NoDup_nil_2].
Qed.

Lemma admitted_admissible group s :
  Forall (λ leg, is_i64 (no_quantity_lots leg)) (gi_new_orders group) →
  is_i64 (offered (ic_strategy_index (gi_context group)) s) →
  let check := (check_group_admission clk group s).1 in
  ac_accepted check = true →
  admissible group (clk (os_clock_reads s)) (ac_required_capital_ticks check) s.
Proof.
  intros Hq Hoff. cbv zeta. unfold check_group_admission, mbind, M_bind, gets, mret, M_ret.
  destruct (check_group_preconditions group s) as [reason|] eqn:Ep; [done|].
  apply preconditions_sound in Ep as (H1 & H2 & H3 & H4). cbn [now_ns fst]. intros H.
  apply risk_sound in H as []; [by split|done..].
Qed.

(** C2: a group is admitted only through open gates (no incident, trading enabled,
    universe and portfolio ready), for the installed universe version, once per
    strategy intent, fresh, with between two and the maximum number of legs, each a
    well-formed fill-or-kill taker order on a distinct tradeable market of the
    event, and only if the full notional of all legs together, computed without
    overflow, fits the group limit and the strategy's available capital. *)
Theorem admission_sound group s :
  Forall (λ leg, is_i64 (no_quantity_lots leg)) (gi_new_orders group) →
  is_i64 (offered (ic_strategy_index (gi_context group)) s) →
  let check := (check_group_admission clk group s).1 in
  ac_accepted check = true →
  admissible group (clk (os_clock_reads s)) (ac_required_capital_ticks check) s.
Proof. apply admitted_admissible. Qed.
End Admission.

Import OmsDemo.

Lemma admission_sound_witness :
  ac_required_capital_ticks (check_group_admission clock group_intent (pump (trading_oms [] []))).1 = 40000 ∧
  gates_open (pump (trading_oms [] [])).
Proof.
  assert ((check_group_admission clock group_intent (pump (trading_oms [] []))).1 = mkGroupAdmissionCheck true kREJECT_NONE 40000)
    as Hc by (vm_compute; reflexivity).
  assert (offered 0 (pump (trading_oms [] [])) = 1000000) as Ho by (vm_compute; reflexivity).
  revert Hc Ho. generalize (pump (trading_oms [] [])). intros s Hc Ho. rewrite Hc. split; [done|].
  apply (admission_sound clock group_intent s).
  - repeat constructor; unfold is_i64; cbn; lia.
  - cbn. rewrite Ho. unfold is_i64. lia.
  - by rewrite Hc.
Defined.
End Admission.
