(* ===== verification/StrategyAdmission.v ===== *)
(** * StrategyAdmission: what a strategy publishes, the OMS admits

    The composition of the strategy with the admission of groups by the OMS: an intent that
    leaves a strategy fails none of the structural checks of the OMS, and both compute the
    same capital for it. *)

From S2P Require Import Prelude Spsc StrategyTypes MonotonicArb MonotonicArbSound OmsTypes Strategy StrategySafety OmsRisk Oms OmsDemo OmsAdmission.
Import MonotonicArb MonotonicArbSound Strategy StrategySafety.

Module StrategyAdmission.
Import Risk Oms Admission.

(** ** The intent of a candidate *)

Section Intent.
Context {Q : Type → Type} `{HQ : PushQueue Q} {HL : PushQueueLaws Q}.
Implicit Types s : StrategyState (Q := Q).

Definition context_of s (candidate : MonotonicArbCandidate) (d e p : Z) : IntentContext :=
  mkIntentContext (st_strategy_index s) (al_market_id (cd_easier_leg candidate)) (cd_event_id candidate) (sg_strategy_id (st_config s)) 0
    (st_next_signal_id s) (st_next_group_intent_id s) 0 2 (cd_universe_version candidate) (cd_event_revision candidate)
    (cd_shard_index candidate) (cd_ingress_timestamp_ns candidate) (cd_book_apply_timestamp_ns candidate)
    (cd_observation_publish_timestamp_ns candidate) d e p.

Lemma intent_shape s candidate d e p intent : Inv s → (make_group_intent candidate d e p s).1 = Some intent →
  let c := context_of s candidate d e p in
  let g := st_next_group_intent_id s in
  gi_context intent = c ∧ gi_leg_count intent = 2 ∧ gi_admission_policy intent = kALL_OR_NONE ∧ (2 ≤ length (gi_new_orders intent))%nat ∧
  legs_of intent = [Strategy.make_leg c (cd_easier_leg candidate) 0 (2 * g - 1); Strategy.make_leg c (cd_harder_leg candidate) 1 (2 * g)] ∧
  gi_expected_gross_edge_ticks intent = cd_gross_edge_ticks candidate ∧ gi_estimated_fee_ticks intent = cd_estimated_fee_ticks candidate ∧
  gi_expected_net_edge_ticks intent = cd_net_edge_ticks candidate.
Proof.
  intros HI. destruct (inv_ids s HI) as (Hg & Hs & Hi). unfold make_group_intent, mbind, M_bind, gets, modify, mret, M_ret.
  destruct (identity_exhausted candidate s) eqn:E; [done|]. unfold identity_exhausted in E. guards. cbn. intros [= <-]. cbn.
  unfold context_of, legs_of, bump. cbn. rewrite Hs, Hi, (u64_id (_ + 1)), !u32_id by (unfold is_u64, is_u32; lia).
  replace (2 * st_next_group_intent_id s - 1 + 1) with (2 * st_next_group_intent_id s) by lia. split_and!; try done. lia.
Qed.
End Intent.

(** ** Admission *)

Section Accepted.
Context {Q Q' : Type → Type} `{HQ : PushQueue Q} {HL : PushQueueLaws Q} `{HQ' : PushQueue Q'}.
Variable clk oms_clk : nat → Z.
Variable wall_clk : nat → Z.
Variable hash_order : list Z → list Z.
Implicit Types s : StrategyState (Q := Q).
Implicit Types t : OmsState (Q := Q').

(** The OMS is open for the intent: gates, universe, routes, limits, identities and capital. *)
Record welcomes (intent : GroupOrderIntent) (required : Z) t : Prop := {
  we_gates : gates_open t;
  we_universe : un_version <$> os_active_order_universe t = Some (ic_universe_version (gi_context intent));
  we_queue : ∃ queue, os_strategy_response_queues t !! Z.to_nat (ic_strategy_index (gi_context intent)) = Some (Some queue) ∧
    kGROUP_ADMISSION_RESPONSE_SLOTS ≤ q_capacity queue - q_size queue;
  we_legs : 2 ≤ rk_maximum_group_legs (os_risk_config t);
  we_limits : 0 < rk_strategy_allocation_limit_ticks (os_risk_config t) ∧ required ≤ rk_maximum_group_reservation_ticks (os_risk_config t);
  we_age : 0 < rk_maximum_group_intent_age_ns (os_risk_config t) ∧
    ic_intent_publish_timestamp_ns (gi_context intent) ≤ oms_clk (os_clock_reads t) ≤
    ic_intent_publish_timestamp_ns (gi_context intent) + rk_maximum_group_intent_age_ns (os_risk_config t);
  we_fresh : find_group_by_intent (ic_strategy_index (gi_context intent)) (ic_group_intent_id (gi_context intent)) t = None;
  we_routes : ∀ leg, leg ∈ legs_of intent → ∃ route, find_market_route (market leg) t = Some route ∧ mr_tradeable route = true ∧
    mr_event_id route = ic_event_id (gi_context intent);
  we_capital : required ≤ offered (ic_strategy_index (gi_context intent)) t ≤ I64_MAX;
}.

(** A leg built by the strategy passes the checks of the OMS. *)
Lemma made_leg_ok intent t earlier c leg index id :
  gi_context intent = c → gi_leg_count intent = 2 → ic_leg_count c = 2 → valid_timestamp_chain c = true →
  al_market_id leg ≠ 0 → id ≠ 0 → 0 < al_limit_price_ticks leg < 10000 → 0 < al_quantity_lots leg ≤ I64_MAX →
  (∃ route, find_market_route (al_market_id leg) t = Some route ∧ mr_tradeable route = true ∧ mr_event_id route = ic_event_id c) →
  Forall (λ e, market e ≠ al_market_id leg ∧ intent_id e ≠ id) earlier →
  check_leg intent t earlier index (Strategy.make_leg c leg index id) = None.
Proof.
  intros Hc Hn Hl Ht Hm Hid Hp Hq (route & Hr & Htr & He) Hear. unfold check_leg. rewrite Hc, Hn. cbn. rewrite Hl, !Z.eqb_refl. cbn.
  rewrite (proj2 (Z.eqb_neq _ _) Hm), (proj2 (Z.eqb_neq _ _) Hid). cbn. rewrite !i64_id by (unfold is_i64; lia).
  rewrite (proj2 (Z.leb_gt _ _)) by lia. rewrite Z.geb_leb, (proj2 (Z.leb_gt kPRICE_TICKS_PER_DOLLAR _)) by (unfold kPRICE_TICKS_PER_DOLLAR; lia).
  rewrite (proj2 (Z.leb_gt (al_quantity_lots leg) _)) by lia. rewrite (bool_decide_eq_false_2 (_ = kACTION_UNKNOWN)) by by destruct (al_action leg).
  cbn. change (valid_timestamp_chain _) with (valid_timestamp_chain c). rewrite Ht. unfold find_market_route in *. cbn. rewrite Hr, Htr, He, Z.eqb_refl. cbn.
  replace (existsb _ earlier) with false; [done|]. symmetry. apply not_true_is_false. rewrite existsb_exists. intros (e & Hin & Hx).
  rewrite Forall_forall in Hear. destruct (Hear e) as [H1 H2]; [by apply list_elem_of_In|]. unfold market, intent_id in *.
  apply orb_true_iff in Hx as [Hx|Hx]; apply Z.eqb_eq in Hx; congruence.
Qed.

Lemma required_exact_capital c o x : 0 < ac_order_quantity_lots c ≤ U64_MAX / 10000 →
  required_capital_ticks (candidate_of c o x) = Some (200 * ac_order_quantity_lots c).
Proof.
  intros Hq. change (U64_MAX / 10000) with 1844674407370955 in Hq. unfold required_capital_ticks, kPriceTicksPerDollar, kQuantityLotsPerContract. cbn.
  set (q := ac_order_quantity_lots c) in *. rewrite (u128_id (q * 10000)) by lia. replace (q * 10000) with (q * 100 * 100) by lia.
  rewrite Z.mod_mul, Z.div_mul by lia. cbn [Z.eqb]. rewrite (u128_id (q * 100 + 0)), u128_id by lia.
  rewrite (proj2 (Z.ltb_ge _ _)) by lia. rewrite u64_id by (unfold is_u64; lia). f_equal. lia.
Qed.

(** The next guard of a chain of rejections is not hit: prove it. *)
Ltac clear_guard :=
  lazymatch goal with
  | |- (if ?b then _ else _) = _ =>
      let H := fresh in assert (b = false) as H;
      [ rewrite ?Z.gtb_ltb; repeat (apply orb_false_iff; split); try apply negb_false_iff; auto;
        first [apply Z.ltb_ge | apply Z.leb_gt | apply Z.eqb_neq | apply Z.eqb_eq | apply bool_decide_eq_true_2 | apply bool_decide_eq_false_2]; done || lia
      | rewrite H; clear H ]
  end.

Lemma preconditions_open intent required t : welcomes intent required t → 0 < required →
  gi_admission_policy intent = kALL_OR_NONE → gi_leg_count intent = 2 → ic_leg_count (gi_context intent) = 2 →
  (2 ≤ length (gi_new_orders intent))%nat → valid_timestamp_chain (gi_context intent) = true →
  ic_group_intent_id (gi_context intent) ≠ 0 → ic_event_id (gi_context intent) ≠ 0 → ic_event_revision (gi_context intent) ≠ 0 →
  check_group_preconditions intent t = None.
Proof.
  intros [(G1 & G2 & G3 & G4) Hu (queue & Hq & Hr) Hl [Ha Hx] [Hg _] _ _ _] Hreq Hp Hn Hc Hlen Ht H1 H2 H3. unfold check_group_preconditions.
  do 5 clear_guard. rewrite Hq, Hu. unfold kGROUP_ADMISSION_RESPONSE_SLOTS in *. cbn [default].
  assert (ic_universe_version (gi_context intent) ≠ 0) as Hu0.
  { unfold universe_ready in G3. destruct (os_active_order_universe t) as [u|]; [|done]. cbn in Hu. guards. congruence. }
  do 6 clear_guard. done.
Qed.

Lemma risk_open intent required t : welcomes intent required t → 0 < required →
  gi_expected_net_edge_ticks intent = gi_expected_gross_edge_ticks intent - gi_estimated_fee_ticks intent → 0 < gi_expected_net_edge_ticks intent →
  check_legs intent t [] (legs_of intent) 0 0 = inr required →
  check_group_risk intent (oms_clk (os_clock_reads t)) t = mkGroupAdmissionCheck true kREJECT_NONE required.
Proof.
  intros [_ _ _ _ [Ha Hx] [Hg Hage] Hf _ Hcap] Hreq He1 He2 Hlegs. unfold check_group_risk. fold (legs_of intent).
  fold (offered (ic_strategy_index (gi_context intent)) t). rewrite Hf, Hlegs. do 4 clear_guard.
  rewrite u64_id by (unfold is_u64; lia). by clear_guard.
Qed.

(** Reading the clock changes no check. *)
Lemma check_legs_clock intent t f legs earlier i required :
  check_legs intent (t ⟪ os_clock_reads ::= f ⟫) earlier legs i required = check_legs intent t earlier legs i required.
Proof.
  revert earlier i required. induction legs as [|leg legs IH]; intros; [done|]. cbn [check_legs].
  change (check_leg intent (t ⟪ os_clock_reads ::= f ⟫) earlier i leg) with (check_leg intent t earlier i leg).
  destruct (check_leg _ _ _ _ _); [done|]. destruct (full_notional_reservation _); [|done]. by rewrite IH.
Qed.

Lemma check_risk_clock intent now t f : check_group_risk intent now (t ⟪ os_clock_reads ::= f ⟫) = check_group_risk intent now t.
Proof. unfold check_group_risk. rewrite check_legs_clock. done. Qed.

Lemma two_legs_pass intent t c candidate q g :
  gi_context intent = c → gi_leg_count intent = 2 → ic_leg_count c = 2 → valid_timestamp_chain c = true →
  legs_of intent = [Strategy.make_leg c (cd_easier_leg candidate) 0 (2 * g - 1); Strategy.make_leg c (cd_harder_leg candidate) 1 (2 * g)] →
  0 < g → 0 < q ≤ U64_MAX / 10000 →
  Forall (λ leg, al_market_id leg ≠ 0 ∧ 0 < al_limit_price_ticks leg < 10000 ∧ al_quantity_lots leg = q)
    [cd_easier_leg candidate; cd_harder_leg candidate] →
  al_market_id (cd_easier_leg candidate) ≠ al_market_id (cd_harder_leg candidate) →
  (∀ leg, leg ∈ legs_of intent → ∃ route, find_market_route (market leg) t = Some route ∧ mr_tradeable route = true ∧ mr_event_id route = ic_event_id c) →
  check_legs intent t [] (legs_of intent) 0 0 = inr (200 * q).
Proof.
  intros Hc Hn Hl Ht Hlegs Hg Hq Hf Hne Hr. change (U64_MAX / 10000) with 1844674407370955 in Hq. rewrite Hlegs in Hr |- *.
  apply Forall_cons in Hf as [(M1 & P1 & Q1) Hf]. apply Forall_cons in Hf as [(M2 & P2 & Q2) _]. cbn [check_legs].
  assert (is_i64 q) as Hi by (unfold is_i64; lia).
  assert (full_notional_reservation q = Some (100 * q)) as Hfull.
  { rewrite full_notional_reservation_spec by done. change (U64_MAX / 10000) with 1844674407370955.
    by rewrite (proj2 (Z.ltb_lt _ _)), (proj2 (Z.leb_le _ _)) by lia. }
  rewrite made_leg_ok; try done; try lia; [|by apply (Hr (Strategy.make_leg c (cd_easier_leg candidate) 0 (2 * g - 1))); left].
  cbn [no_quantity_lots Strategy.make_leg]. rewrite Q1, i64_id, Hfull by done. rewrite Z.gtb_ltb, (proj2 (Z.ltb_ge _ _)) by lia.
  rewrite made_leg_ok; try done; try lia; [| |].
  - cbn [no_quantity_lots Strategy.make_leg]. rewrite Q2, i64_id, Hfull by done. rewrite (u64_id (0 + _)) by (unfold is_u64; lia).
    rewrite Z.gtb_ltb, (proj2 (Z.ltb_ge _ _)) by lia. f_equal. rewrite u64_id by (unfold is_u64; lia). lia.
  - by apply (Hr (Strategy.make_leg c (cd_harder_leg candidate) 1 (2 * g))); right; left.
  - apply Forall_singleton. cbn. split; [done|lia].
Qed.

Lemma published_intent_admitted s intent t :
  reachable clk wall_clk hash_order s → (∀ n, clk n ≤ clk (S n)) →
  typed_config (sg_arb_config (st_config s)) → ac_order_quantity_lots (sg_arb_config (st_config s)) ≤ U64_MAX / 10000 →
  (∀ o, available_observation s o → typed_observation o ∧ po_event_revision o ≠ 0) →
  sp_published_intent (turn clk wall_clk hash_order s).1 = Some intent →
  let required := 200 * ac_order_quantity_lots (sg_arb_config (st_config s)) in
  ag_pending_capital_ticks <$> (st_active_group_by_id (turn clk wall_clk hash_order s).2 !! ic_group_intent_id (gi_context intent)) = Some required ∧
  (welcomes intent required t → (check_group_admission oms_clk intent t).1 = mkGroupAdmissionCheck true kREJECT_NONE required).
Proof.
  intros HI%reachable_inv Hclk Hty Hmax Hobs Hpub required.
  destruct (turn_spec clk wall_clk hash_order s HI) as [(m & s1 & _ & [_ [Hno _] _ _] & _)|H]; [congruence|].
  unfold polled in H. rewrite Hpub in H. destruct H as (o & Ha & [_ (T1 & T2 & T3 & T4) _ _ _ _ _] & [_ _ _ _ (candidate & required' & Hc & Hi & Hr & _ & Hg & _ & _)]).
  destruct (Hobs o Ha) as [Hto Hrev]. pose proof (inv_config s HI) as Hv. set (c := sg_arb_config (st_config s)) in *.
  destruct (accepted_selection c o _ _ Hty Hv Hto Hc) as ([e h] & -> & He & Hh & Hel & _ & Hhead & _).
  pose proof (sound_leg_usable _ _ _ _ _ He) as Ue. pose proof (sound_leg_usable _ _ _ _ _ Hh) as Uh. unfold usable_selection, tradable_price in Ue, Uh.
  destruct (valid_facts c Hty Hv) as ((Hq & _) & _). rewrite required_exact_capital in Hr by done. injection Hr as <-.
  apply intent_shape in Hi as (E1 & E2 & E3 & E4 & E5 & E6 & E7 & E8); [|done]. destruct (inv_ids s HI) as (Hpos & _).
  split; [rewrite E1, Hg; cbn; by rewrite lookup_insert_eq|]. intros Hw.
  assert (valid_timestamp_chain (gi_context intent) = true) as Hchain.
  { rewrite E1. unfold valid_timestamp_chain. cbn. pose proof (Hclk (st_clock_reads s)). pose proof (Hclk (S (st_clock_reads s))).
    pose proof (Hclk (S (S (st_clock_reads s)))). repeat (apply andb_true_iff; split); [by apply negb_true_iff, Z.eqb_neq|apply Z.leb_le; lia..]. }
  unfold valid_pair_header in Hhead. repeat (case_match; [done|]). guards.
  unfold check_group_admission, mbind, M_bind, gets. rewrite (preconditions_open intent required); try done; try lia;
    [|rewrite E1; cbn; done || lia..].
  cbn [now_ns fst]. rewrite check_risk_clock. apply risk_open; try done; try lia.
  - by rewrite E6, E7, E8.
  - rewrite E8. apply Hel.
  - apply (two_legs_pass intent t _ (candidate_of c o (paired c (e, h))) (ac_order_quantity_lots c) (st_next_group_intent_id s) E1 E2 eq_refl); try done.
    + by rewrite <- E1.
    + lia.
    + repeat (apply Forall_cons; split; [done|]). apply Forall_nil_2.
    + intros leg Hin. rewrite <- E1. by apply (we_routes _ _ _ Hw).
Qed.

(** C8: an intent that a reachable strategy publishes, on observations as shards make them and
    with a clock that does not run backwards, is admitted by an OMS that is open for trading
    on the same universe, has routes for the two markets, room, a fresh identity and the
    capital: no structural check fails.  The capital that the OMS then reserves is the
    capital that the strategy has set aside for the group. *)
Theorem strategy_intent_is_admitted s intent t :
  reachable clk wall_clk hash_order s → (∀ n, clk n ≤ clk (S n)) →
  typed_config (sg_arb_config (st_config s)) → ac_order_quantity_lots (sg_arb_config (st_config s)) ≤ U64_MAX / 10000 →
  (∀ o, available_observation s o → typed_observation o ∧ po_event_revision o ≠ 0) →
  sp_published_intent (turn clk wall_clk hash_order s).1 = Some intent →
  let required := 200 * ac_order_quantity_lots (sg_arb_config (st_config s)) in
  ag_pending_capital_ticks <$> (st_active_group_by_id (turn clk wall_clk hash_order s).2 !! ic_group_intent_id (gi_context intent)) = Some required ∧
  (welcomes intent required t → (check_group_admission oms_clk intent t).1 = mkGroupAdmissionCheck true kREJECT_NONE required).
Proof. exact (published_intent_admitted s intent t). Qed.
End Accepted.

(** The group that the demo strategy publishes, given to the demo OMS. *)
Definition demo_intent : GroupOrderIntent :=
  default default_GroupOrderIntent (sp_published_intent (turn demo_clock demo_wall_clock demo_order (demo 1)).1).

Lemma demo_available o : available_observation (demo 1) o → o = demo_observation.
Proof.
  intros (i & input & Hi & _ & Hin). assert (st_shard_inputs (demo 1) = demo_inputs) as E by (vm_compute; reflexivity).
  rewrite E in Hi. destruct i as [|i]; [|discriminate Hi]. injection Hi as <-. apply list_elem_of_singleton in Hin. congruence.
Qed.

Lemma demo_welcomes : welcomes OmsDemo.clock demo_intent 20000 (OmsDemo.pump (OmsDemo.trading_oms [] [])).
Proof.
  assert (∀ m, m ∈ [1; 2] → find_market_route m (OmsDemo.pump (OmsDemo.trading_oms [] [])) = Some (OmsDemo.route m)) as Hr.
  { intros m Hm. rewrite !elem_of_cons in Hm. destruct Hm as [->|[->|Hm]]; [vm_compute; reflexivity..|by apply not_elem_of_nil in Hm]. }
  assert (market <$> legs_of demo_intent = [1; 2]) as Hm by (vm_compute; reflexivity).
  assert (ic_event_id (gi_context demo_intent) = 7) as He by (vm_compute; reflexivity).
  split.
  - repeat split; vm_compute; reflexivity.
  - vm_compute. reflexivity.
  - exists (OmsDemo.queue 64). vm_compute. split; [reflexivity|discriminate].
  - vm_compute. discriminate.
  - vm_compute. split; [reflexivity|discriminate].
  - vm_compute. repeat split; discriminate.
  - vm_compute. reflexivity.
  - intros leg Hin. exists (OmsDemo.route (market leg)). rewrite He. split; [|split; reflexivity]. apply Hr. rewrite <- Hm. by apply list_elem_of_fmap_2.
  - vm_compute. split; discriminate.
Qed.

Lemma strategy_intent_is_admitted_witness :
  (check_group_admission OmsDemo.clock demo_intent (OmsDemo.pump (OmsDemo.trading_oms [] []))).1 = mkGroupAdmissionCheck true kREJECT_NONE 20000.
Proof.
  destruct (strategy_intent_is_admitted (Q' := Fifo) demo_clock OmsDemo.clock demo_wall_clock demo_order (demo 1) demo_intent
              (OmsDemo.pump (OmsDemo.trading_oms [] []))) as [_ H].
  - apply demo_reachable.
  - intros n. unfold demo_clock. lia.
  - apply sample_typed.
  - vm_compute. discriminate.
  - intros o ->%demo_available. split; [|vm_compute; discriminate].
    split; [| |vm_compute; discriminate..]; repeat (apply Forall_cons; split; [unfold typed_level, is_u64; cbn; lia|]); apply Forall_nil_2.
  - vm_compute. reflexivity.
  - assert (200 * ac_order_quantity_lots (sg_arb_config (st_config (demo 1))) = 20000) as E by (vm_compute; reflexivity). rewrite E in H. apply H.
    apply demo_welcomes.
Defined.
End StrategyAdmission.
