(* ===== verification/ConfigSound.v ===== *)
(** * ConfigSound: what a configuration that is accepted promises

    A configuration that passes validation can be assembled: the constructors that test their
    arguments accept them.  And the limits it gives the OMS fit the strategy it configures.

    At the end, Module [ConfigDemo]: a configuration file that is loaded, and the process it starts. *)

From S2P Require Import Prelude Spsc IdleBackoff MarketTypes StrategyTypes MonotonicArb MonotonicArbSound FramePool ControlTypes Universe ShardTypes WireTypes OmsTypes RestTypes ControlPlaneTypes OrderSession Config ControlPlane UniverseInstall Strategy App AppStart StrategySafety OmsRisk Oms OmsDemo OmsAdmission StrategyAdmission.
Open Scope Z_scope.

Module ConfigSound.
Import Backoff MonotonicArb MonotonicArbSound Strategy StrategySafety Risk Oms Admission StrategyAdmission Config App.
Import ControlPlane(cp_process_state, ControlState).

(** ** Results *)

Lemma bind_ok {A B} (m : Result A) (k : A → Result B) b : m ≫= k = inr b → ∃ a, m = inr a ∧ k a = inr b.
Proof. destruct m as [e|a]; [done|]. intros H. by exists a. Qed.
Lemma refuse_ok c e u : refuse_if c e = inr u → c = false.
Proof. by destruct c. Qed.
Lemma field_ok `{NlohmannGetters} {A} (P : A → Prop) get j key d a : field get j key d = inr a → (∀ v a, get v = inr a → P a) → P d → P a.
Proof. unfold field. destruct (json_contains j key); [eauto|]. by intros [= ->]. Qed.

(** A computation that succeeded: all its steps did. *)
Ltac steps := repeat match goal with
  | H : (_ ≫= _) = inr _ |- _ => let a := fresh "a" in let E := fresh "E" in apply bind_ok in H as (a & E & H)
  | H : refuse_if _ _ = inr _ |- _ => apply refuse_ok in H
  | H : mret _ = inr _ |- _ => injection H as <-
  end.

Section ConfigSound.
Context {NJ : NlohmannJson} {NG : NlohmannGetters} {NT : NlohmannTyped}.

(** ** Types *)

Record typed_app (c : AppConfig) : Prop := {
  ty_shards : is_u64 (rt_shard_count (ap_runtime c));
  ty_pool : is_u64 (rt_frame_pool_capacity (ap_runtime c));
  ty_reservation : is_u64 (om_maximum_group_reservation_ticks (ap_oms c));
  ty_age : is_u64 (om_maximum_group_intent_age_ns (ap_oms c));
  ty_limit : is_i64 (om_strategy_allocation_limit_ticks (ap_oms c));
  ty_arb : typed_config (sc_monotonic_arb (ap_strategy c));
}.

Lemma runtime_typed j c : load_runtime j = inr c → is_u64 (rt_shard_count c) ∧ is_u64 (rt_frame_pool_capacity c).
Proof. unfold load_runtime. intros H. steps. cbn. split; eapply (field_ok is_u64); eauto using as_uint64_typed; unfold is_u64; cbn; lia. Qed.
Lemma oms_typed j c : load_oms j = inr c → is_u64 (om_maximum_group_reservation_ticks c) ∧ is_u64 (om_maximum_group_intent_age_ns c) ∧ is_i64 (om_strategy_allocation_limit_ticks c).
Proof.
  unfold load_oms. intros H. steps. cbn. split_and!; [eapply (field_ok is_u64)|eapply (field_ok is_u64)|eapply (field_ok is_i64)];
    eauto using as_uint64_typed, as_int64_typed; unfold is_u64, is_i64; cbn; lia.
Qed.
Lemma default_arb_typed : typed_config default_MonotonicArbConfig.
Proof. split; unfold is_u64; cbn; lia. Qed.
Lemma u8_range z : 0 ≤ u8 z ≤ 255.
Proof. unfold u8. pose proof (Z.mod_pos_bound z 256). lia. Qed.
Lemma arb_typed j c : load_monotonic_arb j = inr c → typed_config c.
Proof.
  unfold load_monotonic_arb. intros H. steps. split; cbn; try apply u8_range.
  1-3, 6: eapply (field_ok is_u64); eauto using as_uint64_typed; unfold is_u64; cbn; lia.
  all: eapply (field_ok is_u32); eauto using as_uint32_typed; unfold is_u32; cbn; lia.
Qed.
Lemma strategy_typed j c : load_strategy j = inr c → typed_config (sc_monotonic_arb c).
Proof. unfold load_strategy. intros H. steps. cbn. eapply (field_ok typed_config); eauto using arb_typed, default_arb_typed. Qed.
Lemma sections_typed j c : load_sections j = inr c → typed_app c.
Proof.
  unfold load_sections. intros H. steps. 
  assert (is_u64 (rt_shard_count a) ∧ is_u64 (rt_frame_pool_capacity a)) as [R1 R2].
  { pattern a. eapply field_ok; [eassumption|apply runtime_typed|]. unfold is_u64; cbn; lia. }
  assert (is_u64 (om_maximum_group_reservation_ticks a1) ∧ is_u64 (om_maximum_group_intent_age_ns a1) ∧ is_i64 (om_strategy_allocation_limit_ticks a1)) as (O1 & O2 & O3).
  { pattern a1. eapply field_ok; [eassumption|apply oms_typed|]. unfold is_u64, is_i64; cbn; lia. }
  split; cbn; try done. eapply (field_ok (λ a, typed_config (sc_monotonic_arb a))); [eassumption|apply strategy_typed|apply default_arb_typed].
Qed.

Lemma load_ok path contents c : load_app_config path contents = inr c → typed_app c ∧ validate_app_config c = inr tt.
Proof.
  unfold load_app_config. destruct contents as [contents|]; [|done]. destruct (_ ≫= _) as [e|c'] eqn:E; [done|]. intros [= ->]. steps. split; [by eapply sections_typed|].
  by destruct a1.
Qed.

(** ** What validation establishes *)

Lemma capacity_accepted {T} capacity : bad_capacity capacity = false → ∃ q, Spsc.make_queue (T := T) capacity = Some q.
Proof. unfold bad_capacity, Spsc.make_queue. intros ->. eauto. Qed.

Record valid_runtime (r : RuntimeConfig) : Prop := {
  vr_shards : rt_shard_count r ≠ 0;
  vr_shard_queue : bad_capacity (rt_shard_queue_capacity r) = false;
  vr_router_queue : bad_capacity (rt_router_queue_capacity r) = false;
  vr_operator_queue : bad_capacity (rt_operator_queue_capacity r) = false;
  vr_polling : ∃ b, make_backoff (rt_thread_polling r) = Some b;
}.
Lemma runtime_valid r u : validate_runtime r = inr u → valid_runtime r.
Proof.
  unfold validate_runtime. intros H. steps. split; try done; [by apply Z.eqb_neq|]. unfold is_harvest, make_backoff in *. destruct (profile _); [eauto|]. cbn in *.
  match goal with H1 : (_ <=? 0) = false, H2 : (_ <? _) = false |- _ => rewrite H1, H2 end. eauto.
Qed.
Lemma queues_made r : valid_runtime r → ∃ queues, make_app_queues r = Some queues ∧
  length (aq_control_to_shard queues) = Z.to_nat (rt_shard_count r) ∧ length (aq_shard_to_strategy queues) = Z.to_nat (rt_shard_count r).
Proof.
  intros [_ V1 V2 V3 _]. unfold make_app_queues, bad_capacity, Spsc.make_queue in *. rewrite V1, V2, V3. cbn. eexists. split; [reflexivity|]. cbn. by rewrite !length_replicate.
Qed.

Record valid_arb (c : AppConfig) : Prop := {
  va_strategy : sc_strategy_id (ap_strategy c) ≠ 0 ∧ sc_maximum_observation_age_ns (ap_strategy c) ≠ 0 ∧
    valid_monotonic_arb_config (sc_monotonic_arb (ap_strategy c)) = true;
  va_sessions : md_enable_market_data (ka_market_data (ap_kalshi c)) = true ∧ or_enable_order_rest (ka_order_rest (ap_kalshi c)) = true ∧
    pf_enable_private_order_feed (ka_private_order_feed (ap_kalshi c)) = true;
  va_oms : 0 < om_strategy_allocation_limit_ticks (ap_oms c) ∧ 2 ≤ om_maximum_group_legs (ap_oms c) ∧ om_maximum_group_intent_age_ns (ap_oms c) ≠ 0;
  va_capital : 200 * ac_order_quantity_lots (sc_monotonic_arb (ap_strategy c)) ≤ om_maximum_group_reservation_ticks (ap_oms c) ∧
    200 * ac_order_quantity_lots (sc_monotonic_arb (ap_strategy c)) ≤ om_strategy_allocation_limit_ticks (ap_oms c);
}.
Lemma group_reservation_exact q : is_u64 q → group_reservation q = 200 * q.
Proof.
  unfold is_u64. intros Hq. unfold group_reservation, kPriceTicksPerDollar, kQuantityLotsPerContract. rewrite (u128_id (q * 10000)) by lia.
  replace (q * 10000) with (q * 100 * 100) by lia. rewrite Z.mod_mul, Z.div_mul by lia. cbn [Z.eqb]. rewrite (u128_id (q * 100 + 0)), u128_id by lia. lia.
Qed.
Lemma strategy_valid c u : typed_app c → validate_strategy c = inr u → sc_enable_monotonic_arb (ap_strategy c) = true → valid_arb c.
Proof.
  intros [_ _ T3 T4 T5 [T6 _ _ _ _ _ _ _]] H Hon. unfold validate_strategy in H. rewrite Hon in H. cbv zeta in H. steps. rewrite group_reservation_exact in * by done.
  repeat match goal with H : (_ || _) = false |- _ => apply orb_false_elim in H as [? H] end.
  repeat match goal with H : negb _ = false |- _ => apply negb_false_iff in H end. unfold is_u64, is_i64 in *.
  rewrite !Z.eqb_neq, ?Z.leb_gt, ?Z.ltb_ge in *. rewrite !u128_id in * by lia. split; split_and!; try done; lia.
Qed.

Lemma kalshi_valid k u : validate_kalshi k = inr u → or_enable_order_rest (ka_order_rest k) = true →
  pf_enable_private_order_feed (ka_private_order_feed k) = true ∧ ∀ channel, channel ∈ pf_channels (ka_private_order_feed k).
Proof.
  intros H Hon. unfold validate_kalshi in H. rewrite Hon in H. cbv zeta in H. steps. 
  match goal with H : negb (pf_enable_private_order_feed _) = false |- _ => apply negb_false_iff in H; rename H into Hf end. split; [done|]. rewrite Hf in H. steps.
  apply negb_false_iff in H. rewrite forallb_forall in H. intros channel. specialize (H channel). apply bool_decide_eq_true in H; [done|].
  destruct channel; cbn; auto.
Qed.

Lemma inputs_distinct n : Z.of_nat n ≤ U32_MAX → NoDup (in_shard_index <$> make_strategy_inputs n).
Proof.
  intros Hn. unfold make_strategy_inputs. rewrite <- list_fmap_compose. apply NoDup_fmap_2_strong; [|apply NoDup_seq].
  intros x y Hx%elem_of_seq Hy%elem_of_seq. cbn. rewrite !u32_id by (unfold is_u32; lia). lia.
Qed.
Lemma strategy_starts {Q : Type → Type} `{!PushQueue Q} c (to_oms : Q StrategyIntent) (s : ControlState (Q := Q)) :
  valid_arb c → 0 < rt_shard_count (ap_runtime c) ≤ U32_MAX → pst_target_universe_version (cp_process_state s) ≠ 0 → (start_strategy c to_oms s).1 = None.
Proof.
  intros [(V1 & V2 & V3) _ _ _] Hs Hv. unfold start_strategy. destruct (sc_enable_monotonic_arb _); [|done]. unfold mbind, M_bind, gets. cbn. unfold make_strategy. cbn.
  rewrite (proj2 (Z.eqb_neq _ _) Hv), (proj2 (Z.eqb_neq _ _) V1), (proj2 (Z.eqb_neq _ _) V2), V3. cbn. rewrite bool_decide_eq_false_2.
  - rewrite bool_decide_eq_true_2 by (apply inputs_distinct; lia). done.
  - unfold make_strategy_inputs. destruct (Z.to_nat (rt_shard_count (ap_runtime c))) eqn:E; [lia|]. done.
Qed.

Lemma validated c : validate_app_config c = inr tt → ∃ u1 u2 u3, validate_strategy c = inr u1 ∧ validate_runtime (ap_runtime c) = inr u2 ∧ validate_kalshi (ap_kalshi c) = inr u3.
Proof. unfold validate_app_config. intros H. steps. eauto 10. Qed.

(** C31: a configuration that is accepted can be assembled.  If the process gets past its
    configuration, then whatever the document says, the queues can be constructed, all of them
    and those of every shard, and so can the back-off of every thread, which throws outside of
    any handler, and the frames, provided there are at most [2^32 - 1] (validation does not
    test this); the constructor of a configured strategy accepts its settings and inputs;
    with a strategy, market data, OMS, REST and private feed all count as required; and with
    REST the private feed is on and subscribes to all the channels that carry the account. *)
Theorem accepted_configuration_starts padding arguments read_file curl_ready config shard_count built :
  prepare padding arguments read_file curl_ready = inr (config, shard_count, built) →
  0 < shard_count ≤ U32_MAX ∧ shard_count = rt_shard_count (ap_runtime config) ∧
  (rt_frame_pool_capacity (ap_runtime config) ≤ U32_MAX → ∃ queues pool, built = Some (queues, pool) ∧
     length (aq_control_to_shard queues) = Z.to_nat shard_count ∧ length (aq_shard_to_strategy queues) = Z.to_nat shard_count) ∧
  (∃ backoff, make_backoff (rt_thread_polling (ap_runtime config)) = Some backoff) ∧
  (sc_enable_monotonic_arb (ap_strategy config) = true →
     make_required_components config = mkRequiredComponents true true true true true true ∧
     ∀ (Q : Type → Type) (HQ : PushQueue Q) (to_oms : Q StrategyIntent) (s : ControlState (Q := Q)),
       pst_target_universe_version (cp_process_state s) ≠ 0 → (start_strategy config to_oms s).1 = None) ∧
  (or_enable_order_rest (ka_order_rest (ap_kalshi config)) = true →
     pf_enable_private_order_feed (ka_private_order_feed (ap_kalshi config)) = true ∧ ∀ channel, channel ∈ pf_channels (ka_private_order_feed (ap_kalshi config))).
Proof.
  unfold prepare. intros H. steps. destruct (load_app_config _ _) as [|c] eqn:Hl; [done|]. cbn in E. injection E as ->. apply load_ok in Hl as [Ht Hv].
  apply validated in Hv as (u1 & u2 & u3 & V1 & V2%runtime_valid & V3). pose proof (ty_shards _ Ht) as T1. unfold is_u64 in T1.
  unfold checked_shard_count in E1. destruct (_ || _) eqn:Es; [done|]. apply orb_false_elim in Es as [_ Es%Z.ltb_ge]. pose proof (vr_shards _ V2) as Hn.
  cbn in E1. injection E1 as E1. rewrite u32_id in E1 by (unfold is_u32; lia). subst. split_and!; try done; try lia.
  - intros Hp. destruct (queues_made _ V2) as (queues & Eq & L1 & L2). pose proof (ty_pool _ Ht) as T2. unfold is_u64 in T2. unfold construct. rewrite Eq. unfold Pool.make_pool.
    rewrite (proj2 (Z.ltb_ge _ _)) by lia. eauto 6.
  - exact (vr_polling _ V2).
  - intros Hon. pose proof (strategy_valid _ _ Ht V1 Hon) as Ha. destruct (va_sessions _ Ha) as (S1 & S2 & S3). unfold make_required_components, order_graph_enabled.
    rewrite S1, S2, S3. split; [done|]. intros Q HQ to_oms s. apply strategy_starts; [done|lia].
  - by apply (kalshi_valid _ u3).
Qed.

(** ** The strategy and the OMS of one configuration *)

Section Admission.
Context {Q Q' : Type → Type} `{HQ : PushQueue Q} {HL : PushQueueLaws Q} `{HQ' : PushQueue Q'}.
Variable clk oms_clk wall_clk : nat → Z.
Variable hash_order : list Z → list Z.
Implicit Types s : StrategyState (Q := Q).
Implicit Types t : OmsState (Q := Q').

(** What the state of the OMS has to be, with its limits left out: it may trade, has the
    universe and the routes of the intent, room for the answer, has not seen the intent before,
    takes it up in time and has the capital. *)
Record open_to (intent : GroupOrderIntent) (required : Z) t : Prop := {
  ot_gates : gates_open t;
  ot_universe : un_version <$> os_active_order_universe t = Some (ic_universe_version (gi_context intent));
  ot_queue : ∃ queue, os_strategy_response_queues t !! Z.to_nat (ic_strategy_index (gi_context intent)) = Some (Some queue) ∧
    kGROUP_ADMISSION_RESPONSE_SLOTS ≤ q_capacity queue - q_size queue;
  ot_age : ic_intent_publish_timestamp_ns (gi_context intent) ≤ oms_clk (os_clock_reads t) ≤
    ic_intent_publish_timestamp_ns (gi_context intent) + rk_maximum_group_intent_age_ns (os_risk_config t);
  ot_fresh : find_group_by_intent (ic_strategy_index (gi_context intent)) (ic_group_intent_id (gi_context intent)) t = None;
  ot_routes : ∀ leg, leg ∈ legs_of intent → ∃ route, find_market_route (market leg) t = Some route ∧ mr_tradeable route = true ∧
    mr_event_id route = ic_event_id (gi_context intent);
  ot_capital : required ≤ offered (ic_strategy_index (gi_context intent)) t ≤ I64_MAX;
}.

Lemma open_welcomes c intent t : typed_app c → valid_arb c → os_risk_config t = make_oms_risk_config c →
  open_to intent (200 * ac_order_quantity_lots (sc_monotonic_arb (ap_strategy c))) t →
  welcomes oms_clk intent (200 * ac_order_quantity_lots (sc_monotonic_arb (ap_strategy c))) t.
Proof.
  intros Ht [_ _ (A1 & A2 & A3) [A4 A5]] Hc [O1 O2 O3 O4 O5 O6 O7]. pose proof (ty_age _ Ht) as T. unfold is_u64 in T.
  split; try done; rewrite Hc in *; cbn in *; lia.
Qed.

(** C32: the limits of an accepted configuration fit the strategy it configures.  The capital of
    one group, both legs at a dollar a contract, is within what the OMS may reserve for a group
    and for the strategy; and an intent that a reachable strategy with these settings publishes
    is admitted by an OMS with these limits that is open to it: none of the limits of the
    configuration refuses it, and the capital reserved is the one validation allowed for. *)
Theorem configured_strategy_is_admitted path contents config s intent t :
  load_app_config path contents = inr config → sc_enable_monotonic_arb (ap_strategy config) = true →
  ac_order_quantity_lots (sc_monotonic_arb (ap_strategy config)) ≤ U64_MAX / 10000 →
  reachable clk wall_clk hash_order s → st_config s = make_strategy_config config → os_risk_config t = make_oms_risk_config config →
  (∀ n, clk n ≤ clk (S n)) → (∀ o, available_observation s o → typed_observation o ∧ po_event_revision o ≠ 0) →
  sp_published_intent (turn clk wall_clk hash_order s).1 = Some intent →
  group_reservation (ac_order_quantity_lots (sc_monotonic_arb (ap_strategy config))) ≤
    Z.min (rk_maximum_group_reservation_ticks (os_risk_config t)) (rk_strategy_allocation_limit_ticks (os_risk_config t)) ∧
  (open_to intent (group_reservation (ac_order_quantity_lots (sc_monotonic_arb (ap_strategy config)))) t →
     (check_group_admission oms_clk intent t).1 =
       mkGroupAdmissionCheck true kREJECT_NONE (group_reservation (ac_order_quantity_lots (sc_monotonic_arb (ap_strategy config))))).
Proof.
  intros [Ht (u1 & u2 & u3 & V1 & _ & _)%validated]%load_ok Hon Hq Hr Hs Hc Hclk Hobs Hpub. pose proof (strategy_valid _ _ Ht V1 Hon) as Ha.
  pose proof (ty_arb _ Ht) as Harb. rewrite group_reservation_exact by apply Harb. split; [rewrite Hc; cbn; destruct (va_capital _ Ha); lia|]. intros Ho.
  assert (sg_arb_config (st_config s) = sc_monotonic_arb (ap_strategy config)) as Es by (by rewrite Hs).
  destruct (published_intent_admitted clk oms_clk wall_clk hash_order s intent t) as [_ H]; try done; rewrite ?Es in *; try done.
  apply H. by apply open_welcomes.
Qed.
End Admission.
End ConfigSound.
End ConfigSound.

(** ** A configuration file that is loaded, and the process it starts

    The example of the documentation with the connections and the strategy enabled, as a tree
    with the conversions of [nlohmann::json]. *)

Open Scope Z_scope.

Module ConfigDemo.
Import Config App ConfigSound AppStart.

(** ** JSON as trees *)

#[warnings="-register-all"]
Inductive Doc := | DString (s : string) | DInt (z : Z) | DBool (b : bool) | DArray (l : list Doc) | DObject (members : list (string * Doc)).
Definition member (d : Doc) (name : string) : option Doc :=
  match d with DObject ms => snd ∘ snd <$> list_find (λ m, m.1 = name) ms | _ => None end.
(** Conversions to narrower integers wrap. *)
Definition i32 (z : Z) : Z := (z + 2147483648) mod 4294967296 - 2147483648.
Definition number (convert : Z → Z) (d : Doc) : string + Z := match d with DInt z => inr (convert z) | _ => inl "type must be number"%string end.

Section Documents.
Context (contents : list (string * Doc)).
#[local] Instance doc_json : NlohmannJson := {|
  json := Doc;
  json_parse := λ text, match list_find (λ c, c.1 = text) contents with Some (_, (_, d)) => inr d | None => inl "parse error"%string end;
  json_is_object d := match d with DObject _ => true | _ => false end;
  json_is_array d := match d with DArray _ => true | _ => false end;
  json_is_string d := match d with DString _ => true | _ => false end;
  json_is_null d := false;
  json_is_number_integer d := match d with DInt _ => true | _ => false end;
  json_is_number_unsigned d := match d with DInt z => 0 <=? z | _ => false end;
  json_contains d name := bool_decide (is_Some (member d name));
  json_at d name := default (DObject []) (member d name);
  json_empty d := match d with DObject [] | DArray [] => true | _ => false end;
  json_items d := match d with DArray l => l | _ => [] end;
  json_get_string d := match d with DString s => s | _ => ""%string end;
  json_get_int64 := number i64;
  json_get_uint64 d := match d with DInt z => u64 z | _ => 0 end;
  json_dump d := inr ""%string;
|}.
#[local] Instance doc_getters : NlohmannGetters := {|
  json_as_bool d := match d with DBool b => inr b | _ => inl "type must be boolean"%string end;
  json_as_string d := match d with DString s => inr s | _ => inl "type must be string"%string end;
  json_as_uint64 := number u64;
  json_as_uint32 := number u32;
  json_as_int64 := number i64;
  json_as_int := number i32;
  json_elements d := match d with DArray l => l | DObject ms => ms.*2 | _ => [d] end;
  json_extract := json_parse;
|}.
#[local] Instance doc_typed : NlohmannTyped.
Proof.
  split; intros [] n; cbn; intros [= <-].
  - apply u64_range.
  - apply u32_range.
  - unfold is_i64, i64. pose proof (Z.mod_pos_bound (z + 9223372036854775808) 18446744073709551616). lia.
Qed.
End Documents.
#[local] Existing Instances doc_json doc_getters doc_typed.

(** ** The document *)

Definition runtime_doc : Doc := DObject
  [("shard_count", DInt 4); ("shard_queue_capacity", DInt 32768); ("router_queue_capacity", DInt 32768); ("frame_pool_capacity", DInt 2);
   ("operator_queue_capacity", DInt 64); ("operator_socket_path", DString "/tmp/predex-operator-example.sock"); ("market_data_tape_path", DString "logs/live/predex_tape.bin");
   ("thread_polling", DObject [("profile", DString "harvest"); ("spin_iterations", DInt 64); ("yield_iterations", DInt 64); ("min_sleep_us", DInt 50); ("max_sleep_us", DInt 1000)]);
   ("synthetic_trading_session_enabled", DBool false)]%string.
Definition kalshi_doc : Doc := DObject
  [("auth", DObject [("key_id_env", DString "KALSHI_KEY_ID"); ("private_key_pem_env", DString "KALSHI_PRIVATE_KEY_PEM")]);
   ("market_data", DObject [("enable_market_data", DBool true); ("channels", DArray [DString "trade"; DString "orderbook_delta"; DString "market_lifecycle_v2"])]);
   ("order_rest", DObject [("enable_order_rest", DBool true); ("endpoint", DString "https://external-api.kalshi.com"); ("max_concurrent_streams", DInt 8)]);
   ("private_order_feed", DObject [("enable_private_order_feed", DBool true); ("channels", DArray [DString "user_orders"; DString "fill"; DString "market_positions"])])]%string.
Definition oms_doc : Doc := DObject
  [("strategy_allocation_limit_ticks", DInt 1000000); ("maximum_group_reservation_ticks", DInt 20000); ("maximum_group_intent_age_ns", DInt 100000000)]%string.
Definition strategy_doc : Doc := DObject
  [("enable_monotonic_arb", DBool true); ("strategy_id", DInt 9); ("maximum_observation_age_ns", DInt 1000); ("monotonic_arb", DObject [("order_quantity_lots", DInt 100)])]%string.
Definition market_doc (id : Z) (ticker : string) (strike : Z) : Doc := DObject
  [("market_id", DInt id); ("kalshi_ticker", DString ticker); ("tradeable", DBool true); ("price_level_structure", DString "linear_cent"); ("strike_key", DInt strike)]%string.
Definition universe_doc : Doc := DObject [("events", DArray
  [DObject [("event_id", DString "7"); ("affinity_key", DString "17041"); ("topology", DString "monotonic_chain");
            ("markets", DArray [market_doc 1 "EXAMPLE-EASIER" 1000000; market_doc 2 "EXAMPLE-HARDER" 2000000])]])]%string.
Definition example_doc : Doc := DObject
  [("runtime", runtime_doc); ("kalshi", kalshi_doc); ("oms", oms_doc); ("strategy", strategy_doc); ("universe", universe_doc)]%string.
Definition files : list (string * Doc) := [("example"%string, example_doc)].

#[local] Instance demo_json : NlohmannJson := doc_json files.
#[local] Instance demo_getters : NlohmannGetters := doc_getters files.
#[local] Instance demo_typed : NlohmannTyped := doc_typed files.

Definition loaded : AppConfig := match load_app_config "example" (Some "example"%string) with inr c => c | inl _ => default_app_config end.
Lemma example_loads : load_app_config "example" (Some "example"%string) = inr loaded.
Proof. vm_compute. reflexivity. Qed.

(** The same document is refused with a capacity that is no power of two, and without room for
    a group. *)
Definition without (section : Doc) (name : string) : Doc :=
  DObject [("runtime", if bool_decide (name = "runtime") then section else runtime_doc); ("kalshi", kalshi_doc);
           ("oms", if bool_decide (name = "oms") then section else oms_doc); ("strategy", strategy_doc); ("universe", universe_doc)]%string.
Definition verdict (d : Doc) : option string := match load_sections d ≫= validate_app_config with inl e => Some e | inr _ => None end.
Example refusals :
  verdict (without (DObject [("router_queue_capacity", DInt 48)]%string) "runtime") = Some "Invalid configuration: router_queue_capacity must be a positive power of two"%string ∧
  verdict (without (DObject [("strategy_allocation_limit_ticks", DInt 19999); ("maximum_group_reservation_ticks", DInt 20000); ("maximum_group_intent_age_ns", DInt 1)]%string) "oms") =
    Some "Invalid configuration: OMS capital cannot cover one monotonic arbitrage group"%string ∧
  verdict example_doc = None.
Proof. vm_compute. split_and!; reflexivity. Qed.

(** Times are read as [int]: one after January 2038 is stored as another. *)
Definition closing_at (t : Z) : option Z :=
  match load_market (DObject [("market_id", DInt 1); ("kalshi_ticker", DString "T"); ("price_level_structure", DString "linear_cent"); ("market_close_time_s", DInt t)]%string) with
  | inr m => Some (mc_market_close_time_s m)
  | inl _ => None
  end.
Example late_close_time : closing_at 2147483647 = Some 2147483647 ∧ closing_at 2147483648 = Some (2 ^ 64 - 2 ^ 31) ∧ closing_at 4294967301 = Some 5.
Proof. vm_compute. split_and!; reflexivity. Qed.

(** ** The theorems at work *)

Definition arguments : list string := ["example"%string].
Lemma accepted_configuration_starts_witness :
  (∃ queues pool, construct 0 (ap_runtime loaded) = Some (queues, pool) ∧ length (aq_control_to_shard queues) = 4%nat) ∧
  make_required_components loaded = mkRequiredComponents true true true true true true.
Proof.
  assert (prepare 0 arguments Some true = inr (loaded, 4, construct 0 (ap_runtime loaded))) as E by (vm_compute; reflexivity).
  assert (rt_frame_pool_capacity (ap_runtime loaded) = 2) as E1 by (vm_compute; reflexivity).
  assert (sc_enable_monotonic_arb (ap_strategy loaded) = true) as E2 by (vm_compute; reflexivity).
  destruct (accepted_configuration_starts 0 arguments Some true loaded 4 (construct 0 (ap_runtime loaded)) E) as (_ & _ & H1 & _ & H2 & _).
  destruct H1 as (queues & pool & H1 & H3 & _); [rewrite E1; lia|]. split; [exists queues, pool; split; [exact H1|exact H3]|]. exact (proj1 (H2 E2)).
Defined.

(** The demo strategy has the settings of the document; so has this OMS, which is reconciled. *)
Import StrategyAdmission StrategySafety Risk Oms Admission.
Definition demo_oms : OmsState (Q := Fifo) :=
  (OmsDemo.pump (OmsDemo.trading_oms [] [])) ⟪ os_risk_config := make_oms_risk_config loaded ⟫ ⟪ os_venue_portfolio ::= λ v, v ⟪ vr_reconciled := true ⟫ ⟫.
Lemma demo_open : open_to OmsDemo.clock demo_intent 20000 demo_oms.
Proof.
  assert (∀ m, m ∈ [1; 2] → find_market_route m demo_oms = Some (OmsDemo.route m)) as Hr.
  { intros m Hm. rewrite !elem_of_cons in Hm. destruct Hm as [->|[->|Hm]]; [vm_compute; reflexivity..|by apply not_elem_of_nil in Hm]. }
  assert (market <$> legs_of demo_intent = [1; 2]) as Hm by (vm_compute; reflexivity).
  assert (ic_event_id (gi_context demo_intent) = 7) as He by (vm_compute; reflexivity).
  split.
  - repeat split; vm_compute; reflexivity.
  - vm_compute. reflexivity.
  - exists (OmsDemo.queue 64). vm_compute. split; [reflexivity|discriminate].
  - vm_compute. split; discriminate.
  - vm_compute. reflexivity.
  - intros leg Hin. exists (OmsDemo.route (market leg)). rewrite He. split; [|split; reflexivity]. apply Hr. rewrite <- Hm. by apply list_elem_of_fmap_2.
  - vm_compute. split; discriminate.
Qed.
Lemma configured_strategy_is_admitted_witness : (check_group_admission OmsDemo.clock demo_intent demo_oms).1 = mkGroupAdmissionCheck true kREJECT_NONE 20000.
Proof.
  assert (group_reservation (MonotonicArb.ac_order_quantity_lots (sc_monotonic_arb (ap_strategy loaded))) = 20000) as Eg by (vm_compute; reflexivity).
  destruct (configured_strategy_is_admitted (Q' := Fifo) demo_clock OmsDemo.clock demo_wall_clock demo_order "example" (Some "example"%string) loaded (demo 1) demo_intent demo_oms) as [_ H].
  - exact example_loads.
  - vm_compute. reflexivity.
  - vm_compute. discriminate.
  - apply demo_reachable.
  - vm_compute. reflexivity.
  - vm_compute. reflexivity.
  - intros n. unfold demo_clock. lia.
  - intros o ->%demo_available. split; [|vm_compute; discriminate].
    split; [| |vm_compute; discriminate..]; repeat (apply Forall_cons; split; [unfold MonotonicArbSound.typed_level, is_u64; cbn; lia|]); apply Forall_nil_2.
  - vm_compute. reflexivity.
  - rewrite Eg in H. apply H. apply demo_open.
Defined.

(** The process of the document: four shards, and room in all queues. *)
Import ControlPlane.
Definition room {T} : Fifo T := mkFifo 8 [] [] [].
Definition clock (n : nat) : Z := Z.of_nat n.
Definition getenv (name : string) : option string := Some "secret"%string.
Definition fresh : ControlState (Q := Fifo) :=
  make_control_plane clock [] room room [] [] (replicate 4 (Some room)) (replicate 4 (Some [])) None (Some room) (Some []) (Some room) (Some []) (Some room) (Some [])
    (make_required_components loaded) (make_synthetic_session_config (ap_runtime loaded)).
Definition outcome : option string * ControlState (Q := Fifo) := start_components clock id UniverseInstall.insertion_sort getenv loaded 4 None room fresh.
Lemma components_are_started_in_order_witness : ∃ u, us_version u = 1 ∧
  to_oms outcome.2 = [CtApplyOrderRouteUniverse (Some (build_order_route_universe u))] ∧
  to_rest outcome.2 = [CrApplyOrderRouteUniverse (Some (build_order_route_universe u)); CrEnable] ∧
  to_feed outcome.2 = [CpApplyOrderRouteUniverse (Some (build_order_route_universe u)); CpConnect] ∧
  to_io outcome.2 = [CiApplyUniverseSnapshot (Some u); CiConnect].
Proof.
  assert (Z.of_nat (length (cp_control_to_shard_queues fresh)) ≤ U32_MAX) as E1 by (vm_compute; discriminate).
  assert (start_components clock id UniverseInstall.insertion_sort getenv loaded 4 None room fresh = (None, outcome.2)) as E2 by (vm_compute; reflexivity).
  destruct (components_are_started_in_order (Q := Fifo) clock id UniverseInstall.insertion_sort getenv loaded 4 None room fresh outcome.2 E1 E2)
    as (built & u & _ & Eu & _ & H1 & H2 & H3 & H4).
  assert (to_oms fresh = [] ∧ to_rest fresh = [] ∧ to_feed fresh = [] ∧ to_io fresh = [] ∧ cp_next_universe_version fresh = 1) as (F1 & F2 & F3 & F4 & F5)
    by (vm_compute; split_and!; reflexivity).
  assert (order_graph_enabled loaded = true ∧ or_enable_order_rest (ka_order_rest (ap_kalshi loaded)) = true ∧
    pf_enable_private_order_feed (ka_private_order_feed (ap_kalshi loaded)) = true ∧ md_enable_market_data (ka_market_data (ap_kalshi loaded)) = true) as (O1 & O2 & O3 & O4)
    by (vm_compute; split_and!; reflexivity).
  unfold oms_commands, rest_commands, feed_commands, io_commands in *. rewrite O1, F1 in H1. rewrite O2, F2 in H2. rewrite O3, F3 in H3. rewrite O4, F4 in H4.
  exists u. split; [rewrite Eu, F5; reflexivity|]. split; [exact H1|]. split; [exact H2|]. split; [exact H3|exact H4].
Defined.
End ConfigDemo.
