(* ===== verification/OmsCapital.v ===== *)
(** * OmsCapital: capital is checked before risk is taken

    What the OMS computes as available capital, and that an order leaves for the
    venue only when the gates are open and its full notional is covered.

    At the end, Module [GroupOrder]: a group is submitted whole or not at all. *)

From S2P Require Import Prelude Spsc OmsTypes OmsRisk Oms OmsDemo OmsFrame OmsReserve OmsAdmission.

Module Capital.
Import Risk Oms Footprint Reserve.

(** ** Available capital *)

Fixpoint sum_positive (l : list Z) : Z :=
  match l with [] => 0 | r :: l' => Z.max 0 r + sum_positive l' end.

Lemma sum_positive_nonneg l : 0 ≤ sum_positive l.
Proof. induction l; cbn; lia. Qed.

Lemma sum_positive_perm l l' : l ≡ₚ l' → sum_positive l = sum_positive l'.
Proof. induction 1; cbn; lia. Qed.

(** The loop with its early exit is a saturating sum. *)
Lemma sum_reservations_spec l global : 0 ≤ global ≤ I64_MAX →
  sum_reservations l global = Z.min I64_MAX (global + sum_positive l).
Proof.
  revert global. induction l as [|r l IH]; intros global Hg; cbn; [lia|].
  pose proof (sum_positive_nonneg l). rewrite Z.gtb_ltb. destruct (Z.ltb_spec (I64_MAX - global) r); [lia|].
  rewrite IH by lia. lia.
Qed.

Section Capital.
Context {Q : Type → Type} `{!PushQueue Q}.
Variable clk : nat → Z.
Variable hash_order : list Z → list Z.
Hypothesis hash_order_perm : ∀ l, hash_order l ≡ₚ l.
Implicit Types s : OmsState (Q := Q).

(** Every strategy's reservations, in key order. *)
Definition reservations s : list Z := (λ x, pf_reserved_order_capital_ticks x.2) <$> map_to_list (os_portfolio_by_strategy s).

Lemma global_reservations_spec s : global_reservations hash_order s = Z.min I64_MAX (sum_positive (reservations s)).
Proof.
  unfold global_reservations. rewrite sum_reservations_spec by lia. rewrite Z.add_0_l. f_equal.
  apply sum_positive_perm. unfold map_keys, reservations. rewrite hash_order_perm, <- list_fmap_compose.
  apply reflexive_eq, list_fmap_ext. intros i [k p] Hi. cbn.
  unfold portfolio_at. apply list_elem_of_lookup_2, elem_of_map_to_list in Hi. by rewrite Hi.
Qed.

Lemma strategy_available_spec p : is_i64 (pf_reserved_order_capital_ticks p) →
  is_i64 (pf_inventory_exposure_ticks p) → is_i64 (pf_allocation_limit_ticks p) →
  strategy_available p =
  Z.max 0 (pf_allocation_limit_ticks p
           - (Z.max 0 (pf_reserved_order_capital_ticks p) + Z.max 0 (pf_inventory_exposure_ticks p))).
Proof.
  unfold strategy_available, is_i64. intros. rewrite Z.gtb_ltb.
  destruct (Z.ltb_spec (I64_MAX - Z.max 0 (pf_reserved_order_capital_ticks p)) (Z.max 0 (pf_inventory_exposure_ticks p))); lia.
Qed.

(** The capital a strategy may still commit is its allocation less its open
    reservations and inventory, never negative; where the portfolio must be
    reconciled it is zero until it is, and then also bounded by the venue balance
    less the safety reserve and less the reservations of all strategies together.
    The result does not depend on the iteration order of the hash map, and neither
    the saturation nor the early exit of the loop can be observed. *)
Theorem available_capital_exact p s :
  is_i64 (pf_reserved_order_capital_ticks p) → is_i64 (pf_inventory_exposure_ticks p) →
  is_i64 (pf_allocation_limit_ticks p) → is_i64 (vr_available_balance_ticks (os_venue_portfolio s)) →
  let own := Z.max 0 (pf_allocation_limit_ticks p
           - (Z.max 0 (pf_reserved_order_capital_ticks p) + Z.max 0 (pf_inventory_exposure_ticks p))) in
  let venue := Z.max 0 (Z.max 0 (vr_available_balance_ticks (os_venue_portfolio s)
                                  - Z.max 0 (rk_venue_safety_reserve_ticks (os_risk_config s)))
                        - sum_positive (reservations s)) in
  available_capital hash_order p s =
    if negb (rk_require_portfolio_reconciliation (os_risk_config s)) then own
    else if negb (vr_reconciled (os_venue_portfolio s)) then 0 else Z.min own venue.
Proof.
  intros H1 H2 H3 H4. cbv zeta. unfold available_capital, venue_available.
  rewrite strategy_available_spec, global_reservations_spec by done.
  pose proof (sum_positive_nonneg (reservations s)). unfold is_i64 in *.
  destruct (negb _); [done|]. destruct (negb _); [done|]. lia.
Qed.

(** ** Single orders *)

Section Orders.
Context `{!PushQueueLaws Q}.

(** One order was sent and filed, its notional reserved. *)
Definition accepted (intent : NewOrderIntent) s s' : Prop :=
  let i := ic_strategy_index (no_context intent) in
  let id := os_next_oms_request_id s in
  let client := make_client_order_id id in
  let r := 100 * no_quantity_lots intent in
  check_new_order intent s = None ∧ 0 < r ≤ available_for hash_order i s ∧
  (∃ ts, sent_commands s' = sent_commands s ++ [KcSubmit (mkSubmitOrderCmd id client intent ts false)]) ∧
  records_of s' = mkRecords
    (emplace id (make_order_record (mkOmsContext id (no_context intent)) client intent r) (os_orders s))
    (os_group_by_id s) (os_group_id_by_strategy_intent s) ∧
  ∀ j, reserved_for j s' = reserved_for j s + if decide (j = i) then r else 0.

(** The messages after a submission. *)
Lemma confirm_spec i d cs os context recv s s1 :
  moved i d cs os s s1 →
  wp (upd_portfolio i (λ p, p ⟪ pf_open_order_count ::= λ n, u32 (n + 1) ⟫);;
      tele (λ t, t ⟪ tm_strategy_intents_processed ::= incr ⟫);;
      response_ts ← respond clk i context recv kRESPONSE_ACCEPTED kREJECT_NONE;
      emit_strategy_portfolio_update i response_ts) (λ _, moved i d cs os s) s1.
Proof. intros H. eapply wp_moved; [foot_auto|unfold respond, tele; reserved_auto|exact H|done]. Qed.

Lemma submit_new_order_spec intent id recv s s0 :
  let i := ic_strategy_index (no_context intent) in
  let client := make_client_order_id id in
  let r := 100 * no_quantity_lots intent in
  0 < r → id = os_next_oms_request_id s → check_new_order intent s = None →
  available_for hash_order i s0 = available_for hash_order i s → sent_commands s0 = sent_commands s → records_of s0 = records_of s →
  same_portfolios s s0 →
  wp (submit_new_order clk hash_order intent (mkOmsContext id (no_context intent)) recv client r)
     (λ _ s', refused s s' ∨ accepted intent s s') s0.
Proof.
  intros i client r Hr Hid Hcheck Hav Hs0 Ho0 Hp0. unfold submit_new_order. fold i. wp_step. unfold wp at 1.
  set (s1 := (ensure_strategy_portfolio hash_order i s0).2).
  assert (moved i 0 [] (records_of s) s s1) as Hm1 by (by apply ensure_moved).
  assert (available_for hash_order i s = pf_available_capital_ticks (portfolio_at i s1)) as Hav1 by (by rewrite <- Hav).
  clearbody s1. do 2 wp_step. destruct (Z.ltb_spec (pf_available_capital_ticks (portfolio_at i s1)) r) as [Hlt|Hge].
  { eapply wp_moved; [foot_auto|reserved_auto|exact Hm1|]. intros _ s' H. left. by eapply moved_refused. }
  wp_step. unfold wp at 1. pose proof (moved_reserve i 0 r (λ p, p ⟪ pf_reserved_order_capital_ticks ::= Z.add r ⟫) _ _ _ _
    (λ p, Z.add_comm _ _) Hm1) as Hm2. rewrite Z.add_0_l in Hm2.
  wp_step. eapply wp_moved; [foot_auto|reserved_auto|exact Hm2|]. intros _ s3 Hm3.
  wp_step. eapply wp_moved; [foot_auto|reserved_auto|exact Hm3|]. intros ts s4 Hm4.
  wp_step. eapply wp_mono; [apply send_kalshi_spec|]. intros sent s5 (E1 & E2 & E3).
  pose proof (moved_send _ _ _ _ _ _ _ _ Hm4 E1 E2 E3) as Hm5.
  destruct sent; cbn [negb].
  - wp_step. unfold wp at 1. cbv beta.
    assert (moved i r [KcSubmit (mkSubmitOrderCmd id client intent ts false)]
      (mkRecords (emplace id (make_order_record (mkOmsContext id (no_context intent)) client intent r) (os_orders s))
         (os_group_by_id s) (os_group_id_by_strategy_intent s)) s
      (add_order id (make_order_record (mkOmsContext id (no_context intent)) client intent r) s5).2) as Hm6.
    { destruct Hm5 as (H1 & H2 & H3 & H4). split; [done|]. split; [|done].
      injection H2 as E4 E5 E6. unfold records_of. cbn. by rewrite E4, E5, E6. }
    eapply wp_mono; [by apply confirm_spec|]. intros _ s' (H1 & H2 & H3 & H4). right. subst id.
    split; [done|]. split; [|split; [by eexists|done]].
    change (0 < r ∧ r ≤ available_for hash_order i s). rewrite Hav1. done.
  - wp_step. unfold wp at 1. pose proof (moved_reserve i r (- r) (λ p, p ⟪ pf_reserved_order_capital_ticks ::= λ x, x - r ⟫) _ _ _ _
      (λ p, eq_refl) Hm5) as Hm6.
    replace (r + - r) with 0 in Hm6 by lia.
    eapply wp_moved; [foot_auto|reserved_auto|exact Hm6|]. intros _ s' H. left. by eapply moved_refused.
Qed.

Lemma handle_new_order_spec intent s : is_i64 (no_quantity_lots intent) →
  wp (handle_new_order clk hash_order intent) (λ _ s', refused s s' ∨ accepted intent s s') s.
Proof.
  intros Hq. unfold handle_new_order. wp_step. unfold wp at 1. wp_step. unfold wp at 1. cbn [fst snd].
  set (s0 := (fresh_request_id (now_ns clk s).2).2).
  assert (same_book s s0 ∧ same_portfolios s s0) as [[B1 B2] Hp] by done.
  assert (same_reserved s s0) as Hres by (by apply same_portfolios_reserved).
  assert (∀ m : M OmsState unit, rel same_book m → rel same_reserved m →
    wp m (λ _ s', refused s s' ∨ accepted intent s s') s0) as Hreject.
  { intros m H1 H2. eapply wp_both; [exact H1|exact H2|]. intros _ s' ??. left.
    apply refused_intro; [etrans; [|eassumption]; done|by etrans]. }
  do 2 wp_step. destruct (check_new_order intent s0) as [reason|] eqn:Ec; [apply Hreject; [foot_auto|reserved_auto]|].
  destruct (id_empty _); [apply Hreject; [foot_auto|reserved_auto]|].
  destruct (full_notional_reservation _) as [r|] eqn:Er; [|apply Hreject; [foot_auto|reserved_auto]].
  destruct (full_notional_reservation_positive _ _ Hq Er) as (Hpos & -> & Hr).
  destruct (_ >? _); [apply Hreject; [foot_auto|reserved_auto]|].
  rewrite i64_id by (unfold is_i64; lia).
  apply (submit_new_order_spec intent (os_next_oms_request_id s) (clk (os_clock_reads s)) s s0); try done; [lia|].
  by apply available_for_frame.
Qed.

(** C3: an order intent has one of two outcomes.  Either nothing is sent to the
    venue, no order is filed and no strategy's reservation changes, also when the
    command queue is full and the reservation has to be rolled back.  Or every gate
    was open (no execution incident, trading enabled, portfolio ready, a tradeable
    market, a well-formed intent), the full notional of 100 ticks per lot was
    positive and covered by the strategy's available capital, exactly one command
    with the strategy's intent was sent, the order is filed under the same request
    id, and exactly that notional is reserved, for that strategy only. *)
Theorem new_order_outcome intent s : is_i64 (no_quantity_lots intent) →
  let s' := (handle_new_order clk hash_order intent s).2 in
  refused s s' ∨ accepted intent s s'.
Proof. apply handle_new_order_spec. Qed.
End Orders.
End Capital.

Import OmsDemo.

(** Trading is enabled, nothing has been submitted. *)
Definition idle_oms : OmsState (Q := Fifo) := pump (trading_oms [] []).

Lemma new_order_outcome_witness :
  accepted order (leg 0 1 kYES) idle_oms (handle_new_order clock order (leg 0 1 kYES) idle_oms).2.
Proof.
  assert (sent_commands (handle_new_order clock order (leg 0 1 kYES) idle_oms).2 ≠ sent_commands idle_oms) as Hs
    by (vm_compute; discriminate).
  destruct (new_order_outcome clock order (leg 0 1 kYES) idle_oms) as [[H _]|H]; [|by destruct Hs|exact H].
  unfold is_i64. cbn. lia.
Defined.

Lemma available_capital_exact_witness :
  available_capital order (default_StrategyPortfolioRecord ⟪ pf_allocation_limit_ticks := 500 ⟫
    ⟪ pf_reserved_order_capital_ticks := 120 ⟫ ⟪ pf_inventory_exposure_ticks := 30 ⟫) idle_oms = 350.
Proof.
  assert (vr_available_balance_ticks (os_venue_portfolio idle_oms) = 0) as Hb by (vm_compute; reflexivity).
  assert (rk_require_portfolio_reconciliation (os_risk_config idle_oms) = false) as Hq by (vm_compute; reflexivity).
  revert Hb Hq. generalize idle_oms. intros s Hb Hq.
  rewrite (available_capital_exact order (λ l, Permutation_refl l)); [by rewrite Hq|..];
    unfold is_i64; rewrite ?Hb; cbn; lia.
Defined.
End Capital.

(** ** A group is submitted whole or not at all

    [handle_group_order] reserves capital, files the group and its legs, and sends
    one batch command; if the command queue is full it undoes all of it.  The theorem
    of this file gives its two outcomes. *)


Module GroupOrder.
Import Risk Oms Footprint Reserve.

(** ** Filing and removing the legs *)

Fixpoint built (g ts : Z) (i : nat) (next : Z) (legs : list NewOrderIntent) : list BuiltLeg :=
  match legs with
  | [] => []
  | leg :: legs' => make_leg g ts i leg next :: built g ts (S i) (incr next) legs'
  end.

Definition file_legs (legs : list BuiltLeg) (m : gmap Z OrderRecord) : gmap Z OrderRecord :=
  foldl (λ m l, emplace (bl_request_id l) (bl_record l) m) m legs.

Definition drop_legs (legs : list BuiltLeg) (m : gmap Z OrderRecord) : gmap Z OrderRecord :=
  foldl (λ m l, delete (bl_request_id l) m) m legs.

(** The request ids of the legs. *)
Definition ids (legs : list BuiltLeg) : list Z := bl_request_id <$> legs.

Lemma file_legs_cons l legs m :
  file_legs (l :: legs) m = file_legs legs (emplace (bl_request_id l) (bl_record l) m).
Proof. done. Qed.
Lemma drop_legs_cons l legs m : drop_legs (l :: legs) m = drop_legs legs (delete (bl_request_id l) m).
Proof. done. Qed.
Lemma ids_cons l legs : ids (l :: legs) = bl_request_id l :: ids legs.
Proof. done. Qed.

Lemma file_legs_other legs : ∀ m k, k ∉ ids legs → file_legs legs m !! k = m !! k.
Proof.
  induction legs as [|l legs IH]; intros m k Hk; [done|]. rewrite file_legs_cons, ids_cons in *. apply not_elem_of_cons in Hk as [Hne Hk].
  rewrite IH by done. unfold emplace. destruct (m !! bl_request_id l); [done|]. by rewrite lookup_insert_ne.
Qed.

Lemma file_legs_lookup legs : ∀ m, NoDup (ids legs) → (∀ k, k ∈ ids legs → m !! k = None) →
  ∀ l, l ∈ legs → file_legs legs m !! bl_request_id l = Some (bl_record l).
Proof.
  induction legs as [|l legs IH]; intros m Hnd Hfresh x Hx; [by apply elem_of_nil in Hx|]. rewrite file_legs_cons, ids_cons in *.
  apply NoDup_cons in Hnd as [Hl Hnd].
  assert (emplace (bl_request_id l) (bl_record l) m = <[bl_request_id l := bl_record l]> m) as ->
    by (unfold emplace; by rewrite Hfresh by apply list_elem_of_here).
  apply elem_of_cons in Hx as [->|Hx].
  - rewrite file_legs_other by done. apply lookup_insert_eq.
  - apply IH; [done| |done]. intros k Hk. rewrite lookup_insert_ne by congruence. apply Hfresh. by right.
Qed.

Lemma drop_legs_lookup legs : ∀ m k, drop_legs legs m !! k = if bool_decide (k ∈ ids legs) then None else m !! k.
Proof.
  induction legs as [|l legs IH]; intros m k; [done|]. rewrite drop_legs_cons, ids_cons, IH.
  destruct (decide (k = bl_request_id l)) as [->|Hne].
  - rewrite lookup_delete_eq, (bool_decide_eq_true_2 (_ ∈ _ :: _)) by left. by destruct (bool_decide _).
  - rewrite lookup_delete_ne by done.
    rewrite (bool_decide_ext (k ∈ _ :: _) (k ∈ ids legs)) by (rewrite elem_of_cons; naive_solver). done.
Qed.

(** Removing what was filed under fresh ids restores the orders. *)
Lemma drop_file_legs legs m : (∀ k, k ∈ ids legs → m !! k = None) → drop_legs legs (file_legs legs m) = m.
Proof.
  intros Hfresh. apply map_eq. intros k. rewrite drop_legs_lookup. case_bool_decide as Hk; [by rewrite Hfresh|].
  by apply file_legs_other.
Qed.

(** Consecutive ids below the wrap-around are distinct. *)
Lemma built_ids g ts legs : ∀ i next, 0 ≤ next → next + Z.of_nat (length legs) ≤ U64_MAX →
  NoDup (ids (built g ts i next legs)) ∧
  ∀ k, k ∈ ids (built g ts i next legs) → next ≤ k.
Proof.
  induction legs as [|leg legs IH]; intros i next H0 Hn; cbn [built length] in *.
  { split; [apply NoDup_nil_2|]. intros k Hk. by apply elem_of_nil in Hk. }
  assert (incr next = next + 1) as E by (unfold incr; apply u64_id; unfold is_u64; lia). rewrite E.
  destruct (IH (S i) (next + 1)) as [Hnd Hge]; [lia..|]. rewrite ids_cons. split.
  - apply NoDup_cons. split; [|done]. cbn. intros Hin. apply Hge in Hin. lia.
  - intros k [->|Hk]%elem_of_cons; [cbn; lia|]. apply Hge in Hk. lia.
Qed.

(** The lookup of a strategy's group intent. *)
Definition intent_of (m : gmap Z (gmap Z Z)) (i id : Z) : option Z := m !! i ≫= λ groups, groups !! id.

Definition add_intent (i id g : Z) : gmap Z (gmap Z Z) → gmap Z (gmap Z Z) :=
  partial_alter (λ o, Some (emplace id g (default ∅ o))) i.
Definition drop_intent (i id : Z) : gmap Z (gmap Z Z) → gmap Z (gmap Z Z) :=
  partial_alter (λ o, groups ← o;
    let groups := delete id groups in if bool_decide (groups = ∅) then None else Some groups) i.

Lemma add_intent_lookup i id g m j id' : intent_of m i id = None →
  intent_of (add_intent i id g m) j id' = if decide (j = i ∧ id' = id) then Some g else intent_of m j id'.
Proof.
  unfold intent_of, add_intent. intros Hn. destruct (decide (j = i)) as [->|Hne].
  - rewrite lookup_partial_alter_eq. cbn. unfold emplace.
    assert (default ∅ (m !! i) !! id = None) as Hd by (destruct (m !! i); [done|apply lookup_empty]).
    rewrite Hd. case_decide as Hj.
    + destruct Hj as [_ ->]. apply lookup_insert_eq.
    + rewrite lookup_insert_ne by naive_solver. destruct (m !! i); [done|apply lookup_empty].
  - rewrite lookup_partial_alter_ne by done. case_decide; naive_solver.
Qed.

Lemma drop_intent_lookup i id m j id' :
  intent_of (drop_intent i id m) j id' = if decide (j = i ∧ id' = id) then None else intent_of m j id'.
Proof.
  unfold intent_of, drop_intent. destruct (decide (j = i)) as [->|Hne].
  - rewrite lookup_partial_alter_eq. destruct (m !! i) as [groups|] eqn:Em; cbn; [|by case_decide].
    assert ((if bool_decide (delete id groups = ∅) then None else Some (delete id groups)) ≫= (λ x, x !! id')
      = delete id groups !! id') as ->.
    { case_bool_decide as E; cbn; [|done]. rewrite E. by rewrite lookup_empty. }
    destruct (decide (id' = id)) as [->|Hid].
    + rewrite lookup_delete_eq. by rewrite decide_True.
    + rewrite lookup_delete_ne by done. rewrite decide_False by naive_solver. done.
  - rewrite lookup_partial_alter_ne by done. case_decide; naive_solver.
Qed.

Section GroupOrder.
Context {Q : Type → Type} `{!PushQueue Q, !PushQueueLaws Q}.
Variable clk : nat → Z.
Variable hash_order : list Z → list Z.
Implicit Types s : OmsState (Q := Q).

(** Only clocks and counters moved. *)
Definition untouched s s' : Prop :=
  same_book s s' ∧ same_portfolios s s' ∧ os_risk_config s' = os_risk_config s ∧
  os_venue_portfolio s' = os_venue_portfolio s.

#[local] Instance untouched_preorder : PreOrder untouched.
Proof.
  split; [by intros s|]. intros s1 s2 s3 ([] & ? & ? & ?) ([] & ? & ? & ?). unfold untouched, same_book, same_portfolios in *.
  repeat split; congruence.
Qed.

Lemma build_legs_spec g ts legs : ∀ i s,
  wp (build_legs g ts i legs) (λ r s', untouched s s' ∧
    ∀ l, r = Some l → l = built g ts i (os_next_oms_request_id s) legs) s.
Proof.
  induction legs as [|leg legs IH]; intros i s; cbn [build_legs].
  { wp_steps. split; [done|]. by intros l [= <-]. }
  wp_step. unfold wp at 1. cbn [fst snd fresh_request_id]. destruct (id_empty _); [wp_steps; by split|].
  wp_step. eapply wp_mono; [apply IH|]. intros rest s' [Hu Hl]. wp_steps. split.
  - etrans; [|exact Hu]. done.
  - intros l Hr. destruct rest as [rest|]; [|done]. injection Hr as <-. cbn. by rewrite (Hl rest).
Qed.

(** ** Reservation and release *)

Lemma group_reserve_spec group s s1 : untouched s s1 → 0 ≤ gr_reserved_capital_ticks group →
  let i := ic_strategy_index (gr_context group) in
  let r := gr_reserved_capital_ticks group in
  wp (reserve_group_capital hash_order group) (λ res s',
    (res.1 = false ∧ refused s s') ∨
    (res = (true, group ⟪ gr_capital_released := false ⟫) ∧ 0 < r ≤ available_for hash_order i s ∧ r ≤ I64_MAX ∧
     moved i r [] (records_of s) s s')) s1.
Proof.
  intros ([B1 B2] & Hp & Hc & Hv) H0 i r. unfold reserve_group_capital. fold r. fold i.
  destruct ((r =? 0) || (r >? I64_MAX)) eqn:E.
  { wp_steps. left. split; [done|]. apply refused_intro; [by split|by apply same_portfolios_reserved]. }
  guards. rewrite i64_id by (unfold is_i64; lia).
  wp_step. unfold wp at 1. set (s2 := (ensure_strategy_portfolio hash_order i s1).2).
  assert (moved i 0 [] (records_of s) s s2) as Hm.
  { apply ensure_moved; [|done|done]. unfold sent_commands. by rewrite B1. }
  assert (available_for hash_order i s = pf_available_capital_ticks (portfolio_at i s2)) as Hav
    by (symmetry; by apply available_for_frame). clearbody s2.
  do 2 wp_step. destruct (Z.ltb_spec (pf_available_capital_ticks (portfolio_at i s2)) r) as [|Hge].
  { wp_steps. left. split; [done|]. by eapply moved_refused. }
  wp_step. unfold wp at 1.
  pose proof (moved_reserve i 0 r (λ p, p ⟪ pf_reserved_order_capital_ticks ::= Z.add r ⟫
    ⟪ pf_active_group_count ::= λ n, u32 (n + 1) ⟫) _ _ _ _ (λ p, Z.add_comm _ _) Hm) as Hm2. rewrite Z.add_0_l in Hm2.
  wp_step. eapply wp_moved; [foot_auto|reserved_auto|exact Hm2|]. intros _ s3 Hm3. wp_steps. right.
  split; [done|]. split; [rewrite Hav; lia|]. by split; [lia|].
Qed.

Lemma group_release_spec group s s1 cs bk :
  let i := ic_strategy_index (gr_context group) in
  let r := gr_reserved_capital_ticks group in
  gr_capital_released group = false → 0 ≤ r ≤ I64_MAX → 0 ≤ reserved_for i s → moved i r cs bk s s1 →
  wp (release_group_capital_of clk hash_order group) (λ _, moved i 0 cs bk s) s1.
Proof.
  intros i r Hrel Hr Hs Hm. unfold release_group_capital_of. rewrite Hrel. fold i r.
  rewrite i64_id by (unfold is_i64; lia).
  wp_step. eapply wp_moved; [foot_auto|reserved_auto|exact Hm|]. intros _ s2 Hm2. do 2 wp_step.
  assert (Z.min (pf_reserved_order_capital_ticks (portfolio_at i s2)) r = r) as ->.
  { destruct Hm2 as (_ & _ & Hres & _). specialize (Hres i). rewrite decide_True in Hres by done.
    unfold reserved_for in *. lia. }
  wp_step. unfold wp at 1.
  pose proof (moved_reserve i r (- r) (λ p, p ⟪ pf_reserved_order_capital_ticks ::= λ x, x - r ⟫
    ⟪ pf_active_group_count ::= λ n, if n >? 0 then n - 1 else n ⟫) _ _ _ _ (λ p, eq_refl) Hm2) as Hm3.
  replace (r + - r) with 0 in Hm3 by lia.
  wp_step. eapply wp_moved; [foot_auto|reserved_auto|exact Hm3|]. intros _ s4 Hm4.
  wp_step. eapply wp_moved; [foot_auto|reserved_auto|exact Hm4|]. intros ts s5 Hm5.
  wp_step. eapply wp_moved; [foot_auto|reserved_auto|exact Hm5|]. intros _ s6 Hm6. by wp_steps.
Qed.

(** ** Filing and rolling back *)

(** Queue and portfolios are as before. *)
Definition only_records s s' : Prop :=
  os_kalshi_command_queue s' = os_kalshi_command_queue s ∧ same_portfolios s s'.

Lemma add_legs_spec legs : ∀ s, wp (forM_ legs (λ l, add_order (bl_request_id l) (bl_record l))) (λ _ s',
  records_of s' = mkRecords (file_legs legs (os_orders s)) (os_group_by_id s) (os_group_id_by_strategy_intent s) ∧
  only_records s s') s.
Proof.
  induction legs as [|l legs IH]; intros s; cbn [forM_]; [by wp_steps|].
  wp_step. unfold wp at 1. eapply wp_mono; [apply IH|]. intros _ s' [H1 [H2 H3]]. split; [exact H1|by split].
Qed.

Lemma remove_legs_spec legs : ∀ s,
  wp (forM_ legs (λ l, remove_order (bl_request_id l) (od_client_order_id (bl_record l)))) (λ _ s',
    records_of s' = mkRecords (drop_legs legs (os_orders s)) (os_group_by_id s) (os_group_id_by_strategy_intent s) ∧
    only_records s s') s.
Proof.
  induction legs as [|l legs IH]; intros s; cbn [forM_]; [by wp_steps|].
  wp_step. unfold wp at 1. eapply wp_mono; [apply IH|]. intros _ s' [H1 [H2 H3]]. split; [exact H1|by split].
Qed.

Section Submit.
Variables (intent : GroupOrderIntent) (g b : Z) (s : OmsState (Q := Q)).
Let i := ic_strategy_index (gi_context intent).
Let id := ic_group_intent_id (gi_context intent).
Hypothesis Hreserved : 0 ≤ reserved_for i s.

(** The records once a group and its legs are filed. *)
Definition filed (group : GroupRecord) (legs : list BuiltLeg) : Records :=
  mkRecords (file_legs legs (os_orders s)) (<[g := group]> (os_group_by_id s))
    (add_intent i id g (os_group_id_by_strategy_intent s)).

Lemma register_spec group legs r s1 : moved i r [] (records_of s) s s1 →
  wp (register_group g intent legs) (λ _, moved i r [] (filed group legs) s)
     (s1 ⟪ os_group_by_id ::= <[g := group]> ⟫).
Proof.
  intros Hm. pose proof Hm as (_ & Hr & _). injection Hr as E1 E2 E3. unfold register_group. do 2 wp_step.
  eapply wp_mono; [apply add_legs_spec|]. intros _ s' [Hrec [Hq Hp]]. cbn in Hrec.
  rewrite E1, E2, E3 in Hrec. unfold filed, add_intent. fold i id in Hrec. rewrite <- Hrec.
  eapply moved_records; [exact Hm|exact Hq|exact Hp].
Qed.

Lemma rollback_spec group legs s1 :
  (∀ k, k ∈ ids legs → os_orders s !! k = None) → os_group_by_id s !! g = None →
  ic_strategy_index (gr_context group) = i → gr_capital_released group = false →
  0 ≤ gr_reserved_capital_ticks group ≤ I64_MAX →
  moved i (gr_reserved_capital_ticks group) [] (filed group legs) s s1 →
  wp (rollback_group clk hash_order g intent legs) (λ _, moved i 0 [] (mkRecords (os_orders s) (os_group_by_id s)
       (drop_intent i id (add_intent i id g (os_group_id_by_strategy_intent s)))) s) s1.
Proof.
  intros Hfresh Hg Hi Hrel Hr Hm. unfold rollback_group. pose proof Hm as (_ & Hrec & _). injection Hrec as E1 E2 E3.
  wp_step. eapply wp_mono; [apply remove_legs_spec|]. intros _ s2 [Hrec2 [Hq2 Hp2]].
  rewrite E1, E2, E3, drop_file_legs in Hrec2 by done. injection Hrec2 as F1 F2 F3.
  do 2 wp_step. fold i id. fold (drop_intent i id).
  set (s3 := s2 ⟪ os_group_id_by_strategy_intent ::= _ ⟫).
  assert (moved i (gr_reserved_capital_ticks group) [] (records_of s3) s s3) as Hm3.
  { eapply moved_records; [exact Hm|exact Hq2|exact Hp2]. }
  assert (records_of s3 = mkRecords (os_orders s) (<[g := group]> (os_group_by_id s))
    (drop_intent i id (add_intent i id g (os_group_id_by_strategy_intent s)))) as Hrec3.
  { unfold records_of, s3. cbn. by rewrite F1, F2, F3. }
  clearbody s3. wp_step. unfold release_group_capital. do 2 wp_step.
  assert (group_at g s3 = group) as ->.
  { injection Hrec3 as _ G2 _. unfold group_at. by rewrite G2, lookup_insert_eq. }
  wp_step. rewrite <- Hi in Hm3 |- *. eapply wp_mono; [eapply group_release_spec; [done|lia|by rewrite Hi|exact Hm3]|].
  intros group' s4 Hm4. wp_steps. pose proof Hm4 as (_ & Hrec4 & _). rewrite Hrec3 in Hrec4. injection Hrec4 as G1 G2 G3.
  replace (mkRecords _ _ _) with (records_of ((s4 ⟪ os_group_by_id ::= alter (λ _, group') g ⟫)
    ⟪ os_group_by_id ::= delete g ⟫)).
  { by eapply moved_records; [exact Hm4|..]. }
  unfold records_of. cbn. rewrite G1, G2, G3, delete_alter_eq, delete_insert_id by done. by rewrite Hi.
Qed.

(** The messages after the batch was sent. *)
Lemma announce_spec group legs ts recv r cs s1 : moved i r cs (filed group legs) s s1 →
  wp (upd_group g (λ x, x ⟪ gr_execution_state := kPENDING_VENUE ⟫ ⟪ gr_last_update_ts_ns := ts ⟫);;
      tele (λ t, t ⟪ tm_strategy_intents_processed ::= incr ⟫);;
      let p := ic_strategy_index (gi_context intent) in
      ensure_strategy_portfolio hash_order p;;
      upd_portfolio p (λ x, x ⟪ pf_open_order_count ::= λ n, u32 (n + gi_leg_count intent) ⟫);;
      admitted ← gets (group_at g);
      emit_group_admission_response clk admitted kADMISSION_ACCEPTED kREJECT_NONE recv;;
      emit_group_update g ts;;
      emit_strategy_portfolio_update p ts)
     (λ _, moved i r cs (filed (group ⟪ gr_execution_state := kPENDING_VENUE ⟫ ⟪ gr_last_update_ts_ns := ts ⟫) legs) s) s1.
Proof.
  intros Hm. pose proof Hm as (_ & Hrec & _). injection Hrec as E1 E2 E3. wp_step. unfold wp at 1.
  eapply wp_moved; [foot_auto
    |unfold emit_group_admission_response, emit_group_update, emit_group_state_update, tele; reserved_auto| |by intros _].
  replace (filed (group ⟪ _ := _ ⟫ ⟪ _ := _ ⟫) legs) with (records_of (s1 ⟪ os_group_by_id ::=
    alter (λ x, x ⟪ gr_execution_state := kPENDING_VENUE ⟫ ⟪ gr_last_update_ts_ns := ts ⟫) g ⟫)).
  - by eapply moved_records; [exact Hm|..].
  - unfold records_of, filed. cbn. by rewrite E1, E2, E3, alter_insert_eq.
Qed.
End Submit.

(** ** The outcomes *)

(** Nothing was sent, filed or reserved, and the intent can be tried again. *)
Definition group_refused s s' : Prop :=
  sent_commands s' = sent_commands s ∧ os_orders s' = os_orders s ∧ os_group_by_id s' = os_group_by_id s ∧
  (∀ j id, intent_of (os_group_id_by_strategy_intent s') j id = intent_of (os_group_id_by_strategy_intent s) j id) ∧
  ∀ j, reserved_for j s' = reserved_for j s.

Definition group_accepted (intent : GroupOrderIntent) s s' : Prop :=
  let i := ic_strategy_index (gi_context intent) in
  let g := os_next_oms_group_id s in
  let b := os_next_oms_request_id s in
  ∃ ts r,
    let legs := built g ts 0 (incr b) (Admission.legs_of intent) in
    Admission.admissible intent (clk (S (os_clock_reads s))) r s ∧ r ≤ available_for hash_order i s ∧
    sent_commands s' = sent_commands s ++ [KcSubmitBatch (make_batch g b ts intent legs)] ∧
    (∀ l, l ∈ legs → os_orders s' !! bl_request_id l = Some (bl_record l)) ∧
    (∀ k, k ∉ ids legs → os_orders s' !! k = os_orders s !! k) ∧
    os_group_by_id s' = <[g := (make_group g b ts r intent legs) ⟪ gr_capital_released := false ⟫
      ⟪ gr_execution_state := kPENDING_VENUE ⟫ ⟪ gr_last_update_ts_ns := ts ⟫]> (os_group_by_id s) ∧
    (∀ j id, intent_of (os_group_id_by_strategy_intent s') j id =
       if decide (j = i ∧ id = ic_group_intent_id (gi_context intent)) then Some g
       else intent_of (os_group_id_by_strategy_intent s) j id) ∧
    ∀ j, reserved_for j s' = reserved_for j s + if decide (j = i) then r else 0.

Lemma group_refused_intro s s' : refused s s' → group_refused s s'.
Proof. intros (H1 & H2 & H3). injection H2 as E1 E2 E3. split_and!; try done. intros j id. by rewrite E3. Qed.

Lemma reject_group_reserved intent ts r : rel same_reserved (reject_group (Q := Q) clk intent ts r).
Proof. unfold reject_group, emit_group_admission_response, tele. reserved_auto. Qed.

Lemma reject_refused intent recv reason s s1 : refused s s1 →
  wp (reject_group clk intent recv reason) (λ _ s', group_refused s s') s1.
Proof.
  intros H. eapply wp_both; [foot_auto|apply reject_group_reserved|]. intros _ s' ??.
  apply group_refused_intro. by eapply refused_keep.
Qed.

(** The intents after a rollback. *)
Lemma rolled_back_refused intent g s s1 s2 :
  let i := ic_strategy_index (gi_context intent) in
  let id := ic_group_intent_id (gi_context intent) in
  intent_of (os_group_id_by_strategy_intent s) i id = None →
  moved i 0 [] (mkRecords (os_orders s) (os_group_by_id s)
    (drop_intent i id (add_intent i id g (os_group_id_by_strategy_intent s)))) s s1 →
  same_book s1 s2 → same_reserved s1 s2 → group_refused s s2.
Proof.
  intros i id Hn Hm B R. destruct (moved_keep _ _ _ _ _ _ _ Hm B R) as (H1 & H2 & H3 & _). rewrite app_nil_r in H1.
  injection H2 as E1 E2 E3. split_and!; try done.
  - intros j id'. rewrite E3, drop_intent_lookup. case_decide as Hj; [destruct Hj as [-> ->]; by rewrite Hn|].
    rewrite add_intent_lookup by done. by rewrite decide_False.
  - intros j. rewrite H3. case_decide; lia.
Qed.

Lemma submit_group_spec intent g b ts recv group legs s s1 :
  let i := ic_strategy_index (gi_context intent) in
  let r := gr_reserved_capital_ticks group in
  intent_of (os_group_id_by_strategy_intent s) i (ic_group_intent_id (gi_context intent)) = None →
  (∀ k, k ∈ ids legs → os_orders s !! k = None) → 0 ≤ reserved_for i s →
  ic_strategy_index (gr_context group) = i → gr_capital_released group = false → 0 ≤ r ≤ I64_MAX →
  moved i r [] (records_of s) s s1 →
  wp (submit_group clk hash_order g b ts recv intent group legs) (λ _ s', group_refused s s' ∨
    moved i r [KcSubmitBatch (make_batch g b ts intent legs)]
      (filed intent g s (group ⟪ gr_execution_state := kPENDING_VENUE ⟫ ⟪ gr_last_update_ts_ns := ts ⟫) legs) s s') s1.
Proof.
  intros i r Hn Hfresh Hres Hi Hrel Hr Hm. unfold submit_group. do 2 wp_step. pose proof Hm as (_ & Hrec & _).
  injection Hrec as E1 E2 E3. rewrite E2. case_bool_decide as Hg; cbn [negb].
  2: { wp_step. rewrite <- Hi in Hm. eapply wp_mono; [eapply group_release_spec; [done|done|by rewrite Hi|exact Hm]|].
    cbv beta. intros _ s2 Hm2. eapply wp_mono; [apply reject_refused; by eapply moved_refused|]. by left. }
  do 2 wp_step. wp_step. eapply wp_mono; [by apply register_spec|]. cbv beta. intros _ s2 Hm2.
  wp_step. eapply wp_mono; [apply send_kalshi_spec|]. intros sent s3 (F1 & F2 & F3).
  pose proof (moved_send _ _ _ _ _ _ _ _ Hm2 F1 F2 F3) as Hm3. destruct sent; cbn [negb].
  - eapply wp_mono; [by apply announce_spec|]. cbv beta. intros _ s' H. by right.
  - wp_step. eapply wp_mono; [eapply rollback_spec; done|]. cbv beta. intros _ s4 Hm4.
    eapply wp_both; [foot_auto|apply reject_group_reserved|]. intros _ s5 B R. left. by eapply rolled_back_refused.
Qed.

Lemma handle_group_order_spec intent s :
  let i := ic_strategy_index (gi_context intent) in
  let id := ic_group_intent_id (gi_context intent) in
  Forall (λ leg, is_i64 (no_quantity_lots leg)) (gi_new_orders intent) → is_i64 (Admission.offered i s) →
  0 ≤ os_next_oms_request_id s → os_next_oms_request_id s + 1 + Z.of_nat (length (gi_new_orders intent)) ≤ U64_MAX →
  (∀ k, os_next_oms_request_id s ≤ k → os_orders s !! k = None) →
  (find_group_by_intent i id s = None → intent_of (os_group_id_by_strategy_intent s) i id = None) →
  0 ≤ reserved_for i s →
  wp (handle_group_order clk hash_order intent) (λ _ s', group_refused s s' ∨ group_accepted intent s s') s.
Proof.
  intros i id Hq Hoff H0 Hmax Hfresh Hidx Hres. unfold handle_group_order. wp_step. unfold wp at 1.
  set (s0 := (now_ns clk s).2). wp_step. unfold wp at 1.
  set (check := (check_group_admission clk intent s0).1). set (s1 := (check_group_admission clk intent s0).2).
  assert (untouched s s1 ∧ os_next_oms_request_id s1 = os_next_oms_request_id s ∧
          os_next_oms_group_id s1 = os_next_oms_group_id s) as (Hu & Hb & Hg).
  { unfold s1, check_group_admission, mbind, M_bind, gets, mret, M_ret.
    destruct (check_group_preconditions intent s0); by repeat split. }
  pose proof (Admission.admitted_admissible clk intent s0 Hq Hoff) as Had. fold check in Had. cbv zeta in Had.
  clearbody s1 check. change ((now_ns clk s).1) with (clk (os_clock_reads s)).
  assert (∀ s2 : OmsState, untouched s s2 → refused s s2) as Hun.
  { intros s2 (B & P & _). apply refused_intro; [done|by apply same_portfolios_reserved]. }
  destruct (ac_accepted check); cbn [negb]; [specialize (Had eq_refl)|].
  2: { eapply wp_mono; [by apply reject_refused, Hun|]. by left. }
  do 4 wp_step. wp_step. unfold wp at 1. wp_step. unfold wp at 1. cbn [fst snd fresh_request_id now_ns].
  wp_step. eapply wp_mono; [apply build_legs_spec|]. cbn. rewrite Hb, Hg. cbv beta. intros legs s2 [Hu2 Hl].
  assert (untouched s s2) as Hu3 by (etrans; [exact Hu|]; exact Hu2).
  destruct legs as [legs|]; [|eapply wp_mono; [by apply reject_refused, Hun|]; by left].
  specialize (Hl legs eq_refl). fold (Admission.legs_of intent) in Hl.
  set (ts := clk (os_clock_reads s1)) in *. set (r := ac_required_capital_ticks check) in *.
  assert (0 < r ≤ I64_MAX) as Hr by apply Had.
  assert (NoDup (ids legs) ∧ ∀ k, k ∈ ids legs → os_orders s !! k = None) as [Hnd Hids].
  { assert (incr (os_next_oms_request_id s) = os_next_oms_request_id s + 1) as E
      by (unfold incr; apply u64_id; unfold is_u64; lia).
    destruct (built_ids (os_next_oms_group_id s) ts (Admission.legs_of intent) 0 (incr (os_next_oms_request_id s)))
      as [Hnd Hge]; [lia|unfold Admission.legs_of; rewrite length_take; lia|].
    rewrite Hl. split; [done|]. intros k Hk. apply Hfresh. apply Hge in Hk. lia. }
  set (group := make_group _ _ _ _ _ _).
  wp_step. eapply wp_mono; [apply (group_reserve_spec group s s2 Hu3); change (0 ≤ r); lia|].
  cbv beta zeta. intros res s3 [[E Href]|(-> & Hav & _ & Hm)].
  { rewrite E. cbn [negb]. eapply wp_mono; [by apply reject_refused|]. by left. }
  cbn [fst snd negb]. change (gr_reserved_capital_ticks group) with r in *.
  change (ic_strategy_index (gr_context group)) with i in *.
  eapply wp_mono; [apply submit_group_spec with (s := s); try done; [by apply Hidx, Had|change (0 ≤ r ≤ I64_MAX); lia]|].
  cbv beta. intros _ s' [H|(H1 & H2 & H3 & _)]; [by left|right].
  injection H2 as F1 F2 F3. exists ts, r. rewrite <- Hl. split_and!; try done; try lia.
  - by destruct Had; split.
  - apply Hav.
  - intros l Hin. rewrite F1. by apply file_legs_lookup.
  - intros k Hk. rewrite F1. by apply file_legs_other.
  - intros j id'. rewrite F3. by apply add_intent_lookup, Hidx, Had.
Qed.

(** A group intent is submitted whole or not at all.  Either nothing is sent,
    filed or reserved and the intent may be tried again: also when an id is taken, the
    capital is short or the command queue is full and everything already filed has to
    be undone.  Or the group is admissible, its required capital is available and
    reserved, for its strategy only, exactly one batch command with one order per leg
    was sent, and the group and each leg are filed under the new ids, leaving every
    other record alone. *)
Theorem group_order_outcome intent s :
  let i := ic_strategy_index (gi_context intent) in
  let id := ic_group_intent_id (gi_context intent) in
  Forall (λ leg, is_i64 (no_quantity_lots leg)) (gi_new_orders intent) → is_i64 (Admission.offered i s) →
  0 ≤ os_next_oms_request_id s → os_next_oms_request_id s + 1 + Z.of_nat (length (gi_new_orders intent)) ≤ U64_MAX →
  (∀ k, os_next_oms_request_id s ≤ k → os_orders s !! k = None) →
  (find_group_by_intent i id s = None → intent_of (os_group_id_by_strategy_intent s) i id = None) →
  0 ≤ reserved_for i s →
  let s' := (handle_group_order clk hash_order intent s).2 in
  group_refused s s' ∨ group_accepted intent s s'.
Proof. apply handle_group_order_spec. Qed.
End GroupOrder.

Import OmsDemo.

Lemma group_order_outcome_witness :
  let s := pump (trading_oms [] []) in
  group_accepted clock order group_intent s (handle_group_order clock order group_intent s).2.
Proof.
  cbv zeta. set (s := pump (trading_oms [] [])).
  assert (length (sent_commands (handle_group_order clock order group_intent s).2) = 1%nat) as H1
    by (vm_compute; reflexivity).
  assert (length (sent_commands s) = 0%nat) as H0 by (vm_compute; reflexivity).
  assert (os_next_oms_request_id s = 1) as Hid by (vm_compute; reflexivity).
  assert (map_to_list (os_orders s) = []) as Ho by (vm_compute; reflexivity).
  assert (intent_of (os_group_id_by_strategy_intent s) 0 5 = None) as Hi by (vm_compute; reflexivity).
  assert (Admission.offered 0 s = 1000000) as Hoff by (vm_compute; reflexivity).
  assert (reserved_for 0 s = 0) as Hr by (vm_compute; reflexivity).
  revert H1 H0 Hid Ho Hi Hoff Hr. clearbody s. intros H1 H0 Hid Ho Hi Hoff Hr. apply map_to_list_empty_iff in Ho.
  destruct (group_order_outcome clock order group_intent s) as [[H _]|H]; [..|by rewrite H, H0 in H1|exact H].
  - repeat constructor; unfold is_i64; cbn; lia.
  - change (is_i64 (Admission.offered 0 s)). rewrite Hoff. unfold is_i64. lia.
  - lia.
  - rewrite Hid. cbn. lia.
  - intros k _. by rewrite Ho, lookup_empty.
  - by intros _.
  - change (0 ≤ reserved_for 0 s). lia.
Defined.
End GroupOrder.
