(* ===== verification/OmsFills.v ===== *)
(** * OmsFills: fills are accounted exactly once

    The private feed may repeat a fill.  The theorems of this file say what the
    first report of a trade does to the positions, and that a repeated report does
    nothing to them.

    At the end, Module [Repair]: unwinding a broken group. *)

From S2P Require Import Prelude Spsc OmsTypes OmsRisk Oms OmsDemo OmsFrame.

Module Fills.
Import Risk Oms Footprint.

Section Fills.
Context {Q : Type → Type} `{!PushQueue Q}.
Variable clk : nat → Z.
Variable hash_order : list Z → list Z.
Implicit Types s : OmsState (Q := Q).

(** The order an event of the private feed is about. *)
Definition event_order (e : PrivateWsOrderEvent) s : option Z :=
  match find_order_by_client (pw_client_order_id e) s with
  | Some k => Some k
  | None => find_order_by_exchange (pw_exchange_order_id e) s
  end.

(** The signed YES exposure a fill adds: the event's outcome and action, or the
    order's where the event leaves them open; [None] for an event that is no
    well-formed trade. *)
Definition fill_delta (o : OrderRecord) (e : PrivateWsOrderEvent) : option Z :=
  let outcome := if bool_decide (pw_outcome e = kOUTCOME_UNKNOWN) then od_outcome o else pw_outcome e in
  let action := if bool_decide (pw_action e = kACTION_UNKNOWN) then od_action o else pw_action e in
  if (0 <? pw_last_fill_price_ticks e) && (pw_last_fill_price_ticks e <? kPRICE_TICKS_PER_DOLLAR)
  then signed_yes_lots outcome action (pw_last_fill_qty_lots e) else None.

Definition fill_market (o : OrderRecord) (e : PrivateWsOrderEvent) : Z :=
  if pw_market_id e =? 0 then od_market_id o else pw_market_id e.

Definition order_strategy (o : OrderRecord) : Z := ic_strategy_index (cx_context (od_context o)).

Definition position_of (i m : Z) s : Z := ps_net_position_lots (position_at i m s).

(** ** Frames *)

Definition same_positions s s' : Prop :=
  os_position_by_strategy_and_market s' = os_position_by_strategy_and_market s.

#[local] Instance same_positions_frame : RepairFrame same_positions.
Proof. repeat split; unfold same_positions; repeat intro; congruence. Qed.

Definition same_trades s s' : Prop := os_accounted_trade_ids s' = os_accounted_trade_ids s.

#[local] Instance same_trades_frame : RepairFrame same_trades.
Proof. repeat split; unfold same_trades; repeat intro; congruence. Qed.

Lemma same_position_of i m s s' : same_positions s s' → position_of i m s' = position_of i m s.
Proof. unfold same_positions, position_of, position_at. by intros ->. Qed.

(** ** Positions *)

Lemma ensure_position_spec i m ev s :
  wp (ensure_strategy_market_position (Q := Q) i m ev) (λ _ s',
    (∀ i' m', position_of i' m' s' = position_of i' m' s) ∧
    ∃ ps p, os_position_by_strategy_and_market s' !! i = Some ps ∧ ps !! m = Some p) s.
Proof.
  unfold ensure_strategy_market_position. wp_steps. unfold position_of, position_at. cbn.
  set (ps := default ∅ (os_position_by_strategy_and_market s !! i)).
  split.
  - intros i' m'. destruct (decide (i = i')) as [<-|Hne].
    + rewrite lookup_partial_alter_eq. cbn [default from_option id]. fold ps.
      destruct (ps !! m) as [p|] eqn:Ep; [done|].
      destruct (decide (m = m')) as [<-|Hm]; [by rewrite lookup_insert_eq, Ep|by rewrite lookup_insert_ne].
    + by rewrite lookup_partial_alter_ne.
  - rewrite lookup_partial_alter_eq. fold ps. destruct (ps !! m) as [p|] eqn:Ep.
    + by exists ps, p.
    + eexists _, _. split; [done|]. apply lookup_insert_eq.
Qed.

Lemma upd_position_spec i m f s ps p :
  os_position_by_strategy_and_market s !! i = Some ps → ps !! m = Some p →
  wp (upd_position (Q := Q) i m f) (λ _ s', ∀ i' m', position_of i' m' s' =
    if decide (i' = i ∧ m' = m) then ps_net_position_lots (f p) else position_of i' m' s) s.
Proof.
  intros Hi Hm. unfold upd_position. wp_steps. intros i' m'. unfold position_of, position_at. cbn.
  destruct (decide (i' = i ∧ m' = m)) as [[-> ->]|Hne].
  - by rewrite lookup_alter_eq, Hi; cbn; rewrite lookup_alter_eq, Hm.
  - destruct (decide (i = i')) as [<-|Hi']; [|by rewrite lookup_alter_ne].
    rewrite lookup_alter_eq, Hi. cbn. rewrite lookup_alter_ne; [done|naive_solver].
Qed.

Lemma wp_same_positions {A} (m : M (OmsState (Q := Q)) A) Φ s :
  rel same_positions m → (∀ a s', (∀ i m, position_of i m s' = position_of i m s) → same_positions s s' → Φ a s') → wp m Φ s.
Proof. intros Hm HΦ. eapply wp_rel; [exact Hm|]. intros a s' H. apply HΦ; [|done]. intros. by apply same_position_of. Qed.

(** ** One fill *)

(** [account_fill] moves one position, by the fill's exposure. *)
Lemma account_fill_positions k e s o :
  os_orders s !! k = Some o → pw_last_fill_qty_lots e ≤ I64_MAX →
  position_of (order_strategy o) (od_market_id o) s ≠ I64_MIN →
  wp (account_fill hash_order k e) (λ _ s', ∀ i m, position_of i m s' = position_of i m s +
    if decide (i = order_strategy o ∧ m = od_market_id o) then default 0 (fill_delta o e) else 0) s.
Proof.
  intros Ho Hq Hmin. unfold account_fill. wp_steps. unfold order_at. rewrite Ho. cbn [default from_option id].
  assert (∀ i m, position_of i m s = position_of i m s +
    (if decide (i = order_strategy o ∧ m = od_market_id o) then 0 else 0)) as Hnone by (intros; case_match; lia).
  unfold fill_delta. set (outcome := if bool_decide (pw_outcome e = _) then _ else _).
  set (action := if bool_decide (pw_action e = _) then _ else _).
  destruct (_ || _) eqn:Eguard.
  { wp_steps. replace (default 0 _) with 0; [done|]. symmetry. unfold signed_yes_lots.
    destruct (Z.ltb_spec 0 (pw_last_fill_price_ticks e)); [|done].
    destruct (Z.ltb_spec (pw_last_fill_price_ticks e) kPRICE_TICKS_PER_DOLLAR); [|done].
    destruct (Z.leb_spec (pw_last_fill_qty_lots e) 0); [done|]. cbn [andb orb].
    rewrite Z.geb_leb in Eguard. destruct (Z.leb_spec (pw_last_fill_price_ticks e) 0); [lia|].
    destruct (Z.leb_spec kPRICE_TICKS_PER_DOLLAR (pw_last_fill_price_ticks e)); [lia|].
    cbn [orb] in Eguard. by rewrite Eguard. }
  rewrite Z.geb_leb in Eguard. repeat rewrite orb_false_iff in Eguard. destruct Eguard as [[[[E1 E2] E3] E4] E5].
  rewrite (proj2 (Z.ltb_lt 0 _)), (proj2 (Z.ltb_lt _ kPRICE_TICKS_PER_DOLLAR)) by lia. cbn [andb].
  destruct (signed_yes_lots outcome action (pw_last_fill_qty_lots e)) as [d|] eqn:Ed; [|by wp_steps].
  destruct (signed_yes_lots_abs _ _ _ _ Ed) as (Hpos & Habs & _).
  wp_step. apply wp_same_positions; [auto with footprint|]. intros _ s1 Hp1 _.
  wp_step. eapply wp_mono; [apply ensure_position_spec|]. intros _ s2 (Hp2 & ps & p & Hi & Hm).
  wp_step. apply wp_same_positions; [auto with footprint|]. intros _ s3 Hp3 Hs3.
  fold (order_strategy o) in *. unfold same_positions in Hs3. rewrite <- Hs3 in Hi.
  do 2 wp_step. 
  assert (position_at (order_strategy o) (od_market_id o) s3 = p) as Hat
    by (unfold position_at; by rewrite Hi; cbn; rewrite Hm).
  rewrite Hat. assert (ps_net_position_lots p = position_of (order_strategy o) (od_market_id o) s) as Hnet
    by (rewrite <- Hp1, <- Hp2, <- Hp3; unfold position_of; by rewrite Hat).
  destruct (absolute_lots (ps_net_position_lots p)) as [old_abs|] eqn:Ea;
    [|unfold absolute_lots in Ea; destruct (Z.eqb_spec (ps_net_position_lots p) I64_MIN); congruence].
  destruct (absolute_lots d) as [delta_abs|] eqn:Eb;
    [|unfold absolute_lots in Eb; destruct (Z.eqb_spec d I64_MIN); [lia|done]].
  destruct (fill_position _ _ _ _ _) as [average pnl]. cbv zeta.
  wp_step. eapply wp_mono; [eapply upd_position_spec; [exact Hi|exact Hm]|]. cbv beta. intros u s4 Hp4.
  eapply wp_same_positions; [|intros _ s5 Hp5 _].
  - foot_auto.
  - intros i m. rewrite Hp5, Hp4. cbn [default from_option id].
    destruct (decide (i = order_strategy o ∧ m = od_market_id o)) as [[-> ->]|Hd].
    + rewrite <- Hnet. cbn. lia.
    + rewrite Hp3, Hp2, Hp1. lia.
Qed.

Lemma fill_transition_facts e o :
  order_strategy (fill_transition e o) = order_strategy o ∧ od_market_id (fill_transition e o) = fill_market o e ∧
  fill_delta (fill_transition e o) e = fill_delta o e.
Proof.
  unfold fill_delta, fill_transition, fill_market, order_strategy, clear_pending_command.
  destruct (bool_decide (pw_outcome e = kOUTCOME_UNKNOWN)), (pw_market_id e =? 0); cbn; repeat case_match; done.
Qed.

(** Learning the exchange's id of an order does not touch what a fill depends on. *)
Lemma learn_spec k id s o : os_orders s !! k = Some o →
  wp (learn_exchange_id (Q := Q) k id) (λ _ s', same_positions s s' ∧ same_trades s s' ∧
    ∃ x, os_orders s' !! k = Some (o ⟪ od_exchange_order_id := x ⟫)) s.
Proof.
  intros Ho. unfold learn_exchange_id, when. wp_steps. case_match.
  - unfold upd_order. wp_steps. split; [done|]. split; [done|]. exists (Some id). cbn. by rewrite lookup_alter_eq, Ho.
  - wp_steps. split; [done|]. split; [done|]. exists (od_exchange_order_id o). rewrite Ho. by destruct o.
Qed.

Lemma account_fill_trades k e : rel same_trades (account_fill (Q := Q) hash_order k e).
Proof.
  assert (∀ i m ev, rel same_trades (ensure_strategy_market_position (Q := Q) i m ev)) by (intros ???; by intros s).
  assert (∀ i m f, rel same_trades (upd_position (Q := Q) i m f)) by (intros ???; by intros s).
  unfold account_fill. foot_auto.
Qed.

Lemma fill_handler_spec e k s o :
  pw_event_kind e = kFILL → event_order e s = Some k → os_orders s !! k = Some o →
  id_empty (pw_trade_id e) = false → pw_trade_id e ∉ os_accounted_trade_ids s →
  pw_last_fill_qty_lots e ≤ I64_MAX → position_of (order_strategy o) (fill_market o e) s ≠ I64_MIN →
  wp (handle_private_ws clk hash_order e) (λ _ s',
    os_accounted_trade_ids s' = {[pw_trade_id e]} ∪ os_accounted_trade_ids s ∧
    ∀ i m, position_of i m s' = position_of i m s +
      if decide (i = order_strategy o ∧ m = fill_market o e) then default 0 (fill_delta o e) else 0) s.
Proof.
  intros Hkind Hfound Ho Hid Hnew Hq Hmin. unfold handle_private_ws, tele. rewrite Hkind. cbn [bool_decide decide].
  change (bool_decide (kFILL = kMARKET_POSITION)) with false. cbv iota. do 4 wp_step.
  match goal with |- context [match ?x with Some _ => _ | None => _ end] =>
    replace x with (Some k) by (symmetry; exact Hfound) end.
  wp_step. eapply wp_mono; [apply learn_spec; exact Ho|]. intros _ s1 (Hp1 & Ht1 & x & Ho1).
  rewrite Hid. do 2 wp_step. unfold same_trades in Ht1. cbn in Ht1. rewrite bool_decide_eq_false_2 by (by rewrite Ht1).
  unfold upd_order. do 5 wp_step.
  destruct (fill_transition_facts e (o ⟪ od_exchange_order_id := x ⟫)) as (F1 & F2 & F3).
  match goal with |- wp _ _ ?s => set (s2 := s) end.
  assert (os_orders s2 !! k = Some (fill_transition e (o ⟪ od_exchange_order_id := x ⟫))) as Ho2
    by (subst s2; cbn; by rewrite lookup_alter_eq, Ho1).
  assert (∀ i m, position_of i m s2 = position_of i m s) as Hp2 by (intros; exact (same_position_of i m _ _ Hp1)).
  assert (position_of (order_strategy (fill_transition e (o ⟪ od_exchange_order_id := x ⟫)))
    (od_market_id (fill_transition e (o ⟪ od_exchange_order_id := x ⟫))) s2 ≠ I64_MIN) as Hmin2
    by (rewrite F1, F2, Hp2; exact Hmin).
  pose proof (account_fill_positions k e s2 _ Ho2 Hq Hmin2) as Haf. rewrite F1, F2, F3 in Haf.
  eapply wp_mono; [apply wp_and; [|exact Haf];
    apply (wp_rel same_trades _ (λ _ s3, same_trades s2 s3)); [apply account_fill_trades|done]|].
  - intros u s3 [Ht3 Hp3]. apply (wp_mono _ (λ _ s4, same_trades s3 s4 ∧ same_positions s3 s4)).
    + split; [apply f_after_order_event, _|apply f_after_order_event, _].
    + intros _ s4 [Ht4 Hp4]. split.
      * unfold same_trades in *. rewrite Ht4, Ht3. subst s2. cbn. by rewrite Ht1.
      * intros i m. rewrite (same_position_of i m _ _ Hp4), Hp3, Hp2. done.
Qed.

(** What a repeated report leaves alone. *)
Definition unmoved s s' : Prop :=
  os_position_by_strategy_and_market s' = os_position_by_strategy_and_market s ∧
  os_portfolio_by_strategy s' = os_portfolio_by_strategy s ∧ os_group_by_id s' = os_group_by_id s ∧
  os_accounted_trade_ids s' = os_accounted_trade_ids s ∧
  os_kalshi_command_queue s' = os_kalshi_command_queue s ∧
  os_strategy_response_queues s' = os_strategy_response_queues s ∧
  ∀ k, ((λ o, o ⟪ od_exchange_order_id := None ⟫) <$> os_orders s' !! k) =
       ((λ o, o ⟪ od_exchange_order_id := None ⟫) <$> os_orders s !! k).

Lemma learn_unmoved k id s : unmoved s (learn_exchange_id k id s).2.
Proof.
  change (wp (learn_exchange_id k id) (λ _ s', unmoved s s') s). unfold learn_exchange_id, when. wp_steps. case_match.
  - unfold upd_order. wp_steps. repeat split. intros k'. cbn. destruct (decide (k' = k)) as [->|Hne].
    + rewrite lookup_alter_eq. by destruct (os_orders s !! k).
    + by rewrite lookup_alter_ne.
  - by wp_steps.
Qed.

Lemma fill_duplicate_spec e s : pw_event_kind e = kFILL → pw_trade_id e ∈ os_accounted_trade_ids s →
  wp (handle_private_ws clk hash_order e) (λ _ s', unmoved s s') s.
Proof.
  intros Hkind Hdup. unfold handle_private_ws, tele. rewrite Hkind.
  change (bool_decide (kFILL = kMARKET_POSITION)) with false. cbv iota. do 4 wp_step.
  case_match; [|by wp_steps]. wp_step. eapply (wp_rel (λ s0 s', unmoved s0 s')); [intros ?; apply learn_unmoved|].
  intros _ s1 Hs1. change (unmoved s s1) in Hs1.
  destruct (id_empty (pw_trade_id e)); [wp_steps; exact Hs1|]. do 2 wp_step.
  rewrite bool_decide_eq_true_2 by (by destruct Hs1 as (_ & _ & _ & -> & _)). wp_steps. exact Hs1.
Qed.

(** C4: the first report of a trade moves the position of the order's strategy in
    the traded market by the signed YES lots of the trade, moves no other position,
    and records the trade as accounted, whatever else the fill sets in motion
    (terminal accounting, closing or repairing its group). *)
Theorem fill_moves_position e k s o :
  pw_event_kind e = kFILL → event_order e s = Some k → os_orders s !! k = Some o →
  id_empty (pw_trade_id e) = false → pw_trade_id e ∉ os_accounted_trade_ids s →
  pw_last_fill_qty_lots e ≤ I64_MAX → position_of (order_strategy o) (fill_market o e) s ≠ I64_MIN →
  let s' := (handle_private_ws clk hash_order e s).2 in
  os_accounted_trade_ids s' = {[pw_trade_id e]} ∪ os_accounted_trade_ids s ∧
  ∀ i m, position_of i m s' = position_of i m s +
    if decide (i = order_strategy o ∧ m = fill_market o e) then default 0 (fill_delta o e) else 0.
Proof. intros. by apply (fill_handler_spec e k s o). Qed.

(** A report of an already accounted trade changes no position, no portfolio, no
    group, no reservation and no order state: only the order's exchange id may be
    learned from it, and nothing is sent. *)
Theorem duplicate_fill_ignored e s :
  pw_event_kind e = kFILL → pw_trade_id e ∈ os_accounted_trade_ids s →
  let s' := (handle_private_ws clk hash_order e s).2 in
  os_position_by_strategy_and_market s' = os_position_by_strategy_and_market s ∧
  os_portfolio_by_strategy s' = os_portfolio_by_strategy s ∧ os_group_by_id s' = os_group_by_id s ∧
  os_accounted_trade_ids s' = os_accounted_trade_ids s ∧
  os_kalshi_command_queue s' = os_kalshi_command_queue s ∧
  os_strategy_response_queues s' = os_strategy_response_queues s ∧
  ∀ k, ((λ o, o ⟪ od_exchange_order_id := None ⟫) <$> os_orders s' !! k) =
       ((λ o, o ⟪ od_exchange_order_id := None ⟫) <$> os_orders s !! k).
Proof.
  intros Hkind Hdup. cbv zeta. apply (fill_duplicate_spec e s Hkind Hdup).
Qed.
End Fills.

Import OmsDemo.

Definition demo_fill : PrivateWsOrderEvent := fill_event "t1" "px-2" 1 200 kYES.

Lemma fill_moves_position_witness :
  position_of 0 1 (handle_private_ws clock order demo_fill submitted_oms).2 = 200 ∧
  "t1" ∈ os_accounted_trade_ids (handle_private_ws clock order demo_fill submitted_oms).2.
Proof.
  assert ((λ o, (order_strategy o, fill_market o demo_fill, fill_delta o demo_fill)) <$>
    os_orders submitted_oms !! 2 = Some (0, 1, Some 200)) as Ho by (vm_compute; reflexivity).
  assert (event_order demo_fill submitted_oms = Some 2) as Hf by (vm_compute; reflexivity).
  assert (elements (os_accounted_trade_ids submitted_oms) = []) as Ht by (vm_compute; reflexivity).
  assert (position_of 0 1 submitted_oms = 0) as Hp by (vm_compute; reflexivity).
  revert Ho Hf Ht Hp. generalize submitted_oms.
  intros s (o & Ho & E)%fmap_Some Hf Ht Hp. injection E as E1.
  assert (pw_trade_id demo_fill ∉ os_accounted_trade_ids s) as Hnew by (rewrite <- elem_of_elements, Ht; apply not_elem_of_nil).
  destruct (fill_moves_position clock order demo_fill 2 s o eq_refl Hf Ho eq_refl Hnew) as [H1 H2].
  - cbn. lia.
  - rewrite <- E1. change (position_of 0 1 s ≠ I64_MIN). by rewrite Hp.
  - split; [|rewrite H1; set_solver]. by rewrite H2, <- E1, Hp.
Defined.

Lemma duplicate_fill_ignored_witness :
  let s := (handle_private_ws clock order demo_fill submitted_oms).2 in
  os_position_by_strategy_and_market (handle_private_ws clock order demo_fill s).2 =
  os_position_by_strategy_and_market s.
Proof.
  assert (elements (os_accounted_trade_ids (handle_private_ws clock order demo_fill submitted_oms).2) = ["t1"]) as Ht
    by (vm_compute; reflexivity).
  revert Ht. cbv zeta. generalize (handle_private_ws clock order demo_fill submitted_oms).2. intros s Ht.
  assert (pw_trade_id demo_fill ∈ os_accounted_trade_ids s) as Hold by (rewrite <- elem_of_elements, Ht; by left).
  exact (proj1 (duplicate_fill_ignored clock order demo_fill s eq_refl Hold)).
Defined.
End Fills.

(** ** Unwinding a broken group

    A repair round sends, per leg with residual exposure, at most one reduce-only
    fill-or-kill order whose exposure is exactly opposite to the residual. *)


Module Repair.
Import Risk Oms Footprint.

Section Repair.
Context {Q : Type → Type} `{!PushQueue Q, !PushQueueLaws Q}.
Variable hash_order : list Z → list Z.
Implicit Types s : OmsState (Q := Q).

Definition residuals (g : Z) s : list Z := gr_residual_yes_lots (group_at g s).
Definition sent_commands s : list OmsToKalshiCommand := q_sent (os_kalshi_command_queue s).
Definition command_leg (c : SubmitOrderCmd) : Z := ic_leg_index (no_context (so_new_order_intent c)).

(** The command [c] flattens its leg: given the residual exposures [rs], its own
    signed exposure is minus the residual of its leg, it may only reduce, and it
    cannot rest in the book. *)
Definition flattens (rs : list Z) (c : SubmitOrderCmd) : Prop :=
  so_reduce_only c = true ∧ no_time_in_force (so_new_order_intent c) = kFOK ∧
  ∃ residual, rs !! Z.to_nat (command_leg c) = Some residual ∧ residual ≠ 0 ∧
    signed_yes_lots (no_outcome (so_new_order_intent c)) (no_action (so_new_order_intent c))
      (no_quantity_lots (so_new_order_intent c)) = Some (- residual).

(** The order built for a residual has the opposite exposure. *)
Lemma repair_intent_flattens outcome action residual quantity :
  is_i64 residual → residual ≠ 0 → repair_action outcome residual = Some action →
  absolute_lots residual = Some quantity → quantity ≤ I64_MAX →
  signed_yes_lots outcome action (i64 quantity) = Some (- residual).
Proof.
  intros Hr Hne Ha Hq Hmax.
  assert (residual ≠ I64_MIN) as Hmin by (intros ->; discriminate Hq).
  rewrite absolute_lots_spec in Hq by done. injection Hq as <-.
  rewrite i64_id by (unfold is_i64; lia). unfold signed_yes_lots.
  destruct (Z.leb_spec (Z.abs residual) 0); [lia|]. unfold repair_action in Ha.
  destruct outcome; try done; destruct (Z.ltb_spec residual 0); injection Ha as <-;
    repeat case_bool_decide; try congruence; cbn; f_equal; lia.
Qed.

(** ** Frames *)

Definition same_commands s s' : Prop := os_kalshi_command_queue s' = os_kalshi_command_queue s.

#[local] Instance same_commands_frame : MessageFrame same_commands.
Proof. repeat split; unfold same_commands; repeat intro; congruence. Qed.

Lemma upd_group_commands g f : rel same_commands (upd_group (Q := Q) g f).
Proof. by intros s. Qed.
Lemma fresh_commands : rel same_commands (fresh_request_id (Q := Q)).
Proof. by intros s. Qed.
Hint Resolve upd_group_commands fresh_commands : footprint.

Lemma upd_group_residuals g f : (∀ x, gr_residual_yes_lots (f x) = gr_residual_yes_lots x) →
  rel (λ s s', residuals g s' = residuals g s) (upd_group (Q := Q) g f).
Proof.
  intros Hf s. unfold residuals, group_at. cbn. rewrite lookup_alter_eq.
  destruct (os_group_by_id s !! g); [apply Hf|done].
Qed.

Lemma send_kalshi_groups c s : wp (send_kalshi_command c) (λ b s',
  sent_commands s' = sent_commands s ++ (if b then [c] else []) ∧
  os_group_by_id s' = os_group_by_id s) s.
Proof.
  unfold wp, send_kalshi_command, sent_commands. pose proof (push_sent c (os_kalshi_command_queue s)) as Hp.
  destruct (q_push c _) as [b q]; cbn in *. split; [|done]. rewrite Hp. destruct b; [done|by rewrite app_nil_r].
Qed.

(** ** The submission loop *)

(** What the loop may add to the commands already sent. *)
Definition repair_commands (rs : list Z) (ixs : list nat) (cmds : list SubmitOrderCmd) : Prop :=
  Forall (flattens rs) cmds ∧ (command_leg <$> cmds) `sublist_of` (Z.of_nat <$> ixs).

Lemma repair_commands_skip rs i ixs cmds : repair_commands rs ixs cmds → repair_commands rs (i :: ixs) cmds.
Proof. intros [H1 H2]. split; [done|]. cbn. by apply sublist_cons. Qed.

Lemma repair_commands_nil rs ixs : repair_commands rs ixs [].
Proof. split; [done|apply sublist_nil_l]. Qed.

Lemma repair_commands_cons rs i ixs c cmds : flattens rs c → command_leg c = Z.of_nat i →
  repair_commands rs ixs cmds → repair_commands rs (i :: ixs) (c :: cmds).
Proof. intros Hc Hl [H1 H2]. split; [by constructor|]. cbn. rewrite Hl. by apply sublist_skip. Qed.

Lemma residual_at (rs : list Z) (i : nat) : default 0 (rs !! i) ≠ 0 → rs !! i = Some (default 0 (rs !! i)).
Proof. by destruct (rs !! i). Qed.

(** The step relation the loop needs: nothing sent, residuals unchanged. *)
Definition calm g s s' : Prop := sent_commands s' = sent_commands s ∧ residuals g s' = residuals g s.

Definition loop_post g rs ixs n s (n' : Z) s' : Prop :=
  residuals g s' = rs ∧ ∃ cmds, sent_commands s' = sent_commands s ++ (KcSubmit <$> cmds) ∧
  n' = n + Z.of_nat (length cmds) ∧ repair_commands rs ixs cmds.

Lemma loop_stop g rs ixs n s s' : residuals g s = rs → calm g s s' → loop_post g rs ixs n s n s'.
Proof.
  intros Hr [H1 H2]. split; [congruence|]. exists []. cbn. rewrite app_nil_r.
  split; [done|]. split; [lia|apply repair_commands_nil].
Qed.

#[local] Instance calm_preorder g : PreOrder (calm g).
Proof. split; unfold calm; repeat intro; intuition congruence. Qed.

Lemma upd_group_calm g f : (∀ x, gr_residual_yes_lots (f x) = gr_residual_yes_lots x) →
  rel (calm g) (upd_group (Q := Q) g f).
Proof. intros Hf s. split; [done|]. by apply upd_group_residuals. Qed.

Lemma fresh_calm g : rel (calm g) (fresh_request_id (Q := Q)).
Proof. by intros s. Qed.
Lemma add_order_calm g k r : rel (calm g) (add_order (Q := Q) k r).
Proof. by intros s. Qed.
Lemma remove_order_calm g k id : rel (calm g) (remove_order (Q := Q) k id).
Proof. by intros s. Qed.

Lemma wp_calm {A} g (m : M (OmsState (Q := Q)) A) Φ s0 s :
  rel (calm g) m → calm g s0 s → (∀ a s', calm g s0 s' → Φ a s') → wp m Φ s.
Proof. intros Hm H0 HΦ. eapply wp_rel; [exact Hm|]. intros a s' H. apply HΦ. by etrans. Qed.

(** One command went out, the loop goes on from there. *)
Lemma loop_continue g rs i ixs n s s1 n' s' c :
  sent_commands s1 = sent_commands s ++ [KcSubmit c] → flattens rs c → command_leg c = Z.of_nat i →
  loop_post g rs ixs (n + 1) s1 n' s' → loop_post g rs (i :: ixs) n s n' s'.
Proof.
  intros H1 Hc Hl (Hr & cmds & H2 & H3 & H4). split; [done|]. exists (c :: cmds). cbn.
  split; [by rewrite H2, H1, <- app_assoc|]. split; [lia|by apply repair_commands_cons].
Qed.

Lemma loop_skip g rs i ixs n s n' s' : loop_post g rs ixs n s n' s' → loop_post g rs (i :: ixs) n s n' s'.
Proof.
  intros (H1 & cmds & H2 & H3 & H4). split; [done|]. exists cmds. by split_and!; [..|apply repair_commands_skip].
Qed.

(** Sending one repair order and going on. *)
Lemma submit_one g rs i ixs ts n s s1 id client intent record :
  (∀ n s, residuals g s = rs → wp (submit_repair_orders g ixs ts n) (loop_post g rs ixs n s) s) →
  residuals g s = rs → calm g s s1 →
  let c := mkSubmitOrderCmd id client intent ts true in
  flattens rs c → command_leg c = Z.of_nat i →
  wp (add_order id record;;
      upd_group g (λ x, x ⟪ gr_active_repair_request_ids ::= <[i := id]> ⟫);;
      sent ← send_kalshi_command (KcSubmit c);
      if negb sent then
        upd_group g (λ x, x ⟪ gr_active_repair_request_ids ::= <[i := 0]> ⟫);;
        remove_order id client;;
        upd_group g (λ x, x ⟪ gr_venue_state_uncertain := n >? 0 ⟫);;
        mret n
      else submit_repair_orders g ixs ts (n + 1)) (loop_post g rs (i :: ixs) n s) s1.
Proof.
  intros IH Hr Hs1 c Hc Hl.
  wp_step. eapply wp_calm; [apply add_order_calm|exact Hs1|]. intros _ s2 Hs2.
  wp_step. eapply wp_calm; [by apply upd_group_calm|exact Hs2|]. intros _ s3 Hs3.
  wp_step. eapply wp_mono; [apply send_kalshi_groups|]. intros [] s4 [Hsent Hgroups]; cbn [negb].
  - eapply wp_mono; [apply IH|].
    + unfold residuals, group_at. rewrite Hgroups. exact (eq_trans (proj2 Hs3) Hr).
    + intros n' s'. apply loop_continue with (c := c); [|done|done]. by rewrite Hsent, (proj1 Hs3).
  - rewrite app_nil_r in Hsent.
    assert (calm g s s4) as Hs4.
    { etrans; [exact Hs3|]. split; [done|]. unfold residuals, group_at. by rewrite Hgroups. }
    wp_step. eapply wp_calm; [by apply upd_group_calm|exact Hs4|]. intros _ s5 Hs5.
    wp_step. eapply wp_calm; [apply remove_order_calm|exact Hs5|]. intros _ s6 Hs6.
    wp_step. eapply wp_calm; [by apply upd_group_calm|exact Hs6|]. intros _ s7 Hs7. wp_steps. by apply loop_stop.
Qed.

Lemma submit_repair_spec g rs ixs ts n s : Forall is_i64 rs → residuals g s = rs →
  wp (submit_repair_orders g ixs ts n) (loop_post g rs ixs n s) s.
Proof.
  intros Hrs. revert n s. induction ixs as [|i ixs IH]; intros n s Hr; cbn [submit_repair_orders].
  { wp_steps. by apply loop_stop. }
  assert (∀ s1, calm g s s1 → wp (set_uncertain g;; mret n) (loop_post g rs (i :: ixs) n s) s1) as Hstop.
  { intros s1 Hs1. wp_step. eapply wp_calm; [by apply upd_group_calm|exact Hs1|]. intros _ s2 Hs2.
    wp_steps. by apply loop_stop. }
  wp_steps. fold (residuals g s). rewrite Hr. destruct (Z.eqb_spec (default 0 (rs !! i)) 0) as [Hz|Hnz].
  { eapply wp_mono; [by apply IH|]. intros n' s'. apply loop_skip. }
  pose proof (residual_at rs i Hnz) as Hi. pose proof (Forall_lookup_1 _ _ _ _ Hrs Hi) as Hi64.
  wp_steps. destruct (os_orders s !! _) as [original|]; [|by apply Hstop].
  destruct (absolute_lots (default 0 (rs !! i))) as [quantity|] eqn:Eq; [|by apply Hstop].
  destruct (_ || _) eqn:Elim; [by apply Hstop|]. apply orb_false_iff in Elim as [_ Elim].
  rewrite Z.gtb_ltb in Elim. apply Z.ltb_ge in Elim.
  destruct (repair_action _ _) as [action|] eqn:Ea; [|by apply Hstop].
  wp_step. eapply wp_calm; [apply fresh_calm|reflexivity|]. intros id s1 Hs1.
  destruct (id_empty _); [by apply Hstop|]. apply submit_one; [done|done|done| |done].
  split; [done|]. split; [done|]. exists (default 0 (rs !! i)). unfold command_leg. cbn. rewrite Nat2Z.id.
  split; [done|]. split; [done|]. by apply repair_intent_flattens.
Qed.

(** ** The round *)

Definition limit s : Z := rk_maximum_group_repair_attempts (os_risk_config s).

(** The state after a round from [s]: only flattening orders were sent. *)
Definition round_post g s s' : Prop :=
  ∃ cmds, sent_commands s' = sent_commands s ++ (KcSubmit <$> cmds) ∧
    Forall (flattens (residuals g s)) cmds ∧
    (command_leg <$> cmds) `sublist_of` (Z.of_nat <$> leg_indices (group_at g s)) ∧
    (cmds ≠ [] → gr_repair_attempt_count (group_at g s) < limit s).

Lemma round_nothing g s s' : same_commands s s' → round_post g s s'.
Proof.
  intros Hs'. exists []. unfold sent_commands. rewrite Hs', app_nil_r.
  split_and!; [done|done|apply sublist_nil_l|done].
Qed.

Lemma unwind_spec g ts s : Forall is_i64 (residuals g s) →
  wp (unwind_residual hash_order g ts) (λ _, round_post g s) s.
Proof.
  intros Hrs. unfold unwind_residual. wp_steps. rewrite Z.geb_leb.
  destruct (Z.leb_spec (rk_maximum_group_repair_attempts (os_risk_config s))
    (gr_repair_attempt_count (group_at g s))) as [|Hlim].
  { eapply (wp_rel same_commands); [unfold fail_group_repair; foot_auto|]. intros _ s'. apply round_nothing. }
  wp_steps. case_match.
  { eapply (wp_rel same_commands); [foot_auto|]. intros _ s'. apply round_nothing. }
  wp_step. eapply wp_mono; [by apply submit_repair_spec|]. intros n' s1 (_ & cmds & H2 & _ & H4 & H5).
  eapply (wp_rel same_commands); [foot_auto|]. intros _ s2 Hs2. exists cmds.
  unfold sent_commands in *. rewrite Hs2. by split_and!.
Qed.

(** C21: a repair round sends only orders that flatten the group: each command is
    reduce-only and fill-or-kill, its signed exposure is exactly minus the residual
    exposure of its leg, no leg gets two of them, and none is sent once the attempts
    are used up. *)
Theorem repair_orders_flatten g ts s : Forall is_i64 (residuals g s) →
  let s' := (unwind_residual hash_order g ts s).2 in
  ∃ cmds, sent_commands s' = sent_commands s ++ (KcSubmit <$> cmds) ∧
    Forall (flattens (residuals g s)) cmds ∧
    (command_leg <$> cmds) `sublist_of` (Z.of_nat <$> leg_indices (group_at g s)) ∧
    (cmds ≠ [] → gr_repair_attempt_count (group_at g s) < limit s).
Proof. apply unwind_spec. Qed.
End Repair.

Import OmsDemo.

(** The first leg of the demo group has filled. *)
Definition half_filled_oms : OmsState (Q := Fifo) :=
  (handle_private_ws clock order (fill_event "t1" "px-2" 1 200 kYES) submitted_oms).2.

Lemma repair_orders_flatten_witness :
  residuals 1 half_filled_oms !! 0%nat = Some 200 ∧
  ∃ c, sent_commands (unwind_residual order 1 3000 half_filled_oms).2 = sent_commands half_filled_oms ++ [KcSubmit c] ∧
       flattens (residuals 1 half_filled_oms) c.
Proof.
  assert (residuals 1 half_filled_oms = 200 :: replicate 9 0) as Hr by (vm_compute; reflexivity).
  assert (length (sent_commands (unwind_residual order 1 3000 half_filled_oms).2) =
          length (sent_commands half_filled_oms) + 1)%nat as Hn by (vm_compute; reflexivity).
  revert Hr Hn. generalize half_filled_oms. intros s Hr Hn.
  destruct (repair_orders_flatten order 1 3000 s) as (cmds & H1 & H2 & _).
  { rewrite Hr. constructor; [unfold is_i64; lia|]. apply Forall_replicate. unfold is_i64. lia. }
  rewrite Hr. split; [done|]. rewrite <- Hr. rewrite H1, length_app, length_fmap in Hn.
  destruct cmds as [|c [|? ?]]; cbn in Hn; [lia| |lia]. exists c. by apply Forall_inv in H2.
Defined.
End Repair.
