(* ===== verification/OmsGroup.v ===== *)
(** * OmsGroup: how groups close

    A group is reported completed only when every leg filled and was fully
    accounted, and flattened only when no residual exposure is left. *)

From S2P Require Import Prelude Spsc OmsTypes OmsRisk Oms OmsDemo OmsFrame.

Module Group.
Import Risk Oms Footprint.

Section Group.
Context {Q : Type → Type} `{!PushQueue Q}.
Variable clk : nat → Z.
Variable hash_order : list Z → list Z.
Implicit Types s : OmsState (Q := Q).

Definition gstate (g : Z) s : GroupExecutionState := gr_execution_state (group_at g s).

(** Every leg of the group filled, and its reservation was used up. *)
Definition legs_filled (group : GroupRecord) s : Prop :=
  ∀ i, (i < Z.to_nat (gr_leg_count group))%nat → ∃ o, os_orders s !! leg_id group i = Some o ∧
    od_order_state o = kFILLED ∧ od_reserved_capital_ticks o = 0.

(** ** The summary of the legs *)

Lemma summarize_leg_sound s group acc i : ls_all_filled (summarize_leg s group acc i) = true →
  ls_all_filled acc = true ∧ ∃ o, os_orders s !! leg_id group i = Some o ∧ od_order_state o = kFILLED ∧
    (ls_fills_fully_accounted (summarize_leg s group acc i) = true →
     od_reserved_capital_ticks o = 0 ∧ ls_fills_fully_accounted acc = true).
Proof.
  unfold summarize_leg. destruct (os_orders s !! leg_id group i) as [o|]; [|done]. cbn.
  intros [H1 Hf%bool_decide_eq_true]%andb_true_iff. split; [done|]. exists o. split; [done|]. split; [done|].
  by intros [? ?%Z.eqb_eq]%andb_true_iff.
Qed.

Lemma summarize_sound s group l acc :
  ls_all_filled (foldl (summarize_leg s group) acc l) = true →
  ls_all_filled acc = true ∧ Forall (λ i, ∃ o, os_orders s !! leg_id group i = Some o ∧ od_order_state o = kFILLED ∧
    (ls_fills_fully_accounted (foldl (summarize_leg s group) acc l) = true → od_reserved_capital_ticks o = 0)) l ∧
  (ls_fills_fully_accounted (foldl (summarize_leg s group) acc l) = true → ls_fills_fully_accounted acc = true).
Proof.
  revert acc. induction l as [|i l IH]; intros acc; cbn [foldl]; [done|]. intros H.
  destruct (IH _ H) as (H1 & H2 & H3). destruct (summarize_leg_sound _ _ _ _ H1) as (H4 & o & H5 & H6 & H7).
  split; [done|]. split; [|intros Ha; by apply H7, H3].
  constructor; [|done]. exists o. split; [done|]. split; [done|]. intros Ha. by apply H7, H3.
Qed.

Lemma all_filled_spec group s : ls_all_filled (summarize_legs group s) = true →
  ls_fills_fully_accounted (summarize_legs group s) = true → legs_filled group s.
Proof.
  intros H1 H2. destruct (summarize_sound _ _ _ _ H1) as (_ & H3 & _). intros i Hi.
  rewrite Forall_forall in H3. destruct (H3 i) as (o & ? & ? & Hr); [by apply elem_of_seq; lia|].
  exists o. auto.
Qed.

(** ** Repair never completes a group *)

Definition no_residual (g : Z) s : Prop := group_has_residual_exposure (group_at g s) = false.

(** The exposure stays as it is, the group does not become completed, and becomes
    flattened only without exposure. *)
Definition honest (g : Z) s s' : Prop :=
  (gr_residual_yes_lots (group_at g s') = gr_residual_yes_lots (group_at g s) ∧
   gr_leg_count (group_at g s') = gr_leg_count (group_at g s)) ∧
  (gstate g s' = kCOMPLETED → gstate g s = kCOMPLETED) ∧
  (gstate g s' = kFLATTENED → gstate g s = kFLATTENED ∨ no_residual g s).

Lemma honest_residual g s s' : honest g s s' → no_residual g s' ↔ no_residual g s.
Proof.
  intros [[H1 H2] _]. unfold no_residual, group_has_residual_exposure, leg_indices. by rewrite H1, H2.
Qed.

#[local] Instance honest_preorder g : PreOrder (honest g).
Proof.
  split; [intros s; repeat split; auto|]. intros s1 s2 s3 H12 H23.
  pose proof (honest_residual _ _ _ H12) as Hr. destruct H12 as ([? ?] & H2 & H3), H23 as ([? ?] & H5 & H6).
  split; [split; congruence|]. split; [auto|]. intros Hf. destruct (H6 Hf) as [H'|H']; [auto|]. right. by apply Hr.
Qed.

Lemma same_groups_honest g s s' : os_group_by_id s' = os_group_by_id s → honest g s s'.
Proof. intros H. unfold honest, gstate, no_residual, group_at. rewrite H. auto. Qed.

#[local] Instance honest_frame g : MessageFrame (honest g).
Proof. split; [exact _|..]; intros; by apply same_groups_honest. Qed.

(** A group update that keeps exposure and does not complete or flatten. *)
Definition tame (f : GroupRecord → GroupRecord) : Prop := ∀ x,
  gr_residual_yes_lots (f x) = gr_residual_yes_lots x ∧ gr_leg_count (f x) = gr_leg_count x ∧
  (gr_execution_state (f x) = kCOMPLETED → gr_execution_state x = kCOMPLETED) ∧
  (gr_execution_state (f x) = kFLATTENED → gr_execution_state x = kFLATTENED).

Lemma upd_group_honest g f : tame f → rel (honest g) (upd_group (Q := Q) g f).
Proof.
  intros Hf s. unfold honest, gstate, no_residual, group_at. cbn. rewrite lookup_alter_eq.
  destruct (os_group_by_id s !! g) as [x|]; cbn; [|auto]. destruct (Hf x) as (H1 & H2 & H3 & H4). auto.
Qed.

Ltac tame_solve := intros ?; repeat split; unfold uncertain_or; cbn; repeat case_match; try done; auto.
Hint Extern 3 (tame _) => solve [tame_solve] : footprint.
Hint Resolve upd_group_honest : footprint.

Lemma set_uncertain_honest g : rel (honest g) (set_uncertain (Q := Q) g).
Proof. unfold set_uncertain. foot_auto. Qed.
Lemma upd_order_honest g k f : rel (honest g) (upd_order (Q := Q) k f).
Proof. intros s. by apply same_groups_honest. Qed.
Lemma add_order_honest g k f : rel (honest g) (add_order (Q := Q) k f).
Proof. intros s. by apply same_groups_honest. Qed.
Lemma remove_order_honest g k f : rel (honest g) (remove_order (Q := Q) k f).
Proof. intros s. by apply same_groups_honest. Qed.
Lemma fresh_honest g : rel (honest g) (fresh_request_id (Q := Q)).
Proof. intros s. by apply same_groups_honest. Qed.
Lemma send_kalshi_honest g c : rel (honest g) (send_kalshi_command (Q := Q) c).
Proof. intros s. apply same_groups_honest. unfold send_kalshi_command. by destruct (q_push _ _). Qed.
Hint Resolve set_uncertain_honest upd_order_honest add_order_honest remove_order_honest fresh_honest
  send_kalshi_honest : footprint.

Lemma emit_cancel_honest g k c id ts : rel (honest g) (emit_cancel_command_for_record (Q := Q) k c id ts).
Proof. unfold emit_cancel_command_for_record. foot_auto. Qed.
Hint Resolve emit_cancel_honest : footprint.

Lemma cancel_orders_honest g ks c ts n : rel (honest g) (cancel_orders (Q := Q) ks c ts n).
Proof. revert n. induction ks as [|k ks IH]; intros n; cbn [cancel_orders]; foot_auto. Qed.

Lemma scan_original_honest g ixs c p : rel (honest g) (scan_original_legs (Q := Q) g ixs c p).
Proof. revert c p. induction ixs as [|i ixs IH]; intros c p; cbn [scan_original_legs]; foot_auto. Qed.

Lemma scan_repair_honest g ixs l : rel (honest g) (scan_repair_orders (Q := Q) g ixs l).
Proof. revert l. induction ixs as [|i ixs IH]; intros l; cbn [scan_repair_orders]; foot_auto. Qed.

Lemma submit_repair_honest g ixs ts n : rel (honest g) (submit_repair_orders (Q := Q) g ixs ts n).
Proof. revert n. induction ixs as [|i ixs IH]; intros n; cbn [submit_repair_orders]; foot_auto. Qed.

Lemma fail_repair_honest g reason ts : rel (honest g) (fail_group_repair (Q := Q) hash_order g reason ts).
Proof. unfold fail_group_repair. foot_auto. Qed.
Hint Resolve cancel_orders_honest scan_original_honest scan_repair_honest submit_repair_honest fail_repair_honest
  : footprint.

Lemma cancel_remainder_honest g c ts : rel (honest g) (cancel_remainder (Q := Q) hash_order g c ts).
Proof. unfold cancel_remainder. foot_auto. Qed.

Lemma unwind_honest g ts : rel (honest g) (unwind_residual (Q := Q) hash_order g ts).
Proof. unfold unwind_residual. foot_auto. Qed.
Hint Resolve cancel_remainder_honest unwind_honest : footprint.

Lemma release_of_fields group s :
  wp (release_group_capital_of clk hash_order group) (λ group' s', os_group_by_id s' = os_group_by_id s ∧
    gr_residual_yes_lots group' = gr_residual_yes_lots group ∧ gr_leg_count group' = gr_leg_count group ∧
    gr_execution_state group' = gr_execution_state group) s.
Proof.
  split; [exact (f_equal Frame.c_groups (Frame.release_of_quiet clk hash_order group s))|].
  change (wp (release_group_capital_of clk hash_order group) (λ group' _,
    gr_residual_yes_lots group' = gr_residual_yes_lots group ∧ gr_leg_count group' = gr_leg_count group ∧
    gr_execution_state group' = gr_execution_state group) s).
  unfold release_group_capital_of. case_match; [by wp_steps|].
  repeat (wp_step; eapply (wp_rel (λ _ _, True)); [by intros ?|intros ? ? _]). by wp_steps.
Qed.

Lemma release_honest g : rel (honest g) (release_group_capital (Q := Q) clk hash_order g).
Proof.
  intros s. change (wp (release_group_capital clk hash_order g) (λ _, honest g s) s). unfold release_group_capital.
  wp_steps. eapply wp_mono; [apply release_of_fields|]. intros group' s' (H1 & H2 & H3 & H4).
  unfold upd_group. wp_steps. unfold honest, gstate, no_residual, group_at in *. cbn. rewrite lookup_alter_eq, H1.
  destruct (os_group_by_id s !! g) as [x|]; cbn in *; [|auto]. rewrite H2, H3, H4. auto.
Qed.
Hint Resolve release_honest : footprint.

(** Without exposure, finishing the repair is honest. *)
Lemma finish_honest g ts s : no_residual g s → honest g s (finish_repair clk hash_order g ts s).2.
Proof.
  intros Hn. change (wp (finish_repair clk hash_order g ts) (λ _, honest g s) s). unfold finish_repair. do 4 wp_step.
  wp_step. generalize (group_has_confirmed_original_fill (group_at g s) s) as repaired. intros repaired.
  apply (wp_mono _ (λ _, honest g s)).
  - unfold wp, upd_group, honest, gstate, no_residual, group_at in *. cbn. rewrite lookup_alter_eq.
    destruct (os_group_by_id s !! g) as [x|]; cbn in *; [|auto].
    by destruct repaired; cbn; repeat split; auto.
  - intros _ s1 Hs1. eapply (wp_rel (honest g)); [foot_auto|]. intros _ s2 Hs2. by etrans.
Qed.

Lemma wp_honest {A} g (m : M (OmsState (Q := Q)) A) Φ s s1 : rel (honest g) m → honest g s s1 →
  (∀ a s', honest g s s' → Φ a s') → wp m Φ s1.
Proof. intros Hm Hs H. eapply wp_rel; [exact Hm|]. intros a s' Hs'. apply H. by etrans. Qed.

Lemma repair_exposure_honest g ts : rel (honest g) (repair_exposure (Q := Q) clk hash_order g ts).
Proof.
  intros s. change (wp (repair_exposure clk hash_order g ts) (λ _, honest g s) s). unfold repair_exposure.
  do 3 wp_step. eapply (wp_honest g); [foot_auto|reflexivity|]. intros live s1 Hs1. wp_step.
  apply (wp_mono _ (λ _ s2, honest g s s2 ∧ gr_residual_exposure_present (group_at g s2) = group_has_residual_exposure (group_at g s2)
    ∨ honest g s s2 ∧ os_group_by_id s2 !! g = None)).
  { assert (honest g s (upd_group g (λ x, x ⟪ gr_residual_exposure_present := group_has_residual_exposure x ⟫) s1).2) as Hh
      by (etrans; [exact Hs1|]; by apply upd_group_honest; tame_solve).
    unfold wp. destruct (os_group_by_id s1 !! g) as [x|] eqn:Ex.
    - left. split; [exact Hh|]. unfold group_at. cbn. by rewrite lookup_alter_eq, Ex.
    - right. split; [exact Hh|]. cbn. by rewrite lookup_alter_eq, Ex. }
  intros _ s2 Hs2. assert (honest g s s2) as Hh by (by destruct Hs2 as [[? _]|[? _]]).
  do 2 wp_step. case_match; [eapply wp_honest; [foot_auto|exact Hh|done]|].
  case_match eqn:Er; [|case_match; (eapply wp_honest; [foot_auto|exact Hh|done])].
  unfold wp. etrans; [exact Hh|]. apply finish_honest. apply negb_true_iff in Er. unfold no_residual.
  destruct Hs2 as [[_ <-]|[_ Hnone]]; [done|]. unfold group_at. by rewrite Hnone.
Qed.
Hint Resolve repair_exposure_honest : footprint.

Lemma continue_honest g ts : rel (honest g) (continue_group_repair (Q := Q) clk hash_order g ts).
Proof. unfold continue_group_repair. foot_auto. Qed.
Hint Resolve continue_honest : footprint.

Lemma begin_honest g reason ts : rel (honest g) (begin_group_repair (Q := Q) clk hash_order g reason ts).
Proof. unfold begin_group_repair. foot_auto. Qed.
Hint Resolve begin_honest : footprint.

(** ** Closing *)

(** What a change of the group [g]'s state from [s] to [s'] proves. *)
Definition closes_honestly (g : Z) s s' : Prop :=
  (gstate g s' = kCOMPLETED → gstate g s = kCOMPLETED ∨
     legs_filled (group_at g s) s ∧ gr_venue_state_uncertain (group_at g s) = false) ∧
  (gstate g s' = kFLATTENED → gstate g s = kFLATTENED ∨ no_residual g s).

Lemma honest_closes g s s' : honest g s s' → closes_honestly g s s'.
Proof. intros (_ & H1 & H2). split; auto. Qed.

Definition same_gstate (g : Z) s s' : Prop := gstate g s' = gstate g s.

#[local] Instance same_gstate_frame g : MessageFrame (same_gstate g).
Proof. split; [split; repeat intro; unfold same_gstate in *; congruence|..]; by intros. Qed.

Lemma release_gstate g : rel (same_gstate g) (release_group_capital (Q := Q) clk hash_order g).
Proof.
  intros s. change (wp (release_group_capital clk hash_order g) (λ _, same_gstate g s) s). unfold release_group_capital.
  wp_steps. eapply wp_mono; [apply release_of_fields|]. intros group' s' (H1 & _ & _ & H4).
  unfold upd_group. wp_steps. unfold same_gstate, gstate, group_at in *. cbn. rewrite lookup_alter_eq, H1.
  by destruct (os_group_by_id s !! g).
Qed.
Hint Resolve release_gstate : footprint.

Lemma close_state g state ts s :
  wp (close_group clk hash_order g state ts) (λ _ s', gstate g s' = state ∨ gstate g s' = gstate g s) s.
Proof.
  unfold close_group. wp_step. unfold wp at 1. eapply (wp_rel (same_gstate g)); [foot_auto|]. intros _ s' ->.
  unfold gstate, group_at, upd_group. cbn. rewrite lookup_alter_eq. destruct (os_group_by_id s !! g); auto.
Qed.

Lemma update_group_closes k ts s :
  closes_honestly (od_oms_group_id (order_at k s)) s (update_group_after_order_state_change clk hash_order k ts s).2.
Proof.
  set (g := od_oms_group_id (order_at k s)).
  change (wp (update_group_after_order_state_change clk hash_order k ts) (λ _, closes_honestly g s) s).
  assert (∀ m : M (OmsState (Q := Q)) unit, ∀ s1, honest g s s1 → rel (honest g) m → wp m (λ _, closes_honestly g s) s1) as Hh.
  { intros m s1 H1 Hm. eapply wp_honest; [exact Hm|exact H1|]. intros _ s'. apply honest_closes. }
  unfold update_group_after_order_state_change. do 2 wp_step. fold g.
  case_match; [by apply Hh; [|foot_auto]|]. do 2 wp_step. case_match; [|by apply Hh; [|foot_auto]]. do 2 wp_step.
  case_match; [by apply Hh; [|foot_auto]|]. case_match; [by apply Hh; [|foot_auto]|]. do 3 wp_step.
  eapply (wp_honest g); [foot_auto|reflexivity|]. intros _ s1 Hs1.
  destruct (_ || _ || _) eqn:Eu; [by apply Hh; [|foot_auto]|]. guards.
  destruct (ls_all_filled _) eqn:Ef.
  - assert (legs_filled (group_at g s) s) as Hl.
    { apply all_filled_spec; [done|]. by apply negb_false_iff. }
    eapply wp_mono; [apply close_state|]. cbv beta. intros u s2 Hs2. split; [by right|]. intros Hfl.
    destruct Hs2 as [Hs2|Hs2]; [congruence|]. apply Hs1. congruence.
  - destruct (ls_all_terminal _ && negb _).
    { eapply wp_mono; [apply close_state|]. cbv beta. intros u s2 Hs2. destruct Hs2 as [Hs2|Hs2].
      - split; congruence.
      - destruct Hs1 as (_ & E1 & E2). split; rewrite Hs2; auto. }
    destruct (_ || _ || _); (apply Hh; [done|]); foot_auto.
Qed.

(** When an order update closes its group, the report is honest: the group is
    reported completed only if every leg is filled with its whole reservation used
    up and the venue state is certain, and flattened only if no leg has residual
    exposure. *)
Theorem group_closes_honestly k ts s :
  let s' := (update_group_after_order_state_change clk hash_order k ts s).2 in
  let g := od_oms_group_id (order_at k s) in
  (gstate g s' = kCOMPLETED → gstate g s = kCOMPLETED ∨
     legs_filled (group_at g s) s ∧ gr_venue_state_uncertain (group_at g s) = false) ∧
  (gstate g s' = kFLATTENED → gstate g s = kFLATTENED ∨ no_residual g s).
Proof. apply update_group_closes. Qed.
End Group.
End Group.
