(* ===== verification/OmsPump.v ===== *)
(** * OmsPump: the drains of the pump terminate and are fair

    The loops of [drain_strategy_intents] and [drain_venue_events] go round their
    queues in order, one message per queue and round, until their budget is spent
    or a whole round found every queue empty.  What a round is, is said here by
    the polls it makes ([polled]) and not by the loop of the code.

    At the end, Module [Scenarios]: runs in which the OMS departs from its documentation. *)

From S2P Require Import Prelude Spsc OmsTypes OmsRisk Oms OmsDemo.

Module Pump.
Import Oms.

Section Pump.
Context {Q : Type → Type} `{!PushQueue Q}.
Implicit Types s : OmsState (Q := Q).

Section Drain.
Context {T : Type}.
Variable popq : nat → M (OmsState (Q := Q)) (option T).
Variable handle : T → M (OmsState (Q := Q)) unit.

(** A sequence of polls: which queue was polled, and whether it had a message,
    which was then handled before the next poll. *)
Inductive polled : list (nat * bool) → OmsState (Q := Q) → OmsState (Q := Q) → Prop :=
  | polled_nothing s : polled [] s s
  | polled_empty i l s s' : (popq i s).1 = None → polled l (popq i s).2 s' → polled ((i, false) :: l) s s'
  | polled_message i m l s s' : (popq i s).1 = Some m → polled l (handle m (popq i s).2).2 s' →
      polled ((i, true) :: l) s s'.

(** How many of the polls found a message. *)
Definition messages (l : list (nat * bool)) : Z := Z.of_nat (length (filter (λ p, p.2 = true) l)).

Lemma messages_nil : messages [] = 0.
Proof. done. Qed.

Lemma messages_empty i l : messages ((i, false) :: l) = messages l.
Proof. done. Qed.

Lemma messages_cons i l : messages ((i, true) :: l) = messages l + 1.
Proof. unfold messages. rewrite filter_cons_True by done. cbn [length]. lia. Qed.

Lemma messages_app l l' : messages (l ++ l') = messages l + messages l'.
Proof. unfold messages. rewrite filter_app, length_app. lia. Qed.

Lemma messages_nonneg l : 0 ≤ messages l.
Proof. unfold messages. lia. Qed.

Lemma no_messages l : messages l = 0 → l = (λ i, (i, false)) <$> l.*1.
Proof.
  induction l as [|[i []] l IH]; [done|rewrite messages_cons; pose proof (messages_nonneg l); lia|].
  intros H. rewrite messages_empty in H. cbn. f_equal. by apply IH.
Qed.

Lemma polled_app l l' s s1 s' : polled l s s1 → polled l' s1 s' → polled (l ++ l') s s'.
Proof. induction 1; intros; cbn; [done|constructor; auto|econstructor; eauto]. Qed.

(** A drain with budget [max] over the queues [ixs]: rounds that poll each queue
    once, in order, then a last one that is cut short only by the budget; when
    the budget is not spent, the last round found each of the queues empty. *)
Definition drained (max : Z) (ixs : list nat) s (handled : Z) s' : Prop :=
  0 ≤ handled ≤ max ∧
  ∃ (rounds : list (list (nat * bool))) (last : list (nat * bool)),
    polled (concat rounds ++ last) s s' ∧
    Forall (λ round, round.*1 = ixs) rounds ∧
    last.*1 `prefix_of` ixs ∧
    messages (concat rounds ++ last) = handled ∧
    (handled < max → last = (λ i, (i, false)) <$> ixs).

Variable max : Z.
Variable ixs : list nat.

(** Once the budget is spent the rest of the round is skipped. *)
Lemma drain_round_spent l n w s : max ≤ n → drain_round popq handle max l n w s = ((n, w), s).
Proof. intros Hn. induction l as [|i l IH]; cbn [drain_round]; [done|]. by rewrite (proj2 (Z.leb_le max n) Hn). Qed.

(** A round polls its queues in order, all of them unless the budget is spent. *)
Lemma drain_round_polls l n w s : n ≤ max →
  wp (drain_round popq handle max l n w) (λ r s', ∃ round, polled round s s' ∧ round.*1 `prefix_of` l ∧
    r.1 = n + messages round ∧ r.1 ≤ max ∧ (r.1 < max → round.*1 = l) ∧
    r.2 = (w || (0 <? messages round))) s.
Proof.
  revert n w s. induction l as [|i l IH]; intros n w s Hn.
  { cbn [drain_round]. wp_steps. exists []. rewrite messages_nil, orb_false_r, Z.add_0_r.
    split; [constructor|]. split; [done|]. auto. }
  destruct (Z.le_gt_cases max n) as [Hmax|Hmax].
  { unfold wp. rewrite drain_round_spent by done. exists []. rewrite messages_nil, orb_false_r, Z.add_0_r.
    cbn [fst snd]. split; [constructor|]. split; [apply prefix_nil|]. split; [done|]. split; [lia|]. split; [lia|done]. }
  cbn [drain_round]. rewrite (proj2 (Z.leb_gt max n) Hmax). wp_step. unfold wp at 1.
  destruct (popq i s) as [x s1] eqn:Ei; cbn [fst snd]. destruct x as [m|].
  - wp_step. unfold wp at 1. eapply wp_mono; [apply IH; lia|]. cbv beta.
    intros r s' (round & H1 & H2 & H3 & H4 & H5 & H6). exists ((i, true) :: round).
    rewrite messages_cons. pose proof (messages_nonneg round).
    split; [apply (polled_message i m); rewrite Ei; done|]. split; [by apply prefix_cons|].
    split; [lia|]. split; [lia|]. split; [intros; cbn; f_equal; auto|].
    rewrite H6, (proj2 (Z.ltb_lt 0 (messages round + 1))) by lia. by rewrite orb_true_r.
  - eapply wp_mono; [by apply IH|]. cbv beta.
    intros r s' (round & H1 & H2 & H3 & H4 & H5 & H6). exists ((i, false) :: round).
    rewrite messages_empty. split; [constructor; by rewrite Ei|]. split; [by apply prefix_cons|].
    split; [done|]. split; [done|]. split; [intros; cbn; f_equal; auto|done].
Qed.

Lemma drain_loop_spent fuel s : drain_loop fuel popq handle max ixs max s = (max, s).
Proof. destruct fuel; cbn [drain_loop]; [done|]. by rewrite Z.ltb_irrefl. Qed.

(** What the loop does from a count [n] on, and that its fuel is enough. *)
Lemma drain_loop_drains fuel n s : n ≤ max → max - n ≤ Z.of_nat fuel →
  let r := drain_loop fuel popq handle max ixs n s in
  drained (max - n) ixs s (r.1 - n) r.2 ∧ ∀ extra, drain_loop (fuel + extra) popq handle max ixs n s = r.
Proof.
  revert n s. induction fuel as [|fuel IH]; intros n s Hn Hf.
  all: destruct (decide (n = max)) as [->|Hne].
  1, 3: (rewrite drain_loop_spent; cbn [fst snd]; split; [|intros; apply drain_loop_spent]).
  1, 2: (split; [lia|]; exists [], []; cbn; split; [constructor|]; split; [done|]; split; [apply prefix_nil|];
         split; [rewrite messages_nil; lia|lia]).
  { lia. }
  cbn [drain_loop Nat.add]. rewrite (proj2 (Z.ltb_lt n max)) by lia. unfold mbind, M_bind.
  pose proof (drain_round_polls ixs n false s Hn) as Hr. unfold wp in Hr.
  destruct (drain_round popq handle max ixs n false s) as [[n' w] s1]; cbn [fst snd] in *.
  destruct Hr as (round & H1 & H2 & H3 & H4 & H5 & H6). pose proof (messages_nonneg round).
  cbn [orb] in H6. destruct (Z.ltb_spec 0 (messages round)) as [Hw|Hw]; subst w; cbn [fst snd].
  - destruct (decide (n' = max)) as [->|Hne'].
    { rewrite drain_loop_spent. split; [|intros; apply drain_loop_spent]. cbn [fst snd]. split; [lia|].
      exists [], round. cbn. split; [done|]. split; [done|]. split; [done|]. lia. }
    destruct (IH n' s1) as [(I0 & rounds & last & I1 & I2 & I3 & I4 & I5) I6]; [lia|lia|].
    split; [|exact I6]. split; [lia|]. exists (round :: rounds), last. cbn [concat].
    rewrite <- app_assoc, messages_app. split; [by eapply polled_app|].
    split; [constructor; [apply H5; lia|done]|]. split; [done|]. split; [lia|]. intros. apply I5. lia.
  - split; [|done]. unfold mret, M_ret; cbn [fst snd]. split; [lia|]. exists [], round. cbn [concat app].
    split; [done|]. split; [done|]. split; [done|]. split; [lia|]. intros.
    rewrite <- (H5 ltac:(lia)). apply no_messages. lia.
Qed.
End Drain.

Context (clock : nat → Z) (order : list Z → list Z).

(** C26: both drains of the pump, of venue events and of the intents of the
    strategies, return (more fuel than the budget changes nothing), handle at most
    their budget, and are fair: they proceed in rounds that poll every queue once,
    in order, taking at most one message from each; only the budget cuts a round
    short, and while budget is left a drain stops only after a round in which every
    one of the queues was polled and had no message. *)
Theorem drain_is_bounded_and_fair max s : 0 ≤ max →
  let venue := seq 0 (length (os_venue_event_queues s)) in
  let intents := seq 0 (length (os_strategy_intent_queues s)) in
  let handle_event := handle_venue_event clock order in
  let handle_intent := λ i, handle_strategy_intent clock order i;; tele (λ t, t ⟪ tm_strategy_intents_received ::= incr ⟫) in
  let v := drain_venue_events clock order max s in
  let i := drain_strategy_intents clock order max s in
  drained pop_venue handle_event max venue s v.1 v.2 ∧
  drained pop_intent handle_intent max intents s i.1 i.2 ∧
  ∀ extra, drain_loop (Z.to_nat max + extra) pop_venue handle_event max venue 0 s = v ∧
           drain_loop (Z.to_nat max + extra) pop_intent handle_intent max intents 0 s = i.
Proof.
  intros Hm venue intents handle_event handle_intent v i.
  destruct (drain_loop_drains pop_venue handle_event max venue (Z.to_nat max) 0 s) as [V1 V2]; [lia|lia|].
  destruct (drain_loop_drains pop_intent handle_intent max intents (Z.to_nat max) 0 s) as [I1 I2]; [lia|lia|].
  rewrite !Z.sub_0_r in V1, I1. split; [exact V1|]. split; [exact I1|]. intros extra. split; [apply V2|apply I2].
Qed.
End Pump.

Import OmsDemo.

(** Two venue queues: the first has one message and then none, the second none
    and then one.  A budget of five allows rounds enough to handle both. *)
Definition two_queues : OmsState (Q := Fifo) :=
  submitted_oms ⟪ os_venue_event_queues := [Some [Some (fill "t1" "px-2" 1 200 kYES)]; Some [None; Some (fill "t2" "px-3" 2 200 kNO)]] ⟫.

Lemma drain_is_bounded_and_fair_witness :
  (drain_venue_events clock order 5 two_queues).1 = 2 ∧
  drained pop_venue (handle_venue_event clock order) 5 [0%nat; 1%nat] two_queues
    (drain_venue_events clock order 5 two_queues).1 (drain_venue_events clock order 5 two_queues).2.
Proof.
  split; [vm_compute; reflexivity|].
  exact (proj1 (drain_is_bounded_and_fair clock order 5 two_queues ltac:(done))).
Defined.
End Pump.

(** ** Runs in which the OMS departs from its documentation

    Two concrete runs.  In the first a transport acknowledgement overrides the
    private feed; in the second two strategies together reserve more than the
    venue's balance. *)


Module Scenarios.
Import Oms OmsDemo.

(** The venue acknowledges the order with the client id [id]. *)
Definition acked (id : string) : KalshiToOmsEvent :=
  KeRest (default_RestOrderResponse ⟪ ro_client_order_id := id ⟫ ⟪ ro_command_kind := kSUBMIT_ORDER ⟫
    ⟪ ro_result_code := kACKED ⟫ ⟪ ro_transport_recv_ts_ns := 2001 ⟫).

Definition run_events (l : list KalshiToOmsEvent) : OmsState (Q := Fifo) :=
  (forM_ l (handle_venue_event clock order) submitted_oms).2.

Definition order_state (k : Z) (s : OmsState (Q := Fifo)) : OrderState := od_order_state (order_at k s).
Definition group_state (g : Z) (s : OmsState (Q := Fifo)) : GroupExecutionState := gr_execution_state (group_at g s).

Definition fill_1 : KalshiToOmsEvent := fill "t1" "px-2" 1 200 kYES.
Definition fill_2 : KalshiToOmsEvent := fill "t2" "px-3" 2 200 kNO.

(** The two legs of the demo group fill and the group completes; but if the REST
    acknowledgement of the first leg arrives between the two fills, that leg falls
    back from filled to working, and the group, both of whose legs are fully
    filled, is left partially filled with no event to come. *)
Theorem late_ack_reopens_a_filled_order :
  order_state 2 (run_events [fill_1]) = kFILLED ∧
  order_state 2 (run_events [fill_1; acked "px-2"]) = kWORKING ∧
  group_state 1 (run_events [fill_1; fill_2]) = kCOMPLETED ∧
  group_state 1 (run_events [fill_1; acked "px-2"; fill_2]) = kGROUP_PARTIALLY_FILLED ∧
  od_leaves_qty_lots (order_at 2 (run_events [fill_1; acked "px-2"; fill_2])) = 0 ∧
  od_leaves_qty_lots (order_at 3 (run_events [fill_1; acked "px-2"; fill_2])) = 0.
Proof. vm_compute. repeat split. Qed.

(** Two strategies under mandatory reconciliation, with 50000 ticks at the venue. *)
Definition shared_config : OmsRiskConfig := mkOmsRiskConfig 1000000 0 1000000 10 2 1000000 0 true.

Definition shared_oms : OmsState (Q := Fifo) :=
  let s := make_oms [Some (queue 64); Some (queue 64)] (queue 64) (queue 64) [] [] [] shared_config in
  let s := (handle_apply_universe order (Some universe) s).2 in
  let s := s ⟪ os_active_reconciliation_id := 1 ⟫ in
  let s := (ensure_strategy_portfolio order 0 s).2 in
  let s := (ensure_strategy_portfolio order 1 s).2 in
  let s := (handle_portfolio_snapshot clock order (default_VenuePortfolioSnapshot ⟪ vs_reconciliation_id := 1 ⟫
    ⟪ vs_universe_version := 3 ⟫ ⟪ vs_available_balance_ticks := 50000 ⟫
    ⟪ vs_result_code := kRECONCILIATION_COMPLETE ⟫) s).2 in
  (handle_allow_trading s).2.

Definition for_strategy (i : Z) (intent : GroupOrderIntent) : GroupOrderIntent :=
  intent ⟪ gi_context ::= λ c, c ⟪ ic_strategy_index := i ⟫ ⟫
         ⟪ gi_new_orders ::= fmap (λ l, l ⟪ no_context ::= λ c, c ⟪ ic_strategy_index := i ⟫ ⟫) ⟫.

Definition reserved (i : Z) (s : OmsState (Q := Fifo)) : Z := pf_reserved_order_capital_ticks (portfolio_at i s).

(** With two strategies, each group is checked against a figure that only its
    own strategy's reservations keep current: both strategies are granted 40000
    ticks of a reconciled balance of 50000. *)
Theorem two_strategies_overcommit_the_balance :
  let s1 := (handle_group_order clock order (for_strategy 0 group_intent) shared_oms).2 in
  let s2 := (handle_group_order clock order (for_strategy 1 group_intent) s1).2 in
  reserved 0 s2 = 40000 ∧ reserved 1 s2 = 40000 ∧
  vr_available_balance_ticks (os_venue_portfolio s2) = 50000 ∧
  available_capital order (portfolio_at 1 s1) s1 = 10000.
Proof. vm_compute. repeat split. Qed.
End Scenarios.
