(* ===== verification/Threads.v ===== *)
(** * Threads: the loops of the worker threads, the main loop and the shutdown

    Models the thread functions of [cpp/apps/predex/main.cpp], its main loop and what follows it.
    A thread runs until [stop_requested] says so: the number of times it says no is an argument,
    so every loop is structural.  What the back-off of a thread decides is recorded in the state
    of the thread.  The threads of the wire session, of the private feed and of the REST session
    run the [run] of their component, which is modelled there. *)

From S2P Require Import Prelude Spsc IdleBackoff MarketTypes FramePool Event Router ControlTypes ShardTypes MarketParser Shard OmsTypes ControlPlaneTypes Config ControlPlane Tape Logger Strategy App Oms.
Open Scope Z_scope.

Module Threads.
Import Backoff Config Strategy.

(** ** A worker thread *)

(** The component of a thread, its back-off, and what the back-off has decided so far. *)
Record Worker (C : Type) := mkWorker { wk_component : C; wk_backoff : IdleBackoff; wk_decisions : list IdleBackoffDecision }.
Arguments mkWorker {C}.
Arguments wk_component {C}.
Arguments wk_backoff {C}.
Arguments wk_decisions {C}.
#[export] Instance eta_Worker {C} : Eta (Worker C) := λ r, mkWorker (wk_component r) (wk_backoff r) (wk_decisions r).

Section Worker.
Context {C : Type}.

(** A call of the component. *)
Definition on_component {A} (m : M C A) : M (Worker C) A := λ w, let '(a, c) := m (wk_component w) in (a, w ⟪ wk_component := c ⟫).
(** [idle_backoff.idle()] and [idle_backoff.reset()]. *)
Definition idle : M (Worker C) unit := λ w,
  let '(decision, b) := next_idle_decision (wk_backoff w) in (tt, w ⟪ wk_backoff := b ⟫ ⟪ wk_decisions ::= λ l, l ++ [decision] ⟫).
Definition worked : M (Worker C) unit := modify (λ w, w ⟪ wk_backoff ::= reset ⟫).
(** The loop of a thread; [true]: a round says [break]. *)
Fixpoint while_not_stopped {S} (checks : nat) (round : M S bool) : M S unit :=
  match checks with
  | O => mret tt
  | S checks => broken ← round; if (broken : bool) then mret tt else while_not_stopped checks round
  end.
(** A round that pumps the component once and backs off if there was nothing to do. *)
Definition pump_round {A} (pump : M C A) (nothing_done : A → bool) : M (Worker C) bool :=
  result ← on_component pump;
  (if nothing_done result then idle else worked);;
  mret false.
(** The thread; the constructor of its back-off may throw. *)
Definition thread (polling_config : IdleBackoffConfig) (checks : nat) (round : M (Worker C) bool) (component : C) : option (Worker C) :=
  backoff ← make_backoff polling_config; Some (while_not_stopped checks round (mkWorker component backoff [])).2.
End Worker.

(** ** The threads *)

Section Threads.
Context {Q : Type → Type} `{HQ : !PushQueue Q}.
Variable clk : nat → Z.

(** *** The router *)

(** The router and its input queue; [None] in the queue: it was found empty. *)
Record RouterWork := mkRouterWork { rw_router : Router.RouterState (Q := Q); rw_input : list (option MarketDataPathMessage) }.
#[export] Instance eta_RouterWork : Eta RouterWork := λ r, mkRouterWork (rw_router r) (rw_input r).
Definition on_router {A} (m : M Router.RouterState A) : M RouterWork A := λ w, let '(a, r) := m (rw_router w) in (a, w ⟪ rw_router := r ⟫).
Definition pop_path_message : M RouterWork (option MarketDataPathMessage) := λ w,
  match rw_input w with [] => (None, w) | message :: rest => (message, w ⟪ rw_input := rest ⟫) end.

Definition router_round : M (Worker RouterWork) bool :=
  pending_result ← on_component (on_router Router.flush_pending_barrier);
  match pending_result with
  | kROUTE_FAULTED => mret true
  | kROUTE_BLOCKED => idle;; mret false
  | kROUTE_COMPLETED =>
      message ← on_component pop_path_message;
      match message with
      | None => idle;; mret false
      | Some message =>
          worked;;
          route_result ← on_component (on_router (Router.route_message clk message));
          mret (bool_decide (route_result = kROUTE_FAULTED))
      end
  end.
Definition router_thread (polling_config : IdleBackoffConfig) (checks : nat) : RouterWork → option (Worker RouterWork) := thread polling_config checks router_round.

(** *** The shards *)

(** What a shard thread writes to the standard error. *)
Inductive ShardReport :=
  | ReportParseFailure (result : ShardPumpResult)
  | ReportEventFailure (result : ShardPumpResult)
  | ReportBarrierFailure (result : ShardPumpResult)
  | ReportRouteRejected
  | ReportMissingFrame (result : ShardPumpResult)
  | ReportHandleLeak (result : ShardPumpResult)
  | ReportOther (code : ShardPumpCode).
Definition shard_report (result : ShardPumpResult) : option ShardReport :=
  match pu_code result with
  | kPUMP_IDLE | kPUMP_APPLIED | kEVENT_IGNORED | kMARKET_BARRIER_HANDLED | kSUBSCRIPTION_BARRIER_HANDLED | kDRAINED_FRAME | kDRAIN_COMPLETE => None
  | kPARSE_REJECTED => Some (ReportParseFailure result)
  | kEVENT_REJECTED | kEVENT_DESYNCED => Some (ReportEventFailure result)
  | kINTEGRITY_BARRIER_REJECTED => Some (ReportBarrierFailure result)
  | kFRAME_ROUTE_REJECTED => Some ReportRouteRejected
  | kMISSING_FRAME => Some (ReportMissingFrame result)
  | kHANDLE_LEAK => Some (ReportHandleLeak result)
  | code => Some (ReportOther code)
  end.

Section Shard.
Context `{!SimdJson}.
Variable pool_views : nat → Pool.FramePool.
Variable allocations : nat → bool.
Record ShardWork := mkShardWork { sw_shard : Shard.ShardState (Q := Q); sw_reports : list ShardReport }.
#[export] Instance eta_ShardWork : Eta ShardWork := λ r, mkShardWork (sw_shard r) (sw_reports r).
Definition on_shard {A} (m : M Shard.ShardState A) : M ShardWork A := λ w, let '(a, s) := m (sw_shard w) in (a, w ⟪ sw_shard := s ⟫).

Definition kSHARD_COMMANDS : nat := 64.
Definition shard_round : M (Worker ShardWork) bool :=
  commands_processed ← on_component (on_shard (Shard.drain_control_commands kSHARD_COMMANDS 0));
  on_component (on_shard (Shard.maybe_send_telemetry clk));;
  result ← on_component (on_shard (Shard.pump_once clk pool_views allocations));
  on_component (modify (λ w, w ⟪ sw_reports ::= λ l, l ++ option_list (shard_report result) ⟫));;
  (if bool_decide (pu_code result = kPUMP_IDLE) && (commands_processed =? 0) then idle else worked);;
  mret false.
Definition shard_thread (polling_config : IdleBackoffConfig) (checks : nat) : ShardWork → option (Worker ShardWork) := thread polling_config checks shard_round.
End Shard.

(** *** The OMS and the strategy *)

Variable hash_order : list Z → list Z.
Variable wall_clk : nat → Z.

Definition oms_round : M (Worker (Oms.OmsState (Q := Q))) bool := pump_round (Oms.pump_once clk hash_order) (λ result, bool_decide (result = kPUMP_NoWork)).
Definition oms_thread (polling_config : IdleBackoffConfig) (checks : nat) : Oms.OmsState → option (Worker Oms.OmsState) := thread polling_config checks oms_round.

Definition strategy_round : M (Worker (Strategy.StrategyState (Q := Q))) bool :=
  pump_round (Strategy.strategy_pump_once clk wall_clk hash_order) (λ result, bool_decide (Strategy.sp_code result = Strategy.kNO_WORK)).
Definition strategy_thread (polling_config : IdleBackoffConfig) (checks : nat) : Strategy.StrategyState → option (Worker Strategy.StrategyState) := thread polling_config checks strategy_round.

(** *** The logger *)

Variable write_outcome : nat → option nat.
Definition kLoggerPumpBatchSize : nat := 256.
Definition logger_round : M (Worker (Logger.LoggerState (Q := Q))) bool := pump_round (Logger.pump clk write_outcome kLoggerPumpBatchSize) (λ written, written =? 0).
(** How many handles wait in the queues of the logger. *)
Definition queued (queues : list (option (list (option FrameHandle)))) : nat := sum_list ((λ q, from_option length 0%nat q) <$> queues).
(** [while (pump(...) > 0)]: a pump that writes takes a handle, so there are at most as many as
    wait, and one more that writes nothing. *)
Fixpoint write_the_rest (fuel : nat) : M (Logger.LoggerState (Q := Q)) unit :=
  match fuel with
  | O => mret tt
  | S fuel => written ← Logger.pump clk write_outcome kLoggerPumpBatchSize; if 0 <? written then write_the_rest fuel else mret tt
  end.
Definition logger_thread (polling_config : IdleBackoffConfig) (checks : nat) (logger : Logger.LoggerState (Q := Q)) : option (Logger.LoggerState (Q := Q)) :=
  w ← thread polling_config checks logger_round logger;
  Some (write_the_rest (S (queued (Logger.lg_input_queues (wk_component w)))) (wk_component w)).2.

(** *** The command server *)

Record ServerStartupResult := mkServerStartupResult { ss_ready : bool; ss_error : string }.
Record ServerThreadState := mkServerThreadState { sts_error : string; sts_failed : bool }.
(** How a run of the server ended: with the text it set, or an exception with its message, if it
    has one. *)
Inductive ServerRun := | RunReturned (error : string) | RunThrew (what : option string).
Definition local_error (run : ServerRun) : string :=
  match run with
  | RunReturned error => error
  | RunThrew (Some what) => "operator sever exception: " +:+ what
  | RunThrew None => "operator server exception: unknown error"
  end%string.
(** [ready_reported]: the server called the function that says it is ready. *)
Definition server_startup (ready_reported : bool) (run : ServerRun) : ServerStartupResult :=
  if ready_reported then mkServerStartupResult true ""
  else mkServerStartupResult false (if bool_decide (local_error run = ""%string) then "operator server exited before becoming ready"%string else local_error run).
Definition server_thread_end (ready_reported : bool) (run : ServerRun) : ServerThreadState :=
  if negb ready_reported || bool_decide (local_error run = ""%string) then mkServerThreadState "" false else mkServerThreadState (local_error run) true.

(** ** The main loop *)

Variable push_room : nat → nat → bool.
(** What the main thread sees in a round: whether a signal has come when the round begins, and
    whether the server has failed when it looks.  [true]: it sleeps before the next round. *)
Fixpoint main_loop (rounds : list (bool * bool)) : M (ControlPlane.ControlState (Q := Q)) (list bool) :=
  match rounds with
  | [] => mret []
  | (signal, server_failed) :: rounds =>
      if (signal : bool) then mret []
      else
        did_work ← ControlPlane.pump_control_plane_once clk push_room hash_order;
        process_state ← gets ControlPlane.cp_process_state;
        if (server_failed : bool) then mret []
        else if pst_shutdown_requested process_state then mret []
        else slept ← main_loop rounds; mret (negb did_work :: slept)
  end.
End Threads.

(** ** The shutdown *)

Inductive AppThread := | TServer | TShard (index : nat) | TRouter | TLogger | TOms | TStrategy | TRest | TFeed | TWire.
#[export] Instance AppThread_eq_dec : EqDecision AppThread.
Proof. solve_decision. Defined.
Inductive ThreadAction := | RequestStop (t : AppThread) | Join (t : AppThread).
#[export] Instance ThreadAction_eq_dec : EqDecision ThreadAction.
Proof. solve_decision. Defined.

Section Shutdown.
Variable config : AppConfig.
Variable shard_count : nat.
Definition when (enabled : bool) (t : AppThread) : list AppThread := if enabled then [t] else [].
Definition wire_on : bool := md_enable_market_data (ka_market_data (ap_kalshi config)).
Definition feed_on : bool := pf_enable_private_order_feed (ka_private_order_feed (ap_kalshi config)).
Definition rest_on : bool := or_enable_order_rest (ka_order_rest (ap_kalshi config)).
Definition strategy_on : bool := sc_enable_monotonic_arb (ap_strategy config).
Definition shard_threads : list AppThread := TShard <$> seq 0 shard_count.

(** The threads that run when the main loop is entered, in the order they were started. *)
Definition started_threads : list AppThread :=
  [TServer] ++ shard_threads ++ [TRouter; TLogger] ++ when (App.order_graph_enabled config) TOms ++ when strategy_on TStrategy ++ when rest_on TRest ++
  when feed_on TFeed ++ when wire_on TWire.
(** What the main thread does after its loop. *)
Definition shutdown : list ThreadAction :=
  RequestStop <$> (when wire_on TWire ++ when strategy_on TStrategy ++ when feed_on TFeed ++ when rest_on TRest ++ when (App.order_graph_enabled config) TOms ++
    [TRouter] ++ shard_threads ++ [TServer]).
End Shutdown.
Definition shutdown_actions (config : AppConfig) (shard_count : nat) : list ThreadAction :=
  shutdown config shard_count ++
  (Join <$> (when (wire_on config) TWire ++ when (feed_on config) TFeed ++ when (rest_on config) TRest ++ when (strategy_on config) TStrategy ++
    when (App.order_graph_enabled config) TOms ++ [TRouter] ++ shard_threads shard_count)) ++
  [RequestStop TLogger; Join TLogger; Join TServer].
(** What [main] returns. *)
Definition exit_code (state : ServerThreadState) : Z := if sts_failed state then 1 else 0.
End Threads.
