(* ===== verification/ThreadsStop.v ===== *)
(** * ThreadsStop: stopping the process loses no market data

    The producers of the logger are joined before the logger is asked to stop, and then the
    thread of the logger writes all that waits in its queues.

    At the end, Module [ThreadsDemo]: a logger that is stopped with two frames in its queues, for the witness. *)

From S2P Require Import Prelude Spsc IdleBackoff MarketTypes FramePool Config Tape Logger LoggerTape App Threads.
Open Scope Z_scope.

Module ThreadsStop.
Import Backoff Pool Config Tape Logger Threads.

(** ** The logger *)

Section Logger.
Context {Q : Type → Type} `{HQ : !PushQueue Q}.
Variable clk : nat → Z.
Variable write_outcome : nat → option nat.
Implicit Types s : LoggerState (Q := Q).

(** A handle that can be written: its frame is alive and not too long. *)
Definition loggable (pool : FramePool) (h : option FrameHandle) : Prop :=
  ∃ handle f, h = Some handle ∧ frame pool handle = Some f ∧ fr_len f ≤ Z.of_nat kMaxFrameBytes.
Definition queue_ready (pool : FramePool) (q : option (list (option FrameHandle))) : Prop := match q with Some l => Forall (loggable pool) l | None => True end.
(** Nobody adds to the queues any more, and no write has failed. *)
Record quiet s : Prop := {
  qu_ready : Forall (queue_ready (lg_frame_pool s)) (lg_input_queues s);
  qu_failed : lg_failed s = false;
  qu_next : (lg_next_input_queue s < length (lg_input_queues s))%nat;
}.
Definition empty_queue (q : option (list (option FrameHandle))) : Prop := q = None ∨ q = Some [].

#[local] Opaque kLoggerPumpBatchSize.
Hypothesis writes_succeed : ∀ n, write_outcome n = None.

Definition place s := (lg_frame_pool s, lg_input_queues s, lg_next_input_queue s, lg_failed s).
Lemma place_quiet s s' : place s' = place s → quiet s → quiet s'.
Proof. unfold place. intros [= E1 E2 E3 E4] [Q1 Q2 Q3]. split; congruence. Qed.

Lemma hand_back_same handle : rel (same (λ s, (place s, lg_logged_count s))) (hand_back handle : M (LoggerState (Q := Q)) unit).
Proof. intros s. unfold same, hand_back, place. destruct (q_push handle _) as [[] q]; done. Qed.
Lemma record_latency_same handle now s : (place (record_latency handle now s), lg_logged_count (record_latency handle now s)) = (place s, lg_logged_count s).
Proof. unfold record_latency, place. by destruct (_ <? _)%nat. Qed.

Lemma stream_write_same bytes s : lg_failed s = false → wp (stream_write write_outcome bytes) (λ _ s', (place s', lg_logged_count s') = (place s, lg_logged_count s)) s.
Proof. intros Hf. unfold wp, stream_write, place. rewrite Hf, writes_succeed. cbn. by rewrite Hf. Qed.
Lemma log_handle_writes handle f s : lg_failed s = false → frame (lg_frame_pool s) handle = Some f → fr_len f ≤ Z.of_nat kMaxFrameBytes →
  wp (log_handle clk write_outcome handle) (λ r s', r = true ∧ place s' = place s ∧ lg_logged_count s' = u64 (lg_logged_count s + 1)) s.
Proof.
  intros Hw Hf Hl. unfold log_handle. do 2 wp_step. rewrite Hf. destruct (Z.ltb_spec (Z.of_nat kMaxFrameBytes) (fr_len f)) as [|_]; [lia|].
  wp_step. eapply wp_mono; [by apply stream_write_same|]. cbv beta. intros _ s1 E1. assert (lg_failed s1 = false) as H1 by (unfold place in E1; congruence).
  wp_step. eapply wp_mono; [by apply stream_write_same|]. cbv beta. intros _ s2 E2. rewrite E1 in E2. assert (lg_failed s2 = false) as H2 by (unfold place in E2; congruence).
  do 2 wp_step. rewrite H2. do 2 wp_step. wp_step. unfold wp at 1, logger_now. cbn [fst snd]. do 2 wp_step. wp_step.
  eapply (wp_rel (same (λ s, (place s, lg_logged_count s)))); [apply hand_back_same|]. intros _ s' E. wp_step. split; [done|]. unfold same in E. rewrite record_latency_same in E.
  assert (place s' = place s2) as Ep by exact (f_equal fst E). assert (lg_logged_count s' = u64 (lg_logged_count s2 + 1)) as Ec by exact (f_equal snd E).
  apply (f_equal fst) in E2 as E3. apply (f_equal snd) in E2 as E4. cbn [fst snd] in E3, E4. split; congruence.
Qed.

Lemma queued_cons q queues : queued (q :: queues) = (from_option length 0 q + queued queues)%nat.
Proof. done. Qed.
Lemma queued_insert (queues : list (option (list (option FrameHandle)))) i h l : queues !! i = Some (Some (h :: l)) → queued queues = S (queued (<[i := Some l]> queues)).
Proof.
  revert i. induction queues as [|q queues IH]; intros [|i] Hi; [done|done| |]; cbn [lookup list_lookup insert list_insert] in *; rewrite !queued_cons; [by injection Hi as ->|]. rewrite (IH i Hi). apply Nat.add_succ_r.
Qed.
Lemma next_turn (next n len : nat) : (((next + 1) mod len + n) mod len)%nat = ((next + S n) mod len)%nat.
Proof. rewrite Nat.Div0.add_mod_idemp_l. f_equal. lia. Qed.

(** What a batch does: it writes what it takes, and if it writes nothing the queues it looked at
    are empty. *)
Record batch (n : nat) (k : nat) s s' : Prop := {
  ba_quiet : quiet s';
  ba_taken : queued (lg_input_queues s) = (queued (lg_input_queues s') + k)%nat;
  ba_count : lg_logged_count s' = u64 (lg_logged_count s + Z.of_nat k);
  ba_length : length (lg_input_queues s') = length (lg_input_queues s);
  ba_idle : k = 0%nat → lg_input_queues s' = lg_input_queues s ∧
    ∀ j q, (j < n)%nat → lg_input_queues s !! ((lg_next_input_queue s + j) mod length (lg_input_queues s))%nat = Some q → empty_queue q;
}.

Lemma pump_loop_batch n logged s : quiet s → is_u64 (lg_logged_count s) → wp (pump_loop clk write_outcome n logged) (λ r s', ∃ k, r = logged + Z.of_nat k ∧ batch n k s s') s.
Proof.
  revert logged s. induction n as [|n IH]; intros logged s Hq Hc; cbn [pump_loop].
  { wp_step. exists 0%nat. split; [lia|]. split; [done|lia|by rewrite Z.add_0_r, u64_id|done|]. intros _. split; [done|]. lia. }
  do 2 wp_step. pose proof (qu_next _ Hq) as Hn. destruct (lg_input_queues s) as [|q0 qs] eqn:Eqs; [cbn in Hn; lia|]. rewrite <- Eqs in *. wp_step. unfold wp at 1, pop_input.
  destruct (lookup_lt_is_Some_2 _ _ Hn) as [q Hl]. rewrite Hl.
  assert ((q = None ∨ q = Some []) ∨ ∃ handle f l, q = Some (Some handle :: l) ∧ frame (lg_frame_pool s) handle = Some f ∧ fr_len f ≤ Z.of_nat kMaxFrameBytes ∧ Forall (loggable (lg_frame_pool s)) l) as [He|(handle & f & l & -> & Hf & Hlen & Hrest)].
  { pose proof (Forall_lookup_1 _ _ _ _ (qu_ready _ Hq) Hl) as Hr. destruct q as [[|h l]|]; [by left; right| |by left; left]. right. cbn in Hr. apply Forall_cons in Hr as [(handle & f & -> & Hf & Hlen) Hr]. eauto 10. }
  - set (s1 := s ⟪ lg_next_input_queue := ((lg_next_input_queue s + 1) mod length (lg_input_queues s))%nat ⟫).
    assert (quiet s1) as Hq1 by (destruct Hq; split; [done|done|]; unfold s1; cbn; apply Nat.mod_upper_bound; lia).
    assert (match q with Some (h :: l) => False | _ => True end) as Hne by (by destruct He as [->| ->]).
    replace (match q with Some (handle :: q) => (handle, s ⟪ lg_input_queues ::= <[lg_next_input_queue s := Some q]> ⟫) | _ => (None, s) end) with (@None FrameHandle, s) by (by destruct He as [->| ->]).
    cbn [fst snd]. do 2 wp_step. wp_step. unfold next_queue. wp_step. eapply wp_mono; [apply (IH logged s1 Hq1 Hc)|]. cbv beta. intros r s' (k & -> & [B1 B2 B3 B4 B5]). exists k. split; [done|].
    split; [done|exact B2|exact B3|exact B4|]. intros ->. destruct (B5 eq_refl) as [B6 B7]. split; [exact B6|]. intros [|j] q' Hj Hlook.
    + rewrite Nat.add_0_r, Nat.mod_small in Hlook by done. rewrite Hl in Hlook. by injection Hlook as <-.
    + apply (B7 j); [lia|]. change (lg_input_queues s1) with (lg_input_queues s). cbn. by rewrite next_turn.
  - cbn [fst snd]. set (s1 := s ⟪ _ ::= _ ⟫). assert (quiet s1) as Hq1.
    { destruct Hq as [Q1 Q2 Q3]. split; [|done|cbn; by rewrite length_insert]. cbn. apply Forall_insert; [done|exact Hrest]. }
    wp_step. eapply wp_mono; [apply (log_handle_writes handle f); [apply Hq1|done|done]|]. cbv beta. intros r s2 (-> & Ep & Ec). wp_step. unfold next_queue. wp_step.
    set (s3 := s2 ⟪ lg_next_input_queue := ((lg_next_input_queue s2 + 1) mod length (lg_input_queues s2))%nat ⟫). pose proof (place_quiet _ _ Ep Hq1) as Hq2.
    assert (quiet s3) as Hq3 by (destruct Hq2; split; [done|done|]; apply Nat.mod_upper_bound; cbn; lia).
    eapply wp_mono; [apply (IH (logged + 1) s3 Hq3); cbn; rewrite Ec; apply u64_range|]. cbv beta. intros r s' (k & -> & [B1 B2 B3 B4 B5]). exists (S k). split; [lia|].
    assert (lg_input_queues s3 = lg_input_queues s1) as E3 by exact (f_equal (λ p, p.1.1.2) Ep). rewrite E3 in B2, B4. pose proof (queued_insert _ _ _ _ Hl) as Hi.
    split; [done|..].
    + rewrite Hi. change (lg_input_queues s1) with (<[lg_next_input_queue s := Some l]> (lg_input_queues s)) in B2. lia.
    + rewrite B3. change (lg_logged_count s3) with (lg_logged_count s2). rewrite Ec. change (lg_logged_count s1) with (lg_logged_count s). rewrite LoggerTape.u64_add_add. f_equal. lia.
    + rewrite B4. cbn. apply length_insert.
    + done.
Qed.

Lemma status_same status : rel (same (λ s, (place s, lg_logged_count s))) (push_control_status status : M (LoggerState (Q := Q)) bool).
Proof. intros s. unfold same, push_control_status, place. destruct (lg_logger_to_control_status_queue s) as [q|]; [|done]. by destruct (q_push status q). Qed.
#[local] Hint Resolve status_same : frame.
Lemma logger_now_same : rel (same (λ s, (place s, lg_logged_count s))) (logger_now clk : M (LoggerState (Q := Q)) Z).
Proof. done. Qed.
#[local] Hint Resolve logger_now_same : frame.
Lemma telemetry_same : rel (same (λ s, (place s, lg_logged_count s))) (maybe_send_telemetry clk : M (LoggerState (Q := Q)) unit).
Proof. unfold maybe_send_telemetry. rel_auto. Qed.

Lemma pump_batch n s : quiet s → is_u64 (lg_logged_count s) → wp (pump clk write_outcome n) (λ r s', ∃ k, r = Z.of_nat k ∧ batch n k s s') s.
Proof.
  intros Hq Hc. unfold pump. wp_step. eapply wp_mono; [by apply pump_loop_batch|]. cbv beta. intros r s1 (k & -> & [B1 B2 B3 B4 B5]). wp_step.
  eapply (wp_rel (same (λ s, (place s, lg_logged_count s)))); [apply telemetry_same|]. intros _ s2 E. wp_step. exists k. split; [lia|]. unfold same in E.
  assert (place s2 = place s1) as Ep by exact (f_equal fst E). assert (lg_logged_count s2 = lg_logged_count s1) as Ec by exact (f_equal snd E).
  pose proof (place_quiet _ _ Ep B1) as Hq2. unfold place in Ep. injection Ep as E1 E2 E3 E4. split; [done|rewrite E2; exact B2|by rewrite Ec|by rewrite E2|]. intros Hk. rewrite E2. by apply B5.
Qed.

(** All the queues are empty if as many as there are were looked at and none had a handle. *)
Lemma all_seen n s : quiet s → (length (lg_input_queues s) ≤ n)%nat →
  (∀ j q, (j < n)%nat → lg_input_queues s !! ((lg_next_input_queue s + j) mod length (lg_input_queues s))%nat = Some q → empty_queue q) → Forall empty_queue (lg_input_queues s).
Proof.
  intros [_ _ Hn] Hlen H. apply Forall_lookup_2. intros i q Hl. pose proof (lookup_lt_Some _ _ _ Hl) as Hi. set (len := length (lg_input_queues s)) in *.
  apply (H ((i + (len - lg_next_input_queue s)) mod len)%nat); [pose proof (Nat.mod_upper_bound (i + (len - lg_next_input_queue s)) len); lia|].
  rewrite Nat.Div0.add_mod_idemp_r. replace (lg_next_input_queue s + (i + (len - lg_next_input_queue s)))%nat with (i + 1 * len)%nat by lia. rewrite Nat.Div0.mod_add, Nat.mod_small by done. exact Hl.
Qed.

(** What the thread of the logger has done. *)
Definition wrote_all (s s' : LoggerState (Q := Q)) : Prop :=
  Forall empty_queue (lg_input_queues s') ∧ lg_failed s' = false ∧ lg_logged_count s' = u64 (lg_logged_count s + Z.of_nat (queued (lg_input_queues s))).

Lemma rest_written fuel s : quiet s → is_u64 (lg_logged_count s) → (length (lg_input_queues s) ≤ kLoggerPumpBatchSize)%nat → (queued (lg_input_queues s) < fuel)%nat →
  wp (write_the_rest clk write_outcome fuel) (λ _ s', wrote_all s s') s.
Proof.
  revert s. induction fuel as [|fuel IH]; intros s Hq Hc Hlen Hf; [lia|]. cbn [write_the_rest]. wp_step. eapply wp_mono; [by apply pump_batch|]. cbv beta. intros r s1 (k & -> & [B1 B2 B3 B4 B5]).
  destruct (Z.ltb_spec 0 (Z.of_nat k)) as [Hk|Hk].
  - eapply wp_mono; [apply IH; [done|rewrite B3; apply u64_range|lia|lia]|]. cbv beta. intros _ s' (W1 & W2 & W3). split; [done|]. split; [done|]. rewrite W3, B3, LoggerTape.u64_add_add. f_equal. lia.
  - assert (k = 0%nat) as -> by lia. destruct (B5 eq_refl) as [B6 B7]. wp_step. pose proof (all_seen _ _ Hq Hlen B7) as He. split; [by rewrite B6|]. split; [apply B1|]. rewrite B3. do 2 f_equal.
    clear - He. unfold queued. induction He as [|q queues [->| ->] He IH]; [done|exact IH|exact IH].
Qed.

Lemma loop_batches n checks w : quiet (wk_component w) → is_u64 (lg_logged_count (wk_component w)) →
  wp (while_not_stopped checks (pump_round (pump clk write_outcome n) (λ written, written =? 0))) (λ _ w', ∃ k, quiet (wk_component w') ∧
    queued (lg_input_queues (wk_component w)) = (queued (lg_input_queues (wk_component w')) + k)%nat ∧ lg_logged_count (wk_component w') = u64 (lg_logged_count (wk_component w) + Z.of_nat k) ∧
    length (lg_input_queues (wk_component w')) = length (lg_input_queues (wk_component w))) w.
Proof.
  revert w. induction checks as [|checks IH]; intros w Hq Hc; cbn [while_not_stopped]; [wp_step; exists 0%nat; split; [done|]; split; [lia|]; split; [by rewrite Z.add_0_r, u64_id|done]|].
  wp_step. unfold pump_round at 1. wp_step. pose proof (pump_batch n _ Hq Hc) as (k & Hr & [B1 B2 B3 B4 B5]). unfold wp at 1, on_component.
  destruct (pump clk write_outcome n (wk_component w)) as [r s1]. cbn [fst snd] in *. wp_step.
  eapply (wp_rel (same wk_component)).
  { destruct (r =? 0); intros w'; [unfold same, idle; by destruct (next_idle_decision _)|done]. }
  intros _ w2 E2. wp_step. unfold same in E2. cbn in E2. eapply wp_mono; [apply IH; rewrite E2; [done|rewrite B3; apply u64_range]|]. cbv beta. rewrite E2. intros _ w' (k' & H1 & H2 & H3 & H4).
  exists (k + k')%nat. split; [done|]. split; [lia|]. split; [rewrite H3, B3, LoggerTape.u64_add_add; f_equal; lia|lia].
Qed.

Lemma logger_thread_writes polling_config checks s : quiet s → is_u64 (lg_logged_count s) → (length (lg_input_queues s) ≤ kLoggerPumpBatchSize)%nat → is_Some (make_backoff polling_config) →
  ∃ s', logger_thread clk write_outcome polling_config checks s = Some s' ∧ wrote_all s s'.
Proof.
  intros Hq Hc Hlen [b Hb]. unfold logger_thread, thread, logger_round. rewrite Hb. cbn [mbind option_bind]. eexists. split; [done|]. pose proof (loop_batches kLoggerPumpBatchSize checks (mkWorker s b []) Hq Hc) as (k & H1 & H2 & H3 & H4).
  set (w := (while_not_stopped _ _ _).2) in *. change (wk_component (mkWorker s b [])) with s in *. clearbody w.
  destruct (rest_written (S (queued (lg_input_queues (wk_component w)))) (wk_component w) H1) as (W1 & W2 & W3); [rewrite H3; apply u64_range|by rewrite H4|lia|].
  split; [exact W1|]. split; [exact W2|]. rewrite W3, H3, LoggerTape.u64_add_add. f_equal. rewrite H2. lia.
Qed.
End Logger.

(** ** The order of the shutdown *)

(** [a] is done, and [b] only after it. *)
Definition before (a b : ThreadAction) (actions : list ThreadAction) : Prop := ∃ l1 l2, actions = l1 ++ l2 ∧ a ∈ l1 ∧ (b ∉ l1) ∧ b ∈ l2.
(** The threads that put handles into the queues of the logger. *)
Definition feeds_logger (t : AppThread) : bool := match t with TWire | TRouter | TShard _ => true | _ => false end.

Lemma elem_when (b : bool) t t' : t ∈ when b t' ↔ b = true ∧ t = t'.
Proof. unfold when. destruct b; [rewrite list_elem_of_singleton|rewrite elem_of_nil]; naive_solver. Qed.
Lemma elem_shards t n : t ∈ shard_threads n ↔ ∃ i, t = TShard i ∧ (i < n)%nat.
Proof. unfold shard_threads. rewrite list_elem_of_fmap. split; intros (i & -> & H); exists i; (split; [done|]); rewrite elem_of_seq in *; lia. Qed.
Lemma elem_stop t (l : list AppThread) : RequestStop t ∈ RequestStop <$> l ↔ t ∈ l.
Proof. rewrite list_elem_of_fmap. naive_solver. Qed.
Lemma elem_join t (l : list AppThread) : Join t ∈ Join <$> l ↔ t ∈ l.
Proof. rewrite list_elem_of_fmap. naive_solver. Qed.
Lemma not_stop t (l : list AppThread) : RequestStop t ∉ Join <$> l.
Proof. rewrite list_elem_of_fmap. naive_solver. Qed.
Lemma not_join t (l : list AppThread) : Join t ∉ RequestStop <$> l.
Proof. rewrite list_elem_of_fmap. naive_solver. Qed.

Ltac members := rewrite ?elem_of_app, ?elem_when, ?elem_shards, ?list_elem_of_singleton, ?elem_of_cons, ?elem_of_nil in *.

Lemma stopped_before_joined config shard_count t : t ∈ started_threads config shard_count → before (RequestStop t) (Join t) (shutdown_actions config shard_count).
Proof.
  intros Ht. destruct (decide (t = TLogger)) as [->|Hl].
  - exists (shutdown config shard_count ++ (Join <$> (when (wire_on config) TWire ++ when (feed_on config) TFeed ++ when (rest_on config) TRest ++ when (strategy_on config) TStrategy ++
      when (App.order_graph_enabled config) TOms ++ [TRouter] ++ shard_threads shard_count)) ++ [RequestStop TLogger]), [Join TLogger; Join TServer].
    unfold shutdown_actions, shutdown. split; [by rewrite <- !app_assoc|]. rewrite !elem_of_app, elem_join. split; [right; right; by apply list_elem_of_singleton|]. split; [|by left].
    intros [H|[H|H]]; [by apply not_join in H| |by apply list_elem_of_singleton in H]. members. naive_solver.
  - exists (shutdown config shard_count). eexists. split; [done|]. unfold shutdown. rewrite elem_stop. split; [unfold started_threads in Ht; members; naive_solver|]. split; [apply not_join|].
    rewrite elem_of_app, elem_join. unfold started_threads in Ht. members. naive_solver.
Qed.
Lemma joined_before_logger config shard_count t : t ∈ started_threads config shard_count → feeds_logger t = true → before (Join t) (RequestStop TLogger) (shutdown_actions config shard_count).
Proof.
  intros Ht Hf. unfold shutdown_actions. rewrite app_assoc. eexists _, _. split; [done|]. unfold shutdown. rewrite !elem_of_app, elem_join, elem_stop. split; [|split; [|by left]].
  - right. unfold started_threads in Ht. members. destruct t; naive_solver.
  - intros [H|H]; [|by apply not_stop in H]. members. naive_solver.
Qed.

(** C39: stopping the process loses no market data.  Every thread that was started is asked to
    stop before it is joined, and the threads that give frames to the logger, the connection,
    the router and the shards, are all joined before the logger is asked to stop.  And from then
    on the thread of the logger, whenever it sees the request, ends, and has written every frame
    that was still in its queues, which are empty: provided that no write fails and that its
    batch of 256 turns reaches every queue. *)
Theorem shutdown_writes_all_frames {Q : Type → Type} `{HQ : !PushQueue Q} clk write_outcome config shard_count polling_config checks (s : LoggerState (Q := Q)) :
  (∀ n, write_outcome n = None) → quiet s → is_u64 (lg_logged_count s) → length (lg_input_queues s) = (2 + shard_count)%nat → (shard_count ≤ 254)%nat → is_Some (make_backoff polling_config) →
  (∀ t, t ∈ started_threads config shard_count → before (RequestStop t) (Join t) (shutdown_actions config shard_count)) ∧
  (∀ t, t ∈ started_threads config shard_count → feeds_logger t = true → before (Join t) (RequestStop TLogger) (shutdown_actions config shard_count)) ∧
  ∃ s', logger_thread clk write_outcome polling_config checks s = Some s' ∧ Forall empty_queue (lg_input_queues s') ∧ lg_failed s' = false ∧
    lg_logged_count s' = u64 (lg_logged_count s + Z.of_nat (queued (lg_input_queues s))).
Proof.
  intros Hw Hq Hc Hlen Hn Hb. split; [intros t; apply stopped_before_joined|]. split; [intros t; apply joined_before_logger|]. apply logger_thread_writes; [done|done|done| |done].
  rewrite Hlen. unfold kLoggerPumpBatchSize. lia.
Qed.
End ThreadsStop.

(** ** A logger that is stopped with two frames in its queues, for the witness *)

Open Scope Z_scope.

Module ThreadsDemo.
Import Backoff Pool Config Tape Logger LoggerDemo Threads ThreadsStop.

(** One shard: the queues of the router, of the connection and of the shard. *)
Definition waiting : LoggerState (Q := Fifo) := start ⟪ lg_frame_pool := pool ⟫ ⟪ lg_input_queues := [Some [Some handle1]; Some []; Some [Some handle2]] ⟫.
Definition polling : IdleBackoffConfig := mkIdleBackoffConfig kLOW_LATENCY 0 0 1 1.

Lemma loggable_live handle : (match frame pool handle with Some f => fr_len f <=? 8192 | None => false end) = true → loggable pool (Some handle).
Proof. intros H. destruct (frame pool handle) as [f|] eqn:E; [|done]. exists handle, f. split; [done|]. split; [done|]. change (Z.of_nat kMaxFrameBytes) with 8192. lia. Qed.
Lemma waiting_quiet : quiet waiting.
Proof.
  split.
  - change (Forall (queue_ready pool) [Some [Some handle1]; Some []; Some [Some handle2]]). repeat apply Forall_cons_2; try apply Forall_nil_2; cbn [queue_ready]; repeat apply Forall_cons_2; try apply Forall_nil_2; apply loggable_live; vm_compute; reflexivity.
  - vm_compute. reflexivity.
  - apply Nat.ltb_lt. vm_compute. reflexivity.
Qed.

Lemma shutdown_writes_all_frames_witness :
  queued (lg_input_queues waiting) = 2%nat ∧
  before (Join (TShard 0)) (RequestStop TLogger) (shutdown_actions default_app_config 1) ∧
  ∃ s', logger_thread clock (λ _, None) polling 0 waiting = Some s' ∧ Forall empty_queue (lg_input_queues s').
Proof.
  assert (is_u64 (lg_logged_count waiting)) as H1 by (unfold is_u64; vm_compute; split; congruence).
  assert (length (lg_input_queues waiting) = (2 + 1)%nat) as H2 by (vm_compute; reflexivity).
  assert (1 ≤ 254)%nat as H3 by lia.
  assert (is_Some (make_backoff polling)) as H4 by (eexists; vm_compute; reflexivity).
  destruct (shutdown_writes_all_frames clock (λ _, None) default_app_config 1 polling 0 waiting (λ _, eq_refl) waiting_quiet H1 H2 H3 H4) as (_ & H5 & s' & H6 & H7 & _).
  split; [vm_compute; reflexivity|]. split; [|exists s'; split; [exact H6|exact H7]].
  apply H5; [|reflexivity]. apply (bool_decide_unpack _). vm_compute. exact I.
Defined.
End ThreadsDemo.
